(* ===== verification/_CoqProject ===== *)
-Q . S2P
Prelude.v
Traits.v
Account.v
VersionStack.v
AccountState.v
BlockState.v
State.v
Methods.v
Fixtures.v
Frames.v
Merge.v
Speculation.v
Words.v
WordMul.v
WordDiv.v
Uint256.v
Uint256Text.v
Uint256Theorems.v
CheckedMath.v
Rlp.v
RlpFacts.v
Transaction.v
TransactionFacts.v
Receipt.v
RlpTransaction.v
WireFormat.v
WireBlocks.v
PrecompileGas.v
ReserveBalance.v
ValidateTransaction.v
Precompiles.v
BlockHash.v
Ledger.v
Abi.v
ContractStorage.v
StorageFacts.v
StakingVars.v
StakingLayout.v
Staking.v
StakingCalls.v
StakingStore.v
StakingLists.v
StakingFacts.v
StakingSolvency.v
StakingRefinement.v
Host.v
ExecuteMessage.v
ExecuteMessageFacts.v
ExecuteTransaction.v
ValidateBlock.v
Requests.v
ExecuteBlock.v
BlockSequential.v
Opcodes.v
Runtime.v
Interpreter.v
PushFacts.v
InterpreterFacts.v
InterpreterSafety.v
InterpreterTheorems.v
RuntimeAsm.v
InterpreterWords.v
OffsetTrie.v
OffsetTrieNodes.v
OffsetTrieTree.v
OffsetTrieStore.v
OffsetTrieUpsert.v
OffsetTrieErase.v
OffsetTrieEncode.v
OffsetTrieHash.v
OffsetTrieCanonical.v
OffsetTrieRoot.v
OffsetTrieMap.v
PartialTrieDb.v
PartialTrieDbFacts.v
OffsetTrieWitness.v
OffsetTrieReads.v
OffsetTriePriming.v
OffsetTrieExamples.v
OffsetTrieTheorems.v
