(* ===== verification/Prelude.v ===== *)
(** * A verified model of the execution layer of monad

    The program executes the transactions of a block of an Ethereum-like
    chain.  Transactions run concurrently on one [BlockState]: each has a
    [State] that records what it read ([original_]) and keeps what it writes
    in stacks of versions ([current_]), one version per call frame.  When all
    earlier transactions have been merged, [can_merge] compares what was read
    with what the block state holds now; if they agree the transaction is
    merged, otherwise it is executed once more.

    ** The files and the code they model

    Paths are under src/category/; E stands for execution/ethereum and M for
    execution/monad.

    - Prelude: machine integers, outcomes, the state-and-error monad, its
      inversion lemmas and the rewrite database [run].
    - Traits, Account: the revision traits (vm/evm/traits.hpp), accounts and
      incarnations (E/core/account.hpp, E/types/incarnation.hpp).
    - VersionStack: E/state3/version_stack.hpp.
    - AccountState: E/state3/account_state, account_substate, page_tracker.
    - BlockState: reads of E/state2/block_state.cpp, the interface
      [BlockAccess] a [State] is written against, and the laws of the code
      cache; Merge: can_merge and merge of the same file.
    - State: every method of E/state3/state.cpp with the reserve tracking of
      M/reserve_balance.cpp; Methods: programs over these methods ([prog],
      run by [exec]).
    - Frames: invariant of the frames and what rolling back restores.
    - Speculation: concurrent against sequential execution.
    - Words, WordMul, WordDiv, Uint256, Uint256Text, Uint256Theorems:
      core/runtime/uint256, in both implementations of the word primitives.
    - CheckedMath: core/checked_math.
    - Transaction, TransactionFacts: E/core/transaction.hpp, signature,
      transaction_gas, blob fees, static validation, M/monad_transaction_gas.
    - Rlp, RlpFacts, RlpTransaction, WireFormat, WireBlocks: E/rlp and
      E/core/rlp: scalars, transactions, receipts, headers, blocks.
    - Receipt: E/core/receipt and the bloom filter.
    - PrecompileGas, Precompiles: gas costs and dispatch of the precompiles of
      Ethereum and Monad.
    - ReserveBalance: M/reserve_balance.cpp, the scan at the end of a
      transaction and the precompile.
    - ValidateTransaction: E/validate_transaction and
      M/validate_monad_transaction.
    - BlockHash: E/block_hash_buffer and block_hash_history.
    - Abi, ContractStorage: E/core/contract: arguments and results of calls,
      events, typed variables and arrays over the slots of an account.
    - Ledger, StorageFacts: the abstract machine of a contract: its slots, the
      balances and the logs, with runs [lruns] of programs on it, evaluated by
      [leval].
    - StakingVars, Staking, StakingCalls: M/staking: the variables of the
      contract and where they are, the operations and entry points for users,
      the getters, system calls, dispatch table, priority fees, the prelude of
      a block, and M/validate_system_transaction.
    - StakingLayout: where variables are in the storage; StakingStore: the
      quantities a ledger holds ([reading]) and the rules [wp], [rwp] by which
      programs of the contract are proved; StakingLists: the linked lists;
      StakingFacts: delegation and its bookkeeping; StakingSolvency: what is
      owed against the balance; StakingRefinement: the contract on the state
      of a transaction.
    - Host: E/evmc_host and vm/evm/delegation.
    - ExecuteMessage, ExecuteMessageFacts: E/execute_message, with the nesting
      of vm/runtime/call.cpp.
    - ExecuteTransaction: E/execute_transaction.
    - ValidateBlock: E/validate_block, M/validate_monad_block and the
      revisions of the main networks (E/chain, M/chain); Requests:
      E/process_requests; ExecuteBlock: E/execute_block,
      execute_block_header, block_reward, dispatch_transaction and
      M/execute_system_transaction; BlockSequential: the turns of the
      transactions of a block against their sequential execution.
    - Opcodes: vm/evm/opcodes.hpp and vm/interpreter/intercode (the padded
      code and its jump destinations); Runtime: vm/runtime, the environment
      and context of a frame and the routines the instructions call, in the
      monad [rt] over trees of host calls; Interpreter: vm/interpreter, one
      definition per instruction, the table and the loop, and the parts of
      vm/vm.cpp that run it.
    - PushFacts: the operands of pushes; InterpreterFacts,
      InterpreterSafety, InterpreterTheorems: the rules [wp] for runtime
      routines, the safety of every instruction, the theorems on the
      interpreter; RuntimeAsm: vm/runtime/math.S and context.S; InterpreterWords:
      the numbers of the model against the words of the code.
    - OffsetTrie: E/db/offset_trie, the Merkle Patricia trie of stateless
      execution in a read-only blob with an overlay, with the paths of
      mpt/nibbles_view.hpp and core/nibble.h, mpt/merkle/compact_encode.hpp and
      core/rlp/encode.hpp; PartialTrieDb: E/db/partial_trie_db, the [Db] over
      it.
    - OffsetTrieNodes: bytes of nodes and back; OffsetTrieTree: trees with
      their canonical shape [wf], what keys [find] in them, their encoding and
      root hash as Ethereum defines them, and when a store holds a tree
      ([rep]); OffsetTrieStore, OffsetTrieUpsert, OffsetTrieErase,
      OffsetTrieEncode, OffsetTrieHash, OffsetTrieRoot: the operations against
      the trees; OffsetTrieCanonical: one shape for each content;
      OffsetTrieMap: insertion and erasure on a map; PartialTrieDbFacts: the
      passes of commit; OffsetTrieWitness: digests and the subtrees they
      stand for; OffsetTrieReads: reads of the pre-state; OffsetTriePriming:
      the walk of the constructor; OffsetTrieExamples, OffsetTrieTheorems: two
      concrete tries, and the theorems.
    - Fixtures: the concrete database, cache and hash of the witnesses.

    A 64- or 256-bit unsigned integer is a [Z] with its truncation written
    out, an address or a hash a [Z], a byte string a [list Z], an unordered
    map a [gmap].  [MONAD_ASSERT] is [Abort], [MONAD_ASSERT_THROW] is
    [Throw], an error result is a value.  Assertions of debug builds are
    modelled like the others.

    ** What the theorems show

    - Concurrency: a block executed concurrently gives the receipts and the
      reads of its transactions executed one after the other
      (block_sequential); a transaction that passes the check has the result
      and the state it would have had alone (transaction_sequential,
      speculation_sound), under what other transactions are shown to do
      (environment_steps); can_merge decides agreement, merge can be read
      back.
    - Frames: pop_reject restores, pop_accept keeps, the assertions of the
      frame operations hold, dead accounts are removed at the end.
    - Staking: on the ledger, every method and system call keeps what is owed
      equal to the balance up to what came with the call
      (staking_calls_solvent, staking_syscalls_solvent), a delegation is
      brought up to date exactly (delegator_caught_up), the lists are lists
      (linked_lists), no two variables share a slot
      (staking_layout_injective), the snapshot takes the candidates with most
      stake (consensus_set_selection); and the state of a transaction
      implements the ledger (staking_on_state).
    - Blocks: what a valid block and a valid Monad body are (block_validation,
      monad_body_accepted), what the deposit requests are (deposit_requests).
    - Messages: whatever the virtual machine does, a failed call leaves no
      trace and a failed creation only a nonce and an access
      (message_atomic), nesting ends by itself, no gas is created.
    - Interpreter: no code, no message and no answer of the host makes it
      leave its code, its stack of 1024 words or the memory it has paid for,
      nor fail an assertion on them, it ends within
      its gas and returns at most that (interpreter_safe), so that messages
      run by it at every depth create no gas (interpreted_message_gas); jumps
      reach exactly the destinations (jump_targets), both ways to read the
      operand of a push agree (push_operand_correct), the words compute the
      numbers (instruction_arithmetic), the assembly is the C++ it replaces
      (assembly_correct), memory can be read back (mstore_mload).
    - Witness trie: state_root returns the Merkle root of the tree the store
      holds (trie_state_root), which depends on the accounts and slots alone
      (state_root_content); erase_node deletes from a map and keeps the shape
      canonical (trie_erase, and trie_insert for upsert_node); reads answer
      from the pre-state (witness_reads); a blob the constructor accepts holds
      one tree, with the hashes of its nodes cached if it is canonical
      (constructor_holds); commit applies the deltas of a block
      (commit_correct), and on a witness it leads to the state root of the
      full state (stateless_root).
    - Validation: which transactions pass the static rules
      (static_validation_sound), what an accepted one can pay, and the case in which
      Monad accepts one whose nonce was never compared.
    - Integers: the word-level algorithms compute the integer functions, with
      every access in range; texts can be read back.
    - Wire format: decoding inverts encoding and conversely, no input stops
      the transaction decoder, one block body does.
    - Gas: intrinsic, floor, blob and precompile gas computed with wrapping
      integers equal their formulas; bounds of refunds.
    - Block hashes: ring buffer and proposals refine a map from numbers to
      hashes.

    ** Fuel and bounds

    Loops whose recursion is not structural carry fuel, and a theorem says
    that it is enough: the length of the input for the list decoders,
    1024 nested messages for the virtual machine, below which an arbitrary
    program [bottom] stands (message_terminates shows it is never reached).
    The loop of the interpreter has one step more than the gas of the frame:
    every instruction that continues costs gas (interpreter_safe).  Walks of
    the witness trie visit at most 132 nodes ([trie_fuel]): a canonical trie of
    accounts and one of storage below it, 65 levels each; the theorems show
    that this is enough for canonical tries.  The series of the blob fee has no
    fuel: its loop runs until the term is zero, at most 2^31 times, after
    which the [int] that counts the terms would overflow; for an excess of at
    most 64 update fractions it ends within 256 (blob_base_fee_exact).

    ** Assumptions

    Each block-state operation is atomic, as the accessors of the concurrent
    map make it.  The virtual machine is any tree of host calls and nested
    messages that ends in a result; message_gas assumes that it returns no
    more gas than it was given, which is proved of the interpreter.  The
    region of memory of a frame starts at an offset that the message carries,
    and the capacity it finds there is arbitrary; interpreter_safe is about
    transactions of at most two billion gas, the bound that the comment at
    Memory::parent_total_size names.  In block_sequential the turns follow the
    order of the promises, other transactions may read between any two reads,
    and an account a transaction creates has no slot with a value in the
    block state ([created_clean]).  The hash function is arbitrary, injective
    where content addressing needs it.  A database is three read functions;
    reads of a code hash are answered by what is stored.  Precompiled
    functions and the verification of signatures are parameters.
    A witness is a canonical trie: the constructor checks that the nodes of the
    blob form a tree and computes their hashes, the shape is an assumption on
    the producer.  Node ids of the overlay do not run out: a block takes three
    for an account and for a slot.
    Iteration over unordered maps follows [map_to_list], or, in commit, any
    order.  Tracers, event
    recorders and metrics, which do not write the state, are left out.

    ** Not modelled

    The compiler of the virtual machine: it emits x86 code through a library,
    and relating that code to the interpreter needs a semantics of both; the
    theorems on messages, transactions, blocks and staking hold for an
    arbitrary virtual machine.  Of the runtime, the allocation of memory, which
    is taken to succeed, the copying of its buffer, the machine stack that an exit unwinds and the statistics are left out.  The
    Merkle Patricia trie on disk, asynchronous I/O, state sync,
    RPC, tracers, run loops and genesis data are outside the model: they are
    parameters, input and output, or recorders.  Recovery of senders is
    cryptography. *)
From Stdlib Require Export ZArith Lia.
From stdpp Require Export base gmap list strings option functions.
#[global] Set Default Goal Selector "!".

(** ** Machine integers

    An unsigned integer of the source is a [Z]; the operations that can wrap
    around are written with the truncations below. *)
Open Scope Z_scope.

Definition u32 (z : Z) : Z := z mod 2 ^ 32.
Definition u64 (z : Z) : Z := z mod 2 ^ 64.
Definition u256 (z : Z) : Z := z mod 2 ^ 256.
Definition U64_MAX : Z := 2 ^ 64 - 1.
Definition U256_MAX : Z := 2 ^ 256 - 1.

(** ** Outcomes

    [Abort] is a failed [MONAD_ASSERT] (the process stops), [Throw] a failed
    [MONAD_ASSERT_THROW] (a [MonadException] with its message). *)
Inductive outcome (A : Type) : Type :=
| Ok (a : A)
| Abort
| Throw (msg : string).
Arguments Ok {A} a.
Arguments Abort {A}.
Arguments Throw {A} msg.

(** ** The state-and-error monad

    A method of the program that mutates an object of type [W] and may stop
    is a function [W → outcome (A * W)].  The monad operations and their
    notation ([x ← m; k]) are stdpp's classes. *)
Definition M (W A : Type) : Type := W → outcome (A * W).

#[global] Instance M_ret {W} : MRet (M W) := λ A a w, Ok (a, w).
#[global] Instance M_bind {W} : MBind (M W) := λ A B k m w,
  match m w with
  | Ok (a, w') => k a w'
  | Abort => Abort
  | Throw s => Throw s
  end.

Section monad.
Context {W : Type}.

Definition mget : M W W := λ w, Ok (w, w).
Definition mgets {A} (f : W → A) : M W A := λ w, Ok (f w, w).
Definition mmodify (f : W → W) : M W unit := λ w, Ok ((), f w).
Definition mabort {A} : M W A := λ _, Abort.
Definition mthrow {A} (s : string) : M W A := λ _, Throw s.

(** [MONAD_ASSERT(b)] and [MONAD_ASSERT_THROW(b, s)]. *)
Definition massert (b : bool) : M W unit := if b then mret () else mabort.
Definition massert_throw (b : bool) (s : string) : M W unit :=
  if b then mret () else mthrow s.

(** A dereference of an optional the code has checked. *)
Definition mvalue {A} (o : option A) : M W A :=
  match o with Some a => mret a | None => mabort end.

(** [for (auto const &x : l) f(x);] *)
Fixpoint mfor {A} (l : list A) (f : A → M W unit) : M W unit :=
  match l with
  | [] => mret ()
  | x :: l => f x ≫= λ _, mfor l f
  end.

(** A loop whose body can return from the enclosing function: [Some r] is
    the early [return r], [None] falls through to the next iteration. *)
Fixpoint mfor_return {A R} (l : list A) (f : A → M W (option R)) : M W (option R) :=
  match l with
  | [] => mret None
  | x :: l => f x ≫= λ o, match o with Some r => mret (Some r) | None => mfor_return l f end
  end.

Lemma bind_Ok {A B} (m : M W A) (k : A → M W B) w b w2 :
  (m ≫= k) w = Ok (b, w2) ↔ ∃ a w1, m w = Ok (a, w1) ∧ k a w1 = Ok (b, w2).
Proof.
  unfold mbind, M_bind. split.
  - destruct (m w) as [[a w1]| |] eqn:E; [eauto|done|done].
  - intros (a & w1 & -> & ->). done.
Qed.

Lemma bind_Ok_eq {A B} (m : M W A) (k : A → M W B) w a w1 :
  m w = Ok (a, w1) → (m ≫= k) w = k a w1.
Proof. unfold mbind, M_bind. by intros ->. Qed.

Lemma bind_Abort {A B} (m : M W A) (k : A → M W B) w : m w = Abort → (m ≫= k) w = Abort.
Proof. unfold mbind, M_bind. by intros ->. Qed.
Lemma bind_Throw {A B} (m : M W A) (k : A → M W B) w s : m w = Throw s → (m ≫= k) w = Throw s.
Proof. unfold mbind, M_bind. by intros ->. Qed.

Lemma ret_Ok {A} (a b : A) (w w2 : W) :
  (mret a : M W A) w = Ok (b, w2) ↔ b = a ∧ w2 = w.
Proof. unfold mret, M_ret. naive_solver. Qed.

Lemma massert_Ok b (w w2 : W) r :
  massert b w = Ok (r, w2) ↔ b = true ∧ w2 = w.
Proof. unfold massert, mabort, mret, M_ret. destruct b, r; naive_solver. Qed.

Lemma massert_throw_Ok b s (w w2 : W) r :
  massert_throw b s w = Ok (r, w2) ↔ b = true ∧ w2 = w.
Proof. unfold massert_throw, mthrow, mret, M_ret. destruct b, r; naive_solver. Qed.

Lemma mvalue_Ok {A} (o : option A) a (w w2 : W) :
  mvalue o w = Ok (a, w2) ↔ o = Some a ∧ w2 = w.
Proof. unfold mvalue, mabort, mret, M_ret. destruct o; naive_solver. Qed.

(** *** Symbolic execution: rewriting a run forward *)
Lemma run_ret {A} (a : A) (w : W) : (mret a : M W A) w = Ok (a, w).
Proof. done. Qed.
Lemma run_bind_ret {A B} (a : A) (k : A → M W B) w : (mret a ≫= k) w = k a w.
Proof. done. Qed.
Lemma run_bind_bind {A B C} (m : M W A) (f : A → M W B) (k : B → M W C) w :
  ((m ≫= f) ≫= k) w = (m ≫= λ a, f a ≫= k) w.
Proof. unfold mbind, M_bind. by destruct (m w) as [[]| |]. Qed.
Lemma run_massert {B} (k : () → M W B) w : (massert true ≫= k) w = k () w.
Proof. done. Qed.
Lemma run_massert_throw {B} s (k : () → M W B) w : (massert_throw true s ≫= k) w = k () w.
Proof. done. Qed.
Lemma run_mvalue {A B} (a : A) (k : A → M W B) w : (mvalue (Some a) ≫= k) w = k a w.
Proof. done. Qed.
Lemma run_mgets {A B} (f : W → A) (k : A → M W B) w : (mgets f ≫= k) w = k (f w) w.
Proof. done. Qed.
Lemma run_mmodify {B} f (k : () → M W B) w : (mmodify f ≫= k) w = k () (f w).
Proof. done. Qed.
End monad.

Create HintDb run discriminated.
#[export] Hint Rewrite @run_ret @run_bind_ret @run_bind_bind @run_massert @run_massert_throw
  @run_mvalue @run_mgets @run_mmodify : run.

#[global] Opaque M_ret M_bind.

(** Inverts hypotheses that say a monadic run succeeded. *)
Ltac minv_step :=
  match goal with
  | H : (_ ≫= _) _ = Ok _ |- _ =>
      apply bind_Ok in H; destruct H as (? & ? & ? & ?)
  | H : (mret _) _ = Ok _ |- _ => apply ret_Ok in H; destruct H; subst
  | H : massert _ _ = Ok _ |- _ => apply massert_Ok in H; destruct H; subst
  | H : massert_throw _ _ _ = Ok _ |- _ => apply massert_throw_Ok in H; destruct H; subst
  | H : mvalue _ _ = Ok _ |- _ => apply mvalue_Ok in H; destruct H; subst
  | H : mget _ = Ok _ |- _ => unfold mget in H; injection H as ? ?; subst
  | H : mgets _ _ = Ok _ |- _ => unfold mgets in H; injection H as ? ?; subst
  | H : mmodify _ _ = Ok _ |- _ => unfold mmodify in H; injection H as ? ?; subst
  | H : mabort _ = Ok _ |- _ => discriminate H
  | H : mthrow _ _ = Ok _ |- _ => discriminate H
  | u : unit |- _ => destruct u
  end.
Ltac minv := repeat minv_step.
