(* ===== verification/Traits.v ===== *)
(** * Chain revisions and traits

    The revision enums of src/category/vm/evm/revision.h and
    src/category/vm/evm/monad/revision.h and the compile-time traits of
    src/category/vm/evm/traits.hpp that the modelled code consults. *)
From S2P Require Import Prelude.

(** [enum monad_eth_revision] and [enum monad_revision] *)
Definition MONAD_ETH_BERLIN : Z := 8.
Definition MONAD_ETH_LONDON : Z := 9.
Definition MONAD_ETH_PARIS : Z := 10.
Definition MONAD_ETH_SHANGHAI : Z := 11.
Definition MONAD_ETH_CANCUN : Z := 12.
Definition MONAD_ETH_PRAGUE : Z := 13.
Definition MONAD_ETH_OSAKA : Z := 14.
Definition MONAD_ETH_AMSTERDAM : Z := 15.
Definition MONAD_ZERO : Z := 0.
Definition MONAD_ONE : Z := 1.
Definition MONAD_TWO : Z := 2.
Definition MONAD_FOUR : Z := 4.
Definition MONAD_FIVE : Z := 5.
Definition MONAD_SIX : Z := 6.
Definition MONAD_SEVEN : Z := 7.
Definition MONAD_EIGHT : Z := 8.
Definition MONAD_NINE : Z := 9.
Definition MONAD_TEN : Z := 10.
Definition MONAD_NEXT : Z := 11.

(** A model of the [Traits] concept: [EvmTraits<Rev>] or [MonadTraits<Rev>]. *)
Inductive Traits :=
| EvmTraits (rev : Z)
| MonadTraits (rev : Z).

Definition evm_rev (t : Traits) : Z :=
  match t with
  | EvmTraits rev => rev
  | MonadTraits rev =>
      if rev >=? MONAD_NEXT then MONAD_ETH_AMSTERDAM
      else if rev >=? MONAD_NINE then MONAD_ETH_OSAKA
      else if rev >=? MONAD_FOUR then MONAD_ETH_PRAGUE
      else MONAD_ETH_CANCUN
  end.

(** [is_monad_trait_v<traits>] with the revision it gives access to. *)
Definition monad_rev (t : Traits) : option Z :=
  match t with EvmTraits _ => None | MonadTraits rev => Some rev end.

Definition mip_8_active (t : Traits) : bool :=
  match t with EvmTraits _ => false | MonadTraits rev => rev >=? MONAD_TEN end.
Definition mip_11_active (t : Traits) : bool := false.
Definition mip_12_active (t : Traits) : bool :=
  match t with EvmTraits _ => false | MonadTraits rev => rev >=? MONAD_NEXT end.
Definition eip_4844_active (t : Traits) : bool :=
  match t with EvmTraits rev => rev >=? MONAD_ETH_CANCUN | MonadTraits _ => false end.
Definition eip_7685_active (t : Traits) : bool :=
  match t with EvmTraits rev => rev >=? MONAD_ETH_PRAGUE | MonadTraits _ => false end.
Definition eip_7691_active (t : Traits) : bool :=
  match t with EvmTraits rev => rev >=? MONAD_ETH_PRAGUE | MonadTraits _ => false end.
Definition eip_7918_active (t : Traits) : bool :=
  match t with EvmTraits rev => rev >=? MONAD_ETH_OSAKA | MonadTraits _ => false end.
Definition eip_7823_active (t : Traits) : bool := evm_rev t >=? MONAD_ETH_OSAKA.
Definition eip_7883_active (t : Traits) : bool := evm_rev t >=? MONAD_ETH_OSAKA.
Definition eip_7951_active (t : Traits) : bool :=
  match t with EvmTraits rev => rev >=? MONAD_ETH_OSAKA | MonadTraits rev => rev >=? MONAD_FOUR end.
Definition monad_pricing_version (t : Traits) : Z :=
  match t with EvmTraits _ => 0 | MonadTraits rev => if rev >=? MONAD_SEVEN then 1 else 0 end.
Definition eip_7981_active (t : Traits) : bool := evm_rev t >=? MONAD_ETH_AMSTERDAM.
Definition max_code_size (t : Traits) : Z :=
  match t with
  | EvmTraits _ => 24 * 1024
  | MonadTraits rev => if rev >=? MONAD_TWO then 128 * 1024 else 24 * 1024
  end.

(** Availability of opcodes and prices of the virtual machine *)
Definition eip_1153_active (t : Traits) : bool := evm_rev t >=? MONAD_ETH_CANCUN.
Definition eip_3198_active (t : Traits) : bool := evm_rev t >=? MONAD_ETH_LONDON.
Definition eip_3855_active (t : Traits) : bool := evm_rev t >=? MONAD_ETH_SHANGHAI.
Definition eip_4399_active (t : Traits) : bool := evm_rev t >=? MONAD_ETH_PARIS.
Definition eip_5656_active (t : Traits) : bool := evm_rev t >=? MONAD_ETH_CANCUN.
Definition eip_7939_active (t : Traits) : bool := evm_rev t >=? MONAD_ETH_OSAKA.
Definition has_blob_opcodes (t : Traits) : bool := evm_rev t >=? MONAD_ETH_CANCUN.
Definition mip_3_active (t : Traits) : bool :=
  match t with EvmTraits _ => false | MonadTraits rev => rev >=? MONAD_NINE end.
Definition can_create_inside_delegated (t : Traits) : bool :=
  match t with EvmTraits _ => true | MonadTraits _ => false end.
Definition max_initcode_size (t : Traits) : Z :=
  match t with
  | EvmTraits rev => if rev >=? MONAD_ETH_SHANGHAI then 2 * (24 * 1024) else 2 ^ 64 - 1
  | MonadTraits rev => if rev >=? MONAD_FOUR then 2 * (128 * 1024) else 2 * (24 * 1024)
  end.
Definition cold_account_cost (t : Traits) : Z := if monad_pricing_version t >=? 1 then 10000 else 2500.
Definition cold_storage_cost (t : Traits) : Z := if monad_pricing_version t >=? 1 then 8000 else 2000.
Definition base_sstore_cost (t : Traits) : Z := 100.
(** of [MonadTraits] only *)
Definition page_write_cost : Z := 2800.
Definition page_growth_cost : Z := 17000.
