(* ===== verification/Account.v ===== *)
(** * Accounts and incarnations

    [Incarnation] is src/category/execution/ethereum/types/incarnation.hpp,
    [Account] with [is_empty] and [is_dead] is
    src/category/execution/ethereum/core/account.hpp.  Addresses (20 bytes)
    and [bytes32_t] values are their big-endian numbers, as [Z]. *)
From S2P Require Import Prelude.

(** [NULL_HASH], the code hash of an account without code. *)
Definition NULL_HASH : Z :=
  0xc5d2460186f7233c927e7db2dcc703c0e500b653ca82273b7bfad8045d85a470.

(** ** Incarnation: two bit fields of one 64-bit word *)
Record Incarnation := mkIncarnation { inc_block : Z; inc_tx : Z }.
#[global] Instance Incarnation_eq_dec : EqDecision Incarnation.
Proof. solve_decision. Defined.

Definition LAST_TX : Z := Z.shiftl 1 24 - 1.

(** The constructor masks its arguments to the widths of the fields. *)
Definition make_incarnation (block tx : Z) : Incarnation :=
  mkIncarnation (Z.land block 0xFFFFFFFFFF) (Z.land tx 0xFFFFFF).

(** [to_int] and [from_int] are bit casts: [block_] occupies the low 40 bits. *)
Definition to_int (i : Incarnation) : Z := inc_block i + Z.shiftl (inc_tx i) 40.
Definition from_int (z : Z) : Incarnation :=
  mkIncarnation (Z.land z 0xFFFFFFFFFF) (Z.shiftr z 40).

(** [operator==] compares the words. *)
Definition incarnation_eqb (i j : Incarnation) : bool := to_int i =? to_int j.

Definition incarnation_wf (i : Incarnation) : Prop :=
  0 <= inc_block i < 2 ^ 40 ∧ 0 <= inc_tx i < 2 ^ 24.

Lemma make_incarnation_wf b t : 0 <= b → 0 <= t → incarnation_wf (make_incarnation b t).
Proof.
  intros Hb Ht. unfold incarnation_wf, make_incarnation; simpl.
  change 0xFFFFFFFFFF with (Z.ones 40). change 0xFFFFFF with (Z.ones 24).
  rewrite !Z.land_ones by lia.
  split; apply Z.mod_pos_bound; lia.
Qed.

Lemma from_int_to_int i : incarnation_wf i → from_int (to_int i) = i.
Proof.
  destruct i as [b t]. intros [Hb Ht]; simpl in *.
  unfold from_int, to_int; simpl.
  rewrite Z.shiftl_mul_pow2 by lia.
  change 0xFFFFFFFFFF with (Z.ones 40). rewrite Z.land_ones by lia.
  rewrite Z.shiftr_div_pow2 by lia.
  f_equal.
  - rewrite Z.mod_add by lia. by apply Z.mod_small.
  - rewrite Z.div_add by lia. rewrite Z.div_small by lia. lia.
Qed.

Lemma incarnation_eqb_eq i j :
  incarnation_wf i → incarnation_wf j → incarnation_eqb i j = true ↔ i = j.
Proof.
  intros Hi Hj. unfold incarnation_eqb. rewrite Z.eqb_eq. split; [|by intros ->].
  intros E. by rewrite <- (from_int_to_int i Hi), <- (from_int_to_int j Hj), E.
Qed.

(** ** Account *)
Record Account := mkAccount {
  balance : Z;
  code_hash : Z;
  nonce : Z;
  incarnation : Incarnation
}.
#[global] Instance Account_eq_dec : EqDecision Account.
Proof. solve_decision. Defined.

(** [Account{.incarnation = i}]: the other fields take their initializers. *)
Definition new_account (i : Incarnation) : Account := mkAccount 0 NULL_HASH 0 i.
(** [Account{}] *)
Definition default_account : Account := new_account (make_incarnation 0 0).

Definition with_balance (b : Z) (a : Account) : Account :=
  mkAccount b (code_hash a) (nonce a) (incarnation a).
Definition with_code_hash (h : Z) (a : Account) : Account :=
  mkAccount (balance a) h (nonce a) (incarnation a).
Definition with_nonce (n : Z) (a : Account) : Account :=
  mkAccount (balance a) (code_hash a) n (incarnation a).
Definition with_incarnation (i : Incarnation) (a : Account) : Account :=
  mkAccount (balance a) (code_hash a) (nonce a) i.

Definition is_empty (a : Account) : bool :=
  (code_hash a =? NULL_HASH) && (nonce a =? 0) && (balance a =? 0).
Definition is_dead (o : option Account) : bool :=
  match o with None => true | Some a => is_empty a end.
