(* ===== verification/VersionStack.v ===== *)
(** * VersionStack

    src/category/execution/ethereum/state3/version_stack.hpp: the history of
    one value across the nested call frames of a transaction.  The deque is a
    list with its back at the head, each value tagged with the [unsigned]
    version (frame depth) it was written at. *)
From S2P Require Import Prelude.

Section version_stack.
Context {T : Type}.

Abbreviation VersionStack := (list (Z * T)).

(** [VersionStack(value, version)] *)
Definition vs_make (value : T) (version : Z) : VersionStack := [(version, value)].

Definition vs_size (s : VersionStack) : Z := Z.of_nat (length s).

(** [version()] and [recent()] assert that the stack is not empty. *)
Definition vs_version (s : VersionStack) : outcome Z :=
  match s with [] => Abort | (v, _) :: _ => Ok v end.
Definition vs_recent (s : VersionStack) : outcome T :=
  match s with [] => Abort | (_, x) :: _ => Ok x end.

(** [current(version)]: copy the most recent value to the new version if it
    is older.  The reference returned is to the head of the result. *)
Definition vs_current (version : Z) (s : VersionStack) : outcome VersionStack :=
  match s with
  | [] => Abort
  | (v, x) :: _ => Ok (if version >? v then (version, x) :: s else s)
  end.

(** Writing through the reference [recent()] or [current()] returned. *)
Definition vs_write (f : T → T) (s : VersionStack) : VersionStack :=
  match s with [] => [] | (v, x) :: r => (v, f x) :: r end.

(** [pop_accept(version)]: hand the top value to the enclosing version,
    replacing its value if there is one. *)
Definition vs_pop_accept (version : Z) (s : VersionStack) : outcome VersionStack :=
  if version =? 0 then Abort else
  match s with
  | [] => Abort
  | (v, x) :: r =>
      Ok (if version =? v then
            match r with
            | (v', _) :: r' =>
                if u32 (v' + 1) =? v then (v', x) :: r'
                else (u32 (version - 1), x) :: r
            | [] => [(u32 (version - 1), x)]
            end
          else s)
  end.

(** [pop_reject(version)]: drop the top value if it belongs to [version];
    the flag says the stack became empty. *)
Definition vs_pop_reject (version : Z) (s : VersionStack) : outcome (bool * VersionStack) :=
  if version =? 0 then Abort else
  match s with
  | [] => Abort
  | (v, _) :: r =>
      let s' := if version =? v then r else s in
      Ok (match s' with [] => true | _ => false end, s')
  end.

(** ** Invariant

    Versions are 32-bit, strictly decrease from the back, and none exceeds
    the current version [n]. *)
Fixpoint vs_wf (n : Z) (s : VersionStack) : Prop :=
  match s with
  | [] => True
  | (v, _) :: r => 0 <= v <= n ∧ vs_wf (v - 1) r
  end.

Lemma vs_wf_weaken n m s : n <= m → vs_wf n s → vs_wf m s.
Proof. destruct s as [|[v x] r]; simpl; [done|]. intros ? [? ?]. split; [lia|done]. Qed.

Lemma vs_wf_make x v n : 0 <= v <= n → vs_wf n (vs_make x v).
Proof. done. Qed.

Lemma vs_wf_write f n s : vs_wf n s → vs_wf n (vs_write f s).
Proof. by destruct s as [|[v x] r]. Qed.

Lemma vs_wf_current n s s' : 0 <= n → vs_wf n s → vs_current n s = Ok s' → vs_wf n s'.
Proof.
  intros Hn. destruct s as [|[v x] r]; simpl; [done|]. intros [Hv Hr] [= <-].
  destruct (Z.gtb_spec n v); simpl; [|done]. repeat split; try lia. done.
Qed.

Lemma vs_wf_pop_accept n s s' :
  n < 2 ^ 32 → vs_wf n s → vs_pop_accept n s = Ok s' → vs_wf (n - 1) s'.
Proof.
  intros Hn Hwf. unfold vs_pop_accept.
  destruct (Z.eqb_spec n 0); [done|].
  destruct s as [|[v x] r]; [done|]. intros [= <-]. simpl in Hwf. destruct Hwf as [Hv Hr].
  destruct (Z.eqb_spec n v) as [->|?]; [|simpl; split; [lia|done]].
  assert (Hu : u32 (v - 1) = v - 1) by (unfold u32; apply Z.mod_small; lia).
  destruct r as [|[v' x'] r']; rewrite Hu; [simpl; lia|].
  simpl in Hr. destruct Hr as [Hv' Hr'].
  assert (Hu' : u32 (v' + 1) = v' + 1) by (unfold u32; apply Z.mod_small; lia).
  rewrite Hu'. destruct (Z.eqb_spec (v' + 1) v); simpl.
  - split; [lia|done].
  - repeat split; try lia. done.
Qed.

Lemma vs_wf_pop_reject n s b s' :
  vs_wf n s → vs_pop_reject n s = Ok (b, s') → vs_wf (n - 1) s'.
Proof.
  intros Hwf. unfold vs_pop_reject. destruct (Z.eqb_spec n 0); [done|].
  destruct s as [|[v x] r]; [done|]. intros [= _ <-]. simpl in Hwf. destruct Hwf as [Hv Hr].
  destruct (Z.eqb_spec n v) as [->|?]; [done|]. simpl. split; [lia|done].
Qed.

(** ** Abstract view

    [vs_unwind u s] is the stack as it was when version [u] was current:
    what rolling back every frame above [u] leaves. *)
Fixpoint vs_unwind (u : Z) (s : VersionStack) : VersionStack :=
  match s with
  | [] => []
  | (v, x) :: r => if v <=? u then s else vs_unwind u r
  end.

Lemma vs_unwind_id u s : vs_wf u s → vs_unwind u s = s.
Proof. destruct s as [|[v x] r]; simpl; [done|]. intros [? _]. case_match; [done|lia]. Qed.

Lemma vs_unwind_wf n u s : vs_wf n s → vs_wf u (vs_unwind u s).
Proof.
  revert n. induction s as [|[v x] r IH]; intros n; simpl; [done|]. intros [? Hr].
  destruct (Z.leb_spec v u); [|by eapply IH]. simpl. split; [lia|done].
Qed.

Lemma vs_unwind_current n u s s' :
  u < n → vs_current n s = Ok s' → vs_unwind u s' = vs_unwind u s.
Proof.
  intros Hu. destruct s as [|[v x] r]; simpl; [done|]. intros [= <-].
  destruct (Z.gtb_spec n v); [|done]. simpl.
  destruct (Z.leb_spec n u); [lia|done].
Qed.

(** A write above [u] does not change what version [u] sees. *)
Lemma vs_unwind_write f u s v x r :
  s = (v, x) :: r → u < v → vs_unwind u (vs_write f s) = vs_unwind u s.
Proof. intros -> Hu. simpl. destruct (Z.leb_spec v u); [lia|done]. Qed.

Lemma vs_unwind_pop_accept n u s s' :
  n < 2 ^ 32 → vs_wf n s → u < n - 1 →
  vs_pop_accept n s = Ok s' → vs_unwind u s' = vs_unwind u s.
Proof.
  intros Hn Hwf Hu. unfold vs_pop_accept. destruct (Z.eqb_spec n 0); [done|].
  destruct s as [|[v x] r]; [done|]. intros [= <-]. simpl in Hwf. destruct Hwf as [Hv Hr].
  destruct (Z.eqb_spec n v) as [->|?]; [|done].
  destruct r as [|[v' x'] r'].
  - simpl. unfold u32. rewrite Z.mod_small by lia. do 2 (case_match; try lia). done.
  - simpl in Hr. destruct Hr as [Hv' Hr'].
    unfold u32. rewrite !Z.mod_small by lia.
    destruct (Z.eqb_spec (v' + 1) v); simpl; repeat (case_match; try lia); done.
Qed.

Lemma vs_pop_reject_unwind n s b s' :
  vs_wf n s → vs_pop_reject n s = Ok (b, s') → s' = vs_unwind (n - 1) s.
Proof.
  intros Hwf. unfold vs_pop_reject. destruct (Z.eqb_spec n 0); [done|].
  destruct s as [|[v x] r]; [done|]. intros [= _ <-]. simpl in Hwf. destruct Hwf as [Hv Hr].
  simpl. destruct (Z.eqb_spec n v) as [->|?].
  - destruct (Z.leb_spec v (v - 1)); [lia|]. by rewrite vs_unwind_id.
  - destruct (Z.leb_spec v (n - 1)); [done|lia].
Qed.

(** Accepting keeps the most recent value. *)
Lemma vs_recent_pop_accept n s s' :
  vs_pop_accept n s = Ok s' → vs_recent s' = vs_recent s.
Proof.
  unfold vs_pop_accept. destruct (Z.eqb_spec n 0); [done|].
  destruct s as [|[v x] r]; [done|]. intros [= <-].
  repeat case_match; simplify_eq; done.
Qed.

Lemma vs_recent_current n s s' :
  vs_current n s = Ok s' → vs_recent s' = vs_recent s.
Proof. destruct s as [|[v x] r]; simpl; [done|]. intros [= <-]. by case_match. Qed.

(** ** Entries *)
Lemma vs_wf_elem n s v x : vs_wf n s → (v, x) ∈ s → 0 <= v <= n.
Proof.
  revert n. induction s as [|[v0 x0] r IH]; intros n; simpl; [by intros _ ?%elem_of_nil|].
  intros [? Hr] [[= -> ->]|Hi]%elem_of_cons; [done|]. apply (IH _ Hr) in Hi. lia.
Qed.

Lemma vs_wf_lower n s : vs_wf n s → (∀ x, (n, x) ∉ s) → vs_wf (n - 1) s.
Proof.
  destruct s as [|[v x] r]; simpl; [done|]. intros [Hv Hr] Hn. split; [|done].
  assert (v ≠ n); [|lia]. intros ->. eapply Hn. by left.
Qed.

(** An entry of the accepted stack was there, or is the accepted one. *)
Lemma vs_pop_accept_elem n s s' v x :
  1 <= n < 2 ^ 32 → vs_pop_accept n s = Ok s' → (v, x) ∈ s' →
  (v = n - 1 ∧ ∃ y, (n, y) ∈ s) ∨ (∃ y, (v, y) ∈ s).
Proof.
  intros Hn E Hin. unfold vs_pop_accept in E. destruct (Z.eqb_spec n 0); [lia|].
  destruct s as [|[v0 x0] r]; [done|]. injection E as <-.
  destruct (Z.eqb_spec n v0) as [<-|?]; [|eauto].
  assert (Hu : u32 (n - 1) = n - 1) by (unfold u32; apply Z.mod_small; lia).
  rewrite Hu in Hin. destruct r as [|[v1 x1] r1].
  - apply list_elem_of_singleton in Hin. simplify_eq. left. split; [done|]. eexists; left.
  - destruct (u32 (v1 + 1) =? n); apply elem_of_cons in Hin as [[= -> ->]|Hin].
    + right. exists x1. right; left.
    + right. exists x. by do 2 right.
    + left. split; [done|]. eexists; left.
    + right. exists x. by right.
Qed.

Lemma vs_pop_accept_total n s : n ≠ 0 → s ≠ [] → ∃ s', vs_pop_accept n s = Ok s' ∧ s' ≠ [].
Proof.
  intros Hn Hs. unfold vs_pop_accept. destruct (Z.eqb_spec n 0); [done|].
  destruct s as [|[v x] r]; [done|]. eexists. split; [done|]. repeat case_match; done.
Qed.

Lemma vs_pop_reject_total n s :
  n ≠ 0 → s ≠ [] → vs_wf n s →
  vs_pop_reject n s = Ok (bool_decide (vs_unwind (n - 1) s = []), vs_unwind (n - 1) s).
Proof.
  intros Hn Hs Hwf.
  destruct (vs_pop_reject n s) as [[b s']| |] eqn:E;
    [|unfold vs_pop_reject in E; destruct (Z.eqb_spec n 0), s as [|[]]; done..].
  rewrite <- (vs_pop_reject_unwind _ _ _ _ Hwf E). unfold vs_pop_reject in E.
  destruct (Z.eqb_spec n 0); [done|]. destruct s as [|[v x] r]; [done|].
  injection E as <- <-. by repeat case_match.
Qed.
End version_stack.
Abbreviation VersionStack T := (list (Z * T)).
