(* ===== verification/AccountState.v ===== *)
(** * The per-account state of a transaction

    [AccountSubstate], [AccountState], [OriginalAccountState] and
    [PageTracker] of src/category/execution/ethereum/state3/.  Base and
    derived class of the C++ hierarchy are one record; copying an
    [OriginalAccountState] into the current map slices it to [os_state]. *)
From S2P Require Import Prelude Account.

(** ** Statuses (src/category/vm/evm/) *)
Inductive monad_access_status := MONAD_ACCESS_COLD | MONAD_ACCESS_WARM.
Inductive monad_storage_status :=
| MONAD_STORAGE_ASSIGNED
| MONAD_STORAGE_ADDED
| MONAD_STORAGE_DELETED
| MONAD_STORAGE_MODIFIED
| MONAD_STORAGE_DELETED_ADDED
| MONAD_STORAGE_MODIFIED_DELETED
| MONAD_STORAGE_DELETED_RESTORED
| MONAD_STORAGE_ADDED_DELETED
| MONAD_STORAGE_MODIFIED_RESTORED.
#[global] Instance monad_storage_status_eq_dec : EqDecision monad_storage_status.
Proof. solve_decision. Defined.
Record monad_page_storage_status := mkPageStorageStatus {
  first_page_write : bool;
  grew_state : bool
}.

(** ** PageTracker (page_tracker.hpp) *)
Module PageTracker.
(** [PAGE_KEY_SHIFT] of storage_page.hpp: a page holds 2^7 slots. *)
Definition PAGE_KEY_SHIFT : Z := 7.
Definition compute_page_key (key : Z) : Z := Z.shiftr key PAGE_KEY_SHIFT.

(** Conversion of an [int] back to [int16_t]. *)
Definition i16 (z : Z) : Z := (z + 2 ^ 15) mod 2 ^ 16 - 2 ^ 15.

Record PageState := mkPageState {
  page_accessed : bool;
  page_dirty : bool;
  peak_growth : Z;
  current_growth : Z
}.
Definition page_state0 : PageState := mkPageState false false 0 0.

Abbreviation PageMap := (gmap Z PageState).

Definition lookup_page_state (pages : PageMap) (page_key : Z) : PageState :=
  default page_state0 (pages !! page_key).

Definition access_page (key : Z) (pages : PageMap) : monad_access_status * PageMap :=
  let pkey := compute_page_key key in
  let s := lookup_page_state pages pkey in
  if page_accessed s then (MONAD_ACCESS_WARM, pages)
  else (MONAD_ACCESS_COLD,
        <[pkey := mkPageState true (page_dirty s) (peak_growth s) (current_growth s)]> pages).

(** The [switch] of [update_page]: how a slot transition changes the number
    of occupied slots of the page. *)
Definition growth_delta (status : monad_storage_status) : Z :=
  match status with
  | MONAD_STORAGE_ADDED | MONAD_STORAGE_DELETED_ADDED
  | MONAD_STORAGE_DELETED_RESTORED => 1
  | MONAD_STORAGE_DELETED | MONAD_STORAGE_MODIFIED_DELETED
  | MONAD_STORAGE_ADDED_DELETED => -1
  | _ => 0
  end.

Definition update_page (key : Z) (status : monad_storage_status) (pages : PageMap)
  : monad_page_storage_status * PageMap :=
  let pkey := compute_page_key key in
  let ps := lookup_page_state pages pkey in
  let value_changed := bool_decide (status ≠ MONAD_STORAGE_ASSIGNED) in
  let first_page_write := if page_dirty ps then false else value_changed in
  let dirty := if page_dirty ps then true else value_changed in
  let current := i16 (current_growth ps + growth_delta status) in
  let grew := current >? peak_growth ps in
  let peak := if grew then current else peak_growth ps in
  (mkPageStorageStatus first_page_write grew,
   if value_changed
   then <[pkey := mkPageState (page_accessed ps) dirty peak current]> pages
   else pages).
End PageTracker.

(** ** AccountState *)
Record AccountState := mkAccountState {
  account_ : option Account;
  storage_ : gmap Z Z;
  transient_storage_ : gmap Z Z;
  page_tracker_ : PageTracker.PageMap;
  destructed_ : bool;
  touched_ : bool;
  accessed_ : bool;
  accessed_storage_ : gset Z
}.

(** [AccountState(account)] *)
Definition make_account_state (account : option Account) : AccountState :=
  mkAccountState account ∅ ∅ ∅ false false false ∅.

Definition as_set_account (o : option Account) (s : AccountState) : AccountState :=
  mkAccountState o (storage_ s) (transient_storage_ s) (page_tracker_ s)
    (destructed_ s) (touched_ s) (accessed_ s) (accessed_storage_ s).
Definition as_set_storage (m : gmap Z Z) (s : AccountState) : AccountState :=
  mkAccountState (account_ s) m (transient_storage_ s) (page_tracker_ s)
    (destructed_ s) (touched_ s) (accessed_ s) (accessed_storage_ s).
Definition as_set_transient (m : gmap Z Z) (s : AccountState) : AccountState :=
  mkAccountState (account_ s) (storage_ s) m (page_tracker_ s)
    (destructed_ s) (touched_ s) (accessed_ s) (accessed_storage_ s).
Definition as_set_pages (p : PageTracker.PageMap) (s : AccountState) : AccountState :=
  mkAccountState (account_ s) (storage_ s) (transient_storage_ s) p
    (destructed_ s) (touched_ s) (accessed_ s) (accessed_storage_ s).

(** *** AccountSubstate (account_substate.hpp) *)
Definition destruct_ (s : AccountState) : bool * AccountState :=
  (negb (destructed_ s),
   mkAccountState (account_ s) (storage_ s) (transient_storage_ s) (page_tracker_ s)
     true (touched_ s) (accessed_ s) (accessed_storage_ s)).
Definition touch_ (s : AccountState) : AccountState :=
  mkAccountState (account_ s) (storage_ s) (transient_storage_ s) (page_tracker_ s)
    (destructed_ s) true (accessed_ s) (accessed_storage_ s).
Definition access_ (s : AccountState) : monad_access_status * AccountState :=
  (if negb (accessed_ s) then MONAD_ACCESS_COLD else MONAD_ACCESS_WARM,
   mkAccountState (account_ s) (storage_ s) (transient_storage_ s) (page_tracker_ s)
     (destructed_ s) (touched_ s) true (accessed_storage_ s)).
Definition access_storage_ (key : Z) (s : AccountState) : monad_access_status * AccountState :=
  if bool_decide (key ∈ accessed_storage_ s) then (MONAD_ACCESS_WARM, s)
  else (MONAD_ACCESS_COLD,
        mkAccountState (account_ s) (storage_ s) (transient_storage_ s) (page_tracker_ s)
          (destructed_ s) (touched_ s) (accessed_ s) ({[key]} ∪ accessed_storage_ s)).

(** *** Getters of account_state.hpp *)
Definition as_get_code_hash (s : AccountState) : Z :=
  match account_ s with Some a => code_hash a | None => NULL_HASH end.
Definition as_get_nonce (s : AccountState) : Z :=
  match account_ s with Some a => nonce a | None => 0 end.
Definition as_get_transient_storage (key : Z) (s : AccountState) : Z :=
  default 0 (transient_storage_ s !! key).

(** *** Storage writes (account_state.cpp) *)
Definition zero_out_key (key original_value current_value : Z) (s : AccountState)
  : monad_storage_status * AccountState :=
  let status :=
    if current_value =? 0 then MONAD_STORAGE_ASSIGNED
    else if original_value =? current_value then MONAD_STORAGE_DELETED
    else if original_value =? 0 then MONAD_STORAGE_ADDED_DELETED
    else MONAD_STORAGE_MODIFIED_DELETED in
  (status, as_set_storage (<[key := 0]> (storage_ s)) s).

Definition set_current_value (key value original_value current_value : Z) (s : AccountState)
  : monad_storage_status * AccountState :=
  let status :=
    if current_value =? 0 then
      if original_value =? 0 then MONAD_STORAGE_ADDED
      else if value =? original_value then MONAD_STORAGE_DELETED_RESTORED
      else MONAD_STORAGE_DELETED_ADDED
    else if (original_value =? current_value) && negb (original_value =? value)
    then MONAD_STORAGE_MODIFIED
    else if (original_value =? value) && negb (original_value =? current_value)
    then MONAD_STORAGE_MODIFIED_RESTORED
    else MONAD_STORAGE_ASSIGNED in
  (status, as_set_storage (<[key := value]> (storage_ s)) s).

Definition as_set_storage_value (key value original_value : Z) (s : AccountState)
  : monad_storage_status * AccountState :=
  let current_value := default original_value (storage_ s !! key) in
  if value =? 0 then zero_out_key key original_value current_value s
  else set_current_value key value original_value current_value s.

Definition as_set_transient_storage (key value : Z) (s : AccountState) : AccountState :=
  as_set_transient (<[key := value]> (transient_storage_ s)) s.

(** ** OriginalAccountState *)
Record OriginalAccountState := mkOriginal {
  os_state : AccountState;
  validate_exact_balance_ : bool;
  min_balance_ : Z
}.
Definition make_original (account : option Account) : OriginalAccountState :=
  mkOriginal (make_account_state account) false 0.
Abbreviation os_account os := (account_ (os_state os)).
Abbreviation os_storage os := (storage_ (os_state os)).

Definition set_validate_exact_balance (os : OriginalAccountState) : OriginalAccountState :=
  mkOriginal (os_state os) true (min_balance_ os).
Definition os_set_state (s : AccountState) (os : OriginalAccountState) : OriginalAccountState :=
  mkOriginal s (validate_exact_balance_ os) (min_balance_ os).

(** [get_balance_pessimistic]: the value read (the method also calls
    [set_validate_exact_balance]). *)
Definition balance_of (o : option Account) : Z :=
  match o with Some a => balance a | None => 0 end.

(** [set_min_balance] asserts that the account exists and covers [value]. *)
Definition set_min_balance (value : Z) (os : OriginalAccountState) : outcome OriginalAccountState :=
  match os_account os with
  | None => Abort
  | Some a =>
      if balance a >=? value then
        Ok (mkOriginal (os_state os) (validate_exact_balance_ os)
              (if value >? min_balance_ os then value else min_balance_ os))
      else Abort
  end.
