(* ===== verification/BlockState.v ===== *)
(** * BlockState: the state all transactions of a block share

    src/category/execution/ethereum/state2/block_state.cpp and
    state_deltas.hpp.  Reads go to the deltas accumulated so far, then to the
    database, and are cached in the deltas.  [can_merge] and [merge], which
    read a transaction's [State], are in Merge.v.

    The database ([Db], a virtual class with several implementations) and the
    varcode cache of the VM are interfaces: a record of operations and a type
    class with the laws their clients rely on. *)
From S2P Require Import Prelude Account.

(** Bytecode: the bytes of an [Intercode]. *)
Abbreviation Code := (list Z).

(** ** The interfaces [BlockState] reads through *)

(** The read operations of [struct Db] (src/.../db/db.hpp). *)
Record Db := mkDb {
  db_read_account : Z → option Account;
  db_read_storage : Z → Incarnation → Z → Z;
  db_read_code : Z → option Code
}.

(** The varcode cache (src/category/vm/varcode_cache.cpp).  A lookup may
    reorder or evict entries, an insertion may evict or be dropped. *)
Class VarcodeCache (VC : Type) := {
  vc_get : Z → VC → option Code * VC;
  vc_try_set : Z → Code → VC → VC
}.

(** What clients rely on: a cache only returns what was put into it. *)
Class VarcodeCacheLaws (VC : Type) `{VarcodeCache VC} := {
  vc_holds : VC → Z → Code → Prop;
  vc_get_sound c h x c' : vc_get h c = (Some x, c') → vc_holds c h x;
  vc_get_mono c h o c' h' x' :
    vc_get h c = (o, c') → vc_holds c' h' x' → vc_holds c h' x';
  vc_try_set_mono c h x h' x' :
    vc_holds (vc_try_set h x c) h' x' → (h' = h ∧ x' = x) ∨ vc_holds c h' x'
}.

(** [try_set_raw]: the cached varcode if there is one, otherwise a new one;
    building an [Intercode] refuses code of 2^20 bytes or more. *)
Definition vc_try_set_raw {VC} `{VarcodeCache VC} (h : Z) (code : Code) : M VC Code :=
  λ c, match vc_get h c with
       | (Some x, c') => Ok (x, c')
       | (None, c') =>
           if Z.of_nat (length code) <=? 2 ^ 20 - 1 then Ok (code, vc_try_set h code c')
           else Throw "Code size exceeds maximum representable value"
       end.

(** ** State deltas (state_deltas.hpp): first = at the start of the block,
    second = now *)
Record StateDelta := mkStateDelta {
  sd_account : option Account * option Account;
  sd_storage : gmap Z (Z * Z)
}.

Record BlockState (VC : Type) := mkBlockState {
  bs_state : gmap Z StateDelta;
  bs_code : gmap Z Code;
  bs_self_destruct_storage_reads : gmap Z (gset Z);
  bs_vm : VC
}.
Arguments mkBlockState {VC}.
Arguments bs_state {VC}.
Arguments bs_code {VC}.
Arguments bs_self_destruct_storage_reads {VC}.
Arguments bs_vm {VC}.

(** ** What a transaction's [State] asks of the block state it reads through

    The methods of [State] are written against this interface.  [BlockState]
    implements it below; Speculation.v implements it by the record of what a
    block state shared with other transactions answered. *)
Class BlockAccess (B : Type) := {
  ba_read_account : Z → M B (option Account);
  ba_read_storage : Z → Incarnation → Z → M B Z;
  ba_read_code : Z → M B Code;
  (* vm().try_insert_varcode_raw *)
  ba_insert_code : Z → Code → M B Code
}.

Section block_state.
Context {VC : Type} `{VarcodeCache VC}.
(** [db_] and the optional [secondary_db_] of the constructor. *)
Context (db_ : Db) (secondary_db_ : option Db).

Abbreviation BlockState := (BlockState VC).

Definition bs_set_state (m : gmap Z StateDelta) (bs : BlockState) : BlockState :=
  mkBlockState m (bs_code bs) (bs_self_destruct_storage_reads bs) (bs_vm bs).
Definition bs_set_code (m : gmap Z Code) (bs : BlockState) : BlockState :=
  mkBlockState (bs_state bs) m (bs_self_destruct_storage_reads bs) (bs_vm bs).
Definition bs_set_vm (c : VC) (bs : BlockState) : BlockState :=
  mkBlockState (bs_state bs) (bs_code bs) (bs_self_destruct_storage_reads bs) c.

(** [BlockState(db, vm, secondary_db)] *)
Definition make_block_state (vm : VC) : BlockState := mkBlockState ∅ ∅ ∅ vm.

Definition read_account (address : Z) : M BlockState (option Account) := λ bs,
  match bs_state bs !! address with
  | Some d => Ok ((sd_account d).2, bs)
  | None =>
      let result := db_read_account db_ address in
      Ok (result, bs_set_state (<[address := mkStateDelta (result, result) ∅]> (bs_state bs)) bs)
  end.

(** The first block: what the deltas answer, or whether to ask the
    database ([inr read_storage]). *)
Definition storage_in_deltas (d : StateDelta) (inc : Incarnation) (key : Z) : Z + bool :=
  match (sd_account d).2 with
  | None => inl 0
  | Some account =>
      if decide (inc = incarnation account) then
        match sd_storage d !! key with
        | Some (_, v) => inl v
        | None =>
            inr (match (sd_account d).1 with
                 | Some orig => bool_decide (inc = incarnation orig)
                 | None => false
                 end)
        end
      else inl 0
  end.

Definition read_storage (address : Z) (inc : Incarnation) (key : Z) : M BlockState Z := λ bs,
  match bs_state bs !! address with
  | None => Abort
  | Some d =>
      match storage_in_deltas d inc key with
      | inl v => Ok (v, bs)
      | inr ask =>
          let result := if ask then db_read_storage db_ address inc key else 0 in
          if ask && match secondary_db_ with
                    | Some db2 => negb (db_read_storage db2 address inc key =? result)
                    | None => false
                    end
          then Abort
          else
            (* the second [find]: the delta has not changed in between, and
               [key] is not yet in its storage *)
            Ok (result,
                bs_set_state
                  (<[address := mkStateDelta (sd_account d)
                                  (<[key := (result, result)]> (sd_storage d))]> (bs_state bs)) bs)
      end
  end.

Definition read_code (h : Z) : M BlockState Code := λ bs,
  match vc_get h (bs_vm bs) with
  | (Some vcode, vm') => Ok (vcode, bs_set_vm vm' bs)
  | (None, vm') =>
      match bs_code bs !! h with
      | Some icode => Ok (icode, bs_set_vm (vc_try_set h icode vm') bs)
      | None =>
          match db_read_code db_ h with
          | None => Abort
          | Some result =>
              if (h =? NULL_HASH) || negb (Z.of_nat (length result) =? 0)
              then Ok (result, bs_set_vm (vc_try_set h result vm') bs)
              else Abort
          end
      end
  end.

(** [vm().try_insert_varcode_raw(code_hash, code)] *)
Definition insert_code (h : Z) (code : Code) : M BlockState Code := λ bs,
  match vc_try_set_raw h code (bs_vm bs) with
  | Ok (vcode, vm') => Ok (vcode, bs_set_vm vm' bs)
  | Abort => Abort
  | Throw s => Throw s
  end.

Definition block_access : BlockAccess BlockState := {|
  ba_read_account := read_account;
  ba_read_storage := read_storage;
  ba_read_code := read_code;
  ba_insert_code := insert_code
|}.

(** ** What the block state shows: the abstract contents *)
Definition account_view (bs : BlockState) (address : Z) : option Account :=
  match bs_state bs !! address with
  | Some d => (sd_account d).2
  | None => db_read_account db_ address
  end.

Definition storage_view (bs : BlockState) (address : Z) (inc : Incarnation) (key : Z) : Z :=
  let d := default (let r := db_read_account db_ address in mkStateDelta (r, r) ∅)
             (bs_state bs !! address) in
  match storage_in_deltas d inc key with
  | inl v => v
  | inr ask => if ask then db_read_storage db_ address inc key else 0
  end.

(** Two block states that answer every account and storage read alike. *)
Definition same_view (bs bs' : BlockState) : Prop :=
  (∀ a, account_view bs a = account_view bs' a) ∧
  (∀ a i k, storage_view bs a i k = storage_view bs' a i k).

#[global] Instance same_view_equiv : Equivalence same_view.
Proof.
  split.
  - done.
  - intros x y [? ?]; split; auto.
  - intros x y z [? ?] [? ?]; split; intros; etrans; eauto.
Qed.

Lemma read_account_spec a bs :
  ∃ bs', read_account a bs = Ok (account_view bs a, bs') ∧ same_view bs bs' ∧
         is_Some (bs_state bs' !! a).
Proof.
  unfold read_account, account_view.
  destruct (bs_state bs !! a) as [d|] eqn:E; eexists; (split; [done|]).
  - split; [done|]. by rewrite E.
  - split; [|simpl; rewrite lookup_insert_eq; done].
    split.
    + intros a'. unfold account_view; simpl.
      destruct (decide (a = a')) as [->|]; simplify_map_eq; done.
    + intros a' i k. unfold storage_view; simpl.
      destruct (decide (a = a')) as [->|]; simplify_map_eq; done.
Qed.

(** With the two databases in agreement a read of a loaded address
    succeeds, returns the view and does not change any other read. *)
Lemma read_storage_spec a i k bs :
  is_Some (bs_state bs !! a) →
  (∀ db2, secondary_db_ = Some db2 →
     db_read_storage db2 a i k = db_read_storage db_ a i k) →
  ∃ bs', read_storage a i k bs = Ok (storage_view bs a i k, bs') ∧ same_view bs bs'.
Proof.
  intros [d Hd] Hdb2. unfold read_storage, storage_view. rewrite Hd; simpl.
  destruct (storage_in_deltas d i k) as [v|ask] eqn:Es; [by eexists|].
  assert (Hsec : ask && match secondary_db_ with
                  | Some db2 => negb (db_read_storage db2 a i k =? (if ask then db_read_storage db_ a i k else 0))
                  | None => false end = false).
  { destruct ask; [|done]. destruct secondary_db_ as [db2|]; [|done]. simpl.
    rewrite Hdb2 by done. by rewrite Z.eqb_refl. }
  rewrite Hsec. eexists. split; [done|].
  set (r := if ask then _ else _).
  split.
  - intros a'. unfold account_view; simpl.
    destruct (decide (a = a')) as [->|]; simplify_map_eq; done.
  - intros a' i' k'. unfold storage_view; simpl.
    destruct (decide (a = a')) as [<-|]; simplify_map_eq; [|done].
    unfold storage_in_deltas in *; simpl in *.
    destruct ((sd_account d).2) as [acc|]; [|done].
    destruct (decide (i = incarnation acc)) as [->|]; [|done].
    destruct (sd_storage d !! k) as [[? ?]|] eqn:Ek; [done|]. injection Es as Eask.
    destruct (decide (i' = incarnation acc)) as [->|]; [|done].
    destruct (decide (k = k')) as [<-|]; simplify_map_eq; done.
Qed.
End block_state.

Arguments same_view {VC} db_ bs bs'.
