(* ===== verification/State.v ===== *)
(** * State: one transaction's view of the world

    src/category/execution/ethereum/state3/state.cpp, with the part of
    [ReserveBalance] (src/category/execution/monad/reserve_balance.cpp) that
    is called from inside it.  Both objects hold a reference to the other, so
    they are one record here; the block state they read through is threaded
    beside it.  A C++ reference to an account state is modelled by its value
    together with [write_current]/[write_original], which store through it. *)
From S2P Require Import Prelude Traits Account VersionStack AccountState BlockState.

Record Log := mkLog { log_data : list Z; log_topics : list Z; log_address : Z }.

(** ** ReserveBalance: data members (reserve_balance.hpp) *)
Record ReserveBalance := mkReserveBalance {
  tracking_enabled_ : bool;
  use_recent_code_hash_ : bool;
  allow_init_selfdestruct_exemption_ : bool;
  sender_ : Z;
  sender_gas_fees_ : Z;
  sender_can_dip_ : bool;
  failed_ : gset Z;
  violation_thresholds_ : gmap Z (option Z);
  get_max_reserve_ : option (Z → Z)
}.
Definition make_reserve_balance : ReserveBalance :=
  mkReserveBalance false false false 0 0 false ∅ ∅ None.
Definition rb_set_failed (f : gset Z) (rb : ReserveBalance) : ReserveBalance :=
  mkReserveBalance (tracking_enabled_ rb) (use_recent_code_hash_ rb)
    (allow_init_selfdestruct_exemption_ rb) (sender_ rb) (sender_gas_fees_ rb)
    (sender_can_dip_ rb) f (violation_thresholds_ rb) (get_max_reserve_ rb).
Definition rb_set_thresholds (m : gmap Z (option Z)) (rb : ReserveBalance) : ReserveBalance :=
  mkReserveBalance (tracking_enabled_ rb) (use_recent_code_hash_ rb)
    (allow_init_selfdestruct_exemption_ rb) (sender_ rb) (sender_gas_fees_ rb)
    (sender_can_dip_ rb) (failed_ rb) m (get_max_reserve_ rb).

(** ** State: data members (state.hpp) *)
Record State := mkState {
  incarnation_ : Incarnation;
  original_ : gmap Z OriginalAccountState;
  current_ : gmap Z (VersionStack AccountState);
  logs_ : VersionStack (list Log);
  code_ : gmap Z Code;
  version_ : Z;
  dirty_ : list (gset Z);
  relaxed_validation_ : bool;
  rb_ : ReserveBalance
}.
(** [State(block_state, incarnation, relaxed_validation)] *)
Definition make_state (inc : Incarnation) (relaxed : bool) : State :=
  mkState inc ∅ ∅ (vs_make [] 0) ∅ 0 [] relaxed make_reserve_balance.

Definition st_set_original (m : gmap Z OriginalAccountState) (s : State) : State :=
  mkState (incarnation_ s) m (current_ s) (logs_ s) (code_ s) (version_ s) (dirty_ s)
    (relaxed_validation_ s) (rb_ s).
Definition st_set_current (m : gmap Z (VersionStack AccountState)) (s : State) : State :=
  mkState (incarnation_ s) (original_ s) m (logs_ s) (code_ s) (version_ s) (dirty_ s)
    (relaxed_validation_ s) (rb_ s).
Definition st_set_logs (l : VersionStack (list Log)) (s : State) : State :=
  mkState (incarnation_ s) (original_ s) (current_ s) l (code_ s) (version_ s) (dirty_ s)
    (relaxed_validation_ s) (rb_ s).
Definition st_set_code (m : gmap Z Code) (s : State) : State :=
  mkState (incarnation_ s) (original_ s) (current_ s) (logs_ s) m (version_ s) (dirty_ s)
    (relaxed_validation_ s) (rb_ s).
Definition st_set_version (v : Z) (s : State) : State :=
  mkState (incarnation_ s) (original_ s) (current_ s) (logs_ s) (code_ s) v (dirty_ s)
    (relaxed_validation_ s) (rb_ s).
Definition st_set_dirty (d : list (gset Z)) (s : State) : State :=
  mkState (incarnation_ s) (original_ s) (current_ s) (logs_ s) (code_ s) (version_ s) d
    (relaxed_validation_ s) (rb_ s).
Definition st_set_rb (rb : ReserveBalance) (s : State) : State :=
  mkState (incarnation_ s) (original_ s) (current_ s) (logs_ s) (code_ s) (version_ s) (dirty_ s)
    (relaxed_validation_ s) rb.

(** [staking::STAKING_CA] (staking/util/constants.hpp) *)
Definition STAKING_CA : Z := 0x1000.

(** ** EIP-7702 delegation indicators (src/category/vm/evm/delegation.cpp) *)
Definition delegation_indicator_prefix : Code := [0xef; 0x01; 0x00].
Definition delegation_indicator_size : Z := 3 + 20.
Definition code_is_delegated (code : Code) : bool :=
  if negb (Z.of_nat (length code) =? delegation_indicator_size) then false
  else bool_decide (take 3 code = delegation_indicator_prefix).

Section state.
Context {B : Type} `{BlockAccess B}.
(** [keccak256] of the code (src/category/core/keccak.hpp calls into a
    vendored library). *)
Context (keccak256 : Code → Z).

Abbreviation W := (State * B)%type.

(** *** Access to the two halves of the world *)
Definition sgets {A} (f : State → A) : M W A := mgets (λ w, f w.1).
Definition smodify (f : State → State) : M W unit := mmodify (λ w, (f w.1, w.2)).
Definition lift_block {A} (m : M B A) : M W A := λ w,
  match m w.2 with
  | Ok (a, bs') => Ok (a, (w.1, bs'))
  | Abort => Abort
  | Throw s => Throw s
  end.
Definition lift_outcome {A} (o : outcome A) : M W A := λ w,
  match o with Ok a => Ok (a, w) | Abort => Abort | Throw s => Throw s end.

(** Storing through a reference into [original_] or to the top of a stack
    of [current_]. *)
Definition write_original (a : Z) (f : OriginalAccountState → OriginalAccountState) : M W unit :=
  smodify (λ s, st_set_original (alter f a (original_ s)) s).
Definition write_current (a : Z) (f : AccountState → AccountState) : M W unit :=
  smodify (λ s, st_set_current (alter (vs_write f) a (current_ s)) s).
Definition modify_rb (f : ReserveBalance → ReserveBalance) : M W unit :=
  smodify (λ s, st_set_rb (f (rb_ s)) s).

(** *** Lookup of account states (state.cpp:51-91) *)
Definition original_account_state (address : Z) : M W OriginalAccountState :=
  o ← sgets (λ s, original_ s !! address);
  match o with
  | Some os => mret os
  | None =>
      account ← lift_block (ba_read_account address);
      smodify (λ s, st_set_original (<[address := make_original account]> (original_ s)) s);;
      mret (make_original account)
  end.

Definition recent_account_state (address : Z) : M W AccountState :=
  o ← sgets (λ s, current_ s !! address);
  match o with
  | Some stack => lift_outcome (vs_recent stack)
  | None => os ← original_account_state address; mret (os_state os)
  end.

Definition mark_dirty (address : Z) (d : list (gset Z)) : list (gset Z) :=
  match d with [] => [] | top :: r => ({[address]} ∪ top) :: r end.

Definition current_account_state (address : Z) : M W AccountState :=
  o ← sgets (λ s, current_ s !! address);
  (match o with
   | Some _ => mret ()
   | None =>
       os ← original_account_state address;
       smodify (λ s, st_set_current (<[address := vs_make (os_state os) (version_ s)]> (current_ s)) s)
   end);;
  smodify (λ s, st_set_dirty (mark_dirty address (dirty_ s)) s);;
  stack ← (sgets (λ s, current_ s !! address) ≫= mvalue);
  version ← sgets version_;
  stack' ← lift_outcome (vs_current version stack);
  smodify (λ s, st_set_current (<[address := stack']> (current_ s)) s);;
  lift_outcome (vs_recent stack').

Definition recent_account (address : Z) : M W (option Account) :=
  s ← recent_account_state address; mret (account_ s).
Definition current_account (address : Z) : M W (option Account) :=
  s ← current_account_state address; mret (account_ s).
Definition write_account (a : Z) (acc : option Account) : M W unit :=
  write_current a (as_set_account acc).

(** *** Readers (state.cpp:193-332) *)
Definition set_original_nonce (address n : Z) : M W unit :=
  os ← original_account_state address;
  let account := default default_account (os_account os) in
  write_original address
    (λ os, os_set_state (as_set_account (Some (with_nonce n account)) (os_state os)) os).

Definition account_exists (address : Z) : M W bool :=
  account ← recent_account address; mret (bool_decide (is_Some account)).
Definition account_is_dead (address : Z) : M W bool :=
  account ← recent_account address; mret (is_dead account).
Definition account_has_code_or_nonce (address : Z) : M W bool :=
  account ← recent_account address;
  mret (match account with
        | None => false
        | Some a => (nonce a >? 0) || negb (code_hash a =? NULL_HASH)
        end).
Definition get_nonce (address : Z) : M W Z :=
  account ← recent_account address;
  mret (match account with Some a => nonce a | None => 0 end).
Definition get_balance (address : Z) : M W Z :=
  account ← recent_account address;
  _ ← original_account_state address;
  write_original address set_validate_exact_balance;;
  mret (balance_of account).
Definition get_original_balance (address : Z) : M W Z :=
  os ← original_account_state address;
  write_original address set_validate_exact_balance;;
  mret (balance_of (os_account os)).
Definition get_code_hash (address : Z) : M W Z :=
  account ← recent_account address;
  mret (match account with Some a => code_hash a | None => NULL_HASH end).
Definition is_destructed (address : Z) : M W bool :=
  s ← recent_account_state address; mret (destructed_ s).
Definition is_current_incarnation (address : Z) : M W bool :=
  account ← recent_account address;
  inc ← sgets incarnation_;
  mret (match account with Some a => bool_decide (incarnation a = inc) | None => false end).

(** Read a slot through the block state and remember it in [original_]. *)
Definition fetch_original_storage (address : Z) (inc : Incarnation) (key : Z) : M W Z :=
  value ← lift_block (ba_read_storage address inc key);
  write_original address
    (λ os, os_set_state (as_set_storage (<[key := value]> (os_storage os)) (os_state os)) os);;
  mret value.

Definition get_storage (address key : Z) : M W Z :=
  it ← sgets (λ s, current_ s !! address);
  match it with
  | None =>
      os ← (sgets (λ s, original_ s !! address) ≫= mvalue);
      account ← mvalue (os_account os);
      match os_storage os !! key with
      | Some v => mret v
      | None => fetch_original_storage address (incarnation account) key
      end
  | Some stack =>
      account_state ← lift_outcome (vs_recent stack);
      account ← mvalue (account_ account_state);
      match storage_ account_state !! key with
      | Some v => mret v
      | None =>
          os ← (sgets (λ s, original_ s !! address) ≫= mvalue);
          match os_account os with
          | None => mret 0
          | Some original_account =>
              if decide (incarnation account = incarnation original_account) then
                match os_storage os !! key with
                | Some v => mret v
                | None => fetch_original_storage address (incarnation account) key
                end
              else mret 0
          end
      end
  end.

Definition get_transient_storage (address key : Z) : M W Z :=
  s ← recent_account_state address; mret (as_get_transient_storage key s).

Definition is_touched (address : Z) : M W bool :=
  it ← sgets (λ s, current_ s !! address);
  match it with
  | None => mret false
  | Some stack => s ← lift_outcome (vs_recent stack); mret (touched_ s)
  end.

(** *** Code (state.cpp:523-574) *)
Definition state_read_code (h : Z) : M W Code :=
  it ← sgets (λ s, code_ s !! h);
  match it with
  | Some vcode => mret vcode
  | None => lift_block (ba_read_code h)
  end.
Definition get_code (address : Z) : M W Code :=
  account ← recent_account address;
  match account with
  | None => lift_block (ba_read_code NULL_HASH)
  | Some a => state_read_code (code_hash a)
  end.
Definition get_code_size (address : Z) : M W Z :=
  account ← recent_account address;
  match account with
  | None => mret 0
  | Some a =>
      vcode ← state_read_code (code_hash a);
      mret (Z.of_nat (length vcode))
  end.
(** The bytes [copy_code] stores into the buffer; it returns their number. *)
Definition copy_code (address offset buffer_size : Z) : M W Code :=
  account ← recent_account address;
  match account with
  | None => mret []
  | Some a =>
      vcode ← state_read_code (code_hash a);
      let code_size := Z.of_nat (length vcode) in
      mret (if offset >? code_size then []
            else take (Z.to_nat (Z.min (code_size - offset) buffer_size))
                   (drop (Z.to_nat offset) vcode))
  end.

(** ** ReserveBalance: tracking of violations (reserve_balance.cpp) *)
Definition rb_is_delegated (h : Z) : M W bool :=
  if h =? NULL_HASH then mret false
  else vcode ← state_read_code h; mret (code_is_delegated vcode).

Definition is_smart_contract_code (code : Code) : bool :=
  negb (bool_decide (code = [])) && negb (code_is_delegated code).

Definition subject_account (address : Z) : M W bool :=
  if address =? STAKING_CA then mret false else
  orig ← original_account_state address;
  rb ← sgets rb_;
  effective_code_hash ←
    (if use_recent_code_hash_ rb then get_code_hash address
     else mret (as_get_code_hash (os_state orig)));
  if effective_code_hash =? NULL_HASH then mret true
  else rb_is_delegated effective_code_hash.

Definition pretx_reserve (address : Z) : M W Z :=
  f ← (sgets (λ s, get_max_reserve_ (rb_ s)) ≫= mvalue);
  original_balance ← get_original_balance address;
  mret (Z.min (f address) original_balance).

(** [violation_thresholds_[address] = t], [failed_.erase], [failed_.insert] *)
Definition set_threshold (address : Z) (t : option Z) : M W unit :=
  modify_rb (λ rb, rb_set_thresholds (<[address := t]> (violation_thresholds_ rb)) rb).
Definition failed_erase (address : Z) : M W unit :=
  modify_rb (λ rb, rb_set_failed (failed_ rb ∖ {[address]}) rb).
Definition failed_insert (address : Z) : M W unit :=
  modify_rb (λ rb, rb_set_failed ({[address]} ∪ failed_ rb) rb).
Definition exempt (address : Z) : M W unit :=
  set_threshold address (Some 0);; failed_erase address.

(** The last part of [update_violation_status], with the threshold known. *)
Definition compare_with_threshold (address threshold : Z) : M W unit :=
  if threshold =? 0 then failed_erase address
  else
    b ← get_balance address;
    if b <? threshold then failed_insert address else failed_erase address.

(** [allow_init_selfdestruct_exemption_ && is_destructed(address) &&
    is_current_incarnation(address)], with its short circuits. *)
Definition init_selfdestruct_exempted (address : Z) : M W bool :=
  exemption ← sgets (λ s, allow_init_selfdestruct_exemption_ (rb_ s));
  if (exemption : bool) then
    destructed ← is_destructed address;
    if (destructed : bool) then is_current_incarnation address else mret false
  else mret false.

Definition update_violation_status (address : Z) : M W unit :=
  enabled ← sgets (λ s, tracking_enabled_ (rb_ s));
  if negb enabled then mret () else
  violation_threshold ← sgets (λ s, mjoin (violation_thresholds_ (rb_ s) !! address));
  set_threshold address violation_threshold;;
  exempted ← init_selfdestruct_exempted address;
  if (exempted : bool) then exempt address else
  match violation_threshold with
  | Some t => compare_with_threshold address t
  | None =>
      subject ← subject_account address;
      if negb subject then exempt address else
      reserve ← pretx_reserve address;
      rb ← sgets rb_;
      if address =? sender_ rb then
        if sender_can_dip_ rb then exempt address
        else if sender_gas_fees_ rb >? reserve then
          set_threshold address None;; failed_insert address
        else
          set_threshold address (Some (reserve - sender_gas_fees_ rb));;
          compare_with_threshold address (reserve - sender_gas_fees_ rb)
      else
        set_threshold address (Some reserve);;
        compare_with_threshold address reserve
  end.

Definition on_credit (address : Z) : M W unit :=
  rb ← sgets rb_;
  if negb (tracking_enabled_ rb) then mret () else
  if bool_decide (address ∈ failed_ rb) then update_violation_status address else mret ().

Definition on_debit (address : Z) : M W unit := update_violation_status address.

Definition on_pop_reject (accounts : gset Z) : M W unit :=
  rb ← sgets rb_;
  if negb (tracking_enabled_ rb) then mret () else
  mfor (elements accounts) (λ dirty_address,
    set_threshold dirty_address None;; update_violation_status dirty_address).

Definition on_set_code (address : Z) (code : Code) : M W unit :=
  rb ← sgets rb_;
  if negb (tracking_enabled_ rb) then mret () else
  if negb (use_recent_code_hash_ rb) then mret () else
  if is_smart_contract_code code then exempt address
  else set_threshold address None;; update_violation_status address.

(** ** Frames (state.cpp:126-181) *)
Definition frames_consistent (s : State) : bool :=
  Z.of_nat (length (dirty_ s)) =? version_ s.

Definition push : M W unit :=
  ok ← sgets frames_consistent; massert ok;;
  smodify (λ s, st_set_version (u32 (version_ s + 1)) s);;
  smodify (λ s, st_set_dirty (∅ :: dirty_ s) s).

(** The preconditions of both pops, and [accounts = move(dirty_.back());
    dirty_.pop_back()]. *)
Definition pop_dirty : M W (gset Z) :=
  v ← sgets version_; massert (negb (v =? 0));;
  ok ← sgets frames_consistent; massert ok;;
  accounts ← (sgets (λ s, head (dirty_ s)) ≫= mvalue);
  smodify (λ s, st_set_dirty (tail (dirty_ s)) s);;
  mret accounts.

Definition pop_accept : M W unit :=
  accounts ← pop_dirty;
  mfor (elements accounts) (λ dirty_address,
    stack ← (sgets (λ s, current_ s !! dirty_address) ≫= mvalue);
    version ← sgets version_;
    stack' ← lift_outcome (vs_pop_accept version stack);
    smodify (λ s, st_set_current (<[dirty_address := stack']> (current_ s)) s);;
    smodify (λ s, st_set_dirty (mark_dirty dirty_address (dirty_ s)) s));;
  version ← sgets version_;
  logs ← sgets logs_;
  logs' ← lift_outcome (vs_pop_accept version logs);
  smodify (st_set_logs logs');;
  smodify (λ s, st_set_version (u32 (version_ s - 1)) s).

(** The loop of [pop_reject]: roll back one account; the flag says it is to
    be removed. *)
Definition reject_account (dirty_address : Z) : M W bool :=
  stack ← (sgets (λ s, current_ s !! dirty_address) ≫= mvalue);
  version ← sgets version_;
  r ← lift_outcome (vs_pop_reject version stack);
  smodify (λ s, st_set_current (<[dirty_address := r.2]> (current_ s)) s);;
  mret r.1.
Fixpoint reject_accounts (accounts : list Z) : M W (list Z) :=
  match accounts with
  | [] => mret []
  | a :: r =>
      emptied ← reject_account a;
      removals ← reject_accounts r;
      mret (if (emptied : bool) then a :: removals else removals)
  end.

Definition pop_reject : M W unit :=
  accounts ← pop_dirty;
  removals ← reject_accounts (elements accounts);
  version ← sgets version_;
  logs ← sgets logs_;
  r ← lift_outcome (vs_pop_reject version logs);
  smodify (st_set_logs r.2);;
  mfor (reverse removals) (λ a, smodify (λ s, st_set_current (delete a (current_ s)) s));;
  on_pop_reject accounts;;
  smodify (λ s, st_set_version (u32 (version_ s - 1)) s).

(** ** Writers (state.cpp:334-471) *)
Definition set_nonce (address n : Z) : M W unit :=
  account ← current_account address;
  inc ← sgets incarnation_;
  write_account address (Some (with_nonce n (default (new_account inc) account))).

Definition add_to_balance (address delta : Z) : M W unit :=
  account_state ← current_account_state address;
  inc ← sgets incarnation_;
  let account := default (new_account inc) (account_ account_state) in
  write_account address (Some account);;
  massert_throw (U256_MAX - delta >=? balance account) "balance overflow";;
  write_account address (Some (with_balance (u256 (balance account + delta)) account));;
  write_current address touch_;;
  on_credit address.

Definition subtract_from_balance (address delta : Z) : M W unit :=
  account_state ← current_account_state address;
  inc ← sgets incarnation_;
  let account := default (new_account inc) (account_ account_state) in
  write_account address (Some account);;
  massert_throw (delta <=? balance account) "balance underflow";;
  write_account address (Some (with_balance (u256 (balance account - delta)) account));;
  write_current address touch_;;
  on_debit address.

Definition set_storage (address key value : Z) : M W monad_storage_status :=
  account_state ← current_account_state address;
  account ← mvalue (account_ account_state);
  orig ← original_account_state address;
  original_value ←
    (match os_storage orig !! key with
     | Some v => mret v
     | None => fetch_original_storage address (incarnation account) key
     end);
  let r := as_set_storage_value key value original_value account_state in
  write_current address (λ _, r.2);;
  mret r.1.

Definition set_transient_storage (address key value : Z) : M W unit :=
  _ ← current_account_state address;
  write_current address (as_set_transient_storage key value).
Definition touch (address : Z) : M W unit :=
  _ ← current_account_state address; write_current address touch_.
Definition access_account (address : Z) : M W monad_access_status :=
  s ← current_account_state address;
  let r := access_ s in write_current address (λ _, r.2);; mret r.1.

Definition access_storage (traits : Traits) (address key : Z) : M W monad_access_status :=
  s ← current_account_state address;
  let r := access_storage_ key s in
  if mip_8_active traits then
    let p := PageTracker.access_page key (page_tracker_ r.2) in
    write_current address (λ _, as_set_pages p.2 r.2);; mret p.1
  else write_current address (λ _, r.2);; mret r.1.

Definition update_page (address key : Z) (status : monad_storage_status)
  : M W monad_page_storage_status :=
  s ← current_account_state address;
  let p := PageTracker.update_page key status (page_tracker_ s) in
  write_current address (as_set_pages p.2);; mret p.1.

Definition selfdestruct (traits : Traits) (address beneficiary : Z) : M W (bool * Z) :=
  _ ← current_account_state address;
  balance ← get_balance address;
  (if evm_rev traits <? MONAD_ETH_CANCUN then
     (if negb (address =? beneficiary) then add_to_balance beneficiary balance else mret ());;
     subtract_from_balance address balance
   else
     here ← (if negb (address =? beneficiary) then mret true
             else is_current_incarnation address);
     if (here : bool) then
       (if negb (address =? beneficiary) then add_to_balance beneficiary balance else mret ());;
       subtract_from_balance address balance
     else mret ());;
  (* through the reference taken at the start: the top of the same stack *)
  s ← recent_account_state address;
  write_current address (λ s, (destruct_ s).2);;
  on_debit address;;
  mret ((destruct_ s).1, balance).

(** ** End of the transaction (state.cpp:476-521) *)

(** The asserts of both loops, then [f] on the account of one entry. *)
Definition finalize_entry (a : Z) (f : AccountState → M W (option Account)) : M W unit :=
  stack ← (sgets (λ s, current_ s !! a) ≫= mvalue);
  massert (vs_size stack =? 1);;
  v ← lift_outcome (vs_version stack); massert (v =? 0);;
  account_state ← lift_outcome (vs_recent stack);
  account ← f account_state;
  write_account a account.

Definition destruct_suicides (traits : Traits) : M W unit :=
  v ← sgets version_; massert (v =? 0);;
  inc ← sgets incarnation_;
  addresses ← sgets (λ s, (map_to_list (current_ s)).*1);
  mfor addresses (λ a, finalize_entry a (λ s,
    if destructed_ s then
      if evm_rev traits <? MONAD_ETH_CANCUN then mret None
      else
        account ← mvalue (account_ s);
        mret (if decide (incarnation account = inc) then None else account_ s)
    else mret (account_ s))).

Definition destruct_touched_dead : M W unit :=
  v ← sgets version_; massert (v =? 0);;
  addresses ← sgets (λ s, (map_to_list (current_ s)).*1);
  mfor addresses (λ a, finalize_entry a (λ s,
    mret (if negb (touched_ s) then account_ s
          else if is_dead (account_ s) then None else account_ s))).

(** ** Code and creation (state.cpp:576-645) *)
Definition set_code (address : Z) (code : Code) : M W unit :=
  account ← current_account address;
  match account with
  | None => mret ()
  | Some a =>
      let h := keccak256 code in
      vcode ← lift_block (ba_insert_code h code);
      smodify (λ s, st_set_code (<[h := vcode]> (code_ s)) s);;
      write_account address (Some (with_code_hash h a));;
      on_set_code address code
  end.

Definition create_contract (address : Z) : M W unit :=
  account ← current_account address;
  inc ← sgets incarnation_;
  match account with
  | Some a =>
      massert (nonce a =? 0);; massert (code_hash a =? NULL_HASH);;
      write_account address (Some (with_incarnation inc a))
  | None => write_account address (Some (new_account inc))
  end.

Definition create_account_no_rollback (address : Z) : M W unit :=
  account ← current_account address;
  massert (bool_decide (account = None));;
  inc ← sgets incarnation_;
  write_account address (Some (new_account (make_incarnation (inc_block inc) LAST_TX))).

Definition logs : M W (list Log) := sgets logs_ ≫= λ l, lift_outcome (vs_recent l).
Definition store_log (log : Log) : M W unit :=
  l ← sgets logs_; v ← sgets version_;
  l' ← lift_outcome (vs_current v l);
  smodify (st_set_logs (vs_write (λ logs, logs ++ [log]) l')).

Definition set_to_state_incarnation (address : Z) : M W unit :=
  account ← current_account address;
  inc ← sgets incarnation_;
  write_account address (Some (with_incarnation inc (default (new_account inc) account))).

(** ** Relaxed merge (state.cpp:647-742) *)
Definition try_fix_account_mismatch (address : Z) (actual : option Account) : M W bool :=
  os ← (sgets (λ s, original_ s !! address) ≫= mvalue);
  relaxed ← sgets relaxed_validation_;
  match os_account os, actual with
  | Some original, Some act =>
      if is_empty original || is_empty act
         || negb (code_hash original =? code_hash act)
         || negb (bool_decide (incarnation original = incarnation act))
         || negb (nonce original =? nonce act) then mret false else
      massert (negb (balance original =? balance act));;
      if negb relaxed || validate_exact_balance_ os || (balance act <? min_balance_ os)
      then mret false else
      it ← sgets (λ s, current_ s !! address);
      adjusted ←
        match it with
        | None => mret true
        | Some stack =>
            massert (vs_size stack =? 1);;
            recent_state ← lift_outcome (vs_recent stack);
            match account_ recent_state with
            | None => mret false
            | Some recent =>
                (if balance act >? balance original then
                   write_account address
                     (Some (with_balance (u256 (balance recent + (balance act - balance original))) recent))
                 else
                   massert (balance recent >=? balance original - balance act);;
                   write_account address
                     (Some (with_balance (balance recent - (balance original - balance act)) recent)));;
                mret true
            end
        end;
      if negb (adjusted : bool) then mret false else
      write_original address (λ os,
        set_validate_exact_balance
          (os_set_state (as_set_account (Some (with_balance (balance act) original)) (os_state os)) os));;
      mret true
  | _, _ => mret false
  end.

Definition record_balance_constraint_for_debit (address debit : Z) : M W bool :=
  account ← recent_account address;
  let balance := balance_of account in
  orig ← original_account_state address;
  if balance >=? debit then
    let diff := balance - debit in
    let original_balance := balance_of (os_account orig) in
    (if original_balance >? diff then
       os' ← lift_outcome (set_min_balance (original_balance - diff) orig);
       write_original address (λ _, os')
     else mret ());;
    mret true
  else
    write_original address set_validate_exact_balance;;
    mret false.
End state.
