(* ===== verification/Methods.v ===== *)
(** * Programs over the methods of [State]

    The execution of a message sees the world only through the public methods
    of [State].  [method] names them with their arguments and result types,
    [call] is the method itself, and [prog] is any program that calls methods
    and opens and closes frames: what the interpreter, the host and the
    precompiles amount to for the state.  Theorems quantified over [prog]
    hold for every contract code. *)
From S2P Require Import Prelude Traits Account VersionStack AccountState BlockState State.

Inductive method : Type → Type :=
| m_account_exists (a : Z) : method bool
| m_account_is_dead (a : Z) : method bool
| m_account_has_code_or_nonce (a : Z) : method bool
| m_get_nonce (a : Z) : method Z
| m_get_balance (a : Z) : method Z
| m_get_original_balance (a : Z) : method Z
| m_validate_exact_balance (a : Z) : method ()
| m_get_code_hash (a : Z) : method Z
| m_is_destructed (a : Z) : method bool
| m_is_current_incarnation (a : Z) : method bool
| m_is_touched (a : Z) : method bool
| m_get_storage (a k : Z) : method Z
| m_get_transient_storage (a k : Z) : method Z
| m_get_code (a : Z) : method Code
| m_get_code_size (a : Z) : method Z
| m_copy_code (a offset size : Z) : method Code
| m_read_code (h : Z) : method Code
| m_record_balance_constraint_for_debit (a d : Z) : method bool
| m_set_nonce (a n : Z) : method ()
| m_add_to_balance (a d : Z) : method ()
| m_subtract_from_balance (a d : Z) : method ()
| m_set_storage (a k v : Z) : method monad_storage_status
| m_set_transient_storage (a k v : Z) : method ()
| m_touch (a : Z) : method ()
| m_access_account (a : Z) : method monad_access_status
| m_access_storage (t : Traits) (a k : Z) : method monad_access_status
| m_update_page (a k : Z) (st : monad_storage_status) : method monad_page_storage_status
| m_selfdestruct (t : Traits) (a b : Z) : method (bool * Z)
| m_set_code (a : Z) (c : Code) : method ()
| m_create_contract (a : Z) : method ()
| m_create_account_no_rollback (a : Z) : method ()
| m_set_to_state_incarnation (a : Z) : method ()
| m_logs : method (list Log)
| m_store_log (l : Log) : method ()
(* what reserve_balance.cpp, a friend of [State], does directly *)
| m_current : method (list Z)
| m_original_code_hash (a : Z) : method Z
| m_load_original_code_hash (a : Z) : method Z
| m_get_rb : method ReserveBalance
| m_set_rb (rb : ReserveBalance) : method ().

(** A program: a method call or frame operation and what to do with its
    result, until it returns, throws or stops on a failed assertion. *)
Inductive action : Type → Type :=
| Method {X} (op : method X) : action X
| Push : action ()
| PopAccept : action ()
| PopReject : action ().

Inductive prog (A : Type) : Type :=
| Ret (a : A)
| Act {X} (x : action X) (k : X → prog A)
| Stop (o : outcome Empty_set).
Arguments Ret {A} a.
Arguments Act {A X} x k.
Arguments Stop {A} o.

#[global] Instance prog_ret : MRet prog := @Ret.
#[global] Instance prog_bind : MBind prog := λ A B k,
  fix go (p : prog A) : prog B :=
    match p with
    | Ret a => k a
    | Act x f => Act x (λ y, go (f y))
    | Stop o => Stop o
    end.
Definition do_ {X} (op : method X) : prog X := Act (Method op) Ret.
Definition frame_ (x : action ()) : prog () := Act x Ret.
Definition passert (b : bool) : prog () := if b then Ret () else Stop Abort.
Definition passert_throw (b : bool) (s : string) : prog () := if b then Ret () else Stop (Throw s).

Section methods.
Context {B : Type} `{BlockAccess B}.
Context (keccak256 : Code → Z).
Abbreviation W := (State * B)%type.

(** [original_account_state(a).set_validate_exact_balance()] *)
Definition validate_exact_balance (a : Z) : M W unit :=
  _ ← original_account_state a; write_original a set_validate_exact_balance.

(** [state.current()], of which only the addresses are used directly *)
Definition current_addresses : M W (list Z) := sgets (λ s, (map_to_list (current_ s)).*1).
(** [state.original().at(a).get_code_hash()] *)
Definition original_code_hash (a : Z) : M W Z :=
  os ← (sgets (λ s, original_ s !! a) ≫= mvalue); mret (as_get_code_hash (os_state os)).
(** [state.original_account_state(a).get_code_hash()] *)
Definition load_original_code_hash (a : Z) : M W Z :=
  os ← original_account_state a; mret (as_get_code_hash (os_state os)).

Definition call {X} (op : method X) : M W X :=
  match op with
  | m_account_exists a => account_exists a
  | m_account_is_dead a => account_is_dead a
  | m_account_has_code_or_nonce a => account_has_code_or_nonce a
  | m_get_nonce a => get_nonce a
  | m_get_balance a => get_balance a
  | m_get_original_balance a => get_original_balance a
  | m_validate_exact_balance a => validate_exact_balance a
  | m_get_code_hash a => get_code_hash a
  | m_is_destructed a => is_destructed a
  | m_is_current_incarnation a => is_current_incarnation a
  | m_is_touched a => is_touched a
  | m_get_storage a k => get_storage a k
  | m_get_transient_storage a k => get_transient_storage a k
  | m_get_code a => get_code a
  | m_get_code_size a => get_code_size a
  | m_copy_code a o n => copy_code a o n
  | m_read_code h => state_read_code h
  | m_record_balance_constraint_for_debit a d => record_balance_constraint_for_debit a d
  | m_set_nonce a n => set_nonce a n
  | m_add_to_balance a d => add_to_balance a d
  | m_subtract_from_balance a d => subtract_from_balance a d
  | m_set_storage a k v => set_storage a k v
  | m_set_transient_storage a k v => set_transient_storage a k v
  | m_touch a => touch a
  | m_access_account a => access_account a
  | m_access_storage t a k => access_storage t a k
  | m_update_page a k st => update_page a k st
  | m_selfdestruct t a b => selfdestruct t a b
  | m_set_code a c => set_code keccak256 a c
  | m_create_contract a => create_contract a
  | m_create_account_no_rollback a => create_account_no_rollback a
  | m_set_to_state_incarnation a => set_to_state_incarnation a
  | m_logs => logs
  | m_store_log l => store_log l
  | m_current => current_addresses
  | m_original_code_hash a => original_code_hash a
  | m_load_original_code_hash a => load_original_code_hash a
  | m_get_rb => sgets rb_
  | m_set_rb rb => modify_rb (λ _, rb)
  end.

Definition act {X} (x : action X) : M W X :=
  match x with
  | Method op => call op
  | Push => push
  | PopAccept => pop_accept
  | PopReject => pop_reject
  end.

Fixpoint exec {A} (p : prog A) : M W A :=
  match p with
  | Ret a => mret a
  | Act x k => y ← act x; exec (k y)
  | Stop Abort => mabort
  | Stop (Throw s) => mthrow s
  | Stop (Ok e) => match e with end
  end.

Lemma exec_bind {A C} (p : prog A) (k : A → prog C) w :
  exec (p ≫= k) w = (exec p ≫= λ a, exec (k a)) w.
Proof.
  revert w. induction p as [a|X x f IH|[[]| |s]]; intros w; simpl.
  - by autorewrite with run.
  - change (Act x f ≫= k) with (Act x (λ y, f y ≫= k)). simpl. autorewrite with run.
    destruct (act x w) as [[y w1]| |s] eqn:E.
    + rewrite !(bind_Ok_eq _ _ _ _ _ E). apply IH.
    + by rewrite !bind_Abort.
    + by rewrite !(bind_Throw _ _ _ s).
  - by rewrite bind_Abort.
  - by rewrite (bind_Throw _ _ _ s).
Qed.

(** *** Inverting and running a program step by step *)
Lemma exec_bind_Ok {A C} (p : prog A) (k : A → prog C) w c w2 :
  exec (p ≫= k) w = Ok (c, w2) ↔ ∃ a w1, exec p w = Ok (a, w1) ∧ exec (k a) w1 = Ok (c, w2).
Proof. rewrite exec_bind. apply bind_Ok. Qed.
Lemma exec_bind_run {A C} (p : prog A) (k : A → prog C) w a w1 :
  exec p w = Ok (a, w1) → exec (p ≫= k) w = exec (k a) w1.
Proof. intros E. rewrite exec_bind. by rewrite (bind_Ok_eq _ _ _ _ _ E). Qed.
Lemma exec_Act {A X} (x : action X) (k : X → prog A) w :
  exec (Act x k) w = (act x ≫= λ y, exec (k y)) w.
Proof. done. Qed.
Lemma exec_do {X} (op : method X) w : exec (do_ op) w = call op w.
Proof.
  unfold do_. simpl. destruct (call op w) as [[y w1]| |s] eqn:E.
  - by rewrite (bind_Ok_eq _ _ _ _ _ E).
  - by rewrite bind_Abort.
  - by rewrite (bind_Throw _ _ _ s).
Qed.
Lemma exec_frame (x : action ()) w : exec (frame_ x) w = act x w.
Proof.
  unfold frame_. simpl. destruct (act x w) as [[y w1]| |s] eqn:E.
  - by rewrite (bind_Ok_eq _ _ _ _ _ E).
  - by rewrite bind_Abort.
  - by rewrite (bind_Throw _ _ _ s).
Qed.
Lemma exec_Ret {A} (a b : A) w w' : exec (Ret a) w = Ok (b, w') ↔ b = a ∧ w' = w.
Proof. simpl. apply ret_Ok. Qed.
Lemma exec_passert b w w' r : exec (passert b) w = Ok (r, w') ↔ b = true ∧ w' = w.
Proof.
  destruct b; simpl; [|by split; [done|intros [? _]]].
  rewrite ret_Ok. destruct r. naive_solver.
Qed.
Lemma exec_Stop {A} o w (a : A) w' : exec (Stop o) w = Ok (a, w') ↔ False.
Proof. by destruct o as [[]| |]. Qed.
End methods.

(** Inverts the hypotheses that say a program ran to an end. *)
Ltac pinv_step :=
  match goal with
  | H : exec _ (_ ≫= _) _ = Ok _ |- _ => apply exec_bind_Ok in H; destruct H as (? & ? & ? & ?)
  | H : exec _ (do_ _) _ = Ok _ |- _ => rewrite exec_do in H; cbn [call] in H
  | H : exec _ (frame_ _) _ = Ok _ |- _ => rewrite exec_frame in H; cbn [act] in H
  | H : exec _ (Ret _) _ = Ok _ |- _ => apply exec_Ret in H; destruct H; subst
  | H : exec _ (passert _) _ = Ok _ |- _ => apply exec_passert in H; destruct H; subst
  | H : exec _ (Stop _) _ = Ok _ |- _ => apply exec_Stop in H; destruct H
  | H : exec _ (if ?b then _ else _) _ = Ok _ |- _ => destruct b eqn:?
  end.
Ltac pinv := repeat pinv_step.
