(* ===== verification/Fixtures.v ===== *)
(** * Concrete parameters

    A database with two accounts, a varcode cache that never holds anything
    and a stand-in for the hash function: the concrete inputs at which the
    theorems of the other files are instantiated. *)
From S2P Require Import Prelude Traits Account VersionStack AccountState BlockState State.

(** A cache whose every entry has been evicted. *)
#[global] Instance no_cache : VarcodeCache () := {
  vc_get _ c := (None, c);
  vc_try_set _ _ c := c
}.
#[global] Instance no_cache_laws : VarcodeCacheLaws ().
Proof.
  refine {| vc_holds _ _ _ := False |}.
  - intros c h x c' [=].
  - done.
  - intros c h x h' x'. auto.
Defined.

Definition alice : Z := 0xa11ce.
Definition bob : Z := 0xb0b.
Definition carol : Z := 0xca201.

(** Alice has no code, Bob is a contract with one occupied slot. *)
Definition test_db : Db := mkDb
  (λ a, if a =? alice then Some (mkAccount 1000 NULL_HASH 7 (mkIncarnation 1 1))
        else if a =? bob then Some (mkAccount 50 0xb0bc0de 1 (mkIncarnation 2 0))
        else None)
  (λ a i k, if (a =? bob) && (k =? 5) then 77 else 0)
  (λ h, if h =? NULL_HASH then Some [] else if h =? 0xb0bc0de then Some [0x60; 0x00] else None).

#[global] Instance test_access : BlockAccess (BlockState ()) := block_access test_db None.

Definition test_hash (c : Code) : Z := if decide (c = []) then NULL_HASH else 0xb0bc0de.

Definition test_block : BlockState () := make_block_state ().
Definition test_inc : Incarnation := make_incarnation 9 3.
Definition test_state : State := make_state test_inc false.

(** The state a successful run ends in. *)
Definition ran {W A} (m : M W A) (w : W) : W :=
  match m w with Ok (_, w') => w' | _ => w end.

(** Proves that a run on concrete inputs succeeds. *)
Ltac run_concrete := vm_compute; reflexivity.
