(* ===== verification/Frames.v ===== *)
(** * Frames: what push, pop_accept and pop_reject guarantee

    The invariant [frames_wf] that ties the version stacks of [current_] and
    [logs_] to the sets in [dirty_], its preservation by every method of
    [State], and the two promises the interpreter relies on: a rejected frame
    leaves no trace, an accepted frame keeps its effects.

    Methods are handled compositionally: [FrameOn l m] says that [m], run at
    version [n] with the accounts of [l] already copied to version [n], keeps
    the invariant and does not change anything below version [n]. *)
From S2P Require Import Prelude Traits Account VersionStack AccountState BlockState State Methods Fixtures.

(** ** Inversion of the state primitives *)
Section inversion.
Context {B : Type}.
Implicit Types w : (State * B)%type.

Lemma sgets_Ok {A} (f : State → A) w w' a : sgets f w = Ok (a, w') ↔ a = f w.1 ∧ w' = w.
Proof. unfold sgets, mgets. naive_solver. Qed.
Lemma smodify_Ok f w w' r : smodify f w = Ok (r, w') ↔ w' = (f w.1, w.2).
Proof. unfold smodify, mmodify. destruct r. naive_solver. Qed.
Lemma lift_outcome_Ok {A} (o : outcome A) w w' a :
  lift_outcome o w = Ok (a, w') ↔ o = Ok a ∧ w' = w.
Proof. unfold lift_outcome. destruct o; naive_solver. Qed.
Lemma lift_block_Ok {A} (m : M B A) w w' a :
  lift_block m w = Ok (a, w') ↔ m w.2 = Ok (a, w'.2) ∧ w'.1 = w.1.
Proof.
  unfold lift_block. destruct w as [s bs], w' as [s' bs']; simpl.
  destruct (m bs) as [[? ?]| |]; naive_solver.
Qed.

Lemma run_sgets {A C} (f : State → A) (k : A → M _ C) w : (sgets f ≫= k) w = k (f w.1) w.
Proof. done. Qed.
Lemma run_smodify {C} f (k : () → M _ C) w : (smodify f ≫= k) w = k () (f w.1, w.2).
Proof. done. Qed.
Lemma run_lift_outcome {A C} (a : A) (k : A → M _ C) w : (lift_outcome (Ok a) ≫= k) w = k a w.
Proof. done. Qed.
End inversion.
#[export] Hint Rewrite @run_sgets @run_smodify @run_lift_outcome : run.

Ltac sinv_step :=
  match goal with
  | _ => progress minv
  | H : sgets _ _ = Ok _ |- _ => apply sgets_Ok in H; destruct H; subst
  | H : smodify _ _ = Ok _ |- _ => apply smodify_Ok in H; subst
  | H : lift_outcome _ _ = Ok _ |- _ => apply lift_outcome_Ok in H; destruct H; subst
  end.
Ltac sinv := repeat sinv_step.

(** ** The invariant *)

(** The set of accounts written at version [v]. *)
Definition dirty_at (s : State) (v : Z) : option (gset Z) :=
  if (1 <=? v) && (v <=? version_ s) then dirty_ s !! Z.to_nat (version_ s - v) else None.

Record frames_wf (s : State) : Prop := {
  fw_version : 0 <= version_ s < 2 ^ 32;
  fw_length : Z.of_nat (length (dirty_ s)) = version_ s;
  fw_stack a stack : current_ s !! a = Some stack → stack ≠ [] ∧ vs_wf (version_ s) stack;
  fw_logs : logs_ s ≠ [] ∧ vs_wf (version_ s) (logs_ s);
  (* a value written at version v >= 1 is listed in the frame's dirty set *)
  fw_dirty a stack v x :
    current_ s !! a = Some stack → (v, x) ∈ stack → 1 <= v →
    ∃ D, dirty_at s v = Some D ∧ a ∈ D;
  (* a listed account has a value that survives until that frame *)
  fw_listed a v D :
    dirty_at s v = Some D → a ∈ D →
    ∃ stack, current_ s !! a = Some stack ∧ vs_unwind v stack ≠ [];
  (* the log stack keeps its first entry *)
  fw_log0 : vs_unwind 0 (logs_ s) ≠ []
}.

(** ** What a version sees *)
Definition keep_nonempty {A} (l : list A) : option (list A) :=
  match l with [] => None | _ => Some l end.
Definition unwind_map (u : Z) (m : gmap Z (VersionStack AccountState))
  : gmap Z (VersionStack AccountState) :=
  omap (λ stack, keep_nonempty (vs_unwind u stack)) m.

(** [s'] differs from [s] only above version [u]. *)
Record below_same (u : Z) (s s' : State) : Prop := {
  bl_current : unwind_map u (current_ s') = unwind_map u (current_ s);
  bl_logs : vs_unwind u (logs_ s') = vs_unwind u (logs_ s);
  bl_dirty v : v <= u → dirty_at s' v = dirty_at s v
}.

#[global] Instance below_same_preorder u : PreOrder (below_same u).
Proof.
  split.
  - intros s. by split.
  - intros s1 s2 s3 [Hc1 Hl1 Hd1] [Hc2 Hl2 Hd2]. split; [congruence|congruence|].
    intros v Hv. by rewrite Hd2, Hd1.
Qed.

(** The account [a] has its own copy at the current version. *)
Definition owned (s : State) (a : Z) : Prop :=
  ∃ x r, current_ s !! a = Some ((version_ s, x) :: r).

Lemma unwind_map_lookup u m a :
  unwind_map u m !! a = m !! a ≫= λ stack, keep_nonempty (vs_unwind u stack).
Proof. unfold unwind_map. by rewrite lookup_omap. Qed.

Lemma unwind_map_insert u m a stack stack' :
  m !! a = Some stack → vs_unwind u stack' = vs_unwind u stack →
  unwind_map u (<[a := stack']> m) = unwind_map u m.
Proof.
  intros Ha E. apply map_eq. intros b. rewrite !unwind_map_lookup.
  destruct (decide (a = b)) as [->|]; simplify_map_eq; [by rewrite E|done].
Qed.

Lemma unwind_map_insert_fresh u m a stack' :
  m !! a = None → vs_unwind u stack' = [] → unwind_map u (<[a := stack']> m) = unwind_map u m.
Proof.
  intros Ha E. apply map_eq. intros b. rewrite !unwind_map_lookup.
  destruct (decide (a = b)) as [->|]; simplify_map_eq; [by rewrite E|done].
Qed.

(** ** The state components the invariant talks about *)
Definition frame_part (s : State) :=
  (current_ s, logs_ s, version_ s, dirty_ s).

Lemma frames_wf_proper s s' : frame_part s = frame_part s' → frames_wf s → frames_wf s'.
Proof.
  unfold frame_part. intros [= Ec El Ev Ed] [? ? Hst Hl Hd Hli ?].
  destruct s, s'; simpl in *; subst. by split.
Qed.

Lemma below_same_frame_part u s s' : frame_part s = frame_part s' → below_same u s s'.
Proof.
  unfold frame_part. intros [= Ec El Ev Ed].
  destruct s, s'; simpl in *; subst. by split.
Qed.

Lemma owned_frame_part s s' a : frame_part s = frame_part s' → owned s a → owned s' a.
Proof. unfold frame_part, owned. by intros [= -> _ -> _]. Qed.

(** ** Compositional predicate *)
Section frame_on.
Context {B : Type}.
Abbreviation W := (State * B)%type.

Definition FrameOn {A} (l : list Z) (m : M W A) : Prop :=
  ∀ w a w', frames_wf w.1 → Forall (owned w.1) l → m w = Ok (a, w') →
    frames_wf w'.1 ∧ version_ w'.1 = version_ w.1 ∧
    (∀ b, owned w.1 b → owned w'.1 b) ∧
    (∀ u, u < version_ w.1 → below_same u w.1 w'.1).

Lemma frame_bind {A C} l (m : M W A) (k : A → M W C) :
  FrameOn l m → (∀ x, FrameOn l (k x)) → FrameOn l (m ≫= k).
Proof.
  intros Hm Hk w b w' Hwf Hl E. apply bind_Ok in E as (a & w1 & E1 & E2).
  destruct (Hm _ _ _ Hwf Hl E1) as (Hwf1 & Hv1 & Ho1 & Hb1).
  assert (Hl1 : Forall (owned w1.1) l) by (eapply Forall_impl; eauto).
  destruct (Hk a _ _ _ Hwf1 Hl1 E2) as (Hwf2 & Hv2 & Ho2 & Hb2).
  split; [done|]. split; [congruence|]. split; [auto|].
  intros u Hu. etrans; [by apply Hb1|]. apply Hb2. lia.
Qed.

Lemma frame_weaken {A} l l' (m : M W A) : incl l l' → FrameOn l m → FrameOn l' m.
Proof.
  intros Hl Hm w a w' Hwf Hl' E. eapply Hm; eauto.
  rewrite Forall_forall in Hl' |- *. intros x Hx. by apply Hl', Hl.
Qed.

(** Computations that leave the frame components alone. *)
Definition frame_neutral {A} (m : M W A) : Prop :=
  ∀ w a w', m w = Ok (a, w') → frame_part w'.1 = frame_part w.1.

Lemma frame_of_neutral {A} l (m : M W A) : frame_neutral m → FrameOn l m.
Proof.
  intros Hm w a w' Hwf Hl E. apply Hm in E as E'. symmetry in E'.
  split; [by eapply frames_wf_proper|].
  split; [by unfold frame_part in E'; injection E'|].
  split; [intros b; by apply owned_frame_part|].
  intros u _. by apply below_same_frame_part.
Qed.

Lemma neutral_bind {A C} (m : M W A) (k : A → M W C) :
  frame_neutral m → (∀ x, frame_neutral (k x)) → frame_neutral (m ≫= k).
Proof.
  intros Hm Hk w b w' E. apply bind_Ok in E as (a & w1 & E1 & E2).
  apply Hm in E1. apply Hk in E2. congruence.
Qed.
Lemma neutral_ret {A} (x : A) : frame_neutral (mret x).
Proof. intros w a w' E. minv. done. Qed.
Lemma neutral_sgets {A} (f : State → A) : frame_neutral (sgets (B:=B) f).
Proof. intros w a w' E. unfold sgets in E. minv. done. Qed.
Lemma neutral_massert b : frame_neutral (massert b).
Proof. intros w a w' E. minv. done. Qed.
Lemma neutral_massert_throw b s : frame_neutral (massert_throw b s).
Proof. intros w a w' E. minv. done. Qed.
Lemma neutral_mvalue {A} (o : option A) : frame_neutral (mvalue o).
Proof. intros w a w' E. minv. done. Qed.
Lemma neutral_lift_outcome {A} (o : outcome A) : frame_neutral (lift_outcome (B:=B) o).
Proof. intros w a w' E. unfold lift_outcome in E. destruct o; [by injection E as <- <-|done|done]. Qed.
Lemma neutral_lift_block {A} (m : M B A) : frame_neutral (lift_block m).
Proof.
  intros w a w' E. unfold lift_block in E.
  destruct (m w.2) as [[? ?]| |]; [by injection E as <- <-|done|done].
Qed.
Lemma neutral_smodify (f : State → State) :
  (∀ s, frame_part (f s) = frame_part s) → frame_neutral (smodify (B:=B) f).
Proof. intros Hf w a w' E. unfold smodify in E. minv. apply Hf. Qed.
Lemma neutral_mfor {A} (l : list A) (f : A → M W unit) :
  (∀ x, frame_neutral (f x)) → frame_neutral (mfor l f).
Proof.
  intros Hf. induction l as [|x l IH]; simpl; [apply neutral_ret|].
  apply neutral_bind; auto.
Qed.
End frame_on.

Create HintDb frame discriminated.
#[export] Hint Resolve neutral_ret neutral_sgets neutral_massert neutral_massert_throw
  neutral_mvalue neutral_lift_outcome neutral_lift_block : frame.

(** Decomposes [frame_neutral] and [FrameOn] goals along the program text. *)
Ltac neutral_step :=
  match goal with
  | |- frame_neutral (_ ≫= _) => apply neutral_bind; [|intros ?]
  | |- frame_neutral (mfor _ _) => apply neutral_mfor; intros ?
  | |- frame_neutral (let _ := _ in _) => cbv zeta
  | |- frame_neutral (if ?b then _ else _) => destruct b
  | |- frame_neutral (match ?o with _ => _ end) => destruct o
  | |- frame_neutral (smodify _) => apply neutral_smodify; intros ?; reflexivity
  | |- frame_neutral _ => solve [auto with frame nocore]
  end.
Ltac neutral := repeat neutral_step.

Section neutral_methods.
Context {B : Type} `{BlockAccess B}.
Abbreviation neutral := (frame_neutral (B:=B)).

Lemma neutral_original_account_state a : neutral (original_account_state a).
Proof. unfold original_account_state. neutral. Qed.
Hint Resolve neutral_original_account_state : frame.
Lemma neutral_recent_account_state a : neutral (recent_account_state a).
Proof. unfold recent_account_state. neutral. Qed.
Hint Resolve neutral_recent_account_state : frame.
Lemma neutral_recent_account a : neutral (recent_account a).
Proof. unfold recent_account. neutral. Qed.
Hint Resolve neutral_recent_account : frame.
Lemma neutral_write_original a f : neutral (write_original a f).
Proof. unfold write_original. neutral. Qed.
Hint Resolve neutral_write_original : frame.
Lemma neutral_modify_rb f : neutral (modify_rb f).
Proof. unfold modify_rb. neutral. Qed.
Hint Resolve neutral_modify_rb : frame.
Lemma neutral_get_balance a : neutral (get_balance a).
Proof. unfold get_balance. neutral. Qed.
Lemma neutral_get_original_balance a : neutral (get_original_balance a).
Proof. unfold get_original_balance. neutral. Qed.
Lemma neutral_get_code_hash a : neutral (get_code_hash a).
Proof. unfold get_code_hash. neutral. Qed.
Lemma neutral_is_destructed a : neutral (is_destructed a).
Proof. unfold is_destructed. neutral. Qed.
Lemma neutral_is_current_incarnation a : neutral (is_current_incarnation a).
Proof. unfold is_current_incarnation. neutral. Qed.
Lemma neutral_fetch a i k : neutral (fetch_original_storage a i k).
Proof. unfold fetch_original_storage. neutral. Qed.
Lemma neutral_state_read_code h : neutral (state_read_code h).
Proof. unfold state_read_code. neutral. Qed.
Hint Resolve neutral_get_balance neutral_get_original_balance neutral_get_code_hash
  neutral_is_destructed neutral_is_current_incarnation neutral_fetch neutral_state_read_code : frame.
Lemma neutral_rb_is_delegated h : neutral (rb_is_delegated h).
Proof. unfold rb_is_delegated. neutral. Qed.
Hint Resolve neutral_rb_is_delegated : frame.
Lemma neutral_update_violation_status a : neutral (update_violation_status a).
Proof.
  unfold update_violation_status, init_selfdestruct_exempted, subject_account, pretx_reserve,
    compare_with_threshold, exempt, set_threshold, failed_erase, failed_insert. neutral.
Qed.
Hint Resolve neutral_update_violation_status : frame.
Lemma neutral_on_credit a : neutral (on_credit a).
Proof. unfold on_credit. neutral. Qed.
Lemma neutral_on_debit a : neutral (on_debit a).
Proof. unfold on_debit. neutral. Qed.
Lemma neutral_on_pop_reject l : neutral (on_pop_reject l).
Proof. unfold on_pop_reject, set_threshold. neutral. Qed.
Lemma neutral_on_set_code a c : neutral (on_set_code a c).
Proof. unfold on_set_code, exempt, set_threshold, failed_erase. neutral. Qed.
Lemma neutral_record_balance a d : neutral (record_balance_constraint_for_debit a d).
Proof. unfold record_balance_constraint_for_debit. neutral. Qed.
Lemma neutral_get_storage a k : neutral (get_storage a k).
Proof. unfold get_storage. neutral. Qed.
  End neutral_methods.
#[export] Hint Resolve neutral_original_account_state neutral_recent_account_state
  neutral_recent_account neutral_write_original neutral_modify_rb neutral_get_balance
  neutral_get_original_balance neutral_get_code_hash neutral_is_destructed
  neutral_is_current_incarnation neutral_fetch neutral_state_read_code neutral_rb_is_delegated
  neutral_update_violation_status neutral_on_credit neutral_on_debit neutral_on_pop_reject
  neutral_on_set_code neutral_record_balance neutral_get_storage : frame.

(** ** The two primitives that write [current_] *)
Section frame_primitives.
Context {B : Type} `{BlockAccess B}.
Abbreviation W := (State * B)%type.

(** The pure content of [current_account_state] once the account has a
    stack: list it as dirty and copy its top to the current version. *)
Definition touch_current (a : Z) (stack : VersionStack AccountState) (s : State) : State :=
  st_set_current (<[a := stack]> (current_ s)) (st_set_dirty (mark_dirty a (dirty_ s)) s).

Lemma dirty_at_mark s a v D :
  frames_wf s → dirty_at s v = Some D →
  dirty_at (st_set_dirty (mark_dirty a (dirty_ s)) s) v =
    Some (if decide (v = version_ s) then {[a]} ∪ D else D).
Proof.
  intros Hwf. unfold dirty_at; simpl.
  destruct (Z.leb_spec 1 v), (Z.leb_spec v (version_ s)); simpl; try done.
  destruct (dirty_ s) as [|top r]; [done|]. simpl. intros HD.
  destruct (decide (v = version_ s)) as [->|Hne].
  - rewrite Z.sub_diag in *. simpl in *. by simplify_eq.
  - destruct (Z.to_nat (version_ s - v)) eqn:E; [lia|]. simpl in *. by simplify_eq.
Qed.

Lemma dirty_at_mark_None s a v :
  dirty_at s v = None → dirty_at (st_set_dirty (mark_dirty a (dirty_ s)) s) v = None.
Proof.
  unfold dirty_at; simpl. case_match; [|done].
  destruct (dirty_ s) as [|top r]; [done|]. simpl.
  by destruct (Z.to_nat (version_ s - v)).
Qed.

Lemma dirty_at_top s : frames_wf s → 1 <= version_ s → is_Some (dirty_at s (version_ s)).
Proof.
  intros Hwf Hv. pose proof (fw_length _ Hwf). unfold dirty_at.
  destruct (Z.leb_spec 1 (version_ s)), (Z.leb_spec (version_ s) (version_ s)); try lia; simpl.
  rewrite Z.sub_diag. apply lookup_lt_is_Some. lia.
Qed.

(** How [touch_current] changes the dirty sets. *)
Lemma touch_dirty s a stack v :
  dirty_at (touch_current a stack s) v =
  dirty_at (st_set_dirty (mark_dirty a (dirty_ s)) s) v.
Proof. done. Qed.

Lemma touch_dirty_lower s a stack v :
  frames_wf s → v < version_ s → dirty_at (touch_current a stack s) v = dirty_at s v.
Proof.
  intros Hwf Hv. rewrite touch_dirty. destruct (dirty_at s v) as [D|] eqn:ED.
  - rewrite (dirty_at_mark _ _ _ _ Hwf ED). by rewrite decide_False by lia.
  - by apply dirty_at_mark_None.
Qed.

Lemma touch_dirty_mono s a stack v D b :
  frames_wf s → dirty_at s v = Some D → b ∈ D →
  ∃ D', dirty_at (touch_current a stack s) v = Some D' ∧ b ∈ D'.
Proof.
  intros Hwf ED Hb. rewrite touch_dirty, (dirty_at_mark _ _ _ _ Hwf ED).
  eexists; split; [done|]. case_decide; set_solver.
Qed.

Lemma touch_dirty_inv s a stack v D b :
  frames_wf s → dirty_at (touch_current a stack s) v = Some D → b ∈ D → b ≠ a →
  ∃ D', dirty_at s v = Some D' ∧ b ∈ D'.
Proof.
  intros Hwf ED Hb Hne. rewrite touch_dirty in ED.
  destruct (dirty_at s v) as [D0|] eqn:ED0.
  - rewrite (dirty_at_mark _ _ _ _ Hwf ED0) in ED. injection ED as <-.
    exists D0. split; [done|]. revert Hb. case_decide; set_solver.
  - by rewrite dirty_at_mark_None in ED.
Qed.

(** The stack [current_account_state] copies from: the account's own, or a
    new one at the current version. *)
Definition copy_source (s : State) (a : Z) (stack0 : VersionStack AccountState) : Prop :=
  current_ s !! a = Some stack0 ∨
  current_ s !! a = None ∧ ∃ x, stack0 = vs_make x (version_ s).

Lemma copy_source_wf s a stack0 :
  frames_wf s → copy_source s a stack0 → stack0 ≠ [] ∧ vs_wf (version_ s) stack0.
Proof.
  intros Hwf [Hs|(_ & x & ->)]; [by eapply fw_stack|]. split; [done|].
  apply vs_wf_make. pose proof (fw_version _ Hwf). lia.
Qed.

Lemma vs_current_top s (stack0 stack : VersionStack AccountState) :
  vs_wf (version_ s) stack0 → vs_current (version_ s) stack0 = Ok stack →
  (∃ x r, stack = (version_ s, x) :: r) ∧
  (∀ v x, (v, x) ∈ stack → v = version_ s ∨ (v, x) ∈ stack0).
Proof.
  destruct stack0 as [|[v x] r]; simpl; [done|]. intros [Hv _] [= <-].
  destruct (Z.gtb_spec (version_ s) v).
  - split; [eauto|]. intros v' x' Hin. apply elem_of_cons in Hin as [[= -> ->]|]; auto.
  - assert (v = version_ s) as -> by lia. eauto.
Qed.

(** Copying to the current version keeps the invariant. *)
Lemma touch_current_wf s a stack0 stack :
  frames_wf s → copy_source s a stack0 → vs_current (version_ s) stack0 = Ok stack →
  frames_wf (touch_current a stack s).
Proof.
  intros Hwf Hsrc Hcur. destruct (copy_source_wf _ _ _ Hwf Hsrc) as [Hne0 Hwf0].
  destruct (vs_current_top _ _ _ Hwf0 Hcur) as [(x0 & r0 & Htop) Hentries].
  pose proof (fw_version _ Hwf) as Hver.
  assert (Hwf1 : vs_wf (version_ s) stack) by (eapply vs_wf_current; eauto; lia).
  split; simpl; try apply Hwf.
  - rewrite <- (fw_length _ Hwf). by destruct (dirty_ s).
  - intros b stk Hb. destruct (decide (a = b)) as [<-|]; simplify_map_eq; [|by eapply fw_stack].
    by split.
  - intros b stk v x Hb Hin Hv. destruct (decide (a = b)) as [<-|]; simplify_map_eq.
    + destruct (Hentries _ _ Hin) as [->|Hin0].
      * destruct (dirty_at_top _ Hwf Hv) as [D ED]. eexists. split.
        -- rewrite touch_dirty. by apply dirty_at_mark.
        -- rewrite decide_True by done. set_solver.
      * destruct Hsrc as [Hs|(_ & y & ->)].
        -- destruct (fw_dirty _ Hwf _ _ _ _ Hs Hin0 Hv) as (D & ED & Ha).
           by eapply touch_dirty_mono.
        -- apply list_elem_of_singleton in Hin0. simplify_eq.
           destruct (dirty_at_top _ Hwf Hv) as [D ED]. eexists. split.
           ++ rewrite touch_dirty. by apply dirty_at_mark.
           ++ rewrite decide_True by done. set_solver.
    + destruct (fw_dirty _ Hwf _ _ _ _ Hb Hin Hv) as (D & ED & Ha).
      by eapply touch_dirty_mono.
  - intros b v D ED Hb. destruct (decide (b = a)) as [->|Hab].
    + exists ((version_ s, x0) :: r0). split; [by simplify_map_eq|].
      destruct (decide (v < version_ s)) as [Hv|].
      * rewrite <- Htop, (vs_unwind_current _ _ _ _ Hv Hcur).
        rewrite touch_dirty_lower in ED by done.
        destruct (fw_listed _ Hwf _ _ _ ED Hb) as (stk & Hstk & ?).
        destruct Hsrc as [Hs|[Hs _]]; simplify_eq; done.
      * simpl. destruct (Z.leb_spec (version_ s) v); [done|lia].
    + destruct (touch_dirty_inv _ _ _ _ _ _ Hwf ED Hb Hab) as (D0 & ED0 & Hb0).
      destruct (fw_listed _ Hwf _ _ _ ED0 Hb0) as (stk & Hstk & ?).
      exists stk. split; [by simplify_map_eq|done].
Qed.

Lemma touch_current_below s a stack0 stack u :
  frames_wf s → copy_source s a stack0 → vs_current (version_ s) stack0 = Ok stack →
  u < version_ s → below_same u s (touch_current a stack s).
Proof.
  intros Hwf Hsrc Hcur Hu.
  pose proof (vs_unwind_current _ _ _ _ Hu Hcur) as Hunw.
  split; simpl; [|done|intros v Hv; apply touch_dirty_lower; [done|lia]].
  destruct Hsrc as [Hs|(Hs & x & ->)].
  - eapply unwind_map_insert; eauto.
  - eapply unwind_map_insert_fresh; [done|]. rewrite Hunw. simpl.
    destruct (Z.leb_spec (version_ s) u); [lia|done].
Qed.

Lemma touch_current_owned s a stack0 stack b :
  frames_wf s → copy_source s a stack0 → vs_current (version_ s) stack0 = Ok stack →
  b = a ∨ owned s b → owned (touch_current a stack s) b.
Proof.
  intros Hwf Hsrc Hcur Hb. destruct (copy_source_wf _ _ _ Hwf Hsrc) as [Hne0 Hwf0].
  destruct (vs_current_top _ _ _ Hwf0 Hcur) as [(x0 & r0 & ->) _].
  destruct (decide (b = a)) as [->|Hne].
  - exists x0, r0. simpl. by simplify_map_eq.
  - destruct Hb as [?|(x & r & Hb)]; [done|]. exists x, r. simpl. by simplify_map_eq.
Qed.

(** What a successful [current_account_state] does. *)
Lemma current_account_state_inv a (w w' : W) x :
  current_account_state a w = Ok (x, w') →
  ∃ stack0 stack s1,
    frame_part s1 = frame_part w.1 ∧ copy_source s1 a stack0 ∧
    vs_current (version_ s1) stack0 = Ok stack ∧
    vs_recent stack = Ok x ∧ w'.1 = touch_current a stack s1.
Proof.
  unfold current_account_state. intros E. apply bind_Ok in E as (o & w0 & E0 & E).
  apply sgets_Ok in E0 as [-> ->]. apply bind_Ok in E as ([] & w1 & E1 & E).
  assert (∃ stack0 s1, frame_part s1 = frame_part w.1 ∧ copy_source s1 a stack0 ∧
            st_set_current (<[a := stack0]> (current_ s1)) s1 = w1.1)
    as (stack0 & s1 & Hf & Hsrc & Hw1).
  { destruct (current_ w.1 !! a) as [stack0|] eqn:Ec; sinv.
    - exists stack0, w.1. split; [done|]. split; [by left|].
      rewrite insert_id by done. by destruct w.1.
    - match goal with H : original_account_state _ _ = Ok (?os, ?w2) |- _ =>
        pose proof (neutral_original_account_state _ _ _ _ H) as Hn;
        exists (vs_make (os_state os) (version_ w2.1)), w2.1 end.
      split; [done|]. split; [|done].
      right. unfold frame_part in Hn. injection Hn as -> _ _ _. eauto. }
  sinv. simpl in *. rewrite <- Hw1 in *. simpl in *. simplify_map_eq.
  exists stack0. eexists. exists s1. split; [unfold frame_part; congruence|]. do 3 (split; [done|]).
  unfold touch_current, st_set_current, st_set_dirty; simpl. by rewrite insert_insert_eq.
Qed.

(** The post-condition of [FrameOn], for one run. *)
Definition framed (s s' : State) : Prop :=
  frames_wf s' ∧ version_ s' = version_ s ∧
  (∀ b, owned s b → owned s' b) ∧
  (∀ u, u < version_ s → below_same u s s').

Lemma current_account_state_framed a (w w' : W) x :
  frames_wf w.1 → current_account_state a w = Ok (x, w') →
  framed w.1 w'.1 ∧ owned w'.1 a.
Proof.
  intros Hwf E.
  destruct (current_account_state_inv _ _ _ _ E) as (st0 & st & s1 & Hf & Hsrc & Hcur & _ & ->).
  assert (Hwf1 : frames_wf s1) by (by eapply frames_wf_proper).
  split; [|eapply touch_current_owned; eauto].
  split; [by eapply touch_current_wf|].
  assert (Hv : version_ s1 = version_ w.1) by (by unfold frame_part in Hf; injection Hf).
  split; [done|]. split.
  - intros b Hb. eapply touch_current_owned; eauto. right. by eapply owned_frame_part.
  - intros u Hu. etrans; [by apply below_same_frame_part|].
    eapply touch_current_below; eauto. lia.
Qed.

Lemma frame_cas {C} a l (k : AccountState → M W C) :
  (∀ x, FrameOn (a :: l) (k x)) → FrameOn l (current_account_state a ≫= k).
Proof.
  intros Hk w b w' Hwf Hl E. apply bind_Ok in E as (x & w1 & E1 & E2).
  destruct (current_account_state_framed _ _ _ _ Hwf E1) as [(Hwf1 & Hv1 & Ho1 & Hb1) Ha].
  assert (Hl1 : Forall (owned w1.1) (a :: l)).
  { constructor; [done|]. eapply Forall_impl; eauto. }
  destruct (Hk x _ _ _ Hwf1 Hl1 E2) as (Hwf2 & Hv2 & Ho2 & Hb2).
  split; [done|]. split; [congruence|]. split; [auto|].
  intros u Hu. etrans; [by apply Hb1|]. apply Hb2. lia.
Qed.

Lemma frame_ca {C} a l (k : option Account → M W C) :
  (∀ x, FrameOn (a :: l) (k x)) → FrameOn l (current_account a ≫= k).
Proof.
  intros Hk w b w' Hwf Hl E. unfold current_account in E.
  apply bind_Ok in E as (x & w1 & E1 & E2). apply bind_Ok in E1 as (x1 & w2 & E1 & E3). minv.
  eapply (frame_cas a l (λ x, k (account_ x))); [auto|done|done|].
  rewrite (bind_Ok_eq _ _ _ _ _ E1). done.
Qed.

(** Storing to the top of a stack the frame owns. *)
Lemma frame_write_current a f l : a ∈ l → FrameOn (B:=B) l (write_current a f).
Proof.
  intros Hin w r w' Hwf Hl E. unfold write_current in E. sinv. simpl.
  assert (Ha : owned w.1 a).
  { rewrite Forall_forall in Hl. apply Hl. by apply list_elem_of_In. }
  destruct Ha as (x & rest & Ha). set (s := w.1) in *.
  assert (Halt : alter (vs_write f) a (current_ s) = <[a := (version_ s, f x) :: rest]> (current_ s)).
  { apply map_eq. intros b. destruct (decide (a = b)) as [<-|].
    - rewrite lookup_alter_eq. by simplify_map_eq.
    - rewrite lookup_alter_ne by done. by simplify_map_eq. }
  rewrite Halt. destruct (fw_stack _ Hwf _ _ Ha) as [_ [Hva Hrest]].
  split; [|split; [done|split]].
  - split; simpl; try apply Hwf.
    + intros b stk Hb. destruct (decide (a = b)) as [<-|]; simplify_map_eq; [|by eapply fw_stack].
      by split.
    + intros b stk v y Hb Hy Hv. destruct (decide (a = b)) as [<-|]; simplify_map_eq.
      * apply elem_of_cons in Hy as [[= -> ->]|Hy].
        -- eapply (fw_dirty _ Hwf); [done| |done]. by left.
        -- eapply (fw_dirty _ Hwf); [done| |done]. by right.
      * by eapply (fw_dirty _ Hwf).
    + intros b v D HD Hb. destruct (fw_listed _ Hwf _ _ _ HD Hb) as (stk & Hstk & Hne).
      destruct (decide (a = b)) as [<-|]; simplify_map_eq; [|eauto].
      eexists. split; [done|]. simpl in *. by destruct (version_ s <=? v).
  - intros b (y & r' & Hb). unfold owned; simpl.
    destruct (decide (a = b)) as [<-|]; simplify_map_eq; eauto.
  - intros u Hu. split; simpl; [|done|done].
    eapply unwind_map_insert; [done|]. simpl.
    destruct (Z.leb_spec (version_ s) u); [lia|done].
Qed.

Lemma frame_mfor {A} l (xs : list A) (f : A → M W unit) :
  (∀ x, FrameOn l (f x)) → FrameOn l (mfor xs f).
Proof.
  intros Hf. induction xs as [|x xs IH]; simpl; [apply frame_of_neutral, neutral_ret|].
  by apply frame_bind.
Qed.
End frame_primitives.

(** Decomposes [FrameOn] goals along the program text. *)
Ltac frame_step :=
  match goal with
  | |- FrameOn _ (current_account_state _ ≫= _) => apply frame_cas; intros ?
  | |- FrameOn _ (current_account _ ≫= _) => apply frame_ca; intros ?
  | |- FrameOn _ (_ ≫= _) => apply frame_bind; [|intros ?]
  | |- FrameOn _ (write_current _ _) => apply frame_write_current; set_solver
  | |- FrameOn _ (write_account _ _) => apply frame_write_current; set_solver
  | |- FrameOn _ (let _ := _ in _) => cbv zeta
  | |- FrameOn _ _ => solve [apply frame_of_neutral; neutral]
  | |- FrameOn _ (if ?b then _ else _) => destruct b
  | |- FrameOn _ (match ?o with _ => _ end) => destruct o
  end.
Ltac frame := repeat frame_step.

(** ** Every method that writes *)
Section frame_methods.
Context {B : Type} `{BlockAccess B}.
Context (keccak256 : Code → Z).
Abbreviation W := (State * B)%type.
Abbreviation Frame := (FrameOn (B:=B) []).

Lemma frame_any {A} l (m : M W A) : Frame m → FrameOn l m.
Proof. apply frame_weaken. intros x []. Qed.

Lemma frame_set_nonce a n : Frame (set_nonce a n).
Proof. unfold set_nonce. frame. Qed.
Lemma frame_add_to_balance a d : Frame (add_to_balance a d).
Proof. unfold add_to_balance. frame. Qed.
Lemma frame_subtract_from_balance a d : Frame (subtract_from_balance a d).
Proof. unfold subtract_from_balance. frame. Qed.
Lemma frame_set_storage a k v : Frame (set_storage a k v).
Proof. unfold set_storage. frame. Qed.
Lemma frame_set_transient_storage a k v : Frame (set_transient_storage a k v).
Proof. unfold set_transient_storage. frame. Qed.
Lemma frame_touch a : Frame (touch a).
Proof. unfold touch. frame. Qed.
Lemma frame_access_account a : Frame (access_account a).
Proof. unfold access_account. frame. Qed.
Lemma frame_access_storage t a k : Frame (access_storage t a k).
Proof. unfold access_storage. frame. Qed.
Lemma frame_update_page a k st : Frame (update_page a k st).
Proof. unfold update_page. frame. Qed.
Lemma frame_selfdestruct t a b : Frame (selfdestruct t a b).
Proof.
  unfold selfdestruct. frame; try (apply frame_any, frame_add_to_balance);
    apply frame_any, frame_subtract_from_balance.
Qed.
Lemma frame_set_code a c : Frame (set_code keccak256 a c).
Proof. unfold set_code. frame. Qed.
Lemma frame_create_contract a : Frame (create_contract a).
Proof. unfold create_contract. frame. Qed.
Lemma frame_create_account_no_rollback a : Frame (create_account_no_rollback a).
Proof. unfold create_account_no_rollback. frame. Qed.
Lemma frame_set_to_state_incarnation a : Frame (set_to_state_incarnation a).
Proof. unfold set_to_state_incarnation. frame. Qed.

Lemma frame_store_log log : Frame (store_log log).
Proof.
  intros w r w' Hwf _ E. unfold store_log in E. sinv. simpl.
  match goal with Hc : vs_current _ _ = Ok ?l |- _ => rename l into l'; rename Hc into Hcur end.
  destruct (fw_logs _ Hwf) as [Hne Hlw]. pose proof (fw_version _ Hwf).
  assert (Hl' : vs_wf (version_ w.1) l') by (eapply vs_wf_current; eauto; lia).
  destruct (logs_ w.1) as [|[v0 x0] r0] eqn:El; [done|].
  pose proof (fw_log0 _ Hwf) as Hl0. rewrite El in Hl0. simpl in Hcur. injection Hcur as <-.
  simpl in Hlw. destruct Hlw as [Hv0 Hr0].
  split; [|split; [done|split; [done|]]].
  - split; simpl; try apply Hwf.
    + split; [by destruct (version_ w.1 >? v0)|]. by apply vs_wf_write.
    + destruct (Z.gtb_spec (version_ w.1) v0); simpl in *.
      * destruct (Z.leb_spec (version_ w.1) 0); [lia|done].
      * by destruct (v0 <=? 0).
  - intros u Hu. split; simpl; [done| |done]. rewrite El.
    destruct (Z.gtb_spec (version_ w.1) v0); simpl.
    + destruct (Z.leb_spec (version_ w.1) u); [lia|done].
    + destruct (Z.leb_spec v0 u); [lia|done].
Qed.

Lemma call_frame {X} (op : method X) : Frame (call keccak256 op).
Proof.
  destruct op; simpl; eauto using frame_set_nonce, frame_add_to_balance, frame_subtract_from_balance,
    frame_set_storage, frame_set_transient_storage, frame_touch, frame_access_account,
    frame_access_storage, frame_update_page, frame_selfdestruct, frame_set_code,
    frame_create_contract, frame_create_account_no_rollback, frame_set_to_state_incarnation,
    frame_store_log; apply frame_of_neutral.
  all: unfold account_exists, account_is_dead, account_has_code_or_nonce, get_nonce, is_touched,
    get_transient_storage, get_code, get_code_size, copy_code, validate_exact_balance, logs, current_addresses,
    original_code_hash, load_original_code_hash; neutral.
Qed.
End frame_methods.

(** ** Frames: push, pop_accept, pop_reject *)
Section frame_stack.
Context {B : Type} `{BlockAccess B}.
Abbreviation W := (State * B)%type.

(** An account not written at the current version has nothing above the
    enclosing one. *)
Lemma clean_stack_wf s D a stack :
  frames_wf s → 1 <= version_ s → dirty_at s (version_ s) = Some D → a ∉ D →
  current_ s !! a = Some stack → vs_wf (version_ s - 1) stack.
Proof.
  intros Hwf Hv HD Ha Hs. apply vs_wf_lower; [by eapply fw_stack|].
  intros x Hx. destruct (fw_dirty _ Hwf _ _ _ _ Hs Hx Hv) as (D' & HD' & Ha'). by simplify_eq.
Qed.

Definition pushed (s : State) : State :=
  st_set_dirty (∅ :: dirty_ s) (st_set_version (version_ s + 1) s).

Lemma push_eq (w : W) :
  frames_wf w.1 → version_ w.1 + 1 < 2 ^ 32 → push w = Ok ((), (pushed w.1, w.2)).
Proof.
  intros Hwf Hv. destruct Hwf as [Hver Hlen _ _ _ _ _].
  assert (Hc : frames_consistent w.1 = true) by (apply Z.eqb_eq; lia).
  unfold push, pushed. autorewrite with run. rewrite Hc. autorewrite with run.
  unfold smodify, mmodify; simpl. unfold u32. by rewrite Z.mod_small by lia.
Qed.

Lemma dirty_at_pushed s v : v <= version_ s → dirty_at (pushed s) v = dirty_at s v.
Proof.
  intros Hv. unfold dirty_at, pushed; simpl.
  destruct (Z.leb_spec 1 v); simpl; [|done].
  destruct (Z.leb_spec v (version_ s)), (Z.leb_spec v (version_ s + 1)); try lia.
  replace (version_ s + 1 - v) with (Z.succ (version_ s - v)) by lia.
  by rewrite Z2Nat.inj_succ by lia.
Qed.

Lemma pushed_wf s : frames_wf s → version_ s + 1 < 2 ^ 32 → frames_wf (pushed s).
Proof.
  intros Hwf Hv. pose proof (fw_version _ Hwf). pose proof (fw_length _ Hwf).
  split; simpl; try apply Hwf.
  - lia.
  - lia.
  - intros a stack Ha. destruct (fw_stack _ Hwf _ _ Ha). split; [done|].
    eapply vs_wf_weaken; [|done]. lia.
  - destruct (fw_logs _ Hwf). split; [done|]. eapply vs_wf_weaken; [|done]. lia.
  - intros a stack v x Ha Hx Hv1. destruct (fw_stack _ Hwf _ _ Ha) as [_ Hst].
    pose proof (vs_wf_elem _ _ _ _ Hst Hx). rewrite dirty_at_pushed by lia.
    by eapply fw_dirty.
  - intros a v D HD Ha. destruct (decide (v <= version_ s)).
    + rewrite dirty_at_pushed in HD by lia. by eapply fw_listed.
    + unfold dirty_at, pushed in HD; simpl in HD.
      destruct (Z.leb_spec 1 v), (Z.leb_spec v (version_ s + 1)); simpl in HD; try done.
      replace (version_ s + 1 - v) with 0 in HD by lia. simpl in HD. set_solver.
Qed.

Lemma push_wf (w w' : W) :
  frames_wf w.1 → version_ w.1 + 1 < 2 ^ 32 → push w = Ok ((), w') → frames_wf w'.1.
Proof. intros Hwf Hv. rewrite push_eq by done. intros [= <-]. by apply pushed_wf. Qed.

Lemma pushed_below s u : u <= version_ s → below_same u s (pushed s).
Proof. intros Hu. split; [done|done|]. intros v Hv. apply dirty_at_pushed. lia. Qed.

(** *** pop_accept *)
Definition accept_stack (n : Z) (stack : VersionStack AccountState) : VersionStack AccountState :=
  match vs_pop_accept n stack with Ok s => s | _ => stack end.
Definition accept_map (n : Z) (D : gset Z) (m : gmap Z (VersionStack AccountState)) :=
  map_imap (λ a stack, Some (if decide (a ∈ D) then accept_stack n stack else stack)) m.

Lemma accept_map_lookup n D m a :
  accept_map n D m !! a =
    (λ stack, if decide (a ∈ D) then accept_stack n stack else stack) <$> m !! a.
Proof. unfold accept_map. rewrite map_lookup_imap. by destruct (m !! a). Qed.

Definition mark_all (D : gset Z) (d : list (gset Z)) : list (gset Z) :=
  match d with [] => [] | top :: r => (D ∪ top) :: r end.

Lemma accept_loop l s (bs : B) :
  version_ s ≠ 0 → NoDup l →
  (∀ a, a ∈ l → ∃ stack, current_ s !! a = Some stack ∧ stack ≠ []) →
  mfor l (λ dirty_address,
    stack ← (sgets (λ s, current_ s !! dirty_address) ≫= mvalue);
    version ← sgets version_;
    stack' ← lift_outcome (vs_pop_accept version stack);
    smodify (λ s, st_set_current (<[dirty_address := stack']> (current_ s)) s);;
    smodify (λ s, st_set_dirty (mark_dirty dirty_address (dirty_ s)) s)) (s, bs)
  = Ok ((), (st_set_dirty (mark_all (list_to_set l) (dirty_ s))
               (st_set_current (accept_map (version_ s) (list_to_set l) (current_ s)) s), bs)).
Proof.
  revert s. induction l as [|a l IH]; intros s Hv Hnd Hl; simpl.
  - rewrite run_ret.
    assert (accept_map (version_ s) ∅ (current_ s) = current_ s) as ->.
    { apply map_eq. intros b. rewrite accept_map_lookup. destruct (current_ s !! b); done. }
    destruct s as [? ? ? ? ? ? d ? ?]; simpl. do 4 f_equal.
    destruct d; simpl; [done|]. unfold st_set_dirty; simpl. do 2 f_equal. set_solver.
  - apply list.NoDup_cons in Hnd as [Ha Hnd].
    destruct (Hl a ltac:(left)) as (stack & Hs & Hne).
    destruct (vs_pop_accept_total (version_ s) stack Hv Hne) as (stack' & Hacc & Hne').
    erewrite bind_Ok_eq.
    2: { autorewrite with run. simpl. rewrite Hs. autorewrite with run. simpl.
         rewrite Hacc. autorewrite with run. done. }
    simpl. rewrite IH; simpl; [|done|done|].
    + do 2 f_equal. unfold st_set_dirty, st_set_current; simpl. do 2 f_equal.
      * apply map_eq. intros b. rewrite !accept_map_lookup.
        destruct (decide (a = b)) as [<-|Hab].
        -- rewrite lookup_insert_eq, Hs. simpl.
           rewrite decide_False by set_solver. rewrite decide_True by set_solver.
           unfold accept_stack. by rewrite Hacc.
        -- rewrite lookup_insert_ne by done. destruct (current_ s !! b); [simpl|done].
           f_equal. destruct (decide (b ∈ list_to_set l)).
           ++ by rewrite decide_True by set_solver.
           ++ by rewrite decide_False by set_solver.
      * destruct (dirty_ s); simpl; [done|]. f_equal. set_solver.
    + intros b Hb. destruct (Hl b ltac:(by right)) as (stk & Hstk & ?).
      exists stk. rewrite lookup_insert_ne by set_solver. done.
Qed.

(** The state after an accepted frame, with [D] the frame's dirty set. *)
Definition accepted (D : gset Z) (logs : VersionStack (list Log)) (s : State) : State :=
  mkState (incarnation_ s) (original_ s) (accept_map (version_ s) D (current_ s)) logs (code_ s)
    (version_ s - 1) (mark_all D (tail (dirty_ s))) (relaxed_validation_ s) (rb_ s).

Lemma dirty_at_version s D r :
  frames_wf s → dirty_ s = D :: r → 1 <= version_ s ∧ dirty_at s (version_ s) = Some D.
Proof.
  intros Hwf Hd. pose proof (fw_length _ Hwf) as Hlen. rewrite Hd in Hlen. simpl in Hlen.
  split; [lia|]. unfold dirty_at. rewrite Hd, Z.sub_diag; simpl.
  destruct (Z.leb_spec 1 (version_ s)), (Z.leb_spec (version_ s) (version_ s)); try lia. done.
Qed.

Lemma dirty_nonempty s : frames_wf s → 1 <= version_ s → ∃ D r, dirty_ s = D :: r.
Proof.
  intros Hwf Hv. pose proof (fw_length _ Hwf). destruct (dirty_ s); [simpl in *; lia|eauto].
Qed.

Lemma pop_dirty_eq (w : W) D r :
  frames_wf w.1 → dirty_ w.1 = D :: r →
  pop_dirty w = Ok (D, (st_set_dirty r w.1, w.2)).
Proof.
  intros Hwf Hd. destruct (dirty_at_version _ _ _ Hwf Hd) as [Hv _].
  unfold pop_dirty. autorewrite with run.
  assert (Hc : frames_consistent w.1 = true) by (apply Z.eqb_eq, Hwf).
  destruct (Z.eqb_spec (version_ w.1) 0); [lia|]. simpl.
  autorewrite with run. rewrite Hc. autorewrite with run. rewrite Hd. simpl. autorewrite with run. simpl. by rewrite Hd.
Qed.

(** The frame's accounts all have a stack. *)
Lemma dirty_have_stacks s D a :
  frames_wf s → dirty_at s (version_ s) = Some D → a ∈ D →
  ∃ stack, current_ s !! a = Some stack ∧ stack ≠ [].
Proof.
  intros Hwf HD Ha. destruct (fw_listed _ Hwf _ _ _ HD Ha) as (stack & Hs & _).
  exists stack. split; [done|]. by eapply fw_stack.
Qed.

Lemma pop_accept_eq (w : W) D r :
  frames_wf w.1 → dirty_ w.1 = D :: r →
  ∃ logs', vs_pop_accept (version_ w.1) (logs_ w.1) = Ok logs' ∧
    pop_accept w = Ok ((), (accepted D logs' w.1, w.2)).
Proof.
  intros Hwf Hd. destruct (dirty_at_version _ _ _ Hwf Hd) as [Hv HD].
  pose proof (fw_version _ Hwf) as Hver.
  destruct (vs_pop_accept_total (version_ w.1) (logs_ w.1)) as (logs' & Hl & _);
    [lia|apply Hwf|].
  exists logs'. split; [done|]. unfold pop_accept.
  erewrite bind_Ok_eq by (by apply pop_dirty_eq).
  erewrite bind_Ok_eq.
  2: { apply accept_loop; simpl; [lia|apply NoDup_elements|].
       intros a Ha. apply elem_of_elements in Ha. by eapply dirty_have_stacks. }
  autorewrite with run. simpl. rewrite Hl. autorewrite with run.
  unfold smodify, mmodify; simpl. unfold u32. rewrite Z.mod_small by lia.
  rewrite list_to_set_elements_L. unfold accepted. rewrite Hd. done.
Qed.

Lemma accept_stack_wf s a stack :
  frames_wf s → 1 <= version_ s → current_ s !! a = Some stack →
  accept_stack (version_ s) stack ≠ [] ∧
  vs_pop_accept (version_ s) stack = Ok (accept_stack (version_ s) stack) ∧
  vs_wf (version_ s - 1) (accept_stack (version_ s) stack).
Proof.
  intros Hwf Hv Hs. destruct (fw_stack _ Hwf _ _ Hs) as [Hne Hst].
  pose proof (fw_version _ Hwf).
  destruct (vs_pop_accept_total (version_ s) stack ltac:(lia) Hne) as (st' & Hacc & ?).
  unfold accept_stack. rewrite Hacc. split; [done|]. split; [done|].
  eapply vs_wf_pop_accept; [|done|done]. lia.
Qed.

Lemma dirty_at_accepted s D0 r logs' v :
  frames_wf s → dirty_ s = D0 :: r → v <= version_ s - 1 →
  dirty_at (accepted D0 logs' s) v =
    (λ D, if decide (v = version_ s - 1) then D0 ∪ D else D) <$> dirty_at s v.
Proof.
  intros Hwf Hd Hv. unfold dirty_at; simpl. rewrite Hd; simpl.
  destruct (Z.leb_spec 1 v); simpl; [|done].
  destruct (Z.leb_spec v (version_ s)), (Z.leb_spec v (version_ s - 1)); try lia. simpl.
  replace (version_ s - v) with (Z.succ (version_ s - 1 - v)) by lia.
  rewrite Z2Nat.inj_succ by lia. simpl. destruct r as [|D1 r]; simpl; [done|].
  destruct (decide (v = version_ s - 1)) as [->|].
  - by rewrite Z.sub_diag.
  - destruct (Z.to_nat (version_ s - 1 - v)) eqn:E; [lia|]. simpl. by destruct (r !! n0).
Qed.

Section accepted.
Context (s : State) (D0 : gset Z) (r : list (gset Z)) (logs' : VersionStack (list Log)).
Hypothesis Hwf : frames_wf s.
Hypothesis Hd : dirty_ s = D0 :: r.
Hypothesis Hlogs : vs_pop_accept (version_ s) (logs_ s) = Ok logs'.

Let Hv : 1 <= version_ s ∧ dirty_at s (version_ s) = Some D0 := dirty_at_version _ _ _ Hwf Hd.

(** A stack of the accepted state, and where it comes from. *)
Lemma accepted_stack a stack' :
  current_ (accepted D0 logs' s) !! a = Some stack' →
  ∃ stack, current_ s !! a = Some stack ∧ stack' ≠ [] ∧ vs_wf (version_ s - 1) stack' ∧
    vs_recent stack' = vs_recent stack ∧
    (∀ u, u < version_ s - 1 → vs_unwind u stack' = vs_unwind u stack) ∧
    (∀ v x, (v, x) ∈ stack' → (v = version_ s - 1 ∧ a ∈ D0) ∨ ∃ y, (v, y) ∈ stack).
Proof.
  simpl. rewrite accept_map_lookup. destruct (current_ s !! a) as [stack|] eqn:Hs; [|done].
  intros [= <-]. exists stack. split; [done|]. pose proof (fw_version _ Hwf).
  destruct Hv as [Hv1 HD]. destruct (decide (a ∈ D0)) as [Ha|Ha].
  - destruct (accept_stack_wf _ _ _ Hwf Hv1 Hs) as (? & Hacc & ?).
    split; [done|]. split; [done|]. split; [by eapply vs_recent_pop_accept|]. split.
    + intros u Hu. eapply vs_unwind_pop_accept; [|by eapply fw_stack|done|done]. lia.
    + intros v x Hx.
      destruct (vs_pop_accept_elem (version_ s) _ _ _ _ ltac:(lia) Hacc Hx) as [[? _]|?]; auto.
  - destruct (fw_stack _ Hwf _ _ Hs). split; [done|].
    split; [by eapply clean_stack_wf|]. eauto.
Qed.

Lemma accepted_wf : frames_wf (accepted D0 logs' s).
Proof.
  pose proof (fw_version _ Hwf) as Hver. pose proof (fw_length _ Hwf) as Hlen.
  destruct Hv as [Hv1 HD]. destruct (fw_logs _ Hwf) as [Hlne Hlw].
  destruct (vs_pop_accept_total (version_ s) (logs_ s) ltac:(lia) Hlne) as (l2 & E2 & Hl2).
  assert (l2 = logs') as -> by congruence.
  assert (Hlw' : vs_wf (version_ s - 1) logs') by (eapply vs_wf_pop_accept; [|done|done]; lia).
  split.
  - simpl. lia.
  - simpl. rewrite Hd in *. simpl in *. destruct r; simpl in *; lia.
  - intros a stack' Ha. by destruct (accepted_stack _ _ Ha) as (? & _ & ? & ? & _).
  - done.
  - intros a stack' v x Ha Hx Hv'.
    destruct (accepted_stack _ _ Ha) as (stack & Hs & _ & Hw' & _ & _ & Hel).
    pose proof (vs_wf_elem _ _ _ _ Hw' Hx). rewrite (dirty_at_accepted _ _ r) by (done || lia).
    destruct (Hel _ _ Hx) as [[-> Ha0]|[y Hy]].
    + assert (is_Some (dirty_at s (version_ s - 1))) as [D1 ->].
      { unfold dirty_at. destruct (Z.leb_spec 1 (version_ s - 1)),
          (Z.leb_spec (version_ s - 1) (version_ s)); try lia. simpl.
        apply lookup_lt_is_Some. lia. }
      eexists. split; [done|]. rewrite decide_True by done. set_solver.
    + destruct (fw_dirty _ Hwf _ _ _ _ Hs Hy Hv') as (D1 & -> & ?).
      eexists. split; [done|]. case_decide; set_solver.
  - intros a v D HDv Ha.
    assert (Hvle : v <= version_ s - 1).
    { unfold dirty_at in HDv; simpl in HDv. by destruct (Z.leb_spec 1 v), (Z.leb_spec v (version_ s - 1)). }
    rewrite (dirty_at_accepted _ _ r) in HDv by done.
    destruct (dirty_at s v) as [D1|] eqn:E1; [|done]. injection HDv as <-.
    assert (∃ stack, current_ s !! a = Some stack ∧ (v < version_ s - 1 → vs_unwind v stack ≠ []))
      as (stack & Hs & Hun).
    { destruct (decide (v = version_ s - 1)) as [->|].
      - apply elem_of_union in Ha as [Ha|Ha].
        + destruct (dirty_have_stacks _ _ _ Hwf HD Ha) as (stk & ? & ?). exists stk. split; [done|lia].
        + destruct (fw_listed _ Hwf _ _ _ E1 Ha) as (stk & ? & ?). eauto.
      - destruct (fw_listed _ Hwf _ _ _ E1 Ha) as (stk & ? & ?). eauto. }
    assert (is_Some (current_ (accepted D0 logs' s) !! a)) as [stack' Hs'].
    { simpl. by rewrite accept_map_lookup, Hs. }
    destruct (accepted_stack _ _ Hs') as (stack2 & Hs2 & Hne' & Hw' & _ & Hbelow & _). simplify_eq.
    exists stack'. split; [done|]. destruct (decide (v = version_ s - 1)) as [->|].
    + by rewrite vs_unwind_id.
    + rewrite Hbelow by lia. apply Hun. lia.
  - simpl. destruct (decide (version_ s = 1)) as [E|].
    + rewrite vs_unwind_id; [done|]. replace 0 with (version_ s - 1) by lia. done.
    + rewrite (vs_unwind_pop_accept (version_ s) 0 _ _ ltac:(lia) Hlw ltac:(lia) Hlogs). apply Hwf.
Qed.

Lemma accepted_below u : u < version_ s - 1 → below_same u s (accepted D0 logs' s).
Proof.
  intros Hu. pose proof (fw_version _ Hwf). split.
  - apply map_eq. intros a. rewrite !unwind_map_lookup.
    destruct (current_ (accepted D0 logs' s) !! a) as [stack'|] eqn:Hs'.
    + destruct (accepted_stack _ _ Hs') as (stack & -> & _ & _ & _ & Hun & _).
      simpl. by rewrite Hun.
    + simpl in Hs'. rewrite accept_map_lookup in Hs'. by destruct (current_ s !! a).
  - simpl. eapply vs_unwind_pop_accept; [|apply Hwf|done|done]. lia.
  - intros v Hv'. rewrite (dirty_at_accepted _ _ r) by (done || lia).
    destruct (dirty_at s v); simpl; [|done]. by rewrite decide_False by lia.
Qed.

Lemma accepted_recent a :
  (current_ (accepted D0 logs' s) !! a) ≫= (λ stk, Some (vs_recent stk)) =
  (current_ s !! a) ≫= (λ stk, Some (vs_recent stk)).
Proof.
  destruct (current_ (accepted D0 logs' s) !! a) as [stack'|] eqn:Hs'.
  - destruct (accepted_stack _ _ Hs') as (stack & -> & _ & _ & Hr & _). simpl. by rewrite Hr.
  - simpl in Hs'. rewrite accept_map_lookup in Hs'. by destruct (current_ s !! a).
Qed.
End accepted.

(** *** pop_reject *)
Definition reject_map (n : Z) (D : gset Z) (m : gmap Z (VersionStack AccountState)) :=
  map_imap (λ a stack, Some (if decide (a ∈ D) then vs_unwind (n - 1) stack else stack)) m.

Lemma reject_map_lookup n D m a :
  reject_map n D m !! a =
    (λ stack, if decide (a ∈ D) then vs_unwind (n - 1) stack else stack) <$> m !! a.
Proof. unfold reject_map. rewrite map_lookup_imap. by destruct (m !! a). Qed.

Definition gone (n : Z) (m : gmap Z (VersionStack AccountState)) (a : Z) : bool :=
  match unwind_map (n - 1) m !! a with None => true | Some _ => false end.

Lemma reject_loop l s (bs : B) :
  version_ s ≠ 0 → NoDup l →
  (∀ a, a ∈ l → ∃ stack, current_ s !! a = Some stack ∧ stack ≠ [] ∧ vs_wf (version_ s) stack) →
  reject_accounts l (s, bs)
  = Ok (List.filter (gone (version_ s) (current_ s)) l,
        (st_set_current (reject_map (version_ s) (list_to_set l) (current_ s)) s, bs)).
Proof.
  revert s. induction l as [|a l IH]; intros s Hv Hnd Hl; simpl.
  - rewrite run_ret.
    assert (reject_map (version_ s) ∅ (current_ s) = current_ s) as ->.
    { apply map_eq. intros b. rewrite reject_map_lookup. destruct (current_ s !! b); done. }
    by destruct s.
  - apply list.NoDup_cons in Hnd as [Ha Hnd].
    destruct (Hl a ltac:(left)) as (stack & Hs & Hne & Hst).
    pose proof (vs_pop_reject_total _ _ Hv Hne Hst) as Hrej.
    unfold reject_account. autorewrite with run. simpl. rewrite Hs. autorewrite with run. simpl.
    rewrite Hrej. autorewrite with run. simpl.
    erewrite bind_Ok_eq.
    2: { apply IH; simpl; [done|done|]. intros b Hb.
         destruct (Hl b ltac:(by right)) as (stk & Hstk & ?).
         exists stk. rewrite lookup_insert_ne by set_solver. done. }
    autorewrite with run. simpl. do 2 f_equal.
    + assert (Hgone : gone (version_ s) (current_ s) a = bool_decide (vs_unwind (version_ s - 1) stack = [])).
      { unfold gone. rewrite unwind_map_lookup, Hs. simpl. by destruct (vs_unwind _ stack). }
      assert (Hfilter : List.filter (gone (version_ s) (<[a:=vs_unwind (version_ s - 1) stack]> (current_ s))) l
              = List.filter (gone (version_ s) (current_ s)) l).
      { apply filter_ext_in. intros b Hb%list_elem_of_In. unfold gone. rewrite !unwind_map_lookup.
        rewrite lookup_insert_ne by set_solver. done. }
      rewrite Hfilter, Hgone. by case_match.
    + unfold st_set_current; simpl. do 2 f_equal. apply map_eq. intros b. rewrite !reject_map_lookup.
      destruct (decide (a = b)) as [<-|Hab].
      * rewrite lookup_insert_eq, Hs. simpl.
        rewrite decide_False by set_solver. by rewrite decide_True by set_solver.
      * rewrite lookup_insert_ne by done. destruct (current_ s !! b); [simpl|done].
        f_equal. destruct (decide (b ∈ list_to_set l)).
        -- by rewrite decide_True by set_solver.
        -- by rewrite decide_False by set_solver.
Qed.

Lemma delete_loop l s (bs : B) :
  ∃ m', mfor l (λ a, smodify (λ s, st_set_current (delete a (current_ s)) s)) (s, bs)
        = Ok ((), (st_set_current m' s, bs)) ∧
    ∀ b, m' !! b = if decide (b ∈ l) then None else current_ s !! b.
Proof.
  revert s. induction l as [|a l IH]; intros s; simpl.
  - exists (current_ s). rewrite run_ret. split; [by destruct s|done].
  - autorewrite with run. simpl.
    destruct (IH (st_set_current (delete a (current_ s)) s)) as (m' & -> & Hm'). exists m'.
    split; [done|]. intros b. rewrite Hm'. simpl current_.
    destruct (decide (b ∈ a :: l)) as [Hb|Hb]; rewrite elem_of_cons in Hb;
      (case_decide; [naive_solver|]); destruct (decide (a = b)) as [<-|];
      simplify_map_eq; naive_solver.
Qed.

(** The state when [pop_reject] reaches [on_pop_reject]: every stack and the
    logs are as the enclosing version left them. *)
Definition rolled_back (r : list (gset Z)) (s : State) : State :=
  mkState (incarnation_ s) (original_ s) (unwind_map (version_ s - 1) (current_ s))
    (vs_unwind (version_ s - 1) (logs_ s)) (code_ s) (version_ s) r
    (relaxed_validation_ s) (rb_ s).

Lemma pop_reject_eq (w : W) D r :
  frames_wf w.1 → dirty_ w.1 = D :: r →
  pop_reject w =
    (on_pop_reject D;; smodify (λ s, st_set_version (u32 (version_ s - 1)) s))
      (rolled_back r w.1, w.2).
Proof.
  intros Hwf Hd. destruct (dirty_at_version _ _ _ Hwf Hd) as [Hv HD].
  unfold pop_reject. erewrite bind_Ok_eq by (by apply pop_dirty_eq).
  erewrite bind_Ok_eq.
  2: { apply reject_loop; simpl; [lia|apply NoDup_elements|].
       intros a Ha%elem_of_elements.
       destruct (dirty_have_stacks _ _ _ Hwf HD Ha) as (stk & Hstk & Hne).
       exists stk. split; [done|]. split; [done|]. by eapply fw_stack. }
  destruct (fw_logs _ Hwf) as [Hlne Hlw].
  autorewrite with run. simpl. rewrite (vs_pop_reject_total _ (logs_ w.1)) by (done || lia).
  autorewrite with run. simpl.
  match goal with |- (mfor ?l _ ≫= _) (?s, ?bs) = _ =>
    destruct (delete_loop l s bs) as (m' & Hrun & Hm') end.
  erewrite bind_Ok_eq by exact Hrun. f_equal. f_equal.
  unfold rolled_back, st_set_current, st_set_logs, st_set_dirty; simpl. f_equal.
  apply map_eq. intros a. rewrite Hm'. simpl in *.
  rewrite reject_map_lookup, list_to_set_elements_L.
  assert (Hin : a ∈ reverse (List.filter (gone (version_ w.1) (current_ w.1)) (elements D)) ↔
                a ∈ D ∧ unwind_map (version_ w.1 - 1) (current_ w.1) !! a = None).
  { rewrite elem_of_reverse, list_elem_of_In, filter_In, <- list_elem_of_In, elem_of_elements.
    unfold gone. destruct (unwind_map _ _ !! a); naive_solver. }
  destruct (decide (a ∈ reverse _)) as [Hr|Hr]; rewrite Hin in Hr.
  - destruct Hr as [_ Hr]. by rewrite Hr.
  - rewrite unwind_map_lookup in Hr |- *. destruct (current_ w.1 !! a) as [stk|] eqn:Hs; simpl in *; [|done].
    destruct (decide (a ∈ D)) as [Ha|Ha].
    + destruct (vs_unwind (version_ w.1 - 1) stk) eqn:Hu; simpl in *; [|done]. naive_solver.
    + rewrite vs_unwind_id; [|by eapply clean_stack_wf].
      destruct (fw_stack _ Hwf _ _ Hs). by destruct stk.
Qed.

(** A successful [pop_reject], component by component. *)
Lemma pop_reject_inv (w w' : W) :
  frames_wf w.1 → 1 <= version_ w.1 → pop_reject w = Ok ((), w') →
  frame_part w'.1 = (unwind_map (version_ w.1 - 1) (current_ w.1),
                     vs_unwind (version_ w.1 - 1) (logs_ w.1),
                     version_ w.1 - 1, tail (dirty_ w.1)).
Proof.
  intros Hwf Hv E. destruct (dirty_nonempty _ Hwf Hv) as (D & r & Hd).
  rewrite (pop_reject_eq _ _ _ Hwf Hd) in E. apply bind_Ok in E as ([] & w1 & E1 & E2).
  apply (neutral_on_pop_reject) in E1. sinv. unfold frame_part in *; simpl in *.
  injection E1 as -> -> -> ->. rewrite Hd. pose proof (fw_version _ Hwf).
  unfold u32. rewrite Z.mod_small by lia. done.
Qed.
End frame_stack.

(** ** Executions: methods and nested frames *)
Section executions.
Context {B : Type} `{BlockAccess B}.
Context (keccak256 : Code → Z).
Abbreviation W := (State * B)%type.

(** What runs between a push and the matching pop: methods of the state and
    complete inner frames, each accepted or rejected. *)
Inductive balanced : W → W → Prop :=
| balanced_nil w : balanced w w
| balanced_op {X} (op : method X) w a w1 w2 :
    call keccak256 op w = Ok (a, w1) → balanced w1 w2 → balanced w w2
| balanced_accept w w1 w2 w3 w4 :
    version_ w.1 + 1 < 2 ^ 32 →
    push w = Ok ((), w1) → balanced w1 w2 → pop_accept w2 = Ok ((), w3) →
    balanced w3 w4 → balanced w w4
| balanced_reject w w1 w2 w3 w4 :
    version_ w.1 + 1 < 2 ^ 32 →
    push w = Ok ((), w1) → balanced w1 w2 → pop_reject w2 = Ok ((), w3) →
    balanced w3 w4 → balanced w w4.

(** The initial state satisfies the invariant. *)
Lemma make_state_wf inc relaxed : frames_wf (make_state inc relaxed).
Proof.
  split; simpl; try done.
  intros a v D HD. unfold dirty_at in HD; simpl in HD.
  destruct (Z.leb_spec 1 v), (Z.leb_spec v 0); try lia; done.
Qed.

Definition stays (s s' : State) : Prop :=
  frames_wf s' ∧ version_ s' = version_ s ∧ ∀ u, u < version_ s → below_same u s s'.

Lemma unwind_map_id s : frames_wf s → unwind_map (version_ s) (current_ s) = current_ s.
Proof.
  intros Hwf. apply map_eq. intros a. rewrite unwind_map_lookup.
  destruct (current_ s !! a) as [stk|] eqn:Hs; simpl; [|done].
  destruct (fw_stack _ Hwf _ _ Hs). rewrite vs_unwind_id by done. by destruct stk.
Qed.

(** Two states of the same version with the same dirty sets below. *)
Lemma dirty_determined s s' :
  frames_wf s → Z.of_nat (length (dirty_ s')) = version_ s + 1 → version_ s' = version_ s + 1 →
  (∀ v, v <= version_ s → dirty_at s' v = dirty_at s v) → tail (dirty_ s') = dirty_ s.
Proof.
  intros Hwf Hlen Hver Hd. pose proof (fw_length _ Hwf) as Hlen0.
  destruct (dirty_ s') as [|D r] eqn:Ed; [simpl in *; lia|]. simpl in *.
  apply list_eq. intros i. destruct (decide (Z.of_nat i < version_ s)) as [Hi|].
  - specialize (Hd (version_ s - Z.of_nat i) ltac:(lia)). unfold dirty_at in Hd.
    rewrite Ed, Hver in Hd.
    destruct (Z.leb_spec 1 (version_ s - Z.of_nat i)); [|lia].
    destruct (Z.leb_spec (version_ s - Z.of_nat i) (version_ s + 1)); [|lia].
    destruct (Z.leb_spec (version_ s - Z.of_nat i) (version_ s)); [|lia]. simpl in Hd.
    replace (Z.to_nat (version_ s + 1 - (version_ s - Z.of_nat i))) with (S i) in Hd by lia.
    replace (Z.to_nat (version_ s - (version_ s - Z.of_nat i))) with i in Hd by lia. done.
  - rewrite !lookup_ge_None_2 by lia. done.
Qed.

(** What push, an inner execution and pop_reject leave. *)
Lemma rejected_frame (w w1 w2 w3 : W) :
  frames_wf w.1 → version_ w.1 + 1 < 2 ^ 32 → push w = Ok ((), w1) →
  stays w1.1 w2.1 → pop_reject w2 = Ok ((), w3) → frame_part w3.1 = frame_part w.1.
Proof.
  intros Hwf Hv Hpush (Hwf2 & Hv2 & Hbelow) Hpop.
  rewrite push_eq in Hpush by done. injection Hpush as <-. simpl in *.
  pose proof (fw_version _ Hwf) as Hver.
  apply pop_reject_inv in Hpop; [|done|lia]. rewrite Hpop, Hv2. unfold frame_part.
  replace (version_ w.1 + 1 - 1) with (version_ w.1) by lia.
  specialize (Hbelow (version_ w.1) ltac:(lia)).
  pose proof (pushed_below _ _ (Z.le_refl (version_ w.1))) as Hp.
  pose proof (transitivity Hp Hbelow) as [Hc Hl Hd]. rewrite Hc, Hl.
  rewrite unwind_map_id by done. rewrite vs_unwind_id by apply Hwf.
  rewrite (dirty_determined w.1 w2.1); [done|done| |done|done].
  rewrite (fw_length _ Hwf2). lia.
Qed.

Lemma balanced_stays w w' : balanced w w' → frames_wf w.1 → stays w.1 w'.1.
Proof.
  induction 1 as [w|X op w a w1 w2 Hm _ IH
    |w w1 w2 w3 w4 Hv Hpush _ IH1 Hpop _ IH2|w w1 w2 w3 w4 Hv Hpush _ IH1 Hpop _ IH2]; intros Hwf.
  - done.
  - destruct (call_frame _ op _ _ _ Hwf (Forall_nil _) Hm) as (Hwf1 & Hv1 & _ & Hb1).
    destruct (IH Hwf1) as (Hwf2 & Hv2 & Hb2). split; [done|]. split; [congruence|].
    intros u Hu. etrans; [by apply Hb1|]. apply Hb2. lia.
  - rewrite push_eq in Hpush by done. injection Hpush as <-.
    destruct (IH1 (pushed_wf _ Hwf Hv)) as (Hwf2 & Hv2 & Hb2). simpl in *.
    pose proof (fw_version _ Hwf).
    destruct (dirty_nonempty _ Hwf2 ltac:(lia)) as (D & r & Hd).
    destruct (pop_accept_eq _ _ _ Hwf2 Hd) as (logs' & Hl & Hpop'). rewrite Hpop' in Hpop.
    injection Hpop as <-. simpl in *.
    pose proof (accepted_wf _ _ _ _ Hwf2 Hd Hl) as Hwf3.
    destruct (IH2 Hwf3) as (Hwf4 & Hv4 & Hb4). split; [done|]. simpl in *. split; [lia|].
    intros u Hu. etrans; [apply (pushed_below _ u); lia|].
    etrans; [apply Hb2; lia|]. etrans; [eapply accepted_below; eauto; lia|]. apply Hb4. lia.
  - assert (Hwf1 : frames_wf w1.1) by (by eapply push_wf).
    pose proof (rejected_frame _ _ _ _ Hwf Hv Hpush (IH1 Hwf1) Hpop) as Hf. symmetry in Hf.
    assert (Hwf3 : frames_wf w3.1) by (by eapply frames_wf_proper).
    destruct (IH2 Hwf3) as (Hwf4 & Hv4 & Hb4).
    assert (Hv3 : version_ w.1 = version_ w3.1) by (by unfold frame_part in Hf; injection Hf).
    split; [done|]. split; [congruence|].
    intros u Hu. etrans; [by apply below_same_frame_part|]. apply Hb4. lia.
Qed.

(** The value readers see for an account that has been written. *)
Definition recent_value (s : State) (a : Z) : option (outcome AccountState) :=
  current_ s !! a ≫= λ stack, Some (vs_recent stack).

(** C4: a rejected frame leaves no trace.  Whatever the frame did (any
    sequence of state methods and nested frames), after [pop_reject] the
    account stacks, the logs, the version and the dirty sets are exactly
    those from before [push]. *)
Theorem pop_reject_restores (w w1 w2 w3 : W) :
  frames_wf w.1 → version_ w.1 + 1 < 2 ^ 32 →
  push w = Ok ((), w1) → balanced w1 w2 → pop_reject w2 = Ok ((), w3) →
  current_ w3.1 = current_ w.1 ∧ logs_ w3.1 = logs_ w.1 ∧
  version_ w3.1 = version_ w.1 ∧ dirty_ w3.1 = dirty_ w.1.
Proof.
  intros Hwf Hv Hpush Hbal Hpop.
  assert (Hwf1 : frames_wf w1.1) by (by eapply push_wf).
  pose proof (rejected_frame _ _ _ _ Hwf Hv Hpush (balanced_stays _ _ Hbal Hwf1) Hpop) as Hf.
  by injection Hf.
Qed.

(** C5: an accepted frame keeps its effects.  Under the invariant
    [pop_accept] always succeeds; every account and the logs keep their most
    recent value, the block state is untouched, the invariant holds again,
    and what a rollback of any enclosing frame restores is unchanged. *)
Theorem pop_accept_keeps (w : W) :
  frames_wf w.1 → 1 <= version_ w.1 →
  ∃ s', pop_accept w = Ok ((), (s', w.2)) ∧ frames_wf s' ∧ version_ s' = version_ w.1 - 1 ∧
    (∀ a, recent_value s' a = recent_value w.1 a) ∧
    vs_recent (logs_ s') = vs_recent (logs_ w.1) ∧
    (∀ u, u < version_ s' → below_same u w.1 s').
Proof.
  intros Hwf Hv. destruct (dirty_nonempty _ Hwf Hv) as (D & r & Hd).
  destruct (pop_accept_eq _ _ _ Hwf Hd) as (logs' & Hl & Hpop).
  exists (accepted D logs' w.1). split; [done|]. split; [by eapply accepted_wf|].
  split; [done|]. split; [by eapply accepted_recent|].
  split; [by eapply vs_recent_pop_accept|]. intros u Hu. by eapply accepted_below.
Qed.

(** Under the invariant no assertion of the frame operations fails:
    [push] succeeds below the version limit, and with reserve-balance
    tracking off [pop_reject] succeeds at every version above zero. *)
Theorem frame_operations_safe (w : W) :
  frames_wf w.1 →
  (version_ w.1 + 1 < 2 ^ 32 → ∃ w', push w = Ok ((), w') ∧ frames_wf w'.1) ∧
  (1 <= version_ w.1 → tracking_enabled_ (rb_ w.1) = false →
     ∃ w', pop_reject w = Ok ((), w') ∧ version_ w'.1 = version_ w.1 - 1).
Proof.
  intros Hwf. split.
  - intros Hv. eexists. split; [by apply push_eq|]. by apply pushed_wf.
  - intros Hv Htr. destruct (dirty_nonempty _ Hwf Hv) as (D & r & Hd).
    rewrite (pop_reject_eq w D r Hwf Hd). unfold on_pop_reject. autorewrite with run. simpl.
    rewrite Htr. simpl. autorewrite with run. eexists. split; [by apply smodify_Ok|]. simpl.
    pose proof (fw_version _ Hwf). unfold u32. rewrite Z.mod_small by lia. done.
Qed.

(** A stack at version 0 is a single value. *)
Lemma stack_at_zero s a stack :
  frames_wf s → version_ s = 0 → current_ s !! a = Some stack → ∃ x, stack = [(0, x)].
Proof.
  intros Hwf H0 Hs. destruct (fw_stack _ Hwf _ _ Hs) as [Hne Hst]. rewrite H0 in Hst.
  destruct stack as [|[v x] r]; [done|]. destruct Hst as [Hv Hr].
  assert (v = 0) as -> by lia. destruct r as [|[v' x'] r]; [eauto|]. destruct Hr as [? _]. lia.
Qed.

(** The state after [destruct_touched_dead]. *)
Definition clear_dead (s : AccountState) : AccountState :=
  if touched_ s && is_dead (account_ s) then as_set_account None s else s.

Lemma alter_write_at_zero s a x f :
  current_ s !! a = Some [(0, x)] →
  alter (vs_write f) a (current_ s) = <[a := [(0, f x)]]> (current_ s).
Proof.
  intros Hs. apply map_eq. intros b. destruct (decide (a = b)) as [<-|].
  - rewrite lookup_alter_eq, Hs. by simplify_map_eq.
  - rewrite lookup_alter_ne by done. by simplify_map_eq.
Qed.

Lemma as_set_account_id s : as_set_account (account_ s) s = s.
Proof. by destruct s. Qed.

Lemma finalize_entry_run (g : AccountState → option Account) a x (w : W) :
  current_ w.1 !! a = Some [(0, x)] →
  finalize_entry a (λ s, mret (g s)) w =
    Ok ((), (st_set_current (<[a := [(0, as_set_account (g x) x)]]> (current_ w.1)) w.1, w.2)).
Proof.
  intros Hx. unfold finalize_entry. autorewrite with run. rewrite Hx. autorewrite with run. simpl.
  autorewrite with run. simpl. autorewrite with run. unfold write_account, write_current.
  unfold smodify, mmodify. by rewrite (alter_write_at_zero _ _ _ _ Hx).
Qed.

(** One of the end-of-transaction loops over accounts at version 0, with a
    body that computes the account from the account state. *)
Lemma finalize_loop (g : AccountState → option Account) l (w : W) :
  (∀ a, a ∈ l → ∃ x, current_ w.1 !! a = Some [(0, x)]) → NoDup l →
  mfor l (λ a, finalize_entry a (λ s, mret (g s))) w =
    Ok ((), (st_set_current
      (map_imap (λ a stack, Some (if decide (a ∈ l) then vs_write (λ s, as_set_account (g s) s) stack
                                  else stack)) (current_ w.1)) w.1, w.2)).
Proof.
  revert w. induction l as [|a l IH]; intros [s bs] Hl Hnd; simpl.
  - rewrite run_ret. do 3 f_equal. destruct s; unfold st_set_current; simpl. f_equal.
    apply map_eq. intros b. rewrite map_lookup_imap. by destruct (_ !! b).
  - apply list.NoDup_cons in Hnd as [Ha Hnd]. destruct (Hl a ltac:(left)) as (x & Hx). simpl in *.
    erewrite bind_Ok_eq by (by apply finalize_entry_run).
    rewrite IH; simpl; [| |done].
    + do 3 f_equal. unfold st_set_current; simpl. f_equal. apply map_eq. intros b. rewrite !map_lookup_imap.
      destruct (decide (a = b)) as [<-|Hab].
      * rewrite lookup_insert_eq, Hx. simpl. by rewrite decide_False, decide_True by set_solver.
      * rewrite lookup_insert_ne by done. destruct (current_ s !! b); [simpl|done]. f_equal.
        destruct (decide (b ∈ l)).
        -- by rewrite decide_True by set_solver.
        -- by rewrite decide_False by set_solver.
    + intros b Hb. rewrite lookup_insert_ne by set_solver. apply Hl. by right.
Qed.

(** at the end of a transaction [destruct_touched_dead] removes exactly
    the touched accounts that are dead and changes nothing else; none of
    its assertions fails after a balanced execution that starts at version 0. *)
Theorem destruct_touched_dead_spec (w0 w : W) :
  frames_wf w0.1 → version_ w0.1 = 0 → balanced w0 w →
  ∃ m', destruct_touched_dead w = Ok ((), (st_set_current m' w.1, w.2)) ∧
    ∀ a, m' !! a = vs_write clear_dead <$> current_ w.1 !! a.
Proof.
  intros Hwf0 Hv0 Hbal. destruct (balanced_stays _ _ Hbal Hwf0) as (Hwf & Hv & _).
  rewrite Hv0 in Hv. set (g := λ s, if negb (touched_ s) then account_ s
               else if is_dead (account_ s) then None else account_ s).
  eexists. split.
  - unfold destruct_touched_dead. autorewrite with run. rewrite Hv. simpl. autorewrite with run.
    apply (finalize_loop g).
    + intros a ([b stk] & -> & Hin)%list_elem_of_fmap. apply elem_of_map_to_list in Hin.
      destruct (stack_at_zero _ _ _ Hwf Hv Hin) as [x ->]. by exists x.
    + apply NoDup_fst_map_to_list.
  - intros a. rewrite map_lookup_imap. destruct (current_ w.1 !! a) as [stk|] eqn:Hs; [simpl|done].
    rewrite decide_True.
    2: { apply list_elem_of_fmap. exists (a, stk). split; [done|]. by apply elem_of_map_to_list. }
    destruct stk as [|[v x] r]; [done|]. simpl. do 4 f_equal. unfold g, clear_dead.
    destruct (touched_ x), (is_dead (account_ x)); simpl; try done; by rewrite as_set_account_id.
Qed.
End executions.

(** ** Concrete executions *)
Section concrete.
Abbreviation W := (State * BlockState ())%type.

(** One frame: Alice is credited, an inner accepted frame writes a slot of
    Bob and emits a log, an inner rejected frame changes Alice's nonce. *)
Definition fw0 : W := (test_state, test_block).
Definition fw1 : W := ran push fw0.
Definition fw2 : W := ran (add_to_balance alice 5) fw1.
Definition fw3 : W := ran push fw2.
Definition fw4 : W := ran (set_storage bob 5 3) fw3.
Definition fw5 : W := ran (store_log (mkLog [1] [2] bob)) fw4.
Definition fw6 : W := ran pop_accept fw5.
Definition fw7 : W := ran push fw6.
Definition fw8 : W := ran (set_nonce alice 8) fw7.
Definition fw9 : W := ran pop_reject fw8.
Definition fw10 : W := ran pop_reject fw9.

Lemma balanced_example : balanced test_hash fw1 fw9.
Proof.
  eapply (balanced_op _ (m_add_to_balance alice 5) fw1 _ fw2);
    [run_concrete|].
  eapply (balanced_accept _ fw2 fw3 fw5 fw6); [vm_compute; done|run_concrete| |run_concrete|].
  - eapply (balanced_op _ (m_set_storage bob 5 3) fw3 _ fw4);
      [run_concrete|].
    eapply (balanced_op _ (m_store_log (mkLog [1] [2] bob)) fw4 _ fw5);
      [run_concrete|constructor].
  - eapply (balanced_reject _ fw6 fw7 fw8 fw9);
      [vm_compute; done|run_concrete| |run_concrete|constructor].
    eapply (balanced_op _ (m_set_nonce alice 8) fw7 _ fw8);
      [run_concrete|constructor].
Qed.

Lemma pop_reject_restores_witness :
  current_ fw10.1 = ∅ ∧ logs_ fw10.1 = [(0, [])] ∧ version_ fw10.1 = 0 ∧ dirty_ fw10.1 = [].
Proof.
  apply (pop_reject_restores test_hash fw0 fw1 fw9 fw10).
  - apply make_state_wf.
  - vm_compute. done.
  - run_concrete.
  - apply balanced_example.
  - run_concrete.
Defined.

Lemma fw5_wf : frames_wf fw5.1.
Proof.
  assert (Hb : balanced test_hash fw3 fw5).
  { eapply (balanced_op _ (m_set_storage bob 5 3) fw3 _ fw4);
      [run_concrete|].
    eapply (balanced_op _ (m_store_log (mkLog [1] [2] bob)) fw4 _ fw5);
      [run_concrete|constructor]. }
  apply (balanced_stays _ _ _ Hb).
  assert (Hwf2 : frames_wf fw2.1).
  { apply (balanced_stays test_hash fw1 fw2).
    - eapply (balanced_op _ (m_add_to_balance alice 5) fw1 _ fw2);
        [run_concrete|constructor].
    - apply (pushed_wf test_state); [apply make_state_wf|vm_compute; done]. }
  assert (Hv2 : version_ fw2.1 + 1 < 2 ^ 32) by (vm_compute; done).
  apply (push_wf fw2 fw3 Hwf2 Hv2). run_concrete.
Qed.

Lemma pop_accept_keeps_witness :
  ∃ s', pop_accept fw5 = Ok ((), (s', fw5.2)) ∧ frames_wf s' ∧ version_ s' = 2 - 1 ∧
    (∀ a, recent_value s' a = recent_value fw5.1 a) ∧
    vs_recent (logs_ s') = Ok [mkLog [1] [2] bob] ∧
    (∀ u, u < version_ s' → below_same u fw5.1 s').
Proof. apply (pop_accept_keeps fw5); [apply fw5_wf|vm_compute; done]. Defined.

Lemma frame_operations_safe_witness :
  (2 + 1 < 2 ^ 32 → ∃ w', push fw5 = Ok ((), w') ∧ frames_wf w'.1) ∧
  (1 <= 2 → false = false →
     ∃ w', pop_reject fw5 = Ok ((), w') ∧ version_ w'.1 = 2 - 1).
Proof. apply (frame_operations_safe fw5). apply fw5_wf. Defined.

(** Carol does not exist, is touched, and is removed. *)
Definition fd1 : W := ran (add_to_balance carol 0) fw0.

Lemma destruct_touched_dead_spec_witness :
  ∃ m', destruct_touched_dead fd1 = Ok ((), (st_set_current m' fd1.1, fd1.2)) ∧
    ∀ a, m' !! a = vs_write clear_dead <$> current_ fd1.1 !! a.
Proof.
  apply (destruct_touched_dead_spec test_hash fw0 fd1); [apply make_state_wf|done|].
  eapply (balanced_op _ (m_add_to_balance carol 0) fw0 _ fd1);
    [run_concrete|constructor].
Defined.
End concrete.
