(* ===== verification/Merge.v ===== *)
(** * Merging a transaction into the block

    [BlockState::can_merge] and [BlockState::merge]
    (src/category/execution/ethereum/state2/block_state.cpp): after a
    speculative execution, [can_merge] compares everything the transaction
    read with the block state as it is now, and [merge] writes the
    transaction's current state into the deltas. *)
From S2P Require Import Prelude Traits Account VersionStack AccountState BlockState State Fixtures Frames.

Section merge.
Context {VC : Type}.
Abbreviation W := (State * BlockState VC)%type.

(** The inner loop of [can_merge]: every recorded slot against the delta;
    a slot the delta does not hold must have been read as zero. *)
Definition slot_matches (deltas : gmap Z (Z * Z)) (kv : Z * Z) : bool :=
  match deltas !! kv.1 with
  | Some v2 => kv.2 =? v2.2
  | None => kv.2 =? 0
  end.
Definition storage_matches (storage : gmap Z Z) (deltas : gmap Z (Z * Z)) : bool :=
  forallb (slot_matches deltas) (map_to_list storage).

(** One iteration: [Some false] is [return false]. *)
Definition can_merge_entry (address : Z) : M W (option bool) :=
  os ← (sgets (λ s, original_ s !! address) ≫= mvalue);
  delta ← (mgets (λ w : W, bs_state w.2 !! address) ≫= mvalue);
  fixed ← (if decide (os_account os = (sd_account delta).2) then mret true
           else try_fix_account_mismatch address (sd_account delta).2);
  mret (if negb (fixed : bool) then Some false
        else if storage_matches (os_storage os) (sd_storage delta) then None
        else Some false).

Definition can_merge : M W bool :=
  addresses ← sgets (λ s, (map_to_list (original_ s)).*1);
  r ← mfor_return addresses can_merge_entry;
  mret (default true r).

(** The first loop of [merge]: the asserts and the code hashes in use. *)
Definition merge_entry_ok (stack : VersionStack AccountState) : bool :=
  match stack with
  | [(v, _)] => v =? 0
  | _ => false
  end.
Definition merge_code_hashes (current : gmap Z (VersionStack AccountState)) : list Z :=
  elements (list_to_set (omap (λ kv,
    match kv.2 with
    | (_, s) :: _ => code_hash <$> account_ s
    | [] => None
    end) (map_to_list current)) : gset Z).

(** [code_.emplace(code_hash, icode)] keeps an entry that is there. *)
Definition emplace_code (codes : gmap Z Code) (code : gmap Z Code) (h : Z) : gmap Z Code :=
  match codes !! h with
  | None => code
  | Some icode => match code !! h with Some _ => code | None => <[h := icode]> code end
  end.

(** Writing one slot: keep [first], or record that the slot was zero. *)
Definition merge_slot (deltas : gmap Z (Z * Z)) (kv : Z * Z) : gmap Z (Z * Z) :=
  match deltas !! kv.1 with
  | Some (first, _) => <[kv.1 := (first, kv.2)]> deltas
  | None => <[kv.1 := (0, kv.2)]> deltas
  end.

Definition merge_delta (s : AccountState) (d : StateDelta) : StateDelta :=
  mkStateDelta ((sd_account d).1, account_ s)
    (match account_ s with
     | Some _ => foldl merge_slot (sd_storage d) (map_to_list (storage_ s))
     | None => ∅
     end).

(** [self_destruct_storage_reads_.try_emplace(address)] with the slots the
    delta held, for an account of the pre-state that is now gone. *)
Definition merge_reads (address : Z) (s : AccountState) (d : StateDelta)
    (reads : gmap Z (gset Z)) : gmap Z (gset Z) :=
  match account_ s, (sd_account d).1 with
  | None, Some _ =>
      match reads !! address with
      | Some _ => reads
      | None => <[address := dom (sd_storage d)]> reads
      end
  | _, _ => reads
  end.

Definition merge_entry (kv : Z * VersionStack AccountState) : M (BlockState VC) unit :=
  λ bs,
    match vs_recent kv.2, bs_state bs !! kv.1 with
    | Ok s, Some d =>
        Ok ((), mkBlockState (<[kv.1 := merge_delta s d]> (bs_state bs)) (bs_code bs)
                  (merge_reads kv.1 s d (bs_self_destruct_storage_reads bs)) (bs_vm bs))
    | _, _ => Abort
    end.

Definition merge (s : State) : M (BlockState VC) unit :=
  massert (forallb (λ kv, merge_entry_ok kv.2) (map_to_list (current_ s)));;
  mmodify (λ bs, bs_set_code (foldl (emplace_code (code_ s)) (bs_code bs)
                                (merge_code_hashes (current_ s))) bs);;
  mfor (map_to_list (current_ s)) merge_entry.

(** ** What [can_merge] decides *)

(** What a delta shows of a slot: its value now, or zero. *)
Definition held_slot (deltas : gmap Z (Z * Z)) (k : Z) : Z :=
  default 0 (snd <$> deltas !! k).
(** Everything the transaction recorded is what the block state holds. *)
Definition agrees (s : State) (bs : BlockState VC) : Prop :=
  ∀ a os, original_ s !! a = Some os →
    ∃ d, bs_state bs !! a = Some d ∧ os_account os = (sd_account d).2 ∧
      ∀ k v, os_storage os !! k = Some v → held_slot (sd_storage d) k = v.

Lemma storage_matches_spec storage deltas :
  storage_matches storage deltas = true ↔
  ∀ k v, storage !! k = Some v → held_slot deltas k = v.
Proof.
  assert (Hslot : ∀ k v, slot_matches deltas (k, v) = true ↔ held_slot deltas k = v).
  { intros k v. unfold slot_matches, held_slot. simpl.
    destruct (deltas !! k) as [[v1 v2]|]; simpl; rewrite Z.eqb_eq; done. }
  unfold storage_matches. rewrite forallb_forall. split.
  - intros Hall k v Hk. apply Hslot, Hall, list_elem_of_In. by apply elem_of_map_to_list.
  - intros Hall [k v] Hin%list_elem_of_In. apply Hslot, Hall. by apply elem_of_map_to_list.
Qed.

(** Without relaxed validation a mismatch is never repaired, and the
    assertion inside never fails. *)
Lemma try_fix_exact a os actual (w : W) :
  relaxed_validation_ w.1 = false → original_ w.1 !! a = Some os → os_account os ≠ actual →
  try_fix_account_mismatch a actual w = Ok (false, w).
Proof.
  intros Hr Hos Hne. unfold try_fix_account_mismatch. autorewrite with run. rewrite Hos.
  autorewrite with run. rewrite Hr. simpl.
  destruct (os_account os) as [[b1 h1 n1 i1]|], actual as [[b2 h2 n2 i2]|]; autorewrite with run; try done.
  simpl. case_match eqn:Hdiff; [by autorewrite with run|].
  apply orb_false_iff in Hdiff as [Hdiff Hn]. apply orb_false_iff in Hdiff as [Hdiff Hi].
  apply orb_false_iff in Hdiff as [_ Hh].
  apply negb_false_iff, Z.eqb_eq in Hn, Hh. apply negb_false_iff, bool_decide_eq_true in Hi.
  destruct (Z.eqb_spec b1 b2) as [->|]; [congruence|]. simpl. by autorewrite with run.
Qed.

Lemma can_merge_entry_exact a os d (w : W) :
  relaxed_validation_ w.1 = false → original_ w.1 !! a = Some os → bs_state w.2 !! a = Some d →
  can_merge_entry a w =
    Ok (if decide (os_account os = (sd_account d).2) then
          if storage_matches (os_storage os) (sd_storage d) then None else Some false
        else Some false, w).
Proof.
  intros Hr Hos Hd. unfold can_merge_entry. autorewrite with run. rewrite Hos.
  autorewrite with run. rewrite Hd. autorewrite with run.
  destruct (decide _) as [E|E]; autorewrite with run; simpl; [by case_match|].
  erewrite bind_Ok_eq by (by eapply try_fix_exact). by autorewrite with run.
Qed.

Lemma can_merge_loop l (w : W) :
  relaxed_validation_ w.1 = false →
  (∀ a, a ∈ l → is_Some (original_ w.1 !! a) ∧ is_Some (bs_state w.2 !! a)) →
  ∃ r, mfor_return l can_merge_entry w = Ok (r, w) ∧
    (r = None ∨ r = Some false) ∧
    (r = None ↔ ∀ a os d, a ∈ l → original_ w.1 !! a = Some os → bs_state w.2 !! a = Some d →
       os_account os = (sd_account d).2 ∧ storage_matches (os_storage os) (sd_storage d) = true).
Proof.
  intros Hr. induction l as [|a l IH]; intros Hl; simpl.
  - exists None. split; [by autorewrite with run|]. split; [by left|]. split; [|done].
    intros _ a os d []%elem_of_nil.
  - destruct (Hl a ltac:(left)) as [[os Hos] [d Hd]].
    destruct IH as (r & Hrun & Hrv & Hiff); [intros b Hb; apply Hl; by right|].
    rewrite (bind_Ok_eq _ _ _ _ _ (can_merge_entry_exact _ _ _ _ Hr Hos Hd)).
    destruct (decide (os_account os = (sd_account d).2)) as [Ea|Ea];
      [destruct (storage_matches (os_storage os) (sd_storage d)) eqn:Es|].
    + exists r. split; [done|]. split; [done|]. rewrite Hiff. split.
      * intros Hall b os' d' [->|Hb]%elem_of_cons ? ?; [by simplify_eq|by eapply Hall].
      * intros Hall b os' d' Hb. apply Hall. by right.
    + exists (Some false). autorewrite with run. split; [done|]. split; [by right|].
      split; [done|]. intros Hall. destruct (Hall a os d) as [_ ?]; [left|done|done|congruence].
    + exists (Some false). autorewrite with run. split; [done|]. split; [by right|].
      split; [done|]. intros Hall. destruct (Hall a os d) as [? _]; [left|done|done|congruence].
Qed.

Lemma can_merge_exact (w : W) :
  relaxed_validation_ w.1 = false →
  (∀ a, is_Some (original_ w.1 !! a) → is_Some (bs_state w.2 !! a)) →
  ∃ b, can_merge w = Ok (b, w) ∧ (b = true ↔ agrees w.1 w.2).
Proof.
  intros Hr Hload. unfold can_merge. autorewrite with run.
  assert (Hin : ∀ a, a ∈ (map_to_list (original_ w.1)).*1 ↔ is_Some (original_ w.1 !! a)).
  { intros a. rewrite list_elem_of_fmap. split.
    - intros ([b os] & -> & Hb%elem_of_map_to_list). eauto.
    - intros [os Hos]. exists (a, os). split; [done|]. by apply elem_of_map_to_list. }
  destruct (can_merge_loop ((map_to_list (original_ w.1)).*1) w) as (r & Hrun & Hrv & Hiff);
    [done|intros a Ha%Hin; auto|].
  rewrite (bind_Ok_eq _ _ _ _ _ Hrun). autorewrite with run. eexists. split; [done|].
  transitivity (r = None); [destruct Hrv as [->| ->]; done|]. rewrite Hiff. unfold agrees. split.
  - intros Hall a os Hos. destruct (Hload a ltac:(eauto)) as [d Hd]. exists d. split; [done|].
    destruct (Hall a os d) as [? Hst]; [apply Hin; eauto|done|done|].
    split; [done|]. by apply storage_matches_spec.
  - intros Hag a os d _ Hos Hd. destruct (Hag _ _ Hos) as (d' & Hd' & ? & Hst). simplify_eq.
    split; [done|]. by apply storage_matches_spec.
Qed.

(** C6: [can_merge] decides agreement.  For a transaction executed without
    relaxed validation whose recorded accounts are all loaded, [can_merge]
    terminates normally, changes nothing, and answers [true] exactly when
    every recorded account and storage slot equals what the block state
    holds now. *)
Theorem can_merge_decides (w : W) :
  relaxed_validation_ w.1 = false →
  (∀ a, is_Some (original_ w.1 !! a) → is_Some (bs_state w.2 !! a)) →
  ∃ b, can_merge w = Ok (b, w) ∧ (b = true ↔ agrees w.1 w.2).
Proof. apply can_merge_exact. Qed.

(** ** What [merge] writes *)

(** The delta of one address after the merge. *)
Definition merged_delta (s : State) (bs : BlockState VC) (a : Z) : option StateDelta :=
  match current_ s !! a with
  | Some ((_, x) :: _) => merge_delta x <$> bs_state bs !! a
  | _ => bs_state bs !! a
  end.

Lemma merge_loop l (bs : BlockState VC) :
  NoDup l.*1 →
  (∀ a stack, (a, stack) ∈ l → stack ≠ [] ∧ is_Some (bs_state bs !! a)) →
  ∃ bs', mfor l merge_entry bs = Ok ((), bs') ∧
    bs_code bs' = bs_code bs ∧ bs_vm bs' = bs_vm bs ∧
    (∀ a, a ∉ l.*1 → bs_state bs' !! a = bs_state bs !! a) ∧
    (∀ a v x r, (a, (v, x) :: r) ∈ l → bs_state bs' !! a = merge_delta x <$> bs_state bs !! a).
Proof.
  revert bs. induction l as [|[a stack] l IH]; intros bs Hnd Hl; simpl.
  - exists bs. rewrite run_ret. do 4 (split; [done|]). by intros ? ? ? ? ?%elem_of_nil.
  - apply list.NoDup_cons in Hnd as [Ha Hnd]. simpl in *.
    destruct (Hl a stack ltac:(left)) as [Hne [d Hd]]. destruct stack as [|[v x] r]; [done|].
    destruct (IH (mkBlockState (<[a := merge_delta x d]> (bs_state bs)) (bs_code bs)
                (merge_reads a x d (bs_self_destruct_storage_reads bs)) (bs_vm bs)))
      as (bs' & Hrun & Hc & Hvm & Hout & Hin); [done| |].
    { intros b stk Hb. destruct (Hl b stk ltac:(by right)) as [? ?]. split; [done|]. simpl.
      apply lookup_insert_is_Some'. by right. }
    exists bs'. split.
    { erewrite bind_Ok_eq; [exact Hrun|]. unfold merge_entry; simpl. by rewrite Hd. }
    simpl in *. split; [done|]. split; [done|]. split.
    + intros b Hb. apply not_elem_of_cons in Hb as [? Hb]. rewrite Hout by done.
      by rewrite lookup_insert_ne.
    + intros b v' x' r' [[= -> -> -> ->]|Hb]%elem_of_cons.
      * rewrite Hout by done. by rewrite lookup_insert_eq, Hd.
      * rewrite (Hin _ _ _ _ Hb). rewrite lookup_insert_ne; [done|]. intros ->.
        apply Ha. apply list_elem_of_fmap. eexists. by split; [|done].
Qed.

(** [merge] succeeds when every stack is a single value of version 0 and
    every written account is loaded. *)
Definition mergeable (s : State) (bs : BlockState VC) : Prop :=
  ∀ a stack, current_ s !! a = Some stack → (∃ x, stack = [(0, x)]) ∧ is_Some (bs_state bs !! a).

(** Codes are only added, and come from the transaction. *)
Lemma emplace_codes_spec codes l (m : gmap Z Code) h c :
  (foldl (emplace_code codes) m l !! h = Some c → m !! h = Some c ∨ codes !! h = Some c) ∧
  (m !! h = Some c → foldl (emplace_code codes) m l !! h = Some c).
Proof.
  revert m. induction l as [|h0 l IH]; intros m; simpl; [auto|].
  destruct (IH (emplace_code codes m h0)) as [IH1 IH2].
  unfold emplace_code in *. destruct (codes !! h0) as [c0|] eqn:E0; [|auto].
  destruct (m !! h0) eqn:Em; [auto|]. split.
  - intros Hh. destruct (IH1 Hh) as [Hh'|]; [|auto].
    destruct (decide (h0 = h)) as [<-|]; [rewrite lookup_insert_eq in Hh'|rewrite lookup_insert_ne in Hh' by done];
      [right; congruence|auto].
  - intros Hh. apply IH2. rewrite lookup_insert_ne; [done|]. congruence.
Qed.

Lemma merge_spec s (bs : BlockState VC) :
  mergeable s bs →
  ∃ bs', merge s bs = Ok ((), bs') ∧ bs_vm bs' = bs_vm bs ∧
    (∀ a, bs_state bs' !! a = merged_delta s bs a) ∧
    (∀ h c, (bs_code bs' !! h = Some c → bs_code bs !! h = Some c ∨ code_ s !! h = Some c) ∧
            (bs_code bs !! h = Some c → bs_code bs' !! h = Some c)).
Proof.
  intros Hm. unfold merge.
  assert (Hok : forallb (λ kv, merge_entry_ok kv.2) (map_to_list (current_ s)) = true).
  { apply forallb_forall. intros [a stack] Hin%list_elem_of_In%elem_of_map_to_list.
    destruct (Hm _ _ Hin) as [[x ->] _]. done. }
  rewrite Hok. autorewrite with run.
  set (bs1 := bs_set_code _ bs).
  destruct (merge_loop (map_to_list (current_ s)) bs1) as (bs' & Hrun & Hcode & Hvm & Hout & Hin).
  { apply NoDup_fst_map_to_list. }
  { intros a stack Ha%elem_of_map_to_list. destruct (Hm _ _ Ha) as [[x ->] ?]. done. }
  exists bs'. split; [done|]. split; [done|]. split.
  2: { intros h c. rewrite Hcode. simpl. apply emplace_codes_spec. }
  intros a. unfold merged_delta. destruct (current_ s !! a) as [stack|] eqn:Hs.
  - destruct (Hm _ _ Hs) as [[x ->] _]. apply (Hin a 0 x []). by apply elem_of_map_to_list.
  - rewrite Hout; [done|]. intros ([b stk] & -> & Hb%elem_of_map_to_list)%list_elem_of_fmap.
    simpl in Hs. congruence.
Qed.

Lemma merge_slots_lookup l deltas k :
  NoDup l.*1 →
  foldl merge_slot deltas l !! k =
    match (list_to_map l : gmap Z Z) !! k with
    | Some v => Some (match deltas !! k with Some (first, _) => first | None => 0 end, v)
    | None => deltas !! k
    end.
Proof.
  revert deltas. induction l as [|[k0 v0] l IH]; intros deltas Hnd; [done|].
  apply list.NoDup_cons in Hnd as [Hk0 Hnd]. simpl in *. rewrite IH by done.
  destruct (decide (k0 = k)) as [<-|Hne].
  - rewrite not_elem_of_list_to_map_1 by done. rewrite lookup_insert_eq.
    unfold merge_slot; simpl. destruct (deltas !! k0) as [[f ?]|]; by rewrite lookup_insert_eq.
  - rewrite lookup_insert_ne by done.
    assert (Hsame : merge_slot deltas (k0, v0) !! k = deltas !! k).
    { unfold merge_slot; simpl. destruct (deltas !! k0) as [[f ?]|]; by rewrite lookup_insert_ne. }
    by rewrite Hsame.
Qed.

Lemma merge_delta_storage x d acc k :
  account_ x = Some acc →
  sd_storage (merge_delta x d) !! k =
    match storage_ x !! k with
    | Some v => Some (match sd_storage d !! k with Some (first, _) => first | None => 0 end, v)
    | None => sd_storage d !! k
    end.
Proof.
  intros Hacc. unfold merge_delta; simpl. rewrite Hacc.
  rewrite merge_slots_lookup by apply NoDup_fst_map_to_list. by rewrite list_to_map_to_list.
Qed.
End merge.

(** ** Reading what was merged *)
Section merge_read.
Context {VC : Type} `{VarcodeCache VC}.
Context (db_ : Db).

Lemma merged_view s (bs bs' : BlockState VC) a x :
  mergeable s bs → (∀ b, bs_state bs' !! b = merged_delta s bs b) →
  current_ s !! a = Some [(0, x)] →
  ∃ d, bs_state bs !! a = Some d ∧ bs_state bs' !! a = Some (merge_delta x d).
Proof.
  intros Hm Hbs' Hs. destruct (Hm _ _ Hs) as [_ [d Hd]]. exists d. split; [done|].
  rewrite Hbs'. unfold merged_delta. by rewrite Hs, Hd.
Qed.

(** C7: reading back what was merged.  Under its preconditions [merge]
    succeeds, and afterwards every account the transaction wrote reads as
    its final value, every other account as before; a surviving account of
    unchanged incarnation keeps the slots the transaction did not write and
    shows the ones it wrote; a removed account has no storage left, neither
    to read nor in its delta. *)
Theorem merge_then_read (s : State) (bs : BlockState VC) :
  mergeable s bs →
  ∃ bs', merge s bs = Ok ((), bs') ∧
    (∀ a, current_ s !! a = None →
       account_view db_ bs' a = account_view db_ bs a ∧
       ∀ i k, storage_view db_ bs' a i k = storage_view db_ bs a i k) ∧
    (∀ a x, current_ s !! a = Some [(0, x)] →
       account_view db_ bs' a = account_ x ∧
       (account_ x = None → ∀ i k, storage_view db_ bs' a i k = 0) ∧
       (account_ x = None → ∀ d, bs_state bs' !! a = Some d → sd_storage d = ∅) ∧
       (∀ acc acc0 k, account_ x = Some acc → account_view db_ bs a = Some acc0 →
          incarnation acc = incarnation acc0 →
          storage_view db_ bs' a (incarnation acc) k =
            default (storage_view db_ bs a (incarnation acc) k) (storage_ x !! k)) ∧
       (∀ acc k d, account_ x = Some acc → bs_state bs !! a = Some d →
          (sd_account d).1 = None → sd_storage d = ∅ →
          storage_view db_ bs' a (incarnation acc) k = default 0 (storage_ x !! k))).
Proof.
  intros Hm. destruct (merge_spec s bs Hm) as (bs' & Hrun & _ & Hst & _). exists bs'. split; [done|].
  split.
  - intros a Hs. unfold account_view, storage_view. rewrite Hst. unfold merged_delta. by rewrite Hs.
  - intros a x Hs. destruct (merged_view _ _ _ _ _ Hm Hst Hs) as (d & Hd & Hd').
    unfold account_view, storage_view. rewrite Hd'. simpl. split; [done|]. split; [|split; [|split]].
    + intros Hx i k. unfold storage_in_deltas; simpl. by rewrite Hx.
    + intros Hx d1 [= <-]. simpl. by rewrite Hx.
    + intros acc acc0 k Hx H0 Hi. rewrite Hd in H0 |- *. simpl. unfold storage_in_deltas.
      rewrite (merge_delta_storage _ _ _ _ Hx). simpl. rewrite Hx, H0.
      rewrite Hi, !decide_True by done. by destruct (storage_ x !! k) as [v|].
    + intros acc k d' Hx Hd2 Hfirst Hempty. simplify_eq. unfold storage_in_deltas.
      rewrite (merge_delta_storage _ _ _ _ Hx). simpl. rewrite Hx, Hfirst, Hempty.
      rewrite decide_True by done. by destruct (storage_ x !! k) as [v|].
Qed.
End merge_read.

(** ** A concrete merge *)
Section concrete.
(** Bob is paid and one of his slots is written. *)
Definition mw1 : State * BlockState () := ran (add_to_balance bob 10) (test_state, test_block).
Definition mw2 : State * BlockState () := ran (set_storage bob 5 3) mw1.
Definition bob_after : AccountState :=
  (as_set_storage_value 5 3 77
     (touch_ (make_account_state (Some (mkAccount 60 0xb0bc0de 1 (mkIncarnation 2 0)))))).2.

Lemma can_merge_decides_witness : ∃ b, can_merge mw2 = Ok (b, mw2) ∧ (b = true ↔ agrees mw2.1 mw2.2).
Proof.
  apply can_merge_decides; [run_concrete|].
  assert (Ho : dom (original_ mw2.1) = {[bob]}) by run_concrete.
  intros a Ha%elem_of_dom. rewrite Ho in Ha. apply elem_of_singleton in Ha as ->.
  vm_compute. eauto.
Defined.

Lemma mw2_current : current_ mw2.1 = {[bob := [(0, bob_after)]]}.
Proof. run_concrete. Qed.

Lemma merge_then_read_witness :
  mergeable mw2.1 mw2.2 ∧
  ∃ bs', merge mw2.1 mw2.2 = Ok ((), bs') ∧
    account_view test_db bs' bob = Some (mkAccount 60 0xb0bc0de 1 (mkIncarnation 2 0)).
Proof.
  assert (Hm : mergeable mw2.1 mw2.2).
  { intros a stack. rewrite mw2_current. intros Ha.
    apply lookup_singleton_Some in Ha as [<- <-]. split; [eauto|]. vm_compute. eauto. }
  split; [done|]. destruct (merge_then_read test_db mw2.1 mw2.2 Hm) as (bs' & Hrun & _ & Hread).
  exists bs'. split; [done|]. apply (Hread bob bob_after). rewrite mw2_current.
  apply lookup_singleton_eq.
Defined.
End concrete.
