(* ===== verification/Speculation.v ===== *)
(** * Speculative execution

    [ExecuteTransaction] runs every transaction of a block concurrently with
    the others against the shared [BlockState], waits for its predecessor, and
    keeps the speculative result when [can_merge] accepts it.  This file shows
    that doing so is sound: the accepted result is the one a sequential
    execution on the block state at the time of the merge produces.

    The concurrent run is the program of [State] methods run against the
    record of what the shared block state answered to each of its reads
    ([event], with an instance of [BlockAccess]).  [answered] says which
    records the environment can produce: at every point other transactions
    may change the block state, as long as the accounts that are still alive
    at the merge keep their incarnation and their loaded slots ([keeps]). *)
From S2P Require Import Prelude Traits Account VersionStack AccountState BlockState State.
From S2P Require Import Methods Fixtures Frames Merge.

(** ** The record of a concurrent execution *)
Inductive event :=
| EvAccount (a : Z) (x : option Account)
| EvStorage (a : Z) (i : Incarnation) (k v : Z)
| EvCode (h : Z) (c : Code)
| EvInsert (h : Z) (c x : Code).

(** The block state as an oracle: it answers what the record says. *)
#[global] Instance record_access : BlockAccess (list event) := {|
  ba_read_account a := λ o,
    match o with
    | EvAccount a' x :: r => if decide (a = a') then Ok (x, r) else Abort
    | _ => Abort
    end;
  ba_read_storage a i k := λ o,
    match o with
    | EvStorage a' i' k' v :: r => if decide ((a, i, k) = (a', i', k')) then Ok (v, r) else Abort
    | _ => Abort
    end;
  ba_read_code h := λ o,
    match o with
    | EvCode h' c :: r => if decide (h = h') then Ok (c, r) else Abort
    | _ => Abort
    end;
  ba_insert_code h c := λ o,
    match o with
    | EvInsert h' c' x :: r => if decide ((h, c) = (h', c')) then Ok (x, r) else Abort
    | _ => Abort
    end
|}.

Section speculation.
Context {VC : Type} `{VarcodeCacheLaws VC}.
Context (db_ : Db) (secondary_db_ : option Db) (keccak256 : Code → Z).
(** Content addressing: the code of a hash. *)
Context (codeof : Z → Code).
(** The incarnation of the transaction, and the block state it is merged
    into. *)
Context (own : Incarnation) (B : BlockState VC).

#[local] Instance real_access : BlockAccess (BlockState VC) := block_access db_ secondary_db_.

Abbreviation W1 := (State * list event)%type.
Abbreviation W2 := (State * BlockState VC)%type.

(** The code a block state can always resolve, evictions aside. *)
Definition stored (bs : BlockState VC) (h : Z) : option Code :=
  match bs_code bs !! h with
  | Some c => Some c
  | None =>
      c ← db_read_code db_ h;
      if (h =? NULL_HASH) || negb (Z.of_nat (length c) =? 0) then Some c else None
  end.

Definition code_ok (bs : BlockState VC) : Prop :=
  (∀ h c, vc_holds (bs_vm bs) h c → c = codeof h ∧ Z.of_nat (length c) <= 2 ^ 20 - 1) ∧
  (∀ h c, stored bs h = Some c → c = codeof h ∧ Z.of_nat (length c) <= 2 ^ 20 - 1).

Record block_ok (bs : BlockState VC) : Prop := {
  bo_code : code_ok bs;
  (* no account of the block carries this transaction's incarnation *)
  bo_own a acc : account_view db_ bs a = Some acc → incarnation acc ≠ own;
  (* a removed account has no slots *)
  bo_removed a d : bs_state bs !! a = Some d → (sd_account d).2 = None → sd_storage d = ∅;
  (* the first value of a delta is the account of the database *)
  bo_origin a d : bs_state bs !! a = Some d → (sd_account d).1 = db_read_account db_ a
}.

(** The account [a] is loaded and has incarnation [i]. *)
Definition lives (bs : BlockState VC) (a : Z) (i : Incarnation) : Prop :=
  ∃ d acc, bs_state bs !! a = Some d ∧ (sd_account d).2 = Some acc ∧ incarnation acc = i.

(** What other transactions may do between two reads. *)
Record keeps (bs bs' : BlockState VC) : Prop := {
  ke_loaded a : is_Some (bs_state bs !! a) → is_Some (bs_state bs' !! a);
  ke_lives a i : lives B a i → lives bs a i → lives bs' a i;
  ke_slots a i d d' : lives B a i → lives bs a i →
    bs_state bs !! a = Some d → bs_state bs' !! a = Some d' →
    dom (sd_storage d) ⊆ dom (sd_storage d')
}.

(** One answer of the block state. *)
Inductive answer : BlockState VC → event → BlockState VC → Prop :=
| ans_account bs bs' a x :
    read_account db_ a bs = Ok (x, bs') → answer bs (EvAccount a x) bs'
| ans_storage bs bs' a i k v :
    read_storage db_ secondary_db_ a i k bs = Ok (v, bs') → answer bs (EvStorage a i k v) bs'
| ans_code bs bs' h c :
    read_code db_ h bs = Ok (c, bs') → stored B h = Some c → answer bs (EvCode h c) bs'
| ans_insert bs bs' c x :
    insert_code (keccak256 c) c bs = Ok (x, bs') → answer bs (EvInsert (keccak256 c) c x) bs'.

(** The answers a block state shared with other transactions can give,
    from [bs] until it has become [B]. *)
Inductive answered : BlockState VC → list event → Prop :=
| ans_end bs : keeps bs B → answered bs []
| ans_env bs bs' o : keeps bs bs' → block_ok bs' → answered bs' o → answered bs o
| ans_step bs bs' e o : answer bs e bs' → answered bs' o → answered bs (e :: o).

(** ** Assumptions on the parameters *)
Hypothesis Hcodeof : ∀ c, codeof (keccak256 c) = c.
Hypothesis Hsecondary : ∀ db2 a i k, secondary_db_ = Some db2 →
  db_read_storage db2 a i k = db_read_storage db_ a i k.
Hypothesis HB : block_ok B.
Implicit Types bs : BlockState VC.

#[global] Instance keeps_preorder : PreOrder keeps.
Proof.
  split.
  - intros bs. split; [done|done|]. intros a i d d' _ _ Hd Hd'. simplify_eq. done.
  - intros b1 b2 b3 [L1 V1 S1] [L2 V2 S2]. split; [auto|auto|].
    intros a i d1 d3 HBi Hi H1 H3. destruct (L1 a ltac:(eauto)) as [d2 H2].
    etrans; [by eapply S1|]. eapply S2; eauto.
Qed.

Lemma read_account_keeps a bs x bs' :
  read_account db_ a bs = Ok (x, bs') →
  keeps bs bs' ∧ x = account_view db_ bs a ∧
  ∃ d, bs_state bs' !! a = Some d ∧ (sd_account d).2 = x.
Proof.
  unfold read_account, account_view. destruct (bs_state bs !! a) as [d|] eqn:Hd.
  - intros [= <- <-]. split; [done|]. eauto.
  - intros [= <- <-]. split; [|split; [done|]].
    + split; simpl.
      * intros b Hb. apply lookup_insert_is_Some'. by right.
      * intros b i _ (d & acc & Hb & ?). exists d, acc. simpl.
        rewrite lookup_insert_ne; [done|]. congruence.
      * intros b i d d' _ (? & ? & Hb & _) Hd1 Hd2.
        rewrite lookup_insert_ne in Hd2 by congruence. by simplify_eq.
    + simpl. rewrite lookup_insert_eq. eauto.
Qed.

(** A delta after the read was there before, or comes from the database. *)
Lemma read_account_inv a bs x bs' : read_account db_ a bs = Ok (x, bs') →
  ∀ b d, bs_state bs' !! b = Some d →
    bs_state bs !! b = Some d ∨ a = b ∧ d = mkStateDelta (db_read_account db_ b, db_read_account db_ b) ∅.
Proof.
  unfold read_account. destruct (bs_state bs !! a) as [d0|] eqn:E; intros [= <- <-] b d Hd; [by left|].
  simpl in Hd. apply lookup_insert_Some in Hd as [[<- <-]|[_ ?]]; auto.
Qed.

Lemma read_storage_inv a i k bs v bs' :
  read_storage db_ secondary_db_ a i k bs = Ok (v, bs') →
  ∃ d, bs_state bs !! a = Some d ∧ v = storage_view db_ bs a i k ∧
    ((bs' = bs ∧ (∀ acc, (sd_account d).2 = Some acc → incarnation acc = i →
                    ∃ f, sd_storage d !! k = Some (f, v))) ∨
     (∃ acc, (sd_account d).2 = Some acc ∧ incarnation acc = i ∧
        bs' = bs_set_state (<[a := mkStateDelta (sd_account d)
                                (<[k := (v, v)]> (sd_storage d))]> (bs_state bs)) bs)).
Proof.
  unfold read_storage, storage_view. destruct (bs_state bs !! a) as [d|] eqn:Hd; [|done]. simpl.
  destruct (storage_in_deltas d i k) as [x|ask] eqn:Es.
  - intros [= <- <-]. exists d. split; [done|]. split; [done|]. left. split; [done|].
    intros acc Hacc <-. unfold storage_in_deltas in Es. rewrite Hacc in Es.
    rewrite decide_True in Es by done.
    destruct (sd_storage d !! k) as [[f y]|]; [|done]. injection Es as <-. eauto.
  - case_match; [done|]. intros [= <- <-]. exists d. split; [done|]. split; [done|]. right.
    unfold storage_in_deltas in Es. destruct ((sd_account d).2) as [acc|]; [|done].
    destruct (decide (i = incarnation acc)) as [->|]; [|done]. eauto.
Qed.

Lemma read_storage_keeps a i k bs v bs' :
  read_storage db_ secondary_db_ a i k bs = Ok (v, bs') → keeps bs bs'.
Proof.
  intros Hr. destruct (read_storage_inv _ _ _ _ _ _ Hr) as (d & Hd & _ & [[-> _]|(acc & Hacc & Hi & ->)]).
  { done. }
  split; simpl.
  - intros b Hb. apply lookup_insert_is_Some'. by right.
  - intros b j _ (d0 & acc0 & Hd0 & Hacc0 & Hj). unfold lives; simpl.
    destruct (decide (a = b)) as [<-|].
    + rewrite lookup_insert_eq. assert (d0 = d) as -> by congruence. by eexists _, acc0.
    + rewrite lookup_insert_ne by done. eauto.
  - intros b j d0 d' _ _ Hd0 Hd'. destruct (decide (a = b)) as [<-|].
    + rewrite lookup_insert_eq in Hd'. simplify_eq. simpl. set_solver.
    + rewrite lookup_insert_ne in Hd' by done. by simplify_eq.
Qed.

Lemma set_vm_keeps vm bs : keeps bs (bs_set_vm vm bs).
Proof. split; [done|done|]. intros a i d d' _ _ Hd Hd'. simpl in *. by simplify_eq. Qed.

Lemma read_code_inv h bs c bs' :
  code_ok bs → read_code db_ h bs = Ok (c, bs') →
  c = codeof h ∧ ∃ vm', bs' = bs_set_vm vm' bs ∧ code_ok (bs_set_vm vm' bs).
Proof.
  intros [Hvm Hst]. unfold read_code.
  destruct (vc_get h (bs_vm bs)) as [[x|] vm'] eqn:Eg.
  - intros [= <- <-]. pose proof (vc_get_sound _ _ _ _ Eg) as Hh. split; [by apply Hvm|].
    eexists. split; [done|]. split; [|done]. simpl. intros h' c' Hc'. apply Hvm.
    by eapply vc_get_mono.
  - assert (Hset : ∀ c0, stored bs h = Some c0 → code_ok (bs_set_vm (vc_try_set h c0 vm') bs)).
    { intros c0 Hc0. split; [|done]. simpl. intros h' c' [[-> ->]|Hc']%vc_try_set_mono.
      - by apply Hst.
      - apply Hvm. by eapply vc_get_mono. }
    destruct (bs_code bs !! h) as [c0|] eqn:Ec.
    + assert (Hs : stored bs h = Some c0) by (unfold stored; by rewrite Ec).
      intros [= <- <-]. split; [by apply Hst|]. eexists. split; [done|]. by apply Hset.
    + destruct (db_read_code db_ h) as [c0|] eqn:Edb; [|done].
      destruct ((h =? NULL_HASH) || negb (Z.of_nat (length c0) =? 0)) eqn:Eok; [|done].
      assert (Hs : stored bs h = Some c0) by (unfold stored; rewrite Ec, Edb; simpl; by rewrite Eok).
      intros [= <- <-]. split; [by apply Hst|]. eexists. split; [done|]. by apply Hset.
Qed.

(** A hash the block state stores can be read. *)
Lemma read_code_stored h bs c :
  code_ok bs → stored bs h = Some c →
  ∃ vm', read_code db_ h bs = Ok (c, bs_set_vm vm' bs) ∧ code_ok (bs_set_vm vm' bs).
Proof.
  intros Hok Hs. assert (∃ c' bs', read_code db_ h bs = Ok (c', bs')) as (c' & bs' & Hr).
  { unfold read_code. destruct (vc_get h (bs_vm bs)) as [[x|] vm']; [eauto|].
    unfold stored in Hs. destruct (bs_code bs !! h); [eauto|].
    destruct (db_read_code db_ h) as [c0|]; [|done]. simpl in Hs.
    destruct (_ || _); [eauto|done]. }
  destruct (read_code_inv _ _ _ _ Hok Hr) as (-> & vm' & -> & Hok').
  exists vm'. split; [|done]. rewrite Hr. destruct Hok as [_ Hst]. by rewrite (proj1 (Hst _ _ Hs)).
Qed.

Lemma insert_code_inv h c bs x bs' :
  code_ok bs → codeof h = c → insert_code h c bs = Ok (x, bs') →
  x = c ∧ ∃ vm', bs' = bs_set_vm vm' bs ∧ code_ok (bs_set_vm vm' bs) ∧
    Z.of_nat (length c) <= 2 ^ 20 - 1.
Proof.
  intros [Hvm Hst] Hc. unfold insert_code, vc_try_set_raw.
  destruct (vc_get h (bs_vm bs)) as [[y|] vm'] eqn:Eg.
  - intros [= <- <-]. pose proof (vc_get_sound _ _ _ _ Eg) as Hh. destruct (Hvm _ _ Hh) as [-> ?].
    split; [done|]. eexists. split; [done|]. split; [|by rewrite <- Hc]. split; [|done]. simpl.
    intros h' c' Hc'. apply Hvm. by eapply vc_get_mono.
  - destruct (Z.leb_spec (Z.of_nat (length c)) (2 ^ 20 - 1)); [|done].
    intros [= <- <-]. split; [done|]. eexists. split; [done|]. split; [|done]. split; [|done]. simpl.
    intros h' c' [[-> ->]|Hc']%vc_try_set_mono; [done|]. apply Hvm. by eapply vc_get_mono.
Qed.

Lemma insert_code_ok h c bs :
  code_ok bs → codeof h = c → Z.of_nat (length c) <= 2 ^ 20 - 1 →
  ∃ vm', insert_code h c bs = Ok (c, bs_set_vm vm' bs) ∧ code_ok (bs_set_vm vm' bs).
Proof.
  intros Hok Hc Hlen. assert (∃ x bs', insert_code h c bs = Ok (x, bs')) as (x & bs' & Hr).
  { unfold insert_code, vc_try_set_raw. destruct (vc_get h (bs_vm bs)) as [[y|] vm']; [eauto|].
    destruct (Z.leb_spec (Z.of_nat (length c)) (2 ^ 20 - 1)); [eauto|lia]. }
  destruct (insert_code_inv _ _ _ _ _ Hok Hc Hr) as (-> & vm' & -> & ? & _). eauto.
Qed.

Lemma block_ok_set_vm vm bs : block_ok bs → code_ok (bs_set_vm vm bs) → block_ok (bs_set_vm vm bs).
Proof. intros [_ Ho Hr Hor] Hc. by split. Qed.

Lemma block_ok_read_account a bs x bs' :
  block_ok bs → read_account db_ a bs = Ok (x, bs') → block_ok bs'.
Proof.
  intros [Hc Ho Hrm Hor] Hr. destruct (read_account_spec db_ a bs) as (bs2 & Hr2 & [Hav _] & _).
  rewrite Hr in Hr2. injection Hr2 as -> <-. unfold read_account in Hr.
  destruct (bs_state bs !! a) as [d|] eqn:Hd; injection Hr as Hx <-; [done|].
  split; [done| | |].
  - intros b acc. rewrite <- Hav. apply Ho.
  - intros b d. simpl. destruct (decide (a = b)) as [<-|].
    + rewrite lookup_insert_eq. by intros [= <-].
    + rewrite lookup_insert_ne by done. apply Hrm.
  - intros b d. simpl. destruct (decide (a = b)) as [<-|].
    + rewrite lookup_insert_eq. by intros [= <-].
    + rewrite lookup_insert_ne by done. apply Hor.
Qed.

Lemma block_ok_read_storage a i k bs v bs' :
  block_ok bs → read_storage db_ secondary_db_ a i k bs = Ok (v, bs') → block_ok bs'.
Proof.
  intros [Hc Ho Hrm Hor] Hr.
  destruct (read_storage_inv _ _ _ _ _ _ Hr) as (d & Hd & _ & [[-> _]|(acc & Hacc & Hi & ->)]); [done|].
  split; [done| | |].
  - intros b acc'. unfold account_view; simpl. destruct (decide (a = b)) as [<-|].
    + rewrite lookup_insert_eq. simpl. specialize (Ho a acc'). unfold account_view in Ho.
      rewrite Hd in Ho. done.
    + rewrite lookup_insert_ne by done. apply Ho.
  - intros b d'. simpl. destruct (decide (a = b)) as [<-|].
    + rewrite lookup_insert_eq. intros [= <-]. simpl. congruence.
    + rewrite lookup_insert_ne by done. apply Hrm.
  - intros b d'. simpl. destruct (decide (a = b)) as [<-|].
    + rewrite lookup_insert_eq. intros [= <-]. simpl. by apply Hor.
    + rewrite lookup_insert_ne by done. apply Hor.
Qed.

Lemma answer_ok bs e bs' : block_ok bs → answer bs e bs' → block_ok bs' ∧ keeps bs bs'.
Proof.
  intros Hok Ha. destruct Ha as [bs bs' a x Hr|bs bs' a i k v Hr|bs bs' h c Hr Hs|bs bs' c x Hr].
  - split; [by eapply block_ok_read_account|]. by eapply read_account_keeps.
  - split; [by eapply block_ok_read_storage|]. by eapply read_storage_keeps.
  - destruct (read_code_inv _ _ _ _ (bo_code _ Hok) Hr) as (_ & vm' & -> & ?).
    split; [by apply block_ok_set_vm|]. apply set_vm_keeps.
  - destruct (insert_code_inv _ _ _ _ _ (bo_code _ Hok) (Hcodeof c) Hr) as (_ & vm' & -> & ? & _).
    split; [by apply block_ok_set_vm|]. apply set_vm_keeps.
Qed.

(** The next answer comes from a block state the environment has reached. *)
Lemma answered_cons bs e o :
  block_ok bs → answered bs (e :: o) →
  ∃ bs1 bs2, keeps bs bs1 ∧ block_ok bs1 ∧ answer bs1 e bs2 ∧ answered bs2 o.
Proof.
  remember (e :: o) as l eqn:El. intros Hok Ha. revert El Hok.
  induction Ha as [bs Hk|bs bs' o' Hk Hok' Ha IH|bs bs' e' o' Hans Ha _]; intros El Hok.
  - done.
  - destruct (IH El Hok') as (b1 & b2 & Hk1 & ? & ? & ?). exists b1, b2.
    split; [by etrans|]. done.
  - injection El as -> ->. by exists bs, bs'.
Qed.

Lemma answered_keeps bs o : block_ok bs → answered bs o → keeps bs B.
Proof.
  intros Hok Ha. revert Hok.
  induction Ha as [bs Hk|bs bs' o' Hk Hok' Ha IH|bs bs' e' o' Hans Ha IH]; intros Hok.
  - done.
  - etrans; [done|]. by apply IH.
  - destruct (answer_ok _ _ _ Hok Hans) as [Hok' Hk].
    etrans; [done|]. by apply IH.
Qed.

(** ** The two runs side by side *)

(** What the accounts a transaction holds have to do with the original
    ones: created by the transaction, created where there was none, or the
    same incarnation. *)
Definition acc_ok (original acc : option Account) : Prop :=
  match acc with
  | None => original = None
  | Some x =>
      incarnation x = own ∨
      match original with None => True | Some y => incarnation y = incarnation x end
  end.
Definition fact (st : State) (a : Z) (acc : option Account) : Prop :=
  ∃ os, original_ st !! a = Some os ∧ acc_ok (os_account os) acc.

Record inc_ok (st : State) : Prop := {
  io_own : incarnation_ st = own ∧ relaxed_validation_ st = false;
  io_stack a stack v x :
    current_ st !! a = Some stack → (v, x) ∈ stack → fact st a (account_ x)
}.

(** Every account the transaction read is loaded, and if its incarnation
    is alive at the merge, it still is. *)
Definition seen (st : State) (bs : BlockState VC) : Prop :=
  ∀ a os, original_ st !! a = Some os →
    is_Some (bs_state bs !! a) ∧
    ∀ acc, os_account os = Some acc → lives B a (incarnation acc) → lives bs a (incarnation acc).

(** The concurrent side: the state and the remaining record. *)
Definition Rel1 (st : State) (o : list event) : Prop :=
  inc_ok st ∧ ∃ bs, block_ok bs ∧ answered bs o ∧ seen st bs.

(** The sequential side: the block state differs from [B] by loads only. *)
Record Rel2 (st : State) (Bc : BlockState VC) : Prop := {
  r2_agrees : agrees st Bc;
  r2_view : same_view db_ B Bc;
  r2_code : code_ok Bc;
  r2_codes : bs_code Bc = bs_code B;
  (* a slot with a value that [B] has not loaded was read by the transaction *)
  r2_slots a d k fv : bs_state Bc !! a = Some d → sd_storage d !! k = Some fv → fv.2 ≠ 0 →
    (∃ dB, bs_state B !! a = Some dB ∧ is_Some (sd_storage dB !! k)) ∨
    (∃ os, original_ st !! a = Some os ∧ is_Some (os_storage os !! k));
  r2_removed a d : bs_state Bc !! a = Some d → (sd_account d).2 = None → sd_storage d = ∅;
  r2_origin a d : bs_state Bc !! a = Some d → (sd_account d).1 = db_read_account db_ a
}.
(** The value of a slot loaded on both sides. *)
Lemma same_slot bs bs' a d d' k fv acc :
  same_view db_ bs bs' → bs_state bs !! a = Some d → bs_state bs' !! a = Some d' →
  (sd_account d').2 = Some acc → sd_storage d' !! k = Some fv →
  (sd_account d).2 = Some acc ∧ (∀ fv0, sd_storage d !! k = Some fv0 → fv0.2 = fv.2).
Proof.
  intros [Hv Hs] Hd Hd' Hacc Hfv. specialize (Hv a). unfold account_view in Hv. rewrite Hd, Hd', Hacc in Hv.
  split; [done|]. intros [f0 v0] Hfv0. specialize (Hs a (incarnation acc) k). unfold storage_view in Hs.
  rewrite Hd, Hd' in Hs. simpl in Hs. unfold storage_in_deltas in Hs. rewrite Hv, Hacc in Hs.
  rewrite !decide_True in Hs by done. rewrite Hfv0, Hfv in Hs. by destruct fv.
Qed.
(** What [B] holds of a slot that is loaded in [Bc] and was not read. *)
Lemma r2_held st Bc a d dB k fv : Rel2 st Bc → bs_state Bc !! a = Some d → bs_state B !! a = Some dB →
  sd_storage d !! k = Some fv → (∀ os, original_ st !! a = Some os → os_storage os !! k = None) →
  held_slot (sd_storage dB) k = fv.2.
Proof.
  intros Hr Hd HdB Hfv Hos. destruct ((sd_account d).2) as [acc|] eqn:Ea.
  2: { rewrite (r2_removed _ _ Hr _ _ Hd Ea), lookup_empty in Hfv. done. }
  destruct (same_slot _ _ _ _ _ _ _ _ (r2_view _ _ Hr) HdB Hd Ea Hfv) as [_ Hval]. unfold held_slot.
  destruct (sd_storage dB !! k) as [fv0|] eqn:E0; [simpl; by apply Hval|]. simpl.
  destruct (decide (fv.2 = 0)) as [|Hnz]; [done|].
  destruct (r2_slots _ _ Hr _ _ _ _ Hd Hfv Hnz) as [(dB' & HdB' & [? ?])|(os & Ho & [? Hk])].
  - simplify_eq.
  - rewrite (Hos _ Ho) in Hk. done.
Qed.
Lemma r2_stored st Bc h : Rel2 st Bc → stored Bc h = stored B h.
Proof. intros Hr. unfold stored. by rewrite (r2_codes _ _ Hr). Qed.
Lemma r2_loaded st Bc a : Rel2 st Bc → is_Some (original_ st !! a) → is_Some (bs_state Bc !! a).
Proof. intros Hr [os Hos]. destruct (r2_agrees _ _ Hr _ _ Hos) as (d & Hd & _). eauto. Qed.

(** Originals are only added to. *)
Definition grows (st st' : State) : Prop :=
  ∀ a os, original_ st !! a = Some os →
    ∃ os', original_ st' !! a = Some os' ∧ os_account os' = os_account os ∧
      os_storage os ⊆ os_storage os'.

#[global] Instance grows_preorder : PreOrder grows.
Proof.
  split.
  - intros st a os Hos. eauto.
  - intros s1 s2 s3 H12 H23 a os Hos. destruct (H12 _ _ Hos) as (os2 & Hos2 & E2 & S2).
    destruct (H23 _ _ Hos2) as (os3 & Hos3 & E3 & S3). exists os3. split; [done|].
    split; [congruence|]. by etrans.
Qed.

Lemma agrees_grows st st' : grows st st' → agrees st' B → agrees st B.
Proof.
  intros Hg Hag a os Hos. destruct (Hg _ _ Hos) as (os' & Hos' & Ea & Hs).
  destruct (Hag _ _ Hos') as (d & Hd & Ed & Hst). exists d. split; [done|]. split; [congruence|].
  intros k v Hk. apply Hst. by eapply lookup_weaken.
Qed.

Lemma fact_grows st st' a acc : grows st st' → fact st a acc → fact st' a acc.
Proof.
  intros Hg (os & Hos & Hok). destruct (Hg _ _ Hos) as (os' & Hos' & Ea & _).
  exists os'. split; [done|]. by rewrite Ea.
Qed.

Definition Replays {A} (P : State → Prop) (m1 : M W1 A) (m2 : M W2 A) (Q : A → State → Prop) :=
  ∀ st o a st' o', P st → Rel1 st o → m1 (st, o) = Ok (a, (st', o')) →
    grows st st' ∧ Rel1 st' o' ∧ Q a st' ∧
    (agrees st' B → ∀ Bc, Rel2 st Bc → ∃ Bc', m2 (st, Bc) = Ok (a, (st', Bc')) ∧ Rel2 st' Bc').

Definition stable (P : State → Prop) : Prop := ∀ st st', grows st st' → P st → P st'.

Lemma rep_conseq {A} (P P' : State → Prop) (m1 : M W1 A) m2 (Q Q' : A → State → Prop) :
  (∀ st, P' st → P st) → (∀ a st, Q a st → Q' a st) → Replays P m1 m2 Q → Replays P' m1 m2 Q'.
Proof.
  intros HP HQ Hm st o a st' o' Hp Hr E.
  destruct (Hm _ _ _ _ _ (HP _ Hp) Hr E) as (? & ? & ? & ?). eauto.
Qed.

Lemma rep_bind {A C} P (m1 : M W1 A) m2 Q (k1 : A → M W1 C) k2 R :
  stable P → Replays P m1 m2 Q →
  (∀ x, Replays (λ st, P st ∧ Q x st) (k1 x) (k2 x) R) →
  Replays P (m1 ≫= k1) (m2 ≫= k2) R.
Proof.
  intros Hst Hm Hk st o c st'' o'' Hp Hr E. apply bind_Ok in E as (a & [st' o'] & E1 & E2).
  destruct (Hm _ _ _ _ _ Hp Hr E1) as (Hg1 & Hr1 & Hq & Hrep1).
  destruct (Hk a _ _ _ _ _ (conj (Hst _ _ Hg1 Hp) Hq) Hr1 E2) as (Hg2 & Hr2 & Hc & Hrep2).
  split; [by etrans|]. split; [done|]. split; [done|]. intros Hag Bc Hr2c.
  destruct (Hrep1 (agrees_grows _ _ Hg2 Hag) Bc Hr2c) as (Bc1 & Hm2 & HBc1).
  destruct (Hrep2 Hag Bc1 HBc1) as (Bc2 & Hk2 & HBc2).
  exists Bc2. split; [|done]. by rewrite (bind_Ok_eq _ _ _ _ _ Hm2).
Qed.

(** Computations on the state alone. *)
Lemma rep_state {A} P (m1 : M W1 A) (m2 : M W2 A) (Q : A → State → Prop) :
  (∀ st o a st' o', P st → inc_ok st → m1 (st, o) = Ok (a, (st', o')) →
     o' = o ∧ inc_ok st' ∧ Q a st' ∧
     (∀ b, (original_ st !! b = None ∧ original_ st' !! b = None) ∨
           ∃ os os', original_ st !! b = Some os ∧ original_ st' !! b = Some os' ∧
             os_account os' = os_account os ∧ os_storage os' = os_storage os) ∧
     ∀ Bc, m2 (st, Bc) = Ok (a, (st', Bc))) →
  Replays P m1 m2 Q.
Proof.
  intros Hm st o a st' o' Hp [Hinc (bs & Hok & Hans & Hseen)] E.
  destruct (Hm _ _ _ _ _ Hp Hinc E) as (-> & Hinc' & Hq & Horig & Hm2).
  split; [|split; [|split; [done|]]].
  - intros b os Hos. destruct (Horig b) as [[? _]|(os1 & os2 & ? & ? & Ea & Es)]; [congruence|].
    simplify_eq. exists os2. rewrite Es. done.
  - split; [done|]. exists bs. split; [done|]. split; [done|]. intros b os' Hos'.
    destruct (Horig b) as [[_ ?]|(os1 & os2 & Hos1 & ? & Ea & _)]; [congruence|]. simplify_eq.
    rewrite Ea. by apply Hseen.
  - intros _ Bc [Ha Hv Hc Hs Hsl Hrm Hor]. exists Bc. split; [done|]. split; [|done..| |done|done].
    + intros b os' Hos'. destruct (Horig b) as [[_ ?]|(os1 & os2 & Hos1 & ? & Ea & Es)]; [congruence|].
      simplify_eq. rewrite Ea, Es. by apply Ha.
    + intros b d k fv Hd Hk Hnz. destruct (Hsl _ _ _ _ Hd Hk Hnz) as [?|(os & Hos & Hsome)]; [by left|right].
      destruct (Horig b) as [[? _]|(os1 & os2 & ? & ? & _ & Es)]; [congruence|]. simplify_eq.
      exists os2. by rewrite Es.
Qed.

Lemma orig_same st : ∀ b : Z,
  (original_ st !! b = None ∧ original_ st !! b = None) ∨
  ∃ os os', original_ st !! b = Some os ∧ original_ st !! b = Some os' ∧
    os_account os' = os_account os ∧ os_storage os' = os_storage os.
Proof. intros b. destruct (original_ st !! b); [right; eauto 7|by left]. Qed.

(** Facts that hold from here on, and programs under them. *)
Definition facts (l : list (Z * option Account)) (st : State) : Prop :=
  Forall (λ p, fact st p.1 p.2) l.
Lemma facts_stable l : stable (facts l).
Proof. intros st st' Hg Hl. eapply Forall_impl; [|done]. intros [a acc]. by apply fact_grows. Qed.

Definition Rep {A} (l : list (Z * option Account)) (m1 : M W1 A) (m2 : M W2 A) : Prop :=
  Replays (facts l) m1 m2 (λ _ _, True).

Lemma Rep_bind {A C} l (m1 : M W1 A) m2 (k1 : A → M W1 C) k2 :
  Rep l m1 m2 → (∀ x, Rep l (k1 x) (k2 x)) → Rep l (m1 ≫= k1) (m2 ≫= k2).
Proof.
  intros Hm Hk. eapply rep_bind; [apply facts_stable|done|]. intros x.
  eapply rep_conseq; [|done|apply Hk]. by intros st [? _].
Qed.
Lemma Rep_weaken {A} l l' (m1 : M W1 A) m2 : incl l l' → Rep l m1 m2 → Rep l' m1 m2.
Proof.
  intros Hl. apply rep_conseq; [|done]. intros st. unfold facts. rewrite !Forall_forall. auto.
Qed.
Lemma Rep_nil {A} l (m1 : M W1 A) m2 : Rep [] m1 m2 → Rep l m1 m2.
Proof. apply Rep_weaken. intros x []. Qed.

Lemma Rep_ret {A} l (x : A) : Rep l (mret x) (mret x).
Proof.
  apply rep_state. intros st o a st' o' _ Hinc E. minv. simplify_eq.
  split; [done|]. split; [done|]. split; [done|]. split; [apply orig_same|done].
Qed.
Lemma Rep_massert l b : Rep l (massert b) (massert b).
Proof.
  apply rep_state. intros st o a st' o' _ Hinc E. minv. simplify_eq.
  split; [done|]. split; [done|]. split; [done|]. split; [apply orig_same|].
  intros Bc. by apply massert_Ok.
Qed.
Lemma Rep_massert_throw l b s : Rep l (massert_throw b s) (massert_throw b s).
Proof.
  apply rep_state. intros st o a st' o' _ Hinc E. minv. simplify_eq.
  split; [done|]. split; [done|]. split; [done|]. split; [apply orig_same|].
  intros Bc. by apply massert_throw_Ok.
Qed.
Lemma Rep_mvalue {A} l (x : option A) : Rep l (mvalue x) (mvalue x).
Proof.
  apply rep_state. intros st o a st' o' _ Hinc E. minv. simplify_eq.
  split; [done|]. split; [done|]. split; [done|]. split; [apply orig_same|done].
Qed.
Lemma Rep_lift_outcome {A} l (x : outcome A) : Rep l (lift_outcome x) (lift_outcome x).
Proof.
  apply rep_state. intros st o a st' o' _ Hinc E. sinv. simplify_eq.
  split; [done|]. split; [done|]. split; [done|]. split; [apply orig_same|done].
Qed.
Lemma rep_sgets {A} P (f : State → A) : Replays P (sgets f) (sgets f) (λ x st, x = f st ∧ P st).
Proof.
  apply rep_state. intros st o a st' o' Hp Hinc E. sinv. simplify_eq. simpl.
  split; [done|]. split; [done|]. split; [done|]. split; [apply orig_same|done].
Qed.
Lemma Rep_sgets {A} l (f : State → A) : Rep l (sgets f) (sgets f).
Proof. eapply rep_conseq; [done| |apply rep_sgets]. done. Qed.
Lemma Rep_mfor {X} l (xs : list X) f1 f2 :
  (∀ x, Rep l (f1 x) (f2 x)) → Rep l (mfor xs f1) (mfor xs f2).
Proof.
  intros Hf. induction xs as [|x xs IH]; simpl; [apply Rep_ret|]. by apply Rep_bind.
Qed.

(** A change of the state that leaves [original_] and [current_] alone. *)
Lemma Rep_smodify_other l f :
  (∀ st, original_ (f st) = original_ st ∧ current_ (f st) = current_ st ∧
         incarnation_ (f st) = incarnation_ st ∧
         relaxed_validation_ (f st) = relaxed_validation_ st) →
  Rep l (smodify f) (smodify f).
Proof.
  intros Hf. apply rep_state. intros st o a st' o' _ Hinc E. sinv. simplify_eq. simpl.
  destruct (Hf st) as (Eo & Ec & Ei & Er). split; [done|]. split.
  - destruct Hinc as [Hown Hst]. split; [by rewrite Ei, Er|]. intros b stack v x. rewrite Ec.
    intros Hb Hx. destruct (Hst _ _ _ _ Hb Hx) as (os & ? & ?). exists os. by rewrite Eo.
  - split; [done|]. split; [rewrite Eo; apply orig_same|]. done.
Qed.

(** Flags of an original account state. *)
Lemma Rep_write_original l a f :
  (∀ os, os_state (f os) = os_state os) → Rep l (write_original a f) (write_original a f).
Proof.
  intros Hf. apply rep_state. intros st o r st' o' _ Hinc E. unfold write_original in E. sinv.
  simplify_eq. simpl.
  assert (Horig : ∀ b, (original_ st !! b = None ∧ alter f a (original_ st) !! b = None) ∨
     ∃ os os', original_ st !! b = Some os ∧ alter f a (original_ st) !! b = Some os' ∧
       os_state os' = os_state os).
  { intros b. destruct (decide (a = b)) as [<-|].
    - rewrite lookup_alter_eq. destruct (original_ st !! a) as [os|]; [right|by left]. simpl. eauto.
    - rewrite lookup_alter_ne by done. destruct (original_ st !! b); [right; eauto|by left]. }
  split; [done|]. split.
  - destruct Hinc as [Hown Hst]. split; [done|]. intros b stack v x Hb Hx.
    destruct (Hst _ _ _ _ Hb Hx) as (os & Hos & ?).
    destruct (Horig b) as [[? _]|(os1 & os' & ? & ? & Es)]; [congruence|]. simplify_eq.
    exists os'. split; [done|]. by rewrite Es.
  - split; [done|]. split.
    + intros b. destruct (Horig b) as [?|(os & os' & ? & ? & Es)]; [by left|right].
      exists os, os'. rewrite Es. done.
    + done.
Qed.

(** ** The reads *)

Lemma lift_record_account a st o x st' o' :
  lift_block (ba_read_account a) (st, o) = Ok (x, (st', o')) →
  st' = st ∧ o = EvAccount a x :: o'.
Proof.
  unfold lift_block; simpl. destruct o as [|[] o]; try done. case_decide; [|done]. intros. by simplify_eq.
Qed.
Lemma lift_record_storage a i k st o v st' o' :
  lift_block (ba_read_storage a i k) (st, o) = Ok (v, (st', o')) →
  st' = st ∧ o = EvStorage a i k v :: o'.
Proof.
  unfold lift_block; simpl. destruct o as [|[] o]; try done. case_decide; [|done]. intros. by simplify_eq.
Qed.
Lemma lift_record_code h st o c st' o' :
  lift_block (ba_read_code h) (st, o) = Ok (c, (st', o')) →
  st' = st ∧ o = EvCode h c :: o'.
Proof.
  unfold lift_block; simpl. destruct o as [|[] o]; try done. case_decide; [|done]. intros. by simplify_eq.
Qed.
Lemma lift_record_insert h c st o x st' o' :
  lift_block (ba_insert_code h c) (st, o) = Ok (x, (st', o')) →
  st' = st ∧ o = EvInsert h c x :: o'.
Proof.
  unfold lift_block; simpl. destruct o as [|[] o]; try done. case_decide; [|done]. intros. by simplify_eq.
Qed.

(** A real read beside the state. *)
Lemma lift_real {A} (m : M (BlockState VC) A) st Bc a Bc' :
  m Bc = Ok (a, Bc') → lift_block m (st, Bc) = Ok (a, (st, Bc')).
Proof. unfold lift_block; simpl. by intros ->. Qed.

(** The next recorded answer, with everything known about it. *)
Lemma Rel1_next st e o :
  Rel1 st (e :: o) →
  ∃ bs1 bs2, block_ok bs1 ∧ seen st bs1 ∧ answer bs1 e bs2 ∧ keeps bs1 bs2 ∧ block_ok bs2 ∧
    answered bs2 o ∧ keeps bs2 B ∧ seen st bs2.
Proof.
  intros [Hinc (bs & Hok & Hans & Hseen)].
  destruct (answered_cons _ _ _ Hok Hans) as (bs1 & bs2 & Hk & Hok1 & Ha & Ho).
  destruct (answer_ok _ _ _ Hok1 Ha) as [Hok2 Hk2].
  assert (Hs : ∀ b b', keeps b b' → seen st b → seen st b').
  { intros b b' [HL HV _] Hb a os Hos. destruct (Hb _ _ Hos). split; auto. }
  exists bs1, bs2. do 6 (split; [eauto|]). split; [by eapply answered_keeps|]. eauto.
Qed.

(** Loading the account into the originals. *)
Lemma Rel2_load st Bc a x Bc' :
  Rel2 st Bc → original_ st !! a = None → read_account db_ a Bc = Ok (x, Bc') →
  Rel2 (st_set_original (<[a := make_original x]> (original_ st)) st) Bc'.
Proof.
  intros Hr2 Hos Hread.
  destruct (read_account_spec db_ a Bc) as (Bc2 & Hread2 & Hview & _).
  rewrite Hread in Hread2. injection Hread2 as _ <-.
  destruct Hr2 as [Hl Hv Hc Hs Hsl Hrm Hor].
  destruct (read_account_keeps _ _ _ _ Hread) as (_ & _ & d' & Hd' & Hdx').
  assert (Hother : ∀ b d, a ≠ b → bs_state Bc !! b = Some d ↔ bs_state Bc' !! b = Some d).
  { intros b d0 Hne. unfold read_account in Hread.
    destruct (bs_state Bc !! a); simplify_eq; [done|]. simpl. by rewrite lookup_insert_ne. }
  split; simpl.
  -- intros b os Hb. simpl in Hb. destruct (decide (a = b)) as [<-|].
     ++ rewrite lookup_insert_eq in Hb. injection Hb as <-. exists d'. split; [done|].
        split; [done|]. intros k v. simpl. by rewrite lookup_empty.
     ++ rewrite lookup_insert_ne in Hb by done. destruct (Hl _ _ Hb) as (d0 & Hd0 & ?).
        exists d0. split; [by apply Hother|done].
  -- by etrans.
  -- unfold read_account in Hread. destruct (bs_state Bc !! a); simplify_eq; done.
  -- rewrite <- Hs. unfold read_account in Hread.
     destruct (bs_state Bc !! a); simplify_eq; done.
  -- intros b d0 k fv Hd0 Hfv Hnz. destruct (decide (a = b)) as [<-|Hne].
     ++ unfold read_account in Hread. destruct (bs_state Bc !! a) as [d1|] eqn:Ha1.
        ** simplify_eq. destruct (Hsl a _ _ _ ltac:(eassumption) Hfv Hnz) as [?|(os & Hos1 & _)]; [by left|congruence].
        ** injection Hread as _ <-. simpl in Hd0. rewrite lookup_insert_eq in Hd0. injection Hd0 as <-. simpl in Hfv. by rewrite lookup_empty in Hfv.
     ++ apply Hother in Hd0; [|done]. rewrite lookup_insert_ne by done. by apply (Hsl b d0 k fv).
  -- intros b d0 Hd0. destruct (read_account_inv _ _ _ _ Hread b d0 Hd0) as [Hb|[_ ->]]; [by eapply Hrm|done].
  -- intros b d0 Hd0. destruct (read_account_inv _ _ _ _ Hread b d0 Hd0) as [Hb|[_ ->]]; [by eapply Hor|done].
Qed.

Lemma rep_original_account_state P a :
  stable P →
  Replays P (original_account_state a) (original_account_state a)
    (λ os st, original_ st !! a = Some os ∧ P st).
Proof.
  intros HP st o os st' o' Hp Hrel E. unfold original_account_state in E |- *.
  rewrite run_sgets in E. simpl in E. destruct (original_ st !! a) as [os0|] eqn:Hos.
  - minv. simplify_eq. split; [done|]. split; [done|]. split; [done|]. intros _ Bc Hr2.
    exists Bc. rewrite run_sgets. simpl. by rewrite Hos.
  - apply bind_Ok in E as (x & [st1 o1] & E1 & E). apply lift_record_account in E1 as [-> ->].
    sinv. simplify_eq. simpl.
    destruct (Rel1_next _ _ _ Hrel) as (bs1 & bs2 & Hok1 & _ & Ha & _ & Hok2 & Ho & Hk & Hseen).
    inversion Ha as [? ? ? ? Hr| | |]; subst.
    destruct (read_account_keeps _ _ _ _ Hr) as (_ & _ & d & Hd & Hdx).
    assert (Hg : grows st (st_set_original (<[a:=make_original x]> (original_ st)) st)).
    { intros b os Hb. exists os. simpl. rewrite lookup_insert_ne by congruence. done. }
    split; [done|]. destruct Hrel as [[Hown Hst] _]. split; [|split].
    + split.
      * split; [done|]. intros b stack v y Hb Hy. eapply fact_grows; [done|by eapply Hst].
      * exists bs2. split; [done|]. split; [done|]. intros b os. simpl.
        destruct (decide (a = b)) as [<-|].
        -- rewrite lookup_insert_eq. intros [= <-]. split; [eauto|]. simpl.
           intros acc -> _. by exists d, acc.
        -- rewrite lookup_insert_ne by done. apply Hseen.
    + simpl. rewrite lookup_insert_eq. split; [done|]. by eapply HP.
    + intros Hag Bc Hr2.
      destruct (Hag a (make_original x)) as (dB & HdB & EdB & _); [simpl; by rewrite lookup_insert_eq|].
      destruct (read_account_spec db_ a Bc) as (Bc' & Hread & Hview & Hload).
      assert (account_view db_ Bc a = x) as Ex.
      { rewrite <- (proj1 (r2_view _ _ Hr2)). unfold account_view. rewrite HdB. by rewrite <- EdB. }
      rewrite Ex in Hread. exists Bc'. split.
      * rewrite run_sgets. simpl. rewrite Hos. by rewrite (bind_Ok_eq _ _ _ _ _ (lift_real _ _ _ _ _ Hread)).
      * by eapply Rel2_load.
Qed.

Lemma Rep_original_account_state l a : Rep l (original_account_state a) (original_account_state a).
Proof.
  eapply rep_conseq; [done| |apply rep_original_account_state, facts_stable]. done.
Qed.

(** The storage read: the value recorded is the one [B] shows. *)
Lemma fetched_value st os a i k v o acc0 :
  Rel1 st (EvStorage a i k v :: o) →
  original_ st !! a = Some os → (acc0 = os_account os) →
  acc_ok acc0 (Some (mkAccount 0 0 0 i)) →
  ∀ d, bs_state B !! a = Some d → acc0 = (sd_account d).2 →
    held_slot (sd_storage d) k = v → storage_view db_ B a i k = v.
Proof.
  intros Hrel Hos -> Hacc dB HdB EdB.
  destruct (Rel1_next _ _ _ Hrel) as (bs1 & bs2 & Hok1 & Hseen1 & Ha & Hk12 & Hok2 & Ho & Hk & Hseen).
  inversion Ha as [|? ? ? ? ? ? Hr| |]; subst.
  destruct (read_storage_inv _ _ _ _ _ _ Hr) as (d1 & Hd1 & Ev & Hcase).
  unfold storage_view at 1. rewrite HdB. simpl. unfold storage_in_deltas, held_slot in *. simpl in *.
  destruct ((sd_account dB).2) as [accB|] eqn:EB.
  2: { (* removed at the merge *)
    by rewrite (bo_removed _ HB _ _ HdB EB), lookup_empty. }
  rewrite EdB in Hacc.
  assert (HaccB : incarnation accB ≠ own).
  { apply (bo_own _ HB a). unfold account_view. by rewrite HdB. }
  destruct Hacc as [Hi|Hi]; simpl in Hi.
  - (* created by this transaction: nobody else has its incarnation *)
    intros _. rewrite decide_False by congruence. rewrite Ev. unfold storage_view. rewrite Hd1. simpl.
    unfold storage_in_deltas. destruct ((sd_account d1).2) as [acc1|] eqn:E1; [|done].
    rewrite decide_False; [done|]. intros ->. eapply (bo_own _ Hok1 a acc1); [|done].
    unfold account_view. by rewrite Hd1.
  - (* alive since it was read, so the slot is still loaded at the merge *)
    rewrite decide_True by done. subst i.
    assert (HlB : lives B a (incarnation accB)) by (by exists dB, accB).
    assert (Hl1 : lives bs1 a (incarnation accB)).
    { destruct (Hseen1 _ _ Hos) as [_ Hlive]. by apply Hlive. }
    destruct Hl1 as (d1' & acc1 & Hd1' & Eacc1 & Ei1). simplify_eq.
    assert (∃ d2, bs_state bs2 !! a = Some d2 ∧ k ∈ dom (sd_storage d2)) as (d2 & Hd2 & Hk2).
    { destruct Hcase as [[-> Hf]|(acc' & _ & _ & ->)].
      - destruct (Hf _ Eacc1 Ei1) as [f Hf']. exists d1. split; [done|]. by apply elem_of_dom_2 in Hf'.
      - simpl. rewrite lookup_insert_eq. eexists. split; [done|]. simpl. set_solver. }
    assert (Hl2 : lives bs2 a (incarnation accB)).
    { apply (ke_lives _ _ Hk12); [done|]. by exists d1, acc1. }
    pose proof (ke_slots _ _ Hk _ _ _ _ HlB Hl2 Hd2 HdB) as Hsub.
    assert (k ∈ dom (sd_storage dB)) as [[f y] Hy]%elem_of_dom by set_solver.
    by rewrite Hy.
Qed.

Definition fetchable (a : Z) (i : Incarnation) (k : Z) (st : State) : Prop :=
  ∃ os, original_ st !! a = Some os ∧ os_storage os !! k = None ∧
    acc_ok (os_account os) (Some (mkAccount 0 0 0 i)).

(** The delta of the address after a slot that was not recorded is read. *)
Lemma fetched_delta st os a i k x Bc Bc' d :
  Rel2 st Bc → original_ st !! a = Some os → os_storage os !! k = None →
  read_storage db_ secondary_db_ a i k Bc = Ok (x, Bc') → bs_state Bc !! a = Some d →
  ((Bc' = Bc ∧ (∀ acc, (sd_account d).2 = Some acc → incarnation acc = i → ∃ f, sd_storage d !! k = Some (f, x))) ∨
   (∃ acc, (sd_account d).2 = Some acc ∧ incarnation acc = i ∧
      Bc' = bs_set_state (<[a := mkStateDelta (sd_account d) (<[k := (x, x)]> (sd_storage d))]> (bs_state Bc)) Bc)) →
  is_Some (bs_state B !! a) →
  (∀ dB, bs_state B !! a = Some dB → held_slot (sd_storage dB) k = x) →
  ∃ d', bs_state Bc' !! a = Some d' ∧ (sd_account d').2 = (sd_account d).2 ∧
    held_slot (sd_storage d') k = x ∧
    (∀ k', k ≠ k' → sd_storage d' !! k' = sd_storage d !! k') ∧
    (∀ b, a ≠ b → bs_state Bc' !! b = bs_state Bc !! b).
Proof.
  intros Hr2 Hos Hk Hread Hd Hcase [dB HdB] HB2. destruct Hcase as [[-> Hf]|(acc & Hacc & Hi & ->)].
  - exists d. split; [done|]. split; [done|]. split; [|done].
    unfold held_slot. destruct (sd_storage d !! k) as [fv|] eqn:Ek; simpl.
    + rewrite <- (HB2 _ HdB). symmetry. eapply r2_held; [done..|]. intros os0 Hos0. congruence.
    + unfold read_storage in Hread. rewrite Hd in Hread. simpl in Hread.
      unfold storage_in_deltas in Hread. destruct ((sd_account d).2) as [acc|] eqn:Ea; [|by simplify_eq].
      destruct (decide (i = incarnation acc)) as [->|]; [|by simplify_eq].
      destruct (Hf acc eq_refl eq_refl) as [? ?]. done.
  - simpl. rewrite lookup_insert_eq. eexists. split; [done|]. split; [done|]. split; [|split].
    + unfold held_slot. simpl. by rewrite lookup_insert_eq.
    + intros k' Hne. simpl. by rewrite lookup_insert_ne.
    + intros b Hne. by rewrite lookup_insert_ne.
Qed.

Lemma rep_fetch P a i k :
  stable P →
  Replays (λ st, P st ∧ fetchable a i k st)
    (fetch_original_storage a i k) (fetch_original_storage a i k) (λ _ st, P st).
Proof.
  intros HP st o v st' o' [Hp (os & Hos & Hk & Hacc)] Hrel E.
  unfold fetch_original_storage in E |- *.
  apply bind_Ok in E as (x & [st1 o1] & E1 & E). apply lift_record_storage in E1 as [-> ->].
  unfold write_original in E. sinv. simplify_eq. simpl.
  set (f := λ os, os_set_state (as_set_storage (<[k:=x]> (os_storage os)) (os_state os)) os).
  set (st' := st_set_original (alter f a (original_ st)) st).
  assert (Hos' : original_ st' !! a = Some (f os)) by (simpl; by rewrite lookup_alter_eq, Hos).
  assert (Hne : ∀ b, a ≠ b → original_ st' !! b = original_ st !! b)
    by (intros b ?; simpl; by rewrite lookup_alter_ne).
  assert (Hg : grows st st').
  { intros b osb Hb. destruct (decide (a = b)) as [<-|].
    - simplify_eq. exists (f os). split; [done|]. split; [done|]. by apply insert_subseteq.
    - exists osb. rewrite Hne by done. done. }
  assert (Hback : ∀ b osb', original_ st' !! b = Some osb' →
            ∃ osb, original_ st !! b = Some osb ∧ os_account osb' = os_account osb).
  { intros b osb' Hb. destruct (decide (a = b)) as [<-|].
    - rewrite Hos' in Hb. injection Hb as <-. by exists os.
    - rewrite Hne in Hb by done. eauto. }
  destruct (Rel1_next _ _ _ Hrel) as (bs1 & bs2 & _ & _ & _ & _ & Hok2 & Ho & _ & Hseen).
  split; [done|]. split; [|split; [by eapply HP|]].
  - destruct Hrel as [[Hown Hst] _]. split.
    + split; [done|]. intros b stack u y Hb Hy. eapply fact_grows; [done|by eapply Hst].
    + exists bs2. split; [done|]. split; [done|]. intros b osb' Hb.
      destruct (Hback _ _ Hb) as (osb & Hosb & ->). by apply Hseen.
  - intros Hag Bc Hr2. destruct (Hag _ _ Hos') as (dB & HdB & EdB & Hslots). simpl in EdB.
    assert (Hv : storage_view db_ B a i k = x).
    { eapply (fetched_value st os a i k x _ (os_account os)); [exact Hrel|done|done|exact Hacc|done|done|].
      apply Hslots. simpl. by rewrite lookup_insert_eq. }
    destruct (read_storage_spec db_ secondary_db_ a i k Bc) as (Bc' & Hread & Hview).
    { eapply r2_loaded; [done|]. eauto. }
    { intros db2 Hdb2. by apply Hsecondary. }
    rewrite <- (proj2 (r2_view _ _ Hr2)), Hv in Hread.
    exists Bc'. split.
    + by rewrite (bind_Ok_eq _ _ _ _ _ (lift_real _ _ _ _ _ Hread)).
    + destruct Hr2 as [Hl Hvw Hc Hs Hsl Hrm Hor].
      destruct (read_storage_inv _ _ _ _ _ _ Hread) as (d & Hd & _ & Hcase).
      assert (Hparts : bs_code Bc' = bs_code Bc ∧ bs_vm Bc' = bs_vm Bc)
        by (destruct Hcase as [[-> _]|(? & _ & _ & ->)]; done).
      destruct Hparts as [Ec Evm].
      destruct (fetched_delta st os a i k x Bc Bc' d) as (d' & Hd' & Ed' & Hk' & Hrest & Hother);
        [by split|done|done|done|done|exact Hcase|by eauto|..].
      { intros dB0 HdB0. assert (dB0 = dB) as -> by congruence.
        apply Hslots; simpl; by rewrite lookup_insert_eq. }
      split.
      * intros b osb' Hb. destruct (decide (a = b)) as [<-|Hab].
        -- rewrite Hos' in Hb. injection Hb as <-. destruct (Hl _ _ Hos) as (d0 & Hd0 & Ed0 & Hsl0).
           simplify_eq. exists d'. split; [done|]. split; [simpl; congruence|].
           intros k' v'. simpl. destruct (decide (k = k')) as [<-|Hkk].
           ++ rewrite lookup_insert_eq. intros [= <-]. done.
           ++ rewrite lookup_insert_ne by done. intros Hv'. specialize (Hsl0 _ _ Hv').
              unfold held_slot in *. by rewrite Hrest.
        -- rewrite Hne in Hb by done. destruct (Hl _ _ Hb) as (d0 & Hd0 & ?). exists d0.
           split; [by rewrite Hother|done].
      * by etrans.
      * destruct Hc as [Hc1 Hc2]. split; [by rewrite Evm|]. unfold stored. by rewrite Ec.
      * by rewrite Ec.
      * intros b d0 k' fv Hd0 Hfv Hnz. destruct (decide (a = b)) as [<-|Hab].
        -- simplify_eq. destruct (decide (k = k')) as [<-|Hkk].
           ++ right. exists (f os). split; [done|]. simpl. rewrite lookup_insert_eq. eauto.
           ++ rewrite Hrest in Hfv by done. destruct (Hsl _ _ _ _ Hd Hfv Hnz) as [?|(os1 & Hos1 & Hs1)]; [by left|right].
              simplify_eq. exists (f os). split; [done|]. simpl. by rewrite lookup_insert_ne.
        -- rewrite Hother in Hd0 by done. rewrite Hne by done. by apply (Hsl b d0 k' fv).
      * intros b d0 Hd0 Hnone. destruct (decide (a = b)) as [<-|Hab]; [|rewrite Hother in Hd0 by done; by eapply Hrm].
        destruct Hcase as [[-> _]|(acc & Hacc0 & _ & ->)]; [by eapply Hrm|].
        assert (d0 = d') as -> by congruence. rewrite Ed', Hacc0 in Hnone. done.
      * intros b d0 Hd0. destruct (decide (a = b)) as [<-|Hab]; [|rewrite Hother in Hd0 by done; by eapply Hor].
        destruct Hcase as [[-> _]|(acc & Hacc0 & _ & ->)]; [by eapply Hor|].
        simpl in Hd0. rewrite lookup_insert_eq in Hd0. injection Hd0 as <-. simpl. by apply Hor.
Qed.

(** Only the code cache changes. *)
Lemma Rel2_set_vm st vm Bc : Rel2 st Bc → code_ok (bs_set_vm vm Bc) → Rel2 st (bs_set_vm vm Bc).
Proof. intros [Hl Hv Hc Hs Hsl Hrm Hor] Hok. by split. Qed.

Lemma Rel1_skip st e o : Rel1 st (e :: o) → Rel1 st o.
Proof.
  intros Hrel. destruct (Rel1_next _ _ _ Hrel) as (bs1 & bs2 & _ & _ & _ & _ & Hok2 & Ho & _ & Hseen).
  destruct Hrel as [Hinc _]. split; [done|]. by exists bs2.
Qed.

Lemma Rep_block_read_code l h : Rep l (lift_block (ba_read_code h)) (lift_block (ba_read_code h)).
Proof.
  intros st o c st' o' _ Hrel E. apply lift_record_code in E as [-> ->].
  split; [done|]. split; [by eapply Rel1_skip|]. split; [done|]. intros _ Bc Hr2.
  destruct (Rel1_next _ _ _ Hrel) as (bs1 & bs2 & _ & _ & Ha & _).
  inversion Ha as [| |? ? ? ? _ Hstored|]; subst.
  rewrite <- (r2_stored _ _ _ Hr2) in Hstored.
  destruct (read_code_stored _ _ _ (r2_code _ _ Hr2) Hstored) as (vm' & Hread & Hok').
  exists (bs_set_vm vm' Bc). split; [by apply lift_real|]. by apply Rel2_set_vm.
Qed.

Lemma Rep_block_insert_code l c :
  Rep l (lift_block (ba_insert_code (keccak256 c) c)) (lift_block (ba_insert_code (keccak256 c) c)).
Proof.
  intros st o x st' o' _ Hrel E. apply lift_record_insert in E as [-> ->].
  split; [done|]. split; [by eapply Rel1_skip|]. split; [done|]. intros _ Bc Hr2.
  destruct (Rel1_next _ _ _ Hrel) as (bs1 & bs2 & Hok1 & _ & Ha & _).
  inversion Ha as [| | |? ? ? ? Hr Eh]; subst.
  destruct (insert_code_inv _ _ _ _ _ (bo_code _ Hok1) (Hcodeof c) Hr) as (-> & _ & _ & _ & Hlen).
  destruct (insert_code_ok _ _ _ (r2_code _ _ Hr2) (Hcodeof c) Hlen) as (vm' & Hins & Hok').
  exists (bs_set_vm vm' Bc). split; [by apply lift_real|]. by apply Rel2_set_vm.
Qed.

(** ** The writes *)

(** What [current_] has to satisfy after a change of it. *)
Lemma rep_set_current P g (Q : () → State → Prop) :
  (∀ st, P st → inc_ok st → Q () (st_set_current (g st) st) ∧
     ∀ a stack v x, g st !! a = Some stack → (v, x) ∈ stack → fact st a (account_ x)) →
  Replays P (smodify (λ s, st_set_current (g s) s)) (smodify (λ s, st_set_current (g s) s)) Q.
Proof.
  intros Hg. apply rep_state. intros st o r st' o' Hp Hinc E. sinv. simplify_eq. simpl.
  destruct (Hg st Hp Hinc) as [Hq Hst]. split; [done|].
  split; [|split; [done|split; [apply orig_same|done]]].
  destruct Hinc as [Hown _]. split; [done|]. intros a stack v x. simpl. apply Hst.
Qed.

(** A stored account comes from a known one. *)
Definition derives (acc acc' : option Account) : Prop :=
  match acc' with
  | None => acc = None
  | Some x' =>
      incarnation x' = own ∨ match acc with None => True | Some x => incarnation x' = incarnation x end
  end.
Lemma acc_ok_derives o acc acc' : acc_ok o acc → derives acc acc' → acc_ok o acc'.
Proof.
  unfold acc_ok, derives. destruct acc' as [x'|], acc as [x|].
  - intros [?|?] [?|?]; [by left|left; congruence|by left|right]. destruct o; [congruence|done].
  - intros -> _. by right.
  - done.
  - done.
Qed.
Lemma fact_derives st a acc acc' : fact st a acc → derives acc acc' → fact st a acc'.
Proof. intros (os & ? & ?) Hd. exists os. split; [done|]. by eapply acc_ok_derives. Qed.

Lemma rep_write_current l a f acc :
  (a, acc) ∈ l → (∀ x, account_ (f x) = account_ x ∨ derives acc (account_ (f x))) →
  Rep l (write_current a f) (write_current a f).
Proof.
  intros Hin Hf. apply rep_set_current. intros st Hl Hinc. split; [done|].
  assert (Hfact : fact st a acc).
  { unfold facts in Hl. rewrite Forall_forall in Hl. apply (Hl (a, acc)). by apply list_elem_of_In. }
  intros b stack v x. destruct (decide (a = b)) as [<-|].
  - rewrite lookup_alter_eq. destruct (current_ st !! a) as [stk|] eqn:Hs; [|done].
    intros [= <-]. destruct stk as [|[v0 x0] r]; [by intros ?%elem_of_nil|]. simpl.
    intros [[= -> ->]|Hx]%elem_of_cons.
    + destruct (Hf x0) as [->|Hd]; [|by eapply fact_derives].
      eapply io_stack; [done|done|]. left.
    + eapply io_stack; [done|done|]. by right.
  - rewrite lookup_alter_ne by done. by apply io_stack.
Qed.

Lemma Rep_write_account l a acc acc' :
  (a, acc) ∈ l → derives acc acc' → Rep l (write_account a acc') (write_account a acc').
Proof. intros Hin Hd. eapply rep_write_current; [done|]. by right. Qed.

Lemma Rep_write_current_sub l a f acc :
  (a, acc) ∈ l → (∀ x, account_ (f x) = account_ x) → Rep l (write_current a f) (write_current a f).
Proof. intros Hin Hf. eapply rep_write_current; [done|]. auto. Qed.

(** ** Lookup of account states *)
Lemma rep_seq {A C} P (m1 : M W1 A) m2 Q (k1 : A → M W1 C) k2 R :
  Replays P m1 m2 Q → (∀ x, Replays (Q x) (k1 x) (k2 x) R) → Replays P (m1 ≫= k1) (m2 ≫= k2) R.
Proof.
  intros Hm Hk st o c st'' o'' Hp Hr E. apply bind_Ok in E as (a & [st' o'] & E1 & E2).
  destruct (Hm _ _ _ _ _ Hp Hr E1) as (Hg1 & Hr1 & Hq & Hrep1).
  destruct (Hk a _ _ _ _ _ Hq Hr1 E2) as (Hg2 & Hr2 & Hc & Hrep2).
  split; [by etrans|]. split; [done|]. split; [done|]. intros Hag Bc Hr2c.
  destruct (Hrep1 (agrees_grows _ _ Hg2 Hag) Bc Hr2c) as (Bc1 & Hm2 & HBc1).
  destruct (Hrep2 Hag Bc1 HBc1) as (Bc2 & Hk2 & HBc2).
  exists Bc2. split; [|done]. by rewrite (bind_Ok_eq _ _ _ _ _ Hm2).
Qed.

Lemma acc_ok_refl acc : acc_ok acc acc.
Proof. unfold acc_ok. destruct acc; auto. Qed.

Lemma Rep_post {A} l (m1 : M W1 A) m2 : Rep l m1 m2 → Replays (facts l) m1 m2 (λ _, facts l).
Proof.
  intros Hm st o a st' o' Hp Hr E. destruct (Hm _ _ _ _ _ Hp Hr E) as (? & ? & _ & ?).
  split; [done|]. split; [done|]. split; [by eapply facts_stable|done].
Qed.

Lemma rep_current_account_state l a :
  Replays (facts l) (current_account_state a) (current_account_state a)
    (λ x, facts ((a, account_ x) :: l)).
Proof.
  unfold current_account_state. eapply rep_seq; [apply rep_sgets|]. intros o. simpl.
  eapply (rep_seq _ _ _ (λ _, facts l)).
  { destruct o as [stack|].
    - eapply (rep_conseq (facts l) _ _ _ (λ _, facts l)); [by intros st [_ ?]|done|apply Rep_post, Rep_ret].
    - eapply (rep_conseq (facts l) _ _ _ (λ _, facts l)); [by intros st [_ ?]|done|].
      eapply rep_seq; [apply rep_original_account_state, facts_stable|]. intros os. simpl.
      apply rep_set_current. intros st [Hos Hl] Hinc. split; [done|].
      intros b stack v x. destruct (decide (a = b)) as [<-|].
      + rewrite lookup_insert_eq. intros [= <-] [= -> ->]%list_elem_of_singleton.
        exists os. split; [done|]. apply acc_ok_refl.
      + rewrite lookup_insert_ne by done. by apply io_stack. }
  intros []. eapply rep_seq; [apply Rep_post, Rep_smodify_other; done|]. intros []. simpl.
  apply rep_state. intros st o' x st' o'' Hl Hinc E. sinv. simplify_eq. simpl in *.
  match goal with Hs0 : Some ?s0 = current_ st !! a, Hc0 : vs_current _ ?s0 = Ok ?s1 |- _ =>
    rename s0 into stack0; rename s1 into stack1; rename Hs0 into Hs; rename Hc0 into Hcur end.
  symmetry in Hs.
  assert (Hel : ∀ v y, (v, y) ∈ stack1 → ∃ v', (v', y) ∈ stack0).
  { destruct stack0 as [|[v0 x0] r]; [done|]. simpl in Hcur. injection Hcur as <-.
    intros v y. destruct (version_ st >? v0); [|eauto].
    intros [[= -> ->]|Hy]%elem_of_cons; [exists v0; left|eauto]. }
  assert (Hfacts : ∀ v y, (v, y) ∈ stack1 → fact st a (account_ y)).
  { intros v y Hy. destruct (Hel _ _ Hy) as [v' Hy']. by eapply io_stack. }
  split; [done|]. split; [|split; [|split]].
  - split; [apply Hinc|]. intros b stack v y. simpl. destruct (decide (a = b)) as [<-|].
    + rewrite lookup_insert_eq. intros [= <-]. apply Hfacts.
    + rewrite lookup_insert_ne by done. apply (io_stack _ Hinc).
  - destruct stack1 as [|[v1 x1] r1]; [done|].
    match goal with Hr : vs_recent _ = Ok x |- _ => simpl in Hr; injection Hr as <- end.
    constructor; [|done]. apply (Hfacts v1). left.
  - apply orig_same.
  - intros Bc. autorewrite with run. simpl. rewrite Hs. autorewrite with run. simpl.
    rewrite Hcur. autorewrite with run. by apply lift_outcome_Ok.
Qed.

Lemma Rep_cas {C} l a (k1 : AccountState → M W1 C) k2 :
  (∀ x, Rep ((a, account_ x) :: l) (k1 x) (k2 x)) →
  Rep l (current_account_state a ≫= k1) (current_account_state a ≫= k2).
Proof. intros Hk. eapply rep_seq; [apply rep_current_account_state|done]. Qed.

Lemma Rep_ca {C} l a (k1 : option Account → M W1 C) k2 :
  (∀ x, Rep ((a, x) :: l) (k1 x) (k2 x)) →
  Rep l (current_account a ≫= k1) (current_account a ≫= k2).
Proof.
  intros Hk. eapply (rep_seq _ _ _ (λ x, facts ((a, x) :: l))); [|done].
  unfold current_account. eapply rep_seq; [apply rep_current_account_state|]. intros x. simpl.
  apply rep_state. intros st o y st' o' Hl Hinc E. minv. simplify_eq.
  split; [done|]. split; [done|]. split; [done|]. split; [apply orig_same|done].
Qed.

Lemma Rep_incarnation {C} l (k1 : Incarnation → M W1 C) k2 :
  Rep l (k1 own) (k2 own) → Rep l (sgets incarnation_ ≫= k1) (sgets incarnation_ ≫= k2).
Proof.
  intros Hk. eapply (rep_seq _ _ _ (λ x st, x = own ∧ facts l st)).
  - apply rep_state. intros st o y st' o' Hl Hinc E. sinv. simplify_eq. simpl.
    split; [done|]. split; [done|]. split; [split; [apply (io_own _ Hinc)|done]|]. split; [apply orig_same|done].
  - intros x st o c st' o' [-> Hl]. by apply Hk.
Qed.

Lemma Rep_if {A} l (b : bool) (m1 m1' : M W1 A) m2 m2' :
  Rep l m1 m2 → Rep l m1' m2' → Rep l (if b then m1 else m1') (if b then m2 else m2').
Proof. by destruct b. Qed.

(** ** Every method *)
Create HintDb rep discriminated.
Hint Resolve Rep_ret Rep_massert Rep_massert_throw Rep_mvalue Rep_lift_outcome Rep_sgets
  Rep_original_account_state Rep_block_read_code Rep_block_insert_code : rep.

Ltac solve_derives :=
  unfold derives; simpl;
  repeat match goal with |- context [default _ ?o] => destruct o; simpl end; by auto.
Ltac find_fact := repeat first [apply list_elem_of_here | apply list_elem_of_further].
Ltac rep_write :=
  first
    [ eapply Rep_write_account; [find_fact|solve_derives]
    | eapply Rep_write_current_sub; [find_fact|intros ?; reflexivity] ].
Ltac rep_step :=
  match goal with
  | |- Rep _ (current_account_state _ ≫= _) _ => apply Rep_cas; intros ?
  | |- Rep _ (current_account _ ≫= _) _ => apply Rep_ca; intros ?
  | |- Rep _ (sgets incarnation_ ≫= _) _ => apply Rep_incarnation
  | |- Rep _ (_ ≫= _) _ => apply Rep_bind; [|intros ?]
  | |- Rep _ (mfor _ _) _ => apply Rep_mfor; intros ?
  | |- Rep _ (write_account _ _) _ => rep_write
  | |- Rep _ (write_current _ _) _ => rep_write
  | |- Rep _ (write_original _ _) _ => apply Rep_write_original; intros ?; reflexivity
  | |- Rep _ (smodify _) _ => apply Rep_smodify_other; intros ?; repeat split; reflexivity
  | |- Rep _ (if ?b then _ else _) _ => destruct b
  | |- Rep _ (match ?o with _ => _ end) _ => destruct o
  | |- Rep _ (let _ := _ in _) _ => cbv zeta
  | |- Rep _ _ _ => solve [auto with rep nocore]
  | |- Rep _ _ _ => solve [apply Rep_nil; auto with rep nocore]
  end.
Ltac rep := repeat rep_step.

Lemma Rep_recent_account_state a : Rep [] (recent_account_state a) (recent_account_state a).
Proof. unfold recent_account_state. rep. Qed.
Hint Resolve Rep_recent_account_state : rep.
Lemma Rep_recent_account a : Rep [] (recent_account a) (recent_account a).
Proof. unfold recent_account. rep. Qed.
Hint Resolve Rep_recent_account : rep.
Lemma Rep_modify_rb f : Rep [] (modify_rb f) (modify_rb f).
Proof. unfold modify_rb. rep. Qed.
Hint Resolve Rep_modify_rb : rep.
Lemma Rep_get_balance a : Rep [] (get_balance a) (get_balance a).
Proof. unfold get_balance. rep. Qed.
Lemma Rep_get_original_balance a : Rep [] (get_original_balance a) (get_original_balance a).
Proof. unfold get_original_balance. rep. Qed.
Lemma Rep_get_code_hash a : Rep [] (get_code_hash a) (get_code_hash a).
Proof. unfold get_code_hash. rep. Qed.
Lemma Rep_is_destructed a : Rep [] (is_destructed a) (is_destructed a).
Proof. unfold is_destructed. rep. Qed.
Lemma Rep_is_current_incarnation a : Rep [] (is_current_incarnation a) (is_current_incarnation a).
Proof. unfold is_current_incarnation. rep. Qed.
Lemma Rep_state_read_code h : Rep [] (state_read_code h) (state_read_code h).
Proof. unfold state_read_code. rep. Qed.
Hint Resolve Rep_get_balance Rep_get_original_balance Rep_get_code_hash Rep_is_destructed
  Rep_is_current_incarnation Rep_state_read_code : rep.
Lemma Rep_rb_is_delegated h : Rep [] (rb_is_delegated h) (rb_is_delegated h).
Proof. unfold rb_is_delegated. rep. Qed.
Hint Resolve Rep_rb_is_delegated : rep.
Lemma Rep_update_violation_status a : Rep [] (update_violation_status a) (update_violation_status a).
Proof.
  unfold update_violation_status, init_selfdestruct_exempted, subject_account, pretx_reserve,
    compare_with_threshold, exempt, set_threshold, failed_erase, failed_insert. rep.
Qed.
Hint Resolve Rep_update_violation_status : rep.
Lemma Rep_on_credit a : Rep [] (on_credit a) (on_credit a).
Proof. unfold on_credit. rep. Qed.
Lemma Rep_on_debit a : Rep [] (on_debit a) (on_debit a).
Proof. unfold on_debit. rep. Qed.
Lemma Rep_on_pop_reject D : Rep [] (on_pop_reject D) (on_pop_reject D).
Proof. unfold on_pop_reject, set_threshold. rep. Qed.
Lemma Rep_on_set_code a c : Rep [] (on_set_code a c) (on_set_code a c).
Proof. unfold on_set_code, exempt, set_threshold, failed_erase. rep. Qed.
Hint Resolve Rep_on_credit Rep_on_debit Rep_on_pop_reject Rep_on_set_code : rep.
Lemma Rep_set_nonce a n : Rep [] (set_nonce a n) (set_nonce a n).
Proof. unfold set_nonce. rep. Qed.
Lemma Rep_add_to_balance a d : Rep [] (add_to_balance a d) (add_to_balance a d).
Proof. unfold add_to_balance. rep. Qed.
Lemma Rep_subtract_from_balance a d : Rep [] (subtract_from_balance a d) (subtract_from_balance a d).
Proof. unfold subtract_from_balance. rep. Qed.
Hint Resolve Rep_set_nonce Rep_add_to_balance Rep_subtract_from_balance : rep.

Lemma derives_refl acc : derives acc acc.
Proof. unfold derives. destruct acc; auto. Qed.

(** Storing a whole account state whose account is the known one. *)
Lemma Rep_write_current_const l a x y :
  (a, account_ x) ∈ l → account_ y = account_ x →
  Rep l (write_current a (λ _, y)) (write_current a (λ _, y)).
Proof.
  intros Hin Hy. eapply rep_write_current; [done|]. intros z. right. rewrite Hy. apply derives_refl.
Qed.

Lemma set_storage_account k v o x : account_ (as_set_storage_value k v o x).2 = account_ x.
Proof. unfold as_set_storage_value, zero_out_key, set_current_value. by case_match. Qed.
Lemma access_storage_account k x : account_ (access_storage_ k x).2 = account_ x.
Proof. unfold access_storage_. by case_match. Qed.
Lemma access_account_account x : account_ (access_ x).2 = account_ x.
Proof. done. Qed.

Lemma Rep_set_transient_storage a k v : Rep [] (set_transient_storage a k v) (set_transient_storage a k v).
Proof. unfold set_transient_storage. rep. Qed.
Lemma Rep_touch a : Rep [] (touch a) (touch a).
Proof. unfold touch. rep. Qed.
Lemma Rep_access_account a : Rep [] (access_account a) (access_account a).
Proof.
  unfold access_account. rep. eapply Rep_write_current_const; [find_fact|apply access_account_account].
Qed.
Lemma Rep_access_storage t a k : Rep [] (access_storage t a k) (access_storage t a k).
Proof.
  unfold access_storage. rep; (eapply Rep_write_current_const; [find_fact|]);
    apply access_storage_account.
Qed.
Lemma Rep_update_page a k s : Rep [] (update_page a k s) (update_page a k s).
Proof. unfold update_page. rep. Qed.
Lemma Rep_selfdestruct t a b : Rep [] (selfdestruct t a b) (selfdestruct t a b).
Proof. unfold selfdestruct. rep. Qed.
Lemma Rep_set_code a c : Rep [] (set_code keccak256 a c) (set_code keccak256 a c).
Proof. unfold set_code. rep. Qed.
Lemma Rep_create_contract a : Rep [] (create_contract a) (create_contract a).
Proof. unfold create_contract. rep. Qed.
Lemma Rep_set_to_state_incarnation a :
  Rep [] (set_to_state_incarnation a) (set_to_state_incarnation a).
Proof. unfold set_to_state_incarnation. rep. Qed.
Lemma Rep_store_log l : Rep [] (store_log l) (store_log l).
Proof. unfold store_log. rep. Qed.
Lemma Rep_validate_exact_balance a : Rep [] (validate_exact_balance a) (validate_exact_balance a).
Proof. unfold validate_exact_balance. rep. Qed.

(** The assertion makes sure there was no account. *)
Lemma Rep_create_account_no_rollback a :
  Rep [] (create_account_no_rollback a) (create_account_no_rollback a).
Proof.
  unfold create_account_no_rollback. apply Rep_ca. intros acc.
  destruct (decide (acc = None)) as [->|Hne].
  - apply Rep_bind; [apply Rep_massert|]. intros ?. apply Rep_incarnation.
    eapply Rep_write_account; [find_fact|]. by right.
  - intros st o r st' o' _ _ E. rewrite bool_decide_false in E by done. minv. done.
Qed.

Lemma Rep_record_balance a d :
  Rep [] (record_balance_constraint_for_debit a d) (record_balance_constraint_for_debit a d).
Proof.
  unfold record_balance_constraint_for_debit. apply Rep_bind; [rep|]. intros account.
  eapply rep_seq; [apply rep_original_account_state, facts_stable|]. intros os. simpl.
  destruct (balance_of account >=? d).
  2: { eapply (rep_conseq (facts []) _ _ _ (λ _ _, True)); [by intros ? [_ ?]|done|].
       apply Rep_bind; [rep|]. intros ?. rep. }
  eapply (rep_seq _ _ _ (λ _, facts [])); [|intros ?; apply Rep_ret].
  destruct (balance_of (os_account os) >? balance_of account - d).
  2: { eapply (rep_conseq (facts []) _ _ _ (λ _, facts [])); [by intros ? [_ ?]|done|].
       apply Rep_post, Rep_ret. }
  destruct (set_min_balance _ os) as [os'| |] eqn:Hmin;
    [|intros st o r st' o' _ _ E; unfold lift_outcome in E; minv; done..].
  assert (Hst : os_state os' = os_state os).
  { unfold set_min_balance in Hmin. destruct (os_account os); [|done]. case_match; [|done].
    by injection Hmin as <-. }
  apply rep_state. intros st o r st' o' [Hos _] Hinc E. rewrite run_lift_outcome in E.
  unfold write_original in E. sinv. simplify_eq. simpl.
  assert (Halt : alter (λ _, os') a (original_ st) = <[a := os']> (original_ st)).
  { apply map_eq. intros b. destruct (decide (a = b)) as [<-|].
    - rewrite lookup_alter_eq, Hos. by simplify_map_eq.
    - rewrite lookup_alter_ne by done. by simplify_map_eq. }
  rewrite Halt. split; [done|]. split; [|split; [by constructor|split]].
  - destruct Hinc as [Hown Hstk]. split; [done|]. intros b stack v x Hb Hx.
    destruct (Hstk _ _ _ _ Hb Hx) as (os0 & Hos0 & ?). unfold fact. simpl.
    destruct (decide (a = b)) as [<-|]; simplify_map_eq; [|eauto].
    exists os'. split; [done|]. by rewrite Hst.
  - intros b. destruct (decide (a = b)) as [<-|]; simplify_map_eq.
    + right. exists os, os'. by rewrite Hst.
    + apply orig_same.
  - intros Bc. rewrite run_lift_outcome. unfold write_original, smodify, mmodify; simpl. by rewrite Halt.
Qed.

(** *** Storage *)
Lemma fetchable_fact st a acc os k :
  original_ st !! a = Some os → os_storage os !! k = None → fact st a (Some acc) →
  fetchable a (incarnation acc) k st.
Proof.
  intros Hos Hk (os2 & Hos2 & Hok). assert (os2 = os) as -> by congruence. by exists os.
Qed.

Lemma Rep_get_storage a k : Rep [] (get_storage a k) (get_storage a k).
Proof.
  assert (Hfetch : ∀ i st o v st' o', fetchable a i k st → Rel1 st o →
    fetch_original_storage a i k (st, o) = Ok (v, (st', o')) →
    grows st st' ∧ Rel1 st' o' ∧ True ∧
    (agrees st' B → ∀ Bc, Rel2 st Bc →
       ∃ Bc', fetch_original_storage a i k (st, Bc) = Ok (v, (st', Bc')) ∧ Rel2 st' Bc')).
  { intros i st o v st' o' Hf Hr E.
    destruct (rep_fetch (λ _, True) a i k ltac:(done) _ _ _ _ _ (conj I Hf) Hr E)
      as (? & ? & _ & ?). done. }
  assert (Hstay : ∀ st o (m : M W2 Z) v, Rel1 st o → (∀ Bc, m (st, Bc) = Ok (v, (st, Bc))) →
    grows st st ∧ Rel1 st o ∧ True ∧
    (agrees st B → ∀ Bc, Rel2 st Bc → ∃ Bc', m (st, Bc) = Ok (v, (st, Bc')) ∧ Rel2 st Bc')).
  { intros st o m v Hr Hm. split; [done|]. split; [done|]. split; [done|]. intros _ Bc Hr2. eauto. }
  intros st o v st' o' _ Hrel E. unfold get_storage in E |- *.
  rewrite run_sgets in E. setoid_rewrite run_sgets. simpl in *.
  destruct (current_ st !! a) as [stack|] eqn:Hcur.
  - destruct stack as [|[v0 x] r]; [unfold lift_outcome in E; minv; done|]. simpl in *.
    rewrite run_lift_outcome in E. setoid_rewrite run_lift_outcome.
    destruct (account_ x) as [acc|] eqn:Hacc; [|minv; done]. rewrite run_mvalue in E.
    setoid_rewrite run_mvalue.
    destruct (storage_ x !! k) as [v1|]; [minv; simplify_eq; by apply Hstay|].
    rewrite run_bind_bind, run_sgets in E. setoid_rewrite run_bind_bind. setoid_rewrite run_sgets.
    simpl in *. destruct (original_ st !! a) as [os|] eqn:Hos; [|minv; done].
    rewrite run_mvalue in E. setoid_rewrite run_mvalue.
    destruct (os_account os) as [acc0|] eqn:Hacc0; [|minv; simplify_eq; by apply Hstay].
    destruct (decide _) as [Ei|]; [|minv; simplify_eq; by apply Hstay].
    destruct (os_storage os !! k) as [v1|] eqn:Hk; [minv; simplify_eq; by apply Hstay|].
    eapply Hfetch; [|done|done]. eapply fetchable_fact; [done|done|].
    rewrite <- Hacc. destruct Hrel as [Hinc _]. eapply io_stack; [done|done|]. left.
  - rewrite run_bind_bind, run_sgets in E. setoid_rewrite run_bind_bind. setoid_rewrite run_sgets.
    simpl in *. destruct (original_ st !! a) as [os|] eqn:Hos; [|minv; done].
    rewrite run_mvalue in E. setoid_rewrite run_mvalue.
    destruct (os_account os) as [acc0|] eqn:Hacc0; [|minv; done].
    rewrite run_mvalue in E. setoid_rewrite run_mvalue.
    destruct (os_storage os !! k) as [v1|] eqn:Hk; [minv; simplify_eq; by apply Hstay|].
    eapply Hfetch; [|done|done]. exists os. split; [done|]. split; [done|]. rewrite Hacc0. by right.
Qed.

Lemma Rep_some {X C} l (x : X) (k1 : X → M W1 C) k2 :
  Rep l (k1 x) (k2 x) → Rep l (mvalue (Some x) ≫= k1) (mvalue (Some x) ≫= k2).
Proof.
  intros Hk st o c st' o' Hl Hr E. rewrite run_mvalue in E.
  destruct (Hk _ _ _ _ _ Hl Hr E) as (? & ? & ? & ?). by setoid_rewrite run_mvalue.
Qed.

Lemma Rep_set_storage a k v : Rep [] (set_storage a k v) (set_storage a k v).
Proof.
  unfold set_storage. apply Rep_cas. intros x.
  destruct (account_ x) as [acc|] eqn:Hacc; [|intros st o r st' o' _ _ E; minv; done].
  apply Rep_some. set (l := [(a, Some acc)]).
  eapply rep_seq; [apply rep_original_account_state, facts_stable|]. intros os. simpl.
  eapply (rep_seq _ _ _ (λ _, facts l)).
  - destruct (os_storage os !! k) as [v1|] eqn:Hk.
    + eapply (rep_conseq (facts l) _ _ _ (λ _, facts l)); [by intros st [_ ?]|done|].
      apply Rep_post, Rep_ret.
    + eapply (rep_conseq (λ st, facts l st ∧ fetchable a (incarnation acc) k st) _ _ _ (λ _, facts l));
        [|done|apply rep_fetch, facts_stable].
      intros st [Hos Hl]. split; [done|]. eapply fetchable_fact; [done|done|].
      apply Forall_cons_iff in Hl as [Hf _]. done.
  - intros original_value. apply Rep_bind; [|intros ?; apply Rep_ret].
    eapply (Rep_write_current_const l a x); [rewrite Hacc; find_fact|]. apply set_storage_account.
Qed.

(** *** Frames *)
Lemma Rep_restack {R C} l a (F : Z → VersionStack AccountState → outcome R)
    (p : R → VersionStack AccountState) (k1 : R → M W1 C) k2 :
  (∀ n s r v x, F n s = Ok r → (v, x) ∈ p r → ∃ v', (v', x) ∈ s) →
  (∀ r, Rep l (k1 r) (k2 r)) →
  Rep l (stack ← (sgets (λ s, current_ s !! a) ≫= mvalue); version ← sgets version_;
         r ← lift_outcome (F version stack);
         smodify (λ s, st_set_current (<[a := p r]> (current_ s)) s);; k1 r)
        (stack ← (sgets (λ s, current_ s !! a) ≫= mvalue); version ← sgets version_;
         r ← lift_outcome (F version stack);
         smodify (λ s, st_set_current (<[a := p r]> (current_ s)) s);; k2 r).
Proof.
  intros HF Hk st o c st' o' Hl Hrel E. rewrite run_bind_bind, run_sgets in E.
  setoid_rewrite run_bind_bind. setoid_rewrite run_sgets. simpl in *.
  destruct (current_ st !! a) as [stack|] eqn:Hs; [|minv; done].
  rewrite run_mvalue, run_sgets in E. setoid_rewrite run_mvalue. setoid_rewrite run_sgets. simpl in *.
  destruct (F (version_ st) stack) as [r| |] eqn:HFr; [|unfold lift_outcome in E; minv; done..].
  rewrite run_lift_outcome in E. setoid_rewrite run_lift_outcome.
  assert (Hrest : Replays (λ st2, current_ st2 !! a = Some stack ∧ facts l st2)
    (smodify (λ s, st_set_current (<[a := p r]> (current_ s)) s);; k1 r)
    (smodify (λ s, st_set_current (<[a := p r]> (current_ s)) s);; k2 r) (λ _ _, True));
    [|by eapply Hrest].
  apply (rep_seq _ _ _ (λ _, facts l)); [|intros []; apply Hk].
  apply rep_set_current. intros st2 [Hs2 Hl2] Hinc. split; [done|]. intros b stk v x.
  destruct (decide (a = b)) as [<-|].
  - rewrite lookup_insert_eq. intros [= <-] Hx. destruct (HF _ _ _ _ _ HFr Hx) as [v' Hv'].
    by eapply io_stack.
  - rewrite lookup_insert_ne by done. by apply io_stack.
Qed.

Lemma pop_accept_values {T} n (s s' : VersionStack T) v x :
  vs_pop_accept n s = Ok s' → (v, x) ∈ s' → ∃ v', (v', x) ∈ s.
Proof.
  unfold vs_pop_accept. destruct (n =? 0); [done|]. destruct s as [|[v0 x0] r]; [done|].
  intros [= <-]. destruct (n =? v0); [|eauto].
  destruct r as [|[v1 x1] r].
  - intros [= -> ->]%list_elem_of_singleton. exists v0. left.
  - case_match; intros [[= -> ->]|Hx]%elem_of_cons.
    + exists v0. left.
    + exists v. by do 2 right.
    + exists v0. left.
    + exists v. by right.
Qed.
Lemma pop_reject_values {T} n (s : VersionStack T) r v x :
  vs_pop_reject n s = Ok r → (v, x) ∈ r.2 → ∃ v', (v', x) ∈ s.
Proof.
  unfold vs_pop_reject. destruct (n =? 0); [done|]. destruct s as [|[v0 x0] s]; [done|].
  intros [= <-]. simpl. case_match; [|eauto]. intros Hx. exists v. by right.
Qed.

Lemma Rep_push : Rep [] push push.
Proof. unfold push. rep. Qed.
Lemma Rep_pop_dirty : Rep [] pop_dirty pop_dirty.
Proof. unfold pop_dirty. rep. Qed.
Hint Resolve Rep_pop_dirty : rep.

Lemma Rep_pop_accept : Rep [] pop_accept pop_accept.
Proof.
  unfold pop_accept. apply Rep_bind; [rep|]. intros D. apply Rep_bind; [|intros ?; rep].
  apply Rep_mfor. intros a. apply (Rep_restack [] a vs_pop_accept id).
  - intros n s r v x. apply pop_accept_values.
  - intros r. rep.
Qed.

Lemma Rep_reject_accounts l : Rep [] (reject_accounts l) (reject_accounts l).
Proof.
  induction l as [|a l IH]; simpl; [rep|]. apply Rep_bind; [|intros emptied].
  - unfold reject_account. apply (Rep_restack [] a vs_pop_reject snd (λ r, mret r.1)).
    + intros n s r v x. apply pop_reject_values.
    + intros r. rep.
  - apply Rep_bind; [done|]. intros removals. rep.
Qed.

Lemma Rep_delete a :
  Rep [] (smodify (λ s, st_set_current (delete a (current_ s)) s))
         (smodify (λ s, st_set_current (delete a (current_ s)) s)).
Proof.
  apply rep_set_current. intros st _ Hinc. split; [done|]. intros b stk v x Hb.
  apply lookup_delete_Some in Hb as [_ Hb]. by apply io_stack.
Qed.
Hint Resolve Rep_reject_accounts Rep_delete : rep.

Lemma Rep_pop_reject : Rep [] pop_reject pop_reject.
Proof.
  unfold pop_reject. apply Rep_bind; [rep|]. intros D. apply Rep_bind; [rep|]. intros removals.
  do 3 (apply Rep_bind; [rep|intros ?]). apply Rep_bind; [rep|intros ?].
  apply Rep_bind; [apply Rep_mfor; intros ?; apply Rep_delete|intros ?]. rep.
Qed.

Lemma Rep_call {X} (op : method X) : Rep [] (call keccak256 op) (call keccak256 op).
Proof.
  destruct op; simpl; eauto using Rep_set_transient_storage, Rep_touch, Rep_access_account,
    Rep_access_storage, Rep_update_page, Rep_selfdestruct, Rep_set_code, Rep_create_contract,
    Rep_set_to_state_incarnation, Rep_store_log, Rep_validate_exact_balance,
    Rep_create_account_no_rollback, Rep_record_balance, Rep_get_storage, Rep_set_storage with rep.
  all: unfold account_exists, account_is_dead, account_has_code_or_nonce, get_nonce, is_touched,
    get_transient_storage, get_code, get_code_size, copy_code, logs, current_addresses,
    original_code_hash, load_original_code_hash; rep.
Qed.

Lemma Rep_act {X} (x : action X) : Rep [] (act keccak256 x) (act keccak256 x).
Proof. destruct x; simpl; eauto using Rep_call, Rep_push, Rep_pop_accept, Rep_pop_reject. Qed.

Lemma Rep_exec {A} (p : prog A) : Rep [] (exec keccak256 p) (exec keccak256 p).
Proof.
  induction p as [a|X x k IH|[[]| |s]]; simpl.
  - rep.
  - apply Rep_bind; [apply Rep_act|done].
  - by intros st o a st' o' _ _ E.
  - by intros st o a st' o' _ _ E.
Qed.

(** ** The transaction *)

(** The first thing a transaction does with its state is to look at the
    sender ([validate_transaction]). *)
Definition looks_at_sender {A} (sender : Z) (p : prog A) : Prop :=
  match p with
  | Act (Method (m_account_exists a)) _
  | Act (Method (m_get_balance a)) _
  | Act (Method (m_validate_exact_balance a)) _ => a = sender
  | _ => False
  end.

(** With the sender's account as the block state has it already in
    [original_], the program runs as if it loaded it itself. *)
Lemma preloaded {A} sender x (p : prog A) st Bc Bc1 :
  looks_at_sender sender p → current_ st = ∅ → original_ st !! sender = None →
  read_account db_ sender Bc = Ok (x, Bc1) →
  exec keccak256 p (st, Bc) =
  exec keccak256 p (st_set_original (<[sender := make_original x]> (original_ st)) st, Bc1).
Proof.
  intros Hp Hc Ho Hd.
  set (st1 := st_set_original _ st).
  assert (Hload : original_account_state sender (st, Bc) = Ok (make_original x, (st1, Bc1))).
  { unfold original_account_state. rewrite run_sgets. simpl. rewrite Ho.
    erewrite bind_Ok_eq by (apply lift_real; exact Hd). by autorewrite with run. }
  assert (Hload1 : original_account_state sender (st1, Bc1) = Ok (make_original x, (st1, Bc1))).
  { unfold original_account_state. rewrite run_sgets. simpl. by rewrite lookup_insert_eq. }
  assert (Hrecent : ∀ {C} (k : AccountState → M W2 C),
    (recent_account_state sender ≫= k) (st, Bc) = (recent_account_state sender ≫= k) (st1, Bc1)).
  { intros C k. unfold recent_account_state. rewrite !run_bind_bind, !run_sgets. simpl. rewrite Hc.
    rewrite lookup_empty. rewrite !run_bind_bind. by rewrite !(bind_Ok_eq _ _ _ _ _ Hload), !(bind_Ok_eq _ _ _ _ _ Hload1). }
  destruct p as [a|X y k|o]; [done| |done]. destruct y as [X op| | |]; [|done..].
  destruct op; try done; simpl in Hp; subst; simpl.
  - unfold account_exists, recent_account. rewrite !run_bind_bind. apply Hrecent.
  - unfold get_balance, recent_account. rewrite !run_bind_bind. apply Hrecent.
  - unfold validate_exact_balance. rewrite !run_bind_bind.
    by rewrite !(bind_Ok_eq _ _ _ _ _ Hload), !(bind_Ok_eq _ _ _ _ _ Hload1).
Qed.

(** The state [ExecuteTransaction] starts from: a new [State] in which
    [set_original_nonce] has recorded the expected nonce. *)
Lemma prefetch_inv sender n o st1 o1 :
  set_original_nonce sender n (make_state own false, o) = Ok ((), (st1, o1)) →
  ∃ x, o = EvAccount sender x :: o1 ∧
    st1 = st_set_original {[ sender := make_original (Some (with_nonce n (default default_account x))) ]}
            (make_state own false).
Proof.
  unfold set_original_nonce, original_account_state. intros E.
  rewrite run_bind_bind, run_sgets in E. simpl in E. rewrite lookup_empty in E.
  rewrite run_bind_bind in E. apply bind_Ok in E as (x & [st2 o2] & E1 & E).
  apply lift_record_account in E1 as [-> ->]. unfold write_original in E. sinv. simplify_eq.
  exists x. split; [done|]. simpl. unfold st_set_original; simpl. f_equal.
  rewrite alter_insert_eq. done.
Qed.

(** A new state on [B] itself. *)
Lemma Rel2_start : Rel2 (make_state own false) B.
Proof.
  split; [done|done|apply HB|done| |apply (bo_removed _ HB)|apply (bo_origin _ HB)].
  intros c d k fv Hd Hk _. left. eauto.
Qed.

(** The merge check always answers; if it accepts, the program can be
    replayed on [B] and on every block state that differs from it by loads. *)
Lemma attempt_replays {A} (p : prog A) sender n bs0 o0 st1 o1 a st' :
  looks_at_sender sender p →
  block_ok bs0 → answered bs0 o0 →
  (∀ o, o0 = EvAccount sender None :: o → ¬ lives B sender (make_incarnation 0 0)) →
  set_original_nonce sender n (make_state own false, o0) = Ok ((), (st1, o1)) →
  exec keccak256 p (st1, o1) = Ok (a, (st', [])) →
  inc_ok st' ∧
  ∃ b, can_merge (st', B) = Ok (b, (st', B)) ∧
    (b = true → agrees st' B ∧ ∀ Bc, Rel2 (make_state own false) Bc →
       ∃ Bc', exec keccak256 p (make_state own false, Bc) = Ok (a, (st', Bc')) ∧ Rel2 st' Bc').
Proof.
  intros Hp Hok0 Hans Hdef Hpre Hrun.
  destruct (prefetch_inv _ _ _ _ _ Hpre) as (x & -> & ->). clear Hpre.
  assert (Hrel0 : Rel1 (make_state own false) (EvAccount sender x :: o1)).
  { split; [by split|]. by exists bs0. }
  destruct (Rel1_next _ _ _ Hrel0) as (bs1 & bs2 & _ & _ & Ha & _ & Hok2 & Ho & _ & _).
  inversion Ha as [? ? ? ? Hread| | |]; subst.
  destruct (read_account_keeps _ _ _ _ Hread) as (_ & _ & d2 & Hd2 & Hx).
  set (acc1 := with_nonce n (default default_account x)) in *.
  set (st1 := st_set_original {[sender := make_original (Some acc1)]} (make_state own false)) in *.
  assert (Hrel1 : Rel1 st1 o1).
  { split; [by split|]. exists bs2. split; [done|]. split; [done|].
    intros c os Hos. simpl in Hos. apply lookup_singleton_Some in Hos as [<- <-]. simpl.
    split; [eauto|]. intros acc [= <-] HlB. simpl in *. destruct x as [y|].
    - by exists d2, y.
    - exfalso. by eapply Hdef. }
  destruct (Rep_exec p _ _ _ _ _ (Forall_nil _) Hrel1 Hrun) as (Hgrow & Hrel' & _ & Hreplay).
  destruct Hrel' as [Hinc' (bs' & Hok' & Hans' & Hseen')]. split; [done|].
  destruct (can_merge_exact (st', B)) as (b & Hm & Hiff); [apply (io_own _ Hinc')| |].
  { simpl. intros c [os Hos]. apply (ke_loaded _ _ (answered_keeps _ _ Hok' Hans')).
    by destruct (Hseen' _ _ Hos). }
  exists b. split; [done|]. intros Hag%Hiff. split; [done|]. simpl in Hag. intros Bc Hr2.
  destruct (agrees_grows _ _ Hgrow Hag sender (make_original (Some acc1))) as (dB & HdB & EdB & _).
  { simpl. by rewrite lookup_singleton_eq. }
  destruct (read_account_spec db_ sender Bc) as (Bc1 & Hread1 & _ & _).
  assert (account_view db_ Bc sender = Some acc1) as Ex.
  { rewrite <- (proj1 (r2_view _ _ Hr2)). unfold account_view. by rewrite HdB, <- EdB. }
  rewrite Ex in Hread1.
  pose proof (Rel2_load _ _ _ _ _ Hr2 (lookup_empty _) Hread1) as Hr2'.
  change (Rel2 st1 Bc1) in Hr2'.
  rewrite (preloaded sender (Some acc1) p (make_state own false) Bc Bc1) by done.
  by apply Hreplay.
Qed.

Lemma speculation_replays {A} (p : prog A) sender n bs0 o0 st1 o1 a st' :
  looks_at_sender sender p →
  block_ok bs0 → answered bs0 o0 →
  (∀ o, o0 = EvAccount sender None :: o → ¬ lives B sender (make_incarnation 0 0)) →
  set_original_nonce sender n (make_state own false, o0) = Ok ((), (st1, o1)) →
  exec keccak256 p (st1, o1) = Ok (a, (st', [])) →
  ∃ b, can_merge (st', B) = Ok (b, (st', B)) ∧
    (b = true → ∃ B', exec keccak256 p (make_state own false, B) = Ok (a, (st', B')) ∧
       same_view db_ B B' ∧ can_merge (st', B') = Ok (true, (st', B'))).
Proof.
  intros Hp Hok0 Hans Hdef Hpre Hrun.
  destruct (attempt_replays p sender n bs0 o0 st1 o1 a st') as (Hinc & b & Hm & Hrep); [done..|].
  exists b. split; [done|]. intros Hb. destruct (Hrep Hb) as [Hag Hrun'].
  destruct (Hrun' B Rel2_start) as (B' & Hexec & Hr2'). exists B'. split; [done|]. split; [apply Hr2'|].
  destruct (can_merge_exact (st', B')) as (b' & Hm' & Hiff');
    [apply (io_own _ Hinc)|intros c; by apply (r2_loaded _ _ _ Hr2')|].
  destruct b'; [done|]. discriminate (proj2 Hiff' (r2_agrees _ _ Hr2')).
Qed.

(** C3: speculation is sound.  A transaction runs against the shared block
    state while other transactions read and merge; its program [p] is any
    program over the methods of [State] that starts by looking at the
    sender.  If the result passes [can_merge] on the block state [B] it is
    merged into, then running [p] alone on [B] from a new state gives the
    same result and the same final state, and leaves every read of [B]
    unchanged. *)
Theorem speculation_sound {A} (p : prog A) sender n bs0 o0 st1 o1 a st' w :
  looks_at_sender sender p →
  block_ok bs0 → answered bs0 o0 →
  (∀ o, o0 = EvAccount sender None :: o → ¬ lives B sender (make_incarnation 0 0)) →
  set_original_nonce sender n (make_state own false, o0) = Ok ((), (st1, o1)) →
  exec keccak256 p (st1, o1) = Ok (a, (st', [])) →
  can_merge (st', B) = Ok (true, w) →
  ∃ B', exec keccak256 p (make_state own false, B) = Ok (a, (st', B')) ∧ same_view db_ B B'.
Proof.
  intros Hp Hok Ha Hdef Hpre Hrun Hm.
  destruct (speculation_replays p sender n bs0 o0 st1 o1 a st') as (b & Hb & Hrep); [done..|].
  destruct Hrep as (B' & ? & ? & _); [congruence|eauto].
Qed.

(** ** What other transactions do is allowed *)

(** What is known of another transaction's state [s] when it is merged into
    [bs]: its code is addressed by content, it has its own incarnation, and
    an account that is alive here and at [B] keeps its incarnation. *)
Record other_ok (s : State) (bs : BlockState VC) : Prop := {
  oo_mergeable : mergeable s bs;
  oo_code h c : code_ s !! h = Some c → c = codeof h ∧ Z.of_nat (length c) <= 2 ^ 20 - 1;
  oo_own a x acc : current_ s !! a = Some [(0, x)] → account_ x = Some acc → incarnation acc ≠ own;
  oo_alive a x i : current_ s !! a = Some [(0, x)] → lives B a i → lives bs a i →
    ∃ acc, account_ x = Some acc ∧ incarnation acc = i
}.

(** the environment assumed above is the one the program provides: a
    read of any account, slot or code by another transaction, and a merge
    of another transaction, both keep what [speculation_sound] relies on. *)
Theorem environment_steps bs :
  block_ok bs →
  (∀ e bs', answer bs e bs' → keeps bs bs' ∧ block_ok bs') ∧
  (∀ s, other_ok s bs → ∃ bs', merge s bs = Ok ((), bs') ∧ keeps bs bs' ∧ block_ok bs').
Proof.
  intros Hok. split; [intros e bs' Ha; by destruct (answer_ok _ _ _ Hok Ha)|].
  intros s [Hm Hcode Hown Halive]. destruct (merge_spec s bs Hm) as (bs' & Hrun & Hvm & Hst & Hc).
  exists bs'. split; [done|].
  assert (Hcase : ∀ a, (current_ s !! a = None ∧ bs_state bs' !! a = bs_state bs !! a) ∨
            ∃ x d, current_ s !! a = Some [(0, x)] ∧ bs_state bs !! a = Some d ∧
                   bs_state bs' !! a = Some (merge_delta x d)).
  { intros a. rewrite Hst. unfold merged_delta. destruct (current_ s !! a) as [stack|] eqn:Hs; [|by left].
    right. destruct (Hm _ _ Hs) as [[x ->] [d Hd]]. exists x, d. by rewrite Hd. }
  split; split.
  - intros a [d Hd]. destruct (Hcase a) as [[_ ->]|(x & d' & _ & _ & ->)]; eauto.
  - intros a i HB' Hl. destruct (Hcase a) as [[_ E]|(x & d & Hs & Hd & E)].
    + destruct Hl as (d & acc & ? & ?). exists d, acc. by rewrite E.
    + destruct (Halive _ _ _ Hs HB' Hl) as (acc & Hacc & Hi). by exists (merge_delta x d), acc.
  - intros a i d d' HB' Hl Hd Hd'. destruct (Hcase a) as [[_ E]|(x & d0 & Hs & Hd0 & E)];
      [rewrite E, Hd in Hd'; by injection Hd' as <-|].
    destruct (Halive _ _ _ Hs HB' Hl) as (acc & Hacc & Hi).
    assert (d0 = d) as -> by congruence. assert (d' = merge_delta x d) as -> by congruence.
    intros k [v Hk]%elem_of_dom. apply elem_of_dom. rewrite (merge_delta_storage _ _ _ _ Hacc), Hk.
    destruct (storage_ x !! k); eauto.
  - destruct (bo_code _ Hok) as [Hvm1 Hst1]. split; [by rewrite Hvm|]. intros h c. unfold stored.
    destruct (bs_code bs' !! h) as [c0|] eqn:Ec.
    + intros [= <-]. destruct (Hc h c0) as [Hc1 _]. destruct (Hc1 Ec) as [Hold|Hnew].
      * apply Hst1. unfold stored. by rewrite Hold.
      * by apply Hcode.
    + intros Hdb. apply Hst1. unfold stored.
      destruct (bs_code bs !! h) as [c1|] eqn:Ec1; [|done].
      destruct (Hc h c1) as [_ Hc2]. rewrite (Hc2 Ec1) in Ec. done.
  - intros a acc. unfold account_view. destruct (Hcase a) as [[_ ->]|(x & d & Hs & _ & ->)].
    + apply (bo_own _ Hok).
    + simpl. intros Hacc. by eapply Hown.
  - intros a d' Hd' Hnone. destruct (Hcase a) as [[_ E]|(x & d & Hs & _ & E)].
    + rewrite E in Hd'. by eapply bo_removed.
    + assert (d' = merge_delta x d) as -> by congruence. simpl in *. by rewrite Hnone.
  - intros a d' Hd'. destruct (Hcase a) as [[_ E]|(x & d & _ & Hd & E)].
    + rewrite E in Hd'. by eapply bo_origin.
    + assert (d' = merge_delta x d) as -> by congruence. simpl. by eapply bo_origin.
Qed.
End speculation.

(** ** A concrete speculation *)
Section concrete.
(** An injective stand-in for the hash function and its inverse. *)
Definition spec_hash (c : Code) : Z := Zpos (encode c).
Definition spec_codeof (h : Z) : Code := default [] (decode (Z.to_pos h)).
Lemma spec_codeof_hash c : spec_codeof (spec_hash c) = c.
Proof. unfold spec_codeof, spec_hash. simpl. by rewrite decode_encode. Qed.

Definition spec_db : Db :=
  mkDb (db_read_account test_db) (db_read_storage test_db) (λ _, None).
#[local] Instance spec_access : BlockAccess (BlockState ()) := block_access spec_db None.

(** While the transaction runs, another one creates Carol's account. *)
Definition sb0 : BlockState () := test_block.
Definition sb1 : BlockState () := ran (read_account spec_db alice) sb0.
Definition carol_delta : StateDelta :=
  mkStateDelta (None, Some (mkAccount 3 NULL_HASH 0 (mkIncarnation 9 1))) ∅.
Definition sb2 : BlockState () := bs_set_state (<[carol := carol_delta]> (bs_state sb1)) sb1.
Definition sb3 : BlockState () := ran (read_account spec_db bob) sb2.
Definition bob_inc : Incarnation := mkIncarnation 2 0.
Definition sb4 : BlockState () := ran (read_storage spec_db None bob bob_inc 5) sb3.

Definition spec_record : list event :=
  [EvAccount alice (db_read_account spec_db alice);
   EvAccount bob (db_read_account spec_db bob);
   EvStorage bob bob_inc 5 77].

(** Pay Bob and write one of his slots in an accepted frame. *)
Definition spec_prog : prog monad_storage_status :=
  ok ← do_ (m_account_exists alice);
  passert ok;;
  frame_ Push;;
  do_ (m_subtract_from_balance alice 10);;
  do_ (m_add_to_balance bob 10);;
  r ← do_ (m_set_storage bob 5 3);
  frame_ PopAccept;;
  Ret r.

Definition sst1 : State := (ran (set_original_nonce alice 7) (make_state test_inc false, spec_record)).1.
Definition sst2 : State := (ran (exec spec_hash spec_prog) (sst1, tail spec_record)).1.

Abbreviation sok := (block_ok spec_db spec_codeof test_inc).

Lemma sb0_ok : sok sb0.
Proof.
  unfold sb0, test_block, make_block_state. split; simpl.
  - split; [done|]. intros h c. unfold stored. simpl. by rewrite lookup_empty.
  - intros a acc. unfold account_view. simpl. rewrite lookup_empty.
    do 2 (case_match; [by intros [= <-]|]). done.
  - intros a d. by rewrite lookup_empty.
  - intros a d. by rewrite lookup_empty.
Qed.
Lemma sb1_ok : sok sb1.
Proof.
  apply (block_ok_read_account _ _ _ alice sb0 (db_read_account spec_db alice)); [apply sb0_ok|].
  run_concrete.
Qed.
Lemma sb2_ok : sok sb2.
Proof.
  destruct sb1_ok as [Hc Ho Hr Hor]. split; [done| | |].
  - intros a acc. unfold account_view. simpl. destruct (decide (carol = a)) as [<-|].
    + rewrite lookup_insert_eq. by intros [= <-].
    + rewrite lookup_insert_ne by done. apply (Ho a).
  - intros a d. simpl. destruct (decide (carol = a)) as [<-|].
    + rewrite lookup_insert_eq. by intros [= <-].
    + rewrite lookup_insert_ne by done. apply Hr.
  - intros a d. simpl. destruct (decide (carol = a)) as [<-|].
    + rewrite lookup_insert_eq. by intros [= <-].
    + rewrite lookup_insert_ne by done. apply Hor.
Qed.
Lemma sb3_ok : sok sb3.
Proof.
  apply (block_ok_read_account _ _ _ bob sb2 (db_read_account spec_db bob)); [apply sb2_ok|].
  run_concrete.
Qed.
Lemma sb4_ok : sok sb4.
Proof.
  apply (block_ok_read_storage _ None _ _ bob bob_inc 5 sb3 77); [apply sb3_ok|]. run_concrete.
Qed.

Lemma spec_answered : answered spec_db None spec_hash spec_codeof test_inc sb4 sb0 spec_record.
Proof.
  eapply (ans_step _ _ _ _ _ _ _ sb1); [apply ans_account; run_concrete|].
  eapply (ans_env _ _ _ _ _ _ _ sb2); [|apply sb2_ok|].
  { split.
    - intros a Ha. apply lookup_insert_is_Some'. by right.
    - intros a i _ (d & acc & Ha & ?). exists d, acc. simpl. rewrite lookup_insert_ne; [done|].
      intros <-. vm_compute in Ha. done.
    - intros a i d d' _ _ Hd Hd'. simpl in Hd'. rewrite lookup_insert_ne in Hd'.
      + rewrite Hd in Hd'. by injection Hd' as <-.
      + intros <-. vm_compute in Hd. done. }
  eapply (ans_step _ _ _ _ _ _ _ sb3); [apply ans_account; run_concrete|].
  eapply (ans_step _ _ _ _ _ _ _ sb4); [apply ans_storage; run_concrete|].
  by apply ans_end.
Qed.

Lemma speculation_sound_witness :
  ∃ B', exec spec_hash spec_prog (make_state test_inc false, sb4) =
          Ok (MONAD_STORAGE_MODIFIED, (sst2, B')) ∧ same_view spec_db sb4 B'.
Proof.
  apply (speculation_sound spec_db None spec_hash spec_codeof test_inc sb4 spec_codeof_hash
           ltac:(done) sb4_ok spec_prog alice 7 sb0 spec_record sst1 (tail spec_record)
           MONAD_STORAGE_MODIFIED sst2 (sst2, sb4)).
  - reflexivity.
  - apply sb0_ok.
  - apply spec_answered.
  - intros o [=].
  - run_concrete.
  - run_concrete.
  - run_concrete.
Defined.

(** Transaction 1 of the block credits Carol and is merged. *)
Definition carol_world : State * BlockState () :=
  ran (add_to_balance carol 3) (make_state (mkIncarnation 9 1) false, sb1).
Definition carol_after : AccountState :=
  touch_ (make_account_state (Some (mkAccount 3 NULL_HASH 0 (mkIncarnation 9 1)))).

Lemma carol_current a stack :
  current_ carol_world.1 !! a = Some stack → a = carol ∧ stack = [(0, carol_after)].
Proof.
  assert (Hc : current_ carol_world.1 = {[carol := [(0, carol_after)]]}) by run_concrete.
  rewrite Hc. intros Ha. apply lookup_singleton_Some in Ha as [<- <-]. done.
Qed.

Lemma carol_ok : other_ok spec_codeof test_inc sb4 carol_world.1 carol_world.2.
Proof.
  split.
  - intros a stack [-> ->]%carol_current. split; [eauto|]. vm_compute. eauto.
  - intros h c. assert (Hc : code_ carol_world.1 = ∅) by run_concrete. by rewrite Hc, lookup_empty.
  - intros a x acc [-> [= ->]]%carol_current. by intros [= <-].
  - intros a x i [-> [= ->]]%carol_current _ (d & acc & Hd & Hacc & Hi).
    vm_compute in Hd. injection Hd as <-. done.
Qed.

Lemma environment_steps_witness :
  ∃ bs', merge carol_world.1 carol_world.2 = Ok ((), bs') ∧ keeps sb4 carol_world.2 bs' ∧ sok bs'.
Proof.
  apply (environment_steps spec_db None spec_hash spec_codeof test_inc sb4 spec_codeof_hash
           ltac:(done) sb4_ok carol_world.2); [|apply carol_ok].
  apply (block_ok_read_account _ _ _ carol sb1 None); [apply sb1_ok|]. run_concrete.
Defined.
End concrete.
