(* ===== verification/Words.v ===== *)
(** * Machine words: the primitives of uint256

    src/category/core/runtime/uint256/portable.hpp (plain C++, used in
    constant evaluation) and .../intrinsics.hpp (compiler builtins and x86
    instructions, used at run time) implement the same seven operations.
    Each is a module here; [Class WordOps] is the interface the rest of
    uint256.hpp is written against ([if consteval portable else intrinsics])
    and [WordOpsLaws] is what uint256.hpp relies on.  The two instances are
    proved to satisfy the laws, the truncating multiplication of both in
    WordMul.v. *)
From S2P Require Import Prelude.

(** ** Effects and arrays

    A computation that cannot mutate anything but may hit a failed assertion,
    a hardware fault or an out-of-range access is an [outcome]. *)
#[global] Instance outcome_ret : MRet outcome := λ A a, Ok a.
#[global] Instance outcome_bind : MBind outcome := λ A B k m,
  match m with Ok a => k a | Abort => Abort | Throw s => Throw s end.

(** An array ([words_t<N>], or the array behind a pointer) is the list of its
    words, least significant first.  An access outside of the array, undefined
    in C++, is [Abort], so that a theorem that gives an [Ok] result also
    excludes such accesses. *)
Abbreviation words := (list Z).
Definition rd (l : words) (i : nat) : outcome Z :=
  match l !! i with Some x => Ok x | None => Abort end.
Definition wr (l : words) (i : nat) (x : Z) : outcome words :=
  match l !! i with Some _ => Ok (<[i:=x]> l) | None => Abort end.
(** [MONAD_ASSERT] and [MONAD_DEBUG_ASSERT] *)
Definition oassert (b : bool) : outcome unit := if b then Ok () else Abort.

(** ** Widths *)
Definition B : Z := 2 ^ 64.
Definition u8 (z : Z) : Z := z mod 2 ^ 8.
Definition u128 (z : Z) : Z := z mod 2 ^ 128.
(** reading a word as two's complement *)
Definition i64 (z : Z) : Z := if z <? 2 ^ 63 then z else z - 2 ^ 64.
Definition i8 (z : Z) : Z := if z <? 2 ^ 7 then z else z - 2 ^ 8.
Definition i128 (z : Z) : Z := if z <? 2 ^ 127 then z else z - 2 ^ 128.

(** The number an array of words stands for. *)
Fixpoint val (l : words) : Z :=
  match l with [] => 0 | w :: l => w + B * val l end.

Definition word_ok (w : Z) : Prop := 0 ≤ w < B.
Definition words_ok (l : words) : Prop := Forall word_ok l.
(** [B] to the power of a word count *)
Definition Bn (n : nat) : Z := B ^ Z.of_nat n.

(** ** portable.hpp *)
Module portable.
Definition addc (lhs rhs : Z) (carry_in : bool) : Z * bool :=
  let sum := u64 (lhs + rhs) in
  let carry_out := sum <? lhs in
  let sum_carry := u64 (sum + Z.b2z carry_in) in
  (sum_carry, carry_out || (sum_carry <? sum)).

Definition subb (lhs rhs : Z) (borrow_in : bool) : Z * bool :=
  let sub := u64 (lhs - rhs) in
  let borrow_out := lhs <? rhs in
  let sub_borrow := u64 (sub - Z.b2z borrow_in) in
  (sub_borrow, borrow_out || (sub <? Z.b2z borrow_in)).

Definition shld (high low shift : Z) : Z :=
  Z.lor (u64 (Z.shiftl high shift)) (Z.shiftr (Z.shiftr low 1) (63 - shift)).

Definition shrd (high low shift : Z) : Z :=
  Z.lor (Z.shiftr low shift) (u64 (Z.shiftl (u64 (Z.shiftl high 1)) (63 - shift))).

(** division by zero is undefined *)
Definition div (u_hi u_lo v : Z) : outcome (Z * Z) :=
  let u := Z.lor (Z.shiftl u_hi 64) u_lo in
  _ ← oassert (negb (v =? 0));
  mret (u64 (u / v), u64 (u mod v)).

Definition mulx (x y : Z) : Z * Z :=
  let prod := u128 (x * y) in
  (u64 (Z.shiftr prod 64), u64 prod).
End portable.

(** ** intrinsics.hpp, the single-word operations

    [__builtin_addcll], [__builtin_subcll] and the instructions [shldq],
    [shrdq], [div], [mulx], [addq]/[adcq] by their documented effect. *)
Module intrinsics.
Definition addc (lhs rhs : Z) (carry_in : bool) : Z * bool :=
  let s := lhs + rhs + Z.b2z carry_in in (u64 s, 2 ^ 64 <=? s).

Definition subb (lhs rhs : Z) (borrow_in : bool) : Z * bool :=
  let d := lhs - rhs - Z.b2z borrow_in in (u64 d, d <? 0).

(** the shift count is taken modulo 64; [shldq] shifts the high word left and
    fills with the most significant bits of the low word *)
Definition shld (high low shift : Z) : Z :=
  let c := Z.land shift 63 in
  u64 (Z.shiftr (Z.lor (Z.shiftl high 64) low) (64 - c)).

Definition shrd (high low shift : Z) : Z :=
  let c := Z.land shift 63 in
  u64 (Z.shiftr (Z.lor (Z.shiftl high 64) low) c).

(** [div] raises a fault when the divisor is zero or the quotient needs more
    than 64 bits *)
Definition div (u_hi u_lo v : Z) : outcome (Z * Z) :=
  let u := 2 ^ 64 * u_hi + u_lo in
  _ ← oassert (negb (v =? 0));
  _ ← oassert (u / v <? 2 ^ 64);
  mret (u / v, u mod v).

Definition mulx (x y : Z) : Z * Z := (x * y / 2 ^ 64, x * y mod 2 ^ 64).

Definition adc_3 (x_2 x_1 x_0 y_1 y_0 : Z) : Z * Z * Z :=
  let '(r_0, c) := addc x_0 y_0 false in
  let '(r_1, c) := addc x_1 y_1 c in
  let '(r_2, _) := addc x_2 0 c in
  (r_2, r_1, r_0).

(** the overload with one word added *)
Definition adc_2 (x_1 x_0 y_0 : Z) : Z * Z :=
  let '(r_0, c) := addc x_0 y_0 false in
  let '(r_1, _) := addc x_1 0 c in
  (r_1, r_0).

(** the overload with two words added *)
Definition adc_2_words (x_1 x_0 y_1 y_0 : Z) : Z * Z :=
  let '(r_0, c) := addc x_0 y_0 false in
  let '(r_1, _) := addc x_1 y_1 c in
  (r_1, r_0).
End intrinsics.

(** ** The interface

    [truncating_mul R x y] keeps the [R] low words of the product. *)
Class WordOps := {
  addc : Z → Z → bool → Z * bool;
  subb : Z → Z → bool → Z * bool;
  shld : Z → Z → Z → Z;
  shrd : Z → Z → Z → Z;
  div_unchecked : Z → Z → Z → outcome (Z * Z);
  mulx : Z → Z → Z * Z;
  truncating_mul : nat → words → words → outcome words;
}.

(** [div] asserts (in debug builds) that the quotient fits a word. *)
Definition div `{WordOps} (u_hi u_lo v : Z) : outcome (Z * Z) :=
  _ ← oassert (u_hi <? v);
  div_unchecked u_hi u_lo v.

Class WordOpsLaws (O : WordOps) := {
  addc_law l r c : word_ok l → word_ok r →
    addc l r c = ((l + r + Z.b2z c) mod B, B <=? l + r + Z.b2z c);
  subb_law l r c : word_ok l → word_ok r →
    subb l r c = ((l - r - Z.b2z c) mod B, l - r - Z.b2z c <? 0);
  shld_law h l s : word_ok h → word_ok l → 0 ≤ s < 64 →
    shld h l s = (h * 2 ^ s) mod B + l * 2 ^ s / B;
  shrd_law h l s : word_ok h → word_ok l → 0 ≤ s < 64 →
    shrd h l s = l / 2 ^ s + (h mod 2 ^ s) * 2 ^ (64 - s);
  div_unchecked_law h l v : word_ok h → word_ok l → word_ok v → h < v →
    div_unchecked h l v = Ok ((h * B + l) / v, (h * B + l) mod v);
  mulx_law x y : word_ok x → word_ok y →
    mulx x y = (x * y / B, (x * y) mod B);
  truncating_mul_law R x y : words_ok x → words_ok y →
    (0 < R ≤ length x + length y)%nat → (0 < length x)%nat → (0 < length y)%nat →
    ∃ r, truncating_mul R x y = Ok r ∧ words_ok r ∧ length r = R ∧
         val r = (val x * val y) mod Bn R;
}.

(** ** Words and their values *)
Lemma B_pos : 1 < B.
Proof. reflexivity. Qed.
Lemma B_split s : 0 ≤ s < 64 → B = 2 ^ s * 2 ^ (64 - s).
Proof. intros. unfold B. rewrite <- Z.pow_add_r by lia. f_equal. lia. Qed.
Lemma pow2_pos s : 0 ≤ s → 0 < 2 ^ s.
Proof. intros. apply Z.pow_pos_nonneg; lia. Qed.
Lemma Bn_0 : Bn 0 = 1.
Proof. reflexivity. Qed.
Lemma Bn_S n : Bn (S n) = B * Bn n.
Proof. unfold Bn. rewrite Nat2Z.inj_succ, Z.pow_succ_r; lia. Qed.
Lemma Bn_1 : Bn 1 = B.
Proof. reflexivity. Qed.
Lemma Bn_add n m : Bn (n + m) = Bn n * Bn m.
Proof. unfold Bn. rewrite Nat2Z.inj_add, Z.pow_add_r; lia. Qed.
Lemma Bn_pos n : 0 < Bn n.
Proof. apply Z.pow_pos_nonneg; [pose proof B_pos|]; lia. Qed.
Lemma Bn_le n m : (n ≤ m)%nat → Bn n ≤ Bn m.
Proof.
  intros. replace m with (n + (m - n))%nat by lia. rewrite Bn_add.
  pose proof (Bn_pos n). pose proof (Bn_pos (m - n)). nia.
Qed.
Lemma u64_B z : u64 z = z mod B.
Proof. reflexivity. Qed.
Lemma B_val : B = 2 ^ 64.
Proof. reflexivity. Qed.
#[global] Opaque B Bn.

Create HintDb words discriminated.
#[export] Hint Resolve Forall_nil_2 Forall_cons_2 Forall_take Forall_drop Forall_app_2 : words.

Lemma word_ok_mod z : word_ok (z mod B).
Proof. apply Z.mod_pos_bound. pose proof B_pos. lia. Qed.
Lemma word_ok_0 : word_ok 0.
Proof. pose proof B_pos. split; lia. Qed.
Lemma word_ok_u64 z : word_ok (u64 z).
Proof. apply word_ok_mod. Qed.
#[export] Hint Resolve word_ok_mod word_ok_0 word_ok_u64 : words.

Lemma words_ok_lookup l i x : words_ok l → l !! i = Some x → word_ok x.
Proof. unfold words_ok. intros H E. by eapply Forall_lookup_1 in H. Qed.
Lemma words_ok_insert l i x : words_ok l → word_ok x → words_ok (<[i:=x]> l).
Proof. intros. by apply Forall_insert. Qed.
Lemma words_ok_replicate n : words_ok (replicate n 0).
Proof. apply Forall_replicate, word_ok_0. Qed.
#[export] Hint Resolve words_ok_insert words_ok_replicate words_ok_lookup : words.

Lemma val_app l k : val (l ++ k) = val l + Bn (length l) * val k.
Proof.
  induction l as [|w l IH]; cbn [val app length].
  - rewrite Bn_0. lia.
  - rewrite IH, Bn_S. lia.
Qed.
Lemma val_replicate n : val (replicate n 0) = 0.
Proof. induction n as [|n IH]; cbn; [done|rewrite IH; lia]. Qed.
Lemma val_bound l : words_ok l → 0 ≤ val l < Bn (length l).
Proof.
  induction 1 as [|w l Hw Hl IH]; cbn [val length]; [rewrite Bn_0; lia|].
  rewrite Bn_S. unfold word_ok in Hw. pose proof B_pos. nia.
Qed.
Lemma val_insert l i x y : l !! i = Some x → val (<[i:=y]> l) = val l + Bn i * (y - x).
Proof.
  revert i. induction l as [|w l IH]; intros [|i] E; simplify_eq/=.
  - rewrite Bn_0. lia.
  - rewrite (IH i), Bn_S by done. lia.
Qed.
Lemma val_take_S l i x : l !! i = Some x → val (take (S i) l) = val (take i l) + Bn i * x.
Proof.
  intros E. rewrite (take_S_r _ _ _ E), val_app. cbn [val].
  rewrite length_take_le by (apply lookup_lt_Some in E; lia). lia.
Qed.
Lemma val_take l i : words_ok l → val (take i l) = val l mod Bn i.
Proof.
  intros H. destruct (decide (i ≤ length l)%nat) as [Hi|Hi].
  - rewrite <- (take_drop i l) at 2. rewrite val_app, length_take_le by done.
    pose proof (val_bound (take i l) ltac:(by apply Forall_take)) as Hb.
    rewrite length_take_le in Hb by done.
    rewrite Z.mul_comm, Z.mod_add by (pose proof (Bn_pos i); lia). by rewrite Z.mod_small.
  - rewrite take_ge by lia. rewrite Z.mod_small; [done|].
    pose proof (val_bound l H). pose proof (Bn_le (length l) i). lia.
Qed.
Lemma val_drop l i : words_ok l → val (drop i l) = val l / Bn i.
Proof.
  intros H. destruct (decide (i ≤ length l)%nat) as [Hi|Hi].
  - rewrite <- (take_drop i l) at 2. rewrite val_app, length_take_le by done.
    pose proof (val_bound (take i l) ltac:(by apply Forall_take)) as Hb.
    rewrite length_take_le in Hb by done. pose proof (Bn_pos i).
    rewrite Z.mul_comm, Z.div_add by lia. rewrite Z.div_small; lia.
  - rewrite drop_ge by lia. cbn. rewrite Z.div_small; [done|].
    pose proof (val_bound l H). pose proof (Bn_le (length l) i). lia.
Qed.
(** the digits of a number determine its words *)
Lemma val_lookup l i x : words_ok l → l !! i = Some x → x = val l / Bn i mod B.
Proof.
  intros H E. rewrite <- val_drop by done. rewrite (drop_S _ _ _ E). cbn [val].
  rewrite Z.mul_comm, Z.mod_add by (pose proof B_pos; lia).
  rewrite Z.mod_small; [done|]. by eapply words_ok_lookup.
Qed.
Lemma val_inj l k : words_ok l → words_ok k → length l = length k → val l = val k → l = k.
Proof.
  intros Hl. revert k. induction Hl as [|w l Hw Hl IH]; intros [|x k] Hk E V; try done.
  apply Forall_cons_iff in Hk as [Hx Hk]. cbn [val] in V. pose proof B_pos.
  unfold word_ok in *. assert (val l = val k) as Ev by nia. assert (w = x) as -> by nia.
  f_equal. apply IH; [done| |done]. by injection E.
Qed.

(** executes the leading bind of a computation whose first step is known *)
Lemma obind_Ok {A B} (a : A) (k : A → outcome B) : (Ok a ≫= k) = k a.
Proof. done. Qed.
Ltac ostep := rewrite ?obind_Ok; cbv beta iota zeta.

Lemma rd_Some l i x : l !! i = Some x → rd l i = Ok x.
Proof. unfold rd. by intros ->. Qed.
Lemma rd_lt l i : (i < length l)%nat → ∃ x, l !! i = Some x ∧ rd l i = Ok x.
Proof. intros [x E]%lookup_lt_is_Some_2. exists x. by rewrite (rd_Some _ _ _ E). Qed.
Lemma wr_lt l i x : (i < length l)%nat → wr l i x = Ok (<[i:=x]> l).
Proof. unfold wr. by intros [y ->]%lookup_lt_is_Some_2. Qed.
Lemma oassert_true b : b = true → oassert b = Ok ().
Proof. by intros ->. Qed.

(** ** The single-word operations meet the interface *)
Lemma mod_lo z : 0 ≤ z < B → z mod B = z.
Proof. intros. by apply Z.mod_small. Qed.
Lemma mod_hi z : B ≤ z < 2 * B → z mod B = z - B.
Proof. intros. symmetry. apply Z.mod_unique with 1; lia. Qed.
Lemma mod_neg z : - B ≤ z < 0 → z mod B = z + B.
Proof. intros. symmetry. apply Z.mod_unique with (-1); lia. Qed.

(** decides a [mod B] whose argument is within one wrap of the range *)
Ltac wrap_case :=
  match goal with
  | |- context [?z mod B] =>
      first [ rewrite (mod_lo z) by lia | rewrite (mod_hi z) by lia | rewrite (mod_neg z) by lia
            | destruct (Z.lt_ge_cases z B); destruct (Z.lt_ge_cases z 0) ]
  end.
Ltac bool_lia :=
  repeat match goal with
  | |- context [?a <? ?b] => destruct (Z.ltb_spec a b)
  | |- context [?a <=? ?b] => destruct (Z.leb_spec a b)
  end; simpl; try lia; try reflexivity.

Lemma portable_addc l r c : word_ok l → word_ok r →
  portable.addc l r c = ((l + r + Z.b2z c) mod B, B <=? l + r + Z.b2z c).
Proof.
  unfold word_ok, portable.addc. intros Hl Hr. rewrite !u64_B.
  rewrite Zplus_mod_idemp_l. f_equal.
  pose proof B_pos. destruct c; cbn [Z.b2z]; repeat wrap_case; bool_lia.
Qed.

Lemma portable_subb l r c : word_ok l → word_ok r →
  portable.subb l r c = ((l - r - Z.b2z c) mod B, l - r - Z.b2z c <? 0).
Proof.
  unfold word_ok, portable.subb. intros Hl Hr. rewrite !u64_B.
  rewrite Zminus_mod_idemp_l. f_equal.
  pose proof B_pos. destruct c; cbn [Z.b2z]; repeat wrap_case; bool_lia.
Qed.

Lemma lt_mul_pos a p q : 0 ≤ a < p → 0 < q → a < p * q.
Proof. nia. Qed.
(** a two-digit number *)
Lemma digit_bound a b p q : 0 ≤ a < p → 0 ≤ b < q → 0 ≤ a * q + b < p * q.
Proof. nia. Qed.

(** a disjunction of bits that do not overlap is a sum *)
Lemma lor_add a b n : 0 ≤ n → 0 ≤ b < 2 ^ n → Z.lor (a * 2 ^ n) b = a * 2 ^ n + b.
Proof.
  intros Hn Hb. assert (Z.land (a * 2 ^ n) b = 0).
  { apply Z.bits_inj_0. intros m. rewrite Z.land_spec, <- Z.shiftl_mul_pow2 by done.
    destruct (Z.lt_ge_cases m n); [by rewrite Z.shiftl_spec_low|].
    rewrite <- (Z.mod_small b (2 ^ n)), Z.mod_pow2_bits_high by lia. apply andb_false_r. }
  by rewrite Z.add_nocarry_lxor, Z.lxor_lor.
Qed.

Lemma shl_word h s : 0 ≤ s → u64 (Z.shiftl h s) = (h * 2 ^ s) mod B.
Proof. intros. by rewrite Z.shiftl_mul_pow2, u64_B. Qed.

(** shifting left and truncating drops the bits that leave the word *)
Lemma mul_pow_mod h s : 0 ≤ s < 64 → (h * 2 ^ s) mod B = h mod 2 ^ (64 - s) * 2 ^ s.
Proof.
  intros. rewrite (B_split s) by done. rewrite Z.mul_comm, Zmult_mod_distr_l. lia.
Qed.
Lemma mul_pow_div l s : 0 ≤ s < 64 → l * 2 ^ s / B = l / 2 ^ (64 - s).
Proof.
  intros. rewrite (B_split s), (Z.mul_comm l) by done.
  pose proof (pow2_pos s). pose proof (pow2_pos (64 - s)). apply Z.div_mul_cancel_l; lia.
Qed.
Lemma shr_bound l s : word_ok l → 0 ≤ s < 64 → 0 ≤ l / 2 ^ (64 - s) < 2 ^ s.
Proof.
  intros [? Hl] ?. pose proof (pow2_pos (64 - s)). split; [apply Z.div_pos; lia|].
  apply Z.div_lt_upper_bound; [lia|]. rewrite (B_split s) in Hl by done. lia.
Qed.
Lemma shr_bound' l s : word_ok l → 0 ≤ s < 64 → 0 ≤ l / 2 ^ s < 2 ^ (64 - s).
Proof.
  intros [? Hl] ?. pose proof (pow2_pos s). split; [apply Z.div_pos; lia|].
  apply Z.div_lt_upper_bound; [lia|]. rewrite (B_split s) in Hl by done. lia.
Qed.

Lemma portable_shld h l s : word_ok h → word_ok l → 0 ≤ s < 64 →
  portable.shld h l s = (h * 2 ^ s) mod B + l * 2 ^ s / B.
Proof.
  intros Hh Hl Hs. unfold portable.shld.
  rewrite shl_word, mul_pow_mod, mul_pow_div, Z.shiftr_shiftr, Z.shiftr_div_pow2 by lia.
  replace (1 + (63 - s)) with (64 - s) by lia. apply lor_add; [lia|]. by apply shr_bound.
Qed.

Lemma portable_shrd h l s : word_ok h → word_ok l → 0 ≤ s < 64 →
  portable.shrd h l s = l / 2 ^ s + (h mod 2 ^ s) * 2 ^ (64 - s).
Proof.
  intros Hh Hl Hs. unfold portable.shrd.
  rewrite (shl_word h), (shl_word _ (63 - s)), Z.shiftr_div_pow2 by lia.
  rewrite Zmult_mod_idemp_l, <- Z.mul_assoc.
  change (2 ^ 1) with 2. replace (2 * 2 ^ (63 - s)) with (2 ^ (64 - s))
    by (rewrite <- (Z.pow_succ_r 2) by lia; f_equal; lia).
  rewrite (B_split s), Zmult_mod_distr_r, Z.lor_comm, Z.add_comm by lia.
  apply lor_add; [lia|]. by apply shr_bound'.
Qed.

Lemma portable_div h l v : word_ok h → word_ok l → word_ok v → h < v →
  portable.div h l v = Ok ((h * B + l) / v, (h * B + l) mod v).
Proof.
  unfold word_ok. intros Hh Hl Hv Hlt. unfold portable.div.
  rewrite Z.shiftl_mul_pow2, lor_add, <- B_val by (rewrite <- ?B_val; lia).
  rewrite oassert_true by (destruct (Z.eqb_spec v 0); [lia|done]). cbn.
  unfold mret, outcome_ret. rewrite !u64_B. do 2 f_equal; apply Z.mod_small.
  - split; [apply Z.div_pos; nia|]. apply Z.div_lt_upper_bound; nia.
  - pose proof (Z.mod_pos_bound (h * B + l) v). lia.
Qed.

Lemma portable_mulx x y : word_ok x → word_ok y →
  portable.mulx x y = (x * y / B, (x * y) mod B).
Proof.
  unfold word_ok. intros Hx Hy. unfold portable.mulx, u128.
  assert (2 ^ 128 = B * B) as -> by (rewrite B_val; reflexivity).
  rewrite (Z.mod_small (x * y)), Z.shiftr_div_pow2, <- B_val, !u64_B by nia.
  f_equal. apply Z.mod_small. split; [apply Z.div_pos; nia|].
  apply Z.div_lt_upper_bound; nia.
Qed.

Lemma intrinsics_addc l r c : intrinsics.addc l r c = ((l + r + Z.b2z c) mod B, B <=? l + r + Z.b2z c).
Proof. unfold intrinsics.addc. by rewrite u64_B, B_val. Qed.
Lemma intrinsics_subb l r c : intrinsics.subb l r c = ((l - r - Z.b2z c) mod B, l - r - Z.b2z c <? 0).
Proof. unfold intrinsics.subb. by rewrite u64_B. Qed.

Lemma land_63 s : 0 ≤ s < 64 → Z.land s 63 = s.
Proof. intros. change 63 with (Z.ones 6). rewrite Z.land_ones by lia. apply Z.mod_small. lia. Qed.

Lemma intrinsics_shld h l s : word_ok h → word_ok l → 0 ≤ s < 64 →
  intrinsics.shld h l s = (h * 2 ^ s) mod B + l * 2 ^ s / B.
Proof.
  intros Hh Hl Hs. unfold intrinsics.shld.
  rewrite land_63, Z.shiftl_mul_pow2, lor_add, Z.shiftr_div_pow2, u64_B
    by (unfold word_ok in *; rewrite <- ?B_val; lia).
  rewrite <- B_val, mul_pow_div by done. rewrite (B_split s) at 1 by done.
  rewrite Z.mul_assoc, Z.add_comm, Z.div_add by (pose proof (pow2_pos (64 - s)); lia).
  rewrite Z.add_comm, Zplus_mod, (Z.mod_small (l / _)).
  2: { pose proof (shr_bound l s Hl Hs). rewrite (B_split s) by done.
       split; [lia|]. apply lt_mul_pos; [lia|]. apply pow2_pos. lia. }
  rewrite mul_pow_mod by done. pose proof (Z.mod_pos_bound h (2 ^ (64 - s)) (pow2_pos (64 - s) ltac:(lia))).
  pose proof (shr_bound l s Hl Hs). apply Z.mod_small. rewrite (B_split s), (Z.mul_comm (2 ^ s)) by done.
  by apply digit_bound.
Qed.

Lemma intrinsics_shrd h l s : word_ok h → word_ok l → 0 ≤ s < 64 →
  intrinsics.shrd h l s = l / 2 ^ s + (h mod 2 ^ s) * 2 ^ (64 - s).
Proof.
  intros Hh Hl Hs. unfold intrinsics.shrd. pose proof (pow2_pos s).
  rewrite land_63, Z.shiftl_mul_pow2, lor_add, Z.shiftr_div_pow2, u64_B
    by (unfold word_ok in *; rewrite <- ?B_val; lia).
  rewrite <- B_val, Z.add_comm. rewrite (B_split s) at 1 by done.
  rewrite (Z.mul_comm (2 ^ s)), Z.mul_assoc, Z.div_add by lia.
  pose proof (shr_bound' l s Hl Hs).
  rewrite (Z.div_mod h (2 ^ s)) at 1 by lia.
  pose proof (Z.mod_pos_bound h (2 ^ s)).
  replace (l / 2 ^ s + (2 ^ s * (h / 2 ^ s) + h mod 2 ^ s) * 2 ^ (64 - s))
    with (l / 2 ^ s + h mod 2 ^ s * 2 ^ (64 - s) + (h / 2 ^ s) * B) by (rewrite (B_split s) by done; lia).
  rewrite Z.mod_add by (pose proof B_pos; lia). apply Z.mod_small.
  rewrite (B_split s), Z.add_comm by done. apply digit_bound; lia.
Qed.

Lemma intrinsics_div h l v : word_ok h → word_ok l → word_ok v → h < v →
  intrinsics.div h l v = Ok ((h * B + l) / v, (h * B + l) mod v).
Proof.
  unfold word_ok. intros Hh Hl Hv Hlt. unfold intrinsics.div. rewrite <- B_val.
  rewrite (Z.mul_comm B), (oassert_true (negb (v =? 0))) by (destruct (Z.eqb_spec v 0); [lia|done]).
  cbn. rewrite oassert_true; [done|]. apply Z.ltb_lt, Z.div_lt_upper_bound; nia.
Qed.

Lemma intrinsics_mulx x y : intrinsics.mulx x y = (x * y / B, (x * y) mod B).
Proof. unfold intrinsics.mulx. by rewrite <- B_val. Qed.

(** *** The addition chains *)
Lemma addc_sum l r c : word_ok l → word_ok r →
  (l + r + Z.b2z c) mod B + B * Z.b2z (B <=? l + r + Z.b2z c) = l + r + Z.b2z c.
Proof.
  unfold word_ok. intros. pose proof B_pos.
  destruct c; cbn [Z.b2z]; wrap_case; bool_lia; wrap_case; lia.
Qed.

Lemma adc_2_spec x1 x0 y0 : word_ok x1 → word_ok x0 → word_ok y0 →
  ∃ r1 r0 e, intrinsics.adc_2 x1 x0 y0 = (r1, r0) ∧ word_ok r1 ∧ word_ok r0 ∧
    r0 + B * r1 = x0 + B * x1 + y0 - B * B * e.
Proof.
  intros H1 H0 Hy. unfold intrinsics.adc_2. rewrite !intrinsics_addc.
  pose proof (addc_sum x0 y0 false H0 Hy) as E0.
  pose proof (addc_sum x1 0 (B <=? x0 + y0 + Z.b2z false) H1 word_ok_0) as E1.
  eexists _, _, (Z.b2z (B <=? x1 + 0 + Z.b2z (B <=? x0 + y0 + Z.b2z false))).
  split_and!; [done|auto with words..|].
  cbn [Z.b2z] in *. apply (f_equal (Z.mul B)) in E1. lia.
Qed.

Lemma adc_2_words_spec x1 x0 y1 y0 : word_ok x1 → word_ok x0 → word_ok y1 → word_ok y0 →
  ∃ r1 r0 e, intrinsics.adc_2_words x1 x0 y1 y0 = (r1, r0) ∧ word_ok r1 ∧ word_ok r0 ∧
    r0 + B * r1 = x0 + B * x1 + y0 + B * y1 - B * B * e.
Proof.
  intros H1 H0 Hy1 Hy0. unfold intrinsics.adc_2_words. rewrite !intrinsics_addc.
  pose proof (addc_sum x0 y0 false H0 Hy0) as E0.
  pose proof (addc_sum x1 y1 (B <=? x0 + y0 + Z.b2z false) H1 Hy1) as E1.
  eexists _, _, (Z.b2z (B <=? x1 + y1 + Z.b2z (B <=? x0 + y0 + Z.b2z false))).
  split_and!; [done|auto with words..|].
  cbn [Z.b2z] in *. apply (f_equal (Z.mul B)) in E1. lia.
Qed.

Lemma adc_3_spec x2 x1 x0 y1 y0 :
  word_ok x2 → word_ok x1 → word_ok x0 → word_ok y1 → word_ok y0 →
  ∃ r2 r1 r0 e, intrinsics.adc_3 x2 x1 x0 y1 y0 = (r2, r1, r0) ∧
    word_ok r2 ∧ word_ok r1 ∧ word_ok r0 ∧
    r0 + B * r1 + B * B * r2 = x0 + B * x1 + B * B * x2 + y0 + B * y1 - B * B * B * e.
Proof.
  intros H2 H1 H0 Hy1 Hy0. unfold intrinsics.adc_3. rewrite !intrinsics_addc.
  pose proof (addc_sum x0 y0 false H0 Hy0) as E0.
  pose proof (addc_sum x1 y1 (B <=? x0 + y0 + Z.b2z false) H1 Hy1) as E1.
  pose proof (addc_sum x2 0 (B <=? x1 + y1 + Z.b2z (B <=? x0 + y0 + Z.b2z false)) H2 word_ok_0) as E2.
  eexists _, _, _, (Z.b2z (B <=? x2 + 0 + Z.b2z (B <=? x1 + y1 + Z.b2z (B <=? x0 + y0 + Z.b2z false)))).
  split_and!; [done|auto with words..|].
  cbn [Z.b2z] in *. apply (f_equal (Z.mul B)) in E1. apply (f_equal (Z.mul (B * B))) in E2. lia.
Qed.
