(* ===== verification/WordMul.v ===== *)
(** * Multi-word multiplication

    The two [truncating_mul<R, M, N>] of uint256/portable.hpp and
    uint256/intrinsics.hpp, both proved to return the [R] low words of the
    product, whatever the uninitialised result array of the second holds. *)
From S2P Require Import Prelude Words.

(** ** portable::truncating_mul

    [mul_row] is the inner loop: [cnt] is [M - i], the iterations left. *)
Fixpoint mul_row (cnt : nat) (R : nat) (x : words) (yj : Z) (j i : nat)
    (result : words) (carry : Z) : outcome (words * Z) :=
  match cnt with
  | O => mret (result, carry)
  | S cnt =>
      if (i + j <? R)%nat then
        xi ← rd x i;
        let '(hi, lo) := portable.mulx xi yj in
        rij ← rd result (i + j);
        let '(s0, c0) := portable.addc lo rij false in
        let '(s1, c1) := portable.addc s0 carry false in
        result ← wr result (i + j) s1;
        let '(s2, _) := portable.addc hi (Z.b2z c0) c1 in
        mul_row cnt R x yj j (S i) result s2
      else mret (result, carry)
  end.

(** The outer loop: [cnt] is [N - j]. *)
Fixpoint mul_rows (cnt : nat) (R M : nat) (x y : words) (j : nat) (result : words)
    : outcome words :=
  match cnt with
  | O => mret result
  | S cnt =>
      yj ← rd y j;
      '(result, carry) ← mul_row M R x yj j 0 result 0;
      result ← (if (j + M <? R)%nat then wr result (j + M) carry else mret result);
      mul_rows cnt R M x y (S j) result
  end.

Definition portable_truncating_mul (R : nat) (x y : words) : outcome words :=
  mul_rows (length y) R (length x) x y 0 (replicate R 0).

(** ** intrinsics::truncating_mul

    The recursive templates; [fuel] bounds the instantiation depth ([M] is
    enough for the first two, [N] for the last). *)
Fixpoint mul_line_recur (fuel I R M : nat) (x : words) (y : Z) (result : words) (carry : Z)
    : outcome words :=
  match fuel with
  | O => Abort
  | S fuel =>
      if (I <? Nat.min R M)%nat then
        if (I + 1 <? R)%nat then
          xI ← rd x I;
          let '(hi, lo) := intrinsics.mulx xI y in
          let '(carry, r) := intrinsics.adc_2 hi lo carry in
          result ← wr result I r;
          mul_line_recur fuel (I + 1) R M x y result carry
        else
          xI ← rd x I;
          wr result I (u64 (u64 (y * xI) + carry))
      else if (M <? R)%nat then wr result M carry
      else mret result
  end.

Definition mul_line (R M : nat) (x : words) (y : Z) (result : words) : outcome words :=
  x0 ← rd x 0;
  let '(carry, r) := intrinsics.mulx y x0 in
  result ← wr result 0 r;
  mul_line_recur (S M) 1 R M x y result carry.

Fixpoint mul_add_line_recur (fuel J I R M : nat) (x : words) (y_i : Z) (result : words)
    (c_hi c_lo : Z) : outcome words :=
  match fuel with
  | O => Abort
  | S fuel =>
      if ((J + 1 <? M) && (I + J <? R))%nat then
        if (I + J + 2 <? R)%nat then
          xJ ← rd x (J + 1);
          let '(hi, lo) := intrinsics.mulx xJ y_i in
          r ← rd result (I + J);
          let '(c_hi, c_lo, r) := intrinsics.adc_3 hi lo r c_hi c_lo in
          result ← wr result (I + J) r;
          mul_add_line_recur fuel (J + 1) I R M x y_i result c_hi c_lo
        else if (I + J + 1 <? R)%nat then
          xJ ← rd x (J + 1);
          let lo := u64 (xJ * y_i) in
          r ← rd result (I + J);
          let '(c_lo, r) := intrinsics.adc_2_words lo r c_hi c_lo in
          result ← wr result (I + J) r;
          mul_add_line_recur fuel (J + 1) I R M x y_i result c_hi c_lo
        else
          r ← rd result (I + J);
          result ← wr result (I + J) (u64 (r + c_lo));
          mul_add_line_recur fuel (J + 1) I R M x y_i result c_hi c_lo
      else if (I + M <? R)%nat then
        r ← rd result (I + M - 1);
        let '(r1, r0) := intrinsics.adc_2 c_hi c_lo r in
        result ← wr result (I + M) r1;
        wr result (I + M - 1) r0
      else if (I + M <? R + 1)%nat then
        r ← rd result (I + M - 1);
        wr result (I + M - 1) (u64 (r + c_lo))
      else mret result
  end.

Definition mul_add_line (I R M : nat) (x : words) (y_i : Z) (result : words) : outcome words :=
  x0 ← rd x 0;
  let '(c_hi, c_lo) :=
    if (I + 1 <? R)%nat then intrinsics.mulx x0 y_i else (0, u64 (x0 * y_i)) in
  mul_add_line_recur M 0 I R M x y_i result c_hi c_lo.

Fixpoint truncating_mul_recur (fuel I R M N : nat) (x y result : words) : outcome words :=
  match fuel with
  | O => Abort
  | S fuel =>
      if (I <? N)%nat then
        yI ← rd y I;
        result ← mul_add_line I R M x yI result;
        truncating_mul_recur fuel (I + 1) R M N x y result
      else mret result
  end.

(** [words_t<R> result;] leaves the array uninitialised: [uninit] is what it
    happens to hold. *)
Definition intrinsics_truncating_mul (uninit : nat → words) (R : nat) (x y : words)
    : outcome words :=
  y0 ← rd y 0;
  result ← mul_line R (length x) x y0 (uninit R);
  truncating_mul_recur (length y) 1 R (length x) (length y) x y result.

(** ** Lemmas on partial results *)
Lemma val_split l i : words_ok l → val l = val (take i l) + Bn i * val (drop i l).
Proof.
  intros. rewrite val_take, val_drop by done. pose proof (Bn_pos i).
  rewrite (Z.div_mod (val l) (Bn i)) at 1 by lia. lia.
Qed.
Lemma val_drop_S l i x : l !! i = Some x → val (drop i l) = x + B * val (drop (S i) l).
Proof. intros E. by rewrite (drop_S _ _ _ E). Qed.
Lemma val_drop_ge l i : (length l ≤ i)%nat → val (drop i l) = 0.
Proof. intros. by rewrite drop_ge. Qed.
Lemma val_take_insert l i L x y : (i < L)%nat → l !! i = Some x →
  val (take L (<[i:=y]> l)) = val (take L l) + Bn i * (y - x).
Proof.
  intros Hi E. rewrite take_insert_lt by done. apply val_insert.
  by rewrite lookup_take_lt.
Qed.
Lemma val_take_insert_ge l i L y : (L ≤ i)%nat → val (take L (<[i:=y]> l)) = val (take L l).
Proof. intros. by rewrite take_insert_ge. Qed.

(** the value of a result with [L] words is determined modulo [B^L] *)
Lemma val_take_mod l L T k : words_ok l → (L ≤ length l)%nat →
  val (take L l) = T + Bn L * k → val (take L l) = T mod Bn L.
Proof.
  intros Hl HL E. pose proof (val_bound (take L l) ltac:(by apply Forall_take)) as Hb.
  rewrite length_take_le in Hb by done.
  apply Z.mod_unique with (-k); [lia|]. rewrite E. lia.
Qed.
Lemma Bn_shift a b : (a ≤ b)%nat → Bn b = Bn a * Bn (b - a).
Proof. intros. rewrite <- Bn_add. f_equal. lia. Qed.
Lemma mod_mul_diff z m : m ≠ 0 → z mod m = z - m * (z / m).
Proof. intros. rewrite (Z.div_mod z m) at 2 by done. lia. Qed.
Lemma mul_split x y : (x * y) mod B + B * (x * y / B) = x * y.
Proof. rewrite (Z.div_mod (x * y) B) at 3 by (pose proof B_pos; lia). lia. Qed.
Lemma word_ok_mul_hi x y : word_ok x → word_ok y → word_ok (x * y / B).
Proof.
  unfold word_ok. intros. split; [apply Z.div_pos; nia|]. apply Z.div_lt_upper_bound; nia.
Qed.
#[export] Hint Resolve word_ok_mul_hi : words.
Lemma word_mul_bound x y : word_ok x → word_ok y → 0 ≤ x * y ≤ (B - 1) * (B - 1).
Proof. unfold word_ok. nia. Qed.

(** ** portable::truncating_mul is correct *)
Lemma portable_mul_step xi yj rij carry :
  word_ok xi → word_ok yj → word_ok rij → word_ok carry →
  ∃ hi lo s0 c0 s1 c1 s2 c2,
    portable.mulx xi yj = (hi, lo) ∧ portable.addc lo rij false = (s0, c0) ∧
    portable.addc s0 carry false = (s1, c1) ∧ portable.addc hi (Z.b2z c0) c1 = (s2, c2) ∧
    word_ok s1 ∧ word_ok s2 ∧ s1 + B * s2 = xi * yj + rij + carry.
Proof.
  intros Hx Hy Hr Hc. pose proof B_pos.
  assert (∀ b, word_ok (Z.b2z b)) as Hb by (unfold word_ok; intros []; simpl; lia).
  do 8 eexists. split_and!; [by apply portable_mulx|apply portable_addc; auto with words..| | |];
    [auto with words..|].
  pose proof (mul_split xi yj) as E. pose proof (word_mul_bound xi yj Hx Hy).
  pose proof (word_ok_mul_hi xi yj Hx Hy) as Hh. pose proof (word_ok_mod (xi * yj)) as Hlo.
  set (lo := (xi * yj) mod B) in *. set (hi := xi * yj / B) in *.
  pose proof (addc_sum lo rij false Hlo Hr) as E0.
  pose proof (addc_sum _ carry false (word_ok_mod (lo + rij + Z.b2z false)) Hc) as E1.
  set (c0 := B <=? lo + rij + Z.b2z false) in *. set (s0 := (lo + rij + Z.b2z false) mod B) in *.
  set (c1 := B <=? s0 + carry + Z.b2z false) in *.
  rewrite (Z.mod_small (hi + _ + _)).
  - cbn [Z.b2z] in *. lia.
  - pose proof (word_ok_mod (s0 + carry + Z.b2z false)). unfold word_ok in *.
    pose proof (Hb c0). pose proof (Hb c1). cbn [Z.b2z] in *. nia.
Qed.

Lemma mul_row_spec cnt R x yj j : ∀ i result carry,
  words_ok x → word_ok yj → words_ok result → word_ok carry →
  length result = R → (i + cnt = length x)%nat →
  ∃ result' carry' k, mul_row cnt R x yj j i result carry = Ok (result', carry') ∧
    words_ok result' ∧ word_ok carry' ∧ length result' = R ∧ (i ≤ k ≤ length x)%nat ∧
    (k = length x ∨ R ≤ k + j)%nat ∧ (∀ p, (k + j ≤ p)%nat → result' !! p = result !! p) ∧
    val result' + Bn (k + j) * carry' + Bn j * yj * val (take i x)
      = val result + Bn (i + j) * carry + Bn j * yj * val (take k x).
Proof.
  induction cnt as [|cnt IH]; intros i result carry Hx Hy Hr Hc HR Hi; cbn [mul_row].
  { exists result, carry, i. split_and!; try done; lia. }
  destruct (Nat.ltb_spec (i + j) R) as [Hlt|Hge].
  2: { exists result, carry, i. split_and!; try done; lia. }
  destruct (rd_lt x i) as (xi & Ex & ->); [lia|]. ostep.
  destruct (rd_lt result (i + j)) as (rij & Er & Er'); [lia|].
  destruct (portable_mul_step xi yj rij carry) as (hi & lo & s0 & c0 & s1 & c1 & s2 & c2 & -> & E);
    eauto with words.
  rewrite Er'. ostep. destruct E as (-> & -> & Es2 & Hs1 & Hs2 & E).
  rewrite wr_lt by lia. ostep. rewrite Es2.
  destruct (IH (S i) (<[(i + j)%nat:=s1]> result) s2) as (r' & c' & k & -> & ? & ? & ? & ? & ? & Hp & EV);
    eauto with words; [by rewrite length_insert|lia|].
  exists r', c', k. split_and!; try done; try lia.
  { intros p Hp'. rewrite Hp by done. apply list_lookup_insert_ne. lia. }
  rewrite (val_insert _ _ _ _ Er), (val_take_S _ _ _ Ex) in EV.
  rewrite Bn_add, Nat.add_succ_l, Bn_S, Bn_add in EV. rewrite !Bn_add in *.
  apply (f_equal (Z.mul (Bn i * Bn j))) in E. lia.
Qed.

(** the words above a small value are zero *)
Lemma val_lookup_high l i x : words_ok l → l !! i = Some x → val l < Bn i → x = 0.
Proof.
  intros Hl E Hlt. rewrite (val_lookup _ _ _ Hl E). pose proof (val_bound _ Hl).
  rewrite Z.div_small by lia. apply Z.mod_0_l. pose proof B_pos. lia.
Qed.
Lemma partial_product_bound x y j : words_ok x → words_ok y → (j ≤ length y)%nat →
  0 ≤ val x * val (take j y) < Bn (j + length x).
Proof.
  intros Hx Hy Hj. pose proof (val_bound x Hx).
  pose proof (val_bound (take j y) ltac:(by apply Forall_take)) as Hbj.
  rewrite length_take_le in Hbj by lia. rewrite Bn_add. nia.
Qed.

(** one row of the outer loop *)
Lemma mul_rows_step R x y j yj result :
  words_ok x → words_ok y → words_ok result → length result = R → y !! j = Some yj →
  val result = (val x * val (take j y)) mod Bn R →
  ∃ r1 c1 r2 e, mul_row (length x) R x yj j 0 result 0 = Ok (r1, c1) ∧
    (if (j + length x <? R)%nat then wr r1 (j + length x) c1 else mret r1) = Ok r2 ∧
    words_ok r2 ∧ length r2 = R ∧ val r2 = val result + Bn j * yj * val x + Bn R * e.
Proof.
  intros Hx Hy Hr HR Ey HV. pose proof (lookup_lt_Some _ _ _ Ey).
  destruct (mul_row_spec (length x) R x yj j 0 result 0) as
    (r1 & c1 & k & -> & Hr1 & Hc1 & HR1 & Hk & Hk' & Hp & EV); eauto with words.
  rewrite take_0 in EV. cbn [val] in EV. exists r1, c1.
  destruct (Nat.ltb_spec (j + length x) R) as [Hlt|Hge].
  - assert (k = length x) as -> by lia.
    rewrite wr_lt by lia. eexists _, 0. split_and!; [done|done|auto with words|by rewrite length_insert|].
    destruct (rd_lt r1 (j + length x)) as (w & Ew & _); [lia|].
    rewrite (val_insert _ _ _ _ Ew). rewrite firstn_all, Nat.add_comm in EV.
    rewrite Hp in Ew by lia. assert (w = 0) as ->; [|lia].
    apply (val_lookup_high _ _ _ Hr Ew). rewrite HV.
    pose proof (partial_product_bound x y j Hx Hy ltac:(lia)).
    pose proof (Bn_le (j + length x) R). rewrite Z.mod_small; lia.
  - eexists r1, _. split_and!; [done..|]. pose proof (val_split x k Hx) as Ex.
    assert (R ≤ k + j)%nat by lia. rewrite Ex. rewrite (Nat.add_comm k), Bn_add in EV.
    assert (Bn j * Bn k = Bn R * Bn (j + k - R)) as Es by (rewrite <- !Bn_add; f_equal; lia).
    transitivity (val result + Bn j * yj * (val (take k x) + Bn k * val (drop k x))
       + Bn R * (- Bn (j + k - R) * (c1 + yj * val (drop k x)))); [|reflexivity].
    apply (f_equal (λ z, z * (c1 + yj * val (drop k x)))) in Es. lia.
Qed.

Lemma mul_rows_spec cnt R x y : ∀ j result,
  words_ok x → words_ok y → words_ok result → length result = R →
  (j + cnt = length y)%nat → val result = (val x * val (take j y)) mod Bn R →
  ∃ result', mul_rows cnt R (length x) x y j result = Ok result' ∧
    words_ok result' ∧ length result' = R ∧ val result' = (val x * val y) mod Bn R.
Proof.
  induction cnt as [|cnt IH]; intros j result Hx Hy Hr HR Hj HV; cbn [mul_rows].
  { exists result. rewrite take_ge in HV by lia. done. }
  destruct (rd_lt y j) as (yj & Ey & ->); [lia|]. ostep.
  destruct (mul_rows_step R x y j yj result) as (r1 & c1 & r2 & e & -> & E2 & ? & ? & EV); try done.
  ostep. rewrite E2. ostep. apply IH; try done; [lia|].
  pose proof (val_bound r2 ltac:(done)) as Hb. replace (length r2) with R in Hb.
  rewrite <- (Z.mod_small (val r2) (Bn R)), EV by done.
  rewrite (Z.mul_comm (Bn R)), Z.mod_add by (pose proof (Bn_pos R); lia).
  rewrite HV, Zplus_mod_idemp_l, (val_take_S _ _ _ Ey). f_equal. lia.
Qed.

Lemma portable_truncating_mul_spec R x y : words_ok x → words_ok y →
  ∃ r, portable_truncating_mul R x y = Ok r ∧ words_ok r ∧ length r = R ∧
       val r = (val x * val y) mod Bn R.
Proof.
  intros. apply mul_rows_spec; auto with words; [apply length_replicate|].
  rewrite val_replicate, take_0. cbn. rewrite Z.mul_0_r, Z.mod_0_l; [done|].
  pose proof (Bn_pos R). lia.
Qed.

(** ** intrinsics::truncating_mul is correct *)
Lemma mul_line_recur_spec fuel R x y : ∀ I result carry,
  words_ok x → word_ok y → words_ok result → word_ok carry → length result = R →
  (length x < fuel + I)%nat → (1 ≤ I ≤ Nat.min R (length x))%nat →
  val (take I result) + Bn I * carry = y * val (take I x) →
  let L := Nat.min (1 + length x) R in
  ∃ result', mul_line_recur fuel I R (length x) x y result carry = Ok result' ∧
    words_ok result' ∧ length result' = R ∧
    val (take L result') = (y * val x) mod Bn L.
Proof.
  induction fuel as [|fuel IH]; intros I result carry Hx Hy Hr Hc HR Hf HI HV L; [lia|].
  cbn [mul_line_recur]. destruct (Nat.ltb_spec I (Nat.min R (length x))) as [Hlt|Hge].
  - destruct (rd_lt x I) as (xI & Ex & ->); [lia|]. ostep.
    pose proof (words_ok_lookup _ _ _ Hx Ex) as HxI.
    destruct (rd_lt result I) as (r & Er & _); [lia|].
    destruct (Nat.ltb_spec (I + 1) R) as [Hlt'|Hge'].
    + rewrite intrinsics_mulx. ostep.
      destruct (adc_2_spec (xI * y / B) ((xI * y) mod B) carry) as (r1 & r0 & e & -> & H1 & H0 & E);
        auto with words. ostep.
      rewrite wr_lt by lia. ostep. apply IH; auto with words; [by rewrite length_insert|lia|lia|].
      rewrite Nat.add_1_r, (val_take_S _ _ _ Ex).
      rewrite (val_take_S _ _ r0) by (rewrite list_lookup_insert_eq; auto; lia).
      rewrite val_take_insert_ge by lia.
      pose proof (mul_split xI y). pose proof (word_mul_bound xI y HxI Hy).
      assert (e = 0) as -> by (unfold word_ok in *; nia).
      assert (r0 + B * r1 = xI * y + carry) as E' by lia.
      apply (f_equal (Z.mul (Bn I))) in E'. rewrite Bn_S. lia.
    + rewrite wr_lt by lia. eexists. split_and!; [done|auto with words|by rewrite length_insert|].
      assert (L = S I) as -> by lia. rewrite !u64_B, Zplus_mod_idemp_l.
      pose proof (val_split x (S I) Hx) as E. rewrite (val_take_S _ _ _ Ex) in E.
      apply val_take_mod with (k := - ((y * xI + carry) / B) - y * val (drop (S I) x));
        [auto with words|rewrite length_insert; lia|].
      rewrite (val_take_S _ I ((y * xI + carry) mod B)) by (rewrite list_lookup_insert_eq; auto; lia).
      rewrite val_take_insert_ge, mod_mul_diff by (pose proof B_pos; lia). rewrite E, Bn_S. lia.
  - destruct (Nat.ltb_spec (length x) R) as [Hlt'|Hge'].
    + rewrite wr_lt by lia. eexists. split_and!; [done|auto with words|by rewrite length_insert|].
      assert (I = length x) as -> by lia. assert (L = S (length x)) as -> by lia.
      rewrite firstn_all in HV.
      apply val_take_mod with (k := 0); [auto with words|rewrite length_insert; lia|].
      rewrite (val_take_S _ _ carry) by (rewrite list_lookup_insert_eq; auto; lia).
      rewrite val_take_insert_ge by lia. lia.
    + exists result. split_and!; [done..|]. assert (L = I) as -> by lia.
      pose proof (val_split x I Hx) as E.
      apply val_take_mod with (k := - carry - y * val (drop I x)); [done|lia|]. rewrite E. lia.
Qed.

Lemma mul_line_spec R x y result :
  words_ok x → word_ok y → words_ok result → length result = R →
  (0 < length x)%nat → (0 < R)%nat →
  let L := Nat.min (1 + length x) R in
  ∃ result', mul_line R (length x) x y result = Ok result' ∧
    words_ok result' ∧ length result' = R ∧ val (take L result') = (y * val x) mod Bn L.
Proof.
  intros Hx Hy Hr HR HM HR0 L. unfold mul_line.
  destruct (rd_lt x 0) as (x0 & Ex & ->); [lia|]. ostep. rewrite intrinsics_mulx. ostep.
  pose proof (words_ok_lookup _ _ _ Hx Ex) as Hx0.
  rewrite wr_lt by lia. ostep.
  apply mul_line_recur_spec; auto with words; [by rewrite length_insert|lia|lia|].
  rewrite (val_take_S _ _ _ Ex), (val_take_S _ 0 ((y * x0) mod B))
    by (rewrite list_lookup_insert_eq; auto; lia).
  rewrite !take_0, Bn_0, Bn_1. cbn [val]. pose proof (mul_split y x0). lia.
Qed.

(** the three-word accumulator does not overflow *)
Lemma carry_zero S T K e : 0 ≤ S < K → 0 ≤ T < K → S = T - K * e → e = 0.
Proof. nia. Qed.
Lemma accumulator_bound r0 r1 r2 r c_hi c_lo p :
  word_ok r0 → word_ok r1 → word_ok r2 → word_ok r → word_ok c_hi → word_ok c_lo →
  0 ≤ p ≤ (B - 1) * (B - 1) →
  0 ≤ r0 + B * r1 + B * B * r2 < B * B * B ∧ 0 ≤ r + (c_lo + B * c_hi) + B * p < B * B * B.
Proof.
  unfold word_ok. intros. pose proof B_pos.
  assert (0 ≤ r1 + B * r2 < B * B) by nia. assert (0 ≤ c_hi + p ≤ (B - 1) * B) by nia.
  assert (0 ≤ B * (c_hi + p) ≤ B * ((B - 1) * B)) by nia.
  assert (0 ≤ B * (r1 + B * r2) ≤ B * (B * B - 1)) by nia. nia.
Qed.

Section mul_add_line.
Context (I R : nat) (x : words) (y_i : Z).
Hypothesis Hx : words_ok x.
Hypothesis Hy : word_ok y_i.
Let M := length x.
Let L := Nat.min (I + M) R.
Let L' := Nat.min (I + M + 1) R.

(** what the result accounts for once the rest of the line is added *)
Definition line_value (J : nat) (result : words) (c_hi c_lo : Z) : Z :=
  val (take L result) + Bn (I + J) * (c_lo + B * c_hi)
  + Bn (I + J + 1) * y_i * val (drop (J + 1) x).

Lemma line_value_step J result r xJ c_hi c_lo r' c_hi' c_lo' k :
  (I + J < L)%nat → result !! (I + J)%nat = Some r → x !! (J + 1)%nat = Some xJ →
  r' + B * (c_lo' + B * c_hi') + k = r + (c_lo + B * c_hi) + B * (xJ * y_i) →
  line_value (J + 1) (<[(I + J)%nat:=r']> result) c_hi' c_lo' + Bn (I + J) * k
    = line_value J result c_hi c_lo.
Proof.
  intros HL Er Ex E. unfold line_value.
  rewrite (val_take_insert _ _ _ _ _ HL Er), (val_drop_S _ _ _ Ex).
  replace (I + (J + 1))%nat with (S (I + J)) by lia.
  replace (S (I + J) + 1)%nat with (S (S (I + J))) by lia.
  replace (S (J + 1)) with (J + 1 + 1)%nat by lia.
  rewrite (Nat.add_1_r (I + J)), !Bn_S. apply (f_equal (Z.mul (Bn (I + J)))) in E. lia.
Qed.

Lemma mul_add_line_recur_spec fuel : ∀ J result c_hi c_lo T k,
  words_ok result → word_ok c_hi → word_ok c_lo → length result = R →
  (M ≤ fuel + J)%nat → (J < M)%nat →
  line_value J result c_hi c_lo = T + Bn L' * k →
  ∃ result' k', mul_add_line_recur fuel J I R M x y_i result c_hi c_lo = Ok result' ∧
    words_ok result' ∧ length result' = R ∧ val (take L' result') = T + Bn L' * k'.
Proof.
  induction fuel as [|fuel IH]; intros J result c_hi c_lo T k Hr Hh Hl HR Hf HJ HV; [lia|].
  cbn [mul_add_line_recur]. destruct ((J + 1 <? M)%nat && (I + J <? R)%nat) eqn:Eloop.
  - apply andb_true_iff in Eloop as [H1%Nat.ltb_lt H2%Nat.ltb_lt].
    assert (I + J < L)%nat by lia.
    destruct (rd_lt x (J + 1)) as (xJ & Ex & Ex'); [done|].
    pose proof (words_ok_lookup _ _ _ Hx Ex) as HxJ.
    destruct (rd_lt result (I + J)) as (r & Er & Er'); [lia|].
    pose proof (words_ok_lookup _ _ _ Hr Er) as Hrr.
    pose proof (mul_split xJ y_i). pose proof (word_mul_bound xJ y_i HxJ Hy).
    destruct (Nat.ltb_spec (I + J + 2) R); [|destruct (Nat.ltb_spec (I + J + 1) R)].
    + rewrite Ex'. ostep. rewrite intrinsics_mulx. ostep. rewrite Er'. ostep.
      destruct (adc_3_spec (xJ * y_i / B) ((xJ * y_i) mod B) r c_hi c_lo)
        as (r2 & r1 & r0 & e & -> & K2 & K1 & K0 & E); auto with words. ostep.
      rewrite wr_lt by lia. ostep.
      destruct (accumulator_bound r0 r1 r2 r c_hi c_lo (xJ * y_i)) as [HS HT]; try done.
      assert (e = 0) as -> by (apply (carry_zero _ _ _ _ HS HT); lia).
      apply IH with k; auto with words; [by rewrite length_insert|lia|].
      rewrite <- HV, <- (line_value_step J result r xJ c_hi c_lo r0 r2 r1 0); auto; lia.
    + rewrite Ex'. ostep. rewrite Er'. ostep.
      destruct (adc_2_words_spec (u64 (xJ * y_i)) r c_hi c_lo)
        as (r1 & r0 & e & -> & K1 & K0 & E); auto with words. ostep.
      rewrite wr_lt by lia. ostep. rewrite u64_B in E.
      pose proof (line_value_step J result r xJ c_hi c_lo r0 c_hi r1
        (B * B * (e + xJ * y_i / B - c_hi)) ltac:(done) Er Ex ltac:(lia)) as EL.
      apply IH with (k - (e + xJ * y_i / B - c_hi)); auto with words; [by rewrite length_insert|lia|].
      rewrite HV in EL. assert (L' = S (S (I + J))) as -> by lia. rewrite !Bn_S in *. lia.
    + rewrite Er'. ostep. rewrite wr_lt by lia. ostep. rewrite u64_B.
      pose proof (line_value_step J result r xJ c_hi c_lo ((r + c_lo) mod B) c_hi c_lo
        (B * ((r + c_lo) / B + c_hi + xJ * y_i - c_lo - B * c_hi)) ltac:(done) Er Ex) as EL.
      rewrite mod_mul_diff in EL by (pose proof B_pos; lia).
      apply IH with (k - ((r + c_lo) / B + c_hi + xJ * y_i - c_lo - B * c_hi));
        auto with words; [by rewrite length_insert|lia|].
      rewrite mod_mul_diff by (pose proof B_pos; lia).
      rewrite HV in EL. assert (L' = S (I + J)) as -> by lia. rewrite !Bn_S in *. lia.
  - apply andb_false_iff in Eloop as E. rewrite !Nat.ltb_ge in E. unfold line_value in HV.
    destruct (Nat.ltb_spec (I + M) R); [|destruct (Nat.ltb_spec (I + M) (R + 1))].
    + destruct (rd_lt result (I + M - 1)) as (r & Er & ->); [lia|]. ostep.
      destruct (adc_2_spec c_hi c_lo r) as (r1 & r0 & e & -> & K1 & K0 & Ea); eauto with words.
      ostep. rewrite wr_lt by lia. ostep. rewrite wr_lt by (rewrite length_insert; lia).
      eexists _, (k - e). split_and!; [done|auto with words|by rewrite !length_insert|].
      assert (J = M - 1)%nat as -> by lia. assert (L = I + M)%nat as -> by lia.
      assert (L' = S (I + M)) as EL' by lia. rewrite EL' in *.
      rewrite val_drop_ge in HV by lia.
      rewrite (val_take_insert _ _ _ r) by (lia || by rewrite list_lookup_insert_ne by lia).
      rewrite (val_take_S _ _ r1) by (rewrite list_lookup_insert_eq; auto; lia).
      rewrite val_take_insert_ge by lia.
      replace (I + M)%nat with (S (I + M - 1)) in * by lia. rewrite !Bn_S in *.
      replace (S (I + M - 1) - 1)%nat with (I + M - 1)%nat by lia.
      replace (I + (M - 1))%nat with (I + M - 1)%nat in HV by lia.
      apply (f_equal (Z.mul (Bn (I + M - 1)))) in Ea. lia.
    + destruct (rd_lt result (I + M - 1)) as (r & Er & ->); [lia|]. ostep. rewrite wr_lt by lia.
      rewrite u64_B. eexists _, (k - c_hi - (r + c_lo) / B).
      split_and!; [done|auto with words|by rewrite !length_insert|].
      assert (J = M - 1)%nat as -> by lia. assert (L' = L)%nat as EL by lia. rewrite EL in *.
      rewrite val_drop_ge in HV by lia. rewrite (val_take_insert _ _ _ r) by (done || lia).
      rewrite mod_mul_diff by (pose proof B_pos; lia).
      assert (Bn L = B * Bn (I + M - 1)) as EB by (rewrite <- Bn_S; f_equal; lia). rewrite EB in *.
      replace (I + (M - 1))%nat with (I + M - 1)%nat in HV by lia. lia.
    + assert (L' = L)%nat as EL by lia. rewrite EL in *. assert (L = R) as ER by lia.
      assert (∃ d, Bn (I + J) = Bn L * d) as [d Ed]; [|].
      { exists (Bn (I + J - L)). rewrite <- Bn_add. f_equal. lia. }
      eexists result, (k - d * (c_lo + B * c_hi) - d * B * y_i * val (drop (J + 1) x)).
      split_and!; [done..|]. rewrite (Nat.add_1_r (I + J)), Bn_S, Ed in HV. lia.
Qed.

Lemma mul_add_line_spec result T :
  words_ok result → length result = R → (0 < M)%nat →
  val (take L result) + Bn I * y_i * val x = T →
  ∃ result' k', mul_add_line I R M x y_i result = Ok result' ∧
    words_ok result' ∧ length result' = R ∧ val (take L' result') = T + Bn L' * k'.
Proof.
  intros Hr HR HM HV. unfold mul_add_line.
  destruct (rd_lt x 0) as (x0 & Ex & ->); [done|]. ostep.
  pose proof (words_ok_lookup _ _ _ Hx Ex) as Hx0. pose proof (mul_split x0 y_i) as Es.
  assert (val x = x0 + B * val (drop 1 x)) as Ev.
  { rewrite <- (val_drop_S x 0 x0 Ex). by rewrite drop_0. }
  assert (∀ c_hi c_lo k, word_ok c_hi → word_ok c_lo →
      Bn I * (c_lo + B * c_hi) = Bn I * (x0 * y_i) + Bn L' * k →
      ∃ result' k', mul_add_line_recur M 0 I R M x y_i result c_hi c_lo = Ok result' ∧
        words_ok result' ∧ length result' = R ∧ val (take L' result') = T + Bn L' * k') as Hrec.
  { intros c_hi c_lo k ? ? Ec. apply mul_add_line_recur_spec with k; auto; [lia|].
    unfold line_value. rewrite !Nat.add_0_r, Nat.add_1_r, Bn_S, Nat.add_0_l. lia. }
  destruct (Nat.ltb_spec (I + 1) R).
  - rewrite intrinsics_mulx. apply Hrec with 0; auto with words. rewrite Es. lia.
  - rewrite u64_B. assert (∃ d, B * Bn I = Bn L' * d) as [d Ed].
    { exists (Bn (S I - L')). rewrite <- Bn_S, <- Bn_add. f_equal. lia. }
    apply Hrec with (- d * (x0 * y_i / B)); auto with words.
    apply (f_equal (Z.mul (x0 * y_i / B))) in Ed. apply (f_equal (Z.mul (Bn I))) in Es. lia.
Qed.
End mul_add_line.

Lemma truncating_mul_recur_spec fuel R x y : ∀ I result,
  words_ok x → words_ok y → words_ok result → length result = R →
  (0 < length x)%nat → (1 ≤ I ≤ length y)%nat → (length y < fuel + I)%nat → (R ≤ length x + length y)%nat →
  let L := Nat.min (I + length x) R in
  val (take L result) = (val x * val (take I y)) mod Bn L →
  ∃ result', truncating_mul_recur fuel I R (length x) (length y) x y result = Ok result' ∧
    words_ok result' ∧ length result' = R ∧ val result' = (val x * val y) mod Bn R.
Proof.
  induction fuel as [|fuel IH]; intros I result Hx Hy Hr HR HM HI Hf HRMN L HV; [lia|].
  cbn [truncating_mul_recur]. destruct (Nat.ltb_spec I (length y)).
  - destruct (rd_lt y I) as (yI & Ey & ->); [done|]. ostep.
    edestruct (mul_add_line_spec I R x yI Hx) as (r' & k' & -> & Hr' & HR' & EV); eauto with words.
    ostep. fold L in EV. set (L' := Nat.min (I + length x + 1) R) in *.
    apply IH; auto; [lia..|]. rewrite Nat.add_1_r, (val_take_S _ _ _ Ey).
    replace (Nat.min (S I + length x) R) with L' by lia.
    assert (∃ e, (val x * val (take I y)) mod Bn L = val x * val (take I y) + Bn L' * e) as [e Ee].
    { destruct (decide (I + length x < R)%nat).
      - exists 0. rewrite Z.mod_small; [lia|]. replace L with (I + length x)%nat by lia.
        apply partial_product_bound; auto; lia.
      - exists (- (val x * val (take I y) / Bn L)). replace L' with L by lia.
        rewrite mod_mul_diff; [lia|]. pose proof (Bn_pos L). lia. }
    apply val_take_mod with (k := e + k'); [done|lia|]. rewrite EV, HV, Ee. lia.
  - exists result. split_and!; [done..|].
    rewrite (take_ge result) in HV by lia. rewrite (take_ge y) in HV by lia.
    by replace L with R in HV by lia.
Qed.

Lemma intrinsics_truncating_mul_spec uninit R x y : words_ok x → words_ok y →
  words_ok (uninit R) → length (uninit R) = R →
  (0 < R ≤ length x + length y)%nat → (0 < length x)%nat → (0 < length y)%nat →
  ∃ r, intrinsics_truncating_mul uninit R x y = Ok r ∧ words_ok r ∧ length r = R ∧
       val r = (val x * val y) mod Bn R.
Proof.
  intros Hx Hy Hu HR ? ? ?. unfold intrinsics_truncating_mul.
  destruct (rd_lt y 0) as (y0 & Ey & ->); [done|]. ostep.
  destruct (mul_line_spec R x y0 (uninit R)) as (r1 & -> & Hr1 & HR1 & EV); eauto with words; [lia|].
  ostep. apply truncating_mul_recur_spec; auto; [lia..|].
  rewrite EV, (val_take_S _ _ _ Ey), take_0, Bn_0. f_equal. cbn [val]. lia.
Qed.

(** ** The two instances of the interface *)
Definition portable_ops : WordOps := {|
  addc := portable.addc; subb := portable.subb; shld := portable.shld; shrd := portable.shrd;
  div_unchecked := portable.div; mulx := portable.mulx;
  truncating_mul := portable_truncating_mul;
|}.
Definition intrinsics_ops (uninit : nat → words) : WordOps := {|
  addc := intrinsics.addc; subb := intrinsics.subb; shld := intrinsics.shld; shrd := intrinsics.shrd;
  div_unchecked := intrinsics.div; mulx := intrinsics.mulx;
  truncating_mul := intrinsics_truncating_mul uninit;
|}.

#[global] Instance portable_laws : WordOpsLaws portable_ops.
Proof.
  split; [apply portable_addc|apply portable_subb|apply portable_shld|apply portable_shrd
    |apply portable_div|apply portable_mulx|].
  intros. by apply portable_truncating_mul_spec.
Qed.

#[global] Instance intrinsics_laws uninit :
  (∀ R, words_ok (uninit R) ∧ length (uninit R) = R) → WordOpsLaws (intrinsics_ops uninit).
Proof.
  intros Hu. split; [intros; apply intrinsics_addc|intros; apply intrinsics_subb|apply intrinsics_shld
    |apply intrinsics_shrd|apply intrinsics_div|intros; apply intrinsics_mulx|].
  intros. destruct (Hu R). by apply intrinsics_truncating_mul_spec.
Qed.
