(* ===== verification/WordDiv.v ===== *)
(** * Multi-word division

    [count_significant_words], [long_div], [knuth_div] and [udivrem] of
    src/category/core/runtime/uint256.hpp: Knuth's algorithm D with a single
    quotient pre-adjustment.  [udivrem] is proved to return quotient and
    remainder for arrays of any width, with no out-of-range access, no failed
    (debug) assertion and no divide fault on the way. *)
From S2P Require Import Prelude Words WordMul.

(** [std::countl_zero] of a 64-bit word *)
Definition countl_zero64 (w : Z) : Z := if w =? 0 then 64 else 63 - Z.log2 w.

(** [for (size_t i = N; i > 0; --i)] *)
Fixpoint significant_from (x : words) (i : nat) : nat :=
  match i with
  | O => 0
  | S i' => if default 0 (x !! i') =? 0 then significant_from x i' else i
  end.
Definition count_significant_words (x : words) : nat := significant_from x (length x).

Section division.
Context `{WordOps}.

(** [for (int i = m - 2; i >= 0; i--)]: [i] counts the iterations left. *)
Fixpoint long_div_loop (i : nat) (u : words) (v r : Z) (quot : words) : outcome (words * Z) :=
  match i with
  | O => mret (quot, r)
  | S ix =>
      ui ← rd u ix;
      '(q, r) ← div r ui v;
      quot ← wr quot ix q;
      long_div_loop ix u v r quot
  end.

Definition long_div (m : nat) (u : words) (v : Z) (quot : words) : outcome (words * Z) :=
  _ ← oassert (negb (m =? 0)%nat);
  _ ← oassert (negb (v =? 0));
  um ← rd u (m - 1);
  '(q, r) ← div 0 um v;
  quot ← wr quot (m - 1) q;
  long_div_loop (m - 1) u v r quot.

(** [u[ix+n .. ix] -= q_hat * v]: [cnt] is [n - j]; [k] is the borrow. *)
Fixpoint mul_sub_loop (cnt j ix : nat) (q_hat : Z) (v u : words) (k : Z) : outcome (words * Z) :=
  match cnt with
  | O => mret (u, k)
  | S cnt =>
      vj ← rd v j;
      let prod := u128 (q_hat * vj) in
      uj ← rd u (j + ix);
      let t := u128 (u128 (uj - k) - Z.land prod 0xffffffffffffffff) in
      u ← wr u (j + ix) (u64 t);
      let k := u128 (Z.shiftr prod 64 - u128 (Z.shiftr (i128 t) 64)) in
      mul_sub_loop cnt (S j) ix q_hat v u k
  end.

(** [u[ix+n .. ix] += v] *)
Fixpoint add_back_loop (cnt j ix : nat) (v u : words) (k : Z) : outcome (words * Z) :=
  match cnt with
  | O => mret (u, k)
  | S cnt =>
      uj ← rd u (ix + j);
      vj ← rd v j;
      let t := u128 (u128 (uj + vj) + k) in
      u ← wr u (ix + j) (u64 t);
      add_back_loop cnt (S j) ix v u (Z.shiftr t 64)
  end.

(** The quotient estimate of one iteration; [None] is the [continue] taken
    when it is zero. *)
Definition estimate_q_hat (n : nat) (v : words) (ix : nat) (u : words) : outcome (option Z) :=
  un ← rd u (ix + n);
  vn1 ← rd v (n - 1);
  _ ← oassert (un <=? vn1);
  if un =? vn1 then mret (Some (2 ^ 64 - 1))
  else
    un1 ← rd u (ix + n - 1);
    '(q_hat0, r_hat0) ← div un un1 vn1;
    if q_hat0 =? 0 then mret None
    else
      vn2 ← rd v (n - 2);
      un2 ← rd u (ix + n - 2);
      if u128 (u128 (Z.shiftl r_hat0 64) + un2) <? u128 (q_hat0 * vn2)
      then mret (Some (u128 (q_hat0 - 1)))
      else mret (Some q_hat0).

Definition knuth_step (n : nat) (v : words) (ix : nat) (u quot : words)
    : outcome (words * words) :=
  q ← estimate_q_hat n v ix u;
  match q with
  | None => mret (u, quot)
  | Some q_hat =>
      '(u, k) ← mul_sub_loop n 0 ix q_hat v u 0;
      un ← rd u (ix + n);
      let t := u128 (un - k) in
      u ← wr u (ix + n) (u64 t);
      '(u, q_hat) ←
        (if Z.shiftr t 127 =? 0 then mret (u, q_hat)
         else
           '(u, k) ← add_back_loop n 0 ix v u 0;
           un ← rd u (ix + n);
           u ← wr u (ix + n) (u64 (un + u64 k));
           mret (u, u128 (q_hat - 1)));
      quot ← wr quot ix (u64 q_hat);
      mret (u, quot)
  end.

(** [for (int i = m - n; i >= 0; i--)] *)
Fixpoint knuth_loop (cnt n : nat) (v u quot : words) : outcome (words * words) :=
  match cnt with
  | O => mret (u, quot)
  | S ix =>
      '(u, quot) ← knuth_step n v ix u quot;
      knuth_loop ix n v u quot
  end.

Definition knuth_div (m : nat) (u : words) (n : nat) (v quot : words)
    : outcome (words * words) :=
  _ ← oassert (n <=? m)%nat;
  _ ← oassert (1 <? n)%nat;
  vn1 ← rd v (n - 1);
  _ ← oassert (negb (Z.land vn1 (2 ^ 63) =? 0));
  knuth_loop (m - n + 1) n v u quot.

(** [x[0] << s; shld(x[i], x[i - 1], s) for 0 < i] *)
Fixpoint shl_words_from (prev : Z) (s : Z) (x : words) : words :=
  match x with
  | [] => []
  | w :: x => shld w prev s :: shl_words_from w s x
  end.
Definition shl_words (s : Z) (x : words) : words :=
  match x with
  | [] => []
  | w :: x => u64 (Z.shiftl w s) :: shl_words_from w s x
  end.

(** [shrd(x[i + 1], x[i], s); x[N - 1] >> s] *)
Fixpoint shr_words (s : Z) (x : words) : words :=
  match x with
  | [] => []
  | w :: x' =>
      match x' with
      | [] => [Z.shiftr w s]
      | h :: _ => shrd h w s :: shr_words s x'
      end
  end.

(** The first [N] words of an array: reading past its end is undefined. *)
Definition first_words (N : nat) (x : words) : outcome words :=
  if (N <=? length x)%nat then mret (take N x) else Abort.

(** [udivrem<M, N>(u, v)]: quotient of [M] words, remainder of [N] words *)
Definition udivrem (u v : words) : outcome (words * words) :=
  let M := length u in
  let N := length v in
  let m := count_significant_words u in
  let n := count_significant_words v in
  _ ← oassert (negb (n =? 0)%nat);
  if (m <? n)%nat then
    rem ← first_words N u;
    mret (replicate M 0, rem)
  else if (m =? 1)%nat then
    u0 ← rd u 0;
    v0 ← rd v 0;
    '(q0, r0) ← div 0 u0 v0;
    mret (<[0%nat:=q0]> (replicate M 0), <[0%nat:=r0]> (replicate N 0))
  else if (n =? 1)%nat then
    v0 ← rd v 0;
    '(quot, r) ← long_div m u v0 (replicate M 0);
    mret (quot, <[0%nat:=r]> (replicate N 0))
  else
    vn1 ← rd v (n - 1);
    let normalize_shift := u8 (countl_zero64 vn1) in
    uM ← rd u (M - 1);
    let u_norm := shl_words normalize_shift u
                  ++ [Z.shiftr (Z.shiftr uM 1) (63 - normalize_shift)] in
    let v_norm := shl_words normalize_shift v in
    '(u_norm, quot) ← knuth_div m u_norm n v_norm (replicate M 0);
    rem ← first_words N u_norm;
    mret (quot, shr_words normalize_shift rem).
End division.


(** ** Significant words *)
Lemma significant_from_spec x i : words_ok x → (i ≤ length x)%nat → val x < Bn i →
  let n := significant_from x i in
  (n ≤ i)%nat ∧ val x < Bn n ∧ (n ≠ 0%nat → ∃ w, x !! (n - 1)%nat = Some w ∧ w ≠ 0).
Proof.
  intros Hx. induction i as [|i IH]; intros Hi Hv; cbn.
  { split_and!; [lia|done|done]. }
  destruct (lookup_lt_is_Some_2 x i) as [w Ew]; [lia|]. rewrite Ew. cbn.
  destruct (Z.eqb_spec w 0) as [->|Hw].
  - destruct IH as (? & ? & ?); [lia| |split_and!; [lia|done|done]].
    rewrite (val_split x i Hx). rewrite (val_drop_S _ _ _ Ew).
    assert (val (drop (S i) x) = 0) as ->.
    { rewrite val_drop by done. apply Z.div_small. pose proof (val_bound x Hx). lia. }
    pose proof (val_bound (take i x) ltac:(by apply Forall_take)) as Hb.
    rewrite length_take_le in Hb by lia. lia.
  - split_and!; [lia|done|]. intros _. exists w. by replace (S i - 1)%nat with i by lia.
Qed.

Lemma count_significant_words_spec x : words_ok x →
  let n := count_significant_words x in
  (n ≤ length x)%nat ∧ val x < Bn n ∧ (n ≠ 0%nat → ∃ w, x !! (n - 1)%nat = Some w ∧ w ≠ 0).
Proof. intros. by apply significant_from_spec; [..|apply val_bound]. Qed.

(** the top word bounds the value from below *)
Lemma val_lookup_le x i w : words_ok x → x !! i = Some w → Bn i * w ≤ val x.
Proof.
  intros Hx E. rewrite (val_split x i Hx), (val_drop_S _ _ _ E).
  pose proof (val_bound (take i x) ltac:(by apply Forall_take)).
  pose proof (val_bound (drop (S i) x) ltac:(by apply Forall_drop)).
  pose proof (Bn_pos i). pose proof B_pos. nia.
Qed.
Lemma count_significant_words_0 x : words_ok x → count_significant_words x = 0%nat ↔ val x = 0.
Proof.
  intros Hx. destruct (count_significant_words_spec x Hx) as (_ & Hv & Hw).
  pose proof (val_bound x Hx). split.
  - intros E. rewrite E, Bn_0 in Hv. lia.
  - intros E. destruct (decide (count_significant_words x = 0%nat)) as [|Hn]; [done|].
    destruct (Hw Hn) as (w & Ew & Hw0). pose proof (val_lookup_le _ _ _ Hx Ew).
    pose proof (words_ok_lookup _ _ _ Hx Ew). pose proof (Bn_pos (count_significant_words x - 1)).
    unfold word_ok in *. nia.
Qed.
Lemma count_significant_words_le x : words_ok x → (0 < count_significant_words x)%nat →
  Bn (count_significant_words x - 1) ≤ val x.
Proof.
  intros Hx Hn. destruct (count_significant_words_spec x Hx) as (_ & _ & Hw).
  destruct Hw as (w & Ew & Hw0); [lia|]. pose proof (val_lookup_le _ _ _ Hx Ew).
  pose proof (words_ok_lookup _ _ _ Hx Ew). pose proof (Bn_pos (count_significant_words x - 1)).
  unfold word_ok in *. nia.
Qed.

(** ** Knuth's estimate

    [U] is the current dividend, [V] the normalised divisor; [u2 u1 u0] and
    [v1 v0] are their leading words, [X] is the weight of [v0] and [P] that of
    the quotient digit. *)
Section estimate.
Context (U V P X u2 u1 u0 v1 v0 lu lv : Z).
Hypothesis EU : U = lu + P * X * (u0 + B * (u1 + B * u2)).
Hypothesis EV : V = lv + X * (v0 + B * v1).
Hypothesis Hlu : 0 ≤ lu < P * X.
Hypothesis Hlv : 0 ≤ lv < X.
Hypothesis HP : 0 < P.
Hypothesis Hu : word_ok u2 ∧ word_ok u1 ∧ word_ok u0.
Hypothesis Hv : word_ok v1 ∧ word_ok v0.
Hypothesis Hnorm : B ≤ 2 * v1.

Lemma V_lower k : 0 ≤ k → P * X * (k * (v0 + B * v1)) ≤ k * V * P.
Proof.
  intros. assert (X * (v0 + B * v1) ≤ V) by lia.
  assert (k * (X * (v0 + B * v1)) ≤ k * V) by nia.
  assert (k * (X * (v0 + B * v1)) * P ≤ k * V * P) by nia. lia.
Qed.
Lemma V_upper k : 0 ≤ k → k * V * P ≤ P * X * (k * (v0 + B * v1 + 1)).
Proof.
  intros. assert (V ≤ X * (v0 + B * v1 + 1)) by lia.
  assert (k * V ≤ k * (X * (v0 + B * v1 + 1))) by nia.
  assert (k * V * P ≤ k * (X * (v0 + B * v1 + 1)) * P) by nia. lia.
Qed.
Lemma U_upper t : u0 + B * (u1 + B * u2) < t → U < P * X * t.
Proof. intros. rewrite EU. assert (0 < P * X) by nia. nia. Qed.
Lemma U_lower t : t ≤ u0 + B * (u1 + B * u2) → P * X * t ≤ U.
Proof. intros. rewrite EU. assert (0 < P * X) by nia. nia. Qed.

(** the branch with equal leading words: at most one correction *)
Lemma estimate_equal : u2 = v1 → (B - 1 - 1) * V * P ≤ U.
Proof.
  intros E. destruct Hu as (? & ? & ?), Hv. unfold word_ok in *. pose proof B_pos.
  pose proof (V_upper (B - 2) ltac:(lia)).
  assert ((B - 2) * (v0 + B * v1 + 1) ≤ u0 + B * (u1 + B * u2)) as Hle.
  { assert ((B - 2) * (v1 + 1) ≤ B * v1) by nia.
    assert ((B - 2) * (v0 + B * v1 + 1) ≤ (B - 2) * (B * (v1 + 1))) by nia.
    assert (B * ((B - 2) * (v1 + 1)) ≤ B * (B * v1)) by nia. nia. }
  apply U_lower in Hle. lia.
Qed.

Lemma estimate_spec q r : u2 < v1 → u2 * B + u1 = v1 * q + r → 0 ≤ r < v1 → 0 ≤ q < B →
  let q' := if r * B + u0 <? q * v0 then q - 1 else q in
  (q' - 1) * V * P ≤ U < (q' + 1) * V * P.
Proof.
  intros Hlt Eq Hr Hq. destruct Hu as (? & ? & ?), Hv. unfold word_ok in *. pose proof B_pos.
  assert (0 < V) by (assert (0 ≤ v0 + B * v1 ∧ 1 ≤ v0 + B * v1) by nia; nia).
  assert (0 ≤ U) by (pose proof (U_lower 0 ltac:(nia)); lia).
  destruct (Z.ltb_spec (r * B + u0) (q * v0)) as [Ht|Ht]; cbv zeta.
  - split.
    + destruct (Z.lt_ge_cases q 2); [nia|].
      pose proof (V_upper (q - 2) ltac:(lia)).
      assert ((q - 2) * (v0 + B * v1 + 1) ≤ u0 + B * (u1 + B * u2)) as Hle.
      { assert ((q - 2) * (v0 + B * v1 + 1) ≤ (q - 2) * (B * (v1 + 1)))
          by (apply Z.mul_le_mono_nonneg_l; lia).
        assert ((q - 2) * (v1 + 1) ≤ u2 * B + u1) by lia.
        assert (B * ((q - 2) * (v1 + 1)) ≤ B * (u2 * B + u1))
          by (apply Z.mul_le_mono_nonneg_l; lia). lia. }
      apply U_lower in Hle. lia.
    + pose proof (V_lower q ltac:(lia)).
      assert (u0 + B * (u1 + B * u2) < q * (v0 + B * v1)) as Hlt' by nia.
      apply U_upper in Hlt'. lia.
  - split.
    + destruct (Z.eq_dec q 0) as [->|]; [nia|].
      pose proof (V_upper (q - 1) ltac:(lia)).
      assert ((q - 1) * (v0 + B * v1 + 1) ≤ u0 + B * (u1 + B * u2)) as Hle.
      { assert (q * (v0 + B * v1) ≤ u0 + B * (u1 + B * u2)) by nia. nia. }
      apply U_lower in Hle. lia.
    + pose proof (V_lower (q + 1) ltac:(lia)).
      assert (u0 + B * (u1 + B * u2) < (q + 1) * (v0 + B * v1)) as Hlt' by nia.
      apply U_upper in Hlt'. lia.
Qed.
End estimate.

(** ** 128-bit arithmetic *)
Lemma BB_val : 2 ^ 128 = B * B.
Proof. rewrite B_val. reflexivity. Qed.
Lemma u128_small z : 0 ≤ z < B * B → u128 z = z.
Proof. intros. unfold u128. apply Z.mod_small. by rewrite BB_val. Qed.
Lemma u64_u128 z : u64 (u128 z) = z mod B.
Proof.
  unfold u128. rewrite u64_B, BB_val. apply Z.mod_mod_divide. by exists B.
Qed.
Lemma i128_u128 z : - (B * B) ≤ 2 * z < B * B → i128 (u128 z) = z.
Proof.
  intros Hz. unfold i128, u128. pose proof BB_val as E.
  assert (2 ^ 128 = 2 * 2 ^ 127) as E2 by reflexivity. rewrite E2 in *.
  set (H := 2 ^ 127) in *. clearbody H. clear E2.
  destruct (Z.lt_ge_cases z 0).
  - replace (z mod (2 * H)) with (z + 2 * H) by (apply Z.mod_unique with (-1); lia).
    destruct (Z.ltb_spec (z + 2 * H) H); lia.
  - rewrite Z.mod_small by lia. destruct (Z.ltb_spec z H); lia.
Qed.
(** bit 127 of a wrapped difference is its sign *)
Lemma sign_bit_u128 z : - (B * B) ≤ 2 * z < B * B → (Z.shiftr (u128 z) 127 =? 0) = (0 <=? z).
Proof.
  intros Hz. unfold u128. pose proof BB_val as E. rewrite Z.shiftr_div_pow2 by done.
  assert (2 ^ 128 = 2 * 2 ^ 127) as E2 by reflexivity. rewrite E2 in *.
  assert (0 < 2 ^ 127) as Hpos by done.
  set (H := 2 ^ 127) in *. clearbody H. clear E2.
  destruct (Z.leb_spec 0 z).
  - rewrite Z.mod_small, Z.div_small by lia. done.
  - replace (z mod (2 * H)) with (z + 2 * H) by (apply Z.mod_unique with (-1); lia).
    replace ((z + 2 * H) / H) with 1; [done|]. apply Z.div_unique with (z + H); lia.
Qed.
Lemma land_ones64 z : Z.land z 0xffffffffffffffff = z mod B.
Proof. rewrite B_val. change 0xffffffffffffffff with (Z.ones 64). by apply Z.land_ones. Qed.
Lemma shiftr64 z : Z.shiftr z 64 = z / B.
Proof. rewrite B_val. by apply Z.shiftr_div_pow2. Qed.

(** One step of the multiply-and-subtract loop: the word and the new borrow. *)
Lemma mul_sub_step uj k q vj :
  word_ok uj → word_ok k → word_ok q → word_ok vj →
  let prod := u128 (q * vj) in
  let t := u128 (u128 (uj - k) - Z.land prod 0xffffffffffffffff) in
  let k' := u128 (Z.shiftr prod 64 - u128 (Z.shiftr (i128 t) 64)) in
  word_ok k' ∧ u64 t - B * k' = uj - k - q * vj.
Proof.
  intros Hu Hk Hq Hv. pose proof B_pos. pose proof (word_mul_bound q vj Hq Hv) as Hp.
  unfold word_ok in *. cbv zeta. rewrite (u128_small (q * vj)) by nia.
  rewrite land_ones64, !shiftr64.
  assert (u128 (u128 (uj - k) - (q * vj) mod B) = u128 (uj - k - (q * vj) mod B)) as ->
    by (unfold u128; by rewrite Zminus_mod_idemp_l).
  pose proof (Z.mod_pos_bound (q * vj) B ltac:(lia)).
  rewrite i128_u128, u64_u128 by nia.
  set (z := uj - k - q * vj).
  assert (uj - k - (q * vj) mod B = z + q * vj / B * B) as ->.
  { unfold z. rewrite (Z.div_mod (q * vj) B) at 2 by lia. lia. }
  rewrite Z.div_add, Z.mod_add by lia.
  assert (- B < z / B ≤ 0) as Hz.
  { pose proof (Z.div_lt_upper_bound z B 1 ltac:(lia) ltac:(unfold z; lia)).
    pose proof (Z.div_le_lower_bound z B (- (B - 1)) ltac:(lia) ltac:(unfold z; lia)). lia. }
  assert (u128 (q * vj / B - u128 (z / B + q * vj / B)) = - (z / B)) as ->.
  { unfold u128. rewrite Zminus_mod_idemp_r. rewrite BB_val, Z.mod_small by nia. lia. }
  rewrite mod_mul_diff by lia. lia.
Qed.

Lemma mul_sub_loop_spec cnt ix q v : ∀ j u k,
  words_ok v → words_ok u → word_ok q → word_ok k →
  (j + cnt ≤ length v)%nat → (j + cnt + ix ≤ length u)%nat →
  let n := (j + cnt)%nat in
  ∃ u' k', mul_sub_loop cnt j ix q v u k = Ok (u', k') ∧
    words_ok u' ∧ word_ok k' ∧ length u' = length u ∧
    (∀ p, (n + ix ≤ p)%nat → u' !! p = u !! p) ∧
    val u' - Bn (n + ix) * k' - Bn ix * q * val (take j v)
      = val u - Bn (j + ix) * k - Bn ix * q * val (take n v).
Proof.
  induction cnt as [|cnt IH]; intros j u k Hv Hu Hq Hk Hlv Hlu n; cbn [mul_sub_loop].
  { exists u, k. unfold n. rewrite Nat.add_0_r. done. }
  destruct (rd_lt v j) as (vj & Ev & ->); [lia|]. ostep.
  destruct (rd_lt u (j + ix)) as (uj & Eu & ->); [lia|]. ostep.
  rewrite wr_lt by lia. ostep.
  edestruct (mul_sub_step uj k q vj) as [Hk' Es]; eauto with words. cbv zeta in Hk', Es.
  edestruct (IH (S j)) as (u' & k' & -> & ? & ? & Hlen & Hp & E); [done| |done|exact Hk'|lia| |].
  - eauto with words.
  - rewrite length_insert. lia.
  - rewrite length_insert in Hlen. replace (S j + cnt)%nat with n in * by lia.
    exists u', k'. split_and!; auto.
    { intros p Hp'. rewrite Hp by done. apply list_lookup_insert_ne. lia. }
    rewrite (val_insert _ _ _ _ Eu), (val_take_S _ _ _ Ev), Nat.add_succ_l, Bn_S in E.
    rewrite !Bn_add in *. apply (f_equal (Z.mul (Bn j * Bn ix))) in Es. lia.
Qed.

Lemma add_back_step uj vj k : word_ok uj → word_ok vj → 0 ≤ k ≤ 1 →
  let t := u128 (u128 (uj + vj) + k) in
  0 ≤ Z.shiftr t 64 ≤ 1 ∧ u64 t + B * Z.shiftr t 64 = uj + vj + k.
Proof.
  unfold word_ok. intros. pose proof B_pos. cbv zeta.
  assert (2 * B ≤ B * B) by nia.
  rewrite (u128_small (uj + vj)), u128_small, shiftr64, u64_B by lia.
  pose proof (Z.div_mod (uj + vj + k) B ltac:(lia)). split; [|lia].
  split; [apply Z.div_pos; lia|]. apply Z.lt_succ_r, Z.div_lt_upper_bound; lia.
Qed.

Lemma add_back_loop_spec cnt ix v : ∀ j u k,
  words_ok v → words_ok u → 0 ≤ k ≤ 1 →
  (j + cnt ≤ length v)%nat → (ix + (j + cnt) ≤ length u)%nat →
  let n := (j + cnt)%nat in
  ∃ u' k', add_back_loop cnt j ix v u k = Ok (u', k') ∧
    words_ok u' ∧ 0 ≤ k' ≤ 1 ∧ length u' = length u ∧
    (∀ p, (ix + n ≤ p)%nat → u' !! p = u !! p) ∧
    val u' + Bn (ix + n) * k' + Bn ix * val (take j v)
      = val u + Bn (ix + j) * k + Bn ix * val (take n v).
Proof.
  induction cnt as [|cnt IH]; intros j u k Hv Hu Hk Hlv Hlu n; cbn [add_back_loop].
  { exists u, k. unfold n. rewrite Nat.add_0_r. done. }
  destruct (rd_lt u (ix + j)) as (uj & Eu & ->); [lia|]. ostep.
  destruct (rd_lt v j) as (vj & Ev & ->); [lia|]. ostep.
  rewrite wr_lt by lia. ostep.
  edestruct (add_back_step uj vj k) as [Hk' Es]; eauto with words. cbv zeta in Hk', Es.
  edestruct (IH (S j)) as (u' & k' & -> & ? & ? & Hlen & Hp & E); [done| |exact Hk'|lia| |].
  - eauto with words.
  - rewrite length_insert. lia.
  - rewrite length_insert in Hlen. replace (S j + cnt)%nat with n in * by lia.
    exists u', k'. split_and!; try done; try lia.
    { intros p Hp'. rewrite Hp by done. apply list_lookup_insert_ne. lia. }
    rewrite (val_insert _ _ _ _ Eu), (val_take_S _ _ _ Ev), Nat.add_succ_r, Bn_S in E.
    rewrite !Bn_add in *. apply (f_equal (Z.mul (Bn j * Bn ix))) in Es. lia.
Qed.

Section correctness.
Context `{L : WordOpsLaws}.

Lemma div_spec h l v : word_ok h → word_ok l → word_ok v → h < v →
  div h l v = Ok ((h * B + l) / v, (h * B + l) mod v).
Proof.
  intros. unfold div. rewrite oassert_true by (by apply Z.ltb_lt). ostep.
  by apply div_unchecked_law.
Qed.
Lemma div_word h l v : word_ok h → word_ok l → word_ok v → h < v →
  word_ok ((h * B + l) / v) ∧ word_ok ((h * B + l) mod v) ∧ (h * B + l) mod v < v.
Proof.
  unfold word_ok. intros. pose proof (Z.mod_pos_bound (h * B + l) v). split_and!; try lia.
  - apply Z.div_pos; nia.
  - apply Z.div_lt_upper_bound; nia.
Qed.

(** ** Division by one word *)
Lemma long_div_loop_spec i u v : ∀ r quot,
  words_ok u → words_ok quot → word_ok v → word_ok r → r < v →
  (i ≤ length u)%nat → (i ≤ length quot)%nat →
  ∃ quot' r', long_div_loop i u v r quot = Ok (quot', r') ∧
    words_ok quot' ∧ length quot' = length quot ∧ 0 ≤ r' < v ∧
    drop i quot' = drop i quot ∧
    Bn i * r + val (take i u) = v * val (take i quot') + r'.
Proof.
  induction i as [|i IH]; intros r quot Hu Hq Hv Hr Hrv Hi Hi'; cbn [long_div_loop].
  { exists quot, r. rewrite !take_0, Bn_0. cbn [val]. unfold word_ok in *. split_and!; auto; lia. }
  destruct (rd_lt u i) as (ui & Eu & ->); [lia|]. ostep.
  pose proof (words_ok_lookup _ _ _ Hu Eu) as Hui. rewrite div_spec by done. ostep.
  destruct (div_word r ui v) as (Hq' & Hr' & Hlt); [done..|].
  rewrite wr_lt by lia. ostep.
  destruct (IH ((r * B + ui) mod v) (<[i:=(r * B + ui) / v]> quot)) as
    (quot' & r' & -> & ? & Hl & ? & Hd & E); auto with words; [lia|rewrite length_insert; lia|].
  rewrite length_insert in Hl.
  exists quot', r'. split_and!; [done..|lia|lia| |].
  - apply (f_equal (drop 1)) in Hd. rewrite !drop_drop, Nat.add_1_r in Hd.
    rewrite Hd. by rewrite drop_insert_lt by lia.
  - assert (quot' !! i = Some ((r * B + ui) / v)) as Eq.
    { rewrite <- (Nat.add_0_r i), <- lookup_drop, Hd, lookup_drop, Nat.add_0_r.
      apply list_lookup_insert_eq. lia. }
    rewrite (val_take_S _ _ _ Eq), (val_take_S _ _ _ Eu), Bn_S.
    pose proof (Z.div_mod (r * B + ui) v ltac:(unfold word_ok in *; lia)) as Ed.
    apply (f_equal (Z.mul (Bn i))) in Ed. lia.
Qed.

Lemma long_div_spec m u v quot :
  words_ok u → words_ok quot → word_ok v → v ≠ 0 → (0 < m ≤ length u)%nat → (m ≤ length quot)%nat →
  ∃ quot' r', long_div m u v quot = Ok (quot', r') ∧
    words_ok quot' ∧ length quot' = length quot ∧ 0 ≤ r' < v ∧
    drop m quot' = drop m quot ∧ val (take m u) = v * val (take m quot') + r'.
Proof.
  intros Hu Hq Hv Hv0 Hm Hmq. unfold long_div.
  rewrite (oassert_true (negb (m =? 0)%nat)) by (destruct (Nat.eqb_spec m 0); [lia|done]). ostep.
  rewrite oassert_true by (destruct (Z.eqb_spec v 0); [lia|done]). ostep.
  destruct (long_div_loop_spec m u v 0 quot) as (q & r & E & ? & ? & ? & ? & EV);
    auto with words; try (unfold word_ok in *; lia).
  exists q, r. split_and!; auto; try lia.
  rewrite <- E. destruct m as [|m]; [lia|]. cbn [long_div_loop]. by rewrite Nat.sub_succ, Nat.sub_0_r.
Qed.

(** ** One quotient digit

    [V] is the divisor: the [n] words [knuth_div] looks at. *)
Section digit.
Context (n : nat) (v : words).
Hypothesis Hv : words_ok v.
Hypothesis Hn : (2 ≤ n ≤ length v)%nat.
Context (v1 v0 : Z).
Hypothesis Ev1 : v !! (n - 1)%nat = Some v1.
Hypothesis Ev0 : v !! (n - 2)%nat = Some v0.
Hypothesis Hnorm : B ≤ 2 * v1.
Let V := val (take n v).

Lemma V_decomp : ∃ lv, V = lv + Bn (n - 2) * (v0 + B * v1) ∧ 0 ≤ lv < Bn (n - 2).
Proof.
  exists (val (take (n - 2) v)). split.
  - unfold V. replace n with (S (n - 1)) at 1 by lia. rewrite (val_take_S _ _ _ Ev1).
    replace (n - 1)%nat with (S (n - 2)) by lia. rewrite (val_take_S _ _ _ Ev0), Bn_S. lia.
  - pose proof (val_bound (take (n - 2) v) ltac:(by apply Forall_take)) as Hb.
    by rewrite length_take_le in Hb by lia.
Qed.
Lemma V_bounds : 0 < V < Bn n.
Proof.
  split.
  - destruct V_decomp as (lv & -> & ?). pose proof (Bn_pos (n - 2)). pose proof B_pos.
    pose proof (words_ok_lookup _ _ _ Hv Ev0). unfold word_ok in *.
    assert (0 < v0 + B * v1) by nia. nia.
  - pose proof (val_bound (take n v) ltac:(by apply Forall_take)) as Hb.
    rewrite length_take_le in Hb by lia. unfold V. lia.
Qed.

Lemma U_decomp u ix : words_ok u → (ix + n < length u)%nat → val u < V * Bn (ix + 1) →
  ∃ u2 u1 u0 lu, u !! (ix + n)%nat = Some u2 ∧ u !! (ix + n - 1)%nat = Some u1 ∧
    u !! (ix + n - 2)%nat = Some u0 ∧
    val u = lu + Bn ix * Bn (n - 2) * (u0 + B * (u1 + B * u2)) ∧ 0 ≤ lu < Bn ix * Bn (n - 2).
Proof.
  intros Hu Hlen Hlt.
  destruct (lookup_lt_is_Some_2 u (ix + n)) as [u2 E2]; [lia|].
  destruct (lookup_lt_is_Some_2 u (ix + n - 1)) as [u1 E1]; [lia|].
  destruct (lookup_lt_is_Some_2 u (ix + n - 2)) as [u0 E0]; [lia|].
  exists u2, u1, u0, (val (take (ix + n - 2) u)). split_and!; try done.
  - rewrite (val_split u (S (ix + n)) Hu) at 1.
    assert (val u < Bn (S (ix + n))).
    { pose proof V_bounds. rewrite Bn_add, Bn_1 in Hlt. rewrite Bn_S, Bn_add.
      pose proof (Bn_pos ix). pose proof B_pos. assert (V * (Bn ix * B) ≤ Bn n * (Bn ix * B)) by nia. lia. }
    pose proof (val_bound u Hu). rewrite val_drop, Z.div_small by (done || lia).
    rewrite (val_take_S _ _ _ E2).
    replace (ix + n)%nat with (S (ix + n - 1)) at 1 2 by lia. rewrite (val_take_S _ _ _ E1).
    replace (ix + n - 1)%nat with (S (ix + n - 2)) by lia. rewrite (val_take_S _ _ _ E0).
    rewrite !Bn_S. replace (ix + n - 2)%nat with (ix + (n - 2))%nat by lia. rewrite Bn_add. lia.
  - pose proof (val_bound (take (ix + n - 2) u) ltac:(by apply Forall_take)); lia.
  - pose proof (val_bound (take (ix + n - 2) u) ltac:(by apply Forall_take)) as Hb.
    rewrite length_take_le in Hb by lia. rewrite <- Bn_add.
    replace (ix + (n - 2))%nat with (ix + n - 2)%nat by lia. lia.
Qed.

(** *** The estimate is the digit or one more *)
Lemma estimate_q_hat_spec u ix : words_ok u → (ix + n < length u)%nat → val u < V * Bn (ix + 1) →
  ∃ o, estimate_q_hat n v ix u = Ok o ∧
    match o with
    | None => val u < V * Bn ix
    | Some q => word_ok q ∧ (q - 1) * V * Bn ix ≤ val u < (q + 1) * V * Bn ix ∧ 0 < q + 1
    end.
Proof.
  intros Hu Hlen Hlt. destruct (U_decomp u ix Hu Hlen Hlt) as (u2 & u1 & u0 & lu & E2 & E1 & E0 & EU & Hlu).
  destruct V_decomp as (lv & EV & Hlv).
  pose proof (words_ok_lookup _ _ _ Hu E2) as H2. pose proof (words_ok_lookup _ _ _ Hu E1) as H1.
  pose proof (words_ok_lookup _ _ _ Hu E0) as H0.
  pose proof (words_ok_lookup _ _ _ Hv Ev1) as Hv1. pose proof (words_ok_lookup _ _ _ Hv Ev0) as Hv0.
  pose proof (Bn_pos ix). pose proof (Bn_pos (n - 2)). pose proof B_pos.
  unfold estimate_q_hat. rewrite (rd_Some _ _ _ E2), (rd_Some _ _ _ Ev1). ostep.
  assert (u2 ≤ v1) as Hle.
  { destruct (Z.le_gt_cases u2 v1) as [|Hgt]; [done|exfalso]. unfold word_ok in *.
    assert (V ≤ Bn (n - 2) * (B * (v1 + 1))) by nia.
    assert (V * (Bn ix * B) ≤ Bn (n - 2) * (B * (v1 + 1)) * (Bn ix * B)) by nia.
    assert (B * (B * (v1 + 1)) ≤ u0 + B * (u1 + B * u2)) by nia.
    assert (Bn ix * Bn (n - 2) * (B * (B * (v1 + 1))) ≤ Bn ix * Bn (n - 2) * (u0 + B * (u1 + B * u2)))
      by (apply Z.mul_le_mono_nonneg_l; nia).
    rewrite Bn_add, Bn_1 in Hlt. lia. }
  rewrite oassert_true by (by apply Z.leb_le). ostep.
  destruct (Z.eqb_spec u2 v1) as [->|Hne].
  - eexists. split; [done|]. rewrite <- B_val. split_and!; [unfold word_ok; lia..| | |lia].
    + eapply estimate_equal; eauto.
    + rewrite Bn_add, Bn_1 in Hlt. lia.
  - rewrite (rd_Some _ _ _ E1). ostep. rewrite div_spec by (done || lia). ostep.
    destruct (div_word u2 u1 v1) as (Hq & Hr & Hrv); [done..|lia|].
    pose proof (Z.div_mod (u2 * B + u1) v1 ltac:(lia)) as Eq.
    set (q := (u2 * B + u1) / v1) in *. set (r := (u2 * B + u1) mod v1) in *.
    pose proof (estimate_spec (val u) V (Bn ix) (Bn (n - 2)) u2 u1 u0 v1 v0 lu lv EU EV Hlu Hlv
      ltac:(done) ltac:(done) ltac:(done) ltac:(lia) q r ltac:(lia) Eq ltac:(unfold word_ok in Hr; lia) Hq) as Est.
    destruct (Z.eqb_spec q 0) as [Hq0|Hq0].
    + eexists. split; [done|]. rewrite Hq0 in Est. unfold word_ok in *.
      rewrite (proj2 (Z.ltb_ge (r * B + u0) (0 * v0))) in Est by nia. lia.
    + rewrite (rd_Some _ _ _ Ev0), (rd_Some _ _ _ E0). ostep. unfold word_ok in *.
      rewrite Z.shiftl_mul_pow2, <- B_val by done.
      rewrite (u128_small (r * B)), (u128_small (r * B + u0)), (u128_small (q * v0)) by nia.
      cbv zeta in Est. destruct (Z.ltb_spec (r * B + u0) (q * v0)).
      * eexists. split; [done|]. rewrite u128_small by nia. unfold word_ok. lia.
      * eexists. split; [done|]. unfold word_ok. lia.
Qed.

(** *** One iteration *)
Lemma val_words_below l i : words_ok l → (∀ p w, (i ≤ p)%nat → l !! p = Some w → w = 0) → val l < Bn i.
Proof.
  intros Hl. revert i. induction Hl as [|w l Hw Hl IH]; intros i Hz; cbn [val].
  { apply Bn_pos. }
  unfold word_ok in Hw. pose proof B_pos. destruct i as [|i].
  - assert (w = 0) as -> by (by apply (Hz 0%nat); [lia|]).
    assert (val l < Bn 0) as Hb by (apply IH; intros p x _ Ex; by apply (Hz (S p)); [lia|]).
    pose proof (val_bound l Hl). rewrite Bn_0 in *. nia.
  - assert (val l < Bn i) by (apply IH; intros p x Hp Ex; apply (Hz (S p)); [lia|done]).
    rewrite Bn_S. nia.
Qed.

Lemma U_bound u ix : words_ok u → val u < V * Bn (ix + 1) → val u < Bn (S (ix + n)).
Proof.
  intros Hu Hlt. pose proof V_bounds. rewrite Bn_add, Bn_1 in Hlt. rewrite Bn_S, Bn_add.
  pose proof (Bn_pos ix). pose proof B_pos. assert (V * (Bn ix * B) ≤ Bn n * (Bn ix * B)) by nia. lia.
Qed.
Lemma U_high u ix p w : words_ok u → val u < V * Bn (ix + 1) → (S (ix + n) ≤ p)%nat →
  u !! p = Some w → w = 0.
Proof.
  intros Hu Hlt Hp E. apply (val_lookup_high _ _ _ Hu E).
  pose proof (U_bound u ix Hu Hlt). pose proof (Bn_le _ _ Hp). lia.
Qed.

(** a negative top word means the estimate was too large *)
Lemma top_word_sign ua i un k :
  words_ok ua → ua !! i = Some un → (∀ p w, (S i ≤ p)%nat → ua !! p = Some w → w = 0) →
  un - k < 0 → val ua - Bn i * k < 0.
Proof.
  intros Ha Eun Hz Hneg.
  assert (val (<[i:=0]> ua) < Bn i) as Hb.
  { apply val_words_below; [auto with words|]. intros p w Hp Ew.
    destruct (decide (p = i)) as [->|Hne].
    - rewrite list_lookup_insert_eq in Ew by (by eapply lookup_lt_Some). by injection Ew.
    - rewrite list_lookup_insert_ne in Ew by done. apply (Hz p w); [lia|done]. }
  rewrite (val_insert _ _ _ _ Eun) in Hb. pose proof (Bn_pos i). nia.
Qed.

(** the add-back step turns the wrapped difference into the remainder *)
Lemma add_back_spec ub ix D : words_ok ub → (ix + n < length ub)%nat →
  (∀ p w, (S (ix + n) ≤ p)%nat → ub !! p = Some w → w = 0) →
  val ub = D + Bn (S (ix + n)) → 0 ≤ D + V * Bn ix < Bn (S (ix + n)) →
  ∃ uc k unc ud, add_back_loop n 0 ix v ub 0 = Ok (uc, k) ∧ rd uc (ix + n) = Ok unc ∧
    wr uc (ix + n) (u64 (unc + u64 k)) = Ok ud ∧
    words_ok ud ∧ length ud = length ub ∧ val ud = D + V * Bn ix.
Proof.
  intros Hb Hlen Hz Eb HD.
  destruct (add_back_loop_spec n ix v 0 ub 0) as (uc & k & -> & Hc & Hk & Hlc & Hpc & Ec);
    auto with words; try lia.
  destruct (rd_lt uc (ix + n)) as (unc & Eunc & Eunc'); [lia|].
  exists uc, k, unc. rewrite wr_lt by lia. eexists. pose proof B_pos.
  rewrite (u64_B k), (Z.mod_small k), u64_B by lia.
  split_and!; [done..|auto with words|by rewrite length_insert|].
  set (ud := <[_:=_]> uc). assert (words_ok ud) as Hd by (unfold ud; auto with words).
  assert (val ud < Bn (S (ix + n))) as Hdb.
  { apply val_words_below; [done|]. intros p w Hp Ew. unfold ud in Ew.
    rewrite list_lookup_insert_ne, Hpc in Ew by lia. by apply (Hz p w). }
  pose proof (val_bound ud Hd). rewrite Nat.add_0_r, take_0 in Ec. cbn [val] in Ec.
  assert (val ud = D + V * Bn ix + Bn (S (ix + n)) * (1 - (unc + k) / B)) as Ed.
  { unfold ud. rewrite (val_insert _ _ _ _ Eunc), mod_mul_diff by lia.
    unfold V. rewrite Bn_S in *. replace (0 + n)%nat with n in Ec by lia. lia. }
  assert (1 - (unc + k) / B = 0) as E0 by nia. rewrite Ed, E0. lia.
Qed.

Lemma knuth_step_spec u quot ix :
  words_ok u → words_ok quot → (ix + n < length u)%nat → quot !! ix = Some 0 →
  val u < V * Bn (ix + 1) →
  ∃ u' q, knuth_step n v ix u quot = Ok (u', <[ix:=q]> quot) ∧
    words_ok u' ∧ length u' = length u ∧ word_ok q ∧
    val u' < V * Bn ix ∧ val u = val u' + V * Bn ix * q.
Proof.
  intros Hu Hqu Hlen Eq Hlt. unfold knuth_step.
  destruct (estimate_q_hat_spec u ix Hu Hlen Hlt) as ([q|] & -> & Hq); ostep.
  2: { exists u, 0. rewrite list_insert_id by done. split_and!; auto with words; lia. }
  destruct Hq as (Hq & [Hql Hqu'] & _).
  destruct (mul_sub_loop_spec n ix q v 0 u 0) as (ua & k & -> & Ha & Hk & Hla & Hpa & Ea);
    auto with words; [lia|lia|]. ostep. rewrite !Nat.add_0_l in *. cbn [val] in Ea. rewrite take_0 in Ea.
  fold V in Ea. cbn [val] in Ea. rewrite (Nat.add_comm n) in *.
  destruct (rd_lt ua (ix + n)) as (un & Eun & ->); [lia|]. ostep.
  rewrite wr_lt by lia. ostep.
  pose proof (words_ok_lookup _ _ _ Ha Eun) as Hun. pose proof B_pos. pose proof V_bounds as HV.
  assert (∀ p w, (S (ix + n) ≤ p)%nat → ua !! p = Some w → w = 0) as Hz.
  { intros p w Hp Ew. rewrite Hpa in Ew by lia. by apply (U_high u ix p w). }
  rewrite sign_bit_u128, u64_u128 by (unfold word_ok in *; nia).
  pose proof (val_insert _ _ _ ((un - k) mod B) Eun) as Eb.
  set (ub := <[_:=_]> ua) in *. assert (words_ok ub) as Hb by (unfold ub; auto with words).
  assert (length ub = length u) as Hlb by (unfold ub; by rewrite length_insert).
  pose proof (val_bound ub Hb) as Hb0. unfold word_ok in Hun, Hk, Hq.
  destruct (Z.leb_spec 0 (un - k)) as [Hs|Hs].
  - ostep. rewrite wr_lt by (by eapply lookup_lt_Some). exists ub, q. ostep.
    rewrite u64_B, (Z.mod_small q) by done. rewrite mod_lo in Eb by lia.
    split_and!; [done..|lia|lia].
  - pose proof (top_word_sign ua (ix + n) un k Ha Eun Hz Hs) as HD.
    pose proof (U_bound u ix Hu Hlt). pose proof (val_bound u Hu). pose proof (Bn_pos ix).
    rewrite mod_neg in Eb by lia. assert (q ≠ 0) by (intros ->; lia).
    destruct (add_back_spec ub ix (val u - Bn ix * q * V)) as
      (uc & k2 & unc & ud & -> & E1 & E2 & Hd & Hld & Ed); [done|lia| |rewrite Bn_S; lia|nia|].
    { intros p w Hp Ew. unfold ub in Ew. rewrite list_lookup_insert_ne in Ew by lia. by apply (Hz p w). }
    ostep. rewrite E1. ostep. rewrite E2. ostep.
    rewrite wr_lt by (by eapply lookup_lt_Some). exists ud, (q - 1). ostep.
    rewrite u64_u128, mod_lo by lia. split_and!; [done|done|lia|unfold word_ok; lia..|nia|nia].
Qed.

Lemma knuth_loop_spec cnt : ∀ u quot,
  words_ok u → words_ok quot → (cnt + n ≤ length u)%nat → (cnt ≤ length quot)%nat →
  (∀ p, (p < cnt)%nat → quot !! p = Some 0) → val u < V * Bn cnt →
  ∃ u' quot', knuth_loop cnt n v u quot = Ok (u', quot') ∧
    words_ok u' ∧ words_ok quot' ∧ length u' = length u ∧ length quot' = length quot ∧
    val u' < V ∧ val u + V * val quot = val u' + V * val quot'.
Proof.
  induction cnt as [|ix IH]; intros u quot Hu Hq Hlu Hlq Hz Hlt; cbn [knuth_loop].
  { exists u, quot. rewrite Bn_0 in Hlt. split_and!; [done..|lia|lia]. }
  rewrite <- Nat.add_1_r in Hlt.
  destruct (knuth_step_spec u quot ix) as (u1 & q & -> & Hu1 & Hl1 & Hq1 & Hlt1 & E1); auto.
  ostep. destruct (IH u1 (<[ix:=q]> quot)) as (u' & quot' & -> & ? & ? & ? & Hlq' & ? & E);
    auto with words; rewrite ?length_insert; try lia.
  { intros p Hp. rewrite list_lookup_insert_ne by lia. apply Hz. lia. }
  exists u', quot'. rewrite length_insert in Hlq'. split_and!; try done; [lia|].
  rewrite (val_insert _ _ _ _ (Hz ix ltac:(lia))) in E. lia.
Qed.
End digit.

Lemma land_top_bit w : word_ok w → B ≤ 2 * w → (Z.land w (2 ^ 63) =? 0) = false.
Proof.
  intros Hw Hn. apply Z.eqb_neq. intros E.
  assert (Z.testbit (Z.land w (2 ^ 63)) 63 = false) as Ef by (rewrite E; apply Z.testbit_0_l).
  rewrite Z.land_spec, Z.pow2_bits_true, andb_true_r in Ef by lia.
  rewrite Z.testbit_false in Ef by lia. unfold word_ok in Hw. rewrite B_val in *.
  assert (2 ^ 64 = 2 * 2 ^ 63) as E2 by done.
  assert (w / 2 ^ 63 = 1) as Ed by (symmetry; apply Z.div_unique with (w - 2 ^ 63); lia).
  by rewrite Ed in Ef.
Qed.

Lemma knuth_div_spec m u n v v1 quot :
  words_ok u → words_ok v → (2 ≤ n ≤ length v)%nat → (n ≤ m)%nat →
  v !! (n - 1)%nat = Some v1 → B ≤ 2 * v1 →
  (m < length u)%nat → (m - n < length quot)%nat → (∀ p, (p < length quot)%nat → quot !! p = Some 0) →
  val u < val (take n v) * Bn (m - n + 1) →
  ∃ u' quot', knuth_div m u n v quot = Ok (u', quot') ∧
    words_ok u' ∧ words_ok quot' ∧ length u' = length u ∧ length quot' = length quot ∧
    val u' = val u mod val (take n v) ∧ val quot' = val u / val (take n v).
Proof.
  intros Hu Hv Hn Hm E1 Hnorm Hlu Hlq Hz Hlt. unfold knuth_div.
  pose proof (words_ok_lookup _ _ _ Hv E1) as Hv1.
  rewrite (oassert_true (n <=? m)%nat) by (apply Nat.leb_le; lia). ostep.
  rewrite (oassert_true (1 <? n)%nat) by (apply Nat.ltb_lt; lia). ostep.
  rewrite (rd_Some _ _ _ E1). ostep.
  rewrite oassert_true by (by rewrite land_top_bit). ostep.
  destruct (lookup_lt_is_Some_2 v (n - 2)) as [v0 E0]; [lia|].
  assert (quot = replicate (length quot) 0) as Eq.
  { apply list_eq. intros p. destruct (decide (p < length quot)%nat).
    - rewrite Hz, lookup_replicate_2 by done. done.
    - rewrite !lookup_ge_None_2; [done| |lia]. rewrite length_replicate. lia. }
  destruct (knuth_loop_spec n v Hv Hn v1 v0 E1 E0 Hnorm (m - n + 1) u quot)
    as (u' & quot' & -> & ? & ? & ? & ? & Hr & E); auto; try lia.
  { rewrite Eq. auto with words. }
  { intros. apply Hz. lia. }
  exists u', quot'. rewrite Eq, val_replicate in E. pose proof (val_bound u' ltac:(done)).
  split_and!; try done.
  - apply Z.mod_unique with (val quot'); lia.
  - apply Z.div_unique with (val u'); lia.
Qed.

(** ** Normalisation *)
Lemma last_cons_default (x : words) : ∀ w d, List.last (w :: x) d = List.last x w.
Proof.
  induction x as [|h x IH]; intros w d; [done|].
  change (List.last (h :: x) d = List.last (h :: x) w). by rewrite !IH.
Qed.
Lemma shl_words_from_spec s : 0 ≤ s < 64 → ∀ x prev, words_ok x → word_ok prev →
  let r := shl_words_from prev s x in
  words_ok r ∧ length r = length x ∧
  val r + Bn (length x) * (List.last x prev * 2 ^ s / B) = 2 ^ s * val x + prev * 2 ^ s / B.
Proof.
  intros Hs x. induction x as [|w x IH]; intros prev Hx Hp; cbn [shl_words_from].
  { cbn [length val List.last]. rewrite Bn_0. split_and!; [constructor|done|lia]. }
  apply Forall_cons_iff in Hx as [Hw Hx]. destruct (IH w Hx Hw) as (Hr & Hl & E).
  rewrite shld_law by done. pose proof B_pos. pose proof (pow2_pos s ltac:(lia)).
  split_and!.
  - constructor; [|done]. rewrite mul_pow_mod, mul_pow_div by done. unfold word_ok.
    rewrite (B_split s), (Z.mul_comm (2 ^ s)) by done.
    apply digit_bound; [apply Z.mod_pos_bound, pow2_pos; lia|by apply shr_bound].
  - cbn. by f_equal.
  - rewrite last_cons_default.
    cbn [val length]. rewrite Bn_S.
    rewrite mod_mul_diff by lia. apply (f_equal (Z.mul B)) in E. lia.
Qed.

Lemma shl_words_spec s x : 0 ≤ s < 64 → words_ok x → (0 < length x)%nat →
  words_ok (shl_words s x) ∧ length (shl_words s x) = length x ∧
  val (shl_words s x) + Bn (length x) * (List.last x 0 * 2 ^ s / B) = 2 ^ s * val x.
Proof.
  intros Hs Hx Hl. destruct x as [|w x]; [cbn in Hl; lia|]. cbn [shl_words].
  apply Forall_cons_iff in Hx as [Hw Hx].
  destruct (shl_words_from_spec s Hs x w Hx Hw) as (Hr & Hlr & E). pose proof B_pos.
  rewrite shl_word by lia. split_and!.
  - constructor; auto with words.
  - cbn. by f_equal.
  - rewrite last_cons_default.
    cbn [val length]. rewrite Bn_S, mod_mul_diff by lia.
    apply (f_equal (Z.mul B)) in E. lia.
Qed.

Lemma shr_words_spec s x : 0 ≤ s < 64 → words_ok x →
  words_ok (shr_words s x) ∧ length (shr_words s x) = length x ∧
  val (shr_words s x) = val x / 2 ^ s.
Proof.
  intros Hs. induction x as [|w x IH]; intros Hx; cbn [shr_words].
  { split_and!; [constructor|done|]. cbn [val]. by rewrite Z.div_0_l by (pose proof (pow2_pos s); lia). }
  apply Forall_cons_iff in Hx as [Hw Hx]. destruct (IH Hx) as (Hr & Hl & E).
  pose proof (pow2_pos s ltac:(lia)). pose proof (shr_bound' w s Hw Hs) as Hb.
  destruct x as [|h x].
  - rewrite Z.shiftr_div_pow2 by lia. cbn [val]. rewrite !Z.mul_0_r, !Z.add_0_r.
    split_and!; [|done|done]. constructor; [|constructor]. unfold word_ok.
    rewrite (B_split s) by done. split; [lia|]. rewrite Z.mul_comm. apply lt_mul_pos; lia.
  - apply Forall_cons_iff in Hx as [Hh Hx]. rewrite shrd_law by done. split_and!.
    + constructor; [|done]. unfold word_ok. rewrite (B_split s), Z.add_comm by done.
      apply digit_bound; [by apply Z.mod_pos_bound|done].
    + cbn [length]. by f_equal.
    + assert (∀ Y, val (h :: x) = Y → h mod 2 ^ s = Y mod 2 ^ s) as HY.
      { intros Y <-. cbn [val]. rewrite (B_split s) by done.
        rewrite <- Z.mul_assoc, (Z.mul_comm (2 ^ s)), Z.mod_add by lia. done. }
      cbn [val] in E |- *. cbn [val] in HY. set (Y := h + B * val x) in *.
      rewrite E, (HY Y eq_refl). rewrite (B_split s) at 2 by done.
      rewrite <- (Z.mul_assoc (2 ^ s)), (Z.mul_comm (2 ^ s)), Z.div_add by lia.
      rewrite (Z.div_mod Y (2 ^ s)) at 3 by lia. rewrite (B_split s) by done. lia.
Qed.

(** the shift that makes the top bit of the divisor one *)
Lemma normalize_shift_spec w : word_ok w → w ≠ 0 →
  let s := u8 (countl_zero64 w) in
  0 ≤ s < 64 ∧ B ≤ 2 * (2 ^ s * w) ∧ w + 1 ≤ 2 ^ (64 - s).
Proof.
  intros Hw H0. unfold word_ok in Hw. rewrite B_val in Hw. unfold countl_zero64.
  destruct (Z.eqb_spec w 0); [done|].
  pose proof (Z.log2_spec w ltac:(lia)) as [Hlo Hhi].
  assert (0 ≤ Z.log2 w < 64) as Hlog.
  { split; [apply Z.log2_nonneg|]. apply Z.log2_lt_pow2; lia. }
  assert (u8 (63 - Z.log2 w) = 63 - Z.log2 w) as ->.
  { unfold u8. apply Z.mod_small. change (2 ^ 8) with 256. lia. }
  split_and!; [lia|lia| |].
  - rewrite B_val. assert (2 ^ 64 = 2 * (2 ^ (63 - Z.log2 w) * 2 ^ Z.log2 w)) as ->.
    { rewrite <- Z.pow_add_r by lia. replace (63 - Z.log2 w + Z.log2 w) with 63 by lia. done. }
    pose proof (pow2_pos (63 - Z.log2 w)). nia.
  - replace (64 - (63 - Z.log2 w)) with (Z.succ (Z.log2 w)) by lia. lia.
Qed.

(** ** udivrem *)
Lemma last_lookup_word (x : words) d w : x !! (length x - 1)%nat = Some w → List.last x d = w.
Proof.
  induction x as [|a [|b x] IH]; intros E; [done|by injection E|].
  change (List.last (b :: x) d = w). apply IH. rewrite <- E. cbn. by rewrite Nat.sub_0_r.
Qed.
Lemma first_words_spec N x : words_ok x → (N ≤ length x)%nat → val x < Bn N →
  ∃ r, first_words N x = Ok r ∧ words_ok r ∧ length r = N ∧ val r = val x.
Proof.
  intros Hx HN Hlt. unfold first_words. rewrite (proj2 (Nat.leb_le _ _) HN).
  eexists. split_and!; [done|by apply Forall_take|by rewrite length_take_le|].
  rewrite val_take by done. apply Z.mod_small. pose proof (val_bound x Hx). lia.
Qed.
Lemma val_singleton_word N w : (0 < N)%nat → val (<[0%nat:=w]> (replicate N 0)) = w.
Proof. destruct N; [lia|]. intros _. cbn. rewrite val_replicate. lia. Qed.

(** what [udivrem] promises of its result *)
Definition is_divrem (u v : words) (o : outcome (words * words)) : Prop :=
  ∃ q r, o = Ok (q, r) ∧ words_ok q ∧ words_ok r ∧ length q = length u ∧ length r = length v ∧
    val q = val u / val v ∧ val r = val u mod val v.

(** the normalised dividend, with its extra word *)
Lemma norm_dividend u s uM : words_ok u → 0 ≤ s < 64 → u !! (length u - 1)%nat = Some uM →
  let u' := shl_words s u ++ [Z.shiftr (Z.shiftr uM 1) (63 - s)] in
  words_ok u' ∧ val u' = 2 ^ s * val u ∧ length u' = S (length u).
Proof.
  intros Hu Hs EuM u'. pose proof (lookup_lt_Some _ _ _ EuM).
  pose proof (words_ok_lookup _ _ _ Hu EuM) as HuM.
  destruct (shl_words_spec s u Hs Hu ltac:(lia)) as (Hu1 & Hlu1 & Eu1).
  assert (Z.shiftr (Z.shiftr uM 1) (63 - s) = uM * 2 ^ s / B) as Etop.
  { rewrite Z.shiftr_shiftr, Z.shiftr_div_pow2, mul_pow_div by lia. do 2 f_equal. lia. }
  unfold u'. rewrite Etop. split_and!.
  - apply Forall_app_2; [done|]. constructor; [|constructor]. rewrite mul_pow_div by done.
    pose proof (shr_bound uM s HuM Hs). unfold word_ok. rewrite (B_split s) by done.
    split; [lia|]. apply lt_mul_pos; [lia|]. apply pow2_pos. lia.
  - rewrite val_app, Hlu1, <- (last_lookup_word _ 0 _ EuM). cbn [val]. lia.
  - rewrite length_app, Hlu1. cbn. lia.
Qed.

(** the normalised divisor still fits its significant words *)
Lemma norm_divisor_bound v n vn1 s : words_ok v → (0 < n)%nat → val v < Bn n →
  v !! (n - 1)%nat = Some vn1 → 0 ≤ s < 64 → vn1 + 1 ≤ 2 ^ (64 - s) → 2 ^ s * val v < Bn n.
Proof.
  intros Hv Hn Hvn Evn Hs Hfit. pose proof (pow2_pos s ltac:(lia)). pose proof (lookup_lt_Some _ _ _ Evn).
  assert (val v < Bn (n - 1) * (vn1 + 1)).
  { rewrite (val_split v n Hv), val_drop, (Z.div_small (val v)) by (done || (pose proof (val_bound v Hv); lia)).
    replace n with (S (n - 1)) at 1 by lia. rewrite (val_take_S _ _ _ Evn).
    pose proof (val_bound (take (n - 1) v) ltac:(by apply Forall_take)) as Hb.
    rewrite length_take_le in Hb by lia. lia. }
  replace n with (S (n - 1)) by lia. rewrite Bn_S, (B_split s) by done. pose proof (Bn_pos (n - 1)).
  assert (2 ^ s * val v < 2 ^ s * (Bn (n - 1) * (vn1 + 1))) by nia.
  assert (2 ^ s * Bn (n - 1) * (vn1 + 1) ≤ 2 ^ s * Bn (n - 1) * 2 ^ (64 - s))
    by (apply Z.mul_le_mono_nonneg_l; [nia|done]). lia.
Qed.

Lemma norm_divisor v n vn1 s : words_ok v → (0 < n ≤ length v)%nat → val v < Bn n →
  v !! (n - 1)%nat = Some vn1 → 0 ≤ s < 64 → vn1 + 1 ≤ 2 ^ (64 - s) →
  let v' := shl_words s v in
  words_ok v' ∧ length v' = length v ∧ val v' = 2 ^ s * val v ∧ val (take n v') = 2 ^ s * val v ∧
  ∃ w, v' !! (n - 1)%nat = Some w ∧ 2 ^ s * vn1 ≤ w.
Proof.
  intros Hv Hn Hvn Evn Hs Hfit v'.
  pose proof (norm_divisor_bound v n vn1 s Hv ltac:(lia) Hvn Evn Hs Hfit) as Hvb.
  pose proof (pow2_pos s ltac:(lia)). pose proof B_pos.
  destruct (shl_words_spec s v Hs Hv ltac:(lia)) as (Hv1 & Hlv1 & Ev1). fold v' in Hv1, Hlv1, Ev1.
  pose proof (val_bound _ Hv1) as Hb1.
  assert (val v' = 2 ^ s * val v) as Ev.
  { pose proof (Bn_le n (length v) ltac:(lia)).
    assert (0 ≤ List.last v 0 * 2 ^ s / B).
    { apply Z.div_pos; [|lia]. destruct (lookup_lt_is_Some_2 v (length v - 1)) as [vl Evl]; [lia|].
      rewrite (last_lookup_word _ _ _ Evl). pose proof (words_ok_lookup _ _ _ Hv Evl).
      unfold word_ok in *. nia. }
    assert (List.last v 0 * 2 ^ s / B = 0) as E0; [|rewrite E0 in Ev1; lia].
    pose proof (Bn_pos (length v)). nia. }
  split_and!; try done.
  - rewrite val_take, Ev by done. apply Z.mod_small. lia.
  - destruct (lookup_lt_is_Some_2 v' (n - 1)) as [w Ew]; [lia|]. exists w. split; [done|].
    rewrite (val_lookup _ _ _ Hv1 Ew), Ev. pose proof (Bn_pos (n - 1)).
    pose proof (val_lookup_le _ _ _ Hv Evn). rewrite Z.mod_small.
    + apply Z.div_le_lower_bound; [lia|]. nia.
    + split; [apply Z.div_pos; lia|]. apply Z.div_lt_upper_bound; [lia|].
      replace n with (S (n - 1)) in Hvb by lia. rewrite Bn_S in Hvb. lia.
Qed.

(** the general case: normalise, divide, undo the normalisation *)
Lemma normalized_div u v n m vn1 s :
  words_ok u → words_ok v → (2 ≤ n ≤ length v)%nat → (n ≤ m ≤ length u)%nat → (length v ≤ length u)%nat →
  val u < Bn m → 0 < val v < Bn n → v !! (n - 1)%nat = Some vn1 → 0 ≤ s < 64 →
  B ≤ 2 * (2 ^ s * vn1) → vn1 + 1 ≤ 2 ^ (64 - s) →
  is_divrem u v (
    uM ← rd u (length u - 1);
    '(u_norm, quot) ← knuth_div m (shl_words s u ++ [Z.shiftr (Z.shiftr uM 1) (63 - s)]) n
                        (shl_words s v) (replicate (length u) 0);
    rem ← first_words (length v) u_norm;
    mret (quot, shr_words s rem)).
Proof.
  intros Hu Hv Hn Hm HNM Hum [Hv0 Hvn] Evn Hs Hnorm Hfit. pose proof (pow2_pos s ltac:(lia)) as Hs2.
  destruct (rd_lt u (length u - 1)) as (uM & EuM & ->); [lia|]. ostep.
  destruct (norm_dividend u s uM Hu Hs EuM) as (Hun & Eun & Hlun).
  destruct (norm_divisor v n vn1 s Hv ltac:(lia) Hvn Evn Hs Hfit) as (Hv' & Hlv' & Ev' & Et' & w & Ew & Hw).
  set (u' := shl_words s u ++ _) in *. set (v' := shl_words s v) in *.
  assert (val u' < val (take n v') * Bn (m - n + 1)) as Hlt.
  { rewrite Eun, Et', <- Ev'. assert (Bn n ≤ 2 * val v').
    { pose proof (val_lookup_le _ _ _ Hv' Ew). pose proof (Bn_pos (n - 1)).
      replace n with (S (n - 1)) at 1 by lia. rewrite Bn_S.
      assert (Bn (n - 1) * B ≤ Bn (n - 1) * (2 * w)) by (apply Z.mul_le_mono_nonneg_l; lia). lia. }
    assert (2 * 2 ^ s ≤ B).
    { rewrite (B_split s), Z.mul_comm by done. apply Z.mul_le_mono_nonneg_l; [lia|].
      change 2 with (2 ^ 1) at 1. apply Z.pow_le_mono_r; lia. }
    assert (B * Bn m = Bn n * Bn (m - n + 1)) as EB by (rewrite <- Bn_S, <- Bn_add; f_equal; lia).
    pose proof (Bn_pos m). pose proof (Bn_pos (m - n + 1)).
    assert (2 ^ s * val u < 2 ^ s * Bn m) by nia.
    assert (2 * 2 ^ s * Bn m ≤ B * Bn m) by nia.
    assert (Bn n * Bn (m - n + 1) ≤ 2 * val v' * Bn (m - n + 1)) by nia. lia. }
  destruct (knuth_div_spec m u' n v' w (replicate (length u) 0)) as
    (r & q & -> & Hr & Hq & Hlr & Hlq & Er & Eq); auto; try lia.
  { rewrite length_replicate. lia. }
  { intros p. rewrite length_replicate. intros. by rewrite lookup_replicate_2. }
  ostep. rewrite Et', Eun in *. rewrite length_replicate in Hlq.
  rewrite Z.div_mul_cancel_l in Eq by lia. rewrite Zmult_mod_distr_l in Er.
  pose proof (Z.mod_pos_bound (val u) (val v) Hv0). pose proof (val_bound v Hv).
  pose proof (norm_divisor_bound v n vn1 s Hv ltac:(lia) Hvn Evn Hs Hfit).
  pose proof (Bn_le n (length v) ltac:(lia)).
  destruct (first_words_spec (length v) r) as (rem & -> & Hrem & Hlrem & Erem); [done|lia|nia|]. ostep.
  destruct (shr_words_spec s rem Hs Hrem) as (Hsr & Hlsr & Esr).
  exists q, (shr_words s rem). split_and!; auto; [lia|].
  rewrite Esr, Erem, Er, Z.mul_comm. apply Z.div_mul. lia.
Qed.

(** quotient and remainder when the divisor is one word *)
Lemma val_one_word v w : words_ok v → val v < Bn 1 → v !! 0%nat = Some w → val v = w.
Proof.
  intros Hv Hlt E. pose proof (val_bound v Hv). rewrite Bn_1 in Hlt.
  pose proof (val_lookup _ _ _ Hv E) as Ew. rewrite Bn_0, Z.div_1_r, Z.mod_small in Ew; lia.
Qed.
Lemma one_word_divrem u v q r : (0 < length v)%nat → words_ok q → length q = length u →
  0 ≤ r < val v → val v < B → val u = val v * val q + r →
  is_divrem u v (Ok (q, <[0%nat:=r]> (replicate (length v) 0))).
Proof.
  intros Hl Hq Hlq Hr HB Ed. exists q, (<[0%nat:=r]> (replicate (length v) 0)).
  rewrite val_singleton_word, length_insert, length_replicate by lia.
  split_and!; auto; [apply words_ok_insert; [auto with words|unfold word_ok; lia]|..].
  - apply Z.div_unique with r; lia.
  - apply Z.mod_unique with (val q); lia.
Qed.

Lemma udivrem_spec u v : words_ok u → words_ok v → (length v ≤ length u)%nat → val v ≠ 0 →
  is_divrem u v (udivrem u v).
Proof.
  intros Hu Hv HNM Hv0. unfold udivrem.
  destruct (count_significant_words_spec u Hu) as (Hm & Hum & _).
  destruct (count_significant_words_spec v Hv) as (Hn & Hvn & Hvw).
  pose proof (count_significant_words_0 v Hv) as H0.
  pose proof (count_significant_words_le v Hv) as Hvle.
  set (m := count_significant_words u) in *. set (n := count_significant_words v) in *.
  assert (n ≠ 0%nat) as Hn0 by (intros E; by apply Hv0, H0). clear H0.
  pose proof (val_bound u Hu). pose proof (val_bound v Hv). pose proof B_pos.
  rewrite (oassert_true (negb (n =? 0)%nat)) by (by destruct (Nat.eqb_spec n 0)). ostep.
  destruct (Hvw Hn0) as (w & Ew & Hw0). pose proof (words_ok_lookup _ _ _ Hv Ew) as Hw.
  destruct (Nat.ltb_spec m n) as [Hmn|Hmn].
  { pose proof (Bn_le m (n - 1) ltac:(lia)). pose proof (Bn_le n (length v) ltac:(lia)).
    destruct (first_words_spec (length v) u) as (r & -> & ? & ? & ?); [done|done|lia|]. ostep.
    exists (replicate (length u) 0), r. rewrite val_replicate, length_replicate.
    specialize (Hvle ltac:(lia)). split_and!; auto with words.
    - rewrite Z.div_small; lia.
    - rewrite Z.mod_small; lia. }
  destruct (decide (n = 1%nat)) as [En|En].
  { rewrite En in *. assert (val v = w) as <- by (by apply val_one_word). pose proof (rd_Some _ _ _ Ew) as Erd.
    destruct (Nat.eqb_spec m 1) as [Em|Em].
    - rewrite Em in *. destruct (rd_lt u 0) as (u0 & Eu & ->); [lia|]. ostep.
      pose proof (words_ok_lookup _ _ _ Hu Eu) as Hu0. cbn [Nat.sub] in Erd. rewrite Erd. ostep.
      rewrite div_spec by (auto with words; unfold word_ok in *; lia). ostep.
      rewrite Z.mul_0_l, Z.add_0_l. pose proof (Z.div_mod u0 (val v) Hv0).
      pose proof (Z.mod_pos_bound u0 (val v) ltac:(unfold word_ok in *; lia)).
      rewrite <- (val_one_word u u0 Hu Hum Eu) in *. unfold word_ok in *.
      apply one_word_divrem; auto; try lia.
      + apply words_ok_insert; [auto with words|].
        split; [apply Z.div_pos; lia|]. apply Z.div_lt_upper_bound; nia.
      + by rewrite length_insert, length_replicate.
      + rewrite val_singleton_word by lia. lia.
    - cbn [Nat.eqb Nat.sub] in *. rewrite Erd. ostep.
      destruct (long_div_spec m u (val v) (replicate (length u) 0)) as (q & r & -> & ? & Hlq & ? & Hd & E);
        auto with words; rewrite ?length_replicate; try lia. ostep. rewrite length_replicate in Hlq.
      unfold word_ok in *. apply one_word_divrem; auto; try lia.
      rewrite (val_split u m), (val_split q m) by done. rewrite Hd, drop_replicate, val_replicate.
      rewrite (val_drop u), (Z.div_small (val u)) by (done || lia). lia. }
  destruct (Nat.eqb_spec m 1); [lia|]. destruct (Nat.eqb_spec n 1); [lia|].
  rewrite (rd_Some _ _ _ Ew). ostep.
  destruct (normalize_shift_spec w Hw Hw0) as (Hs & Hnorm & Hfit).
  apply (normalized_div u v n m w); auto; lia.
Qed.

Lemma udivrem_zero u v : words_ok v → val v = 0 → udivrem u v = Abort.
Proof.
  intros Hv H0. unfold udivrem. apply (count_significant_words_0 v Hv) in H0. by rewrite H0.
Qed.
End correctness.
