(* ===== verification/Uint256.v ===== *)
(** * 256-bit integers

    [uint256_t] of src/category/core/runtime/uint256.hpp: four 64-bit words
    and its arithmetic, written against the word interface of Words.v.  Every
    operation is proved to compute the corresponding operation on integers
    modulo 2^256, for any implementation of the interface that meets the
    laws. *)
From Stdlib Require Import Zpow_facts.
From S2P Require Import Prelude Words WordMul WordDiv.

Record uint256_t := U256 { w0 : Z; w1 : Z; w2 : Z; w3 : Z }.
Add Printing Constructor uint256_t.

Definition as_words (x : uint256_t) : words := [w0 x; w1 x; w2 x; w3 x].
(** the constructor from [std::array<uint64_t, 4>] *)
Definition of_words (l : words) : outcome uint256_t :=
  match l with [a; b; c; d] => Ok (U256 a b c d) | _ => Abort end.
(** the implicit conversion from an unsigned integer of at most 64 bits *)
Definition of_u64 (z : Z) : uint256_t := U256 (u64 z) 0 0 0.

(** the number a [uint256_t] stands for, unsigned and in two's complement *)
Definition to_Z (x : uint256_t) : Z := val (as_words x).
Definition to_signed (x : uint256_t) : Z :=
  if to_Z x <? 2 ^ 255 then to_Z x else to_Z x - 2 ^ 256.
Definition u256_ok (x : uint256_t) : Prop := words_ok (as_words x).

(** [explicit operator bool] *)
Definition operator_bool (x : uint256_t) : bool :=
  negb (Z.lor (Z.lor (w0 x) (w1 x)) (Z.lor (w2 x) (w3 x)) =? 0).

Section uint256.
Context `{WordOps}.

Definition subb256 (lhs rhs : uint256_t) : uint256_t * bool :=
  let '(v0, b0) := subb (w0 lhs) (w0 rhs) false in
  let '(v1, b1) := subb (w1 lhs) (w1 rhs) b0 in
  let '(v2, b2) := subb (w2 lhs) (w2 rhs) b1 in
  let '(v3, b3) := subb (w3 lhs) (w3 rhs) b2 in
  (U256 v0 v1 v2 v3, b3).

Definition addc256 (lhs rhs : uint256_t) : uint256_t * bool :=
  let '(v0, c0) := addc (w0 lhs) (w0 rhs) false in
  let '(v1, c1) := addc (w1 lhs) (w1 rhs) c0 in
  let '(v2, c2) := addc (w2 lhs) (w2 rhs) c1 in
  let '(v3, c3) := addc (w3 lhs) (w3 rhs) c2 in
  (U256 v0 v1 v2 v3, c3).

Definition operator_add (lhs rhs : uint256_t) : uint256_t := (addc256 lhs rhs).1.
Definition operator_sub (lhs rhs : uint256_t) : uint256_t := (subb256 lhs rhs).1.
Definition operator_lt (lhs rhs : uint256_t) : bool := (subb256 lhs rhs).2.
Definition operator_gt (lhs rhs : uint256_t) : bool := operator_lt rhs lhs.
Definition operator_le (lhs rhs : uint256_t) : bool := negb (operator_gt lhs rhs).
Definition operator_ge (lhs rhs : uint256_t) : bool := negb (operator_lt lhs rhs).

(** [BITWISE_BINOP] *)
Definition bitwise (op : Z → Z → Z) (x y : uint256_t) : uint256_t :=
  U256 (op (w0 x) (w0 y)) (op (w1 x) (w1 y)) (op (w2 x) (w2 y)) (op (w3 x) (w3 y)).
Definition operator_and : uint256_t → uint256_t → uint256_t := bitwise Z.land.
Definition operator_or : uint256_t → uint256_t → uint256_t := bitwise Z.lor.
Definition operator_xor : uint256_t → uint256_t → uint256_t := bitwise Z.lxor.

Definition operator_eq (x y : uint256_t) : bool :=
  let e0 := Z.lxor (w0 x) (w0 y) in
  let e1 := Z.lxor (w1 x) (w1 y) in
  let e2 := Z.lxor (w2 x) (w2 y) in
  let e3 := Z.lxor (w3 x) (w3 y) in
  Z.lor (Z.lor e0 e1) (Z.lor e2 e3) =? 0.

Definition operator_neg (x : uint256_t) : uint256_t := operator_sub (of_u64 0) x.
Definition operator_not (x : uint256_t) : uint256_t :=
  U256 (u64 (Z.lnot (w0 x))) (u64 (Z.lnot (w1 x))) (u64 (Z.lnot (w2 x))) (u64 (Z.lnot (w3 x))).

(** [operator<<(uint256_t, T)] with the shift converted to [uint64_t] *)
Definition shl64 (x : uint256_t) (shift0 : Z) : uint256_t :=
  if 256 <=? shift0 then of_u64 0
  else
    let shift := u8 shift0 in
    if shift <? 128 then
      if shift <? 64 then
        U256 (u64 (Z.shiftl (w0 x) shift)) (shld (w1 x) (w0 x) shift)
             (shld (w2 x) (w1 x) shift) (shld (w3 x) (w2 x) shift)
      else
        let shift := Z.land shift 63 in
        U256 0 (u64 (Z.shiftl (w0 x) shift)) (shld (w1 x) (w0 x) shift) (shld (w2 x) (w1 x) shift)
    else
      if shift <? 192 then
        let shift := Z.land shift 127 in
        U256 0 0 (u64 (Z.shiftl (w0 x) shift)) (shld (w1 x) (w0 x) shift)
      else
        let shift := Z.land shift 63 in
        U256 0 0 0 (u64 (Z.shiftl (w0 x) shift)).

Definition operator_shl (x shift : uint256_t) : uint256_t :=
  if negb (Z.lor (Z.lor (w3 shift) (w2 shift)) (w1 shift) =? 0) then of_u64 0
  else shl64 x (w0 shift).

Inductive RightShiftType := Arithmetic | Logical.

Definition shift_right (type : RightShiftType) (x shift0 : uint256_t) : uint256_t :=
  let fill :=
    match type with
    | Logical => 0
    | Arithmetic =>
        (* static_cast<int64_t>(x[3]) & INT64_MIN, shifted right by 63 *)
        let sign_bit := Z.land (i64 (w3 x)) (- 2 ^ 63) in
        u64 (Z.shiftr sign_bit 63)
    end in
  if negb (Z.lor (Z.lor (Z.lor (w3 shift0) (w2 shift0)) (w1 shift0))
             (Z.b2z (256 <=? w0 shift0)) =? 0)
  then U256 fill fill fill fill
  else
    let shift := u8 (w0 shift0) in
    let tail :=
      match type with
      | Logical => Z.shiftr (w3 x) (Z.land shift 63)
      | Arithmetic => shrd fill (w3 x) (Z.land shift 63)
      end in
    if shift <? 128 then
      if shift <? 64 then
        U256 (shrd (w1 x) (w0 x) shift) (shrd (w2 x) (w1 x) shift) (shrd (w3 x) (w2 x) shift) tail
      else
        let shift := Z.land shift 63 in
        U256 (shrd (w2 x) (w1 x) shift) (shrd (w3 x) (w2 x) shift) tail fill
    else
      if shift <? 192 then
        let shift := Z.land shift 127 in
        U256 (shrd (w3 x) (w2 x) shift) tail fill fill
      else U256 tail fill fill fill.

Definition operator_shr (x shift : uint256_t) : uint256_t := shift_right Logical x shift.
Definition sar (shift x : uint256_t) : uint256_t := shift_right Arithmetic x shift.

Definition truncating_mul256 (x y : uint256_t) : outcome uint256_t :=
  r ← truncating_mul 4 (as_words x) (as_words y);
  of_words r.
Definition operator_mul (lhs rhs : uint256_t) : outcome uint256_t := truncating_mul256 lhs rhs.

Definition udivrem256 (u v : uint256_t) : outcome (uint256_t * uint256_t) :=
  '(quot, rem) ← udivrem (as_words u) (as_words v);
  quot ← of_words quot;
  rem ← of_words rem;
  mret (quot, rem).
Definition operator_div (x y : uint256_t) : outcome uint256_t :=
  '(quot, _) ← udivrem256 x y; mret quot.
Definition operator_mod (x y : uint256_t) : outcome uint256_t :=
  '(_, rem) ← udivrem256 x y; mret rem.

(** the loop that adds [x] and [y] into five words *)
Definition sum5 (x y : uint256_t) : words :=
  let '(s0, c0) := addc (w0 x) (w0 y) false in
  let '(s1, c1) := addc (w1 x) (w1 y) c0 in
  let '(s2, c2) := addc (w2 x) (w2 y) c1 in
  let '(s3, c3) := addc (w3 x) (w3 y) c2 in
  [s0; s1; s2; s3; Z.b2z c3].

Definition addmod (x y mod_ : uint256_t) : outcome uint256_t :=
  if negb (w3 mod_ =? 0) && (w3 x <=? w3 mod_) && (w3 y <=? w3 mod_) then
    let '(x_sub, x_borrow) := subb256 x mod_ in
    let x_norm := if x_borrow then x else x_sub in
    let '(y_sub, y_borrow) := subb256 y mod_ in
    let y_norm := if y_borrow then y else y_sub in
    let '(xy_sum, xy_carry) := addc256 x_norm y_norm in
    let '(rem, rem_borrow) := subb256 xy_sum mod_ in
    if xy_carry || negb rem_borrow then mret rem else mret xy_sum
  else
    '(_, rem) ← udivrem (sum5 x y) (as_words mod_);
    of_words rem.

Definition mulmod (u v mod_ : uint256_t) : outcome uint256_t :=
  prod ← truncating_mul 8 (as_words u) (as_words v);
  '(_, rem) ← udivrem prod (as_words mod_);
  of_words rem.

Definition sdivrem (x y : uint256_t) : outcome (uint256_t * uint256_t) :=
  let sign_bit := 2 ^ 63 in
  let x_neg := Z.land (w3 x) sign_bit in
  let y_neg := Z.land (w3 y) sign_bit in
  let x_abs := if x_neg =? 0 then x else operator_neg x in
  let y_abs := if y_neg =? 0 then y else operator_neg y in
  let quot_neg := Z.lxor x_neg y_neg in
  '(quot, rem) ← udivrem256 x_abs y_abs;
  mret (if quot_neg =? 0 then quot else operator_neg quot,
        if x_neg =? 0 then rem else operator_neg rem).

(** the result is the low bit: the operands of the last line are 0 or 1, or
    the 64-bit complement of 0 or 1, and the [uint64_t] is converted to [bool] *)
Definition slt (x y : uint256_t) : bool :=
  let x_neg := Z.shiftr (w3 x) 63 in
  let y_neg := Z.shiftr (w3 y) 63 in
  let diff := Z.lxor x_neg y_neg in
  negb (Z.lor (Z.land (u64 (Z.lnot diff)) (Z.b2z (operator_lt x y)))
              (Z.land x_neg (u64 (Z.lnot y_neg))) =? 0).

(** [while (significant_bits)] *)
Fixpoint exp_bits (significant_bits : nat) (word_exp : Z) (result base : uint256_t)
    : outcome (uint256_t * uint256_t) :=
  match significant_bits with
  | O => mret (result, base)
  | S bits =>
      result ← (if Z.land word_exp 1 =? 0 then mret result else truncating_mul256 result base);
      base ← truncating_mul256 base base;
      exp_bits bits (Z.shiftr word_exp 1) result base
  end.

(** [for (size_t w = 0; w < sig_words; w++)]: [cnt] is [sig_words - w]. *)
Fixpoint exp_words (cnt w sig_words : nat) (exponent : words) (result base : uint256_t)
    : outcome uint256_t :=
  match cnt with
  | O => mret result
  | S cnt =>
      word_exp ← rd exponent w;
      let significant_bits :=
        if (w + 1 =? sig_words)%nat then 64 - countl_zero64 word_exp else 64 in
      '(result, base) ← exp_bits (Z.to_nat significant_bits) word_exp result base;
      exp_words cnt (S w) sig_words exponent result base
  end.

Definition exp (base exponent : uint256_t) : outcome uint256_t :=
  let result := of_u64 1 in
  if operator_eq base (of_u64 2) then mret (operator_shl result exponent)
  else
    let sig_words := count_significant_words (as_words exponent) in
    exp_words sig_words 0 sig_words (as_words exponent) result base.
End uint256.

(** ** Values *)
Lemma to_Z_eq x : to_Z x = w0 x + B * (w1 x + B * (w2 x + B * w3 x)).
Proof. unfold to_Z, as_words. cbn [val]. lia. Qed.
Lemma Bn_4 : Bn 4 = B * B * B * B.
Proof. rewrite !Bn_S, Bn_0. lia. Qed.
Lemma Bn_4_pow : Bn 4 = 2 ^ 256.
Proof. rewrite Bn_4, B_val. reflexivity. Qed.
Lemma u256_ok_eq x : u256_ok x ↔ word_ok (w0 x) ∧ word_ok (w1 x) ∧ word_ok (w2 x) ∧ word_ok (w3 x).
Proof. unfold u256_ok, words_ok, as_words. rewrite !Forall_cons_iff. naive_solver. Qed.
Lemma to_Z_bound x : u256_ok x → 0 ≤ to_Z x < 2 ^ 256.
Proof. intros Hx. rewrite <- Bn_4_pow. apply (val_bound (as_words x) Hx). Qed.
Lemma to_Z_inj x y : u256_ok x → u256_ok y → to_Z x = to_Z y → x = y.
Proof.
  intros Hx Hy E. pose proof (val_inj _ _ Hx Hy eq_refl E) as Ew.
  destruct x, y. unfold as_words in Ew. cbn in Ew. by injection Ew as -> -> -> ->.
Qed.
Lemma of_words_ok l : words_ok l → length l = 4%nat →
  ∃ x, of_words l = Ok x ∧ u256_ok x ∧ to_Z x = val l ∧ as_words x = l.
Proof.
  intros Hl E. destruct l as [|a [|b [|c [|d [|]]]]]; try done.
  exists (U256 a b c d). done.
Qed.
Lemma u256_ok_of_u64 z : u256_ok (of_u64 z).
Proof. apply u256_ok_eq. cbn. auto with words. Qed.
Lemma to_Z_of_u64 z : 0 ≤ z < B → to_Z (of_u64 z) = z.
Proof. intros. rewrite to_Z_eq. cbn. rewrite u64_B, Z.mod_small by done. lia. Qed.
(** reading a result modulo 2^256 off an equation *)
Lemma to_Z_mod x z k : u256_ok x → to_Z x = z + 2 ^ 256 * k → to_Z x = z mod 2 ^ 256.
Proof. intros Hx E. pose proof (to_Z_bound x Hx). apply Z.mod_unique with (- k); lia. Qed.
#[export] Hint Resolve u256_ok_of_u64 : words.

Section specs.
Context `{L : WordOpsLaws}.

(** ** Addition, subtraction, comparison *)
Lemma borrow_sum l r c : word_ok l → word_ok r →
  (l - r - Z.b2z c) mod B - B * Z.b2z (l - r - Z.b2z c <? 0) = l - r - Z.b2z c.
Proof.
  unfold word_ok. intros. pose proof B_pos.
  destruct c; cbn [Z.b2z]; (destruct (Z.ltb_spec (l - r - 1) 0) || idtac);
    (destruct (Z.ltb_spec (l - r - 0) 0) || idtac); cbn [Z.b2z]; wrap_case; try lia; wrap_case; lia.
Qed.

Lemma addc256_spec x y : u256_ok x → u256_ok y →
  u256_ok (addc256 x y).1 ∧
  to_Z (addc256 x y).1 + 2 ^ 256 * Z.b2z (addc256 x y).2 = to_Z x + to_Z y.
Proof.
  intros Hx Hy. apply u256_ok_eq in Hx as (? & ? & ? & ?). apply u256_ok_eq in Hy as (? & ? & ? & ?).
  unfold addc256. rewrite !addc_law by done. cbn [fst snd]. split.
  - apply u256_ok_eq. cbn. auto with words.
  - rewrite !to_Z_eq, <- Bn_4_pow, Bn_4. cbn [w0 w1 w2 w3].
    set (c0 := B <=? w0 x + w0 y + Z.b2z false). set (c1 := B <=? w1 x + w1 y + Z.b2z c0).
    set (c2 := B <=? w2 x + w2 y + Z.b2z c1). set (c3 := B <=? w3 x + w3 y + Z.b2z c2).
    pose proof (addc_sum (w0 x) (w0 y) false ltac:(done) ltac:(done)) as E0. fold c0 in E0.
    pose proof (addc_sum (w1 x) (w1 y) c0 ltac:(done) ltac:(done)) as E1. fold c1 in E1.
    pose proof (addc_sum (w2 x) (w2 y) c1 ltac:(done) ltac:(done)) as E2. fold c2 in E2.
    pose proof (addc_sum (w3 x) (w3 y) c2 ltac:(done) ltac:(done)) as E3. fold c3 in E3.
    apply (f_equal (Z.mul B)) in E1. apply (f_equal (Z.mul (B * B))) in E2.
    apply (f_equal (Z.mul (B * B * B))) in E3. cbn [Z.b2z] in E0 |- *. lia.
Qed.

Lemma subb256_spec x y : u256_ok x → u256_ok y →
  u256_ok (subb256 x y).1 ∧
  to_Z (subb256 x y).1 - 2 ^ 256 * Z.b2z (subb256 x y).2 = to_Z x - to_Z y.
Proof.
  intros Hx Hy. apply u256_ok_eq in Hx as (? & ? & ? & ?). apply u256_ok_eq in Hy as (? & ? & ? & ?).
  unfold subb256. rewrite !subb_law by done. cbn [fst snd]. split.
  - apply u256_ok_eq. cbn. auto with words.
  - rewrite !to_Z_eq, <- Bn_4_pow, Bn_4. cbn [w0 w1 w2 w3].
    set (c0 := w0 x - w0 y - Z.b2z false <? 0). set (c1 := w1 x - w1 y - Z.b2z c0 <? 0).
    set (c2 := w2 x - w2 y - Z.b2z c1 <? 0). set (c3 := w3 x - w3 y - Z.b2z c2 <? 0).
    pose proof (borrow_sum (w0 x) (w0 y) false ltac:(done) ltac:(done)) as E0. fold c0 in E0.
    pose proof (borrow_sum (w1 x) (w1 y) c0 ltac:(done) ltac:(done)) as E1. fold c1 in E1.
    pose proof (borrow_sum (w2 x) (w2 y) c1 ltac:(done) ltac:(done)) as E2. fold c2 in E2.
    pose proof (borrow_sum (w3 x) (w3 y) c2 ltac:(done) ltac:(done)) as E3. fold c3 in E3.
    apply (f_equal (Z.mul B)) in E1. apply (f_equal (Z.mul (B * B))) in E2.
    apply (f_equal (Z.mul (B * B * B))) in E3. cbn [Z.b2z] in E0 |- *. lia.
Qed.

Lemma operator_add_spec x y : u256_ok x → u256_ok y →
  u256_ok (operator_add x y) ∧ to_Z (operator_add x y) = (to_Z x + to_Z y) mod 2 ^ 256.
Proof.
  intros Hx Hy. destruct (addc256_spec x y Hx Hy) as [Hr E]. split; [done|].
  apply to_Z_mod with (k := - Z.b2z (addc256 x y).2); [done|]. unfold operator_add. lia.
Qed.
Lemma operator_sub_spec x y : u256_ok x → u256_ok y →
  u256_ok (operator_sub x y) ∧ to_Z (operator_sub x y) = (to_Z x - to_Z y) mod 2 ^ 256.
Proof.
  intros Hx Hy. destruct (subb256_spec x y Hx Hy) as [Hr E]. split; [done|].
  apply to_Z_mod with (k := Z.b2z (subb256 x y).2); [done|]. unfold operator_sub. lia.
Qed.
Lemma subb256_borrow x y : u256_ok x → u256_ok y → (subb256 x y).2 = (to_Z x <? to_Z y).
Proof.
  intros Hx Hy. destruct (subb256_spec x y Hx Hy) as [Hr E].
  pose proof (to_Z_bound x Hx). pose proof (to_Z_bound y Hy). pose proof (to_Z_bound _ Hr).
  destruct (subb256 x y).2, (Z.ltb_spec (to_Z x) (to_Z y)); cbn [Z.b2z] in E; try done; lia.
Qed.
Lemma operator_lt_spec x y : u256_ok x → u256_ok y → operator_lt x y = (to_Z x <? to_Z y).
Proof. apply subb256_borrow. Qed.
Lemma operator_neg_spec x : u256_ok x →
  u256_ok (operator_neg x) ∧ to_Z (operator_neg x) = (- to_Z x) mod 2 ^ 256.
Proof.
  intros Hx. destruct (operator_sub_spec (of_u64 0) x) as [? E]; auto with words.
Qed.

Lemma operator_eq_spec x y : operator_eq x y = true ↔ x = y.
Proof.
  unfold operator_eq. rewrite Z.eqb_eq, !Z.lor_eq_0_iff, !Z.lxor_eq_0_iff.
  destruct x, y; cbn. naive_solver.
Qed.
Lemma operator_bool_spec x : u256_ok x → operator_bool x = negb (to_Z x =? 0).
Proof.
  intros Hx. unfold operator_bool. f_equal. apply Bool.eq_iff_eq_true.
  rewrite !Z.eqb_eq, !Z.lor_eq_0_iff, to_Z_eq.
  apply u256_ok_eq in Hx. unfold word_ok in Hx. pose proof B_pos. split; [intros [[-> ->] [-> ->]]; lia|].
  intros E. assert (w0 x = 0) by nia. assert (w1 x = 0) by nia. assert (w2 x = 0) by nia.
  split_and!; nia.
Qed.

(** ** Multiplication and division *)
Lemma truncating_mul256_spec x y : u256_ok x → u256_ok y →
  ∃ r, truncating_mul256 x y = Ok r ∧ u256_ok r ∧ to_Z r = (to_Z x * to_Z y) mod 2 ^ 256.
Proof.
  intros Hx Hy. destruct (truncating_mul_law 4 (as_words x) (as_words y)) as (r & E & Hr & Hl & Ev);
    try done; try (cbn; lia).
  destruct (of_words_ok r Hr Hl) as (z & Ez & ? & ? & _). exists z.
  unfold truncating_mul256. rewrite E. ostep. rewrite Ez. split_and!; [done..|].
  rewrite <- Bn_4_pow. unfold to_Z in *. lia.
Qed.

Lemma udivrem256_spec x y : u256_ok x → u256_ok y → to_Z y ≠ 0 →
  ∃ q r, udivrem256 x y = Ok (q, r) ∧ u256_ok q ∧ u256_ok r ∧
    to_Z q = to_Z x / to_Z y ∧ to_Z r = to_Z x mod to_Z y.
Proof.
  intros Hx Hy H0. destruct (udivrem_spec (as_words x) (as_words y)) as (q & r & E & Hq & Hr & Hlq & Hlr & Eq & Er);
    try done.
  destruct (of_words_ok q Hq Hlq) as (q' & Eq' & ? & Vq & _).
  destruct (of_words_ok r Hr Hlr) as (r' & Er' & ? & Vr & _).
  exists q', r'. unfold udivrem256. rewrite E. ostep. rewrite Eq', Er'. split_and!; try done.
  - rewrite Vq. apply Eq.
  - rewrite Vr. apply Er.
Qed.
Lemma udivrem256_zero x y : u256_ok y → to_Z y = 0 → udivrem256 x y = Abort.
Proof. intros Hy E. unfold udivrem256. by rewrite udivrem_zero. Qed.

(** ** Modular arithmetic *)
Lemma sum5_eq x y : sum5 x y = as_words (addc256 x y).1 ++ [Z.b2z (addc256 x y).2].
Proof.
  unfold sum5, addc256. destruct (addc _ _ false) as [? c0]. destruct (addc _ _ c0) as [? c1].
  destruct (addc _ _ c1) as [? c2]. by destruct (addc _ _ c2).
Qed.
Lemma sum5_spec x y : u256_ok x → u256_ok y →
  words_ok (sum5 x y) ∧ length (sum5 x y) = 5%nat ∧ val (sum5 x y) = to_Z x + to_Z y.
Proof.
  intros Hx Hy. destruct (addc256_spec x y Hx Hy) as [Hr E]. rewrite sum5_eq. split_and!.
  - apply Forall_app_2; [done|]. repeat constructor; destruct (addc256 x y).2; cbn; pose proof B_pos; lia.
  - done.
  - rewrite val_app. change (length (as_words _)) with 4%nat. rewrite Bn_4_pow. cbn [val].
    fold (to_Z (addc256 x y).1). lia.
Qed.

(** reduction of a number below twice the modulus by one subtraction *)
Lemma reduce_once x m : u256_ok x → u256_ok m → to_Z x < 2 * to_Z m →
  let r := if (subb256 x m).2 then x else (subb256 x m).1 in
  u256_ok r ∧ to_Z r = to_Z x mod to_Z m.
Proof.
  intros Hx Hm Hlt. destruct (subb256_spec x m Hx Hm) as [Hr E]. pose proof (to_Z_bound x Hx).
  rewrite subb256_borrow in * by done. destruct (Z.ltb_spec (to_Z x) (to_Z m)); cbn [Z.b2z] in E; cbv zeta.
  - split; [done|]. rewrite Z.mod_small; lia.
  - split; [done|]. apply Z.mod_unique with 1; lia.
Qed.

Lemma top_word_bound x m : u256_ok x → u256_ok m → w3 m ≠ 0 → w3 x ≤ w3 m → to_Z x < 2 * to_Z m.
Proof.
  intros Hx Hm H0 Hle. apply u256_ok_eq in Hx as (? & ? & ? & ?). apply u256_ok_eq in Hm as (? & ? & ? & ?).
  rewrite !to_Z_eq. unfold word_ok in *. pose proof B_pos.
  assert (w2 x + B * w3 x < B * (2 * w3 m)) by nia.
  assert (w1 x + B * (w2 x + B * w3 x) < B * (B * (2 * w3 m))) by nia.
  assert (w0 x + B * (w1 x + B * (w2 x + B * w3 x)) < B * (B * (B * (2 * w3 m)))) by nia.
  assert (0 ≤ B * (w1 m + B * w2 m)) by nia. lia.
Qed.

Lemma addmod_spec x y m : u256_ok x → u256_ok y → u256_ok m → to_Z m ≠ 0 →
  ∃ r, addmod x y m = Ok r ∧ u256_ok r ∧ to_Z r = (to_Z x + to_Z y) mod to_Z m.
Proof.
  intros Hx Hy Hm H0. unfold addmod.
  destruct (negb (w3 m =? 0) && (w3 x <=? w3 m) && (w3 y <=? w3 m)) eqn:Efast.
  - apply andb_true_iff in Efast as [[H1 H2]%andb_true_iff H3].
    apply negb_true_iff, Z.eqb_neq in H1. apply Z.leb_le in H2, H3.
    destruct (reduce_once x m) as [Hxn Exn]; [auto using top_word_bound..|].
    destruct (reduce_once y m) as [Hyn Eyn]; [auto using top_word_bound..|].
    destruct (subb256 x m) as [xs xb], (subb256 y m) as [ys yb]. cbn [fst snd] in *.
    set (xn := if xb then x else xs) in *. set (yn := if yb then y else ys) in *.
    destruct (addc256_spec xn yn Hxn Hyn) as [Hs Es].
    pose proof (to_Z_bound m Hm). pose proof (Z.mod_pos_bound (to_Z x) (to_Z m)).
    pose proof (Z.mod_pos_bound (to_Z y) (to_Z m)).
    destruct (addc256 xn yn) as [sum carry]. cbn [fst snd] in *.
    pose proof (subb256_borrow sum m Hs Hm) as Eb. destruct (subb256_spec sum m Hs Hm) as [Hr Er].
    destruct (subb256 sum m) as [rem borrow]. cbn [fst snd] in *. subst borrow.
    pose proof (to_Z_bound sum Hs). pose proof (to_Z_bound rem Hr).
    rewrite Zplus_mod, <- Exn, <- Eyn.
    destruct carry; [|destruct (Z.ltb_spec (to_Z sum) (to_Z m))]; cbn [Z.b2z orb negb] in *; eexists;
      (split; [done|]; split; [done|]).
    + destruct (Z.ltb_spec (to_Z sum) (to_Z m)); cbn [Z.b2z] in *; apply Z.mod_unique with 1; lia.
    + rewrite Z.mod_small; lia.
    + apply Z.mod_unique with 1; lia.
  - destruct (sum5_spec x y Hx Hy) as (Hs & Hl & Ev).
    destruct (udivrem_spec (sum5 x y) (as_words m)) as (q & r & -> & Hq & Hr & Hlq & Hlr & Eq & Er);
      try done; [rewrite Hl; cbn; lia|].
    destruct (of_words_ok r Hr Hlr) as (r' & Er' & ? & Vr & _).
    exists r'. ostep. split_and!; try done. by rewrite Vr, Er, Ev.
Qed.

Lemma mulmod_spec x y m : u256_ok x → u256_ok y → u256_ok m → to_Z m ≠ 0 →
  ∃ r, mulmod x y m = Ok r ∧ u256_ok r ∧ to_Z r = (to_Z x * to_Z y) mod to_Z m.
Proof.
  intros Hx Hy Hm H0. unfold mulmod.
  destruct (truncating_mul_law 8 (as_words x) (as_words y)) as (p & -> & Hp & Hlp & Ep);
    try done; try (cbn; lia). ostep.
  destruct (udivrem_spec p (as_words m)) as (q & r & -> & Hq & Hr & Hlq & Hlr & Eq & Er);
    try done; [rewrite Hlp; cbn; lia|].
  destruct (of_words_ok r Hr Hlr) as (r' & Er' & ? & Vr & _).
  exists r'. ostep. split_and!; try done. rewrite Vr, Er, Ep. fold (to_Z m) (to_Z x) (to_Z y).
  rewrite (Z.mod_small _ (Bn 8)); [done|].
  pose proof (to_Z_bound x Hx). pose proof (to_Z_bound y Hy).
  change (Bn 8) with (Bn (4 + 4)). rewrite Bn_add, Bn_4_pow. nia.
Qed.

(** ** Signed operations *)
Lemma land_pow2 w n : 0 ≤ n → Z.land w (2 ^ n) = if Z.testbit w n then 2 ^ n else 0.
Proof.
  intros Hn. apply Z.bits_inj'. intros m Hm. rewrite Z.land_spec, Z.pow2_bits_eqb by done.
  destruct (Z.eqb_spec n m) as [<-|Hne].
  - destruct (Z.testbit w n); [by rewrite Z.pow2_bits_true|by rewrite Z.testbit_0_l].
  - rewrite andb_false_r. destruct (Z.testbit w n); [by rewrite Z.pow2_bits_false|by rewrite Z.testbit_0_l].
Qed.
Lemma sign_word x : u256_ok x →
  (Z.land (w3 x) (2 ^ 63) =? 0) = (to_Z x <? 2 ^ 255) ∧ Z.shiftr (w3 x) 63 = Z.b2z (2 ^ 255 <=? to_Z x).
Proof.
  intros Hx. pose proof Hx as Hx'. apply u256_ok_eq in Hx as (? & ? & ? & ?). unfold word_ok in *.
  assert (Z.shiftr (w3 x) 63 = Z.b2z (2 ^ 255 <=? to_Z x)) as Es.
  { rewrite Z.shiftr_div_pow2 by done. rewrite to_Z_eq. pose proof B_pos.
    assert (2 ^ 255 = B * B * B * 2 ^ 63) as -> by (rewrite B_val; reflexivity).
    assert (B = 2 * 2 ^ 63) as EB by (rewrite B_val; reflexivity).
    assert (0 ≤ w0 x + B * (w1 x + B * w2 x) < B * B * B) by nia.
    set (H63 := 2 ^ 63) in *. clearbody H63.
    destruct (Z.leb_spec (B * B * B * H63) (w0 x + B * (w1 x + B * (w2 x + B * w3 x)))) as [Hle|Hlt]; cbn [Z.b2z].
    - assert (H63 ≤ w3 x) by nia. symmetry. apply Z.div_unique with (w3 x - H63); lia.
    - assert (w3 x < H63) by nia. apply Z.div_small. lia. }
  split; [|done]. rewrite land_pow2, Z.testbit_odd, Es by done.
  rewrite Z.ltb_antisym. by destruct (2 ^ 255 <=? to_Z x).
Qed.

Lemma to_signed_bound x : u256_ok x → - 2 ^ 255 ≤ to_signed x < 2 ^ 255.
Proof.
  intros Hx. pose proof (to_Z_bound x Hx). unfold to_signed.
  assert (2 ^ 256 = 2 * 2 ^ 255) by done. destruct (Z.ltb_spec (to_Z x) (2 ^ 255)); lia.
Qed.
Lemma to_signed_sign x : u256_ok x → (to_Z x <? 2 ^ 255) = (0 <=? to_signed x).
Proof.
  intros Hx. pose proof (to_Z_bound x Hx). unfold to_signed.
  destruct (Z.ltb_spec (to_Z x) (2 ^ 255)); symmetry; [apply Z.leb_le|apply Z.leb_gt]; lia.
Qed.
Lemma abs_spec x : u256_ok x →
  let a := if to_Z x <? 2 ^ 255 then x else operator_neg x in
  u256_ok a ∧ to_Z a = Z.abs (to_signed x).
Proof.
  intros Hx. pose proof (to_Z_bound x Hx). destruct (operator_neg_spec x Hx) as [Hn En].
  unfold to_signed. assert (2 ^ 256 = 2 * 2 ^ 255) as E2 by done.
  destruct (Z.ltb_spec (to_Z x) (2 ^ 255)); cbv zeta.
  - split; [done|]. lia.
  - split; [done|]. rewrite En. symmetry. apply Z.mod_unique with (-1); lia.
Qed.
Lemma neg_if_spec (b : bool) x : u256_ok x →
  let r := if b then x else operator_neg x in
  u256_ok r ∧ to_Z r = ((if b then 1 else -1) * to_Z x) mod 2 ^ 256.
Proof.
  intros Hx. destruct (operator_neg_spec x Hx). destruct b; cbv zeta; split; auto.
  - rewrite Z.mul_1_l, Z.mod_small; [done|]. by apply to_Z_bound.
Qed.

Lemma sdivrem_spec x y : u256_ok x → u256_ok y → to_Z y ≠ 0 →
  ∃ q r, sdivrem x y = Ok (q, r) ∧ u256_ok q ∧ u256_ok r ∧
    to_Z q = Z.quot (to_signed x) (to_signed y) mod 2 ^ 256 ∧
    to_Z r = Z.rem (to_signed x) (to_signed y) mod 2 ^ 256.
Proof.
  intros Hx Hy H0. unfold sdivrem.
  destruct (sign_word x Hx) as [Ex _]. destruct (sign_word y Hy) as [Ey _].
  assert ((Z.lxor (Z.land (w3 x) (2 ^ 63)) (Z.land (w3 y) (2 ^ 63)) =? 0)
    = Bool.eqb (to_Z x <? 2 ^ 255) (to_Z y <? 2 ^ 255)) as Exy.
  { rewrite <- Ex, <- Ey, !land_pow2 by done. by destruct (Z.testbit (w3 x) 63), (Z.testbit (w3 y) 63). }
  cbv zeta. rewrite Exy, Ex, Ey.
  destruct (abs_spec x Hx) as [Hxa Exa]. destruct (abs_spec y Hy) as [Hya Eya].
  pose proof (to_Z_bound y Hy).
  assert (to_signed y ≠ 0) as Hs0.
  { unfold to_signed. destruct (to_Z y <? 2 ^ 255); lia. }
  destruct (udivrem256_spec _ _ Hxa Hya) as (q & r & -> & Hq & Hr & Eq & Er); [rewrite Eya; lia|]. ostep.
  rewrite Exa, Eya in Eq, Er.
  destruct (neg_if_spec (Bool.eqb (to_Z x <? 2 ^ 255) (to_Z y <? 2 ^ 255)) q Hq) as [Hq' Eq'].
  destruct (neg_if_spec (to_Z x <? 2 ^ 255) r Hr) as [Hr' Er'].
  eexists _, _. split_and!; [done|done|done|rewrite Eq', Eq|rewrite Er', Er].
  - rewrite Z.quot_div by done. f_equal. rewrite !to_signed_sign by done.
    destruct (Z.leb_spec 0 (to_signed x)), (Z.leb_spec 0 (to_signed y)); cbn [Bool.eqb];
      destruct (Z.eq_dec (to_signed x) 0) as [->|]; rewrite ?Z.div_0_l by lia;
      rewrite ?(Z.sgn_pos (to_signed x)), ?(Z.sgn_neg (to_signed x)), ?(Z.sgn_pos (to_signed y)),
        ?(Z.sgn_neg (to_signed y)) by lia; lia.
  - rewrite Z.rem_mod by done. f_equal. rewrite !to_signed_sign by done.
    destruct (Z.leb_spec 0 (to_signed x)); destruct (Z.eq_dec (to_signed x) 0) as [->|];
      rewrite ?Z.mod_0_l by lia; rewrite ?(Z.sgn_pos (to_signed x)), ?(Z.sgn_neg (to_signed x)) by lia; lia.
Qed.

Lemma slt_spec x y : u256_ok x → u256_ok y → slt x y = (to_signed x <? to_signed y).
Proof.
  intros Hx Hy. unfold slt. rewrite operator_lt_spec by done.
  destruct (sign_word x Hx) as [_ ->]. destruct (sign_word y Hy) as [_ ->].
  pose proof (to_Z_bound x Hx). pose proof (to_Z_bound y Hy). unfold to_signed.
  assert (2 ^ 256 = 2 * 2 ^ 255) by done.
  destruct (Z.leb_spec (2 ^ 255) (to_Z x)), (Z.leb_spec (2 ^ 255) (to_Z y)),
    (Z.ltb_spec (to_Z x) (2 ^ 255)), (Z.ltb_spec (to_Z y) (2 ^ 255)); try (exfalso; lia);
  destruct (Z.ltb_spec (to_Z x) (to_Z y)); try (exfalso; lia); cbn [Z.b2z].
  all: first [rewrite (proj2 (Z.ltb_lt _ _)) by lia | rewrite (proj2 (Z.ltb_ge _ _)) by lia | idtac].
  all: reflexivity.
Qed.

(** ** Shifts *)
Lemma land_small s n : 0 ≤ n → 0 ≤ s → Z.land s (2 ^ n - 1) = s mod 2 ^ n.
Proof. intros. rewrite <- Z.land_ones by done. f_equal. rewrite Z.ones_equiv. lia. Qed.

(** a shift by [64 * k + s] moves whole words and shifts the rest *)
Lemma shl_words_value k s x : 0 ≤ s < 64 → (k < 4)%nat → u256_ok x →
  let l := replicate k 0 ++ shl_words s (take (4 - k) (as_words x)) in
  words_ok l ∧ length l = 4%nat ∧ val l = (to_Z x * 2 ^ (64 * Z.of_nat k + s)) mod 2 ^ 256.
Proof.
  intros Hs Hk Hx l.
  destruct (shl_words_spec s (take (4 - k) (as_words x)) Hs) as (Hw & Hl & E).
  { by apply Forall_take. }
  { rewrite length_take. cbn. lia. }
  rewrite length_take_le in Hl, E by (cbn; lia).
  assert (words_ok l) by (apply Forall_app_2; [apply words_ok_replicate|done]).
  assert (length l = 4%nat) as Hll by (unfold l; rewrite length_app, length_replicate; lia).
  split_and!; [done..|]. rewrite <- Bn_4_pow.
  set (ov := List.last (take (4 - k) (as_words x)) 0 * 2 ^ s / B) in *.
  pose proof (val_split (as_words x) (4 - k) Hx) as Ex. fold (to_Z x) in Ex.
  pose proof (val_bound l ltac:(done)) as Hb. rewrite Hll in Hb.
  assert (2 ^ (64 * Z.of_nat k + s) = Bn k * 2 ^ s) as ->.
  { rewrite Z.pow_add_r, Z.pow_mul_r by lia. by rewrite <- B_val. }
  apply Z.mod_unique with (ov + 2 ^ s * val (drop (4 - k) (as_words x))); [lia|].
  unfold l. rewrite val_app, val_replicate, length_replicate, Ex.
  assert (Bn 4 = Bn k * Bn (4 - k)) as E4 by (rewrite <- Bn_add; f_equal; lia).
  rewrite E4. apply (f_equal (Z.mul (Bn k))) in E. lia.
Qed.

Lemma shl64_words x shift : 0 ≤ shift < 256 →
  as_words (shl64 x shift)
    = replicate (Z.to_nat (shift / 64)) 0
      ++ shl_words (shift mod 64) (take (4 - Z.to_nat (shift / 64)) (as_words x)).
Proof.
  intros Hs. unfold shl64. rewrite (proj2 (Z.leb_gt 256 shift)) by lia.
  assert (u8 shift = shift) as -> by (unfold u8; apply Z.mod_small; change (2 ^ 8) with 256; lia).
  destruct (Z.ltb_spec shift 128); [destruct (Z.ltb_spec shift 64)|destruct (Z.ltb_spec shift 192)].
  - rewrite (Z.div_small shift), (Z.mod_small shift) by lia. done.
  - assert (shift / 64 = 1) as -> by (symmetry; apply Z.div_unique with (shift - 64); lia).
    change 63 with (2 ^ 6 - 1). rewrite land_small by lia. done.
  - assert (shift / 64 = 2) as -> by (symmetry; apply Z.div_unique with (shift - 128); lia).
    change 127 with (2 ^ 7 - 1). rewrite land_small by lia.
    replace (shift mod 2 ^ 7) with (shift mod 64); [done|]. change (2 ^ 7) with 128.
    rewrite <- (Z.mod_unique shift 64 2 (shift - 128)), <- (Z.mod_unique shift 128 1 (shift - 128)) by lia.
    done.
  - assert (shift / 64 = 3) as -> by (symmetry; apply Z.div_unique with (shift - 192); lia).
    change 63 with (2 ^ 6 - 1). rewrite land_small by lia. done.
Qed.

Lemma shl64_spec x shift : u256_ok x → 0 ≤ shift →
  u256_ok (shl64 x shift) ∧ to_Z (shl64 x shift) = (to_Z x * 2 ^ shift) mod 2 ^ 256.
Proof.
  intros Hx Hs. destruct (Z.lt_ge_cases shift 256).
  - pose proof (Z.div_mod shift 64 ltac:(lia)) as Ed. pose proof (Z.mod_pos_bound shift 64 ltac:(lia)).
    pose proof (Z.div_pos shift 64 Hs ltac:(lia)). pose proof (Z.div_lt_upper_bound shift 64 4 ltac:(lia) ltac:(lia)).
    destruct (shl_words_value (Z.to_nat (shift / 64)) (shift mod 64) x) as (Hw & _ & E); auto; [lia|].
    rewrite <- shl64_words in Hw, E by lia. rewrite Z2Nat.id in E by done.
    split; [done|]. unfold to_Z at 1. rewrite E. do 3 f_equal. lia.
  - unfold shl64. rewrite (proj2 (Z.leb_le 256 shift)) by lia. split; [auto with words|].
    rewrite to_Z_of_u64 by (pose proof B_pos; lia).
    replace shift with (shift - 256 + 256) by lia. rewrite Z.pow_add_r, Z.mul_assoc by lia.
    by rewrite Z.mod_mul.
Qed.

Lemma high_words_zero x : u256_ok x →
  (Z.lor (Z.lor (w3 x) (w2 x)) (w1 x) =? 0) = (to_Z x <? B) ∧ (to_Z x < B → w0 x = to_Z x).
Proof.
  intros Hx. pose proof Hx as Hx'. apply u256_ok_eq in Hx as (? & ? & ? & ?). unfold word_ok in *. pose proof B_pos.
  rewrite to_Z_eq. split.
  - apply Bool.eq_iff_eq_true. rewrite Z.eqb_eq, !Z.lor_eq_0_iff, Z.ltb_lt. split.
    + intros [[-> ->] ->]. lia.
    + intros Hlt. assert (w1 x + B * (w2 x + B * w3 x) = 0) as E1 by nia.
      assert (w2 x + B * w3 x = 0) by nia. split_and!; nia.
  - intros Hlt. assert (w1 x + B * (w2 x + B * w3 x) = 0) as E1 by nia. rewrite E1. lia.
Qed.

Lemma operator_shl_spec x shift : u256_ok x → u256_ok shift →
  u256_ok (operator_shl x shift) ∧ to_Z (operator_shl x shift) = (to_Z x * 2 ^ to_Z shift) mod 2 ^ 256.
Proof.
  intros Hx Hs. unfold operator_shl. destruct (high_words_zero shift Hs) as [-> E].
  pose proof (to_Z_bound shift Hs). destruct (Z.ltb_spec (to_Z shift) B) as [Hlt|Hge]; cbn [negb].
  - rewrite (E Hlt). apply shl64_spec; [done|lia].
  - split; [auto with words|]. rewrite to_Z_of_u64 by (pose proof B_pos; lia).
    assert (256 ≤ B) by (by rewrite B_val).
    replace (to_Z shift) with (to_Z shift - 256 + 256) by lia. rewrite Z.pow_add_r, Z.mul_assoc by lia.
    by rewrite Z.mod_mul.
Qed.

Lemma val_replicate_ones k : val (replicate k (B - 1)) = Bn k - 1.
Proof. induction k as [|k IH]; cbn [replicate val]; [rewrite Bn_0; lia|]. rewrite IH, Bn_S. lia. Qed.

(** a right shift by [64 * k + s] that fills with copies of the sign *)
Lemma shr_words_value k s x fill : 0 ≤ s < 64 → (k < 4)%nat → u256_ok x → fill = 0 ∨ fill = B - 1 →
  let l := take (4 - k) (shr_words s (drop k (as_words x) ++ [fill])) ++ replicate k fill in
  words_ok l ∧ length l = 4%nat ∧
  val l = ((to_Z x - if fill =? 0 then 0 else 2 ^ 256) / 2 ^ (64 * Z.of_nat k + s)) mod 2 ^ 256.
Proof.
  intros Hs Hk Hx Hfill l. pose proof B_pos. pose proof (pow2_pos s ltac:(lia)) as Hs2.
  assert (word_ok fill) as Hf by (unfold word_ok; lia).
  set (D := drop k (as_words x) ++ [fill]).
  assert (words_ok D) as HD by (apply Forall_app_2; [by apply Forall_drop|by apply Forall_singleton]).
  assert (length D = 5 - k)%nat as HlD by (unfold D; rewrite length_app, length_drop; cbn; lia).
  destruct (shr_words_spec s D Hs HD) as (HS & HlS & ES).
  assert (words_ok l) as Hl by (apply Forall_app_2; [by apply Forall_take|by apply Forall_replicate]).
  assert (length (take (4 - k) (shr_words s D)) = 4 - k)%nat as HlT by (rewrite length_take_le; lia).
  assert (length l = 4%nat) as Hll by (unfold l; fold D; rewrite length_app, HlT, length_replicate; lia).
  split_and!; [done..|].
  assert (val D = to_Z x / Bn k + Bn (4 - k) * fill) as ED.
  { unfold D. rewrite val_app, val_drop, length_drop by done. change (length (as_words x)) with 4%nat. fold (to_Z x). cbn [val]. lia. }
  assert (2 ^ (64 * Z.of_nat k + s) = Bn k * 2 ^ s) as ->.
  { rewrite Z.pow_add_r, Z.pow_mul_r by lia. by rewrite <- B_val. }
  pose proof (to_Z_bound x Hx) as Hb. rewrite <- Bn_4_pow in *.
  assert (Bn 4 = Bn k * Bn (4 - k)) as E4 by (rewrite <- Bn_add; f_equal; lia).
  pose proof (Bn_pos k). pose proof (Bn_pos (4 - k)).
  unfold l. fold D. rewrite val_app, HlT, val_take, ES, ED by done.
  rewrite <- Z.div_div by lia. set (W := to_Z x / Bn k).
  assert (0 ≤ W < Bn (4 - k)) as HW.
  { split; [apply Z.div_pos; lia|]. apply Z.div_lt_upper_bound; lia. }
  destruct Hfill as [-> | ->].
  - rewrite Z.eqb_refl, Z.sub_0_r, val_replicate. fold W. rewrite !Z.mul_0_r, !Z.add_0_r.
    pose proof (Z.div_pos W (2 ^ s) ltac:(lia) Hs2).
    assert (W / 2 ^ s ≤ W) by (apply Z.div_le_upper_bound; [done|]; nia).
    rewrite !Z.mod_small; nia.
  - rewrite (proj2 (Z.eqb_neq (B - 1) 0)), val_replicate_ones by lia.
    assert ((to_Z x - Bn 4) / Bn k = W - Bn (4 - k)) as ->.
    { rewrite E4. replace (to_Z x - Bn k * Bn (4 - k)) with (to_Z x + - Bn (4 - k) * Bn k) by lia.
      rewrite Z.div_add by lia. unfold W. lia. }
    set (Y := W - Bn (4 - k)).
    assert (W + Bn (4 - k) * (B - 1) = Y + Bn (4 - k) * 2 ^ (64 - s) * 2 ^ s) as ->.
    { unfold Y. rewrite (B_split s) by done. lia. }
    rewrite Z.div_add, (Z.mul_comm (Bn (4 - k)) (2 ^ (64 - s))), Z.mod_add by lia.
    assert (- Bn (4 - k) ≤ Y / 2 ^ s < 0) as HY.
    { split; [apply Z.div_le_lower_bound; [done|]; unfold Y; nia|].
      apply Z.div_lt_upper_bound; unfold Y; lia. }
    rewrite <- (Z.mod_unique (Y / 2 ^ s) (Bn (4 - k)) (-1) (Y / 2 ^ s + Bn (4 - k))) by lia.
    rewrite <- (Z.mod_unique (Y / 2 ^ s) (Bn 4) (-1) (Y / 2 ^ s + Bn 4)) by nia. lia.
Qed.

(** the words [fill] that an arithmetic shift brings in *)
Lemma sign_fill x : u256_ok x →
  u64 (Z.shiftr (Z.land (i64 (w3 x)) (- 2 ^ 63)) 63) = if to_Z x <? 2 ^ 255 then 0 else B - 1.
Proof.
  intros Hx. destruct (sign_word x Hx) as [_ E]. apply u256_ok_eq in Hx as (_ & _ & _ & H3).
  assert (∀ a, Z.shiftr (Z.land a (- 2 ^ 63)) 63 = a / 2 ^ 63) as Hla.
  { intros a. rewrite Z.shiftr_land. change (Z.shiftr (- 2 ^ 63) 63) with (-1).
    rewrite Z.land_m1_r. by apply Z.shiftr_div_pow2. }
  rewrite Hla. rewrite Z.shiftr_div_pow2 in E by done. unfold i64, word_ok in *.
  rewrite B_val in *. assert (2 ^ 64 = 2 * 2 ^ 63) by done. rewrite (Z.ltb_antisym (2 ^ 255)).
  destruct (Z.ltb_spec (w3 x) (2 ^ 63)).
  - rewrite Z.div_small in E |- * by lia. destruct (2 ^ 255 <=? to_Z x); [done|]. done.
  - assert (w3 x / 2 ^ 63 = 1) as E1 by (symmetry; apply Z.div_unique with (w3 x - 2 ^ 63); lia).
    rewrite E1 in E. destruct (2 ^ 255 <=? to_Z x); [|done].
    rewrite <- (Z.div_unique (w3 x - 2 ^ 64) (2 ^ 63) (-1) (w3 x - 2 ^ 63)) by lia. done.
Qed.

(** the amount of a shift decides between the fill and the word cases *)
Lemma shift_amount s : u256_ok s →
  (Z.lor (Z.lor (Z.lor (w3 s) (w2 s)) (w1 s)) (Z.b2z (256 <=? w0 s)) =? 0) = (to_Z s <? 256) ∧
  (to_Z s < 256 → w0 s = to_Z s).
Proof.
  intros Hs. destruct (high_words_zero s Hs) as [E1 E2]. assert (256 < B) by (by rewrite B_val).
  split; [|intros; apply E2; lia].
  apply Bool.eq_iff_eq_true. rewrite Z.eqb_eq, Z.lor_eq_0_iff, Z.ltb_lt, <- (Z.eqb_eq (Z.lor _ _)), E1, Z.ltb_lt.
  split.
  - intros [Hlt Hb]. rewrite <- (E2 Hlt). destruct (Z.leb_spec 256 (w0 s)); [done|lia].
  - intros Hlt. split; [lia|]. rewrite E2 by lia. by rewrite (proj2 (Z.leb_gt 256 (to_Z s))).
Qed.

Definition sign_of (type : RightShiftType) (x : uint256_t) : Z :=
  match type with Logical => to_Z x | Arithmetic => to_signed x end.

Lemma shift_right_words type x shift0 fill : u256_ok x → u256_ok shift0 → to_Z shift0 < 256 →
  fill = (match type with Logical => 0 | Arithmetic => if to_Z x <? 2 ^ 255 then 0 else B - 1 end) →
  let k := Z.to_nat (to_Z shift0 / 64) in
  as_words (shift_right type x shift0)
    = take (4 - k) (shr_words (to_Z shift0 mod 64) (drop k (as_words x) ++ [fill])) ++ replicate k fill.
Proof.
  intros Hx Hs Hlt Ef. unfold shift_right. destruct (shift_amount shift0 Hs) as [-> E0].
  rewrite (proj2 (Z.ltb_lt _ _) Hlt). cbn [negb]. rewrite (E0 Hlt).
  pose proof (to_Z_bound shift0 Hs) as Hb. set (s := to_Z shift0) in *.
  assert (u8 s = s) as -> by (unfold u8; apply Z.mod_small; change (2 ^ 8) with 256; lia).
  assert (Z.land s 63 = s mod 64) as -> by (change 63 with (2 ^ 6 - 1); rewrite land_small by lia; done).
  pose proof (Z.mod_pos_bound s 64 ltac:(lia)) as Hm. pose proof B_pos.
  pose proof Hx as Hx'. apply u256_ok_eq in Hx' as (_ & _ & _ & H3).
  assert ((match type with Arithmetic => u64 (Z.shiftr (Z.land (i64 (w3 x)) (- 2 ^ 63)) 63) | Logical => 0 end)
    = fill) as ->.
  { rewrite Ef. destruct type; [by apply sign_fill|done]. }
  assert ((match type with Arithmetic => shrd fill (w3 x) (s mod 64) | Logical => Z.shiftr (w3 x) (s mod 64) end)
    = shrd fill (w3 x) (s mod 64)) as ->.
  { destruct type; [done|]. rewrite Ef, shrd_law, Z.shiftr_div_pow2 by (auto with words; lia).
    rewrite Z.mod_0_l by (pose proof (pow2_pos (s mod 64)); lia). lia. }
  destruct (Z.ltb_spec s 128); [destruct (Z.ltb_spec s 64)|destruct (Z.ltb_spec s 192)].
  - rewrite (Z.div_small s), (Z.mod_small s) by lia. done.
  - by assert (s / 64 = 1) as -> by (symmetry; apply Z.div_unique with (s - 64); lia).
  - assert (s / 64 = 2) as -> by (symmetry; apply Z.div_unique with (s - 128); lia).
    change 127 with (2 ^ 7 - 1). rewrite land_small by lia.
    replace (s mod 2 ^ 7) with (s mod 64); [done|]. change (2 ^ 7) with 128.
    rewrite <- (Z.mod_unique s 64 2 (s - 128)), <- (Z.mod_unique s 128 1 (s - 128)) by lia. done.
  - by assert (s / 64 = 3) as -> by (symmetry; apply Z.div_unique with (s - 192); lia).
Qed.

Lemma shift_right_spec type x shift0 : u256_ok x → u256_ok shift0 →
  u256_ok (shift_right type x shift0) ∧
  to_Z (shift_right type x shift0) = (sign_of type x / 2 ^ to_Z shift0) mod 2 ^ 256.
Proof.
  intros Hx Hs. pose proof (to_Z_bound x Hx) as Hbx. pose proof (to_Z_bound shift0 Hs). pose proof B_pos.
  set (fill := match type with Logical => 0 | Arithmetic => if to_Z x <? 2 ^ 255 then 0 else B - 1 end).
  assert (fill = 0 ∨ fill = B - 1) as Hf by (unfold fill; destruct type; [destruct (_ <? _)|]; auto).
  assert (sign_of type x = to_Z x - if fill =? 0 then 0 else 2 ^ 256) as ->.
  { unfold sign_of, fill, to_signed. destruct type; [|cbn; lia].
    destruct (to_Z x <? 2 ^ 255); [cbn; lia|]. by rewrite (proj2 (Z.eqb_neq (B - 1) 0)) by lia. }
  destruct (Z.lt_ge_cases (to_Z shift0) 256) as [Hlt|Hge].
  - pose proof (Z.div_mod (to_Z shift0) 64 ltac:(lia)) as Ed.
    pose proof (Z.mod_pos_bound (to_Z shift0) 64 ltac:(lia)).
    pose proof (Z.div_pos (to_Z shift0) 64 ltac:(lia) ltac:(lia)).
    pose proof (Z.div_lt_upper_bound (to_Z shift0) 64 4 ltac:(lia) ltac:(lia)).
    destruct (shr_words_value (Z.to_nat (to_Z shift0 / 64)) (to_Z shift0 mod 64) x fill) as (Hw & _ & E); auto; [lia|].
    rewrite <- (shift_right_words type) in Hw, E by done. rewrite Z2Nat.id, <- Ed in E by done.
    split; [done|]. exact E.
  - unfold shift_right. destruct (shift_amount shift0 Hs) as [-> _].
    rewrite (proj2 (Z.ltb_ge _ _) Hge). cbn [negb].
    assert ((match type with Arithmetic => u64 (Z.shiftr (Z.land (i64 (w3 x)) (- 2 ^ 63)) 63) | Logical => 0 end)
      = fill) as -> by (unfold fill; destruct type; [by apply sign_fill|done]).
    split; [apply u256_ok_eq; cbn; unfold word_ok; lia|].
    assert (2 ^ 256 ≤ 2 ^ to_Z shift0) by (apply Z.pow_le_mono_r; lia).
    rewrite to_Z_eq. cbn [w0 w1 w2 w3]. destruct Hf as [-> | ->].
    + rewrite Z.eqb_refl, Z.sub_0_r, Z.div_small by lia. by rewrite Z.mod_0_l, !Z.mul_0_r.
    + rewrite (proj2 (Z.eqb_neq (B - 1) 0)) by lia.
      rewrite <- (Z.div_unique (to_Z x - 2 ^ 256) (2 ^ to_Z shift0) (-1) (to_Z x - 2 ^ 256 + 2 ^ to_Z shift0)) by lia.
      rewrite <- Bn_4_pow, Bn_4. apply Z.mod_unique with (-1); [nia|lia].
Qed.

(** ** Exponentiation *)
Lemma mod256_pos : 0 < 2 ^ 256.
Proof. done. Qed.
Lemma pow_mod_base a e : 0 ≤ e → ((a mod 2 ^ 256) ^ e) mod 2 ^ 256 = (a ^ e) mod 2 ^ 256.
Proof. intros. symmetry. by apply Zpower_mod. Qed.

Lemma square_and_multiply r b e n : 0 ≤ e →
  let r' := if Z.land e 1 =? 0 then r else (r * b) mod 2 ^ 256 in
  (r' * ((b * b) mod 2 ^ 256) ^ (e / 2 mod 2 ^ Z.of_nat n)) mod 2 ^ 256
    = (r * b ^ (e mod 2 ^ Z.of_nat (S n))) mod 2 ^ 256.
Proof.
  intros He r'. pose proof (pow2_pos (Z.of_nat n) ltac:(lia)).
  pose proof (Z.mod_pos_bound (e / 2) (2 ^ Z.of_nat n) ltac:(lia)) as Hm.
  assert (e mod 2 ^ Z.of_nat (S n) = e mod 2 + 2 * (e / 2 mod 2 ^ Z.of_nat n)) as ->.
  { rewrite Nat2Z.inj_succ, Z.pow_succ_r, Z.rem_mul_r by lia. lia. }
  assert (Z.land e 1 = e mod 2) as El.
  { change 1 with (Z.ones 1). by rewrite Z.land_ones. }
  pose proof (Z.mod_pos_bound e 2 ltac:(lia)).
  rewrite Z.pow_add_r, Z.pow_mul_r, Z.pow_2_r by lia.
  rewrite Zmult_mod, pow_mod_base by lia. rewrite <- Zmult_mod. unfold r'. rewrite El.
  destruct (Z.eqb_spec (e mod 2) 0) as [->|Hne].
  - rewrite Z.pow_0_r. f_equal. lia.
  - assert (e mod 2 = 1) as -> by lia. rewrite Z.pow_1_r, Zmult_mod_idemp_l. f_equal. lia.
Qed.

Lemma exp_bits_spec n : ∀ e r b, 0 ≤ e → u256_ok r → u256_ok b →
  ∃ r' b', exp_bits n e r b = Ok (r', b') ∧ u256_ok r' ∧ u256_ok b' ∧
    to_Z r' = (to_Z r * to_Z b ^ (e mod 2 ^ Z.of_nat n)) mod 2 ^ 256 ∧
    to_Z b' = (to_Z b ^ (2 ^ Z.of_nat n)) mod 2 ^ 256.
Proof.
  induction n as [|n IH]; intros e r b He Hr Hb; cbn [exp_bits].
  { exists r, b. change (2 ^ Z.of_nat 0) with 1. rewrite Z.mod_1_r, Z.pow_0_r, Z.pow_1_r, Z.mul_1_r.
    rewrite !Z.mod_small by (by apply to_Z_bound). done. }
  assert (∃ r1, (if Z.land e 1 =? 0 then mret r else truncating_mul256 r b) = Ok r1 ∧ u256_ok r1 ∧
    to_Z r1 = if Z.land e 1 =? 0 then to_Z r else (to_Z r * to_Z b) mod 2 ^ 256) as (r1 & -> & Hr1 & Er1).
  { destruct (Z.land e 1 =? 0); [by exists r|]. by apply truncating_mul256_spec. }
  ostep. destruct (truncating_mul256_spec b b Hb Hb) as (b1 & -> & Hb1 & Eb1). ostep.
  rewrite Z.shiftr_div_pow2 by done. change (2 ^ 1) with 2.
  destruct (IH (e / 2) r1 b1) as (r' & b' & -> & ? & ? & Er & Eb); [apply Z.div_pos; lia|done..|].
  exists r', b'. split_and!; try done.
  - rewrite Er, Er1, Eb1. by apply square_and_multiply.
  - rewrite Eb, Eb1, pow_mod_base by (pose proof (pow2_pos (Z.of_nat n)); lia).
    rewrite <- Z.pow_2_r, <- Z.pow_mul_r by (pose proof (pow2_pos (Z.of_nat n)); lia).
    by rewrite Nat2Z.inj_succ, Z.pow_succ_r by lia.
Qed.

Lemma significant_bits_bound w : word_ok w →
  0 ≤ 64 - countl_zero64 w ∧ w mod 2 ^ (64 - countl_zero64 w) = w.
Proof.
  unfold word_ok, countl_zero64. rewrite B_val. intros Hw.
  destruct (Z.eqb_spec w 0) as [->|]; [done|].
  pose proof (Z.log2_nonneg w). replace (64 - (63 - Z.log2 w)) with (Z.succ (Z.log2 w)) by lia.
  split; [lia|]. apply Z.mod_small. pose proof (Z.log2_spec w). lia.
Qed.

Lemma exp_words_spec cnt ex : ∀ w r b, words_ok ex → u256_ok r → u256_ok b →
  (w + cnt ≤ length ex)%nat →
  let sig := (w + cnt)%nat in
  ∃ r', exp_words cnt w sig ex r b = Ok r' ∧ u256_ok r' ∧
    to_Z r' = (to_Z r * to_Z b ^ val (take cnt (drop w ex))) mod 2 ^ 256.
Proof.
  induction cnt as [|cnt IH]; intros w r b Hex Hr Hb Hl sig; cbn [exp_words].
  { exists r. rewrite take_0. cbn [val]. rewrite Z.pow_0_r, Z.mul_1_r, Z.mod_small by (by apply to_Z_bound). done. }
  destruct (rd_lt ex w) as (e & Ee & ->); [lia|]. ostep.
  pose proof (words_ok_lookup _ _ _ Hex Ee) as He. pose proof He as He'. unfold word_ok in He'. pose proof B_pos.
  rewrite (drop_S _ _ _ Ee). cbn [take val].
  assert (words_ok (take cnt (drop (S w) ex))) as Hrest by (by apply Forall_take, Forall_drop).
  pose proof (val_bound _ Hrest).
  destruct (Nat.eqb_spec (w + 1) sig) as [Esig|Hsig].
  - assert (cnt = 0%nat) as -> by lia. destruct (significant_bits_bound e He) as [Hb0 Emod].
    destruct (exp_bits_spec (Z.to_nat (64 - countl_zero64 e)) e r b) as (r1 & b1 & -> & ? & ? & E1 & _);
      [lia|done..|]. ostep. exists r1. split_and!; [done..|].
    rewrite Z2Nat.id, Emod in E1 by done. rewrite take_0. cbn [val]. by rewrite Z.mul_0_r, Z.add_0_r.
  - destruct (exp_bits_spec (Z.to_nat 64) e r b) as (r1 & b1 & -> & Hr1 & Hb1 & E1 & Eb); [lia|done..|]. ostep.
    rewrite Z2Nat.id, <- B_val in E1, Eb by lia. rewrite (Z.mod_small e) in E1 by lia.
    destruct (IH (S w) r1 b1) as (r' & Er' & ? & E); [done..|lia|].
    replace (S w + cnt)%nat with sig in Er' by lia. exists r'. split_and!; [done..|].
    rewrite E, E1, Eb, Zmult_mod, Zmod_mod, pow_mod_base, <- Zmult_mod by lia. f_equal.
    rewrite Z.pow_add_r, Z.pow_mul_r by nia. lia.
Qed.

Lemma exp_spec b e : u256_ok b → u256_ok e →
  ∃ r, exp b e = Ok r ∧ u256_ok r ∧ to_Z r = (to_Z b ^ to_Z e) mod 2 ^ 256.
Proof.
  intros Hb He. unfold exp. destruct (operator_eq b (of_u64 2)) eqn:E2.
  - apply operator_eq_spec in E2 as ->. destruct (operator_shl_spec (of_u64 1) e) as [Hr Er]; auto with words.
    eexists. split_and!; [done..|]. rewrite Er, !to_Z_of_u64 by (rewrite B_val; lia). f_equal. lia.
  - destruct (count_significant_words_spec (as_words e) He) as (Hle & Hlt & _).
    set (sig := count_significant_words (as_words e)) in *.
    destruct (exp_words_spec sig (as_words e) 0 (of_u64 1) b) as (r & Er & Hr & E); auto with words.
    cbn [Nat.add] in Er. exists r. split_and!; [done..|]. rewrite E, to_Z_of_u64 by (rewrite B_val; lia).
    rewrite drop_0, val_take by done. fold (to_Z e). rewrite (Z.mod_small (to_Z e)) by (pose proof (to_Z_bound e He); unfold to_Z in *; lia).
    f_equal. lia.
Qed.
End specs.
