(* ===== verification/Uint256Text.v ===== *)
(** * 256-bit integers as bytes and as text

    The byte-level helpers ([byte], [signextend], [byteswap], [from_bytes],
    [countl_zero], [bit_width], [count_significant_bytes]) and the string
    conversions ([to_string], [from_string]) of
    src/category/core/runtime/uint256.hpp. *)
From S2P Require Import Prelude Words WordMul WordDiv Uint256.

(** ** Bytes in memory

    The host is little-endian: a word is the list of its eight bytes, least
    significant first. *)
Fixpoint le_val (l : list Z) : Z :=
  match l with [] => 0 | b :: l => b + 256 * le_val l end.
Definition be_val (l : list Z) : Z := le_val (rev l).
Fixpoint le_bytes (n : nat) (w : Z) : list Z :=
  match n with O => [] | S n => w mod 256 :: le_bytes n (w / 256) end.
(** [std::byteswap] of a 64-bit word *)
Definition byteswap64 (w : Z) : Z := le_val (rev (le_bytes 8 w)).

Section bytes.
Context `{WordOps}.

Definition signextend (byte_index_256 x : uint256_t) : outcome uint256_t :=
  if operator_ge byte_index_256 (of_u64 31) then mret x
  else
    let byte_index := w0 byte_index_256 in
    let word_index := Z.to_nat (Z.shiftr byte_index 3) in
    word ← rd (as_words x) word_index;
    let signed_word := i64 word in
    let bit_index := Z.land byte_index 7 * 8 in
    let signed_byte := i8 (u8 (Z.shiftr word bit_index)) in
    let upper := u64 (Z.shiftl (u64 signed_byte) bit_index) in
    let signed_lower := Z.land signed_word (Z.lnot (Z.shiftr (- 2 ^ 63) (63 - bit_index))) in
    let lower := u64 signed_lower in
    let sign_bits := u64 (Z.shiftr signed_byte 63) in
    ret ← wr (as_words x) word_index (Z.lor upper lower);
    (* for (j = word_index + 1; j < 4; ++j) ret[j] = sign_bits; *)
    of_words (take (S word_index) ret ++ replicate (3 - word_index) sign_bits).

Definition byte (byte_index_256 x : uint256_t) : outcome uint256_t :=
  if operator_ge byte_index_256 (of_u64 32) then mret (of_u64 0)
  else
    let byte_index := 31 - w0 byte_index_256 in
    let word_index := Z.to_nat (Z.shiftr byte_index 3) in
    word ← rd (as_words x) word_index;
    let bit_index := Z.shiftl (Z.land byte_index 7) 3 in
    mret (U256 (u8 (Z.shiftr word bit_index)) 0 0 0).
End bytes.

Definition byteswap (x : uint256_t) : uint256_t :=
  U256 (byteswap64 (w3 x)) (byteswap64 (w2 x)) (byteswap64 (w1 x)) (byteswap64 (w0 x)).

(** [from_bytes(n, remaining, src)]: [src] is the readable memory. *)
Definition from_bytes (n remaining : nat) (src : list Z) : outcome uint256_t :=
  _ ← oassert (n <=? 32)%nat;
  if (n =? 0)%nat then mret (of_u64 0)
  else
    let c := Nat.min n remaining in
    _ ← oassert (c <=? length src)%nat;
    let dst := replicate (32 - n) 0 ++ take c src ++ replicate (n - c) 0 in
    let word i := le_val (take 8 (drop (8 * i) dst)) in
    mret (byteswap (U256 (word 0%nat) (word 1%nat) (word 2%nat) (word 3%nat))).

(** [for (size_t i = 0; i < 4; i++) { cnt += ...; if (cnt != (i + 1) * 64) return cnt; }]:
    [l] holds the words still to look at, most significant first. *)
Fixpoint countl_zero_from (i : Z) (l : words) (cnt : Z) : Z :=
  match l with
  | [] => cnt
  | w :: l =>
      let cnt := cnt + countl_zero64 w in
      if cnt =? (i + 1) * 64 then countl_zero_from (i + 1) l cnt else cnt
  end.
Definition countl_zero (x : uint256_t) : Z := countl_zero_from 0 [w3 x; w2 x; w1 x; w0 x] 0.
Definition bit_width (x : uint256_t) : Z := 256 - countl_zero x.

Definition count_significant_bytes (x : uint256_t) : outcome Z :=
  let significant_words := count_significant_words (as_words x) in
  if (significant_words =? 0)%nat then mret 0
  else
    leading_word ← rd (as_words x) (significant_words - 1);
    let leading_significant_bytes := (64 - countl_zero64 leading_word + 7) / 8 in
    mret (leading_significant_bytes + (Z.of_nat significant_words - 1) * 8).

(** ** Text

    A [char] is its code; a C string is the list of its characters, ended by
    a zero or by the end of the list. *)
Definition chr_0 : Z := 48.
Definition chr_9 : Z := 57.
Definition chr_a : Z := 97.
Definition chr_f : Z := 102.
Definition chr_x : Z := 120.
Definition chr_X : Z := 88.

Definition from_dec (chr : Z) : outcome Z :=
  if (chr_0 <=? chr) && (chr <=? chr_9) then mret (u8 (chr - chr_0))
  else Throw "invalid digit".

Definition from_hex (chr : Z) : outcome Z :=
  let chr_lower := Z.lor chr 0x20 in
  if (chr_a <=? chr_lower) && (chr_lower <=? chr_f) then mret (u8 (chr_lower - chr_a + 10))
  else from_dec chr.

Section text.
Context `{WordOps}.

(** the [do ... while (num)] loop; 256 iterations are enough since the base
    is at least two *)
Fixpoint to_string_loop (fuel : nat) (num base : uint256_t) (buffer : list Z) : outcome (list Z) :=
  match fuel with
  | O => Abort
  | S fuel =>
      '(div, rem) ← udivrem256 num base;
      let lsw := w0 rem in
      let chr := if lsw <? 10 then chr_0 + lsw else chr_a + lsw - 10 in
      let buffer := buffer ++ [chr] in
      if operator_bool div then to_string_loop fuel div base buffer else mret buffer
  end.

Definition to_string (x : uint256_t) (base0 : Z) : outcome (list Z) :=
  _ ← oassert ((2 <=? base0) && (base0 <=? 36));
  buffer ← to_string_loop 256 x (of_u64 base0) [];
  mret (rev buffer).

Fixpoint parse_hex (s : list Z) (num_digits : Z) (result : uint256_t) : outcome uint256_t :=
  match s with
  | [] => mret result
  | chr :: s =>
      if chr =? 0 then mret result
      else
        let num_digits := num_digits + 1 in
        if 64 <? num_digits then Throw "out_of_range"
        else
          digit ← from_hex chr;
          parse_hex s num_digits (operator_or (shl64 result 4) (of_u64 digit))
  end.

(** [MAX_MULTIPLIABLE_BY_10] *)
Definition max_multipliable_by_10 : outcome uint256_t :=
  operator_div (operator_not (of_u64 0)) (of_u64 10).

Fixpoint parse_dec (limit : uint256_t) (s : list Z) (result : uint256_t) : outcome uint256_t :=
  match s with
  | [] => mret result
  | chr :: s =>
      if chr =? 0 then mret result
      else if operator_gt result limit then Throw "out_of_range"
      else
        digit ← from_dec chr;
        product ← truncating_mul256 result (of_u64 10);
        let result := operator_add product (of_u64 digit) in
        if operator_lt result (of_u64 digit) then Throw "out_of_range"
        else parse_dec limit s result
  end.

(** [*ptr], the terminator at the end of the list included *)
Definition deref (s : list Z) : Z := match s with [] => 0 | c :: _ => c end.

Definition from_string (str : list Z) : outcome uint256_t :=
  if (deref str =? chr_0) && ((deref (tail str) =? chr_x) || (deref (tail str) =? chr_X)) then
    let ptr := drop 2 str in
    if deref ptr =? 0 then Throw "invalid_argument"
    else parse_hex ptr 0 (of_u64 0)
  else if deref str =? 0 then Throw "invalid_argument"
  else
    limit ← max_multipliable_by_10;
    parse_dec limit str (of_u64 0).
End text.

(** ** Text: values of digit strings *)
Definition is_dec (c : Z) : Prop := chr_0 ≤ c ≤ chr_9.
(** the characters [to_string] produces for base [b] *)
Definition is_digit (b c : Z) : Prop :=
  ∃ d, 0 ≤ d < b ∧ c = if d <? 10 then chr_0 + d else chr_a + d - 10.
Definition digit_val (c : Z) : Z := if c <=? chr_9 then c - chr_0 else c - chr_a + 10.
(** the value of a string read from the left, after a prefix of value [acc] *)
Fixpoint horner (b acc : Z) (s : list Z) : Z :=
  match s with [] => acc | c :: s => horner b (b * acc + digit_val c) s end.
Fixpoint digits_val (b : Z) (s : list Z) : Z :=
  match s with [] => 0 | c :: s => digit_val c + b * digits_val b s end.

Lemma horner_app b s t : ∀ acc, horner b acc (s ++ t) = horner b (horner b acc s) t.
Proof. induction s as [|c s IH]; intros acc; [done|]. apply IH. Qed.
Lemma horner_rev b s : horner b 0 (rev s) = digits_val b s.
Proof.
  induction s as [|c s IH]; [done|]. cbn [rev digits_val]. rewrite horner_app, IH. cbn. lia.
Qed.
Lemma digit_val_of d : 0 ≤ d < 36 → digit_val (if d <? 10 then chr_0 + d else chr_a + d - 10) = d.
Proof.
  intros Hd. unfold digit_val, chr_0, chr_9, chr_a. destruct (Z.ltb_spec d 10).
  - rewrite (proj2 (Z.leb_le (48 + d) 57)) by lia. lia.
  - rewrite (proj2 (Z.leb_gt (97 + d - 10) 57)) by lia. lia.
Qed.
Lemma horner_le b s : 1 ≤ b → Forall (λ c, 0 ≤ digit_val c) s → ∀ acc, 0 ≤ acc → acc ≤ horner b acc s.
Proof.
  intros Hb. induction 1 as [|c s Hc Hs IH]; intros acc Ha; cbn [horner]; [lia|].
  etransitivity; [|apply IH; nia]. nia.
Qed.

Section text_correct.
Context `{L : WordOpsLaws}.

Lemma max_multipliable_spec :
  ∃ l, max_multipliable_by_10 = Ok l ∧ u256_ok l ∧ to_Z l = (2 ^ 256 - 1) / 10.
Proof.
  unfold max_multipliable_by_10, operator_div.
  assert (u256_ok (operator_not (of_u64 0)) ∧ to_Z (operator_not (of_u64 0)) = 2 ^ 256 - 1) as [Hm Em].
  { split; [apply u256_ok_eq; cbn; auto with words|].
    rewrite to_Z_eq, B_val. reflexivity. }
  destruct (udivrem256_spec (operator_not (of_u64 0)) (of_u64 10)) as (q & r & -> & Hq & _ & Eq & _);
    [done|auto with words|rewrite to_Z_of_u64; rewrite ?B_val; lia|].
  exists q. split_and!; [done..|]. by rewrite Eq, Em, to_Z_of_u64 by (rewrite B_val; lia).
Qed.

Lemma from_dec_spec c : is_dec c → from_dec c = Ok (digit_val c) ∧ 0 ≤ digit_val c < 10.
Proof.
  unfold is_dec, from_dec, digit_val, chr_0, chr_9. intros Hc.
  rewrite (proj2 (Z.leb_le 48 c)), (proj2 (Z.leb_le c 57)) by lia. cbn [andb].
  split; [|lia]. unfold mret, outcome_ret, u8. rewrite Z.mod_small; [done|]. change (2 ^ 8) with 256. lia.
Qed.

(** one digit: the range checks of the loop are exact *)
Lemma parse_dec_step limit r c s : u256_ok limit → to_Z limit = (2 ^ 256 - 1) / 10 →
  u256_ok r → is_dec c →
  let v := 10 * to_Z r + digit_val c in
  if v <? 2 ^ 256 then
    ∃ r', u256_ok r' ∧ to_Z r' = v ∧ parse_dec limit (c :: s) r = parse_dec limit s r'
  else parse_dec limit (c :: s) r = Throw "out_of_range".
Proof.
  intros Hl El Hr Hc. destruct (from_dec_spec c Hc) as [Ec Hd]. pose proof (to_Z_bound r Hr).
  unfold is_dec, chr_0 in Hc. cbn [parse_dec]. rewrite (proj2 (Z.eqb_neq c 0)) by lia.
  unfold operator_gt. rewrite operator_lt_spec, El by done.
  pose proof (Z.div_mod (2 ^ 256 - 1) 10 ltac:(lia)). pose proof (Z.mod_pos_bound (2 ^ 256 - 1) 10 ltac:(lia)).
  destruct (Z.ltb_spec ((2 ^ 256 - 1) / 10) (to_Z r)) as [Hgt|Hle]; cbv zeta.
  { rewrite (proj2 (Z.ltb_ge _ _)) by lia. done. }
  rewrite Ec. ostep.
  destruct (truncating_mul256_spec r (of_u64 10)) as (p & -> & Hp & Ep); auto with words. ostep.
  rewrite to_Z_of_u64, Z.mod_small in Ep by (rewrite ?B_val; lia).
  assert (to_Z (of_u64 (digit_val c)) = digit_val c) as Ed by (apply to_Z_of_u64; rewrite B_val; lia).
  destruct (operator_add_spec p (of_u64 (digit_val c))) as [Ha Ea]; auto with words.
  rewrite operator_lt_spec, Ed by auto with words. rewrite Ed, Ep in Ea.
  destruct (Z.ltb_spec (10 * to_Z r + digit_val c) (2 ^ 256)).
  - rewrite Z.mod_small in Ea by lia. exists (operator_add p (of_u64 (digit_val c))).
    split_and!; [done|lia|]. by rewrite (proj2 (Z.ltb_ge _ _)) by lia.
  - replace (to_Z (operator_add p (of_u64 (digit_val c)))) with (10 * to_Z r + digit_val c - 2 ^ 256).
    + by rewrite (proj2 (Z.ltb_lt _ _)) by lia.
    + rewrite Ea. apply Z.mod_unique with 1; lia.
Qed.

Lemma parse_dec_spec limit s : u256_ok limit → to_Z limit = (2 ^ 256 - 1) / 10 →
  Forall is_dec s → ∀ r, u256_ok r →
  if horner 10 (to_Z r) s <? 2 ^ 256
  then ∃ r', parse_dec limit s r = Ok r' ∧ u256_ok r' ∧ to_Z r' = horner 10 (to_Z r) s
  else parse_dec limit s r = Throw "out_of_range".
Proof.
  intros Hl El. induction 1 as [|c s Hc Hs IH]; intros r Hr; cbn [horner].
  { pose proof (to_Z_bound r Hr). rewrite (proj2 (Z.ltb_lt _ _)) by lia. by exists r. }
  pose proof (parse_dec_step limit r c s Hl El Hr Hc) as Hstep. cbv zeta in Hstep.
  pose proof (from_dec_spec c Hc) as [_ Hd]. pose proof (to_Z_bound r Hr).
  destruct (Z.ltb_spec (10 * to_Z r + digit_val c) (2 ^ 256)).
  - destruct Hstep as (r' & Hr' & Er' & ->). rewrite <- Er'. by apply IH.
  - rewrite (proj2 (Z.ltb_ge _ _)); [done|].
    etransitivity; [eassumption|]. apply horner_le; [lia| |lia].
    eapply Forall_impl; [|exact Hs]. intros a Ha. apply from_dec_spec in Ha as [_ ?]. lia.
Qed.

Lemma from_string_dec_spec s : s ≠ [] → Forall is_dec s →
  if horner 10 0 s <? 2 ^ 256
  then ∃ r, from_string s = Ok r ∧ u256_ok r ∧ to_Z r = horner 10 0 s
  else from_string s = Throw "out_of_range".
Proof.
  intros Hne Hs. unfold from_string.
  assert (∀ c, is_dec c → (c =? 0) = false ∧ (c =? chr_x) = false ∧ (c =? chr_X) = false) as Hnx.
  { unfold is_dec, chr_0, chr_9, chr_x, chr_X. intros c Hc. rewrite !Z.eqb_neq. lia. }
  assert (((deref (tail s) =? chr_x) || (deref (tail s) =? chr_X)) = false) as ->.
  { destruct s as [|c [|d s]]; [done|done|]. cbn. apply Forall_cons_iff in Hs as [_ Hs].
    apply Forall_cons_iff in Hs as [Hd _]. destruct (Hnx d Hd) as (_ & -> & ->). done. }
  rewrite andb_false_r. assert ((deref s =? 0) = false) as ->.
  { destruct s as [|c s]; [done|]. apply Forall_cons_iff in Hs as [Hc _]. apply (Hnx c Hc). }
  destruct max_multipliable_spec as (l & -> & Hl & El). ostep.
  pose proof (parse_dec_spec l s Hl El Hs (of_u64 0)) as Hp.
  rewrite to_Z_of_u64 in Hp by (rewrite B_val; lia). apply Hp. auto with words.
Qed.

Lemma to_string_loop_spec b : 2 ≤ b ≤ 36 → ∀ k fuel num buffer,
  (1 ≤ k ≤ fuel)%nat → u256_ok num → to_Z num < b ^ Z.of_nat k →
  ∃ ds, to_string_loop fuel num (of_u64 b) buffer = Ok (buffer ++ ds) ∧
    ds ≠ [] ∧ (length ds ≤ k)%nat ∧ Forall (is_digit b) ds ∧ digits_val b ds = to_Z num.
Proof.
  intros Hb. assert (to_Z (of_u64 b) = b) as Eb by (apply to_Z_of_u64; rewrite B_val; lia).
  induction k as [|k IH]; intros fuel num buffer Hk Hn Hlt; [lia|].
  destruct fuel as [|fuel]; [lia|]. cbn [to_string_loop].
  destruct (udivrem256_spec num (of_u64 b)) as (q & r & -> & Hq & Hr & Eq & Er);
    [done|auto with words|lia|]. ostep. rewrite Eb in *.
  pose proof (Z.mod_pos_bound (to_Z num) b ltac:(lia)). pose proof (to_Z_bound num Hn).
  pose proof (Z.div_mod (to_Z num) b ltac:(lia)) as Ed.
  assert (w0 r = to_Z num mod b) as ->.
  { rewrite <- Er. apply high_words_zero; [done|]. rewrite Er, B_val. lia. }
  set (d := to_Z num mod b) in *. rewrite operator_bool_spec, Eq by done.
  set (c := if d <? 10 then chr_0 + d else chr_a + d - 10).
  assert (digit_val c = d) as Ec by (apply digit_val_of; lia).
  assert (is_digit b c) by (by exists d).
  destruct (Z.eqb_spec (to_Z num / b) 0) as [E0|E0]; cbn [negb].
  - exists [c]. split_and!; [done|done|cbn; lia|by apply Forall_singleton|].
    cbn [digits_val]. lia.
  - assert (to_Z q < b ^ Z.of_nat k).
    { rewrite Eq. apply Z.div_lt_upper_bound; [lia|]. by rewrite Nat2Z.inj_succ, Z.pow_succ_r in Hlt by lia. }
    assert (k ≠ 0%nat).
    { intros ->. change (b ^ Z.of_nat 0) with 1 in *. pose proof (to_Z_bound q Hq). lia. }
    destruct (IH fuel q (buffer ++ [c])) as (ds & -> & Hne & Hlen & Hds & Ev); [lia|done|done|].
    exists (c :: ds). split_and!; [by rewrite <- app_assoc|done|cbn; lia|by constructor|].
    cbn [digits_val]. rewrite Ev, Ec. lia.
Qed.

Lemma to_string_spec x b k : u256_ok x → 2 ≤ b ≤ 36 → (1 ≤ k ≤ 256)%nat → to_Z x < b ^ Z.of_nat k →
  ∃ s, to_string x b = Ok s ∧ s ≠ [] ∧ (length s ≤ k)%nat ∧ Forall (is_digit b) s ∧ horner b 0 s = to_Z x.
Proof.
  intros Hx Hb Hk Hlt. unfold to_string.
  rewrite oassert_true by (by rewrite (proj2 (Z.leb_le 2 b)), (proj2 (Z.leb_le b 36)) by lia). ostep.
  destruct (to_string_loop_spec b Hb k 256 x []) as (ds & -> & Hne & Hlen & Hds & Ev); auto. ostep.
  exists (rev ds). split_and!; [done| |by rewrite length_rev| |by rewrite horner_rev].
  - intros E. apply Hne. apply (f_equal (@length Z)) in E. rewrite length_rev in E. by destruct ds.
  - by apply Forall_rev.
Qed.

Lemma from_hex_spec c : is_digit 16 c → from_hex c = Ok (digit_val c) ∧ 0 ≤ digit_val c < 16 ∧ c ≠ 0.
Proof.
  intros (d & Hd & ->). rewrite digit_val_of by lia. unfold from_hex, chr_0, chr_a.
  assert (d = 0 ∨ d = 1 ∨ d = 2 ∨ d = 3 ∨ d = 4 ∨ d = 5 ∨ d = 6 ∨ d = 7 ∨ d = 8 ∨ d = 9 ∨ d = 10 ∨
          d = 11 ∨ d = 12 ∨ d = 13 ∨ d = 14 ∨ d = 15) as Hcases by lia.
  repeat (destruct Hcases as [-> | Hcases]; [done|]). by subst d.
Qed.

Lemma append_hex_digit r d : u256_ok r → 16 * to_Z r < 2 ^ 256 → 0 ≤ d < 16 →
  u256_ok (operator_or (shl64 r 4) (of_u64 d)) ∧
  to_Z (operator_or (shl64 r 4) (of_u64 d)) = 16 * to_Z r + d.
Proof.
  intros Hr Hlt Hd. destruct (shl64_spec r 4 Hr ltac:(lia)) as [Hs Es].
  pose proof (to_Z_bound r Hr). rewrite Z.mod_small in Es by lia.
  assert (∀ x, word_ok x → Z.lor x 0 = x) as Hlor by (intros; apply Z.lor_0_r).
  pose proof Hs as Hs'. apply u256_ok_eq in Hs' as (H0 & H1 & H2 & H3).
  assert (w0 (shl64 r 4) = w0 r mod 2 ^ 60 * 2 ^ 4) as E0.
  { change (w0 (shl64 r 4)) with (u64 (Z.shiftl (w0 r) 4)).
    rewrite shl_word by lia. by rewrite mul_pow_mod by lia. }
  assert (u64 d = d) as Ed by (apply Z.mod_small; lia).
  assert (word_ok (w0 (shl64 r 4) + d)) as Hw.
  { rewrite E0. pose proof (Z.mod_pos_bound (w0 r) (2 ^ 60)). unfold word_ok. rewrite B_val. lia. }
  assert (operator_or (shl64 r 4) (of_u64 d)
    = U256 (w0 (shl64 r 4) + d) (w1 (shl64 r 4)) (w2 (shl64 r 4)) (w3 (shl64 r 4))) as ->.
  { unfold operator_or, bitwise. cbn [w0 w1 w2 w3 of_u64]. rewrite !Hlor, Ed by done. f_equal.
    rewrite E0. apply lor_add; lia. }
  split; [by apply u256_ok_eq|]. rewrite to_Z_eq in Es |- *. cbn [w0 w1 w2 w3]. lia.
Qed.

Lemma parse_hex_spec s : Forall (is_digit 16) s → ∀ n r, u256_ok r →
  0 ≤ n → n + Z.of_nat (length s) ≤ 64 → to_Z r < 16 ^ n →
  ∃ r', parse_hex s n r = Ok r' ∧ u256_ok r' ∧ to_Z r' = horner 16 (to_Z r) s.
Proof.
  induction 1 as [|c s Hc Hs IH]; intros n r Hr Hn Hlen Hlt; cbn [parse_hex horner].
  { by exists r. }
  destruct (from_hex_spec c Hc) as (Ec & Hd & Hc0). cbn [length] in Hlen.
  rewrite (proj2 (Z.eqb_neq c 0) Hc0), (proj2 (Z.ltb_ge 64 (n + 1))), Ec by lia. ostep.
  assert (16 * to_Z r < 16 ^ (n + 1)) as Hlt'.
  { rewrite Z.add_1_r, Z.pow_succ_r by lia. lia. }
  assert (16 ^ (n + 1) ≤ 2 ^ 256).
  { change (2 ^ 256) with (16 ^ 64). apply Z.pow_le_mono_r; lia. }
  destruct (append_hex_digit r (digit_val c) Hr) as [Ho Eo]; [lia|lia|].
  rewrite <- Eo. apply IH; [done|lia|lia|]. rewrite Eo, Z.add_1_r, Z.pow_succ_r by lia.
  pose proof (to_Z_bound r Hr). lia.
Qed.

Lemma dec_digit_is_dec c : is_digit 10 c → is_dec c.
Proof.
  intros (d & Hd & ->). unfold is_dec, chr_0, chr_9. rewrite (proj2 (Z.ltb_lt d 10)) by lia. lia.
Qed.

(** *** Printing and parsing back *)
Lemma decimal_round_trip_spec x : u256_ok x →
  ∃ s, to_string x 10 = Ok s ∧ from_string s = Ok x.
Proof.
  intros Hx. pose proof (to_Z_bound x Hx).
  destruct (to_string_spec x 10 256 Hx) as (s & Es & Hne & _ & Hs & Ev); [lia|lia| |].
  { assert (2 ^ 256 ≤ 10 ^ Z.of_nat 256) by (apply Z.pow_le_mono_l; lia). lia. }
  exists s. split; [done|].
  pose proof (from_string_dec_spec s Hne) as Hf. rewrite Ev, (proj2 (Z.ltb_lt _ _)) in Hf by lia.
  destruct Hf as (r & Er & Hr & Evr).
  { eapply Forall_impl; [|exact Hs]. apply dec_digit_is_dec. }
  rewrite Er. f_equal. by apply to_Z_inj.
Qed.

Lemma hex_round_trip_spec x : u256_ok x →
  ∃ s, to_string x 16 = Ok s ∧ from_string (chr_0 :: chr_x :: s) = Ok x.
Proof.
  intros Hx. pose proof (to_Z_bound x Hx).
  destruct (to_string_spec x 16 64 Hx) as (s & Es & Hne & Hlen & Hs & Ev); [lia|lia| |].
  { change (16 ^ Z.of_nat 64) with (2 ^ 256). lia. }
  exists s. split; [done|]. unfold from_string.
  change (drop 2 (chr_0 :: chr_x :: s)) with s. cbn [deref tail].
  rewrite !Z.eqb_refl. cbn [andb orb].
  assert ((deref s =? 0) = false) as ->.
  { destruct s as [|c s]; [done|]. apply Forall_cons_iff in Hs as [Hc _]. cbn.
    apply Z.eqb_neq. apply (from_hex_spec c Hc). }
  destruct (parse_hex_spec s Hs 0 (of_u64 0)) as (r & -> & Hr & Er); auto with words; [lia|lia|rewrite to_Z_of_u64 by (rewrite B_val; lia); reflexivity|].
  f_equal. apply to_Z_inj; [done..|]. by rewrite Er, to_Z_of_u64 by (rewrite B_val; lia).
Qed.
End text_correct.

(** ** Bytes *)
Definition byte_ok (b : Z) : Prop := 0 ≤ b < 256.
Lemma le_val_app l k : le_val (l ++ k) = le_val l + 256 ^ Z.of_nat (length l) * le_val k.
Proof.
  induction l as [|b l IH]; cbn [le_val app length].
  - rewrite Z.pow_0_r. lia.
  - rewrite IH, Nat2Z.inj_succ, Z.pow_succ_r by lia. lia.
Qed.
Lemma le_val_bound l : Forall byte_ok l → 0 ≤ le_val l < 256 ^ Z.of_nat (length l).
Proof.
  induction 1 as [|b l Hb Hl IH]; cbn [le_val length]; [done|].
  rewrite Nat2Z.inj_succ, Z.pow_succ_r by lia. unfold byte_ok in Hb. nia.
Qed.
Lemma le_bytes_val l : Forall byte_ok l → le_bytes (length l) (le_val l) = l.
Proof.
  induction 1 as [|b l Hb Hl IH]; cbn [le_val length le_bytes]; [done|]. unfold byte_ok in Hb.
  rewrite (Z.mul_comm 256), Z.mod_add, Z.mod_small, Z.div_add, Z.div_small, Z.add_0_l, IH by lia. done.
Qed.
Lemma le_val_rev_zeros n : le_val (rev (replicate n 0)) = 0.
Proof.
  induction n as [|n IH]; cbn [replicate rev]; [done|]. rewrite le_val_app, IH. cbn [le_val]. lia.
Qed.
Lemma byteswap64_val l : Forall byte_ok l → length l = 8%nat →
  byteswap64 (le_val l) = le_val (rev l) ∧ word_ok (le_val (rev l)).
Proof.
  intros Hl E. unfold byteswap64. pose proof (le_bytes_val l Hl) as Eb. rewrite E in Eb.
  split; [by rewrite Eb|]. pose proof (le_val_bound (rev l) ltac:(by apply Forall_rev)) as Hb.
  rewrite length_rev, E in Hb. unfold word_ok. rewrite B_val. by change (2 ^ 64) with (256 ^ Z.of_nat 8).
Qed.

(** the 32 bytes of a big-endian number *)
Lemma byteswap_be dst : Forall byte_ok dst → length dst = 32%nat →
  let word i := le_val (take 8 (drop (8 * i) dst)) in
  let r := byteswap (U256 (word 0%nat) (word 1%nat) (word 2%nat) (word 3%nat)) in
  u256_ok r ∧ to_Z r = be_val dst.
Proof.
  intros Hd Hl word r.
  assert (∀ i, (i < 4)%nat → let c := take 8 (drop (8 * i) dst) in
    length c = 8%nat ∧ byteswap64 (word i) = le_val (rev c) ∧ word_ok (le_val (rev c))) as Hw.
  { intros i Hi c. assert (length c = 8%nat) by (unfold c; rewrite length_take, length_drop; lia).
    split; [done|]. apply byteswap64_val; [by apply Forall_take, Forall_drop|done]. }
  destruct (Hw 0%nat ltac:(lia)) as (l0 & E0 & H0). destruct (Hw 1%nat ltac:(lia)) as (l1 & E1 & H1).
  destruct (Hw 2%nat ltac:(lia)) as (l2 & E2 & H2). destruct (Hw 3%nat ltac:(lia)) as (l3 & E3 & H3).
  unfold r, byteswap. cbn [w0 w1 w2 w3]. rewrite E0, E1, E2, E3.
  split; [apply u256_ok_eq; cbn; auto|]. rewrite to_Z_eq. cbn [w0 w1 w2 w3]. unfold be_val.
  assert (dst = take 8 (drop (8 * 0) dst) ++ take 8 (drop (8 * 1) dst)
             ++ take 8 (drop (8 * 2) dst) ++ take 8 (drop (8 * 3) dst)) as Esplit.
  { rewrite (take_ge (drop (8 * 3) dst)) by (rewrite length_drop; lia).
    assert (∀ i, drop i dst = take 8 (drop i dst) ++ drop (i + 8) dst) as Hs.
    { intros i. rewrite <- (take_drop 8 (drop i dst)) at 1. by rewrite drop_drop. }
    change (8 * 0)%nat with 0%nat. change (8 * 1)%nat with (0 + 8)%nat.
    change (8 * 2)%nat with (0 + 8 + 8)%nat. change (8 * 3)%nat with (0 + 8 + 8 + 8)%nat.
    rewrite <- !Hs. done. }
  rewrite Esplit at 5. rewrite !rev_app_distr, <- !app_assoc, !le_val_app, !length_rev, l3, l2, l1.
  change (256 ^ Z.of_nat 8) with (2 ^ 64). rewrite <- B_val. lia.
Qed.

Lemma from_bytes_spec n remaining src : Forall byte_ok src → (n ≤ 32)%nat →
  (Nat.min n remaining ≤ length src)%nat →
  ∃ r, from_bytes n remaining src = Ok r ∧ u256_ok r ∧
    to_Z r = be_val (take n (take remaining src ++ replicate n 0)).
Proof.
  intros Hs Hn Hl. unfold from_bytes. rewrite oassert_true by (by apply Nat.leb_le). ostep.
  destruct (Nat.eqb_spec n 0) as [->|Hn0].
  { eexists. split_and!; [done|auto with words|]. rewrite to_Z_of_u64 by (rewrite B_val; lia). done. }
  rewrite oassert_true by (by apply Nat.leb_le). ostep.
  set (dst := replicate (32 - n) 0 ++ _). eexists. split; [done|].
  assert (byte_ok 0) by (unfold byte_ok; lia).
  destruct (byteswap_be dst) as [Hr Er].
  - unfold dst. repeat apply Forall_app_2; auto using Forall_replicate, Forall_take.
  - unfold dst. rewrite !length_app, !length_replicate, length_take_le by done. lia.
  - split; [exact Hr|]. rewrite Er. unfold be_val, dst.
    rewrite rev_app_distr, le_val_app. rewrite le_val_rev_zeros.
    rewrite Z.mul_0_r, Z.add_0_r. do 2 f_equal. rewrite take_app, take_take, length_take.
    f_equal. rewrite take_replicate. f_equal. lia.
Qed.

Section byte_ops.
Context `{L : WordOpsLaws}.

Lemma ge_spec x y : u256_ok x → u256_ok y → operator_ge x y = (to_Z y <=? to_Z x).
Proof. intros. unfold operator_ge. rewrite operator_lt_spec by done. by rewrite <- Z.leb_antisym. Qed.

(** a digit inside one word *)
Lemma word_digit x i w b : u256_ok x → as_words x !! i = Some w → 0 ≤ b → b + 8 ≤ 64 →
  (w / 2 ^ b) mod 256 = (to_Z x / 2 ^ (64 * Z.of_nat i + b)) mod 256.
Proof.
  intros Hx E Hb Hb8. rewrite (val_lookup _ _ _ Hx E). fold (to_Z x).
  assert (2 ^ (64 * Z.of_nat i + b) = Bn i * 2 ^ b) as ->.
  { rewrite Z.pow_add_r, Z.pow_mul_r by lia. by rewrite <- B_val. }
  pose proof (Bn_pos i). pose proof (pow2_pos b Hb). rewrite <- Z.div_div by lia.
  set (W := to_Z x / Bn i). pose proof B_pos.
  rewrite (Z.div_mod W B) at 2 by lia. rewrite (B_split b) at 2 by lia.
  rewrite <- Z.mul_assoc, Z.add_comm, (Z.mul_comm (2 ^ b)), Z.div_add by lia.
  replace (64 - b) with (56 - b + 8) by lia. rewrite Z.pow_add_r by lia. change (2 ^ 8) with 256.
  rewrite <- (Z.mul_assoc (2 ^ (56 - b))), (Z.mul_comm 256), Z.mul_assoc, Z.mod_add by lia. done.
Qed.

Lemma byte_spec i x : u256_ok i → u256_ok x →
  ∃ r, byte i x = Ok r ∧ u256_ok r ∧
    to_Z r = if to_Z i <? 32 then (to_Z x / 2 ^ (8 * (31 - to_Z i))) mod 256 else 0.
Proof.
  intros Hi Hx. unfold byte. rewrite ge_spec, to_Z_of_u64 by (auto with words; rewrite B_val; lia).
  rewrite (Z.ltb_antisym 32). pose proof (to_Z_bound i Hi).
  destruct (Z.leb_spec 32 (to_Z i)); cbn [negb].
  { eexists. split_and!; [done|auto with words|]. apply to_Z_of_u64. rewrite B_val. lia. }
  rewrite (proj2 (high_words_zero i Hi)) by (rewrite B_val; lia).
  set (k := 31 - to_Z i). rewrite Z.shiftr_div_pow2, Z.shiftl_mul_pow2 by lia. change (2 ^ 3) with 8.
  assert (Z.land k 7 = k mod 8) as -> by (change 7 with (2 ^ 3 - 1); by rewrite land_small by lia).
  pose proof (Z.div_mod k 8 ltac:(lia)). pose proof (Z.mod_pos_bound k 8 ltac:(lia)).
  destruct (rd_lt (as_words x) (Z.to_nat (k / 8))) as (w & Ew & ->); [cbn; lia|]. ostep.
  eexists. split; [done|]. rewrite Z.shiftr_div_pow2 by lia. unfold u8. change (2 ^ 8) with 256.
  rewrite (word_digit x _ w (k mod 8 * 8)) by (done || lia). rewrite Z2Nat.id by (apply Z.div_pos; lia).
  replace (64 * (k / 8) + k mod 8 * 8) with (8 * k) by lia.
  pose proof (Z.mod_pos_bound (to_Z x / 2 ^ (8 * k)) 256 ltac:(lia)).
  split; [apply u256_ok_eq; cbn [w0 w1 w2 w3]; split_and!; auto with words; unfold word_ok; rewrite B_val; lia|].
  rewrite to_Z_eq. cbn [w0 w1 w2 w3]. lia.
Qed.

(** the low [b] bits of a number read in two's complement *)
Definition sign_extend (b v : Z) : Z :=
  let y := v mod 2 ^ b in if y <? 2 ^ (b - 1) then y else y - 2 ^ b.

(** the word that holds the sign byte *)
Lemma signextend_word w b : word_ok w → 0 ≤ b ≤ 56 →
  let sb := i8 (u8 (Z.shiftr w b)) in
  let z := sb * 2 ^ b + w mod 2 ^ b in
  Z.lor (u64 (Z.shiftl (u64 sb) b))
        (u64 (Z.land (i64 w) (Z.lnot (Z.shiftr (- 2 ^ 63) (63 - b))))) = z mod B ∧
  u64 (Z.shiftr sb 63) = (if sb <? 0 then B - 1 else 0) ∧
  (if sb <? 0 then - B ≤ z < 0 else 0 ≤ z < B) ∧
  sb = (if (w / 2 ^ b) mod 256 <? 128 then (w / 2 ^ b) mod 256 else (w / 2 ^ b) mod 256 - 256).
Proof.
  intros Hw Hb sb z. pose proof (pow2_pos b ltac:(lia)) as Hpb. pose proof B_pos.
  assert (B = 2 ^ b * 2 ^ (64 - b)) as EB by (apply B_split; lia).
  assert (sb = if (w / 2 ^ b) mod 256 <? 128 then (w / 2 ^ b) mod 256 else (w / 2 ^ b) mod 256 - 256) as Esb.
  { unfold sb. rewrite Z.shiftr_div_pow2 by lia. done. }
  pose proof (Z.mod_pos_bound (w / 2 ^ b) 256 ltac:(lia)). pose proof (Z.mod_pos_bound w (2 ^ b) Hpb) as Hlow.
  assert (-128 ≤ sb < 128) as Hsb by (destruct (Z.ltb_spec ((w / 2 ^ b) mod 256) 128); lia).
  assert (256 * 2 ^ b ≤ B) as H256.
  { rewrite EB, Z.mul_comm. apply Z.mul_le_mono_nonneg_l; [lia|].
    change 256 with (2 ^ 8). apply Z.pow_le_mono_r; lia. }
  split_and!; [| | |done].
  - assert (u64 (Z.land (i64 w) (Z.lnot (Z.shiftr (- 2 ^ 63) (63 - b)))) = w mod 2 ^ b) as ->.
    { assert (Z.shiftr (- 2 ^ 63) (63 - b) = - 2 ^ b) as ->.
      { rewrite Z.shiftr_div_pow2 by lia. assert (2 ^ 63 = 2 ^ b * 2 ^ (63 - b)) as ->.
        { rewrite <- Z.pow_add_r by lia. f_equal. lia. }
        rewrite <- Z.mul_opp_l, Z.div_mul; [done|]. pose proof (pow2_pos (63 - b)). lia. }
      replace (Z.lnot (- 2 ^ b)) with (Z.ones b) by (rewrite Z.ones_equiv; unfold Z.lnot; lia).
      rewrite Z.land_ones by lia.
      assert (i64 w mod 2 ^ b = w mod 2 ^ b) as ->.
      { unfold i64. destruct (w <? 2 ^ 63); [done|]. rewrite <- B_val, EB.
        replace (w - 2 ^ b * 2 ^ (64 - b)) with (w + - 2 ^ (64 - b) * 2 ^ b) by lia.
        by rewrite Z.mod_add by lia. }
      rewrite u64_B. apply Z.mod_small. lia. }
    rewrite shl_word, u64_B, Zmult_mod_idemp_l, mul_pow_mod, lor_add by lia.
    rewrite <- mul_pow_mod by lia. unfold z. rewrite Zplus_mod, (Z.mod_small (w mod 2 ^ b) B) by lia.
    symmetry. apply Z.mod_small. rewrite mul_pow_mod, EB, (Z.mul_comm (2 ^ b)) by lia.
    apply digit_bound; [apply Z.mod_pos_bound, pow2_pos; lia|lia].
  - rewrite Z.shiftr_div_pow2, u64_B by done. destruct (Z.ltb_spec sb 0).
    + assert (sb / 2 ^ 63 = -1) as -> by (symmetry; apply Z.div_unique with (sb + 2 ^ 63); lia).
      rewrite mod_neg by lia. lia.
    + rewrite Z.div_small by lia. by rewrite Z.mod_0_l by lia.
  - unfold z. destruct (Z.ltb_spec sb 0); nia.
Qed.

(** the low bits of a number, cut inside a word *)
Lemma low_bits x i w b : u256_ok x → as_words x !! i = Some w → 0 ≤ b ≤ 56 →
  to_Z x mod 2 ^ (64 * Z.of_nat i + b + 8)
    = val (take i (as_words x)) + Bn i * (w mod 2 ^ b + 2 ^ b * ((w / 2 ^ b) mod 256)).
Proof.
  intros Hx E Hb. rewrite (word_digit x i w b) by (done || lia).
  pose proof (Bn_pos i). pose proof (pow2_pos b ltac:(lia)).
  assert (2 ^ (64 * Z.of_nat i + b) = Bn i * 2 ^ b) as E1.
  { rewrite Z.pow_add_r, Z.pow_mul_r by lia. by rewrite <- B_val. }
  rewrite Z.pow_add_r, E1, <- Z.mul_assoc by lia. change (2 ^ 8) with 256.
  assert (w mod 2 ^ b = (to_Z x / Bn i) mod 2 ^ b) as ->.
  { rewrite (val_lookup _ _ _ Hx E). fold (to_Z x). apply Z.mod_mod_divide.
    exists (2 ^ (64 - b)). rewrite (B_split b) by lia. lia. }
  rewrite !Z.rem_mul_r, Z.div_div by lia. by rewrite val_take by done.
Qed.

(** the words above the sign byte *)
Lemma signextend_words x wi z (neg : bool) : u256_ok x → (wi < 4)%nat →
  (if neg then - B ≤ z < 0 else 0 ≤ z < B) →
  ∃ r, of_words ((take wi (as_words x) ++ [z mod B]) ++ replicate (3 - wi) (if neg then B - 1 else 0)) = Ok r ∧
    u256_ok r ∧ to_Z r = (val (take wi (as_words x)) + Bn wi * z) mod 2 ^ 256.
Proof.
  intros Hx Hwi Hz. pose proof B_pos. set (t := take wi (as_words x)).
  assert (words_ok t) as Ht by (by apply Forall_take).
  assert (length t = wi) as Hlt by (unfold t; rewrite length_take_le; [done|]; change (length (as_words x)) with 4%nat; lia).
  destruct (of_words_ok ((t ++ [z mod B]) ++ replicate (3 - wi) (if neg then B - 1 else 0)))
    as (r & -> & Hr & Er & _).
  { repeat apply Forall_app_2; [done|apply Forall_singleton, word_ok_mod|].
    apply Forall_replicate. unfold word_ok. destruct neg; lia. }
  { rewrite !length_app, length_replicate, Hlt. cbn [length]. lia. }
  exists r. split_and!; [done..|]. apply to_Z_mod with (k := if neg then 1 else 0); [done|].
  rewrite Er, !val_app, length_app, Hlt. cbn [val length]. rewrite <- Bn_4_pow.
  assert (Bn 4 = Bn (wi + 1) * Bn (3 - wi)) as -> by (rewrite <- Bn_add; f_equal; lia).
  rewrite (Bn_add wi 1), Bn_1. destruct neg.
  - rewrite val_replicate_ones, mod_neg by done. lia.
  - rewrite val_replicate, mod_lo by done. lia.
Qed.

Lemma signextend_spec i x : u256_ok i → u256_ok x →
  ∃ r, signextend i x = Ok r ∧ u256_ok r ∧
    to_Z r = if to_Z i <? 31 then sign_extend (8 * (to_Z i + 1)) (to_Z x) mod 2 ^ 256 else to_Z x.
Proof.
  intros Hi Hx. unfold signextend. rewrite ge_spec, to_Z_of_u64 by (auto with words; rewrite B_val; lia).
  rewrite (Z.ltb_antisym 31). pose proof (to_Z_bound i Hi).
  destruct (Z.leb_spec 31 (to_Z i)); cbn [negb]; [by exists x|].
  rewrite (proj2 (high_words_zero i Hi)) by (rewrite B_val; lia).
  set (k := to_Z i) in *. rewrite Z.shiftr_div_pow2 by lia. change (2 ^ 3) with 8.
  assert (Z.land k 7 = k mod 8) as -> by (change 7 with (2 ^ 3 - 1); by rewrite land_small by lia).
  pose proof (Z.div_mod k 8 ltac:(lia)). pose proof (Z.mod_pos_bound k 8 ltac:(lia)).
  set (wi := Z.to_nat (k / 8)). set (b := k mod 8 * 8).
  assert (wi < 4)%nat as Hwi by lia.
  destruct (rd_lt (as_words x) wi) as (w & Ew & ->); [done|]. ostep.
  pose proof (words_ok_lookup _ _ _ Hx Ew) as Hw.
  destruct (signextend_word w b Hw ltac:(lia)) as (-> & -> & Hz & Esb). cbv zeta in Hz, Esb.
  pose proof (low_bits x wi w b Hx Ew ltac:(lia)) as Elow.
  rewrite wr_lt by done. ostep. set (sb := i8 (u8 (Z.shiftr w b))) in *.
  set (z := sb * 2 ^ b + w mod 2 ^ b) in *.
  rewrite (take_S_r _ wi (z mod B)) by (by apply list_lookup_insert_eq). rewrite take_insert_ge by lia.
  destruct (signextend_words x wi z (sb <? 0) Hx Hwi Hz) as (r & -> & Hr & Er).
  exists r. split_and!; [done..|]. rewrite Er. f_equal.
  unfold sign_extend. replace (8 * (k + 1)) with (64 * Z.of_nat wi + b + 8) by lia.
  rewrite Elow. set (d := (w / 2 ^ b) mod 256) in *. set (low := w mod 2 ^ b) in *.
  pose proof (Z.mod_pos_bound (w / 2 ^ b) 256 ltac:(lia)) as Hd. fold d in Hd.
  pose proof (pow2_pos b ltac:(lia)) as Hpb.
  pose proof (Z.mod_pos_bound w (2 ^ b) Hpb) as Hlow. fold low in Hlow.
  pose proof (val_bound (take wi (as_words x)) ltac:(by apply Forall_take)) as Ht.
  rewrite length_take_le in Ht by (change (length (as_words x)) with 4%nat; lia).
  assert (2 ^ (64 * Z.of_nat wi + b + 8) = Bn wi * (2 ^ b * 256)) as ->.
  { rewrite !Z.pow_add_r, Z.pow_mul_r by lia. rewrite <- B_val. change (2 ^ 8) with 256.
    change (B ^ Z.of_nat wi) with (Bn wi). lia. }
  assert (2 ^ (64 * Z.of_nat wi + b + 8 - 1) = Bn wi * (2 ^ b * 128)) as ->.
  { replace (64 * Z.of_nat wi + b + 8 - 1) with (64 * Z.of_nat wi + b + 7) by lia.
    rewrite !Z.pow_add_r, Z.pow_mul_r by lia. rewrite <- B_val. change (2 ^ 7) with 128.
    change (B ^ Z.of_nat wi) with (Bn wi). lia. }
  set (t := val (take wi (as_words x))) in *. unfold z. rewrite Esb.
  destruct (Z.ltb_spec d 128) as [Hd1|Hd1].
  - rewrite (proj2 (Z.ltb_lt _ _)); [lia|]. assert (low + 2 ^ b * d < 2 ^ b * 128) by nia. nia.
  - rewrite (proj2 (Z.ltb_ge _ _)); [lia|]. assert (2 ^ b * 128 ≤ low + 2 ^ b * d) by nia. nia.
Qed.
End byte_ops.

(** ** Leading zeros *)
Definition width (v : Z) : Z := if v =? 0 then 0 else Z.log2 v + 1.

Lemma width_words n r w : word_ok w → 0 ≤ r < Bn n → w ≠ 0 →
  width (r + Bn n * w) = 64 * Z.of_nat n + 64 - countl_zero64 w.
Proof.
  intros Hw Hr Hw0. unfold width, countl_zero64, word_ok in *. pose proof (Bn_pos n).
  rewrite (proj2 (Z.eqb_neq w 0) Hw0), (proj2 (Z.eqb_neq (r + Bn n * w) 0)) by nia.
  pose proof (Z.log2_spec w ltac:(lia)) as [Hlo Hhi]. pose proof (Z.log2_nonneg w).
  assert (Bn n = 2 ^ (64 * Z.of_nat n)) as EB.
  { rewrite Z.pow_mul_r by lia. by rewrite <- B_val. }
  rewrite (Z.log2_unique (r + Bn n * w) (64 * Z.of_nat n + Z.log2 w)); [lia|lia|].
  replace (Z.succ (64 * Z.of_nat n + Z.log2 w)) with (64 * Z.of_nat n + Z.succ (Z.log2 w)) by lia.
  rewrite !Z.pow_add_r, <- EB by lia. nia.
Qed.

Lemma countl_zero_from_spec l : ∀ i, words_ok l →
  countl_zero_from i l (64 * i) = 64 * i + 64 * Z.of_nat (length l) - width (val (rev l)).
Proof.
  induction l as [|w l IH]; intros i Hl; cbn [countl_zero_from rev]; [cbn; lia|].
  apply Forall_cons_iff in Hl as [Hw Hl]. rewrite val_app. cbn [val length]. rewrite Z.mul_0_r, Z.add_0_r.
  rewrite length_rev. pose proof (val_bound (rev l) ltac:(by apply Forall_rev)) as Hb. rewrite length_rev in Hb.
  destruct (decide (w = 0)) as [->|Hw0].
  - change (countl_zero64 0) with 64. rewrite Z.mul_0_r, Z.add_0_r.
    replace (64 * i + 64 =? (i + 1) * 64) with true by (symmetry; apply Z.eqb_eq; lia).
    replace (64 * i + 64) with (64 * (i + 1)) by lia. rewrite IH by done. lia.
  - rewrite (width_words (length l) _ w) by done.
    assert (countl_zero64 w < 64).
    { unfold countl_zero64. rewrite (proj2 (Z.eqb_neq w 0) Hw0). pose proof (Z.log2_nonneg w). lia. }
    replace (64 * i + countl_zero64 w =? (i + 1) * 64) with false by (symmetry; apply Z.eqb_neq; lia). lia.
Qed.

Lemma bit_width_spec x : u256_ok x → bit_width x = width (to_Z x).
Proof.
  intros Hx. unfold bit_width, countl_zero.
  pose proof (countl_zero_from_spec [w3 x; w2 x; w1 x; w0 x] 0) as E. change (64 * 0) with 0 in E. rewrite E.
  - cbn [rev app length]. fold (as_words x). fold (to_Z x). lia.
  - change [w3 x; w2 x; w1 x; w0 x] with (rev (as_words x)). by apply Forall_rev.
Qed.

Lemma count_significant_bytes_spec x : u256_ok x →
  count_significant_bytes x = Ok ((width (to_Z x) + 7) / 8).
Proof.
  intros Hx. unfold count_significant_bytes.
  destruct (count_significant_words_spec (as_words x) Hx) as (Hle & Hlt & Hw).
  pose proof (count_significant_words_0 (as_words x) Hx) as H0.
  set (n := count_significant_words (as_words x)) in *.
  destruct (Nat.eqb_spec n 0) as [En|En].
  { apply H0 in En. unfold to_Z. by rewrite En. }
  destruct (Hw En) as (w & Ew & Hw0). rewrite (rd_Some _ _ _ Ew). ostep.
  assert (to_Z x = val (take (n - 1) (as_words x)) + Bn (n - 1) * w) as ->.
  { rewrite <- (val_take_S _ _ _ Ew). replace (S (n - 1)) with n by lia.
    rewrite val_take, Z.mod_small by (done || (pose proof (val_bound _ Hx); lia)). done. }
  rewrite width_words; [|by eapply words_ok_lookup| |done].
  - unfold mret, outcome_ret. f_equal.
    replace (64 * Z.of_nat (n - 1) + 64 - countl_zero64 w + 7)
      with (64 - countl_zero64 w + 7 + (Z.of_nat n - 1) * 8 * 8) by lia.
    rewrite Z.div_add by lia. done.
  - pose proof (val_bound (take (n - 1) (as_words x)) ltac:(by apply Forall_take)) as Hb.
    rewrite length_take_le in Hb by lia. done.
Qed.
