(* ===== verification/Uint256Theorems.v ===== *)
(** * What uint256.hpp computes

    The properties of the 256-bit integers the rest of the program uses: the
    two word-level implementations agree, and every operation built on them
    computes the integer operation it stands for, modulo 2^256 where it can
    wrap. *)
From S2P Require Import Prelude Words WordMul WordDiv Uint256 Uint256Text.

(** decides side conditions on concrete words *)
Ltac concrete_words :=
  repeat match goal with
  | |- words_ok _ => unfold words_ok; repeat constructor; vm_compute; intuition discriminate
  | |- u256_ok _ => apply u256_ok_eq; split_and!; split; vm_compute; intuition discriminate
  end.

Definition ex_a : uint256_t := U256 (2 ^ 64 - 5) 17 (2 ^ 63) 3.
Definition ex_b : uint256_t := U256 9 (2 ^ 64 - 1) 6 0.
Definition ex_neg : uint256_t := U256 (2 ^ 64 - 7) (2 ^ 64 - 1) (2 ^ 64 - 1) (2 ^ 64 - 1).
Definition ex_uninit (R : nat) : words := replicate R 7.

Lemma ex_a_ok : u256_ok ex_a.
Proof. concrete_words. Qed.
Lemma ex_b_ok : u256_ok ex_b.
Proof. concrete_words. Qed.
Lemma ex_neg_ok : u256_ok ex_neg.
Proof. concrete_words. Qed.
Lemma ex_uninit_ok R : words_ok (ex_uninit R) ∧ length (ex_uninit R) = R.
Proof.
  unfold ex_uninit. rewrite length_replicate. split; [|done].
  apply Forall_replicate. split; vm_compute; intuition discriminate.
Qed.
#[local] Hint Resolve ex_a_ok ex_b_ok ex_neg_ok ex_uninit_ok : words.

(** On words, the portable C++ primitives and the x86 ones compute the
    same results, and so do the two truncating multiplications, whatever the
    uninitialised result array of the second contains. *)
Theorem portable_intrinsics_agree (uninit : nat → words)
    (Hu : ∀ R, words_ok (uninit R) ∧ length (uninit R) = R) :
  (∀ l r c, word_ok l → word_ok r → portable.addc l r c = intrinsics.addc l r c) ∧
  (∀ l r c, word_ok l → word_ok r → portable.subb l r c = intrinsics.subb l r c) ∧
  (∀ h l s, word_ok h → word_ok l → 0 ≤ s < 64 → portable.shld h l s = intrinsics.shld h l s) ∧
  (∀ h l s, word_ok h → word_ok l → 0 ≤ s < 64 → portable.shrd h l s = intrinsics.shrd h l s) ∧
  (∀ h l v, word_ok h → word_ok l → word_ok v → h < v → portable.div h l v = intrinsics.div h l v) ∧
  (∀ x y, word_ok x → word_ok y → portable.mulx x y = intrinsics.mulx x y) ∧
  (∀ R x y, words_ok x → words_ok y → (0 < R ≤ length x + length y)%nat →
     (0 < length x)%nat → (0 < length y)%nat →
     portable_truncating_mul R x y = intrinsics_truncating_mul uninit R x y).
Proof.
  split_and!; intros.
  - by rewrite portable_addc, intrinsics_addc.
  - by rewrite portable_subb, intrinsics_subb.
  - by rewrite portable_shld, intrinsics_shld.
  - by rewrite portable_shrd, intrinsics_shrd.
  - by rewrite portable_div, intrinsics_div.
  - by rewrite portable_mulx, intrinsics_mulx.
  - destruct (portable_truncating_mul_spec R x y) as (r & -> & Hr & Hl & Er); [done..|].
    destruct (intrinsics_truncating_mul_spec uninit R x y) as (r' & -> & Hr' & Hl' & Er'); try done;
      try apply Hu. f_equal. apply val_inj; [done..|lia|lia].
Qed.

Lemma portable_intrinsics_agree_witness :
  portable_truncating_mul 4 (as_words ex_a) (as_words ex_b)
    = intrinsics_truncating_mul ex_uninit 4 (as_words ex_a) (as_words ex_b) ∧
  portable.div 5 6 7 = intrinsics.div 5 6 7.
Proof.
  destruct (portable_intrinsics_agree ex_uninit ex_uninit_ok) as (_ & _ & _ & _ & Hdiv & _ & Hmul).
  split.
  - apply Hmul; [apply ex_a_ok|apply ex_b_ok|cbn; lia|cbn; lia|cbn; lia].
  - apply Hdiv; try done; split; vm_compute; intuition discriminate.
Defined.

(** C34: [udivrem] divides arrays of words of any size: for a non-zero divisor
    it returns the quotient and the remainder, with every array access in
    range, every debug assertion true and no divide fault; for a zero divisor
    its assertion fails. *)
Theorem udivrem_correct {O : WordOps} {L : WordOpsLaws O} (u v : words) :
  words_ok u → words_ok v → (length v ≤ length u)%nat →
  (val v ≠ 0 → ∃ q r, udivrem u v = Ok (q, r) ∧ words_ok q ∧ words_ok r ∧
     length q = length u ∧ length r = length v ∧
     val u = val v * val q + val r ∧ val r < val v) ∧
  (val v = 0 → udivrem u v = Abort).
Proof.
  intros Hu Hv Hl. split; [intros H0|by apply udivrem_zero].
  destruct (udivrem_spec u v Hu Hv Hl H0) as (q & r & E & Hq & Hr & Hlq & Hlr & Eq & Er).
  exists q, r. split_and!; try done.
  - rewrite Eq, Er. by apply Z.div_mod.
  - rewrite Er. pose proof (val_bound v Hv). pose proof (Z.mod_pos_bound (val u) (val v)). lia.
Qed.

Lemma udivrem_correct_witness :
  (val (as_words ex_b) ≠ 0 →
   ∃ q r, udivrem (H := intrinsics_ops ex_uninit) (as_words ex_a) (as_words ex_b) = Ok (q, r) ∧
     words_ok q ∧ words_ok r ∧ length q = 4%nat ∧ length r = 4%nat ∧
     val (as_words ex_a) = val (as_words ex_b) * val q + val r ∧ val r < val (as_words ex_b)) ∧
  (val (as_words ex_b) = 0 →
   udivrem (H := intrinsics_ops ex_uninit) (as_words ex_a) (as_words ex_b) = Abort).
Proof.
  apply (udivrem_correct (L := intrinsics_laws ex_uninit ex_uninit_ok) (as_words ex_a) (as_words ex_b)).
  - apply ex_a_ok.
  - apply ex_b_ok.
  - cbn. lia.
Defined.

(** Sum, difference, product and negation are those of the integers
    modulo 2^256, the carry and borrow flags are exact, and the comparisons,
    equality and the conversion to [bool] decide the order of the numbers. *)
Theorem ring_operations {O : WordOps} {L : WordOpsLaws O} (x y : uint256_t) :
  u256_ok x → u256_ok y →
  to_Z (operator_add x y) = (to_Z x + to_Z y) mod 2 ^ 256 ∧
  (addc256 x y).2 = (2 ^ 256 <=? to_Z x + to_Z y) ∧
  to_Z (operator_sub x y) = (to_Z x - to_Z y) mod 2 ^ 256 ∧
  to_Z (operator_neg x) = (- to_Z x) mod 2 ^ 256 ∧
  (∃ r, operator_mul x y = Ok r ∧ to_Z r = (to_Z x * to_Z y) mod 2 ^ 256) ∧
  operator_lt x y = (to_Z x <? to_Z y) ∧ operator_le x y = (to_Z x <=? to_Z y) ∧
  operator_gt x y = (to_Z y <? to_Z x) ∧ operator_ge x y = (to_Z y <=? to_Z x) ∧
  operator_eq x y = (to_Z x =? to_Z y) ∧ operator_bool x = negb (to_Z x =? 0).
Proof.
  intros Hx Hy. pose proof (to_Z_bound x Hx). pose proof (to_Z_bound y Hy).
  destruct (addc256_spec x y Hx Hy) as [Ha Ea]. pose proof (to_Z_bound _ Ha).
  destruct (truncating_mul256_spec x y Hx Hy) as (p & Ep & _ & Vp).
  unfold operator_le, operator_ge, operator_gt. rewrite !operator_lt_spec, operator_bool_spec by done.
  split_and!; try done.
  - by apply operator_add_spec.
  - destruct (addc256 x y).2, (Z.leb_spec (2 ^ 256) (to_Z x + to_Z y)); cbn [Z.b2z] in Ea; try done; lia.
  - by apply operator_sub_spec.
  - by apply operator_neg_spec.
  - by exists p.
  - by rewrite <- Z.leb_antisym.
  - by rewrite <- Z.leb_antisym.
  - apply Bool.eq_iff_eq_true. rewrite operator_eq_spec, Z.eqb_eq.
    split; [by intros ->|by apply to_Z_inj].
Qed.

Lemma ring_operations_witness :
  (∃ r, operator_mul (H := portable_ops) ex_a ex_b = Ok r ∧
        to_Z r = (to_Z ex_a * to_Z ex_b) mod 2 ^ 256) ∧
  operator_lt (H := portable_ops) ex_a ex_b = (to_Z ex_a <? to_Z ex_b).
Proof.
  destruct (ring_operations (L := portable_laws) ex_a ex_b ex_a_ok ex_b_ok) as (_ & _ & _ & _ & Hm & Hl & _).
  split; [exact Hm|exact Hl].
Defined.

(** For a non-zero divisor or modulus, [/], [%], [addmod] and [mulmod]
    are the integer quotient, the remainder and the remainders of the exact
    sum and product (which need not fit 256 bits), and [sdivrem] is division
    rounded towards zero on two's complement, -2^255 / -1 wrapping to -2^255. *)
Theorem division_operations {O : WordOps} {L : WordOpsLaws O} (x y m : uint256_t) :
  u256_ok x → u256_ok y → u256_ok m → to_Z m ≠ 0 →
  (∃ q, operator_div x m = Ok q ∧ to_Z q = to_Z x / to_Z m) ∧
  (∃ r, operator_mod x m = Ok r ∧ to_Z r = to_Z x mod to_Z m) ∧
  (∃ r, addmod x y m = Ok r ∧ to_Z r = (to_Z x + to_Z y) mod to_Z m) ∧
  (∃ r, mulmod x y m = Ok r ∧ to_Z r = (to_Z x * to_Z y) mod to_Z m) ∧
  (∃ q r, sdivrem x m = Ok (q, r) ∧
     to_Z q = Z.quot (to_signed x) (to_signed m) mod 2 ^ 256 ∧
     to_Z r = Z.rem (to_signed x) (to_signed m) mod 2 ^ 256).
Proof.
  intros Hx Hy Hm H0.
  destruct (udivrem256_spec x m Hx Hm H0) as (q & r & E & _ & _ & Eq & Er).
  destruct (addmod_spec x y m Hx Hy Hm H0) as (ra & Ea & _ & Va).
  destruct (mulmod_spec x y m Hx Hy Hm H0) as (rm & Em & _ & Vm).
  destruct (sdivrem_spec x m Hx Hm H0) as (sq & sr & Es & _ & _ & Vq & Vr).
  unfold operator_div, operator_mod. rewrite E. split_and!; eauto 10.
Qed.

Lemma division_operations_witness :
  (∃ r, mulmod (H := portable_ops) ex_a ex_neg ex_b = Ok r ∧
        to_Z r = (to_Z ex_a * to_Z ex_neg) mod to_Z ex_b) ∧
  (∃ q r, sdivrem (H := portable_ops) ex_a ex_b = Ok (q, r) ∧
     to_Z q = Z.quot (to_signed ex_a) (to_signed ex_b) mod 2 ^ 256 ∧
     to_Z r = Z.rem (to_signed ex_a) (to_signed ex_b) mod 2 ^ 256).
Proof.
  assert (to_Z ex_b ≠ 0) as H0 by (vm_compute; discriminate).
  destruct (division_operations (L := portable_laws) ex_a ex_neg ex_b ex_a_ok ex_neg_ok ex_b_ok H0)
    as (_ & _ & _ & Hm & Hs).
  split; [exact Hm|exact Hs].
Defined.

(** The shifts by any 256-bit amount (beyond 255 included) multiply by or
    divide by the power of two: [<<] modulo 2^256, [>>] on the unsigned and
    [sar] on the two's complement value, and [slt] compares two's complement
    values. *)
Theorem shift_operations {O : WordOps} {L : WordOpsLaws O} (x s : uint256_t) :
  u256_ok x → u256_ok s →
  to_Z (operator_shl x s) = (to_Z x * 2 ^ to_Z s) mod 2 ^ 256 ∧
  to_Z (operator_shr x s) = to_Z x / 2 ^ to_Z s ∧
  to_Z (sar s x) = (to_signed x / 2 ^ to_Z s) mod 2 ^ 256 ∧
  slt x s = (to_signed x <? to_signed s).
Proof.
  intros Hx Hs. split_and!.
  - by apply operator_shl_spec.
  - destruct (shift_right_spec Logical x s Hx Hs) as [Hr Er]. unfold operator_shr. rewrite Er.
    cbn [sign_of]. pose proof (to_Z_bound x Hx). pose proof (to_Z_bound s Hs).
    pose proof (pow2_pos (to_Z s) ltac:(lia)). apply Z.mod_small. split; [apply Z.div_pos; lia|].
    apply Z.div_lt_upper_bound; nia.
  - by destruct (shift_right_spec Arithmetic x s Hx Hs) as [_ Er].
  - by apply slt_spec.
Qed.

Lemma shift_operations_witness :
  to_Z (sar (H := portable_ops) ex_b ex_neg) = (to_signed ex_neg / 2 ^ to_Z ex_b) mod 2 ^ 256 ∧
  to_Z (sar (H := portable_ops) (of_u64 70) ex_neg) = (to_signed ex_neg / 2 ^ to_Z (of_u64 70)) mod 2 ^ 256.
Proof.
  destruct (shift_operations (L := portable_laws) ex_neg ex_b ex_neg_ok ex_b_ok) as (_ & _ & H1 & _).
  destruct (shift_operations (L := portable_laws) ex_neg (of_u64 70) ex_neg_ok (u256_ok_of_u64 70))
    as (_ & _ & H2 & _).
  split; [exact H1|exact H2].
Defined.

(** [exp] terminates for every exponent and returns the power modulo
    2^256. *)
Theorem exp_correct {O : WordOps} {L : WordOpsLaws O} (b e : uint256_t) :
  u256_ok b → u256_ok e →
  ∃ r, exp b e = Ok r ∧ u256_ok r ∧ to_Z r = (to_Z b ^ to_Z e) mod 2 ^ 256.
Proof. apply exp_spec. Qed.

Lemma exp_correct_witness :
  ∃ r, exp (H := portable_ops) ex_a ex_b = Ok r ∧ u256_ok r ∧
       to_Z r = (to_Z ex_a ^ to_Z ex_b) mod 2 ^ 256.
Proof. exact (exp_correct (L := portable_laws) ex_a ex_b ex_a_ok ex_b_ok). Defined.

(** Printing and parsing are inverse: [from_string] gives back the number
    [to_string] printed in decimal, and in hexadecimal behind "0x".  A
    non-empty decimal string is accepted exactly when its value fits 256 bits,
    otherwise it is reported as out of range. *)
Theorem string_round_trip {O : WordOps} {L : WordOpsLaws O} :
  (∀ x, u256_ok x → ∃ s, to_string x 10 = Ok s ∧ from_string s = Ok x) ∧
  (∀ x, u256_ok x → ∃ s, to_string x 16 = Ok s ∧ from_string (chr_0 :: chr_x :: s) = Ok x) ∧
  (∀ s, s ≠ [] → Forall is_dec s →
     if horner 10 0 s <? 2 ^ 256
     then ∃ r, from_string s = Ok r ∧ u256_ok r ∧ to_Z r = horner 10 0 s
     else from_string s = Throw "out_of_range").
Proof.
  split_and!.
  - apply decimal_round_trip_spec.
  - apply hex_round_trip_spec.
  - apply from_string_dec_spec.
Qed.

Lemma string_round_trip_witness :
  ∃ s, to_string (H := portable_ops) ex_a 10 = Ok s ∧ from_string (H := portable_ops) s = Ok ex_a.
Proof. destruct (string_round_trip (L := portable_laws)) as [H _]. exact (H ex_a ex_a_ok). Defined.

(** The byte-level operations: [byte] and [signextend] pick and extend
    the byte the EVM index names (and do nothing outside of the word),
    [from_bytes] reads a big-endian number padded with zeros on the right,
    [bit_width] and [count_significant_bytes] measure the number. *)
Theorem byte_operations {O : WordOps} {L : WordOpsLaws O} (i x : uint256_t) (n remaining : nat) (src : list Z) :
  u256_ok i → u256_ok x → Forall byte_ok src → (n ≤ 32)%nat → (Nat.min n remaining ≤ length src)%nat →
  (∃ r, byte i x = Ok r ∧
     to_Z r = if to_Z i <? 32 then (to_Z x / 2 ^ (8 * (31 - to_Z i))) mod 256 else 0) ∧
  (∃ r, signextend i x = Ok r ∧
     to_Z r = if to_Z i <? 31 then sign_extend (8 * (to_Z i + 1)) (to_Z x) mod 2 ^ 256 else to_Z x) ∧
  (∃ r, from_bytes n remaining src = Ok r ∧
     to_Z r = be_val (take n (take remaining src ++ replicate n 0))) ∧
  bit_width x = width (to_Z x) ∧ count_significant_bytes x = Ok ((width (to_Z x) + 7) / 8).
Proof.
  intros Hi Hx Hs Hn Hl.
  destruct (byte_spec i x Hi Hx) as (rb & Eb & _ & Vb).
  destruct (signextend_spec i x Hi Hx) as (rs & Es & _ & Vs).
  destruct (from_bytes_spec n remaining src Hs Hn Hl) as (rf & Ef & _ & Vf).
  split_and!; eauto; [by apply bit_width_spec|by apply count_significant_bytes_spec].
Qed.

Lemma byte_operations_witness :
  (∃ r, signextend (H := portable_ops) (of_u64 9) ex_a = Ok r ∧
     to_Z r = if to_Z (of_u64 9) <? 31 then sign_extend (8 * (to_Z (of_u64 9) + 1)) (to_Z ex_a) mod 2 ^ 256
              else to_Z ex_a) ∧
  (∃ r, from_bytes 3 2 [1; 2] = Ok r ∧ to_Z r = be_val (take 3 (take 2 [1; 2] ++ replicate 3 0))).
Proof.
  assert (Forall byte_ok [1; 2]) as Hs by (repeat constructor; vm_compute; intuition discriminate).
  destruct (byte_operations (L := portable_laws) (of_u64 9) ex_a 3 2 [1; 2] (u256_ok_of_u64 9) ex_a_ok Hs)
    as (_ & H1 & H2 & _); [cbn; lia|cbn; lia|].
  split; [exact H1|exact H2].
Defined.
