(* ===== verification/CheckedMath.v ===== *)
(** * Checked arithmetic

    src/category/core/checked_math.cpp on the words of [uint256_t], and the
    checked operations on integers below 2^256 that the rest of the
    development uses, which the former refine. *)
From S2P Require Import Prelude Words WordMul WordDiv Uint256.

Inductive MathError := Overflow | Underflow | DivisionByZero.
#[global] Instance MathError_eq_dec : EqDecision MathError.
Proof. solve_decision. Defined.

Section words.
Context `{WordOps}.

Definition checked_add256 (x y : uint256_t) : MathError + uint256_t :=
  let '(sum, carry) := addc256 x y in
  if (carry : bool) then inl Overflow else inr sum.

Definition checked_sub256 (x y : uint256_t) : MathError + uint256_t :=
  let '(diff, borrow) := subb256 x y in
  if (borrow : bool) then inl Underflow else inr diff.

Definition checked_mul256 (x y : uint256_t) : outcome (MathError + uint256_t) :=
  prod ← truncating_mul 8 (as_words x) (as_words y);
  p4 ← rd prod 4; p5 ← rd prod 5; p6 ← rd prod 6; p7 ← rd prod 7;
  if negb (Z.lor (Z.lor (Z.lor p4 p5) p6) p7 =? 0) then mret (inl Overflow)
  else r ← of_words (take 4 prod); mret (inr r).

Definition checked_div256 (x y : uint256_t) : outcome (MathError + uint256_t) :=
  if operator_eq y (of_u64 0) then mret (inl DivisionByZero)
  else r ← operator_div x y; mret (inr r).
End words.

(** ** On integers *)
Definition checked_add (x y : Z) : MathError + Z :=
  if x + y <=? U256_MAX then inr (x + y) else inl Overflow.
Definition checked_sub (x y : Z) : MathError + Z :=
  if y <=? x then inr (x - y) else inl Underflow.
Definition checked_mul (x y : Z) : MathError + Z :=
  if x * y <=? U256_MAX then inr (x * y) else inl Overflow.
Definition checked_div (x y : Z) : MathError + Z :=
  if y =? 0 then inl DivisionByZero else inr (x / y).

(** the abstraction of a result *)
Definition to_Z_result (r : MathError + uint256_t) : MathError + Z :=
  match r with inl e => inl e | inr x => inr (to_Z x) end.

Section refinement.
Context `{L : WordOpsLaws}.

Lemma high_half_zero p : words_ok p → length p = 8%nat →
  ∃ p4 p5 p6 p7, p !! 4%nat = Some p4 ∧ p !! 5%nat = Some p5 ∧ p !! 6%nat = Some p6 ∧
    p !! 7%nat = Some p7 ∧
    (Z.lor (Z.lor (Z.lor p4 p5) p6) p7 =? 0) = (val p <? 2 ^ 256).
Proof.
  intros Hp Hl. destruct p as [|a [|b [|c [|d [|e [|f [|g [|h [|]]]]]]]]]; try done.
  exists e, f, g, h. do 4 (split; [done|]).
  pose proof (val_split [a; b; c; d; e; f; g; h] 4 Hp) as E. rewrite Bn_4_pow in E.
  pose proof (val_bound (take 4 [a; b; c; d; e; f; g; h]) ltac:(by apply Forall_take)) as Hb.
  change (length (take 4 _)) with 4%nat in Hb. rewrite Bn_4_pow in Hb.
  set (lo := val (take 4 _)) in *.
  change (val (drop 4 _)) with (e + B * (f + B * (g + B * (h + B * 0)))) in E.
  repeat (apply Forall_cons_iff in Hp as [? Hp]). unfold word_ok in *. pose proof B_pos.
  apply Bool.eq_iff_eq_true. rewrite Z.eqb_eq, !Z.lor_eq_0_iff, Z.ltb_lt. rewrite E. split.
  - intros [[[-> ->] ->] ->]. lia.
  - intros Hlt. assert (e + B * (f + B * (g + B * (h + B * 0))) = 0) as E0 by nia.
    assert (e = 0 ∧ f + B * (g + B * (h + B * 0)) = 0) as [-> E1] by nia.
    assert (f = 0 ∧ g + B * (h + B * 0) = 0) as [-> E2] by nia. split_and!; nia.
Qed.

(** The checked operations return the exact result when it is
    representable, and otherwise the error that names why it is not. *)
Theorem checked_math_exact (x y : uint256_t) : u256_ok x → u256_ok y →
  to_Z_result (checked_add256 x y) = checked_add (to_Z x) (to_Z y) ∧
  to_Z_result (checked_sub256 x y) = checked_sub (to_Z x) (to_Z y) ∧
  (∃ r, checked_mul256 x y = Ok r ∧ to_Z_result r = checked_mul (to_Z x) (to_Z y)) ∧
  (∃ r, checked_div256 x y = Ok r ∧ to_Z_result r = checked_div (to_Z x) (to_Z y)).
Proof.
  intros Hx Hy. pose proof (to_Z_bound x Hx). pose proof (to_Z_bound y Hy). split_and!.
  - unfold checked_add256, checked_add, U256_MAX. destruct (addc256_spec x y Hx Hy) as [Hr E].
    pose proof (to_Z_bound _ Hr). destruct (addc256 x y) as [s c]. cbn [fst snd] in *.
    destruct c; cbn [Z.b2z to_Z_result] in *;
      destruct (Z.leb_spec (to_Z x + to_Z y) (2 ^ 256 - 1)); try done; try lia. f_equal. lia.
  - unfold checked_sub256, checked_sub. pose proof (subb256_borrow x y Hx Hy) as Eb.
    destruct (subb256_spec x y Hx Hy) as [Hr E].
    destruct (subb256 x y) as [s c]. cbn [fst snd] in *. subst c. rewrite Z.leb_antisym.
    destruct (to_Z x <? to_Z y); cbn [Z.b2z negb to_Z_result] in *; [done|]. f_equal. lia.
  - unfold checked_mul256, checked_mul, U256_MAX.
    destruct (truncating_mul_law 8 (as_words x) (as_words y)) as (p & -> & Hp & Hl & Ep);
      try done; try (cbn; lia). ostep.
    destruct (high_half_zero p Hp Hl) as (p4 & p5 & p6 & p7 & E4 & E5 & E6 & E7 & Ez).
    rewrite (rd_Some _ _ _ E4), (rd_Some _ _ _ E5), (rd_Some _ _ _ E6), (rd_Some _ _ _ E7). ostep.
    rewrite Ez. fold (to_Z x) (to_Z y) in Ep. rewrite (Z.mod_small _ (Bn 8)) in Ep.
    2: { change (Bn 8) with (Bn (4 + 4)). rewrite Bn_add, Bn_4_pow. nia. }
    rewrite Ep. destruct (Z.ltb_spec (to_Z x * to_Z y) (2 ^ 256)); cbn [negb].
    + destruct (of_words_ok (take 4 p)) as (r & -> & Hr & Er & _);
        [by apply Forall_take|by rewrite length_take_le by lia|]. ostep.
      eexists. split; [done|]. cbn [to_Z_result]. rewrite (proj2 (Z.leb_le _ _)) by lia.
      rewrite Er, val_take, Bn_4_pow, Ep, Z.mod_small by (done || nia). done.
    + eexists. split; [done|]. by rewrite (proj2 (Z.leb_gt _ _)) by lia.
  - unfold checked_div256, checked_div, operator_div.
    assert (operator_eq y (of_u64 0) = (to_Z y =? 0)) as ->.
    { apply Bool.eq_iff_eq_true. rewrite operator_eq_spec, Z.eqb_eq.
      assert (to_Z (of_u64 0) = 0) as E0 by (apply to_Z_of_u64; rewrite B_val; lia). split.
      - by intros ->.
      - intros E. apply to_Z_inj; auto with words; lia. }
    destruct (Z.eqb_spec (to_Z y) 0); [eexists; by split|].
    destruct (udivrem256_spec x y) as (q & r & -> & ? & ? & Eq & _); [done..|]. ostep.
    eexists. split; [done|]. cbn [to_Z_result]. by rewrite Eq.
Qed.
End refinement.

Lemma checked_math_exact_witness :
  ∃ r, checked_mul256 (H := portable_ops) (of_u64 5) (of_u64 7) = Ok r ∧
       to_Z_result r = checked_mul (to_Z (of_u64 5)) (to_Z (of_u64 7)).
Proof.
  destruct (checked_math_exact (L := portable_laws) (of_u64 5) (of_u64 7)
    (u256_ok_of_u64 5) (u256_ok_of_u64 7)) as (_ & _ & H & _).
  exact H.
Defined.
