(* ===== verification/Rlp.v ===== *)
(** * RLP

    The encoder of src/category/execution/ethereum/rlp/encode2.hpp, the decoder
    of rlp/decode.hpp and the scalar codecs of core/rlp/{int,address,bytes}_rlp.hpp
    under src/category/execution/ethereum.  A byte string is a list of
    integers below 256; a [byte_string_view &] that a decoder advances is the
    state of the monad [decoder].

    The two encoders assert that a length takes at most eight bytes; that is
    [to_big_compact_length] below. *)
From S2P Require Import Prelude.

(** ** Bytes *)
Definition byte_ok (b : Z) : Prop := 0 ≤ b < 256.
Abbreviation bytes_ok := (Forall byte_ok).
Definition len (l : list Z) : Z := Z.of_nat (length l).

(** The big-endian bytes of an integer of [n] bytes, and back. *)
Fixpoint be_bytes (n : nat) (z : Z) : list Z :=
  match n with
  | O => []
  | S n => Z.shiftr z (8 * Z.of_nat n) mod 256 :: be_bytes n z
  end.
Definition be_val (l : list Z) : Z := fold_left (λ acc b, acc * 256 + b) l 0.

(** ** Encoding *)
Fixpoint zeroless_view (l : list Z) : list Z :=
  match l with
  | b :: r => if b =? 0 then zeroless_view r else l
  | [] => []
  end.
Definition to_big_compact (width : nat) (n : Z) : list Z := zeroless_view (be_bytes width n).

Definition encode_string2 (s : list Z) : list Z :=
  let size := u32 (len s) in
  if (size =? 1) && (default 0 (head s) <=? 0x7f) then s
  else if size >? 55 then
    let size_str := to_big_compact 4 size in
    (0xb7 + len size_str) :: size_str ++ s
  else (0x80 + size) :: s.

(** [encode_list2(args...)]; its arguments are concatenated. *)
Definition encode_list2 (args : list (list Z)) : list Z :=
  let size := len (concat args) in
  if size >? 55 then
    let size_str := to_big_compact 8 size in
    (0xf7 + len size_str) :: size_str ++ concat args
  else (0xc0 + size) :: concat args.

Definition encode_unsigned (width : nat) (n : Z) : list Z := encode_string2 (to_big_compact width n).
Definition encode_address (address : option Z) : list Z :=
  match address with
  | None => [0x80]
  | Some a => encode_string2 (be_bytes 20 a)
  end.
Definition encode_bytes32 (h : Z) : list Z := encode_string2 (be_bytes 32 h).
Definition encode_bytes32_compact (h : Z) : list Z := encode_string2 (zeroless_view (be_bytes 32 h)).

(** ** Decoding *)
Inductive DecodeError :=
| TypeUnexpected | DecodeOverflow | InputTooLong | InputTooShort | ArrayLengthUnexpected
| InvalidTxnType | LeadingZero | PathTooShort | PathTooLong | NonCanonical.

Definition result (A : Type) : Type := DecodeError + A.
Definition decoder (A : Type) : Type := list Z → result (A * list Z).
#[global] Instance decoder_ret : MRet decoder := λ A a enc, inr (a, enc).
#[global] Instance decoder_bind : MBind decoder := λ A B k m enc,
  match m enc with inl e => inl e | inr (a, enc') => k a enc' end.
Definition dfail {A} (e : DecodeError) : decoder A := λ _, inl e.
Definition dlift {A} (r : result A) : decoder A := λ enc,
  match r with inl e => inl e | inr a => inr (a, enc) end.
(** [if (MONAD_UNLIKELY(b)) return e;] *)
Definition reject (b : bool) (e : DecodeError) : decoder () :=
  if b then dfail e else mret ().

Definition decode_raw_num (width : nat) (enc : list Z) : result Z :=
  if len enc >? Z.of_nat width then inl DecodeOverflow
  else match enc with
       | [] => inr 0
       | b :: _ => if b =? 0 then inl LeadingZero else inr (be_val enc)
       end.
Definition decode_length (enc : list Z) : result Z := decode_raw_num 8 enc.

Inductive RlpType := RlpString | RlpList.
#[global] Instance RlpType_eq_dec : EqDecision RlpType.
Proof. solve_decision. Defined.

(** [extract_payload]: the payload without ([KeepRlpHeader]: with) the
    header, and the view after it. *)
Definition extract_payload (keep : bool) (i length : Z) : decoder (list Z) := λ enc,
  let end_ := u64 (i + length) in
  if (end_ >? len enc) || (end_ <? i) then inl InputTooShort
  else inr (if keep then take (Z.to_nat end_) enc
            else take (Z.to_nat length) (drop (Z.to_nat i) enc), drop (Z.to_nat end_) enc).

(** The length of a long string or list whose first byte is [base] plus the
    length of the length, and where its payload starts. *)
Definition long_length (base : Z) (enc : list Z) : result (Z * Z) :=
  let length_of_length := default 0 (head enc) - base in
  if 1 + length_of_length >=? len enc then inl InputTooShort
  else match decode_length (take (Z.to_nat length_of_length) (drop 1 enc)) with
       | inl e => inl e
       | inr length =>
           if length <? 56 then inl TypeUnexpected else inr (1 + length_of_length, length)
       end.

Definition string_header (enc : list Z) : result (Z * Z) :=
  let b := default 0 (head enc) in
  if b <? 0x80 then inr (0, 1)
  else if b <? 0xb8 then
    let length := b - 0x80 in
    if length =? 1 then
      if len enc <? 2 then inl InputTooShort
      else if default 0 (enc !! 1%nat) <? 0x80 then inl TypeUnexpected
      else inr (1, length)
    else inr (1, length)
  else long_length 0xb7 enc.
Definition list_header (enc : list Z) : result (Z * Z) :=
  let b := default 0 (head enc) in
  if b <? 0xf8 then inr (1, b - 0xc0) else long_length 0xf7 enc.

(** [detail::parse_string_metadata] and [detail::parse_list_metadata] *)
Definition detail_parse (header : list Z → result (Z * Z)) (keep : bool) : decoder (list Z) := λ enc,
  match header enc with
  | inl e => inl e
  | inr (i, length) => extract_payload keep i length enc
  end.

Definition parse_metadata : decoder (RlpType * list Z) := λ enc,
  match enc with
  | [] => inl InputTooShort
  | b :: _ =>
      if b <? 0xc0 then (p ← detail_parse string_header false; mret (RlpString, p)) enc
      else (p ← detail_parse list_header false; mret (RlpList, p)) enc
  end.
Definition parse_string_metadata : decoder (list Z) := λ enc,
  match enc with
  | [] => inl InputTooShort
  | b :: _ => if b >=? 0xc0 then inl TypeUnexpected else detail_parse string_header false enc
  end.
Definition parse_list_metadata : decoder (list Z) := λ enc,
  match enc with
  | [] => inl InputTooShort
  | b :: _ => if b <? 0xc0 then inl TypeUnexpected else detail_parse list_header false enc
  end.
Definition parse_list_metadata_raw : decoder (list Z) := λ enc,
  match enc with
  | [] => inl InputTooShort
  | b :: _ => if b <? 0xc0 then inl TypeUnexpected else detail_parse list_header true enc
  end.
Definition decode_string : decoder (list Z) := parse_string_metadata.
Definition decode_byte_string_fixed (n : nat) : decoder (list Z) :=
  payload ← parse_string_metadata;
  _ ← reject (negb (len payload =? Z.of_nat n)) ArrayLengthUnexpected;
  mret payload.

Definition decode_unsigned (width : nat) : decoder Z :=
  payload ← parse_string_metadata; dlift (decode_raw_num width payload).
Definition decode_bool : decoder bool :=
  i ← decode_unsigned 8;
  _ ← reject (i >? 1) DecodeOverflow;
  mret (negb (i =? 0)).
Definition decode_address : decoder Z := b ← decode_byte_string_fixed 20; mret (be_val b).
Definition decode_optional_address : decoder (option Z) :=
  payload ← parse_string_metadata;
  if len payload =? 20 then mret (Some (be_val payload))
  else if len payload >? 20 then dfail InputTooLong
  else if negb (len payload =? 0) then dfail InputTooShort
  else mret None.
Definition decode_bytes32 : decoder Z := b ← decode_byte_string_fixed 32; mret (be_val b).
Definition decode_bytes32_compact : decoder Z :=
  b ← decode_string;
  _ ← reject (len b >? 32) InputTooLong;
  _ ← reject (match b with x :: _ => x =? 0 | [] => false end) NonCanonical;
  mret (be_val b).

(** ** Decoders of structures

    Their loops and checks contain assertions, so the outcome is threaded
    too. *)
Definition tdecoder (A : Type) : Type := list Z → outcome (result (A * list Z)).
#[global] Instance tdecoder_ret : MRet tdecoder := λ A a enc, Ok (inr (a, enc)).
#[global] Instance tdecoder_bind : MBind tdecoder := λ A B k m enc,
  match m enc with
  | Ok (inr (a, enc')) => k a enc'
  | Ok (inl e) => Ok (inl e)
  | Abort => Abort
  | Throw s => Throw s
  end.
Definition lift {A} (d : decoder A) : tdecoder A := λ enc, Ok (d enc).
Definition tfail {A} (e : DecodeError) : tdecoder A := λ _, Ok (inl e).
Definition tassert (b : bool) : tdecoder () := if b then mret () else λ _, Abort.
(** [if (MONAD_UNLIKELY(b)) return e;] *)
Definition treject (b : bool) (e : DecodeError) : tdecoder () := if b then tfail e else mret ().
(** the view itself *)
Definition view : tdecoder (list Z) := λ enc, Ok (inr (enc, enc)).
(** a decoder run on a local view [payload]; [enc] is not touched *)
Definition on_view {A} (payload : list Z) (d : tdecoder A) : tdecoder A := λ enc,
  match d payload with
  | Ok (inr (a, _)) => Ok (inr (a, enc))
  | Ok (inl e) => Ok (inl e)
  | Abort => Abort
  | Throw s => Throw s
  end.
(** [parse_list_metadata] into a local view, decoded by [body] *)
Definition in_list {A} (body : tdecoder A) : tdecoder A :=
  payload ← lift parse_list_metadata; on_view payload body.
Definition check_empty : tdecoder () :=
  payload ← view; treject (negb (len payload =? 0)) InputTooLong.
(** [while (payload.size() > 0) { ... d ... }]; a round consumes at least one
    byte, so that the length of the view bounds the rounds *)
Fixpoint decode_while {A} (fuel : nat) (d : tdecoder A) : tdecoder (list A) := λ payload,
  if len payload =? 0 then Ok (inr ([], payload))
  else match fuel with
       | O => Abort
       | S fuel => mbind (M:=tdecoder) (λ x,
           mbind (M:=tdecoder) (λ xs, mret (M:=tdecoder) (x :: xs)) (decode_while fuel d)) d payload
       end.
Definition decode_all {A} (d : tdecoder A) : tdecoder (list A) :=
  mbind (M:=tdecoder) (λ payload, decode_while (length payload) d) view.
