(* ===== verification/RlpFacts.v ===== *)
(** * Correctness of the RLP codecs

    Every encoder is inverted by its decoder, which leaves exactly the bytes
    after the encoding; and a decoder accepts nothing but what the encoder
    produces, so that encodings are unique. *)
From S2P Require Import Prelude Rlp.

(** ** Big-endian numbers *)
Lemma len_nonneg l : 0 ≤ len l.
Proof. unfold len. lia. Qed.
Lemma len_app l l' : len (l ++ l') = len l + len l'.
Proof. unfold len. rewrite length_app. lia. Qed.
Lemma len_cons b l : len (b :: l) = 1 + len l.
Proof. unfold len. cbn [length]. lia. Qed.
#[global] Hint Rewrite len_app len_cons : len.
Ltac lens := autorewrite with len in *; pose proof len_nonneg.

Lemma pow256 n : 0 < 256 ^ Z.of_nat n.
Proof. lia. Qed.
Lemma pow256_S n : 256 ^ Z.of_nat (S n) = 256 * 256 ^ Z.of_nat n.
Proof. rewrite Nat2Z.inj_succ, Z.pow_succ_r by lia. lia. Qed.
Lemma shiftr_byte z n : Z.shiftr z (8 * Z.of_nat n) = z / 256 ^ Z.of_nat n.
Proof. rewrite Z.shiftr_div_pow2 by lia. by rewrite Z.pow_mul_r by lia. Qed.

Lemma be_bytes_length n z : length (be_bytes n z) = n.
Proof. induction n as [|n IH]; cbn [be_bytes length]; congruence. Qed.
Lemma be_bytes_ok n z : bytes_ok (be_bytes n z).
Proof.
  induction n as [|n IH]; cbn [be_bytes]; constructor; [|done].
  unfold byte_ok. pose proof (Z.mod_pos_bound (Z.shiftr z (8 * Z.of_nat n)) 256). lia.
Qed.

Lemma be_val_acc l a : fold_left (λ acc b, acc * 256 + b) l a = a * 256 ^ len l + be_val l.
Proof.
  unfold be_val. revert a. induction l as [|b l IH]; intros a; cbn [fold_left]; [unfold len; cbn [length Z.of_nat]; rewrite Z.pow_0_r; lia|].
  rewrite IH, (IH (0 * 256 + b)). unfold len. cbn [length]. rewrite pow256_S. lia.
Qed.
Lemma be_val_cons b l : be_val (b :: l) = b * 256 ^ len l + be_val l.
Proof. unfold be_val at 1. cbn [fold_left]. rewrite be_val_acc. lia. Qed.
Lemma be_val_bound l : bytes_ok l → 0 ≤ be_val l < 256 ^ len l.
Proof.
  induction 1 as [|b l [Hb1 Hb2] _ IH]; [split; [done|reflexivity]|]. rewrite be_val_cons. unfold len in *.
  cbn [length]. rewrite pow256_S. nia.
Qed.
Lemma be_val_be_bytes n z : be_val (be_bytes n z) = z mod 256 ^ Z.of_nat n.
Proof.
  induction n as [|n IH]; cbn [be_bytes]; [cbn; by rewrite Z.mod_1_r|].
  rewrite be_val_cons, IH. unfold len. rewrite be_bytes_length, shiftr_byte, pow256_S.
  rewrite (Z.mul_comm 256), (Z.rem_mul_r z) by lia. lia.
Qed.
Lemma be_bytes_mod n z : be_bytes n (z mod 256 ^ Z.of_nat n) = be_bytes n z.
Proof.
  enough (∀ k, (n ≤ k)%nat → be_bytes n (z mod 256 ^ Z.of_nat k) = be_bytes n z) by auto.
  induction n as [|n IH]; intros k Hk; cbn [be_bytes]; [done|]. f_equal; [|apply IH; lia].
  rewrite !shiftr_byte. replace k with (n + (1 + (k - S n)))%nat by lia.
  rewrite Nat2Z.inj_add, Z.pow_add_r, Nat2Z.inj_add, Z.pow_add_r by lia.
  rewrite Z.rem_mul_r by lia. rewrite Z.mul_comm, Z.div_add by lia.
  rewrite (Z.div_small (z mod _)), Z.add_0_l by (apply Z.mod_pos_bound; lia).
  rewrite Z.rem_mul_r by lia. change (256 ^ Z.of_nat 1) with 256.
  rewrite (Z.mul_comm 256), Z.mod_add by lia. apply Zmod_mod.
Qed.
Lemma be_bytes_be_val l : bytes_ok l → be_bytes (length l) (be_val l) = l.
Proof.
  induction 1 as [|b l [Hb1 Hb2] Hl IH]; [done|]. cbn [length be_bytes].
  rewrite shiftr_byte, be_val_cons. pose proof (be_val_bound l Hl). unfold len in *.
  f_equal.
  - rewrite Z.add_comm, Z.div_add by lia. rewrite Z.div_small by lia. apply Z.mod_small. lia.
  - rewrite <- be_bytes_mod, Z.add_comm, Z.mod_add by lia. rewrite Z.mod_small by lia. done.
Qed.

(** ** Compact numbers *)
Lemma zeroless_ok l : bytes_ok l → bytes_ok (zeroless_view l).
Proof.
  induction 1 as [|b l Hb Hl IH]; cbn [zeroless_view]; [constructor|]. destruct (b =? 0); [done|by constructor].
Qed.
Lemma zeroless_length l : len (zeroless_view l) ≤ len l.
Proof. induction l as [|b l IH]; cbn [zeroless_view]; [done|]. destruct (b =? 0); rewrite ?len_cons; lia. Qed.
Lemma zeroless_val l : be_val (zeroless_view l) = be_val l.
Proof.
  induction l as [|b l IH]; cbn [zeroless_view]; [done|]. destruct (Z.eqb_spec b 0) as [->|]; [|done].
  rewrite IH, be_val_cons. lia.
Qed.
(** no leading zero *)
Definition compact (l : list Z) : Prop := match l with b :: _ => b ≠ 0 | [] => True end.
Lemma zeroless_compact l : compact (zeroless_view l).
Proof. induction l as [|b l IH]; cbn [zeroless_view]; [done|]. by destruct (Z.eqb_spec b 0). Qed.
Lemma zeroless_pad n l : compact l → zeroless_view (replicate n 0 ++ l) = l.
Proof.
  intros Hl. induction n as [|n IH]; cbn; [|done]. destruct l as [|b l]; [done|]. cbn.
  by destruct (Z.eqb_spec b 0).
Qed.
Lemma be_bytes_pad n l : bytes_ok l →
  be_bytes (n + length l) (be_val l) = replicate n 0 ++ l.
Proof.
  intros Hl. induction n as [|n IH]; cbn [Nat.add be_bytes replicate app]; [by apply be_bytes_be_val|].
  f_equal; [|done]. rewrite shiftr_byte, Z.div_small; [done|]. pose proof (be_val_bound l Hl).
  unfold len in *. rewrite Nat2Z.inj_add, Z.pow_add_r by lia. pose proof (pow256 n). nia.
Qed.

Lemma to_big_compact_ok w n : bytes_ok (to_big_compact w n).
Proof. apply zeroless_ok, be_bytes_ok. Qed.
Lemma to_big_compact_length w n : len (to_big_compact w n) ≤ Z.of_nat w.
Proof.
  unfold to_big_compact. pose proof (zeroless_length (be_bytes w n)).
  unfold len in *. rewrite be_bytes_length in *. lia.
Qed.
Lemma to_big_compact_val w n : 0 ≤ n < 256 ^ Z.of_nat w → be_val (to_big_compact w n) = n.
Proof. intros Hn. unfold to_big_compact. rewrite zeroless_val, be_val_be_bytes. by apply Z.mod_small. Qed.
Lemma to_big_compact_unique w l : bytes_ok l → compact l → len l ≤ Z.of_nat w →
  to_big_compact w (be_val l) = l.
Proof.
  intros Hl Hc Hw. unfold to_big_compact. replace w with (w - length l + length l)%nat by (unfold len in Hw; lia).
  rewrite be_bytes_pad by done. by apply zeroless_pad.
Qed.

Lemma decode_raw_num_complete w n : 0 ≤ n < 256 ^ Z.of_nat w →
  decode_raw_num w (to_big_compact w n) = inr n.
Proof.
  intros Hn. unfold decode_raw_num. pose proof (to_big_compact_length w n).
  rewrite Z.gtb_ltb, (proj2 (Z.ltb_ge _ _)) by done.
  pose proof (to_big_compact_val w n Hn) as E. pose proof (zeroless_compact (be_bytes w n)) as Hc.
  fold (to_big_compact w n) in Hc. destruct (to_big_compact w n) as [|b l]; [by rewrite <- E|].
  cbn in Hc. rewrite (proj2 (Z.eqb_neq _ _) Hc). by rewrite E.
Qed.
Lemma decode_raw_num_sound w l n : bytes_ok l → decode_raw_num w l = inr n →
  0 ≤ n < 256 ^ Z.of_nat w ∧ l = to_big_compact w n.
Proof.
  intros Hl. unfold decode_raw_num. rewrite Z.gtb_ltb. destruct (Z.ltb_spec (Z.of_nat w) (len l)); [done|].
  assert (∀ m, be_val l = m → compact l → 0 ≤ m < 256 ^ Z.of_nat w ∧ l = to_big_compact w m) as Hgo.
  { intros m <- Hc. split; [|by rewrite to_big_compact_unique]. pose proof (be_val_bound l Hl).
    assert (256 ^ len l ≤ 256 ^ Z.of_nat w) by (apply Z.pow_le_mono_r; lia). lia. }
  destruct l as [|b l]; [intros [= <-]; by apply Hgo|].
  destruct (Z.eqb_spec b 0); [done|]. intros [= <-]. by apply Hgo.
Qed.

(** ** Payloads and lengths *)
Lemma take_len_app (h l : list Z) : take (Z.to_nat (len h)) (h ++ l) = h.
Proof. unfold len. rewrite Nat2Z.id. apply take_app_length. Qed.
Lemma drop_len_app (h l : list Z) : drop (Z.to_nat (len h)) (h ++ l) = l.
Proof. unfold len. rewrite Nat2Z.id. apply drop_app_length. Qed.

Lemma extract_payload_complete keep h p rest : len h + len p < 2 ^ 64 →
  extract_payload keep (len h) (len p) (h ++ p ++ rest) = inr (if keep then h ++ p else p, rest).
Proof.
  intros Hlt. unfold extract_payload, u64. pose proof (len_nonneg h). pose proof (len_nonneg p).
  pose proof (len_nonneg rest). rewrite Z.mod_small by lia. rewrite !len_app.
  rewrite Z.gtb_ltb, (proj2 (Z.ltb_ge _ _)), (proj2 (Z.ltb_ge _ _)) by lia. cbn [orb].
  rewrite <- len_app, (app_assoc h p), take_len_app, drop_len_app, <- app_assoc, drop_len_app, take_len_app.
  done.
Qed.
Lemma extract_payload_sound i n enc p rest : 0 ≤ i < 2 ^ 64 → 0 ≤ n < 2 ^ 64 →
  extract_payload false i n enc = inr (p, rest) →
  ∃ h, enc = h ++ p ++ rest ∧ len h = i ∧ len p = n.
Proof.
  intros Hi Hn. unfold extract_payload, u64. rewrite Z.gtb_ltb.
  destruct (Z.ltb_spec (len enc) ((i + n) mod 2 ^ 64)) as [|H1]; [done|].
  destruct (Z.ltb_spec ((i + n) mod 2 ^ 64) i) as [|H2]; [done|]. cbn [orb].
  assert ((i + n) mod 2 ^ 64 = i + n) as E.
  { apply Z.mod_small. split; [lia|]. destruct (Z.lt_ge_cases (i + n) (2 ^ 64)); [done|]. exfalso.
    rewrite <- (Z.mod_add _ (-1)) in H2 by lia. rewrite Z.mod_small in H2 by lia. lia. }
  rewrite E in *. intros [= <- <-]. exists (take (Z.to_nat i) enc).
  unfold len in *. rewrite !length_take, !length_drop. split_and!; [|lia|lia].
  rewrite <- (take_drop (Z.to_nat i) enc) at 1. f_equal.
  rewrite <- (take_drop (Z.to_nat n) (drop (Z.to_nat i) enc)) at 1. f_equal.
  rewrite drop_drop. f_equal. lia.
Qed.

Lemma to_big_compact_widen w n : (w ≤ 8)%nat → 0 ≤ n < 256 ^ Z.of_nat w →
  to_big_compact 8 n = to_big_compact w n.
Proof.
  intros Hw Hn. rewrite <- (to_big_compact_val w n Hn) at 1. apply to_big_compact_unique.
  - apply to_big_compact_ok.
  - apply zeroless_compact.
  - pose proof (to_big_compact_length w n). lia.
Qed.
Lemma to_big_compact_pos w n : 0 < n < 256 ^ Z.of_nat w → 0 < len (to_big_compact w n).
Proof.
  intros Hn. pose proof (to_big_compact_val w n ltac:(lia)).
  destruct (to_big_compact w n); [cbn in *; lia|]. unfold len. cbn [length]. lia.
Qed.

Lemma long_length_complete base w n tail : (w ≤ 8)%nat → 56 ≤ n < 256 ^ Z.of_nat w → 0 < len tail →
  let ss := to_big_compact w n in
  long_length base ((base + len ss) :: ss ++ tail) = inr (1 + len ss, n).
Proof.
  intros Hw Hn Ht ss. unfold long_length. cbn [head default from_option]. unfold id.
  replace (base + len ss - base) with (len ss) by lia. rewrite len_cons, len_app.
  rewrite Z.geb_leb, (proj2 (Z.leb_gt _ _)) by lia. cbn [drop]. rewrite drop_0, take_len_app.
  unfold decode_length. subst ss.
  rewrite <- (to_big_compact_widen w n) at 1 by lia.
  rewrite decode_raw_num_complete.
  - by rewrite (proj2 (Z.ltb_ge _ _)) by lia.
  - split; [lia|]. assert (256 ^ Z.of_nat w ≤ 256 ^ Z.of_nat 8) by (apply Z.pow_le_mono_r; lia). lia.
Qed.
Lemma long_length_sound base enc i n : bytes_ok enc → base ≤ default 0 (head enc) →
  long_length base enc = inr (i, n) →
  let ss := to_big_compact 8 n in
  ∃ tail, enc = (base + len ss) :: ss ++ tail ∧ i = 1 + len ss ∧ 56 ≤ n < 2 ^ 64.
Proof.
  intros Hok Hb. unfold long_length. rewrite Z.geb_leb.
  destruct enc as [|b enc]; cbn [head default from_option drop] in *; unfold id in *.
  { change (len []) with 0. by rewrite (proj2 (Z.leb_le _ _)) by lia. }
  rewrite drop_0.
  destruct (Z.leb_spec (len (b :: enc)) (1 + (b - base))) as [|Hlt]; [done|]. rewrite len_cons in Hlt.
  destruct (decode_length _) as [e|m] eqn:E; [done|].
  destruct (Z.ltb_spec m 56); [done|]. intros [= <- <-].
  apply Forall_cons_iff in Hok as [_ Hok]. apply decode_raw_num_sound in E as [Hm E]; [|by apply Forall_take].
  exists (drop (Z.to_nat (b - base)) enc). rewrite <- E.
  assert (len (take (Z.to_nat (b - base)) enc) = b - base) as ->.
  { unfold len in *. rewrite length_take. lia. }
  rewrite take_drop. split_and!; [f_equal; lia|lia|lia|]. exact (proj2 Hm).
Qed.

(** ** Strings *)
Lemma parse_string_complete s rest : bytes_ok s → len s < 2 ^ 32 →
  parse_string_metadata (encode_string2 s ++ rest) = inr (s, rest).
Proof.
  intros Hs Hl. pose proof (len_nonneg s). pose proof (len_nonneg rest).
  unfold encode_string2, u32. rewrite Z.mod_small by lia.
  destruct (Z.eqb_spec (len s) 1) as [E1|E1]; cbn [andb].
  - destruct s as [|b [|? ?]]; try (exfalso; unfold len in E1; cbn [length] in E1; lia).
    apply Forall_cons_iff in Hs as [[Hb1 Hb2] _]. cbn [head default from_option]. unfold id.
    destruct (Z.leb_spec b 0x7f).
    + cbn [app parse_string_metadata]. rewrite Z.geb_leb, (proj2 (Z.leb_gt _ _)) by lia.
      unfold detail_parse, string_header. cbn [head default from_option]. unfold id.
      rewrite (proj2 (Z.ltb_lt _ _)) by lia.
      by apply (extract_payload_complete false [] [b] rest).
    + rewrite E1. cbn [app]. unfold parse_string_metadata, detail_parse, string_header.
      cbn [head default from_option Z.geb Z.compare Z.gtb Z.ltb Z.sub Z.eqb lookup list_lookup].
      change (0x80 + 1) with 129. cbn. rewrite !len_cons.
      rewrite (proj2 (Z.ltb_ge _ _)) by lia. unfold id. rewrite (proj2 (Z.ltb_ge b _)) by lia.
      by apply (extract_payload_complete false [129] [b] rest).
  - rewrite Z.gtb_ltb. destruct (Z.ltb_spec 55 (len s)) as [H55|H55].
    + pose proof (to_big_compact_length 4 (len s)).
      pose proof (to_big_compact_pos 4 (len s) ltac:(change (256 ^ Z.of_nat 4) with (2 ^ 32); lia)).
      cbn [app]. rewrite <- app_assoc. unfold parse_string_metadata.
      rewrite Z.geb_leb, (proj2 (Z.leb_gt _ _)) by lia.
      unfold detail_parse, string_header. cbn [head default from_option]. unfold id.
      rewrite (proj2 (Z.ltb_ge _ _)), (proj2 (Z.ltb_ge _ _)) by lia.
      rewrite (long_length_complete 0xb7 4 (len s));
        [|lia|change (256 ^ Z.of_nat 4) with (2 ^ 32); lia|rewrite len_app; lia].
      rewrite <- len_cons with (b := 0xb7 + len (to_big_compact 4 (len s))).
      rewrite app_comm_cons. apply (extract_payload_complete false). rewrite len_cons. lia.
    + cbn [app]. unfold parse_string_metadata. rewrite Z.geb_leb, (proj2 (Z.leb_gt _ _)) by lia.
      unfold detail_parse, string_header. cbn [head default from_option]. unfold id.
      rewrite (proj2 (Z.ltb_ge _ _)), (proj2 (Z.ltb_lt _ _)) by lia.
      replace (0x80 + len s - 0x80) with (len s) by lia.
      rewrite (proj2 (Z.eqb_neq _ _)) by lia.
      apply (extract_payload_complete false [0x80 + len s]). unfold len at 1. cbn [length]. lia.
Qed.
Lemma bytes_head_app b h p rest : bytes_ok (b :: h ++ p ++ rest) → bytes_ok p ∧ bytes_ok rest.
Proof. rewrite Forall_cons_iff, !Forall_app. tauto. Qed.

Lemma parse_string_sound enc s rest : bytes_ok enc → len enc < 2 ^ 32 →
  parse_string_metadata enc = inr (s, rest) → enc = encode_string2 s ++ rest.
Proof.
  intros Hok Hl. destruct enc as [|b enc]; [done|]. unfold parse_string_metadata. rewrite Z.geb_leb.
  destruct (Z.leb_spec 0xc0 b); [done|]. pose proof (Forall_inv Hok) as [Hb1 Hb2].
  unfold detail_parse, string_header. cbn [head default from_option]. unfold id.
  destruct (Z.ltb_spec b 0x80) as [H80|H80].
  { intros E. apply extract_payload_sound in E as (h & E & Hh & Hs); [|lia|lia].
    destruct h; [|unfold len in Hh; cbn [length] in Hh; lia].
    destruct s as [|x [|? ?]]; try (exfalso; unfold len in Hs; cbn [length] in Hs; lia).
    injection E as -> ->. unfold encode_string2. rewrite Hs. cbn [u32 head default from_option].
    unfold u32. rewrite Z.mod_small by lia. unfold id. by rewrite (proj2 (Z.leb_le x _)) by lia. }
  destruct (Z.ltb_spec b 0xb8) as [Hb8|Hb8].
  - assert (∀ e, (if b - 0x80 =? 1 then
        (if len (b :: enc) <? 2 then inl InputTooShort
         else if default 0 ((b :: enc) !! 1%nat) <? 128 then inl TypeUnexpected else inr (1, b - 0x80))
        else inr (1, b - 0x80)) = inr e →
        e = (1, b - 0x80) ∧ (b - 0x80 = 1 → 128 ≤ default 0 (enc !! 0%nat))) as Hcase.
    { intros e. destruct (Z.eqb_spec (b - 0x80) 1); [|intros [= <-]; by split; [|lia]].
      destruct (len (b :: enc) <? 2); [done|].
      destruct (_ <? 128) eqn:Hd; [done|]. apply Z.ltb_ge in Hd. by intros [= <-]. }
    destruct (if b - 0x80 =? 1 then _ else _) as [e|e]; [done|].
    destruct (Hcase e eq_refl) as [-> H1]. clear Hcase. intros E.
    apply extract_payload_sound in E as (h & E & Hh & Hs); [|lia|lia].
    destruct h as [|x [|? ?]]; try (exfalso; unfold len in Hh; cbn [length] in Hh; lia).
    injection E as -> ->. unfold encode_string2, u32. rewrite Hs, Z.mod_small by lia.
    rewrite Z.gtb_ltb, (proj2 (Z.ltb_ge 55 _)) by lia.
    replace (0x80 + (x - 0x80)) with x by lia.
    destruct (Z.eqb_spec (x - 0x80) 1) as [E1|]; [|done]. specialize (H1 E1). cbn [andb].
    destruct s as [|y ?]; [exfalso; unfold len in Hs; cbn [length] in Hs; lia|].
    cbn in H1. cbn [head default from_option]. unfold id in *. by rewrite (proj2 (Z.leb_gt _ _)) by lia.
  - destruct (long_length 0xb7 (b :: enc)) as [e|[i n]] eqn:E; [done|].
    apply long_length_sound in E as (tail & E & -> & Hn); [|done|cbn; unfold id; lia].
    pose proof (to_big_compact_length 8 n). pose proof (len_nonneg (to_big_compact 8 n)).
    intros Ex. apply extract_payload_sound in Ex as (h & Ex & Hh & Hs); [|lia|lia].
    rewrite E in Ex.
    assert (h = (0xb7 + len (to_big_compact 8 n)) :: to_big_compact 8 n ∧ tail = s ++ rest) as [-> ->].
    { rewrite app_comm_cons in Ex. apply app_inj_1 in Ex as [-> ->]; [done|].
      unfold len in *. cbn [length]. lia. }
    rewrite E in Hl |- *. rewrite len_cons, !len_app in Hl. pose proof (len_nonneg rest).
    unfold encode_string2, u32. rewrite Hs, Z.mod_small by lia.
    rewrite (proj2 (Z.eqb_neq n 1)), Z.gtb_ltb, (proj2 (Z.ltb_lt 55 n)) by lia. cbn [andb].
    rewrite (to_big_compact_widen 4 n) by (change (256 ^ Z.of_nat 4) with (2 ^ 32); lia).
    cbn [app]. by rewrite app_assoc.
Qed.

(** ** Lists *)
Lemma encode_list2_concat args : encode_list2 args = encode_list2 [concat args].
Proof. unfold encode_list2. cbn [concat]. by rewrite app_nil_r. Qed.

Lemma parse_list_complete args rest : len (concat args) < 2 ^ 64 - 9 →
  parse_list_metadata (encode_list2 args ++ rest) = inr (concat args, rest).
Proof.
  intros Hl. pose proof (len_nonneg (concat args)). unfold encode_list2. rewrite Z.gtb_ltb.
  destruct (Z.ltb_spec 55 (len (concat args))) as [H55|H55].
  - pose proof (to_big_compact_length 8 (len (concat args))).
    pose proof (to_big_compact_pos 8 (len (concat args)) ltac:(change (256 ^ Z.of_nat 8) with (2 ^ 64); lia)).
    cbn [app]. rewrite <- app_assoc. unfold parse_list_metadata.
    rewrite (proj2 (Z.ltb_ge _ _)) by lia. unfold detail_parse, list_header.
    cbn [head default from_option]. unfold id. rewrite (proj2 (Z.ltb_ge _ _)) by lia.
    rewrite (long_length_complete 0xf7 8);
      [|lia|change (256 ^ Z.of_nat 8) with (2 ^ 64); lia|pose proof (len_nonneg rest); rewrite len_app; lia].
    rewrite <- len_cons with (b := 0xf7 + len (to_big_compact 8 (len (concat args)))).
    rewrite app_comm_cons. apply (extract_payload_complete false). rewrite len_cons. lia.
  - cbn [app]. unfold parse_list_metadata. rewrite (proj2 (Z.ltb_ge _ _)) by lia.
    unfold detail_parse, list_header. cbn [head default from_option]. unfold id.
    rewrite (proj2 (Z.ltb_lt _ _)) by lia. replace (0xc0 + len (concat args) - 0xc0) with (len (concat args)) by lia.
    apply (extract_payload_complete false [0xc0 + len (concat args)]). unfold len at 1. cbn [length]. lia.
Qed.

Lemma parse_list_sound enc p rest : bytes_ok enc →
  parse_list_metadata enc = inr (p, rest) → enc = encode_list2 [p] ++ rest.
Proof.
  intros Hok. destruct enc as [|b enc]; [done|]. unfold parse_list_metadata.
  destruct (Z.ltb_spec b 0xc0); [done|]. pose proof (Forall_inv Hok) as [Hb1 Hb2].
  unfold detail_parse, list_header. cbn [head default from_option]. unfold id.
  unfold encode_list2. cbn [concat]. rewrite app_nil_r.
  destruct (Z.ltb_spec b 0xf8) as [Hf8|Hf8].
  - intros E. apply extract_payload_sound in E as (h & E & Hh & Hs); [|lia|lia].
    destruct h as [|x [|? ?]]; try (exfalso; unfold len in Hh; cbn [length] in Hh; lia).
    injection E as -> ->. rewrite Hs, Z.gtb_ltb, (proj2 (Z.ltb_ge 55 _)) by lia.
    by replace (0xc0 + (x - 0xc0)) with x by lia.
  - destruct (long_length 0xf7 (b :: enc)) as [e|[i n]] eqn:E; [done|].
    apply long_length_sound in E as (tail & E & -> & Hn); [|done|cbn; unfold id; lia].
    pose proof (to_big_compact_length 8 n). pose proof (len_nonneg (to_big_compact 8 n)).
    intros Ex. apply extract_payload_sound in Ex as (h & Ex & Hh & Hs); [|lia|lia].
    rewrite E in Ex.
    assert (h = (0xf7 + len (to_big_compact 8 n)) :: to_big_compact 8 n ∧ tail = p ++ rest) as [-> ->].
    { rewrite app_comm_cons in Ex. apply app_inj_1 in Ex as [-> ->]; [done|].
      unfold len in *. cbn [length]. lia. }
    rewrite E, Hs, Z.gtb_ltb, (proj2 (Z.ltb_lt 55 n)) by lia. cbn [app]. by rewrite app_assoc.
Qed.

(** ** Codecs: the interface of the composite encodings *)
Class Codec {A} (ok : A → Prop) (enc : A → list Z) (dec : tdecoder A) : Prop := {
  codec_complete a rest : ok a → dec (enc a ++ rest) = Ok (inr (a, rest));
  codec_sound e a rest : bytes_ok e → len e < 2 ^ 32 → dec e = Ok (inr (a, rest)) →
    ok a ∧ e = enc a ++ rest;
  codec_bytes a : ok a → bytes_ok (enc a);
  codec_nonempty a : ok a → 0 < len (enc a);
  codec_total e : bytes_ok e → len e < 2 ^ 32 → ∃ r, dec e = Ok r
}.

Definition string_ok (s : list Z) : Prop := bytes_ok s ∧ len s < 2 ^ 32.
Definition uint_ok (width : nat) (n : Z) : Prop := 0 ≤ n < 256 ^ Z.of_nat width.

Lemma encode_string2_bytes s : bytes_ok s → bytes_ok (encode_string2 s).
Proof.
  intros Hs. unfold encode_string2. destruct (_ && _); [done|].
  pose proof (to_big_compact_length 4 (u32 (len s))). pose proof (len_nonneg (to_big_compact 4 (u32 (len s)))).
  rewrite Z.gtb_ltb. destruct (Z.ltb_spec 55 (u32 (len s))).
  - constructor; [split; lia|]. apply Forall_app. split; [apply to_big_compact_ok|done].
  - constructor; [|done]. assert (0 ≤ u32 (len s)) by (apply Z.mod_pos_bound; lia). split; lia.
Qed.
Lemma encode_string2_nonempty s : 0 < len (encode_string2 s).
Proof.
  unfold encode_string2. destruct (Z.eqb_spec (u32 (len s)) 1) as [E|].
  - destruct s; [done|]. destruct (_ && _); [|destruct (_ >? _)]; rewrite len_cons; unfold len; lia.
  - cbn [andb]. destruct (_ >? _); rewrite len_cons; unfold len; lia.
Qed.
Lemma string_sound enc s rest : bytes_ok enc → len enc < 2 ^ 32 →
  parse_string_metadata enc = inr (s, rest) → string_ok s ∧ enc = encode_string2 s ++ rest.
Proof.
  intros Hok Hl E. pose proof (parse_string_sound _ _ _ Hok Hl E) as ->. split; [|done].
  assert (∃ h, encode_string2 s = h ++ s) as [h Eh].
  { unfold encode_string2. destruct (_ && _); [by exists []|]. destruct (_ >? _); [|by exists [0x80 + u32 (len s)]].
    eexists (_ :: _). cbn [app]. reflexivity. }
  rewrite Eh, <- app_assoc in Hok. rewrite Eh, !len_app in Hl. apply Forall_app in Hok as [_ Hok].
  apply Forall_app in Hok as [Hok _]. pose proof (len_nonneg h). pose proof (len_nonneg rest). split; [done|lia].
Qed.

#[global] Instance string_codec : Codec string_ok encode_string2 (lift decode_string).
Proof.
  split.
  - intros s rest [Hs Hl]. unfold lift, decode_string. by rewrite parse_string_complete.
  - intros e s rest He Hl [= E]. by apply string_sound.
  - intros s [Hs _]. by apply encode_string2_bytes.
  - intros s _. apply encode_string2_nonempty.
  - eauto.
Qed.

(** A scalar is a string with a bijection to its values. *)
Lemma scalar_codec {A} (ok : A → Prop) (f : A → list Z) (d : decoder A) (k : list Z → result A) :
  (∀ e, d e = match parse_string_metadata e with
              | inl x => inl x
              | inr (s, r) => match k s with inl x => inl x | inr a => inr (a, r) end
              end) →
  (∀ a, ok a → string_ok (f a) ∧ k (f a) = inr a) →
  (∀ s a, string_ok s → k s = inr a → ok a ∧ s = f a) →
  Codec ok (λ a, encode_string2 (f a)) (lift d).
Proof.
  intros Hd Hf Hk. split.
  - intros a rest Ha. destruct (Hf a Ha) as [[Hs Hl] E]. unfold lift. rewrite Hd, parse_string_complete by done.
    by rewrite E.
  - intros e a rest He Hl [= E]. rewrite Hd in E.
    destruct (parse_string_metadata e) as [|[s r]] eqn:Ep; [done|].
    destruct (k s) as [|a'] eqn:Ek; [done|]. injection E as <- <-.
    destruct (string_sound _ _ _ He Hl Ep) as [Hs ->]. by destruct (Hk s a' Hs Ek) as [? ->].
  - intros a Ha. by apply encode_string2_bytes, Hf.
  - intros a _. apply encode_string2_nonempty.
  - unfold lift. eauto.
Qed.

Lemma unsigned_codec w : Z.of_nat w < 2 ^ 32 →
  Codec (uint_ok w) (encode_unsigned w) (lift (decode_unsigned w)).
Proof.
  intros Hw. apply (scalar_codec _ (to_big_compact w) _ (decode_raw_num w)).
  - intros e. unfold decode_unsigned, mbind, decoder_bind, dlift. by destruct (parse_string_metadata e) as [|[]].
  - intros n Hn. split; [split; [apply to_big_compact_ok|]|by apply decode_raw_num_complete].
    pose proof (to_big_compact_length w n). lia.
  - intros s n [Hs _] E. by apply decode_raw_num_sound.
Qed.
#[global] Instance uint8_codec : Codec (uint_ok 1) (encode_unsigned 1) (lift (decode_unsigned 1)).
Proof. apply unsigned_codec. lia. Qed.
#[global] Instance uint64_codec : Codec (uint_ok 8) (encode_unsigned 8) (lift (decode_unsigned 8)).
Proof. apply unsigned_codec. lia. Qed.
#[global] Instance uint256_codec : Codec (uint_ok 32) (encode_unsigned 32) (lift (decode_unsigned 32)).
Proof. apply unsigned_codec. lia. Qed.

(** Fixed-size arrays. *)
Lemma fixed_string_codec n : Z.of_nat n < 2 ^ 32 →
  Codec (λ s, bytes_ok s ∧ len s = Z.of_nat n) encode_string2 (lift (decode_byte_string_fixed n)).
Proof.
  intros Hn. apply (scalar_codec _ id _
    (λ s, if negb (len s =? Z.of_nat n) then inl ArrayLengthUnexpected else inr s)).
  - intros e. unfold decode_byte_string_fixed, mbind, decoder_bind, reject.
    destruct (parse_string_metadata e) as [|[s r]]; [done|]. by destruct (len s =? Z.of_nat n).
  - intros s [Hs E]. unfold id. rewrite E, Z.eqb_refl. split; [split; [done|lia]|done].
  - intros s a [Hs Hl]. destruct (Z.eqb_spec (len s) (Z.of_nat n)); [|done]. by intros [= <-].
Qed.
Lemma fixed_codec n d : Z.of_nat n < 2 ^ 32 →
  (d = (b ← decode_byte_string_fixed n; mret (be_val b))) →
  Codec (uint_ok n) (λ a, encode_string2 (be_bytes n a)) (lift d).
Proof.
  intros Hn ->. apply (scalar_codec _ (be_bytes n) _
    (λ s, if negb (len s =? Z.of_nat n) then inl ArrayLengthUnexpected else inr (be_val s))).
  - intros e. unfold decode_byte_string_fixed, mbind, decoder_bind, reject.
    destruct (parse_string_metadata e) as [|[s r]]; [done|]. by destruct (len s =? Z.of_nat n).
  - intros a Ha. unfold len. rewrite be_bytes_length, Z.eqb_refl. split.
    + split; [apply be_bytes_ok|]. unfold len. rewrite be_bytes_length. done.
    + cbn [negb]. rewrite be_val_be_bytes, Z.mod_small by apply Ha. done.
  - intros s a [Hs Hl]. destruct (Z.eqb_spec (len s) (Z.of_nat n)) as [E|]; [|done]. intros [= <-].
    pose proof (be_val_bound s Hs). unfold uint_ok. rewrite <- E. split; [done|].
    replace n with (length s) by (unfold len in E; lia). by rewrite be_bytes_be_val.
Qed.
#[global] Instance address_codec : Codec (uint_ok 20) (λ a, encode_address (Some a)) (lift decode_address).
Proof. apply fixed_codec; [lia|done]. Qed.
#[global] Instance bytes32_codec : Codec (uint_ok 32) encode_bytes32 (lift decode_bytes32).
Proof. apply fixed_codec; [lia|done]. Qed.
#[global] Instance optional_address_codec :
  Codec (λ o, ∀ a, o = Some a → uint_ok 20 a) encode_address (lift decode_optional_address).
Proof.
  assert (∀ o, encode_address o = encode_string2 (match o with Some a => be_bytes 20 a | None => [] end)) as Eo
    by (by intros [a|]).
  pose proof (scalar_codec (λ o, ∀ a, o = Some a → uint_ok 20 a)
    (λ o, match o with Some a => be_bytes 20 a | None => [] end) decode_optional_address
    (λ s, if len s =? 20 then inr (Some (be_val s)) else if len s >? 20 then inl InputTooLong
          else if negb (len s =? 0) then inl InputTooShort else inr None)) as Hc.
  destruct Hc as [C1 C2 C3 C4 C5].
  - intros e. unfold decode_optional_address, mbind, decoder_bind.
    destruct (parse_string_metadata e) as [|[s r]]; [done|].
    destruct (len s =? 20); [done|]. destruct (len s >? 20); [done|]. by destruct (len s =? 0).
  - intros [a|] Ha; [|by split].
    unfold len. rewrite be_bytes_length. split; [split; [apply be_bytes_ok|unfold len; by rewrite be_bytes_length]|].
    change (Z.of_nat 20 =? 20) with true. cbv iota. rewrite be_val_be_bytes, Z.mod_small; [done|by apply Ha].
  - intros s o [Hs Hl]. destruct (Z.eqb_spec (len s) 20) as [E|].
    + intros [= <-]. split.
      * intros a [= <-]. pose proof (be_val_bound s Hs). by rewrite E in *.
      * replace 20%nat with (length s) by (unfold len in E; lia). by rewrite be_bytes_be_val.
    + destruct (len s >? 20); [done|]. destruct (Z.eqb_spec (len s) 0) as [E0|]; [|done]. intros [= <-].
      split; [done|]. destruct s; [done|]. unfold len in E0. cbn [length] in E0. lia.
  - split; [intros a rest Ha; rewrite Eo; by apply C1|intros e a rest; rewrite Eo; by apply C2
      |intros a Ha; rewrite Eo; by apply C3|intros a Ha; rewrite Eo; by apply C4|unfold lift; eauto].
Qed.

(** A decoder of a whole view. *)
Class Payload {A} (ok : A → Prop) (enc : A → list Z) (body : tdecoder A) : Prop := {
  payload_complete a : ok a → ∃ r, body (enc a) = Ok (inr (a, r));
  payload_sound e a r : bytes_ok e → len e < 2 ^ 32 → body e = Ok (inr (a, r)) → ok a ∧ e = enc a;
  payload_bytes a : ok a → bytes_ok (enc a);
  payload_total e : bytes_ok e → len e < 2 ^ 32 → ∃ r, body e = Ok r
}.

Definition list_ok {A} (ok : A → Prop) (enc : A → list Z) (a : A) : Prop := ok a ∧ len (enc a) < 2 ^ 32.

Lemma encode_list2_one p : ∃ h, encode_list2 [p] = h ++ p ∧ bytes_ok h.
Proof.
  unfold encode_list2. cbn [concat]. rewrite app_nil_r. pose proof (len_nonneg p).
  pose proof (to_big_compact_length 8 (len p)). pose proof (len_nonneg (to_big_compact 8 (len p))).
  rewrite Z.gtb_ltb. destruct (Z.ltb_spec 55 (len p)).
  - exists ((0xf7 + len (to_big_compact 8 (len p))) :: to_big_compact 8 (len p)). split; [done|].
    constructor; [split; lia|apply to_big_compact_ok].
  - exists [0xc0 + len p]. split; [done|]. constructor; [split; lia|done].
Qed.
Lemma list_sound e p rest : bytes_ok e → len e < 2 ^ 32 → parse_list_metadata e = inr (p, rest) →
  bytes_ok p ∧ len p < 2 ^ 32 ∧ e = encode_list2 [p] ++ rest.
Proof.
  intros He Hl E. pose proof (parse_list_sound _ _ _ He E) as ->.
  destruct (encode_list2_one p) as (h & Eh & _). rewrite Eh in He, Hl. rewrite !len_app in Hl.
  apply Forall_app in He as [He _]. apply Forall_app in He as [_ He].
  pose proof (len_nonneg h). pose proof (len_nonneg rest). split_and!; [done|lia|done].
Qed.

Lemma in_list_codec {A} (ok : A → Prop) enc body : Payload ok enc body →
  Codec (list_ok ok enc) (λ a, encode_list2 [enc a]) (in_list body).
Proof.
  intros P. split.
  - intros a rest [Ha Hl]. destruct (payload_complete a Ha) as [r Hr].
    unfold in_list, mbind, tdecoder_bind, lift. rewrite parse_list_complete; cbn [concat]; rewrite app_nil_r; [|lia].
    unfold on_view. by rewrite Hr.
  - intros e a rest He Hl E. unfold in_list, mbind, tdecoder_bind, lift in E.
    destruct (parse_list_metadata e) as [|[p r]] eqn:Ep; [done|].
    destruct (list_sound _ _ _ He Hl Ep) as (Hp & Hlp & ->).
    unfold on_view in E. destruct (body p) as [[|[a' r']]| |] eqn:Eb; try done. injection E as -> ->.
    by destruct (payload_sound p a r' Hp Hlp Eb) as [Ha ->].
  - intros a [Ha Hl]. destruct (encode_list2_one (enc a)) as (h & -> & Hh).
    apply Forall_app. split; [done|by apply payload_bytes].
  - intros a _. unfold encode_list2. destruct (_ >? _); rewrite len_cons; unfold len; lia.
  - intros e He Hl. unfold in_list, mbind, tdecoder_bind, lift.
    destruct (parse_list_metadata e) as [|[p r]] eqn:Ep; [eauto|].
    destruct (list_sound _ _ _ He Hl Ep) as (Hp & Hlp & ->).
    unfold on_view. destruct (payload_total p Hp Hlp) as [[|[]] ->]; eauto.
Qed.

(** Sequences fill the view. *)
Definition encode_all {A} (enc : A → list Z) (l : list A) : list Z := concat (map enc l).

Section sequences.
Context {A : Type} (ok : A → Prop) (enc : A → list Z) (dec : tdecoder A) `{C : !Codec ok enc dec}.

Lemma decode_while_complete l : Forall ok l → ∀ fuel, (length l ≤ fuel)%nat →
  decode_while fuel dec (encode_all enc l) = Ok (inr (l, [])).
Proof.
  induction 1 as [|a l Ha Hl IH]; intros fuel Hf; [by destruct fuel|].
  destruct fuel as [|fuel]; [cbn [length] in Hf; lia|]. unfold encode_all in *. cbn [map concat decode_while].
  pose proof (codec_nonempty a Ha). rewrite len_app. pose proof (len_nonneg (concat (map enc l))).
  rewrite (proj2 (Z.eqb_neq _ _)) by lia. unfold mbind, tdecoder_bind.
  rewrite codec_complete by done. rewrite IH by (cbn [length] in Hf; lia). done.
Qed.
Lemma decode_while_sound fuel e l r : bytes_ok e → len e < 2 ^ 32 →
  decode_while fuel dec e = Ok (inr (l, r)) → Forall ok l ∧ e = encode_all enc l.
Proof.
  revert e l r. induction fuel as [|fuel IH]; intros e l r He Hl; cbn [decode_while];
    (destruct (Z.eqb_spec (len e) 0) as [E0|E0];
     [intros [= <- <-]; destruct e; [done|unfold len in E0; cbn [length] in E0; lia]|]); [done|].
  unfold mbind, tdecoder_bind. destruct (dec e) as [[|[a e']]| |] eqn:Ed; try done.
  destruct (codec_sound _ _ _ He Hl Ed) as [Ha ->]. apply Forall_app in He as [_ He].
  rewrite len_app in Hl. pose proof (len_nonneg (enc a)).
  destruct (decode_while fuel dec e') as [[|[l' r']]| |] eqn:Ew; try done. intros [= <- <-].
  destruct (IH e' l' r' He ltac:(lia) Ew) as [Hl' ->]. split; [by constructor|done].
Qed.
Lemma decode_while_total fuel e : bytes_ok e → len e < 2 ^ 32 → (length e ≤ fuel)%nat →
  ∃ r, decode_while fuel dec e = Ok r.
Proof.
  revert e. induction fuel as [|fuel IH]; intros e He Hl Hf; cbn [decode_while];
    (destruct (Z.eqb_spec (len e) 0) as [E0|E0]; [eauto|]); [unfold len in E0; lia|].
  unfold mbind, tdecoder_bind. destruct (codec_total e He Hl) as [[x|[a e']] Ed]; rewrite Ed; [eauto|].
  destruct (codec_sound _ _ _ He Hl Ed) as [Ha ->]. apply Forall_app in He as [_ He].
  rewrite len_app in Hl. pose proof (codec_nonempty a Ha). rewrite length_app in Hf.
  destruct (IH e' He ltac:(lia) ltac:(unfold len in *; lia)) as [[|[]] ->]; eauto.
Qed.
Lemma encode_all_length l : Forall ok l → (length l ≤ length (encode_all enc l))%nat.
Proof.
  unfold encode_all. induction 1 as [|a l Ha _ IH]; cbn [map concat length]; [lia|]. rewrite length_app.
  pose proof (codec_nonempty a Ha). unfold len in *. lia.
Qed.
Lemma encode_all_bytes l : Forall ok l → bytes_ok (encode_all enc l).
Proof.
  unfold encode_all. induction 1 as [|a l Ha _ IH]; cbn [map concat]; [constructor|].
  apply Forall_app. split; [by apply codec_bytes|done].
Qed.
#[global] Instance decode_all_payload : Payload (Forall ok) (encode_all enc) (decode_all dec).
Proof.
  split.
  - intros l Hl. exists []. unfold decode_all, mbind, tdecoder_bind, view. apply decode_while_complete; [done|].
    by apply encode_all_length.
  - intros e l r He Hl. by apply decode_while_sound.
  - apply encode_all_bytes.
  - intros e He Hl. by apply decode_while_total.
Qed.
End sequences.
