(* ===== verification/Transaction.v ===== *)
(** * Transactions: data, gas and static validation

    The types of src/category/execution/ethereum/core/{transaction,signature,block}.hpp,
    the gas formulas of transaction_gas.cpp and static_validate_transaction of
    validate_transaction.cpp.  256-bit quantities are integers below 2^256
    (Uint256Theorems.v), 64-bit ones are truncated by [u64] where they can
    wrap. *)
From S2P Require Import Prelude Words Traits CheckedMath.

(** ** Data *)
Inductive TransactionType := legacy | eip2930 | eip1559 | eip4844 | eip7702 | LAST.
#[global] Instance TransactionType_eq_dec : EqDecision TransactionType.
Proof. solve_decision. Defined.

Record Secp256k1Signature := mkSignature { sig_r : Z; sig_s : Z; y_parity : Z }.
Record SignatureAndChain := mkSignatureAndChain {
  signature : Secp256k1Signature;
  chain_id : option Z
}.
Record AccessEntry := mkAccessEntry { ae_a : Z; ae_keys : list Z }.
Record AuthorizationEntry := mkAuthorizationEntry {
  auth_sc : SignatureAndChain;
  auth_address : Z;
  auth_nonce : Z
}.
Record Transaction := mkTransaction {
  tx_sc : SignatureAndChain;
  tx_nonce : Z;
  max_fee_per_gas : Z;
  tx_gas_limit : Z;
  tx_value : Z;
  tx_to : option Z;
  tx_type : TransactionType;
  tx_data : list Z;
  access_list : list AccessEntry;
  max_priority_fee_per_gas : Z;
  max_fee_per_blob_gas : Z;
  blob_versioned_hashes : list Z;
  authorization_list : list AuthorizationEntry
}.

Record BlobSchedule := mkBlobSchedule {
  target_blobs_per_block : Z;
  max_blobs_per_block : Z;
  blob_base_fee_update_fraction : Z
}.
Definition CANCUN_BLOB_SCHEDULE := mkBlobSchedule 3 6 3338477.
Definition MONAD_BLOB_SCHEDULE := mkBlobSchedule 0 0 (blob_base_fee_update_fraction CANCUN_BLOB_SCHEDULE).
Definition PRAGUE_BLOB_SCHEDULE := mkBlobSchedule 6 9 5007716.
Definition BPO1_BLOB_SCHEDULE := mkBlobSchedule 10 15 8346193.
Definition BPO2_BLOB_SCHEDULE := mkBlobSchedule 14 21 11684671.
Definition default_blob_schedule (t : Traits) : BlobSchedule :=
  if eip_7691_active t then PRAGUE_BLOB_SCHEDULE else CANCUN_BLOB_SCHEDULE.

(** Hashes are 256-bit numbers; [logs_bloom], the 8-byte nonce and
    [extra_data] are byte strings. *)
Record BlockHeader := mkBlockHeader {
  logs_bloom : list Z;
  parent_hash : Z;
  ommers_hash : Z;
  state_root : Z;
  transactions_root : Z;
  receipts_root : Z;
  prev_randao : Z;
  difficulty : Z;
  hdr_number : Z;
  hdr_gas_limit : Z;
  hdr_gas_used : Z;
  hdr_timestamp : Z;
  hdr_nonce : list Z;
  extra_data : list Z;
  beneficiary : Z;
  base_fee_per_gas : option Z;
  withdrawals_root : option Z;
  blob_gas_used : option Z;
  excess_blob_gas : option Z;
  parent_beacon_block_root : option Z;
  requests_hash : option Z;
  slot_number : option Z
}.

(** ** Errors *)
Inductive TransactionError :=
| InsufficientBalance | IntrinsicGasGreaterThanLimit | BadNonce | SenderNotEoa
| TypeNotSupported | MaxFeeLessThanBase | PriorityFeeGreaterThanMax | NonceExceedsMax
| InitCodeLimitExceeded | GasLimitReached | WrongChainId | MissingSender | GasLimitOverflow
| InvalidSignature | InvalidBlobHash | EmptyAuthorizationList.
#[global] Instance TransactionError_eq_dec : EqDecision TransactionError.
Proof. solve_decision. Defined.

(** ** Signatures *)
Definition secp256k1_order : Z :=
  0xfffffffffffffffffffffffffffffffebaaedce6af48a03bbfd25e8cd0364141.
Definition secp256k1_order_half : Z := secp256k1_order / 2.
Definition has_valid_range (s : Secp256k1Signature) : bool :=
  (0 <? sig_r s) && (0 <? sig_s s) && (sig_r s <? secp256k1_order) && (sig_s s <? secp256k1_order).
Definition has_upper_s (s : Secp256k1Signature) : bool := secp256k1_order_half <? sig_s s.
Definition sig_is_valid (s : Secp256k1Signature) : bool :=
  has_valid_range s && negb (has_upper_s s) && (y_parity s <=? 1).

Definition with_parity (y : Z) (sc : SignatureAndChain) : SignatureAndChain :=
  mkSignatureAndChain (mkSignature (sig_r (signature sc)) (sig_s (signature sc)) y) (chain_id sc).
Definition with_chain (c : Z) (sc : SignatureAndChain) : SignatureAndChain :=
  mkSignatureAndChain (signature sc) (Some c).

Definition from_v (v : Z) (sc : SignatureAndChain) : SignatureAndChain :=
  if v =? 28 then with_parity 1 sc
  else if v =? 27 then with_parity 0 sc
  else
    let tmp := u256 (v - 35) in
    if negb (Z.land tmp 1 =? 0) then with_chain (Z.shiftr (Z.lxor tmp 1) 1) (with_parity 1 sc)
    else with_chain (Z.shiftr tmp 1) sc.

Definition max_chain_id : Z := (U256_MAX - 36) / 2.
Definition get_v (sc : SignatureAndChain) : outcome Z :=
  match chain_id sc with
  | Some c =>
      if c <=? max_chain_id then Ok (u256 (u256 (c * 2) + 35 + y_parity (signature sc)))
      else Throw "get_v: chain_id out of bounds"
  | None => Ok (if y_parity (signature sc) =? 0 then 27 else 28)
  end.

(** ** Gas *)
Definition size {A} (l : list A) : Z := Z.of_nat (length l).

Definition g_txn_create (tx : Transaction) : Z :=
  match tx_to tx with None => 32000 | Some _ => 0 end.

(** [for (auto const &i : tx.access_list) g += i.keys.size() * c;] *)
Definition add_keys (c : Z) (l : list AccessEntry) (g : Z) : Z :=
  fold_left (λ g i, u64 (g + u64 (size (ae_keys i) * c))) l g.
Definition g_access_and_storage (tx : Transaction) : Z :=
  add_keys 1900 (access_list tx) (u64 (size (access_list tx) * 2400)).
Definition g_access_list_data (tx : Transaction) : Z :=
  u64 (add_keys 32 (access_list tx) (u64 (size (access_list tx) * 20)) * 40).
Definition g_authorization (tx : Transaction) : Z := u64 (25000 * size (authorization_list tx)).
Definition g_extra_cost_init (tx : Transaction) : Z :=
  match tx_to tx with
  | None => u64 (u64 (size (tx_data tx) + 31) / 32 * 2)
  | Some _ => 0
  end.

Definition tokens_in_calldata (tx : Transaction) : Z * Z :=
  let zeros := size (filter (λ c, c = 0) (tx_data tx)) in
  (zeros, u64 (size (tx_data tx) - zeros)).
Definition g_data (tx : Transaction) : Z :=
  let '(zeros, nonzeros) := tokens_in_calldata tx in
  u64 (u64 (zeros * 4) + u64 (nonzeros * 16)).

Definition intrinsic_gas (t : Traits) (tx : Transaction) : Z :=
  let gas := u64 (21000 + g_data tx + g_txn_create tx + g_access_and_storage tx) in
  let gas := if evm_rev t >=? MONAD_ETH_SHANGHAI then u64 (gas + g_extra_cost_init tx) else gas in
  let gas := if evm_rev t >=? MONAD_ETH_PRAGUE then u64 (gas + g_authorization tx) else gas in
  if eip_7981_active t then u64 (gas + g_access_list_data tx) else gas.

Definition floor_data_gas (t : Traits) (tx : Transaction) : Z :=
  let '(zeros, nonzeros) := tokens_in_calldata tx in
  let gas := u64 (21000 + u64 (u64 (zeros * 10) + u64 (nonzeros * 40))) in
  if eip_7981_active t then u64 (gas + g_access_list_data tx) else gas.

Definition priority_fee_per_gas (tx : Transaction) (base_fee : Z) : outcome Z :=
  _ ← oassert (base_fee <=? max_fee_per_gas tx);
  let max_priority := u256 (max_fee_per_gas tx - base_fee) in
  mret (match tx_type tx with
        | eip1559 | eip4844 | eip7702 => Z.min (max_priority_fee_per_gas tx) max_priority
        | _ => max_priority
        end).

Definition gas_price (t : Traits) (tx : Transaction) (base_fee : Z) : outcome Z :=
  if evm_rev t <? MONAD_ETH_LONDON then mret (max_fee_per_gas tx)
  else p ← priority_fee_per_gas tx base_fee; mret (u256 (p + base_fee)).

Definition g_star (t : Traits) (tx : Transaction) (gas_remaining refund : Z) : Z :=
  let max_refund_quotient := if evm_rev t >=? MONAD_ETH_LONDON then 5 else 2 in
  let refund_allowance := u64 (tx_gas_limit tx - gas_remaining) / max_refund_quotient in
  u64 (gas_remaining + Z.min refund_allowance refund).

(** transaction_gas.cpp for Ethereum, monad_transaction_gas.cpp for Monad *)
Definition compute_gas_refund (t : Traits) (tx : Transaction) (gas_remaining refund : Z) : Z :=
  match t with
  | EvmTraits _ => g_star t tx gas_remaining refund
  | MonadTraits rev => if rev >=? MONAD_ONE then 0 else g_star t tx gas_remaining refund
  end.

Definition calculate_txn_award (t : Traits) (tx : Transaction) (base_fee gas_used : Z) : outcome Z :=
  if evm_rev t <? MONAD_ETH_LONDON then p ← gas_price t tx base_fee; mret (u256 (gas_used * p))
  else p ← priority_fee_per_gas tx base_fee; mret (u256 (gas_used * p)).

Definition max_gas_cost (gas_limit fee : Z) : MathError + Z := checked_mul gas_limit fee.

(** ** Blob gas *)
Definition GAS_PER_BLOB : Z := 131072.
Definition BLOB_BASE_COST : Z := 8192.
Definition get_total_blob_gas (tx : Transaction) : Z := u64 (GAS_PER_BLOB * size (blob_versioned_hashes tx)).
Definition max_blob_gas_per_block (b : BlobSchedule) : Z := u64 (max_blobs_per_block b * GAS_PER_BLOB).
Definition target_blob_gas_per_block (b : BlobSchedule) : Z := u64 (target_blobs_per_block b * GAS_PER_BLOB).

(** The [while (acc > 0)] loop of [fake_exponential]: one iteration from
    [i], [output] and [acc], or the output when the loop ends.  A division by
    zero fails the assertion of [udivrem]; [++i] beyond an [int] is undefined. *)
Definition fake_exponential_step (n d : Z) (s : Z * Z * Z) : outcome (Z + Z * Z * Z) :=
  let '(i, output, acc) := s in
  if acc <=? 0 then mret (inl output)
  else
    let output := u256 (output + acc) in
    _ ← oassert (negb (u256 (d * i) =? 0));
    let acc := u256 (acc * n) / u256 (d * i) in
    _ ← oassert (i + 1 <? 2 ^ 31);
    mret (inr (i + 1, output, acc)).
(** up to 2^[k] iterations *)
Fixpoint fake_exponential_loop (k : nat) (n d : Z) (s : Z * Z * Z) : outcome (Z + Z * Z * Z) :=
  match k with
  | O => fake_exponential_step n d s
  | S k =>
      r ← fake_exponential_loop k n d s;
      match r with inl output => mret (inl output) | inr s => fake_exponential_loop k n d s end
  end.
(** 2^31 iterations are more than [i] can count. *)
Definition fake_exponential (factor n d : Z) : outcome Z :=
  r ← fake_exponential_loop 31 n d (1, 0, u256 (factor * d));
  match r with
  | inl output => _ ← oassert (negb (d =? 0)); mret (output / d)
  | inr _ => Abort
  end.
Definition get_base_fee_per_blob_gas (excess : Z) (b : BlobSchedule) : outcome Z :=
  fake_exponential 1 excess (blob_base_fee_update_fraction b).
Definition calc_blob_fee (tx : Transaction) (excess : Z) (b : BlobSchedule) : outcome Z :=
  fee ← get_base_fee_per_blob_gas excess b; mret (u256 (fee * get_total_blob_gas tx)).

Definition calc_excess_blob_gas (t : Traits) (parent : BlockHeader) (b : BlobSchedule) : outcome Z :=
  let excess := default 0 (excess_blob_gas parent) in
  let used := default 0 (blob_gas_used parent) in
  let total_blob_gas := u64 (excess + used) in
  let target_blob_gas := target_blob_gas_per_block b in
  if total_blob_gas <? target_blob_gas then mret 0
  else
    let simple := u64 (total_blob_gas - target_blob_gas) in
    if eip_7918_active t then
      fee ← get_base_fee_per_blob_gas excess b;
      let threshold := checked_mul (GAS_PER_BLOB / BLOB_BASE_COST) fee in
      match threshold with
      | inr threshold =>
          if default 0 (base_fee_per_gas parent) >? threshold then
            _ ← oassert (negb (max_blobs_per_block b =? 0));
            mret (u64 (excess + u64 (used * u64 (max_blobs_per_block b - target_blobs_per_block b))
                                / max_blobs_per_block b))
          else mret simple
      | inl _ => mret simple
      end
    else mret simple.

(** ** Static validation *)
Definition type_supported (t : Traits) (ty : TransactionType) : bool :=
  if evm_rev t <? MONAD_ETH_LONDON then
    bool_decide (ty = legacy) || bool_decide (ty = eip2930)
  else if evm_rev t <? MONAD_ETH_CANCUN then
    bool_decide (ty = legacy) || bool_decide (ty = eip2930) || bool_decide (ty = eip1559)
  else if evm_rev t <? MONAD_ETH_PRAGUE then
    bool_decide (ty = legacy) || bool_decide (ty = eip2930) || bool_decide (ty = eip1559)
    || bool_decide (ty = eip4844)
  else
    bool_decide (ty = legacy) || bool_decide (ty = eip2930) || bool_decide (ty = eip1559)
    || bool_decide (ty = eip4844) || bool_decide (ty = eip7702).

(** [if (MONAD_UNLIKELY(b)) return e;] *)
Definition reject_if (b : bool) (e : TransactionError)
    (k : outcome (option TransactionError)) : outcome (option TransactionError) :=
  if b then mret (Some e) else k.

(** The checks on blob transactions. *)
Definition validate_blobs (tx : Transaction) (excess : option Z) (blob_schedule : BlobSchedule)
    : outcome (option TransactionError) :=
  reject_if (bool_decide (blob_versioned_hashes tx = [])) InvalidBlobHash (
  reject_if (existsb (λ h, negb (Z.shiftr h 248 =? 1)) (blob_versioned_hashes tx)) InvalidBlobHash (
  fee ← get_base_fee_per_blob_gas (default 0 excess) blob_schedule;
  reject_if (max_fee_per_blob_gas tx <? fee) GasLimitOverflow (mret None))).

(** [static_validate_transaction]: [None] is success. *)
Definition static_validate_transaction (t : Traits) (tx : Transaction) (base_fee : option Z)
    (excess : option Z) (chain : Z) (blob_schedule : BlobSchedule)
    : outcome (option TransactionError) :=
  reject_if (match chain_id (tx_sc tx) with Some c => negb (c =? chain) | None => false end) WrongChainId (
  reject_if (negb (eip_4844_active t) && bool_decide (tx_type tx = eip4844)) TypeNotSupported (
  reject_if (negb (type_supported t (tx_type tx))) TypeNotSupported (
  reject_if (max_fee_per_gas tx <? default 0 base_fee) MaxFeeLessThanBase (
  reject_if (max_priority_fee_per_gas tx >? max_fee_per_gas tx) PriorityFeeGreaterThanMax (
  reject_if ((evm_rev t >=? MONAD_ETH_SHANGHAI) && negb (bool_decide (is_Some (tx_to tx)))
             && (size (tx_data tx) >? 2 * max_code_size t)) InitCodeLimitExceeded (
  reject_if (intrinsic_gas t tx >? tx_gas_limit tx) IntrinsicGasGreaterThanLimit (
  reject_if ((evm_rev t >=? MONAD_ETH_PRAGUE) && (floor_data_gas t tx >? tx_gas_limit tx))
    IntrinsicGasGreaterThanLimit (
  reject_if ((evm_rev t >=? MONAD_ETH_PRAGUE) && bool_decide (tx_type tx = eip7702)
             && bool_decide (authorization_list tx = [])) EmptyAuthorizationList (
  reject_if (tx_nonce tx >=? U64_MAX) NonceExceedsMax (
  reject_if (match max_gas_cost (tx_gas_limit tx) (max_fee_per_gas tx) with inl _ => true | inr _ => false end)
    GasLimitOverflow (
  reject_if (negb (sig_is_valid (signature (tx_sc tx)))) InvalidSignature (
  if (evm_rev t >=? MONAD_ETH_CANCUN) && bool_decide (tx_type tx = eip4844)
  then validate_blobs tx excess blob_schedule
  else mret None)))))))))))).
