(* ===== verification/TransactionFacts.v ===== *)
(** * Facts about transactions

    Theorems on the definitions of Transaction.v: signature values, intrinsic
    gas, fees and refunds, the blob base fee, and what a transaction that
    passes static validation guarantees to the rest of the execution. *)
From S2P Require Import Prelude Words Traits CheckedMath Transaction.

(** the field types of [Transaction] *)
Record tx_wf (tx : Transaction) : Prop := {
  wf_nonce : 0 ≤ tx_nonce tx < 2 ^ 64;
  wf_max_fee : 0 ≤ max_fee_per_gas tx < 2 ^ 256;
  wf_gas_limit : 0 ≤ tx_gas_limit tx < 2 ^ 64;
  wf_value : 0 ≤ tx_value tx < 2 ^ 256;
  wf_priority : 0 ≤ max_priority_fee_per_gas tx < 2 ^ 256;
  wf_blob_fee : 0 ≤ max_fee_per_blob_gas tx < 2 ^ 256
}.

(** ** Signature values *)
Lemma land_1 z : Z.land z 1 = z mod 2.
Proof. change 1 with (Z.ones 1). by rewrite Z.land_ones. Qed.
Lemma odd_clear z : z mod 2 = 1 → Z.shiftr (Z.lxor z 1) 1 = z / 2.
Proof.
  intros Hz. rewrite Z.shiftr_lxor. change (Z.shiftr 1 1) with 0.
  by rewrite Z.lxor_0_r, Z.shiftr_div_pow2 by lia.
Qed.

Lemma from_v_chain v sc : 35 ≤ v < 2 ^ 256 → y_parity (signature sc) = 0 →
  from_v v sc = with_chain ((v - 35) / 2) (with_parity ((v - 35) mod 2) sc).
Proof.
  intros Hv Hy. unfold from_v. rewrite (proj2 (Z.eqb_neq v 28)), (proj2 (Z.eqb_neq v 27)) by lia.
  assert (u256 (v - 35) = v - 35) as -> by (apply Z.mod_small; lia). rewrite land_1.
  pose proof (Z.mod_pos_bound (v - 35) 2 ltac:(lia)).
  destruct (Z.eqb_spec ((v - 35) mod 2) 0) as [E|E]; cbn [negb].
  - rewrite Z.shiftr_div_pow2, E by lia. destruct sc as [[] ]. simpl in Hy. by subst.
  - assert ((v - 35) mod 2 = 1) as E1 by lia. by rewrite odd_clear, E1.
Qed.

Lemma from_v_get_v sc0 sc v : y_parity (signature sc0) = 0 → chain_id sc0 = None →
  0 ≤ y_parity (signature sc) ≤ 1 → (∀ c, chain_id sc = Some c → 0 ≤ c) → get_v sc = Ok v →
  0 ≤ v < 2 ^ 256 ∧ y_parity (signature (from_v v sc0)) = y_parity (signature sc) ∧
  chain_id (from_v v sc0) = chain_id sc.
Proof.
  intros Hy0 Hc0 Hy Hc Hv. unfold get_v in Hv. destruct (chain_id sc) as [c|] eqn:Ec.
  - destruct (Z.leb_spec c max_chain_id) as [Hle|]; [|discriminate Hv]. injection Hv as <-.
    specialize (Hc c eq_refl). unfold max_chain_id, U256_MAX in Hle.
    pose proof (Z.div_mod (2 ^ 256 - 1 - 36) 2 ltac:(lia)).
    pose proof (Z.mod_pos_bound (2 ^ 256 - 1 - 36) 2 ltac:(lia)).
    set (y := y_parity (signature sc)) in *.
    assert (u256 (u256 (c * 2) + 35 + y) = c * 2 + 35 + y) as ->.
    { unfold u256. rewrite (Z.mod_small (c * 2)) by lia. apply Z.mod_small. lia. }
    split; [lia|]. rewrite from_v_chain; [|lia|exact Hy0]. cbn [y_parity signature chain_id with_chain with_parity].
    replace (c * 2 + 35 + y - 35) with (y + c * 2) by lia.
    rewrite Z.div_add, Z.mod_add, Z.div_small, Z.mod_small by lia. split; reflexivity.
  - destruct (Z.eqb_spec (y_parity (signature sc)) 0) as [E|E]; injection Hv as <-; (split; [lia|]); cbn.
    + rewrite E. done.
    + split; [lia|done].
Qed.
(** the values that stand for no chain id are decoded to one out of bounds *)
Lemma get_v_from_v sc0 v : y_parity (signature sc0) = 0 → chain_id sc0 = None → 0 ≤ v < 2 ^ 256 →
  get_v (from_v v sc0) =
    if (v =? 27) || (v =? 28) || ((35 <=? v) && (v <? U256_MAX)) then Ok v
    else Throw "get_v: chain_id out of bounds".
Proof.
  intros Hy0 Hc0 Hv.
  destruct (Z.eqb_spec v 27) as [->|H27]; [destruct sc0 as [[? ? ?] ?]; simpl in *; by subst|].
  destruct (Z.eqb_spec v 28) as [->|H28]; [destruct sc0 as [[? ? ?] ?]; simpl in *; by subst|].
  cbn [orb]. unfold U256_MAX. destruct (Z.leb_spec 35 v) as [H35|H35].
  - rewrite from_v_chain; [|lia|exact Hy0]. unfold get_v. cbn [chain_id with_chain signature].
    cbn [y_parity signature with_chain with_parity andb].
    pose proof (Z.div_mod (v - 35) 2 ltac:(lia)). pose proof (Z.mod_pos_bound (v - 35) 2 ltac:(lia)).
    pose proof (Z.div_mod (2 ^ 256 - 1 - 36) 2 ltac:(lia)).
    pose proof (Z.mod_pos_bound (2 ^ 256 - 1 - 36) 2 ltac:(lia)).
    unfold max_chain_id, U256_MAX. destruct (Z.ltb_spec v (2 ^ 256 - 1)).
    + rewrite (proj2 (Z.leb_le _ _)) by lia. f_equal. unfold u256.
      rewrite (Z.mod_small ((v - 35) / 2 * 2)) by lia. rewrite Z.mod_small; lia.
    + by rewrite (proj2 (Z.leb_gt _ _)) by lia.
  - cbn [andb]. unfold from_v. rewrite (proj2 (Z.eqb_neq v 28)), (proj2 (Z.eqb_neq v 27)) by lia.
    assert (u256 (v - 35) = v - 35 + 2 ^ 256) as ->.
    { unfold u256. rewrite <- (Z.mod_add _ 1) by lia. apply Z.mod_small. lia. }
    set (t := v - 35 + 2 ^ 256). assert (max_chain_id < t / 2) as Hbig.
    { unfold t, max_chain_id, U256_MAX. pose proof (Z.div_mod (v - 35 + 2 ^ 256) 2 ltac:(lia)).
      pose proof (Z.mod_pos_bound (v - 35 + 2 ^ 256) 2 ltac:(lia)).
      pose proof (Z.div_mod (2 ^ 256 - 1 - 36) 2 ltac:(lia)).
      pose proof (Z.mod_pos_bound (2 ^ 256 - 1 - 36) 2 ltac:(lia)). lia. }
    rewrite land_1. pose proof (Z.mod_pos_bound t 2 ltac:(lia)).
    unfold get_v. destruct (Z.eqb_spec (t mod 2) 0); cbn [negb chain_id with_chain with_parity].
    + rewrite Z.shiftr_div_pow2 by lia. change (2 ^ 1) with 2. by rewrite (proj2 (Z.leb_gt _ _)) by lia.
    + rewrite odd_clear by lia. by rewrite (proj2 (Z.leb_gt _ _)) by lia.
Qed.

(** The signature value and the pair of chain id and parity determine
    each other: decoding what [get_v] encodes gives the chain id and the
    parity back, and encoding what [from_v] decodes gives [v] back for 27, 28
    and every EIP-155 value below the maximum, and throws for every other. *)
Theorem signature_v_round_trip :
  (∀ sc0 sc v, y_parity (signature sc0) = 0 → chain_id sc0 = None →
     0 ≤ y_parity (signature sc) ≤ 1 → (∀ c, chain_id sc = Some c → 0 ≤ c) →
     get_v sc = Ok v →
     y_parity (signature (from_v v sc0)) = y_parity (signature sc) ∧
     chain_id (from_v v sc0) = chain_id sc) ∧
  (∀ sc0 v, y_parity (signature sc0) = 0 → chain_id sc0 = None → 0 ≤ v < 2 ^ 256 →
     get_v (from_v v sc0) =
       if (v =? 27) || (v =? 28) || ((35 <=? v) && (v <? U256_MAX)) then Ok v
       else Throw "get_v: chain_id out of bounds").
Proof.
  split; [|exact get_v_from_v]. intros sc0 sc v H1 H2 H3 H4 H5.
  by destruct (from_v_get_v sc0 sc v H1 H2 H3 H4 H5) as (_ & ? & ?).
Qed.

Definition sc_default : SignatureAndChain := mkSignatureAndChain (mkSignature 5 6 0) None.
Lemma signature_v_round_trip_witness : get_v (from_v 20143 sc_default) = Ok 20143.
Proof.
  destruct signature_v_round_trip as [_ H]. apply (H sc_default 20143); [reflexivity|reflexivity|].
  split; [discriminate|reflexivity].
Defined.

(** ** Intrinsic gas without wrap-around *)
Definition total_keys (l : list AccessEntry) : Z := fold_right (λ e z, size (ae_keys e) + z) 0 l.
(** a transaction of at most 2^40 bytes, entries and keys *)
Record tx_small (tx : Transaction) : Prop := {
  small_data : size (tx_data tx) ≤ 2 ^ 40;
  small_entries : size (access_list tx) ≤ 2 ^ 40;
  small_keys : total_keys (access_list tx) ≤ 2 ^ 40;
  small_auths : size (authorization_list tx) ≤ 2 ^ 40
}.
Lemma size_nonneg {A} (l : list A) : 0 ≤ size l.
Proof. unfold size. lia. Qed.
Lemma u64_small z : 0 ≤ z < 2 ^ 64 → u64 z = z.
Proof. apply Z.mod_small. Qed.
(** removes the truncations whose argument is in range, innermost first *)
Ltac no_wrap :=
  repeat match goal with
  | |- context [u64 ?z] =>
      lazymatch z with context [u64 _] => fail | _ => rewrite (u64_small z) by lia end
  end.
Lemma total_keys_nonneg l : 0 ≤ total_keys l.
Proof.
  unfold total_keys. induction l as [|e l IH]; cbn [fold_right]; [lia|].
  pose proof (size_nonneg (ae_keys e)). lia.
Qed.

Lemma add_keys_exact c l : 0 ≤ c ≤ 2 ^ 11 → ∀ g, 0 ≤ g → g + c * total_keys l < 2 ^ 64 →
  add_keys c l g = g + c * total_keys l.
Proof.
  intros Hc. unfold add_keys. induction l as [|e l IH]; intros g Hg Hlt; cbn [fold_left]; [unfold total_keys; cbn [fold_right]; lia|].
  cbn [total_keys fold_right] in *. fold (total_keys l) in *.
  pose proof (size_nonneg (ae_keys e)). pose proof (total_keys_nonneg l).
  rewrite (u64_small (size (ae_keys e) * c)), (u64_small (g + _)) by nia. rewrite IH by nia. lia.
Qed.

(** the sums of the Yellow Paper and the EIPs *)
Definition calldata_zeros (tx : Transaction) : Z := size (filter (λ c, c = 0) (tx_data tx)).
Definition calldata_nonzeros (tx : Transaction) : Z := size (tx_data tx) - calldata_zeros tx.
Definition intrinsic_gas_sum (t : Traits) (tx : Transaction) : Z :=
  21000 + 4 * calldata_zeros tx + 16 * calldata_nonzeros tx
  + (if tx_to tx then 0 else 32000)
  + 2400 * size (access_list tx) + 1900 * total_keys (access_list tx)
  + (if evm_rev t >=? MONAD_ETH_SHANGHAI then
       if tx_to tx then 0 else 2 * ((size (tx_data tx) + 31) / 32) else 0)
  + (if evm_rev t >=? MONAD_ETH_PRAGUE then 25000 * size (authorization_list tx) else 0)
  + (if eip_7981_active t then 40 * (20 * size (access_list tx) + 32 * total_keys (access_list tx)) else 0).
Definition floor_gas_sum (t : Traits) (tx : Transaction) : Z :=
  21000 + 10 * calldata_zeros tx + 40 * calldata_nonzeros tx
  + (if eip_7981_active t then 40 * (20 * size (access_list tx) + 32 * total_keys (access_list tx)) else 0).

Lemma calldata_bounds tx : 0 ≤ calldata_zeros tx ∧ 0 ≤ calldata_nonzeros tx.
Proof.
  unfold calldata_nonzeros, calldata_zeros, size. pose proof (length_filter (λ c, c = 0) (tx_data tx)). lia.
Qed.

(** For transactions of any realistic size no 64-bit sum of the gas
    formulas wraps: intrinsic gas and floor gas are exactly the sums the
    Yellow Paper, EIP-2028, 2930, 3860, 7623, 7702 and 7981 define. *)
Theorem intrinsic_gas_exact t tx : tx_small tx →
  intrinsic_gas t tx = intrinsic_gas_sum t tx ∧ floor_data_gas t tx = floor_gas_sum t tx.
Proof.
  intros [Hd He Hk Ha]. pose proof (calldata_bounds tx) as [Hz Hnz].
  pose proof (size_nonneg (tx_data tx)). pose proof (size_nonneg (access_list tx)).
  pose proof (size_nonneg (authorization_list tx)). pose proof (total_keys_nonneg (access_list tx)).
  assert (tokens_in_calldata tx = (calldata_zeros tx, calldata_nonzeros tx)) as Et.
  { unfold tokens_in_calldata. fold (calldata_zeros tx). f_equal. apply u64_small. unfold calldata_nonzeros in *. lia. }
  assert (calldata_zeros tx + calldata_nonzeros tx ≤ 2 ^ 40) by (unfold calldata_nonzeros; lia).
  assert (g_access_and_storage tx = 2400 * size (access_list tx) + 1900 * total_keys (access_list tx)) as Eas.
  { unfold g_access_and_storage. rewrite (u64_small (_ * 2400)), add_keys_exact by lia. lia. }
  assert (g_access_list_data tx = 40 * (20 * size (access_list tx) + 32 * total_keys (access_list tx))) as Eal.
  { unfold g_access_list_data. rewrite (u64_small (_ * 20)), add_keys_exact, u64_small by lia. lia. }
  assert (g_authorization tx = 25000 * size (authorization_list tx)) as Eau by (apply u64_small; lia).
  assert (g_extra_cost_init tx = if tx_to tx then 0 else 2 * ((size (tx_data tx) + 31) / 32)) as Eex.
  { unfold g_extra_cost_init. destruct (tx_to tx); [done|].
    pose proof (Z.div_pos (size (tx_data tx) + 31) 32 ltac:(lia) ltac:(lia)).
    pose proof (Z.div_le_upper_bound (size (tx_data tx) + 31) 32 (2 ^ 40) ltac:(lia) ltac:(lia)).
    rewrite (u64_small (size _ + 31)), u64_small by lia. lia. }
  assert (0 ≤ (if tx_to tx then 0 else 2 * ((size (tx_data tx) + 31) / 32)) ≤ 2 ^ 42) as Hex.
  { destruct (tx_to tx); [lia|].
    pose proof (Z.div_pos (size (tx_data tx) + 31) 32 ltac:(lia) ltac:(lia)).
    pose proof (Z.div_le_upper_bound (size (tx_data tx) + 31) 32 (2 ^ 40) ltac:(lia) ltac:(lia)). lia. }
  assert (0 ≤ (if tx_to tx then 0 else 32000) ≤ 32000) as Hcr by (destruct (tx_to tx); lia).
  split.
  - unfold intrinsic_gas, intrinsic_gas_sum, g_data, g_txn_create. rewrite Et, Eas, Eal, Eau, Eex.
    replace (match tx_to tx with Some _ => 0 | None => 32000 end) with (if tx_to tx then 0 else 32000) by (by destruct (tx_to tx)).
    set (ex := if tx_to tx then 0 else 2 * _) in *. set (cr := if tx_to tx then 0 else 32000) in *.
    rewrite (u64_small (calldata_zeros tx * 4)), (u64_small (calldata_nonzeros tx * 16)),
      (u64_small (calldata_zeros tx * 4 + calldata_nonzeros tx * 16)) by lia.
    destruct (evm_rev t >=? MONAD_ETH_SHANGHAI), (evm_rev t >=? MONAD_ETH_PRAGUE), (eip_7981_active t);
      no_wrap; lia.
  - unfold floor_data_gas, floor_gas_sum. rewrite Et, Eal.
    rewrite (u64_small (calldata_zeros tx * 10)), (u64_small (calldata_nonzeros tx * 40)),
      (u64_small (calldata_zeros tx * 10 + calldata_nonzeros tx * 40)) by lia.
    destruct (eip_7981_active t); no_wrap; lia.
Qed.

(** a call without data and without an access list *)
Definition ex_tx : Transaction :=
  mkTransaction (mkSignatureAndChain (mkSignature 5 6 1) (Some 143)) 7 (100 * 10 ^ 9) 90000 (10 ^ 18) (Some 77)
    eip1559 [1; 0; 2] [mkAccessEntry 5 [1; 2]] (2 * 10 ^ 9) 0 [] [].
Lemma ex_tx_wf : tx_wf ex_tx.
Proof. by split. Qed.

Lemma intrinsic_gas_exact_witness :
  intrinsic_gas (MonadTraits MONAD_NINE) ex_tx = 27236 ∧
  intrinsic_gas (MonadTraits MONAD_NINE) ex_tx = intrinsic_gas_sum (MonadTraits MONAD_NINE) ex_tx.
Proof.
  split; [reflexivity|]. apply (intrinsic_gas_exact (MonadTraits MONAD_NINE) ex_tx).
  split; vm_compute; discriminate.
Defined.

(** ** Fees *)
Lemma priority_fee_spec tx base : tx_wf tx → 0 ≤ base ≤ max_fee_per_gas tx →
  ∃ p, priority_fee_per_gas tx base = Ok p ∧ 0 ≤ p ≤ max_fee_per_gas tx - base ∧
    (tx_type tx ∈ [eip1559; eip4844; eip7702] → p ≤ max_priority_fee_per_gas tx).
Proof.
  intros Hwf Hb. pose proof (wf_max_fee tx Hwf). pose proof (wf_priority tx Hwf).
  unfold priority_fee_per_gas. rewrite (proj2 (Z.leb_le _ _)) by lia. cbn [oassert]. ostep.
  unfold u256. rewrite Z.mod_small by lia. eexists. split; [done|].
  destruct (tx_type tx); (split; [lia|]); intros Hin; rewrite ?elem_of_cons, ?elem_of_nil in Hin; try lia;
    naive_solver.
Qed.

Lemma gas_price_spec t tx base : tx_wf tx → 0 ≤ base ≤ max_fee_per_gas tx →
  ∃ price, gas_price t tx base = Ok price ∧ 0 ≤ price ≤ max_fee_per_gas tx ∧
    (MONAD_ETH_LONDON ≤ evm_rev t → base ≤ price ∧ priority_fee_per_gas tx base = Ok (price - base)).
Proof.
  intros Hwf Hb. pose proof (wf_max_fee tx Hwf). unfold gas_price.
  destruct (Z.ltb_spec (evm_rev t) MONAD_ETH_LONDON).
  - eexists. split_and!; [done|lia|lia|lia].
  - destruct (priority_fee_spec tx base Hwf Hb) as (p & Ep & Hp & _). rewrite Ep. ostep.
    eexists. split; [done|]. unfold u256. rewrite Z.mod_small by lia.
    split; [lia|]. intros _. split; [lia|]. f_equal. lia.
Qed.

Lemma reject_if_None b e k : reject_if b e k = Ok None → b = false ∧ k = Ok None.
Proof. unfold reject_if. destruct b; [done|]. done. Qed.

Lemma reject_if_iff b e k : reject_if b e k = Ok None ↔ b = false ∧ k = Ok None.
Proof. split; [apply reject_if_None|]. by intros [-> ->]. Qed.

(** The revision introduced the type of the transaction. *)
Definition introduced (t : Traits) (ty : TransactionType) : Prop :=
  match ty with
  | legacy | eip2930 => True
  | eip1559 => MONAD_ETH_LONDON ≤ evm_rev t
  | eip4844 => MONAD_ETH_CANCUN ≤ evm_rev t
  | eip7702 => MONAD_ETH_PRAGUE ≤ evm_rev t
  | _ => False
  end.
Lemma type_supported_spec t ty : type_supported t ty = true ↔ introduced t ty.
Proof.
  unfold type_supported. destruct (Z.ltb_spec (evm_rev t) MONAD_ETH_LONDON),
    (Z.ltb_spec (evm_rev t) MONAD_ETH_CANCUN), (Z.ltb_spec (evm_rev t) MONAD_ETH_PRAGUE), ty; cbn;
    unfold MONAD_ETH_LONDON, MONAD_ETH_CANCUN, MONAD_ETH_PRAGUE in *; split; intros; first [done|lia].
Qed.

(** What the rules of the chain ask of a transaction, whatever the state. *)
Record statically_valid (t : Traits) (tx : Transaction) (base excess : option Z) (chain : Z)
    (blobs : BlobSchedule) : Prop := {
  sv_chain : ∀ c, chain_id (tx_sc tx) = Some c → c = chain;
  sv_type : introduced t (tx_type tx) ∧ (tx_type tx = eip4844 → eip_4844_active t = true);
  sv_base_fee : default 0 base ≤ max_fee_per_gas tx;
  sv_priority_fee : max_priority_fee_per_gas tx ≤ max_fee_per_gas tx;
  sv_init_code : MONAD_ETH_SHANGHAI ≤ evm_rev t → tx_to tx = None → size (tx_data tx) ≤ 2 * max_code_size t;
  sv_intrinsic : intrinsic_gas t tx ≤ tx_gas_limit tx;
  sv_floor : MONAD_ETH_PRAGUE ≤ evm_rev t → floor_data_gas t tx ≤ tx_gas_limit tx;
  sv_authorizations : tx_type tx = eip7702 → authorization_list tx ≠ [];
  sv_nonce : tx_nonce tx + 1 < 2 ^ 64;
  sv_gas_fee : tx_gas_limit tx * max_fee_per_gas tx < 2 ^ 256;
  sv_signature : sig_is_valid (signature (tx_sc tx)) = true;
  sv_blobs : tx_type tx = eip4844 →
    blob_versioned_hashes tx ≠ [] ∧ Forall (λ h, Z.shiftr h 248 = 1) (blob_versioned_hashes tx) ∧
    ∃ fee, get_base_fee_per_blob_gas (default 0 excess) blobs = Ok fee ∧ fee ≤ max_fee_per_blob_gas tx;
}.

Lemma validate_blobs_spec tx excess blobs : validate_blobs tx excess blobs = Ok None ↔
  blob_versioned_hashes tx ≠ [] ∧ Forall (λ h, Z.shiftr h 248 = 1) (blob_versioned_hashes tx) ∧
  ∃ fee, get_base_fee_per_blob_gas (default 0 excess) blobs = Ok fee ∧ fee ≤ max_fee_per_blob_gas tx.
Proof.
  unfold validate_blobs. rewrite !reject_if_iff, bool_decide_eq_false. f_equiv.
  assert (existsb (λ h, negb (Z.shiftr h 248 =? 1)) (blob_versioned_hashes tx) = false ↔
    Forall (λ h, Z.shiftr h 248 = 1) (blob_versioned_hashes tx)) as ->.
  { induction (blob_versioned_hashes tx) as [|h l IH]; cbn; [done|].
    rewrite orb_false_iff, negb_false_iff, Z.eqb_eq, Forall_cons_iff. by rewrite IH. }
  f_equiv. destruct (get_base_fee_per_blob_gas (default 0 excess) blobs) as [fee|e|]; cbn;
    [|by split; [|intros (? & ? & _)]..].
  change (outcome_bind _ _) with (reject_if (max_fee_per_blob_gas tx <? fee) GasLimitOverflow (mret None)).
  rewrite reject_if_iff, Z.ltb_ge. naive_solver.
Qed.

Lemma chain_allowed (o : option Z) chain :
  match o with Some c => negb (c =? chain) | None => false end = false ↔ ∀ c, o = Some c → c = chain.
Proof. destruct o as [c|]; [rewrite negb_false_iff, Z.eqb_eq|]; naive_solver. Qed.
Lemma max_gas_cost_fits limit fee :
  match max_gas_cost limit fee with inl _ => true | inr _ => false end = false ↔ limit * fee < 2 ^ 256.
Proof.
  unfold max_gas_cost, checked_mul, U256_MAX.
  destruct (Z.leb_spec (limit * fee) (2 ^ 256 - 1)); split; intros; first [done|lia].
Qed.

Lemma static_validation_spec t tx base excess chain blobs :
  static_validate_transaction t tx base excess chain blobs = Ok None ↔
  statically_valid t tx base excess chain blobs.
Proof.
  assert (∀ P Q : bool, P && Q = false ↔ (P = true → Q = false)) as Hand by by intros [] []; naive_solver.
  unfold static_validate_transaction. rewrite !reject_if_iff.
  rewrite !Hand. setoid_rewrite Z.gtb_ltb. setoid_rewrite Z.geb_leb. setoid_rewrite andb_true_iff.
  setoid_rewrite negb_false_iff. setoid_rewrite negb_true_iff. setoid_rewrite bool_decide_eq_true.
  setoid_rewrite bool_decide_eq_false. setoid_rewrite Z.ltb_ge. setoid_rewrite Z.leb_le.
  setoid_rewrite type_supported_spec. rewrite Z.leb_gt.
  rewrite chain_allowed, <-eq_None_not_Some, max_gas_cost_fits.
  split.
  - intros (? & Hb & Hty & ? & ? & Hi & ? & ? & Ha & ? & ? & ? & Hv). split; try done.
    + split; [done|]. intros Ety. destruct (eip_4844_active t) eqn:E; [done|]. by destruct Hb.
    + intros. by apply Hi.
    + intros Ety. apply Ha. split; [|done]. by rewrite Ety in Hty.
    + unfold U64_MAX in *. lia.
    + intros Ety. rewrite Ety in Hty. apply validate_blobs_spec.
      by rewrite (proj2 (Z.leb_le _ _) Hty), bool_decide_true in Hv.
  - intros [? [Hty Hb] ? ? ? ? ? ? Hn ? ? Hv]. split_and!; try done.
    + intros E Ety. rewrite (Hb Ety) in E. done.
    + intros [? ?]. auto.
    + intros [? ?]. auto.
    + unfold U64_MAX. lia.
    + destruct (decide (tx_type tx = eip4844)) as [Ety|Ety]; [|by rewrite bool_decide_false, andb_false_r].
      rewrite bool_decide_true, andb_true_r by done. rewrite Ety in Hty. cbn in Hty.
      rewrite (proj2 (Z.leb_le _ _) Hty). by apply validate_blobs_spec, Hv.
Qed.

(** C35: Static validation accepts a transaction exactly when the rules of the
    chain that do not depend on the state hold of it: chain id, a type the
    revision knows, a fee cap above the base fee and the priority fee, the size
    of the init code, a gas limit above the intrinsic gas and the calldata
    floor, an authorization list that is not empty, a nonce that can be
    incremented, a signature in range, blob hashes of version one and a blob
    fee cap above the blob base fee, and a gas limit times fee cap within 256
    bits.  The price of an accepted transaction then lies between the base fee
    and its cap and its gas fee does not overflow. *)
Theorem static_validation_sound t tx base excess chain blobs :
  tx_wf tx → (∀ b, base = Some b → 0 ≤ b) →
  (static_validate_transaction t tx base excess chain blobs = Ok None ↔
   statically_valid t tx base excess chain blobs) ∧
  (static_validate_transaction t tx base excess chain blobs = Ok None →
   ∃ price, gas_price t tx (default 0 base) = Ok price ∧ 0 ≤ price ≤ max_fee_per_gas tx ∧
     (MONAD_ETH_LONDON ≤ evm_rev t → default 0 base ≤ price) ∧
     tx_gas_limit tx * price ≤ U256_MAX).
Proof.
  intros Hwf Hbase. split; [apply static_validation_spec|]. intros Hv. apply static_validation_spec in Hv.
  pose proof (wf_gas_limit tx Hwf). pose proof (sv_base_fee _ _ _ _ _ _ Hv). pose proof (sv_gas_fee _ _ _ _ _ _ Hv).
  assert (0 ≤ default 0 base) by (destruct base as [b|]; cbn; [by apply Hbase|lia]).
  destruct (gas_price_spec t tx (default 0 base)) as (price & Ep & Hp & Hl); [done|lia|].
  exists price. split_and!; [done|lia|lia|intros; by apply Hl|]. unfold U256_MAX. nia.
Qed.

(** a transaction that is accepted on its chain, and on no other *)
Lemma static_validation_sound_witness :
  statically_valid (MonadTraits MONAD_NINE) ex_tx (Some (50 * 10 ^ 9)) None 143 MONAD_BLOB_SCHEDULE ∧
  ¬ statically_valid (MonadTraits MONAD_NINE) ex_tx (Some (50 * 10 ^ 9)) None 1 MONAD_BLOB_SCHEDULE.
Proof.
  assert (∀ b, Some (50 * 10 ^ 9) = Some b → 0 ≤ b) as Hb by (intros b [= <-]; lia). split.
  - apply (proj1 (static_validation_sound (MonadTraits MONAD_NINE) ex_tx (Some (50 * 10 ^ 9)) None 143
      MONAD_BLOB_SCHEDULE ex_tx_wf Hb)). vm_compute. reflexivity.
  - intros Hv. apply (proj1 (static_validation_sound (MonadTraits MONAD_NINE) ex_tx (Some (50 * 10 ^ 9)) None 1
      MONAD_BLOB_SCHEDULE ex_tx_wf Hb)) in Hv. vm_compute in Hv. discriminate Hv.
Defined.

(** The sender's payment splits exactly: from London on, what is paid for
    [gas_used] gas is the burnt base fee plus the reward of the beneficiary,
    with no 256-bit product wrapping. *)
Theorem fee_split t tx base gas_used : tx_wf tx → 0 ≤ base ≤ max_fee_per_gas tx →
  MONAD_ETH_LONDON ≤ evm_rev t → 0 ≤ gas_used ≤ tx_gas_limit tx →
  tx_gas_limit tx * max_fee_per_gas tx ≤ U256_MAX →
  ∃ price award, gas_price t tx base = Ok price ∧ calculate_txn_award t tx base gas_used = Ok award ∧
    u256 (gas_used * price) = gas_used * price ∧ gas_used * price = gas_used * base + award.
Proof.
  intros Hwf Hb Hl Hg Hmax. destruct (gas_price_spec t tx base Hwf Hb) as (price & Ep & Hp & Hpr).
  destruct (Hpr Hl) as [Hbp Epr]. exists price, (gas_used * (price - base)).
  unfold U256_MAX in Hmax. assert (gas_used * price < 2 ^ 256) by nia.
  split_and!; [done| |apply Z.mod_small; nia|lia].
  unfold calculate_txn_award. rewrite (proj2 (Z.ltb_ge _ _) Hl), Epr. ostep.
  unfold mret, outcome_ret. f_equal. apply Z.mod_small. nia.
Qed.
Lemma fee_split_witness :
  ∃ price award, gas_price (MonadTraits MONAD_NINE) ex_tx (50 * 10 ^ 9) = Ok price ∧
    calculate_txn_award (MonadTraits MONAD_NINE) ex_tx (50 * 10 ^ 9) 50000 = Ok award ∧
    u256 (50000 * price) = 50000 * price ∧ 50000 * price = 50000 * (50 * 10 ^ 9) + award.
Proof.
  apply (fee_split (MonadTraits MONAD_NINE) ex_tx (50 * 10 ^ 9) 50000 ex_tx_wf);
    first [split; vm_compute; discriminate | vm_compute; discriminate].
Defined.

(** Gas refunds: what is given back is at least the unused gas (Monad
    gives back nothing from MONAD_ONE on) and at most the gas limit, and the
    refund counter adds at most a fifth (before London a half) of the gas
    used; so the gas charged does not underflow. *)
Theorem gas_refund_bounds t tx gas_remaining refund :
  tx_wf tx → 0 ≤ gas_remaining ≤ tx_gas_limit tx → 0 ≤ refund →
  let back := compute_gas_refund t tx gas_remaining refund in
  0 ≤ back ≤ tx_gas_limit tx ∧ u64 (tx_gas_limit tx - back) = tx_gas_limit tx - back ∧
  match t with
  | MonadTraits rev => MONAD_ONE ≤ rev → back = 0
  | EvmTraits rev =>
      gas_remaining ≤ back ∧
      (MONAD_ETH_LONDON ≤ rev → 5 * (back - gas_remaining) ≤ tx_gas_limit tx - gas_remaining)
  end.
Proof.
  intros Hwf Hg Hr back. pose proof (wf_gas_limit tx Hwf).
  assert (∀ t, let g := g_star t tx gas_remaining refund in
    gas_remaining ≤ g ≤ tx_gas_limit tx ∧
    (MONAD_ETH_LONDON ≤ evm_rev t → 5 * (g - gas_remaining) ≤ tx_gas_limit tx - gas_remaining)) as Hstar.
  { intros t'. unfold g_star. rewrite (u64_small (tx_gas_limit tx - _)) by lia.
    rewrite Z.geb_leb. destruct (Z.leb_spec MONAD_ETH_LONDON (evm_rev t')).
    - pose proof (Z.mul_div_le (tx_gas_limit tx - gas_remaining) 5 ltac:(lia)).
      pose proof (Z.div_pos (tx_gas_limit tx - gas_remaining) 5 ltac:(lia) ltac:(lia)).
      rewrite u64_small by lia. lia.
    - pose proof (Z.mul_div_le (tx_gas_limit tx - gas_remaining) 2 ltac:(lia)).
      pose proof (Z.div_pos (tx_gas_limit tx - gas_remaining) 2 ltac:(lia) ltac:(lia)).
      rewrite u64_small by lia. lia. }
  unfold back, compute_gas_refund. destruct t as [rev|rev].
  - destruct (Hstar (EvmTraits rev)) as [H1 H2]. cbv zeta in H1, H2. cbn [evm_rev] in H2.
    split_and!; [lia|lia|apply u64_small; lia|lia|done].
  - rewrite Z.geb_leb. destruct (Z.leb_spec MONAD_ONE rev).
    + split_and!; [lia|lia|apply u64_small; lia|done].
    + destruct (Hstar (MonadTraits rev)) as [H1 H2]. cbv zeta in H1, H2.
      split_and!; [lia|lia|apply u64_small; lia|lia].
Qed.
Lemma gas_refund_bounds_witness :
  0 ≤ compute_gas_refund (EvmTraits MONAD_ETH_OSAKA) ex_tx 40000 30000 ≤ tx_gas_limit ex_tx.
Proof.
  apply (gas_refund_bounds (EvmTraits MONAD_ETH_OSAKA) ex_tx 40000 30000 ex_tx_wf);
    [split; vm_compute; discriminate|lia].
Defined.

(** ** The blob base fee *)
(** The loop, an iteration at a time. *)
Fixpoint exponential_iterations (fuel : nat) (n d : Z) (s : Z * Z * Z) : outcome Z :=
  match fuel with
  | O => Abort
  | S fuel =>
      r ← fake_exponential_step n d s;
      match r with inl output => mret output | inr s => exponential_iterations fuel n d s end
  end.
Lemma exponential_iterations_loop k n d : ∀ fuel s r, exponential_iterations fuel n d s = Ok r →
  fake_exponential_loop k n d s = Ok (inl r) ∨
  ∃ s' fuel', Z.of_nat fuel = 2 ^ Z.of_nat k + Z.of_nat fuel' ∧ fake_exponential_loop k n d s = Ok (inr s') ∧ exponential_iterations fuel' n d s' = Ok r.
Proof.
  induction k as [|k IH]; intros fuel s r E.
  - destruct fuel as [|fuel]; [done|]. cbn [exponential_iterations fake_exponential_loop] in *. destruct (fake_exponential_step n d s) as [[o|s']| |]; try done; simpl in E.
    + left. by injection E as ->.
    + right. exists s', fuel. split; [lia|done].
  - cbn [fake_exponential_loop]. destruct (IH fuel s r E) as [->|(s1 & f1 & Ef1 & -> & E1)]; [by left|]. ostep.
    destruct (IH f1 s1 r E1) as [->|(s2 & f2 & Ef2 & -> & E2)]; [by left|]. right. exists s2, f2.
    rewrite Nat2Z.inj_succ, Z.pow_succ_r by lia. split_and!; [lia|done|done].
Qed.
(** a loop that ends within as many iterations as [int] can count *)
Lemma fake_exponential_run fuel factor n d r : Z.of_nat fuel < 2 ^ 31 → exponential_iterations fuel n d (1, 0, u256 (factor * d)) = Ok r →
  d ≠ 0 → fake_exponential factor n d = Ok (r / d).
Proof.
  intros Hf E Hd. unfold fake_exponential. destruct (exponential_iterations_loop 31 n d fuel _ r E) as [->|(s & f & Ef & _)]; [|change (Z.of_nat 31) with 31 in Ef; lia].
  ostep. by rewrite (proj2 (Z.eqb_neq d 0) Hd).
Qed.

(** The series of EIP-4844 over unbounded integers. *)
Fixpoint blob_term (n d : Z) (k : nat) : Z :=
  match k with
  | O => d
  | S k => blob_term n d k * n / (d * (Z.of_nat k + 1))
  end.
Fixpoint blob_sum (n d : Z) (k : nat) : Z :=
  match k with O => 0 | S k => blob_sum n d k + blob_term n d k end.

(** [term_bounds fuel k b s] evaluates bounds [b] of term [k] and [s] of the
    sum before it, for [n <= 64 d] and [d < 2^64], and checks that no product
    reaches 2^256 and that the terms vanish within [fuel] steps. *)
Fixpoint term_bounds (fuel : nat) (k b s : Z) : bool :=
  (b =? 0) || match fuel with
              | O => false
              | S fuel => (b * 2 ^ 70 <? 2 ^ 256) && (s + b <? 2 ^ 256) && (k + 2 <? 2 ^ 31)
                          && term_bounds fuel (k + 1) (b * 64 / (k + 1)) (s + b)
              end.

Section BlobFee.
Context (n d : Z) (Hd : 0 < d < 2 ^ 64) (Hn : 0 ≤ n ≤ 64 * d).

Lemma blob_term_nonneg k : 0 ≤ blob_term n d k.
Proof. induction k as [|k IH]; cbn [blob_term]; [lia|]. apply Z.div_pos; nia. Qed.
Lemma blob_term_step k b : blob_term n d k ≤ b →
  blob_term n d (S k) ≤ b * 64 / (Z.of_nat k + 1).
Proof.
  intros Hb. pose proof (blob_term_nonneg k). cbn [blob_term].
  transitivity (blob_term n d k * (64 * d) / (d * (Z.of_nat k + 1))); [apply Z.div_le_mono; nia|].
  rewrite Z.mul_assoc, (Z.mul_comm _ d), Z.div_mul_cancel_l by lia. apply Z.div_le_mono; lia.
Qed.
Lemma blob_term_vanish k j : blob_term n d k = 0 → (k ≤ j)%nat → blob_term n d j = 0.
Proof.
  intros Hk. induction 1 as [|j _ IH]; [done|]. cbn [blob_term]. by rewrite IH, Z.mul_0_l, Z.div_0_l by nia.
Qed.
Lemma blob_sum_stable k j : blob_term n d k = 0 → (k ≤ j)%nat → blob_sum n d j = blob_sum n d k.
Proof.
  intros Hk. induction 1 as [|j Hj IH]; [done|]. cbn [blob_sum].
  rewrite IH, (blob_term_vanish k j) by done. lia.
Qed.

Lemma exponential_series fuel k b s :
  term_bounds fuel (Z.of_nat k) b s = true → blob_term n d k ≤ b → 0 ≤ blob_sum n d k ≤ s →
  exponential_iterations (S fuel) n d (Z.of_nat k + 1, blob_sum n d k, blob_term n d k)
    = Ok (blob_sum n d (k + fuel)) ∧ blob_term n d (k + fuel) = 0.
Proof.
  revert k b s. induction fuel as [|fuel IH]; intros k b s Hc Ht Hs;
    pose proof (blob_term_nonneg k) as H0; cbn [term_bounds] in *;
    destruct (Z.leb_spec (blob_term n d k) 0) as [Hz|Hz].
  - cbn [exponential_iterations fake_exponential_step]. rewrite (proj2 (Z.leb_le _ _) Hz), Nat.add_0_r. split; [done|lia].
  - rewrite (proj2 (Z.eqb_neq b 0)) in Hc by lia. done.
  - cbn [exponential_iterations fake_exponential_step]. rewrite (proj2 (Z.leb_le _ _) Hz), (blob_sum_stable k (k + S fuel)) by lia.
    split; [done|apply (blob_term_vanish k); lia].
  - rewrite (proj2 (Z.eqb_neq b 0)) in Hc by lia. cbn [orb] in Hc.
    rewrite !andb_true_iff, !Z.ltb_lt in Hc. destruct Hc as [[[Hb Hsb] Hk] Hc]. remember (S fuel) as fuel' eqn:Ef.
    cbn [exponential_iterations fake_exponential_step]. rewrite (proj2 (Z.leb_gt _ _) Hz).
    unfold u256. rewrite (Z.mod_small (_ + blob_term n d k)) by lia. rewrite (Z.mod_small (d * _)) by nia.
    rewrite (proj2 (Z.eqb_neq (d * _) 0)) by nia. cbn [negb oassert]. ostep.
    rewrite (Z.mod_small (_ * n)) by nia. rewrite (proj2 (Z.ltb_lt (Z.of_nat k + 1 + 1) _)) by lia. cbn [oassert]. ostep. subst fuel'.
    replace (k + S fuel)%nat with (S k + fuel)%nat by lia.
    replace (Z.of_nat k + 1 + 1) with (Z.of_nat (S k) + 1) by lia.
    apply (IH (S k) (b * 64 / (Z.of_nat k + 1)) (s + b)).
    + by replace (Z.of_nat (S k)) with (Z.of_nat k + 1) by lia.
    + by apply blob_term_step.
    + cbn [blob_sum]. lia.
Qed.
End BlobFee.

(** The blob base fee: for an excess of at most 64 update fractions the
    loop ends within 256 iterations, no 256-bit product wraps, and the
    result is the EIP-4844 series over unbounded integers, whose later terms
    are all zero; it is at least 1. *)
Definition blob_fee_fuel : nat := 256.
Theorem blob_base_fee_exact excess b :
  let d := blob_base_fee_update_fraction b in
  0 < d < 2 ^ 64 → 0 ≤ excess ≤ 64 * d →
  get_base_fee_per_blob_gas excess b = Ok (blob_sum excess d blob_fee_fuel / d) ∧
  (∀ k, (blob_fee_fuel ≤ k)%nat → blob_term excess d k = 0) ∧
  1 ≤ blob_sum excess d blob_fee_fuel / d.
Proof.
  intros d Hd Hn.
  destruct (exponential_series excess d Hd Hn blob_fee_fuel 0 (2 ^ 64) 0) as [E Hz].
  - vm_compute. reflexivity.
  - cbn [blob_term]. lia.
  - cbn [blob_sum]. lia.
  - change (Z.of_nat 0 + 1) with 1 in E. change (0 + blob_fee_fuel)%nat with blob_fee_fuel in E, Hz.
    split_and!.
    + unfold get_base_fee_per_blob_gas. fold d. apply (fake_exponential_run (S blob_fee_fuel)); [done| |lia].
      rewrite Z.mul_1_l. unfold u256. by rewrite Z.mod_small by lia.
    + intros k Hk. by apply (blob_term_vanish excess d Hd Hn blob_fee_fuel).
    + apply Z.div_le_lower_bound; [lia|]. rewrite Z.mul_1_r.
      assert (∀ k, d ≤ blob_sum excess d (S k)) as Hs.
      { induction k as [|k IH]; [cbn; lia|]. cbn [blob_sum] in *.
        pose proof (blob_term_nonneg excess d Hd Hn (S k)). lia. }
      apply (Hs 255%nat).
Qed.
Lemma blob_base_fee_exact_witness :
  get_base_fee_per_blob_gas 100000000 PRAGUE_BLOB_SCHEDULE = Ok 470442149.
Proof.
  destruct (blob_base_fee_exact 100000000 PRAGUE_BLOB_SCHEDULE) as (H & _ & _);
    [split; reflexivity|split; vm_compute; discriminate|].
  rewrite H. vm_compute. reflexivity.
Defined.
