(* ===== verification/Receipt.v ===== *)
(** * Receipts

    src/category/execution/ethereum/core/receipt.{hpp,cpp}: receipts, logs
    (declared in State.v) and the bloom filter. *)
From S2P Require Import Prelude Rlp State Transaction.

Record Receipt := mkReceipt {
  bloom : list Z;
  rct_status : Z;
  rct_gas_used : Z;
  rct_type : TransactionType;
  rct_logs : list Log
}.
Definition empty_bloom : list Z := replicate 256 0.

Section bloom.
(** the 32 bytes of the hash, as a big-endian number *)
Context (keccak256 : list Z → Z).

(** the [i]-th of the three bits: a 16-bit big-endian chunk of the hash *)
Definition bloom_bit (h : Z) (i : Z) : Z := Z.land (Z.shiftr h (240 - 16 * i)) 2047.
Definition set_bit (b : list Z) (bit : Z) : list Z :=
  alter (λ x, Z.lor x (Z.shiftl 1 (Z.land bit 7))) (Z.to_nat (255 - bit / 8)) b.
Definition set_3_bits (b : list Z) (bytes : list Z) : list Z :=
  let h := keccak256 bytes in
  set_bit (set_bit (set_bit b (bloom_bit h 0)) (bloom_bit h 1)) (bloom_bit h 2).
Definition populate_bloom (b : list Z) (log : Log) : list Z :=
  fold_left (λ b t, set_3_bits b (be_bytes 32 t)) (log_topics log)
    (set_3_bits b (be_bytes 20 (log_address log))).
Definition add_log (r : Receipt) (log : Log) : Receipt :=
  mkReceipt (populate_bloom (bloom r) log) (rct_status r) (rct_gas_used r) (rct_type r) (rct_logs r ++ [log]).

(** ** The filter has no false negatives *)
Definition has_bit (b : list Z) (bit : Z) : Prop :=
  ∃ x, b !! Z.to_nat (255 - bit / 8) = Some x ∧ Z.testbit x (Z.land bit 7) = true.
Definition may_contain (b : list Z) (bytes : list Z) : Prop :=
  ∀ i, 0 ≤ i ≤ 2 → has_bit b (bloom_bit (keccak256 bytes) i).

Lemma bloom_bit_range h i : 0 ≤ bloom_bit h i < 2048.
Proof.
  unfold bloom_bit. change 2047 with (Z.ones 11). rewrite Z.land_ones by lia.
  apply Z.mod_pos_bound. lia.
Qed.
Lemma set_bit_length b bit : length (set_bit b bit) = length b.
Proof. apply length_alter. Qed.
Lemma set_bit_has b bit : length b = 256%nat → 0 ≤ bit < 2048 → has_bit (set_bit b bit) bit.
Proof.
  intros Hl Hb. unfold has_bit, set_bit. pose proof (Z.div_pos bit 8 ltac:(lia) ltac:(lia)).
  destruct (b !! Z.to_nat (255 - bit / 8)) as [x|] eqn:E.
  - rewrite list_lookup_alter_eq, E. eexists. split; [done|]. rewrite Z.lor_spec, Z.shiftl_spec.
    + rewrite Z.sub_diag. cbn. apply orb_true_r.
    + apply Z.land_nonneg. lia.
  - apply lookup_ge_None in E. lia.
Qed.
Lemma set_bit_keeps b bit bit' : has_bit b bit' → has_bit (set_bit b bit) bit'.
Proof.
  intros (x & Hx & Ht). unfold has_bit, set_bit.
  destruct (decide (Z.to_nat (255 - bit / 8) = Z.to_nat (255 - bit' / 8))) as [->|Hne].
  - rewrite list_lookup_alter_eq, Hx. eexists. split; [done|]. by rewrite Z.lor_spec, Ht.
  - rewrite list_lookup_alter_ne by done. eauto.
Qed.
Lemma set_3_bits_length b s : length (set_3_bits b s) = length b.
Proof. unfold set_3_bits. by rewrite !set_bit_length. Qed.
Lemma set_3_bits_has b s : length b = 256%nat → may_contain (set_3_bits b s) s.
Proof.
  intros Hl i Hi. unfold set_3_bits. pose proof (bloom_bit_range (keccak256 s)) as Hr.
  assert (i = 0 ∨ i = 1 ∨ i = 2) as [->|[->| ->]] by lia.
  - do 2 apply set_bit_keeps. by apply set_bit_has.
  - apply set_bit_keeps, set_bit_has; [by rewrite set_bit_length|done].
  - apply set_bit_has; [by rewrite !set_bit_length|done].
Qed.
Lemma set_3_bits_keeps b s s' : may_contain b s' → may_contain (set_3_bits b s) s'.
Proof. intros Hb i Hi. unfold set_3_bits. do 3 apply set_bit_keeps. by apply Hb. Qed.

Lemma fold_topics l : ∀ b, length b = 256%nat →
  length (fold_left (λ b t, set_3_bits b (be_bytes 32 t)) l b) = 256%nat ∧
  (∀ s, may_contain b s → may_contain (fold_left (λ b t, set_3_bits b (be_bytes 32 t)) l b) s) ∧
  (∀ t, t ∈ l → may_contain (fold_left (λ b t, set_3_bits b (be_bytes 32 t)) l b) (be_bytes 32 t)).
Proof.
  induction l as [|t l IH]; intros b Hb; cbn [fold_left]; [split_and!; [done|done|by intros t ?%elem_of_nil]|].
  destruct (IH (set_3_bits b (be_bytes 32 t))) as (H1 & H2 & H3); [by rewrite set_3_bits_length|].
  split_and!; [done|intros s Hs; by apply H2, set_3_bits_keeps|].
  intros t' [->|Ht']%elem_of_cons; [by apply H2, set_3_bits_has|by apply H3].
Qed.

Lemma populate_bloom_spec b log : length b = 256%nat →
  length (populate_bloom b log) = 256%nat ∧
  (∀ s, may_contain b s → may_contain (populate_bloom b log) s) ∧
  may_contain (populate_bloom b log) (be_bytes 20 (log_address log)) ∧
  (∀ t, t ∈ log_topics log → may_contain (populate_bloom b log) (be_bytes 32 t)).
Proof.
  intros Hb. unfold populate_bloom.
  destruct (fold_topics (log_topics log) (set_3_bits b (be_bytes 20 (log_address log)))) as (H1 & H2 & H3);
    [by rewrite set_3_bits_length|].
  split_and!; [done|intros s Hs; by apply H2, set_3_bits_keeps|by apply H2, set_3_bits_has|done].
Qed.

(** The bloom filter of a receipt has no false negatives: after any
    sequence of [add_log]s on an empty receipt, the address and every topic
    of every log are in the filter, which keeps its 256 bytes. *)
Theorem bloom_complete status gas ty l :
  let r := fold_left add_log l (mkReceipt empty_bloom status gas ty []) in
  rct_logs r = l ∧ length (bloom r) = 256%nat ∧
  ∀ log, log ∈ l → may_contain (bloom r) (be_bytes 20 (log_address log)) ∧
    ∀ t, t ∈ log_topics log → may_contain (bloom r) (be_bytes 32 t).
Proof.
  cbv zeta. induction l as [|log l IH] using rev_ind.
  - split; [done|]. split; [done|]. by intros log ?%elem_of_nil.
  - rewrite fold_left_app. cbn [fold_left]. destruct IH as (E & Hl & IH).
    set (r := fold_left add_log l _) in *. unfold add_log. cbn [rct_logs bloom]. rewrite E.
    destruct (populate_bloom_spec (bloom r) log Hl) as (H1 & H2 & H3 & H4).
    split_and!; [done|done|]. intros log' [Hin| ->%list_elem_of_singleton]%elem_of_app; [|done].
    destruct (IH log' Hin) as [Ha Ht]. split; [by apply H2|]. intros t Htin. by apply H2, Ht.
Qed.
End bloom.
