(* ===== verification/RlpTransaction.v ===== *)
(** * RLP of transactions, receipts and blocks

    src/category/execution/ethereum/core/rlp/{transaction_rlp,signature_rlp,receipt_rlp,withdrawal_rlp,block_rlp}.cpp:
    the wire format of transactions, receipts, withdrawals and blocks.  An encoder returns
    an [outcome] where the source asserts or throws. *)
From S2P Require Import Prelude Words Rlp State Transaction Receipt.

Abbreviation enc_u8 := (encode_unsigned 1).
Abbreviation enc_u64 := (encode_unsigned 8).
Abbreviation enc_u256 := (encode_unsigned 32).

(** ** Encoding *)
Definition encode_access_entry (e : AccessEntry) : list Z :=
  encode_list2 [encode_address (Some (ae_a e)) ++ encode_list2 [concat (map encode_bytes32 (ae_keys e))]].
Definition encode_access_list (l : list AccessEntry) : list Z :=
  encode_list2 [concat (map encode_access_entry l)].

(** the entry of an authorization whose chain id is [c] *)
Definition encode_authorization_entry (c : Z) (e : AuthorizationEntry) : list Z :=
  encode_list2 [enc_u256 c; encode_address (Some (auth_address e)); enc_u64 (auth_nonce e);
    enc_u8 (y_parity (signature (auth_sc e))); enc_u256 (sig_r (signature (auth_sc e)));
    enc_u256 (sig_s (signature (auth_sc e)))].
Fixpoint encode_authorizations (l : list AuthorizationEntry) : outcome (list Z) :=
  match l with
  | [] => Ok []
  | e :: l =>
      match chain_id (auth_sc e) with
      | None => Abort
      | Some c => r ← encode_authorizations l; Ok (encode_authorization_entry c e ++ r)
      end
  end.
Definition encode_authorization_list (l : list AuthorizationEntry) : outcome (list Z) :=
  r ← encode_authorizations l; Ok (encode_list2 [r]).
Definition encode_authorization_entry_for_signing (e : AuthorizationEntry) : outcome (list Z) :=
  match chain_id (auth_sc e) with
  | None => Abort
  | Some c =>
      Ok (0x05 :: encode_list2 [enc_u256 c ++ encode_address (Some (auth_address e)) ++ enc_u64 (auth_nonce e)])
  end.

Definition encode_legacy_base (txn : Transaction) : list Z :=
  enc_u64 (tx_nonce txn) ++ enc_u256 (max_fee_per_gas txn) ++ enc_u64 (tx_gas_limit txn)
  ++ encode_address (tx_to txn) ++ enc_u256 (tx_value txn) ++ encode_string2 (tx_data txn).

Definition has_priority_fee (ty : TransactionType) : bool :=
  match ty with eip1559 | eip4844 | eip7702 => true | _ => false end.
Definition encode_eip2718_base (txn : Transaction) : outcome (list Z) :=
  auths ← (if bool_decide (tx_type txn = eip7702)
           then encode_authorization_list (authorization_list txn) else Ok []);
  Ok (enc_u256 (default 0 (chain_id (tx_sc txn))) ++ enc_u64 (tx_nonce txn)
      ++ (if has_priority_fee (tx_type txn) then enc_u256 (max_priority_fee_per_gas txn) else [])
      ++ enc_u256 (max_fee_per_gas txn) ++ enc_u64 (tx_gas_limit txn) ++ encode_address (tx_to txn)
      ++ enc_u256 (tx_value txn) ++ encode_string2 (tx_data txn) ++ encode_access_list (access_list txn)
      ++ (if bool_decide (tx_type txn = eip4844)
          then enc_u256 (max_fee_per_blob_gas txn)
               ++ encode_list2 [concat (map encode_bytes32 (blob_versioned_hashes txn))]
          else [])
      ++ auths).

(** [static_cast<unsigned char>(txn.type)] and back *)
Definition type_byte (ty : TransactionType) : Z :=
  match ty with legacy => 0 | eip2930 => 1 | eip1559 => 2 | eip4844 => 3 | eip7702 => 4 | LAST => 5 end.
Definition byte_type (b : Z) : TransactionType :=
  if b =? 0 then legacy else if b =? 1 then eip2930 else if b =? 2 then eip1559
  else if b =? 3 then eip4844 else if b =? 4 then eip7702 else LAST.

Definition encode_transaction (txn : Transaction) : outcome (list Z) :=
  let sig := signature (tx_sc txn) in
  if bool_decide (tx_type txn = legacy) then
    v ← get_v (tx_sc txn);
    Ok (encode_list2 [encode_legacy_base txn; enc_u256 v; enc_u256 (sig_r sig); enc_u256 (sig_s sig)])
  else
    base ← encode_eip2718_base txn;
    Ok (type_byte (tx_type txn)
        :: encode_list2 [base; enc_u8 (y_parity sig); enc_u256 (sig_r sig); enc_u256 (sig_s sig)]).

Definition encode_transaction_for_signing (txn : Transaction) : outcome (list Z) :=
  if bool_decide (tx_type txn = legacy) then
    Ok (match chain_id (tx_sc txn) with
        | Some c => encode_list2 [encode_legacy_base txn; enc_u256 c; encode_unsigned 4 0; encode_unsigned 4 0]
        | None => encode_list2 [encode_legacy_base txn]
        end)
  else
    base ← encode_eip2718_base txn; Ok (type_byte (tx_type txn) :: encode_list2 [base]).

(** ** Decoding *)
Abbreviation dec_u8 := (lift (decode_unsigned 1)).
Abbreviation dec_u64 := (lift (decode_unsigned 8)).
Abbreviation dec_u256 := (lift (decode_unsigned 32)).

Definition decode_access_entry_keys : tdecoder (list Z) :=
  payload ← lift parse_list_metadata;
  keys ← on_view payload (keys ← decode_all (lift decode_bytes32); _ ← check_empty; mret keys);
  _ ← tassert (len payload =? size keys * 33);
  mret keys.
Definition decode_access_entry : tdecoder AccessEntry :=
  in_list (a ← lift decode_address;
           keys ← decode_access_entry_keys;
           _ ← check_empty;
           mret (mkAccessEntry a keys)).
Definition decode_access_list : tdecoder (list AccessEntry) := in_list (decode_all decode_access_entry).

Definition decode_authorization_entry : tdecoder AuthorizationEntry :=
  in_list (c ← dec_u256;
           address ← lift decode_address;
           nonce ← dec_u64;
           y ← dec_u8;
           r ← dec_u256;
           s ← dec_u256;
           _ ← check_empty;
           mret (mkAuthorizationEntry (mkSignatureAndChain (mkSignature r s y) (Some c)) address nonce)).
Definition decode_authorization_list : tdecoder (list AuthorizationEntry) :=
  in_list (decode_all decode_authorization_entry).

Definition default_sc : SignatureAndChain := mkSignatureAndChain (mkSignature 0 0 0) None.
Definition decode_sc : tdecoder SignatureAndChain := v ← dec_u256; mret (from_v v default_sc).

Definition decode_transaction_legacy : tdecoder Transaction :=
  in_list (nonce ← dec_u64;
           fee ← dec_u256;
           gas_limit ← dec_u64;
           to ← lift decode_optional_address;
           value ← dec_u256;
           data ← lift decode_string;
           sc ← decode_sc;
           r ← dec_u256;
           s ← dec_u256;
           _ ← check_empty;
           mret (mkTransaction
                   (mkSignatureAndChain (mkSignature r s (y_parity (signature sc))) (chain_id sc))
                   nonce fee gas_limit value to legacy data [] 0 0 [] [])).

(** [BOOST_OUTCOME_TRY] under a condition on the type *)
Definition when {A} (b : bool) (d : tdecoder A) (default_ : A) : tdecoder A :=
  if b then d else mret default_.
Definition decode_eip2718_payload (ty : TransactionType) : tdecoder Transaction :=
  c ← dec_u256;
  nonce ← dec_u64;
  priority ← when (has_priority_fee ty) dec_u256 0;
  fee ← dec_u256;
  gas_limit ← dec_u64;
  to ← lift decode_optional_address;
  value ← dec_u256;
  data ← lift decode_string;
  access ← decode_access_list;
  _ ← treject (bool_decide (ty = eip4844) && bool_decide (to = None)) InputTooShort;
  blob_fee ← when (bool_decide (ty = eip4844)) dec_u256 0;
  hashes ← when (bool_decide (ty = eip4844)) (in_list (decode_all (lift decode_bytes32))) [];
  _ ← treject (bool_decide (ty = eip7702) && bool_decide (to = None)) InputTooShort;
  auths ← when (bool_decide (ty = eip7702)) decode_authorization_list [];
  y ← dec_u8;
  r ← dec_u256;
  s ← dec_u256;
  _ ← check_empty;
  mret (mkTransaction (mkSignatureAndChain (mkSignature r s y) (Some c)) nonce fee gas_limit value to ty
          data access priority blob_fee hashes auths).

Definition decode_transaction_eip2718 : tdecoder Transaction :=
  enc ← view;
  _ ← tassert (negb (len enc =? 0));
  _ ← treject (default 0 (head enc) >=? type_byte LAST) InvalidTxnType;
  payload ← (λ enc, lift parse_list_metadata (drop 1 enc));
  txn ← on_view payload (decode_eip2718_payload (byte_type (default 0 (head enc))));
  _ ← check_empty;
  mret txn.

Definition decode_transaction : tdecoder Transaction := λ enc,
  match enc with
  | [] => Ok (inl InputTooShort)
  | b :: _ => if b >=? 0xc0 then decode_transaction_legacy enc else decode_transaction_eip2718 enc
  end.

(** one round of the loop of [decode_transaction_list] *)
Definition decode_list_entry : tdecoder Transaction := λ ls,
  if default 0 (head ls) >=? 0xc0 then decode_transaction_legacy ls
  else (str ← lift parse_string_metadata; on_view str decode_transaction_eip2718) ls.
Definition decode_transaction_list : tdecoder (list Transaction) := in_list (decode_all decode_list_entry).

(** ** Receipts *)
Definition encode_topics (topics : list Z) : list Z := encode_list2 [concat (map encode_bytes32 topics)].
Definition encode_log (log : Log) : list Z :=
  encode_list2 [encode_address (Some (log_address log)); encode_topics (log_topics log);
    encode_string2 (log_data log)].
Definition encode_bloom (b : list Z) : list Z := encode_string2 b.
Definition encode_receipt (r : Receipt) : list Z :=
  let receipt_bytes :=
    encode_list2 [enc_u64 (rct_status r); enc_u64 (rct_gas_used r); encode_bloom (bloom r);
      encode_list2 [concat (map encode_log (rct_logs r))]] in
  match rct_type r with
  | eip1559 | eip2930 | eip4844 | eip7702 => type_byte (rct_type r) :: receipt_bytes
  | _ => receipt_bytes
  end.

Definition decode_bloom : tdecoder (list Z) := lift (decode_byte_string_fixed 256).
Definition decode_topics : tdecoder (list Z) :=
  in_list (topics ← decode_all (lift decode_bytes32); _ ← check_empty; mret topics).
Definition decode_log : tdecoder Log :=
  in_list (address ← lift decode_address;
           topics ← decode_topics;
           data ← lift decode_string;
           _ ← check_empty;
           mret (mkLog data topics address)).
Definition decode_logs : tdecoder (list Log) :=
  in_list (logs ← decode_all decode_log; _ ← check_empty; mret logs).
Definition decode_untyped_receipt : tdecoder Receipt :=
  in_list (status ← dec_u64;
           gas_used ← dec_u64;
           b ← decode_bloom;
           logs ← decode_logs;
           _ ← check_empty;
           mret (mkReceipt b status gas_used legacy logs)).
Definition with_type (ty : TransactionType) (r : Receipt) : Receipt :=
  mkReceipt (bloom r) (rct_status r) (rct_gas_used r) ty (rct_logs r).
Definition decode_receipt : tdecoder Receipt := λ enc,
  match enc with
  | [] => Ok (inl InputTooShort)
  | first :: rest =>
      if first <? 0xc0 then
        (receipt ← decode_untyped_receipt;
         if first =? 0x1 then mret (with_type eip2930 receipt)
         else if first =? 0x2 then mret (with_type eip1559 receipt)
         else if first =? 0x3 then mret (with_type eip4844 receipt)
         else if first =? 0x4 then mret (with_type eip7702 receipt)
         else tfail InvalidTxnType) rest
      else (receipt ← decode_untyped_receipt; mret (with_type legacy receipt)) enc
  end.

(** ** Block headers *)
Definition when_some {A} (o : option A) (f : A → list Z) : list Z :=
  match o with Some a => f a | None => [] end.
Definition encode_block_header (h : BlockHeader) : list Z :=
  encode_list2
    [encode_bytes32 (parent_hash h) ++ encode_bytes32 (ommers_hash h) ++ encode_address (Some (beneficiary h))
     ++ encode_bytes32 (state_root h) ++ encode_bytes32 (transactions_root h) ++ encode_bytes32 (receipts_root h)
     ++ encode_bloom (logs_bloom h) ++ enc_u256 (difficulty h) ++ enc_u64 (hdr_number h)
     ++ enc_u64 (hdr_gas_limit h) ++ enc_u64 (hdr_gas_used h) ++ enc_u64 (hdr_timestamp h)
     ++ encode_string2 (extra_data h) ++ encode_bytes32 (prev_randao h) ++ encode_string2 (hdr_nonce h)
     ++ when_some (base_fee_per_gas h) enc_u256
     ++ when_some (withdrawals_root h) encode_bytes32
     ++ when_some (blob_gas_used h) enc_u64
     ++ when_some (excess_blob_gas h) enc_u64
     ++ when_some (parent_beacon_block_root h) encode_bytes32
     ++ when_some (requests_hash h) encode_bytes32].
Definition EXTRA_DATA_MAX_LENGTH : Z := 32.

(** [if (!payload.empty()) { ... }] around the decoding of optional fields *)
Definition if_more {A} (d : tdecoder A) (default_ : A) : tdecoder A := λ payload,
  if len payload =? 0 then Ok (inr (default_, payload)) else d payload.
Definition some_of {A} (d : tdecoder A) : tdecoder (option A) := x ← d; mret (Some x).
(** the fields of a header, in the view of its payload *)
Definition decode_header_fields : tdecoder BlockHeader :=
  parent ← lift decode_bytes32;
  ommers ← lift decode_bytes32;
  ben ← lift decode_address;
  sroot ← lift decode_bytes32;
  troot ← lift decode_bytes32;
  rroot ← lift decode_bytes32;
  lbloom ← decode_bloom;
  diff ← dec_u256;
  number ← dec_u64;
  gas_limit ← dec_u64;
  gas_used ← dec_u64;
  timestamp ← dec_u64;
  extra ← lift decode_string;
  _ ← treject (len extra >? EXTRA_DATA_MAX_LENGTH) DecodeOverflow;
  randao ← lift decode_bytes32;
  nonce ← lift (decode_byte_string_fixed 8);
  base_fee ← if_more (some_of dec_u256) None;
  wroot ← if_more (some_of (lift decode_bytes32)) None;
  blob ← if_more (
    used ← dec_u64; excess ← dec_u64; beacon ← lift decode_bytes32;
    mret (Some used, Some excess, Some beacon)) (None, None, None);
  requests ← if_more (some_of (lift decode_bytes32)) None;
  _ ← check_empty;
  mret (mkBlockHeader lbloom parent ommers sroot troot rroot randao diff number gas_limit gas_used
          timestamp nonce extra ben base_fee wroot blob.1.1 blob.1.2 blob.2 requests None).
Definition decode_block_header : tdecoder BlockHeader := in_list decode_header_fields.
Definition decode_block_header_vector : tdecoder (list BlockHeader) :=
  in_list (ommers ← decode_all decode_block_header; _ ← check_empty; mret ommers).
Definition encode_ommers (ommers : list BlockHeader) : list Z :=
  encode_list2 [concat (map encode_block_header ommers)].

(** ** Withdrawals and blocks *)
Record Withdrawal := mkWithdrawal {
  wd_index : Z; wd_validator_index : Z; wd_amount : Z; wd_recipient : Z
}.
Record Block := mkBlock {
  blk_header : BlockHeader;
  blk_transactions : list Transaction;
  blk_ommers : list BlockHeader;
  blk_withdrawals : option (list Withdrawal)
}.
Definition encode_withdrawal (w : Withdrawal) : list Z :=
  encode_list2 [enc_u64 (wd_index w); enc_u64 (wd_validator_index w);
    encode_address (Some (wd_recipient w)); enc_u64 (wd_amount w)].
Definition decode_withdrawal : tdecoder Withdrawal :=
  if_more (in_list (index ← dec_u64;
                    validator ← dec_u64;
                    recipient ← lift decode_address;
                    amount ← dec_u64;
                    _ ← check_empty;
                    mret (mkWithdrawal index validator amount recipient)))
    (mkWithdrawal 0 0 0 0).
Definition decode_withdrawal_list : tdecoder (list Withdrawal) :=
  in_list (ws ← decode_all decode_withdrawal; _ ← check_empty; mret ws).

(** a transaction in the body of a block *)
Definition encode_list_entry (tx : Transaction) : outcome (list Z) :=
  e ← encode_transaction tx;
  Ok (if bool_decide (tx_type tx = legacy) then e else encode_string2 e).
Fixpoint encode_list_entries (txs : list Transaction) : outcome (list Z) :=
  match txs with
  | [] => Ok []
  | tx :: txs => e ← encode_list_entry tx; r ← encode_list_entries txs; Ok (e ++ r)
  end.
Definition encode_block (b : Block) : outcome (list Z) :=
  txs ← encode_list_entries (blk_transactions b);
  Ok (encode_list2
    [encode_block_header (blk_header b) ++ encode_list2 [txs] ++ encode_ommers (blk_ommers b)
     ++ when_some (blk_withdrawals b) (λ ws, encode_list2 [concat (map encode_withdrawal ws)])]).
Definition decode_block : tdecoder Block :=
  in_list (header ← decode_block_header;
           txs ← decode_transaction_list;
           ommers ← decode_block_header_vector;
           ws ← if_more (some_of decode_withdrawal_list) None;
           _ ← check_empty;
           mret (mkBlock header txs ommers ws)).
