(* ===== verification/WireFormat.v ===== *)
(** * Correctness of the transaction and header encodings

    Each decoder of RlpTransaction.v inverts its encoder and accepts nothing
    else, by the codecs of RlpFacts.v. *)
From S2P Require Import Prelude Words Rlp RlpFacts State Transaction TransactionFacts Receipt RlpTransaction.

(** ** Sequencing *)
Section sequencing.
Context {A X : Type} (ok : A → Prop) (enc : A → list Z) (dec : tdecoder A) `{C : !Codec ok enc dec}.
Lemma bind_complete (k : A → tdecoder X) a rest : ok a → (dec ≫= k) (enc a ++ rest) = k a rest.
Proof. intros Ha. unfold mbind, tdecoder_bind. by rewrite codec_complete. Qed.
Lemma bind_sound (k : A → tdecoder X) e x r : bytes_ok e → len e < 2 ^ 32 →
  (dec ≫= k) e = Ok (inr (x, r)) →
  ∃ a e', ok a ∧ e = enc a ++ e' ∧ bytes_ok e' ∧ len e' < 2 ^ 32 ∧ k a e' = Ok (inr (x, r)).
Proof.
  intros He Hl. unfold mbind, tdecoder_bind. destruct (dec e) as [[|[a e']]| |] eqn:E; try done.
  destruct (codec_sound _ _ _ He Hl E) as [Ha ->]. intros Hk. exists a, e'.
  apply Forall_app in He as [_ He]. rewrite len_app in Hl. pose proof (codec_nonempty a Ha).
  split_and!; try done. lia.
Qed.
Lemma bind_total (k : A → tdecoder X) e : bytes_ok e → len e < 2 ^ 32 →
  (∀ a e', ok a → bytes_ok e' → len e' < 2 ^ 32 → e = enc a ++ e' → ∃ r, k a e' = Ok r) → ∃ r, (dec ≫= k) e = Ok r.
Proof.
  intros He Hl Hk. unfold mbind, tdecoder_bind.
  destruct (codec_total e He Hl) as [[|[a e']] E]; rewrite E; [eauto|].
  destruct (codec_sound _ _ _ He Hl E) as [Ha ->]. apply Forall_app in He as [_ He].
  rewrite len_app in Hl. pose proof (codec_nonempty a Ha). apply Hk; try done. lia.
Qed.
End sequencing.

Lemma check_empty_eq {X} (k : () → tdecoder X) e :
  (check_empty ≫= k) e = if len e =? 0 then k () e else Ok (inl InputTooLong).
Proof. unfold check_empty, mbind, tdecoder_bind, view, treject. by destruct (len e =? 0). Qed.
Lemma len_zero e : len e = 0 → e = [].
Proof. destruct e; [done|]. unfold len. cbn [length]. lia. Qed.
Lemma check_empty_sound {X} (k : () → tdecoder X) e x r :
  (check_empty ≫= k) e = Ok (inr (x, r)) → e = [] ∧ k () [] = Ok (inr (x, r)).
Proof. rewrite check_empty_eq. destruct (Z.eqb_spec (len e) 0) as [E|]; [|done]. by rewrite (len_zero e E). Qed.
Lemma treject_sound {X} b err (k : () → tdecoder X) e x r :
  (treject b err ≫= k) e = Ok (inr (x, r)) → b = false ∧ k () e = Ok (inr (x, r)).
Proof. by destruct b. Qed.

(** Steps through a decoder: forwards on an encoding, backwards from a result. *)
Ltac decode_fwd_step :=
  match goal with
  | |- context [(check_empty ≫= _) _] => rewrite check_empty_eq
  | |- context [(?d ≫= ?k) (_ ++ _)] =>
      let H := fresh in
      pose proof (bind_complete _ _ d k) as H; cbv beta in H; rewrite H by assumption; clear H
  end.
Ltac decode_fwd := repeat decode_fwd_step.
Ltac decode_bwd :=
  repeat match goal with
  | H : (check_empty ≫= _) _ = Ok (inr _) |- _ => apply check_empty_sound in H as [? H]
  | H : (treject _ _ ≫= _) _ = Ok (inr _) |- _ => apply treject_sound in H as [? H]
  | H : (_ ≫= _) ?e = Ok (inr _), Hb : bytes_ok ?e, Hl : len ?e < _ |- _ =>
      eapply (bind_sound _ _ _ _ e) in H; [|exact Hb|exact Hl];
      destruct H as (? & ? & ? & ? & ? & ? & H); clear Hb Hl
  | H : mret _ _ = Ok (inr _) |- _ => unfold mret, tdecoder_ret in H; injection H as ? ?
  end; subst.
(** the bytes of an encoding whose decoder is [d] *)
Ltac bytes_of d :=
  let H := fresh in pose proof (codec_bytes (dec := d)) as H; cbv beta in H; by apply H.
Ltac decode_total_step :=
  match goal with
  | |- ∃ r, (check_empty ≫= _) _ = Ok r => rewrite check_empty_eq; case_match; [|by eauto]
  | |- ∃ r, (?d ≫= ?k) ?e = Ok r =>
      apply (bind_total _ _ d k e); [assumption|assumption|intros ? ? ? ? ? _]
  | |- ∃ r, mret _ _ = Ok r => by (unfold mret, tdecoder_ret; eauto)
  end.
Ltac decode_total := repeat decode_total_step.

Lemma decode_while_empties {A} fuel (d : tdecoder A) e l r :
  decode_while fuel d e = Ok (inr (l, r)) → r = [].
Proof.
  revert e l r. induction fuel as [|fuel IH]; intros e l r; cbn [decode_while];
    (destruct (Z.eqb_spec (len e) 0) as [E|]; [rewrite (len_zero e E); by intros [= <- <-]|]); [done|].
  unfold mbind, tdecoder_bind. destruct (d e) as [[|[x e']]| |]; try done.
  destruct (decode_while fuel d e') as [[|[l' r']]| |] eqn:E1; try done. intros [= <- <-]. by eapply IH.
Qed.

(** ** Access lists *)
Lemma keys_len l : len (encode_all encode_bytes32 l) = size l * 33.
Proof.
  unfold encode_all, size. induction l as [|k l IH]; [done|]. cbn [map concat length]. rewrite len_app, IH.
  assert (len (encode_bytes32 k) = 33) as ->; [|lia].
  unfold encode_bytes32, encode_string2, len, u32. rewrite be_bytes_length. cbn [Z.eqb andb Z.gtb].
  change (Z.of_nat 32 mod 2 ^ 32) with 32. cbn [Z.eqb Pos.eqb andb Z.gtb Z.compare Pos.compare Pos.compare_cont length].
  by rewrite be_bytes_length.
Qed.
Abbreviation keys_ok := (list_ok (Forall (uint_ok 32)) (encode_all encode_bytes32)).
#[global] Instance keys_codec :
  Codec keys_ok (λ l, encode_list2 [concat (map encode_bytes32 l)]) decode_access_entry_keys.
Proof.
  assert (∀ e, decode_access_entry_keys e =
    match in_list (decode_all (lift decode_bytes32)) e with
    | Ok (inr (l, rest)) => match parse_list_metadata e with
                            | inr (p, _) => if len p =? size l * 33 then Ok (inr (l, rest)) else Abort
                            | inl _ => Abort
                            end
    | r => r
    end) as Eq.
  { intros e. unfold decode_access_entry_keys, in_list, mbind, tdecoder_bind, lift.
    destruct (parse_list_metadata e) as [|[p r]] eqn:Ep; [done|]. unfold on_view.
    unfold decode_all at 1. unfold mbind, tdecoder_bind, view.
    destruct (decode_while (length p) (λ enc, Ok (decode_bytes32 enc)) p) as [[|[l e']]| |] eqn:Ew;
      unfold decode_all, mbind, tdecoder_bind, view; rewrite ?Ew; [done| |done|done].
    rewrite (decode_while_empties _ _ _ _ _ Ew).
    change (check_empty []) with (Ok (inr ((), [] : list Z)) : outcome (result (() * list Z))).
    unfold tassert, mret, tdecoder_ret. by destruct (len p =? size l * 33). }
  pose proof (in_list_codec _ _ _ (decode_all_payload (uint_ok 32) encode_bytes32 (lift decode_bytes32))) as [C1 C2 C3 C4 C5].
  split.
  - intros l rest Hl. rewrite Eq. unfold encode_all in C1. rewrite C1 by done.
    rewrite parse_list_complete; cbn [concat]; rewrite app_nil_r.
    + pose proof (keys_len l) as E. unfold encode_all in E. by rewrite E, Z.eqb_refl.
    + destruct Hl as [_ Hl]. unfold encode_all in Hl. lia.
  - intros e l rest He Hlen E. rewrite Eq in E.
    destruct (in_list _ e) as [[|[l' r']]| |] eqn:Ei; try done.
    destruct (parse_list_metadata e) as [|[p ?]]; [done|]. case_match; [|done]. injection E as -> ->.
    by apply C2.
  - exact C3.
  - exact C4.
  - intros e He Hlen. rewrite Eq. destruct (C5 e He Hlen) as [[|[l rest]] Ei]; rewrite Ei; [eauto|].
    destruct (C2 e l rest He Hlen Ei) as [Hl ->]. rewrite parse_list_complete; cbn [concat]; rewrite app_nil_r.
    + rewrite keys_len, Z.eqb_refl. eauto.
    + destruct Hl as [_ Hl]. lia.
Qed.

Definition access_entry_body (e : AccessEntry) : list Z :=
  encode_address (Some (ae_a e)) ++ encode_list2 [concat (map encode_bytes32 (ae_keys e))].
Definition access_entry_ok (e : AccessEntry) : Prop := uint_ok 20 (ae_a e) ∧ keys_ok (ae_keys e).
#[global] Instance access_entry_codec :
  Codec (list_ok access_entry_ok access_entry_body) encode_access_entry decode_access_entry.
Proof.
  apply in_list_codec. split.
  - intros [a keys] [Ha Hk]. exists []. unfold access_entry_body. cbn [ae_a ae_keys] in *.
    rewrite <- (app_nil_r (encode_list2 _)).
    by decode_fwd.
  - intros e x r He Hl E. decode_bwd. unfold access_entry_body. cbn [ae_a ae_keys]. rewrite app_nil_r. done.
  - intros [a keys] [Ha Hk]. unfold access_entry_body. apply Forall_app. split.
    + bytes_of (lift decode_address).
    + bytes_of decode_access_entry_keys.
  - intros e He Hl. decode_total.
Qed.

Abbreviation access_list_ok :=
  (list_ok (Forall (list_ok access_entry_ok access_entry_body)) (encode_all encode_access_entry)).
#[global] Instance access_list_codec : Codec access_list_ok encode_access_list decode_access_list.
Proof. apply (in_list_codec _ _ _ (decode_all_payload _ _ _)). Qed.

Abbreviation hashes_ok := keys_ok.
#[global] Instance hashes_codec :
  Codec hashes_ok (λ l, encode_list2 [concat (map encode_bytes32 l)]) (in_list (decode_all (lift decode_bytes32))).
Proof. apply (in_list_codec _ _ _ (decode_all_payload _ _ _)). Qed.

(** ** Authorization lists *)
Definition authorization_body (e : AuthorizationEntry) : list Z :=
  enc_u256 (default 0 (chain_id (auth_sc e))) ++ encode_address (Some (auth_address e)) ++ enc_u64 (auth_nonce e)
  ++ enc_u8 (y_parity (signature (auth_sc e))) ++ enc_u256 (sig_r (signature (auth_sc e)))
  ++ enc_u256 (sig_s (signature (auth_sc e))).
Definition sig_ok (s : Secp256k1Signature) : Prop :=
  uint_ok 1 (y_parity s) ∧ uint_ok 32 (sig_r s) ∧ uint_ok 32 (sig_s s).
Definition authorization_ok (e : AuthorizationEntry) : Prop :=
  (∃ c, chain_id (auth_sc e) = Some c ∧ uint_ok 32 c) ∧ uint_ok 20 (auth_address e) ∧
  uint_ok 8 (auth_nonce e) ∧ sig_ok (signature (auth_sc e)).
#[global] Instance authorization_codec :
  Codec (list_ok authorization_ok authorization_body) (λ e, encode_list2 [authorization_body e])
    decode_authorization_entry.
Proof.
  apply in_list_codec. split.
  - intros [[[r s y] c] a n] [(c' & Ec & Hc) (Ha & Hn & Hy & Hr & Hs)]. exists []. unfold authorization_body.
    cbn in Ec, Ha, Hn, Hy, Hr, Hs. subst c. cbn [auth_sc chain_id signature auth_address auth_nonce y_parity sig_r sig_s default from_option]. unfold id.
    rewrite <- (app_nil_r (enc_u256 s)). by decode_fwd.
  - intros e x r He Hl E. decode_bwd. unfold authorization_body, authorization_ok, sig_ok. cbn. unfold id.
    rewrite app_nil_r. split; [|done]. eauto 10.
  - intros e [(c & Ec & Hc) (Ha & Hn & Hy & Hr & Hs)]. unfold authorization_body. rewrite Ec.
    cbn [default from_option]. unfold id.
    rewrite !Forall_app. split_and!;
      [bytes_of (lift (decode_unsigned 32))|bytes_of (lift decode_address)|bytes_of (lift (decode_unsigned 8))|bytes_of (lift (decode_unsigned 1))|bytes_of (lift (decode_unsigned 32))..].
  - intros e He Hl. decode_total.
Qed.
Abbreviation authorization_list_ok :=
  (list_ok (Forall (list_ok authorization_ok authorization_body))
     (encode_all (λ e, encode_list2 [authorization_body e]))).
#[global] Instance authorization_list_codec :
  Codec authorization_list_ok (λ l, encode_list2 [encode_all (λ e, encode_list2 [authorization_body e]) l])
    decode_authorization_list.
Proof. apply (in_list_codec _ _ _ (decode_all_payload _ _ _)). Qed.

Lemma encode_authorizations_eq l : Forall (list_ok authorization_ok authorization_body) l →
  encode_authorizations l = Ok (encode_all (λ e, encode_list2 [authorization_body e]) l).
Proof.
  unfold encode_all. induction 1 as [|e l [[(c & Ec & _) _] _] _ IH]; [done|]. cbn [encode_authorizations map concat].
  rewrite Ec, IH. ostep. do 2 f_equal. unfold encode_authorization_entry.
  rewrite encode_list2_concat. cbn [concat]. unfold authorization_body. rewrite Ec, app_nil_r. done.
Qed.

(** ** Typed transactions *)
Definition typed_body (tx : Transaction) : list Z :=
  enc_u256 (default 0 (chain_id (tx_sc tx))) ++ enc_u64 (tx_nonce tx)
  ++ (if has_priority_fee (tx_type tx) then enc_u256 (max_priority_fee_per_gas tx) else [])
  ++ enc_u256 (max_fee_per_gas tx) ++ enc_u64 (tx_gas_limit tx) ++ encode_address (tx_to tx)
  ++ enc_u256 (tx_value tx) ++ encode_string2 (tx_data tx) ++ encode_access_list (access_list tx)
  ++ (if bool_decide (tx_type tx = eip4844)
      then enc_u256 (max_fee_per_blob_gas tx)
           ++ encode_list2 [concat (map encode_bytes32 (blob_versioned_hashes tx))]
      else [])
  ++ (if bool_decide (tx_type tx = eip7702)
      then encode_list2 [encode_all (λ e, encode_list2 [authorization_body e]) (authorization_list tx)]
      else [])
  ++ enc_u8 (y_parity (signature (tx_sc tx))) ++ enc_u256 (sig_r (signature (tx_sc tx)))
  ++ enc_u256 (sig_s (signature (tx_sc tx))).

(** The fields a transaction of each type has on the wire, within their
    widths; the others have their default. *)
Record typed_ok (ty : TransactionType) (tx : Transaction) : Prop := {
  to_type : tx_type tx = ty;
  to_chain : ∃ c, chain_id (tx_sc tx) = Some c ∧ uint_ok 32 c;
  to_nonce : uint_ok 8 (tx_nonce tx);
  to_priority : if has_priority_fee ty then uint_ok 32 (max_priority_fee_per_gas tx)
                else max_priority_fee_per_gas tx = 0;
  to_fee : uint_ok 32 (max_fee_per_gas tx);
  to_gas : uint_ok 8 (tx_gas_limit tx);
  to_to : ∀ a, tx_to tx = Some a → uint_ok 20 a;
  to_value : uint_ok 32 (tx_value tx);
  to_data : string_ok (tx_data tx);
  to_access : access_list_ok (access_list tx);
  to_blob : if bool_decide (ty = eip4844)
            then tx_to tx ≠ None ∧ uint_ok 32 (max_fee_per_blob_gas tx) ∧ hashes_ok (blob_versioned_hashes tx)
            else max_fee_per_blob_gas tx = 0 ∧ blob_versioned_hashes tx = [];
  to_auth : if bool_decide (ty = eip7702)
            then tx_to tx ≠ None ∧ authorization_list_ok (authorization_list tx)
            else authorization_list tx = [];
  to_sig : sig_ok (signature (tx_sc tx))
}.

Ltac ty_simpl :=
  repeat match goal with
  | |- context [bool_decide (?a = ?b :> TransactionType)] =>
      let v := eval vm_compute in (bool_decide (a = b)) in change (bool_decide (a = b)) with v
  | H : context [bool_decide (?a = ?b :> TransactionType)] |- _ =>
      let v := eval vm_compute in (bool_decide (a = b)) in change (bool_decide (a = b)) with v in H
  end; cbn [has_priority_fee when] in *; cbv iota in *; cbn [app andb] in *.

Lemma treject_pass {X} b err (k : () → tdecoder X) e : b = false → (treject b err ≫= k) e = k () e.
Proof. by intros ->. Qed.
Lemma mret_bind {A X} (a : A) (k : A → tdecoder X) e : (mret a ≫= k) e = k a e.
Proof. done. Qed.
Lemma typed_complete ty tx : typed_ok ty tx →
  decode_eip2718_payload ty (typed_body tx) = Ok (inr (tx, [])).
Proof.
  destruct tx as [[[r s y] c] nonce fee gas value to ty' data access prio bfee hashes auths].
  intros [Hty (c' & Hc & Hcok) Hn Hp Hf Hg Hto Hv Hd Ha Hb Hau (Hy & Hr & Hs)].
  cbn in *. subst ty' c. unfold typed_body, decode_eip2718_payload.
  cbn [tx_sc chain_id default from_option signature y_parity sig_r sig_s tx_nonce max_fee_per_gas tx_gas_limit
    tx_value tx_to tx_type tx_data access_list max_priority_fee_per_gas max_fee_per_blob_gas
    blob_versioned_hashes authorization_list]. unfold id.
  rewrite <- (app_nil_r (enc_u256 s)).
  destruct ty; ty_simpl; try (destruct Hb as (Hb1 & Hb2)); try (destruct Hb2 as (Hb2 & Hb3));
    try (destruct Hau as (Hau1 & Hau2)); subst;
    repeat first [rewrite <- app_assoc | decode_fwd_step | rewrite mret_bind
      | rewrite treject_pass by (done || (by rewrite bool_decide_eq_false_2))]; try done.
Qed.
Lemma typed_sound ty e tx r : bytes_ok e → len e < 2 ^ 32 →
  decode_eip2718_payload ty e = Ok (inr (tx, r)) → typed_ok ty tx ∧ e = typed_body tx.
Proof.
  intros He Hl E. unfold decode_eip2718_payload in E.
  destruct ty; ty_simpl; decode_bwd; repeat (rewrite mret_bind in E; decode_bwd); subst;
    repeat match goal with H : bool_decide (_ = None) = false |- _ => apply bool_decide_eq_false in H end;
    unfold typed_body; cbn; ty_simpl; unfold id; rewrite ?app_nil_r, <- ?app_assoc;
    (split; [|done]); (split; cbn; ty_simpl; try done; eauto).
Qed.
Lemma typed_total ty e : bytes_ok e → len e < 2 ^ 32 → ∃ r, decode_eip2718_payload ty e = Ok r.
Proof.
  intros He Hl. unfold decode_eip2718_payload.
  destruct ty; ty_simpl;
    repeat first [decode_total_step | rewrite mret_bind
      | match goal with |- ∃ r, (treject ?b _ ≫= _) _ = _ => destruct b; [by eauto|rewrite treject_pass by done] end].
Qed.
Lemma typed_bytes ty tx : typed_ok ty tx → bytes_ok (typed_body tx).
Proof.
  intros [Hty (c' & Hc & Hcok) Hn Hp Hf Hg Hto Hv Hd Ha Hb Hau (Hy & Hr & Hs)]. unfold typed_body.
  rewrite Hc, Hty. cbn [default from_option]. unfold id.
  rewrite !Forall_app. split_and!;
    [bytes_of (lift (decode_unsigned 32))|bytes_of (lift (decode_unsigned 8))| |bytes_of (lift (decode_unsigned 32))
    |bytes_of (lift (decode_unsigned 8))|bytes_of (lift decode_optional_address)|bytes_of (lift (decode_unsigned 32))
    |bytes_of (lift decode_string)|bytes_of decode_access_list| | |bytes_of (lift (decode_unsigned 1))
    |bytes_of (lift (decode_unsigned 32))|bytes_of (lift (decode_unsigned 32))].
  - destruct (has_priority_fee ty); [bytes_of (lift (decode_unsigned 32))|done].
  - destruct (bool_decide (ty = eip4844)); [|done]. destruct Hb as (_ & Hb1 & Hb2). apply Forall_app.
    split; [bytes_of (lift (decode_unsigned 32))|bytes_of (in_list (decode_all (lift decode_bytes32)))].
  - destruct (bool_decide (ty = eip7702)); [|done]. destruct Hau as (_ & Hau). bytes_of decode_authorization_list.
Qed.
#[global] Instance typed_payload ty : Payload (typed_ok ty) typed_body (decode_eip2718_payload ty).
Proof.
  split.
  - intros tx Htx. exists []. by apply typed_complete.
  - apply typed_sound.
  - apply typed_bytes.
  - apply typed_total.
Qed.

(** ** Legacy transactions *)
Record legacy_ok (tx : Transaction) : Prop := {
  lo_type : tx_type tx = legacy;
  lo_nonce : uint_ok 8 (tx_nonce tx);
  lo_fee : uint_ok 32 (max_fee_per_gas tx);
  lo_gas : uint_ok 8 (tx_gas_limit tx);
  lo_to : ∀ a, tx_to tx = Some a → uint_ok 20 a;
  lo_value : uint_ok 32 (tx_value tx);
  lo_data : string_ok (tx_data tx);
  lo_r : uint_ok 32 (sig_r (signature (tx_sc tx)));
  lo_s : uint_ok 32 (sig_s (signature (tx_sc tx)));
  lo_defaults : access_list tx = [] ∧ max_priority_fee_per_gas tx = 0 ∧ max_fee_per_blob_gas tx = 0 ∧
    blob_versioned_hashes tx = [] ∧ authorization_list tx = []
}.
(** its chain id and parity are those of the signature value [v] *)
Definition sc_of_v (v : Z) (tx : Transaction) : Prop :=
  y_parity (signature (tx_sc tx)) = y_parity (signature (from_v v default_sc)) ∧
  chain_id (tx_sc tx) = chain_id (from_v v default_sc).
Definition legacy_body (v : Z) (tx : Transaction) : list Z :=
  encode_legacy_base tx ++ enc_u256 v ++ enc_u256 (sig_r (signature (tx_sc tx)))
  ++ enc_u256 (sig_s (signature (tx_sc tx))).

Lemma decode_sc_bind {X} (k : SignatureAndChain → tdecoder X) e :
  (decode_sc ≫= k) e = (dec_u256 ≫= λ v, k (from_v v default_sc)) e.
Proof. unfold decode_sc, mbind, tdecoder_bind, lift. by destruct (decode_unsigned 32 e) as [|[]]. Qed.

Lemma legacy_complete v tx rest : uint_ok 32 v → legacy_ok tx → sc_of_v v tx → len (legacy_body v tx) < 2 ^ 32 →
  decode_transaction_legacy (encode_list2 [legacy_body v tx] ++ rest) = Ok (inr (tx, rest)).
Proof.
  destruct tx as [[[r s y] c] nonce fee gas value to ty data access prio bfee hashes auths].
  intros Hvok [Hty Hn Hf Hg Hto Hv Hd Hr Hs (H1 & H2 & H3 & H4 & H5)] [Hy Hc] Hl. cbn in *. subst.
  unfold decode_transaction_legacy, in_list. set (body := dec_u64 ≫= _).
  unfold mbind, tdecoder_bind, lift. rewrite parse_list_complete; cbn [concat]; rewrite app_nil_r; [|lia].
  unfold on_view. enough (body (legacy_body v (mkTransaction
    (mkSignatureAndChain (mkSignature r s (y_parity (signature (from_v v default_sc))))
       (chain_id (from_v v default_sc))) nonce fee gas value to legacy data [] 0 0 [] [])) =
    Ok (inr (mkTransaction
    (mkSignatureAndChain (mkSignature r s (y_parity (signature (from_v v default_sc))))
       (chain_id (from_v v default_sc))) nonce fee gas value to legacy data [] 0 0 [] [], []))) as -> by done.
  unfold body, legacy_body, encode_legacy_base. cbn [tx_sc signature sig_r sig_s tx_nonce max_fee_per_gas tx_gas_limit
    tx_value tx_to tx_data]. rewrite <- (app_nil_r (enc_u256 s)).
  repeat first [rewrite <- app_assoc | rewrite decode_sc_bind | decode_fwd_step]. done.
Qed.
Lemma legacy_sound e tx rest : bytes_ok e → len e < 2 ^ 32 →
  decode_transaction_legacy e = Ok (inr (tx, rest)) →
  ∃ v, uint_ok 32 v ∧ legacy_ok tx ∧ sc_of_v v tx ∧ e = encode_list2 [legacy_body v tx] ++ rest.
Proof.
  intros He Hl E. unfold decode_transaction_legacy, in_list in E. set (body := dec_u64 ≫= _) in E.
  unfold mbind, tdecoder_bind, lift in E. destruct (parse_list_metadata e) as [|[p r]] eqn:Ep; [done|].
  destruct (list_sound _ _ _ He Hl Ep) as (Hp & Hlp & ->). unfold on_view in E.
  destruct (body p) as [[|[tx' r']]| |] eqn:Eb; try done. injection E as -> ->. clear He Hl Ep.
  unfold body in Eb. decode_bwd.
  rewrite decode_sc_bind in Eb. decode_bwd. eexists.
  unfold legacy_body, encode_legacy_base. cbn. rewrite app_nil_r, <- !app_assoc.
  split; [|split; [|split; [|reflexivity]]]; [assumption|by split|done].
Qed.
Lemma legacy_total e : bytes_ok e → len e < 2 ^ 32 → ∃ r, decode_transaction_legacy e = Ok r.
Proof.
  intros He Hl. unfold decode_transaction_legacy, in_list. set (body := dec_u64 ≫= _).
  unfold mbind, tdecoder_bind, lift. destruct (parse_list_metadata e) as [|[p r]] eqn:Ep; [eauto|].
  destruct (list_sound _ _ _ He Hl Ep) as (Hp & Hlp & ->). unfold on_view.
  enough (∃ x, body p = Ok x) as [[|[]] ->] by eauto.
  unfold body. repeat first [decode_total_step | rewrite decode_sc_bind].
Qed.

(** ** Transactions *)
Lemma eip2718_complete ty tx : ty ≠ LAST → typed_ok ty tx → len (typed_body tx) < 2 ^ 32 →
  decode_transaction_eip2718 (type_byte ty :: encode_list2 [typed_body tx]) = Ok (inr (tx, [])).
Proof.
  intros Hty Hok Hl. unfold decode_transaction_eip2718, mbind, tdecoder_bind, view, tassert, lift.
  rewrite len_cons. pose proof (len_nonneg (encode_list2 [typed_body tx])).
  rewrite (proj2 (Z.eqb_neq _ 0)) by lia. cbn [negb head default from_option]. unfold id.
  assert (type_byte ty >=? type_byte LAST = false) as -> by (by destruct ty).
  assert (byte_type (type_byte ty) = ty) as -> by (by destruct ty).
  unfold treject, mret, tdecoder_ret. cbn [drop]. rewrite drop_0, <- (app_nil_r (encode_list2 _)).
  rewrite parse_list_complete; cbn [concat]; rewrite app_nil_r; [|lia].
  unfold on_view. by rewrite typed_complete.
Qed.
Lemma eip2718_sound e tx rest : bytes_ok e → len e < 2 ^ 32 →
  decode_transaction_eip2718 e = Ok (inr (tx, rest)) →
  rest = [] ∧ ∃ ty, ty ≠ LAST ∧ e = type_byte ty :: encode_list2 [typed_body tx] ∧ typed_ok ty tx.
Proof.
  intros He Hl. unfold decode_transaction_eip2718, mbind, tdecoder_bind, view, tassert, lift.
  destruct e as [|b e]; [done|]. rewrite len_cons in *. pose proof (len_nonneg e).
  rewrite (proj2 (Z.eqb_neq _ 0)) by lia. cbn [negb head default from_option]. unfold id.
  unfold treject. rewrite Z.geb_leb. destruct (Z.leb_spec (type_byte LAST) b) as [|Hb]; [done|].
  apply Forall_cons_iff in He as [[Hb0 _] He]. unfold mret, tdecoder_ret. cbn [drop]. rewrite drop_0.
  destruct (parse_list_metadata e) as [|[p r]] eqn:Ep; [done|].
  destruct (list_sound _ _ _ He ltac:(lia) Ep) as (Hp & Hlp & ->). unfold on_view.
  destruct (decode_eip2718_payload (byte_type b) p) as [[|[tx' r']]| |] eqn:Eb; try done.
  destruct (typed_sound _ _ _ _ Hp Hlp Eb) as [Hok ->].
  unfold check_empty, mbind, tdecoder_bind, view, treject.
  destruct (Z.eqb_spec (len r) 0) as [E0|]; [|done]. rewrite (len_zero r E0). intros [= -> <-].
  split; [done|]. exists (byte_type b). rewrite app_nil_r.
  assert (type_byte (byte_type b) = b ∧ byte_type b ≠ LAST) as [-> Hne].
  { cbn in Hb. assert (b = 0 ∨ b = 1 ∨ b = 2 ∨ b = 3 ∨ b = 4) as Hc by lia.
    by destruct Hc as [->|[->|[->|[->| ->]]]]. }
  done.
Qed.
Lemma eip2718_total e : e ≠ [] → bytes_ok e → len e < 2 ^ 32 → ∃ r, decode_transaction_eip2718 e = Ok r.
Proof.
  intros Hne He Hl. unfold decode_transaction_eip2718, mbind, tdecoder_bind, view, tassert, lift.
  destruct e as [|b e]; [done|]. rewrite len_cons in *. pose proof (len_nonneg e).
  rewrite (proj2 (Z.eqb_neq _ 0)) by lia. cbn [negb head default from_option]. unfold id, treject.
  destruct (b >=? type_byte LAST); [unfold tfail; eauto|].
  apply Forall_cons_iff in He as [_ He]. unfold mret, tdecoder_ret. cbn [drop]. rewrite drop_0.
  destruct (parse_list_metadata e) as [|[p r]] eqn:Ep; [eauto|].
  destruct (list_sound _ _ _ He ltac:(lia) Ep) as (Hp & Hlp & ->). unfold on_view.
  destruct (typed_total (byte_type b) p Hp Hlp) as [[|[tx r']] ->]; [eauto|].
  unfold check_empty, mbind, tdecoder_bind, view, treject. destruct (len r =? 0); cbn; unfold tfail; eauto.
Qed.

Lemma encode_typed ty tx : ty ≠ legacy → typed_ok ty tx →
  encode_transaction tx = Ok (type_byte ty :: encode_list2 [typed_body tx]).
Proof.
  intros Hty Hok. pose proof (to_auth _ _ Hok) as Hau. unfold encode_transaction. rewrite (to_type _ _ Hok).
  rewrite bool_decide_eq_false_2 by done. unfold encode_eip2718_base, typed_body. rewrite (to_type _ _ Hok).
  destruct (bool_decide (ty = eip7702)).
  - destruct Hau as (_ & [Hau _]). unfold encode_authorization_list. rewrite encode_authorizations_eq by done.
    ostep. do 2 f_equal. rewrite encode_list2_concat. cbn [concat]. by rewrite !app_nil_r, <- !app_assoc.
  - ostep. do 2 f_equal. rewrite encode_list2_concat. cbn [concat]. by rewrite !app_nil_r, <- !app_assoc.
Qed.
Lemma encode_legacy v tx : tx_type tx = legacy → get_v (tx_sc tx) = Ok v →
  encode_transaction tx = Ok (encode_list2 [legacy_body v tx]).
Proof.
  intros Hty Hv. unfold encode_transaction. rewrite Hty, Hv, bool_decide_eq_true_2 by done. ostep. f_equal.
  rewrite encode_list2_concat. cbn [concat]. by rewrite app_nil_r.
Qed.

Lemma encode_list2_head p : 0xc0 ≤ default 0 (head (encode_list2 [p])).
Proof.
  unfold encode_list2. pose proof (len_nonneg (concat [p])).
  destruct (_ >? _); cbn [head default from_option]; unfold id; [|lia].
  pose proof (len_nonneg (to_big_compact 8 (len (concat [p])))). lia.
Qed.
Lemma decode_transaction_list_form p rest :
  decode_transaction (encode_list2 [p] ++ rest) = decode_transaction_legacy (encode_list2 [p] ++ rest).
Proof.
  pose proof (encode_list2_head p) as Hh. destruct (encode_list2 [p]) as [|b l]; [cbn in Hh; unfold id in Hh; lia|].
  cbn [app decode_transaction head default from_option] in *. unfold id in Hh.
  by rewrite Z.geb_leb, (proj2 (Z.leb_le _ _)) by lia.
Qed.
Lemma decode_transaction_typed_form ty l : ty ≠ LAST →
  decode_transaction (type_byte ty :: l) = decode_transaction_eip2718 (type_byte ty :: l).
Proof. by destruct ty. Qed.

(** The transactions with a wire format. *)
Definition wire_ok (tx : Transaction) : Prop :=
  (legacy_ok tx ∧ 0 ≤ y_parity (signature (tx_sc tx)) ≤ 1 ∧
     (∀ c, chain_id (tx_sc tx) = Some c → 0 ≤ c ≤ max_chain_id)) ∨
  (∃ ty, ty ≠ legacy ∧ ty ≠ LAST ∧ typed_ok ty tx).

(** C36: Decoding inverts encoding: every transaction of one of the five
    types whose fields are within their widths encodes, and the decoder
    returns it from its encoding. *)
Theorem transaction_round_trip tx : wire_ok tx →
  ∃ e, encode_transaction tx = Ok e ∧
    (len e < 2 ^ 32 → decode_transaction e = Ok (inr (tx, []))).
Proof.
  intros [(Hok & Hy & Hc)|(ty & H1 & H2 & Hok)].
  - assert (∃ v, get_v (tx_sc tx) = Ok v) as [v Hv].
    { unfold get_v. destruct (chain_id (tx_sc tx)) as [c|]; [|eauto].
      rewrite (proj2 (Z.leb_le _ _)) by (by apply Hc). eauto. }
    destruct (from_v_get_v default_sc (tx_sc tx) v) as (Hvr & Hpar & Hch); [done|done|done|by intros c ?; apply Hc|done|].
    exists (encode_list2 [legacy_body v tx]). split; [by apply encode_legacy, Hv; apply Hok|]. intros Hl.
    rewrite <- (app_nil_r (encode_list2 _)), decode_transaction_list_form. apply legacy_complete; [done|done|done|].
    destruct (encode_list2_one (legacy_body v tx)) as (h & Eh & _). rewrite Eh, len_app in Hl.
    pose proof (len_nonneg h). lia.
  - exists (type_byte ty :: encode_list2 [typed_body tx]). split; [by apply encode_typed|]. intros Hl.
    rewrite decode_transaction_typed_form by done. apply eip2718_complete; [done|done|].
    destruct (encode_list2_one (typed_body tx)) as (h & Eh & _). rewrite len_cons, Eh, len_app in Hl.
    pose proof (len_nonneg h). lia.
Qed.

(** C37: The wire format is canonical: a byte string that decodes, other than
    a typed envelope of type 0, is the encoding of the decoded transaction;
    when the signature value of a legacy transaction is none of 27, 28 and
    the EIP-155 values, there is no such encoding and the encoder throws. *)
Theorem transaction_canonical e tx rest : bytes_ok e → len e < 2 ^ 32 → head e ≠ Some 0 →
  decode_transaction e = Ok (inr (tx, rest)) →
  (∃ e', encode_transaction tx = Ok e' ∧ e = e' ++ rest) ∨
  encode_transaction tx = Throw "get_v: chain_id out of bounds".
Proof.
  intros He Hl Hz. destruct e as [|b e]; [done|]. cbn [decode_transaction].
  destruct (b >=? 0xc0).
  - intros E. destruct (legacy_sound _ _ _ He Hl E) as (v & Hv & Hok & [Hy Hc] & Ee). rewrite Ee.
    assert (get_v (tx_sc tx) = get_v (from_v v default_sc)) as Eg by (unfold get_v; by rewrite Hc, Hy).
    rewrite get_v_from_v in Eg by (try done; apply Hv). destruct (_ || _).
    + left. exists (encode_list2 [legacy_body v tx]). split; [|done]. apply encode_legacy; [apply Hok|done].
    + right. unfold encode_transaction. rewrite (lo_type _ Hok), bool_decide_eq_true_2 by done. by rewrite Eg.
  - intros E. destruct (eip2718_sound _ _ _ He Hl E) as (-> & ty & Hty & Ee & Hok). left.
    exists (type_byte ty :: encode_list2 [typed_body tx]). rewrite app_nil_r. split; [|done].
    apply encode_typed; [|done]. intros ->. injection Ee as -> _. done.
Qed.

(** No byte string makes the decoder of a single transaction fail an
    assertion or throw. *)
Theorem decode_transaction_total e : bytes_ok e → len e < 2 ^ 32 → ∃ r, decode_transaction e = Ok r.
Proof.
  intros He Hl. destruct e as [|b e]; [by eauto|]. cbn [decode_transaction].
  destruct (b >=? 0xc0); [by apply legacy_total|by apply eip2718_total].
Qed.

(** ** Optional and repeated fields *)
Section fields.
Context {A : Type} (ok : A → Prop) (enc : A → list Z) (dec : tdecoder A) `{C : !Codec ok enc dec}.

#[global] Instance some_of_codec :
  Codec (λ o, ∃ a, o = Some a ∧ ok a) (λ o, when_some o enc) (some_of dec).
Proof.
  split.
  - intros o rest (a & -> & Ha). unfold some_of. cbn [when_some]. by rewrite (bind_complete ok enc dec).
  - intros e o rest He Hl E. unfold some_of in E. decode_bwd. eauto.
  - intros o (a & -> & Ha). cbn [when_some]. by apply (codec_bytes (dec := dec)).
  - intros o (a & -> & Ha). cbn [when_some]. by apply (codec_nonempty (dec := dec)).
  - intros e He Hl. unfold some_of. decode_total.
Qed.

Lemma if_more_take {X} (dflt : A) (k : A → tdecoder X) a rest : ok a →
  (if_more dec dflt ≫= k) (enc a ++ rest) = k a rest.
Proof.
  intros Ha. unfold mbind, tdecoder_bind, if_more. rewrite len_app. pose proof (codec_nonempty a Ha).
  pose proof (len_nonneg rest). rewrite (proj2 (Z.eqb_neq _ _)) by lia. by rewrite codec_complete.
Qed.
Lemma if_more_sound {X} (dflt : A) (k : A → tdecoder X) e x r : bytes_ok e → len e < 2 ^ 32 →
  (if_more dec dflt ≫= k) e = Ok (inr (x, r)) →
  (e = [] ∧ k dflt [] = Ok (inr (x, r))) ∨
  (∃ a e', ok a ∧ e = enc a ++ e' ∧ bytes_ok e' ∧ len e' < 2 ^ 32 ∧ k a e' = Ok (inr (x, r))).
Proof.
  intros He Hl E. destruct (Z.eqb_spec (len e) 0) as [E0|E0].
  - left. by rewrite (len_zero e E0) in *.
  - right. apply (bind_sound ok enc dec k e x r He Hl). unfold mbind, tdecoder_bind, if_more in *.
    by rewrite (proj2 (Z.eqb_neq _ _)) in E.
Qed.
Lemma if_more_total {X} (dflt : A) (k : A → tdecoder X) e : bytes_ok e → len e < 2 ^ 32 →
  (∃ r, k dflt [] = Ok r) →
  (∀ a e', bytes_ok e' → len e' < 2 ^ 32 → ∃ r, k a e' = Ok r) → ∃ r, (if_more dec dflt ≫= k) e = Ok r.
Proof.
  intros He Hl Hd Hk. destruct (Z.eqb_spec (len e) 0) as [E0|E0]; [by rewrite (len_zero e E0)|].
  unfold mbind, tdecoder_bind, if_more. rewrite (proj2 (Z.eqb_neq _ _) E0).
  apply (bind_total ok enc dec k e He Hl). eauto.
Qed.

#[global] Instance all_then_empty_payload :
  Payload (Forall ok) (encode_all enc) (xs ← decode_all dec; _ ← check_empty; mret xs).
Proof.
  assert (∀ e, (xs ← decode_all dec; _ ← check_empty; mret xs : tdecoder (list A)) e = decode_all dec e) as Eq.
  { intros e. unfold mbind at 1, tdecoder_bind at 1. destruct (decode_all dec e) as [[|[l r]]| |] eqn:E; try done.
    rewrite check_empty_eq. unfold decode_all, mbind, tdecoder_bind, view in E.
    by rewrite (decode_while_empties _ _ _ _ _ E). }
  destruct (decode_all_payload ok enc dec) as [P1 P2 P3 P4].
  split; [intros l Hl; rewrite Eq; by apply P1|intros e l r; rewrite Eq; apply P2|exact P3|intros e; rewrite Eq; apply P4].
Qed.
End fields.

(** ** Receipts *)
#[global] Instance topics_codec : Codec keys_ok encode_topics decode_topics.
Proof. apply (in_list_codec _ _ _ (all_then_empty_payload _ _ _)). Qed.

Definition log_ok (log : Log) : Prop :=
  uint_ok 20 (log_address log) ∧ keys_ok (log_topics log) ∧ string_ok (log_data log).
Definition log_body (log : Log) : list Z :=
  encode_address (Some (log_address log)) ++ encode_topics (log_topics log) ++ encode_string2 (log_data log).
#[global] Instance log_codec : Codec (list_ok log_ok log_body) encode_log decode_log.
Proof.
  assert (Codec (list_ok log_ok log_body) (λ l, encode_list2 [log_body l]) decode_log) as [C1 C2 C3 C4 C5].
  { apply in_list_codec. split.
    - intros [data topics a] (Ha & Ht & Hd). exists []. unfold log_body. cbn [log_address log_topics log_data] in *.
      rewrite <- (app_nil_r (encode_string2 data)). by decode_fwd.
    - intros e x r He Hl E. decode_bwd. unfold log_body. cbn. by rewrite app_nil_r.
    - intros log (Ha & Ht & Hd). unfold log_body. rewrite !Forall_app.
      split_and!; [bytes_of (lift decode_address)|bytes_of decode_topics|bytes_of (lift decode_string)].
    - intros e He Hl. decode_total. }
  assert (∀ l, encode_log l = encode_list2 [log_body l]) as Eq.
  { intros l. unfold encode_log. rewrite encode_list2_concat. cbn [concat]. by rewrite app_nil_r. }
  split; [intros a rest; rewrite Eq; apply C1|intros e a rest; rewrite Eq; apply C2|intros a; rewrite Eq; apply C3
         |intros a; rewrite Eq; apply C4|exact C5].
Qed.
Abbreviation logs_ok := (list_ok (Forall (list_ok log_ok log_body)) (encode_all encode_log)).
#[global] Instance logs_codec : Codec logs_ok (λ l, encode_list2 [encode_all encode_log l]) decode_logs.
Proof. apply (in_list_codec _ _ _ (all_then_empty_payload _ _ _)). Qed.

Definition bloom_ok (b : list Z) : Prop := bytes_ok b ∧ len b = Z.of_nat 256.
#[global] Instance bloom_codec : Codec bloom_ok encode_bloom decode_bloom.
Proof. apply fixed_string_codec. lia. Qed.
Definition nonce_ok (b : list Z) : Prop := bytes_ok b ∧ len b = Z.of_nat 8.
#[global] Instance nonce_codec : Codec nonce_ok encode_string2 (lift (decode_byte_string_fixed 8)).
Proof. apply fixed_string_codec. lia. Qed.

Definition untyped_body (r : Receipt) : list Z :=
  enc_u64 (rct_status r) ++ enc_u64 (rct_gas_used r) ++ encode_bloom (bloom r)
  ++ encode_list2 [encode_all encode_log (rct_logs r)].
Record untyped_ok (r : Receipt) : Prop := {
  uo_type : rct_type r = legacy;
  uo_status : uint_ok 8 (rct_status r);
  uo_gas : uint_ok 8 (rct_gas_used r);
  uo_bloom : bloom_ok (bloom r);
  uo_logs : logs_ok (rct_logs r)
}.
#[global] Instance untyped_codec :
  Codec (list_ok untyped_ok untyped_body) (λ r, encode_list2 [untyped_body r]) decode_untyped_receipt.
Proof.
  apply in_list_codec. split.
  - intros [b st g ty l] [Ht Hs Hg Hb Hl]. exists []. unfold untyped_body.
    cbn [rct_type rct_status rct_gas_used bloom rct_logs] in *. subst.
    rewrite <- (app_nil_r (encode_list2 _)). by decode_fwd.
  - intros e x r He Hl E. decode_bwd. unfold untyped_body. cbn. by rewrite app_nil_r.
  - intros r [Ht Hs Hg Hb Hl]. unfold untyped_body. rewrite !Forall_app.
    split_and!; [bytes_of (lift (decode_unsigned 8))|bytes_of (lift (decode_unsigned 8))|bytes_of decode_bloom
      |bytes_of decode_logs].
  - intros e He Hl. decode_total.
Qed.
