(* ===== verification/WireBlocks.v ===== *)
(** * Correctness of the receipt and block header encodings

    With the codecs of WireFormat.v: decoding is the exact inverse of encoding
    for receipts, withdrawals and block headers, and the two inputs on which
    the transaction decoders do not do what their callers rely on. *)
From S2P Require Import Prelude Words Rlp RlpFacts State Transaction TransactionFacts Receipt RlpTransaction WireFormat.

(** ** Receipts *)
Definition receipt_ok (r : Receipt) : Prop :=
  rct_type r ≠ LAST ∧ list_ok untyped_ok untyped_body (with_type legacy r).

Lemma untyped_body_type ty r : untyped_body (with_type ty r) = untyped_body r.
Proof. done. Qed.
Lemma with_type_type ty ty' r : with_type ty (with_type ty' r) = with_type ty r.
Proof. done. Qed.
Lemma with_type_same r : with_type (rct_type r) r = r.
Proof. by destruct r. Qed.
Lemma encode_receipt_eq r : rct_type r ≠ LAST →
  encode_receipt r =
    (if bool_decide (rct_type r = legacy) then [] else [type_byte (rct_type r)]) ++ encode_list2 [untyped_body r].
Proof.
  intros Hty. unfold encode_receipt. rewrite encode_list2_concat. cbn [concat]. rewrite app_nil_r.
  by destruct (rct_type r).
Qed.

Lemma receipt_complete r rest : receipt_ok r → decode_receipt (encode_receipt r ++ rest) = Ok (inr (r, rest)).
Proof.
  intros [Hty Hok]. rewrite encode_receipt_eq by done.
  pose proof (codec_complete (dec := decode_untyped_receipt) _ rest Hok) as E. cbv beta in E.
  rewrite untyped_body_type in E. rewrite <- app_assoc. destruct (rct_type r) eqn:Et; try done;
    cbn [bool_decide decide_rel]; (change (bool_decide _) with true || change (bool_decide _) with false);
    cbn [app type_byte decode_receipt]; try (cbn [Z.ltb Z.eqb Z.compare Pos.compare Pos.compare_cont Pos.eqb];
      unfold mbind, tdecoder_bind; rewrite E, with_type_type, <- Et, with_type_same; done).
  pose proof (encode_list2_head (untyped_body r)) as Hh. destruct (encode_list2 [untyped_body r]) as [|b l];
    [cbn in Hh; unfold id in Hh; lia|]. cbn [app] in *. unfold decode_receipt.
  cbn [head default from_option] in Hh. unfold id in Hh. rewrite (proj2 (Z.ltb_ge _ _)) by lia.
  unfold mbind, tdecoder_bind. by rewrite E, with_type_type, <- Et, with_type_same.
Qed.

Lemma untyped_inv e r rest : bytes_ok e → len e < 2 ^ 32 → decode_untyped_receipt e = Ok (inr (r, rest)) →
  list_ok untyped_ok untyped_body r ∧ e = encode_list2 [untyped_body r] ++ rest.
Proof. intros He Hl E. exact (codec_sound (dec := decode_untyped_receipt) e r rest He Hl E). Qed.
Lemma with_legacy r : untyped_ok r → with_type legacy r = r.
Proof. intros [Ht _ _ _ _]. by rewrite <- Ht, with_type_same. Qed.

Lemma receipt_sound e r rest : bytes_ok e → len e < 2 ^ 32 → decode_receipt e = Ok (inr (r, rest)) →
  receipt_ok r ∧ e = encode_receipt r ++ rest.
Proof.
  intros He Hl. destruct e as [|b e]; [done|]. unfold decode_receipt, mbind, tdecoder_bind.
  destruct (Z.ltb_spec b 0xc0) as [Hb|Hb].
  - apply Forall_cons_iff in He as [_ He]. rewrite len_cons in Hl. pose proof (len_nonneg e).
    destruct (decode_untyped_receipt e) as [[|[r0 e']]| |] eqn:E; try done.
    destruct (untyped_inv _ _ _ He ltac:(lia) E) as [[Hok Hlb] ->].
    assert (∀ ty, ty ≠ LAST → ty ≠ legacy → b = type_byte ty → with_type ty r0 = r → e' = rest →
      receipt_ok r ∧ b :: encode_list2 [untyped_body r0] ++ e' = encode_receipt r ++ rest) as Hgo.
    { intros ty H1 H2 -> <- ->. split.
      - split; [done|]. rewrite with_type_type, with_legacy by done. done.
      - rewrite encode_receipt_eq by done. cbn [rct_type with_type].
        rewrite bool_decide_eq_false_2 by done. by rewrite untyped_body_type. }
    destruct (Z.eqb_spec b 1); [intros [= ? ?]; by apply (Hgo eip2930)|].
    destruct (Z.eqb_spec b 2); [intros [= ? ?]; by apply (Hgo eip1559)|].
    destruct (Z.eqb_spec b 3); [intros [= ? ?]; by apply (Hgo eip4844)|].
    destruct (Z.eqb_spec b 4); [intros [= ? ?]; by apply (Hgo eip7702)|done].
  - destruct (decode_untyped_receipt (b :: e)) as [[|[r0 e']]| |] eqn:E; try done.
    destruct (untyped_inv _ _ _ He Hl E) as [[Hok Hlb] Eq]. intros [= <- <-].
    rewrite with_legacy by done. destruct (Hok) as [Ht _ _ _ _]. split.
    + split; [by rewrite Ht|]. by rewrite with_legacy.
    + rewrite encode_receipt_eq by (by rewrite Ht). rewrite Ht.
      change (bool_decide (legacy = legacy)) with true. by rewrite Eq.
Qed.

(** Receipts: a byte string decodes to a receipt, leaving [rest], exactly
    when it is the receipt's encoding followed by [rest]; the receipts are
    those of the five types with 64-bit counters, a 256-byte bloom filter and
    well-formed logs. *)
Theorem receipt_codec e r rest : bytes_ok e → len e < 2 ^ 32 →
  decode_receipt e = Ok (inr (r, rest)) ↔ receipt_ok r ∧ e = encode_receipt r ++ rest.
Proof.
  intros He Hl. split; [by apply receipt_sound|]. intros [Hok ->]. by apply receipt_complete.
Qed.

(** ** Block headers *)
(** The optional fields were added one fork after the other; each needs the
    ones before it.  [slot_number] is not on the wire. *)
Record header_ok (h : BlockHeader) : Prop := {
  ho_parent : uint_ok 32 (parent_hash h);
  ho_ommers : uint_ok 32 (ommers_hash h);
  ho_beneficiary : uint_ok 20 (beneficiary h);
  ho_state : uint_ok 32 (state_root h);
  ho_txs : uint_ok 32 (transactions_root h);
  ho_receipts : uint_ok 32 (receipts_root h);
  ho_bloom : bloom_ok (logs_bloom h);
  ho_difficulty : uint_ok 32 (difficulty h);
  ho_number : uint_ok 8 (hdr_number h);
  ho_gas_limit : uint_ok 8 (hdr_gas_limit h);
  ho_gas_used : uint_ok 8 (hdr_gas_used h);
  ho_timestamp : uint_ok 8 (hdr_timestamp h);
  ho_extra : string_ok (extra_data h) ∧ len (extra_data h) ≤ EXTRA_DATA_MAX_LENGTH;
  ho_randao : uint_ok 32 (prev_randao h);
  ho_nonce : nonce_ok (hdr_nonce h);
  ho_optional :
    slot_number h = None ∧
    match base_fee_per_gas h, withdrawals_root h,
          (blob_gas_used h, excess_blob_gas h, parent_beacon_block_root h), requests_hash h with
    | None, None, (None, None, None), None => True
    | Some f, None, (None, None, None), None => uint_ok 32 f
    | Some f, Some w, (None, None, None), None => uint_ok 32 f ∧ uint_ok 32 w
    | Some f, Some w, (Some u, Some x, Some b), None =>
        uint_ok 32 f ∧ uint_ok 32 w ∧ uint_ok 8 u ∧ uint_ok 8 x ∧ uint_ok 32 b
    | Some f, Some w, (Some u, Some x, Some b), Some q =>
        uint_ok 32 f ∧ uint_ok 32 w ∧ uint_ok 8 u ∧ uint_ok 8 x ∧ uint_ok 32 b ∧ uint_ok 32 q
    | _, _, _, _ => False
    end
}.
Definition header_body (h : BlockHeader) : list Z :=
  encode_bytes32 (parent_hash h) ++ encode_bytes32 (ommers_hash h) ++ encode_address (Some (beneficiary h))
  ++ encode_bytes32 (state_root h) ++ encode_bytes32 (transactions_root h) ++ encode_bytes32 (receipts_root h)
  ++ encode_bloom (logs_bloom h) ++ enc_u256 (difficulty h) ++ enc_u64 (hdr_number h)
  ++ enc_u64 (hdr_gas_limit h) ++ enc_u64 (hdr_gas_used h) ++ enc_u64 (hdr_timestamp h)
  ++ encode_string2 (extra_data h) ++ encode_bytes32 (prev_randao h) ++ encode_string2 (hdr_nonce h)
  ++ when_some (base_fee_per_gas h) enc_u256
  ++ when_some (withdrawals_root h) encode_bytes32
  ++ when_some (blob_gas_used h) enc_u64
  ++ when_some (excess_blob_gas h) enc_u64
  ++ when_some (parent_beacon_block_root h) encode_bytes32
  ++ when_some (requests_hash h) encode_bytes32.

(** the three blob fields come together *)
Definition blob_fields_ok (t : option Z * option Z * option Z) : Prop :=
  ∃ u x b, t = (Some u, Some x, Some b) ∧ uint_ok 8 u ∧ uint_ok 8 x ∧ uint_ok 32 b.
Definition encode_blob_fields (t : option Z * option Z * option Z) : list Z :=
  when_some t.1.1 enc_u64 ++ when_some t.1.2 enc_u64 ++ when_some t.2 encode_bytes32.
#[global] Instance blob_fields_codec : Codec blob_fields_ok encode_blob_fields
  (used ← dec_u64; excess ← dec_u64; beacon ← lift decode_bytes32; mret (Some used, Some excess, Some beacon)).
Proof.
  split.
  - intros t rest (u & x & b & -> & Hu & Hx & Hb). unfold encode_blob_fields. cbn [fst snd when_some].
    rewrite <- !app_assoc. by decode_fwd.
  - intros e t rest He Hl E. decode_bwd. unfold encode_blob_fields. cbn [fst snd when_some].
    rewrite <- !app_assoc. split; [|done]. unfold blob_fields_ok. eauto 10.
  - intros t (u & x & b & -> & Hu & Hx & Hb). unfold encode_blob_fields. cbn [fst snd when_some].
    rewrite !Forall_app. split_and!; [bytes_of (lift (decode_unsigned 8))|bytes_of (lift (decode_unsigned 8))|bytes_of (lift decode_bytes32)].
  - intros t (u & x & b & -> & Hu & Hx & Hb). unfold encode_blob_fields. cbn [fst snd when_some].
    rewrite len_app. pose proof (codec_nonempty (dec := dec_u64) u Hu). pose proof (len_nonneg (enc_u64 x ++ encode_bytes32 b)). lia.
  - intros e He Hl. decode_total.
Qed.

Lemma if_more_some {A X} (ok : A → Prop) enc (d : tdecoder A) `{!Codec ok enc d}
    (k : option A → tdecoder X) a rest : ok a →
  (if_more (some_of d) None ≫= k) (enc a ++ rest) = k (Some a) rest.
Proof. intros Ha. apply (if_more_take _ (λ o, when_some o enc) (some_of d) None k (Some a)). eauto. Qed.
Lemma if_more_blob {X} (k : option Z * option Z * option Z → tdecoder X) u x b rest :
  uint_ok 8 u → uint_ok 8 x → uint_ok 32 b →
  (if_more (used ← dec_u64; excess ← dec_u64; beacon ← lift decode_bytes32;
            mret (Some used, Some excess, Some beacon)) (None, None, None) ≫= k)
    (enc_u64 u ++ enc_u64 x ++ encode_bytes32 b ++ rest) = k (Some u, Some x, Some b) rest.
Proof.
  intros Hu Hx Hb. rewrite <- (if_more_take _ _ _ (None, None, None) k (Some u, Some x, Some b) rest).
  - unfold encode_blob_fields. cbn [fst snd when_some]. by rewrite <- !app_assoc.
  - unfold blob_fields_ok. eauto 10.
Qed.
Lemma if_more_nil {A X} (d : tdecoder A) x (k : A → tdecoder X) : (if_more d x ≫= k) [] = k x [].
Proof. done. Qed.
Ltac header_fwd_step :=
  match goal with
  | |- context [(if_more _ _ ≫= _) []] => rewrite if_more_nil
  | |- context [(if_more (some_of ?d) None ≫= ?k) (_ ++ _)] =>
      rewrite (if_more_some _ _ d k) by assumption
  | |- context [(if_more _ (None, None, None) ≫= ?k) (_ ++ _)] => rewrite (if_more_blob k) by assumption
  | |- context [(treject ?b ?x ≫= ?k) ?e] => rewrite (treject_pass b x k e) by lia
  | _ => decode_fwd_step
  end.

Lemma header_complete h : header_ok h → decode_header_fields (header_body h) = Ok (inr (h, [])).
Proof.
  destruct h as [lb p o sr tr rr ra di nu gl gu ts no ex be bf wr bu xb pb rq sl].
  intros [H1 H2 H3 H4 H5 H6 H7 H8 H9 H10 H11 H12 [H13 H14] H15 H16 [H17 H18]]. cbn in *. subst sl.
  unfold header_body, decode_header_fields.
  cbn [logs_bloom parent_hash ommers_hash state_root transactions_root receipts_root prev_randao difficulty
    hdr_number hdr_gas_limit hdr_gas_used hdr_timestamp hdr_nonce extra_data beneficiary base_fee_per_gas
    withdrawals_root blob_gas_used excess_blob_gas parent_beacon_block_root requests_hash slot_number].
  rewrite <- (app_nil_r (when_some rq encode_bytes32)).
  destruct bf as [f|], wr as [w|], bu as [u|], xb as [x|], pb as [b|], rq as [q|]; try done;
    destruct_and?; cbn [when_some app]; repeat header_fwd_step; done.
Qed.

Ltac header_bwd :=
  repeat match goal with
  | H : (if_more _ _ ≫= _) ?e = Ok (inr _), Hb : bytes_ok ?e, Hl : len ?e < _ |- _ =>
      apply (if_more_sound _ _ _ _ _ e _ _ Hb Hl) in H as [[-> H]|(? & ? & ? & -> & ? & ? & H)]; clear Hb Hl
  | H : (if_more _ _ ≫= _) [] = Ok (inr _) |- _ => rewrite if_more_nil in H
  | H : ∃ _, Some _ = _ ∧ _ |- _ => destruct H as (? & ? & ?)
  | H : ∃ _, _ = Some _ ∧ _ |- _ => destruct H as (? & -> & ?)
  | H : blob_fields_ok _ |- _ => destruct H as (? & ? & ? & -> & ? & ? & ?)
  | _ => progress decode_bwd
  end.

Lemma header_sound e h r : bytes_ok e → len e < 2 ^ 32 → decode_header_fields e = Ok (inr (h, r)) →
  header_ok h ∧ e = header_body h.
Proof.
  intros He Hl E. unfold decode_header_fields in E. header_bwd.
  all: unfold header_body, encode_blob_fields; cbn; rewrite ?app_nil_r, <- ?app_assoc; split; [|done].
  all: split; cbn; try done; try (split; [done|]); try lia; tauto.
Qed.
Lemma header_total e : bytes_ok e → len e < 2 ^ 32 → ∃ r, decode_header_fields e = Ok r.
Proof.
  intros He Hl. unfold decode_header_fields.
  repeat first
    [ decode_total_step
    | match goal with
      | |- ∃ r, (treject ?b _ ≫= _) _ = Ok r => destruct b; [unfold treject, tfail; by eauto|rewrite treject_pass by done]
      | |- ∃ r, (if_more _ _ ≫= _) [] = Ok r => rewrite if_more_nil
      | |- ∃ r, (if_more ?d ?x ≫= ?k) ?e = Ok r =>
          apply (if_more_total _ _ d x k e); [assumption|assumption| |intros ? ? ? ?]
      end ].
Qed.
Lemma when_some_bytes {A} (f : A → list Z) o : (∀ a, bytes_ok (f a)) → bytes_ok (when_some o f).
Proof. intros Hf. destruct o as [a|]; [apply Hf|constructor]. Qed.
Lemma header_bytes h : header_ok h → bytes_ok (header_body h).
Proof.
  intros [_ _ _ _ _ _ H7 _ _ _ _ _ [H13 _] _ H16 _].
  assert (∀ n z, bytes_ok (encode_unsigned n z)) as Hu.
  { intros n z. apply encode_string2_bytes, to_big_compact_ok. }
  assert (∀ z, bytes_ok (encode_bytes32 z)) as Hb.
  { intros z. apply encode_string2_bytes, be_bytes_ok. }
  unfold header_body. rewrite !Forall_app.
  split_and!; repeat match goal with
  | |- bytes_ok (when_some _ _) => apply when_some_bytes; intros
  | |- bytes_ok (encode_unsigned _ _) => apply Hu
  | |- bytes_ok (encode_bytes32 _) => apply Hb
  end.
  - apply encode_string2_bytes, be_bytes_ok.
  - by apply encode_string2_bytes, H7.
  - by apply encode_string2_bytes, H13.
  - by apply encode_string2_bytes, H16.
Qed.
#[global] Instance header_codec_instance :
  Codec (list_ok header_ok header_body) encode_block_header decode_block_header.
Proof.
  apply (in_list_codec header_ok header_body decode_header_fields). split.
  - intros h Hh. exists []. by apply header_complete.
  - apply header_sound.
  - apply header_bytes.
  - apply header_total.
Qed.

(** Block headers: a byte string decodes to a header, leaving [rest],
    exactly when it is the header's encoding followed by [rest]; the headers
    are those whose optional fields are present in the order of the forks and
    whose extra data has at most 32 bytes.  No byte string makes the decoder
    fail an assertion. *)
Theorem header_codec e : bytes_ok e → len e < 2 ^ 32 →
  (∃ r, decode_block_header e = Ok r) ∧
  ∀ h rest, decode_block_header e = Ok (inr (h, rest)) ↔
    list_ok header_ok header_body h ∧ e = encode_block_header h ++ rest.
Proof.
  intros He Hl. split; [by apply codec_total|]. intros h rest. split.
  - apply (codec_sound (dec := decode_block_header)); done.
  - intros [Hh ->]. by apply (codec_complete (dec := decode_block_header)).
Qed.

(** ** Withdrawals *)
Definition withdrawal_ok (w : Withdrawal) : Prop :=
  uint_ok 8 (wd_index w) ∧ uint_ok 8 (wd_validator_index w) ∧ uint_ok 20 (wd_recipient w) ∧ uint_ok 8 (wd_amount w).
Definition withdrawal_body (w : Withdrawal) : list Z :=
  enc_u64 (wd_index w) ++ enc_u64 (wd_validator_index w) ++ encode_address (Some (wd_recipient w))
  ++ enc_u64 (wd_amount w).
Lemma withdrawal_complete w rest : list_ok withdrawal_ok withdrawal_body w →
  decode_withdrawal (encode_withdrawal w ++ rest) = Ok (inr (w, rest)) ∧ 0 < len (encode_withdrawal w).
Proof.
  assert (Payload withdrawal_ok withdrawal_body (index ← dec_u64; validator ← dec_u64;
    recipient ← lift decode_address; amount ← dec_u64; _ ← check_empty;
    mret (mkWithdrawal index validator amount recipient))) as HP.
  { split.
    - intros [i v m r] (Hi & Hv & Hr & Hm). exists []. unfold withdrawal_body.
      cbn [wd_index wd_validator_index wd_amount wd_recipient] in *.
      rewrite <- (app_nil_r (enc_u64 m)). by decode_fwd.
    - intros e x r He Hl E. decode_bwd. unfold withdrawal_body. cbn. by rewrite app_nil_r.
    - intros w0 (Hi & Hv & Hr & Hm). unfold withdrawal_body. rewrite !Forall_app.
      split_and!; [bytes_of (lift (decode_unsigned 8))|bytes_of (lift (decode_unsigned 8))
        |bytes_of (lift decode_address)|bytes_of (lift (decode_unsigned 8))].
    - intros e He Hl. decode_total. }
  intros Hw. pose proof (in_list_codec _ _ _ HP) as HC.
  assert (encode_withdrawal w = encode_list2 [withdrawal_body w]) as E.
  { unfold encode_withdrawal. rewrite encode_list2_concat. cbn [concat]. by rewrite app_nil_r. }
  pose proof (@codec_nonempty _ _ _ _ HC w Hw) as Hne. cbv beta in Hne. rewrite E. split; [|done].
  unfold decode_withdrawal, if_more. rewrite len_app. pose proof (len_nonneg rest).
  rewrite (proj2 (Z.eqb_neq _ _)) by lia. exact (@codec_complete _ _ _ _ HC w rest Hw).
Qed.

(** ** Blocks *)
Lemma list_entry_complete tx e rest : wire_ok tx → encode_list_entry tx = Ok e → len e < 2 ^ 32 →
  decode_list_entry (e ++ rest) = Ok (inr (tx, rest)) ∧ 0 < len e.
Proof.
  intros [(Hok & Hy & Hc)|(ty & H1 & H2 & Hok)] He Hl; unfold encode_list_entry in He.
  - rewrite (lo_type _ Hok), bool_decide_eq_true_2 in He by done.
    destruct (get_v (tx_sc tx)) as [v| |] eqn:Hv; [|by unfold encode_transaction in He;
      rewrite (lo_type _ Hok), bool_decide_eq_true_2, Hv in He..].
    rewrite (encode_legacy v) in He by (apply Hok || done). injection He as <-.
    destruct (from_v_get_v default_sc (tx_sc tx) v) as (Hvr & Hpar & Hch); [done|done|done|by intros c ?; apply Hc|done|].
    destruct (encode_list2_one (legacy_body v tx)) as (h & Eh & _).
    assert (len (legacy_body v tx) < 2 ^ 32) as Hlb by (rewrite Eh, len_app in Hl; pose proof (len_nonneg h); lia).
    pose proof (encode_list2_head (legacy_body v tx)) as Hh.
    pose proof (legacy_complete v tx rest Hvr Hok (conj (eq_sym Hpar) (eq_sym Hch)) Hlb) as E.
    unfold decode_list_entry. destruct (encode_list2 [legacy_body v tx]) as [|b l]; [cbn in Hh; unfold id in Hh; lia|].
    cbn [app head default from_option] in *. unfold id in *. rewrite Z.geb_leb, (proj2 (Z.leb_le _ _)) by lia.
    rewrite len_cons. pose proof (len_nonneg l). split; [done|lia].
  - rewrite (encode_typed ty), (to_type _ _ Hok), bool_decide_eq_false_2 in He by done. injection He as <-.
    set (p := type_byte ty :: encode_list2 [typed_body tx]) in *.
    assert (∃ h, encode_string2 p = h ++ p) as [h Eh].
    { unfold encode_string2. destruct (_ && _); [by exists []|]. destruct (_ >? _); [|by eexists [_]].
      eexists (_ :: _). cbn [app]. reflexivity. }
    assert (len p < 2 ^ 32) as Hlp by (rewrite Eh, len_app in Hl; pose proof (len_nonneg h); lia).
    destruct (encode_list2_one (typed_body tx)) as (h' & Eh' & Hbh').
    assert (bytes_ok p) as Hbp.
    { unfold p. constructor; [by destruct ty|]. rewrite Eh', Forall_app. split; [done|by apply (typed_bytes ty)]. }
    assert (len (typed_body tx) < 2 ^ 32) as Hlb.
    { unfold p in Hlp. rewrite len_cons, Eh', len_app in Hlp. pose proof (len_nonneg h'). lia. }
    pose proof (encode_string2_nonempty p). split; [|done].
    assert (default 0 (head (encode_string2 p ++ rest)) < 0xc0) as Hh.
    { unfold encode_string2. destruct (_ && _) eqn:Ea.
      - cbn [app head default from_option p]. unfold id. by destruct ty.
      - pose proof (to_big_compact_length 4 (u32 (len p))). rewrite Z.gtb_ltb.
        destruct (Z.ltb_spec 55 (u32 (len p))); cbn [app head default from_option]; unfold id; lia. }
    unfold decode_list_entry. rewrite Z.geb_leb, (proj2 (Z.leb_gt _ _)) by lia.
    unfold mbind, tdecoder_bind, lift. rewrite parse_string_complete by done. unfold on_view.
    unfold p. by rewrite eip2718_complete.
Qed.

Lemma list_entries_complete txs : ∀ e, Forall wire_ok txs → encode_list_entries txs = Ok e → len e < 2 ^ 32 →
  ∀ fuel, (length txs ≤ fuel)%nat → decode_while fuel decode_list_entry e = Ok (inr (txs, [])).
Proof.
  induction txs as [|tx txs IH]; intros e Hok He Hl fuel Hf.
  - injection He as <-. by destruct fuel.
  - apply Forall_cons_iff in Hok as [Htx Htxs]. cbn [encode_list_entries] in He.
    destruct (encode_list_entry tx) as [e1| |] eqn:E1; try done.
    destruct (encode_list_entries txs) as [e2| |] eqn:E2; try done. injection He as <-. rewrite len_app in Hl.
    pose proof (len_nonneg e1). pose proof (len_nonneg e2).
    destruct (list_entry_complete tx e1 e2 Htx E1 ltac:(lia)) as [Ed Hne].
    destruct fuel as [|fuel]; [cbn [length] in Hf; lia|]. cbn [decode_while]. rewrite len_app.
    rewrite (proj2 (Z.eqb_neq _ _)) by lia. unfold mbind, tdecoder_bind. rewrite Ed.
    rewrite (IH e2 Htxs eq_refl) by (cbn [length] in Hf; lia). done.
Qed.
Lemma list_entries_length txs : ∀ e, Forall wire_ok txs → encode_list_entries txs = Ok e → len e < 2 ^ 32 →
  (length txs ≤ length e)%nat.
Proof.
  induction txs as [|tx txs IH]; intros e Hok He Hl; [cbn; lia|].
  apply Forall_cons_iff in Hok as [Htx Htxs]. cbn [encode_list_entries] in He.
  destruct (encode_list_entry tx) as [e1| |] eqn:E1; try done.
  destruct (encode_list_entries txs) as [e2| |] eqn:E2; try done. injection He as <-. rewrite len_app in Hl.
  pose proof (len_nonneg e1). pose proof (len_nonneg e2).
  destruct (list_entry_complete tx e1 e2 Htx E1 ltac:(lia)) as [_ Hne].
  specialize (IH e2 Htxs eq_refl ltac:(lia)). rewrite length_app. unfold len in *. cbn [length]. lia.
Qed.
Lemma list_entries_total txs : Forall wire_ok txs → ∃ e, encode_list_entries txs = Ok e.
Proof.
  induction 1 as [|tx txs Htx _ [e2 IH]]; [by exists []|]. cbn [encode_list_entries]. rewrite IH.
  unfold encode_list_entry. destruct Htx as [(Hok & Hy & Hc)|(ty & H1 & H2 & Hok)].
  - assert (∃ v, get_v (tx_sc tx) = Ok v) as [v Hv].
    { unfold get_v. destruct (chain_id (tx_sc tx)) as [c|]; [|eauto].
      rewrite (proj2 (Z.leb_le _ _)) by (by apply Hc). eauto. }
    rewrite (encode_legacy v) by (apply Hok || done). eauto.
  - rewrite (encode_typed ty) by done. eauto.
Qed.

Record block_wire_ok (b : Block) : Prop := {
  bw_header : list_ok header_ok header_body (blk_header b);
  bw_txs : Forall wire_ok (blk_transactions b);
  bw_ommers : Forall (list_ok header_ok header_body) (blk_ommers b);
  bw_withdrawals : ∀ ws, blk_withdrawals b = Some ws → Forall (list_ok withdrawal_ok withdrawal_body) ws
}.

Lemma encode_list2_nonempty p : 0 < len (encode_list2 [p]).
Proof. unfold encode_list2. destruct (_ >? _); rewrite len_cons; unfold len; lia. Qed.
Lemma in_list_run {A} (body : tdecoder A) p rest a r : len p < 2 ^ 32 → body p = Ok (inr (a, r)) →
  in_list body (encode_list2 [p] ++ rest) = Ok (inr (a, rest)).
Proof.
  intros Hl Hb. unfold in_list, mbind, tdecoder_bind, lift.
  rewrite parse_list_complete; cbn [concat]; rewrite app_nil_r; [|lia]. unfold on_view. by rewrite Hb.
Qed.
Lemma tx_list_run txs e rest : Forall wire_ok txs → encode_list_entries txs = Ok e → len e < 2 ^ 32 →
  decode_transaction_list (encode_list2 [e] ++ rest) = Ok (inr (txs, rest)).
Proof.
  intros Hok He Hl. apply (in_list_run _ _ _ _ []); [done|]. unfold decode_all, mbind, tdecoder_bind, view.
  apply list_entries_complete; [done|done|done|]. by apply list_entries_length.
Qed.
Lemma withdrawals_run ws rest : Forall (list_ok withdrawal_ok withdrawal_body) ws →
  len (concat (map encode_withdrawal ws)) < 2 ^ 32 →
  decode_withdrawal_list (encode_list2 [concat (map encode_withdrawal ws)] ++ rest) = Ok (inr (ws, rest)).
Proof.
  intros Hok Hl. apply (in_list_run _ _ _ _ []); [done|].
  assert (∀ fuel, (length ws ≤ fuel)%nat →
    decode_while fuel decode_withdrawal (concat (map encode_withdrawal ws)) = Ok (inr (ws, []))) as Hrun.
  { clear Hl. induction Hok as [|w ws Hw _ IH]; intros fuel Hf; [by destruct fuel|].
    destruct (withdrawal_complete w (concat (map encode_withdrawal ws)) Hw) as [Ed Hne].
    destruct fuel as [|fuel]; [cbn [length] in Hf; lia|]. cbn [map concat decode_while]. rewrite len_app.
    pose proof (len_nonneg (concat (map encode_withdrawal ws))).
    rewrite (proj2 (Z.eqb_neq _ _)) by lia. unfold mbind, tdecoder_bind. rewrite Ed.
    rewrite IH by (cbn [length] in Hf; lia). done. }
  assert (length ws ≤ length (concat (map encode_withdrawal ws)))%nat as Hlen.
  { clear Hl Hrun. induction Hok as [|w ws Hw _ IH]; cbn [map concat length]; [lia|]. rewrite length_app.
    destruct (withdrawal_complete w [] Hw) as [_ Hne]. unfold len in Hne. lia. }
  unfold mbind at 1, tdecoder_bind at 1. unfold decode_all, mbind, tdecoder_bind, view. by rewrite Hrun.
Qed.
Lemma ommers_run l rest : Forall (list_ok header_ok header_body) l →
  len (concat (map encode_block_header l)) < 2 ^ 32 →
  decode_block_header_vector (encode_ommers l ++ rest) = Ok (inr (l, rest)).
Proof.
  intros Hok Hl.
  destruct (payload_complete (body := ommers ← decode_all decode_block_header; _ ← check_empty; mret ommers) l Hok)
    as [r Hr]. by apply (in_list_run _ _ _ _ r).
Qed.

(** C38: Blocks: every block with well-formed parts encodes, and the decoder
    returns it from its encoding. *)
Theorem block_round_trip b : block_wire_ok b →
  ∃ e, encode_block b = Ok e ∧ (len e < 2 ^ 32 → decode_block e = Ok (inr (b, []))).
Proof.
  destruct b as [h txs om ws]. intros [Hh Ht Ho Hw]. cbn [blk_header blk_transactions blk_ommers blk_withdrawals] in *.
  destruct (list_entries_total txs Ht) as [et Et]. unfold encode_block. cbn [blk_transactions]. rewrite Et.
  eexists. split; [reflexivity|]. cbn [blk_header blk_ommers blk_withdrawals]. intros Hl.
  match type of Hl with context [encode_list2 [?p]] => set (body := p) in * end.
  destruct (encode_list2_one body) as (hd & Ehd & _).
  assert (len body < 2 ^ 32) as Hlb by (rewrite Ehd, len_app in Hl; pose proof (len_nonneg hd); lia).
  rewrite <- (app_nil_r (encode_list2 [body])). apply (in_list_run _ _ _ _ []); [done|].
  assert (∀ p, len p ≤ len (encode_list2 [p])) as Hle.
  { intros p. destruct (encode_list2_one p) as (hp & -> & _). rewrite len_app. pose proof (len_nonneg hp). lia. }
  unfold body in *. rewrite !len_app in Hlb. pose proof (Hle et).
  pose proof (Hle (concat (map encode_block_header om))). unfold encode_ommers in Hlb.
  pose proof (len_nonneg (encode_block_header h)). pose proof (len_nonneg et).
  pose proof (len_nonneg (encode_list2 [concat (map encode_block_header om)])).
  pose proof (len_nonneg (when_some ws (λ ws, encode_list2 [concat (map encode_withdrawal ws)]))).
  pose proof (len_nonneg (concat (map encode_block_header om))).
  rewrite (bind_complete _ _ decode_block_header _ h) by done.
  unfold mbind at 1, tdecoder_bind at 1. rewrite (tx_list_run txs et) by (done || lia).
  unfold mbind at 1, tdecoder_bind at 1. rewrite ommers_run by (done || lia).
  destruct ws as [ws|]; [|done]. cbn [when_some] in *. pose proof (Hle (concat (map encode_withdrawal ws))).
  unfold if_more, some_of, mbind, tdecoder_bind.
  pose proof (encode_list2_nonempty (concat (map encode_withdrawal ws))).
  rewrite (proj2 (Z.eqb_neq _ _)) by lia.
  rewrite <- (app_nil_r (encode_list2 [concat (map encode_withdrawal ws)])).
  by rewrite withdrawals_run by (try (by apply Hw); lia).
Qed.

(** ** Two malformed inputs *)
(** C39: a block body with an empty string among its transactions is not
    rejected: the decoder of a typed transaction asserts that its input is
    not empty, so that decoding the list stops the process. *)
Theorem empty_list_entry_aborts p rest : len p < 2 ^ 32 - 1 →
  decode_transaction_list (encode_list2 [0x80 :: p] ++ rest) = Abort.
Proof.
  intros Hl. unfold decode_transaction_list, in_list, mbind, tdecoder_bind, lift.
  rewrite parse_list_complete; cbn [concat]; rewrite app_nil_r; [|rewrite len_cons; lia].
  unfold on_view, decode_all, mbind, tdecoder_bind, view. cbn [length decode_while].
  rewrite len_cons, (proj2 (Z.eqb_neq _ _)) by (pose proof (len_nonneg p); lia).
  unfold mbind, tdecoder_bind. unfold decode_list_entry at 1.
  cbn [head default from_option]. unfold id. cbn [Z.geb Z.compare Pos.compare Pos.compare_cont].
  unfold mbind, tdecoder_bind, lift. change (0x80 :: p) with (encode_string2 [] ++ p).
  by rewrite parse_string_complete.
Qed.
Lemma empty_list_entry_aborts_witness : decode_transaction_list [0xc1; 0x80] = Abort.
Proof. apply (empty_list_entry_aborts [] []). reflexivity. Defined.

Definition with_access_list (l : list AccessEntry) (tx : Transaction) : Transaction :=
  mkTransaction (tx_sc tx) (tx_nonce tx) (max_fee_per_gas tx) (tx_gas_limit tx) (tx_value tx) (tx_to tx)
    (tx_type tx) (tx_data tx) l (max_priority_fee_per_gas tx) (max_fee_per_blob_gas tx)
    (blob_versioned_hashes tx) (authorization_list tx).

(** C40: the decoder accepts typed envelopes of type 0 as legacy transactions:
    the transaction it returns has another encoding, and an access list that
    its signature does not cover. *)
Theorem type_zero_envelope tx : typed_ok legacy tx → len (typed_body tx) < 2 ^ 32 →
  decode_transaction (0 :: encode_list2 [typed_body tx]) = Ok (inr (tx, [])) ∧
  encode_transaction tx ≠ Ok (0 :: encode_list2 [typed_body tx]) ∧
  ∀ l, encode_transaction_for_signing (with_access_list l tx) = encode_transaction_for_signing tx.
Proof.
  intros Hok Hl. pose proof (to_type _ _ Hok) as Hty. split_and!.
  - change 0 with (type_byte legacy). rewrite decode_transaction_typed_form by done. by apply eip2718_complete.
  - unfold encode_transaction. rewrite Hty, bool_decide_eq_true_2 by done.
    destruct (get_v (tx_sc tx)) as [v| |]; [|done|done]. intros [= E].
    match type of E with encode_list2 ?args = _ => rewrite (encode_list2_concat args) in E;
      pose proof (encode_list2_head (concat args)) as Hh end.
    rewrite E in Hh. cbn in Hh. unfold id in Hh. lia.
  - intros l. unfold encode_transaction_for_signing. cbn [tx_type with_access_list]. by rewrite Hty.
Qed.

(** ** Concrete transactions *)
Lemma bytes_okb l : forallb (λ b, (0 <=? b) && (b <? 256)) l = true → bytes_ok l.
Proof.
  induction l as [|b l IH]; cbn [forallb]; [constructor|]. rewrite !andb_true_iff. intros [[H1 H2] Hl].
  constructor; [unfold byte_ok; lia|by apply IH].
Qed.
Ltac concrete_uint := split; [discriminate|reflexivity].
Definition wire_entry : AccessEntry := mkAccessEntry 0xb0b [5; 0].
Definition wire_tx (ty : TransactionType) : Transaction :=
  mkTransaction (mkSignatureAndChain (mkSignature 0x1234 0x5678 1) (Some 143)) 7 100 60000 5 (Some 0xb0b) ty
    [1; 0; 255] [wire_entry] (if has_priority_fee ty then 2 else 0) 0 [] [].
Lemma wire_tx_ok ty : ty = legacy ∨ ty = eip1559 → typed_ok ty (wire_tx ty).
Proof.
  intros Hty. split; [done|exists 143; split; [done|concrete_uint]|concrete_uint
    |destruct Hty as [-> | ->]; [done|concrete_uint]|concrete_uint|concrete_uint|intros a [= <-]; concrete_uint
    |concrete_uint|split; [by apply bytes_okb|reflexivity]| |by destruct Hty as [-> | ->]
    |by destruct Hty as [-> | ->]|split_and!; concrete_uint].
  split; [|vm_compute; reflexivity]. constructor; [|constructor].
  split; [|vm_compute; reflexivity]. split; [concrete_uint|]. split; [|vm_compute; reflexivity].
  repeat constructor; discriminate.
Qed.

Lemma type_zero_envelope_witness :
  decode_transaction (0 :: encode_list2 [typed_body (wire_tx legacy)]) = Ok (inr (wire_tx legacy, [])).
Proof. apply (type_zero_envelope (wire_tx legacy)); [by apply wire_tx_ok; left|vm_compute; reflexivity]. Defined.

Lemma transaction_round_trip_witness :
  ∃ e, encode_transaction (wire_tx eip1559) = Ok e ∧
    (len e < 2 ^ 32 → decode_transaction e = Ok (inr (wire_tx eip1559, []))).
Proof.
  apply (transaction_round_trip (wire_tx eip1559)). right. exists eip1559.
  split; [discriminate|]. split; [discriminate|]. by apply wire_tx_ok; right.
Defined.

Definition wire_bytes : list Z := type_byte eip1559 :: encode_list2 [typed_body (wire_tx eip1559)].
Lemma transaction_canonical_witness :
  (∃ e', encode_transaction (wire_tx eip1559) = Ok e' ∧ wire_bytes = e' ++ []) ∨
  encode_transaction (wire_tx eip1559) = Throw "get_v: chain_id out of bounds".
Proof.
  apply (transaction_canonical wire_bytes (wire_tx eip1559) []); [|vm_compute; reflexivity|discriminate|].
  - apply bytes_okb. vm_compute. reflexivity.
  - vm_compute. reflexivity.
Defined.
Lemma decode_transaction_total_witness : ∃ r, decode_transaction wire_bytes = Ok r.
Proof.
  apply (decode_transaction_total wire_bytes); [|vm_compute; reflexivity]. apply bytes_okb. vm_compute. reflexivity.
Defined.

Definition wire_receipt : Receipt := mkReceipt empty_bloom 1 21000 eip1559 [mkLog [1; 2] [7] 0xb0b].
Lemma receipt_codec_witness :
  receipt_ok wire_receipt ∧ encode_receipt wire_receipt = encode_receipt wire_receipt ++ [].
Proof.
  apply (receipt_codec (encode_receipt wire_receipt) wire_receipt []);
    [apply bytes_okb; vm_compute; reflexivity|vm_compute; reflexivity|vm_compute; reflexivity].
Defined.

Definition wire_header : BlockHeader :=
  mkBlockHeader empty_bloom 1 2 3 4 5 6 0 9 30000000 21000 1000 [0; 0; 0; 0; 0; 0; 0; 0] [77] 0xca201
    (Some 50) (Some 8) None None None None None.
Lemma header_codec_witness :
  list_ok header_ok header_body wire_header ∧ encode_block_header wire_header = encode_block_header wire_header ++ [].
Proof.
  destruct (header_codec (encode_block_header wire_header)) as [_ H];
    [apply bytes_okb; vm_compute; reflexivity|vm_compute; reflexivity|].
  apply (H wire_header []). vm_compute. reflexivity.
Defined.
Lemma wire_header_ok : list_ok header_ok header_body wire_header.
Proof.
  assert (bytes_ok (header_body wire_header)) as Hb by (apply bytes_okb; vm_compute; reflexivity).
  split; [|vm_compute; reflexivity].
  apply (header_sound (header_body wire_header) wire_header []); [done|vm_compute; reflexivity..].
Qed.
Definition wire_block : Block := mkBlock wire_header [wire_tx eip1559] [] (Some [mkWithdrawal 1 2 3 0xb0b]).
Lemma wire_block_ok : block_wire_ok wire_block.
Proof.
  split; [exact wire_header_ok| |constructor|].
  - constructor; [|constructor]. right. exists eip1559. split_and!; [done|done|by apply wire_tx_ok; right].
  - intros ws [= <-]. constructor; [|constructor]. split; [split_and!; concrete_uint|vm_compute; reflexivity].
Qed.
Lemma block_round_trip_witness :
  ∃ e, encode_block wire_block = Ok e ∧ (len e < 2 ^ 32 → decode_block e = Ok (inr (wire_block, []))).
Proof. apply (block_round_trip wire_block). exact wire_block_ok. Defined.
