(* ===== verification/PrecompileGas.v ===== *)
(** * Gas costs of the precompiles

    src/category/execution/ethereum/precompiles_gas_cost_impl.cpp,
    precompiles.hpp and, for Monad's repricing,
    src/category/execution/monad/monad_precompiles_gas_cost_impl.cpp.
    [None] is the [std::nullopt] of an invalid input. *)
From S2P Require Import Prelude Traits Words CheckedMath Rlp RlpFacts Transaction.

Definition num_words (length : Z) : Z := u64 (length + 32 - 1) / 32.

(** [pricing_factor]: [n] from Monad's pricing version 1 on *)
Definition pricing_factor (t : Traits) (n : Z) : Z := if monad_pricing_version t >=? 1 then n else 1.

Definition sha256_gas_cost (input : list Z) : Z := u64 (60 + u64 (12 * num_words (size input))).
Definition ripemd160_gas_cost (input : list Z) : Z := u64 (600 + u64 (120 * num_words (size input))).
Definition identity_gas_cost (input : list Z) : Z := u64 (15 + u64 (3 * num_words (size input))).

(** The functions with a variant for each chain. *)
Definition ecrecover_gas_cost_ethereum (input : list Z) : Z := 3000.
Definition ecadd_gas_cost_ethereum (input : list Z) : Z := 150.
Definition ecmul_gas_cost_ethereum (input : list Z) : Z := 6000.
Definition snarkv_gas_cost_ethereum (input : list Z) : Z :=
  let k := size input / 192 in u64 (u64 (34000 * k) + 45000).
(** A [memcpy] of four bytes into a little-endian word and its [bswap]. *)
Definition blake2bf_gas_cost_ethereum (input : list Z) : option Z :=
  if size input <? 4 then None else Some (u32 (be_val (take 4 input))).
Definition point_evaluation_gas_cost_ethereum (input : list Z) : Z := 50000.

Definition ecrecover_gas_cost_monad (t : Traits) (input : list Z) : Z := pricing_factor t 2 * 3000.
Definition ecadd_gas_cost_monad (t : Traits) (input : list Z) : Z := pricing_factor t 2 * 150.
Definition ecmul_gas_cost_monad (t : Traits) (input : list Z) : Z := pricing_factor t 5 * 6000.
Definition snarkv_gas_cost_monad (t : Traits) (input : list Z) : Z :=
  u64 (pricing_factor t 5 * snarkv_gas_cost_ethereum input).
Definition blake2bf_gas_cost_monad (t : Traits) (input : list Z) : option Z :=
  match blake2bf_gas_cost_ethereum input with
  | Some ethereum_cost => Some (u64 (pricing_factor t 2 * ethereum_cost))
  | None => None
  end.
Definition point_evaluation_gas_cost_monad (t : Traits) (input : list Z) : Z := pricing_factor t 4 * 50000.

(** The instance of the template for the traits. *)
Definition by_chain {A} (ethereum monad : A) (t : Traits) : A :=
  match t with EvmTraits _ => ethereum | MonadTraits _ => monad end.
Definition ecrecover_gas_cost (t : Traits) := by_chain ecrecover_gas_cost_ethereum (ecrecover_gas_cost_monad t) t.
Definition ecadd_gas_cost (t : Traits) := by_chain ecadd_gas_cost_ethereum (ecadd_gas_cost_monad t) t.
Definition ecmul_gas_cost (t : Traits) := by_chain ecmul_gas_cost_ethereum (ecmul_gas_cost_monad t) t.
Definition snarkv_gas_cost (t : Traits) := by_chain snarkv_gas_cost_ethereum (snarkv_gas_cost_monad t) t.
Definition blake2bf_gas_cost (t : Traits) := by_chain blake2bf_gas_cost_ethereum (blake2bf_gas_cost_monad t) t.
Definition point_evaluation_gas_cost (t : Traits) :=
  by_chain point_evaluation_gas_cost_ethereum (point_evaluation_gas_cost_monad t) t.

(** ** Modular exponentiation (EIP-2565, EIP-7823, EIP-7883) *)
Definition mult_complexity (t : Traits) (max_len : Z) : Z :=
  let words := Z.shiftr (u256 (max_len + 7)) 3 in
  if eip_7883_active t then
    if max_len >? 32 then u256 (u256 (2 * words) * words) else 16
  else u256 (words * words).
Definition expmod_gas_denominator (t : Traits) : Z := if eip_7883_active t then 1 else 3.
Definition expmod_iteration_count (t : Traits) (exp_len256 bit_len : Z) : Z :=
  let adjusted_exponent_len :=
    if exp_len256 >? 32 then u256 ((if eip_7883_active t then 16 else 8) * u256 (exp_len256 - 32)) else 0 in
  let adjusted_exponent_len :=
    if bit_len >? 1 then u256 (adjusted_exponent_len + (bit_len - 1)) else adjusted_exponent_len in
  Z.max adjusted_exponent_len 1.
Definition expmod_min_gas (t : Traits) : Z := if eip_7883_active t then 500 else 200.

(** [from_bytes(len, input.size(), input.data())]: [len] bytes, those past
    the end of the input read as zero. *)
Definition uint256_load_partial_be (input : list Z) (len : nat) : Z :=
  if bool_decide (input = []) then 0 else be_val (take len (input ++ replicate len 0)).

(** [count_significant_bytes(x) > 8] and [256 - countl_zero(x)] *)
Definition more_than_8_bytes (x : Z) : bool := 2 ^ 64 <=? x.
Definition significant_bits (x : Z) : Z := if x =? 0 then 0 else Z.log2 x + 1.

Definition length_word (input : list Z) (offset : nat) : Z :=
  if size input >=? Z.of_nat offset then uint256_load_partial_be (drop offset input) 32 else 0.

Definition expmod_gas_cost (t : Traits) (input : list Z) : option Z :=
  let min_gas := expmod_min_gas t in
  let base_len256 := uint256_load_partial_be input 32 in
  let exp_len256 := length_word input 32 in
  let mod_len256 := length_word input 64 in
  if negb (eip_7883_active t) && (base_len256 =? 0) && (mod_len256 =? 0) then Some min_gas
  else if eip_7823_active t && ((base_len256 >? 1024) || (exp_len256 >? 1024) || (mod_len256 >? 1024))
  then None
  else if negb (eip_7823_active t)
          && (more_than_8_bytes base_len256 || more_than_8_bytes exp_len256 || more_than_8_bytes mod_len256)
  then Some U64_MAX
  else
    let base_len64 := u64 base_len256 in
    let exp_len64 := u64 exp_len256 in
    let exp_index := u64 (96 + base_len64) in
    let exp_head :=
      if size input >? exp_index then
        uint256_load_partial_be (drop (Z.to_nat exp_index) input) (Z.to_nat (Z.min 32 exp_len64))
      else 0 in
    let bit_len := significant_bits exp_head in
    let iteration_count := expmod_iteration_count t exp_len256 bit_len in
    let max_length := Z.max mod_len256 base_len256 in
    let gas := u256 (mult_complexity t max_length * iteration_count) / expmod_gas_denominator t in
    if gas >? U64_MAX then Some U64_MAX else Some (Z.max min_gas (u64 gas)).

(** ** BLS12-381 (EIP-2537) and P256 (EIP-7951) *)
Definition msm_discount_g1_table : list Z :=
  [1000; 949; 848; 797; 764; 750; 738; 728; 719; 712; 705; 698; 692; 687; 682; 677; 673; 669; 665; 661;
   658; 654; 651; 648; 645; 642; 640; 637; 635; 632; 630; 627; 625; 623; 621; 619; 617; 615; 613; 611;
   609; 608; 606; 604; 603; 601; 599; 598; 596; 595; 593; 592; 591; 589; 588; 586; 585; 584; 582; 581;
   580; 579; 577; 576; 575; 574; 573; 572; 570; 569; 568; 567; 566; 565; 564; 563; 562; 561; 560; 559;
   558; 557; 556; 555; 554; 553; 552; 551; 550; 549; 548; 547; 547; 546; 545; 544; 543; 542; 541; 540;
   540; 539; 538; 537; 536; 536; 535; 534; 533; 532; 532; 531; 530; 529; 528; 528; 527; 526; 525; 525;
   524; 523; 522; 522; 521; 520; 520; 519].
Definition msm_discount_g2_table : list Z :=
  [1000; 1000; 923; 884; 855; 832; 812; 796; 782; 770; 759; 749; 740; 732; 724; 717; 711; 704; 699; 693;
   688; 683; 679; 674; 670; 666; 663; 659; 655; 652; 649; 646; 643; 640; 637; 634; 632; 629; 627; 624;
   622; 620; 618; 615; 613; 611; 609; 607; 606; 604; 602; 600; 598; 597; 595; 593; 592; 590; 589; 587;
   586; 584; 583; 582; 580; 579; 578; 576; 575; 574; 573; 571; 570; 569; 568; 567; 566; 565; 563; 562;
   561; 560; 559; 558; 557; 556; 555; 554; 553; 552; 552; 551; 550; 549; 548; 547; 546; 545; 545; 544;
   543; 542; 541; 541; 540; 539; 538; 537; 537; 536; 535; 535; 534; 533; 532; 532; 531; 530; 530; 529;
   528; 528; 527; 526; 526; 525; 524; 524].
(** [MONAD_ASSERT(k > 0); return table[std::min(k, 128ul) - 1];] *)
Definition msm_discount (table : list Z) (k : Z) : outcome Z :=
  _ ← oassert (k >? 0);
  match table !! Z.to_nat (Z.min k 128 - 1) with Some d => mret d | None => Abort end.
Definition msm_gas_cost (table : list Z) (pair_size base : Z) (input : list Z) : outcome Z :=
  let k := size input / pair_size in
  if k =? 0 then mret 0
  else discount ← msm_discount table k; mret (u64 (k * base * discount) / 1000).
Definition bls12_g1_add_gas_cost (input : list Z) : Z := 375.
Definition bls12_g1_msm_gas_cost : list Z → outcome Z := msm_gas_cost msm_discount_g1_table (128 + 32) 12000.
Definition bls12_g2_add_gas_cost (input : list Z) : Z := 600.
Definition bls12_g2_msm_gas_cost : list Z → outcome Z := msm_gas_cost msm_discount_g2_table (256 + 32) 22500.
Definition bls12_pairing_check_gas_cost (input : list Z) : Z :=
  let k := size input / (128 + 256) in u64 (u64 (32600 * k) + 37700).
Definition bls12_map_fp_to_g1_gas_cost (input : list Z) : Z := 5500.
Definition bls12_map_fp2_to_g2_gas_cost (input : list Z) : Z := 23800.
Definition p256_verify_gas_cost (input : list Z) : Z := 6900.

(** ** The prices of the specification

    The formulas of EIP-2565 and EIP-7883 over unbounded integers: [padded]
    reads a number from the input as if it continued with zeros. *)
Definition padded (input : list Z) (offset len : nat) : Z :=
  be_val (take len (drop offset input ++ replicate len 0)).
Definition expmod_price (t : Traits) (B E M head : Z) : Z :=
  let words := (Z.max B M + 7) / 8 in
  let complexity :=
    if eip_7883_active t then (if Z.max B M >? 32 then 2 * words ^ 2 else 16) else words ^ 2 in
  let iterations :=
    Z.max 1 ((if E >? 32 then (if eip_7883_active t then 16 else 8) * (E - 32) else 0)
             + Z.max 0 (significant_bits head - 1)) in
  Z.max (expmod_min_gas t) (complexity * iterations / expmod_gas_denominator t).

Lemma be_val_zeros n : be_val (replicate n 0) = 0.
Proof. induction n as [|n IH]; [done|]. cbn [replicate]. rewrite be_val_cons, IH. lia. Qed.
Lemma take_zeros n m : take n (replicate m 0 : list Z) = replicate (n `min` m) 0.
Proof. by rewrite take_replicate. Qed.

Lemma load_partial_padded input offset len :
  uint256_load_partial_be (drop offset input) len = padded input offset len.
Proof.
  unfold uint256_load_partial_be, padded. case_bool_decide as E; [|done].
  by rewrite E, app_nil_l, take_zeros, be_val_zeros.
Qed.
Lemma padded_beyond input offset len : (length input ≤ offset)%nat → padded input offset len = 0.
Proof. intros H. unfold padded. by rewrite drop_ge, app_nil_l, take_zeros, be_val_zeros. Qed.
Lemma length_word_padded input offset : length_word input offset = padded input offset 32.
Proof.
  unfold length_word, size. rewrite load_partial_padded.
  case_match eqn:E; [done|]. symmetry. apply padded_beyond. lia.
Qed.
Lemma padded_bound input offset len :
  bytes_ok input → 0 <= padded input offset len < 256 ^ Z.of_nat len.
Proof.
  intros Hi. unfold padded.
  assert (Hl : length (take len (drop offset input ++ replicate len 0)) = len).
  { rewrite length_take, length_app, length_replicate. lia. }
  pose proof (be_val_bound (take len (drop offset input ++ replicate len 0))) as Hb.
  unfold Rlp.len in Hb. rewrite Hl in Hb. apply Hb.
  apply Forall_take, Forall_app. split; [by apply Forall_drop|]. apply Forall_replicate. split; lia.
Qed.
Lemma head_bits_bound x n : 0 <= x < 2 ^ n → 0 <= n → 0 <= significant_bits x <= n.
Proof.
  intros Hx Hn. unfold significant_bits. case_match eqn:E; [lia|].
  pose proof (Z.log2_nonneg x). assert (Z.log2 x < n) by (apply Z.log2_lt_pow2; lia). lia.
Qed.

(** The two factors over unbounded integers. *)
Definition complexity (t : Traits) (L : Z) : Z :=
  if eip_7883_active t then (if L >? 32 then 2 * ((L + 7) / 8) ^ 2 else 16) else ((L + 7) / 8) ^ 2.
Definition iterations (t : Traits) (E bits : Z) : Z :=
  Z.max 1 ((if E >? 32 then (if eip_7883_active t then 16 else 8) * (E - 32) else 0) + Z.max 0 (bits - 1)).

Lemma words_bound L n : 0 <= L → L + 7 < 8 * n → 0 <= (L + 7) / 8 < n.
Proof. intros. split; [apply Z.div_pos; lia|apply Z.div_lt_upper_bound; lia]. Qed.

(** Below [2 ^ 65] the 256-bit computations do not wrap. *)
Lemma mult_complexity_exact t L :
  0 <= L < 2 ^ 65 → mult_complexity t L = complexity t L ∧ 0 <= complexity t L < 2 ^ 130.
Proof.
  intros HL. unfold mult_complexity, complexity, u256.
  rewrite (Z.mod_small (L + 7)) by lia. rewrite Z.shiftr_div_pow2 by lia. change (2 ^ 3) with 8.
  pose proof (words_bound L (2 ^ 63) ltac:(lia) ltac:(lia)) as Hw.
  set (w := (L + 7) / 8) in *. clearbody w.
  assert (0 <= w * w < 2 ^ 126) by nia. assert (w ^ 2 = w * w) as -> by ring.
  destruct (eip_7883_active t); [destruct (L >? 32)|].
  - rewrite (Z.mod_small (2 * w)) by lia. rewrite Z.mod_small by lia. lia.
  - lia.
  - rewrite Z.mod_small by lia. lia.
Qed.
Lemma iteration_count_exact t E bits :
  0 <= E < 2 ^ 65 → 0 <= bits <= 256 →
  expmod_iteration_count t E bits = iterations t E bits ∧ 1 <= iterations t E bits < 2 ^ 71.
Proof.
  intros HE Hb. unfold expmod_iteration_count, iterations, u256.
  assert (Hc : ∃ c, (if eip_7883_active t then 16 else 8) = c ∧ 0 <= c <= 16)
    by (destruct (eip_7883_active t); eexists; split; [done|lia|done|lia]).
  destruct Hc as (c & -> & Hc).
  destruct (E >? 32) eqn:E1.
  - rewrite (Z.mod_small (E - 32)) by lia. rewrite (Z.mod_small (c * _)) by nia.
    assert (0 <= c * (E - 32) <= 16 * 2 ^ 65) by nia.
    destruct (bits >? 1) eqn:E2; [rewrite Z.mod_small by lia|]; lia.
  - destruct (bits >? 1) eqn:E2; [rewrite Z.mod_small by lia|]; lia.
Qed.
Lemma gas_exact t L E bits :
  0 <= L < 2 ^ 65 → 0 <= E < 2 ^ 65 → 0 <= bits <= 256 →
  u256 (mult_complexity t L * expmod_iteration_count t E bits) = complexity t L * iterations t E bits.
Proof.
  intros HL HE Hb. destruct (mult_complexity_exact t L HL) as [-> ?].
  destruct (iteration_count_exact t E bits HE Hb) as [-> ?].
  unfold u256. apply Z.mod_small. nia.
Qed.

(** Before EIP-7883, huge lengths cost more than 64 bits can say. *)
Lemma price_saturates t B E M head :
  eip_7883_active t = false → 0 <= B → 0 <= E → 0 <= M →
  (2 ^ 64 - 96 <= Z.max B M ∨ 2 ^ 64 <= E ∧ 0 < Z.max B M) →
  U64_MAX < expmod_price t B E M head.
Proof.
  intros Ht HB HE HM Hbig. unfold expmod_price, expmod_gas_denominator, U64_MAX. rewrite Ht.
  set (L := Z.max B M) in *. set (it := Z.max 1 _).
  assert (Hit : 1 <= it ∧ (2 ^ 64 <= E → 2 ^ 66 <= it)).
  { subst it. destruct (E >? 32) eqn:E1; lia. }
  clearbody it L. destruct Hit as [Hit1 Hit2].
  assert (Hw : 1 <= (L + 7) / 8) by (apply Z.div_le_lower_bound; lia).
  assert (Hw2 : 2 ^ 64 - 96 <= L → 2 ^ 60 <= (L + 7) / 8) by (intros; apply Z.div_le_lower_bound; lia).
  set (w := (L + 7) / 8) in *. clearbody w. assert (w ^ 2 = w * w) as -> by ring.
  assert (2 ^ 66 <= w * w * it).
  { destruct Hbig as [Hbig|[Hbig _]].
    - specialize (Hw2 Hbig). assert (2 ^ 120 <= w * w) by nia. nia.
    - specialize (Hit2 Hbig). assert (1 <= w * w) by nia. nia. }
  apply Z.lt_le_trans with (w * w * it / 3); [|lia].
  apply Z.lt_le_trans with (2 ^ 66 / 3); [done|]. apply Z.div_le_mono; lia.
Qed.

(** The end of [expmod_gas_cost], once the lengths fit. *)
Lemma expmod_tail t B E M head :
  0 <= B < 2 ^ 65 → 0 <= E < 2 ^ 65 → 0 <= M < 2 ^ 65 → 0 <= significant_bits head <= 256 →
  (let gas := u256 (mult_complexity t (Z.max M B) * expmod_iteration_count t E (significant_bits head))
              / expmod_gas_denominator t in
   if gas >? U64_MAX then Some U64_MAX else Some (Z.max (expmod_min_gas t) (u64 gas)))
  = Some (Z.min U64_MAX (expmod_price t B E M head)).
Proof.
  intros HB HE HM Hb. cbv zeta. rewrite gas_exact by lia. rewrite (Z.max_comm M B).
  unfold expmod_price. fold (complexity t (Z.max B M)). fold (iterations t E (significant_bits head)).
  set (g := complexity t (Z.max B M) * iterations t E (significant_bits head) / expmod_gas_denominator t).
  assert (Hg : 0 <= g).
  { subst g. destruct (mult_complexity_exact t (Z.max B M)) as [_ ?]; [lia|].
    destruct (iteration_count_exact t E (significant_bits head)) as [_ ?]; [lia|lia|].
    apply Z.div_pos; [nia|]. unfold expmod_gas_denominator. by case_match. }
  clearbody g. assert (expmod_min_gas t <= 500) by (unfold expmod_min_gas; by case_match).
  unfold U64_MAX, u64. destruct (g >? 2 ^ 64 - 1) eqn:E1; [f_equal; lia|].
  rewrite (Z.mod_small g) by lia. f_equal. lia.
Qed.

Lemma head_bits input offset E :
  bytes_ok input → 0 <= significant_bits (padded input offset (Z.to_nat (Z.min 32 E))) <= 256.
Proof.
  intros Hi. apply head_bits_bound; [|lia].
  pose proof (padded_bound input offset (Z.to_nat (Z.min 32 E)) Hi) as Hb.
  split; [apply Hb|]. eapply Z.lt_le_trans; [apply Hb|]. change (2 ^ 256) with (256 ^ 32).
  apply Z.pow_le_mono_r; lia.
Qed.

(** The price of modular exponentiation is exact.  For every input of
    the precompile the 256-bit computation with 64-bit lengths, its early
    exits and its wrapping index return the price of EIP-2565 or EIP-7883
    over unbounded integers, saturated at the largest 64-bit number; an
    input is invalid exactly when EIP-7823 says so. *)
Theorem expmod_gas_exact t input :
  bytes_ok input → size input < 2 ^ 64 →
  let B := padded input 0 32 in
  let E := padded input 32 32 in
  let M := padded input 64 32 in
  let head := padded input (Z.to_nat (96 + B)) (Z.to_nat (Z.min 32 E)) in
  expmod_gas_cost t input =
    if eip_7823_active t && ((B >? 1024) || (E >? 1024) || (M >? 1024)) then None
    else Some (Z.min U64_MAX (expmod_price t B E M head)).
Proof.
  intros Hi Hs B E M head.
  assert (Hbase : uint256_load_partial_be input 32 = B) by apply (load_partial_padded input 0).
  unfold expmod_gas_cost. rewrite Hbase, !length_word_padded. fold E M.
  pose proof (padded_bound input 0 32 Hi) as HB. fold B in HB.
  pose proof (padded_bound input 32 32 Hi) as HE. fold E in HE.
  pose proof (padded_bound input 64 32 Hi) as HM. fold M in HM.
  assert (Hread : 0 <= B < 2 ^ 64 - 96 →
    (if size input >? u64 (96 + u64 B) then
       uint256_load_partial_be (drop (Z.to_nat (u64 (96 + u64 B))) input) (Z.to_nat (Z.min 32 (u64 E)))
     else 0) = padded input (Z.to_nat (96 + B)) (Z.to_nat (Z.min 32 (u64 E)))).
  { intros HB'. unfold u64. rewrite (Z.mod_small B) by lia. rewrite (Z.mod_small (96 + B)) by lia.
    rewrite load_partial_padded. destruct (size input >? 96 + B) eqn:Es; [done|].
    unfold size in Es. symmetry. apply padded_beyond. lia. }
  assert (Hsame : eip_7823_active t = eip_7883_active t) by done. rewrite Hsame.
  destruct (eip_7883_active t) eqn:Ht; cbn [negb andb].
  - destruct ((B >? 1024) || (E >? 1024) || (M >? 1024)) eqn:Hbig; [done|]. cbv zeta.
    rewrite Hread by lia. assert (u64 E = E) as -> by (apply Z.mod_small; lia). fold head.
    apply expmod_tail; [lia..|]. by apply head_bits.
  - destruct ((B =? 0) && (M =? 0)) eqn:Hz.
    { unfold expmod_price, expmod_min_gas. rewrite Ht. replace (Z.max B M) with 0 by lia. done. }
    unfold more_than_8_bytes. destruct ((2 ^ 64 <=? B) || (2 ^ 64 <=? E) || (2 ^ 64 <=? M)) eqn:Hbig.
    { pose proof (price_saturates t B E M head Ht) as Hsat. f_equal. rewrite Z.min_l; lia. }
    cbv zeta. assert (u64 E = E) as -> by (apply Z.mod_small; lia).
    destruct (decide (B < 2 ^ 64 - 96)) as [Hsmall|Hwrap].
    + assert (u64 E = E) as He by (apply Z.mod_small; lia). rewrite He in Hread.
      rewrite Hread by lia. fold head. apply expmod_tail; [lia..|]. by apply head_bits.
    + rewrite load_partial_padded. match goal with |- context [significant_bits ?h] => set (h' := h) end.
      assert (0 <= significant_bits h' <= 256).
      { subst h'. case_match; [by apply head_bits|done]. }
      transitivity (Some (Z.min U64_MAX (expmod_price t B E M h'))); [apply expmod_tail; lia|f_equal].
      pose proof (price_saturates t B E M head Ht). pose proof (price_saturates t B E M h' Ht). lia.
Qed.

Definition expmod_input : list Z :=
  be_bytes 32 1 ++ be_bytes 32 2 ++ be_bytes 32 64 ++ [3; 1; 5].
Lemma expmod_gas_exact_witness :
  expmod_gas_cost (EvmTraits MONAD_ETH_CANCUN) expmod_input = Some 200 ∧
  expmod_gas_cost (MonadTraits MONAD_NINE) expmod_input = Some 1024.
Proof.
  assert (bytes_ok expmod_input) by (repeat constructor; done).
  split; (rewrite (expmod_gas_exact _ expmod_input); [vm_compute; reflexivity|done|done]).
Defined.
