(* ===== verification/ReserveBalance.v ===== *)
(** * Reserve balance checks

    src/category/execution/monad/reserve_balance.cpp (the per-transaction
    part; the tracking inside [State] is in State.v), its Ethereum
    counterpart src/category/execution/ethereum/reserve_balance.cpp and the
    precompile of src/category/execution/monad/reserve_balance/.  They run
    over the methods of [State], so they are programs.  The tracers are left
    out: they only record. *)
From S2P Require Import Prelude Traits Account VersionStack AccountState BlockState State Methods Words CheckedMath Transaction.

(** ** Programs: outcomes and loops *)
Definition plift {A} (o : outcome A) : prog A :=
  match o with Ok a => Ret a | Abort => Stop Abort | Throw s => Stop (Throw s) end.

(** [for (auto const &x : l) f(x);] *)
Fixpoint pfor {A} (l : list A) (f : A → prog ()) : prog () :=
  match l with
  | [] => Ret ()
  | x :: l => f x ≫= λ _, pfor l f
  end.

(** A loop whose body may return from the function: [Some r] is [return r]. *)
Fixpoint pfind {A R} (l : list A) (f : A → prog (option R)) : prog (option R) :=
  match l with
  | [] => Ret None
  | x :: l => f x ≫= λ o, match o with Some r => Ret (Some r) | None => pfind l f end
  end.

(** [v.at(j)] of a vector *)
Definition vec_at {A} (l : list A) (j : nat) : outcome A :=
  match l !! j with Some x => Ok x | None => Throw "vector::at" end.

(** [traits::monad_rev() >= rev], false for Ethereum traits *)
Definition monad_rev_from (t : Traits) (rev : Z) : bool :=
  match monad_rev t with Some r => r >=? rev | None => false end.

(** ** The chain context (monad_chain.hpp) *)
Record ChainContext := mkChainContext {
  grandparent_senders_and_authorities : gset Z;
  parent_senders_and_authorities : gset Z;
  senders_and_authorities : gset Z;
  senders : list Z;
  authorities : list (list (option Z))
}.

(** ** Who may dip into the reserve *)
(** The loop [for (size_t j = 0; j <= i; ++j)]; [Some false] returns. *)
Fixpoint sender_dip_loop (ctx : ChainContext) (sender : Z) (i : nat) (js : list nat) : outcome bool :=
  match js with
  | [] => mret true
  | j :: js =>
      sent ← (if bool_decide (j < i)%nat then a ← vec_at (senders ctx) j; mret (sender =? a)
              else mret false);
      if (sent : bool) then mret false else
      auths ← vec_at (authorities ctx) j;
      if bool_decide (Some sender ∈ auths) then mret false
      else sender_dip_loop ctx sender i js
  end.

Definition can_sender_dip_into_reserve (sender : Z) (i : nat) (sender_is_delegated : bool)
    (ctx : ChainContext) : outcome bool :=
  if sender_is_delegated then mret false
  else if bool_decide (sender ∈ grandparent_senders_and_authorities ctx)
          || bool_decide (sender ∈ parent_senders_and_authorities ctx) then mret false
  else if bool_decide (sender ∈ senders_and_authorities ctx) then
    sender_dip_loop ctx sender i (seq 0 (S i))
  else mret true.

Definition ETHER : Z := 1000000000000000000.
Definition monad_default_max_reserve_balance_mon : Z := 10.
Definition get_max_reserve (address : Z) : Z := u256 (monad_default_max_reserve_balance_mon * ETHER).

(** ** The scan at the end of a transaction *)
(** [reserve - gas_fees], or nothing when the fees exceed the reserve. *)
Definition violation_threshold (address sender gas_fees orig_balance : Z) : option Z :=
  let reserve := Z.min (get_max_reserve address) orig_balance in
  if address =? sender then
    if gas_fees >? reserve then None else Some (u256 (reserve - gas_fees))
  else Some reserve.

(** The code of an account that is checked: whether it is delegated, or
    [None] when the account is skipped. *)
Definition checked_account (t : Traits) (addr effective_code_hash : Z) : prog (option bool) :=
  if addr =? STAKING_CA then Ret None
  else if negb (effective_code_hash =? NULL_HASH) then
    intercode ← do_ (m_read_code effective_code_hash);
    Ret (if code_is_delegated intercode then Some true else None)
  else if monad_rev_from t MONAD_NINE then
    destructed ← do_ (m_is_destructed addr);
    if (destructed : bool) then
      here ← do_ (m_is_current_incarnation addr);
      Ret (if here : bool then None else Some false)
    else Ret (Some false)
  else Ret (Some false).

(** One iteration: [Some true] is [return true], [None] goes on. *)
Definition dipped_entry (t : Traits) (sender gas_fees : Z) (i : nat) (ctx : ChainContext) (addr : Z)
    : prog (option bool) :=
  orig_code_hash ← do_ (m_original_code_hash addr);
  effective_code_hash ←
    (if monad_rev_from t MONAD_EIGHT then do_ (m_get_code_hash addr) else Ret orig_code_hash);
  checked ← checked_account t addr effective_code_hash;
  match checked with
  | None => Ret None
  | Some effective_is_delegated =>
      orig_balance ← do_ (m_get_original_balance addr);
      let threshold := violation_threshold addr sender gas_fees orig_balance in
      curr_balance ← do_ (m_get_balance addr);
      if (match threshold with None => true | Some v => curr_balance <? v end) then
        if addr =? sender then
          ok ← plift (can_sender_dip_into_reserve sender i effective_is_delegated ctx);
          Ret (if ok : bool then None else Some true)
        else
          passert (bool_decide (is_Some threshold));; Ret (Some true)
      else Ret None
  end.

Definition assert_context (i : nat) (ctx : ChainContext) : prog () :=
  passert (bool_decide (i < length (senders ctx))%nat);;
  passert (bool_decide (i < length (authorities ctx))%nat);;
  passert (bool_decide (length (senders ctx) = length (authorities ctx))).

Definition dipped_into_reserve (t : Traits) (sender : Z) (tx : Transaction) (base_fee : Z) (i : nat)
    (ctx : ChainContext) : prog bool :=
  assert_context i ctx;;
  price ← plift (gas_price t tx base_fee);
  let gas_fees := u256 (tx_gas_limit tx * price) in
  addresses ← do_ m_current;
  r ← pfind addresses (dipped_entry t sender gas_fees i ctx);
  Ret (default false r).

Definition revert_transaction (t : Traits) (sender : Z) (tx : Transaction) (base_fee : Z) (i : nat)
    (ctx : ChainContext) : prog bool :=
  if monad_rev_from t MONAD_FOUR then dipped_into_reserve t sender tx base_fee i ctx else Ret false.

(** ** The tracked answer *)
Definition has_violation (rb : ReserveBalance) : bool := negb (bool_decide (failed_ rb = ∅)).
(** [MONAD_ASSERT(rb.tracking_enabled()); return rb.has_violation();] *)
Definition dipped_into_reserve_cached (rb : ReserveBalance) : outcome bool :=
  _ ← oassert (tracking_enabled_ rb); mret (has_violation rb).
Definition revert_transaction_cached (t : Traits) : prog bool :=
  if monad_rev_from t MONAD_FOUR then
    rb ← do_ m_get_rb; plift (dipped_into_reserve_cached rb)
  else Ret false.

(** [is_delegated(state, code_hash)] *)
Definition is_delegated_hash (h : Z) : prog bool :=
  if h =? NULL_HASH then Ret false
  else vcode ← do_ (m_read_code h); Ret (code_is_delegated vcode).

Definition init_from_tx (t : Traits) (sender : Z) (tx : Transaction) (base_fee : option Z) (i : nat)
    (ctx : ChainContext) : prog () :=
  rb ← do_ m_get_rb;
  if negb (monad_rev_from t MONAD_FOUR) then
    do_ (m_set_rb (mkReserveBalance false false false 0 0 false ∅ (violation_thresholds_ rb) None))
  else
    assert_context i ctx;;
    let use_recent := monad_rev_from t MONAD_EIGHT in
    let exemption := monad_rev_from t MONAD_NINE in
    do_ (m_set_rb (mkReserveBalance (tracking_enabled_ rb) use_recent exemption (sender_ rb)
                     (sender_gas_fees_ rb) (sender_can_dip_ rb) (failed_ rb)
                     (violation_thresholds_ rb) (get_max_reserve_ rb)));;
    sender_code_hash ←
      (if use_recent then do_ (m_get_code_hash sender) else do_ (m_load_original_code_hash sender));
    delegated ← is_delegated_hash sender_code_hash;
    sender_can_dip ← plift (can_sender_dip_into_reserve sender i delegated ctx);
    price ← plift (gas_price t tx (default 0 base_fee));
    do_ (m_set_rb (mkReserveBalance true use_recent exemption sender
                     (u256 (tx_gas_limit tx * price)) sender_can_dip ∅ ∅ (Some get_max_reserve))).

Definition init_reserve_balance_context := init_from_tx.
