(* ===== verification/ValidateTransaction.v ===== *)
(** * Validation of a transaction against the state

    validate_ethereum_transaction (src/category/execution/ethereum/validate_transaction.hpp),
    validate_transaction for Ethereum (validate_transaction.cpp) and for
    Monad (src/category/execution/monad/validate_monad_transaction.cpp). *)
From S2P Require Import Prelude Traits Account VersionStack AccountState BlockState State Methods Fixtures Frames Words CheckedMath Transaction ReserveBalance.

Inductive MonadTransactionError := InsufficientBalanceForFee | SystemTransactionSenderIsAuthority.

(** The [Result<void>] of [validate_transaction]: [None] is success. *)
Inductive ValidationError :=
| EthereumError (e : TransactionError)
| MonadError (e : MonadTransactionError).

Definition SYSTEM_SENDER : Z := 0x6f49a8F621353f12378d0046E7d7e4b9B249DC9e.

(** [v0]: the value, the most the gas can cost and the most the blobs can. *)
Definition total_cost (tx : Transaction) : MathError + Z :=
  match max_gas_cost (tx_gas_limit tx) (max_fee_per_gas tx) with
  | inl e => inl e
  | inr gas_fee =>
      match checked_add (tx_value tx) gas_fee with
      | inl e => inl e
      | inr base_cost =>
          if decide (tx_type tx = eip4844) then
            match checked_mul (get_total_blob_gas tx) (max_fee_per_blob_gas tx) with
            | inl e => inl e
            | inr blob_cost => checked_add base_cost blob_cost
            end
          else inr base_cost
      end
  end.

Definition validate_ethereum_transaction (t : Traits) (tx : Transaction) (sender : Z)
    : prog (option TransactionError) :=
  match total_cost tx with
  | inl _ => Ret (Some InsufficientBalance)
  | inr v0 =>
      exists_ ← do_ (m_account_exists sender);
      if negb exists_ then
        Ret (if negb (tx_nonce tx =? 0) then Some BadNonce
             else if negb (v0 =? 0) then Some InsufficientBalance
             else None)
      else
        code_hash ← do_ (m_get_code_hash sender);
        sender_is_eoa ←
          (if evm_rev t >=? MONAD_ETH_PRAGUE then
             icode ← do_ (m_read_code code_hash);
             Ret ((code_hash =? NULL_HASH) || code_is_delegated icode)
           else Ret (code_hash =? NULL_HASH));
        if negb sender_is_eoa then Ret (Some SenderNotEoa) else
        nonce ← do_ (m_get_nonce sender);
        if negb (nonce =? tx_nonce tx) then Ret (Some BadNonce) else
        balance ← do_ (m_get_balance sender);
        Ret (if balance <? v0 then Some InsufficientBalance else None)
  end.

(** What Monad lets pass from MONAD_FOUR on: an insufficient balance is
    checked again, against the fee only. *)
Definition relaxed_result (res : option TransactionError) : option TransactionError :=
  match res with
  | Some e => if decide (e = InsufficientBalance) then None else Some e
  | None => None
  end.

Definition validate_monad_transaction (t : Traits) (tx : Transaction) (sender base_fee : Z)
    (auths : list (option Z)) : prog (option ValidationError) :=
  res ← validate_ethereum_transaction t tx sender;
  if monad_rev_from t MONAD_FOUR then
    match relaxed_result res with
    | Some e => Ret (Some (EthereumError e))
    | None =>
        price ← plift (gas_price t tx base_fee);
        let gas_fee := u256 (tx_gas_limit tx * price) in
        balance ← do_ (m_get_balance sender);
        Ret (if balance <? gas_fee then Some (MonadError InsufficientBalanceForFee)
             else if bool_decide (Some SYSTEM_SENDER ∈ auths)
             then Some (MonadError SystemTransactionSenderIsAuthority)
             else None)
    end
  else Ret (option_map EthereumError res).

Definition validate_transaction (t : Traits) (tx : Transaction) (sender base_fee : Z)
    (auths : list (option Z)) : prog (option ValidationError) :=
  match t with
  | EvmTraits _ =>
      validate_ethereum_transaction t tx sender ≫= λ res, Ret (option_map EthereumError res)
  | MonadTraits _ => validate_monad_transaction t tx sender base_fee auths
  end.

(** ** What the state says about an account *)
(** The account of [a] if it is loaded: its most recent version. *)
Definition known_account (s : State) (a : Z) : option (option Account) :=
  match current_ s !! a with
  | Some ((_, x) :: _) => Some (account_ x)
  | Some [] => None
  | None => (λ os, os_account os) <$> original_ s !! a
  end.

Section validation.
Context {B : Type} `{BlockAccess B}.
Context (keccak256 : Code → Z).
Abbreviation W := (State * B)%type.

Lemma recent_account_known a acc (w w' : W) :
  recent_account a w = Ok (acc, w') → known_account w'.1 a = Some acc.
Proof.
  unfold recent_account, recent_account_state, known_account. destruct w as [s b]. intros E.
  rewrite run_bind_bind, run_sgets in E. simpl in E. destruct (current_ s !! a) as [[|[v x] r]|] eqn:Ec.
  - sinv. done.
  - sinv. simpl in *. rewrite Ec. by simplify_eq.
  - unfold original_account_state in E. rewrite !run_bind_bind, run_sgets in E. simpl in E.
    destruct (original_ s !! a) as [os|] eqn:Ho.
    + sinv. simpl. by rewrite Ec, Ho.
    + rewrite run_bind_bind in E. apply bind_Ok in E as (x & w1 & E1 & E).
      apply lift_block_Ok in E1 as [_ E1]. destruct w1 as [s1 b1]. simpl in E1. subst s1. sinv. simpl. by rewrite Ec, lookup_insert_eq.
Qed.
Lemma known_recent_account a acc (w : W) :
  known_account w.1 a = Some acc → recent_account a w = Ok (acc, w).
Proof.
  unfold recent_account, recent_account_state, known_account. destruct w as [s b]. intros E. simpl in E.
  rewrite run_bind_bind, run_sgets. simpl. destruct (current_ s !! a) as [[|[v x] r]|] eqn:Ec; [done| |].
  - unfold vs_recent. simpl. autorewrite with run. by simplify_eq.
  - unfold original_account_state. rewrite !run_bind_bind, run_sgets. simpl.
    destruct (original_ s !! a) as [os|] eqn:Ho; simpl in E; [|done]. autorewrite with run. by simplify_eq.
Qed.

(** Marking the original balance keeps the account. *)
Lemma known_exact_balance a b acc (s : State) :
  known_account s a = Some acc →
  known_account (st_set_original (alter set_validate_exact_balance b (original_ s)) s) a = Some acc.
Proof.
  unfold known_account. simpl. intros E. case_match; [done|]. destruct (decide (a = b)) as [->|].
  - rewrite lookup_alter_eq. by destruct (original_ s !! b).
  - by rewrite lookup_alter_ne.
Qed.
Lemma get_balance_known a v (w w' : W) :
  get_balance a w = Ok (v, w') →
  ∃ acc, known_account w'.1 a = Some acc ∧ v = balance_of acc ∧
    (∀ acc0, known_account w.1 a = Some acc0 → acc0 = acc).
Proof.
  unfold get_balance. intros E. apply bind_Ok in E as (acc & w1 & E1 & E).
  exists acc. pose proof (recent_account_known _ _ _ _ E1) as Hk.
  apply bind_Ok in E as (os & w2 & E2 & E). unfold write_original in E. sinv.
  split; [|split; [done|]].
  - simpl. apply known_exact_balance.
    assert (original_account_state a w1 = Ok (os, w2)) as E3 by done.
    revert E3. unfold original_account_state. rewrite run_sgets. destruct (original_ w1.1 !! a) eqn:Ho.
    + intros E3. sinv. done.
    + intros E3. apply bind_Ok in E3 as (x & w3 & E3 & E4). apply lift_block_Ok in E3 as [_ E3]. sinv. simpl.
      unfold known_account in *. simpl. rewrite E3. case_match; [done|]. by rewrite Ho in Hk.
  - intros acc0 Hk0. rewrite (known_recent_account _ _ _ Hk0) in E1. by simplify_eq.
Qed.
Lemma read_code_state h c (w w' : W) : state_read_code h w = Ok (c, w') → w'.1 = w.1.
Proof.
  unfold state_read_code. rewrite run_sgets. case_match; intros E; [by sinv|].
  by apply lift_block_Ok in E as [_ ?].
Qed.

(** The nonce is the account's, and the account has no code of its own:
    none, or from Prague on a delegation indicator, as its code reads in the
    world that [w] becomes when the sender is loaded. *)
Definition may_send (t : Traits) (tx : Transaction) (sender : Z) (w : W) (acc : option Account) : Prop :=
  match acc with
  | None => tx_nonce tx = 0
  | Some a =>
      nonce a = tx_nonce tx ∧
      (code_hash a = NULL_HASH ∨
       MONAD_ETH_PRAGUE <= evm_rev t ∧
       ∃ (w1 w2 : W) c, account_exists sender w = Ok (true, w1) ∧
         state_read_code (code_hash a) w1 = Ok (c, w2) ∧ code_is_delegated c = true)
  end.

Lemma account_exists_known a b (w w' : W) :
  account_exists a w = Ok (b, w') → ∃ acc, known_account w'.1 a = Some acc ∧ b = bool_decide (is_Some acc).
Proof. unfold account_exists. intros E. sinv. eauto using recent_account_known. Qed.
Lemma code_hash_known a h acc (w w' : W) :
  known_account w.1 a = Some acc → get_code_hash a w = Ok (h, w') →
  w' = w ∧ h = match acc with Some x => code_hash x | None => NULL_HASH end.
Proof.
  intros Hk. unfold get_code_hash. rewrite (bind_Ok_eq _ _ _ _ _ (known_recent_account _ _ _ Hk)).
  intros E. by sinv.
Qed.
Lemma nonce_known a n acc (w w' : W) :
  known_account w.1 a = Some acc → get_nonce a w = Ok (n, w') →
  w' = w ∧ n = match acc with Some x => nonce x | None => 0 end.
Proof.
  intros Hk. unfold get_nonce. rewrite (bind_Ok_eq _ _ _ _ _ (known_recent_account _ _ _ Hk)).
  intros E. by sinv.
Qed.

Lemma ethereum_validation t tx sender v0 r (w w' : W) :
  total_cost tx = inr v0 →
  exec keccak256 (validate_ethereum_transaction t tx sender) w = Ok (r, w') →
  r = None ∨ r = Some InsufficientBalance →
  ∃ acc, known_account w'.1 sender = Some acc ∧ may_send t tx sender w acc ∧ (r = None → v0 <= balance_of acc).
Proof.
  intros Hv E Hr. unfold validate_ethereum_transaction in E. rewrite Hv in E.
  apply exec_bind_Ok in E as (ex & w1 & E1 & E). rewrite exec_do in E1.
  cbn [call] in E1. pose proof E1 as E0. apply account_exists_known in E1 as (acc & Hk & ->).
  destruct acc as [acc|]; [rewrite (bool_decide_true (is_Some (Some acc))) in E0 by eauto; rewrite (bool_decide_true (is_Some (Some acc))) in E by eauto|
    rewrite bool_decide_false in E by (by intros [? ?])]; cbn [negb] in E.
  - apply exec_bind_Ok in E as (h & w2 & E2 & E). rewrite exec_do in E2.
    apply (code_hash_known _ _ _ _ _ Hk) in E2 as [-> ->].
    apply exec_bind_Ok in E as (eoa & w3 & E3 & E).
    assert (w3.1 = w1.1 ∧ (eoa = true → code_hash acc = NULL_HASH ∨
      MONAD_ETH_PRAGUE <= evm_rev t ∧
      ∃ (u1 u2 : W) c, account_exists sender w = Ok (true, u1) ∧
        state_read_code (code_hash acc) u1 = Ok (c, u2) ∧ code_is_delegated c = true))
      as [Hs Hcode].
    { clear E. destruct (evm_rev t >=? MONAD_ETH_PRAGUE) eqn:Hp; pinv.
      - split; [by eapply read_code_state|]. intros [Hh|Hd]%orb_true_iff; [left; lia|right]. split; [lia|eauto 6].
      - split; [done|]. intros Hh. left. lia. }
    destruct eoa; cbn [negb] in E; [|pinv; naive_solver]. rewrite <- Hs in Hk.
    apply exec_bind_Ok in E as (n & w4 & E4 & E). rewrite exec_do in E4.
    apply (nonce_known _ _ _ _ _ Hk) in E4 as [-> ->].
    destruct (nonce acc =? tx_nonce tx) eqn:Hn; cbn [negb] in E; [|pinv; naive_solver].
    clear E3. pinv. match goal with Hb : get_balance _ _ = _ |- _ => apply get_balance_known in Hb as (acc' & Hk' & -> & Hsame) end.
    specialize (Hsame _ Hk). subst acc'. exists (Some acc). split; [done|]. split; [split; [lia|auto]|].
    destruct (_ <? v0) eqn:Hlt; [done|]. lia.
  - pinv. exists None. destruct (tx_nonce tx =? 0) eqn:Hn; simpl in *; [|naive_solver].
    split; [done|]. split; [simpl; lia|]. destruct (v0 =? 0) eqn:H0; simpl; [|done]. unfold balance_of. lia.
Qed.

(** C31: what validation guarantees.  When [validate_transaction] accepts,
    the sender can pay: on Ethereum and before MONAD_FOUR the whole
    up-front cost with the value, from MONAD_FOUR on the gas fee, in which
    case the system account is not among the authorities; and unless the
    cost overflows 256 bits, the nonce is the account's and the sender is an
    account without code of its own: its code hash is that of no code, or from
    Prague on the code it reads as, in the world of the validation, is a
    delegation indicator. *)
Theorem validation_sound t tx sender base_fee auths (w w' : W) :
  exec keccak256 (validate_transaction t tx sender base_fee auths) w = Ok (None, w') →
  ∃ acc, known_account w'.1 sender = Some acc ∧
    (if monad_rev_from t MONAD_FOUR then
       ∃ price, gas_price t tx base_fee = Ok price ∧
         u256 (tx_gas_limit tx * price) <= balance_of acc ∧ Some SYSTEM_SENDER ∉ auths
     else ∃ v0, total_cost tx = inr v0 ∧ v0 <= balance_of acc) ∧
    (∀ v0, total_cost tx = inr v0 → may_send t tx sender w acc).
Proof.
  assert (Hplain : ∀ res, exec keccak256 (validate_ethereum_transaction t tx sender) w = Ok (res, w') →
    option_map EthereumError res = None →
    ∃ acc, known_account w'.1 sender = Some acc ∧ (∃ v0, total_cost tx = inr v0 ∧ v0 <= balance_of acc) ∧
      (∀ v0, total_cost tx = inr v0 → may_send t tx sender w acc)).
  { intros [res|] E Hres; [done|]. destruct (total_cost tx) as [e|v0] eqn:Hv.
    - unfold validate_ethereum_transaction in E. rewrite Hv in E. pinv. done.
    - destruct (ethereum_validation _ _ _ _ _ _ _ Hv E) as (acc & Hk & Hm & Hb); [by left|].
      exists acc. split; [done|]. split; [eauto|]. by intros ? [= <-]. }
  intros E. destruct t as [rev|rev]; unfold validate_transaction, validate_monad_transaction in E.
  - pinv. by eapply Hplain.
  - apply exec_bind_Ok in E as (res & w1 & E1 & E).
    destruct (monad_rev_from (MonadTraits rev) MONAD_FOUR); [|pinv; by eapply Hplain].
    destruct (relaxed_result res) as [e|] eqn:Hres; [pinv; done|].
    assert (Hr : res = None ∨ res = Some InsufficientBalance).
    { destruct res as [e|]; [|by left]. simpl in Hres. destruct (decide (e = InsufficientBalance)); [|done].
      subst. by right. }
    apply exec_bind_Ok in E as (price & w2 & E2 & E).
    destruct (gas_price (MonadTraits rev) tx base_fee) as [p| |] eqn:Hp; [|done|done]. simpl in E2. minv.
    apply exec_bind_Ok in E as (b & w3 & E3 & E). rewrite exec_do in E3. pinv.
    apply get_balance_known in E3 as (acc & Hk & -> & Hsame). exists acc. split; [done|].
    destruct (_ <? _) eqn:Hlt; [done|]. case_bool_decide as Ha; [done|]. split; [|].
    + exists p. split; [done|]. split; [lia|done].
    + intros v0 Hv. destruct (ethereum_validation _ _ _ _ _ _ _ Hv E1 Hr) as (acc' & Hk' & Hm & _).
      by rewrite <- (Hsame _ Hk').
Qed.

End validation.

(** ** Concrete transactions *)
Section concrete.
(** Alice's account is loaded; her nonce is 7. *)
Definition validation_world : State * BlockState () :=
  ran (original_account_state alice) (test_state, test_block).
Definition valid_tx (n value : Z) : Transaction :=
  mkTransaction (mkSignatureAndChain (mkSignature 1 1 0) (Some 143)) n 1 21000 value (Some bob) eip1559
    [] [] 0 0 [] [].

Lemma validation_sound_witness :
  ∃ acc, known_account validation_world.1 alice = Some acc ∧ may_send (B:=BlockState ())
           (EvmTraits MONAD_ETH_CANCUN) (mkTransaction (tx_sc (valid_tx 7 5)) 7 0 21000 5 (Some bob) legacy
              [] [] 0 0 [] []) alice validation_world acc.
Proof.
  set (tx := mkTransaction _ _ _ _ _ _ _ _ _ _ _ _ _).
  destruct (validation_sound (B:=BlockState ()) test_hash (EvmTraits MONAD_ETH_CANCUN) tx alice 0 []
    validation_world (ran (exec test_hash (validate_transaction (EvmTraits MONAD_ETH_CANCUN) tx alice 0 []))
                        validation_world)) as (acc & Hk & _ & Hm); [run_concrete|].
  exists acc. split; [|by eapply Hm].
  rewrite <- Hk. run_concrete.
Defined.

End concrete.
