(* ===== verification/Precompiles.v ===== *)
(** * Messages, results and the precompiled contracts

    The parts of EVMC's message and result that execution uses, the
    dispatch of src/category/execution/ethereum/precompiles.cpp and
    src/category/execution/monad/monad_precompiles.cpp, and the reserve
    balance precompile of src/category/execution/monad/reserve_balance/.
    The functions the precompiles compute are cryptography and parameters;
    so is the staking contract. *)
From S2P Require Import Prelude Traits Account VersionStack AccountState BlockState State Methods Words CheckedMath Transaction Rlp PrecompileGas ReserveBalance.

(** ** EVMC (third_party/evmc) *)
Inductive evmc_status_code :=
| EVMC_SUCCESS | EVMC_FAILURE | EVMC_REVERT | EVMC_OUT_OF_GAS | EVMC_INVALID_INSTRUCTION
| EVMC_UNDEFINED_INSTRUCTION | EVMC_STACK_OVERFLOW | EVMC_STACK_UNDERFLOW
| EVMC_BAD_JUMP_DESTINATION | EVMC_INVALID_MEMORY_ACCESS | EVMC_CALL_DEPTH_EXCEEDED
| EVMC_STATIC_MODE_VIOLATION | EVMC_PRECOMPILE_FAILURE | EVMC_CONTRACT_VALIDATION_FAILURE
| EVMC_ARGUMENT_OUT_OF_RANGE | EVMC_WASM_UNREACHABLE_INSTRUCTION | EVMC_WASM_TRAP
| EVMC_INSUFFICIENT_BALANCE | EVMC_MONAD_RESERVE_BALANCE_VIOLATION
| EVMC_INTERNAL_ERROR | EVMC_REJECTED | EVMC_OUT_OF_MEMORY.
#[global] Instance evmc_status_code_eq_dec : EqDecision evmc_status_code.
Proof. solve_decision. Defined.

Inductive evmc_call_kind := EVMC_CALL | EVMC_DELEGATECALL | EVMC_CALLCODE | EVMC_CREATE | EVMC_CREATE2.
#[global] Instance evmc_call_kind_eq_dec : EqDecision evmc_call_kind.
Proof. solve_decision. Defined.

(** [EVMC_STATIC] and [EVMC_DELEGATED] *)
Definition EVMC_STATIC : Z := 1.
Definition EVMC_DELEGATED : Z := 2.

(** Of the memory a message is given, [memory_offset] is the part already in
    use by the frames below it: [memory - memory_handle]. *)
Record evmc_message := mkMessage {
  kind : evmc_call_kind;
  flags : Z;
  depth : Z;
  gas : Z;
  recipient : Z;
  msg_sender : Z;
  input_data : list Z;
  value : Z;
  create2_salt : Z;
  code_address : Z;
  memory_offset : Z
}.
Record Result := mkResult {
  status_code : evmc_status_code;
  gas_left : Z;
  gas_refund : Z;
  output_data : list Z;
  create_address : Z
}.
(** [evmc::Result{status, gas}] *)
Definition make_result (status : evmc_status_code) (gas : Z) : Result := mkResult status gas 0 [] 0.
Definition failure (status : evmc_status_code) : Result := make_result status 0.
Definition has_flag (msg : evmc_message) (f : Z) : bool := negb (Z.land (flags msg) f =? 0).

Section precompiles.
(** [execute_func] of the precompile at an address: status and output. *)
Context (precompile_execute : Z → list Z → evmc_status_code * list Z).

Abbreviation gas_cost_fn := (list Z → outcome (option Z)).
Definition always (f : list Z → Z) : gas_cost_fn := λ input, mret (Some (f input)).

(** [resolve_precompile]: the gas function of a precompile. *)
Definition resolve_precompile (t : Traits) (address : Z) : option gas_cost_fn :=
  if address =? 0x01 then Some (always (ecrecover_gas_cost t))
  else if address =? 0x02 then Some (always sha256_gas_cost)
  else if address =? 0x03 then Some (always ripemd160_gas_cost)
  else if address =? 0x04 then Some (always identity_gas_cost)
  else if address =? 0x05 then Some (λ input, mret (expmod_gas_cost t input))
  else if address =? 0x06 then Some (always (ecadd_gas_cost t))
  else if address =? 0x07 then Some (always (ecmul_gas_cost t))
  else if address =? 0x08 then Some (always (snarkv_gas_cost t))
  else if address =? 0x09 then Some (λ input, mret (blake2bf_gas_cost t input))
  else if (evm_rev t >=? MONAD_ETH_CANCUN) && (address =? 0x0A) then
    Some (always (point_evaluation_gas_cost t))
  else if (evm_rev t >=? MONAD_ETH_PRAGUE) && (address =? 0x0B) then Some (always bls12_g1_add_gas_cost)
  else if (evm_rev t >=? MONAD_ETH_PRAGUE) && (address =? 0x0C) then
    Some (λ input, c ← bls12_g1_msm_gas_cost input; mret (Some c))
  else if (evm_rev t >=? MONAD_ETH_PRAGUE) && (address =? 0x0D) then Some (always bls12_g2_add_gas_cost)
  else if (evm_rev t >=? MONAD_ETH_PRAGUE) && (address =? 0x0E) then
    Some (λ input, c ← bls12_g2_msm_gas_cost input; mret (Some c))
  else if (evm_rev t >=? MONAD_ETH_PRAGUE) && (address =? 0x0F) then
    Some (always bls12_pairing_check_gas_cost)
  else if (evm_rev t >=? MONAD_ETH_PRAGUE) && (address =? 0x10) then
    Some (always bls12_map_fp_to_g1_gas_cost)
  else if (evm_rev t >=? MONAD_ETH_PRAGUE) && (address =? 0x11) then
    Some (always bls12_map_fp2_to_g2_gas_cost)
  else if eip_7951_active t && (address =? 0x0100) then Some (always p256_verify_gas_cost)
  else None.

Definition is_eth_precompile (t : Traits) (address : Z) : bool :=
  bool_decide (is_Some (resolve_precompile t address)).

Definition check_call_eth_precompile (t : Traits) (msg : evmc_message) : outcome (option Result) :=
  match resolve_precompile t (code_address msg) with
  | None => mret None
  | Some gas_cost_func =>
      if (evm_rev t >=? MONAD_ETH_PRAGUE) && has_flag msg EVMC_DELEGATED then
        mret (Some (make_result EVMC_SUCCESS (gas msg)))
      else
        cost ← gas_cost_func (input_data msg);
        match cost with
        | None => mret (Some (failure EVMC_PRECOMPILE_FAILURE))
        | Some cost =>
            if gas msg <? cost then mret (Some (failure EVMC_OUT_OF_GAS))
            else
              let '(status, output) := precompile_execute (code_address msg) (input_data msg) in
              mret (Some (mkResult status
                      (if decide (status = EVMC_SUCCESS) then gas msg - cost else 0) 0 output 0))
        end
  end.

(** ** Stateful precompiles

    The template parameter [Contract] of [check_call_monad_precompile]: its
    address, what its constructor does to the state, and its dispatch, which
    strips the selector and returns the method and its cost.  A method
    returns the bytes of an error message or the output. *)
Record MonadContract := mkMonadContract {
  contract_address : Z;
  construct : prog ();
  precompile_dispatch : Traits → list Z → (list Z → Z → Z → prog (string + list Z)) * Z * list Z
}.

Definition string_bytes (s : string) : list Z :=
  (λ a, Z.of_N (Ascii.N_of_ascii a)) <$> String.list_ascii_of_string s.

Definition check_call_monad_precompile (t : Traits) (C : MonadContract) (msg : evmc_message)
    : prog (option Result) :=
  if negb (code_address msg =? contract_address C) then Ret None
  else if negb (bool_decide (kind msg = EVMC_CALL)) || negb (flags msg =? 0) then
    Ret (Some (failure EVMC_REJECTED))
  else
    let '(method, cost, input) := precompile_dispatch C t (input_data msg) in
    if gas msg <? cost then Ret (Some (failure EVMC_OUT_OF_GAS))
    else
      construct C;;
      res ← method input (msg_sender msg) (value msg);
      Ret (Some (match res with
                 | inr output => mkResult EVMC_SUCCESS (gas msg - cost) 0 output 0
                 | inl error => mkResult EVMC_REVERT 0 0 (string_bytes error) 0
                 end)).

(** ** The reserve balance contract *)
Definition RESERVE_BALANCE_CA : Z := 0x1001.
Definition DIPPED_INTO_RESERVE : Z := 0x3a61584e.
Definition DIPPED_INTO_RESERVE_OP_COST : Z := 100.
Definition FALLBACK_COST : Z := 100.

Definition function_not_payable (value : Z) : bool := value =? 0.
Definition precompile_fallback (input : list Z) (sender value : Z) : prog (string + list Z) :=
  Ret (inl "method not supported").
(** [abi_encode_bool]: a 32-byte word *)
Definition precompile_dipped_into_reserve (t : Traits) (input : list Z) (sender value : Z)
    : prog (string + list Z) :=
  if negb (function_not_payable value) then Ret (inl "value is nonzero")
  else if negb (bool_decide (input = [])) then Ret (inl "input is invalid")
  else
    dipped ← revert_transaction_cached t;
    Ret (inr (be_bytes 32 (if dipped : bool then 1 else 0))).
Definition reserve_dispatch (t : Traits) (input : list Z)
    : (list Z → Z → Z → prog (string + list Z)) * Z * list Z :=
  if size input <? 4 then (precompile_fallback, FALLBACK_COST, input)
  else
    let signature := be_val (take 4 input) in
    if signature =? DIPPED_INTO_RESERVE then
      (precompile_dipped_into_reserve t, DIPPED_INTO_RESERVE_OP_COST, drop 4 input)
    else (precompile_fallback, FALLBACK_COST, drop 4 input).
Definition ReserveBalanceContract : MonadContract :=
  mkMonadContract RESERVE_BALANCE_CA (do_ (m_add_to_balance RESERVE_BALANCE_CA 0)) reserve_dispatch.

(** ** The dispatch of a call *)
(** [staking::StakingContract] *)
Context (StakingContract : MonadContract).

Definition is_precompile (t : Traits) (address : Z) : bool :=
  match t with
  | EvmTraits _ => is_eth_precompile t address
  | MonadTraits rev =>
      is_eth_precompile t address || (address =? STAKING_CA)
      || ((rev >=? MONAD_NINE) && (address =? RESERVE_BALANCE_CA))
  end.

(** [CASE(cond, contract, addr)] *)
Definition precompile_case (cond : bool) (t : Traits) (C : MonadContract) (msg : evmc_message)
    (rest : prog (option Result)) : prog (option Result) :=
  if cond then
    r ← check_call_monad_precompile t C msg;
    match r with Some r => Ret (Some r) | None => rest end
  else rest.

Definition check_call_precompile (t : Traits) (msg : evmc_message) : prog (option Result) :=
  eth ← plift (check_call_eth_precompile t msg);
  match eth with
  | Some r => Ret (Some r)
  | None =>
      match t with
      | EvmTraits _ => Ret None
      | MonadTraits rev =>
          precompile_case (rev >=? MONAD_FOUR) t StakingContract msg (
          precompile_case (rev >=? MONAD_NINE) t ReserveBalanceContract msg (
          Ret None))
      end
  end.
End precompiles.
