(* ===== verification/BlockHash.v ===== *)
(** * Hashes of recent blocks

    src/category/execution/ethereum/block_hash_buffer.{hpp,cpp}: a ring of
    the last 256 finalized hashes, proposals that extend it, and the chain
    of proposals.  A proposal points to the finalized buffer, which goes on
    changing after the proposal is made: the buffer is an argument of the
    reads, never a copy. *)
From S2P Require Import Prelude Account Words.

Module BlockHashBuffer.

Definition N : Z := 256.

(** ** The finalized buffer *)
Record BlockHashBufferFinalized := mkFinalized { b_ : list Z; fin_n : Z }.
Definition make_finalized : BlockHashBufferFinalized := mkFinalized (replicate 256 NULL_HASH) 0.

Definition finalized_get (n : Z) (buf : BlockHashBufferFinalized) : outcome Z :=
  _ ← oassert ((n <? fin_n buf) && (u64 (n + N) >=? fin_n buf));
  match b_ buf !! Z.to_nat (n mod N) with Some h => mret h | None => Abort end.
Definition finalized_set (n h : Z) (buf : BlockHashBufferFinalized) : outcome BlockHashBufferFinalized :=
  _ ← oassert ((fin_n buf =? 0) || (n =? fin_n buf));
  mret (mkFinalized (<[Z.to_nat (n mod N) := h]> (b_ buf)) (u64 (n + 1))).

(** ** Proposals *)
Record BlockHashBufferProposal := mkBufferProposal { prop_n : Z; deltas_ : list Z }.
(** [BlockHashBufferProposal(h, buf)] *)
Definition proposal_on_finalized (h : Z) (buf : BlockHashBufferFinalized) : BlockHashBufferProposal :=
  mkBufferProposal (u64 (fin_n buf + 1)) [h].
(** [BlockHashBufferProposal(h, parent)]; [resize] pads with zeros. *)
Definition proposal_on_parent (h : Z) (parent : BlockHashBufferProposal) (buf : BlockHashBufferFinalized)
    : outcome BlockHashBufferProposal :=
  let n := u64 (prop_n parent + 1) in
  _ ← oassert ((n >? 0) && (n >? fin_n buf));
  mret (mkBufferProposal n (resize (Z.to_nat (u64 (n - fin_n buf))) 0 (h :: deltas_ parent))).
Definition proposal_get (n : Z) (p : BlockHashBufferProposal) (buf : BlockHashBufferFinalized) : outcome Z :=
  _ ← oassert ((n <? prop_n p) && (u64 (n + N) >=? prop_n p));
  match deltas_ p !! Z.to_nat (prop_n p - n - 1) with
  | Some h => mret h
  | None => finalized_get n buf
  end.

(** ** The chain of proposals *)
Record Proposal := mkProposal {
  block_number : Z;
  block_id : Z;
  parent_id : Z;
  buf : BlockHashBufferProposal
}.
Record BlockHashChain := mkChain { buf_ : BlockHashBufferFinalized; proposals_ : list Proposal }.

(** [std::find_if] by [block_id] *)
Definition find_proposal (id : Z) (l : list Proposal) : option Proposal :=
  find (λ p, block_id p =? id) l.

Definition propose (hash number id parent : Z) (c : BlockHashChain) : outcome BlockHashChain :=
  b ← (match find_proposal parent (proposals_ c) with
       | Some p => proposal_on_parent hash (buf p) (buf_ c)
       | None => mret (proposal_on_finalized hash (buf_ c))
       end);
  mret (mkChain (buf_ c) (proposals_ c ++ [mkProposal number id parent b])).

Definition finalize (id : Z) (c : BlockHashChain) : outcome BlockHashChain :=
  let to_finalize := fin_n (buf_ c) in
  match find_proposal id (proposals_ c) with
  | None => Abort
  | Some winner =>
      _ ← oassert (u64 (prop_n (buf winner) - 1) =? to_finalize);
      h ← proposal_get to_finalize (buf winner) (buf_ c);
      b ← finalized_set to_finalize h (buf_ c);
      mret (mkChain b (filter (λ p, block_number winner < block_number p) (proposals_ c)))
  end.

(** [find_chain(id).get(n)] *)
Definition chain_get (id n : Z) (c : BlockHashChain) : outcome Z :=
  match find_proposal id (proposals_ c) with
  | Some p => proposal_get n (buf p) (buf_ c)
  | None => finalized_get n (buf_ c)
  end.

(** ** What it promises

    The abstract chain knows every hash: of the finalized blocks from
    [s_start] to [s_n], and of each proposal's own history up to its own
    block. *)
Record SProposal := mkSProposal { sp_number : Z; sp_id : Z; sp_hash : Z → Z }.
Record SChain := mkSChain { s_start : Z; s_n : Z; s_hash : Z → Z; s_props : list SProposal }.

Definition update (f : Z → Z) (n h : Z) : Z → Z := λ m, if m =? n then h else f m.
Definition s_find (id : Z) (l : list SProposal) : option SProposal := find (λ p, sp_id p =? id) l.
(** The history a block on top of [parent] extends. *)
Definition s_parent (parent : Z) (s : SChain) : Z → Z :=
  match s_find parent (s_props s) with Some p => sp_hash p | None => s_hash s end.
Definition s_propose (hash number id parent : Z) (s : SChain) : SChain :=
  mkSChain (s_start s) (s_n s) (s_hash s)
    (s_props s ++ [mkSProposal number id (update (s_parent parent s) number hash)]).
Definition s_finalize (winner : SProposal) (s : SChain) : SChain :=
  mkSChain (s_start s) (s_n s + 1) (update (s_hash s) (s_n s) (sp_hash winner (s_n s)))
    (filter (λ p, sp_number winner < sp_number p) (s_props s)).

(** The block a proposal builds on: the one before it, a proposal that has
    not been overtaken by another finalized block, or the finalized tip. *)
Definition good_parent (parent number : Z) (s : SChain) : Prop :=
  match s_find parent (s_props s) with
  | Some p => number = sp_number p + 1 ∧ ∀ n, s_start s <= n < s_n s → sp_hash p n = s_hash s n
  | None => number = s_n s
  end.

Record finalized_rep (b : BlockHashBufferFinalized) (s : SChain) : Prop := {
  fr_length : length (b_ b) = 256%nat;
  fr_n : fin_n b = s_n s ∧ 0 <= s_start s <= s_n s ∧ s_n s < 2 ^ 63;
  fr_get n : s_start s <= n < s_n s → s_n s - 256 <= n → b_ b !! Z.to_nat (n mod 256) = Some (s_hash s n)
}.
Record proposal_rep (s : SChain) (p : Proposal) (q : SProposal) : Prop := {
  pr_id : block_id p = sp_id q;
  pr_number : block_number p = sp_number q;
  pr_n : prop_n (buf p) = sp_number q + 1 ∧ s_n s <= sp_number q < 2 ^ 63;
  pr_deltas : sp_number q + 1 - s_n s <= Z.of_nat (length (deltas_ (buf p))) <= sp_number q + 1;
  pr_recent i h : deltas_ (buf p) !! i = Some h → h = sp_hash q (sp_number q - Z.of_nat i);
  pr_old n : s_start s <= n < s_n s → n < sp_number q + 1 - Z.of_nat (length (deltas_ (buf p))) →
    sp_hash q n = s_hash s n
}.
Record chain_rep (c : BlockHashChain) (s : SChain) : Prop := {
  cr_finalized : finalized_rep (buf_ c) s;
  cr_proposals : Forall2 (proposal_rep s) (proposals_ c) (s_props s)
}.

Lemma finalized_get_rep b s n :
  finalized_rep b s → s_start s <= n < s_n s → s_n s - 256 <= n → finalized_get n b = Ok (s_hash s n).
Proof.
  intros [Hl (Hn & Hs & Hb) Hg] Hn1 Hn2. unfold finalized_get, u64, N. rewrite Hn.
  rewrite (Z.mod_small (n + 256)) by lia. rewrite oassert_true by lia. simpl. by rewrite Hg.
Qed.

Lemma proposal_get_rep b s p q n :
  finalized_rep b s → proposal_rep s p q →
  s_start s <= n <= sp_number q → sp_number q - 255 <= n → proposal_get n (buf p) b = Ok (sp_hash q n).
Proof.
  intros Hf [Hid Hnum [Hn Hq] Hd Hr Ho] Hn1 Hn2. destruct (fr_n _ _ Hf) as (_ & Hs & _).
  unfold proposal_get, u64, N. rewrite Hn. rewrite (Z.mod_small (n + 256)) by lia. rewrite oassert_true by lia. simpl.
  destruct (deltas_ (buf p) !! _) as [h|] eqn:E.
  - rewrite (Hr _ _ E). f_equal. f_equal. lia.
  - apply lookup_ge_None in E. rewrite Ho by lia. apply finalized_get_rep; [done|lia|lia].
Qed.

Lemma find_rep s id l l' :
  Forall2 (proposal_rep s) l l' →
  match find_proposal id l, s_find id l' with
  | Some p, Some q => proposal_rep s p q
  | None, None => True
  | _, _ => False
  end.
Proof.
  induction 1 as [|p q l l' Hpq Hl IH]; [done|]. unfold find_proposal, s_find in *. simpl.
  rewrite (pr_id _ _ _ Hpq). by destruct (sp_id q =? id).
Qed.

(** Proposing does not touch what the others rely on. *)
Lemma proposal_rep_props s ps p q :
  proposal_rep s p q → proposal_rep (mkSChain (s_start s) (s_n s) (s_hash s) ps) p q.
Proof. by intros []. Qed.
Lemma proposals_rep_props s ps l l' :
  Forall2 (proposal_rep s) l l' →
  Forall2 (proposal_rep (mkSChain (s_start s) (s_n s) (s_hash s) ps)) l l'.
Proof. induction 1; constructor; auto using proposal_rep_props. Qed.
Lemma proposal_on_finalized_rep b s hash id parent number :
  finalized_rep b s → number = s_n s →
  proposal_rep s (mkProposal number id parent (proposal_on_finalized hash b))
    (mkSProposal number id (update (s_hash s) number hash)).
Proof.
  intros [Hl (Hn & Hs & Hb) Hg] ->. unfold proposal_on_finalized, update. split; simpl; [done|done| | | |].
  - rewrite Hn. unfold u64. rewrite Z.mod_small by lia. lia.
  - lia.
  - intros [|i] h; simpl; [|done]. intros [= <-]. rewrite Z.sub_0_r, Z.eqb_refl. done.
  - intros n Hn1 Hn2. case_match; [lia|done].
Qed.

Lemma proposal_on_parent_rep b s p q hash id parent number :
  finalized_rep b s → proposal_rep s p q → number = sp_number q + 1 → number < 2 ^ 63 - 1 →
  (∀ n, s_start s <= n < s_n s → sp_hash q n = s_hash s n) →
  ∃ p', proposal_on_parent hash (buf p) b = Ok p' ∧
    proposal_rep s (mkProposal number id parent p') (mkSProposal number id (update (sp_hash q) number hash)).
Proof.
  intros [Hl (Hn & Hs & Hb) Hg] [Hid Hnum [Hpn Hq] Hd Hr Ho] -> Hlt Hagree.
  unfold proposal_on_parent, u64. rewrite Hpn, Hn. rewrite (Z.mod_small (_ + 1 + 1)) by lia.
  rewrite oassert_true by lia. simpl. eexists. split; [done|].
  rewrite (Z.mod_small (_ - s_n s)) by lia.
  assert (Hlen : length (resize (Z.to_nat (sp_number q + 1 + 1 - s_n s)) 0 (hash :: deltas_ (buf p)))
                 = Z.to_nat (sp_number q + 1 + 1 - s_n s)) by apply length_resize.
  split; cbn [block_id block_number buf prop_n deltas_ sp_id sp_number sp_hash]; [done|done|lia| | |].
  - rewrite Hlen. lia.
  - intros i h Hi. assert (i < Z.to_nat (sp_number q + 1 + 1 - s_n s))%nat.
    { rewrite <- Hlen. by eapply lookup_lt_Some. }
    rewrite lookup_resize in Hi by (simpl; lia). unfold update.
    destruct i as [|i]; simpl in Hi; [injection Hi as <-; rewrite Z.sub_0_r, Z.eqb_refl; done|].
    rewrite (Hr _ _ Hi). destruct (Z.eqb_spec (sp_number q + 1 - Z.of_nat (S i)) (sp_number q + 1)); [lia|]. f_equal. lia.
  - intros n Hn1 Hn2. unfold update. case_match; [lia|]. by apply Hagree.
Qed.

(** Finalizing moves the boundary by one block and overwrites the oldest
    entry of the ring. *)
Lemma finalized_set_rep b s h ps :
  finalized_rep b s → s_n s + 1 < 2 ^ 63 →
  ∃ b', finalized_set (s_n s) h b = Ok b' ∧
    finalized_rep b' (mkSChain (s_start s) (s_n s + 1) (update (s_hash s) (s_n s) h) ps).
Proof.
  intros [Hl (Hn & Hs & Hb) Hg] Hlt. unfold finalized_set, u64, N. rewrite Hn.
  rewrite oassert_true by lia. simpl. eexists. split; [done|].
  split; simpl; [by rewrite length_insert|rewrite Z.mod_small by lia; lia|].
  intros n Hn1 Hn2. unfold update. destruct (Z.eqb_spec n (s_n s)) as [->|Hne].
  - apply list_lookup_insert_eq. rewrite Hl. pose proof (Z.mod_pos_bound (s_n s) 256). lia.
  - rewrite list_lookup_insert_ne; [apply Hg; lia|]. intros E.
    apply Z2Nat.inj in E; [|apply Z.mod_pos_bound; lia|apply Z.mod_pos_bound; lia].
    pose proof (Z.div_mod n 256). pose proof (Z.div_mod (s_n s) 256).
    assert (s_n s / 256 = n / 256) by lia. lia.
Qed.
Lemma proposal_rep_finalized s p q winner :
  proposal_rep s p q → s_n s < sp_number q →
  proposal_rep (s_finalize winner s) p q.
Proof.
  intros [Hid Hnum [Hpn Hq] Hd Hr Ho] Hlt. split; simpl; [done|done|lia|lia|done|].
  intros n Hn1 Hn2. unfold update. case_match; [lia|]. apply Ho; lia.
Qed.
Lemma filter_rep s winner l l' :
  sp_number winner = s_n s → Forall2 (proposal_rep s) l l' →
  Forall2 (proposal_rep (s_finalize winner s)) (filter (λ p, s_n s < block_number p) l)
    (filter (λ p, s_n s < sp_number p) l').
Proof.
  intros Hw. induction 1 as [|p q l l' Hpq Hl IH]; [constructor|].
  rewrite !filter_cons. rewrite (pr_number _ _ _ Hpq). case_decide as Hd; [|done].
  constructor; [by apply proposal_rep_finalized|done].
Qed.

(** C33: the buffers refine the chain of all hashes.  In every state that
    represents an abstract chain, reading through [find_chain] returns the
    hash of the block in the history of that proposal (or of the finalized
    chain) for the last 256 blocks; proposing on a parent that has not been
    overtaken, and finalizing a proposal of the next block, pass their
    assertions and represent the abstract operation.  The finalized buffer
    is shared: older proposals keep reading correctly after it has moved. *)
Theorem chain_refines c s :
  chain_rep c s →
  (∀ id n, match s_find id (s_props s) with
     | Some q => s_start s <= n <= sp_number q → sp_number q - 255 <= n → chain_get id n c = Ok (sp_hash q n)
     | None => s_start s <= n < s_n s → s_n s - 256 <= n → chain_get id n c = Ok (s_hash s n)
     end) ∧
  (∀ hash number id parent, good_parent parent number s → number < 2 ^ 63 - 1 →
     ∃ c', propose hash number id parent c = Ok c' ∧ chain_rep c' (s_propose hash number id parent s)) ∧
  (∀ id q, s_find id (s_props s) = Some q → sp_number q = s_n s → s_n s + 1 < 2 ^ 63 →
     ∃ c', finalize id c = Ok c' ∧ chain_rep c' (s_finalize q s)).
Proof.
  intros [Hf Hp]. split; [|split].
  - intros id n. pose proof (find_rep s id _ _ Hp) as Hfind. unfold chain_get.
    destruct (find_proposal id _), (s_find id _); try done.
    + by apply proposal_get_rep.
    + by apply finalized_get_rep.
  - intros hash number id parent Hgood Hlt. pose proof (find_rep s parent _ _ Hp) as Hfind.
    unfold propose, s_propose, s_parent, good_parent in *.
    destruct (find_proposal parent _) as [p|], (s_find parent _) as [q|]; try done.
    + destruct Hgood as [Hnum Hagree].
      destruct (proposal_on_parent_rep _ _ _ _ hash id parent _ Hf Hfind Hnum Hlt Hagree) as (p' & -> & Hp').
      simpl. eexists. split; [done|]. split; [by destruct Hf|]. simpl. apply Forall2_app.
      * by apply proposals_rep_props.
      * constructor; [|constructor]. by apply proposal_rep_props.
    + simpl. eexists. split; [done|]. split; [by destruct Hf|]. simpl. apply Forall2_app.
      * by apply proposals_rep_props.
      * constructor; [|constructor]. apply proposal_rep_props. by apply proposal_on_finalized_rep.
  - intros id q Hq Hnum Hlt. pose proof (find_rep s id _ _ Hp) as Hfind. rewrite Hq in Hfind.
    unfold finalize. destruct (find_proposal id _) as [p|]; [|done].
    destruct (fr_n _ _ Hf) as (Hn & Hs & Hb). destruct (pr_n _ _ _ Hfind) as [Hpn Hqn].
    rewrite Hpn, Hn, Hnum. unfold u64. rewrite Z.mod_small by lia. rewrite oassert_true by lia. simpl.
    rewrite (proposal_get_rep _ s p q) by (done || lia). simpl.
    destruct (finalized_set_rep (buf_ c) s (sp_hash q (s_n s))
                (filter (λ p, sp_number q < sp_number p) (s_props s)) Hf Hlt) as (b' & -> & Hb').
    simpl. eexists. split; [done|]. split; [done|]. simpl. rewrite (pr_number _ _ _ Hfind), Hnum.
    by apply filter_rep.
Qed.

(** Two competing blocks on top of block 0, of which one is finalized and
    extended. *)
Definition chain0 : BlockHashChain := mkChain (mkFinalized (<[0%nat := 100]> (replicate 256 NULL_HASH)) 1) [].
Definition schain0 : SChain := mkSChain 0 1 (λ _, 100) [].
Lemma chain0_rep : chain_rep chain0 schain0.
Proof.
  split; [|constructor]. split; [done|done|]. intros n Hn _. simpl in *.
  assert (n = 0) as -> by lia. done.
Qed.
Lemma chain_refines_witness :
  ∃ c1, propose 201 1 11 10 chain0 = Ok c1 ∧
  ∃ c2, propose 202 1 12 10 c1 = Ok c2 ∧
  ∃ c3, propose 301 2 21 11 c2 = Ok c3 ∧
  ∃ c4, finalize 11 c3 = Ok c4 ∧ chain_get 21 1 c4 = Ok 201 ∧ chain_get 99 1 c4 = Ok 201.
Proof.
  destruct (chain_refines _ _ chain0_rep) as (_ & P1 & _).
  destruct (P1 201 1 11 10 eq_refl ltac:(done)) as (c1 & E1 & R1). exists c1. split; [done|].
  destruct (chain_refines _ _ R1) as (_ & P2 & _).
  destruct (P2 202 1 12 10 eq_refl ltac:(done)) as (c2 & E2 & R2). exists c2. split; [done|].
  destruct (chain_refines _ _ R2) as (_ & P3 & _).
  destruct (P3 301 2 21 11) as (c3 & E3 & R3); [|done|].
  { split; [done|]. simpl. unfold update. intros n Hn. by destruct (Z.eqb_spec n 1); [lia|]. }
  exists c3. split; [done|].
  destruct (chain_refines _ _ R3) as (_ & _ & F3).
  destruct (F3 11 _ eq_refl eq_refl ltac:(done)) as (c4 & E4 & R4). exists c4. split; [done|].
  destruct (chain_refines _ _ R4) as (G & _). split.
  - by apply (G 21 1).
  - by apply (G 99 1).
Defined.
End BlockHashBuffer.
