(* ===== verification/Ledger.v ===== *)
(** * What a contract sees of the state

    A contract that is part of the program reads and writes slots of its own
    account, moves balances and logs.  For it the versioned, lazily loaded
    [State] over a [BlockState] is a [Ledger]: a function from slots to
    values, a function from addresses to balances and a list of logs.  The
    theorem at the end says that every run of such a program on the state is
    a run on the ledger, which is where StakingFacts.v reasons. *)
From S2P Require Import Prelude Traits Account VersionStack AccountState BlockState State Methods Fixtures Frames Merge Speculation.

(** ** The ledger *)
Record Ledger := mkLedger {
  lg_slots : Z → Z;
  lg_balances : Z → Z;
  lg_logs : list Log
}.
Definition lg_set_slot (k v : Z) (L : Ledger) : Ledger :=
  mkLedger (<[k := v]> (lg_slots L)) (lg_balances L) (lg_logs L).
Definition lg_set_balance (a v : Z) (L : Ledger) : Ledger :=
  mkLedger (lg_slots L) (<[a := v]> (lg_balances L)) (lg_logs L).
Definition lg_log (l : Log) (L : Ledger) : Ledger :=
  mkLedger (lg_slots L) (lg_balances L) (lg_logs L ++ [l]).

(** One method of the contract [c] on the ledger.  The status of a write,
    on which no program depends, can be anything. *)
Definition lcall (c : Z) {X} (op : method X) : Ledger → X → Ledger → Prop :=
  match op in method X return Ledger → X → Ledger → Prop with
  | m_get_storage a k => λ L y L', a = c ∧ y = lg_slots L k ∧ L' = L
  | m_set_storage a k v => λ L _ L', a = c ∧ L' = lg_set_slot k v L
  | m_get_balance a => λ L y L', y = lg_balances L a ∧ L' = L
  | m_add_to_balance a d => λ L _ L',
      d + lg_balances L a <= U256_MAX ∧ L' = lg_set_balance a (u256 (lg_balances L a + d)) L
  | m_subtract_from_balance a d => λ L _ L',
      d <= lg_balances L a ∧ L' = lg_set_balance a (u256 (lg_balances L a - d)) L
  | m_store_log l => λ L _ L', L' = lg_log l L
  | _ => λ _ _ _, False
  end.
Fixpoint lruns (c : Z) {A} (p : prog A) (L : Ledger) (r : A) (L' : Ledger) : Prop :=
  match p with
  | Ret a => r = a ∧ L' = L
  | Act (Method op) k => ∃ y L1, lcall c op L y L1 ∧ lruns c (k y) L1 r L'
  | Act _ _ => False
  | Stop _ => False
  end.

Lemma lruns_bind c {A C} (p : prog A) (k : A → prog C) L r L' :
  lruns c (p ≫= k) L r L' ↔ ∃ a L1, lruns c p L a L1 ∧ lruns c (k a) L1 r L'.
Proof.
  revert L. induction p as [a|X x f IH|o]; intros L; simpl.
  - change (Ret a ≫= k) with (k a). split; [eauto|]. by intros (? & ? & [-> ->] & ?).
  - change (Act x f ≫= k) with (Act x (λ y, f y ≫= k)). destruct x; simpl; [|naive_solver..].
    split.
    + intros (y & L1 & Hy & Hr). apply IH in Hr as (a & L2 & ? & ?). eauto 7.
    + intros (a & L2 & (y & L1 & Hy & Hr) & ?). exists y, L1. split; [done|]. apply IH. eauto.
  - split; [done|naive_solver].
Qed.

(** The same as a function; a write reports a plain assignment. *)
Definition lcall_eval (c : Z) {X} (op : method X) : Ledger → option (X * Ledger) :=
  match op in method X return Ledger → option (X * Ledger) with
  | m_get_storage a k => λ L, if decide (a = c) then Some (lg_slots L k, L) else None
  | m_set_storage a k v => λ L, if decide (a = c) then Some (MONAD_STORAGE_ASSIGNED, lg_set_slot k v L) else None
  | m_get_balance a => λ L, Some (lg_balances L a, L)
  | m_add_to_balance a d => λ L,
      if d + lg_balances L a <=? U256_MAX then Some ((), lg_set_balance a (u256 (lg_balances L a + d)) L) else None
  | m_subtract_from_balance a d => λ L,
      if d <=? lg_balances L a then Some ((), lg_set_balance a (u256 (lg_balances L a - d)) L) else None
  | m_store_log l => λ L, Some ((), lg_log l L)
  | _ => λ _, None
  end.
Fixpoint leval (c : Z) {A} (p : prog A) (L : Ledger) : option (A * Ledger) :=
  match p with
  | Ret a => Some (a, L)
  | Act (Method op) k => match lcall_eval c op L with Some (y, L1) => leval c (k y) L1 | None => None end
  | Act _ _ => None
  | Stop _ => None
  end.
Lemma leval_lruns c {A} (p : prog A) L r L' : leval c p L = Some (r, L') → lruns c p L r L'.
Proof.
  revert L. induction p as [a|X x f IH|o]; intros L; simpl; [by intros [= <- <-]| |done].
  destruct x; try done. destruct (lcall_eval c op L) as [[y L1]|] eqn:E; [|done]. intros Hr.
  exists y, L1. split; [|by apply IH]. clear -E.
  destruct op; simpl in *; try done; repeat case_decide; simplify_eq; try done.
  - destruct (Z.leb_spec (d + lg_balances L a) U256_MAX); [|done]. by injection E as <- <-.
  - destruct (Z.leb_spec d (lg_balances L a)); [|done]. by injection E as <- <-.
Qed.

(** A program that only reads and writes its slots and logs returns. *)
Definition slot_method (c : Z) {X} (op : method X) : Prop :=
  match op with
  | m_get_storage a _ | m_set_storage a _ _ => a = c
  | m_store_log _ => True
  | _ => False
  end.
Fixpoint slot_prog (c : Z) {A} (p : prog A) : Prop :=
  match p with
  | Ret _ => True
  | Act (Method op) k => slot_method c op ∧ ∀ y, slot_prog c (k y)
  | Act _ _ | Stop _ => False
  end.
Lemma slot_prog_bind c {A C} (p : prog A) (k : A → prog C) :
  slot_prog c p → (∀ a, slot_prog c (k a)) → slot_prog c (p ≫= k).
Proof.
  intros Hp Hk. induction p as [a|X x f IH|o]; simpl in *; [apply Hk| |done].
  change (Act x f ≫= k) with (Act x (λ y, f y ≫= k)). destruct x; [|done..]. simpl.
  destruct Hp as [Hop Hf]. split; [done|]. intros y. by apply IH.
Qed.
Lemma slot_prog_returns c {A} (p : prog A) L : slot_prog c p → ∃ r L', leval c p L = Some (r, L').
Proof.
  revert L. induction p as [a|X x f IH|o]; intros L; simpl; [eauto| |done].
  destruct x; try done. intros [Hop Hf].
  assert (∃ y L1, lcall_eval c op L = Some (y, L1)) as (y & L1 & ->); [|by apply IH].
  destruct op; simpl in *; try done; subst; rewrite ?decide_True by done; eauto.
Qed.

(** A program that only reads leaves the ledger as it is. *)
Fixpoint read_prog (c : Z) {A} (p : prog A) : Prop :=
  match p with
  | Ret _ => True
  | Act (Method op) k => match op with m_get_storage a _ => a = c | _ => False end ∧ ∀ y, read_prog c (k y)
  | Act _ _ | Stop _ => False
  end.
Lemma read_prog_bind c {A C} (p : prog A) (k : A → prog C) :
  read_prog c p → (∀ a, read_prog c (k a)) → read_prog c (p ≫= k).
Proof.
  intros Hp Hk. induction p as [a|X x f IH|o]; simpl in *; [apply Hk| |done].
  change (Act x f ≫= k) with (Act x (λ y, f y ≫= k)). destruct x; [|done..]. simpl.
  destruct Hp as [Hop Hf]. split; [done|]. intros y. by apply IH.
Qed.
Lemma read_slot_prog c {A} (p : prog A) : read_prog c p → slot_prog c p.
Proof.
  induction p as [a|X x f IH|o]; simpl; [done| |done]. destruct x; [|done..]. intros [Hop Hf].
  split; [by destruct op|]. auto.
Qed.
Lemma read_lruns c {A} (p : prog A) L r L' : read_prog c p → lruns c p L r L' → L' = L.
Proof.
  revert L. induction p as [a|X x f IH|o]; intros L; simpl; [by intros _ [_ ->]| |done].
  destruct x; [|done..]. intros [Hop Hf] (y & L1 & Hc & Hr). destruct op; try done.
  destruct Hc as (_ & _ & ->). eauto.
Qed.

(** ** Programs of a contract *)
Definition contract_method (c : Z) {X} (op : method X) : Prop :=
  match op with
  | m_get_storage a _ | m_set_storage a _ _ => a = c
  | m_get_balance _ | m_add_to_balance _ _ | m_subtract_from_balance _ _ | m_store_log _ => True
  | _ => False
  end.
Fixpoint contract_prog (c : Z) {A} (p : prog A) : Prop :=
  match p with
  | Ret _ | Stop _ => True
  | Act (Method op) k => contract_method c op ∧ ∀ y, contract_prog c (k y)
  | Act _ _ => False
  end.
Lemma contract_bind c {A C} (p : prog A) (k : A → prog C) :
  contract_prog c p → (∀ a, contract_prog c (k a)) → contract_prog c (p ≫= k).
Proof.
  intros Hp Hk. induction p as [a|X x f IH|o]; simpl in *.
  - apply Hk.
  - change (Act x f ≫= k) with (Act x (λ y, f y ≫= k)). destruct x; [|done..]. simpl.
    destruct Hp as [Hop Hf]. split; [done|]. intros y. by apply IH.
  - done.
Qed.

(** ** The state as a ledger *)
Section shows.
Context {VC : Type} `{VarcodeCache VC}.
Context (db_ : Db) (secondary_db_ : option Db) (keccak256 : Code → Z).
#[local] Instance ledger_access : BlockAccess (BlockState VC) := block_access db_ secondary_db_.
Hypothesis Hsecondary : ∀ db2 a i k, secondary_db_ = Some db2 →
  db_read_storage db2 a i k = db_read_storage db_ a i k.
Abbreviation W := (State * BlockState VC)%type.
Implicit Types w : W.

Definition account_now w (a : Z) : option Account :=
  match current_ w.1 !! a with
  | Some ((_, x) :: _) => account_ x
  | Some [] => None
  | None =>
      match original_ w.1 !! a with
      | Some os => os_account os
      | None => account_view db_ w.2 a
      end
  end.
Definition written w (a k : Z) : option Z :=
  match current_ w.1 !! a with Some ((_, x) :: _) => storage_ x !! k | _ => None end.
Definition original_slot w (a : Z) (acc : Account) (k : Z) : Z :=
  match original_ w.1 !! a with
  | Some os =>
      match os_account os with
      | Some acc0 =>
          if decide (incarnation acc = incarnation acc0)
          then default (storage_view db_ w.2 a (incarnation acc) k) (os_storage os !! k) else 0
      | None => 0
      end
  | None => storage_view db_ w.2 a (incarnation acc) k
  end.
Definition slot_now w (a k : Z) : Z :=
  match account_now w a with
  | None => 0
  | Some acc => default (original_slot w a acc k) (written w a k)
  end.
Definition logs_now w : list Log := match logs_ w.1 with (_, l) :: _ => l | [] => [] end.

(** The world [w] shows the contract [c] the ledger [L]. *)
Record shows (c : Z) w (L : Ledger) : Prop := {
  sh_live : is_Some (account_now w c);
  sh_slots k : slot_now w c k = lg_slots L k;
  sh_balances a : balance_of (account_now w a) = lg_balances L a;
  sh_logs : logs_now w = lg_logs L
}.

(** *** What does not change *)
Record same_now (c : Z) w w' : Prop := {
  sn_account a : account_now w' a = account_now w a;
  sn_slot k : slot_now w' c k = slot_now w c k;
  sn_logs : logs_now w' = logs_now w
}.
#[local] Instance same_now_preorder c : PreOrder (same_now c).
Proof. split; [by split|]. intros x y z [A1 S1 L1] [A2 S2 L2]. split; intros; congruence. Qed.
Definition Reads (c : Z) {A} (m : M W A) : Prop := ∀ w a w', m w = Ok (a, w') → same_now c w w'.

Lemma Reads_bind c {A C} (m : M W A) (k : A → M W C) :
  Reads c m → (∀ x, Reads c (k x)) → Reads c (m ≫= k).
Proof.
  intros Hm Hk w b w' E. apply bind_Ok in E as (a & w1 & E1 & E2).
  etrans; [by eapply Hm|by eapply Hk].
Qed.
Lemma Reads_ret c {A} (x : A) : Reads c (mret x).
Proof. intros w a w' E. minv. done. Qed.
Lemma Reads_sgets c {A} (f : State → A) : Reads c (sgets f).
Proof. intros w a w' E. sinv. done. Qed.
Lemma Reads_mvalue c {A} (o : option A) : Reads c (mvalue o).
Proof. intros w a w' E. minv. done. Qed.
Lemma Reads_lift_outcome c {A} (o : outcome A) : Reads c (lift_outcome o).
Proof. intros w a w' E. sinv. done. Qed.
(** A change of the other parts of the state. *)
Lemma Reads_smodify c f :
  (∀ s, current_ (f s) = current_ s ∧ original_ (f s) = original_ s ∧ logs_ (f s) = logs_ s) →
  Reads c (smodify f).
Proof.
  intros Hf w a w' E. sinv. destruct w as [s b]. simpl. destruct (Hf s) as (Ec & Eo & El).
  assert (Ha : ∀ x, account_now (f s, b) x = account_now (s, b) x)
    by (intros x; unfold account_now; simpl; by rewrite Ec, Eo).
  split; [done| |unfold logs_now; simpl; by rewrite El].
  intros k. unfold slot_now. rewrite Ha. unfold written, original_slot. simpl. by rewrite Ec, Eo.
Qed.
(** A change of flags of an original account. *)
Lemma Reads_write_original c a f : (∀ os, os_state (f os) = os_state os) → Reads c (write_original a f).
Proof.
  intros Hf w r w' E. unfold write_original in E. sinv. destruct w as [s b]. simpl.
  assert (Horig : ∀ x, os_state <$> alter f a (original_ s) !! x = os_state <$> original_ s !! x).
  { intros x. destruct (decide (a = x)) as [->|]; [|by rewrite lookup_alter_ne].
    rewrite lookup_alter_eq. destruct (original_ s !! x); simpl; [by rewrite Hf|done]. }
  set (w1 := (st_set_original (alter f a (original_ s)) s, b) : W).
  assert (Ha : ∀ x, account_now w1 x = account_now (s, b) x).
  { intros x. unfold account_now. simpl. case_match; [done|]. specialize (Horig x).
    destruct (alter f a (original_ s) !! x), (original_ s !! x); simpl in Horig; simplify_eq; [|done].
    by rewrite Horig. }
  split; [done| |done]. intros k. unfold slot_now. rewrite Ha. destruct (account_now (s, b) c) as [acc|]; [|done].
  change (written w1 c k) with (written (s, b) c k). f_equal. unfold original_slot. simpl.
  specialize (Horig c).
  destruct (alter f a (original_ s) !! c), (original_ s !! c); simpl in Horig; simplify_eq; [|done].
  by rewrite Horig.
Qed.
(** Loading through the block state. *)
Lemma Reads_view c w w' :
  w'.1 = w.1 → same_view db_ w.2 w'.2 → same_now c w w'.
Proof.
  intros Es [Hva Hvs]. destruct w as [s b], w' as [s' b']; simpl in *. subst s'.
  assert (Ha : ∀ x, account_now (s, b') x = account_now (s, b) x)
    by (intros x; unfold account_now; simpl; repeat case_match; done).
  split; [done| |done]. intros k. unfold slot_now. rewrite Ha. case_match; [|done].
  unfold original_slot, written. simpl. by rewrite Hvs.
Qed.

Lemma storage_view_alive (bs : BlockState VC) a i k :
  storage_view db_ bs a i k =
  match account_view db_ bs a with
  | Some acc => if decide (i = incarnation acc) then storage_view db_ bs a i k else 0
  | None => 0
  end.
Proof.
  unfold storage_view, account_view, storage_in_deltas. destruct (bs_state bs !! a) as [d|]; simpl.
  - destruct (sd_account d).2 as [acc|]; [|done]. by destruct (decide (i = incarnation acc)).
  - destruct (db_read_account db_ a) as [acc|]; [|done]. by destruct (decide (i = incarnation acc)).
Qed.

Lemma Reads_original_account_state c a : Reads c (original_account_state a).
Proof.
  intros w os w' E. unfold original_account_state in E. rewrite run_sgets in E.
  destruct (original_ w.1 !! a) as [os0|] eqn:Ho; [minv; done|].
  apply bind_Ok in E as (x & w1 & E1 & E). apply lift_block_Ok in E1 as [E1 Es].
  destruct (read_account_spec db_ a w.2) as (b' & Hr & Hview & _).
  change (ba_read_account a w.2) with (read_account db_ a w.2) in E1. rewrite Hr in E1. injection E1 as <- ->.
  sinv. destruct w1 as [s b]. simpl in *. subst s.
  assert (H1 : same_now c w (w.1, b)) by (apply Reads_view; done). destruct Hview as [Hva _].
  rewrite Hva. clear Hva Hr. etrans; [exact H1|]. clear H1. set (acc0 := account_view db_ b a).
  set (w1 := (st_set_original (<[a := make_original acc0]> (original_ w.1)) w.1, b) : W).
  assert (Ha : ∀ x, account_now w1 x = account_now (w.1, b) x).
  { intros x. unfold account_now. simpl. case_match; [done|].
    destruct (decide (a = x)) as [<-|]; [by rewrite lookup_insert_eq, Ho|by rewrite lookup_insert_ne]. }
  split; [done| |done]. intros k. unfold slot_now. rewrite Ha.
  destruct (account_now (w.1, b) c) as [acc|]; [|done].
  change (written w1 c k) with (written (w.1, b) c k). f_equal. unfold original_slot. simpl.
  destruct (decide (a = c)) as [<-|]; [|by rewrite lookup_insert_ne].
  rewrite lookup_insert_eq, Ho. simpl. rewrite lookup_empty. simpl.
  rewrite storage_view_alive. unfold acc0. case_match; [|done]. by case_decide.
Qed.

Create HintDb now discriminated.
Hint Resolve Reads_ret Reads_sgets Reads_mvalue Reads_lift_outcome Reads_original_account_state : now.
Ltac reads_step :=
  match goal with
  | |- Reads _ (_ ≫= _) => apply Reads_bind; [|intros ?]
  | |- Reads _ (let _ := _ in _) => cbv zeta
  | |- Reads _ (if ?b then _ else _) => destruct b
  | |- Reads _ (match ?o with _ => _ end) => destruct o
  | |- Reads _ (write_original _ _) => apply Reads_write_original; intros ?; reflexivity
  | |- Reads _ (smodify _) => apply Reads_smodify; intros ?; done
  | |- Reads _ _ => solve [auto with now nocore]
  end.
Ltac reads := repeat reads_step.

Lemma Reads_recent_account_state c a : Reads c (recent_account_state a).
Proof. unfold recent_account_state. reads. Qed.
Hint Resolve Reads_recent_account_state : now.
Lemma Reads_recent_account c a : Reads c (recent_account a).
Proof. unfold recent_account. reads. Qed.
Hint Resolve Reads_recent_account : now.
Lemma Reads_get_balance c a : Reads c (get_balance a).
Proof. unfold get_balance. reads. Qed.
Lemma Reads_read_code c h : Reads c (state_read_code h).
Proof.
  intros w x w' E. unfold state_read_code in E. rewrite run_sgets in E.
  destruct (code_ w.1 !! h); [minv; done|]. apply lift_block_Ok in E as [E Es].
  apply Reads_view; [done|]. unfold ba_read_code in E; simpl in E. unfold read_code in E.
  destruct (vc_get h (bs_vm w.2)) as [[y|] vm']; [injection E as _ <-; done|].
  destruct (bs_code w.2 !! h); [injection E as _ <-; done|].
  destruct (db_read_code db_ h); [|done]. case_match; [|done]. injection E as _ <-. done.
Qed.
Hint Resolve Reads_get_balance Reads_read_code : now.
Lemma Reads_update_violation_status c a : Reads c (update_violation_status a).
Proof.
  unfold update_violation_status, init_selfdestruct_exempted, subject_account, pretx_reserve,
    compare_with_threshold, exempt, set_threshold, failed_erase, failed_insert, modify_rb, rb_is_delegated,
    get_original_balance, is_destructed, is_current_incarnation, get_code_hash. reads.
Qed.
Hint Resolve Reads_update_violation_status : now.
Lemma Reads_on_credit c a : Reads c (on_credit a).
Proof. unfold on_credit. reads. Qed.
Lemma Reads_on_debit c a : Reads c (on_debit a).
Proof. unfold on_debit. reads. Qed.

(** The account of an address as the methods see it. *)
Lemma recent_account_now c a acc w w' :
  recent_account a w = Ok (acc, w') → acc = account_now w a ∧ same_now c w w'.
Proof.
  intros E. split; [|by eapply Reads_recent_account].
  unfold recent_account, recent_account_state, account_now in *. rewrite run_bind_bind, run_sgets in E.
  destruct (current_ w.1 !! a) as [[|[v x] r]|]; [sinv; done|sinv; simpl in *; by simplify_eq|].
  unfold original_account_state in E. rewrite run_bind_bind, run_bind_bind, run_sgets in E.
  destruct (original_ w.1 !! a); [sinv; done|].
  rewrite run_bind_bind in E. apply bind_Ok in E as (x & w1 & E1 & E). apply lift_block_Ok in E1 as [E1 _].
  destruct (read_account_spec db_ a w.2) as (b' & Hr & _).
  change (ba_read_account a w.2) with (read_account db_ a w.2) in E1. rewrite Hr in E1. injection E1 as <- _.
  sinv. done.
Qed.
Lemma get_balance_now c a v w w' :
  get_balance a w = Ok (v, w') → v = balance_of (account_now w a) ∧ same_now c w w'.
Proof.
  intros E. split; [|by eapply Reads_get_balance]. unfold get_balance in E.
  apply bind_Ok in E as (acc & w1 & E1 & E). destruct (recent_account_now c _ _ _ _ E1) as [-> _].
  apply bind_Ok in E as (os & w2 & _ & E). sinv. done.
Qed.

(** *** Slots *)
Lemma fetch_now c i k v acc os w w' :
  original_ w.1 !! c = Some os → os_storage os !! k = None →
  account_now w c = Some acc → incarnation acc = i →
  fetch_original_storage c i k w = Ok (v, w') →
  same_now c w w' ∧ v = storage_view db_ w.2 c i k.
Proof.
  intros Ho Hk Hacc <- E. set (i := incarnation acc) in *. unfold fetch_original_storage in E.
  apply bind_Ok in E as (x & w1 & E1 & E). apply lift_block_Ok in E1 as [E1 Es].
  change (ba_read_storage c i k w.2) with (read_storage db_ secondary_db_ c i k w.2) in E1.
  destruct (read_storage_spec db_ secondary_db_ c i k w.2) as (b' & Hr & Hview); [|eauto|].
  { unfold read_storage in E1. destruct (bs_state w.2 !! c); [eauto|done]. }
  rewrite Hr in E1. injection E1 as <- ->. unfold write_original in E. sinv. simpl. split; [|done].
  destruct w1 as [s b], w as [s0 b0]. simpl in *. subst s. etrans; [by apply (Reads_view c (s0, b0) (s0, b))|].
  destruct Hview as [_ Hvs]. rewrite Hvs.
  set (f := λ os, os_set_state (as_set_storage (<[k:=storage_view db_ b c i k]> (os_storage os)) (os_state os)) os).
  set (w1 := (st_set_original (alter f c (original_ s0)) s0, b) : W).
  assert (Ha : ∀ x, account_now w1 x = account_now (s0, b) x).
  { intros x. unfold account_now. simpl. case_match; [done|].
    destruct (decide (c = x)) as [<-|]; [by rewrite lookup_alter_eq, Ho|by rewrite lookup_alter_ne]. }
  assert (Hacc' : account_now (s0, b) c = Some acc).
  { rewrite <- Hacc. unfold account_now. simpl. by rewrite Ho. }
  split; [done| |done]. intros k'. unfold slot_now. rewrite Ha, Hacc'.
  change (written w1 c k') with (written (s0, b) c k'). f_equal. unfold original_slot. simpl.
  rewrite lookup_alter_eq, Ho. simpl. case_match; [|done]. case_decide; [|done].
  destruct (decide (k = k')) as [<-|]; [|by rewrite lookup_insert_ne].
  by rewrite lookup_insert_eq, Hk.
Qed.

Lemma get_storage_now c k v w w' :
  get_storage c k w = Ok (v, w') → v = slot_now w c k ∧ same_now c w w'.
Proof.
  intros E. unfold get_storage in E. rewrite run_sgets in E.
  destruct (current_ w.1 !! c) as [stack|] eqn:Hc.
  - destruct stack as [|[v0 x] r]; [sinv; done|]. simpl in E. rewrite run_lift_outcome in E.
    assert (Hnow : account_now w c = account_ x) by (unfold account_now; by rewrite Hc).
    destruct (account_ x) as [acc|] eqn:Hacc; [|sinv; done]. rewrite run_mvalue in E.
    assert (Hslot : slot_now w c k = default (original_slot w c acc k) (storage_ x !! k)).
    { unfold slot_now, written. by rewrite Hnow, Hc. }
    rewrite Hslot. destruct (storage_ x !! k) as [v1|] eqn:Hk; [sinv; done|]. simpl. unfold original_slot.
    rewrite run_bind_bind, run_sgets in E. destruct (original_ w.1 !! c) as [os|] eqn:Ho; [|sinv; done].
    rewrite run_mvalue in E. destruct (os_account os) as [acc0|]; [|sinv; done].
    destruct (decide _) as [Hi|]; [|sinv; done].
    destruct (os_storage os !! k) as [v1|] eqn:Hk0; [sinv; done|]. simpl.
    destruct (fetch_now c (incarnation acc) k v acc os w w') as [? ->]; done.
  - rewrite run_bind_bind, run_sgets in E. destruct (original_ w.1 !! c) as [os|] eqn:Ho; [|sinv; done].
    rewrite run_mvalue in E. destruct (os_account os) as [acc|] eqn:Hacc; [|sinv; done]. rewrite run_mvalue in E.
    assert (Hnow : account_now w c = Some acc) by (unfold account_now; by rewrite Hc, Ho).
    assert (Hslot : slot_now w c k = default (storage_view db_ w.2 c (incarnation acc) k) (os_storage os !! k)).
    { unfold slot_now, written, original_slot. rewrite Hnow, Hc, Ho, Hacc. simpl. by rewrite decide_True. }
    rewrite Hslot. destruct (os_storage os !! k) as [v1|] eqn:Hk0; [sinv; done|]. simpl.
    destruct (fetch_now c (incarnation acc) k v acc os w w') as [? ->]; done.
Qed.

(** *** Access for writing *)
(** The top of the stack of [a] becomes [x], all else is as in [w]. *)
Lemma restack_now c a v x r w w' :
  current_ w'.1 = <[a := (v, x) :: r]> (current_ w.1) →
  original_ w'.1 = original_ w.1 → logs_ w'.1 = logs_ w.1 → w'.2 = w.2 →
  account_ x = account_now w a →
  (a = c → ∀ k acc, account_ x = Some acc → default (original_slot w c acc k) (storage_ x !! k) = slot_now w c k) →
  same_now c w w'.
Proof.
  intros Ec Eo El Eb Hacc Hslot.
  assert (Ha : ∀ b, account_now w' b = account_now w b).
  { intros b. destruct (decide (a = b)) as [<-|].
    - rewrite <- Hacc. unfold account_now. by rewrite Ec, lookup_insert_eq.
    - unfold account_now. by rewrite Ec, lookup_insert_ne, Eo, Eb by done. }
  split; [done| |unfold logs_now; by rewrite El].
  intros k. destruct (decide (a = c)) as [->|Hne].
  - unfold slot_now at 1. rewrite Ha, <- Hacc. destruct (account_ x) as [acc|] eqn:Hx.
    + unfold written. rewrite Ec, lookup_insert_eq. unfold original_slot. rewrite Eo, Eb. by apply Hslot.
    + unfold slot_now. by rewrite <- Hacc.
  - unfold slot_now. rewrite Ha. case_match; [|done]. unfold written, original_slot.
    by rewrite Ec, lookup_insert_ne, Eo, Eb.
Qed.

Lemma current_account_state_now c a x w w' :
  current_account_state a w = Ok (x, w') →
  same_now c w w' ∧ account_ x = account_now w a ∧ ∃ v r, current_ w'.1 !! a = Some ((v, x) :: r).
Proof.
  intros E. unfold current_account_state in E. rewrite run_sgets in E.
  apply bind_Ok in E as ([] & w1 & E1 & E).
  assert (∃ v y r, current_ w1.1 !! a = Some ((v, y) :: r) ∧ account_ y = account_now w a ∧ same_now c w w1)
    as (v & y & r & Hcur & Hacc & Hsame).
  { destruct (current_ w.1 !! a) as [stack|] eqn:Hc.
    - minv. sinv. simpl in *. destruct stack as [|[v y] r].
      + exfalso. sinv. simpl in *. rewrite Hc in *. simplify_eq.
      + exists v, y, r. unfold account_now. by rewrite Hc.
    - apply bind_Ok in E1 as (os & w2 & E2 & E1).
      pose proof (Reads_original_account_state c _ _ _ _ E2) as H2.
      assert (Hos : original_ w2.1 !! a = Some os ∧ current_ w2.1 = current_ w.1).
      { unfold original_account_state in E2. rewrite run_sgets in E2.
        destruct (original_ w.1 !! a) eqn:Ho; [sinv; done|].
        apply bind_Ok in E2 as (z & w3 & E3 & E2). apply lift_block_Ok in E3 as [_ E3]. sinv. simpl.
        by rewrite lookup_insert_eq, E3. }
      destruct Hos as [Hos Hcur2]. sinv. simpl. exists (version_ w2.1), (os_state os), [].
      rewrite lookup_insert_eq. split; [done|].
      assert (Hacc : os_account os = account_now w2 a).
      { unfold account_now. by rewrite Hcur2, Hc, Hos. }
      split; [by rewrite <- (sn_account _ _ _ H2)|]. etrans; [exact H2|].
      eapply (restack_now c a (version_ w2.1) (os_state os) []); [done|done|done|done|done|].
      intros <- k acc Hx. unfold slot_now. rewrite <- Hacc, Hx. unfold written, original_slot.
      rewrite Hcur2, Hc, Hos, Hx, decide_True by done. simpl. by destruct (os_storage os !! k). }
  sinv. simpl in *. rewrite Hcur in *. simplify_eq.
  match goal with Hv : vs_current _ _ = Ok ?st, Hr : vs_recent ?st = Ok x |- _ =>
    simpl in Hv; injection Hv as <-; rename Hr into Hrec end.
  assert (Htop : ∃ v' r', (if version_ w1.1 >? v then (version_ w1.1, y) :: (v, y) :: r else (v, y) :: r) = (v', y) :: r')
    by (destruct (version_ w1.1 >? v); eauto).
  destruct Htop as (v' & r' & Htop). rewrite Htop in *. simpl in Hrec. injection Hrec as <-.
  split; [|split; [done|]]; [|simpl; rewrite lookup_insert_eq; eauto].
  etrans; [exact Hsame|]. eapply (restack_now c a v' y r'); [done|done|done|done| |].
  - by rewrite (sn_account _ _ _ Hsame).
  - intros <- k acc Hx. unfold slot_now, account_now, written. by rewrite Hcur, Hx.
Qed.

(** *** Writes *)
Lemma write_top_now c a f v x r w w' :
  current_ w.1 !! a = Some ((v, x) :: r) → write_current a f w = Ok ((), w') →
  current_ w'.1 !! a = Some ((v, f x) :: r) ∧ account_now w' a = account_ (f x) ∧
  (∀ b, a ≠ b → account_now w' b = account_now w b) ∧ logs_now w' = logs_now w ∧
  (∀ k, slot_now w' c k =
     if decide (a = c) then
       match account_ (f x) with
       | None => 0
       | Some acc => default (original_slot w c acc k) (storage_ (f x) !! k)
       end
     else slot_now w c k).
Proof.
  intros Hc E. unfold write_current in E. sinv. simpl.
  assert (Htop : alter (vs_write f) a (current_ w.1) !! a = Some ((v, f x) :: r))
    by (by rewrite lookup_alter_eq, Hc).
  assert (Hother : ∀ b, a ≠ b → alter (vs_write f) a (current_ w.1) !! b = current_ w.1 !! b)
    by (intros; by rewrite lookup_alter_ne).
  split; [done|]. split; [unfold account_now; simpl; by rewrite Htop|].
  split; [intros b Hb; unfold account_now; simpl; by rewrite Hother|]. split; [done|].
  intros k. case_decide as Hac.
  - subst c. unfold slot_now, account_now, written. simpl. by rewrite Htop.
  - unfold slot_now, account_now, written. simpl. by rewrite Hother.
Qed.

(** The same top, with another balance or flags. *)
Lemma original_slot_incarnation w a acc acc' k :
  incarnation acc = incarnation acc' → original_slot w a acc k = original_slot w a acc' k.
Proof. intros E. unfold original_slot. by rewrite E. Qed.

Lemma frame_part_inv s s' : frame_part s' = frame_part s → current_ s' = current_ s ∧ logs_ s' = logs_ s.
Proof. unfold frame_part. intros [= -> -> _ _]. done. Qed.

Lemma set_storage_now c k v st w w' :
  set_storage c k v w = Ok (st, w') →
  (∀ a, account_now w' a = account_now w a) ∧ logs_now w' = logs_now w ∧
  ∀ k', slot_now w' c k' = <[k := v]> (slot_now w c) k'.
Proof.
  intros E. unfold set_storage in E. apply bind_Ok in E as (x & w1 & E1 & E).
  destruct (current_account_state_now c _ _ _ _ E1) as (H1 & Hx & v1 & r1 & Htop).
  apply bind_Ok in E as (acc & w1' & E2 & E). apply mvalue_Ok in E2 as [Hacc ->].
  apply bind_Ok in E as (orig & w2 & E2 & E).
  pose proof (Reads_original_account_state c _ _ _ _ E2) as H2.
  pose proof (neutral_original_account_state _ _ _ _ E2) as [Ec2 El2]%frame_part_inv.
  assert (Ho : original_ w2.1 !! c = Some orig).
  { unfold original_account_state in E2. rewrite run_sgets in E2.
    destruct (original_ w1.1 !! c) eqn:Ho; [by sinv|].
    apply bind_Ok in E2 as (z & w3 & E3 & E2). sinv. simpl. by rewrite lookup_insert_eq. }
  apply bind_Ok in E as (ov & w3 & E3 & E).
  assert (Hw3 : same_now c w2 w3 ∧ current_ w3.1 = current_ w2.1).
  { destruct (os_storage orig !! k) eqn:Hk; [by sinv|].
    destruct (fetch_now c (incarnation acc) k ov acc orig w2 w3) as [? _]; [done|done| |done|done|].
    - rewrite (sn_account _ _ _ H2), (sn_account _ _ _ H1). congruence.
    - split; [done|]. by apply neutral_fetch, frame_part_inv in E3 as [? _]. }
  destruct Hw3 as [H3 Ec3]. assert (Hsame : same_now c w w3) by (etrans; [exact H1|]; by etrans).
  rewrite <- Ec2, <- Ec3 in Htop. apply bind_Ok in E as ([] & w4 & E4 & E). sinv.
  destruct (write_top_now c c _ _ _ _ _ _ Htop E4) as (_ & Ha & Hb & Hl & Hs).
  set (y := (as_set_storage_value k v ov x).2) in *.
  assert (Hy : account_ y = account_ x ∧ storage_ y = <[k := v]> (storage_ x)).
  { unfold y, as_set_storage_value, zero_out_key, set_current_value.
    destruct (Z.eqb_spec v 0) as [->|]; done. }
  destruct Hy as [Hy1 Hy2]. split; [|split].
  - intros a. destruct (decide (c = a)) as [<-|Hne]; [|by rewrite Hb, (sn_account _ _ _ Hsame)].
    by rewrite Ha, Hy1, Hx.
  - by rewrite Hl, (sn_logs _ _ _ Hsame).
  - intros k'. rewrite Hs, decide_True by done. rewrite Hy1, Hy2, Hacc.
    destruct (decide (k = k')) as [<-|Hne]; [by rewrite lookup_insert_eq, fn_lookup_insert|].
    rewrite lookup_insert_ne, fn_lookup_insert_ne, <- (sn_slot _ _ _ Hsame) by done.
    assert (Hnow : account_now w3 c = Some acc) by (rewrite (sn_account _ _ _ Hsame); congruence).
    unfold slot_now, written. by rewrite Hnow, Htop.
Qed.

(** Changing the account of [a] in place: a new account with the slots of
    the old one, if the contract's account stays alive in the same
    incarnation. *)
Record changed (c a : Z) (acc : Account) w w' : Prop := {
  ch_here : account_now w' a = Some acc;
  ch_other b : a ≠ b → account_now w' b = account_now w b;
  ch_logs : logs_now w' = logs_now w;
  ch_slot k : is_Some (account_now w c) → slot_now w' c k = slot_now w c k
}.
Lemma changed_reads c a acc w w1 w2 : changed c a acc w w1 → same_now c w1 w2 → changed c a acc w w2.
Proof.
  intros [A B C D] [A' B' C']. split; [by rewrite A'|intros; rewrite A'; auto|by rewrite C'|].
  intros k Hk. rewrite B'. auto.
Qed.

(** The steps both balance methods share. *)
Lemma write_balance_now c a x v r acc0 b w w1 w2 w3 w4 :
  same_now c w w1 → account_ x = account_now w a → current_ w1.1 !! a = Some ((v, x) :: r) →
  (∀ acc, account_ x = Some acc → acc0 = acc) →
  write_account a (Some acc0) w1 = Ok ((), w2) →
  write_account a (Some (with_balance b acc0)) w2 = Ok ((), w3) →
  write_current a touch_ w3 = Ok ((), w4) →
  changed c a (with_balance b acc0) w w4.
Proof.
  intros H1 Hx Htop Hacc0 E2 E3 E4. unfold write_account in *.
  destruct (write_top_now c a _ _ _ _ _ _ Htop E2) as (Htop2 & Ha2 & Hb2 & Hl2 & Hs2).
  destruct (write_top_now c a _ _ _ _ _ _ Htop2 E3) as (Htop3 & Ha3 & Hb3 & Hl3 & Hs3).
  destruct (write_top_now c a _ _ _ _ _ _ Htop3 E4) as (Htop4 & Ha4 & Hb4 & Hl4 & Hs4).
  split.
  - by rewrite Ha4.
  - intros d Hd. by rewrite Hb4, Hb3, Hb2, (sn_account _ _ _ H1).
  - by rewrite Hl4, Hl3, Hl2, (sn_logs _ _ _ H1).
  - intros k Hlive. rewrite Hs4. destruct (decide (a = c)) as [->|Hne]; [|by rewrite Hs3, Hs2, (sn_slot _ _ _ H1)].
    simpl. rewrite <- Hx in Hlive. destruct Hlive as [acc Hacc]. rewrite (Hacc0 _ Hacc) in *.
    rewrite <- (sn_slot _ _ _ H1). unfold slot_now.
    assert (Hnow : account_now w1 c = Some acc) by (rewrite (sn_account _ _ _ H1); congruence).
    rewrite Hnow. unfold written. rewrite Htop. f_equal.
    assert (Ho : original_ w3.1 = original_ w1.1 ∧ w3.2 = w1.2) by (unfold write_current in *; by sinv).
    unfold original_slot. destruct Ho as [-> ->]. done.
Qed.

Lemma add_to_balance_now c a d w w' :
  add_to_balance a d w = Ok ((), w') →
  let b := balance_of (account_now w a) in
  ∃ acc, balance acc = u256 (b + d) ∧ d + b <= U256_MAX ∧ changed c a acc w w'.
Proof.
  intros E b. unfold add_to_balance in E. apply bind_Ok in E as (x & w1 & E1 & E).
  destruct (current_account_state_now c _ _ _ _ E1) as (H1 & Hx & v1 & r1 & Htop).
  rewrite run_sgets in E. set (acc0 := default (new_account (incarnation_ w1.1)) (account_ x)) in *.
  apply bind_Ok in E as ([] & w2 & E2 & E). apply bind_Ok in E as ([] & w2' & E2' & E).
  apply massert_throw_Ok in E2' as [Hle ->].
  apply bind_Ok in E as ([] & w3 & E3 & E). apply bind_Ok in E as ([] & w4 & E4 & E).
  assert (Hb : balance acc0 = b).
  { unfold acc0, b. rewrite <- Hx. by destruct (account_ x). }
  exists (with_balance (u256 (balance acc0 + d)) acc0). split; [simpl; by rewrite Hb|]. split; [lia|].
  eapply changed_reads; [|by eapply Reads_on_credit].
  eapply (write_balance_now c a x v1 r1 acc0); try done. intros acc Hacc. unfold acc0. by rewrite Hacc.
Qed.
Lemma subtract_from_balance_now c a d w w' :
  subtract_from_balance a d w = Ok ((), w') →
  let b := balance_of (account_now w a) in
  ∃ acc, balance acc = u256 (b - d) ∧ d <= b ∧ changed c a acc w w'.
Proof.
  intros E b. unfold subtract_from_balance in E. apply bind_Ok in E as (x & w1 & E1 & E).
  destruct (current_account_state_now c _ _ _ _ E1) as (H1 & Hx & v1 & r1 & Htop).
  rewrite run_sgets in E. set (acc0 := default (new_account (incarnation_ w1.1)) (account_ x)) in *.
  apply bind_Ok in E as ([] & w2 & E2 & E). apply bind_Ok in E as ([] & w2' & E2' & E).
  apply massert_throw_Ok in E2' as [Hle ->].
  apply bind_Ok in E as ([] & w3 & E3 & E). apply bind_Ok in E as ([] & w4 & E4 & E).
  assert (Hb : balance acc0 = b).
  { unfold acc0, b. rewrite <- Hx. by destruct (account_ x). }
  exists (with_balance (u256 (balance acc0 - d)) acc0). split; [simpl; by rewrite Hb|]. split; [lia|].
  eapply changed_reads; [|by eapply Reads_on_debit].
  eapply (write_balance_now c a x v1 r1 acc0); try done. intros acc Hacc. unfold acc0. by rewrite Hacc.
Qed.
Lemma store_log_now c l w w' :
  store_log l w = Ok ((), w') →
  (∀ a, account_now w' a = account_now w a) ∧ (∀ k, slot_now w' c k = slot_now w c k) ∧
  logs_now w' = logs_now w ++ [l].
Proof.
  intros E. unfold store_log in E. sinv. simpl in *. split; [done|]. split; [done|].
  unfold logs_now. simpl.
  match goal with Hv : vs_current _ (logs_ w.1) = Ok ?st |- _ => rename Hv into Hc end.
  destruct (logs_ w.1) as [|[v y] r]; [done|]. simpl in Hc. injection Hc as <-.
  by destruct (version_ w.1 >? v).
Qed.

Lemma changed_shows c a acc w w' L b :
  shows c w L → changed c a acc w w' → balance acc = b → shows c w' (lg_set_balance a b L).
Proof.
  intros [Hlive Hs Hb Hl] [A O C D] Hbal. split; simpl.
  - destruct (decide (a = c)) as [->|]; [rewrite A; eauto|by rewrite O].
  - intros k. by rewrite D.
  - intros d. destruct (decide (a = d)) as [<-|Hne].
    + by rewrite A, fn_lookup_insert.
    + by rewrite O, fn_lookup_insert_ne.
  - by rewrite C.
Qed.
Lemma same_shows c w w' L : shows c w L → same_now c w w' → shows c w' L.
Proof.
  intros [Hlive Hs Hb Hl] [A S C]. split; [by rewrite A|intros; by rewrite S|intros; by rewrite A|by rewrite C].
Qed.

(** One method, and a whole program. *)
Lemma call_refines c {X} (op : method X) w y w' L :
  contract_method c op → shows c w L → call keccak256 op w = Ok (y, w') →
  ∃ L', lcall c op L y L' ∧ shows c w' L'.
Proof.
  intros Hop Hsh E. destruct op; try done; simpl in *.
  - destruct (get_balance_now c _ _ _ _ E) as [-> Hsame]. exists L. rewrite (sh_balances _ _ _ Hsh).
    split; [done|]. by eapply same_shows.
  - subst. destruct (get_storage_now c _ _ _ _ E) as [-> Hsame]. exists L. rewrite (sh_slots _ _ _ Hsh).
    split; [done|]. by eapply same_shows.
  - destruct y. destruct (add_to_balance_now c _ _ _ _ E) as (acc & Hb & Hle & Hch).
    rewrite (sh_balances _ _ _ Hsh) in Hb, Hle. eexists. split; [done|]. by eapply changed_shows.
  - destruct y. destruct (subtract_from_balance_now c _ _ _ _ E) as (acc & Hb & Hle & Hch).
    rewrite (sh_balances _ _ _ Hsh) in Hb, Hle. eexists. split; [done|]. by eapply changed_shows.
  - subst. destruct (set_storage_now c _ _ _ _ _ E) as (Ha & Hl & Hs). destruct Hsh as [Hlive Hsl Hb Hlg].
    eexists. split; [done|]. split; simpl.
    + by rewrite Ha.
    + intros k'. rewrite Hs. destruct (decide (k = k')) as [<-|].
      * by rewrite !fn_lookup_insert.
      * by rewrite !fn_lookup_insert_ne.
    + intros b. by rewrite Ha.
    + by rewrite Hl.
  - destruct y. destruct (store_log_now c _ _ _ E) as (Ha & Hs & Hl). destruct Hsh as [Hlive Hsl Hb Hlg].
    eexists. split; [done|]. split; simpl; [by rewrite Ha|intros; by rewrite Hs|intros; by rewrite Ha|].
    by rewrite Hl, Hlg.
Qed.

Lemma exec_refines c {A} (p : prog A) w r w' L :
  contract_prog c p → shows c w L → exec keccak256 p w = Ok (r, w') →
  ∃ L', lruns c p L r L' ∧ shows c w' L'.
Proof.
  revert w L. induction p as [a|X x k IH|o]; intros w L Hp Hsh E.
  - apply exec_Ret in E as [-> ->]. by exists L.
  - destruct x; [|done..]. destruct Hp as [Hop Hk]. rewrite exec_Act in E.
    apply bind_Ok in E as (y & w1 & E1 & E2). destruct (call_refines c op w y w1 L) as (L1 & Hl & Hsh1); [done..|].
    destruct (IH y w1 L1 (Hk y) Hsh1 E2) as (L' & Hr & Hsh'). exists L'. split; [|done]. by exists y, L1.
  - by apply exec_Stop in E.
Qed.
End shows.
