(* ===== verification/Abi.v ===== *)
(** * The contract ABI

    Decoding and encoding of calls, results and events of the contracts that
    are part of the program: abi_decode.hpp, abi_encode.hpp and events.hpp
    under src/category/execution/ethereum/core/contract.  A [byte_string_view]
    that a decoder advances is returned beside the result. *)
From S2P Require Import Prelude Traits Account VersionStack AccountState BlockState State Rlp RlpFacts.

Inductive AbiDecodeError := AbiInputTooShort | AbiLengthMismatch.
Definition abi_error_message (e : AbiDecodeError) : string :=
  match e with AbiInputTooShort => "input too short" | AbiLengthMismatch => "length mismatch" end.

(** ** Decoding *)
(** An integer or an address of [width] bytes: the last ones of a word. *)
Definition abi_decode_fixed (width : nat) (enc : list Z) : AbiDecodeError + (Z * list Z) :=
  if len enc <? 32 then inl AbiInputTooShort
  else inr (be_val (take width (drop (32 - width) enc)), drop 32 enc).

Definition round_up (x align : nat) : nat := (x + align - 1) / align * align.
Definition abi_decode_bytes_tail (n : nat) (enc : list Z) : AbiDecodeError + (list Z * list Z) :=
  match abi_decode_fixed 32 enc with
  | inl e => inl e
  | inr (length_, enc) =>
      if negb (length_ =? Z.of_nat n) then inl AbiLengthMismatch
      else
        let padded := round_up n 32 in
        if len enc <? Z.of_nat padded then inl AbiInputTooShort
        else inr (take n enc, drop padded enc)
  end.

(** ** Encoding *)
(** A word: the [width] bytes of an integer, zeros in front. *)
Definition abi_encode_uint (width : nat) (i : Z) : list Z := repeat 0 (32 - width) ++ be_bytes width i.
Definition abi_encode_address (address : Z) : list Z := abi_encode_uint 20 address.
Definition abi_encode_bool (b : bool) : list Z := abi_encode_uint 8 (if b then 1 else 0).
Definition abi_encode_bytes (input : list Z) : list Z :=
  abi_encode_uint 32 (len input) ++ input ++ repeat 0 (round_up (length input) 32 - length input).
Definition abi_encode_array (width : nat) (arr : list Z) : list Z :=
  abi_encode_uint 8 (len arr) ++ concat (abi_encode_uint width <$> arr).

(** [AbiEncoder] *)
Record AbiEncoder := mkAbiEncoder {
  head_ : list Z;
  tail_ : list Z;
  unresolved_offsets_ : list (nat * nat)
}.
Definition encoder : AbiEncoder := mkAbiEncoder [] [] [].
Definition add_static (data : list Z) (e : AbiEncoder) : AbiEncoder :=
  mkAbiEncoder (head_ e ++ data) (tail_ e) (unresolved_offsets_ e).
Definition add_dynamic (data : list Z) (e : AbiEncoder) : AbiEncoder :=
  mkAbiEncoder (head_ e ++ repeat 0 32) (tail_ e ++ data)
    (unresolved_offsets_ e ++ [(length (head_ e), length (tail_ e))]).
Definition add_address (address : Z) : AbiEncoder → AbiEncoder := add_static (abi_encode_address address).
Definition add_uint (width : nat) (i : Z) : AbiEncoder → AbiEncoder := add_static (abi_encode_uint width i).
Definition add_bool (b : bool) : AbiEncoder → AbiEncoder := add_static (abi_encode_bool b).
Definition add_uint_array (width : nat) (arr : list Z) : AbiEncoder → AbiEncoder :=
  add_dynamic (abi_encode_array width arr).
Definition add_address_array (arr : list Z) : AbiEncoder → AbiEncoder := add_dynamic (abi_encode_array 20 arr).
Definition add_bytes (data : list Z) : AbiEncoder → AbiEncoder := add_dynamic (abi_encode_bytes data).

(** [std::memcpy] of a word into the head *)
Definition patch (p : nat) (word head : list Z) : list Z :=
  take p head ++ word ++ drop (p + length word) head.
Definition resolve_offset (size : nat) (head : list Z) (o : nat * nat) : list Z :=
  patch o.1 (abi_encode_uint 32 (u256 (Z.of_nat size + Z.of_nat o.2))) head.
Definition encode_final (e : AbiEncoder) : list Z :=
  fold_left (resolve_offset (length (head_ e))) (unresolved_offsets_ e) (head_ e) ++ tail_ e.

(** ** Events *)
(** [EventBuilder]: topics and words of data *)
Definition build_event (account signature : Z) (topics : list Z) (data : list (list Z)) : Log :=
  mkLog (concat data) (signature :: topics) account.

(** ** Reading back what was encoded *)
Lemma abi_encode_length w i : (w <= 32)%nat → length (abi_encode_uint w i) = 32%nat.
Proof. intros Hw. unfold abi_encode_uint. rewrite length_app, repeat_length, be_bytes_length. lia. Qed.

Lemma abi_decode_encode w i rest :
  (w <= 32)%nat → 0 <= i < 256 ^ Z.of_nat w →
  abi_decode_fixed w (abi_encode_uint w i ++ rest) = inr (i, rest).
Proof.
  intros Hw Hi. pose proof (abi_encode_length w i Hw) as Hlen. unfold abi_decode_fixed, len.
  rewrite length_app, Hlen, (proj2 (Z.ltb_ge _ _)) by lia. do 2 f_equal.
  - unfold abi_encode_uint. rewrite <- app_assoc, drop_app_length' by (by rewrite repeat_length).
    rewrite take_app_length' by (by rewrite be_bytes_length). rewrite be_val_be_bytes. by apply Z.mod_small.
  - by rewrite drop_app_length' by done.
Qed.
