(* ===== verification/ContractStorage.v ===== *)
(** * Variables of a contract in the state

    storage_variable.hpp, storage_array.hpp and big_endian.hpp under
    src/category/execution/ethereum/core/contract.  A value of a type without
    padding is stored as its bytes, in as many slots of 32 bytes as it needs;
    a slot is an integer of 256 bits, its first byte the most significant. *)
From S2P Require Import Prelude Traits Account VersionStack AccountState BlockState State Methods Rlp RlpFacts.

(** ** The bytes of a type *)
Class Packed (T : Type) := {
  pk_size : nat;
  pk_bytes : T → list Z;
  pk_parse : list Z → T
}.
(** What can be stored and read back. *)
Class PackedLaws (T : Type) `{Packed T} := {
  pk_valid : T → Prop;
  pk_length x : length (pk_bytes x) = pk_size;
  pk_bytes_ok x : bytes_ok (pk_bytes x);
  pk_round_trip x : pk_valid x → pk_parse (pk_bytes x) = x
}.
Arguments pk_size T {_}.

(** [BigEndian<T>] and [Address]: an integer of a fixed width. *)
Definition uint (width : nat) : Type := Z.
#[global] Instance packed_uint width : Packed (uint width) := {|
  pk_size := width; pk_bytes := be_bytes width; pk_parse := be_val
|}.
#[global] Instance packed_bool : Packed bool := {|
  pk_size := 1;
  pk_bytes := λ b : bool, [if b then 1 else 0];
  pk_parse := λ l : list Z, negb (default 0 (head l) =? 0)
|}.
Abbreviation u8_be := (uint 1).
Abbreviation u64_be := (uint 8).
Abbreviation u256_be := (uint 32).
Abbreviation address_be := (uint 20).

(** ** StorageVariable *)
(** A variable of type [T] at a slot of a contract. *)
Record StorageVariable (T : Type) := mkVariable { sv_address : Z; sv_offset : Z }.
Arguments mkVariable {T}.
Arguments sv_address {T}.
Arguments sv_offset {T}.

Section variable.
Context {T : Type} `{Packed T}.
(** The number of slots. *)
Definition sv_slots : nat := (pk_size T + 31) / 32.

Fixpoint words_of (n : nat) (bytes : list Z) : list Z :=
  match n with
  | O => []
  | S n => be_val (take 32 bytes) :: words_of n (drop 32 bytes)
  end.
(** The tail is padded with zeros. *)
Definition to_slots (t : T) : list Z :=
  words_of sv_slots (pk_bytes t ++ repeat 0 (32 * sv_slots - pk_size T)).
Definition from_slots (slots : list Z) : T := pk_parse (take (pk_size T) (concat (be_bytes 32 <$> slots))).

Fixpoint load_slots (a offset : Z) (n : nat) : prog (list Z) :=
  match n with
  | O => Ret []
  | S n =>
      w ← do_ (m_get_storage a (u256 offset));
      r ← load_slots a (offset + 1) n;
      Ret (w :: r)
  end.
Fixpoint store_slots (a offset : Z) (slots : list Z) : prog () :=
  match slots with
  | [] => Ret ()
  | w :: r => _ ← do_ (m_set_storage a (u256 offset) w); store_slots a (offset + 1) r
  end.

Definition load (v : StorageVariable T) : prog T :=
  slots ← load_slots (sv_address v) (sv_offset v) sv_slots; Ret (from_slots slots).
Definition load_checked (v : StorageVariable T) : prog (option T) :=
  slots ← load_slots (sv_address v) (sv_offset v) sv_slots;
  Ret (if existsb (λ w, negb (w =? 0)) slots then Some (from_slots slots) else None).
Definition store (v : StorageVariable T) (t : T) : prog () :=
  store_slots (sv_address v) (sv_offset v) (to_slots t).
Definition clear (v : StorageVariable T) : prog () :=
  store_slots (sv_address v) (sv_offset v) (repeat 0 sv_slots).
End variable.
Arguments sv_slots T {_}.

(** ** StorageArray: the length, then the elements *)
Record StorageArray (T : Type) := mkArray { arr_address : Z; arr_slot : Z }.
Arguments mkArray {T}.
Arguments arr_address {T}.
Arguments arr_slot {T}.
Section array.
Context {T : Type} `{Packed T}.
Definition length_ (v : StorageArray T) : StorageVariable u64_be := mkVariable (arr_address v) (arr_slot v).
Definition arr_length (v : StorageArray T) : prog Z := load (length_ v).
Definition arr_get (v : StorageArray T) (index : Z) : StorageVariable T :=
  mkVariable (arr_address v) (u256 (u256 (arr_slot v + 1) + u64 (index * Z.of_nat (sv_slots T)))).
Definition arr_push (v : StorageArray T) (value : T) : prog () :=
  len ← arr_length v;
  store (arr_get v len) value;;
  store (length_ v) (u64 (len + 1)).
Definition arr_pop (v : StorageArray T) : prog T :=
  len ← arr_length v;
  passert (len >? 0);;
  let len := len - 1 in
  value ← load (arr_get v len);
  clear (arr_get v len);;
  store (length_ v) len;;
  Ret value.
End array.
