(* ===== verification/StorageFacts.v ===== *)
(** * Variables of a contract on a ledger

    Reading a variable after it was stored gives the value stored, and
    storing one variable does not change another whose slots are different.
    [sv_get], [sv_checked] and [sv_put] are load, load_checked and store as
    functions on slots. *)
From S2P Require Import Prelude Traits Account VersionStack AccountState BlockState State Methods Rlp RlpFacts Ledger ContractStorage.

(** ** Slots as functions *)
Fixpoint words_at (f : Z → Z) (offset : Z) (n : nat) : list Z :=
  match n with O => [] | S n => f (u256 offset) :: words_at f (offset + 1) n end.
Fixpoint put_words (f : Z → Z) (offset : Z) (ws : list Z) : Z → Z :=
  match ws with [] => f | w :: r => put_words (<[u256 offset := w]> f) (offset + 1) r end.

Definition lg_set_slots (f : Z → Z) (L : Ledger) : Ledger := mkLedger f (lg_balances L) (lg_logs L).
Lemma lg_set_slots_id L : lg_set_slots (lg_slots L) L = L.
Proof. by destruct L. Qed.

Section get_put.
Context {T : Type} `{Packed T}.
Definition sv_get (f : Z → Z) (v : StorageVariable T) : T := from_slots (words_at f (sv_offset v) (sv_slots T)).
Definition sv_checked (f : Z → Z) (v : StorageVariable T) : option T :=
  let ws := words_at f (sv_offset v) (sv_slots T) in
  if existsb (λ w, negb (w =? 0)) ws then Some (from_slots ws) else None.
Definition sv_put (v : StorageVariable T) (t : T) (f : Z → Z) : Z → Z := put_words f (sv_offset v) (to_slots t).
Definition sv_zero (v : StorageVariable T) (f : Z → Z) : Z → Z :=
  put_words f (sv_offset v) (repeat 0 (sv_slots T)).

Lemma lruns_load_slots c offset n L r L' :
  lruns c (load_slots c offset n) L r L' ↔ r = words_at (lg_slots L) offset n ∧ L' = L.
Proof.
  revert offset r L'. induction n as [|n IH]; intros offset r L'; [done|]. cbn [load_slots words_at].
  rewrite lruns_bind. split.
  - intros (a & L1 & (y & L2 & (_ & -> & ->) & -> & ->) & Hr).
    apply lruns_bind in Hr as (r' & L3 & Hr & Hret). apply IH in Hr as [-> ->]. simpl in Hret.
    by destruct Hret as [-> ->].
  - intros [-> ->]. eexists _, L. split; [by eexists _, L|]. rewrite lruns_bind.
    eexists _, L. rewrite IH. done.
Qed.
Lemma lruns_store_slots c offset ws L r L' :
  lruns c (store_slots c offset ws) L r L' → L' = lg_set_slots (put_words (lg_slots L) offset ws) L.
Proof.
  revert offset L. induction ws as [|w ws IH]; intros offset L; cbn [store_slots put_words].
  - intros [_ ->]. by rewrite lg_set_slots_id.
  - rewrite lruns_bind. intros (a & L1 & (y & L2 & (_ & ->) & -> & ->) & Hr).
    apply IH in Hr as ->. done.
Qed.
Lemma lruns_load v L r L' :
  lruns (sv_address v) (load v) L r L' → r = sv_get (lg_slots L) v ∧ L' = L.
Proof.
  unfold load. rewrite lruns_bind. intros (ws & L1 & Hl & Hr). apply lruns_load_slots in Hl as [-> ->].
  simpl in Hr. done.
Qed.
Lemma lruns_load_checked v L r L' :
  lruns (sv_address v) (load_checked v) L r L' → r = sv_checked (lg_slots L) v ∧ L' = L.
Proof.
  unfold load_checked. rewrite lruns_bind. intros (ws & L1 & Hl & Hr). apply lruns_load_slots in Hl as [-> ->].
  simpl in Hr. done.
Qed.
Lemma lruns_store v t L r L' :
  lruns (sv_address v) (store v t) L r L' → L' = lg_set_slots (sv_put v t (lg_slots L)) L.
Proof. apply lruns_store_slots. Qed.
Lemma lruns_clear v L r L' :
  lruns (sv_address v) (clear v) L r L' → L' = lg_set_slots (sv_zero v (lg_slots L)) L.
Proof. apply lruns_store_slots. Qed.
Lemma read_prog_load v : read_prog (sv_address v) (load v).
Proof.
  unfold load. apply read_prog_bind; [|done]. generalize (sv_offset v). generalize (sv_slots T).
  induction n as [|n IH]; intros o; [done|]. cbn [load_slots]. apply read_prog_bind; [done|]. intros w.
  apply read_prog_bind; [apply IH|done].
Qed.
Lemma slot_prog_load v : slot_prog (sv_address v) (load v).
Proof. apply read_slot_prog, read_prog_load. Qed.
Lemma slot_prog_store_slots c o ws : slot_prog c (store_slots c o ws).
Proof.
  revert o. induction ws as [|w ws IH]; intros o; [done|]. cbn [store_slots]. apply slot_prog_bind; [done|]. auto.
Qed.
Lemma slot_prog_store v t : slot_prog (sv_address v) (store v t).
Proof. apply slot_prog_store_slots. Qed.
End get_put.

(** ** Words and bytes *)
Lemma words_at_length f o n : length (words_at f o n) = n.
Proof. revert o. induction n; intros o; simpl; auto. Qed.
Lemma to_slots_length {T} `{Packed T} (t : T) : length (to_slots t) = sv_slots T.
Proof.
  unfold to_slots. generalize (pk_bytes t ++ repeat 0 (32 * sv_slots T - pk_size T)). generalize (sv_slots T).
  induction n as [|n IH]; intros l; simpl; auto.
Qed.
Lemma words_bytes n l :
  length l = (32 * n)%nat → bytes_ok l → concat (be_bytes 32 <$> words_of n l) = l.
Proof.
  revert l. induction n as [|n IH]; intros l Hl Hok.
  - destruct l; [done|simpl in Hl; lia].
  - cbn [words_of]. rewrite fmap_cons. cbn [concat]. rewrite IH.
    + rewrite <- (take_drop 32 l) at 3. f_equal.
      assert (Ht : length (take 32 l) = 32%nat) by (rewrite length_take; lia).
      rewrite <- Ht at 1. apply be_bytes_be_val. by apply Forall_take.
    + rewrite length_drop. lia.
    + by apply Forall_drop.
Qed.
Lemma words_bytes_length (ws : list Z) : length (concat (be_bytes 32 <$> ws)) = (32 * length ws)%nat.
Proof.
  induction ws as [|w ws IH]; [done|]. rewrite fmap_cons. cbn [concat]. rewrite length_app, be_bytes_length, IH.
  cbn [length]. lia.
Qed.
Lemma words_bytes_ok (ws : list Z) : bytes_ok (concat (be_bytes 32 <$> ws)).
Proof.
  induction ws as [|w ws IH]; [constructor|]. rewrite fmap_cons. cbn [concat]. apply Forall_app. split; [|done].
  apply be_bytes_ok.
Qed.

Lemma from_to_slots {T} `{PackedLaws T} (t : T) : pk_valid t → from_slots (to_slots t) = t.
Proof.
  intros Ht. unfold from_slots, to_slots.
  assert (Hs : (pk_size T <= 32 * sv_slots T)%nat).
  { unfold sv_slots. pose proof (Nat.div_mod (pk_size T + 31) 32). pose proof (Nat.mod_upper_bound (pk_size T + 31) 32). lia. }
  rewrite words_bytes.
  - rewrite take_app_length' by (symmetry; apply pk_length). by apply pk_round_trip.
  - rewrite length_app, pk_length, repeat_length. lia.
  - apply Forall_app. split; [apply pk_bytes_ok|]. apply Forall_forall. intros x Hx%repeat_spec.
    subst. split; lia.
Qed.

(** ** Reading after writing *)
(** The slots of a variable: no wrap-around. *)
Definition in_range (offset : Z) (n : nat) : Prop := 0 <= offset ∧ offset + Z.of_nat n <= 2 ^ 256.
Lemma put_words_other f o ws k : (∀ i, 0 <= i < Z.of_nat (length ws) → u256 (o + i) ≠ k) → put_words f o ws k = f k.
Proof.
  revert f o. induction ws as [|w ws IH]; intros f o Hne; simpl; [done|]. rewrite IH.
  - rewrite fn_lookup_insert_ne; [done|]. specialize (Hne 0 ltac:(simpl; lia)). by rewrite Z.add_0_r in Hne.
  - intros i Hi. rewrite <- Z.add_assoc. apply Hne. simpl. lia.
Qed.
Lemma words_at_put f o ws : in_range o (length ws) → words_at (put_words f o ws) o (length ws) = ws.
Proof.
  revert f o. induction ws as [|w ws IH]; intros f o [Ho Hn]; simpl; [done|]. simpl in Hn.
  f_equal; [|apply IH; split; lia].
  rewrite put_words_other; [by rewrite fn_lookup_insert|]. intros i Hi. unfold u256.
  rewrite !Z.mod_small by lia. lia.
Qed.
Lemma words_at_ext f g o n : (∀ i, 0 <= i < Z.of_nat n → f (u256 (o + i)) = g (u256 (o + i))) → words_at f o n = words_at g o n.
Proof.
  revert o. induction n as [|n IH]; intros o Hfg; simpl; [done|]. f_equal.
  - specialize (Hfg 0 ltac:(lia)). by rewrite Z.add_0_r in Hfg.
  - apply IH. intros i Hi. rewrite <- Z.add_assoc. apply Hfg. lia.
Qed.

(** Two ranges of slots that do not meet. *)
Definition apart (o : Z) (n : nat) (o' : Z) (n' : nat) : Prop :=
  in_range o n ∧ in_range o' n' ∧ (o + Z.of_nat n <= o' ∨ o' + Z.of_nat n' <= o).
Lemma words_at_apart f o ws o' n : apart o (length ws) o' n → words_at (put_words f o ws) o' n = words_at f o' n.
Proof.
  intros ([Ho Hn] & [Ho' Hn'] & Hd). apply words_at_ext. intros i Hi. apply put_words_other. intros j Hj.
  unfold u256. rewrite !Z.mod_small by lia. lia.
Qed.
(** No wrap-around inside a variable, and two variables without a common
    slot. *)
Definition sv_ok {T} `{Packed T} (v : StorageVariable T) : Prop := in_range (sv_offset v) (sv_slots T).
Definition sv_apart {T U} `{Packed T} `{Packed U} (v : StorageVariable T) (u : StorageVariable U) : Prop :=
  apart (sv_offset v) (sv_slots T) (sv_offset u) (sv_slots U).

Section laws.
Context {T U : Type} `{PackedLaws T} `{Packed U}.
Lemma sv_get_put (v : StorageVariable T) t f : sv_ok v → pk_valid t → sv_get (sv_put v t f) v = t.
Proof.
  intros Hv Ht. unfold sv_get, sv_put. rewrite <- (to_slots_length t), words_at_put.
  - by apply from_to_slots.
  - by rewrite to_slots_length.
Qed.
Lemma sv_get_put_other (v : StorageVariable T) (u : StorageVariable U) t f :
  sv_apart v u → sv_get (sv_put v t f) u = sv_get f u.
Proof.
  intros Ha. unfold sv_get, sv_put. rewrite words_at_apart; [done|]. by rewrite to_slots_length.
Qed.
Lemma sv_checked_put_other (v : StorageVariable T) (u : StorageVariable U) t f :
  sv_apart v u → sv_checked (sv_put v t f) u = sv_checked f u.
Proof.
  intros Ha. unfold sv_checked, sv_put. rewrite words_at_apart; [done|]. by rewrite to_slots_length.
Qed.
Lemma sv_get_zero_other (v : StorageVariable T) (u : StorageVariable U) f :
  sv_apart v u → sv_get (sv_zero v f) u = sv_get f u.
Proof.
  intros Ha. unfold sv_get, sv_zero. rewrite words_at_apart; [done|]. by rewrite repeat_length.
Qed.
Lemma sv_checked_zero_other (v : StorageVariable T) (u : StorageVariable U) f :
  sv_apart v u → sv_checked (sv_zero v f) u = sv_checked f u.
Proof.
  intros Ha. unfold sv_checked, sv_zero. rewrite words_at_apart; [done|]. by rewrite repeat_length.
Qed.
End laws.

Lemma zero_bytes n : concat (be_bytes 32 <$> repeat 0 n) = repeat 0 (32 * n).
Proof.
  induction n as [|n IH]; [done|]. cbn [repeat]. rewrite fmap_cons. cbn [concat]. rewrite IH.
  replace (32 * S n)%nat with (32 + 32 * n)%nat by lia. rewrite repeat_app. done.
Qed.
Lemma zero_slots {T} `{Packed T} :
  take (pk_size T) (concat (be_bytes 32 <$> repeat 0 (sv_slots T))) = repeat 0 (pk_size T).
Proof.
  rewrite zero_bytes.
  assert (Hs : (pk_size T <= 32 * sv_slots T)%nat).
  { unfold sv_slots. pose proof (Nat.div_mod (pk_size T + 31) 32). pose proof (Nat.mod_upper_bound (pk_size T + 31) 32). lia. }
  replace (32 * sv_slots T)%nat with (pk_size T + (32 * sv_slots T - pk_size T))%nat by lia.
  rewrite repeat_app. rewrite take_app_length' by (by rewrite repeat_length). done.
Qed.
Lemma sv_get_zero {T} `{Packed T} (v : StorageVariable T) f :
  sv_ok v → sv_get (sv_zero v f) v = pk_parse (repeat 0 (pk_size T)).
Proof.
  intros Hv. unfold sv_get, sv_zero, from_slots. rewrite <- (repeat_length 0 (sv_slots T)) at 2.
  rewrite words_at_put by (by rewrite repeat_length). by rewrite zero_slots.
Qed.
Lemma sv_checked_zero {T} `{Packed T} (v : StorageVariable T) f : sv_ok v → sv_checked (sv_zero v f) v = None.
Proof.
  intros Hv. unfold sv_checked, sv_zero.
  assert (Ew : words_at (put_words f (sv_offset v) (repeat 0 (sv_slots T))) (sv_offset v) (sv_slots T) =
               repeat 0 (sv_slots T)).
  { rewrite <- (repeat_length 0 (sv_slots T)) at 2. apply words_at_put. by rewrite repeat_length. }
  rewrite Ew.
  assert (E : existsb (λ w, negb (w =? 0)) (repeat 0 (sv_slots T)) = false).
  { generalize (sv_slots T). induction n; simpl; auto. }
  by rewrite E.
Qed.
Lemma sv_get_empty {T} `{Packed T} (v : StorageVariable T) : sv_get (λ _, 0) v = pk_parse (repeat 0 (pk_size T)).
Proof.
  unfold sv_get, from_slots. rewrite <- zero_slots. do 4 f_equal. generalize (sv_offset v). generalize (sv_slots T).
  induction n as [|n IH]; intros o; [done|]. cbn [words_at repeat]. by rewrite IH.
Qed.
Lemma sv_checked_Some {T} `{Packed T} f (v : StorageVariable T) t : sv_checked f v = Some t → t = sv_get f v.
Proof. unfold sv_checked. case_match; [|done]. by intros [= <-]. Qed.
Lemma sv_checked_None {T} `{Packed T} f (v : StorageVariable T) :
  sv_checked f v = None → sv_get f v = pk_parse (repeat 0 (pk_size T)).
Proof.
  unfold sv_checked, sv_get. destruct (existsb _ _) eqn:E; [done|]. intros _.
  assert (Ew : words_at f (sv_offset v) (sv_slots T) = repeat 0 (sv_slots T)).
  { revert E. generalize (sv_offset v). generalize (sv_slots T). induction n as [|n IH]; intros o; [done|].
    cbn [words_at repeat existsb]. rewrite orb_false_iff. intros [H1 H2]. f_equal; [|by apply IH].
    apply negb_false_iff, Z.eqb_eq in H1. done. }
  unfold from_slots. by rewrite Ew, zero_slots.
Qed.
