(* ===== verification/StakingVars.v ===== *)
(** * The staking contract: data

    The constants (staking/util/constants.hpp), the records the contract keeps
    in its storage (util/delegator.hpp, util/val_execution.hpp,
    util/consensus_view.hpp) and where they are ([StakingContract::Variables]
    of staking_contract.hpp), under src/category/execution/monad. *)
From S2P Require Import Prelude Traits Account VersionStack AccountState BlockState State Methods Rlp RlpFacts CheckedMath Abi ContractStorage.

(** ** Constants *)
Definition PRIORITY_FEE_DIST_ADDRESS : Z := 0xfee5fee5fee5fee5fee5fee5fee5fee5fee5fee5.
Definition MON : Z := 1000000000000000000.
Definition UNIT_BIAS : Z := 1000000000000000000000000000000000000.
Definition dust_threshold : Z := 1000000000.
Definition max_commission : Z := MON.
Definition active_validator_stake (t : Traits) : Z :=
  match monad_rev t with
  | Some rev => if rev >=? MONAD_FIVE then 10000000 * MON else 25000000 * MON
  | None => 25000000 * MON
  end.
Definition min_auth_address_stake : Z := 100000 * MON.
Definition min_external_reward : Z := dust_threshold.
Definition max_external_reward : Z := 10000000000000000000000000.
Definition active_valset_size : Z := 200.
Definition array_pagination : Z := 100.
Definition linked_list_pagination (t : Traits) : Z :=
  match monad_rev t with
  | Some rev => if rev <? MONAD_EIGHT then 100 else 50
  | None => 50
  end.
Definition withdrawal_delay : Z := 1.
Definition ValidatorFlagsOk : Z := 0.
Definition ValidatorFlagsStakeTooLow : Z := 1.
Definition ValidatorFlagWithdrawn : Z := 2.
Definition selector_REWARD : Z := 0x791bdcf3.
Definition selector_SNAPSHOT : Z := 0x157eeb21.
Definition selector_ON_EPOCH_CHANGE : Z := 0x1d4e9f02.

(** ** Errors *)
Inductive StakingError :=
| InternalError | MethodNotSupported | InvalidInput | ValidatorExists | UnknownValidator
| UnknownDelegator | WithdrawalIdExists | UnknownWithdrawalId | WithdrawalNotReady | InsufficientStake
| InvalidSecpPubkey | InvalidBlsPubkey | InvalidSecpSignature | InvalidBlsSignature
| SecpSignatureVerificationFailed | BlsSignatureVerificationFailed | NotInValidatorSet | SolvencyError
| SnapshotInBoundary | InvalidEpochChange | RequiresAuthAddress | CommissionTooHigh | ValueNonZero
| DelegationTooSmall | ExternalRewardTooSmall | ExternalRewardTooLarge.
#[global] Instance StakingError_eq_dec : EqDecision StakingError.
Proof. solve_decision. Defined.
Definition staking_error_message (e : StakingError) : string :=
  match e with
  | InternalError => "internal error"
  | MethodNotSupported => "method not supported"
  | InvalidInput => "invalid input"
  | ValidatorExists => "validator exists"
  | UnknownValidator => "unknown validator"
  | UnknownDelegator => "unknown delegator"
  | WithdrawalIdExists => "withdrawal id exists"
  | UnknownWithdrawalId => "unknown withdrawal id"
  | WithdrawalNotReady => "withdrawal not ready"
  | InsufficientStake => "insufficient stake"
  | InvalidSecpPubkey => "invalid secp pubkey"
  | InvalidBlsPubkey => "invalid bls pubkey"
  | InvalidSecpSignature => "invalid secp signature"
  | InvalidBlsSignature => "invalid bls signature"
  | SecpSignatureVerificationFailed => "secp signature verification failed"
  | BlsSignatureVerificationFailed => "bls signature verification failed"
  | NotInValidatorSet => "not in validator set"
  | SolvencyError => "solvency error"
  | SnapshotInBoundary => "called snapshot while in boundary"
  | InvalidEpochChange => "invalid epoch change"
  | RequiresAuthAddress => "requires auth address"
  | CommissionTooHigh => "commission too high"
  | ValueNonZero => "value is nonzero"
  | DelegationTooSmall => "delegation is too small"
  | ExternalRewardTooSmall => "external reward too small"
  | ExternalRewardTooLarge => "external reward too large"
  end.
Definition math_error_message (e : MathError) : string :=
  match e with
  | Overflow => "overflow" | Underflow => "underflow" | DivisionByZero => "division by zero"
  end.

(** ** Records in storage *)
(** The integer in [width] bytes of a record. *)
Definition field (offset width : nat) (l : list Z) : Z := be_val (take width (drop offset l)).

Record Epochs := mkEpochs { delta_epoch : Z; next_delta_epoch : Z }.
#[global] Instance packed_epochs : Packed Epochs := {|
  pk_size := 16;
  pk_bytes := λ e, be_bytes 8 (delta_epoch e) ++ be_bytes 8 (next_delta_epoch e);
  pk_parse := λ l, mkEpochs (field 0 8 l) (field 8 8 l)
|}.
Record ListNode := mkListNode { inext : Z; iprev : Z; anext : Z; aprev : Z }.
#[global] Instance packed_list_node : Packed ListNode := {|
  pk_size := 56;
  pk_bytes := λ n, be_bytes 8 (inext n) ++ be_bytes 8 (iprev n) ++ be_bytes 20 (anext n) ++ be_bytes 20 (aprev n);
  pk_parse := λ l, mkListNode (field 0 8 l) (field 8 8 l) (field 16 20 l) (field 36 20 l)
|}.
Record KeysPacked := mkKeysPacked { secp_pubkey : list Z; bls_pubkey : list Z }.
#[global] Instance packed_keys : Packed KeysPacked := {|
  pk_size := 81;
  pk_bytes := λ k, secp_pubkey k ++ bls_pubkey k;
  pk_parse := λ l, mkKeysPacked (take 33 l) (take 48 (drop 33 l))
|}.
Record AddressFlags := mkAddressFlags { af_auth_address : Z; af_flags : Z }.
#[global] Instance packed_address_flags : Packed AddressFlags := {|
  pk_size := 28;
  pk_bytes := λ f, be_bytes 20 (af_auth_address f) ++ be_bytes 8 (af_flags f);
  pk_parse := λ l, mkAddressFlags (field 0 20 l) (field 20 8 l)
|}.
Record WithdrawalRequest := mkWithdrawalRequest { wr_amount : Z; wr_acc : Z; wr_epoch : Z }.
#[global] Instance packed_withdrawal : Packed WithdrawalRequest := {|
  pk_size := 72;
  pk_bytes := λ r, be_bytes 32 (wr_amount r) ++ be_bytes 32 (wr_acc r) ++ be_bytes 8 (wr_epoch r);
  pk_parse := λ l, mkWithdrawalRequest (field 0 32 l) (field 32 32 l) (field 64 8 l)
|}.
Record RefCountedAccumulator := mkAccumulator { acc_value : Z; acc_refcount : Z }.
#[global] Instance packed_accumulator : Packed RefCountedAccumulator := {|
  pk_size := 64;
  pk_bytes := λ a, be_bytes 32 (acc_value a) ++ be_bytes 32 (acc_refcount a);
  pk_parse := λ l, mkAccumulator (field 0 32 l) (field 32 32 l)
|}.

(** ** Where they are *)
Definition var (T : Type) (slot : Z) : StorageVariable T := mkVariable STAKING_CA (u256 slot).
Definition vars_epoch : StorageVariable u64_be := var _ 1.
Definition vars_in_epoch_delay_period : StorageVariable bool := var _ 2.
Definition vars_last_val_id : StorageVariable u64_be := var _ 3.
Definition vars_proposer_val_id : StorageVariable u64_be := var _ 4.
Definition valset (namespace : Z) : StorageArray u64_be := mkArray STAKING_CA (be_val (be_bytes 1 namespace ++ repeat 0 31)).
Definition valset_execution : StorageArray u64_be := valset 1.
Definition valset_consensus : StorageArray u64_be := valset 2.
Definition valset_snapshot : StorageArray u64_be := valset 3.

(** The keys of the mappings: a namespace, the arguments, zeros. *)
Definition NS_ConsensusStake : Z := 0x04.
Definition NS_SnapshotStake : Z := 0x05.
Definition NS_ValIdSecp : Z := 0x06.
Definition NS_ValIdBls : Z := 0x07.
Definition NS_ValBitset : Z := 0x08.
Definition NS_ValExecution : Z := 0x09.
Definition NS_Accumulator : Z := 0x0A.
Definition NS_Delegator : Z := 0x0B.
Definition NS_WithdrawalRequest : Z := 0x0C.
Definition mapping_key (namespace : Z) (arguments : list Z) : Z :=
  be_val (be_bytes 1 namespace ++ arguments ++ repeat 0 (31 - length arguments)).

Definition vars_val_id (secp_eth_address : Z) : StorageVariable u64_be :=
  var _ (mapping_key NS_ValIdSecp (be_bytes 20 secp_eth_address)).
Definition vars_val_id_bls (bls_eth_address : Z) : StorageVariable u64_be :=
  var _ (mapping_key NS_ValIdBls (be_bytes 20 bls_eth_address)).
Definition vars_val_bitset_bucket (val_id : Z) : StorageVariable u256_be :=
  var _ (mapping_key NS_ValBitset (be_bytes 8 (Z.shiftr val_id 8))).
Definition vars_withdrawal_request (val_id delegator withdrawal_id : Z) : StorageVariable WithdrawalRequest :=
  var _ (mapping_key NS_WithdrawalRequest (be_bytes 8 val_id ++ be_bytes 20 delegator ++ be_bytes 1 withdrawal_id)).
Definition vars_accumulated_reward_per_token (epoch val_id : Z) : StorageVariable RefCountedAccumulator :=
  var _ (mapping_key NS_Accumulator (be_bytes 8 epoch ++ be_bytes 8 val_id)).

(** *** ValExecution *)
Record ValExecution := mkValExecution { ve_key : Z }.
Definition vars_val_execution (id : Z) : ValExecution :=
  mkValExecution (mapping_key NS_ValExecution (be_bytes 8 id)).
Definition ve_stake (v : ValExecution) : StorageVariable u256_be := var _ (ve_key v).
Definition ve_accumulated_reward_per_token (v : ValExecution) : StorageVariable u256_be := var _ (ve_key v + 1).
Definition ve_commission (v : ValExecution) : StorageVariable u256_be := var _ (ve_key v + 2).
Definition ve_keys (v : ValExecution) : StorageVariable KeysPacked := var _ (ve_key v + 3).
Definition ve_address_flags (v : ValExecution) : StorageVariable AddressFlags := var _ (ve_key v + 6).
Definition ve_unclaimed_rewards (v : ValExecution) : StorageVariable u256_be := var _ (ve_key v + 7).
Definition ve_auth_address (v : ValExecution) : prog Z :=
  af ← load (ve_address_flags v); Ret (af_auth_address af).
Definition ve_get_flags (v : ValExecution) : prog Z :=
  af ← load (ve_address_flags v); Ret (af_flags af).
Definition ve_set_flag (v : ValExecution) (flag : Z) : prog () :=
  af ← load (ve_address_flags v);
  store (ve_address_flags v) (mkAddressFlags (af_auth_address af) (Z.lor (af_flags af) flag)).
Definition ve_clear_flag (v : ValExecution) (flag : Z) : prog () :=
  af ← load (ve_address_flags v);
  store (ve_address_flags v) (mkAddressFlags (af_auth_address af) (Z.land (af_flags af) (Z.lxor U64_MAX flag))).
Definition ve_exists (v : ValExecution) : prog bool :=
  a ← ve_auth_address v; Ret (negb (a =? 0)).

(** *** ConsensusView and SnapshotView *)
Record ConsensusView := mkConsensusView { cv_key : Z }.
Definition vars_consensus_view (id : Z) : ConsensusView :=
  mkConsensusView (mapping_key NS_ConsensusStake (be_bytes 8 id)).
Definition vars_snapshot_view (id : Z) : ConsensusView :=
  mkConsensusView (mapping_key NS_SnapshotStake (be_bytes 8 id)).
Definition cv_stake (v : ConsensusView) : StorageVariable u256_be := var _ (cv_key v).
Definition cv_commission (v : ConsensusView) : StorageVariable u256_be := var _ (cv_key v + 1).
Definition vars_this_epoch_view (id : Z) : prog ConsensusView :=
  b ← load_checked vars_in_epoch_delay_period;
  Ret (match b with Some _ => vars_snapshot_view id | None => vars_consensus_view id end).
Definition vars_this_epoch_valset : prog (StorageArray u64_be) :=
  b ← load_checked vars_in_epoch_delay_period;
  Ret (match b with Some _ => valset_snapshot | None => valset_consensus end).

(** *** Delegator *)
Record Delegator := mkDelegator { del_key : Z }.
Definition vars_delegator (val_id address : Z) : Delegator :=
  mkDelegator (mapping_key NS_Delegator (be_bytes 8 val_id ++ be_bytes 20 address)).
Definition del_stake (d : Delegator) : StorageVariable u256_be := var _ (del_key d).
Definition del_accumulated_reward_per_token (d : Delegator) : StorageVariable u256_be := var _ (del_key d + 1).
Definition del_rewards (d : Delegator) : StorageVariable u256_be := var _ (del_key d + 2).
Definition del_delta_stake (d : Delegator) : StorageVariable u256_be := var _ (del_key d + 3).
Definition del_next_delta_stake (d : Delegator) : StorageVariable u256_be := var _ (del_key d + 4).
Definition del_epochs (d : Delegator) : StorageVariable Epochs := var _ (del_key d + 5).
Definition del_list_node (d : Delegator) : StorageVariable ListNode := var _ (del_key d + 6).
Definition del_get_delta_epoch (d : Delegator) : prog Z := e ← load (del_epochs d); Ret (delta_epoch e).
Definition del_get_next_delta_epoch (d : Delegator) : prog Z := e ← load (del_epochs d); Ret (next_delta_epoch e).
Definition del_get_next_epoch_stake (d : Delegator) : prog Z :=
  stake ← load (del_stake d);
  delta_stake ← load (del_delta_stake d);
  next_delta_stake ← load (del_next_delta_stake d);
  Ret (u256 (u256 (stake + delta_stake) + next_delta_stake)).
Definition del_set_delta_epoch (d : Delegator) (epoch : Z) : prog () :=
  e ← load (del_epochs d); store (del_epochs d) (mkEpochs epoch (next_delta_epoch e)).
Definition del_set_next_delta_epoch (d : Delegator) (epoch : Z) : prog () :=
  e ← load (del_epochs d); store (del_epochs d) (mkEpochs (delta_epoch e) epoch).
