(* ===== verification/StakingLayout.v ===== *)
(** * The storage layout of the staking contract

    Every record of the contract can be read back from its slots, and no two
    variables share a slot: the namespaces and the fixed widths of the keys
    keep them apart. *)
From S2P Require Import Prelude Traits Account VersionStack AccountState BlockState State Methods Rlp RlpFacts CheckedMath Ledger Abi ContractStorage StorageFacts StakingVars.

(** ** Records *)
Lemma be_round n x : 0 <= x < 256 ^ Z.of_nat n → be_val (be_bytes n x) = x.
Proof. intros Hx. rewrite be_val_be_bytes. by apply Z.mod_small. Qed.
Lemma field_0 w l1 l2 : length l1 = w → field 0 w (l1 ++ l2) = be_val l1.
Proof. intros Hl. unfold field. rewrite drop_0, take_app_length' by done. done. Qed.
Lemma field_app n w l1 l2 : (length l1 <= n)%nat → field n w (l1 ++ l2) = field (n - length l1) w l2.
Proof. intros Hl. unfold field. rewrite drop_app_ge by done. done. Qed.
Lemma field_end w l : length l = w → field 0 w l = be_val l.
Proof. intros Hl. unfold field. rewrite drop_0, take_ge by lia. done. Qed.
Lemma field_range n w l : bytes_ok l → 0 <= field n w l < 256 ^ Z.of_nat w.
Proof.
  intros Hl. unfold field. assert (Hok : bytes_ok (take w (drop n l))) by (by apply Forall_take, Forall_drop).
  pose proof (be_val_bound _ Hok) as Hb. split; [lia|]. eapply Z.lt_le_trans; [apply Hb|].
  apply Z.pow_le_mono_r; [lia|]. unfold len. rewrite length_take. lia.
Qed.

Definition fits (n : nat) (x : Z) : Prop := 0 <= x < 256 ^ Z.of_nat n.
Definition epochs_ok (e : Epochs) : Prop := fits 8 (delta_epoch e) ∧ fits 8 (next_delta_epoch e).
Definition node_ok (n : ListNode) : Prop :=
  fits 8 (inext n) ∧ fits 8 (iprev n) ∧ fits 20 (anext n) ∧ fits 20 (aprev n).
Definition flags_ok (f : AddressFlags) : Prop := fits 20 (af_auth_address f) ∧ fits 8 (af_flags f).
Definition request_ok (r : WithdrawalRequest) : Prop :=
  fits 32 (wr_amount r) ∧ fits 32 (wr_acc r) ∧ fits 8 (wr_epoch r).
Definition accumulator_ok (a : RefCountedAccumulator) : Prop := fits 32 (acc_value a) ∧ fits 32 (acc_refcount a).

Ltac packed_open := cbn [pk_size pk_bytes pk_parse packed_epochs packed_list_node packed_address_flags packed_withdrawal
  packed_accumulator packed_uint delta_epoch next_delta_epoch inext iprev anext aprev af_auth_address af_flags
  wr_amount wr_acc wr_epoch acc_value acc_refcount].
Ltac packed_length := intros; packed_open; rewrite ?length_app, ?be_bytes_length; reflexivity.
Ltac packed_bytes := intros; packed_open; repeat (apply Forall_app; split); apply be_bytes_ok.
Ltac packed_fields :=
  repeat first
    [ rewrite field_0 by apply be_bytes_length
    | rewrite field_end by apply be_bytes_length
    | rewrite field_app by (rewrite be_bytes_length; lia); rewrite be_bytes_length; cbn [Nat.sub] ];
  rewrite ?be_round by assumption.

#[global] Instance uint_laws w : PackedLaws (uint w).
Proof.
  refine {| pk_valid := fits w : uint w → Prop |}; packed_open.
  - intros. apply be_bytes_length.
  - intros. apply be_bytes_ok.
  - intros x Hx. by apply be_round.
Defined.
#[global] Instance bool_laws : PackedLaws bool.
Proof.
  refine {| pk_valid := λ _ : bool, True |}; simpl.
  - done.
  - intros []; repeat constructor; lia.
  - by intros [].
Defined.
#[global] Instance epochs_laws : PackedLaws Epochs.
Proof.
  refine {| pk_valid := epochs_ok |}; [packed_length|packed_bytes|].
  intros [d n] [Hd Hn]. packed_open. by packed_fields.
Defined.
#[global] Instance list_node_laws : PackedLaws ListNode.
Proof.
  refine {| pk_valid := node_ok |}; [packed_length|packed_bytes|].
  intros [i1 i2 a1 a2] (H1 & H2 & H3 & H4). packed_open. by packed_fields.
Defined.
#[global] Instance address_flags_laws : PackedLaws AddressFlags.
Proof.
  refine {| pk_valid := flags_ok |}; [packed_length|packed_bytes|].
  intros [d n] [Hd Hn]. packed_open. by packed_fields.
Defined.
#[global] Instance withdrawal_laws : PackedLaws WithdrawalRequest.
Proof.
  refine {| pk_valid := request_ok |}; [packed_length|packed_bytes|].
  intros [a c e] (H1 & H2 & H3). packed_open. by packed_fields.
Defined.
#[global] Instance accumulator_laws : PackedLaws RefCountedAccumulator.
Proof.
  refine {| pk_valid := accumulator_ok |}; [packed_length|packed_bytes|].
  intros [d n] [Hd Hn]. packed_open. by packed_fields.
Defined.

(** ** Keys as numbers *)
Lemma be_val_app l1 l2 : be_val (l1 ++ l2) = be_val l1 * 256 ^ len l2 + be_val l2.
Proof. unfold be_val at 1. rewrite fold_left_app. apply be_val_acc. Qed.
Lemma be_val_repeat_0 n : be_val (repeat 0 n) = 0.
Proof. induction n as [|n IH]; [done|]. cbn [repeat]. rewrite be_val_cons, IH. lia. Qed.
Lemma mapping_key_linear ns args :
  0 <= ns < 256 → (length args <= 31)%nat →
  mapping_key ns args = ns * 2 ^ 248 + be_val args * 256 ^ Z.of_nat (31 - length args).
Proof.
  intros Hns Hl. unfold mapping_key. rewrite !be_val_app, be_val_repeat_0, be_round by (cbn; lia).
  unfold len. rewrite length_app, repeat_length. replace (length args + (31 - length args))%nat with 31%nat by lia.
  change (256 ^ Z.of_nat 31) with (2 ^ 248). lia.
Qed.

(** ** The variables of the contract *)
Inductive Valset := SetExecution | SetConsensus | SetSnapshot.
Inductive ExecutionField := EStake | EAcc | ECommission | EKeys | EFlags | EUnclaimed.
Inductive ViewField := VStake | VCommission.
Inductive DelegatorField := DStake | DAcc | DRewards | DDelta | DNextDelta | DEpochs | DListNode.
Inductive Location :=
| XEpoch | XDelayPeriod | XLastValId | XProposerValId
| XLength (set : Valset)
| XElement (set : Valset) (index : Z)
| XValId (address : Z)
| XValIdBls (address : Z)
| XBucket (bucket : Z)
| XExecution (val_id : Z) (f : ExecutionField)
| XConsensus (val_id : Z) (f : ViewField)
| XSnapshot (val_id : Z) (f : ViewField)
| XDelegator (val_id address : Z) (f : DelegatorField)
| XWithdrawal (val_id address id : Z)
| XAccumulator (epoch val_id : Z).

Definition array_of (set : Valset) : StorageArray u64_be :=
  match set with
  | SetExecution => valset_execution | SetConsensus => valset_consensus | SetSnapshot => valset_snapshot
  end.
(** The first slot of a variable and how many it has. *)
Definition range_of {T} `{Packed T} (v : StorageVariable T) : Z * nat := (sv_offset v, sv_slots T).
Definition view_range (v : ConsensusView) (f : ViewField) : Z * nat :=
  match f with VStake => range_of (cv_stake v) | VCommission => range_of (cv_commission v) end.
Definition slots_of (x : Location) : Z * nat :=
  match x with
  | XEpoch => range_of vars_epoch
  | XDelayPeriod => range_of vars_in_epoch_delay_period
  | XLastValId => range_of vars_last_val_id
  | XProposerValId => range_of vars_proposer_val_id
  | XLength s => range_of (length_ (array_of s))
  | XElement s i => range_of (arr_get (array_of s) i)
  | XValId a => range_of (vars_val_id a)
  | XValIdBls a => range_of (vars_val_id_bls a)
  | XBucket b => range_of (vars_val_bitset_bucket (Z.shiftl b 8))
  | XExecution v f =>
      let e := vars_val_execution v in
      match f with
      | EStake => range_of (ve_stake e) | EAcc => range_of (ve_accumulated_reward_per_token e)
      | ECommission => range_of (ve_commission e) | EKeys => range_of (ve_keys e)
      | EFlags => range_of (ve_address_flags e) | EUnclaimed => range_of (ve_unclaimed_rewards e)
      end
  | XConsensus v f => view_range (vars_consensus_view v) f
  | XSnapshot v f => view_range (vars_snapshot_view v) f
  | XDelegator v a f =>
      let d := vars_delegator v a in
      match f with
      | DStake => range_of (del_stake d) | DAcc => range_of (del_accumulated_reward_per_token d)
      | DRewards => range_of (del_rewards d) | DDelta => range_of (del_delta_stake d)
      | DNextDelta => range_of (del_next_delta_stake d) | DEpochs => range_of (del_epochs d)
      | DListNode => range_of (del_list_node d)
      end
  | XWithdrawal v a i => range_of (vars_withdrawal_request v a i)
  | XAccumulator e v => range_of (vars_accumulated_reward_per_token e v)
  end.
(** Arguments within their types. *)
Definition location_ok (x : Location) : Prop :=
  match x with
  | XEpoch | XDelayPeriod | XLastValId | XProposerValId | XLength _ => True
  | XElement _ i => fits 8 i
  | XValId a | XValIdBls a => fits 20 a
  | XBucket b => 0 <= b < 2 ^ 56
  | XExecution v _ | XConsensus v _ | XSnapshot v _ => fits 8 v
  | XDelegator v a _ => fits 8 v ∧ fits 20 a
  | XWithdrawal v a i => fits 8 v ∧ fits 20 a ∧ fits 1 i
  | XAccumulator e v => fits 8 e ∧ fits 8 v
  end.

(** ** Objects: a namespace, a key and the slots from there *)
Record place := mkPlace { pl_ns : Z; pl_key : Z; pl_field : Z; pl_slots : nat }.
(** The distance between two keys of a namespace. *)
Definition stride (ns : Z) : Z :=
  if ns <=? 3 then 2 ^ 248
  else if ns <=? 5 then 256 ^ 23
  else if ns <=? 7 then 256 ^ 11
  else if ns <=? 9 then 256 ^ 23
  else if ns =? 10 then 256 ^ 15
  else if ns =? 11 then 256 ^ 3
  else 256 ^ 2.
Definition set_ns (s : Valset) : Z := match s with SetExecution => 1 | SetConsensus => 2 | SetSnapshot => 3 end.
Definition execution_field (f : ExecutionField) : Z * nat :=
  match f with
  | EStake => (0, 1%nat) | EAcc => (1, 1%nat) | ECommission => (2, 1%nat) | EKeys => (3, 3%nat) | EFlags => (6, 1%nat) | EUnclaimed => (7, 1%nat)
  end.
Definition view_field (f : ViewField) : Z * nat := match f with VStake => (0, 1%nat) | VCommission => (1, 1%nat) end.
Definition delegator_field (f : DelegatorField) : Z * nat :=
  match f with
  | DStake => (0, 1%nat) | DAcc => (1, 1%nat) | DRewards => (2, 1%nat) | DDelta => (3, 1%nat) | DNextDelta => (4, 1%nat) | DEpochs => (5, 1%nat)
  | DListNode => (6, 2%nat)
  end.
Definition place_of (x : Location) : place :=
  match x with
  | XEpoch => mkPlace 0 0 1 1
  | XDelayPeriod => mkPlace 0 0 2 1
  | XLastValId => mkPlace 0 0 3 1
  | XProposerValId => mkPlace 0 0 4 1
  | XLength s => mkPlace (set_ns s) 0 0 1
  | XElement s i => mkPlace (set_ns s) 0 (1 + i) 1
  | XValId a => mkPlace 6 a 0 1
  | XValIdBls a => mkPlace 7 a 0 1
  | XBucket b => mkPlace 8 b 0 1
  | XExecution v f => mkPlace 9 v (execution_field f).1 (execution_field f).2
  | XConsensus v f => mkPlace 4 v (view_field f).1 (view_field f).2
  | XSnapshot v f => mkPlace 5 v (view_field f).1 (view_field f).2
  | XDelegator v a f => mkPlace 11 (v * 256 ^ 20 + a) (delegator_field f).1 (delegator_field f).2
  | XWithdrawal v a i => mkPlace 12 ((v * 256 ^ 20 + a) * 256 + i) 0 3
  | XAccumulator e v => mkPlace 10 (e * 256 ^ 8 + v) 0 2
  end.
Definition place_ok (p : place) : Prop :=
  0 <= pl_ns p <= 12 ∧ 0 <= pl_key p ∧ (pl_key p + 1) * stride (pl_ns p) <= 2 ^ 248 ∧
  0 <= pl_field p ∧ pl_field p + Z.of_nat (pl_slots p) <= stride (pl_ns p).
Definition place_offset (p : place) : Z := pl_ns p * 2 ^ 248 + pl_key p * stride (pl_ns p) + pl_field p.

Lemma place_in_range p : place_ok p → in_range (place_offset p) (pl_slots p).
Proof.
  destruct p as [ns k f n]; unfold place_ok, in_range, place_offset; simpl pl_ns; simpl pl_key; simpl pl_field; simpl pl_slots.
  intros (Hns & Hk & Hs & Hf & Hn). assert (0 < 2 ^ 248) by reflexivity.
  replace (2 ^ 256) with (256 * 2 ^ 248) by reflexivity. generalize dependent (2 ^ 248). intros B Hs HB.
  generalize dependent (stride ns). intros s Hs Hn. nia.
Qed.
Lemma place_end p : place_ok p →
  place_offset p + Z.of_nat (pl_slots p) <= pl_ns p * 2 ^ 248 + (pl_key p + 1) * stride (pl_ns p).
Proof. intros (_ & _ & _ & _ & Hn). unfold place_offset. lia. Qed.
Lemma places_apart p q :
  place_ok p → place_ok q →
  pl_ns p ≠ pl_ns q ∨ pl_key p ≠ pl_key q ∨
    pl_field p + Z.of_nat (pl_slots p) <= pl_field q ∨ pl_field q + Z.of_nat (pl_slots q) <= pl_field p →
  apart (place_offset p) (pl_slots p) (place_offset q) (pl_slots q).
Proof.
  intros Hp Hq Hd. split; [by apply place_in_range|]. split; [by apply place_in_range|].
  pose proof (place_end p Hp) as Ep. pose proof (place_end q Hq) as Eq.
  destruct Hp as (_ & Hk1 & Hs1 & Hf1 & _), Hq as (_ & Hk2 & Hs2 & Hf2 & _). unfold place_offset in *.
  destruct (Z.lt_trichotomy (pl_ns p) (pl_ns q)) as [?|[E|?]]; [left; nia| |right; nia].
  rewrite E in *. generalize dependent (stride (pl_ns q)). intros s Ep Hs1 Eq Hs2.
  destruct (Z.lt_trichotomy (pl_key p) (pl_key q)) as [?|[E2|?]]; [left; nia| |right; nia].
  rewrite E2 in *. lia.
Qed.

(** *** The slots are at the place *)
Lemma var_offset {T} slot : 0 <= slot < 2 ^ 256 → sv_offset (var T slot) = slot.
Proof. intros Hs. simpl. unfold u256. by apply Z.mod_small. Qed.
Lemma key_1 ns w x : 0 <= ns < 256 → (w <= 31)%nat → fits w x →
  mapping_key ns (be_bytes w x) = ns * 2 ^ 248 + x * 256 ^ Z.of_nat (31 - w).
Proof. intros. rewrite mapping_key_linear; rewrite ?be_bytes_length; [|done..]. by rewrite be_round. Qed.
Lemma key_2 ns w1 w2 x y : 0 <= ns < 256 → (w1 + w2 <= 31)%nat → fits w1 x → fits w2 y →
  mapping_key ns (be_bytes w1 x ++ be_bytes w2 y) =
  ns * 2 ^ 248 + (x * 256 ^ Z.of_nat w2 + y) * 256 ^ Z.of_nat (31 - (w1 + w2)).
Proof.
  intros. rewrite mapping_key_linear; rewrite ?length_app, ?be_bytes_length; [|done..].
  rewrite be_val_app, !be_round by done. unfold len. by rewrite be_bytes_length.
Qed.
Lemma key_3 ns w1 w2 w3 x y z : 0 <= ns < 256 → (w1 + w2 + w3 <= 31)%nat → fits w1 x → fits w2 y → fits w3 z →
  mapping_key ns (be_bytes w1 x ++ be_bytes w2 y ++ be_bytes w3 z) =
  ns * 2 ^ 248 + ((x * 256 ^ Z.of_nat w2 + y) * 256 ^ Z.of_nat w3 + z) * 256 ^ Z.of_nat (31 - (w1 + (w2 + w3))).
Proof.
  intros. rewrite mapping_key_linear; rewrite ?length_app, ?be_bytes_length; [|lia..].
  rewrite !be_val_app, !be_round by done. unfold len. rewrite length_app, !be_bytes_length. f_equal. f_equal.
  rewrite Nat2Z.inj_add, Z.pow_add_r by lia. ring.
Qed.
Lemma shift_bucket b : 0 <= b → Z.shiftr (Z.shiftl b 8) 8 = b.
Proof. intros Hb. rewrite Z.shiftr_shiftl_l by lia. by rewrite Z.shiftl_0_r. Qed.

Ltac place_numbers :=
  unfold fits in *;
  repeat match goal with
  | H : context [256 ^ Z.of_nat ?n] |- _ => let x := eval vm_compute in (256 ^ Z.of_nat n) in change (256 ^ Z.of_nat n) with x in H
  | H : context [2 ^ 56] |- _ => let x := eval vm_compute in (2 ^ 56) in change (2 ^ 56) with x in H
  end;
  repeat match goal with
  | |- context [stride ?n] => let x := eval vm_compute in (stride n) in change (stride n) with x
  | |- context [256 ^ ?n] => let x := eval vm_compute in (256 ^ n) in change (256 ^ n) with x
  | |- context [2 ^ ?n] => let x := eval vm_compute in (2 ^ n) in change (2 ^ n) with x
  end.
Lemma place_of_ok x : location_ok x → place_ok (place_of x).
Proof.
  destruct x as [| | | |[]|[] ?| | | |? []|? []|? []|? ? []| |]; simpl location_ok; simpl place_of; intros Hx;
    unfold place_ok; cbn [pl_ns pl_key pl_field pl_slots set_ns]; place_numbers; lia.
Qed.

(** A variable of a mapping is at its key. *)
Lemma range_at {T} `{Packed T} slot n p :
  slot = place_offset p → place_ok p → sv_slots T = n → n = pl_slots p →
  range_of (var T slot) = (place_offset p, pl_slots p).
Proof.
  intros -> Hp Hn ->. pose proof (place_in_range p Hp) as [H1 H2]. unfold range_of. rewrite Hn.
  assert (Hs : (0 < pl_slots p)%nat ∨ pl_slots p = 0%nat) by lia.
  unfold var, sv_offset, u256. f_equal. apply Z.mod_small.
  assert (0 <= pl_key p ∧ (pl_key p + 1) * stride (pl_ns p) <= 2 ^ 248 ∧ pl_ns p <= 12 ∧ pl_field p <= stride (pl_ns p))
    as (A1 & A2 & A3 & A4) by (destruct Hp; lia).
  split; [done|]. unfold place_offset. replace (2 ^ 256) with (256 * 2 ^ 248) by reflexivity.
  assert (0 < 2 ^ 248) by reflexivity. generalize dependent (2 ^ 248). intros B A2 HB. nia.
Qed.
Ltac key_offset :=
  unfold place_offset; cbn [place_of pl_ns pl_key pl_field set_ns execution_field view_field delegator_field fst snd];
  cbv [NS_ConsensusStake NS_SnapshotStake NS_ValIdSecp NS_ValIdBls NS_ValBitset NS_ValExecution NS_Accumulator
       NS_Delegator NS_WithdrawalRequest];
  place_numbers; lia.
Ltac at_key Hp := eapply range_at; [|exact Hp|reflexivity|reflexivity].

Lemma slots_place x : location_ok x → slots_of x = (place_offset (place_of x), pl_slots (place_of x)).
Proof.
  intros Hx. pose proof (place_of_ok x Hx) as Hp.
  destruct x as [| | | |s|s i|a|a|b|v f|v f|v f|v a f|v a i|e v]; simpl location_ok in Hx.
  1-4: reflexivity.
  - by destruct s.
  - unfold slots_of, range_of, arr_get. cbn [sv_offset]. f_equal.
    change (Z.of_nat (sv_slots (uint 8))) with 1. rewrite Z.mul_1_r. unfold u64, u256. unfold fits in Hx.
    rewrite (Z.mod_small i) by (revert Hx; cbn; lia).
    destruct s; cbn [array_of]; match goal with |- context [arr_slot ?x] => let y := eval vm_compute in (arr_slot x) in change (arr_slot x) with y end.
    all: change (256 ^ Z.of_nat 8) with (2 ^ 64) in Hx; rewrite (Z.mod_small (_ + 1)) by (split; lia);
         rewrite Z.mod_small by (split; lia); key_offset.
  - cbn [slots_of]. unfold vars_val_id. at_key Hp. rewrite key_1 by (done || lia). key_offset.
  - cbn [slots_of]. unfold vars_val_id_bls. at_key Hp. rewrite key_1 by (done || lia). key_offset.
  - cbn [slots_of]. unfold vars_val_bitset_bucket. at_key Hp. rewrite shift_bucket by lia.
    rewrite key_1; [key_offset|done|lia|]. unfold fits. revert Hx. cbn. lia.
  - cbn [slots_of]. destruct f; unfold vars_val_execution; at_key Hp; cbn [ve_key]; rewrite key_1 by (done || lia); key_offset.
  - cbn [slots_of]. destruct f; unfold vars_consensus_view; at_key Hp; cbn [cv_key]; rewrite key_1 by (done || lia); key_offset.
  - cbn [slots_of]. destruct f; unfold vars_snapshot_view; at_key Hp; cbn [cv_key]; rewrite key_1 by (done || lia); key_offset.
  - destruct Hx. cbn [slots_of]. destruct f; unfold vars_delegator; at_key Hp; cbn [del_key];
      rewrite key_2 by (done || lia); key_offset.
  - destruct Hx as (? & ? & ?). cbn [slots_of]. unfold vars_withdrawal_request. at_key Hp.
    rewrite key_3 by (done || lia). key_offset.
  - destruct Hx. cbn [slots_of]. unfold vars_accumulated_reward_per_token. at_key Hp.
    rewrite key_2 by (done || lia). key_offset.
Qed.

(** ** No two variables of the contract have a slot in common *)
Definition disjoint_ranges (r s : Z * nat) : Prop := r.1 + Z.of_nat r.2 <= s.1 ∨ s.1 + Z.of_nat s.2 <= r.1.
Lemma execution_fields f g : f ≠ g → disjoint_ranges (execution_field f) (execution_field g).
Proof. unfold disjoint_ranges. destruct f, g; simpl; done || lia. Qed.
Lemma view_fields f g : f ≠ g → disjoint_ranges (view_field f) (view_field g).
Proof. unfold disjoint_ranges. destruct f, g; simpl; done || lia. Qed.
Lemma delegator_fields f g : f ≠ g → disjoint_ranges (delegator_field f) (delegator_field g).
Proof. unfold disjoint_ranges. destruct f, g; simpl; done || lia. Qed.
Lemma set_ns_eq s t : set_ns s = set_ns t → s = t.
Proof. by destruct s, t. Qed.
Lemma set_ns_small s : 1 <= set_ns s <= 3.
Proof. destruct s; simpl; lia. Qed.
#[global] Instance valset_eq_dec : EqDecision Valset.
Proof. solve_decision. Defined.
#[global] Instance execution_field_eq_dec : EqDecision ExecutionField.
Proof. solve_decision. Defined.
#[global] Instance view_field_eq_dec : EqDecision ViewField.
Proof. solve_decision. Defined.
#[global] Instance delegator_field_eq_dec : EqDecision DelegatorField.
Proof. solve_decision. Defined.

Lemma location_places x y : x ≠ y → location_ok x → location_ok y →
  let p := place_of x in let q := place_of y in
  pl_ns p ≠ pl_ns q ∨ pl_key p ≠ pl_key q ∨ disjoint_ranges (pl_field p, pl_slots p) (pl_field q, pl_slots q).
Proof.
  intros Hne Hx Hy. cbv zeta.
  destruct x as [| | | |s|s i|a|a|b|v f|v f|v f|v a f|v a i|e v], y as [| | | |t|t j|a'|a'|b'|v' g|v' g|v' g|v' a' g|v' a' j|e' v'];
    try done; simpl location_ok in Hx, Hy; cbn [place_of pl_ns pl_key pl_field pl_slots];
    try (left; lia); try (left; pose proof (set_ns_small s); lia); try (left; pose proof (set_ns_small t); lia).
  1-12: right; right; unfold disjoint_ranges; simpl; lia.
  - left. intros ?%set_ns_eq. congruence.
  - right; right. left. simpl. unfold fits in *. lia.
  - right; right. right. simpl. unfold fits in *. lia.
  - destruct (decide (s = t)) as [<-|]; [|left; intros ?%set_ns_eq; congruence]. right; right.
    assert (i ≠ j) by congruence. unfold disjoint_ranges. simpl. lia.
  - right; left. congruence.
  - right; left. congruence.
  - right; left. congruence.
  - destruct (decide (v = v')) as [<-|]; [|tauto]. right; right. apply execution_fields. congruence.
  - destruct (decide (v = v')) as [<-|]; [|tauto]. right; right. apply view_fields. congruence.
  - destruct (decide (v = v')) as [<-|]; [|tauto]. right; right. apply view_fields. congruence.
  - destruct Hx, Hy. place_numbers. destruct (decide (v = v' ∧ a = a')) as [[<- <-]|]; [|right; left; lia].
    right; right. apply delegator_fields. congruence.
  - destruct Hx as (? & ? & ?), Hy as (? & ? & ?). place_numbers. right; left. intros E. apply Hne.
    assert (v = v' ∧ a = a' ∧ i = j) as (-> & -> & ->) by lia. done.
  - destruct Hx, Hy. place_numbers. right; left. intros E. apply Hne.
    assert (e = e' ∧ v = v') as (-> & ->) by lia. done.
Qed.
Lemma locations_apart x y : x ≠ y → location_ok x → location_ok y →
  apart (slots_of x).1 (slots_of x).2 (slots_of y).1 (slots_of y).2.
Proof.
  intros Hne Hx Hy. rewrite !slots_place by done. apply places_apart; [by apply place_of_ok..|].
  pose proof (location_places x y Hne Hx Hy) as Hd. exact Hd.
Qed.
Lemma location_in_range x : location_ok x → in_range (slots_of x).1 (slots_of x).2.
Proof. intros Hx. rewrite slots_place by done. by apply place_in_range, place_of_ok. Qed.

(** C24: the storage layout of the staking contract has no collision.  Two
    variables of it (an epoch counter, an element of a validator set, a field
    of a validator, of a delegation, a withdrawal request, an accumulator,
    ...) that differ in name, key or field and whose arguments are within
    their types occupy disjoint ranges of slots, and no range wraps around. *)
Theorem staking_layout_injective x y :
  x ≠ y → location_ok x → location_ok y →
  let '(o, n) := slots_of x in let '(o', n') := slots_of y in
  0 <= o ∧ o + Z.of_nat n <= 2 ^ 256 ∧ 0 <= o' ∧ o' + Z.of_nat n' <= 2 ^ 256 ∧
  ∀ i j, 0 <= i < Z.of_nat n → 0 <= j < Z.of_nat n' → o + i ≠ o' + j.
Proof.
  intros Hne Hx Hy. destruct (locations_apart x y Hne Hx Hy) as ([? ?] & [? ?] & Hd).
  destruct (slots_of x) as [o n], (slots_of y) as [o' n']. simpl in *. repeat split; try done. intros. lia.
Qed.
Lemma staking_layout_injective_witness :
  let '(o, n) := slots_of (XDelegator 1 5 DListNode) in let '(o', n') := slots_of (XWithdrawal 1 5 0) in
  0 <= o ∧ o + Z.of_nat n <= 2 ^ 256 ∧ 0 <= o' ∧ o' + Z.of_nat n' <= 2 ^ 256 ∧
  ∀ i j, 0 <= i < Z.of_nat n → 0 <= j < Z.of_nat n' → o + i ≠ o' + j.
Proof. apply (staking_layout_injective (XDelegator 1 5 DListNode) (XWithdrawal 1 5 0)); [done|by split..]. Defined.

(** *** Where a variable is *)
Definition located {T} `{Packed T} (v : StorageVariable T) (x : Location) : Prop :=
  location_ok x ∧ range_of v = slots_of x.
Lemma located_ok {T} `{Packed T} (v : StorageVariable T) x : located v x → sv_ok v.
Proof. intros [Hx E]. unfold sv_ok. pose proof (location_in_range x Hx) as Hr. by rewrite <- E in Hr. Qed.
Lemma located_apart {T U} `{Packed T} `{Packed U} (v : StorageVariable T) (u : StorageVariable U) x y :
  located v x → located u y → x ≠ y → sv_apart v u.
Proof.
  intros [Hx Ex] [Hy Ey] Hne. unfold sv_apart. pose proof (locations_apart x y Hne Hx Hy) as Ha.
  by rewrite <- Ex, <- Ey in Ha.
Qed.
