(* ===== verification/Staking.v ===== *)
(** * The staking contract: operations

    src/category/execution/monad/staking/staking_contract.cpp.  Every
    operation is a program over the methods of [State]; a [Result] it returns
    is a sum, and [x ←? m; k] is BOOST_OUTCOME_TRY.  Signature schemes and the
    hash function are parameters. *)
From S2P Require Import Prelude Traits Account VersionStack AccountState BlockState State Methods Rlp RlpFacts CheckedMath Abi ContractStorage StakingVars.
From S2P Require Import Words Transaction ReserveBalance ValidateTransaction Precompiles.

Inductive Failure :=
| FStaking (e : StakingError)
| FAbi (e : AbiDecodeError)
| FMath (e : MathError).
Definition failure_message (e : Failure) : string :=
  match e with
  | FStaking e => staking_error_message e
  | FAbi e => abi_error_message e
  | FMath e => math_error_message e
  end.

(** ** Results *)
Abbreviation res A := (prog (Failure + A)%type).
Definition rok {A} (a : A) : res A := Ret (inr a).
Definition rfail {A} (e : StakingError) : res A := Ret (inl (FStaking e)).
Definition rbind {A B} (m : res A) (k : A → res B) : res B :=
  mbind (M:=prog) (λ r, match r with inl e => Ret (inl e) | inr a => k a end) m.
Notation "x ←? m ; k" := (rbind m (λ x, k)) (at level 20, m at level 100, k at level 200, right associativity).
Notation "' x ←? m ; k" := (rbind m (λ x, k)) (at level 20, x pattern, m at level 100, k at level 200, only parsing).
Notation "m ;?; k" := (rbind m (λ _, k)) (at level 100, k at level 200, right associativity).
Definition rmath {A} (r : MathError + A) : res A :=
  Ret (match r with inl e => inl (FMath e) | inr a => inr a end).
Definition rabi {A} (r : AbiDecodeError + A) : res A :=
  Ret (match r with inl e => inl (FAbi e) | inr a => inr a end).
(** [if (!ok) return e;] *)
Definition rcheck (ok : bool) (e : StakingError) : res () := if ok then rok () else rfail e.

(** ** Arithmetic *)
Definition checked_mul_div (x y z : Z) : MathError + Z :=
  match checked_mul x y with inl e => inl e | inr p => checked_div p z end.
Definition calculate_rewards (stake current_acc last_checked_acc : Z) : MathError + Z :=
  match checked_sub current_acc last_checked_acc with
  | inl e => inl e
  | inr delta => checked_mul_div delta stake UNIT_BIAS
  end.
Definition split_commission (reward commission_rate : Z) : MathError + (Z * Z) :=
  match checked_mul_div reward commission_rate MON with
  | inl e => inl e
  | inr commission =>
      match checked_sub reward commission with
      | inl e => inl e
      | inr del_reward => inr (commission, del_reward)
      end
  end.
Definition not_payable (value : Z) : res () := rcheck (value =? 0) ValueNonZero.

(** ** Events *)
Definition emit_log (log : Log) : prog () := do_ (m_store_log log).
Definition emit_validator_rewarded_event (val_id from amount : Z) : prog () :=
  epoch ← load vars_epoch;
  emit_log (build_event STAKING_CA 0x3a420a01486b6b28d6ae89c51f5c3bde3e0e74eecbb646a0c481ccba3aae3754
              [val_id; from] [abi_encode_uint 32 amount; abi_encode_uint 8 epoch]).
Definition emit_validator_created_event (val_id auth_delegator commission : Z) : prog () :=
  emit_log (build_event STAKING_CA 0x6f8045cd38e512b8f12f6f02947c632e5f25af03aad132890ecf50015d97c1b2
              [val_id; auth_delegator] [abi_encode_uint 32 commission]).
Definition emit_validator_status_changed_event (val_id flags : Z) : prog () :=
  emit_log (build_event STAKING_CA 0xc95966754e882e03faffaf164883d98986dda088d09471a35f9e55363daf0c53
              [val_id] [abi_encode_uint 8 flags]).
Definition emit_delegation_event (val_id delegator amount active_epoch : Z) : prog () :=
  emit_log (build_event STAKING_CA 0xe4d4df1e1827dd28252fd5c3cd7ebccd3da6e0aa31f74c828f3c8542af49d840
              [val_id; delegator] [abi_encode_uint 32 amount; abi_encode_uint 8 active_epoch]).
Definition emit_undelegate_event (val_id delegator withdrawal_id amount activation_epoch : Z) : prog () :=
  emit_log (build_event STAKING_CA 0x3e53c8b91747e1b72a44894db10f2a45fa632b161fdcdd3a17bd6be5482bac62
              [val_id; delegator]
              [abi_encode_uint 1 withdrawal_id; abi_encode_uint 32 amount; abi_encode_uint 8 activation_epoch]).
Definition emit_withdraw_event (val_id delegator withdrawal_id amount : Z) : prog () :=
  withdraw_epoch ← load vars_epoch;
  emit_log (build_event STAKING_CA 0x63030e4238e1146c63f38f4ac81b2b23c8be28882e68b03f0887e50d0e9bb18f
              [val_id; delegator]
              [abi_encode_uint 1 withdrawal_id; abi_encode_uint 32 amount; abi_encode_uint 8 withdraw_epoch]).
Definition emit_claim_rewards_event (val_id delegator amount : Z) : prog () :=
  epoch ← load vars_epoch;
  emit_log (build_event STAKING_CA 0xcb607e6b63c89c95f6ae24ece9fe0e38a7971aa5ed956254f1df47490921727b
              [val_id; delegator] [abi_encode_uint 32 amount; abi_encode_uint 8 epoch]).
Definition emit_commission_changed_event (val_id old_commission new_commission : Z) : prog () :=
  emit_log (build_event STAKING_CA 0xd1698d3454c5b5384b70aaae33f1704af7c7e055f0c75503ba3146dc28995920
              [val_id] [abi_encode_uint 32 old_commission; abi_encode_uint 32 new_commission]).
Definition emit_epoch_changed_event (old_epoch new_epoch : Z) : prog () :=
  emit_log (build_event STAKING_CA 0x4fae4dbe0ed659e8ce6637e3c273cd8e4d3bf029b9379a9e8b3f3f27dbef809b
              [] [abi_encode_uint 8 old_epoch; abi_encode_uint 8 new_epoch]).

(** ** Helpers *)
Definition mint_tokens (amount : Z) : prog () := do_ (m_add_to_balance STAKING_CA amount).
Definition send_tokens (to amount : Z) : prog () :=
  do_ (m_add_to_balance to amount);; do_ (m_subtract_from_balance STAKING_CA amount).
Definition get_activation_epoch : prog Z :=
  epoch ← load vars_epoch;
  b ← load_checked vars_in_epoch_delay_period;
  Ret (match b with Some _ => u64 (epoch + 2) | None => u64 (epoch + 1) end).
Definition is_epoch_active (active_epoch : Z) : prog bool :=
  current_epoch ← load vars_epoch;
  Ret (negb (active_epoch =? 0) && (active_epoch <=? current_epoch)).

Definition increment_accumulator_refcount (val_id : Z) : prog () :=
  epoch ← get_activation_epoch;
  let acc_storage := vars_accumulated_reward_per_token epoch val_id in
  acc ← load acc_storage;
  value ← load (ve_accumulated_reward_per_token (vars_val_execution val_id));
  store acc_storage (mkAccumulator value (u256 (acc_refcount acc + 1))).
Definition decrement_accumulator_refcount (epoch val_id : Z) : prog Z :=
  let acc_storage := vars_accumulated_reward_per_token epoch val_id in
  acc ← load acc_storage;
  if acc_refcount acc =? 0 then Ret 0
  else
    let new_refcount := acc_refcount acc - 1 in
    (if new_refcount =? 0 then clear acc_storage
     else store acc_storage (mkAccumulator (acc_value acc) new_refcount));;
    Ret (acc_value acc).

(** Membership in the execution set: one bit per validator. *)
Definition add_to_valset (val_id : Z) : prog bool :=
  set ← load (vars_val_bitset_bucket val_id);
  let mask := u256 (Z.shiftl 1 (Z.land val_id 0xFF)) in
  let inserted := Z.land set mask =? 0 in
  store (vars_val_bitset_bucket val_id) (Z.lor set mask);;
  Ret inserted.
Definition remove_from_valset (val_id : Z) : prog () :=
  set ← load (vars_val_bitset_bucket val_id);
  let mask := Z.lxor U256_MAX (u256 (Z.shiftl 1 (Z.land val_id 0xFF))) in
  store (vars_val_bitset_bucket val_id) (Z.land set mask).

Definition can_promote_delta (del : Delegator) (epoch : Z) : prog bool :=
  d ← del_get_delta_epoch del;
  if negb (d =? 0) then Ret false
  else
    n ← del_get_next_delta_epoch del;
    Ret (n <=? u64 (epoch + 1)).
Definition promote_delta (del : Delegator) : prog () :=
  next ← load (del_next_delta_stake del);
  store (del_delta_stake del) next;;
  clear (del_next_delta_stake del);;
  n ← del_get_next_delta_epoch del;
  del_set_delta_epoch del n;;
  del_set_next_delta_epoch del 0.

Definition apply_compound (val_id : Z) (del : Delegator) : res Z :=
  delta_epoch ← del_get_delta_epoch del;
  epoch_acc ← decrement_accumulator_refcount delta_epoch val_id;
  stake ← load (del_stake del);
  delta_stake ← load (del_delta_stake del);
  acc ← load (del_accumulated_reward_per_token del);
  rewards ←? rmath (calculate_rewards stake epoch_acc acc);
  store (del_accumulated_reward_per_token del) epoch_acc;;
  compounded_stake ←? rmath (checked_add stake delta_stake);
  store (del_stake del) compounded_stake;;
  promote_delta del;;
  rok rewards.

Definition reward_invariant (val : ValExecution) (rewards : Z) : res () :=
  u ← load (ve_unclaimed_rewards val);
  rcheck (u >=? rewards) SolvencyError;?;
  old_unclaimed ← load (ve_unclaimed_rewards val);
  unclaimed_rewards ←? rmath (checked_sub old_unclaimed rewards);
  store (ve_unclaimed_rewards val) unclaimed_rewards;;
  rok ().

(** [del.rewards().store(checked_add(del.rewards().load(), rewards))] *)
Definition credit_rewards (del : Delegator) (rewards : Z) : res () :=
  r ← load (del_rewards del);
  new_rewards ←? rmath (checked_add r rewards);
  store (del_rewards del) new_rewards;;
  rok ().
(** One of the two [if (can_compound)] blocks. *)
Definition compound_once (val_id : Z) (del : Delegator) : res () :=
  rewards ←? apply_compound val_id del;
  reward_invariant (vars_val_execution val_id) rewards;?;
  credit_rewards del rewards.

Definition pull_delegator_up_to_date (val_id : Z) (del : Delegator) : res () :=
  epoch ← load vars_epoch;
  promote ← can_promote_delta del epoch;
  (if (promote : bool) then promote_delta del else Ret ());;
  let val := vars_val_execution val_id in
  delta_epoch ← del_get_delta_epoch del;
  can_compound ← is_epoch_active delta_epoch;
  next_delta_epoch ← del_get_next_delta_epoch del;
  can_compound_boundary ← is_epoch_active next_delta_epoch;
  (if (can_compound_boundary : bool) then
     passert_throw can_compound "staking compound logic error";;
     compound_once val_id del
   else rok ());?;
  (if (can_compound : bool) then compound_once val_id del else rok ());?;
  stake ← load (del_stake del);
  if stake =? 0 then rok () else
  stake ← load (del_stake del);
  val_acc ← load (ve_accumulated_reward_per_token val);
  del_acc ← load (del_accumulated_reward_per_token del);
  rewards ←? rmath (calculate_rewards stake val_acc del_acc);
  reward_invariant val rewards;?;
  credit_rewards del rewards;?;
  val_acc ← load (ve_accumulated_reward_per_token val);
  store (del_accumulated_reward_per_token del) val_acc;;
  rok ().

Definition apply_reward (val_id from new_rewards active_stake : Z) : res () :=
  reward_acc ←? rmath (checked_mul_div new_rewards UNIT_BIAS active_stake);
  let val := vars_val_execution val_id in
  acc ← load (ve_accumulated_reward_per_token val);
  acc ←? rmath (checked_add acc reward_acc);
  store (ve_accumulated_reward_per_token val) acc;;
  unclaimed ← load (ve_unclaimed_rewards val);
  unclaimed ←? rmath (checked_add unclaimed new_rewards);
  store (ve_unclaimed_rewards val) unclaimed;;
  emit_validator_rewarded_event val_id from new_rewards;;
  rok ().

(** ** The linked lists

    A node of two lists: the validators of a delegator ([inext], [iprev])
    and the delegators of a validator ([anext], [aprev]). *)
Record LinkedListTrait := mkLinkedListTrait {
  sentinel : Z;
  prev : ListNode → Z;
  next : ListNode → Z;
  set_prev : Z → ListNode → ListNode;
  set_next : Z → ListNode → ListNode;
  node_at : Z → Z → StorageVariable ListNode
}.
(** All validators of a delegator: the key is an address, a pointer a
    validator. *)
Definition validators_of : LinkedListTrait :=
  mkLinkedListTrait U64_MAX iprev inext
    (λ p n, mkListNode (inext n) p (anext n) (aprev n))
    (λ p n, mkListNode p (iprev n) (anext n) (aprev n))
    (λ k p, del_list_node (vars_delegator p k)).
(** All delegators of a validator. *)
Definition delegators_of : LinkedListTrait :=
  mkLinkedListTrait (2 ^ 160 - 1) aprev anext
    (λ p n, mkListNode (inext n) (iprev n) (anext n) p)
    (λ p n, mkListNode (inext n) (iprev n) p (aprev n))
    (λ k p, del_list_node (vars_delegator k p)).

Definition linked_list_insert (Trait : LinkedListTrait) (key this_ptr : Z) : res () :=
  rcheck (negb ((this_ptr =? 0) || (this_ptr =? sentinel Trait))) InvalidInput;?;
  this_node ← load (node_at Trait key this_ptr);
  if negb (prev Trait this_node =? 0) then rok () else
  sentinel_node ← load (node_at Trait key (sentinel Trait));
  let next_ptr := next Trait sentinel_node in
  (if negb (next_ptr =? 0) then
     next_node ← load (node_at Trait key next_ptr);
     store (node_at Trait key next_ptr) (set_prev Trait this_ptr next_node)
   else Ret ());;
  store (node_at Trait key this_ptr) (set_next Trait next_ptr (set_prev Trait (sentinel Trait) this_node));;
  store (node_at Trait key (sentinel Trait)) (set_next Trait this_ptr sentinel_node);;
  rok ().

Definition linked_list_remove (Trait : LinkedListTrait) (key this_ptr : Z) : prog () :=
  passert_throw (negb (this_ptr =? 0) && negb (this_ptr =? sentinel Trait)) "invalid list entry";;
  this_node ← load (node_at Trait key this_ptr);
  if prev Trait this_node =? 0 then Ret () else
  let prev_ptr := prev Trait this_node in
  let next_ptr := next Trait this_node in
  prev_node ← load (node_at Trait key prev_ptr);
  store (node_at Trait key prev_ptr) (set_next Trait next_ptr prev_node);;
  (if negb (next_ptr =? 0) then
     next_node ← load (node_at Trait key next_ptr);
     store (node_at Trait key next_ptr) (set_prev Trait prev_ptr next_node)
   else Ret ());;
  store (node_at Trait key this_ptr) (set_next Trait 0 (set_prev Trait 0 this_node)).

(** [while (ptr != empty && nodes_read < limit)] *)
Fixpoint traverse_loop (Trait : LinkedListTrait) (key ptr : Z) (n : nat) : prog (Z * list Z) :=
  match n with
  | O => Ret (ptr, [])
  | S n =>
      if ptr =? 0 then Ret (ptr, [])
      else
        node ← load (node_at Trait key ptr);
        r ← traverse_loop Trait key (next Trait node) n;
        Ret (r.1, ptr :: r.2)
  end.
Definition linked_list_traverse (Trait : LinkedListTrait) (key start_ptr limit : Z) : prog (bool * Z * list Z) :=
  ptr ←
    (if start_ptr =? 0 then
       sentinel_node ← load (node_at Trait key (sentinel Trait)); Ret (next Trait sentinel_node)
     else Ret start_ptr);
  node ← load (node_at Trait key ptr);
  if prev Trait node =? 0 then Ret (true, ptr, [])
  else
    r ← traverse_loop Trait key ptr (Z.to_nat limit);
    Ret (r.1 =? 0, r.1, r.2).

(** ** Delegation *)
Section operations.
Context (traits : Traits).

(** [need_future_accumulator], after the new stake has been recorded. *)
Definition add_delta (del : Delegator) (stake active_epoch : Z) : res bool :=
  b ← load vars_in_epoch_delay_period;
  if (b : bool) then
    e ← del_get_next_delta_epoch del;
    n ← load (del_next_delta_stake del);
    delta ←? rmath (checked_add n stake);
    store (del_next_delta_stake del) delta;;
    del_set_next_delta_epoch del active_epoch;;
    rok (e =? 0)
  else
    e ← del_get_delta_epoch del;
    n ← load (del_delta_stake del);
    delta ←? rmath (checked_add n stake);
    store (del_delta_stake del) delta;;
    del_set_delta_epoch del active_epoch;;
    rok (e =? 0).

(** The flags of the validator and its membership in the execution set. *)
Definition activate_validator (val_id new_val_stake address : Z) : prog () :=
  let val := vars_val_execution val_id in
  oldflags ← ve_get_flags val;
  (if new_val_stake >=? active_validator_stake traits then ve_clear_flag val ValidatorFlagsStakeTooLow
   else Ret ());;
  auth ← ve_auth_address val;
  (if auth =? address then
     s ← del_get_next_epoch_stake (vars_delegator val_id address);
     if s >=? min_auth_address_stake then ve_clear_flag val ValidatorFlagWithdrawn else Ret ()
   else Ret ());;
  flags ← ve_get_flags val;
  (if negb (flags =? oldflags) then
     f ← ve_get_flags val; emit_validator_status_changed_event val_id f
   else Ret ());;
  flags ← ve_get_flags val;
  if flags =? ValidatorFlagsOk then
    inserted ← add_to_valset val_id;
    if (inserted : bool) then arr_push valset_execution val_id else Ret ()
  else Ret ().

Definition delegate (val_id stake address : Z) : res () :=
  let val := vars_val_execution val_id in
  exists_ ← ve_exists val;
  rcheck exists_ UnknownValidator;?;
  rcheck (stake >=? dust_threshold) DelegationTooSmall;?;
  let del := vars_delegator val_id address in
  pull_delegator_up_to_date val_id del;?;
  active_epoch ← get_activation_epoch;
  need_future_accumulator ←? add_delta del stake active_epoch;
  (if (need_future_accumulator : bool) then increment_accumulator_refcount val_id else Ret ());;
  emit_delegation_event val_id address stake active_epoch;;
  val_stake ← load (ve_stake val);
  new_val_stake ←? rmath (checked_add val_stake stake);
  store (ve_stake val) new_val_stake;;
  activate_validator val_id new_val_stake address;;
  linked_list_insert delegators_of val_id address;?;
  linked_list_insert validators_of address val_id.

(** The flags after a withdrawal of stake. *)
Definition deactivate_validator (val_id val_stake sender : Z) : prog () :=
  let val := vars_val_execution val_id in
  oldflags ← ve_get_flags val;
  auth ← ve_auth_address val;
  (if sender =? auth then
     s ← del_get_next_epoch_stake (vars_delegator val_id sender);
     if s <? min_auth_address_stake then ve_set_flag val ValidatorFlagWithdrawn else Ret ()
   else Ret ());;
  (if val_stake <? active_validator_stake traits then ve_set_flag val ValidatorFlagsStakeTooLow else Ret ());;
  flags ← ve_get_flags val;
  if negb (flags =? oldflags) then
    f ← ve_get_flags val; emit_validator_status_changed_event val_id f
  else Ret ().

(** From the stakes of validator and delegator and the amount asked for:
    the stakes that remain and the amount withdrawn. *)
Definition split_stake (val_stake del_stake amount : Z) : MathError + (Z * Z * Z) :=
  match checked_sub val_stake amount, checked_sub del_stake amount with
  | inl e, _ | _, inl e => inl e
  | inr val_stake, inr del_stake =>
      if del_stake <? dust_threshold then
        match checked_add amount del_stake, checked_sub val_stake del_stake with
        | inl e, _ | _, inl e => inl e
        | inr amount, inr val_stake => inr (val_stake, 0, amount)
        end
      else inr (val_stake, del_stake, amount)
  end.

Definition undelegate (val_id amount withdrawal_id sender : Z) : res () :=
  let val := vars_val_execution val_id in
  let request := vars_withdrawal_request val_id sender withdrawal_id in
  exists_ ← ve_exists val;
  rcheck exists_ UnknownValidator;?;
  withdrawal_request ← load_checked request;
  rcheck (negb (bool_decide (is_Some withdrawal_request))) WithdrawalIdExists;?;
  let del := vars_delegator val_id sender in
  pull_delegator_up_to_date val_id del;?;
  val_stake ← load (ve_stake val);
  stake ← load (del_stake del);
  rcheck (stake >=? amount) InsufficientStake;?;
  s ←? rmath (split_stake val_stake stake amount);
  let '(val_stake, stake, amount) := s in
  store (ve_stake val) val_stake;;
  store (del_stake del) stake;;
  withdrawal_epoch ← get_activation_epoch;
  deactivate_validator val_id val_stake sender;;
  emit_undelegate_event val_id sender withdrawal_id amount withdrawal_epoch;;
  acc ← load (del_accumulated_reward_per_token del);
  store request (mkWithdrawalRequest amount acc withdrawal_epoch);;
  increment_accumulator_refcount val_id;;
  stake ← load (del_stake del);
  (if stake =? 0 then clear (del_accumulated_reward_per_token del) else Ret ());;
  s ← del_get_next_epoch_stake del;
  (if s =? 0 then
     linked_list_remove delegators_of val_id sender;;
     linked_list_remove validators_of sender val_id
   else Ret ());;
  rok ().

(** ** Entry points for users *)
Definition decode (width : nat) (input : list Z) : res (Z * list Z) := rabi (abi_decode_fixed width input).
Definition input_empty (input : list Z) : res () := rcheck (bool_decide (input = [])) InvalidInput.

Definition precompile_delegate (input : list Z) (msg_sender msg_value : Z) : res (list Z) :=
  '(val_id, input) ←? decode 8 input;
  input_empty input;?;
  (if negb (msg_value =? 0) then delegate val_id msg_value msg_sender else rok ());?;
  rok (abi_encode_bool true).

Definition precompile_undelegate (input : list Z) (msg_sender msg_value : Z) : res (list Z) :=
  not_payable msg_value;?;
  '(val_id, input) ←? decode 8 input;
  '(amount, input) ←? decode 32 input;
  '(withdrawal_id, input) ←? decode 1 input;
  input_empty input;?;
  (if amount =? 0 then rok () else undelegate val_id amount withdrawal_id msg_sender);?;
  rok (abi_encode_bool true).

Definition precompile_compound (input : list Z) (msg_sender msg_value : Z) : res (list Z) :=
  not_payable msg_value;?;
  '(val_id, input) ←? decode 8 input;
  input_empty input;?;
  let del := vars_delegator val_id msg_sender in
  pull_delegator_up_to_date val_id del;?;
  rewards ← load (del_rewards del);
  clear (del_rewards del);;
  (if negb (rewards =? 0) then
     emit_claim_rewards_event val_id msg_sender rewards;;
     delegate val_id rewards msg_sender
   else rok ());?;
  rok (abi_encode_bool true).
End operations.

Definition withdraw (val_id withdrawal_id msg_sender : Z) : res () :=
  let storage := vars_withdrawal_request val_id msg_sender withdrawal_id in
  withdrawal_request ← load_checked storage;
  match withdrawal_request with
  | None => rfail UnknownWithdrawalId
  | Some request =>
      clear storage;;
      ready ← is_epoch_active (u64 (wr_epoch request + withdrawal_delay));
      rcheck ready WithdrawalNotReady;?;
      withdraw_acc ← decrement_accumulator_refcount (wr_epoch request) val_id;
      rewards ←? rmath (calculate_rewards (wr_amount request) withdraw_acc (wr_acc request));
      reward_invariant (vars_val_execution val_id) rewards;?;
      withdrawal_amount ←? rmath (checked_add (wr_amount request) rewards);
      contract_balance ← do_ (m_get_balance STAKING_CA);
      passert_throw (contract_balance >=? withdrawal_amount) "withdrawal insolvent";;
      send_tokens msg_sender withdrawal_amount;;
      emit_withdraw_event val_id msg_sender withdrawal_id withdrawal_amount;;
      rok ()
  end.
Definition precompile_withdraw (input : list Z) (msg_sender msg_value : Z) : res (list Z) :=
  not_payable msg_value;?;
  '(val_id, input) ←? decode 8 input;
  '(withdrawal_id, input) ←? decode 1 input;
  input_empty input;?;
  withdraw val_id withdrawal_id msg_sender;?;
  rok (abi_encode_bool true).

Definition claim_rewards (val_id msg_sender : Z) : res () :=
  let del := vars_delegator val_id msg_sender in
  pull_delegator_up_to_date val_id del;?;
  rewards ← load (del_rewards del);
  (if negb (rewards =? 0) then
     send_tokens msg_sender rewards;;
     clear (del_rewards del);;
     emit_claim_rewards_event val_id msg_sender rewards
   else Ret ());;
  rok ().
Definition precompile_claim_rewards (input : list Z) (msg_sender msg_value : Z) : res (list Z) :=
  not_payable msg_value;?;
  '(val_id, input) ←? decode 8 input;
  input_empty input;?;
  claim_rewards val_id msg_sender;?;
  rok (abi_encode_bool true).

Definition precompile_change_commission (input : list Z) (msg_sender msg_value : Z) : res (list Z) :=
  not_payable msg_value;?;
  '(val_id, input) ←? decode 8 input;
  '(new_commission, input) ←? decode 32 input;
  input_empty input;?;
  let validator := vars_val_execution val_id in
  exists_ ← ve_exists validator;
  rcheck exists_ UnknownValidator;?;
  auth ← ve_auth_address validator;
  rcheck (msg_sender =? auth) RequiresAuthAddress;?;
  rcheck (new_commission <=? max_commission) CommissionTooHigh;?;
  old_commission ← load (ve_commission validator);
  (if negb (old_commission =? new_commission) then
     store (ve_commission validator) new_commission;;
     emit_commission_changed_event val_id old_commission new_commission
   else Ret ());;
  rok (abi_encode_bool true).

Definition precompile_external_reward (input : list Z) (sender msg_value : Z) : res (list Z) :=
  '(val_id, input) ←? decode 8 input;
  input_empty input;?;
  exists_ ← ve_exists (vars_val_execution val_id);
  rcheck exists_ UnknownValidator;?;
  consensus_view ← vars_this_epoch_view val_id;
  active_stake ← load (cv_stake consensus_view);
  rcheck (negb (active_stake =? 0)) NotInValidatorSet;?;
  rcheck (msg_value >=? min_external_reward) ExternalRewardTooSmall;?;
  rcheck (msg_value <=? max_external_reward) ExternalRewardTooLarge;?;
  apply_reward val_id sender msg_value active_stake;?;
  rok (abi_encode_bool true).

(** *** Registration of a validator *)
Record SignatureSchemes := mkSignatureSchemes {
  secp_pubkey_valid : list Z → bool;
  secp_serialize : list Z → list Z;
  secp_signature_valid : list Z → bool;
  secp_verify : list Z → list Z → list Z → bool;
  bls_pubkey_valid : list Z → bool;
  bls_serialize : list Z → list Z;
  bls_signature_valid : list Z → bool;
  bls_verify : list Z → list Z → list Z → bool
}.

Section registration.
Context (keccak256 : list Z → Z) (schemes : SignatureSchemes) (traits : Traits).
Definition address_from_secpkey (serialized : list Z) : prog Z :=
  passert (default 0 (head serialized) =? 4);;
  Ret (keccak256 (take 64 (drop 1 serialized)) mod 2 ^ 160).
Definition address_from_bls_key (serialized : list Z) : Z := keccak256 serialized mod 2 ^ 160.

Definition MESSAGE_SIZE : nat := 33 + 48 + 20 + 32 + 32.
(** The signatures of the message under both keys in it. *)
Definition verify_signatures (message secp_signature bls_signature : list Z) : res () :=
  let secp := take 33 message in
  let bls := take 48 (drop 33 message) in
  rcheck (secp_pubkey_valid schemes secp) InvalidSecpPubkey;?;
  rcheck (secp_signature_valid schemes secp_signature) InvalidSecpSignature;?;
  rcheck (secp_verify schemes secp_signature secp message) SecpSignatureVerificationFailed;?;
  rcheck (bls_pubkey_valid schemes bls) InvalidBlsPubkey;?;
  rcheck (bls_signature_valid schemes bls_signature) InvalidBlsSignature;?;
  rcheck (bls_verify schemes bls_signature bls message) BlsSignatureVerificationFailed.

Definition precompile_add_validator (input : list Z) (msg_sender msg_value : Z) : res (list Z) :=
  '(_, input) ←? decode 32 input;
  '(_, input) ←? decode 32 input;
  '(_, input) ←? decode 32 input;
  '(message, input) ←? rabi (abi_decode_bytes_tail MESSAGE_SIZE input);
  '(secp_signature, input) ←? rabi (abi_decode_bytes_tail 64 input);
  '(bls_signature, input) ←? rabi (abi_decode_bytes_tail 96 input);
  input_empty input;?;
  let secp := take 33 message in
  let bls := take 48 (drop 33 message) in
  let auth_address := field 81 20 message in
  let signed_stake := field 101 32 message in
  let commission := field 133 32 message in
  rcheck (signed_stake =? msg_value) InvalidInput;?;
  rcheck (msg_value >=? min_auth_address_stake) InsufficientStake;?;
  verify_signatures message secp_signature bls_signature;?;
  rcheck (commission <=? max_commission) CommissionTooHigh;?;
  secp_eth_address ← address_from_secpkey (secp_serialize schemes secp);
  let bls_eth_address := address_from_bls_key (bls_serialize schemes bls) in
  a ← load_checked (vars_val_id secp_eth_address);
  b ← (match a with Some _ => Ret None | None => load_checked (vars_val_id_bls bls_eth_address) end);
  rcheck (negb (bool_decide (is_Some a) || bool_decide (is_Some b))) ValidatorExists;?;
  last_val_id ← load vars_last_val_id;
  let val_id := u64 (last_val_id + 1) in
  store (vars_val_id secp_eth_address) val_id;;
  store (vars_val_id_bls bls_eth_address) val_id;;
  store vars_last_val_id val_id;;
  let val := vars_val_execution val_id in
  store (ve_keys val) (mkKeysPacked secp bls);;
  store (ve_address_flags val) (mkAddressFlags auth_address ValidatorFlagsStakeTooLow);;
  store (ve_commission val) commission;;
  emit_validator_created_event val_id auth_address commission;;
  delegate traits val_id msg_value auth_address;?;
  rok (abi_encode_uint 8 val_id).
End registration.
