(* ===== verification/StakingCalls.v ===== *)
(** * The staking contract: queries, system calls and dispatch

    The rest of src/category/execution/monad/staking/staking_contract.cpp, with
    staking/priority_fee.cpp, staking/execute_block_prelude.cpp,
    execute_system_transaction.cpp and validate_system_transaction.cpp. *)
From S2P Require Import Prelude Traits Account VersionStack AccountState BlockState State Methods Rlp RlpFacts CheckedMath Abi ContractStorage StakingVars.
From S2P Require Import Words Transaction Receipt Merge ReserveBalance ValidateTransaction Precompiles Staking.

(** [for (i = start; i < end; ++i) out.push_back(f(i))] *)
Fixpoint pcollect {A} (start : Z) (n : nat) (f : Z → prog A) : prog (list A) :=
  match n with
  | O => Ret []
  | S n => x ← f start; r ← pcollect (start + 1) n f; Ret (x :: r)
  end.

(** ** Queries *)
Definition get_valset_page (v : StorageArray u64_be) (start_index limit : Z) : prog (bool * Z * list Z) :=
  len ← arr_length v;
  let end_ := Z.min len (start_index + limit) in
  valids ← pcollect start_index (Z.to_nat (end_ - start_index)) (λ i, load (arr_get v i));
  Ret (end_ =? len, u32 (Z.max start_index end_), valids).
Definition get_valset (input : list Z) (v : StorageArray u64_be) : res (list Z) :=
  '(start_index, input) ←? decode 4 input;
  input_empty input;?;
  len ← arr_length v;
  rcheck (len <=? 2 ^ 32 - 1) InternalError;?;
  '(done, next_index, valids) ← get_valset_page v start_index array_pagination;
  rok (encode_final (add_uint_array 8 valids (add_uint 4 next_index (add_bool done encoder)))).
Definition precompile_get_valset (v : StorageArray u64_be) (input : list Z) (sender msg_value : Z) : res (list Z) :=
  not_payable msg_value;?;
  get_valset input v.

Definition precompile_get_validator (input : list Z) (sender msg_value : Z) : res (list Z) :=
  not_payable msg_value;?;
  '(val_id, input) ←? decode 8 input;
  input_empty input;?;
  let val := vars_val_execution val_id in
  let consensus_view := vars_consensus_view val_id in
  let snapshot_view := vars_snapshot_view val_id in
  af ← load (ve_address_flags val);
  stake ← load (ve_stake val);
  acc ← load (ve_accumulated_reward_per_token val);
  commission ← load (ve_commission val);
  unclaimed ← load (ve_unclaimed_rewards val);
  cs ← load (cv_stake consensus_view);
  cc ← load (cv_commission consensus_view);
  ss ← load (cv_stake snapshot_view);
  sc ← load (cv_commission snapshot_view);
  k ← load (ve_keys val);
  rok (encode_final
    (add_bytes (bls_pubkey k) (add_bytes (secp_pubkey k)
    (add_uint 32 sc (add_uint 32 ss (add_uint 32 cc (add_uint 32 cs
    (add_uint 32 unclaimed (add_uint 32 commission (add_uint 32 acc (add_uint 32 stake
    (add_uint 8 (af_flags af) (add_address (af_auth_address af) encoder))))))))))))).

Definition precompile_get_delegator (input : list Z) (sender msg_value : Z) : res (list Z) :=
  not_payable msg_value;?;
  '(val_id, input) ←? decode 8 input;
  '(address, input) ←? decode 20 input;
  input_empty input;?;
  let del := vars_delegator val_id address in
  pull_delegator_up_to_date val_id del;?;
  stake ← load (del_stake del);
  acc ← load (del_accumulated_reward_per_token del);
  rewards ← load (del_rewards del);
  delta ← load (del_delta_stake del);
  next_delta ← load (del_next_delta_stake del);
  e ← load (del_epochs del);
  rok (encode_final
    (add_uint 8 (next_delta_epoch e) (add_uint 8 (delta_epoch e)
    (add_uint 32 next_delta (add_uint 32 delta (add_uint 32 rewards (add_uint 32 acc (add_uint 32 stake encoder)))))))).

Definition precompile_get_delegations (t : Traits) (input : list Z) (sender msg_value : Z) : res (list Z) :=
  not_payable msg_value;?;
  '(delegator, input) ←? decode 20 input;
  '(start_val_id, input) ←? decode 8 input;
  input_empty input;?;
  '(done, next_val_id, vals_page) ← linked_list_traverse validators_of delegator start_val_id (linked_list_pagination t);
  rok (encode_final (add_uint_array 8 vals_page (add_uint 8 next_val_id (add_bool done encoder)))).
Definition precompile_get_delegators (t : Traits) (input : list Z) (sender msg_value : Z) : res (list Z) :=
  not_payable msg_value;?;
  '(val_id, input) ←? decode 8 input;
  '(start_delegator_address, input) ←? decode 20 input;
  input_empty input;?;
  '(done, next_del_addr, dels_page) ←
    linked_list_traverse delegators_of val_id start_delegator_address (linked_list_pagination t);
  rok (encode_final (add_address_array dels_page (add_address next_del_addr (add_bool done encoder)))).

Definition precompile_get_epoch (input : list Z) (sender msg_value : Z) : res (list Z) :=
  not_payable msg_value;?;
  epoch ← load vars_epoch;
  b ← load vars_in_epoch_delay_period;
  rok (encode_final (add_bool b (add_uint 8 epoch encoder))).
Definition precompile_get_proposer_val_id (input : list Z) (sender msg_value : Z) : res (list Z) :=
  not_payable msg_value;?;
  id ← load vars_proposer_val_id;
  rok (encode_final (add_uint 8 id encoder)).
Definition precompile_get_withdrawal_request (input : list Z) (sender msg_value : Z) : res (list Z) :=
  not_payable msg_value;?;
  '(val_id, input) ←? decode 8 input;
  '(delegator, input) ←? decode 20 input;
  '(withdrawal_id, input) ←? decode 1 input;
  input_empty input;?;
  request ← load (vars_withdrawal_request val_id delegator withdrawal_id);
  rok (encode_final (add_uint 8 (wr_epoch request) (add_uint 32 (wr_acc request) (add_uint 32 (wr_amount request) encoder)))).
Definition staking_fallback (input : list Z) (sender msg_value : Z) : res (list Z) := rfail MethodNotSupported.

(** ** System calls *)
(** The accumulator of an epoch is fixed when the epoch begins. *)
Definition fix_accumulator (epoch val_id : Z) : prog () :=
  let acc_storage := vars_accumulated_reward_per_token epoch val_id in
  acc ← load_checked acc_storage;
  match acc with
  | Some acc =>
      value ← load (ve_accumulated_reward_per_token (vars_val_execution val_id));
      store acc_storage (mkAccumulator value (acc_refcount acc))
  | None => Ret ()
  end.
(** [for (i = 0; i < n; ++i)] over an array *)
Fixpoint for_each (v : StorageArray u64_be) (i : Z) (n : nat) (f : Z → prog ()) : prog () :=
  match n with
  | O => Ret ()
  | S n => val_id ← load (arr_get v i); f val_id;; for_each v (i + 1) n f
  end.
Definition syscall_on_epoch_change (input : list Z) (value : Z) : res () :=
  rcheck (value =? 0) ValueNonZero;?;
  '(next_epoch, input) ←? decode 8 input;
  input_empty input;?;
  let next_next_epoch := u64 (next_epoch + 1) in
  last_epoch ← load vars_epoch;
  rcheck (negb (next_epoch <=? last_epoch)) InvalidEpochChange;?;
  emit_epoch_changed_event last_epoch next_epoch;;
  num_active_vals ← arr_length valset_snapshot;
  for_each valset_snapshot 0 (Z.to_nat num_active_vals) (λ val_id,
    fix_accumulator next_epoch val_id;; fix_accumulator next_next_epoch val_id);;
  clear vars_in_epoch_delay_period;;
  store vars_epoch next_epoch;;
  rok ().

(** Commission to the auth delegator; the rest is returned. *)
Definition pay_commission (val_id reward commission_rate : Z) : res Z :=
  split ←? rmath (split_commission reward commission_rate);
  let '(commission, del_reward) := split in
  auth_address ← ve_auth_address (vars_val_execution val_id);
  let auth := vars_delegator val_id auth_address in
  credit_rewards auth commission;?;
  rok del_reward.

Definition syscall_reward (t : Traits) (input : list Z) (raw_reward : Z) : res () :=
  '(block_author, input) ←? decode 20 input;
  input_empty input;?;
  val_id ← load_checked (vars_val_id block_author);
  match val_id with
  | None => rfail NotInValidatorSet
  | Some val_id =>
      consensus_view ← vars_this_epoch_view val_id;
      active_stake ← load (cv_stake consensus_view);
      rcheck (negb (active_stake =? 0)) NotInValidatorSet;?;
      mint_tokens raw_reward;;
      commission_rate ← load (cv_commission consensus_view);
      del_reward ←? pay_commission val_id raw_reward commission_rate;
      apply_reward val_id SYSTEM_SENDER del_reward active_stake;?;
      (if monad_rev_from t MONAD_FIVE then store vars_proposer_val_id val_id else Ret ());;
      rok ()
  end.

(** [while (!v.empty()) f(v.pop())]; [n] is the length. *)
Fixpoint drain_loop (v : StorageArray u64_be) (n : nat) (f : Z → prog ()) : prog () :=
  match n with
  | O => Ret ()
  | S n =>
      val_id ← arr_pop v;
      f val_id;;
      len ← arr_length v;
      if len =? 0 then Ret () else drain_loop v n f
  end.
Definition drain (v : StorageArray u64_be) (f : Z → prog ()) : prog () :=
  len ← arr_length v;
  if len =? 0 then Ret () else drain_loop v (Z.to_nat len) f.
Definition clear_view (v : ConsensusView) : prog () := clear (cv_stake v);; clear (cv_commission v).

(** Step 4: candidates with their stakes, and the indices to remove. *)
Fixpoint find_candidates (i : Z) (n : nat) : prog (list (Z * Z) * list Z) :=
  match n with
  | O => Ret ([], [])
  | S n =>
      val_id ← load (arr_get valset_execution i);
      let val := vars_val_execution val_id in
      flags ← ve_get_flags val;
      if flags =? ValidatorFlagsOk then
        stake ← load (ve_stake val);
        r ← find_candidates (i + 1) n;
        Ret ((val_id, stake) :: r.1, r.2)
      else
        r ← find_candidates (i + 1) n;
        Ret (r.1, i :: r.2)
  end.
(** More stake first, then the smaller id. *)
Definition candidate_before (a b : Z * Z) : bool :=
  if negb (a.2 =? b.2) then a.2 >? b.2 else a.1 <? b.1.
(** [std::partial_sort]: the first [n] of the sorted candidates. *)
Fixpoint insert_candidate (c : Z * Z) (l : list (Z * Z)) : list (Z * Z) :=
  match l with
  | [] => [c]
  | x :: r => if candidate_before x c then x :: insert_candidate c r else c :: l
  end.
Definition sort_candidates (l : list (Z * Z)) : list (Z * Z) := foldr insert_candidate [] l.
Definition top_candidates (l : list (Z * Z)) : list (Z * Z) :=
  take (Z.to_nat (Z.min (Z.of_nat (length l)) active_valset_size)) (sort_candidates l).

Definition enter_consensus (c : Z * Z) : prog () :=
  arr_push valset_consensus c.1;;
  store (cv_stake (vars_consensus_view c.1)) c.2;;
  commission ← load (ve_commission (vars_val_execution c.1));
  store (cv_commission (vars_consensus_view c.1)) commission.
(** Step 6: the last element replaces the removed one. *)
Definition remove_index (i : Z) : prog () :=
  let slot_to_replace := arr_get valset_execution i in
  id_to_remove ← load slot_to_replace;
  remove_from_valset id_to_remove;;
  swapped_id ← arr_pop valset_execution;
  store slot_to_replace swapped_id.

Definition syscall_snapshot (input : list Z) (value : Z) : res () :=
  rcheck (value =? 0) ValueNonZero;?;
  input_empty input;?;
  b ← load vars_in_epoch_delay_period;
  rcheck (negb b) SnapshotInBoundary;?;
  drain valset_snapshot (λ val_id, clear_view (vars_snapshot_view val_id));;
  consensus_valset_length ← arr_length valset_consensus;
  for_each valset_consensus 0 (Z.to_nat consensus_valset_length) (λ val_id,
    arr_push valset_snapshot val_id;;
    stake ← load (cv_stake (vars_consensus_view val_id));
    store (cv_stake (vars_snapshot_view val_id)) stake;;
    commission ← load (cv_commission (vars_consensus_view val_id));
    store (cv_commission (vars_snapshot_view val_id)) commission);;
  drain valset_consensus (λ val_id, clear_view (vars_consensus_view val_id));;
  execution_valset_length ← arr_length valset_execution;
  '(candidates, removals) ← find_candidates 0 (Z.to_nat execution_valset_length);
  pfor (top_candidates candidates) enter_consensus;;
  pfor (rev removals) remove_index;;
  store vars_in_epoch_delay_period true;;
  rok ().

(** ** Priority fees *)
Definition contract_distribute_priority_fees (fees : Z) : res () :=
  val_id ← load vars_proposer_val_id;
  exists_ ← ve_exists (vars_val_execution val_id);
  rcheck exists_ UnknownValidator;?;
  consensus_view ← vars_this_epoch_view val_id;
  active_stake ← load (cv_stake consensus_view);
  rcheck (negb (active_stake =? 0)) NotInValidatorSet;?;
  commission_rate ← load (cv_commission consensus_view);
  del_reward ←? pay_commission val_id fees commission_rate;
  if del_reward <? min_external_reward then
    do_ (m_subtract_from_balance STAKING_CA del_reward);; rok ()
  else apply_reward val_id PRIORITY_FEE_DIST_ADDRESS del_reward active_stake.
Definition collect_priority_fee (fee : Z) : prog () := do_ (m_add_to_balance PRIORITY_FEE_DIST_ADDRESS fee).
Definition distribute_priority_fees : prog () :=
  fees ← do_ (m_get_balance PRIORITY_FEE_DIST_ADDRESS);
  if fees =? 0 then Ret () else
  do_ (m_subtract_from_balance PRIORITY_FEE_DIST_ADDRESS fees);;
  frame_ Push;;
  do_ (m_add_to_balance STAKING_CA fees);;
  r ← contract_distribute_priority_fees fees;
  match r with
  | inl e =>
      passert_throw (match e with FStaking UnknownValidator => true | _ => false end) "fee distribution error";;
      frame_ PopReject
  | inr _ => frame_ PopAccept
  end.
Definition execute_block_prelude (t : Traits) : prog () :=
  if negb (monad_rev_from t MONAD_FIVE) then Ret () else
  exists_ ← do_ (m_account_exists STAKING_CA);
  if negb exists_ then Ret () else clear vars_proposer_val_id.

(** ** Gas and dispatch *)
Record OpCount := mkOpCount {
  warm_sloads : Z; cold_sloads : Z; warm_sstores : Z; warm_sstore_nonzero : Z; cold_sstores : Z;
  events : Z; transfers : Z
}.
Definition WARM_SLOAD : Z := 100.
Definition COLD_SLOAD : Z := 8100.
Definition WARM_SSTORE : Z := 2900.
Definition WARM_SSTORE_NONZERO : Z := 2900.
Definition COLD_SSTORE : Z := 2900 + 8000.
Definition EVENT_COSTS : Z := 4275.
Definition TRANSFER_COSTS : Z := 11800.
Definition EC_RECOVER_COST : Z := 3000.
Definition BLS_VERIFY_COST : Z := 150000.
Definition MEMORY_EXPANSION_COST : Z := 4000.
Definition compute_costs (ops : OpCount) : Z :=
  WARM_SLOAD * warm_sloads ops + COLD_SLOAD * cold_sloads ops + WARM_SSTORE * warm_sstores ops
  + WARM_SSTORE_NONZERO * warm_sstore_nonzero ops + COLD_SSTORE * cold_sstores ops
  + EVENT_COSTS * events ops + TRANSFER_COSTS * transfers ops.
Definition ADD_VALIDATOR_OP_COST : Z :=
  compute_costs (mkOpCount 21 22 6 15 9 3 0) + EC_RECOVER_COST + BLS_VERIFY_COST.
Definition DELEGATE_OP_COST : Z := compute_costs (mkOpCount 21 17 6 14 5 2 0).
Definition UNDELEGATE_OP_COST : Z := compute_costs (mkOpCount 15 11 8 5 1 2 0).
Definition WITHDRAW_OP_COST : Z := compute_costs (mkOpCount 11 6 1 0 0 1 1).
Definition COMPOUND_OP_COST : Z := compute_costs (mkOpCount 46 17 6 29 3 3 0).
Definition CLAIM_REWARDS_OP_COST : Z := compute_costs (mkOpCount 16 11 2 11 1 1 1).
Definition CHANGE_COMMISSION_OP_COST : Z := compute_costs (mkOpCount 0 3 0 0 1 1 0).
Definition EXTERNAL_REWARDS_OP_COST : Z := compute_costs (mkOpCount 0 5 0 0 2 1 0).
Definition GET_PROPOSER_VAL_ID_OP_COST : Z := compute_costs (mkOpCount 1 0 0 0 0 0 0).
Definition GET_EPOCH_OP_COST : Z := compute_costs (mkOpCount 2 0 0 0 0 0 0).
Definition GET_VALIDATOR_OP_COST : Z := compute_costs (mkOpCount 0 12 0 0 0 0 0).
Definition GET_DELEGATOR_OP_COST : Z := compute_costs (mkOpCount 15 17 1 11 1 0 0).
Definition GET_WITHDRAWAL_REQUEST_OP_COST : Z := compute_costs (mkOpCount 0 3 0 0 0 0 0).
Definition GET_VALIDATOR_SET_OP_COST : Z := compute_costs (mkOpCount 0 100 0 0 0 0 0) + MEMORY_EXPANSION_COST.
Definition LINKED_LIST_GETTER_OP_COST : Z := compute_costs (mkOpCount 0 100 0 0 0 0 0) + MEMORY_EXPANSION_COST.

(** The static assertions of the source. *)
Lemma op_costs :
  [ADD_VALIDATOR_OP_COST; DELEGATE_OP_COST; UNDELEGATE_OP_COST; WITHDRAW_OP_COST; COMPOUND_OP_COST;
   CLAIM_REWARDS_OP_COST; CHANGE_COMMISSION_OP_COST; EXTERNAL_REWARDS_OP_COST; GET_EPOCH_OP_COST;
   GET_PROPOSER_VAL_ID_OP_COST; GET_VALIDATOR_OP_COST; GET_DELEGATOR_OP_COST;
   GET_WITHDRAWAL_REQUEST_OP_COST; GET_VALIDATOR_SET_OP_COST; LINKED_LIST_GETTER_OP_COST] =
  [505125; 260850; 147750; 68675; 289325; 155375; 39475; 66575; 200; 100; 97200; 184900; 24300; 814000; 814000].
Proof. reflexivity. Qed.

Section contract.
Context (keccak256 : list Z → Z) (schemes : SignatureSchemes).
Definition staking_method : Type := list Z → Z → Z → res (list Z).
Definition select_method (t : Traits) (signature : Z) : staking_method * Z :=
  if signature =? 0xf145204c then (precompile_add_validator keccak256 schemes t, ADD_VALIDATOR_OP_COST)
  else if signature =? 0x84994fec then (precompile_delegate t, DELEGATE_OP_COST)
  else if signature =? 0x5cf41514 then (precompile_undelegate t, UNDELEGATE_OP_COST)
  else if signature =? 0xb34fea67 then (precompile_compound t, COMPOUND_OP_COST)
  else if signature =? 0xaed2ee73 then (precompile_withdraw, WITHDRAW_OP_COST)
  else if signature =? 0xa76e2ca5 then (precompile_claim_rewards, CLAIM_REWARDS_OP_COST)
  else if signature =? 0x9bdcc3c8 then (precompile_change_commission, CHANGE_COMMISSION_OP_COST)
  else if signature =? 0xe4b3303b then (precompile_external_reward, EXTERNAL_REWARDS_OP_COST)
  else if signature =? 0x757991a8 then (precompile_get_epoch, GET_EPOCH_OP_COST)
  else if signature =? 0xfbacb0be then
    if monad_rev_from t MONAD_FIVE then (precompile_get_proposer_val_id, GET_PROPOSER_VAL_ID_OP_COST)
    else (staking_fallback, 40000)
  else if signature =? 0x2b6d639a then (precompile_get_validator, GET_VALIDATOR_OP_COST)
  else if signature =? 0x573c1ce0 then (precompile_get_delegator, GET_DELEGATOR_OP_COST)
  else if signature =? 0x56fa2045 then (precompile_get_withdrawal_request, GET_WITHDRAWAL_REQUEST_OP_COST)
  else if signature =? 0xfb29b729 then (precompile_get_valset valset_consensus, GET_VALIDATOR_SET_OP_COST)
  else if signature =? 0xde66a368 then (precompile_get_valset valset_snapshot, GET_VALIDATOR_SET_OP_COST)
  else if signature =? 0x7cb074df then (precompile_get_valset valset_execution, GET_VALIDATOR_SET_OP_COST)
  else if signature =? 0x4fd66050 then (precompile_get_delegations t, LINKED_LIST_GETTER_OP_COST)
  else if signature =? 0xa0843a26 then (precompile_get_delegators t, LINKED_LIST_GETTER_OP_COST)
  else (staking_fallback, 40000).

(** A method as the call of a precompile sees it: a message or output. *)
Definition as_precompile (f : staking_method) (input : list Z) (sender value : Z) : prog (string + list Z) :=
  r ← f input sender value;
  Ret (match r with inl e => inl (failure_message e) | inr out => inr out end).
Definition staking_dispatch (t : Traits) (input : list Z)
    : (list Z → Z → Z → prog (string + list Z)) * Z * list Z :=
  if len input <? 4 then (as_precompile staking_fallback, 40000, input)
  else
    let '(f, cost) := select_method t (be_val (take 4 input)) in
    (as_precompile f, cost, drop 4 input).
Definition StakingContract : MonadContract := mkMonadContract STAKING_CA (Ret ()) staking_dispatch.
End contract.

(** ** System transactions *)
Inductive SystemTransactionError :=
| SystemTxnBeforeFork | SystemBadSender | TypeNotLegacy | MissingTo | InvalidSystemContract | GasNonZero
| NonEmptyAuthorizationList.
Definition static_validate_system_transaction (t : Traits) (tx : Transaction) (sender : Z)
    : option SystemTransactionError :=
  if negb (monad_rev_from t MONAD_FOUR) then Some SystemTxnBeforeFork
  else if negb (sender =? SYSTEM_SENDER) then Some SystemBadSender
  else if negb (bool_decide (tx_type tx = legacy)) then Some TypeNotLegacy
  else
    match tx_to tx with
    | None => Some MissingTo
    | Some to =>
        if negb (to =? STAKING_CA) then Some InvalidSystemContract
        else if negb (tx_gas_limit tx =? 0) then Some GasNonZero
        else if negb (max_fee_per_gas tx =? 0) then Some GasNonZero
        else if negb (max_priority_fee_per_gas tx =? 0) then Some GasNonZero
        else if negb (bool_decide (authorization_list tx = [])) then Some NonEmptyAuthorizationList
        else None
    end.
Definition validate_system_transaction (tx : Transaction) (sender : Z) : prog (option TransactionError) :=
  exists_ ← do_ (m_account_exists sender);
  if negb exists_ then Ret (if negb (tx_nonce tx =? 0) then Some BadNonce else None)
  else
    nonce ← do_ (m_get_nonce sender);
    Ret (if negb (nonce =? tx_nonce tx) then Some BadNonce else None).

Definition execute_staking_syscall (t : Traits) (calldata : list Z) (value : Z) : res () :=
  do_ (m_add_to_balance STAKING_CA 0);;
  if len calldata <? 4 then rfail InvalidInput
  else
    let signature := be_val (take 4 calldata) in
    let calldata := drop 4 calldata in
    if signature =? selector_REWARD then syscall_reward t calldata value
    else if signature =? selector_SNAPSHOT then syscall_snapshot calldata value
    else if signature =? selector_ON_EPOCH_CHANGE then syscall_on_epoch_change calldata value
    else rfail MethodNotSupported.

Inductive SystemFailure := SystemValidation (e : TransactionError) | SystemCall (e : Failure).
(** ExecuteSystemTransaction::execute *)
Definition execute_system (t : Traits) (tx : Transaction) (sender : Z) : prog (option SystemFailure) :=
  e ← validate_system_transaction tx sender;
  match e with
  | Some e => Ret (Some (SystemValidation e))
  | None =>
      nonce ← do_ (m_get_nonce sender);
      do_ (m_set_nonce sender (u64 (nonce + 1)));;
      frame_ Push;;
      r ← execute_staking_syscall t (tx_data tx) (tx_value tx);
      match r with
      | inl e => Ret (Some (SystemCall e))
      | inr _ => frame_ PopAccept;; Ret None
      end
  end.
