(* ===== verification/StakingStore.v ===== *)
(** * The staking contract as a store of quantities

    An abstract view of the contract: what a validator and a delegation are
    worth, who is in which list, the balances.  [wp p Q σ] says that a run of
    [p] from a ledger that represents [σ] ends in one that represents a store
    with [Q]; the rules below reduce it to facts about stores, so that the
    theorems of StakingLists.v and StakingFacts.v do not speak of slots. *)
From S2P Require Import Prelude Traits Account VersionStack AccountState BlockState State Methods Rlp RlpFacts CheckedMath Ledger Abi.
From S2P Require Import ContractStorage StorageFacts StakingVars StakingLayout Words Precompiles Staking StakingCalls.

(** Slots are compared by name. *)
#[global] Strategy 1000 [sv_get sv_checked sv_put sv_zero mapping_key].

(** ** Quantities *)
Inductive quantity :=
| QEpoch
| QBalance (a : Z)
| QStake (v : Z) | QUnclaimed (v : Z) | QAuth (v : Z) | QFlags (v : Z)
| QDelStake (v a : Z) | QDelta (v a : Z) | QNextDelta (v a : Z) | QRewards (v a : Z)
| QDeltaEpoch (v a : Z) | QNextDeltaEpoch (v a : Z)
| QINext (v a : Z) | QIPrev (v a : Z) | QANext (v a : Z) | QAPrev (v a : Z)
| QRequest (v a i : Z).
#[global] Instance quantity_eq_dec : EqDecision quantity.
Proof. solve_decision. Defined.

Definition reading (L : Ledger) (q : quantity) : Z :=
  let f := lg_slots L in
  match q with
  | QEpoch => sv_get f vars_epoch
  | QBalance a => lg_balances L a
  | QStake v => sv_get f (ve_stake (vars_val_execution v))
  | QUnclaimed v => sv_get f (ve_unclaimed_rewards (vars_val_execution v))
  | QAuth v => af_auth_address (sv_get f (ve_address_flags (vars_val_execution v)))
  | QFlags v => af_flags (sv_get f (ve_address_flags (vars_val_execution v)))
  | QDelStake v a => sv_get f (del_stake (vars_delegator v a))
  | QDelta v a => sv_get f (del_delta_stake (vars_delegator v a))
  | QNextDelta v a => sv_get f (del_next_delta_stake (vars_delegator v a))
  | QRewards v a => sv_get f (del_rewards (vars_delegator v a))
  | QDeltaEpoch v a => delta_epoch (sv_get f (del_epochs (vars_delegator v a)))
  | QNextDeltaEpoch v a => next_delta_epoch (sv_get f (del_epochs (vars_delegator v a)))
  | QINext v a => inext (sv_get f (del_list_node (vars_delegator v a)))
  | QIPrev v a => iprev (sv_get f (del_list_node (vars_delegator v a)))
  | QANext v a => anext (sv_get f (del_list_node (vars_delegator v a)))
  | QAPrev v a => aprev (sv_get f (del_list_node (vars_delegator v a)))
  | QRequest v a i => wr_amount (sv_get f (vars_withdrawal_request v a i))
  end.
(** Where a quantity is kept. *)
Definition home (q : quantity) : option Location :=
  match q with
  | QEpoch => Some XEpoch
  | QBalance _ => None
  | QStake v => Some (XExecution v EStake)
  | QUnclaimed v => Some (XExecution v EUnclaimed)
  | QAuth v | QFlags v => Some (XExecution v EFlags)
  | QDelStake v a => Some (XDelegator v a DStake)
  | QDelta v a => Some (XDelegator v a DDelta)
  | QNextDelta v a => Some (XDelegator v a DNextDelta)
  | QRewards v a => Some (XDelegator v a DRewards)
  | QDeltaEpoch v a | QNextDeltaEpoch v a => Some (XDelegator v a DEpochs)
  | QINext v a | QIPrev v a | QANext v a | QAPrev v a => Some (XDelegator v a DListNode)
  | QRequest v a i => Some (XWithdrawal v a i)
  end.
Definition quantity_ok (q : quantity) : Prop := from_option location_ok True (home q).

Abbreviation Store := (quantity → Z).
(** The ledger [L] represents the store [σ]. *)
Record represents (L : Ledger) (σ : Store) : Prop := {
  rp_balances a : fits 32 (lg_balances L a);
  rp_reading q : quantity_ok q → reading L q = σ q
}.

(** ** Programs on stores *)
Definition wp {A} (p : prog A) (Q : A → Store → Prop) (σ : Store) : Prop :=
  ∀ L r L', represents L σ → lruns STAKING_CA p L r L' → ∃ σ', represents L' σ' ∧ Q r σ'.
(** For a program with a result: nothing is said of failures, after which the
    caller restores the state. *)
Definition on_ok {A} (Q : A → Store → Prop) (r : Failure + A) (σ : Store) : Prop :=
  match r with inl _ => True | inr a => Q a σ end.
Definition rwp {A} (p : res A) (Q : A → Store → Prop) (σ : Store) : Prop := wp p (on_ok Q) σ.

Lemma wp_mono {A} (p : prog A) (P Q : A → Store → Prop) σ :
  wp p P σ → (∀ a σ', P a σ' → Q a σ') → wp p Q σ.
Proof. intros Hp HPQ L r L' Hr Hl. destruct (Hp L r L' Hr Hl) as (σ' & ? & ?). eauto. Qed.
Lemma rwp_mono {A} (p : res A) (P Q : A → Store → Prop) σ :
  rwp p P σ → (∀ a σ', P a σ' → Q a σ') → rwp p Q σ.
Proof. intros Hp HPQ. eapply wp_mono; [exact Hp|]. intros [e|a] σ'; simpl; auto. Qed.
Lemma wp_ret {A} (a : A) (Q : A → Store → Prop) σ : Q a σ → wp (Ret a) Q σ.
Proof. intros HQ L r L' Hr [-> ->]. eauto. Qed.
Lemma wp_bind {A C} (p : prog A) (k : A → prog C) Q σ : wp p (λ a, wp (k a) Q) σ → wp (p ≫= k) Q σ.
Proof.
  intros Hp L r L' Hr Hl. apply lruns_bind in Hl as (a & L1 & H1 & H2).
  destruct (Hp L a L1 Hr H1) as (σ1 & Hr1 & Hk). by apply (Hk L1 r L').
Qed.
Lemma wp_stop {A} o (Q : A → Store → Prop) σ : wp (Stop o) Q σ.
Proof. intros L r L' _ []. Qed.
Lemma rwp_bind {A C} (p : res A) (k : A → res C) Q σ : rwp p (λ a, rwp (k a) Q) σ → rwp (rbind p k) Q σ.
Proof.
  intros Hp. unfold rwp, rbind. apply wp_bind. eapply wp_mono; [exact Hp|].
  intros [e|a] σ'; simpl; [intros _|auto]. by apply wp_ret.
Qed.
Lemma rwp_prog_bind {A C} (p : prog A) (k : A → res C) Q σ :
  wp p (λ a, rwp (k a) Q) σ → rwp (p ≫= k) Q σ.
Proof. apply wp_bind. Qed.
Lemma rwp_ok {A} (a : A) (Q : A → Store → Prop) σ : Q a σ → rwp (rok a) Q σ.
Proof. intros HQ. by apply wp_ret. Qed.
Lemma rwp_fail {A} e (Q : A → Store → Prop) σ : rwp (rfail e) Q σ.
Proof. by apply wp_ret. Qed.
Lemma rwp_check b e (Q : () → Store → Prop) σ : (b = true → Q () σ) → rwp (rcheck b e) Q σ.
Proof. intros HQ. destruct b; [by apply rwp_ok; apply HQ|apply rwp_fail]. Qed.
Lemma rwp_math {A} r (Q : A → Store → Prop) σ : (∀ a, r = inr a → Q a σ) → rwp (rmath r) Q σ.
Proof. intros HQ. apply wp_ret. destruct r; simpl; auto. Qed.
Lemma rwp_abi {A} r (Q : A → Store → Prop) σ : (∀ a, r = inr a → Q a σ) → rwp (rabi r) Q σ.
Proof. intros HQ. apply wp_ret. destruct r; simpl; auto. Qed.
Lemma wp_passert b Q σ : (b = true → Q () σ) → wp (passert b) Q σ.
Proof. intros HQ. destruct b; [by apply wp_ret; apply HQ|apply wp_stop]. Qed.
Lemma wp_passert_throw b s Q σ : (b = true → Q () σ) → wp (passert_throw b s) Q σ.
Proof. intros HQ. destruct b; [by apply wp_ret; apply HQ|apply wp_stop]. Qed.
Lemma wp_log l Q σ : Q () σ → wp (emit_log l) Q σ.
Proof.
  intros HQ L r L' Hr. intros (y & L1 & HL1 & -> & ->). exists σ. destruct y. split; [|done].
  simpl in HL1. subst L1. destruct Hr as [Hb Hr]. split; [done|]. intros q Hq. by rewrite <- (Hr q Hq).
Qed.

(** ** Variables *)
Lemma sv_get_fits w f (v : StorageVariable (uint w)) : (w <= 32 * sv_slots (uint w))%nat → fits w (sv_get f v).
Proof.
  intros Hw. unfold sv_get, from_slots, fits. cbn [pk_parse packed_uint pk_size].
  set (l := take w (concat (be_bytes 32 <$> words_at f (sv_offset v) (sv_slots (uint w))))).
  assert (Hl : length l = w).
  { unfold l. rewrite length_take, words_bytes_length, words_at_length. lia. }
  assert (Hok : bytes_ok l) by apply Forall_take, words_bytes_ok.
  pose proof (be_val_bound l Hok) as Hb. unfold len in Hb. by rewrite Hl in Hb.
Qed.
Lemma sv_get_parse {T} `{Packed T} f (v : StorageVariable T) : ∃ l, bytes_ok l ∧ sv_get f v = pk_parse l.
Proof. eexists. split; [|reflexivity]. apply Forall_take, words_bytes_ok. Qed.

#[global] Instance location_eq_dec : EqDecision Location.
Proof. solve_decision. Defined.
(** A variable that keeps no quantity. *)
Definition untracked (x : Location) : Prop := ∀ q, home q ≠ Some x.
(** Two variables at different places. *)
Lemma sv_get_put_at {T U} `{Packed T} `{Packed U} (v : StorageVariable T) (u : StorageVariable U) x y t f :
  located v x → located u y → x ≠ y → sv_get (sv_put v t f) u = sv_get f u.
Proof. intros Hv Hu Hne. apply sv_get_put_other. by eapply located_apart. Qed.
Lemma sv_get_zero_at {T U} `{Packed T} `{Packed U} (v : StorageVariable T) (u : StorageVariable U) x y f :
  located v x → located u y → x ≠ y → sv_get (sv_zero v f) u = sv_get f u.
Proof. intros Hv Hu Hne. apply sv_get_zero_other. by eapply located_apart. Qed.
(** The variables where quantities are. *)
Lemma located_at {T} `{Packed T} (v : StorageVariable T) x :
  location_ok x → range_of v = slots_of x → located v x.
Proof. done. Qed.
Ltac reading_other lem Hv Hne :=
  cbn [home] in Hne;
  match goal with
  | Hq : quantity_ok _ |- _ => cbn [quantity_ok home from_option] in Hq
  end;
  cbn [reading lg_set_slots lg_slots lg_balances];
  first [ reflexivity
        | erewrite lem; [reflexivity|exact Hv|apply located_at; [eassumption|reflexivity]|congruence] ].
Lemma reading_put_other {T} `{Packed T} (v : StorageVariable T) x t L q :
  located v x → quantity_ok q → home q ≠ Some x →
  reading (lg_set_slots (sv_put v t (lg_slots L)) L) q = reading L q.
Proof. intros Hv Hq Hne. destruct q; reading_other @sv_get_put_at Hv Hne. Qed.
Lemma reading_zero_other {T} `{Packed T} (v : StorageVariable T) x L q :
  located v x → quantity_ok q → home q ≠ Some x →
  reading (lg_set_slots (sv_zero v (lg_slots L)) L) q = reading L q.
Proof. intros Hv Hq Hne. destruct q; reading_other @sv_get_zero_at Hv Hne. Qed.

Section rules.
Context {T : Type} `{Packed T}.
Implicit Types v : StorageVariable T.
Lemma wp_load v Q σ :
  sv_address v = STAKING_CA → (∀ L, represents L σ → Q (sv_get (lg_slots L) v) σ) → wp (load v) Q σ.
Proof.
  intros Hc HQ L r L' Hr Hl. rewrite <- Hc in Hl. apply lruns_load in Hl as [-> ->]. eauto.
Qed.
Lemma wp_load_checked v Q σ :
  sv_address v = STAKING_CA →
  (∀ L, represents L σ → Q (sv_checked (lg_slots L) v) σ) → wp (load_checked v) Q σ.
Proof.
  intros Hc HQ L r L' Hr Hl. rewrite <- Hc in Hl. apply lruns_load_checked in Hl as [-> ->]. eauto.
Qed.
Lemma wp_store_untracked v x t Q σ :
  sv_address v = STAKING_CA → located v x → untracked x → Q () σ → wp (store v t) Q σ.
Proof.
  intros Hc Hv Hx HQ L [] L' Hr Hl. rewrite <- Hc in Hl. apply lruns_store in Hl as ->.
  exists σ. split; [|done]. destruct Hr as [Hb Hr]. split; [done|]. intros q Hq. rewrite (reading_put_other v x) by auto. auto.
Qed.
Lemma wp_clear_untracked v x Q σ :
  sv_address v = STAKING_CA → located v x → untracked x → Q () σ → wp (clear v) Q σ.
Proof.
  intros Hc Hv Hx HQ L [] L' Hr Hl. rewrite <- Hc in Hl. apply lruns_clear in Hl as ->.
  exists σ. split; [|done]. destruct Hr as [Hb Hr]. split; [done|]. intros q Hq. rewrite (reading_zero_other v x) by auto. auto.
Qed.
(** A store of a variable that keeps quantities. *)
Lemma wp_clear v x Q σ σ' :
  sv_address v = STAKING_CA → located v x →
  (∀ q, home q ≠ Some x → σ' q = σ q) →
  (∀ L q, home q = Some x → sv_get (lg_slots L) v = pk_parse (repeat 0 (pk_size T)) → reading L q = σ' q) →
  Q () σ' → wp (clear v) Q σ.
Proof.
  intros Hc Hv Hne Heq HQ L [] L' Hr Hl. rewrite <- Hc in Hl. apply lruns_clear in Hl as ->.
  exists σ'. split; [|done]. destruct Hr as [Hb Hr]. split; [done|]. intros q Hq. destruct (decide (home q = Some x)) as [E|E].
  - apply Heq; [done|]. apply sv_get_zero. by eapply located_ok.
  - rewrite (reading_zero_other v x) by auto. rewrite Hne by done. auto.
Qed.
Lemma wp_store `{!PackedLaws T} v x t Q σ σ' :
  sv_address v = STAKING_CA → located v x → pk_valid t →
  (∀ q, home q ≠ Some x → σ' q = σ q) →
  (∀ L q, home q = Some x → sv_get (lg_slots L) v = t → reading L q = σ' q) →
  Q () σ' → wp (store v t) Q σ.
Proof.
  intros Hc Hv Ht Hne Heq HQ L [] L' Hr Hl. rewrite <- Hc in Hl. apply lruns_store in Hl as ->.
  exists σ'. split; [|done]. destruct Hr as [Hb Hr]. split; [done|]. intros q Hq. destruct (decide (home q = Some x)) as [E|E].
  - apply Heq; [done|]. apply sv_get_put; [by eapply located_ok|done].
  - rewrite (reading_put_other v x) by auto. rewrite Hne by done. auto.
Qed.
End rules.

(** *** Integers *)
Record scalar {w} (v : StorageVariable (uint w)) (q : quantity) (x : Location) : Prop := {
  sc_address : sv_address v = STAKING_CA;
  sc_located : located v x;
  sc_home : home q = Some x;
  sc_only q' : home q' = Some x → q' = q;
  sc_reading L : reading L q = sv_get (lg_slots L) v;
  sc_width : (w <= 32 * sv_slots (uint w))%nat
}.
Section scalars.
Context {w : nat} (v : StorageVariable (uint w)) (q : quantity) (x : Location) (Hv : scalar v q x).
#[local] Lemma scalar_ok : quantity_ok q.
Proof. unfold quantity_ok. rewrite (sc_home _ _ _ Hv). by destruct (sc_located _ _ _ Hv). Qed.
Lemma wp_load_scalar Q σ : (fits w (σ q) → Q (σ q) σ) → wp (load v) Q σ.
Proof.
  intros HQ. apply wp_load; [apply Hv|]. intros L Hr.
  rewrite <- (sc_reading _ _ _ Hv), (rp_reading _ _ Hr q scalar_ok). apply HQ.
  rewrite <- (rp_reading _ _ Hr q scalar_ok), (sc_reading _ _ _ Hv). apply sv_get_fits, Hv.
Qed.
Lemma wp_store_scalar t Q σ : fits w t → Q () (<[q := t]> σ) → wp (store v t) Q σ.
Proof.
  intros Ht. apply (wp_store v x); [apply Hv..|done| |].
  - intros q' Hq'. apply fn_lookup_insert_ne. intros <-. by rewrite (sc_home _ _ _ Hv) in Hq'.
  - intros L q' Hq'%(sc_only _ _ _ Hv) E. subst q'. by rewrite fn_lookup_insert, (sc_reading _ _ _ Hv).
Qed.
Lemma wp_clear_scalar Q σ : Q () (<[q := 0]> σ) → wp (clear v) Q σ.
Proof.
  apply (wp_clear v x); [apply Hv..| |].
  - intros q' Hq'. apply fn_lookup_insert_ne. intros <-. by rewrite (sc_home _ _ _ Hv) in Hq'.
  - intros L q' Hq'%(sc_only _ _ _ Hv) E. subst q'. rewrite fn_lookup_insert, (sc_reading _ _ _ Hv), E.
    cbn [pk_parse packed_uint pk_size]. apply be_val_repeat_0.
Qed.
End scalars.
Ltac scalar_tac :=
  split; [reflexivity|apply located_at; [simpl; auto|reflexivity]|reflexivity|intros []; simpl; congruence
         |intros; reflexivity|vm_compute; lia].
Lemma scalar_epoch : scalar vars_epoch QEpoch XEpoch.
Proof. scalar_tac. Qed.
Lemma scalar_stake v : fits 8 v → scalar (ve_stake (vars_val_execution v)) (QStake v) (XExecution v EStake).
Proof. intros. scalar_tac. Qed.
Lemma scalar_unclaimed v :
  fits 8 v → scalar (ve_unclaimed_rewards (vars_val_execution v)) (QUnclaimed v) (XExecution v EUnclaimed).
Proof. intros. scalar_tac. Qed.
Lemma scalar_del_stake v a :
  fits 8 v → fits 20 a → scalar (del_stake (vars_delegator v a)) (QDelStake v a) (XDelegator v a DStake).
Proof. intros. scalar_tac. Qed.
Lemma scalar_delta v a :
  fits 8 v → fits 20 a → scalar (del_delta_stake (vars_delegator v a)) (QDelta v a) (XDelegator v a DDelta).
Proof. intros. scalar_tac. Qed.
Lemma scalar_next_delta v a :
  fits 8 v → fits 20 a →
  scalar (del_next_delta_stake (vars_delegator v a)) (QNextDelta v a) (XDelegator v a DNextDelta).
Proof. intros. scalar_tac. Qed.
Lemma scalar_rewards v a :
  fits 8 v → fits 20 a → scalar (del_rewards (vars_delegator v a)) (QRewards v a) (XDelegator v a DRewards).
Proof. intros. scalar_tac. Qed.

(** *** Records *)
Lemma sv_get_record {T} `{Packed T} (P : T → Prop) f (v : StorageVariable T) :
  (∀ l, bytes_ok l → P (pk_parse l)) → P (sv_get f v).
Proof. intros HP. destruct (sv_get_parse f v) as (l & Hl & ->). by apply HP. Qed.
Section records.
Context (v a : Z) (Hv : fits 8 v) (Ha : fits 20 a).
#[local] Lemma del_ok f : location_ok (XDelegator v a f).
Proof. done. Qed.

Definition epochs_of (σ : Store) : Epochs := mkEpochs (σ (QDeltaEpoch v a)) (σ (QNextDeltaEpoch v a)).
Lemma wp_load_epochs Q σ :
  (epochs_ok (epochs_of σ) → Q (epochs_of σ) σ) → wp (load (del_epochs (vars_delegator v a))) Q σ.
Proof.
  intros HQ. apply wp_load; [done|]. intros L Hr.
  assert (E : sv_get (lg_slots L) (del_epochs (vars_delegator v a)) = epochs_of σ).
  { unfold epochs_of. rewrite <- (rp_reading _ _ Hr (QDeltaEpoch v a)), <- (rp_reading _ _ Hr (QNextDeltaEpoch v a)) by done. cbn [reading].
    by destruct (sv_get _ _). }
  rewrite E. apply HQ. rewrite <- E. apply sv_get_record. intros l Hl. split; by apply field_range.
Qed.
Lemma wp_store_epochs e Q σ :
  epochs_ok e → Q () (<[QDeltaEpoch v a := delta_epoch e]> (<[QNextDeltaEpoch v a := next_delta_epoch e]> σ)) →
  wp (store (del_epochs (vars_delegator v a)) e) Q σ.
Proof.
  intros He. apply (wp_store _ (XDelegator v a DEpochs)); [done|by apply located_at|done| |].
  - intros q Hq. rewrite !fn_lookup_insert_ne; [done|intros <-; by apply Hq..].
  - intros L q Hq E. destruct q; simpl in Hq; try discriminate; injection Hq as -> ->; cbn [reading]; rewrite E.
    + by rewrite fn_lookup_insert.
    + by rewrite fn_lookup_insert_ne, fn_lookup_insert by done.
Qed.
Lemma wp_get_delta_epoch Q σ :
  (fits 8 (σ (QDeltaEpoch v a)) → Q (σ (QDeltaEpoch v a)) σ) → wp (del_get_delta_epoch (vars_delegator v a)) Q σ.
Proof. intros HQ. apply wp_bind, wp_load_epochs. intros [? _]. by apply wp_ret, HQ. Qed.
Lemma wp_get_next_delta_epoch Q σ :
  (fits 8 (σ (QNextDeltaEpoch v a)) → Q (σ (QNextDeltaEpoch v a)) σ) →
  wp (del_get_next_delta_epoch (vars_delegator v a)) Q σ.
Proof. intros HQ. apply wp_bind, wp_load_epochs. intros [_ ?]. by apply wp_ret, HQ. Qed.
Lemma wp_set_delta_epoch e Q σ :
  fits 8 e → Q () (<[QDeltaEpoch v a := e]> σ) → wp (del_set_delta_epoch (vars_delegator v a) e) Q σ.
Proof.
  intros He HQ. apply wp_bind, wp_load_epochs. intros [_ Hn].
  apply (wp_store _ (XDelegator v a DEpochs) _ _ _ (<[QDeltaEpoch v a := e]> σ));
    [done|by apply located_at|by split| | |done].
  - intros q Hq. rewrite !fn_lookup_insert_ne; [done|intros <-; by apply Hq..].
  - intros L q Hq E. destruct q; simpl in Hq; try discriminate; injection Hq as -> ->; cbn [reading]; rewrite E.
    + by rewrite fn_lookup_insert.
    + by rewrite fn_lookup_insert_ne by done.
Qed.
Lemma wp_set_next_delta_epoch e Q σ :
  fits 8 e → Q () (<[QNextDeltaEpoch v a := e]> σ) → wp (del_set_next_delta_epoch (vars_delegator v a) e) Q σ.
Proof.
  intros He HQ. apply wp_bind, wp_load_epochs. intros [Hd _].
  apply (wp_store _ (XDelegator v a DEpochs) _ _ _ (<[QNextDeltaEpoch v a := e]> σ));
    [done|by apply located_at|by split| | |done].
  - intros q Hq. rewrite !fn_lookup_insert_ne; [done|intros <-; by apply Hq..].
  - intros L q Hq E. destruct q; simpl in Hq; try discriminate; injection Hq as -> ->; cbn [reading]; rewrite E.
    + by rewrite fn_lookup_insert_ne by done.
    + by rewrite fn_lookup_insert.
Qed.

Definition node_of (σ : Store) : ListNode :=
  mkListNode (σ (QINext v a)) (σ (QIPrev v a)) (σ (QANext v a)) (σ (QAPrev v a)).
Definition set_node (n : ListNode) (σ : Store) : Store :=
  <[QINext v a := inext n]> (<[QIPrev v a := iprev n]> (<[QANext v a := anext n]> (<[QAPrev v a := aprev n]> σ))).
Lemma wp_load_node Q σ :
  (node_ok (node_of σ) → Q (node_of σ) σ) → wp (load (del_list_node (vars_delegator v a))) Q σ.
Proof.
  intros HQ. apply wp_load; [done|]. intros L Hr.
  assert (E : sv_get (lg_slots L) (del_list_node (vars_delegator v a)) = node_of σ).
  { unfold node_of. rewrite <- (rp_reading _ _ Hr (QINext v a)), <- (rp_reading _ _ Hr (QIPrev v a)), <- (rp_reading _ _ Hr (QANext v a)), <- (rp_reading _ _ Hr (QAPrev v a)) by done.
    cbn [reading]. by destruct (sv_get _ _). }
  rewrite E. apply HQ. rewrite <- E. apply sv_get_record. intros l Hl. repeat split; by apply field_range.
Qed.
Lemma wp_store_node n Q σ :
  node_ok n → Q () (set_node n σ) → wp (store (del_list_node (vars_delegator v a)) n) Q σ.
Proof.
  intros He. apply (wp_store _ (XDelegator v a DListNode)); [done|by apply located_at|done| |]; unfold set_node.
  - intros q Hq. rewrite !fn_lookup_insert_ne; [done|intros <-; by apply Hq..].
  - intros L q Hq E. destruct q; simpl in Hq; try discriminate; injection Hq as -> ->; cbn [reading]; rewrite E;
      repeat first [by rewrite fn_lookup_insert | rewrite fn_lookup_insert_ne by done].
Qed.

Lemma wp_load_flags Q σ :
  (flags_ok (mkAddressFlags (σ (QAuth v)) (σ (QFlags v))) → Q (mkAddressFlags (σ (QAuth v)) (σ (QFlags v))) σ) →
  wp (load (ve_address_flags (vars_val_execution v))) Q σ.
Proof.
  intros HQ. apply wp_load; [done|]. intros L Hr.
  assert (E : sv_get (lg_slots L) (ve_address_flags (vars_val_execution v)) = mkAddressFlags (σ (QAuth v)) (σ (QFlags v))).
  { rewrite <- (rp_reading _ _ Hr (QAuth v)), <- (rp_reading _ _ Hr (QFlags v)) by done. cbn [reading]. by destruct (sv_get _ _). }
  rewrite E. apply HQ. rewrite <- E. apply sv_get_record. intros l Hl. split; by apply field_range.
Qed.
Lemma wp_store_flags n Q σ :
  flags_ok n → Q () (<[QAuth v := af_auth_address n]> (<[QFlags v := af_flags n]> σ)) →
  wp (store (ve_address_flags (vars_val_execution v)) n) Q σ.
Proof.
  intros He. apply (wp_store _ (XExecution v EFlags)); [done|by apply located_at|done| |].
  - intros q Hq. rewrite !fn_lookup_insert_ne; [done|intros <-; by apply Hq..].
  - intros L q Hq E. destruct q; simpl in Hq; try discriminate; injection Hq as ->; cbn [reading]; rewrite E;
      repeat first [by rewrite fn_lookup_insert | rewrite fn_lookup_insert_ne by done].
Qed.
Context (i : Z) (Hi : fits 1 i).
Lemma wp_load_request Q σ :
  (∀ r, request_ok r → wr_amount r = σ (QRequest v a i) → Q r σ) →
  wp (load (vars_withdrawal_request v a i)) Q σ.
Proof.
  intros HQ. apply wp_load; [done|]. intros L Hr.
  pose proof (rp_reading _ _ Hr (QRequest v a i) (conj Hv (conj Ha Hi))) as E. cbn [reading] in E. apply HQ; [|exact E].
  apply sv_get_record. intros l Hl. repeat split; by apply field_range.
Qed.
Lemma wp_store_request r Q σ :
  request_ok r → Q () (<[QRequest v a i := wr_amount r]> σ) → wp (store (vars_withdrawal_request v a i) r) Q σ.
Proof.
  intros He. apply (wp_store _ (XWithdrawal v a i)); [done|by apply located_at|done| |].
  - intros q Hq. rewrite !fn_lookup_insert_ne; [done|intros <-; by apply Hq..].
  - intros L q Hq E. destruct q; simpl in Hq; try discriminate; injection Hq as -> -> ->; cbn [reading]; rewrite E.
    by rewrite fn_lookup_insert.
Qed.
Lemma wp_clear_request Q σ :
  Q () (<[QRequest v a i := 0]> σ) → wp (clear (vars_withdrawal_request v a i)) Q σ.
Proof.
  apply (wp_clear _ (XWithdrawal v a i)); [done|by apply located_at| |].
  - intros q Hq. rewrite !fn_lookup_insert_ne; [done|intros <-; by apply Hq..].
  - intros L q Hq E. destruct q; simpl in Hq; try discriminate; injection Hq as -> -> ->; cbn [reading]; rewrite E.
    by rewrite fn_lookup_insert.
Qed.
End records.

Lemma wp_load_checked_request v a i Q σ :
  fits 8 v → fits 20 a → fits 1 i →
  (σ (QRequest v a i) = 0 → Q None σ) →
  (∀ r, request_ok r → wr_amount r = σ (QRequest v a i) → Q (Some r) σ) →
  wp (load_checked (vars_withdrawal_request v a i)) Q σ.
Proof.
  intros Hv Ha Hi HN HS. apply wp_load_checked; [done|]. intros L Hr.
  pose proof (rp_reading _ _ Hr (QRequest v a i) (conj Hv (conj Ha Hi))) as E. cbn [reading] in E.
  destruct (sv_checked _ _) as [r|] eqn:Ec.
  - apply sv_checked_Some in Ec as ->. apply HS; [|done]. apply sv_get_record.
    intros l Hl. repeat split; by apply field_range.
  - apply HN. rewrite <- E, (sv_checked_None _ _ Ec). reflexivity.
Qed.

(** *** Balances *)
Lemma wp_balance_set a L σ x :
  represents L σ → represents (lg_set_balance a (u256 x) L) (<[QBalance a := u256 x]> σ).
Proof.
  intros [Hb Hr]. split.
  - intros b. simpl. destruct (decide (a = b)) as [<-|]; [rewrite fn_lookup_insert|by rewrite fn_lookup_insert_ne].
    unfold fits, u256. change (256 ^ Z.of_nat 32) with (2 ^ 256). apply Z.mod_pos_bound. lia.
  - intros q Hq. specialize (Hr q Hq). destruct q; try by rewrite fn_lookup_insert_ne.
    simpl. destruct (decide (a = a0)) as [<-|]; [by rewrite !fn_lookup_insert|].
    rewrite !fn_lookup_insert_ne by congruence. done.
Qed.
Lemma wp_get_balance a Q σ :
  (fits 32 (σ (QBalance a)) → Q (σ (QBalance a)) σ) → wp (do_ (m_get_balance a)) Q σ.
Proof.
  intros HQ L r L' Hr (y & L1 & (-> & ->) & -> & ->). exists σ. split; [done|].
  rewrite <- (rp_reading _ _ Hr (QBalance a)) in HQ by done. simpl in HQ. apply HQ, Hr.
Qed.
Lemma wp_add_to_balance a d Q σ :
  0 <= d →
  (d + σ (QBalance a) < 2 ^ 256 → Q () (<[QBalance a := σ (QBalance a) + d]> σ)) →
  wp (do_ (m_add_to_balance a d)) Q σ.
Proof.
  intros Hd HQ L r L' Hr (y & L1 & (Hle & ->) & -> & ->). destruct y.
  pose proof (rp_balances _ _ Hr a) as Hb. pose proof (rp_reading _ _ Hr (QBalance a) I) as E. simpl in E.
  rewrite <- E in HQ. unfold fits in Hb. change (256 ^ Z.of_nat 32) with (2 ^ 256) in Hb. change U256_MAX with (2 ^ 256 - 1) in Hle.
  exists (<[QBalance a := u256 (lg_balances L a + d)]> σ). split; [by apply wp_balance_set|].
  unfold u256. rewrite Z.mod_small by lia. apply HQ. lia.
Qed.
Lemma wp_subtract_from_balance a d Q σ :
  0 <= d →
  (d <= σ (QBalance a) → Q () (<[QBalance a := σ (QBalance a) - d]> σ)) →
  wp (do_ (m_subtract_from_balance a d)) Q σ.
Proof.
  intros Hd HQ L r L' Hr (y & L1 & (Hle & ->) & -> & ->). destruct y.
  pose proof (rp_balances _ _ Hr a) as Hb. pose proof (rp_reading _ _ Hr (QBalance a) I) as E. simpl in E.
  rewrite <- E in HQ. unfold fits in Hb. change (256 ^ Z.of_nat 32) with (2 ^ 256) in Hb.
  exists (<[QBalance a := u256 (lg_balances L a - d)]> σ). split; [by apply wp_balance_set|].
  unfold u256. rewrite Z.mod_small by lia. by apply HQ.
Qed.

(** *** Variables that keep no quantity *)
Definition hidden {T} `{Packed T} (v : StorageVariable T) : Prop :=
  sv_address v = STAKING_CA ∧ ∃ x, located v x ∧ untracked x.
Section hidden.
Context {T : Type} `{Packed T}.
Implicit Types v : StorageVariable T.
Lemma wp_store_hidden v t Q σ : hidden v → Q () σ → wp (store v t) Q σ.
Proof. intros [Hc (x & Hx & Hu)]. by apply (wp_store_untracked v x). Qed.
Lemma wp_clear_hidden v Q σ : hidden v → Q () σ → wp (clear v) Q σ.
Proof. intros [Hc (x & Hx & Hu)]. by apply (wp_clear_untracked v x). Qed.
Lemma wp_load_any v Q σ : sv_address v = STAKING_CA → (∀ t, Q t σ) → wp (load v) Q σ.
Proof. intros Hc HQ. by apply wp_load. Qed.
Lemma wp_load_checked_any v Q σ : sv_address v = STAKING_CA → (∀ t, Q t σ) → wp (load_checked v) Q σ.
Proof. intros Hc HQ. by apply wp_load_checked. Qed.
End hidden.
Lemma wp_load_uint {w} (v : StorageVariable (uint w)) Q σ :
  sv_address v = STAKING_CA → (w <=? 32 * sv_slots (uint w))%nat = true → (∀ t, fits w t → Q t σ) → wp (load v) Q σ.
Proof. intros Hc Hw%Nat.leb_le HQ. apply wp_load; [done|]. intros L _. by apply HQ, sv_get_fits. Qed.
Lemma wp_load_checked_uint {w} (v : StorageVariable (uint w)) (Q : option Z → Store → Prop) σ :
  sv_address v = STAKING_CA → (w <=? 32 * sv_slots (uint w))%nat = true →
  Q None σ → (∀ t, fits w t → Q (Some t) σ) → wp (load_checked v) Q σ.
Proof.
  intros Hc Hw%Nat.leb_le HN HS. apply wp_load_checked; [done|]. intros L _.
  destruct (sv_checked _ _) eqn:E; [|done]. apply sv_checked_Some in E as ->. by apply HS, sv_get_fits.
Qed.

Ltac hidden_at x := split; [reflexivity|exists x; split; [apply located_at; [simpl; auto|reflexivity]|by intros []]].
Lemma hidden_delay : hidden vars_in_epoch_delay_period.
Proof. hidden_at XDelayPeriod. Qed.
Lemma hidden_last_val_id : hidden vars_last_val_id.
Proof. hidden_at XLastValId. Qed.
Lemma hidden_proposer : hidden vars_proposer_val_id.
Proof. hidden_at XProposerValId. Qed.
Lemma hidden_length s : hidden (length_ (array_of s)).
Proof. split; [by destruct s|]. exists (XLength s). split; [by apply located_at|by intros []]. Qed.
Lemma hidden_element s i : fits 8 i → hidden (arr_get (array_of s) i).
Proof. intros Hi. split; [by destruct s|]. exists (XElement s i). split; [by apply located_at|by intros []]. Qed.
Lemma hidden_val_id a : fits 20 a → hidden (vars_val_id a).
Proof. intros. hidden_at (XValId a). Qed.
Lemma hidden_val_id_bls a : fits 20 a → hidden (vars_val_id_bls a).
Proof. intros. hidden_at (XValIdBls a). Qed.
Lemma hidden_bucket v : fits 8 v → hidden (vars_val_bitset_bucket v).
Proof.
  intros Hv. split; [done|]. unfold fits in Hv. change (256 ^ Z.of_nat 8) with (2 ^ 64) in Hv.
  assert (Hs : 0 <= Z.shiftr v 8 < 2 ^ 56).
  { rewrite Z.shiftr_div_pow2 by lia. split; [apply Z.div_pos; lia|]. apply Z.div_lt_upper_bound; lia. }
  exists (XBucket (Z.shiftr v 8)). split; [|by intros []]. split; [done|].
  cbn [slots_of]. unfold range_of, vars_val_bitset_bucket. by rewrite shift_bucket by lia.
Qed.
Lemma hidden_acc v : fits 8 v → hidden (ve_accumulated_reward_per_token (vars_val_execution v)).
Proof. intros. hidden_at (XExecution v EAcc). Qed.
Lemma hidden_commission v : fits 8 v → hidden (ve_commission (vars_val_execution v)).
Proof. intros. hidden_at (XExecution v ECommission). Qed.
Lemma hidden_keys v : fits 8 v → hidden (ve_keys (vars_val_execution v)).
Proof. intros. hidden_at (XExecution v EKeys). Qed.
Lemma hidden_consensus_stake v : fits 8 v → hidden (cv_stake (vars_consensus_view v)).
Proof. intros. hidden_at (XConsensus v VStake). Qed.
Lemma hidden_consensus_commission v : fits 8 v → hidden (cv_commission (vars_consensus_view v)).
Proof. intros. hidden_at (XConsensus v VCommission). Qed.
Lemma hidden_snapshot_stake v : fits 8 v → hidden (cv_stake (vars_snapshot_view v)).
Proof. intros. hidden_at (XSnapshot v VStake). Qed.
Lemma hidden_snapshot_commission v : fits 8 v → hidden (cv_commission (vars_snapshot_view v)).
Proof. intros. hidden_at (XSnapshot v VCommission). Qed.
Lemma hidden_del_acc v a : fits 8 v → fits 20 a → hidden (del_accumulated_reward_per_token (vars_delegator v a)).
Proof. intros. hidden_at (XDelegator v a DAcc). Qed.
Lemma hidden_accumulator e v : fits 8 e → fits 8 v → hidden (vars_accumulated_reward_per_token e v).
Proof. intros. hidden_at (XAccumulator e v). Qed.
Lemma u64_fits x : fits 8 (u64 x).
Proof. unfold fits, u64. change (256 ^ Z.of_nat 8) with (2 ^ 64). apply Z.mod_pos_bound. lia. Qed.
Lemma u256_fits x : fits 32 (u256 x).
Proof. unfold fits, u256. change (256 ^ Z.of_nat 32) with (2 ^ 256). apply Z.mod_pos_bound. lia. Qed.
Lemma fits_0 n : fits n 0.
Proof. unfold fits. lia. Qed.

Create HintDb staking discriminated.
#[export] Hint Resolve hidden_delay hidden_last_val_id hidden_proposer hidden_length hidden_element hidden_val_id
  hidden_val_id_bls hidden_bucket hidden_acc hidden_commission hidden_keys hidden_consensus_stake
  hidden_consensus_commission hidden_snapshot_stake hidden_snapshot_commission hidden_del_acc hidden_accumulator
  scalar_epoch scalar_stake scalar_unclaimed scalar_del_stake scalar_delta scalar_next_delta scalar_rewards
  u64_fits u256_fits fits_0 : staking.

(** ** Automation *)
Ltac side := solve [eauto with staking | reflexivity | done].
Ltac wp_load_step :=
  lazymatch goal with
  | |- wp (load (del_epochs _)) _ _ => apply wp_load_epochs; [side|side|intros ?]
  | |- wp (load (del_list_node _)) _ _ => apply wp_load_node; [side|side|intros ?]
  | |- wp (load (ve_address_flags _)) _ _ => apply wp_load_flags; [side|intros ?]
  | |- wp (load (vars_withdrawal_request _ _ _)) _ _ => apply wp_load_request; [side|side|side|intros ? ? ?]
  | |- wp (load (vars_accumulated_reward_per_token _ _)) _ _ => apply wp_load_any; [reflexivity|intros ?]
  | |- wp (load (ve_keys _)) _ _ => apply wp_load_any; [reflexivity|intros ?]
  | |- wp (load vars_in_epoch_delay_period) _ _ => apply wp_load_any; [reflexivity|intros ?]
  | |- _ =>
      first
        [ eapply wp_load_scalar; [solve [eauto with staking]|intros ?]
        | apply wp_load_uint; [reflexivity|reflexivity|intros ? ?] ]
  end.
Ltac wp_store_step :=
  lazymatch goal with
  | |- wp (store (del_epochs _) _) _ _ => apply wp_store_epochs; [side|side|try side|]
  | |- wp (store (del_list_node _) _) _ _ => apply wp_store_node; [side|side|try side|]
  | |- wp (store (ve_address_flags _) _) _ _ => apply wp_store_flags; [side|try side|]
  | |- wp (store (vars_withdrawal_request _ _ _) _) _ _ => apply wp_store_request; [side|side|side| |]
  | |- wp (store (vars_accumulated_reward_per_token _ _) _) _ _ => apply wp_store_hidden; [solve [eauto with staking]|]
  | |- wp (store (ve_keys _) _) _ _ => apply wp_store_hidden; [solve [eauto with staking]|]
  | |- wp (store vars_in_epoch_delay_period _) _ _ => apply wp_store_hidden; [solve [eauto with staking]|]
  | |- wp (clear (vars_withdrawal_request _ _ _)) _ _ => apply wp_clear_request; [side|side|side|]
  | |- wp (clear (vars_accumulated_reward_per_token _ _)) _ _ => apply wp_clear_hidden; [solve [eauto with staking]|]
  | |- wp (clear vars_in_epoch_delay_period) _ _ => apply wp_clear_hidden; [solve [eauto with staking]|]
  | |- wp (store _ _) _ _ =>
      first
        [ eapply wp_store_scalar; [solve [eauto with staking]|try side|]
        | apply wp_store_hidden; [solve [eauto with staking]|] ]
  | |- wp (clear _) _ _ =>
      first
        [ eapply wp_clear_scalar; [solve [eauto with staking]|]
        | apply wp_clear_hidden; [solve [eauto with staking]|] ]
  end.
Ltac wp_step :=
  match goal with
  | |- rwp (rbind _ _) _ _ => apply rwp_bind
  | |- rwp (mbind _ _) _ _ => apply rwp_prog_bind
  | |- wp (mbind _ _) _ _ => apply wp_bind
  | |- rwp (rok _) _ _ => apply rwp_ok
  | |- rwp (rfail _) _ _ => apply rwp_fail
  | |- rwp (rcheck _ _) _ _ => apply rwp_check; intros ?
  | |- rwp (rmath _) _ _ => apply rwp_math; intros ? ?
  | |- rwp (rabi _) _ _ => apply rwp_abi; intros ? ?
  | |- rwp (let _ := _ in _) _ _ => cbv zeta
  | |- wp (let _ := _ in _) _ _ => cbv zeta
  | |- rwp (if ?b then _ else _) _ _ => destruct b eqn:?
  | |- wp (if ?b then _ else _) _ _ => destruct b eqn:?
  | |- wp (Ret _) _ _ => apply wp_ret
  | |- wp (Stop _) _ _ => apply wp_stop
  | |- wp (emit_log _) _ _ => apply wp_log
  | |- wp (passert _) _ _ => apply wp_passert; intros ?
  | |- wp (passert_throw _ _) _ _ => apply wp_passert_throw; intros ?
  | |- wp (del_get_delta_epoch _) _ _ => apply wp_get_delta_epoch; [side|side|intros ?]
  | |- wp (del_get_next_delta_epoch _) _ _ => apply wp_get_next_delta_epoch; [side|side|intros ?]
  | |- wp (del_set_delta_epoch _ _) _ _ => apply wp_set_delta_epoch; [side|side|try side|]
  | |- wp (del_set_next_delta_epoch _ _) _ _ => apply wp_set_next_delta_epoch; [side|side|try side|]
  | |- wp (load _) _ _ => wp_load_step
  | |- wp (load_checked (vars_withdrawal_request _ _ _)) _ _ =>
      apply wp_load_checked_request; [side|side|side|intros ?|intros ? ? ?]
  | |- wp (load_checked _) _ _ =>
      first [ apply wp_load_checked_uint; [reflexivity|reflexivity| |intros ? ?]
            | apply wp_load_checked_any; [reflexivity|intros ?] ]
  | |- wp (store _ _) _ _ => wp_store_step
  | |- wp (clear _) _ _ => wp_store_step
  | |- wp (do_ (m_get_balance _)) _ _ => apply wp_get_balance; intros ?
  | |- wp (do_ (m_add_to_balance _ _)) _ _ => apply wp_add_to_balance; [|intros ?]
  | |- wp (do_ (m_subtract_from_balance _ _)) _ _ => apply wp_subtract_from_balance; [|intros ?]
  end.
Ltac wps := repeat wp_step.
(** Reads of updated stores. *)
Ltac lookups := repeat first [rewrite fn_lookup_insert | rewrite fn_lookup_insert_ne by congruence].
