(* ===== verification/StakingLists.v ===== *)
(** * The linked lists of the staking contract

    The delegators of a validator and the validators of a delegator are two
    doubly linked lists through the same nodes.  [is_list] says which list a
    key has in a store; insertion, removal and traversal are proved against
    it for any list with the laws of [ListLaws], which both have. *)
From S2P Require Import Prelude Traits Account VersionStack AccountState BlockState State Methods Rlp RlpFacts CheckedMath Ledger Abi.
From S2P Require Import ContractStorage StorageFacts StakingVars StakingLayout Words Precompiles Staking StakingCalls StakingStore.

Definition is_node (q : quantity) : bool :=
  match q with QINext _ _ | QIPrev _ _ | QANext _ _ | QAPrev _ _ => true | _ => false end.

(** ** What a list needs of its nodes *)
Class ListLaws (T : LinkedListTrait) := {
  key_ok : Z → Prop;
  ptr_ok : Z → Prop;
  node : Store → Z → Z → ListNode;
  set_node_at : Z → Z → ListNode → Store → Store;
  lq_next : Z → Z → quantity;
  lq_prev : Z → Z → quantity;
  ptr_0 : ptr_ok 0;
  ptr_sentinel : ptr_ok (sentinel T);
  sentinel_0 : sentinel T ≠ 0;
  ll_address k p : sv_address (node_at T k p) = STAKING_CA;
  node_home : Z → Z → Location;
  ll_located k p : key_ok k → ptr_ok p → located (node_at T k p) (node_home k p);
  ll_ext σ σ' k p : key_ok k → ptr_ok p → (∀ q, quantity_ok q → σ q = σ' q) → node σ k p = node σ' k p;
  ll_ok n : node_ok n → ptr_ok (next T n) ∧ ptr_ok (prev T n);
  ll_set_ok p n : ptr_ok p → node_ok n → node_ok (set_next T p n) ∧ node_ok (set_prev T p n);
  ll_next_next p n : next T (set_next T p n) = p;
  ll_next_prev p n : next T (set_prev T p n) = next T n;
  ll_prev_prev p n : prev T (set_prev T p n) = p;
  ll_prev_next p n : prev T (set_next T p n) = prev T n;
  ll_rest_next p n : set_next T 0 (set_prev T 0 (set_next T p n)) = set_next T 0 (set_prev T 0 n);
  ll_rest_prev p n : set_next T 0 (set_prev T 0 (set_prev T p n)) = set_next T 0 (set_prev T 0 n);
  ll_get_set σ k p n : node (set_node_at k p n σ) k p = n;
  ll_get_other σ k p p' n : p ≠ p' → node (set_node_at k p n σ) k p' = node σ k p';
  (** the other list through the node is not touched *)
  ll_frame σ k p n q :
    set_next T 0 (set_prev T 0 n) = set_next T 0 (set_prev T 0 (node σ k p)) →
    q ≠ lq_next k p → q ≠ lq_prev k p → set_node_at k p n σ q = σ q;
  ll_set_other σ k p n q : is_node q = false → set_node_at k p n σ q = σ q;
  ll_load σ k p Q : key_ok k → ptr_ok p → (node_ok (node σ k p) → Q (node σ k p) σ) → wp (load (node_at T k p)) Q σ;
  ll_store σ k p n Q : key_ok k → ptr_ok p → node_ok n → Q () (set_node_at k p n σ) → wp (store (node_at T k p) n) Q σ
}.

Lemma set_node_other v a n σ q : is_node q = false → set_node v a n σ q = σ q.
Proof. intros Hq. unfold set_node. destruct q; try done; by lookups. Qed.
Lemma node_of_set v a n σ : node_of v a (set_node v a n σ) = n.
Proof. unfold node_of, set_node. lookups. by destruct n. Qed.
Lemma node_of_other v a v' a' n σ : (v, a) ≠ (v', a') → node_of v' a' (set_node v a n σ) = node_of v' a' σ.
Proof.
  intros Hne. unfold node_of, set_node.
  repeat rewrite fn_lookup_insert_ne by congruence. done.
Qed.
Lemma fits_mono n m x : (n <= m)%nat → fits n x → fits m x.
Proof.
  intros Hnm [H0 H1]. split; [done|]. eapply Z.lt_le_trans; [exact H1|]. apply Z.pow_le_mono_r; lia.
Qed.
Ltac node_frame := unfold set_node, node_of; cbn; intros [= E1 E2]; intros;
  repeat match goal with |- <[?q := _]> _ ?q' = _ =>
    destruct (decide (q = q')) as [<-|]; [rewrite fn_lookup_insert; congruence|rewrite fn_lookup_insert_ne by done] end; done.
#[global] Instance validators_of_laws : ListLaws validators_of.
Proof.
  refine {| key_ok := fits 20; ptr_ok := fits 8; node := λ σ k p, node_of p k σ;
            set_node_at := λ k p n, set_node p k n;
            node_home := λ k p, XDelegator p k DListNode;
            lq_next := λ k p, QINext p k; lq_prev := λ k p, QIPrev p k |}; cbn [sentinel next prev set_next set_prev node_at validators_of].
  - apply fits_0.
  - unfold fits. change (256 ^ Z.of_nat 8) with (2 ^ 64). change U64_MAX with (2 ^ 64 - 1). lia.
  - discriminate.
  - done.
  - intros. by apply located_at.
  - intros σ σ' k p Hk Hp Hq. unfold node_of. by rewrite !Hq by done.
  - by intros n (? & ? & _).
  - intros p n Hp (? & ? & ? & ?). by split.
  - done.
  - done.
  - done.
  - done.
  - done.
  - done.
  - intros. apply node_of_set.
  - intros. apply node_of_other. congruence.
  - intros σ k p n q. node_frame.
  - intros. by apply set_node_other.
  - intros. by apply wp_load_node.
  - intros. by apply wp_store_node.
Defined.
#[global] Instance delegators_of_laws : ListLaws delegators_of.
Proof.
  refine {| key_ok := fits 8; ptr_ok := fits 20; node := λ σ k p, node_of k p σ;
            set_node_at := λ k p n, set_node k p n;
            node_home := λ k p, XDelegator k p DListNode;
            lq_next := λ k p, QANext k p; lq_prev := λ k p, QAPrev k p |}; cbn [sentinel next prev set_next set_prev node_at delegators_of].
  - apply fits_0.
  - unfold fits. change (256 ^ Z.of_nat 20) with (2 ^ 160). lia.
  - discriminate.
  - done.
  - intros. by apply located_at.
  - intros σ σ' k p Hk Hp Hq. unfold node_of. by rewrite !Hq by done.
  - by intros n (_ & _ & ? & ?).
  - intros p n Hp (? & ? & ? & ?). by split.
  - done.
  - done.
  - done.
  - done.
  - done.
  - done.
  - intros. apply node_of_set.
  - intros. apply node_of_other. congruence.
  - intros σ k p n q. node_frame.
  - intros. by apply set_node_other.
  - intros. by apply wp_load_node.
  - intros. by apply wp_store_node.
Defined.

(** ** Chains *)
Section chains.
Context (s : Z).
Implicit Types nx pv : Z → Z.
(** From [b] along [nx] through [l], and back along [pv]. *)
Fixpoint chain nx pv (b : Z) (l : list Z) : Prop :=
  match l with
  | [] => nx b = 0
  | p :: r => nx b = p ∧ pv p = b ∧ chain nx pv p r
  end.
Lemma chain_ext nx pv nx' pv' b l :
  (∀ x, x ∈ b :: l → nx' x = nx x) → (∀ x, x ∈ l → pv' x = pv x) → chain nx pv b l → chain nx' pv' b l.
Proof.
  revert b. induction l as [|p r IH]; intros b Hn Hp; simpl.
  - by rewrite Hn by set_solver.
  - intros (H1 & H2 & H3). rewrite Hn, Hp by set_solver. split_and!; [done..|].
    apply IH; [set_solver..|done].
Qed.
Lemma chain_pv nx pv b l1 p l2 : chain nx pv b (l1 ++ p :: l2) → pv p ∈ b :: l1.
Proof.
  revert b. induction l1 as [|y l1 IH]; intros b; simpl.
  - intros (_ & -> & _). set_solver.
  - intros (_ & _ & Hc). apply IH in Hc. set_solver.
Qed.
Lemma chain_nx nx pv b l1 p l2 : chain nx pv b (l1 ++ p :: l2) → nx p = hd 0 l2 ∧ chain nx pv p l2.
Proof.
  revert b. induction l1 as [|y l1 IH]; intros b; simpl.
  - intros (_ & _ & Hc). split; [|done]. destruct l2; [done|]. by destruct Hc.
  - intros (_ & _ & Hc). by apply IH in Hc.
Qed.

(** The list of a key: its sentinel [s] is before the first element, and the
    rest has no predecessor. *)
Record is_chain nx pv (ok : Z → Prop) (l : list Z) : Prop := {
  ic_nodup : NoDup l;
  ic_members p : p ∈ l → ok p ∧ p ≠ 0 ∧ p ≠ s;
  ic_chain : chain nx pv s l;
  ic_out p : ok p → p ≠ s → p ∉ l → pv p = 0
}.
Definition insert_nx (p : Z) nx : Z → Z := <[s := p]> (<[p := nx s]> nx).
Definition insert_pv (p : Z) nx pv : Z → Z :=
  <[p := s]> (if decide (nx s = 0) then pv else <[nx s := p]> pv).
Lemma is_chain_insert nx pv ok l p :
  is_chain nx pv ok l → ok p → p ≠ 0 → p ≠ s → p ∉ l →
  is_chain (insert_nx p nx) (insert_pv p nx pv) ok (p :: l).
Proof.
  intros [Hnd Hm Hc Ho] Hp Hp0 Hps Hpl. unfold insert_nx, insert_pv. split.
  - by constructor.
  - intros q [->|Hq]%elem_of_cons; [done|auto].
  - simpl. split_and!; [apply fn_lookup_insert|apply fn_lookup_insert|].
    destruct l as [|q r]; simpl in *.
    { by rewrite fn_lookup_insert_ne, fn_lookup_insert by congruence. }
    destruct Hc as (H1 & H2 & H3). destruct (Hm q ltac:(set_solver)) as (_ & Hq0 & Hqs).
    apply list.NoDup_cons in Hnd as [Hqr Hnd]. assert (p ≠ q) by set_solver.
    rewrite H1, decide_False by done. split_and!.
    + by rewrite fn_lookup_insert_ne, fn_lookup_insert by congruence.
    + by rewrite fn_lookup_insert_ne, fn_lookup_insert by congruence.
    + eapply chain_ext; [| |exact H3].
      * intros x Hx. destruct (Hm x Hx) as (_ & _ & ?). rewrite !fn_lookup_insert_ne by set_solver. done.
      * intros x Hx. rewrite !fn_lookup_insert_ne by set_solver. done.
  - intros q Hq Hqs Hql. rewrite fn_lookup_insert_ne by set_solver. case_decide; [apply Ho; set_solver|].
    rewrite fn_lookup_insert_ne; [apply Ho; set_solver|]. intros <-. destruct l as [|y r]; simpl in Hc; [done|].
    destruct Hc as (H1 & _). set_solver.
Qed.
Definition remove_nx (p : Z) nx pv : Z → Z := <[p := 0]> (<[pv p := nx p]> nx).
Definition remove_pv (p : Z) nx pv : Z → Z :=
  <[p := 0]> (if decide (nx p = 0) then pv else <[nx p := pv p]> pv).
Lemma chain_remove nx pv b l1 p l2 :
  NoDup (b :: l1 ++ p :: l2) → 0 ∉ l1 ++ p :: l2 → chain nx pv b (l1 ++ p :: l2) →
  chain (remove_nx p nx pv) (remove_pv p nx pv) b (l1 ++ l2).
Proof.
  unfold remove_nx, remove_pv. revert b. induction l1 as [|y l1 IH]; intros b Hnd H0 Hc.
  - simpl in *. destruct Hc as (H1 & H2 & H3). rewrite H2.
    apply list.NoDup_cons in Hnd as [Hb Hnd]. apply list.NoDup_cons in Hnd as [Hp Hnd].
    assert (p ≠ b) by set_solver. destruct l2 as [|q r]; simpl in *.
    + rewrite fn_lookup_insert_ne, fn_lookup_insert by done. done.
    + destruct H3 as (H3 & H4 & H5). assert (p ≠ q ∧ q ≠ 0) as [? ?] by set_solver.
      rewrite H3. rewrite decide_False by done. split_and!.
      * rewrite fn_lookup_insert_ne, fn_lookup_insert by done. done.
      * rewrite fn_lookup_insert_ne, fn_lookup_insert by done. done.
      * apply list.NoDup_cons in Hnd as [? Hnd]. eapply chain_ext; [| |exact H5].
        -- intros x Hx. rewrite !fn_lookup_insert_ne by set_solver. done.
        -- intros x Hx. rewrite !fn_lookup_insert_ne by set_solver. done.
  - simpl in Hc |- *. destruct Hc as (H1 & H2 & H3). apply list.NoDup_cons in Hnd as [Hb Hnd].
    pose proof (chain_pv _ _ _ _ _ _ H3) as Hpv. pose proof (chain_nx _ _ _ _ _ _ H3) as [Hnx _].
    assert (p ≠ b ∧ p ≠ y ∧ y ≠ 0) as (? & ? & ?).
    { simpl in Hnd. apply list.NoDup_cons in Hnd as [? _]. set_solver. }
    split_and!.
    + assert (pv p ≠ b).
      { intros E. rewrite E in Hpv. apply Hb. apply elem_of_app. by left. }
      rewrite !fn_lookup_insert_ne by done. done.
    + rewrite fn_lookup_insert_ne by done. case_decide; [done|]. rewrite fn_lookup_insert_ne; [done|].
      rewrite Hnx in *. destruct l2 as [|q r]; simpl in *; [done|]. apply list.NoDup_cons in Hnd as [? _]. set_solver.
    + apply IH; [done|set_solver|done].
Qed.
Lemma is_chain_remove nx pv ok l1 p l2 :
  s ≠ 0 → is_chain nx pv ok (l1 ++ p :: l2) →
  is_chain (remove_nx p nx pv) (remove_pv p nx pv) ok (l1 ++ l2).
Proof.
  intros Hs0 [Hnd Hm Hc Ho].
  assert (Hnp : p ∉ l1 ++ l2 ∧ NoDup (l1 ++ l2)).
  { rewrite <- Permutation_middle in Hnd. by apply list.NoDup_cons in Hnd. }
  destruct Hnp as [Hnp Hnd']. split; [done|..].
  - intros q Hq. apply Hm. set_solver.
  - apply chain_remove; [|intros H0; by destruct (Hm 0 H0) as (_ & [] & _)|done]. constructor; [|done].
    intros Hin. by destruct (Hm s Hin) as (_ & _ & []).
  - intros q Hq Hqs Hql. unfold remove_pv. destruct (decide (p = q)) as [<-|Hpq]; [apply fn_lookup_insert|].
    rewrite fn_lookup_insert_ne by done. case_decide as E; [apply Ho; set_solver|].
    rewrite fn_lookup_insert_ne; [apply Ho; set_solver|]. intros <-.
    pose proof (chain_nx _ _ _ _ _ _ Hc) as [Hnx _]. rewrite Hnx in *. destruct l2; simpl in *; set_solver.
Qed.
End chains.
Lemma is_chain_ext s nx pv nx' pv' (ok : Z → Prop) l :
  ok s → (∀ x, ok x → nx' x = nx x) → (∀ x, ok x → pv' x = pv x) → is_chain s nx pv ok l → is_chain s nx' pv' ok l.
Proof.
  intros Hs Hn Hp [H1 H2 H3 H4].
  assert (Hok : ∀ x, x ∈ l → ok x) by (intros x Hx; by apply H2).
  split; [done..| |].
  - eapply chain_ext; [..|exact H3]; [|auto]. intros x [->|Hx]%elem_of_cons; auto.
  - intros. rewrite Hp by done. auto.
Qed.
Lemma insert_at {A} `{EqDecision A} {B} (f : A → B) a x t : a = x → <[a := t]> f x = t.
Proof. intros <-. apply fn_lookup_insert. Qed.

(** ** The operations *)
Section lists.
Context {T : LinkedListTrait} `{ListLaws T} (k : Z) (Hk : key_ok k).
Definition nx (σ : Store) (p : Z) : Z := next T (node σ k p).
Definition pv (σ : Store) (p : Z) : Z := prev T (node σ k p).
Definition is_list (σ : Store) (l : list Z) : Prop := is_chain (sentinel T) (nx σ) (pv σ) ptr_ok l.
(** Nothing but the links of this list changes. *)
Definition list_frame (σ σ' : Store) : Prop := ∀ q, (∀ p, q ≠ lq_next k p ∧ q ≠ lq_prev k p) → σ' q = σ q.
(** A node of which only the links of this list have changed. *)
Definition relinked (σ : Store) (p : Z) (n : ListNode) : Prop :=
  set_next T 0 (set_prev T 0 n) = set_next T 0 (set_prev T 0 (node σ k p)).

Lemma nx_set σ p n x : nx (set_node_at k p n σ) x = <[p := next T n]> (nx σ) x.
Proof.
  unfold nx. destruct (decide (p = x)) as [<-|]; [by rewrite fn_lookup_insert, ll_get_set|].
  by rewrite fn_lookup_insert_ne, ll_get_other by done.
Qed.
Lemma pv_set σ p n x : pv (set_node_at k p n σ) x = <[p := prev T n]> (pv σ) x.
Proof.
  unfold pv. destruct (decide (p = x)) as [<-|]; [by rewrite fn_lookup_insert, ll_get_set|].
  by rewrite fn_lookup_insert_ne, ll_get_other by done.
Qed.
Lemma frame_set σ σ0 p n : relinked σ p n → list_frame σ0 σ → list_frame σ0 (set_node_at k p n σ).
Proof. intros Hn Hf q Hq. rewrite ll_frame; [by apply Hf|done|apply Hq..]. Qed.

Ltac lstep :=
  first [ wp_step
        | apply ll_load; [done|try done|intros ?]
        | apply ll_store; [done|try done|try done|] ].
Ltac list_side :=
  repeat first
    [ assumption
    | apply ptr_sentinel | apply ptr_0
    | apply ll_set_ok
    | match goal with |- ptr_ok (next T ?n) => apply (ll_ok n) | |- ptr_ok (prev T ?n) => apply (ll_ok n) end ].
Ltac rest := unfold relinked; rewrite ?ll_get_other by congruence; rewrite ?ll_rest_next, ?ll_rest_prev; reflexivity.
(** Equality of links after updates, by the cases of the address. *)
Ltac links x :=
  repeat first
    [ rewrite nx_set | rewrite pv_set
    | rewrite ll_next_next | rewrite ll_next_prev | rewrite ll_prev_prev | rewrite ll_prev_next
    | rewrite ll_get_other by congruence
    | match goal with |- context [<[?a := ?t]> ?f x] =>
        destruct (decide (a = x));
        [rewrite (insert_at f a x t) by done|rewrite (fn_lookup_insert_ne f a x t) by done]
      end ];
  unfold nx, pv in *; try congruence.

Lemma is_list_prev σ l p : is_list σ l → ptr_ok p → p ≠ sentinel T → (pv σ p = 0 ↔ p ∉ l).
Proof.
  intros Hl Hp Hps. split; [|by apply Hl]. intros H0 (l1 & l2 & ->)%list_elem_of_split.
  pose proof (chain_pv _ _ _ _ _ _ (ic_chain _ _ _ _ _ Hl)) as Hin. rewrite H0 in Hin.
  apply elem_of_cons in Hin as [E|Hin]; [by apply sentinel_0|].
  by destruct (ic_members _ _ _ _ _ Hl 0 ltac:(set_solver)) as (_ & [] & _).
Qed.
Lemma is_list_head σ l : is_list σ l → nx σ (sentinel T) = hd 0 l.
Proof. intros Hl. pose proof (ic_chain _ _ _ _ _ Hl) as Hc. destruct l; [done|apply Hc]. Qed.

Lemma next_member σ l : is_list σ l → nx σ (sentinel T) ≠ 0 → nx σ (sentinel T) ∈ l ∧ nx σ (sentinel T) ≠ sentinel T.
Proof.
  intros Hl H0. rewrite (is_list_head σ l Hl) in *. destruct l as [|q r]; [done|]. simpl.
  split; [left|]. apply (ic_members _ _ _ _ _ Hl). left.
Qed.

Lemma wp_list_insert σ p l Q :
  is_list σ l → ptr_ok p →
  (∀ σ', is_list σ' (if decide (p ∈ l) then l else p :: l) → list_frame σ σ' → Q () σ') →
  rwp (linked_list_insert T k p) Q σ.
Proof.
  intros Hl Hp HQ. unfold linked_list_insert. do 2 lstep. apply negb_true_iff, orb_false_iff in H0 as [H0 Hs].
  apply Z.eqb_neq in H0, Hs. pose proof (is_list_prev σ l p Hl Hp Hs) as Hpv. pose proof (is_list_head σ l Hl) as Hh.
  do 3 lstep.
  { lstep. apply HQ; [|done]. apply negb_true_iff, Z.eqb_neq in Heqb. rewrite decide_True; [done|].
    destruct (decide (p ∈ l)) as [|Hn]; [done|]. by apply Hpv in Hn. }
  apply negb_false_iff, Z.eqb_eq in Heqb. assert (Hpl : p ∉ l) by (by apply Hpv). rewrite decide_False in HQ by done.
  pose proof (is_chain_insert _ _ _ _ _ p Hl Hp H0 Hs Hpl) as Hins.
  repeat lstep; list_side; apply HQ.
  1, 2: apply negb_true_iff, Z.eqb_neq in Heqb0; change (next T (node σ k (sentinel T))) with (nx σ (sentinel T)) in *;
    destruct (next_member σ l Hl Heqb0) as [Hm Hms]; assert (nx σ (sentinel T) ≠ p) by congruence.
  3, 4: apply negb_false_iff, Z.eqb_eq in Heqb0; change (next T (node σ k (sentinel T))) with (nx σ (sentinel T)) in *.
  - eapply is_chain_ext; [apply ptr_sentinel|..|exact Hins]; unfold insert_nx, insert_pv; intros x _; [links x|].
    rewrite decide_False by done. links x.
  - repeat (apply frame_set; [rest|]). done.
  - eapply is_chain_ext; [apply ptr_sentinel|..|exact Hins]; unfold insert_nx, insert_pv; intros x _; [links x|].
    rewrite decide_True by done. links x.
  - repeat (apply frame_set; [rest|]). done.
Qed.

(** ** Removal *)
Lemma filter_absent (p : Z) (l : list Z) : p ∉ l → filter (.≠ p) l = l.
Proof.
  induction l as [|q r IH]; [done|]. intros Hn. rewrite filter_cons_True by set_solver. f_equal. apply IH. set_solver.
Qed.
Lemma filter_split (p : Z) (l1 l2 : list Z) : NoDup (l1 ++ p :: l2) → filter (.≠ p) (l1 ++ p :: l2) = l1 ++ l2.
Proof.
  intros Hnd. rewrite list.filter_app, filter_cons_False by auto.
  rewrite <- Permutation_middle in Hnd. apply list.NoDup_cons in Hnd as [Hn _].
  rewrite !filter_absent by set_solver. done.
Qed.
(** The neighbours of a member. *)
Lemma neighbours σ l1 p l2 : is_list σ (l1 ++ p :: l2) →
  pv σ p ≠ p ∧ nx σ p ≠ p ∧ (nx σ p ≠ 0 → nx σ p ≠ pv σ p).
Proof.
  intros Hl. pose proof (chain_pv _ _ _ _ _ _ (ic_chain _ _ _ _ _ Hl)) as Hp.
  pose proof (chain_nx _ _ _ _ _ _ (ic_chain _ _ _ _ _ Hl)) as [Hn _].
  destruct (ic_members _ _ _ _ _ Hl p ltac:(set_solver)) as (_ & H0 & Hs).
  pose proof (ic_nodup _ _ _ _ _ Hl) as Hnd. apply list.NoDup_app in Hnd as (_ & Hd & Hnd).
  apply list.NoDup_cons in Hnd as [Hp2 _].
  assert (Hin : nx σ p = 0 ∨ nx σ p ∈ l2) by (rewrite Hn; destruct l2; simpl; set_solver).
  split_and!.
  - intros E. rewrite E in Hp. set_solver.
  - intros E. destruct Hin as [Hin|Hin]; [congruence|]. by rewrite E in Hin.
  - intros Hn0 E. destruct Hin as [Hin|Hin]; [done|]. rewrite <- E in Hp.
    apply elem_of_cons in Hp as [E2|Hp]; [|set_solver].
    destruct (ic_members _ _ _ _ _ Hl (nx σ p) ltac:(set_solver)) as (_ & _ & []). done.
Qed.
Lemma wp_list_remove σ p l Q :
  is_list σ l → ptr_ok p →
  (∀ σ', is_list σ' (filter (.≠ p) l) → list_frame σ σ' → Q () σ') →
  wp (linked_list_remove T k p) Q σ.
Proof.
  intros Hl Hp HQ. unfold linked_list_remove. do 2 lstep. apply andb_true_iff in H0 as [H0 Hs].
  apply negb_true_iff, Z.eqb_neq in H0, Hs. pose proof (is_list_prev σ l p Hl Hp Hs) as Hpv.
  do 3 lstep.
  { lstep. apply HQ; [|done]. apply Z.eqb_eq in Heqb. apply Hpv in Heqb. by rewrite filter_absent. }
  apply Z.eqb_neq in Heqb. destruct (decide (p ∈ l)) as [(l1 & l2 & ->)%list_elem_of_split|Hn]; [|by apply Hpv in Hn].
  rewrite filter_split in HQ by apply Hl. destruct (neighbours σ l1 p l2 Hl) as (Hvp & Hnp & Hnv).
  pose proof (is_chain_remove _ _ _ _ _ _ _ sentinel_0 Hl) as Hrem. unfold remove_nx, remove_pv, nx, pv in *.
  repeat lstep; list_side; apply HQ.
  1, 2: apply negb_true_iff, Z.eqb_neq in Heqb0; specialize (Hnv Heqb0); rewrite decide_False in Hrem by done.
  3, 4: apply negb_false_iff, Z.eqb_eq in Heqb0; rewrite decide_True in Hrem by done.
  - eapply is_chain_ext; [apply ptr_sentinel|..|exact Hrem]; intros x _; links x.
  - repeat (apply frame_set; [rest|]). done.
  - eapply is_chain_ext; [apply ptr_sentinel|..|exact Hrem]; intros x _; links x.
  - repeat (apply frame_set; [rest|]). done.
Qed.
(** ** Without assumptions on the list: only nodes change *)
Definition nodes_only (σ σ' : Store) : Prop := ∀ q, is_node q = false → σ' q = σ q.
Lemma nodes_only_set σ0 σ p n : nodes_only σ0 σ → nodes_only σ0 (set_node_at k p n σ).
Proof. intros Hn q Hq. rewrite ll_set_other by done. by apply Hn. Qed.
Lemma wp_insert_nodes σ p Q :
  ptr_ok p → (∀ σ', nodes_only σ σ' → Q () σ') → rwp (linked_list_insert T k p) Q σ.
Proof.
  intros Hp HQ. unfold linked_list_insert. repeat lstep; list_side; apply HQ; repeat apply nodes_only_set; done.
Qed.
Lemma wp_remove_nodes σ p Q :
  ptr_ok p → (∀ σ', nodes_only σ σ' → Q () σ') → wp (linked_list_remove T k p) Q σ.
Proof.
  intros Hp HQ. unfold linked_list_remove. repeat lstep; list_side; apply HQ; repeat apply nodes_only_set; done.
Qed.
(** ** Traversal *)
Lemma wp_traverse_loop σ b l n (Q : Z * list Z → Store → Prop) :
  chain (nx σ) (pv σ) b l → (∀ p, p ∈ l → ptr_ok p ∧ p ≠ 0) →
  Q (hd 0 (drop n l), take n l) σ → wp (traverse_loop T k (hd 0 l) n) Q σ.
Proof.
  revert b l Q. induction n as [|n IH]; intros b l Q Hc Hm HQ; cbn [traverse_loop].
  { apply wp_ret. by rewrite take_0, drop_0 in HQ. }
  destruct l as [|p r]; cbn [hd].
  - apply wp_ret. done.
  - destruct (Hm p ltac:(set_solver)) as [Hp H0]. rewrite (proj2 (Z.eqb_neq p 0) H0).
    lstep. lstep. lstep. destruct Hc as (_ & _ & Hc).
    assert (E : next T (node σ k p) = hd 0 r) by (destruct r; [done|by destruct Hc]).
    rewrite E. eapply IH; [exact Hc|set_solver|]. lstep. done.
Qed.
(** The page that begins at [start]: the first elements of the rest of the
    list from there, where the next page begins, and whether it is the last. *)
Fixpoint from_ptr (start : Z) (l : list Z) : list Z :=
  match l with [] => [] | p :: r => if decide (p = start) then l else from_ptr start r end.
Lemma from_ptr_split start l1 l2 : start ∉ l1 → from_ptr start (l1 ++ start :: l2) = start :: l2.
Proof.
  induction l1 as [|q l1 IH]; intros Hn; simpl; [by rewrite decide_True|].
  rewrite decide_False by set_solver. apply IH. set_solver.
Qed.
Lemma from_ptr_absent start l : start ∉ l → from_ptr start l = [].
Proof.
  induction l as [|q l IH]; intros Hn; simpl; [done|]. rewrite decide_False by set_solver. apply IH. set_solver.
Qed.
Definition page (start limit : Z) (l : list Z) : bool * Z * list Z :=
  let rest := if decide (start = 0) then l else from_ptr start l in
  let n := Z.to_nat limit in
  match rest with
  | [] => (true, start, [])
  | _ => (bool_decide (length rest <= n)%nat, hd 0 (drop n rest), take n rest)
  end.
Lemma hd_drop_0 (l : list Z) n : 0 ∉ l → (hd 0 (drop n l) =? 0) = bool_decide (length l <= n)%nat.
Proof.
  intros H0. destruct (bool_decide_reflect (length l <= n)%nat) as [Hn|Hn].
  - by rewrite drop_ge.
  - destruct (drop n l) as [|q r] eqn:E.
    + assert (length (drop n l) = 0%nat) as Hlen by (by rewrite E). rewrite length_drop in Hlen. lia.
    + simpl. apply Z.eqb_neq. intros ->. apply H0. rewrite <- (take_drop n l), E. set_solver.
Qed.
(** From a pointer, [rest] what follows it. *)
Lemma wp_page σ b ptr rest limit (Q : bool * Z * list Z → Store → Prop) :
  ptr_ok ptr → match rest with [] => pv σ ptr = 0 | p :: _ => ptr = p ∧ b ≠ 0 ∧ chain (nx σ) (pv σ) b rest end →
  (∀ p, p ∈ rest → ptr_ok p ∧ p ≠ 0) →
  Q (match rest with
     | [] => (true, ptr, [])
     | _ => (bool_decide (length rest <= Z.to_nat limit)%nat, hd 0 (drop (Z.to_nat limit) rest), take (Z.to_nat limit) rest)
     end) σ →
  wp (node ← load (node_at T k ptr);
      if prev T node =? 0 then Ret (true, ptr, [])
      else r ← traverse_loop T k ptr (Z.to_nat limit); Ret (r.1 =? 0, r.1, r.2)) Q σ.
Proof.
  intros Hp Hrest Hm HQ. lstep. lstep. destruct rest as [|p r].
  - change (prev T (node σ k ptr)) with (pv σ ptr). rewrite Hrest. simpl. lstep. done.
  - destruct Hrest as (-> & Hb & Hc). pose proof Hc as (_ & Hpv & _).
    change (prev T (node σ k p)) with (pv σ p). rewrite Hpv, (proj2 (Z.eqb_neq b 0) Hb). lstep.
    change p with (hd 0 (p :: r)) at 1. eapply wp_traverse_loop; [exact Hc|done|]. apply wp_ret. cbn [fst snd].
    rewrite hd_drop_0; [done|]. intros Hin. by destruct (Hm 0 Hin).
Qed.
Lemma wp_list_traverse σ l start limit (Q : bool * Z * list Z → Store → Prop) :
  is_list σ l → ptr_ok start → start ≠ sentinel T →
  Q (page start limit l) σ → wp (linked_list_traverse T k start limit) Q σ.
Proof.
  intros Hl Hp Hs HQ. unfold linked_list_traverse, page in *.
  assert (Hmem : ∀ p, p ∈ l → ptr_ok p ∧ p ≠ 0) by (intros p Hpl; destruct (ic_members _ _ _ _ _ Hl p Hpl); tauto).
  pose proof (is_list_head σ l Hl) as Hh. lstep. destruct (Z.eqb_spec start 0) as [->|Hs0].
  - rewrite decide_True in HQ by done. do 2 lstep; list_side. lstep.
    change (next T (node σ k (sentinel T))) with (nx σ (sentinel T)). rewrite Hh.
    apply (wp_page σ (sentinel T) (hd 0 l) l); [|destruct l; cbn [hd]|done|by destruct l].
    + destruct l as [|p r]; [apply ptr_0|]. apply Hmem. set_solver.
    + apply Hl; [done|done|set_solver].
    + split_and!; [done|apply sentinel_0|apply Hl].
  - rewrite decide_False in HQ by done. lstep.
    destruct (decide (start ∈ l)) as [(l1 & l2 & ->)%list_elem_of_split|Hn].
    + pose proof (ic_nodup _ _ _ _ _ Hl) as Hnd. apply list.NoDup_app in Hnd as (_ & Hd & _).
      rewrite from_ptr_split in HQ by (intros Hin; apply (Hd start Hin); left).
      pose proof (chain_pv _ _ _ _ _ _ (ic_chain _ _ _ _ _ Hl)) as Hpv.
      apply (wp_page σ (pv σ start) start (start :: l2)); [done|split_and!; [done| |]|set_solver|done].
      * intros E. rewrite E in Hpv. apply elem_of_cons in Hpv as [E2|Hin]; [by apply sentinel_0|].
        by destruct (Hmem 0 ltac:(set_solver)).
      * pose proof (ic_chain _ _ _ _ _ Hl) as Hc. clear -Hc. revert Hc. generalize (sentinel T).
        induction l1 as [|y l1 IH]; intros b; simpl; [intros (? & <- & ?); done|]. intros (_ & _ & Hc). by apply IH in Hc.
    + rewrite from_ptr_absent in HQ by done. apply (wp_page σ 0 start []); [done| |set_solver|done].
      by apply Hl.
Qed.
End lists.
Arguments is_list T {_} k σ l.
Arguments list_frame T {_} k σ σ'.

(** ** On ledgers *)
Definition balances_ok (L : Ledger) : Prop := ∀ a, fits 32 (lg_balances L a).
Lemma represents_reading L : balances_ok L → represents L (reading L).
Proof. by split. Qed.
Section on_ledger.
Context {T : LinkedListTrait} `{ListLaws T}.
Lemma is_list_ext k σ σ' l :
  key_ok k → (∀ q, quantity_ok q → σ' q = σ q) → is_list T k σ l → is_list T k σ' l.
Proof.
  intros Hk Hq. apply is_chain_ext; [apply ptr_sentinel|..].
  - intros x Hx. unfold nx. f_equal. by apply ll_ext.
  - intros x Hx. unfold pv. f_equal. by apply ll_ext.
Qed.
(** *** What the operations do not change *)
(** The slots of the nodes of [k] apart, the ledgers are the same. *)
Definition outside (s : Z) (v : StorageVariable ListNode) : Prop :=
  ∀ i, 0 <= i < Z.of_nat (sv_slots ListNode) → u256 (sv_offset v + i) ≠ s.
Record same_but_nodes (k : Z) (L L' : Ledger) : Prop := {
  no_balances : lg_balances L' = lg_balances L;
  no_logs : lg_logs L' = lg_logs L;
  no_slots s : (∀ p, ptr_ok p → outside s (node_at T k p)) → lg_slots L' s = lg_slots L s
}.
#[local] Instance same_but_nodes_refl k : Reflexive (same_but_nodes k).
Proof. by split. Qed.
#[local] Instance same_but_nodes_trans k : Transitive (same_but_nodes k).
Proof.
  intros L1 L2 L3 [H1 H2 H3] [H4 H5 H6]. split; [congruence..|]. intros s Hs. by rewrite H6, H3.
Qed.
Definition NodeStores {A} (k : Z) (p : prog A) : Prop :=
  ∀ L r L', lruns STAKING_CA p L r L' → same_but_nodes k L L'.
Lemma NS_bind {A C} k (p : prog A) (f : A → prog C) :
  NodeStores k p → (∀ x, NodeStores k (f x)) → NodeStores k (p ≫= f).
Proof.
  intros Hp Hf L r L' Hr. apply lruns_bind in Hr as (x & L1 & H1 & H2).
  etrans; [by eapply Hp|by eapply Hf].
Qed.
Lemma NS_ret {A} k (x : A) : NodeStores k (Ret x).
Proof. by intros L r L' [_ ->]. Qed.
Lemma NS_stop {A} k o : NodeStores (A:=A) k (Stop o).
Proof. by intros L r L' []. Qed.
Lemma NS_load {A} k p (f : ListNode → prog A) :
  (∀ n, node_ok n → NodeStores k (f n)) → NodeStores k (load (node_at T k p) ≫= f).
Proof.
  intros Hf L r L' Hr. apply lruns_bind in Hr as (x & L1 & H1 & H2).
  rewrite <- (ll_address k p) in H1. apply lruns_load in H1 as [-> ->]. eapply Hf; [|done].
  apply sv_get_record. intros l Hl. repeat split; by apply field_range.
Qed.
Lemma NS_store k p n : ptr_ok p → NodeStores k (store (node_at T k p) n).
Proof.
  intros Hp L r L' Hr. rewrite <- (ll_address k p) in Hr. apply lruns_store in Hr as ->. split; [done..|].
  intros s Hs. unfold sv_put. cbn [lg_slots lg_set_slots]. apply put_words_other.
  rewrite to_slots_length. by apply Hs.
Qed.
Ltac node_stores :=
  repeat first
    [ apply NS_store; solve [done | apply ptr_sentinel | by apply ll_ok] | apply NS_load; intros ? ?
    | apply NS_bind; [|intros ?] | apply NS_ret | apply NS_stop | case_match ].
Lemma insert_stores k p : ptr_ok p → NodeStores k (linked_list_insert T k p).
Proof. intros Hp. unfold linked_list_insert, rcheck, rbind, rok, rfail. node_stores. Qed.
Lemma remove_stores k p : ptr_ok p → NodeStores k (linked_list_remove T k p).
Proof. intros Hp. unfold linked_list_remove, passert_throw. node_stores. Qed.

(** Only the links of the list of [k] have changed: every balance, every log
    and every slot outside its nodes is the same, so every other variable of
    the contract is, and in the nodes themselves so are the links of the other
    list. *)
Record links_only (k : Z) (L L' : Ledger) : Prop := {
  lo_nodes : same_but_nodes k L L';
  lo_variables {U} `{Packed U} (u : StorageVariable U) y :
    located u y → (∀ p, ptr_ok p → y ≠ node_home k p) → sv_get (lg_slots L') u = sv_get (lg_slots L) u;
  lo_quantities q : quantity_ok q → (∀ p, q ≠ lq_next k p ∧ q ≠ lq_prev k p) → reading L' q = reading L q
}.
Lemma same_but_nodes_variable {U} `{Packed U} k L L' (u : StorageVariable U) y :
  key_ok k → same_but_nodes k L L' → located u y → (∀ p, ptr_ok p → y ≠ node_home k p) →
  sv_get (lg_slots L') u = sv_get (lg_slots L) u.
Proof.
  intros Hk Hn Hu Hy. unfold sv_get. f_equal. apply words_at_ext. intros i Hi. apply (no_slots _ _ _ Hn).
  intros p Hp j Hj.
  destruct (located_apart _ _ _ _ (ll_located k p Hk Hp) Hu (not_eq_sym (Hy p Hp))) as ([? ?] & [? ?] & Hd).
  unfold u256. rewrite !Z.mod_small by lia. lia.
Qed.
Lemma links_only_represents k L L' σ' :
  key_ok k → same_but_nodes k L L' → represents L' σ' → list_frame T k (reading L) σ' → links_only k L L'.
Proof.
  intros Hk Hn Hr Hf. split; [done|intros; by eapply same_but_nodes_variable|].
  intros q Hq Hp. rewrite (rp_reading _ _ Hr q Hq). by apply Hf.
Qed.

Lemma slot_prog_node_load k p : slot_prog STAKING_CA (load (node_at T k p)).
Proof. rewrite <- (ll_address k p). apply slot_prog_load. Qed.
Lemma slot_prog_node_store k p n : slot_prog STAKING_CA (store (node_at T k p) n).
Proof. rewrite <- (ll_address k p). apply slot_prog_store. Qed.
Ltac slot_progs :=
  repeat first
    [ done
    | apply slot_prog_node_load | apply slot_prog_node_store
    | apply slot_prog_bind; [|intros ?]
    | case_match ].
Lemma insert_returns k p : slot_prog STAKING_CA (linked_list_insert T k p).
Proof. unfold linked_list_insert, rcheck, rbind, rok, rfail. slot_progs. Qed.
Lemma remove_returns k p : p ≠ 0 → p ≠ sentinel T → slot_prog STAKING_CA (linked_list_remove T k p).
Proof.
  intros H0 Hs. unfold linked_list_remove.
  rewrite (proj2 (Z.eqb_neq p 0) H0), (proj2 (Z.eqb_neq p (sentinel T)) Hs). cbn [negb andb passert_throw]. slot_progs.
Qed.
Lemma read_prog_node k p : read_prog STAKING_CA (load (node_at T k p)).
Proof. rewrite <- (ll_address k p). apply read_prog_load. Qed.
Ltac read_progs := repeat first [done | apply read_prog_node | apply read_prog_bind; [|intros ?] | case_match].
Lemma traverse_loop_reads k p n : read_prog STAKING_CA (traverse_loop T k p n).
Proof. revert p. induction n as [|n IH]; intros p; cbn [traverse_loop]; read_progs. Qed.
Lemma traverse_reads k p n : read_prog STAKING_CA (linked_list_traverse T k p n).
Proof. unfold linked_list_traverse. read_progs; apply traverse_loop_reads. Qed.
(** A run of a program that returns has what [wp] says. *)
Lemma wp_returns {A} (p : prog A) Q L :
  slot_prog STAKING_CA p → balances_ok L → wp p Q (reading L) →
  ∃ r L' σ', lruns STAKING_CA p L r L' ∧ represents L' σ' ∧ Q r σ'.
Proof.
  intros Hp Hb Hwp. destruct (slot_prog_returns _ p L Hp) as (r & L' & Hr%leval_lruns).
  destruct (Hwp L r L' (represents_reading L Hb) Hr) as (σ' & ? & ?). eauto 7.
Qed.
Lemma insert_accepts k p L r L' :
  p ≠ 0 → p ≠ sentinel T → lruns STAKING_CA (linked_list_insert T k p) L r L' → r = inr ().
Proof.
  intros H0 Hs. unfold linked_list_insert.
  rewrite (proj2 (Z.eqb_neq p 0) H0), (proj2 (Z.eqb_neq p (sentinel T)) Hs). cbn [negb orb rcheck].
  unfold rbind. rewrite lruns_bind. intros (a & L1 & [-> ->] & Hr). cbv beta iota in Hr.
  apply lruns_bind in Hr as (n & L2 & _ & Hr). case_match; [by destruct Hr|].
  repeat (apply lruns_bind in Hr as (? & ? & _ & Hr)). by destruct Hr.
Qed.
End on_ledger.
Arguments links_only T {_} k L L'.

(** C23: the linked lists of the staking contract.  For the validators of a
    delegator and the delegators of a validator alike: where the slots of a
    key hold the list [l], the insertion of a pointer returns and leaves
    [l] with it in front, or [l] if it was a member; the removal returns and
    leaves [l] without it; a traversal returns the page of the list that
    begins at the pointer (the first [limit] elements, the pointer of the
    next page, and whether it was the last one) and changes nothing.  The
    insertion and the removal change no balance, no log and no slot outside
    the nodes of this list, so no other variable of the contract, and in the
    nodes they keep the links of the other list that goes through them. *)
Theorem linked_lists (T : LinkedListTrait) `{ListLaws T} k p limit l L :
  balances_ok L → key_ok k → ptr_ok p → p ≠ sentinel T → is_list T k (reading L) l →
  (p ≠ 0 → ∃ L', lruns STAKING_CA (linked_list_insert T k p) L (inr ()) L' ∧
     is_list T k (reading L') (if decide (p ∈ l) then l else p :: l) ∧ links_only T k L L') ∧
  (p ≠ 0 → ∃ L', lruns STAKING_CA (linked_list_remove T k p) L () L' ∧
     is_list T k (reading L') (filter (.≠ p) l) ∧ links_only T k L L') ∧
  lruns STAKING_CA (linked_list_traverse T k p limit) L (page p limit l) L.
Proof.
  intros Hb Hk Hp Hs Hl. split_and!.
  - intros H0.
    destruct (wp_returns (linked_list_insert T k p) (on_ok (λ _ σ',
      is_list T k σ' (if decide (p ∈ l) then l else p :: l) ∧ list_frame T k (reading L) σ')) L) as (r & L' & σ' & Hr & Hrep & HQ);
      [apply insert_returns|done|eapply wp_list_insert; eauto|].
    pose proof (insert_accepts k p L r L' H0 Hs Hr) as ->. destruct HQ as [Hl' Hf]. exists L'. split; [done|].
    split; [|eapply links_only_represents; [done|by eapply insert_stores|done..]].
    eapply is_list_ext; [done| |exact Hl']. apply Hrep.
  - intros H0.
    destruct (wp_returns (linked_list_remove T k p) (λ _ σ',
      is_list T k σ' (filter (.≠ p) l) ∧ list_frame T k (reading L) σ') L) as ([] & L' & σ' & Hr & Hrep & Hl' & Hf);
      [by apply remove_returns|done|eapply wp_list_remove; eauto|].
    exists L'. split; [done|]. split; [|eapply links_only_represents; [done|by eapply remove_stores|done..]].
    eapply is_list_ext; [done| |exact Hl']. apply Hrep.
  - destruct (wp_returns (linked_list_traverse T k p limit) (λ r _, r = page p limit l) L)
      as (r & L' & σ' & Hr & Hrep & ->);
      [apply read_slot_prog, traverse_reads|done|by eapply wp_list_traverse|].
    by rewrite (read_lruns _ _ _ _ _ (traverse_reads k p limit) Hr) in Hr.
Qed.
(** A ledger without entries. *)
Definition empty_ledger : Ledger := mkLedger (λ _, 0) (λ _, 0) [].
Lemma empty_ledger_ok : balances_ok empty_ledger.
Proof. intros a. apply fits_0. Qed.
Lemma is_list_empty k : is_list delegators_of k (reading empty_ledger) [].
Proof.
  assert (E : ∀ p, node_of k p (reading empty_ledger) = mkListNode 0 0 0 0).
  { intros p. unfold node_of. cbn [reading lg_slots empty_ledger]. by rewrite !sv_get_empty. }
  split; [constructor|set_solver|..].
  - change (anext (node_of k (sentinel delegators_of) (reading empty_ledger)) = 0). by rewrite E.
  - intros p _ _ _. change (aprev (node_of k p (reading empty_ledger)) = 0). by rewrite E.
Qed.
Lemma linked_lists_witness :
  (∃ L', lruns STAKING_CA (linked_list_insert delegators_of 1 5) empty_ledger (inr ()) L' ∧
     is_list delegators_of 1 (reading L') [5] ∧ links_only delegators_of 1 empty_ledger L') ∧
  lruns STAKING_CA (linked_list_traverse delegators_of 1 5 50) empty_ledger (true, 5, []) empty_ledger.
Proof.
  destruct (linked_lists delegators_of 1 5 50 [] empty_ledger) as (Hi & _ & Ht).
  - apply empty_ledger_ok.
  - split; reflexivity || lia.
  - split; reflexivity || lia.
  - discriminate.
  - apply is_list_empty.
  - split; [apply Hi; discriminate|exact Ht].
Defined.
