(* ===== verification/StakingFacts.v ===== *)
(** * What the staking contract owes

    Theorems on the operations of StakingCalls.v, proved on the store of
    StakingStore.v. *)
From S2P Require Import Prelude Traits Account VersionStack AccountState BlockState State Methods Rlp RlpFacts CheckedMath Ledger Abi.
From S2P Require Import ContractStorage StorageFacts StakingVars StakingLayout Words Precompiles Staking StakingCalls StakingStore StakingLists.

(** ** Changes of a store *)
(** Only these quantities change. *)
Definition only (l : list quantity) (σ σ' : Store) : Prop := ∀ q, q ∉ l → σ' q = σ q.
Lemma only_refl l σ : only l σ σ.
Proof. done. Qed.
Lemma only_trans l σ1 σ2 σ3 : only l σ1 σ2 → only l σ2 σ3 → only l σ1 σ3.
Proof. intros H1 H2 q Hq. rewrite H2, H1; done. Qed.
Lemma only_insert l q x σ : q ∈ l → only l σ (<[q := x]> σ).
Proof. intros Hq q' Hq'. apply fn_lookup_insert_ne. by intros ->. Qed.
Lemma only_insert_r l q x σ σ' : q ∈ l → only l σ σ' → only l σ (<[q := x]> σ').
Proof. intros Hq H. eapply only_trans; [exact H|by apply only_insert]. Qed.
Lemma only_weaken l l' σ σ' : l ⊆ l' → only l σ σ' → only l' σ σ'.
Proof. intros Hl H q Hq. apply H. auto. Qed.

(** ** Arithmetic *)
Lemma fits_u256 x : fits 32 x ↔ 0 <= x <= U256_MAX.
Proof. unfold fits. change (256 ^ Z.of_nat 32) with (2 ^ 256). change U256_MAX with (2 ^ 256 - 1). lia. Qed.
Lemma checked_add_inr x y z : checked_add x y = inr z → z = x + y ∧ x + y <= U256_MAX.
Proof. unfold checked_add. destruct (Z.leb_spec (x + y) U256_MAX); [|done]. by intros [= <-]. Qed.
Lemma checked_sub_inr x y z : checked_sub x y = inr z → z = x - y ∧ y <= x.
Proof. unfold checked_sub. destruct (Z.leb_spec y x); [|done]. by intros [= <-]. Qed.
Lemma checked_mul_div_inr x y z r :
  0 <= x → 0 <= y → 0 < z → checked_mul_div x y z = inr r → r = x * y / z ∧ 0 <= r <= x * y ∧ x * y <= U256_MAX.
Proof.
  intros Hx Hy Hz. unfold checked_mul_div, checked_mul. destruct (Z.leb_spec (x * y) U256_MAX); [|done].
  unfold checked_div. destruct (Z.eqb_spec z 0); [lia|]. intros [= <-]. split; [done|]. split; [|done].
  split; [apply Z.div_pos; nia|]. apply Z.div_le_upper_bound; nia.
Qed.
Lemma calculate_rewards_inr s c l r : 0 <= s → calculate_rewards s c l = inr r → fits 32 r.
Proof.
  intros Hs. unfold calculate_rewards. destruct (checked_sub c l) as [|d] eqn:E; [done|].
  apply checked_sub_inr in E as [-> Hl]. intros Hr. apply checked_mul_div_inr in Hr as (_ & Hr & Hm); [|lia|done|done].
  apply fits_u256. lia.
Qed.

Ltac fits_tac := rewrite ?fits_u256 in *; lia.
Ltac checked :=
  repeat match goal with
  | H : checked_add _ _ = inr _ |- _ => apply checked_add_inr in H as [-> ?]
  | H : checked_sub _ _ = inr _ |- _ => apply checked_sub_inr in H as [-> ?]
  | H : calculate_rewards _ _ _ = inr _ |- _ => apply calculate_rewards_inr in H; [|fits_tac]
  end.

(** ** Bringing a delegator up to date *)
Section pull.
Context (v a : Z) (Hv : fits 8 v) (Ha : fits 20 a).
Hint Resolve Hv Ha : staking.
Let del := vars_delegator v a.

Lemma wp_decrement e Q σ :
  fits 8 e → (∀ r, Q r σ) → wp (decrement_accumulator_refcount e v) Q σ.
Proof. intros He HQ. unfold decrement_accumulator_refcount. wps; auto. Qed.

(** The delta of the next epoch becomes the delta. *)
Definition promoted (σ : Store) : Store :=
  <[QNextDeltaEpoch v a := 0]> (<[QDeltaEpoch v a := σ (QNextDeltaEpoch v a)]>
    (<[QNextDelta v a := 0]> (<[QDelta v a := σ (QNextDelta v a)]> σ))).
Lemma wp_promote_delta Q σ : Q () (promoted σ) → wp (promote_delta del) Q σ.
Proof. intros HQ. unfold promote_delta, del. wps; lookups; done. Qed.

(** The delta becomes stake. *)
Definition compounded (σ : Store) : Store := promoted (<[QDelStake v a := σ (QDelStake v a) + σ (QDelta v a)]> σ).
Lemma wp_apply_compound Q σ : (∀ r, fits 32 r → Q r (compounded σ)) → rwp (apply_compound v del) Q σ.
Proof.
  intros HQ. unfold apply_compound, del. wps. apply wp_decrement; [done|]. intros epoch_acc.
  wps; checked; [fits_tac|]. apply wp_promote_delta. wps. by apply HQ.
Qed.
Lemma wp_reward_invariant r Q σ :
  fits 32 r → (r <= σ (QUnclaimed v) → Q () (<[QUnclaimed v := σ (QUnclaimed v) - r]> σ)) →
  rwp (reward_invariant (vars_val_execution v) r) Q σ.
Proof. intros Hr HQ. unfold reward_invariant. wps; checked; [fits_tac|]. by apply HQ. Qed.
Lemma wp_credit_rewards r Q σ :
  fits 32 r → Q () (<[QRewards v a := σ (QRewards v a) + r]> σ) → rwp (credit_rewards del r) Q σ.
Proof. intros Hr HQ. unfold credit_rewards, del. wps; checked; [fits_tac|done]. Qed.

(** [r] moves from the validator's unclaimed rewards to the delegator's. *)
Definition paid (r : Z) (σ : Store) : Store :=
  <[QRewards v a := σ (QRewards v a) + r]> (<[QUnclaimed v := σ (QUnclaimed v) - r]> σ).
Lemma wp_compound_once Q σ :
  (∀ r, 0 <= r <= σ (QUnclaimed v) → Q () (paid r (compounded σ))) → rwp (compound_once v del) Q σ.
Proof.
  intros HQ. unfold compound_once. wps. apply wp_apply_compound. intros r Hr. wps. apply wp_reward_invariant; [done|].
  intros Hle. wps. apply wp_credit_rewards; [done|]. apply HQ. split; [fits_tac|].
  unfold compounded, promoted in Hle. by revert Hle; lookups.
Qed.

(** *** Specification *)
Definition delegated (σ : Store) : Z := σ (QDelStake v a) + σ (QDelta v a) + σ (QNextDelta v a).
(** No stake without a date. *)
Definition dated (σ : Store) : Prop :=
  (σ (QDeltaEpoch v a) = 0 → σ (QDelta v a) = 0) ∧ (σ (QNextDeltaEpoch v a) = 0 → σ (QNextDelta v a) = 0).
Definition active (σ : Store) (e : Z) : bool := negb (e =? 0) && (e <=? σ QEpoch).
(** The stake that is active in the current epoch. *)
Definition due (σ : Store) : Z :=
  σ (QDelStake v a) + (if active σ (σ (QDeltaEpoch v a)) then σ (QDelta v a) else 0) +
  (if active σ (σ (QNextDeltaEpoch v a)) then σ (QNextDelta v a) else 0).
Definition pull_footprint : list quantity :=
  [QUnclaimed v; QRewards v a; QDelStake v a; QDelta v a; QNextDelta v a; QDeltaEpoch v a; QNextDeltaEpoch v a].
Record pulled (σ σ' : Store) : Prop := {
  pu_only : only pull_footprint σ σ';
  (** rewards come from the unclaimed ones *)
  pu_rewards : σ' (QUnclaimed v) + σ' (QRewards v a) = σ (QUnclaimed v) + σ (QRewards v a);
  pu_more : σ (QRewards v a) <= σ' (QRewards v a);
  (** the active stake is the same, whether recorded as such or not *)
  pu_due : due σ' = due σ;
  (** stake only changes its date *)
  pu_delegated : dated σ → dated σ' ∧ delegated σ' = delegated σ
}.
Lemma pulled_refl σ : pulled σ σ.
Proof. by split. Qed.
Lemma pulled_trans σ1 σ2 σ3 : pulled σ1 σ2 → pulled σ2 σ3 → pulled σ1 σ3.
Proof.
  intros [O1 R1 M1 E1 D1] [O2 R2 M2 E2 D2]. split; [by eapply only_trans|lia|lia|lia|].
  intros Hd. destruct (D1 Hd) as [Hd1 ?], (D2 Hd1) as [? ?]. split; [done|lia].
Qed.
Lemma pulled_promoted σ : σ (QDeltaEpoch v a) = 0 → pulled σ (promoted σ).
Proof.
  intros H0. unfold promoted. split.
  - repeat (apply only_insert_r; [unfold pull_footprint; set_solver|]). apply only_refl.
  - by lookups.
  - by lookups.
  - unfold due, active. lookups. rewrite H0. simpl. lia.
  - intros [Hd Hn]. unfold dated, delegated. lookups. split; [done|]. rewrite Hd by done. lia.
Qed.
Lemma pulled_compounded σ : active σ (σ (QDeltaEpoch v a)) = true → pulled σ (compounded σ).
Proof.
  intros Hact. unfold compounded, promoted. split.
  - repeat (apply only_insert_r; [unfold pull_footprint; set_solver|]). apply only_refl.
  - by lookups.
  - by lookups.
  - unfold due. rewrite Hact. unfold active. lookups. simpl. lia.
  - intros [Hd Hn]. unfold dated, delegated. lookups. split; [done|]. lia.
Qed.
Lemma pulled_paid r σ : 0 <= r → pulled σ (paid r σ).
Proof.
  intros Hr. unfold paid. split.
  - repeat (apply only_insert_r; [unfold pull_footprint; set_solver|]). apply only_refl.
  - lookups. lia.
  - lookups. lia.
  - unfold due, active. lookups. done.
  - intros [Hd Hn]. unfold dated, delegated. lookups. done.
Qed.

Lemma wp_is_epoch_active e Q σ : Q (active σ e) σ → wp (is_epoch_active e) Q σ.
Proof. intros HQ. unfold is_epoch_active. wps. done. Qed.
Lemma wp_can_promote e Q σ :
  fits 8 e → (∀ b : bool, (b = true → σ (QDeltaEpoch v a) = 0) →
    (b = false → σ (QDeltaEpoch v a) = 0 → e < σ (QNextDeltaEpoch v a) ∨ e = U64_MAX) → Q b σ) →
  wp (can_promote_delta del e) Q σ.
Proof.
  intros He HQ. unfold can_promote_delta, del. wps.
  - apply HQ; [done|]. intros _ E. by rewrite E in Heqb.
  - apply negb_false_iff, Z.eqb_eq in Heqb. apply HQ; [done|]. intros Hn _. apply Z.leb_gt in Hn.
    unfold fits, u64 in *. change (256 ^ Z.of_nat 8) with (2 ^ 64) in *. change U64_MAX with (2 ^ 64 - 1).
    destruct (decide (e = 2 ^ 64 - 1)); [by right|left]. rewrite Z.mod_small in Hn by lia. lia.
Qed.

(** What [pull_delegator_up_to_date] does: rewards move to the delegator,
    stake whose epoch has come becomes active. *)
Definition caught_up (σ σ' : Store) : Prop :=
  pulled σ σ' ∧ active σ' (σ' (QDeltaEpoch v a)) = false ∧ active σ' (σ' (QNextDeltaEpoch v a)) = false.
Lemma wp_pull Q σ :
  σ QEpoch < U64_MAX → (∀ σ', caught_up σ σ' → Q () σ') → rwp (pull_delegator_up_to_date v del) Q σ.
Proof.
  intros Hep HQ. unfold pull_delegator_up_to_date. wps.
  apply wp_can_promote; [done|]. intros promote Hp Hnp. apply rwp_prog_bind.
  set (stage1 := λ σ1 : Store, pulled σ σ1 ∧ (σ1 (QDeltaEpoch v a) = 0 → active σ1 (σ1 (QNextDeltaEpoch v a)) = false)).
  apply (wp_mono _ (λ _, stage1)).
  { destruct promote.
    - apply wp_promote_delta. split; [by apply pulled_promoted, Hp|]. intros _. unfold promoted. by lookups.
    - wps. split; [apply pulled_refl|]. intros H0. unfold active. apply andb_false_iff. right. apply Z.leb_gt.
      destruct (Hnp eq_refl H0); lia. }
  clear promote Hp Hnp. intros _ σ1 [H1 Hn1]. assert (He1 : σ1 QEpoch = σ QEpoch).
  { apply (pu_only _ _ H1). unfold pull_footprint. set_solver. }
  wps. apply wp_is_epoch_active. wps. apply wp_is_epoch_active. apply rwp_bind.
  apply (rwp_mono _ (λ _ σ2, pulled σ σ2 ∧ active σ2 (σ2 (QNextDeltaEpoch v a)) = false ∧
    active σ2 (σ2 (QDeltaEpoch v a)) = active σ1 (σ1 (QDeltaEpoch v a)))).
  { destruct (active σ1 (σ1 (QNextDeltaEpoch v a))) eqn:En; wps.
    - apply wp_compound_once. intros r [Hr _]. split.
      + eapply pulled_trans; [exact H1|]. eapply pulled_trans; [by apply pulled_compounded|by apply pulled_paid].
      + unfold paid, compounded, promoted, active in *. lookups. split; [done|congruence].
    - auto. }
  intros _ σ2 (Hu2 & Hn2 & Hd2). apply rwp_bind. apply (rwp_mono _ (λ _, caught_up σ)).
  { destruct (active σ1 (σ1 (QDeltaEpoch v a))) eqn:En; wps.
    - apply wp_compound_once. intros r [Hr _]. split.
      + eapply pulled_trans; [exact Hu2|]. eapply pulled_trans; [by apply pulled_compounded|by apply pulled_paid].
      + unfold paid, compounded, promoted. unfold active in *. lookups. auto.
    - split; auto. }
  intros _ σ3 Hu3. wps; [by apply HQ|]. checked. apply wp_reward_invariant; [done|]. intros Hle. wps.
  apply wp_credit_rewards; [done|]. wps. apply HQ. destruct Hu3 as (Hu3 & Ha3 & Hb3).
  change (<[QRewards v a := _]> _) with (paid a0 σ3). split.
  - eapply pulled_trans; [exact Hu3|apply pulled_paid; fits_tac].
  - unfold paid. unfold active in *. by lookups.
Qed.
End pull.

(** ** Changes of what is recorded for a delegation *)
Definition is_money (q : quantity) : bool :=
  match q with
  | QStake _ | QUnclaimed _ | QDelStake _ _ | QDelta _ _ | QNextDelta _ _ | QRewards _ _ | QRequest _ _ _ => true
  | _ => false
  end.
Definition all_dated (σ : Store) : Prop := ∀ v a, fits 8 v → fits 20 a → dated v a σ.
Definition delegation (v a : Z) : list quantity :=
  [QStake v; QUnclaimed v; QRewards v a; QDelStake v a; QDelta v a; QNextDelta v a].
(** The validator's stake changes by [s], the delegated stake by [d], the
    rewards by [r]; nothing else that is money changes. *)
Record moved (v a s d r : Z) (σ σ' : Store) : Prop := {
  mv_only q : is_money q = true → q ∉ delegation v a → σ' q = σ q;
  mv_stake : σ' (QStake v) = σ (QStake v) + s;
  mv_delegated : all_dated σ → all_dated σ' ∧ delegated v a σ' = delegated v a σ + d;
  mv_rewards : σ' (QUnclaimed v) + σ' (QRewards v a) = σ (QUnclaimed v) + σ (QRewards v a) + r;
  mv_epoch : σ' QEpoch = σ QEpoch;
  mv_balance b : σ' (QBalance b) = σ (QBalance b);
  mv_auth w : σ' (QAuth w) = σ (QAuth w)
}.
Lemma moved_trans v a s1 d1 r1 s2 d2 r2 s d r σ1 σ2 σ3 :
  moved v a s1 d1 r1 σ1 σ2 → moved v a s2 d2 r2 σ2 σ3 → s = s1 + s2 → d = d1 + d2 → r = r1 + r2 →
  moved v a s d r σ1 σ3.
Proof.
  intros [A1 A2 A3 A4 A5 A6 A7] [B1 B2 B3 B4 B5 B6 B7] -> -> ->. split; try lia.
  - intros q Hq Hn. rewrite B1, A1; done.
  - intros Hd. destruct (A3 Hd) as [Hd1 ?], (B3 Hd1) as [? ?]. split; [done|lia].
  - intros b. by rewrite B6, A6.
  - intros w. by rewrite B7, A7.
Qed.
(** Changes of quantities that are neither money nor dates. *)
Definition is_plain (q : quantity) : bool :=
  match q with QFlags _ | QINext _ _ | QIPrev _ _ | QANext _ _ | QAPrev _ _ => true | _ => false end.
Lemma moved_plain v a σ σ' : (∀ q, is_plain q = false → σ' q = σ q) → moved v a 0 0 0 σ σ'.
Proof.
  intros Hq. split; intros; unfold delegated; rewrite ?Hq by done; try lia.
  - apply Hq. by destruct q.
  - split; [|lia]. intros v' a' Hv Ha. destruct (H v' a' Hv Ha) as [H1 H2]. split; rewrite !Hq by done; done.
Qed.
Lemma moved_nodes v a σ σ' : nodes_only σ σ' → moved v a 0 0 0 σ σ'.
Proof. intros Hn. apply moved_plain. intros q Hq. apply Hn. by destruct q. Qed.
Lemma moved_refl v a σ : moved v a 0 0 0 σ σ.
Proof. by apply moved_plain. Qed.
Lemma moved_flags v a w x σ : moved v a 0 0 0 σ (<[QFlags w := x]> σ).
Proof. apply moved_plain. intros q Hq. apply fn_lookup_insert_ne. by intros <-. Qed.

(** Dates of other delegations. *)
Lemma all_dated_set v a σ σ' :
  (∀ v' a', (v', a') ≠ (v, a) → σ' (QDelta v' a') = σ (QDelta v' a') ∧ σ' (QNextDelta v' a') = σ (QNextDelta v' a') ∧
     σ' (QDeltaEpoch v' a') = σ (QDeltaEpoch v' a') ∧ σ' (QNextDeltaEpoch v' a') = σ (QNextDeltaEpoch v' a')) →
  all_dated σ → dated v a σ' → all_dated σ'.
Proof.
  intros Ho Hd H v' a' Hv Ha. destruct (decide ((v', a') = (v, a))) as [[= -> ->]|Hne]; [done|].
  destruct (Ho v' a' Hne) as (E1 & E2 & E3 & E4), (Hd v' a' Hv Ha) as [H1 H2]. split; by rewrite ?E1, ?E2, ?E3, ?E4.
Qed.
Lemma moved_pulled v a σ σ' : fits 8 v → fits 20 a → pulled v a σ σ' → moved v a 0 0 0 σ σ'.
Proof.
  intros Hv Ha [Ho Hr Hm _ Hd]. unfold pull_footprint in Ho.
  split; try (intros; rewrite Ho by (by rewrite ?elem_of_cons, elem_of_nil; naive_solver); lia).
  - intros q Hq Hn. apply Ho. unfold delegation in Hn. destruct q; try done; set_solver.
  - intros Hall. destruct (Hd (Hall v a Hv Ha)) as [Hd' E]. split; [|lia].
    apply (all_dated_set v a σ); [|done|done]. intros v' a' Hne.
    rewrite !Ho by (rewrite !elem_of_cons, elem_of_nil; naive_solver). done.
  - lia.
Qed.

(** ** Bits *)
Lemma fits_ones n x : 0 <= x → (fits n x ↔ Z.land x (Z.ones (8 * Z.of_nat n)) = x).
Proof.
  intros Hx. unfold fits. replace (256 ^ Z.of_nat n) with (2 ^ (8 * Z.of_nat n)) by (by rewrite Z.pow_mul_r by lia).
  rewrite Z.land_ones by lia. split; [intros; apply Z.mod_small; lia|]. intros <-. apply Z.mod_pos_bound. apply Z.pow_pos_nonneg; lia.
Qed.
Lemma land_fits n x y : fits n x → 0 <= y → fits n (Z.land x y).
Proof.
  intros Hx Hy. assert (0 <= x) by (destruct Hx; lia). apply fits_ones; [apply Z.land_nonneg; lia|].
  apply fits_ones in Hx; [|done]. by rewrite <- Z.land_assoc, (Z.land_comm y), Z.land_assoc, Hx.
Qed.
Lemma lor_fits n x y : fits n x → fits n y → fits n (Z.lor x y).
Proof.
  intros Hx Hy. assert (0 <= x ∧ 0 <= y) as [? ?] by (destruct Hx, Hy; lia). apply fits_ones; [apply Z.lor_nonneg; lia|].
  apply fits_ones in Hx, Hy; [|done..]. by rewrite Z.land_lor_distr_l, Hx, Hy.
Qed.

(** ** Delegation *)
Section operations.
Context (traits : Traits) (v a : Z) (Hv : fits 8 v) (Ha : fits 20 a).
Hint Resolve Hv Ha : staking.
Let del := vars_delegator v a.
Let val := vars_val_execution v.

(** No epoch of the chain is near the end of its type. *)
Definition epoch_small (σ : Store) : Prop := σ QEpoch < 2 ^ 64 - 2.
Lemma wp_activation_epoch Q σ :
  epoch_small σ → (∀ e, fits 8 e → e ≠ 0 → Q e σ) → wp get_activation_epoch Q σ.
Proof.
  intros He HQ. unfold get_activation_epoch, epoch_small in *. wps.
  assert (Hs : fits 8 (σ QEpoch)) by done. unfold fits in Hs. change (256 ^ Z.of_nat 8) with (2 ^ 64) in Hs.
  destruct t; (apply HQ; [apply u64_fits|]); unfold u64; rewrite Z.mod_small by lia; lia.
Qed.
Lemma wp_increment Q σ : epoch_small σ → Q () σ → wp (increment_accumulator_refcount v) Q σ.
Proof.
  intros He HQ. unfold increment_accumulator_refcount. apply wp_bind, wp_activation_epoch; [done|].
  intros e He8 _. wps. done.
Qed.
Lemma moved_delta s e x σ :
  x = σ (QDelta v a) + s → e ≠ 0 → moved v a 0 s 0 σ (<[QDeltaEpoch v a := e]> (<[QDelta v a := x]> σ)).
Proof.
  intros -> He. split; intros; unfold delegated; lookups; try lia.
  - rewrite !fn_lookup_insert_ne; [done|intros <-; set_solver|by intros <-].
  - split; [|lia]. apply (all_dated_set v a σ); [|done|].
    + intros v' a' Hne. by lookups.
    + destruct (H v a Hv Ha) as [H1 H2]. split; lookups; done.
Qed.
Lemma moved_next_delta s e x σ :
  x = σ (QNextDelta v a) + s → e ≠ 0 → moved v a 0 s 0 σ (<[QNextDeltaEpoch v a := e]> (<[QNextDelta v a := x]> σ)).
Proof.
  intros -> He. split; intros; unfold delegated; lookups; try lia.
  - rewrite !fn_lookup_insert_ne; [done|intros <-; set_solver|by intros <-].
  - split; [|lia]. apply (all_dated_set v a σ); [|done|].
    + intros v' a' Hne. by lookups.
    + destruct (H v a Hv Ha) as [H1 H2]. split; lookups; done.
Qed.
Lemma wp_add_delta s e Q σ :
  0 <= s → fits 8 e → e ≠ 0 → (∀ b σ', moved v a 0 s 0 σ σ' → Q b σ') → rwp (add_delta del s e) Q σ.
Proof.
  intros Hs He He0 HQ. unfold add_delta, del. wps; checked; try fits_tac; apply HQ.
  - by apply moved_next_delta.
  - by apply moved_delta.
Qed.
Lemma moved_set_stake s x σ : x = σ (QStake v) + s → moved v a s 0 0 σ (<[QStake v := x]> σ).
Proof.
  intros ->. split; intros; unfold delegated; lookups; try lia; try done.
  - rewrite fn_lookup_insert_ne; [done|intros <-; set_solver].
  - split; [|lia]. intros v' a' Hv' Ha'. destruct (H v' a' Hv' Ha'). split; by lookups.
Qed.

(** *** Flags and sets *)
Lemma wp_get_flags Q σ : (fits 8 (σ (QFlags v)) → Q (σ (QFlags v)) σ) → wp (ve_get_flags val) Q σ.
Proof. intros HQ. unfold ve_get_flags, val. wps. apply HQ. by destruct H. Qed.
Lemma wp_auth Q σ : (fits 20 (σ (QAuth v)) → Q (σ (QAuth v)) σ) → wp (ve_auth_address val) Q σ.
Proof. intros HQ. unfold ve_auth_address, val. wps. apply HQ. by destruct H. Qed.
Lemma wp_exists Q σ : (∀ b, Q b σ) → wp (ve_exists val) Q σ.
Proof. intros HQ. unfold ve_exists. wps. apply wp_auth. intros _. wps. apply HQ. Qed.
Lemma moved_flag s d r x σ0 σ : moved v a s d r σ0 σ → moved v a s d r σ0 (<[QFlags v := x]> σ).
Proof. intros Hm. eapply moved_trans; [exact Hm|apply moved_flags|lia..]. Qed.
Lemma wp_set_flag f Q σ : fits 8 f → (∀ x, Q () (<[QFlags v := x]> σ)) → wp (ve_set_flag val f) Q σ.
Proof.
  intros Hf HQ. unfold ve_set_flag, val. apply wp_bind, wp_load_flags; [done|]. intros [Hau Hfl].
  apply (wp_store _ (XExecution v EFlags) _ _ _ (<[QFlags v := Z.lor (σ (QFlags v)) f]> σ));
    [done|by apply located_at|split; [done|by apply lor_fits]| | |apply HQ].
  - intros q Hq. apply fn_lookup_insert_ne. intros <-. by apply Hq.
  - intros L q Hq E. destruct q; simpl in Hq; try discriminate; injection Hq as ->; cbn [reading]; rewrite E; by lookups.
Qed.
Lemma wp_clear_flag f Q σ : fits 8 f → (∀ x, Q () (<[QFlags v := x]> σ)) → wp (ve_clear_flag val f) Q σ.
Proof.
  intros Hf HQ. unfold ve_clear_flag, val. apply wp_bind, wp_load_flags; [done|]. intros [Hau Hfl].
  apply (wp_store _ (XExecution v EFlags) _ _ _ (<[QFlags v := Z.land (σ (QFlags v)) (Z.lxor U64_MAX f)]> σ));
    [done|by apply located_at|split; [done|apply land_fits; [done|]]| | |apply HQ].
  - apply Z.lxor_nonneg. unfold fits in Hf. change U64_MAX with (2 ^ 64 - 1). lia.
  - intros q Hq. apply fn_lookup_insert_ne. intros <-. by apply Hq.
  - intros L q Hq E. destruct q; simpl in Hq; try discriminate; injection Hq as ->; cbn [reading]; rewrite E; by lookups.
Qed.
Lemma wp_next_epoch_stake Q σ :
  Q (u256 (u256 (σ (QDelStake v a) + σ (QDelta v a)) + σ (QNextDelta v a))) σ → wp (del_get_next_epoch_stake del) Q σ.
Proof. intros HQ. unfold del_get_next_epoch_stake, del. wps. done. Qed.
Lemma wp_push s x Q σ : Q () σ → wp (arr_push (array_of s) x) Q σ.
Proof.
  intros HQ. unfold arr_push, arr_length. apply wp_bind, wp_load_uint; [by destruct s|done|]. intros t Ht. wps. done.
Qed.
Lemma wp_add_to_valset Q σ : (∀ b, Q b σ) → wp (add_to_valset v) Q σ.
Proof. intros HQ. unfold add_to_valset. wps. apply HQ. Qed.

Lemma wp_activate x Q σ :
  (∀ σ', moved v a 0 0 0 σ σ' → Q () σ') → wp (activate_validator traits v x a) Q σ.
Proof.
  intros HQ. unfold activate_validator. fold val del. apply wp_bind, wp_get_flags. intros _.
  apply wp_bind. apply (wp_mono _ (λ _ σ1, moved v a 0 0 0 σ σ1)).
  { wps; [apply wp_clear_flag; [done|]; intros; apply moved_flags|apply moved_refl]. }
  intros _ σ1 H1. apply wp_bind, wp_auth. intros _. apply wp_bind. apply (wp_mono _ (λ _ σ2, moved v a 0 0 0 σ σ2)).
  { wps; [apply wp_next_epoch_stake; wps|done]; [|done]. apply wp_clear_flag; [done|]. intros. by apply moved_flag. }
  intros _ σ2 H2. apply wp_bind, wp_get_flags. intros _. apply wp_bind.
  apply (wp_mono _ (λ _ σ3, moved v a 0 0 0 σ σ3)).
  { wps; [|done]. apply wp_get_flags. intros _. unfold emit_validator_status_changed_event. wps. done. }
  intros _ σ3 H3. apply wp_bind, wp_get_flags. intros _. wps; [|by apply HQ].
  apply wp_add_to_valset. intros b. wps; [|by apply HQ]. apply (wp_push SetExecution). by apply HQ.
Qed.

(** Delegation: the stake of the validator and of the delegator grow by the
    amount. *)
Lemma wp_delegate s Q σ :
  0 <= s → epoch_small σ → (∀ σ', moved v a s s 0 σ σ' → Q () σ') → rwp (delegate traits v s a) Q σ.
Proof.
  intros Hs He HQ. unfold delegate. fold val del. apply rwp_prog_bind, wp_exists. intros b. wps.
  apply wp_pull; [done|done|unfold epoch_small in He; change U64_MAX with (2 ^ 64 - 1); lia|]. intros σ1 [Hm1 _]. apply moved_pulled in Hm1; [|done..].
  assert (He1 : epoch_small σ1) by (unfold epoch_small; by rewrite (mv_epoch _ _ _ _ _ _ _ Hm1)).
  apply rwp_prog_bind, wp_activation_epoch; [done|]. intros e He8 He0. apply rwp_bind, wp_add_delta; [done..|].
  intros need σ2 Hm2. assert (He2 : epoch_small σ2) by (unfold epoch_small; by rewrite (mv_epoch _ _ _ _ _ _ _ Hm2)).
  apply rwp_prog_bind. apply (wp_mono _ (λ _ σ3, σ3 = σ2)).
  { destruct need; wps; [by apply wp_increment|done]. }
  intros _ σ3 ->. apply rwp_prog_bind. unfold emit_delegation_event. wps; checked; [fits_tac|].
  apply wp_activate. intros σ4 Hm4. wps. apply (wp_insert_nodes (T := delegators_of)); [done|done|]. intros σ5 Hm5.
  apply (wp_insert_nodes (T := validators_of)); [done|done|]. intros σ6 Hm6. apply HQ.
  eapply moved_trans; [exact Hm1| |by rewrite Z.add_0_l..].
  eapply moved_trans; [exact Hm2| |by rewrite Z.add_0_l|by rewrite Z.add_0_r|by rewrite Z.add_0_l].
  eapply moved_trans; [by apply (moved_set_stake s)| |by rewrite Z.add_0_r|done|done].
  eapply moved_trans; [exact Hm4| |done..].
  eapply moved_trans; [by apply moved_nodes|by apply moved_nodes|done..].
Qed.

Lemma moved_set_del_stake d x σ : x = σ (QDelStake v a) + d → moved v a 0 d 0 σ (<[QDelStake v a := x]> σ).
Proof.
  intros ->. split; intros; unfold delegated; lookups; try lia; try done.
  - rewrite fn_lookup_insert_ne; [done|intros <-; set_solver].
  - split; [|lia]. intros v' a' Hv' Ha'. destruct (H v' a' Hv' Ha'). split; by lookups.
Qed.
Lemma moved_set_rewards r x σ : x = σ (QRewards v a) + r → moved v a 0 0 r σ (<[QRewards v a := x]> σ).
Proof.
  intros ->. split; intros; unfold delegated; lookups; try lia; try done.
  - rewrite fn_lookup_insert_ne; [done|intros <-; set_solver].
  - split; [|lia]. intros v' a' Hv' Ha'. destruct (H v' a' Hv' Ha'). split; by lookups.
Qed.
Lemma moved_set_unclaimed r x σ : x = σ (QUnclaimed v) + r → moved v a 0 0 r σ (<[QUnclaimed v := x]> σ).
Proof.
  intros ->. split; intros; unfold delegated; lookups; try lia; try done.
  - rewrite fn_lookup_insert_ne; [done|intros <-; set_solver].
  - split; [|lia]. intros v' a' Hv' Ha'. destruct (H v' a' Hv' Ha'). split; by lookups.
Qed.
Lemma wp_deactivate x Q σ :
  (∀ σ', moved v a 0 0 0 σ σ' → Q () σ') → wp (deactivate_validator traits v x a) Q σ.
Proof.
  intros HQ. unfold deactivate_validator. fold val del. apply wp_bind, wp_get_flags. intros _.
  apply wp_bind, wp_auth. intros _. apply wp_bind. apply (wp_mono _ (λ _ σ1, moved v a 0 0 0 σ σ1)).
  { wps; [apply wp_next_epoch_stake; wps|apply moved_refl]; [|apply moved_refl].
    apply wp_set_flag; [done|]. intros. apply moved_flags. }
  intros _ σ1 H1. apply wp_bind. apply (wp_mono _ (λ _ σ2, moved v a 0 0 0 σ σ2)).
  { wps; [apply wp_set_flag; [done|]; intros; by apply moved_flag|done]. }
  intros _ σ2 H2. apply wp_bind, wp_get_flags. intros _. wps; [|by apply HQ].
  apply wp_get_flags. intros _. unfold emit_validator_status_changed_event. wps. by apply HQ.
Qed.
Lemma split_stake_inr vs ds x vs' ds' x' :
  0 <= ds → 0 <= x → split_stake vs ds x = inr (vs', ds', x') →
  vs' = vs - x' ∧ ds' = ds - x' ∧ x <= x' <= ds ∧ x' <= vs ∧ (ds' = 0 ∨ dust_threshold <= ds').
Proof.
  intros Hds Hx. unfold split_stake.
  destruct (checked_sub vs x) as [|vs1] eqn:E1; [done|]. destruct (checked_sub ds x) as [|ds1] eqn:E2; [done|].
  checked. destruct (Z.ltb_spec (ds - x) dust_threshold) as [Hlt|Hge].
  - destruct (checked_add x (ds - x)) as [|x1] eqn:E1; [done|].
    destruct (checked_sub (vs - x) (ds - x)) as [|v1] eqn:E2; [done|]. checked. intros [= <- <- <-]. lia.
  - intros [= <- <- <-]. lia.
Qed.

Context (i : Z) (Hi : fits 1 i).
Hint Resolve Hi : staking.
(** A withdrawal request of [x], [x] being taken from the stakes. *)
Definition requested (x : Z) (σ σ' : Store) : Prop :=
  ∃ σ1, moved v a (- x) (- x) 0 σ σ1 ∧ σ1 (QRequest v a i) = 0 ∧ moved v a 0 0 0 (<[QRequest v a i := x]> σ1) σ'.
Lemma wp_undelegate amount Q σ :
  0 <= amount → epoch_small σ →
  (∀ x σ', amount <= x <= σ (QStake v) → requested x σ σ' → Q () σ') → rwp (undelegate traits v amount i a) Q σ.
Proof.
  intros Hs He HQ. unfold undelegate. fold val del. apply rwp_prog_bind, wp_exists. intros b. wps; [|done].
  rename H0 into Hreq.
  apply wp_pull; [done|done|unfold epoch_small in He; change U64_MAX with (2 ^ 64 - 1); lia|]. intros σ1 [Hm1 _]. apply moved_pulled in Hm1; [|done..].
  assert (He1 : epoch_small σ1) by (unfold epoch_small; by rewrite (mv_epoch _ _ _ _ _ _ _ Hm1)).
  wps. rename a0 into res. destruct res as [[vs' ds'] x]. rename H4 into Hsplit.
  apply split_stake_inr in Hsplit as (-> & -> & Hx1 & Hx2 & Hdust); [|fits_tac|done].
  wps; [fits_tac|fits_tac|].
  set (σ2 := <[QDelStake v a := _]> _).

  assert (Hm2 : moved v a (- x) (- x) 0 σ1 σ2).
  { eapply moved_trans; [by apply (moved_set_stake (- x))|apply (moved_set_del_stake (- x)); by lookups|lia..]. }
  assert (He2 : epoch_small σ2) by (unfold epoch_small; by rewrite (mv_epoch _ _ _ _ _ _ _ Hm2)).
  apply wp_activation_epoch; [done|]. intros e He8 _. apply rwp_prog_bind, wp_deactivate. intros σ3 Hm3.
  unfold emit_undelegate_event. wps.
  { assert (Hx : fits 32 x) by fits_tac. by split; [exact Hx|split]. }
  assert (Hm : moved v a (- x) (- x) 0 σ σ3).
  { eapply moved_trans; [exact Hm1| |by rewrite Z.add_0_l..]. eapply moved_trans; [exact Hm2|exact Hm3|lia..]. }
  assert (Hr3 : σ3 (QRequest v a i) = 0).
  { rewrite (mv_only _ _ _ _ _ _ _ Hm) by (done || (unfold delegation; rewrite !elem_of_cons, elem_of_nil; naive_solver)). done. }
  cbn [wr_amount]. set (σ4 := <[QRequest v a i := x]> σ3).
  assert (He4 : epoch_small σ4).
  { unfold epoch_small, σ4. lookups. by rewrite (mv_epoch _ _ _ _ _ _ _ Hm). }
  assert (Hrange : amount <= x <= σ (QStake v)).
  { pose proof (mv_stake _ _ _ _ _ _ _ Hm1). lia. }
  apply wp_increment; [done|]. wps.
  - apply wp_next_epoch_stake. wps.
    + apply (wp_remove_nodes (T := delegators_of)); [done|done|]. intros σ5 Hn5.
      apply (wp_remove_nodes (T := validators_of)); [done|done|]. intros σ6 Hn6. wps.
      apply (HQ x); [done|]. exists σ3. split_and!; [done..|].
      eapply moved_trans; [by apply moved_nodes|by apply moved_nodes|done..].
    + apply (HQ x); [done|]. exists σ3. split_and!; [done..|apply moved_refl].
  - apply wp_next_epoch_stake. wps.
    + apply (wp_remove_nodes (T := delegators_of)); [done|done|]. intros σ5 Hn5.
      apply (wp_remove_nodes (T := validators_of)); [done|done|]. intros σ6 Hn6. wps.
      apply (HQ x); [done|]. exists σ3. split_and!; [done..|].
      eapply moved_trans; [by apply moved_nodes|by apply moved_nodes|done..].
    + apply (HQ x); [done|]. exists σ3. split_and!; [done..|apply moved_refl].
Qed.
End operations.

(** bringing a delegator up to date.  When [pull_delegator_up_to_date]
    succeeds, the recorded stake of the delegation is all the stake whose
    epoch has come, nothing due is left pending, the total of active and
    pending stake is what it was; what the delegator gains in rewards the
    validator's unclaimed rewards lose; and no other quantity of the contract
    changes. *)
Theorem delegator_caught_up v a L L' :
  balances_ok L → fits 8 v → fits 20 a → reading L QEpoch < U64_MAX → dated v a (reading L) →
  lruns STAKING_CA (pull_delegator_up_to_date v (vars_delegator v a)) L (inr ()) L' →
  reading L' (QDelStake v a) = due v a (reading L) ∧
  active (reading L') (reading L' (QDeltaEpoch v a)) = false ∧
  active (reading L') (reading L' (QNextDeltaEpoch v a)) = false ∧
  delegated v a (reading L') = delegated v a (reading L) ∧ dated v a (reading L') ∧
  reading L' (QUnclaimed v) + reading L' (QRewards v a) = reading L (QUnclaimed v) + reading L (QRewards v a) ∧
  reading L (QRewards v a) <= reading L' (QRewards v a) ∧
  (∀ q, quantity_ok q → q ∉ pull_footprint v a → reading L' q = reading L q).
Proof.
  intros Hb Hv Ha He Hd Hl.
  destruct (wp_pull v a Hv Ha (λ _ σ', caught_up v a (reading L) σ') (reading L) He (λ σ' H, H) L (inr ()) L'
    (represents_reading L Hb) Hl) as (σ' & [_ Hr] & [Ho Hrew Hmore Hdue Hdel] & Ha1 & Ha2).
  destruct (Hdel Hd) as [[Hd1 Hd2] Hsum]. unfold dated, delegated, active in *. rewrite !Hr by done.
  split_and!; try done.
  - rewrite <- Hdue. unfold due, active. rewrite Ha1, Ha2. lia.
  - intros q Hq Hn. rewrite Hr by done. by apply Ho.
Qed.
(** An example: 5 active, 7 from epoch 2, 11 from epoch 3; it is epoch 2. *)
Definition delegation_slots : Z → Z :=
  sv_put vars_epoch 2 (sv_put (del_stake (vars_delegator 1 5)) 5 (sv_put (del_delta_stake (vars_delegator 1 5)) 7
    (sv_put (del_next_delta_stake (vars_delegator 1 5)) 11 (sv_put (del_epochs (vars_delegator 1 5)) (mkEpochs 2 3) (λ _, 0))))).
Definition delegation_ledger : Ledger := mkLedger delegation_slots (λ _, 0) [].
Lemma delegator_caught_up_witness : ∃ L',
  lruns STAKING_CA (pull_delegator_up_to_date 1 (vars_delegator 1 5)) delegation_ledger (inr ()) L' ∧
  reading L' (QDelStake 1 5) = 12 ∧ delegated 1 5 (reading L') = 23.
Proof.
  assert (Hs : match leval STAKING_CA (pull_delegator_up_to_date 1 (vars_delegator 1 5)) delegation_ledger with
    Some (inr _, _) => true | _ => false end = true) by (vm_compute; reflexivity).
  destruct (leval STAKING_CA _ delegation_ledger) as [[[e|[]] L']|] eqn:E; [done| |done]. apply leval_lruns in E.
  exists L'. split; [exact E|].
  destruct (delegator_caught_up 1 5 delegation_ledger L') as (H1 & _ & _ & H2 & _).
  - intros x. apply fits_0.
  - split; vm_compute; congruence.
  - split; vm_compute; congruence.
  - vm_compute. reflexivity.
  - split; vm_compute; congruence.
  - exact E.
  - split; [rewrite H1; vm_compute; reflexivity|rewrite H2; vm_compute; reflexivity].
Defined.
