(* ===== verification/StakingSolvency.v ===== *)
(** * Solvency of the staking contract

    What the contract owes is the stake, active and pending, of every
    delegation, the rewards of delegators, the rewards of validators not yet
    claimed and the withdrawal requests.  Every entry point of
    StakingCalls.v changes what is owed by as much as it changes the balance
    of the contract, the value of the message apart, and keeps the stake of a
    validator equal to the sum of its delegations. *)
From Stdlib Require Import Sorting.Sorted.
From S2P Require Import Prelude Traits Account VersionStack AccountState BlockState State Methods Rlp RlpFacts CheckedMath Ledger Abi.
From S2P Require Import ContractStorage StorageFacts StakingVars StakingLayout Words ReserveBalance Precompiles Staking StakingCalls StakingStore StakingLists StakingFacts.

(** ** Sums over the quantities that are not zero *)
Definition wsum (w : quantity → Z) (K : list quantity) (σ : Store) : Z := foldr (λ q acc, w q * σ q + acc) 0 K.
(** [K] has every quantity that counts. *)
Record covers (w : quantity → Z) (K : list quantity) (σ : Store) : Prop := {
  cv_nodup : NoDup K;
  cv_ok q : q ∈ K → quantity_ok q;
  cv_all q : quantity_ok q → w q ≠ 0 → σ q ≠ 0 → q ∈ K
}.
Definition totals (w : quantity → Z) (σ : Store) (n : Z) : Prop := ∃ K, covers w K σ ∧ n = wsum w K σ.

Section sums.
Context (w : quantity → Z).
#[global] Instance wsum_perm σ : Proper ((≡ₚ) ==> (=)) (λ K, wsum w K σ).
Proof. intros K K' HP. unfold wsum. induction HP; simpl; lia. Qed.
Lemma wsum_app K1 K2 σ : wsum w (K1 ++ K2) σ = wsum w K1 σ + wsum w K2 σ.
Proof. induction K1 as [|q K IH]; simpl; [done|]. unfold wsum in *. simpl. lia. Qed.
Lemma wsum_ext K σ σ' : (∀ q, q ∈ K → w q ≠ 0 → σ' q = σ q) → wsum w K σ' = wsum w K σ.
Proof.
  induction K as [|q K IH]; intros Hq; [done|]. unfold wsum in *. simpl. rewrite IH by set_solver.
  destruct (decide (w q = 0)) as [->|Hw]; [lia|]. rewrite Hq by set_solver. done.
Qed.
Lemma wsum_support K σ : wsum w (filter (λ q, w q * σ q ≠ 0) K) σ = wsum w K σ.
Proof.
  induction K as [|q K IH]; [done|]. unfold wsum in *. rewrite filter_cons. case_decide as E; simpl; [lia|].
  destruct (decide (w q * σ q = 0)); [lia|done].
Qed.
Lemma covers_sum K K' σ : covers w K σ → covers w K' σ → wsum w K σ = wsum w K' σ.
Proof.
  intros [Hn Ho Ha] [Hn' Ho' Ha']. rewrite <- (wsum_support K), <- (wsum_support K').
  apply wsum_perm, list.NoDup_Permutation; [by apply list.NoDup_filter..|]. intros q.
  rewrite !list_elem_of_filter. split; intros [Hw Hq]; (split; [done|]).
  - apply Ha'; [by apply Ho|intros E; rewrite E in Hw; lia|intros E; rewrite E in Hw; lia].
  - apply Ha; [by apply Ho'|intros E; rewrite E in Hw; lia|intros E; rewrite E in Hw; lia].
Qed.
Lemma totals_unique σ n n' : totals w σ n → totals w σ n' → n = n'.
Proof. intros (K & HK & ->) (K' & HK' & ->). by apply covers_sum. Qed.
(** A total after a change of the quantities of a list. *)
Lemma totals_change l σ σ' n m :
  NoDup l → (∀ q, q ∈ l → quantity_ok q) →
  (∀ q, quantity_ok q → w q ≠ 0 → q ∉ l → σ' q = σ q) →
  m = n + wsum w l σ' - wsum w l σ → totals w σ n → totals w σ' m.
Proof.
  intros Hl Hok Hsame -> (K & [Hn Ho Ha] & ->).
  set (K' := l ++ filter (.∉ l) K).
  assert (HK : NoDup K').
  { apply list.NoDup_app. split_and!; [done| |by apply list.NoDup_filter]. intros q Hq. rewrite list_elem_of_filter. tauto. }
  assert (Hin : ∀ q, quantity_ok q → w q ≠ 0 → (q ∈ l ∨ σ q ≠ 0) → q ∈ K').
  { intros q Hq Hw Hs. unfold K'. rewrite elem_of_app, list_elem_of_filter. destruct (decide (q ∈ l)) as [|Hql]; [by left|].
    right. split; [done|]. apply Ha; [done|done|]. by destruct Hs. }
  assert (Hok' : ∀ q, q ∈ K' → quantity_ok q).
  { intros q [Hq|Hq]%elem_of_app; [by apply Hok|]. apply list_elem_of_filter in Hq as [_ Hq]. by apply Ho. }
  assert (HKσ : covers w K' σ) by (split; auto).
  rewrite (covers_sum K K' σ) by (done || by split). exists K'. split.
  - split; [done..|]. intros q Hq Hw Hs. apply Hin; [done..|]. destruct (decide (q ∈ l)); [by left|right].
    rewrite <- Hsame; done.
  - unfold K'. rewrite !wsum_app. rewrite (wsum_ext (filter _ K) σ σ'); [lia|].
    intros q Hq Hw. apply list_elem_of_filter in Hq as [Hq1 Hq2]. apply Hsame; auto.
Qed.
Lemma totals_ext σ σ' n : (∀ q, quantity_ok q → w q ≠ 0 → σ' q = σ q) → totals w σ n → totals w σ' n.
Proof. intros Hq. apply (totals_change [] σ σ'); [constructor|set_solver|auto|simpl; lia]. Qed.
End sums.

(** ** What is owed *)
Definition owed (q : quantity) : Z :=
  match q with
  | QDelStake _ _ | QDelta _ _ | QNextDelta _ _ | QRewards _ _ | QUnclaimed _ | QRequest _ _ _ => 1
  | _ => 0
  end.
(** The delegations of a validator against its stake. *)
Definition gap (v : Z) (q : quantity) : Z :=
  match q with
  | QDelStake v' _ | QDelta v' _ | QNextDelta v' _ => if decide (v' = v) then 1 else 0
  | QStake v' => if decide (v' = v) then -1 else 0
  | _ => 0
  end.
Lemma owed_money q : owed q ≠ 0 → is_money q = true.
Proof. by destruct q. Qed.
Lemma gap_money v q : gap v q ≠ 0 → is_money q = true.
Proof. by destruct q. Qed.

(** A step after which [x] more is owed than the balance has changed by. *)
Record settles (x : Z) (σ σ' : Store) : Prop := {
  st_dated : all_dated σ → all_dated σ';
  st_owed n : all_dated σ → totals owed σ n → totals owed σ' (n + (σ' (QBalance STAKING_CA) - σ (QBalance STAKING_CA)) + x);
  st_gap v n : all_dated σ → totals (gap v) σ n → totals (gap v) σ' n;
  st_epoch : epoch_small σ → epoch_small σ'
}.
Lemma settles_trans x y z σ1 σ2 σ3 : settles x σ1 σ2 → settles y σ2 σ3 → z = x + y → settles z σ1 σ3.
Proof.
  intros [A1 A2 A3 A4] [B1 B2 B3 B4] ->. split; auto. intros n Hd Ht.
  replace (n + _ + _) with (n + (σ2 (QBalance STAKING_CA) - σ1 (QBalance STAKING_CA)) + x +
    (σ3 (QBalance STAKING_CA) - σ2 (QBalance STAKING_CA)) + y) by lia. auto.
Qed.
Section moves.
Context (v a : Z) (Hv : fits 8 v) (Ha : fits 20 a).
Lemma delegation_nodup : NoDup (delegation v a).
Proof.
  unfold delegation. repeat (apply list.NoDup_cons; split; [rewrite ?not_elem_of_cons; split_and!; done || apply not_elem_of_nil|]).
  apply list.NoDup_singleton.
Qed.
Lemma delegation_ok q : q ∈ delegation v a → quantity_ok q.
Proof. unfold delegation. rewrite !elem_of_cons, elem_of_nil. intros H. by destruct_or! H; subst. Qed.
Lemma settles_moved d r σ σ' : moved v a d d r σ σ' → settles (d + r) σ σ'.
Proof.
  intros Hm. pose proof (mv_stake _ _ _ _ _ _ _ Hm) as Hs. pose proof (mv_rewards _ _ _ _ _ _ _ Hm) as Hr.
  split; [by intros Hd; apply (mv_delegated _ _ _ _ _ _ _ Hm)|..].
  - intros n Hd. destruct (mv_delegated _ _ _ _ _ _ _ Hm Hd) as [_ Hdel]. unfold delegated in Hdel.
    apply (totals_change _ (delegation v a)); [apply delegation_nodup|apply delegation_ok| |].
    + intros q _ Hq Hn. by apply Hm; [apply owed_money|].
    + rewrite (mv_balance _ _ _ _ _ _ _ Hm). unfold wsum, delegation. simpl. lia.
  - intros u n Hd. destruct (mv_delegated _ _ _ _ _ _ _ Hm Hd) as [_ Hdel]. unfold delegated in Hdel.
    apply (totals_change _ (delegation v a)); [apply delegation_nodup|apply delegation_ok| |].
    + intros q _ Hq Hn. by apply Hm; [apply (gap_money u)|].
    + unfold wsum, delegation. simpl. case_decide; lia.
  - unfold epoch_small. by rewrite (mv_epoch _ _ _ _ _ _ _ Hm).
Qed.
Lemma settles_request i x σ : fits 1 i → settles (x - σ (QRequest v a i)) σ (<[QRequest v a i := x]> σ).
Proof.
  intros Hi. split.
  - intros Hd v' a' Hv' Ha'. destruct (Hd v' a' Hv' Ha'). split; by lookups.
  - intros n Hd. lookups. apply (totals_change _ [QRequest v a i]).
    + apply list.NoDup_singleton.
    + intros q ->%list_elem_of_singleton. done.
    + intros q _ _ Hq. apply fn_lookup_insert_ne. set_solver.
    + unfold wsum. simpl. lookups. lia.
  - intros u n Hd. apply totals_ext. intros q _ Hq. apply fn_lookup_insert_ne. intros <-. done.
  - unfold epoch_small. by lookups.
Qed.
Lemma settles_requested i x σ σ' : fits 1 i → requested v a i x σ σ' → settles 0 σ σ'.
Proof.
  intros Hi (σ1 & H1 & H0 & H2). eapply settles_trans; [by apply settles_moved| |].
  - eapply settles_trans; [by apply (settles_request i x)|by apply (settles_moved 0 0)|done].
  - rewrite H0. lia.
Qed.
End moves.
Lemma settles_refl σ : settles 0 σ σ.
Proof. split; try done. intros n _. by rewrite Z.sub_diag, !Z.add_0_r. Qed.
(** Changes of balances. *)
Lemma settles_balance b x σ :
  settles (if decide (b = STAKING_CA) then σ (QBalance b) - x else 0) σ (<[QBalance b := x]> σ).
Proof.
  split.
  - intros Hd v' a' Hv' Ha'. destruct (Hd v' a' Hv' Ha'). split; by lookups.
  - intros n Hd Ht. case_decide as E.
    + subst b. lookups. replace (n + _ + _) with n by lia.
      eapply totals_ext; [|exact Ht]. intros q _ Hq. apply fn_lookup_insert_ne. by intros <-.
    + rewrite fn_lookup_insert_ne by congruence. replace (n + _ + _) with n by lia.
      eapply totals_ext; [|exact Ht]. intros q _ Hq. apply fn_lookup_insert_ne. by intros <-.
  - intros u n Hd. apply totals_ext. intros q _ Hq. apply fn_lookup_insert_ne. by intros <-.
  - unfold epoch_small. by lookups.
Qed.

(** ** Entry points *)
(** Every successful run settles, [x] being paid in beforehand. *)
Definition entry {A} (p : res A) (x : Z) : Prop := ∀ σ, epoch_small σ → rwp p (λ _ σ', settles x σ σ') σ.

Lemma rwp_decode n input (Q : Z * list Z → Store → Prop) σ :
  (n <= 32)%nat → bytes_ok input → (∀ x rest, fits n x → bytes_ok rest → Q (x, rest) σ) → rwp (decode n input) Q σ.
Proof.
  intros Hn Hi HQ. unfold decode, abi_decode_fixed. destruct (Z.ltb_spec (len input) 32) as [|Hl]; [by apply wp_ret|].
  apply wp_ret. simpl. apply HQ; [|by apply Forall_drop]. unfold fits.
  assert (Hok : bytes_ok (take n (drop (32 - n) input))) by (by apply Forall_take, Forall_drop).
  pose proof (be_val_bound _ Hok) as Hb. unfold len in *. rewrite length_take, length_drop in Hb.
  replace (n `min` (length input - (32 - n)))%nat with n in Hb by lia. done.
Qed.
Ltac dstep :=
  match goal with
  | |- rwp (decode _ _) _ _ => apply rwp_decode; [lia|done|intros ? ? ? ?; cbv beta iota]
  | |- rwp (input_empty _) _ _ => unfold input_empty
  | |- rwp (not_payable _) _ _ => unfold not_payable
  | _ => wp_step
  end.
Ltac dsteps := repeat dstep.
Ltac after H := eapply settles_trans; [exact H| |].

(** Rewards of [x] for the delegators of a validator. *)
Lemma wp_apply_reward v from x s Q σ :
  fits 8 v → fits 32 x → (∀ σ', settles x σ σ' → Q () σ') → rwp (apply_reward v from x s) Q σ.
Proof.
  intros Hv Hx HQ. unfold apply_reward, emit_validator_rewarded_event. dsteps; checked; [fits_tac|].
  dsteps. apply HQ. replace x with (0 + x) at 1 by lia.
  apply (settles_moved v 0 Hv (fits_0 20) 0 x), (moved_set_unclaimed _ _ Hv (fits_0 20) x). done.
Qed.
Lemma wp_epoch_view v Q σ :
  (∀ view, view = vars_snapshot_view v ∨ view = vars_consensus_view v → Q view σ) → wp (vars_this_epoch_view v) Q σ.
Proof. intros HQ. unfold vars_this_epoch_view. dsteps. apply HQ. destruct t; auto. Qed.

Section entries.
Context (t : Traits) (sender value : Z) (Hsender : fits 20 sender) (Hca : sender ≠ STAKING_CA) (Hvalue : fits 32 value).
Hint Resolve Hsender : staking.

(** Sending from the contract to an account. *)
Lemma wp_send x Q σ :
  0 <= x → (∀ σ', settles x σ σ' → (∀ v, σ' (QRewards v sender) = σ (QRewards v sender)) → Q () σ') →
  wp (send_tokens sender x) Q σ.
Proof.
  intros Hx HQ. unfold send_tokens. wps; [done|done|]. apply HQ; [|intros; by lookups].
  eapply settles_trans; [apply settles_balance|apply settles_balance|].
  rewrite decide_False, decide_True by done. lia.
Qed.
Lemma small_epoch σ : epoch_small σ → σ QEpoch < U64_MAX.
Proof. unfold epoch_small. change U64_MAX with (2 ^ 64 - 1). lia. Qed.
Lemma wp_pull_settles v Q σ :
  fits 8 v → epoch_small σ → (∀ σ', settles 0 σ σ' → Q () σ') → rwp (pull_delegator_up_to_date v (vars_delegator v sender)) Q σ.
Proof.
  intros Hv He HQ. apply wp_pull; [done|done|by apply small_epoch|]. intros σ' [Hp _]. apply HQ.
  apply (settles_moved v sender Hv Hsender 0 0). by apply moved_pulled.
Qed.

Lemma entry_delegate input : bytes_ok input → entry (precompile_delegate t input sender value) value.
Proof.
  intros Hi σ He. unfold precompile_delegate. dsteps.
  - apply wp_delegate; [done|done|by destruct Hvalue|done|]. intros σ' Hm. dsteps.
    replace value with (value + 0) by lia. by apply (settles_moved x sender).
  - apply negb_false_iff, Z.eqb_eq in Heqb. subst value. apply settles_refl.
Qed.
(** A method that is not payable. *)
Ltac unpaid := match goal with H : (value =? 0) = true |- _ => apply Z.eqb_eq in H; rewrite H in * end.
Lemma entry_undelegate input : bytes_ok input → entry (precompile_undelegate t input sender value) value.
Proof.
  intros Hi σ He. unfold precompile_undelegate. dsteps; unpaid; [apply settles_refl|].
  apply wp_undelegate; [done|done|done|by destruct H2|done|]. intros y σ' _ Hr. dsteps.
  by eapply (settles_requested x sender).
Qed.
Lemma entry_compound input : bytes_ok input → entry (precompile_compound t input sender value) value.
Proof.
  intros Hi σ He. unfold precompile_compound. dsteps. unpaid. apply wp_pull_settles; [done|done|]. intros σ1 H1'.
  assert (He1 : epoch_small σ1) by (by apply H1'). dsteps.
  - unfold emit_claim_rewards_event. dsteps. apply wp_delegate; [done|done|by destruct H3|by unfold epoch_small; lookups|].
    intros σ' Hm. dsteps. after H1'; [|reflexivity].
    eapply settles_trans; [apply (settles_moved x sender H0 Hsender 0 (- σ1 (QRewards x sender))); by apply (moved_set_rewards _ _ H0 Hsender _ 0); lia| |].
    + apply (settles_moved x sender H0 Hsender (σ1 (QRewards x sender)) 0). exact Hm.
    + lia.
  - apply negb_false_iff, Z.eqb_eq in Heqb. after H1'; [|reflexivity].
    apply (settles_moved x sender H0 Hsender 0 0), (moved_set_rewards _ _ H0 Hsender _ 0). lia.
Qed.
Lemma entry_claim input : bytes_ok input → entry (precompile_claim_rewards input sender value) value.
Proof.
  intros Hi σ He. unfold precompile_claim_rewards, claim_rewards. dsteps. unpaid.
  apply wp_pull_settles; [done|done|]. intros σ1 H1'. dsteps.
  - apply wp_send; [by destruct H3|]. intros σ2 Hs Hsame. unfold emit_claim_rewards_event. dsteps. after H1'; [|reflexivity].
    after Hs; [apply (settles_moved x sender H0 Hsender 0 (- σ1 (QRewards x sender))), (moved_set_rewards _ _ H0 Hsender _ 0)|lia].
    rewrite Hsame. lia.
  - done.
Qed.
Lemma entry_withdraw input : bytes_ok input → entry (precompile_withdraw input sender value) value.
Proof.
  intros Hi σ He. unfold precompile_withdraw, withdraw. dsteps. unpaid. destruct H5 as (Hamt & Hacc & Hep).
  apply wp_is_epoch_active. dsteps. apply wp_decrement; [done|done|]. intros acc. dsteps.
  apply calculate_rewards_inr in H7; [|by destruct Hamt]. apply wp_reward_invariant; [done|done|]. intros Hle. dsteps.
  checked. apply wp_send; [destruct Hamt, H7; lia|]. intros σ2 Hs _. unfold emit_withdraw_event. dsteps.
  eapply settles_trans; [by apply (settles_request x sender H0 Hsender x0)| |].
  - eapply settles_trans; [|exact Hs|reflexivity].
    apply (settles_moved x sender H0 Hsender 0 (- a)), (moved_set_unclaimed _ _ H0 Hsender (- a)). lia.
  - lia.
Qed.
Lemma entry_change_commission input : bytes_ok input → entry (precompile_change_commission input sender value) value.
Proof.
  intros Hi σ He. unfold precompile_change_commission. dsteps. unpaid. apply wp_exists; [done|]. intros b. dsteps.
  apply wp_auth; [done|]. intros _. dsteps; [|apply settles_refl].
  unfold emit_commission_changed_event. dsteps. apply settles_refl.
Qed.
Lemma entry_external_reward input : bytes_ok input → entry (precompile_external_reward input sender value) value.
Proof.
  intros Hi σ He. unfold precompile_external_reward. dsteps. apply wp_exists; [done|]. intros b. dsteps.
  apply wp_epoch_view. intros view _. dsteps. apply wp_apply_reward; [done|done|]. intros σ' Hs. dsteps. done.
Qed.
End entries.

(** *** Queries *)
Lemma wp_read {A} (p : prog A) (Q : A → Store → Prop) σ :
  read_prog STAKING_CA p → (∀ r, Q r σ) → wp p Q σ.
Proof. intros Hp HQ L r L' Hr Hl. rewrite (read_lruns _ _ _ _ _ Hp Hl). eauto. Qed.
Lemma settles_plain σ σ' :
  (∀ q, match q with QAuth _ | QFlags _ | QINext _ _ | QIPrev _ _ | QANext _ _ | QAPrev _ _ => False | _ => True end →
     σ' q = σ q) → settles 0 σ σ'.
Proof.
  intros Hq. split.
  - intros Hd v a Hv Ha. destruct (Hd v a Hv Ha). split; by rewrite !Hq.
  - intros n _ Ht. rewrite !Hq by done. replace (n + _ + _) with n by lia.
    eapply totals_ext; [|exact Ht]. intros q _ Hw. apply Hq. by destruct q.
  - intros v n _ Ht. eapply totals_ext; [|exact Ht]. intros q _ Hw. apply Hq. by destruct q.
  - unfold epoch_small. by rewrite Hq.
Qed.
Lemma load_reads {T} `{Packed T} (v : StorageVariable T) : sv_address v = STAKING_CA → read_prog STAKING_CA (load v).
Proof. intros <-. apply read_prog_load. Qed.
Lemma pcollect_reads {A} s n (f : Z → prog A) : (∀ i, read_prog STAKING_CA (f i)) → read_prog STAKING_CA (pcollect s n f).
Proof.
  intros Hf. revert s. induction n as [|n IH]; intros s; cbn [pcollect]; [done|].
  apply read_prog_bind; [done|]. intros x. apply read_prog_bind; [done|]. done.
Qed.

Section queries.
Context (t : Traits) (sender value : Z) (Hsender : fits 20 sender) (Hvalue : fits 32 value).
Hint Resolve Hsender : staking.
Ltac unpaid := match goal with H : (value =? 0) = true |- _ => apply Z.eqb_eq in H; rewrite H in * end.

Lemma entry_get_valset s input : bytes_ok input → entry (precompile_get_valset (array_of s) input sender value) value.
Proof.
  intros Hi σ He. unfold precompile_get_valset, get_valset. dsteps. unpaid.
  apply wp_read; [apply load_reads; by destruct s|]. intros len. dsteps.
  apply wp_read.
  - unfold get_valset_page. apply read_prog_bind; [apply load_reads; by destruct s|]. intros n.
    apply read_prog_bind; [|done]. apply pcollect_reads. intros i. apply load_reads. by destruct s.
  - intros [[d n] l]. dsteps. apply settles_refl.
Qed.
Lemma entry_get_validator input : bytes_ok input → entry (precompile_get_validator input sender value) value.
Proof. intros Hi σ He. unfold precompile_get_validator. dsteps. unpaid. apply settles_refl. Qed.
Lemma entry_get_delegator input : bytes_ok input → entry (precompile_get_delegator input sender value) value.
Proof.
  intros Hi σ He. unfold precompile_get_delegator. dsteps. unpaid. apply wp_pull_settles; [done..|]. intros σ1 Hs. dsteps. done.
Qed.
Lemma entry_get_lists input : bytes_ok input →
  entry (precompile_get_delegations t input sender value) value ∧
  entry (precompile_get_delegators t input sender value) value.
Proof.
  intros Hi. split; intros σ He; unfold precompile_get_delegations, precompile_get_delegators; dsteps; unpaid;
    (apply wp_read; [apply traverse_reads|intros [[d n] l]; dsteps; apply settles_refl]).
Qed.
Lemma entry_get_epoch input : entry (precompile_get_epoch input sender value) value.
Proof. intros σ He. unfold precompile_get_epoch. dsteps. unpaid. apply settles_refl. Qed.
Lemma entry_get_proposer input : entry (precompile_get_proposer_val_id input sender value) value.
Proof. intros σ He. unfold precompile_get_proposer_val_id. dsteps. unpaid. apply settles_refl. Qed.
Lemma entry_get_withdrawal_request input : bytes_ok input → entry (precompile_get_withdrawal_request input sender value) value.
Proof. intros Hi σ He. unfold precompile_get_withdrawal_request. dsteps. unpaid. apply settles_refl. Qed.
End queries.

(** *** Registration *)
Section registration.
Context (keccak256 : list Z → Z) (schemes : SignatureSchemes) (t : Traits).
Context (sender value : Z) (Hvalue : fits 32 value).
Lemma rwp_bytes_tail n input (Q : list Z * list Z → Store → Prop) σ :
  bytes_ok input → (∀ l rest, bytes_ok l → bytes_ok rest → Q (l, rest) σ) → rwp (rabi (abi_decode_bytes_tail n input)) Q σ.
Proof.
  intros Hi HQ. apply wp_ret. unfold abi_decode_bytes_tail, abi_decode_fixed. repeat case_match; simplify_eq; try done.
  all: simpl; apply HQ; by repeat first [apply Forall_take | apply Forall_drop].
Qed.
Lemma mod_fits_20 x : fits 20 (x mod 2 ^ 160).
Proof. unfold fits. change (256 ^ Z.of_nat 20) with (2 ^ 160). apply Z.mod_pos_bound. lia. Qed.
Hint Resolve mod_fits_20 : staking.
Ltac tail := apply rwp_bytes_tail; [done|]; intros ? ? ? ?; cbv beta iota.

Lemma entry_add_validator input :
  bytes_ok input → entry (precompile_add_validator keccak256 schemes t input sender value) value.
Proof.
  intros Hi σ He. unfold precompile_add_validator. do 6 dstep. apply rwp_bind. tail. apply rwp_bind. tail. apply rwp_bind. tail.
  unfold verify_signatures, address_from_secpkey. dsteps.
  - split; [by apply field_range|split; by compute].
  - unfold emit_validator_created_event. dsteps. cbn [af_auth_address af_flags].
    set (σ1 := <[QAuth _ := _]> _). set (v := u64 (t0 + 1)).
    assert (Hs : settles 0 σ σ1).
    { apply settles_plain. intros q Hq. unfold σ1. destruct q; try done; by lookups. }
    assert (Hauth : fits 20 (field 81 20 l)) by (by apply field_range).
    apply wp_delegate; [apply u64_fits|done|by destruct Hvalue|by apply Hs|]. intros σ' Hm. dsteps.
    after Hs; [|reflexivity]. replace value with (value + 0) at 1 by lia.
    by apply (settles_moved v (field 81 20 l) (u64_fits _) Hauth).
  - match goal with H : negb _ = true |- _ => by cbn in H end.
  - match goal with H : negb _ = true |- _ => by cbn in H end.
Qed.
End registration.

(** *** System calls *)
(** Programs that change no quantity. *)
Definition quiet {A} (p : prog A) : Prop := ∀ σ, wp p (λ _ σ', σ' = σ) σ.
Lemma wp_quiet {A} (p : prog A) (Q : A → Store → Prop) σ : quiet p → (∀ r, Q r σ) → wp p Q σ.
Proof. intros Hp HQ. eapply wp_mono; [apply Hp|]. by intros r σ' ->. Qed.
Ltac quiet_tac := intros ?; dsteps; try done.
Lemma quiet_bind {A C} (p : prog A) (k : A → prog C) : quiet p → (∀ x, quiet (k x)) → quiet (p ≫= k).
Proof. intros Hp Hk σ. apply wp_bind. apply wp_quiet; [done|]. intros r. apply Hk. Qed.
Lemma quiet_ret {A} (x : A) : quiet (Ret x).
Proof. intros σ. by apply wp_ret. Qed.
Lemma wp_element s i Q σ : (∀ v, fits 8 v → Q v σ) → wp (load (arr_get (array_of s) i)) Q σ.
Proof. intros HQ. apply wp_load_uint; [by destruct s|done|]. auto. Qed.
Lemma wp_arr_length s Q σ : (∀ n, fits 8 n → Q n σ) → wp (arr_length (array_of s)) Q σ.
Proof. intros HQ. apply wp_load_uint; [by destruct s|done|]. auto. Qed.
Lemma quiet_for_each s i n f : (∀ v, fits 8 v → quiet (f v)) → quiet (for_each (array_of s) i n f).
Proof.
  intros Hf. revert i. induction n as [|n IH]; intros i σ; cbn [for_each]; [by apply wp_ret|].
  apply wp_bind, wp_element. intros v Hv. apply wp_bind, wp_quiet; [by apply Hf|]. intros _. apply IH.
Qed.
Lemma wp_pop s Q σ : (∀ v, fits 8 v → Q v σ) → wp (arr_pop (array_of s)) Q σ.
Proof.
  intros HQ. unfold arr_pop. apply wp_bind, wp_arr_length. intros n Hn. dsteps. apply wp_element. intros v Hv.
  assert (fits 8 (n - 1)) by (unfold fits in *; apply Z.gtb_lt in H; lia). dsteps. by apply HQ.
Qed.
Lemma quiet_drain s f : (∀ v, fits 8 v → quiet (f v)) → quiet (drain (array_of s) f).
Proof.
  intros Hf σ. unfold drain. apply wp_bind, wp_arr_length. intros n _. dsteps; [done|].
  clear Heqb. generalize (Z.to_nat n). intros m. induction m as [|m IH]; cbn [drain_loop]; [by apply wp_ret|].
  apply wp_bind, wp_pop. intros v Hv. apply wp_bind, wp_quiet; [by apply Hf|]. intros _.
  apply wp_bind, wp_arr_length. intros l _. dsteps; [done|]. exact IH.
Qed.
Lemma quiet_pfor {A} (l : list A) f : (∀ x, x ∈ l → quiet (f x)) → quiet (pfor l f).
Proof.
  induction l as [|x l IH]; intros Hf; cbn [pfor]; [apply quiet_ret|]. apply quiet_bind; [apply Hf; set_solver|].
  intros _. apply IH. set_solver.
Qed.
Lemma quiet_push s x : quiet (arr_push (array_of s) x).
Proof. intros σ. by apply wp_push. Qed.
Lemma quiet_flags v : fits 8 v → quiet (ve_get_flags (vars_val_execution v)).
Proof. intros Hv σ. apply wp_get_flags; done. Qed.
(** Candidates have the ids of the array; the indices to remove are its own. *)
Lemma wp_find_candidates i n Q σ :
  0 <= i → i + Z.of_nat n <= 2 ^ 64 →
  (∀ c r, (∀ x, x ∈ c → fits 8 x.1) → (∀ j, j ∈ r → fits 8 j) → Q (c, r) σ) → wp (find_candidates i n) Q σ.
Proof.
  revert i Q. induction n as [|n IH]; intros i Q Hi Hn HQ; cbn [find_candidates]; [apply wp_ret, HQ; set_solver|].
  apply wp_bind, (wp_element SetExecution). intros v Hv. cbv zeta. apply wp_bind, wp_quiet; [by apply quiet_flags|]. intros fl.
  dsteps.
  - apply IH; [lia|lia|]. intros c r Hc Hr. dsteps. apply HQ; [|done]. intros x [->|Hx]%elem_of_cons; [done|auto].
  - apply IH; [lia|lia|]. intros c r Hc Hr. dsteps. apply HQ; [done|]. intros j [->|Hj]%elem_of_cons; [|auto].
    unfold fits. change (256 ^ Z.of_nat 8) with (2 ^ 64). lia.
Qed.

Lemma insert_candidate_perm c l : insert_candidate c l ≡ₚ c :: l.
Proof.
  induction l as [|x r IH]; simpl; [done|]. destruct (candidate_before x c); [|done].
  rewrite IH. by constructor.
Qed.
Lemma sort_candidates_perm l : sort_candidates l ≡ₚ l.
Proof. induction l as [|x r IH]; simpl; [done|]. unfold sort_candidates in *. simpl. by rewrite insert_candidate_perm, IH. Qed.
Lemma top_candidates_elem x l : x ∈ top_candidates l → x ∈ l.
Proof.
  unfold top_candidates. intros Hx. rewrite <- (sort_candidates_perm l).
  rewrite <- (take_drop (Z.to_nat (Z.min (Z.of_nat (length l)) active_valset_size)) (sort_candidates l)).
  apply elem_of_app. by left.
Qed.

Lemma quiet_fix_accumulator e v : fits 8 e → fits 8 v → quiet (fix_accumulator e v).
Proof.
  intros He Hv σ. unfold fix_accumulator. apply wp_bind, wp_load_checked_any; [done|]. intros [acc|]; dsteps; done.
Qed.
Lemma entry_on_epoch_change input value σ :
  bytes_ok input → rwp (syscall_on_epoch_change input value) (λ _ σ', ∃ e, σ' = <[QEpoch := e]> σ) σ.
Proof.
  intros Hi. unfold syscall_on_epoch_change, emit_epoch_changed_event. dsteps.
  apply (wp_arr_length SetSnapshot). intros n _. dsteps.
  apply wp_quiet.
  { apply (quiet_for_each SetSnapshot). intros v Hv. apply quiet_bind; [by apply quiet_fix_accumulator|].
    intros _. apply quiet_fix_accumulator; [apply u64_fits|done]. }
  intros _. dsteps. by eexists.
Qed.
Lemma split_commission_inr r c x y : 0 <= r → 0 <= c → split_commission r c = inr (x, y) → x + y = r ∧ 0 <= x ∧ 0 <= y.
Proof.
  intros Hr Hc. unfold split_commission. destruct (checked_mul_div r c MON) as [|z] eqn:E; [done|].
  apply checked_mul_div_inr in E as (-> & Hz & _); [|done|done|done].
  destruct (checked_sub r _) as [|w] eqn:E; [done|]. checked. intros [= <- <-]. lia.
Qed.
(** The commission and what is left make up the reward. *)
Lemma wp_pay_commission v r c Q σ :
  fits 8 v → fits 32 r → fits 32 c →
  (∀ x y σ', x + y = r → 0 <= x → 0 <= y → settles x σ σ' → Q y σ') → rwp (pay_commission v r c) Q σ.
Proof.
  intros Hv Hr Hc HQ. unfold pay_commission. dsteps. destruct a as [x y].
  apply split_commission_inr in H as (Hsum & Hx & Hy); [|by destruct Hr|by destruct Hc]. apply rwp_prog_bind, wp_auth; [done|].
  intros Ha. dsteps. apply wp_credit_rewards; [done|done|fits_tac|]. dsteps. apply (HQ x); [done..|].
  replace x with (0 + x) at 1 by lia. apply (settles_moved v _ Hv Ha 0 x), (moved_set_rewards _ _ Hv Ha x). done.
Qed.
Lemma entry_reward t input raw : bytes_ok input → fits 32 raw → entry (syscall_reward t input raw) 0.
Proof.
  intros Hi Hraw σ He. unfold syscall_reward, mint_tokens. dsteps. apply wp_epoch_view. intros view _. dsteps; [by destruct Hraw|].
  apply wp_pay_commission; [done|done|done|]. intros c d σ1 Hsum Hc Hd Hs. dsteps.
  apply wp_apply_reward; [done|fits_tac|]. intros σ2 Hs2. dsteps.
  all: eapply settles_trans; [apply settles_balance| |]; [eapply settles_trans; [exact Hs|exact Hs2|reflexivity]|].
  all: rewrite decide_True by done; lia.
Qed.
Lemma entry_distribute fees : fits 32 fees → entry (contract_distribute_priority_fees fees) fees.
Proof.
  intros Hf σ He. unfold contract_distribute_priority_fees. dsteps. apply wp_exists; [done|]. intros b. dsteps.
  apply wp_epoch_view. intros view _. dsteps. apply wp_pay_commission; [done|done|done|].
  intros c d σ1 Hsum Hc Hd Hs. dsteps; [done|..].
  - eapply settles_trans; [exact Hs|apply settles_balance|]. rewrite decide_True by done. lia.
  - apply wp_apply_reward; [done|fits_tac|]. intros σ2 Hs2. eapply settles_trans; [exact Hs|exact Hs2|lia].
Qed.
Lemma quiet_clear_view view :
  (∀ σ, wp (clear (cv_stake view)) (λ _ σ', σ' = σ) σ) → (∀ σ, wp (clear (cv_commission view)) (λ _ σ', σ' = σ) σ) →
  quiet (clear_view view).
Proof. intros H1 H2. unfold clear_view. by apply quiet_bind. Qed.
Lemma entry_snapshot input value : entry (syscall_snapshot input value) 0.
Proof.
  intros σ He. unfold syscall_snapshot. dsteps. apply wp_quiet.
  { apply (quiet_drain SetSnapshot). intros v Hv. apply quiet_clear_view; intros σ'; dsteps; done. }
  intros _. dsteps. apply (wp_arr_length SetConsensus). intros n _. dsteps. apply wp_quiet.
  { apply (quiet_for_each SetConsensus). intros v Hv. apply quiet_bind; [apply (quiet_push SetSnapshot)|]. intros _ σ'. dsteps. done. }
  intros _. dsteps. apply wp_quiet.
  { apply (quiet_drain SetConsensus). intros v Hv. apply quiet_clear_view; intros σ'; dsteps; done. }
  intros _. dsteps. apply (wp_arr_length SetExecution). intros m Hm. dsteps. apply wp_find_candidates; [lia| |].
  { unfold fits in Hm. change (256 ^ Z.of_nat 8) with (2 ^ 64) in Hm. lia. }
  intros c r Hc Hr. cbv beta iota. dsteps. apply wp_quiet.
  { apply quiet_pfor. intros x Hx%top_candidates_elem. specialize (Hc x Hx). unfold enter_consensus.
    apply quiet_bind; [apply (quiet_push SetConsensus)|]. intros _ σ'. dsteps. done. }
  intros _. dsteps. apply wp_quiet.
  { apply quiet_pfor. intros j Hj. assert (Hj8 : fits 8 j) by (apply Hr; by rewrite <- Permutation_rev in Hj).
    unfold remove_index, remove_from_valset. intros σ'. apply wp_bind, (wp_element SetExecution). intros v Hv. dsteps.
    apply (wp_pop SetExecution). intros u Hu. apply wp_store_hidden; [by apply (hidden_element SetExecution)|done]. }
  intros _. dsteps. apply settles_refl.
Qed.

(** ** Solvency *)
(** What the contract keeps true: delegated stake has a date, and a
    validator's stake is the sum of its delegations. *)
Record staking_inv (L : Ledger) : Prop := {
  si_balances : balances_ok L;
  si_dated : all_dated (reading L);
  si_stake v : totals (gap v) (reading L) 0
}.
(** [n] is owed to delegators and validators. *)
Definition owes (L : Ledger) (n : Z) : Prop := totals owed (reading L) n.

Lemma select_entry keccak256 schemes t signature input sender value :
  bytes_ok input → fits 20 sender → sender ≠ STAKING_CA → fits 32 value →
  entry ((select_method keccak256 schemes t signature).1 input sender value) value.
Proof.
  intros Hi Hs Hca Hv. unfold select_method.
  assert (entry (staking_fallback input sender value) value) by (intros σ He; apply rwp_fail).
  repeat match goal with |- entry ((if ?b then _ else _).1 _ _ _) _ => destruct b; cbn [fst] end;
    eauto using entry_add_validator, entry_delegate, entry_undelegate, entry_compound, entry_withdraw, entry_claim,
      entry_change_commission, entry_external_reward, entry_get_epoch, entry_get_proposer, entry_get_validator,
      entry_get_delegator, entry_get_withdrawal_request.
  - by apply (entry_get_valset _ _ Hv SetConsensus).
  - by apply (entry_get_valset _ _ Hv SetSnapshot).
  - by apply (entry_get_valset _ _ Hv SetExecution).
  - edestruct entry_get_lists as [E _]; [..|apply E]; done.
  - edestruct entry_get_lists as [_ E]; [..|apply E]; done.
Qed.
(** From stores to ledgers. *)
Definition kept (x : Z) (σ σ' : Store) : Prop :=
  all_dated σ' ∧ (∀ v n, totals (gap v) σ n → totals (gap v) σ' n) ∧
  ∀ n, totals owed σ n → totals owed σ' (n + (σ' (QBalance STAKING_CA) - σ (QBalance STAKING_CA)) + x).
Lemma settles_kept x σ σ' : settles x σ σ' → all_dated σ → kept x σ σ'.
Proof. intros [Hd Ho Hg He] Hσ. split_and!; auto. Qed.
Lemma kept_ledger {A} (p : res A) x L r L' n :
  (∀ σ, epoch_small σ → all_dated σ → rwp p (λ _, kept x σ) σ) →
  staking_inv L → reading L QEpoch < 2 ^ 64 - 2 → owes L n → lruns STAKING_CA p L (inr r) L' →
  staking_inv L' ∧ owes L' (n + (lg_balances L' STAKING_CA - lg_balances L STAKING_CA) + x).
Proof.
  intros Hp [Hb Hd Hg] He Ho Hl.
  destruct (Hp (reading L) He Hd L (inr r) L' (represents_reading L Hb) Hl) as (σ' & Hr & Hd' & Hg' & Ho').
  pose proof (rp_reading _ _ Hr (QBalance STAKING_CA) I) as Eb. cbn [reading] in Eb.
  split; [split|].
  - intros b. apply (rp_balances _ _ Hr).
  - intros v a Hv Ha. destruct (Hd' v a Hv Ha). split; by rewrite !(rp_reading _ _ Hr) by done.
  - intros v. eapply totals_ext; [|by apply Hg', Hg]. intros q Hq _. by apply (rp_reading _ _ Hr).
  - unfold owes in *. rewrite Eb. eapply totals_ext; [|by apply Ho']. intros q Hq _. by apply (rp_reading _ _ Hr).
Qed.
Lemma entry_kept {A} (p : res A) x σ : entry p x → epoch_small σ → all_dated σ → rwp p (λ _, kept x σ) σ.
Proof. intros Hp He Hd. eapply rwp_mono; [by apply Hp|]. intros r σ' Hs. by apply settles_kept. Qed.
Lemma kept_epoch e σ : all_dated σ → kept 0 σ (<[QEpoch := e]> σ).
Proof.
  intros Hd. split_and!.
  - intros v a Hv Ha. destruct (Hd v a Hv Ha). split; by lookups.
  - intros v n Ht. eapply totals_ext; [|exact Ht]. intros q _ Hq. apply fn_lookup_insert_ne. by intros <-.
  - intros n Ht. lookups. replace (n + _ + _) with n by lia.
    eapply totals_ext; [|exact Ht]. intros q _ Hq. apply fn_lookup_insert_ne. by intros <-.
Qed.
Lemma syscall_kept t calldata value σ :
  bytes_ok calldata → fits 32 value → epoch_small σ → all_dated σ →
  rwp (execute_staking_syscall t calldata value) (λ _, kept 0 σ) σ.
Proof.
  intros Hi Hv He Hd. unfold execute_staking_syscall. dstep. dstep; [done|]. rewrite Z.add_0_r.
  set (σ1 := <[QBalance STAKING_CA := _]> σ).
  assert (H1 : ∀ q, σ1 q = σ q).
  { intros q. unfold σ1. destruct (decide (QBalance STAKING_CA = q)) as [<-|]; [by rewrite fn_lookup_insert|].
    by rewrite fn_lookup_insert_ne. }
  assert (Hi' : bytes_ok (drop 4 calldata)) by (by apply Forall_drop).
  assert (He1 : epoch_small σ1) by (unfold epoch_small; by rewrite H1).
  assert (Hd1 : all_dated σ1) by (intros v a Hv' Ha'; destruct (Hd v a Hv' Ha'); split; by rewrite !H1).
  assert (Hk : ∀ σ', kept 0 σ1 σ' → kept 0 σ σ').
  { intros σ' (A & B & C). split_and!; [done|..].
    - intros v n Ht. apply B. eapply totals_ext; [|exact Ht]. auto.
    - intros n Ht. rewrite <- (H1 (QBalance STAKING_CA)). apply C. eapply totals_ext; [|exact Ht]. auto. }
  dsteps; (eapply rwp_mono; [|intros ? σ'; apply Hk]).
  - by apply entry_kept; [apply entry_reward|..].
  - by apply entry_kept; [apply entry_snapshot|..].
  - eapply rwp_mono; [by apply entry_on_epoch_change|]. intros _ σ' [e ->]. by apply kept_epoch.
Qed.

(** C20: the staking contract stays solvent under every call of a user.  When
    a method of the dispatch table succeeds, what the contract owes (active
    and pending stake of all delegations, rewards, unclaimed rewards and
    withdrawal requests) has grown by the change of its balance plus the
    value that came with the message: so a balance that covered the debts and
    the value covers the debts afterwards.  And the stake of every validator
    is still the sum of its delegations, none of them without a date. *)
Theorem staking_calls_solvent keccak256 schemes t signature input sender value L out L' n :
  staking_inv L → reading L QEpoch < 2 ^ 64 - 2 →
  bytes_ok input → fits 20 sender → sender ≠ STAKING_CA → fits 32 value →
  owes L n →
  lruns STAKING_CA ((select_method keccak256 schemes t signature).1 input sender value) L (inr out) L' →
  staking_inv L' ∧
  owes L' (n + (lg_balances L' STAKING_CA - lg_balances L STAKING_CA) + value).
Proof. intros HL He Hi Hs Hca Hv. apply kept_ledger; [|done..]. intros σ Hes Hd. by apply entry_kept; [apply select_entry|..]. Qed.

(** C21: the system calls keep the staking contract solvent.  The reward of a
    block mints exactly what is then owed to the validator's auth address and
    delegators; the snapshot and the change of epoch change neither; and the
    distribution of priority fees turns the fees received into debts, less
    what it burns. *)
Theorem staking_syscalls_solvent t calldata value fees L L' n :
  staking_inv L → reading L QEpoch < 2 ^ 64 - 2 → bytes_ok calldata → fits 32 value → fits 32 fees →
  owes L n →
  (lruns STAKING_CA (execute_staking_syscall t calldata value) L (inr ()) L' →
     staking_inv L' ∧ owes L' (n + (lg_balances L' STAKING_CA - lg_balances L STAKING_CA))) ∧
  (lruns STAKING_CA (contract_distribute_priority_fees fees) L (inr ()) L' →
     staking_inv L' ∧ owes L' (n + (lg_balances L' STAKING_CA - lg_balances L STAKING_CA) + fees)).
Proof.
  intros HL He Hi Hv Hf Ho. split; intros Hl.
  - rewrite <- (Z.add_0_r (n + _)). apply (kept_ledger (execute_staking_syscall t calldata value) 0 L ()); [|done..].
    intros σ Hes Hd. by apply syscall_kept.
  - apply (kept_ledger (contract_distribute_priority_fees fees) fees L ()); [|done..].
    intros σ Hes Hd. by apply entry_kept; [apply entry_distribute|..].
Qed.

(** ** An example: a validator and a delegation *)
Definition demo_ledger : Ledger :=
  lg_set_slots (sv_put (ve_address_flags (vars_val_execution 1)) (mkAddressFlags 7 1) (λ _, 0))
    (mkLedger (λ _, 0) (λ a, if a =? STAKING_CA then 1000000000000000000 else 0) []).
Lemma demo_zero q : quantity_ok q → is_money q = true → reading demo_ledger q = 0.
Proof.
  intros Hq Hm. unfold demo_ledger.
  set (L := mkLedger _ _ _). change (λ _ : Z, 0) with (lg_slots L).
  rewrite (reading_put_other _ (XExecution 1 EFlags)); [|by apply located_at|done|by destruct q].
  destruct q; try done; cbn [reading lg_slots L]; by rewrite sv_get_empty.
Qed.
Lemma demo_total w : (∀ q, w q ≠ 0 → is_money q = true) → totals w (reading demo_ledger) 0.
Proof.
  intros Hw. exists []. split; [|done]. split; [constructor|set_solver|]. intros q Hq Hwq Hr. by rewrite demo_zero in Hr by auto.
Qed.
Lemma demo_inv : staking_inv demo_ledger.
Proof.
  split.
  - intros a. unfold demo_ledger. simpl. destruct (a =? STAKING_CA); [|apply fits_0]. unfold fits. cbn. lia.
  - intros v a Hv Ha. split; intros _; by apply demo_zero.
  - intros v. apply demo_total, gap_money.
Qed.
Definition no_schemes : SignatureSchemes :=
  mkSignatureSchemes (λ _, false) id (λ _, false) (λ _ _ _, false) (λ _, false) id (λ _, false) (λ _ _ _, false).
Definition demo_traits : Traits := MonadTraits MONAD_FOUR.
(** The runs of the examples return. *)
Definition succeeds {A} (p : res A) (L : Ledger) : bool :=
  match leval STAKING_CA p L with Some (inr _, _) => true | _ => false end.
Lemma succeeds_lruns {A} (p : res A) L : succeeds p L = true → ∃ r L', lruns STAKING_CA p L (inr r) L'.
Proof.
  unfold succeeds. destruct (leval STAKING_CA p L) as [[[e|r] L']|] eqn:E; [done| |done]. intros _.
  exists r, L'. by apply leval_lruns.
Qed.
Lemma staking_calls_solvent_witness : ∃ out L',
  lruns STAKING_CA ((select_method (λ _, 0) no_schemes demo_traits 0x84994fec).1 (abi_encode_uint 8 1) 5 1000000000)
    demo_ledger (inr out) L' ∧
  staking_inv L' ∧ owes L' (0 + (lg_balances L' STAKING_CA - lg_balances demo_ledger STAKING_CA) + 1000000000).
Proof.
  destruct (succeeds_lruns ((select_method (λ _, 0) no_schemes demo_traits 0x84994fec).1 (abi_encode_uint 8 1) 5 1000000000)
    demo_ledger) as (out & L' & Hr); [vm_compute; reflexivity|].
  exists out, L'. split; [exact Hr|].
  apply (staking_calls_solvent (λ _, 0) no_schemes demo_traits 0x84994fec (abi_encode_uint 8 1) 5 1000000000 demo_ledger out L' 0).
  - apply demo_inv.
  - vm_compute. reflexivity.
  - repeat constructor; vm_compute; congruence.
  - split; vm_compute; congruence.
  - discriminate.
  - split; vm_compute; congruence.
  - apply demo_total, owed_money.
  - exact Hr.
Defined.
Lemma staking_syscalls_solvent_witness : ∃ L',
  lruns STAKING_CA (execute_staking_syscall demo_traits (be_bytes 4 selector_SNAPSHOT) 0) demo_ledger (inr ()) L' ∧
  staking_inv L' ∧ owes L' (0 + (lg_balances L' STAKING_CA - lg_balances demo_ledger STAKING_CA)).
Proof.
  destruct (succeeds_lruns (execute_staking_syscall demo_traits (be_bytes 4 selector_SNAPSHOT) 0) demo_ledger)
    as ([] & L' & Hr); [vm_compute; reflexivity|].
  exists L'. split; [exact Hr|].
  apply (staking_syscalls_solvent demo_traits (be_bytes 4 selector_SNAPSHOT) 0 0 demo_ledger L' 0).
  - apply demo_inv.
  - vm_compute. reflexivity.
  - apply be_bytes_ok.
  - apply fits_0.
  - apply fits_0.
  - apply demo_total, owed_money.
  - exact Hr.
Defined.

(** ** The validators of the next epoch *)
Definition not_after (a b : Z * Z) : Prop := candidate_before b a = false.
Lemma candidate_before_total a b : candidate_before a b = true → candidate_before b a = false.
Proof.
  unfold candidate_before. destruct (Z.eqb_spec a.2 b.2) as [E|E], (Z.eqb_spec b.2 a.2) as [E'|E']; try lia; simpl.
  - rewrite Z.ltb_lt, Z.ltb_ge. lia.
  - rewrite !Z.gtb_ltb, Z.ltb_lt, Z.ltb_ge. lia.
Qed.
#[global] Instance not_after_trans : Transitive not_after.
Proof.
  intros [a1 a2] [b1 b2] [c1 c2]. unfold not_after, candidate_before. simpl.
  destruct (Z.eqb_spec b2 a2), (Z.eqb_spec c2 b2), (Z.eqb_spec c2 a2); simpl;
    rewrite ?Z.gtb_ltb, ?Z.ltb_ge; try lia.
Qed.
Lemma insert_candidate_sorted c l : StronglySorted not_after l → StronglySorted not_after (insert_candidate c l).
Proof.
  induction 1 as [|x r Hr IH Hx]; simpl; [by repeat constructor|]. destruct (candidate_before x c) eqn:E.
  - constructor; [done|]. rewrite insert_candidate_perm. constructor; [|done]. by apply candidate_before_total.
  - constructor; [by constructor|]. constructor; [done|]. eapply list.Forall_impl; [exact Hx|]. intros y Hy.
    by transitivity x.
Qed.
Lemma sort_candidates_sorted l : StronglySorted not_after (sort_candidates l).
Proof. induction l as [|x r IH]; [constructor|]. by apply insert_candidate_sorted. Qed.
Lemma StronglySorted_split {A} (R : A → A → Prop) l1 l2 :
  StronglySorted R (l1 ++ l2) → StronglySorted R l1 ∧ ∀ x y, x ∈ l1 → y ∈ l2 → R x y.
Proof.
  induction l1 as [|z l1 IH]; simpl; [split; [constructor|set_solver]|]. intros [Hs Hz]%StronglySorted_inv.
  destruct (IH Hs) as [H1 H2]. rewrite Forall_app in Hz. destruct Hz as [Hz1 Hz2]. split; [by constructor|].
  intros x y [->|Hx]%elem_of_cons Hy; [|auto]. rewrite list.Forall_forall in Hz2. auto.
Qed.

(** Which validators enter the consensus set.  Of the candidates of a
    snapshot, the ones selected are 200 or all of them if there are fewer, in
    the order of more stake first and the smaller id first among equals, and
    no candidate left out comes before one selected. *)
Theorem consensus_set_selection l :
  let top := top_candidates l in
  length top = (length l `min` 200)%nat ∧
  StronglySorted not_after top ∧
  ∃ rest, l ≡ₚ top ++ rest ∧ ∀ x y, x ∈ top → y ∈ rest → not_after x y.
Proof.
  cbv zeta. unfold top_candidates. set (n := Z.to_nat _).
  assert (Hn : n = (length l `min` 200)%nat) by (unfold n; change active_valset_size with 200; lia).
  pose proof (sort_candidates_perm l) as Hp. pose proof (sort_candidates_sorted l) as Hs.
  rewrite <- (take_drop n (sort_candidates l)) in Hs. apply StronglySorted_split in Hs as [Hs Ho].
  split_and!; [|done|].
  - rewrite length_take, Hp. lia.
  - exists (drop n (sort_candidates l)). split; [|done]. by rewrite take_drop.
Qed.
