(* ===== verification/StakingRefinement.v ===== *)
(** * The staking contract on the state

    Every program of the staking contract only uses its own slots, balances
    and the log, so a run of it on the versioned [State] over a [BlockState]
    is a run on the ledger (Ledger.v), where StakingSolvency.v reasons. *)
From S2P Require Import Prelude Traits Account VersionStack AccountState BlockState State Methods Rlp RlpFacts CheckedMath Fixtures Frames Merge Speculation Ledger Abi.
From S2P Require Import ContractStorage StorageFacts StakingVars StakingLayout Words ReserveBalance Precompiles Staking StakingCalls StakingStore StakingLists StakingFacts StakingSolvency.

(** ** Programs of the contract *)
Abbreviation cprog := (contract_prog STAKING_CA).
Section variables.
Context {T : Type} `{Packed T}.
Implicit Types v : StorageVariable T.
Lemma cprog_load_slots c o n : contract_prog c (load_slots c o n).
Proof.
  revert o. induction n as [|n IH]; intros o; [done|]. cbn [load_slots]. apply contract_bind; [done|]. intros w.
  apply contract_bind; [apply IH|done].
Qed.
Lemma cprog_store_slots c o ws : contract_prog c (store_slots c o ws).
Proof. revert o. induction ws as [|w ws IH]; intros o; [done|]. cbn [store_slots]. apply contract_bind; [done|]. auto. Qed.
Lemma cprog_load v : sv_address v = STAKING_CA → cprog (load v).
Proof. intros <-. apply contract_bind; [apply cprog_load_slots|done]. Qed.
Lemma cprog_load_checked v : sv_address v = STAKING_CA → cprog (load_checked v).
Proof. intros <-. apply contract_bind; [apply cprog_load_slots|done]. Qed.
Lemma cprog_store v t : sv_address v = STAKING_CA → cprog (store v t).
Proof. intros <-. apply cprog_store_slots. Qed.
Lemma cprog_clear v : sv_address v = STAKING_CA → cprog (clear v).
Proof. intros <-. apply cprog_store_slots. Qed.
End variables.
Lemma cprog_rbind {A C} (p : res A) (k : A → res C) : cprog p → (∀ a, cprog (k a)) → cprog (rbind p k).
Proof. intros Hp Hk. apply contract_bind; [done|]. by intros [e|a]. Qed.
Create HintDb cprog discriminated.
#[export] Hint Constants Opaque : cprog.
Ltac cp_step :=
  match goal with
  | |- cprog (rbind _ _) => apply cprog_rbind; [|intros ?]
  | |- cprog (mbind _ _) => apply contract_bind; [|intros ?]
  | |- cprog (load _) => apply cprog_load; reflexivity
  | |- cprog (load_checked _) => apply cprog_load_checked; reflexivity
  | |- cprog (store _ _) => apply cprog_store; reflexivity
  | |- cprog (clear _) => apply cprog_clear; reflexivity
  | |- cprog (Ret _) => exact I
  | |- cprog (rok _) => exact I
  | |- cprog (rfail _) => exact I
  | |- cprog (rmath _) => exact I
  | |- cprog (rabi _) => exact I
  | |- cprog (decode _ _) => exact I
  | |- cprog (do_ _) => split; [exact I|intros ?; exact I]
  | |- cprog (emit_log _) => split; [exact I|intros ?; exact I]
  | |- cprog (rcheck ?b _) => destruct b; exact I
  | |- cprog (passert ?b) => destruct b; exact I
  | |- cprog (passert_throw ?b _) => destruct b; exact I
  | |- cprog (let _ := _ in _) => cbv zeta
  | |- cprog (if ?b then _ else _) => destruct b
  | |- cprog (match ?b with _ => _ end) => destruct b
  | |- cprog _ => solve [auto with cprog nocore]
  end.
Ltac cp := repeat cp_step.
Ltac cpu t := unfold t; cp.

Lemma cp_not_payable v : cprog (not_payable v).
Proof. cpu not_payable. Qed.
Lemma cp_input_empty i : cprog (input_empty i).
Proof. cpu input_empty. Qed.
Lemma cp_activation : cprog get_activation_epoch.
Proof. cpu get_activation_epoch. Qed.
Lemma cp_active e : cprog (is_epoch_active e).
Proof. cpu is_epoch_active. Qed.
#[export] Hint Resolve cp_not_payable cp_input_empty cp_activation cp_active : cprog.
Lemma cp_increment v : cprog (increment_accumulator_refcount v).
Proof. cpu increment_accumulator_refcount. Qed.
Lemma cp_decrement e v : cprog (decrement_accumulator_refcount e v).
Proof. cpu decrement_accumulator_refcount. Qed.
Lemma cp_flags v : cprog (ve_get_flags v).
Proof. cpu ve_get_flags. Qed.
Lemma cp_auth v : cprog (ve_auth_address v).
Proof. cpu ve_auth_address. Qed.
Lemma cp_set_flag v f : cprog (ve_set_flag v f).
Proof. cpu ve_set_flag. Qed.
Lemma cp_clear_flag v f : cprog (ve_clear_flag v f).
Proof. cpu ve_clear_flag. Qed.
Lemma cp_delta_epoch d : cprog (del_get_delta_epoch d).
Proof. cpu del_get_delta_epoch. Qed.
Lemma cp_next_delta_epoch d : cprog (del_get_next_delta_epoch d).
Proof. cpu del_get_next_delta_epoch. Qed.
Lemma cp_set_delta_epoch d e : cprog (del_set_delta_epoch d e).
Proof. cpu del_set_delta_epoch. Qed.
Lemma cp_set_next_delta_epoch d e : cprog (del_set_next_delta_epoch d e).
Proof. cpu del_set_next_delta_epoch. Qed.
Lemma cp_next_stake d : cprog (del_get_next_epoch_stake d).
Proof. cpu del_get_next_epoch_stake. Qed.
#[export] Hint Resolve cp_increment cp_decrement cp_flags cp_auth cp_set_flag cp_clear_flag cp_delta_epoch cp_next_delta_epoch
  cp_set_delta_epoch cp_set_next_delta_epoch cp_next_stake : cprog.
Lemma cp_exists v : cprog (ve_exists v).
Proof. cpu ve_exists. Qed.
Lemma cp_promote d : cprog (promote_delta d).
Proof. cpu promote_delta. Qed.
Lemma cp_can_promote d e : cprog (can_promote_delta d e).
Proof. cpu can_promote_delta. Qed.
Lemma cp_invariant v r : cprog (reward_invariant v r).
Proof. cpu reward_invariant. Qed.
Lemma cp_credit d r : cprog (credit_rewards d r).
Proof. cpu credit_rewards. Qed.
#[export] Hint Resolve cp_exists cp_promote cp_can_promote cp_invariant cp_credit : cprog.
Lemma cp_compound v d : cprog (compound_once v d).
Proof. unfold compound_once. cp. cpu apply_compound. Qed.
#[export] Hint Resolve cp_compound : cprog.
Lemma cp_pull v d : cprog (pull_delegator_up_to_date v d).
Proof. cpu pull_delegator_up_to_date. Qed.
Lemma cp_status v f : cprog (emit_validator_status_changed_event v f).
Proof. cpu emit_validator_status_changed_event. Qed.
Lemma cp_apply_reward v f r s : cprog (apply_reward v f r s).
Proof. unfold apply_reward. cp. cpu emit_validator_rewarded_event. Qed.
#[export] Hint Resolve cp_pull cp_status cp_apply_reward : cprog.
(** *** Lists and arrays *)
Section lists.
Context {T : LinkedListTrait} `{ListLaws T}.
Lemma cp_node_load k p : cprog (load (node_at T k p)).
Proof. apply cprog_load, ll_address. Qed.
Lemma cp_node_store k p n : cprog (store (node_at T k p) n).
Proof. apply cprog_store, ll_address. Qed.
Hint Resolve cp_node_load cp_node_store : cprog.
Ltac cpn := repeat lazymatch goal with
  | |- cprog (load (node_at _ _ _)) => apply cp_node_load
  | |- cprog (store (node_at _ _ _) _) => apply cp_node_store
  | _ => cp_step
  end.
Lemma cp_insert k p : cprog (linked_list_insert T k p).
Proof. unfold linked_list_insert. cpn. Qed.
Lemma cp_remove k p : cprog (linked_list_remove T k p).
Proof. unfold linked_list_remove. cpn. Qed.
Lemma cp_loop k p n : cprog (traverse_loop T k p n).
Proof. revert p. induction n as [|n IH]; intros p; cbn [traverse_loop]; cpn. Qed.
Lemma cp_traverse k p n : cprog (linked_list_traverse T k p n).
Proof. unfold linked_list_traverse. cpn; apply cp_loop. Qed.
End lists.
Lemma array_address s : arr_address (array_of s) = STAKING_CA.
Proof. by destruct s. Qed.
Lemma cp_length s : cprog (arr_length (array_of s)).
Proof. apply cprog_load, array_address. Qed.
Lemma cp_element s i : cprog (load (arr_get (array_of s) i)).
Proof. apply cprog_load, array_address. Qed.
Lemma cp_push s x : cprog (arr_push (array_of s) x).
Proof.
  unfold arr_push. apply contract_bind; [apply cp_length|]. intros n.
  apply contract_bind; [apply cprog_store, array_address|]. intros _. apply cprog_store, array_address.
Qed.
Lemma cp_pop s : cprog (arr_pop (array_of s)).
Proof.
  unfold arr_pop. apply contract_bind; [apply cp_length|]. intros n. cp; [apply cp_element|..].
  - apply cprog_clear, array_address.
  - apply cprog_store, array_address.
Qed.
Lemma cp_add_to_valset v : cprog (add_to_valset v).
Proof. cpu add_to_valset. Qed.
Lemma cp_remove_from_valset v : cprog (remove_from_valset v).
Proof. cpu remove_from_valset. Qed.
#[export] Hint Resolve cp_add_to_valset cp_remove_from_valset : cprog.

(** *** Operations *)
Lemma cp_activate t v x a : cprog (activate_validator t v x a).
Proof. unfold activate_validator. cp. apply (cp_push SetExecution). Qed.
Lemma cp_deactivate t v x a : cprog (deactivate_validator t v x a).
Proof. cpu deactivate_validator. Qed.
Lemma cp_add_delta d s e : cprog (add_delta d s e).
Proof. cpu add_delta. Qed.
#[export] Hint Resolve cp_activate cp_deactivate cp_add_delta : cprog.
Lemma cp_delegate t v s a : cprog (delegate t v s a).
Proof.
  unfold delegate, emit_delegation_event. cp; [apply (cp_insert (T := delegators_of))|apply (cp_insert (T := validators_of))].
Qed.
Lemma cp_undelegate t v s i a : cprog (undelegate t v s i a).
Proof.
  unfold undelegate, emit_undelegate_event. cp;
    lazymatch goal with |- cprog (linked_list_remove ?T _ _) => apply (cp_remove (T := T)) end.
Qed.
Lemma cp_send a x : cprog (send_tokens a x).
Proof. cpu send_tokens. Qed.
Lemma cp_withdraw v i a : cprog (withdraw v i a).
Proof.
  unfold withdraw, emit_withdraw_event. cp. all: auto using cp_send.
Qed.
Lemma cp_epoch_view v : cprog (vars_this_epoch_view v).
Proof. cpu vars_this_epoch_view. Qed.
#[export] Hint Resolve cp_delegate cp_undelegate cp_send cp_withdraw cp_epoch_view : cprog.
Lemma cp_claim v a : cprog (claim_rewards v a).
Proof. unfold claim_rewards, emit_claim_rewards_event. cp. Qed.
#[export] Hint Resolve cp_claim : cprog.
Lemma cp_add_validator keccak256 schemes t input sender value :
  cprog (precompile_add_validator keccak256 schemes t input sender value).
Proof.
  unfold precompile_add_validator, verify_signatures, address_from_secpkey, emit_validator_created_event. cp.
Qed.
Lemma cp_pcollect {A} s n (f : Z → prog A) : (∀ i, cprog (f i)) → cprog (pcollect s n f).
Proof. intros Hf. revert s. induction n as [|n IH]; intros s; cbn [pcollect]; cp. Qed.
Lemma cp_get_valset s input sender value : cprog (precompile_get_valset (array_of s) input sender value).
Proof.
  unfold precompile_get_valset, get_valset, get_valset_page. cp; try apply cp_length.
  apply cp_pcollect. intros i. apply cp_element.
Qed.
Lemma cp_select keccak256 schemes t signature input sender value :
  cprog ((select_method keccak256 schemes t signature).1 input sender value).
Proof.
  unfold select_method.
  repeat match goal with |- cprog ((if ?b then _ else _).1 _ _ _) => destruct b; cbn [fst] end;
    try apply cp_add_validator; try (exact I).
  1: cpu precompile_delegate.
  1: cpu precompile_undelegate.
  1: unfold precompile_compound, emit_claim_rewards_event; cp.
  1: cpu precompile_withdraw.
  1: cpu precompile_claim_rewards.
  1: unfold precompile_change_commission, emit_commission_changed_event; cp.
  1: cpu precompile_external_reward.
  1: cpu precompile_get_epoch.
  1: cpu precompile_get_proposer_val_id.
  1: cpu precompile_get_validator.
  1: cpu precompile_get_delegator.
  1: cpu precompile_get_withdrawal_request.
  1: apply (cp_get_valset SetConsensus).
  1: apply (cp_get_valset SetSnapshot).
  1: apply (cp_get_valset SetExecution).
  all: unfold precompile_get_delegations, precompile_get_delegators; cp.
  - apply (cp_traverse (T := validators_of)).
  - apply (cp_traverse (T := delegators_of)).
Qed.

(** *** System calls *)
Lemma cp_for_each s i n f : (∀ v, cprog (f v)) → cprog (for_each (array_of s) i n f).
Proof.
  intros Hf. revert i. induction n as [|n IH]; intros i; cbn [for_each]; [exact I|].
  apply contract_bind; [apply cp_element|]. intros v. apply contract_bind; [apply Hf|]. intros _. apply IH.
Qed.
Lemma cp_drain s f : (∀ v, cprog (f v)) → cprog (drain (array_of s) f).
Proof.
  intros Hf. unfold drain. apply contract_bind; [apply cp_length|]. intros m. destruct (m =? 0); [exact I|].
  generalize (Z.to_nat m). intros n. induction n as [|n IH]; cbn [drain_loop]; [exact I|].
  apply contract_bind; [apply cp_pop|]. intros v. apply contract_bind; [apply Hf|]. intros _.
  apply contract_bind; [apply cp_length|]. intros l. destruct (l =? 0); [exact I|exact IH].
Qed.
Lemma cp_pfor {A} (l : list A) f : (∀ x, cprog (f x)) → cprog (pfor l f).
Proof. intros Hf. induction l as [|x l IH]; cbn [pfor]; [exact I|]. apply contract_bind; [apply Hf|]. intros _. exact IH. Qed.
Lemma cp_fix e v : cprog (fix_accumulator e v).
Proof. cpu fix_accumulator. Qed.
Lemma cp_find i n : cprog (find_candidates i n).
Proof.
  revert i. induction n as [|n IH]; intros i; cbn [find_candidates]; [exact I|].
  apply contract_bind; [apply (cp_element SetExecution)|]. intros v. cp.
Qed.
Lemma cp_enter c : cprog (enter_consensus c).
Proof. unfold enter_consensus. apply contract_bind; [apply (cp_push SetConsensus)|]. intros _. cp. Qed.
Lemma cp_remove_index i : cprog (remove_index i).
Proof.
  unfold remove_index. apply contract_bind; [apply (cp_element SetExecution)|]. intros v. cp. apply (cp_pop SetExecution).
Qed.
Lemma cp_clear_view v : cprog (clear_view v).
Proof. cpu clear_view. Qed.
#[export] Hint Resolve cp_fix cp_find cp_clear_view : cprog.
Lemma cp_snapshot input value : cprog (syscall_snapshot input value).
Proof.
  unfold syscall_snapshot. cp.
  - apply (cp_drain SetSnapshot). intros v. apply cp_clear_view.
  - apply (cp_length SetConsensus).
  - apply (cp_for_each SetConsensus). intros v. apply contract_bind; [apply (cp_push SetSnapshot)|]. intros _. cp.
  - apply (cp_drain SetConsensus). intros v. apply cp_clear_view.
  - apply (cp_length SetExecution).
  - apply cp_pfor, cp_enter.
  - apply cp_pfor, cp_remove_index.
Qed.
Lemma cp_epoch_change input value : cprog (syscall_on_epoch_change input value).
Proof.
  unfold syscall_on_epoch_change, emit_epoch_changed_event. cp.
  - apply (cp_length SetSnapshot).
  - apply (cp_for_each SetSnapshot). intros v. cp.
Qed.
Lemma cp_pay v r c : cprog (pay_commission v r c).
Proof. cpu pay_commission. Qed.
#[export] Hint Resolve cp_snapshot cp_epoch_change cp_pay : cprog.
Lemma cp_reward t input value : cprog (syscall_reward t input value).
Proof. unfold syscall_reward, mint_tokens. cp. Qed.
Lemma cp_syscall t calldata value : cprog (execute_staking_syscall t calldata value).
Proof. unfold execute_staking_syscall. cp. apply cp_reward. Qed.
Lemma cp_distribute fees : cprog (contract_distribute_priority_fees fees).
Proof. unfold contract_distribute_priority_fees. cp. Qed.

(** ** On the state *)
Section refinement.
Context {VC : Type} `{VarcodeCache VC}.
Context (db_ : Db) (secondary_db_ : option Db) (keccak256 : Code → Z).
#[local] Instance refinement_access : BlockAccess (BlockState VC) := block_access db_ secondary_db_.
Hypothesis Hsecondary : ∀ db2 a i k, secondary_db_ = Some db2 →
  db_read_storage db2 a i k = db_read_storage db_ a i k.
Context (hash : list Z → Z) (schemes : SignatureSchemes) (t : Traits).

(** C22: on the state of a transaction, over the state of the block and the
    database, the staking contract behaves as on a ledger.  Where the state
    shows the contract the ledger [L], a run of a method of its dispatch
    table, of a system call or of the distribution of priority fees is a run
    on [L] with the same result, and the state afterwards shows the ledger
    that run ends with. *)
Theorem staking_on_state signature input sender value fees w w' L :
  shows db_ STAKING_CA w L →
  (∀ r, exec keccak256 ((select_method hash schemes t signature).1 input sender value) w = Ok (r, w') →
     ∃ L', lruns STAKING_CA ((select_method hash schemes t signature).1 input sender value) L r L' ∧
       shows db_ STAKING_CA w' L') ∧
  (∀ r, exec keccak256 (execute_staking_syscall t input value) w = Ok (r, w') →
     ∃ L', lruns STAKING_CA (execute_staking_syscall t input value) L r L' ∧ shows db_ STAKING_CA w' L') ∧
  (∀ r, exec keccak256 (contract_distribute_priority_fees fees) w = Ok (r, w') →
     ∃ L', lruns STAKING_CA (contract_distribute_priority_fees fees) L r L' ∧ shows db_ STAKING_CA w' L').
Proof.
  intros Hsh. split_and!; intros r; (apply exec_refines; [done| |done]).
  - apply cp_select.
  - apply cp_syscall.
  - apply cp_distribute.
Qed.
End refinement.

(** A chain on which the contract exists and nothing is staked. *)
Definition staking_db : Db := mkDb
  (λ a, if a =? STAKING_CA then Some (mkAccount 0 NULL_HASH 1 (mkIncarnation 0 0)) else None) (λ _ _ _, 0)
  (λ h, if h =? NULL_HASH then Some [] else None).
#[local] Instance staking_access : BlockAccess (BlockState ()) := block_access staking_db None.
Definition staking_world : State * BlockState () := (test_state, test_block).
Lemma staking_world_shows : shows staking_db STAKING_CA staking_world empty_ledger.
Proof.
  split.
  - by eexists.
  - intros k. reflexivity.
  - intros a. unfold account_now. simpl. unfold account_view. simpl. by destruct (a =? STAKING_CA).
  - reflexivity.
Qed.
Lemma staking_on_state_witness : ∃ w' L',
  exec test_hash (execute_staking_syscall demo_traits (be_bytes 4 selector_SNAPSHOT) 0) staking_world = Ok (inr (), w') ∧
  lruns STAKING_CA (execute_staking_syscall demo_traits (be_bytes 4 selector_SNAPSHOT) 0) empty_ledger (inr ()) L' ∧
  shows staking_db STAKING_CA w' L'.
Proof.
  assert (Hok : match exec test_hash (execute_staking_syscall demo_traits (be_bytes 4 selector_SNAPSHOT) 0) staking_world with
    Ok (inr (), _) => true | _ => false end = true) by (vm_compute; reflexivity).
  destruct (exec test_hash _ staking_world) as [[[e|[]] w']| |] eqn:E; try discriminate Hok.
  destruct (staking_on_state staking_db None test_hash ltac:(discriminate) (λ _, 0) no_schemes demo_traits
    0 (be_bytes 4 selector_SNAPSHOT) 5 0 0 staking_world w' empty_ledger staking_world_shows) as (_ & Hs & _).
  destruct (Hs (inr ()) E) as (L' & Hl & Hsh). exists w', L'. split; [reflexivity|]. split; [exact Hl|exact Hsh].
Defined.
