(* ===== verification/Host.v ===== *)
(** * The host of the virtual machine

    EvmcHost (src/category/execution/ethereum/evmc_host.{hpp,cpp}), which
    turns each request of the virtual machine into methods of [State], the
    block hash history contract (block_hash_history.cpp), and
    resolve_delegation (src/category/vm/evm/delegation.cpp).  An exception
    of a state method is captured, unwinds the virtual machine and is thrown
    again by it: it stops the program. *)
From S2P Require Import Prelude Traits Account VersionStack AccountState BlockState State Methods Words CheckedMath Transaction Rlp ReserveBalance Precompiles.

(** ** Block hash history (EIP-2935) *)
Definition BLOCK_HISTORY_ADDRESS : Z := 0x0000F90827F1C53a10cb7A02335B175320002935.
Definition BLOCK_HISTORY_LENGTH : Z := 8191.
Definition BLOCK_HISTORY_CODE_HASH : Z :=
  0x6e49e66782037c0555897870e29fa5e552daf4719552131a0abce779daec0a5d.
Definition BLOCK_HISTORY_CODE : Code :=
  be_bytes 83 0x3373fffffffffffffffffffffffffffffffffffffffe14604657602036036042575f35600143038111604257611fff81430311604257611fff9006545f5260205ff35b5f5ffd5b5f35611fff60014303065500.

Definition deploy_block_hash_history_contract (t : Traits) : prog () :=
  if evm_rev t <? MONAD_ETH_PRAGUE then Ret () else
  deployed ← do_ (m_account_has_code_or_nonce BLOCK_HISTORY_ADDRESS);
  (if negb deployed then
     do_ (m_create_contract BLOCK_HISTORY_ADDRESS);;
     do_ (m_set_code BLOCK_HISTORY_ADDRESS BLOCK_HISTORY_CODE);;
     h ← do_ (m_get_code_hash BLOCK_HISTORY_ADDRESS);
     passert (h =? BLOCK_HISTORY_CODE_HASH);;
     do_ (m_set_nonce BLOCK_HISTORY_ADDRESS 1)
   else Ret ());;
  if monad_rev_from t MONAD_SIX then
    h ← do_ (m_get_code_hash BLOCK_HISTORY_ADDRESS);
    if negb (h =? BLOCK_HISTORY_CODE_HASH) then do_ (m_set_code BLOCK_HISTORY_ADDRESS BLOCK_HISTORY_CODE)
    else Ret ()
  else Ret ().

Definition set_block_hash_history (t : Traits) (header : BlockHeader) : prog () :=
  if evm_rev t <? MONAD_ETH_PRAGUE then Ret ()
  else if (match monad_rev t with Some rev => rev <? MONAD_SIX | None => false end) then Ret ()
  else if hdr_number header =? 0 then Ret ()
  else
    h ← do_ (m_get_code_hash BLOCK_HISTORY_ADDRESS);
    if h =? BLOCK_HISTORY_CODE_HASH then
      let parent_number := hdr_number header - 1 in
      _ ← do_ (m_set_storage BLOCK_HISTORY_ADDRESS (parent_number mod BLOCK_HISTORY_LENGTH)
                 (parent_hash header));
      Ret ()
    else Ret ().

Definition get_block_hash_history (block_number : Z) : prog Z :=
  h ← do_ (m_get_code_hash BLOCK_HISTORY_ADDRESS);
  if negb (h =? BLOCK_HISTORY_CODE_HASH) then Ret 0
  else do_ (m_get_storage BLOCK_HISTORY_ADDRESS (block_number mod BLOCK_HISTORY_LENGTH)).

(** ** Requests of the virtual machine

    The methods of [evmc::Host] other than [call] and [get_tx_context],
    which returns a constant. *)
Inductive host_op : Type → Type :=
| h_account_exists (a : Z) : host_op bool
| h_get_storage (a k : Z) : host_op Z
| h_set_storage (a k v : Z) : host_op monad_storage_status
| h_get_balance (a : Z) : host_op Z
| h_get_code_size (a : Z) : host_op Z
| h_get_code_hash (a : Z) : host_op Z
| h_copy_code (a offset size : Z) : host_op Code
| h_selfdestruct (a beneficiary : Z) : host_op bool
| h_get_block_hash (n : Z) : host_op Z
| h_emit_log (a : Z) (data topics : list Z) : host_op ()
| h_access_account (a : Z) : host_op monad_access_status
| h_access_storage (a k : Z) : host_op monad_access_status
| h_get_transient_storage (a k : Z) : host_op Z
| h_set_transient_storage (a k v : Z) : host_op ()
| h_update_page (a k : Z) (st : monad_storage_status) : host_op monad_page_storage_status.

(** What an [EvmcHost] is made with.  [block_hash_buffer] is the [get] of
    the buffer it refers to. *)
Record HostContext := mkHostContext {
  host_traits : Traits;
  host_tx : Transaction;
  host_base_fee_per_gas : option Z;
  host_i : nat;
  chain_ctx : ChainContext;
  log_native_transfers : bool;
  block_hash_buffer : Z → outcome Z;
  host_chain_id : Z
}.

Definition native_token_address : Z := 0xeeeeeeeeeeeeeeeeeeeeeeeeeeeeeeeeeeeeeeee.
Definition transfer_signature : Z := 0xddf252ad1be2c89b69c2b068fc378daa952ba7f163c4a11628f55a4df523b3ef.
Definition emit_native_transfer_event (host : HostContext) (from to value : Z) : prog () :=
  if log_native_transfers host && (value >? 0) && negb (from =? to) then
    do_ (m_store_log (mkLog (be_bytes 32 value) [transfer_signature; from; to] native_token_address))
  else Ret ().

Definition get_block_hash (host : HostContext) (block_number : Z) : prog Z :=
  passert (block_number >=? 0);;
  h ← get_block_hash_history block_number;
  if negb (h =? 0) then Ret h
  else
    h ← plift (block_hash_buffer host block_number);
    passert (negb (h =? 0));;
    Ret h.

(** *** One definition per method *)
Definition host_account_exists (a : Z) : prog bool := dead ← do_ (m_account_is_dead a); Ret (negb dead).
Definition host_get_storage (a k : Z) : prog Z := do_ (m_get_storage a k).
Definition host_set_storage (a k v : Z) : prog monad_storage_status := do_ (m_set_storage a k v).
Definition host_get_balance (a : Z) : prog Z := do_ (m_get_balance a).
(** Without a code tracer, as for [copy_code]. *)
Definition host_get_code_size (a : Z) : prog Z := do_ (m_get_code_size a).
Definition host_get_code_hash (a : Z) : prog Z :=
  dead ← do_ (m_account_is_dead a);
  if (dead : bool) then Ret 0 else do_ (m_get_code_hash a).
Definition host_copy_code (a offset size : Z) : prog Code := do_ (m_copy_code a offset size).
Definition host_selfdestruct (host : HostContext) (a beneficiary : Z) : prog bool :=
  '(result, transferred_balance) ← do_ (m_selfdestruct (host_traits host) a beneficiary);
  emit_native_transfer_event host a beneficiary transferred_balance;;
  Ret result.
Definition host_emit_log (a : Z) (data topics : list Z) : prog () := do_ (m_store_log (mkLog data topics a)).
Definition host_access_account (host : HostContext) (a : Z) : prog monad_access_status :=
  if is_precompile (host_traits host) a then Ret MONAD_ACCESS_WARM else do_ (m_access_account a).
Definition host_access_storage (host : HostContext) (a k : Z) : prog monad_access_status :=
  do_ (m_access_storage (host_traits host) a k).
Definition host_get_transient_storage (a k : Z) : prog Z := do_ (m_get_transient_storage a k).
Definition host_set_transient_storage (a k v : Z) : prog () := do_ (m_set_transient_storage a k v).
Definition host_update_page (host : HostContext) (a k : Z) (st : monad_storage_status)
    : prog monad_page_storage_status :=
  if mip_8_active (host_traits host) then do_ (m_update_page a k st) else Stop Abort.

Definition host_call (host : HostContext) {X} (op : host_op X) : prog X :=
  match op with
  | h_account_exists a => host_account_exists a
  | h_get_storage a k => host_get_storage a k
  | h_set_storage a k v => host_set_storage a k v
  | h_get_balance a => host_get_balance a
  | h_get_code_size a => host_get_code_size a
  | h_get_code_hash a => host_get_code_hash a
  | h_copy_code a offset size => host_copy_code a offset size
  | h_selfdestruct a beneficiary => host_selfdestruct host a beneficiary
  | h_get_block_hash n => get_block_hash host n
  | h_emit_log a data topics => host_emit_log a data topics
  | h_access_account a => host_access_account host a
  | h_access_storage a k => host_access_storage host a k
  | h_get_transient_storage a k => host_get_transient_storage a k
  | h_set_transient_storage a k v => host_set_transient_storage a k v
  | h_update_page a k st => host_update_page host a k st
  end.

(** ** Delegation *)
Definition resolve_delegation (host : HostContext) (addr : Z) : prog (option Z) :=
  code ← host_call host (h_copy_code addr 0 (delegation_indicator_size + 1));
  Ret (if code_is_delegated code then Some (be_val (take 20 (drop 3 code))) else None).
