(* ===== verification/ExecuteMessage.v ===== *)
(** * Execution of messages

    src/category/execution/ethereum/execute_message.cpp: calls and contract
    creations, with EvmcHost::call (evmc_host.hpp), through which the virtual
    machine starts nested messages, and the address functions of
    create_contract_address.cpp.  The virtual machine (src/category/vm) is a
    parameter: what it does with a message and a code is a tree [vm_tree] of
    requests to the host, so that the theorems hold for every contract and
    for both the interpreter and the compiler. *)
From S2P Require Import Prelude Traits Account VersionStack AccountState BlockState State Methods Words CheckedMath Transaction Rlp ReserveBalance Precompiles Host.

(** ** The virtual machine

    It returns a result, sends a request to the host, starts a nested
    message or stops on a failed assertion or an exception of its own.  The
    depth of a nested message is set when it is started; [None] is the
    answer when the call stack is full. *)
Inductive vm_tree :=
| VmRet (r : Result)
| VmHost {X} (op : host_op X) (k : X → vm_tree)
| VmCall (msg : evmc_message) (k : option Result → vm_tree)
| VmStop (o : outcome Empty_set).

Definition with_depth (d : Z) (msg : evmc_message) : evmc_message :=
  mkMessage (kind msg) (flags msg) d (gas msg) (recipient msg) (msg_sender msg) (input_data msg)
    (value msg) (create2_salt msg) (code_address msg) (memory_offset msg).

(** The check of the depth in call_impl and create_impl
    (src/category/vm/runtime/call.cpp and create.cpp). *)
Definition MAX_DEPTH : Z := 1024.

Section vm.
Context (host : HostContext) (call : evmc_message → prog Result).
Fixpoint run_vm (depth : Z) (v : vm_tree) : prog Result :=
  match v with
  | VmRet r => Ret r
  | VmHost op k => x ← host_call host op; run_vm depth (k x)
  | VmCall msg k =>
      if depth >=? MAX_DEPTH then run_vm depth (k None)
      else r ← call (with_depth (depth + 1) msg); run_vm depth (k (Some r))
  | VmStop o => Stop o
  end.
End vm.

(** ** Results *)
Definition set_status (s : evmc_status_code) (r : Result) : Result :=
  mkResult s (gas_left r) (gas_refund r) (output_data r) (create_address r).
Definition set_gas_left (g : Z) (r : Result) : Result :=
  mkResult (status_code r) g (gas_refund r) (output_data r) (create_address r).
Definition set_gas_refund (g : Z) (r : Result) : Result :=
  mkResult (status_code r) (gas_left r) g (output_data r) (create_address r).
Definition set_create_address (a : Z) (r : Result) : Result :=
  mkResult (status_code r) (gas_left r) (gas_refund r) (output_data r) a.
Definition succeeded (r : Result) : bool := bool_decide (status_code r = EVMC_SUCCESS).

Section messages.
Context (keccak256 : list Z → Z).
Context (precompile_execute : Z → list Z → evmc_status_code * list Z).
Context (StakingContract : MonadContract).
(** [vm.execute(host, msg, hash, code)] and [vm.execute_bytecode(host, msg, code)] *)
Context (vm_execute : evmc_message → Code → vm_tree).
Context (vm_execute_bytecode : evmc_message → list Z → vm_tree).
Context (host : HostContext).
Abbreviation traits := (host_traits host).

(** ** Addresses of new contracts *)
Definition hash_and_clip (b : list Z) : Z := keccak256 b mod 2 ^ 160.
Definition create_contract_address (from nonce : Z) : Z :=
  hash_and_clip (encode_list2 [encode_address (Some from); encode_unsigned 8 nonce]).
Definition create2_contract_address (from zeta code_hash : Z) : Z :=
  hash_and_clip ([0xff] ++ be_bytes 20 from ++ be_bytes 32 zeta ++ be_bytes 32 code_hash).

(** ** Helpers *)
Definition sender_has_balance (msg : evmc_message) : prog bool :=
  do_ (m_record_balance_constraint_for_debit (msg_sender msg) (value msg)).
Definition transfer_balances (msg : evmc_message) (to : Z) : prog () :=
  do_ (m_subtract_from_balance (msg_sender msg) (value msg));;
  do_ (m_add_to_balance to (value msg));;
  emit_native_transfer_event host (msg_sender msg) to (value msg).

Definition deploy_contract_code (address : Z) (result : Result) : prog Result :=
  passert (succeeded result);;
  if (evm_rev traits >=? MONAD_ETH_LONDON) && bool_decide (head (output_data result) = Some 0xef) then
    Ret (failure EVMC_CONTRACT_VALIDATION_FAILURE)
  else if size (output_data result) >? max_code_size traits then Ret (failure EVMC_OUT_OF_GAS)
  else
    let deploy_cost := size (output_data result) * 200 in
    if gas_left result <? deploy_cost then Ret (set_status EVMC_OUT_OF_GAS result)
    else
      do_ (m_set_code address (output_data result));;
      Ret (set_gas_left (gas_left result - deploy_cost) (set_create_address address result)).

(** [Some r] is the early return. *)
Definition pre_call (msg : evmc_message) : prog (option Result) :=
  frame_ Push;;
  let static_call := has_flag msg EVMC_STATIC in
  early ←
    (if negb (bool_decide (kind msg = EVMC_DELEGATECALL)) then
       ok ← sender_has_balance msg;
       if negb ok then
         frame_ PopReject;; Ret (Some (make_result EVMC_INSUFFICIENT_BALANCE (gas msg)))
       else
         (if negb static_call then transfer_balances msg (recipient msg) else Ret ());; Ret None
     else Ret None);
  match early with
  | Some r => Ret (Some r)
  | None =>
      (if evm_rev traits <? MONAD_ETH_PRAGUE then
         passert (negb (bool_decide (kind msg = EVMC_CALL)) || (recipient msg =? code_address msg))
       else Ret ());;
      (if bool_decide (kind msg = EVMC_CALL) && static_call then do_ (m_touch (recipient msg)) else Ret ());;
      Ret None
  end.

Definition ripemd_address : Z := 3.
Definition reject_frame : prog () :=
  ripemd_touched ← do_ (m_is_touched ripemd_address);
  frame_ PopReject;;
  if (ripemd_touched : bool) then do_ (m_touch ripemd_address) else Ret ().

Definition keeps_gas (s : evmc_status_code) : bool :=
  bool_decide (s = EVMC_SUCCESS) || bool_decide (s = EVMC_REVERT)
  || bool_decide (s = EVMC_MONAD_RESERVE_BALANCE_VIOLATION).
Definition post_call (result : Result) : prog () :=
  passert (succeeded result || (gas_refund result =? 0));;
  passert (keeps_gas (status_code result) || (gas_left result =? 0));;
  if succeeded result then frame_ PopAccept else reject_frame.

(** The check against the reserve at the end of a transaction's message. *)
Definition check_reserve (msg : evmc_message) : prog bool :=
  if depth msg =? 0 then
    revert_transaction traits (msg_sender msg) (host_tx host) (default 0 (host_base_fee_per_gas host))
      (host_i host) (chain_ctx host)
  else Ret false.

(** ** Creation

    [run depth v] runs the virtual machine. *)
Section with_vm.
Context (run : Z → vm_tree → prog Result).

(** After the address is known: the frame, the init code and the deployment. *)
Definition create_in_frame (msg : evmc_message) (contract_address : Z) : prog Result :=
  frame_ Push;;
  do_ (m_create_contract contract_address);;
  do_ (m_set_nonce contract_address 1);;
  transfer_balances msg contract_address;;
  let m_call := mkMessage EVMC_CALL 0 (depth msg) (gas msg) contract_address (msg_sender msg) []
                  (value msg) 0 contract_address (memory_offset msg) in
  result ← run (depth msg) (vm_execute_bytecode m_call (input_data msg));
  result ← (if succeeded result then deploy_contract_code contract_address result else Ret result);
  violation ← check_reserve msg;
  let result := if violation : bool then set_status EVMC_MONAD_RESERVE_BALANCE_VIOLATION result else result in
  if succeeded result then frame_ PopAccept;; Ret result
  else
    let result := set_gas_refund 0 result in
    let result := if bool_decide (status_code result = EVMC_REVERT) then result else set_gas_left 0 result in
    reject_frame;; Ret result.

Definition execute_create_message (msg : evmc_message) : prog Result :=
  passert (bool_decide (kind msg = EVMC_CREATE) || bool_decide (kind msg = EVMC_CREATE2));;
  ok ← sender_has_balance msg;
  if negb ok then
    (if monad_rev_from traits MONAD_FIVE && (depth msg =? 0) then
       nonce ← do_ (m_get_nonce (msg_sender msg));
       passert (negb (nonce =? U64_MAX));;
       do_ (m_set_nonce (msg_sender msg) (u64 (nonce + 1)))
     else Ret ());;
    Ret (make_result EVMC_INSUFFICIENT_BALANCE (gas msg))
  else
    nonce ← do_ (m_get_nonce (msg_sender msg));
    if nonce =? U64_MAX then Ret (make_result EVMC_ARGUMENT_OUT_OF_RANGE (gas msg)) else
    do_ (m_set_nonce (msg_sender msg) (u64 (nonce + 1)));;
    let contract_address :=
      if bool_decide (kind msg = EVMC_CREATE) then create_contract_address (msg_sender msg) nonce
      else create2_contract_address (msg_sender msg) (create2_salt msg) (keccak256 (input_data msg)) in
    _ ← do_ (m_access_account contract_address);
    taken ← do_ (m_account_has_code_or_nonce contract_address);
    if (taken : bool) then Ret (failure EVMC_INVALID_INSTRUCTION)
    else create_in_frame msg contract_address.

(** ** Calls *)
Definition execute_call_message (msg : evmc_message) : prog Result :=
  passert (bool_decide (kind msg = EVMC_DELEGATECALL) || bool_decide (kind msg = EVMC_CALLCODE)
           || bool_decide (kind msg = EVMC_CALL));;
  early ← pre_call msg;
  match early with
  | Some result => Ret result
  | None =>
      precompiled ← check_call_precompile precompile_execute StakingContract traits msg;
      result ←
        (match precompiled with
         | Some result => Ret result
         | None =>
             hash ← do_ (m_get_code_hash (code_address msg));
             code ← do_ (m_read_code hash);
             run (depth msg) (vm_execute msg code)
         end);
      violation ← check_reserve msg;
      let result :=
        if violation : bool
        then set_gas_refund 0 (set_status EVMC_MONAD_RESERVE_BALANCE_VIOLATION result) else result in
      post_call result;;
      Ret result
  end.

Definition execute_message (msg : evmc_message) : prog Result :=
  if bool_decide (kind msg = EVMC_CREATE) || bool_decide (kind msg = EVMC_CREATE2)
  then execute_create_message msg else execute_call_message msg.
End with_vm.

(** EvmcHost::call, with the output of a creation dropped unless it was
    reverted (EIP-211).  [fuel] bounds the nesting; [bottom] is the answer
    when it is used up. *)
Definition strip_output (msg : evmc_message) (r : Result) : Result :=
  if (bool_decide (kind msg = EVMC_CREATE) || bool_decide (kind msg = EVMC_CREATE2))
     && negb (bool_decide (status_code r = EVMC_REVERT))
  then mkResult (status_code r) (gas_left r) (gas_refund r) [] (create_address r) else r.
Fixpoint call_message (bottom : prog Result) (fuel : nat) (msg : evmc_message) : prog Result :=
  match fuel with
  | O => bottom
  | S n => r ← execute_message (run_vm host (call_message bottom n)) msg; Ret (strip_output msg r)
  end.

(** The message of a transaction: depth 0, with fuel for 1024 nested ones. *)
Definition top_message (bottom : prog Result) (msg : evmc_message) : prog Result :=
  execute_message (run_vm host (call_message bottom (Z.to_nat MAX_DEPTH))) msg.
End messages.
