(* ===== verification/ExecuteMessageFacts.v ===== *)
(** * What execution of messages guarantees

    For every behaviour of the virtual machine: nesting is bounded, frames
    are balanced, a failed message leaves no trace, and gas is accounted
    for. *)
From S2P Require Import Prelude Traits Account VersionStack AccountState BlockState State Methods Fixtures Frames Words CheckedMath Transaction Rlp PrecompileGas ReserveBalance Precompiles Host ExecuteMessage.
From S2P Require Import Ledger StakingVars Staking StakingCalls StakingSolvency StakingRefinement.

(** ** Programs without frames of their own *)
Inductive flat {A} : prog A → Prop :=
| flat_Ret a : flat (Ret a)
| flat_Stop o : flat (Stop o)
| flat_Act {X} (op : method X) k : (∀ x, flat (k x)) → flat (Act (Method op) k).

Lemma flat_bind {A C} (p : prog A) (k : A → prog C) : flat p → (∀ a, flat (k a)) → flat (p ≫= k).
Proof.
  induction 1 as [a|o|X op f _ IH]; intros Hk; [apply Hk|constructor|].
  change (flat (Act (Method op) (λ y, f y ≫= k))). constructor. auto.
Qed.
Lemma flat_do {X} (op : method X) : flat (do_ op).
Proof. constructor. constructor. Qed.
Lemma flat_passert b : flat (passert b).
Proof. destruct b; constructor. Qed.
Lemma flat_plift {A} (o : outcome A) : flat (plift o).
Proof. destruct o; constructor. Qed.
Lemma flat_pfind {A R} (l : list A) (f : A → prog (option R)) : (∀ x, flat (f x)) → flat (pfind l f).
Proof.
  intros Hf. induction l as [|x l IH]; simpl; [constructor|]. apply flat_bind; [done|].
  intros [r|]; [constructor|done].
Qed.

Create HintDb flat discriminated.
#[export] Hint Constructors flat : flat.
#[export] Hint Resolve flat_do flat_passert flat_plift flat_pfind : flat.

(** Programs made of methods, binds, conditionals and matches are flat. *)
Ltac flat_step :=
  match goal with
  | |- ∀ _, _ => intros
  | |- flat (_ ≫= _) => apply flat_bind
  | |- flat (if ?b then _ else _) => destruct b
  | |- flat (match ?x with _ => _ end) => destruct x
  | |- flat (let _ := _ in _) => cbv zeta
  | |- flat _ => solve [eauto with flat]
  end.
Ltac flatten := repeat flat_step.

Lemma flat_revert_transaction t sender tx base_fee i ctx :
  flat (revert_transaction t sender tx base_fee i ctx).
Proof.
  unfold revert_transaction, dipped_into_reserve, assert_context. flatten.
  apply flat_pfind. intros addr0. unfold dipped_entry, checked_account. flatten.
Qed.
#[export] Hint Resolve flat_revert_transaction : flat.
Lemma flat_transfer_event host from to v : flat (emit_native_transfer_event host from to v).
Proof. unfold emit_native_transfer_event. flatten. Qed.
#[export] Hint Resolve flat_transfer_event : flat.
Lemma flat_block_hash host n : flat (get_block_hash host n).
Proof. unfold get_block_hash, get_block_hash_history. flatten. Qed.
#[export] Hint Resolve flat_block_hash : flat.
Lemma flat_host_call host {X} (op : host_op X) : flat (host_call host op).
Proof.
  destruct op; cbn [host_call]; unfold host_account_exists, host_get_storage, host_set_storage,
    host_get_balance, host_get_code_size, host_get_code_hash, host_copy_code, host_selfdestruct,
    host_emit_log, host_access_account, host_access_storage, host_get_transient_storage,
    host_set_transient_storage, host_update_page; flatten.
Qed.
#[export] Hint Resolve flat_host_call : flat.

(** A stateful precompile has no frames of its own, and no negative cost. *)
Record contract_ok (C : MonadContract) : Prop := {
  co_construct : flat (construct C);
  co_method t input sender v input' :
    flat ((precompile_dispatch C t input).1.1 input' sender v);
  co_cost t input : 0 <= (precompile_dispatch C t input).1.2
}.
Lemma reserve_contract_ok : contract_ok ReserveBalanceContract.
Proof.
  split; simpl.
  - apply flat_do.
  - intros t input sender v input'. unfold reserve_dispatch. repeat case_match; simpl;
      unfold precompile_fallback, precompile_dipped_into_reserve, revert_transaction_cached; flatten.
  - intros t input. unfold reserve_dispatch. by repeat case_match.
Qed.
(** The staking contract is one. *)
Lemma contract_prog_flat c {A} (p : prog A) : contract_prog c p → flat p.
Proof.
  induction p as [a|X x k IH|o]; simpl; [constructor| |constructor]. destruct x; [|done..].
  intros [_ Hk]. constructor. intros y. by apply IH.
Qed.
Lemma staking_contract_ok hash schemes : contract_ok (StakingContract hash schemes).
Proof.
  split; simpl.
  - constructor.
  - intros t input sender v input'. unfold staking_dispatch, as_precompile. destruct (len input <? 4); simpl; [flatten|].
    destruct (select_method hash schemes t (be_val (take 4 input))) as [f cost] eqn:E. simpl.
    apply flat_bind; [|intros; constructor]. apply (contract_prog_flat STAKING_CA).
    pose proof (cp_select hash schemes t (be_val (take 4 input)) input' sender v) as Hc. by rewrite E in Hc.
  - intros t input. unfold staking_dispatch, select_method. destruct (len input <? 4); simpl; [lia|].
    repeat match goal with |- context [if ?b then _ else _] => destruct b end; vm_compute; congruence.
Qed.
Lemma flat_monad_precompile t C msg : contract_ok C → flat (check_call_monad_precompile t C msg).
Proof.
  intros [H1 H2 _]. unfold check_call_monad_precompile.
  pose proof (H2 t (input_data msg)) as Hm.
  destruct (precompile_dispatch C t (input_data msg)) as [[m c] i]. simpl in Hm. flatten; done.
Qed.
Lemma flat_precompile exe C t msg : contract_ok C → flat (check_call_precompile exe C t msg).
Proof.
  intros HC. unfold check_call_precompile, precompile_case.
  pose proof (flat_monad_precompile t C msg HC).
  pose proof (flat_monad_precompile t _ msg reserve_contract_ok). flatten; done.
Qed.

(** ** Enough fuel *)
Section messages.
Context {B : Type} `{BlockAccess B}.
Context (keccak256 : list Z → Z).
Context (precompile_execute : Z → list Z → evmc_status_code * list Z).
Context (StakingContract : MonadContract).
Context (vm_execute : evmc_message → Code → vm_tree).
Context (vm_execute_bytecode : evmc_message → list Z → vm_tree).
Context (host : HostContext).
Abbreviation W := (State * B)%type.
Abbreviation message := (execute_message keccak256 precompile_execute StakingContract vm_execute vm_execute_bytecode host).
Abbreviation create_message := (execute_create_message keccak256 vm_execute_bytecode host).
Abbreviation call_message_ := (execute_call_message precompile_execute StakingContract vm_execute host).
Abbreviation nested := (call_message keccak256 precompile_execute StakingContract vm_execute vm_execute_bytecode host).
Abbreviation top := (top_message keccak256 precompile_execute StakingContract vm_execute vm_execute_bytecode host).

(** Two programs with the same runs. *)
Definition same_runs {A} (p q : prog A) : Prop := ∀ w : W, exec keccak256 p w = exec keccak256 q w.
Lemma same_bind {A C} (p q : prog A) (k l : A → prog C) :
  same_runs p q → (∀ a, same_runs (k a) (l a)) → same_runs (p ≫= k) (q ≫= l).
Proof.
  intros Hp Hk w. rewrite !exec_bind. specialize (Hp w).
  destruct (exec keccak256 q w) as [[a w1]| |s] eqn:E.
  - rewrite (bind_Ok_eq _ _ _ _ _ Hp), (bind_Ok_eq _ _ _ _ _ E). apply Hk.
  - by rewrite !bind_Abort.
  - by rewrite !(bind_Throw _ _ _ s).
Qed.
Lemma same_refl {A} (p : prog A) : same_runs p p.
Proof. done. Qed.
Ltac same_step :=
  match goal with
  | |- ∀ _, _ => intros
  | |- same_runs (_ ≫= _) (_ ≫= _) => apply same_bind
  | |- same_runs ?p ?p => apply same_refl
  | |- same_runs (if ?b then _ else _) (if ?b then _ else _) => destruct b
  | |- same_runs (match ?x with _ => _ end) (match ?x with _ => _ end) => destruct x
  | Hr : ∀ v, same_runs (?r _ v) _ |- same_runs (?r _ _) _ => apply Hr
  end.

Lemma run_vm_same c1 c2 depth v :
  (depth < MAX_DEPTH → ∀ msg, same_runs (c1 (with_depth (depth + 1) msg)) (c2 (with_depth (depth + 1) msg))) →
  same_runs (run_vm host c1 depth v) (run_vm host c2 depth v).
Proof.
  intros Hc. induction v as [r|X op k IH|msg k IH|o]; cbn [run_vm]; [done| | |done].
  - apply same_bind; [done|]. intros x. apply IH.
  - destruct (depth >=? MAX_DEPTH) eqn:Hd; [apply IH|].
    apply same_bind; [apply Hc; lia|]. intros r. apply IH.
Qed.
Lemma message_same run1 run2 msg :
  (∀ v, same_runs (run1 (depth msg) v) (run2 (depth msg) v)) → same_runs (message run1 msg) (message run2 msg).
Proof.
  intros Hrun. unfold execute_message, execute_create_message, execute_call_message, create_in_frame.
  repeat same_step.
Qed.

Lemma nested_fuel b1 b2 n1 n2 msg :
  depth msg <= MAX_DEPTH → MAX_DEPTH - depth msg < Z.of_nat n1 → MAX_DEPTH - depth msg < Z.of_nat n2 →
  same_runs (nested b1 n1 msg) (nested b2 n2 msg).
Proof.
  revert n2 msg. induction n1 as [|n1 IH]; intros [|n2] msg Hd H1 H2; [lia..|].
  cbn [call_message]. apply same_bind; [|done]. apply message_same. intros v.
  apply run_vm_same. intros Hlt m. apply IH; cbn [with_depth Precompiles.depth]; lia.
Qed.

Lemma top_fuel b1 b2 n msg :
  depth msg = 0 → (Z.to_nat MAX_DEPTH <= n)%nat →
  same_runs (message (run_vm host (nested b1 n)) msg) (top b2 msg).
Proof.
  intros Hd Hn. apply message_same. intros v. apply run_vm_same. intros _ m.
  unfold MAX_DEPTH in *. apply nested_fuel; cbn [with_depth Precompiles.depth]; rewrite Hd; unfold MAX_DEPTH; lia.
Qed.

(** ** Balanced frames *)
Lemma balanced_trans (w1 w2 w3 : W) :
  balanced keccak256 w1 w2 → balanced keccak256 w2 w3 → balanced keccak256 w1 w3.
Proof. induction 1; eauto using balanced. Qed.

(** A program that opens at most [n] frames inside one another and closes
    them all. *)
Definition Bal {A} (n : Z) (p : prog A) : Prop := ∀ (w w' : W) r,
  frames_wf w.1 → version_ w.1 + n < 2 ^ 32 → exec keccak256 p w = Ok (r, w') → balanced keccak256 w w'.

Lemma Bal_bind {A C} n (p : prog A) (k : A → prog C) : Bal n p → (∀ a, Bal n (k a)) → Bal n (p ≫= k).
Proof.
  intros Hp Hk w w' r Hwf Hv E. apply exec_bind_Ok in E as (a & w1 & E1 & E2).
  pose proof (Hp _ _ _ Hwf Hv E1) as Hb. destruct (balanced_stays _ _ _ Hb Hwf) as (Hwf1 & Hv1 & _).
  eapply balanced_trans; [done|]. eapply Hk; [done| |done]. by rewrite Hv1.
Qed.
Lemma Bal_flat {A} n (p : prog A) : flat p → Bal n p.
Proof.
  induction 1 as [a|o|X op k _ IH]; intros w w' r Hwf Hv E.
  - apply exec_Ret in E as [_ ->]. constructor.
  - by apply exec_Stop in E.
  - rewrite exec_Act in E. apply bind_Ok in E as (x & w1 & E1 & E2). cbn [act] in E1.
    destruct (call_frame _ op _ _ _ Hwf (Forall_nil _) E1) as (Hwf1 & Hv1 & _).
    econstructor; [done|]. eapply IH; [done| |done]. by rewrite Hv1.
Qed.
Lemma Bal_weaken {A} n m (p : prog A) : n <= m → Bal n p → Bal m p.
Proof. intros Hnm Hp w w' r Hwf Hv. apply Hp; [done|lia]. Qed.

(** How a frame ends: accepted, or rejected with the touch of [ripemd]. *)
Definition frame_end (ok : bool) (w2 w' : W) : Prop :=
  if ok then pop_accept w2 = Ok ((), w')
  else ∃ w3, pop_reject w2 = Ok ((), w3) ∧ (w' = w3 ∨ touch ripemd_address w3 = Ok ((), w')).
Definition framed_run (ok : bool) (w w' : W) : Prop :=
  ∃ w1 w2, push w = Ok ((), w1) ∧ balanced keccak256 w1 w2 ∧ frame_end ok w2 w'.

Lemma framed_run_balanced ok w w' :
  version_ w.1 + 1 < 2 ^ 32 → framed_run ok w w' → balanced keccak256 w w'.
Proof.
  intros Hv (w1 & w2 & Hpush & Hb & Hend). destruct ok; simpl in Hend.
  - eapply balanced_accept; [done..|constructor].
  - destruct Hend as (w3 & Hpop & [->|Ht]); (eapply balanced_reject; [done..|]); [constructor|].
    eapply (balanced_op _ (m_touch ripemd_address)); [done|constructor].
Qed.
(** A rejected frame restores everything but the touch. *)
Lemma framed_run_rejected w w' :
  frames_wf w.1 → version_ w.1 + 1 < 2 ^ 32 → framed_run false w w' →
  ∃ w3, frame_part w3.1 = frame_part w.1 ∧ (w' = w3 ∨ touch ripemd_address w3 = Ok ((), w')).
Proof.
  intros Hwf Hv (w1 & w2 & Hpush & Hb & w3 & Hpop & Hend). exists w3. split; [|done].
  eapply rejected_frame; [done|done|done| |done].
  eapply balanced_stays; [done|]. by eapply push_wf.
Qed.

Lemma reject_frame_end (w2 w' : W) r :
  frames_wf w2.1 → exec keccak256 reject_frame w2 = Ok (r, w') →
  ∃ w2', balanced keccak256 w2 w2' ∧ frame_end false w2' w'.
Proof.
  intros Hwf E. unfold reject_frame in E. apply exec_bind_Ok in E as (b & w3 & E1 & E).
  exists w3. split.
  { apply (Bal_flat 0 _ (flat_do (m_is_touched ripemd_address)) w2 w3 b); [done| |done].
    destruct (fw_version _ Hwf). lia. }
  apply exec_bind_Ok in E as ([] & w4 & E2 & E). rewrite exec_frame in E2. exists w4. split; [done|].
  destruct b; pinv; [right|by left]. destruct r. done.
Qed.

Lemma push_ok (w w1 : W) r :
  frames_wf w.1 → version_ w.1 + 1 < 2 ^ 32 → push w = Ok (r, w1) →
  push w = Ok ((), w1) ∧ frames_wf w1.1 ∧ version_ w1.1 = version_ w.1 + 1.
Proof.
  intros Hwf Hv E. destruct r. split; [done|]. split; [by eapply push_wf|].
  rewrite push_eq in E by done. by injection E as <-.
Qed.
Lemma Bal_run {A} n (p : prog A) (w w' : W) r :
  Bal n p → frames_wf w.1 → version_ w.1 + n < 2 ^ 32 → exec keccak256 p w = Ok (r, w') →
  balanced keccak256 w w' ∧ frames_wf w'.1 ∧ version_ w'.1 = version_ w.1.
Proof.
  intros Hp Hwf Hv E. pose proof (Hp _ _ _ Hwf Hv E) as Hb. split; [done|].
  by destruct (balanced_stays _ _ _ Hb Hwf) as (? & ? & _).
Qed.
Lemma flat_run {A} (p : prog A) (w w' : W) r :
  exec keccak256 p w = Ok (r, w') → frames_wf w.1 → flat p →
  balanced keccak256 w w' ∧ frames_wf w'.1 ∧ version_ w'.1 = version_ w.1.
Proof.
  intros E Hwf Hp. apply (Bal_run 0 p w w' r); [by apply Bal_flat|done| |done].
  destruct (fw_version _ Hwf). lia.
Qed.

Lemma pre_call_inv msg (w w' : W) early :
  frames_wf w.1 → version_ w.1 + 1 < 2 ^ 32 → exec keccak256 (pre_call host msg) w = Ok (early, w') →
  ∃ w1, push w = Ok ((), w1) ∧ frames_wf w1.1 ∧ version_ w1.1 = version_ w.1 + 1 ∧
    match early with
    | Some r => r = make_result EVMC_INSUFFICIENT_BALANCE (gas msg) ∧
        ∃ w2, balanced keccak256 w1 w2 ∧ pop_reject w2 = Ok ((), w')
    | None => balanced keccak256 w1 w'
    end.
Proof.
  intros Hwf Hv E. unfold pre_call in E. apply exec_bind_Ok in E as (u & w1 & E1 & E).
  rewrite exec_frame in E1. destruct (push_ok _ _ _ Hwf Hv E1) as (Hpush & Hwf1 & Hv1).
  exists w1. split; [done|]. split; [done|]. split; [done|].
  apply exec_bind_Ok in E as (r & w2 & E2 & E).
  assert (Hmid : match r with
    | Some r => r = make_result EVMC_INSUFFICIENT_BALANCE (gas msg) ∧
        ∃ w3, balanced keccak256 w1 w3 ∧ pop_reject w3 = Ok ((), w2)
    | None => balanced keccak256 w1 w2 ∧ frames_wf w2.1 end).
  { clear E. destruct (negb (bool_decide (kind msg = EVMC_DELEGATECALL))).
    - apply exec_bind_Ok in E2 as (ok & w3 & E3 & E2).
      destruct (flat_run _ _ _ _ E3 Hwf1 (flat_do _)) as (Hb3 & Hwf3 & _).
      destruct ok; cbn [negb] in E2.
      + apply exec_bind_Ok in E2 as (? & w4 & E4 & E2). apply exec_Ret in E2 as [-> ->].
        assert (flat (if negb (has_flag msg EVMC_STATIC) then transfer_balances host msg (recipient msg) else Ret ()))
          as Hflat by (unfold transfer_balances; flatten).
        destruct (flat_run _ _ _ _ E4 Hwf3 Hflat) as (Hb4 & Hwf4 & _).
        split; [by eapply balanced_trans|done].
      + pinv. split; [done|]. exists w3. split; [done|].
        match goal with Hp : pop_reject w3 = Ok (?u, _) |- _ => by destruct u end.
    - pinv. split; [constructor|done]. }
  destruct r as [r|]; [pinv; done|]. destruct Hmid as [Hb2 Hwf2].
  assert (early = None ∧ balanced keccak256 w2 w') as [-> Hb].
  { apply exec_bind_Ok in E as (? & w3 & E3 & E). apply exec_bind_Ok in E as (? & w4 & E4 & E). apply exec_Ret in E as [-> ->].
    split; [done|].
    destruct (flat_run _ w2 w3 _ E3 Hwf2 ltac:(flatten)) as (Hb3 & Hwf3 & _).
    destruct (flat_run _ w3 w4 _ E4 Hwf3 ltac:(flatten)) as (Hb4 & _). by eapply balanced_trans. }
  by eapply balanced_trans.
Qed.

Lemma post_call_end result (w2 w' : W) u :
  frames_wf w2.1 → exec keccak256 (post_call result) w2 = Ok (u, w') →
  ∃ w3, balanced keccak256 w2 w3 ∧ frame_end (succeeded result) w3 w'.
Proof.
  intros Hwf E. unfold post_call in E. apply exec_bind_Ok in E as (? & ? & E1 & E).
  apply exec_passert in E1 as [_ ->]. apply exec_bind_Ok in E as (? & ? & E1 & E).
  apply exec_passert in E1 as [_ ->]. destruct (succeeded result).
  - rewrite exec_frame in E. exists w2. split; [constructor|]. by destruct u.
  - by eapply reject_frame_end.
Qed.

(** A call runs in one frame, accepted exactly when it succeeds. *)
Lemma call_framed run n msg (w w' : W) r :
  contract_ok StakingContract → (∀ v, Bal n (run (depth msg) v)) → 0 <= n →
  frames_wf w.1 → version_ w.1 + (n + 1) < 2 ^ 32 →
  exec keccak256 (call_message_ run msg) w = Ok (r, w') → framed_run (succeeded r) w w'.
Proof.
  intros HC Hrun Hn Hwf Hv E. unfold execute_call_message in E.
  apply exec_bind_Ok in E as (? & ? & E1 & E). apply exec_passert in E1 as [_ ->].
  apply exec_bind_Ok in E as (early & w2 & E1 & E).
  destruct (pre_call_inv _ _ _ _ Hwf ltac:(lia) E1) as (w1 & Hpush & Hwf1 & Hv1 & Hearly).
  destruct early as [r0|].
  { pinv. destruct Hearly as [-> (w3 & Hb & Hpop)]. exists w1, w3. split; [done|]. split; [done|].
    simpl. exists w2. auto. }
  destruct (balanced_stays _ _ _ Hearly Hwf1) as (Hwf2 & Hv2 & _).
  apply exec_bind_Ok in E as (pre & w3 & E3 & E).
  destruct (flat_run _ _ _ _ E3 Hwf2 (flat_precompile _ _ _ _ HC)) as (Hb3 & Hwf3 & Hv3).
  apply exec_bind_Ok in E as (res & w4 & E4 & E).
  assert (Bal n (match pre with
    | Some result => Ret result
    | None => hash ← do_ (m_get_code_hash (code_address msg));
              code ← do_ (m_read_code hash); run (depth msg) (vm_execute msg code) end)) as Hbody.
  { destruct pre; [apply Bal_flat; constructor|].
    do 2 (apply Bal_bind; [apply Bal_flat, flat_do|intros ?]). apply Hrun. }
  destruct (Bal_run _ _ _ _ _ Hbody Hwf3 ltac:(lia) E4) as (Hb4 & Hwf4 & Hv4).
  apply exec_bind_Ok in E as (viol & w5 & E5 & E).
  destruct (flat_run _ _ _ _ E5 Hwf4 ltac:(unfold check_reserve; flatten)) as (Hb5 & Hwf5 & Hv5).
  cbv zeta in E. apply exec_bind_Ok in E as (u & w6 & E6 & E). apply exec_Ret in E as [-> ->].
  destruct (post_call_end _ _ _ _ Hwf5 E6) as (w7 & Hb7 & Hend).
  exists w1, w7. split; [done|]. split; [|done]. eauto 6 using balanced_trans.
Qed.

(** The part of a creation that runs in a frame, likewise. *)
Lemma create_framed run n msg c (w w' : W) r :
  (∀ v, Bal n (run (depth msg) v)) → 0 <= n →
  frames_wf w.1 → version_ w.1 + (n + 1) < 2 ^ 32 →
  exec keccak256 (create_in_frame vm_execute_bytecode host run msg c) w = Ok (r, w') →
  framed_run (succeeded r) w w'.
Proof.
  intros Hrun Hn Hwf Hv E. unfold create_in_frame in E.
  apply exec_bind_Ok in E as (u & w1 & E1 & E). rewrite exec_frame in E1.
  destruct (push_ok _ _ _ Hwf ltac:(lia) E1) as (Hpush & Hwf1 & Hv1).
  apply exec_bind_Ok in E as (? & w2 & E2 & E).
  destruct (flat_run _ _ _ _ E2 Hwf1 (flat_do _)) as (Hb2 & Hwf2 & Hv2).
  apply exec_bind_Ok in E as (? & w3 & E3 & E).
  destruct (flat_run _ _ _ _ E3 Hwf2 (flat_do _)) as (Hb3 & Hwf3 & Hv3).
  apply exec_bind_Ok in E as (? & w4 & E4 & E).
  destruct (flat_run _ _ _ _ E4 Hwf3 ltac:(unfold transfer_balances; flatten)) as (Hb4 & Hwf4 & Hv4).
  cbv zeta in E. apply exec_bind_Ok in E as (res & w5 & E5 & E).
  destruct (Bal_run _ _ _ _ _ (Hrun _) Hwf4 ltac:(lia) E5) as (Hb5 & Hwf5 & Hv5).
  apply exec_bind_Ok in E as (res2 & w6 & E6 & E).
  destruct (flat_run _ _ _ _ E6 Hwf5 ltac:(unfold deploy_contract_code; flatten)) as (Hb6 & Hwf6 & Hv6).
  apply exec_bind_Ok in E as (viol & w7 & E7 & E).
  destruct (flat_run _ _ _ _ E7 Hwf6 ltac:(unfold check_reserve; flatten)) as (Hb7 & Hwf7 & Hv7).
  assert (Hb : balanced keccak256 w1 w7) by eauto 8 using balanced_trans.
  set (res3 := if viol : bool then _ else _) in E. exists w1.
  destruct (succeeded res3) eqn:Hok.
  - apply exec_bind_Ok in E as (u8 & w8 & E8 & E). apply exec_Ret in E as [-> ->]. rewrite exec_frame in E8.
    rewrite Hok. exists w7. split; [done|]. split; [done|]. by destruct u8.
  - apply exec_bind_Ok in E as (u8 & w8 & E8 & E). apply exec_Ret in E as [-> ->].
    destruct (reject_frame_end _ _ _ Hwf7 E8) as (w9 & Hb9 & Hend).
    exists w9. split; [done|]. split; [by eapply balanced_trans|].
    replace (succeeded _) with false; [done|]. symmetry. rewrite <- Hok. by repeat case_match.
Qed.

Lemma Bal_message run n msg :
  contract_ok StakingContract → (∀ v, Bal n (run (depth msg) v)) → 0 <= n → Bal (n + 1) (message run msg).
Proof.
  intros HC Hrun Hn. unfold execute_message. destruct (_ || _).
  - unfold execute_create_message.
    repeat match goal with
    | |- Bal _ (create_in_frame _ _ _ _ _) =>
        intros w w' r Hwf Hv E; eapply framed_run_balanced; [lia|by eapply create_framed]
    | |- Bal _ (_ ≫= _) => apply Bal_bind; [apply Bal_flat; unfold sender_has_balance; flatten|intros ?]
    | |- Bal _ (if ?b then _ else _) => destruct b
    | |- Bal _ (Ret _) => apply Bal_flat; constructor
    | |- Bal _ (let _ := _ in _) => cbv zeta
    end.
  - intros w w' r Hwf Hv E. eapply framed_run_balanced; [lia|by eapply call_framed].
Qed.
Lemma Bal_run_vm n c depth v : (∀ msg, Bal n (c msg)) → Bal n (run_vm host c depth v).
Proof.
  intros Hc. induction v as [r|X op k IH|msg k IH|o]; cbn [run_vm].
  - apply Bal_flat. constructor.
  - apply Bal_bind; [apply Bal_flat; flatten|apply IH].
  - case_match; [apply IH|]. apply Bal_bind; [apply Hc|]. intros r. apply IH.
  - apply Bal_flat. constructor.
Qed.
Lemma Bal_nested n msg : contract_ok StakingContract → Bal (Z.of_nat n) (nested (Stop Abort) n msg).
Proof.
  intros HC. revert msg. induction n as [|n IH]; intros msg; cbn [call_message].
  - apply Bal_flat. constructor.
  - rewrite Nat2Z.inj_succ. apply Bal_bind; [|intros r; apply Bal_flat; constructor].
    apply Bal_message; [done| |lia]. intros v. by apply Bal_run_vm.
Qed.

(** ** What a failed creation keeps *)
(** Only the accounts of [l] may have been written. *)
Definition others_same (l : list Z) (w w' : W) : Prop :=
  logs_ w'.1 = logs_ w.1 ∧ ∀ a, a ∉ l → current_ w'.1 !! a = current_ w.1 !! a.
Lemma others_trans l w1 w2 w3 : others_same l w1 w2 → others_same l w2 w3 → others_same l w1 w3.
Proof. intros [H1 H2] [H3 H4]. split; [congruence|]. intros a Ha. rewrite H4, H2 by done. done. Qed.
Lemma others_frame_part l (w w' : W) : frame_part w'.1 = frame_part w.1 → others_same l w w'.
Proof. unfold frame_part. intros Hf. injection Hf as Hc Hl _ _. split; [done|]. intros a _. by rewrite Hc. Qed.
Lemma others_current l a (w w' : W) x :
  a ∈ l → current_account_state a w = Ok (x, w') → others_same l w w'.
Proof.
  intros Ha E. destruct (current_account_state_inv _ _ _ _ E) as (st0 & st & s1 & Hf & _ & _ & _ & Hw).
  unfold frame_part in Hf. injection Hf as Hc Hl _ _. unfold others_same. rewrite Hw. simpl.
  split; [done|]. intros b Hb. rewrite lookup_insert_ne by congruence. by rewrite Hc.
Qed.
Lemma others_write_current l a f (w w' : W) r :
  a ∈ l → write_current a f w = Ok (r, w') → others_same l w w'.
Proof.
  intros Ha E. unfold write_current in E. sinv. split; [done|]. intros b Hb. simpl.
  rewrite lookup_alter_ne by congruence. done.
Qed.
Lemma others_set_nonce l a n (w w' : W) r :
  a ∈ l → set_nonce a n w = Ok (r, w') → others_same l w w'.
Proof.
  intros Ha E. unfold set_nonce, current_account in E. rewrite run_bind_bind in E.
  apply bind_Ok in E as (x & w1 & E1 & E). sinv.
  eapply others_trans; [by eapply others_current|]. by eapply others_write_current.
Qed.
Lemma others_access_account l a (w w' : W) r :
  a ∈ l → access_account a w = Ok (r, w') → others_same l w w'.
Proof.
  intros Ha E. unfold access_account in E. apply bind_Ok in E as (x & w1 & E1 & E). cbv zeta in E. sinv.
  eapply others_trans; [by eapply others_current|]. by eapply others_write_current.
Qed.
Lemma others_neutral {A} l (m : M W A) (w w' : W) r : frame_neutral m → m w = Ok (r, w') → others_same l w w'.
Proof. intros Hm E. apply others_frame_part. by eapply Hm. Qed.

(** The state of an account the transaction has loaded. *)
Definition loaded (s : State) (a : Z) : option AccountState :=
  match current_ s !! a with
  | Some stack => match vs_recent stack with Ok x => Some x | _ => None end
  | None => os_state <$> original_ s !! a
  end.
(** Every loaded account [a] has been changed by [g a], and stays loaded. *)
Definition loaded_by (g : Z → AccountState → AccountState) (w w' : W) : Prop :=
  ∀ a x, loaded w.1 a = Some x → loaded w'.1 a = Some (g a x).
Definition Loads {A} (m : M W A) : Prop := ∀ w r w', m w = Ok (r, w') → loaded_by (λ _ x, x) w w'.
Lemma loaded_by_trans g1 g2 w1 w2 w3 :
  loaded_by g1 w1 w2 → loaded_by g2 w2 w3 → loaded_by (λ a x, g2 a (g1 a x)) w1 w3.
Proof. intros H1 H2 a x Hx. by apply H2, H1. Qed.
Lemma loaded_by_after g w1 w2 w3 : loaded_by (λ _ x, x) w1 w2 → loaded_by g w2 w3 → loaded_by g w1 w3.
Proof. intros H1 H2 a x Hx. by apply H2, H1. Qed.
Lemma Loads_bind {A C} (m : M W A) (k : A → M W C) : Loads m → (∀ x, Loads (k x)) → Loads (m ≫= k).
Proof.
  intros Hm Hk w r w' E. apply bind_Ok in E as (x & w1 & E1 & E).
  exact (loaded_by_after _ _ _ _ (Hm _ _ _ E1) (Hk _ _ _ _ E)).
Qed.
Lemma loaded_by_refl w : loaded_by (λ _ x, x) w w.
Proof. by intros a x. Qed.
Lemma Loads_ret {A} (x : A) : Loads (mret x).
Proof. intros w r w' E. sinv. apply loaded_by_refl. Qed.
Lemma Loads_sgets {A} (f : State → A) : Loads (sgets f).
Proof. intros w r w' E. sinv. apply loaded_by_refl. Qed.
Lemma Loads_lift_outcome {A} (o : outcome A) : Loads (lift_outcome o).
Proof. intros w r w' E. sinv. apply loaded_by_refl. Qed.
Lemma original_loads a (w w' : W) os : original_account_state a w = Ok (os, w') →
  loaded_by (λ _ x, x) w w' ∧ original_ w'.1 !! a = Some os ∧ current_ w'.1 = current_ w.1 ∧
  incarnation_ w'.1 = incarnation_ w.1.
Proof.
  intros E. unfold original_account_state in E. apply bind_Ok in E as (o & w1 & E1 & E).
  apply sgets_Ok in E1 as [-> ->]. destruct (original_ w.1 !! a) as [os0|] eqn:Eo.
  { sinv. split; [apply loaded_by_refl|done]. }
  apply bind_Ok in E as (acc & w2 & E2 & E). assert (w2.1 = w.1) as Hw2.
  { unfold lift_block in E2. repeat case_match; simplify_eq; done. }
  sinv. simpl. rewrite lookup_insert_eq, Hw2. split; [|done]. intros b x. unfold loaded. simpl.
  case_match; [done|]. destruct (decide (b = a)) as [->|]; [by rewrite Eo|]. by rewrite lookup_insert_ne.
Qed.
Lemma write_original_loads a f (w w' : W) r :
  (∀ os, original_ w.1 !! a = Some os → os_state (f os) = os_state os) →
  write_original a f w = Ok (r, w') → loaded_by (λ _ x, x) w w'.
Proof.
  intros Hf E. unfold write_original in E. sinv. intros b x. unfold loaded. simpl. case_match; [done|].
  destruct (decide (b = a)) as [->|]; [rewrite lookup_alter_eq|by rewrite lookup_alter_ne].
  destruct (original_ w.1 !! a) as [os|]; [|done]. simpl. by rewrite Hf.
Qed.
Lemma Loads_original a : Loads (original_account_state a).
Proof. intros w r w' E. by eapply original_loads. Qed.
Lemma Loads_recent a : Loads (recent_account a).
Proof.
  unfold recent_account, recent_account_state.
  repeat first [apply Loads_original | apply Loads_bind; [|intros ?] | apply Loads_sgets | apply Loads_ret | apply Loads_lift_outcome | case_match].
Qed.
Lemma Loads_get_nonce a : Loads (get_nonce a).
Proof. apply Loads_bind; [apply Loads_recent|]. intros. apply Loads_ret. Qed.
Lemma Loads_record_balance a v : Loads (record_balance_constraint_for_debit a v).
Proof.
  apply Loads_bind; [apply Loads_recent|]. intros acc. cbv zeta.
  intros w r w' E. apply bind_Ok in E as (os & w1 & E1 & E).
  destruct (original_loads _ _ _ _ E1) as (H1 & Hos & _ & _). refine (loaded_by_after _ _ _ _ H1 _). clear H1 E1.
  repeat case_match; sinv; try apply loaded_by_refl; (eapply write_original_loads; [|done]); intros os'; [|done].
  rewrite Hos. intros [= <-]. unfold set_min_balance in *. repeat case_match; by simplify_eq.
Qed.

(** Loading an account for writing keeps all values and returns its own. *)
Lemma current_loads a (w w' : W) x : current_account_state a w = Ok (x, w') →
  loaded_by (λ _ x, x) w w' ∧ incarnation_ w'.1 = incarnation_ w.1 ∧
  ∃ stack, current_ w'.1 !! a = Some stack ∧ vs_recent stack = Ok x.
Proof.
  unfold current_account_state. intros E. apply bind_Ok in E as (o & w0 & E0 & E).
  apply sgets_Ok in E0 as [-> ->]. apply bind_Ok in E as ([] & w1 & E1 & E).
  assert (loaded_by (λ _ x, x) w w1 ∧ incarnation_ w1.1 = incarnation_ w.1) as [H1 Hinc].
  { destruct (current_ w.1 !! a) as [stack|] eqn:Ec; [sinv; split; [apply loaded_by_refl|done]|].
    apply bind_Ok in E1 as (os & w2 & E2 & E1). destruct (original_loads _ _ _ _ E2) as (H2 & Hos & Hcur & Hi).
    sinv. split; [|done]. refine (loaded_by_after _ _ _ _ H2 _). intros b y. unfold loaded. simpl.
    destruct (decide (b = a)) as [->|]; [|by rewrite lookup_insert_ne].
    by rewrite lookup_insert_eq, Hcur, Ec, Hos. }
  sinv. simpl in *. split_and!; [|done|rewrite lookup_insert_eq; eauto].
  refine (loaded_by_after _ _ _ _ H1 _). intros b y. unfold loaded. simpl.
  destruct (decide (b = a)) as [->|]; [|by rewrite lookup_insert_ne].
  rewrite lookup_insert_eq. match goal with H : vs_current _ _ = Ok _ |- _ => rewrite (vs_recent_current _ _ _ H) end.
  match goal with H : Some _ = current_ w1.1 !! a |- _ => by rewrite <- H end.
Qed.
Lemma write_current_loads a f g (w w' : W) r stack x :
  current_ w.1 !! a = Some stack → vs_recent stack = Ok x → f x = g x →
  write_current a f w = Ok (r, w') → loaded_by (λ b y, if decide (b = a) then g y else y) w w'.
Proof.
  intros Hs Hx Hg E. unfold write_current in E. sinv. intros b y. unfold loaded. simpl.
  destruct (decide (b = a)) as [->|]; [rewrite lookup_alter_eq|by rewrite lookup_alter_ne].
  rewrite Hs. destruct stack as [|[v z] rest]; [done|]. simpl. simpl in Hx. congruence.
Qed.

(** What [set_nonce] and [access_account] do to an account that is loaded. *)
Definition nonce_set (inc : Incarnation) (n : Z) (x : AccountState) : AccountState :=
  as_set_account (Some (with_nonce n (default (new_account inc) (account_ x)))) x.
Lemma set_nonce_loads a n (w w' : W) r : set_nonce a n w = Ok (r, w') →
  loaded_by (λ b y, if decide (b = a) then nonce_set (incarnation_ w'.1) n y else y) w w'.
Proof.
  intros E. unfold set_nonce, current_account in E. rewrite run_bind_bind in E.
  apply bind_Ok in E as (x & w1 & E1 & E). destruct (current_loads _ _ _ _ E1) as (H1 & Hinc & stack & Hs & Hx).
  sinv. refine (loaded_by_after _ _ _ _ H1 _). unfold write_account in *.
  match goal with Hw : write_current _ _ _ = _ |- _ => pose proof Hw as Hi; eapply (write_current_loads _ _ _ _ _ _ _ _ Hs Hx); [|exact Hw] end.
  unfold write_current in Hi. sinv. done.
Qed.
Lemma access_loads a (w w' : W) r : access_account a w = Ok (r, w') →
  loaded_by (λ b y, if decide (b = a) then (access_ y).2 else y) w w' ∧ incarnation_ w'.1 = incarnation_ w.1.
Proof.
  intros E. unfold access_account in E. apply bind_Ok in E as (x & w1 & E1 & E).
  destruct (current_loads _ _ _ _ E1) as (H1 & Hinc & stack & Hs & Hx). cbv zeta in E. sinv. split;
    [|match goal with Hw : write_current _ _ _ = _ |- _ => unfold write_current in Hw; sinv; done end].
  refine (loaded_by_after _ _ _ _ H1 _).
  match goal with Hw : write_current _ _ _ = _ |- _ =>
    by apply (write_current_loads _ (λ _, (access_ x).2) (λ y, (access_ y).2) _ _ _ _ _ Hs Hx eq_refl Hw) end.
Qed.

(** The steps of a creation that no frame undoes: the nonce of the sender
    and the access to the new address, which is the result if it is reached. *)
Definition new_contract_address (msg : evmc_message) (nonce : Z) : Z :=
  if bool_decide (kind msg = EVMC_CREATE) then create_contract_address keccak256 (msg_sender msg) nonce
  else create2_contract_address keccak256 (msg_sender msg) (create2_salt msg) (keccak256 (input_data msg)).
Definition increment_nonce (msg : evmc_message) (nonce : Z) : prog () :=
  do_ (m_set_nonce (msg_sender msg) (u64 (nonce + 1))).
Definition creation_leaves (msg : evmc_message) : prog (option Z) :=
  ok ← sender_has_balance msg;
  if (ok : bool) then
    nonce ← do_ (m_get_nonce (msg_sender msg));
    if nonce =? U64_MAX then Ret None else
    increment_nonce msg nonce;;
    _ ← do_ (m_access_account (new_contract_address msg nonce));
    Ret (Some (new_contract_address msg nonce))
  else if monad_rev_from (host_traits host) MONAD_FIVE && (depth msg =? 0) then
    nonce ← do_ (m_get_nonce (msg_sender msg));
    passert (negb (nonce =? U64_MAX));;
    increment_nonce msg nonce;; Ret None
  else Ret None.

(** What these steps do to a state: the logs and all accounts but the sender
    and the new address are the same, and a loaded account is the same but
    for the nonce of the sender and the access flag of the new address. *)
Definition creation_effect (inc : Incarnation) (sender : Z) (nonce created : option Z) (a : Z)
    (x : AccountState) : AccountState :=
  let y := if decide (a = sender) then from_option (λ n, nonce_set inc (u64 (n + 1)) x) x nonce else x in
  if decide (created = Some a) then (access_ y).2 else y.
Lemma creation_effect_balance inc sender nonce created a x :
  balance_of (account_ (creation_effect inc sender nonce created a x)) = balance_of (account_ x).
Proof.
  unfold creation_effect, nonce_set. destruct nonce as [n|]; cbn; repeat case_decide; try done;
    cbn; by destruct (account_ x).
Qed.
Record creation_kept (sender : Z) (created : option Z) (w w' : W) : Prop := {
  ck_others : others_same (sender :: option_list created) w w';
  ck_loaded : ∃ nonce, loaded_by (creation_effect (incarnation_ w'.1) sender nonce created) w w' ∧
    (∀ n x, nonce = Some n → loaded w.1 sender = Some x → n = as_get_nonce x)
}.
Lemma get_nonce_loaded a (w w' : W) n x :
  get_nonce a w = Ok (n, w') → loaded w.1 a = Some x → n = as_get_nonce x.
Proof.
  unfold get_nonce, recent_account, recent_account_state, loaded. intros E Hx. sinv.
  destruct (current_ w.1 !! a) as [stack|] eqn:Ec; sinv.
  - match goal with Hr : vs_recent _ = Ok _ |- _ => rewrite Hr in Hx end. by simplify_eq.
  - destruct (original_ w.1 !! a) as [os|] eqn:Eo; [|done]. unfold original_account_state in *. sinv.
    rewrite Eo in *. sinv. by simplify_eq/=.
Qed.
Lemma kept_start s (w w' : W) : frame_part w'.1 = frame_part w.1 → loaded_by (λ _ x, x) w w' →
  creation_kept s None w w'.
Proof.
  intros Hf Hl. split; [by apply others_frame_part|]. exists None. split; [|done].
  intros a x Hx. unfold creation_effect. rewrite (Hl _ _ Hx). repeat case_decide; done.
Qed.
Lemma kept_nonce s n (w w1 w2 w3 : W) u :
  frame_part w1.1 = frame_part w.1 → loaded_by (λ _ x, x) w w1 → get_nonce s w1 = Ok (n, w2) →
  set_nonce s (u64 (n + 1)) w2 = Ok (u, w3) → creation_kept s None w w3.
Proof.
  intros Hf Hl Hg Hs. split.
  - apply (others_trans _ w w1); [by apply others_frame_part|]. apply (others_trans _ w1 w2).
    + eapply others_neutral; [|exact Hg]. unfold get_nonce. neutral.
    + by eapply others_set_nonce; [left|].
  - exists (Some n). split.
    + intros a x Hx. unfold creation_effect. rewrite (decide_False (P:=None = Some a)) by done.
      apply (set_nonce_loads _ _ _ _ _ Hs), (Loads_get_nonce _ _ _ _ Hg), Hl, Hx.
    + intros ? x [= <-] Hx. by eapply get_nonce_loaded, Hl.
Qed.
Lemma kept_access s c (w w1 w2 : W) st :
  creation_kept s None w w1 → access_account c w1 = Ok (st, w2) → creation_kept s (Some c) w w2.
Proof.
  intros [Ho (nonce & Hl & Hn)] Ha. destruct (access_loads _ _ _ _ Ha) as [Hal Hinc]. split.
  - eapply others_trans; [|eapply others_access_account; [right; left|exact Ha]].
    destruct Ho as [Hlogs Ho]. split; [done|]. intros a Hin. apply Ho. set_solver.
  - exists nonce. split; [|done]. intros a x Hx. rewrite Hinc. apply Hl, Hal in Hx. rewrite Hx. f_equal.
    unfold creation_effect at 2. rewrite (decide_ext (a = c) (Some c = Some a)) by naive_solver.
    by case_decide.
Qed.
Lemma creation_leaves_kept msg (w w' : W) created :
  exec keccak256 (creation_leaves msg) w = Ok (created, w') → creation_kept (msg_sender msg) created w w'.
Proof.
  intros E. unfold creation_leaves in E. apply exec_bind_Ok in E as (ok & w1 & E1 & E).
  unfold sender_has_balance in E1. rewrite exec_do in E1. cbn [call] in E1.
  pose proof (neutral_record_balance _ _ _ _ _ E1) as Hf. pose proof (Loads_record_balance _ _ _ _ _ E1) as Hl.
  destruct ok; [|destruct (_ && _)].
  - apply exec_bind_Ok in E as (nonce & w2 & E2 & E). rewrite exec_do in E2. cbn [call] in E2.
    assert (frame_neutral (B:=B) (get_nonce (msg_sender msg))) as Hne by (unfold get_nonce; neutral).
    destruct (nonce =? U64_MAX).
    { apply exec_Ret in E as [-> ->]. apply kept_start; [by rewrite (Hne _ _ _ E2)|].
      exact (loaded_by_after _ _ _ _ Hl (Loads_get_nonce _ _ _ _ E2)). }
    apply exec_bind_Ok in E as (? & w3 & E3 & E). unfold increment_nonce in E3. rewrite exec_do in E3. cbn [call] in E3.
    apply exec_bind_Ok in E as (? & w4 & E4 & E). rewrite exec_do in E4. cbn [call] in E4.
    apply exec_Ret in E as [-> ->]. eapply kept_access; [|done]. by eapply kept_nonce.
  - apply exec_bind_Ok in E as (nonce & w2 & E2 & E). rewrite exec_do in E2. cbn [call] in E2.
    apply exec_bind_Ok in E as (? & w3 & E3 & E). apply exec_passert in E3 as [_ ->].
    apply exec_bind_Ok in E as (? & w4 & E4 & E). unfold increment_nonce in E4. rewrite exec_do in E4. cbn [call] in E4.
    apply exec_Ret in E as [-> ->]. by eapply kept_nonce.
  - apply exec_Ret in E as [-> ->]. by apply kept_start.
Qed.

(** A failed creation leaves what these steps leave. *)
Lemma create_failed run n msg (w w' : W) r :
  (∀ v, Bal n (run (depth msg) v)) → 0 <= n → frames_wf w.1 → version_ w.1 + (n + 1) < 2 ^ 32 →
  exec keccak256 (create_message run msg) w = Ok (r, w') → succeeded r = false →
  ∃ created wk w3, exec keccak256 (creation_leaves msg) w = Ok (created, wk) ∧
    frame_part w3.1 = frame_part wk.1 ∧ (w' = w3 ∨ touch ripemd_address w3 = Ok ((), w')).
Proof.
  intros Hrun Hn Hwf Hv E Hfail. unfold execute_create_message in E.
  apply exec_bind_Ok in E as (? & ? & E0 & E). apply exec_passert in E0 as [_ ->].
  apply exec_bind_Ok in E as (ok & w1 & E1 & E).
  destruct (flat_run _ _ _ _ E1 Hwf (flat_do _)) as (_ & Hwf1 & Hv1).
  destruct ok; cbn [negb] in E.
  - apply exec_bind_Ok in E as (nonce & w2 & E2 & E).
    destruct (flat_run _ _ _ _ E2 Hwf1 (flat_do _)) as (_ & Hwf2 & Hv2).
    destruct (nonce =? U64_MAX) eqn:En.
    { apply exec_Ret in E as [_ ->]. exists None, w2, w2. split_and!; [|done|by left]. unfold creation_leaves.
      rewrite (exec_bind_run _ _ _ _ _ _ E1). cbv iota. rewrite (exec_bind_run _ _ _ _ _ _ E2), En. done. }
    apply exec_bind_Ok in E as (? & w3 & E3 & E).
    destruct (flat_run _ _ _ _ E3 Hwf2 (flat_do _)) as (_ & Hwf3 & Hv3). cbv zeta in E.
    apply exec_bind_Ok in E as (? & w4 & E4 & E).
    destruct (flat_run _ _ _ _ E4 Hwf3 (flat_do _)) as (_ & Hwf4 & Hv4).
    exists (Some (new_contract_address msg nonce)), w4.
    assert (exec keccak256 (creation_leaves msg) w = Ok (Some (new_contract_address msg nonce), w4)) as Hl.
    { unfold creation_leaves. rewrite (exec_bind_run _ _ _ _ _ _ E1). cbv iota.
      rewrite (exec_bind_run _ _ _ _ _ _ E2), En. unfold increment_nonce.
      rewrite (exec_bind_run _ _ _ _ _ _ E3). by rewrite (exec_bind_run _ _ _ _ _ _ E4). }
    apply exec_bind_Ok in E as (taken & w5 & E5 & E).
    destruct (flat_run _ _ _ _ E5 Hwf4 (flat_do _)) as (_ & Hwf5 & Hv5).
    rewrite exec_do in E5. cbn [call] in E5.
    assert (H5 : frame_part w5.1 = frame_part w4.1).
    { assert (frame_neutral (B:=B) (account_has_code_or_nonce (new_contract_address msg nonce))) as Hne
        by (unfold account_has_code_or_nonce; neutral). by eapply Hne. }
    destruct taken; [pinv; exists w5; split_and!; [done|done|by left]|].
    pose proof (create_framed _ _ _ _ _ _ _ Hrun Hn Hwf5 ltac:(lia) E) as Hf. rewrite Hfail in Hf.
    destruct (framed_run_rejected _ _ Hwf5 ltac:(lia) Hf) as (w6 & Hw6 & Hend).
    exists w6. split_and!; [done|congruence|done].
  - apply exec_bind_Ok in E as (? & w2 & E2 & E). apply exec_Ret in E as [_ ->].
    exists None, w2, w2. split_and!; [|done|by left]. unfold creation_leaves.
    rewrite (exec_bind_run _ _ _ _ _ _ E1). cbv iota. destruct (_ && _); [|by apply exec_Ret in E2 as [_ ->]].
    apply exec_bind_Ok in E2 as (nonce & w3 & E3 & E2). rewrite (exec_bind_run _ _ _ _ _ _ E3).
    apply exec_bind_Ok in E2 as ([] & w4 & E4 & E2). rewrite (exec_bind_run _ _ _ _ _ _ E4).
    unfold increment_nonce. destruct x. by rewrite (exec_bind_run _ _ _ _ _ _ E2).
Qed.

(** C8: messages are atomic.  Whatever the virtual machine does, a message
    at any depth leaves the frame structure as it found it, and when it does
    not succeed, it leaves no trace: a call restores the accounts, logs and
    dirty sets of before.  A failed creation leaves exactly what the steps
    before its frame leave: the logs and all accounts but the sender and the
    new address are as before, and of those two, when they were loaded, only
    the nonce of the sender (plus one) and the access flag of the address
    computed from the sender and that nonce (or the salt) have changed, no
    balance, code or storage.  The one exception is the touch of the
    RIPEMD-160 precompile. *)
Theorem message_atomic bottom n msg (w w' : W) r :
  contract_ok StakingContract → 0 <= depth msg <= MAX_DEPTH → MAX_DEPTH - depth msg <= Z.of_nat n →
  frames_wf w.1 → version_ w.1 + (MAX_DEPTH - depth msg + 1) < 2 ^ 32 →
  exec keccak256 (message (run_vm host (nested bottom n)) msg) w = Ok (r, w') →
  stays w.1 w'.1 ∧
  (succeeded r = false → ∃ w3, (w' = w3 ∨ touch ripemd_address w3 = Ok ((), w')) ∧
     if bool_decide (kind msg = EVMC_CREATE) || bool_decide (kind msg = EVMC_CREATE2)
     then ∃ created wk, exec keccak256 (creation_leaves msg) w = Ok (created, wk) ∧
       frame_part w3.1 = frame_part wk.1 ∧ creation_kept (msg_sender msg) created w wk
     else frame_part w3.1 = frame_part w.1).
Proof.
  intros HC Hd Hn Hwf Hv E. set (m := Z.to_nat (MAX_DEPTH - depth msg)).
  assert (Hs : same_runs (message (run_vm host (nested bottom n)) msg)
                         (message (run_vm host (nested (Stop Abort) m)) msg)).
  { apply message_same. intros v. apply run_vm_same. intros Hlt msg'.
    apply nested_fuel; cbn [with_depth Precompiles.depth]; lia. }
  rewrite Hs in E. clear Hs.
  assert (Hrun : ∀ v, Bal (MAX_DEPTH - depth msg) (run_vm host (nested (Stop Abort) m) (depth msg) v)).
  { intros v. apply Bal_run_vm. intros msg'. pose proof (Bal_nested m msg' HC) as Hb. subst m.
    by rewrite Z2Nat.id in Hb by lia. }
  split.
  - apply (balanced_stays keccak256); [|done]. eapply (Bal_message _ _ msg HC Hrun); [lia|done| |done]. lia.
  - intros Hfail. unfold execute_message in E. destruct (_ || _).
    + destruct (create_failed _ _ _ _ _ _ Hrun ltac:(lia) Hwf Hv E Hfail) as (c & wk & w3 & Hk & H3 & Hend).
      exists w3. split; [done|]. exists c, wk. split_and!; [done|done|by apply creation_leaves_kept].
    + pose proof (call_framed _ _ _ _ _ _ HC Hrun ltac:(lia) Hwf Hv E) as Hf. rewrite Hfail in Hf.
      destruct (framed_run_rejected _ _ Hwf ltac:(lia) Hf) as (w3 & Hw3 & Hend). eauto.
Qed.

(** C28: 1024 levels of fuel are enough.  The message of a transaction, at
    depth 0, runs the same for every fuel from 1024 on and whatever would
    answer when it is used up: the virtual machine refuses deeper calls, so
    that execution always ends by itself. *)
Theorem message_terminates bottom1 bottom2 n msg (w : W) :
  depth msg = 0 → (Z.to_nat MAX_DEPTH <= n)%nat →
  exec keccak256 (message (run_vm host (nested bottom1 n)) msg) w = exec keccak256 (top bottom2 msg) w.
Proof. intros. by apply top_fuel. Qed.

(** ** Gas *)
(** What every message returns: no more gas than it was given, and no refund
    unless it succeeds. *)
Definition message_result_ok (g : Z) (r : Result) : Prop :=
  0 <= gas_left r <= g ∧ (succeeded r = false → gas_refund r = 0).
(** What the virtual machine returns (Context::copy_to_evmc_result): moreover
    a failure other than a revert has used up its gas. *)
Definition vm_result_ok (g : Z) (r : Result) : Prop :=
  message_result_ok g r ∧ (keeps_gas (status_code r) = false → gas_left r = 0).

(** The virtual machine accounts for gas: started with gas [g], if every
    nested message returns what messages return, it returns at most [g]. *)
Inductive vm_ok (g : Z) : vm_tree → Prop :=
| vm_ok_ret r : vm_result_ok g r → vm_ok g (VmRet r)
| vm_ok_host {X} (op : host_op X) k : (∀ x, vm_ok g (k x)) → vm_ok g (VmHost op k)
| vm_ok_call msg k : 0 <= gas msg → vm_ok g (k None) →
    (∀ r, message_result_ok (gas msg) r → vm_ok g (k (Some r))) → vm_ok g (VmCall msg k)
| vm_ok_stop o : vm_ok g (VmStop o).

(** Every result of [p] satisfies [P]. *)
Definition Res {A} (P : A → Prop) (p : prog A) : Prop :=
  ∀ (w w' : W) r, exec keccak256 p w = Ok (r, w') → P r.
Lemma Res_bind {A C} (Q : A → Prop) (P : C → Prop) p (k : A → prog C) :
  Res Q p → (∀ a, Q a → Res P (k a)) → Res P (p ≫= k).
Proof. intros Hp Hk w w' r E. apply exec_bind_Ok in E as (a & w1 & E1 & E2). by eapply Hk; [eapply Hp|]. Qed.
Lemma Res_any {A C} (P : C → Prop) (p : prog A) (k : A → prog C) : (∀ a, Res P (k a)) → Res P (p ≫= k).
Proof. intros Hk. apply (Res_bind (λ _, True)); [by intros ??|]. intros a _. apply Hk. Qed.
Lemma Res_Ret {A} (P : A → Prop) a : P a → Res P (Ret a).
Proof. intros Ha w w' r E. apply exec_Ret in E as [-> _]. done. Qed.
Lemma Res_weaken {A} (P Q : A → Prop) p : (∀ a, P a → Q a) → Res P p → Res Q p.
Proof. intros HPQ Hp w w' r E. eapply HPQ, Hp, E. Qed.
Lemma Res_plift {A} (P : A → Prop) (o : outcome A) : (∀ a, o = Ok a → P a) → Res P (plift o).
Proof.
  intros Ho w w' r E. destruct o as [a| |s]; simpl in E; [|done|done]. minv. by apply Ho.
Qed.

Lemma failure_ok g s : 0 <= g → s ≠ EVMC_SUCCESS → vm_result_ok g (failure s).
Proof. intros Hg Hs. repeat split; simpl; lia || done. Qed.
Lemma refused_ok g s : 0 <= g → message_result_ok g (make_result s g).
Proof. intros Hg. split; simpl; [lia|done]. Qed.

Lemma gas_costs_nonneg t a f input c :
  resolve_precompile t a = Some f → f input = Ok (Some c) → 0 <= c.
Proof.
  assert (Hu : ∀ z, 0 <= u64 z) by (intros z; apply Z.mod_pos_bound; lia).
  assert (Hp : ∀ n, 0 <= n → 0 <= pricing_factor t n) by (intros n ?; unfold pricing_factor; case_match; lia).
  assert (Halways : ∀ g, (∀ i, 0 <= g i) → Some (always g) = Some f → f input = Ok (Some c) → 0 <= c).
  { intros g Hg [= <-] [= <-]. apply Hg. }
  assert (Hmsm : ∀ tbl p b, Some (λ input, c ← msm_gas_cost tbl p b input; mret (Some c)) = Some f →
    f input = Ok (Some c) → 0 <= c).
  { intros tbl p b [= <-]. unfold msm_gas_cost. case_match; [by intros [= <-]|].
    destruct (msm_discount tbl _) as [d| |]; simpl; [|done|done]. intros [= <-]. apply Z.div_pos; [apply Hu|done]. }
  unfold resolve_precompile. intros E.
  repeat (match type of E with (if ?b then _ else _) = _ => destruct b end;
    [first [eapply Halways, E; intros i;
      unfold ecrecover_gas_cost, ecadd_gas_cost, ecmul_gas_cost, point_evaluation_gas_cost, snarkv_gas_cost,
        by_chain; repeat case_match; first [apply Hu | done | apply Z.mul_nonneg_nonneg; [by apply Hp|done]]
      | eapply Hmsm, E
      | injection E as <-; unfold blake2bf_gas_cost, by_chain, blake2bf_gas_cost_monad, blake2bf_gas_cost_ethereum;
        repeat case_match; intros [= <-]; first [apply Hu|by apply Z.mod_pos_bound]
      | injection E as <-; unfold expmod_gas_cost; cbv zeta; repeat case_match; intros [= <-];
        unfold expmod_min_gas, U64_MAX; repeat case_match; lia]|]).
  done.
Qed.

Definition opt_ok (g : Z) (r : option Result) : Prop := ∀ x, r = Some x → vm_result_ok g x.
Lemma eth_precompile_ok t msg r :
  0 <= gas msg → check_call_eth_precompile precompile_execute t msg = Ok r → opt_ok (gas msg) r.
Proof.
  intros Hg E x ->. unfold check_call_eth_precompile in E.
  destruct (resolve_precompile t (code_address msg)) as [f|] eqn:Hf; [|done].
  destruct (_ && _); [injection E as <-; split; [by apply refused_ok|done]|].
  destruct (f (input_data msg)) as [[c|]| |] eqn:Hc; simpl in E; [|by injection E as <-; apply failure_ok|done|done].
  pose proof (gas_costs_nonneg _ _ _ _ _ Hf Hc).
  destruct (gas msg <? c) eqn:Hlt; [by injection E as <-; apply failure_ok|].
  destruct (precompile_execute _ _) as [st out]. injection E as <-.
  unfold vm_result_ok, message_result_ok, succeeded, keeps_gas; simpl.
  destruct (decide (st = EVMC_SUCCESS)) as [->|]; simpl; [|repeat split; lia || done].
  repeat split; try lia; done.
Qed.
Lemma monad_precompile_ok t C msg :
  contract_ok C → 0 <= gas msg → Res (opt_ok (gas msg)) (check_call_monad_precompile t C msg).
Proof.
  intros [_ _ Hcost] Hg. unfold check_call_monad_precompile.
  case_match; [apply Res_Ret; by intros x|].
  case_match; [apply Res_Ret; intros x [= <-]; by apply failure_ok|].
  specialize (Hcost t (input_data msg)). destruct (precompile_dispatch C t _) as [[m c] i]. simpl in Hcost.
  destruct (gas msg <? c) eqn:Hlt; [apply Res_Ret; intros x [= <-]; by apply failure_ok|].
  apply Res_any. intros _. apply Res_any. intros res. apply Res_Ret. intros x [= <-].
  destruct res; repeat split; simpl; lia || done.
Qed.
Lemma precompile_ok t msg :
  contract_ok StakingContract → 0 <= gas msg →
  Res (opt_ok (gas msg)) (check_call_precompile precompile_execute StakingContract t msg).
Proof.
  intros HC Hg. unfold check_call_precompile.
  eapply Res_bind; [apply Res_plift; intros r; by apply eth_precompile_ok|].
  intros [r|] Hr; [by apply Res_Ret|]. destruct t as [rev|rev]; [by apply Res_Ret|].
  unfold precompile_case.
  assert (Hcase : ∀ C rest b, contract_ok C → Res (opt_ok (gas msg)) rest →
    Res (opt_ok (gas msg)) (if b : bool then
      r ← check_call_monad_precompile (MonadTraits rev) C msg;
      match r with Some r => Ret (Some r) | None => rest end else rest)).
  { intros C rest b HC' Hrest. destruct b; [|done].
    eapply Res_bind; [by apply monad_precompile_ok|]. intros [r|] Hr'; [by apply Res_Ret|done]. }
  apply Hcase; [done|]. apply Hcase; [apply reserve_contract_ok|]. apply Res_Ret. by intros x.
Qed.

Lemma deploy_ok g c r : succeeded r = true → vm_result_ok g r → Res (λ r, 0 <= gas_left r <= g) (deploy_contract_code host c r).
Proof.
  intros Hs [[Hr _] _]. unfold deploy_contract_code. apply Res_any. intros _.
  case_match; [apply Res_Ret; simpl; lia|]. case_match; [apply Res_Ret; simpl; lia|]. cbv zeta.
  destruct (gas_left r <? _) eqn:Hlt; [by apply Res_Ret|]. apply Res_any. intros _. apply Res_Ret. simpl.
  unfold size in *. lia.
Qed.

Lemma call_result_ok run msg :
  contract_ok StakingContract → 0 <= gas msg →
  (∀ code, Res (vm_result_ok (gas msg)) (run (depth msg) (vm_execute msg code))) →
  Res (message_result_ok (gas msg)) (call_message_ run msg).
Proof.
  intros HC Hg Hrun. unfold execute_call_message. apply Res_any. intros _.
  apply (Res_bind (λ early, ∀ x, early = Some x → message_result_ok (gas msg) x)).
  { unfold pre_call. apply Res_any. intros _. cbv zeta.
    apply (Res_bind (λ early, ∀ x, early = Some x → message_result_ok (gas msg) x)).
    - case_match; [|by apply Res_Ret]. apply Res_any. intros ok. case_match.
      + apply Res_any. intros _. apply Res_Ret. intros x [= <-]. by apply refused_ok.
      + apply Res_any. intros _. by apply Res_Ret.
    - intros [r|] Hr; [by apply Res_Ret|]. do 2 (apply Res_any; intros _). by apply Res_Ret. }
  intros [r|] Hr; [apply Res_Ret; auto|].
  eapply Res_bind; [by apply precompile_ok|]. intros pre Hpre.
  apply (Res_bind (vm_result_ok (gas msg))).
  { destruct pre as [r|]; [apply Res_Ret; by apply Hpre|]. do 2 (apply Res_any; intros ?). apply Hrun. }
  intros res [[Hres1 Hres2] _]. apply Res_any. intros viol. cbv zeta. apply Res_any. intros _. apply Res_Ret.
  destruct viol; [|by split]. by split.
Qed.
Lemma create_result_ok run msg :
  0 <= gas msg →
  (∀ m_call code, gas m_call = gas msg →
     Res (vm_result_ok (gas msg)) (run (depth msg) (vm_execute_bytecode m_call code))) →
  Res (message_result_ok (gas msg)) (create_message run msg).
Proof.
  intros Hg Hrun. unfold execute_create_message. apply Res_any. intros _. apply Res_any. intros ok.
  case_match; [apply Res_any; intros _; apply Res_Ret; by apply refused_ok|].
  apply Res_any. intros nonce. case_match; [apply Res_Ret; by apply refused_ok|].
  apply Res_any. intros _. cbv zeta. do 2 (apply Res_any; intros ?).
  case_match; [apply Res_Ret; by apply failure_ok|].
  unfold create_in_frame. do 4 (apply Res_any; intros ?). cbv zeta.
  eapply Res_bind; [by apply Hrun|]. intros res Hres.
  apply (Res_bind (λ r, 0 <= gas_left r <= gas msg)).
  { destruct (succeeded res) eqn:Hs; [by apply deploy_ok|]. apply Res_Ret. apply Hres. }
  intros res2 Hres2. apply Res_any. intros viol.
  set (res3 := if viol : bool then _ else _).
  assert (Hres3 : 0 <= gas_left res3 <= gas msg) by (subst res3; by destruct viol). clearbody res3.
  destruct (succeeded res3) eqn:Hs3; apply Res_any; intros _; apply Res_Ret.
  - split; [done|]. congruence.
  - case_match; split; simpl; lia || done.
Qed.

(** The laws of the virtual machine, and what follows for messages. *)
Hypothesis vm_execute_ok : ∀ msg code, 0 <= gas msg → vm_ok (gas msg) (vm_execute msg code).
Hypothesis vm_bytecode_ok : ∀ msg code, 0 <= gas msg → vm_ok (gas msg) (vm_execute_bytecode msg code).

Lemma run_vm_result_ok c g d v :
  (∀ msg, 0 <= gas msg → Res (message_result_ok (gas msg)) (c msg)) → vm_ok g v →
  Res (vm_result_ok g) (run_vm host c d v).
Proof.
  intros Hc. induction 1 as [r Hr|X op k _ IH|msg k Hg _ IH1 _ IH2|o]; cbn [run_vm].
  - by apply Res_Ret.
  - by apply Res_any.
  - case_match; [done|].
    apply (Res_bind (message_result_ok (gas (with_depth (d + 1) msg)))); [by apply Hc|]. intros r Hr. by apply IH2.
  - intros w w' r E. by apply exec_Stop in E.
Qed.
Lemma message_result run msg :
  contract_ok StakingContract → 0 <= gas msg →
  (∀ v, vm_ok (gas msg) v → Res (vm_result_ok (gas msg)) (run (depth msg) v)) →
  Res (message_result_ok (gas msg)) (message run msg).
Proof.
  intros HC Hg Hrun. unfold execute_message. case_match.
  - apply create_result_ok; [done|]. intros m_call code Hm. apply Hrun. rewrite <- Hm. apply vm_bytecode_ok. by rewrite Hm.
  - apply call_result_ok; [done|done|]. intros code. apply Hrun. by apply vm_execute_ok.
Qed.
Lemma nested_result n msg :
  contract_ok StakingContract → 0 <= gas msg → Res (message_result_ok (gas msg)) (nested (Stop Abort) n msg).
Proof.
  intros HC. revert msg. induction n as [|n IH]; intros msg Hg; cbn [call_message].
  { intros w w' r E. by apply exec_Stop in E. }
  apply (Res_bind (message_result_ok (gas msg))).
  - apply message_result; [done|done|]. intros v. apply run_vm_result_ok. auto.
  - intros r Hr. apply Res_Ret. unfold strip_output. by case_match.
Qed.

Lemma message_gas_bound bottom n msg (w w' : W) r :
  contract_ok StakingContract → 0 <= gas msg → 0 <= depth msg <= MAX_DEPTH →
  MAX_DEPTH - depth msg <= Z.of_nat n →
  exec keccak256 (message (run_vm host (nested bottom n)) msg) w = Ok (r, w') →
  0 <= gas_left r <= gas msg ∧ (status_code r ≠ EVMC_SUCCESS → gas_refund r = 0).
Proof.
  intros HC Hg Hd Hn E.
  assert (Hs : same_runs (message (run_vm host (nested bottom n)) msg)
                         (message (run_vm host (nested (Stop Abort) n)) msg)).
  { apply message_same. intros v. apply run_vm_same. intros Hlt msg'.
    apply nested_fuel; cbn [with_depth Precompiles.depth]; lia. }
  rewrite Hs in E.
  assert (Hr : message_result_ok (gas msg) r).
  { eapply message_result; [done|done| |done]. intros v. apply run_vm_result_ok. intros m Hm. by apply nested_result. }
  destruct Hr as [H1 H2]. split; [done|]. intros Hst. apply H2. by apply bool_decide_eq_false.
Qed.

(** gas is accounted for.  If the virtual machine never returns more gas
    than it was given, no message at any depth does, and a message that does
    not succeed refunds nothing. *)
Theorem message_gas bottom n msg (w w' : W) r :
  contract_ok StakingContract → 0 <= gas msg → 0 <= depth msg <= MAX_DEPTH →
  MAX_DEPTH - depth msg <= Z.of_nat n →
  exec keccak256 (message (run_vm host (nested bottom n)) msg) w = Ok (r, w') →
  0 <= gas_left r <= gas msg ∧ (status_code r ≠ EVMC_SUCCESS → gas_refund r = 0).
Proof. apply message_gas_bound. Qed.
End messages.

(** ** A concrete virtual machine *)
Section concrete.
(** Code writes a slot, calls Alice and reverts with seven units of gas;
    an account without code succeeds. *)
Definition demo_vm (msg : evmc_message) (code : Code) : vm_tree :=
  if bool_decide (code = []) then VmRet (mkResult EVMC_SUCCESS (gas msg) 0 [] 0)
  else VmHost (h_set_storage (recipient msg) 5 3) (λ _,
       VmCall (mkMessage EVMC_CALL 0 0 10 alice (recipient msg) [] 1 0 alice 0) (λ _,
       VmRet (mkResult EVMC_REVERT (Z.min 7 (gas msg)) 0 [1; 2] 0))).
Lemma demo_vm_ok msg code : 0 <= gas msg → vm_ok (gas msg) (demo_vm msg code).
Proof.
  intros Hg. unfold demo_vm. case_bool_decide.
  - constructor. repeat split; simpl; lia || done.
  - assert (Hret : vm_ok (gas msg) (VmRet (mkResult EVMC_REVERT (Z.min 7 (gas msg)) 0 [1; 2] 0))).
    { constructor. repeat split; simpl; lia || done. }
    constructor. intros _. by constructor.
Qed.
Definition demo_staking : MonadContract := StakingContract test_hash no_schemes.
Lemma demo_staking_ok : contract_ok demo_staking.
Proof. apply staking_contract_ok. Qed.
Definition demo_tx : Transaction :=
  mkTransaction (mkSignatureAndChain (mkSignature 1 1 0) (Some 143)) 7 1 50000 5 (Some bob) eip1559
    [] [] 0 0 [] [].
Definition demo_host : HostContext :=
  mkHostContext (EvmTraits MONAD_ETH_CANCUN) demo_tx (Some 0) 0
    (mkChainContext ∅ ∅ ∅ [alice] [[]]) true (λ _, Abort) 143.
Definition demo_msg : evmc_message := mkMessage EVMC_CALL 0 0 20 bob alice [] 5 0 bob 0.
Definition demo_exec (bottom : prog Result) (n : nat) : prog Result :=
  execute_message test_hash (λ _ _, (EVMC_SUCCESS, [])) demo_staking demo_vm demo_vm demo_host
    (run_vm demo_host (call_message test_hash (λ _ _, (EVMC_SUCCESS, [])) demo_staking demo_vm demo_vm
       demo_host bottom n)) demo_msg.
Definition demo_after : State * BlockState () :=
  ran (exec test_hash (demo_exec (Stop Abort) 1024)) (test_state, test_block).
Definition demo_result : Result := mkResult EVMC_REVERT 7 0 [1; 2] 0.
Lemma demo_runs :
  exec test_hash (demo_exec (Stop Abort) 1024) (test_state, test_block) = Ok (demo_result, demo_after).
Proof. run_concrete. Qed.

(** then Alice creates a contract with five tokens, whose init code reverts *)
Definition demo_create : evmc_message := mkMessage EVMC_CREATE 0 0 20 0 alice [1] 5 0 0 0.
Definition demo_create_exec : prog Result :=
  execute_message test_hash (λ _ _, (EVMC_SUCCESS, [])) demo_staking demo_vm demo_vm demo_host
    (run_vm demo_host (call_message test_hash (λ _ _, (EVMC_SUCCESS, [])) demo_staking demo_vm demo_vm
       demo_host (Stop Abort) 1024)) demo_create.
Definition demo_created : State * BlockState () := ran (exec test_hash demo_create_exec) demo_after.
Lemma demo_create_runs : exec test_hash demo_create_exec demo_after = Ok (demo_result, demo_created).
Proof. run_concrete. Qed.
Lemma demo_alice : ∃ x, loaded demo_after.1 alice = Some x ∧ balance_of (account_ x) = 1000.
Proof. eexists. split; vm_compute; reflexivity. Qed.
Lemma message_atomic_witness :
  (stays test_state demo_after.1 ∧ ∃ w3 : State * BlockState (),
    (demo_after = w3 ∨ touch ripemd_address w3 = Ok ((), demo_after)) ∧
    frame_part w3.1 = frame_part test_state) ∧
  ∃ w3 wk : State * BlockState (),
    (demo_created = w3 ∨ touch ripemd_address w3 = Ok ((), demo_created)) ∧ frame_part w3.1 = frame_part wk.1 ∧
    ∃ x, loaded wk.1 alice = Some x ∧ balance_of (account_ x) = 1000.
Proof.
  destruct (message_atomic (B:=BlockState ()) test_hash (λ _ _, (EVMC_SUCCESS, [])) demo_staking demo_vm demo_vm
    demo_host (Stop Abort) 1024 demo_msg (test_state, test_block) demo_after demo_result
    demo_staking_ok ltac:(done) ltac:(done) (make_state_wf _ _) ltac:(done) demo_runs) as [H1 H2].
  split; [split; [done|by apply H2]|].
  destruct (message_atomic (B:=BlockState ()) test_hash (λ _ _, (EVMC_SUCCESS, [])) demo_staking demo_vm demo_vm
    demo_host (Stop Abort) 1024 demo_create demo_after demo_created demo_result
    demo_staking_ok ltac:(done) ltac:(done) (proj1 H1) ltac:(vm_compute; reflexivity) demo_create_runs) as [_ H3].
  destruct (H3 eq_refl) as (w3 & Hw3 & created & wk & _ & Hf & [_ (nonce & Hl & _)]).
  exists w3, wk. split_and!; [done|done|]. destruct demo_alice as (x & Hx & Hb).
  rewrite (Hl _ _ Hx). eexists. split; [reflexivity|]. rewrite creation_effect_balance. exact Hb.
Defined.
Lemma message_terminates_witness :
  exec test_hash (demo_exec (Ret demo_result) 2000) (test_state, test_block) =
  exec test_hash (demo_exec (Stop Abort) 1024) (test_state, test_block).
Proof.
  apply (message_terminates (B:=BlockState ()) test_hash (λ _ _, (EVMC_SUCCESS, [])) demo_staking demo_vm demo_vm
    demo_host (Ret demo_result) (Stop Abort) 2000 demo_msg (test_state, test_block)); [done|].
  unfold MAX_DEPTH. lia.
Defined.
Lemma message_gas_witness : 0 <= gas_left demo_result <= 20 ∧ gas_refund demo_result = 0.
Proof.
  destruct (message_gas (B:=BlockState ()) test_hash (λ _ _, (EVMC_SUCCESS, [])) demo_staking demo_vm demo_vm
    demo_host demo_vm_ok demo_vm_ok (Stop Abort) 1024 demo_msg (test_state, test_block) demo_after demo_result
    demo_staking_ok ltac:(done) ltac:(done) ltac:(done)) as [H1 H2]; [run_concrete|].
  split; [done|]. by apply H2.
Defined.
End concrete.
