(* ===== verification/ExecuteTransaction.v ===== *)
(** * Execution of a transaction

    src/category/execution/ethereum/execute_transaction.cpp.  What happens
    before the final step is a program over the methods of [State]
    ([execute_impl2]); [execute_final] also ends the transaction and reads
    the logs.  [operator()] runs the program once concurrently with other
    transactions and, if what it read has changed, once more. *)
From S2P Require Import Prelude Traits Account VersionStack AccountState BlockState State Methods Fixtures Frames Merge Speculation.
From S2P Require Import Words CheckedMath Rlp Transaction Receipt ReserveBalance ValidateTransaction Precompiles Host ExecuteMessage.
From S2P Require Import Staking StakingCalls StakingSolvency.

(** Conversion of a 64-bit word to [int64_t]. *)
Definition to_i64 (z : Z) : Z := if z >=? 2 ^ 63 then z - 2 ^ 64 else z.

(** The parts of the object that do not change: the chain, the transaction
    with its recovered sender and authorities, the header and the host. *)
Record TransactionContext := mkTransactionContext {
  tc_tx : Transaction;
  tc_sender : Z;
  tc_authorities : list (option Z);
  tc_header : BlockHeader;
  tc_blob_schedule : BlobSchedule;
  tc_host : HostContext
}.

Section transaction.
Context (keccak256 : list Z → Z).
Context (precompile_execute : Z → list Z → evmc_status_code * list Z).
Context (StakingContract : MonadContract).
Context (vm_execute : evmc_message → Code → vm_tree).
Context (vm_execute_bytecode : evmc_message → list Z → vm_tree).
(** never reached: ExecuteMessageFacts.v *)
Context (bottom : prog Result).
Context (tc : TransactionContext).
Abbreviation host := (tc_host tc).
Abbreviation traits := (host_traits host).
Abbreviation tx := (tc_tx tc).
Abbreviation sender := (tc_sender tc).
Abbreviation header := (tc_header tc).

(** ** The up-front payment *)
Definition irrevocable_change (base_fee excess : Z) : prog () :=
  (match tx_to tx with
   | Some _ =>
       nonce ← do_ (m_get_nonce sender);
       do_ (m_set_nonce sender (u64 (nonce + 1)))
   | None => Ret ()
   end);;
  blob_gas ←
    (if (evm_rev traits >=? MONAD_ETH_CANCUN) && bool_decide (tx_type tx = eip4844)
     then plift (calc_blob_fee tx excess (tc_blob_schedule tc)) else Ret 0);
  price ← plift (gas_price traits tx base_fee);
  let upfront_cost := u256 (tx_gas_limit tx * price) in
  do_ (m_subtract_from_balance sender (u256 (upfront_cost + blob_gas))).

(** ** EIP-7702 *)
(** One authorization; the result is what it adds to the refund. *)
Definition process_authorization (entry : AuthorizationEntry) (authority : option Z) : prog Z :=
  match chain_id (auth_sc entry) with
  | None => Stop Abort
  | Some id =>
      if negb ((id =? 0) || (id =? host_chain_id host)) then Ret 0
      else if auth_nonce entry =? U64_MAX then Ret 0
      else
        match authority with
        | None => Ret 0
        | Some authority =>
            passert (negb (has_upper_s (signature (auth_sc entry))));;
            _ ← do_ (m_access_account authority);
            code_hash ← do_ (m_get_code_hash authority);
            code ← do_ (m_read_code code_hash);
            if negb (bool_decide (code = []) || code_is_delegated code) then Ret 0 else
            nonce ← do_ (m_get_nonce authority);
            if negb (auth_nonce entry =? nonce) then Ret 0 else
            exists_ ← do_ (m_account_exists authority);
            (if negb exists_ then do_ (m_create_account_no_rollback authority) else Ret ());;
            dead ← do_ (m_account_is_dead authority);
            do_ (m_set_code authority
                   (if negb (auth_address entry =? 0)
                    then delegation_indicator_prefix ++ be_bytes 20 (auth_address entry) else []));;
            do_ (m_set_nonce authority (u64 (nonce + 1)));;
            Ret (if negb dead then 25000 - 12500 else 0)
        end
  end.
Fixpoint process_entries (entries : list AuthorizationEntry) (auths : list (option Z)) (refund : Z) : prog Z :=
  match entries, auths with
  | entry :: entries, authority :: auths =>
      r ← process_authorization entry authority;
      process_entries entries auths (u64 (refund + r))
  | _, _ => Ret refund
  end.
Definition process_authorizations : prog Z :=
  passert (bool_decide (length (tc_authorities tc) = length (authorization_list tx)));;
  process_entries (authorization_list tx) (tc_authorities tc) 0.

(** ** The message *)
Definition to_message : evmc_message :=
  let '(kind, address) := match tx_to tx with Some to => (EVMC_CALL, to) | None => (EVMC_CREATE, 0) end in
  mkMessage kind 0 0 (to_i64 (u64 (tx_gas_limit tx - intrinsic_gas traits tx))) address sender
    (tx_data tx) (tx_value tx) 0 address 0.
Definition delegated_message (delegate : Z) (msg : evmc_message) : evmc_message :=
  mkMessage (kind msg) (Z.lor (flags msg) EVMC_DELEGATED) (depth msg) (gas msg) (recipient msg)
    (msg_sender msg) (input_data msg) (value msg) (create2_salt msg) delegate (memory_offset msg).

(** The warm addresses and slots of the access list. *)
Definition warm_access_list : prog () :=
  pfor (access_list tx) (λ ae,
    _ ← do_ (m_access_account (ae_a ae));
    pfor (ae_keys ae) (λ key, _ ← do_ (m_access_storage traits (ae_a ae) key); Ret ())).

(** ExecuteTransactionNoValidation::operator() *)
Definition execute_no_validation : prog Result :=
  (match traits with
   | MonadTraits _ =>
       init_reserve_balance_context traits sender tx (base_fee_per_gas header) (host_i host) (chain_ctx host)
   | EvmTraits _ => Ret ()
   end);;
  irrevocable_change (default 0 (base_fee_per_gas header)) (default 0 (excess_blob_gas header));;
  auth_refund ← (if evm_rev traits >=? MONAD_ETH_PRAGUE then process_authorizations else Ret 0);
  (if evm_rev traits >=? MONAD_ETH_SHANGHAI then
     _ ← host_access_account host (beneficiary header); Ret () else Ret ());;
  _ ← do_ (m_access_account sender);
  warm_access_list;;
  (match tx_to tx with Some to => _ ← do_ (m_access_account to); Ret () | None => Ret () end);;
  msg ←
    (match tx_to tx with
     | Some to =>
         if evm_rev traits >=? MONAD_ETH_PRAGUE then
           delegate ← resolve_delegation host to;
           match delegate with
           | Some delegate =>
               _ ← do_ (m_access_account delegate); Ret (delegated_message delegate to_message)
           | None => Ret to_message
           end
         else Ret to_message
     | None => Ret to_message
     end);
  result ← top_message keccak256 precompile_execute StakingContract vm_execute vm_execute_bytecode host
             bottom msg;
  Ret (set_gas_refund (to_i64 (u64 (gas_refund result + auth_refund))) result).

(** ExecuteTransaction::execute_impl2 *)
Definition execute_impl2 : prog (ValidationError + Result) :=
  result ← validate_transaction traits tx sender (default 0 (base_fee_per_gas header)) (tc_authorities tc);
  match result with
  | Some e => do_ (m_validate_exact_balance sender);; Ret (inl e)
  | None => r ← execute_no_validation; Ret (inr r)
  end.

(** ** The final step *)
Definition execute_final_program (result : Result) : prog Z :=
  passert (gas_left result >=? 0);;
  passert (gas_refund result >=? 0);;
  passert (tx_gas_limit tx >=? gas_left result);;
  let refund := compute_gas_refund traits tx (gas_left result) (gas_refund result) in
  gas_cost ← plift (gas_price traits tx (default 0 (base_fee_per_gas header)));
  do_ (m_add_to_balance sender (u256 (gas_cost * refund)));;
  let gas_used := u64 (tx_gas_limit tx - refund) in
  gas_used ←
    (if evm_rev traits >=? MONAD_ETH_PRAGUE then
       let floor_gas := floor_data_gas traits tx in
       if gas_used <? floor_gas then
         do_ (m_subtract_from_balance sender (u256 (gas_cost * u64 (floor_gas - gas_used))));;
         Ret floor_gas
       else Ret gas_used
     else Ret gas_used);
  reward ← plift (calculate_txn_award traits tx (default 0 (base_fee_per_gas header)) gas_used);
  (if mip_11_active traits then collect_priority_fee reward
   else do_ (m_add_to_balance (beneficiary header) reward));;
  Ret gas_used.

Section world.
Context {B : Type} `{BlockAccess B}.
Definition execute_final (result : Result) : M (State * B) Receipt :=
  gas_used ← exec keccak256 (execute_final_program result);
  destruct_suicides traits;;
  destruct_touched_dead;;
  ls ← logs;
  mret (fold_left (add_log keccak256) ls
          (mkReceipt empty_bloom (if succeeded result then 1 else 0) gas_used (tx_type tx) [])).
End world.

(** ** The whole transaction *)
Inductive ExecutionError :=
| StaticError (e : TransactionError)
| StateError (e : ValidationError).

Section block.
Context {VC : Type} `{VarcodeCache VC}.
Context (db_ : Db) (secondary_db_ : option Db).
#[local] Instance block_access_tx : BlockAccess (BlockState VC) := block_access db_ secondary_db_.
Definition tx_incarnation : Incarnation := make_incarnation (hdr_number header) (Z.of_nat (host_i host) + 1).

(** [if (result.has_error()) return ...; execute_final; merge] *)
Definition finish (result : ValidationError + Result) (st : State)
    : M (BlockState VC) (ExecutionError + Receipt) :=
  match result with
  | inl e => mret (inl (StateError e))
  | inr r => λ bs,
      match execute_final r (st, bs) with
      | Ok (receipt, (st', bs')) => (merge st';; mret (inr receipt)) bs'
      | Abort => Abort
      | Throw s => Throw s
      end
  end.

(** The second attempt, after every transaction before this one has been
    merged. *)
Definition retry : M (BlockState VC) (ExecutionError + Receipt) := λ bs,
  match exec keccak256 execute_impl2 (make_state tx_incarnation false, bs) with
  | Ok (result, (st, bs')) =>
      match can_merge (st, bs') with
      | Ok (b, (st', bs'')) =>
          (massert_throw b "block state cannot be merged";; finish result st') bs''
      | Abort => Abort
      | Throw s => Throw s
      end
  | Abort => Abort
  | Throw s => Throw s
  end.

(** [operator()], given the result and the state of the first attempt,
    which other transactions have interfered with. *)
Definition execute_transaction (first : (ValidationError + Result) * State)
    : M (BlockState VC) (ExecutionError + Receipt) := λ bs,
  match static_validate_transaction traits tx (base_fee_per_gas header) (excess_blob_gas header)
          (host_chain_id host) (tc_blob_schedule tc) with
  | Ok (Some e) => Ok (inl (StaticError e), bs)
  | Ok None =>
      match can_merge (first.2, bs) with
      | Ok (true, (st, bs')) => finish first.1 st bs'
      | Ok (false, (_, bs')) => retry bs'
      | Abort => Abort
      | Throw s => Throw s
      end
  | Abort => Abort
  | Throw s => Throw s
  end.
End block.
End transaction.

(** ** The first attempt and the second *)

(** Validation starts with the sender, or stops because a price is not
    representable. *)
Definition starts_with_sender {A} (sender : Z) (p : prog A) : Prop :=
  looks_at_sender sender p ∨ ∃ o, p = Stop o.
Lemma starts_bind {A C} sender (p : prog A) (k : A → prog C) :
  starts_with_sender sender p → starts_with_sender sender (p ≫= k).
Proof.
  intros [Hp|[o ->]]; [left|right; by exists o].
  destruct p as [a|X [Y op| | |] f|o]; [done| |done..]. by destruct op.
Qed.
Lemma validate_ethereum_starts t tx sender :
  starts_with_sender sender (validate_ethereum_transaction t tx sender) ∨
  validate_ethereum_transaction t tx sender = Ret (Some InsufficientBalance).
Proof. unfold validate_ethereum_transaction. case_match; [by right|]. left. by left. Qed.

Lemma execute_impl2_starts keccak256 precompile_execute staking vm vm_bytecode bottom tc :
  starts_with_sender (tc_sender tc)
    (execute_impl2 keccak256 precompile_execute staking vm vm_bytecode bottom tc).
Proof.
  unfold execute_impl2, validate_transaction, validate_monad_transaction.
  destruct (validate_ethereum_starts (host_traits (tc_host tc)) (tc_tx tc) (tc_sender tc)) as [Hs|Hs];
    destruct (host_traits (tc_host tc)) as [rev|rev].
  - by do 2 apply starts_bind.
  - by do 2 apply starts_bind.
  - rewrite Hs. by left.
  - rewrite Hs. cbn [mbind prog_bind]. case_match; [|by left]. simpl relaxed_result.
    apply starts_bind. destruct (gas_price _ _ _); [by left|right; by eexists..].
Qed.

Section attempts.
Context {VC : Type} `{VarcodeCacheLaws VC}.
Context (db_ : Db) (secondary_db_ : option Db) (keccak256 : Code → Z) (codeof : Z → Code).
Context (precompile_execute : Z → list Z → evmc_status_code * list Z).
Context (staking : MonadContract).
Context (vm_execute vm_execute_bytecode : evmc_message → list Z → vm_tree).
Context (bottom : prog Result) (tc : TransactionContext).
(** The block state in which every earlier transaction has been merged. *)
Context (bs : BlockState VC).
Hypothesis Hcodeof : ∀ c, codeof (keccak256 c) = c.
Hypothesis Hsecondary : ∀ db2 a i k, secondary_db_ = Some db2 →
  db_read_storage db2 a i k = db_read_storage db_ a i k.
Abbreviation ok := (block_ok db_ codeof (tx_incarnation tc)).
Hypothesis Hbs : ok bs.
#[local] Instance block_access_attempts : BlockAccess (BlockState VC) := block_access db_ secondary_db_.
Abbreviation impl2 := (execute_impl2 keccak256 precompile_execute staking vm_execute vm_execute_bytecode bottom tc).
Abbreviation finish_ := (finish keccak256 tc db_ secondary_db_).
Abbreviation retry_ := (retry keccak256 precompile_execute staking vm_execute vm_execute_bytecode
  bottom tc db_ secondary_db_).
Abbreviation execute_ := (execute_transaction keccak256 precompile_execute staking vm_execute
  vm_execute_bytecode bottom tc db_ secondary_db_).

(** C2: a transaction that runs concurrently ends as if it had run alone.
    Its first attempt, from a state in which the expected nonce was
    prefetched, was answered by a block state other transactions read and
    merged into, until all earlier ones were merged and it became [bs].
    The check on [bs] never fails to answer.  If it refuses, the
    transaction is what the attempt on [bs] alone makes it.  If it accepts,
    the attempt on [bs] alone would also be accepted, and would finish the
    same result and the same state on a block state that reads like [bs]. *)
Theorem transaction_sequential bs0 o0 st1 o1 result st' :
  static_validate_transaction (host_traits (tc_host tc)) (tc_tx tc) (base_fee_per_gas (tc_header tc))
    (excess_blob_gas (tc_header tc)) (host_chain_id (tc_host tc)) (tc_blob_schedule tc) = Ok None →
  ok bs0 → answered db_ secondary_db_ keccak256 codeof (tx_incarnation tc) bs bs0 o0 →
  (∀ o, o0 = EvAccount (tc_sender tc) None :: o → ¬ lives bs (tc_sender tc) (make_incarnation 0 0)) →
  set_original_nonce (tc_sender tc) (tx_nonce (tc_tx tc)) (make_state (tx_incarnation tc) false, o0) =
    Ok ((), (st1, o1)) →
  exec keccak256 impl2 (st1, o1) = Ok (result, (st', [])) →
  ∃ b, can_merge (st', bs) = Ok (b, (st', bs)) ∧
    if b then
      ∃ bs', same_view db_ bs bs' ∧
        execute_ (result, st') bs = finish_ result st' bs ∧ retry_ bs = finish_ result st' bs'
    else execute_ (result, st') bs = retry_ bs.
Proof.
  intros Hstatic Hok0 Ha Hdef Hpre Hrun.
  assert (Hlooks : looks_at_sender (tc_sender tc) impl2).
  { destruct (execute_impl2_starts keccak256 precompile_execute staking vm_execute vm_execute_bytecode
      bottom tc) as [?|[o E]]; [done|]. rewrite E in Hrun. by apply exec_Stop in Hrun. }
  destruct (speculation_replays db_ secondary_db_ keccak256 codeof (tx_incarnation tc) bs Hcodeof Hsecondary
    Hbs impl2 (tc_sender tc) (tx_nonce (tc_tx tc)) bs0 o0 st1 o1 result st') as (b & Hm & Hrep); [done..|].
  exists b. split; [done|]. unfold execute_transaction. rewrite Hstatic. simpl. rewrite Hm.
  destruct b; [|done]. destruct (Hrep eq_refl) as (bs' & Hrun' & Hview & Hm').
  exists bs'. split; [done|]. split; [done|]. unfold retry.
  unfold block_access_tx. unfold block_access_attempts in Hrun'. unfold real_access in Hrun'. rewrite Hrun'.
  rewrite Hm'. done.
Qed.
End attempts.

(** ** A concrete transaction *)
Section concrete.
(** An injective stand-in for the hash function that maps no code to
    [NULL_HASH], and its inverse. *)
Definition pay_hash (c : Code) : Z := if decide (c = []) then NULL_HASH else Zneg (encode c).
Definition pay_codeof (h : Z) : Code :=
  match h with Zneg p => default [] (countable.decode p) | _ => [] end.
Lemma pay_codeof_hash c : pay_codeof (pay_hash c) = c.
Proof.
  unfold pay_codeof, pay_hash. case_decide as E; [|simpl; by rewrite decode_encode].
  rewrite E. done.
Qed.

(** Alice pays for a call of Bob's contract, which writes a slot. *)
Definition pay_code : Code := [0x60; 0x00].
Definition pay_db : Db := mkDb
  (λ a, if a =? alice then Some (mkAccount 1000000 NULL_HASH 7 (mkIncarnation 1 1))
        else if a =? bob then Some (mkAccount 50 (pay_hash pay_code) 1 (mkIncarnation 2 0))
        else None)
  (λ a i k, if (a =? bob) && (k =? 5) then 77 else 0)
  (λ h, if h =? NULL_HASH then Some [] else if h =? pay_hash pay_code then Some pay_code else None).
#[local] Instance pay_access : BlockAccess (BlockState ()) := block_access pay_db None.
Definition pay_vm (msg : evmc_message) (code : Code) : vm_tree :=
  VmHost (h_set_storage (recipient msg) 5 3) (λ _, VmRet (mkResult EVMC_SUCCESS (gas msg) 0 [] 0)).
Definition pay_staking : MonadContract := StakingContract pay_hash no_schemes.
Definition pay_tx : Transaction :=
  mkTransaction (mkSignatureAndChain (mkSignature 1 1 0) (Some 143)) 7 2 30000 10 (Some bob) eip1559
    [] [] 1 0 [] [].
Definition pay_header : BlockHeader :=
  mkBlockHeader [] 0 0 0 0 0 0 0 9 100000 0 0 [] [] carol (Some 1) None None None None None None.
Definition pay_context : TransactionContext :=
  mkTransactionContext pay_tx alice [] pay_header CANCUN_BLOB_SCHEDULE
    (mkHostContext (EvmTraits MONAD_ETH_CANCUN) pay_tx (Some 1) 2 (mkChainContext ∅ ∅ ∅ [alice] [[]])
       false (λ _, Abort) 143).
Abbreviation pay_impl2 :=
  (execute_impl2 pay_hash (λ _ _, (EVMC_SUCCESS, [])) pay_staking pay_vm pay_vm (Stop Abort) pay_context).

(** While it runs, transaction 1 of the block creates the beneficiary's
    account. *)
Definition pb0 : BlockState () := make_block_state ().
Definition pb1 : BlockState () := ran (read_account pay_db alice) pb0.
Definition pb2 : BlockState () := bs_set_state (<[carol := carol_delta]> (bs_state pb1)) pb1.
Definition pb3 : BlockState () := ran (read_account pay_db carol) pb2.
Definition pb4 : BlockState () := ran (read_account pay_db bob) pb3.
Definition pb5 : BlockState () := ran (read_storage pay_db None bob bob_inc 5) pb4.
Definition pay_record : list event :=
  [EvAccount alice (db_read_account pay_db alice);
   EvAccount carol (sd_account carol_delta).2;
   EvAccount bob (db_read_account pay_db bob);
   EvCode (pay_hash pay_code) pay_code;
   EvStorage bob bob_inc 5 77].
Definition pst1 : State :=
  (ran (set_original_nonce alice 7) (make_state (tx_incarnation pay_context) false, pay_record)).1.
Definition pst2 : State := (ran (exec pay_hash pay_impl2) (pst1, tail pay_record)).1.
Definition pay_result : ValidationError + Result := inr (mkResult EVMC_SUCCESS 9000 0 [] 0).

Abbreviation pok := (block_ok pay_db pay_codeof (tx_incarnation pay_context)).
Lemma pb0_ok : pok pb0.
Proof.
  split; simpl.
  - split; [done|]. intros h c. unfold stored. simpl. rewrite lookup_empty.
    destruct (Z.eqb_spec h NULL_HASH) as [->|]; [by intros [= <-]|].
    destruct (Z.eqb_spec h (pay_hash pay_code)) as [->|]; [|done].
    intros [= <-]. by rewrite pay_codeof_hash.
  - intros a acc. unfold account_view. simpl. rewrite lookup_empty.
    do 2 (case_match; [by intros [= <-]|]). done.
  - intros a d. by rewrite lookup_empty.
  - intros a d. by rewrite lookup_empty.
Qed.
Lemma pb1_ok : pok pb1.
Proof.
  apply (block_ok_read_account _ _ _ alice pb0 (db_read_account pay_db alice)); [apply pb0_ok|].
  run_concrete.
Qed.
Lemma pb2_ok : pok pb2.
Proof.
  destruct pb1_ok as [Hc Ho Hr Hor]. split; [done| | |].
  - intros a acc. unfold account_view. simpl. destruct (decide (carol = a)) as [<-|].
    + rewrite lookup_insert_eq. by intros [= <-].
    + rewrite lookup_insert_ne by done. apply (Ho a).
  - intros a d. simpl. destruct (decide (carol = a)) as [<-|].
    + rewrite lookup_insert_eq. by intros [= <-].
    + rewrite lookup_insert_ne by done. apply Hr.
  - intros a d. simpl. destruct (decide (carol = a)) as [<-|].
    + rewrite lookup_insert_eq. by intros [= <-].
    + rewrite lookup_insert_ne by done. apply Hor.
Qed.
Lemma pb3_ok : pok pb3.
Proof.
  apply (block_ok_read_account _ _ _ carol pb2 (sd_account carol_delta).2); [apply pb2_ok|]. run_concrete.
Qed.
Lemma pb4_ok : pok pb4.
Proof.
  apply (block_ok_read_account _ _ _ bob pb3 (db_read_account pay_db bob)); [apply pb3_ok|]. run_concrete.
Qed.
Lemma pb5_ok : pok pb5.
Proof.
  apply (block_ok_read_storage _ None _ _ bob bob_inc 5 pb4 77); [apply pb4_ok|]. run_concrete.
Qed.
Lemma pay_answered :
  answered pay_db None pay_hash pay_codeof (tx_incarnation pay_context) pb5 pb0 pay_record.
Proof.
  eapply (ans_step _ _ _ _ _ _ _ pb1); [apply ans_account; run_concrete|].
  eapply (ans_env _ _ _ _ _ _ _ pb2); [|apply pb2_ok|].
  { split.
    - intros a Ha. apply lookup_insert_is_Some'. by right.
    - intros a i _ (d & acc & Ha & ?). exists d, acc. simpl. rewrite lookup_insert_ne; [done|].
      intros <-. vm_compute in Ha. done.
    - intros a i d d' _ _ Hd Hd'. simpl in Hd'. rewrite lookup_insert_ne in Hd'.
      + rewrite Hd in Hd'. by injection Hd' as <-.
      + intros <-. vm_compute in Hd. done. }
  eapply (ans_step _ _ _ _ _ _ _ pb3); [apply ans_account; run_concrete|].
  eapply (ans_step _ _ _ _ _ _ _ pb4); [apply ans_account; run_concrete|].
  eapply (ans_step _ _ _ _ _ _ _ pb4); [apply ans_code; run_concrete|].
  eapply (ans_step _ _ _ _ _ _ _ pb5); [apply ans_storage; run_concrete|].
  by apply ans_end.
Qed.

Lemma transaction_sequential_witness :
  ∃ b, can_merge (pst2, pb5) = Ok (b, (pst2, pb5)) ∧
    if b then
      ∃ bs', same_view pay_db pb5 bs' ∧
        execute_transaction pay_hash (λ _ _, (EVMC_SUCCESS, [])) pay_staking pay_vm pay_vm
          (Stop Abort) pay_context pay_db None (pay_result, pst2) pb5 =
        finish pay_hash pay_context pay_db None pay_result pst2 pb5 ∧
        retry pay_hash (λ _ _, (EVMC_SUCCESS, [])) pay_staking pay_vm pay_vm
          (Stop Abort) pay_context pay_db None pb5 =
        finish pay_hash pay_context pay_db None pay_result pst2 bs'
    else
      execute_transaction pay_hash (λ _ _, (EVMC_SUCCESS, [])) pay_staking pay_vm pay_vm
        (Stop Abort) pay_context pay_db None (pay_result, pst2) pb5 =
      retry pay_hash (λ _ _, (EVMC_SUCCESS, [])) pay_staking pay_vm pay_vm
        (Stop Abort) pay_context pay_db None pb5.
Proof.
  apply (transaction_sequential pay_db None pay_hash pay_codeof (λ _ _, (EVMC_SUCCESS, [])) pay_staking
    pay_vm pay_vm (Stop Abort) pay_context pb5 pay_codeof_hash ltac:(done) pb5_ok pb0
    pay_record pst1 (tail pay_record) pay_result pst2).
  - run_concrete.
  - apply pb0_ok.
  - apply pay_answered.
  - intros o [=].
  - run_concrete.
  - run_concrete.
Defined.
End concrete.
