(* ===== verification/ValidateBlock.v ===== *)
(** * Validation of blocks

    src/category/execution/ethereum/validate_block.cpp and
    src/category/execution/monad/validate_monad_block.cpp: the checks on a
    header and a body before a block is executed, on the header execution
    computed, and on the order of the system transactions of a Monad block;
    with the interface of a chain (E/chain/chain.hpp) and two chains. *)
From Stdlib Require Import Sorted.
From S2P Require Import Prelude Traits State Rlp Transaction Receipt RlpTransaction ValidateTransaction.
From S2P Require Import ReserveBalance Abi StakingVars.

(** ** Chains *)
Class Chain := {
  get_chain_id : Z;
  get_revision : Z → Z → outcome Z;
  get_blob_schedule : Z → BlobSchedule
}.

Definition OSAKA_ACTIVATION_TIMESTAMP : Z := 1764798551.
Definition PRAGUE_ACTIVATION_TIMESTAMP : Z := 1746612311.
Definition CANCUN_ACTIVATION_TIMESTAMP : Z := 1710338135.
Definition SHANGHAI_ACTIVATION_TIMESTAMP : Z := 1681338455.
Definition PARIS_ACTIVATION_BLOCK_NUMBER : Z := 15537394.
Definition LONDON_ACTIVATION_BLOCK_NUMBER : Z := 12965000.
Definition BERLIN_ACTIVATION_BLOCK_NUMBER : Z := 12244000.
Definition BPO1_ACTIVATION_TIMESTAMP : Z := 1765290071.
Definition BPO2_ACTIVATION_TIMESTAMP : Z := 1767747671.
Definition mainnet_revision (block_number timestamp : Z) : outcome Z :=
  if timestamp >=? OSAKA_ACTIVATION_TIMESTAMP then Ok MONAD_ETH_OSAKA
  else if timestamp >=? PRAGUE_ACTIVATION_TIMESTAMP then Ok MONAD_ETH_PRAGUE
  else if timestamp >=? CANCUN_ACTIVATION_TIMESTAMP then Ok MONAD_ETH_CANCUN
  else if timestamp >=? SHANGHAI_ACTIVATION_TIMESTAMP then Ok MONAD_ETH_SHANGHAI
  else if block_number >=? PARIS_ACTIVATION_BLOCK_NUMBER then Ok MONAD_ETH_PARIS
  else if block_number >=? LONDON_ACTIVATION_BLOCK_NUMBER then Ok MONAD_ETH_LONDON
  else if block_number >=? BERLIN_ACTIVATION_BLOCK_NUMBER then Ok MONAD_ETH_BERLIN
  else Abort.
Definition mainnet_blob_schedule (timestamp : Z) : BlobSchedule :=
  if timestamp >=? BPO1_ACTIVATION_TIMESTAMP then
    if timestamp >=? BPO2_ACTIVATION_TIMESTAMP then BPO2_BLOB_SCHEDULE else BPO1_BLOB_SCHEDULE
  else if timestamp >=? PRAGUE_ACTIVATION_TIMESTAMP then PRAGUE_BLOB_SCHEDULE
  else CANCUN_BLOB_SCHEDULE.
Definition EthereumMainnet : Chain :=
  {| get_chain_id := 1; get_revision := mainnet_revision; get_blob_schedule := mainnet_blob_schedule |}.

Definition MONAD_THREE : Z := 3.
Definition monad_mainnet_revision (timestamp : Z) : Z :=
  if timestamp >=? 1788359400 then MONAD_TEN
  else if timestamp >=? 1773930600 then MONAD_NINE
  else if timestamp >=? 1763649000 then MONAD_EIGHT
  else if timestamp >=? 1762525800 then MONAD_SEVEN
  else if timestamp >=? 1762266600 then MONAD_SIX
  else if timestamp >=? 1755091800 then MONAD_THREE
  else MONAD_TWO.
(** The revision of a Monad chain, given the one [get_monad_revision] of the
    chain returns. *)
Definition monad_chain_revision (monad_revision : Z) : Z :=
  if monad_revision >=? MONAD_FOUR then MONAD_ETH_PRAGUE else MONAD_ETH_CANCUN.
Definition MonadMainnet : Chain :=
  {| get_chain_id := 143;
     get_revision := λ _ timestamp, Ok (monad_chain_revision (monad_mainnet_revision timestamp));
     get_blob_schedule := λ _, MONAD_BLOB_SCHEDULE |}.

(** ** Errors *)
Inductive BlockError :=
| GasAboveLimit | InvalidGasLimit | ExtraDataTooLong | WrongOmmersHash | WrongParentHash | FieldBeforeFork
| MissingField | PowBlockAfterMerge | InvalidNonce | TooManyOmmers | DuplicateOmmers | InvalidOmmerHeader
| WrongLogsBloom | InvalidGasUsed | InvalidExcessBlobGas | WrongMerkleRoot | SystemCallMissingCode
| SystemCallFailed | InvalidRequestsHash | InvalidDepositLog.
#[global] Instance BlockError_eq : EqDecision BlockError.
Proof. solve_decision. Defined.
#[global] Instance BlockHeader_eq : EqDecision BlockHeader.
Proof. solve_decision. Defined.

(** A check returns the error, if any; [fail_if] is
    [if (MONAD_UNLIKELY(b)) return e;]. *)
Definition fail_if {E} (b : bool) (e : E) (k : option E) : option E := if b then Some e else k.
(** A field that a fork introduced. *)
Definition fork_field (active : bool) (present absent : bool) (k : option BlockError) : option BlockError :=
  if active then fail_if absent MissingField k else fail_if present FieldBeforeFork k.
Definition has {A} (o : option A) : bool := bool_decide (is_Some o).

(** ** The header *)
Definition NULL_LIST_HASH : Z := 0x1dcc4de8dec75d7aab85b567b6ccd41ad312451b948a7413f0a142fd40d49347.
Definition static_validate_header (t : Traits) (header : BlockHeader) : option BlockError :=
  fail_if (hdr_gas_limit header <? 5000) InvalidGasLimit (
  fail_if (hdr_gas_limit header >? 2 ^ 63 - 1) InvalidGasLimit (
  fail_if (len (extra_data header) >? 32) ExtraDataTooLong (
  fork_field (evm_rev t >=? MONAD_ETH_LONDON)
    (has (base_fee_per_gas header)) (negb (has (base_fee_per_gas header))) (
  fork_field (evm_rev t >=? MONAD_ETH_PRAGUE)
    (has (requests_hash header)) (negb (has (requests_hash header))) (
  fork_field (evm_rev t >=? MONAD_ETH_CANCUN)
    (has (blob_gas_used header) || has (excess_blob_gas header) || has (parent_beacon_block_root header))
    (negb (has (blob_gas_used header)) || negb (has (excess_blob_gas header))
     || negb (has (parent_beacon_block_root header))) (
  fork_field (evm_rev t >=? MONAD_ETH_SHANGHAI)
    (has (withdrawals_root header)) (negb (has (withdrawals_root header))) (
  if evm_rev t >=? MONAD_ETH_PARIS then
    fail_if (negb (difficulty header =? 0)) PowBlockAfterMerge (
    fail_if (negb (bool_decide (hdr_nonce header = repeat 0 8))) InvalidNonce (
    fail_if (negb (ommers_hash header =? NULL_LIST_HASH)) WrongOmmersHash None))
  else None))))))).

(** ** The body *)
Definition compute_bloom (receipts : list Receipt) : list Z :=
  fold_left (λ b r, zip_with Z.lor b (bloom r)) receipts empty_bloom.

Section body.
Context (keccak256 : list Z → Z) `{Chain}.
Definition compute_ommers_hash (ommers : list BlockHeader) : Z :=
  if bool_decide (ommers = []) then NULL_LIST_HASH else keccak256 (encode_ommers ommers).

(** [BOOST_OUTCOME_TRY] of a check that may also fail an assertion *)
Definition check_then (m k : outcome (option BlockError)) : outcome (option BlockError) :=
  r ← m; match r with Some e => Ok (Some e) | None => k end.
(** SWITCH_EVM_TRAITS *)
Definition supported_revision (rev : Z) : bool := (MONAD_ETH_BERLIN <=? rev) && (rev <=? MONAD_ETH_AMSTERDAM).
Fixpoint validate_ommer_headers (ommers : list BlockHeader) : outcome (option BlockError) :=
  match ommers with
  | [] => Ok None
  | ommer :: ommers =>
      rev ← get_revision (hdr_number ommer) (hdr_timestamp ommer);
      if negb (supported_revision rev) then Abort
      else check_then (Ok (static_validate_header (EvmTraits rev) ommer)) (validate_ommer_headers ommers)
  end.
Definition static_validate_ommers (t : Traits) (block : Block) : outcome (option BlockError) :=
  let ommers := blk_ommers block in
  if negb (compute_ommers_hash ommers =? ommers_hash (blk_header block)) then Ok (Some WrongOmmersHash)
  else if (evm_rev t >=? MONAD_ETH_PARIS) && negb (bool_decide (ommers = [])) then Ok (Some TooManyOmmers)
  else if (2 <? length ommers)%nat then Ok (Some TooManyOmmers)
  else if bool_decide (length ommers = 2%nat ∧ ommers !! 0%nat = ommers !! 1%nat) then Ok (Some DuplicateOmmers)
  else validate_ommer_headers ommers.

Definition total_blob_gas (txs : list Transaction) : Z :=
  fold_left (λ s tx, if bool_decide (tx_type tx = eip4844) then u64 (s + get_total_blob_gas tx) else s) txs 0.
(** [value()] of an absent optional throws. *)
Definition ovalue {A} (o : option A) : outcome A :=
  match o with Some a => Ok a | None => Throw "bad optional access" end.
Definition static_validate_4844 (t : Traits) (block : Block) : outcome (option BlockError) :=
  if evm_rev t >=? MONAD_ETH_CANCUN then
    let used := total_blob_gas (blk_transactions block) in
    let blob_schedule := get_blob_schedule (hdr_timestamp (blk_header block)) in
    if used >? max_blob_gas_per_block blob_schedule then Ok (Some GasAboveLimit)
    else
      declared ← ovalue (blob_gas_used (blk_header block));
      Ok (fail_if (negb (declared =? used)) InvalidGasUsed None)
  else Ok None.
Definition static_validate_4844_parent (t : Traits) (block : Block) (parent_header : BlockHeader)
    : outcome (option BlockError) :=
  if eip_4844_active t then
    expected ← calc_excess_blob_gas t parent_header (get_blob_schedule (hdr_timestamp (blk_header block)));
    declared ← ovalue (excess_blob_gas (blk_header block));
    Ok (fail_if (negb (declared =? expected)) InvalidExcessBlobGas None)
  else Ok None.
Definition static_validate_body (t : Traits) (block : Block) : outcome (option BlockError) :=
  check_then (Ok (fork_field (evm_rev t >=? MONAD_ETH_SHANGHAI)
                    (has (blk_withdrawals block)) (negb (has (blk_withdrawals block))) None)) (
  check_then (static_validate_ommers t block) (static_validate_4844 t block)).
Definition static_validate_block (t : Traits) (block : Block) : outcome (option BlockError) :=
  check_then (Ok (static_validate_header t (blk_header block))) (static_validate_body t block).
Definition static_validate_block_with_parent (t : Traits) (block : Block) (parent_header : BlockHeader)
    : outcome (option BlockError) :=
  check_then (static_validate_block t block) (static_validate_4844_parent t block parent_header).
End body.

(** ** The header execution computed *)
Definition validate_output_header (input output : BlockHeader) : option BlockError :=
  fail_if (negb (ommers_hash input =? ommers_hash output)) WrongOmmersHash (
  fail_if (negb (transactions_root input =? transactions_root output)) WrongMerkleRoot (
  fail_if (negb (bool_decide (withdrawals_root input = withdrawals_root output))) WrongMerkleRoot (
  fail_if (negb (hdr_gas_used input =? hdr_gas_used output)) InvalidGasUsed (
  fail_if (hdr_gas_used output >? hdr_gas_limit output) GasAboveLimit (
  fail_if (negb (bool_decide (logs_bloom input = logs_bloom output))) WrongLogsBloom (
  fail_if (negb (parent_hash input =? parent_hash output)) WrongParentHash (
  fail_if (negb (state_root input =? state_root output)) WrongMerkleRoot (
  fail_if (negb (receipts_root input =? receipts_root output)) WrongMerkleRoot None)))))))).

(** ** Monad *)
Inductive MonadBlockError :=
| TimestampMismatch | BaseFeeMismatch | SystemTransactionNotFirstInBlock | SystemTransactionOutOfOrder
| DuplicateSystemTransaction | UnknownSystemTransaction | InvalidRewardValue.
(** What is read of a consensus header: the time in nanoseconds, the inputs
    of execution, and from version 2 on the base fee. *)
Record ConsensusHeader := mkConsensusHeader {
  timestamp_ns : Z;
  execution_inputs : BlockHeader;
  consensus_base_fee : option Z
}.
Definition static_validate_consensus_header (header : ConsensusHeader) : option MonadBlockError :=
  fail_if (negb (u64 (timestamp_ns header / 1000000000) =? hdr_timestamp (execution_inputs header)))
    TimestampMismatch (
  match consensus_base_fee header with
  | Some base_fee =>
      fail_if (negb (bool_decide (Some base_fee = base_fee_per_gas (execution_inputs header))))
        BaseFeeMismatch None
  | None => None
  end).

Inductive SyscallKind := Snapshot | OnEpochChange | Reward | Other.
#[global] Instance SyscallKind_eq : EqDecision SyscallKind.
Proof. solve_decision. Defined.
Definition kind_number (k : SyscallKind) : nat :=
  match k with Snapshot => 0 | OnEpochChange => 1 | Reward => 2 | Other => 3 end.
Definition classify (tx : Transaction) : SyscallKind :=
  if len (tx_data tx) <? 4 then Other
  else
    let signature := be_val (take 4 (tx_data tx)) in
    if signature =? selector_SNAPSHOT then Snapshot
    else if signature =? selector_ON_EPOCH_CHANGE then OnEpochChange
    else if signature =? selector_REWARD then Reward
    else Other.
Definition maximum_block_reward (t : Traits) : Z := if mip_12_active t then 18 * MON else 25 * MON.

(** The loop over the system transactions, with what has been seen. *)
Fixpoint validate_system_order (t : Traits) (seen : list bool) (last_kind : option SyscallKind)
    (txns : list Transaction) : option MonadBlockError :=
  match txns with
  | [] => None
  | tx :: txns =>
      let kind := classify tx in
      fail_if (bool_decide (kind = Other)) UnknownSystemTransaction (
      fail_if (default false (seen !! kind_number kind)) DuplicateSystemTransaction (
      fail_if (match last_kind with Some l => (kind_number kind <? kind_number l)%nat | None => false end)
        SystemTransactionOutOfOrder (
      fail_if (bool_decide (kind = Reward) && (tx_value tx >? maximum_block_reward t)) InvalidRewardValue (
      validate_system_order t (<[kind_number kind := true]> seen) (Some kind) txns))))
  end.
(** The number of senders before the first user. *)
Fixpoint system_prefix (senders : list Z) : nat :=
  match senders with
  | s :: senders => if s =? SYSTEM_SENDER then S (system_prefix senders) else 0
  | [] => 0
  end.
Definition static_validate_monad_body (t : Traits) (senders : list Z) (txns : list Transaction)
    : outcome (option MonadBlockError) :=
  if negb (bool_decide (length senders = length txns)) then Abort
  else if negb (monad_rev_from t MONAD_FOUR) then Ok None
  else
    let n := system_prefix senders in
    Ok (fail_if (existsb (Z.eqb SYSTEM_SENDER) (drop n senders)) SystemTransactionNotFirstInBlock (
        validate_system_order t [false; false; false] None (take n txns))).

(** ** The order of system transactions *)

(** Senders and transactions of a well-ordered Monad block: the first [k]
    are system transactions of known kinds, in the order of [SyscallKind] and
    none twice, and no reward is above the limit. *)
Definition kind_before (a b : SyscallKind) : Prop := (kind_number a < kind_number b)%nat.
Definition well_ordered (t : Traits) (senders : list Z) (txns : list Transaction) : Prop :=
  ∃ k : nat, (k <= length senders)%nat ∧
    Forall (λ s, s = SYSTEM_SENDER) (take k senders) ∧ Forall (λ s, s ≠ SYSTEM_SENDER) (drop k senders) ∧
    StronglySorted kind_before (classify <$> take k txns) ∧
    Forall (λ tx, classify tx ≠ Other ∧ (classify tx = Reward → tx_value tx <= maximum_block_reward t))
      (take k txns).

Lemma fail_if_None {E} (b : bool) (e : E) k : fail_if b e k = None ↔ b = false ∧ k = None.
Proof. destruct b; simpl; naive_solver. Qed.
Lemma system_prefix_spec senders :
  (system_prefix senders <= length senders)%nat ∧
  Forall (λ s, s = SYSTEM_SENDER) (take (system_prefix senders) senders).
Proof.
  induction senders as [|s l (IH1 & IH2)]; simpl; [done|].
  destruct (Z.eqb_spec s SYSTEM_SENDER) as [->|Hs]; simpl; split; [lia|by constructor|lia|constructor].
Qed.
Lemma system_prefix_unique senders k : (k <= length senders)%nat →
  Forall (λ s, s = SYSTEM_SENDER) (take k senders) → Forall (λ s, s ≠ SYSTEM_SENDER) (drop k senders) →
  system_prefix senders = k.
Proof.
  revert k. induction senders as [|s l IH]; intros [|k] Hk Ht Hd; simpl in *; try done; try lia.
  - apply list.Forall_cons in Hd as [Hs _]. by destruct (Z.eqb_spec s SYSTEM_SENDER).
  - apply list.Forall_cons in Ht as [-> Ht]. rewrite Z.eqb_refl. f_equal. apply IH; [lia|done..].
Qed.
Lemma existsb_none (senders : list Z) :
  existsb (Z.eqb SYSTEM_SENDER) senders = false ↔ Forall (λ s, s ≠ SYSTEM_SENDER) senders.
Proof.
  induction senders as [|s l IH]; cbn [existsb]; [done|].
  rewrite orb_false_iff, list.Forall_cons, IH, Z.eqb_neq. naive_solver.
Qed.

(** [seen] marks the last kind and nothing after it. *)
Definition seen_up_to (seen : list bool) (last_kind : option SyscallKind) : Prop :=
  match last_kind with
  | None => seen = [false; false; false]
  | Some l => seen !! kind_number l = Some true ∧
      ∀ k, kind_before l k → default false (seen !! kind_number k) = false
  end.
Definition after (last_kind : option SyscallKind) (k : SyscallKind) : Prop :=
  match last_kind with Some l => kind_before l k | None => True end.
Lemma kind_number_inj a b : kind_number a = kind_number b → a = b.
Proof. by destruct a, b. Qed.
(** The two tests of the loop accept exactly the kinds after the last. *)
Lemma order_tests seen last_kind k : seen_up_to seen last_kind → k ≠ Other →
  (default false (seen !! kind_number k) = false ∧
   match last_kind with Some l => (kind_number k <? kind_number l)%nat | None => false end = false)
  ↔ after last_kind k.
Proof.
  intros Hs Hk. destruct last_kind as [l|]; simpl in *; [|subst; destruct k; naive_solver].
  destruct Hs as [Hl Ha]. unfold kind_before in *. rewrite Nat.ltb_ge. split; [|intros; split; [auto|lia]].
  intros [Hd Hle]. destruct (decide (kind_number l = kind_number k)) as [E|]; [|lia]. rewrite <- E, Hl in Hd. done.
Qed.
Lemma seen_insert seen last_kind k : length seen = 3%nat → seen_up_to seen last_kind → k ≠ Other →
  after last_kind k → seen_up_to (<[kind_number k := true]> seen) (Some k).
Proof.
  intros Hlen Hs Hk Ha. split; [apply list_lookup_insert_eq; destruct k; simpl; lia || done|].
  intros k' Hk'. unfold kind_before in *. rewrite list_lookup_insert_ne by lia.
  destruct last_kind as [l|]; simpl in *; [apply Hs; unfold kind_before in *; lia|subst; by destruct k'].
Qed.
Lemma validate_system_order_spec t txns : ∀ seen last_kind,
  length seen = 3%nat → seen_up_to seen last_kind →
  validate_system_order t seen last_kind txns = None ↔
  Forall (after last_kind) (classify <$> txns) ∧ StronglySorted kind_before (classify <$> txns) ∧
  Forall (λ tx, classify tx ≠ Other ∧ (classify tx = Reward → tx_value tx <= maximum_block_reward t)) txns.
Proof.
  induction txns as [|tx txns IH]; intros seen last_kind Hlen Hseen;
    [split; [intros _; split_and!; constructor|done]|].
  cbn [validate_system_order fmap list_fmap]. rewrite !fail_if_None, !list.Forall_cons.
  rewrite bool_decide_eq_false.
  assert (Hsort : ∀ l, StronglySorted kind_before (classify tx :: l) ↔
    StronglySorted kind_before l ∧ Forall (kind_before (classify tx)) l).
  { intros l. split; [apply StronglySorted_inv|intros []; by constructor]. }
  rewrite Hsort.
  assert (Hreward : (bool_decide (classify tx = Reward) && (tx_value tx >? maximum_block_reward t)) = false ↔
    (classify tx = Reward → tx_value tx <= maximum_block_reward t)).
  { rewrite andb_false_iff, bool_decide_eq_false. destruct (Z.gtb_spec (tx_value tx) (maximum_block_reward t));
      destruct (decide (classify tx = Reward)); naive_solver lia. }
  rewrite Hreward. destruct (decide (classify tx = Other)) as [|Hk]; [naive_solver|].
  pose proof (order_tests seen last_kind (classify tx) Hseen Hk) as Ht.
  split.
  - intros (_ & H1 & H2 & Hr & Hv). assert (Ha : after last_kind (classify tx)) by tauto.
    rewrite (IH _ (Some (classify tx))) in Hv by (rewrite ?length_insert; eauto using seen_insert).
    destruct Hv as (Hf & Hs & Hall). split_and!; try done.
    eapply list.Forall_impl; [exact Hf|]. intros k. destruct last_kind as [l|]; simpl; [|done].
    simpl in Ha. unfold kind_before in *. lia.
  - intros ([Ha _] & [Hs Hf] & [_ Hr] & Hall). apply Ht in Ha as Hab. split_and!; [done|tauto|tauto|done|].
    apply (IH _ (Some (classify tx))); [by rewrite length_insert|eauto using seen_insert|done].
Qed.

(** C25: static_validate_monad_body accepts exactly the blocks in which the
    system transactions come first, each of a known kind (snapshot, change of
    epoch, reward), in this order and none twice, with no reward above the
    maximum; before MONAD_FOUR it accepts every block. *)
Theorem monad_body_accepted t senders txns :
  length senders = length txns →
  (static_validate_monad_body t senders txns = Ok None ↔
   (monad_rev_from t MONAD_FOUR = true → well_ordered t senders txns)).
Proof.
  intros Hlen. unfold static_validate_monad_body. rewrite bool_decide_true by done. simpl.
  destruct (monad_rev_from t MONAD_FOUR); simpl; [|naive_solver].
  destruct (system_prefix_spec senders) as [Hle Hpre].
  assert (Hiff : ∀ k, Forall (after None) (classify <$> take k txns)).
  { intros k. apply list.Forall_forall. done. }
  transitivity (fail_if (existsb (Z.eqb SYSTEM_SENDER) (drop (system_prefix senders) senders))
    SystemTransactionNotFirstInBlock
    (validate_system_order t [false; false; false] None (take (system_prefix senders) txns)) = None);
    [split; [by intros [= ->]|by intros ->]|].
  rewrite fail_if_None, existsb_none, validate_system_order_spec by done. split.
  - intros (Hd & _ & Hs & Ha) _. exists (system_prefix senders). done.
  - intros Hw. destruct (Hw eq_refl) as (k & Hk & H1 & H2 & H3 & H4).
    rewrite (system_prefix_unique senders k) by done. done.
Qed.
Definition syscall (selector value : Z) : Transaction :=
  mkTransaction (mkSignatureAndChain (mkSignature 1 1 0) (Some 143)) 0 0 0 value (Some STAKING_CA) legacy
    (be_bytes 4 selector) [] 0 0 [] [].
Lemma monad_body_accepted_witness :
  well_ordered (MonadTraits MONAD_FOUR) [SYSTEM_SENDER; SYSTEM_SENDER; 5]
    [syscall selector_SNAPSHOT 0; syscall selector_REWARD (25 * MON); syscall selector_SNAPSHOT 0] ∧
  ¬ well_ordered (MonadTraits MONAD_FOUR) [SYSTEM_SENDER; SYSTEM_SENDER]
    [syscall selector_REWARD MON; syscall selector_SNAPSHOT 0].
Proof.
  split.
  - by apply (monad_body_accepted (MonadTraits MONAD_FOUR) [SYSTEM_SENDER; SYSTEM_SENDER; 5]
      [syscall selector_SNAPSHOT 0; syscall selector_REWARD (25 * MON); syscall selector_SNAPSHOT 0]);
      [|vm_compute|].
  - intros Hw. pose proof (proj2 (monad_body_accepted (MonadTraits MONAD_FOUR) [SYSTEM_SENDER; SYSTEM_SENDER]
      [syscall selector_REWARD MON; syscall selector_SNAPSHOT 0] eq_refl) (λ _, Hw)) as H.
    vm_compute in H. done.
Defined.

(** ** What a validated block has *)
Lemma fork_field_None active present absent k :
  fork_field active present absent k = None ↔ (if active then absent else present) = false ∧ k = None.
Proof. destruct active; apply fail_if_None. Qed.
Lemma has_false {A} (o : option A) : has o = false ↔ o = None.
Proof. unfold has. rewrite bool_decide_eq_false. destruct o; naive_solver. Qed.
Lemma has_true {A} (o : option A) : negb (has o) = false ↔ is_Some o.
Proof. unfold has. rewrite negb_false_iff. apply bool_decide_eq_true. Qed.
(** a field is present exactly if its fork is active *)
Lemma fork_field_has {A} (o : option A) (rev fork : Z) :
  (if rev >=? fork then negb (has o) else has o) = false ↔ (is_Some o ↔ fork <= rev).
Proof.
  destruct (Z.geb_spec rev fork); [rewrite has_true; tauto|]. rewrite has_false, eq_None_not_Some.
  split; [intros ?; split; [done|lia]|intros Hi Hs; apply Hi in Hs; lia].
Qed.
Record header_valid (t : Traits) (h : BlockHeader) : Prop := {
  hv_gas_limit : 5000 <= hdr_gas_limit h < 2 ^ 63;
  hv_extra : len (extra_data h) <= 32;
  hv_base_fee : is_Some (base_fee_per_gas h) ↔ MONAD_ETH_LONDON <= evm_rev t;
  hv_withdrawals : is_Some (withdrawals_root h) ↔ MONAD_ETH_SHANGHAI <= evm_rev t;
  hv_blob : is_Some (blob_gas_used h) ↔ MONAD_ETH_CANCUN <= evm_rev t;
  hv_excess : is_Some (excess_blob_gas h) ↔ MONAD_ETH_CANCUN <= evm_rev t;
  hv_beacon : is_Some (parent_beacon_block_root h) ↔ MONAD_ETH_CANCUN <= evm_rev t;
  hv_requests : is_Some (requests_hash h) ↔ MONAD_ETH_PRAGUE <= evm_rev t;
  hv_merge : MONAD_ETH_PARIS <= evm_rev t →
    difficulty h = 0 ∧ hdr_nonce h = repeat 0 8 ∧ ommers_hash h = NULL_LIST_HASH
}.
Lemma static_validate_header_spec t h : static_validate_header t h = None ↔ header_valid t h.
Proof.
  unfold static_validate_header. rewrite !fail_if_None, !fork_field_None, !fork_field_has.
  assert (Hb : (if evm_rev t >=? MONAD_ETH_CANCUN
     then negb (has (blob_gas_used h)) || negb (has (excess_blob_gas h)) || negb (has (parent_beacon_block_root h))
     else has (blob_gas_used h) || has (excess_blob_gas h) || has (parent_beacon_block_root h)) = false ↔
    (is_Some (blob_gas_used h) ↔ MONAD_ETH_CANCUN <= evm_rev t) ∧
    (is_Some (excess_blob_gas h) ↔ MONAD_ETH_CANCUN <= evm_rev t) ∧
    (is_Some (parent_beacon_block_root h) ↔ MONAD_ETH_CANCUN <= evm_rev t)).
  { rewrite <- !fork_field_has. destruct (evm_rev t >=? MONAD_ETH_CANCUN); rewrite !orb_false_iff; tauto. }
  rewrite Hb.
  assert (Hm : (if evm_rev t >=? MONAD_ETH_PARIS then
      fail_if (negb (difficulty h =? 0)) PowBlockAfterMerge (
      fail_if (negb (bool_decide (hdr_nonce h = repeat 0 8))) InvalidNonce (
      fail_if (negb (ommers_hash h =? NULL_LIST_HASH)) WrongOmmersHash None)) else None) = None ↔
    (MONAD_ETH_PARIS <= evm_rev t →
     difficulty h = 0 ∧ hdr_nonce h = repeat 0 8 ∧ ommers_hash h = NULL_LIST_HASH)).
  { destruct (Z.geb_spec (evm_rev t) MONAD_ETH_PARIS); [|split; [lia|done]].
    rewrite !fail_if_None, !negb_false_iff, !Z.eqb_eq, bool_decide_eq_true. tauto. }
  rewrite Hm. rewrite Z.ltb_ge, !Z.gtb_ltb, !Z.ltb_ge. split.
  - intros (? & ? & ? & ? & ? & (? & ? & ?) & ? & ?). split; try done. lia.
  - intros []. split_and!; try done; lia.
Qed.

Section accepted.
Context (keccak256 : list Z → Z) `{Chain}.
Lemma check_then_Ok m k r : check_then m k = Ok r ↔
  (∃ e, m = Ok (Some e) ∧ r = Some e) ∨ (m = Ok None ∧ k = Ok r).
Proof. unfold check_then. destruct m as [[e|]| |]; simpl; naive_solver. Qed.
Lemma check_then_None m k : check_then m k = Ok None ↔ m = Ok None ∧ k = Ok None.
Proof. rewrite check_then_Ok. naive_solver. Qed.
Lemma check_then_total (m k : outcome (option BlockError)) :
  (∃ r, m = Ok r) → (m = Ok None → ∃ r, k = Ok r) → ∃ r, check_then m k = Ok r.
Proof. intros [[e|] ->] Hk; simpl; eauto. Qed.
(** An ommer has a header that is valid at the revision of its time. *)
Definition ommer_valid (ommer : BlockHeader) : Prop :=
  ∃ rev, get_revision (hdr_number ommer) (hdr_timestamp ommer) = Ok rev ∧ supported_revision rev = true ∧
    header_valid (EvmTraits rev) ommer.
Lemma ommer_headers_spec ommers : validate_ommer_headers ommers = Ok None ↔ Forall ommer_valid ommers.
Proof.
  induction ommers as [|ommer ommers IH]; [split; [constructor|done]|]. cbn [validate_ommer_headers]. rewrite list.Forall_cons, <- IH. unfold ommer_valid.
  destruct (get_revision _ _) as [rev| |]; simpl; [|naive_solver..]. destruct (supported_revision rev) eqn:Hs; simpl.
  2: { split; [done|]. intros [(rev' & [= <-] & Hs' & _) _]. congruence. }
  destruct (static_validate_header (EvmTraits rev) ommer) as [e|] eqn:Hh; cbn; split.
  - done.
  - intros [(rev' & [= <-] & _ & Hv) Hr]. apply static_validate_header_spec in Hv. congruence.
  - intros Hr. split; [|done]. exists rev. split_and!; [done|done|by apply static_validate_header_spec].
  - by intros [_ Hr].
Qed.
Record ommers_valid (t : Traits) (block : Block) : Prop := {
  ov_count : (length (blk_ommers block) <= 2)%nat;
  ov_different : NoDup (blk_ommers block);
  ov_paris : MONAD_ETH_PARIS <= evm_rev t → blk_ommers block = [];
  ov_hash : compute_ommers_hash keccak256 (blk_ommers block) = ommers_hash (blk_header block);
  ov_headers : Forall ommer_valid (blk_ommers block)
}.
(** at most two, of which the second is not the first *)
Lemma two_different (l : list BlockHeader) : (length l <= 2)%nat → NoDup l ↔ ¬ (length l = 2%nat ∧ l !! 0%nat = l !! 1%nat).
Proof.
  intros Hl. destruct l as [|a [|b [|]]]; cbn in *; [split; [naive_solver|constructor]|split; [naive_solver|intros _; apply NoDup_singleton]| |lia].
  rewrite list.NoDup_cons, list_elem_of_singleton. split; [naive_solver|]. intros Hne. split; [naive_solver|apply NoDup_singleton].
Qed.
Lemma ommers_spec t block :
  (MONAD_ETH_PARIS <= evm_rev t → ∃ r, static_validate_ommers keccak256 t block = Ok r) ∧
  (static_validate_ommers keccak256 t block = Ok None ↔ ommers_valid t block).
Proof.
  unfold static_validate_ommers.
  destruct (Z.eqb_spec (compute_ommers_hash keccak256 (blk_ommers block)) (ommers_hash (blk_header block))) as [Hh|Hh];
    simpl; [|split; [eauto|]; split; [done|by intros []]].
  destruct (Z.geb_spec (evm_rev t) MONAD_ETH_PARIS) as [Hp|Hp]; cbn [andb].
  - destruct (bool_decide_reflect (blk_ommers block = [])) as [E|E]; cbn [negb]; [|split; [eauto|]; split; [done|intros []; naive_solver]].
    rewrite E in *. cbn. split; [eauto|]. split; [|done]. intros _. split; rewrite E; [cbn; lia|constructor|done|done|constructor].
  - split; [lia|]. destruct (Nat.ltb_spec 2 (length (blk_ommers block))) as [Hl|Hl]; [split; [done|]; intros []; lia|].
    pose proof (two_different _ Hl) as Hd. case_bool_decide as Hb; [split; [done|]; intros []; tauto|]. rewrite ommer_headers_spec. split; [|by intros []].
    intros Ho. split; [done|tauto|lia|done|done].
Qed.
Definition blob_gas_valid (t : Traits) (block : Block) : Prop := MONAD_ETH_CANCUN <= evm_rev t →
  blob_gas_used (blk_header block) = Some (total_blob_gas (blk_transactions block)) ∧
  total_blob_gas (blk_transactions block) <= max_blob_gas_per_block (get_blob_schedule (hdr_timestamp (blk_header block))).
Lemma blob_spec t block : header_valid t (blk_header block) →
  (∃ r, static_validate_4844 t block = Ok r) ∧ (static_validate_4844 t block = Ok None ↔ blob_gas_valid t block).
Proof.
  intros Hh. unfold static_validate_4844, blob_gas_valid. destruct (Z.geb_spec (evm_rev t) MONAD_ETH_CANCUN); [|split; [eauto|]; split; [lia|done]].
  destruct (Z.gtb_spec (total_blob_gas (blk_transactions block))
    (max_blob_gas_per_block (get_blob_schedule (hdr_timestamp (blk_header block))))); [split; [eauto|]; split; [done|]; intros Hv; destruct Hv; [done|lia]|].
  destruct (proj2 (hv_blob _ _ Hh)) as [d ->]; [done|]. simpl.
  destruct (Z.eqb_spec d (total_blob_gas (blk_transactions block))); simpl; (split; [eauto|]); split; naive_solver.
Qed.

(** C26: validation of a block.  From Paris on it gives a verdict on every
    block: no assertion of it fails and no missing field is accessed.  It
    accepts exactly the blocks with a valid header (the fields of its fork
    and no others, within their bounds), the withdrawals its fork requires,
    at most two ommers, different from each other, each with a header that is
    valid at the revision of its own time, and none from Paris on, whose hash
    the header has, and from Cancun on the blob gas its transactions use,
    within the limit of the schedule. *)
Theorem block_validation t block :
  (MONAD_ETH_PARIS <= evm_rev t → ∃ r, static_validate_block keccak256 t block = Ok r) ∧
  (static_validate_block keccak256 t block = Ok None ↔
   header_valid t (blk_header block) ∧
   (is_Some (blk_withdrawals block) ↔ MONAD_ETH_SHANGHAI <= evm_rev t) ∧
   ommers_valid t block ∧ blob_gas_valid t block).
Proof.
  unfold static_validate_block, static_validate_body. destruct (ommers_spec t block) as [Ho1 Ho2]. split.
  - intros Hp. apply check_then_total; [eauto|]. intros [= Hh]. apply static_validate_header_spec in Hh.
    apply check_then_total; [eauto|]. intros _. apply check_then_total; [auto|]. intros _. by apply blob_spec.
  - rewrite !check_then_None, Ho2, <- (fork_field_has (blk_withdrawals block)), <- static_validate_header_spec. split.
    + intros ([= Hh] & [= Hw] & Ho & Hb). apply fork_field_None in Hw as [Hw _]. split_and!; [done|done|done|].
      apply static_validate_header_spec in Hh. by apply blob_spec.
    + intros (Hh & Hw & Ho & Hb). split; [by rewrite Hh|]. split; [|split; [done|]].
      * f_equal. by apply fork_field_None.
      * apply static_validate_header_spec in Hh. by apply blob_spec.
Qed.
End accepted.
(** A Cancun block with one blob transaction. *)
Definition blob_tx : Transaction :=
  mkTransaction (mkSignatureAndChain (mkSignature 1 1 0) (Some 1)) 0 1 21000 0 (Some 5) eip4844 [] [] 0 1 [1] [].
Definition cancun_block : Block := mkBlock
  (mkBlockHeader [] 0 NULL_LIST_HASH 0 0 0 0 0 20000000 30000000 0 1710338135 (repeat 0 8) [] 7
     (Some 1) (Some 0) (Some GAS_PER_BLOB) (Some 0) (Some 0) None None) [blob_tx] [] (Some []).
(** A London block with the same ommer twice. *)
Definition twin_header (hash : Z) : BlockHeader :=
  mkBlockHeader [] 0 hash 0 0 0 0 1 13000000 30000000 0 1600000000 (repeat 0 8) [] 7 (Some 1) None None None None None None.
Definition twin_block : Block := mkBlock (twin_header 7) [] [twin_header 0; twin_header 0] None.
Lemma block_validation_witness :
  header_valid (EvmTraits MONAD_ETH_CANCUN) (blk_header cancun_block) ∧
  blob_gas_used (blk_header cancun_block) = Some (total_blob_gas (blk_transactions cancun_block)) ∧
  ¬ ommers_valid (λ _, 7) (H:=EthereumMainnet) (EvmTraits MONAD_ETH_LONDON) twin_block.
Proof.
  destruct (@block_validation (λ _, 0) EthereumMainnet (EvmTraits MONAD_ETH_CANCUN) cancun_block) as [_ Hv].
  destruct (proj1 Hv) as (Hh & _ & _ & Hb); [vm_compute; done|]. split; [done|]. split; [apply Hb; vm_compute; done|].
  intros Ho. destruct (@block_validation (λ _, 7) EthereumMainnet (EvmTraits MONAD_ETH_LONDON) twin_block) as [_ Hv'].
  assert (Ht : static_validate_block (H:=EthereumMainnet) (λ _, 7) (EvmTraits MONAD_ETH_LONDON) twin_block = Ok None).
  { apply Hv'. split_and!; [apply static_validate_header_spec; vm_compute; done| |done|by intros ?].
    split; [by intros [? ?]|vm_compute; congruence]. }
  vm_compute in Ht. discriminate.
Defined.
