(* ===== verification/Requests.v ===== *)
(** * Requests of a block to the consensus layer

    src/category/execution/ethereum/process_requests.cpp: the deposits found
    in the logs of the receipts (EIP-6110), the system calls to the
    predeployed contracts of EIP-7002 and EIP-7251, and the hash of all
    requests (EIP-7685).  SHA-256 is a parameter. *)
From S2P Require Import Prelude Traits Account VersionStack AccountState BlockState State Methods Words Rlp RlpFacts Transaction Receipt.
From S2P Require Import ReserveBalance Precompiles Host ExecuteMessage Abi ValidateBlock.

(** ** Deposits *)
Definition reqres (A : Type) : Type := BlockError + A.
Definition req_bind {A B} (m : reqres A) (k : A → reqres B) : reqres B :=
  match m with inl e => inl e | inr a => k a end.
Notation "x ←! m ; k" := (req_bind m (λ x, k)) (at level 20, m at level 100, k at level 200, right associativity).

(** [check_offset]: the cursor after a word that must be [expected] *)
Definition check_offset (expected : Z) (cursor : list Z) : reqres (list Z) :=
  match abi_decode_fixed 32 cursor with
  | inl _ => inl InvalidDepositLog
  | inr (actual, cursor) => if actual =? expected then inr cursor else inl InvalidDepositLog
  end.
Definition consume_deposit_event_head (cursor : list Z) : reqres (list Z) :=
  cursor ←! check_offset 160 cursor;
  cursor ←! check_offset 256 cursor;
  cursor ←! check_offset 320 cursor;
  cursor ←! check_offset 384 cursor;
  check_offset 512 cursor.
Definition append_deposit_event_field (n : nat) (s : list Z * list Z) : reqres (list Z * list Z) :=
  match abi_decode_bytes_tail n s.2 with
  | inl _ => inl InvalidDepositLog
  | inr (field, cursor) => inr (s.1 ++ field, cursor)
  end.
Definition append_deposit_request (deposits cursor : list Z) : reqres (list Z) :=
  if negb (len cursor =? 576) then inl InvalidDepositLog
  else
    cursor ←! consume_deposit_event_head cursor;
    s ←! append_deposit_event_field 48 (deposits, cursor);
    s ←! append_deposit_event_field 32 s;
    s ←! append_deposit_event_field 8 s;
    s ←! append_deposit_event_field 96 s;
    s ←! append_deposit_event_field 8 s;
    inr s.1.

Definition DEPOSIT_CONTRACT_ADDRESS : Z := 0x00000000219ab540356cbb839cbe05303d7705fa.
Definition DEPOSIT_EVENT_SIGNATURE_HASH : Z := 0x649bbc62d0e31342afea4e5cd82d4049e7e1ee912fc0889aa790803be39038c5.
Definition is_deposit (log : Log) : bool :=
  (log_address log =? DEPOSIT_CONTRACT_ADDRESS)
  && match log_topics log with [] => false | topic :: _ => topic =? DEPOSIT_EVENT_SIGNATURE_HASH end.
Fixpoint deposits_of_logs (deposits : list Z) (logs : list Log) : reqres (list Z) :=
  match logs with
  | [] => inr deposits
  | log :: logs =>
      if negb (is_deposit log) then deposits_of_logs deposits logs
      else deposits ←! append_deposit_request deposits (log_data log); deposits_of_logs deposits logs
  end.
Fixpoint deposits_of_receipts (deposits : list Z) (receipts : list Receipt) : reqres (list Z) :=
  match receipts with
  | [] => inr deposits
  | receipt :: receipts =>
      deposits ←! deposits_of_logs deposits (rct_logs receipt); deposits_of_receipts deposits receipts
  end.
Definition extract_deposit_requests (receipts : list Receipt) : reqres (list Z) :=
  deposits_of_receipts [] receipts.

(** ** The hash of all requests *)
Record BlockRequest := mkBlockRequest { req_type : Z; req_data : list Z }.
Definition DEPOSIT_REQUEST_TYPE : Z := 0.
Definition WITHDRAWAL_REQUEST_TYPE : Z := 1.
Definition CONSOLIDATION_REQUEST_TYPE : Z := 2.
Definition WITHDRAWAL_REQUEST_ADDRESS : Z := 0x00000961ef480eb55e80d19ad83579a64c007002.
Definition CONSOLIDATION_REQUEST_ADDRESS : Z := 0x0000bbddc7ce488642fb579f8b00f3a590007251.
Definition SYSTEM_ADDRESS : Z := 0xfffffffffffffffffffffffffffffffffffffffe.

Section requests.
Context (sha256 : list Z → Z).
Definition compute_requests_hash (requests : list BlockRequest) : Z :=
  sha256 (concat ((λ req, be_bytes 32 (sha256 (req_type req :: req_data req)))
                  <$> filter (λ req, req_data req ≠ []) requests)).

(** *** System calls

    They invoke the virtual machine without a frame of their own. *)
Context (keccak256 : list Z → Z).
Context (precompile_execute : Z → list Z → evmc_status_code * list Z).
Context (StakingContract : MonadContract).
Context (vm_execute vm_execute_bytecode : evmc_message → list Z → vm_tree).
Context (host : HostContext) (bottom : prog Result).
Definition system_message (contract_address : Z) : evmc_message :=
  mkMessage EVMC_CALL 0 0 30000000 contract_address SYSTEM_ADDRESS [] 0 0 contract_address 0.
Definition system_call (contract_address : Z) : prog (reqres (list Z)) :=
  hash ← do_ (m_get_code_hash contract_address);
  if hash =? NULL_HASH then Ret (inl SystemCallMissingCode) else
  code ← do_ (m_read_code hash);
  _ ← do_ (m_access_account contract_address);
  let msg := system_message contract_address in
  result ← run_vm host
             (call_message keccak256 precompile_execute StakingContract vm_execute vm_execute_bytecode host
                bottom (Z.to_nat MAX_DEPTH))
             (depth msg) (vm_execute msg code);
  Ret (if succeeded result then inr (output_data result) else inl SystemCallFailed).

Definition process_requests (receipts : list Receipt) : prog (reqres Z) :=
  match extract_deposit_requests receipts with
  | inl e => Ret (inl e)
  | inr deposit_output =>
      withdrawal ← system_call WITHDRAWAL_REQUEST_ADDRESS;
      match withdrawal with
      | inl e => Ret (inl e)
      | inr withdrawal_output =>
          consolidation ← system_call CONSOLIDATION_REQUEST_ADDRESS;
          Ret (consolidation_output ←! consolidation;
               inr (compute_requests_hash
                      [mkBlockRequest DEPOSIT_REQUEST_TYPE deposit_output;
                       mkBlockRequest WITHDRAWAL_REQUEST_TYPE withdrawal_output;
                       mkBlockRequest CONSOLIDATION_REQUEST_TYPE consolidation_output]))
      end
  end.
End requests.

(** ** Which logs are deposits *)
Record Deposit := mkDeposit {
  dep_pubkey : list Z; dep_credentials : list Z; dep_amount : list Z; dep_signature : list Z; dep_index : list Z
}.
Definition word (v : Z) : list Z := be_bytes 32 v.
(** The data of the event DepositEvent(bytes,bytes,bytes,bytes,bytes): five
    offsets, then each field with its length in front and padding behind. *)
Definition deposit_layout (d : Deposit) (p1 p2 p3 : list Z) : list Z :=
  word 160 ++ word 256 ++ word 320 ++ word 384 ++ word 512 ++
  word 48 ++ dep_pubkey d ++ p1 ++ word 32 ++ dep_credentials d ++ word 8 ++ dep_amount d ++ p2 ++
  word 96 ++ dep_signature d ++ word 8 ++ dep_index d ++ p3.
Definition sizes_ok (d : Deposit) : Prop :=
  length (dep_pubkey d) = 48%nat ∧ length (dep_credentials d) = 32%nat ∧ length (dep_amount d) = 8%nat ∧
  length (dep_signature d) = 96%nat ∧ length (dep_index d) = 8%nat.
Definition deposit_log (data : list Z) (d : Deposit) : Prop :=
  sizes_ok d ∧ ∃ p1 p2 p3, length p1 = 16%nat ∧ length p2 = 24%nat ∧ length p3 = 24%nat ∧
    data = deposit_layout d p1 p2 p3.
Definition deposit_bytes (d : Deposit) : list Z :=
  dep_pubkey d ++ dep_credentials d ++ dep_amount d ++ dep_signature d ++ dep_index d.

Lemma word_length v : length (word v) = 32%nat.
Proof. apply be_bytes_length. Qed.
(** A word read is the word written in front of the cursor. *)
Lemma decode_word c v c' : bytes_ok c → 0 <= v < 2 ^ 256 →
  abi_decode_fixed 32 c = inr (v, c') ↔ c = word v ++ c'.
Proof.
  intros Hc Hv. unfold abi_decode_fixed. change (drop (32 - 32) c) with c. split.
  - destruct (Z.ltb_spec (len c) 32); [done|]. intros [= <- <-]. unfold word.
    assert (Hl : length (take 32 c) = 32%nat) by (rewrite length_take; unfold len in *; lia).
    rewrite <- Hl at 1. rewrite be_bytes_be_val by (by apply Forall_take). by rewrite take_drop.
  - intros ->. unfold len. rewrite length_app, word_length.
    rewrite (proj2 (Z.ltb_ge _ _)) by lia. rewrite take_app_length' by (by rewrite word_length). rewrite drop_app_length' by (by rewrite word_length).
    unfold word. rewrite be_val_be_bytes, Z.mod_small; [done|]. exact Hv.
Qed.
Lemma decode_word_bytes c v c' : bytes_ok c → abi_decode_fixed 32 c = inr (v, c') → bytes_ok c' ∧ 0 <= v < 2 ^ 256.
Proof.
  intros Hc. unfold abi_decode_fixed. change (drop (32 - 32) c) with c.
  destruct (Z.ltb_spec (len c) 32); [done|]. intros [= <- <-]. split; [by apply Forall_drop|].
  pose proof (be_val_bound (take 32 c) (Forall_take _ _ _ Hc)) as Hb. unfold len in *. rewrite length_take in Hb.
  replace (Z.of_nat (32 `min` length c)) with 32 in Hb by lia. exact Hb.
Qed.
Lemma check_offset_spec e c c' : bytes_ok c → 0 <= e < 2 ^ 256 → check_offset e c = inr c' ↔ c = word e ++ c'.
Proof.
  intros Hc He. rewrite <- (decode_word c e c') by done. unfold check_offset.
  destruct (abi_decode_fixed 32 c) as [|[v r]]; [naive_solver|]. destruct (Z.eqb_spec v e); naive_solver.
Qed.
Lemma field_spec (n : nat) s c s' c' : bytes_ok c → Z.of_nat n < 2 ^ 256 →
  append_deposit_event_field n (s, c) = inr (s', c') ↔
  ∃ f p, length f = n ∧ length p = (round_up n 32 - n)%nat ∧ c = word (Z.of_nat n) ++ f ++ p ++ c' ∧ s' = s ++ f.
Proof.
  intros Hc Hn. unfold append_deposit_event_field, abi_decode_bytes_tail. simpl fst. simpl snd.
  assert (Hru : (n <= round_up n 32)%nat).
  { unfold round_up. pose proof (Nat.div_mod_eq (n + 32 - 1) 32). pose proof (Nat.mod_upper_bound (n + 32 - 1) 32). lia. }
  split.
  - destruct (abi_decode_fixed 32 c) as [|[v r]] eqn:E; [done|].
    destruct (decode_word_bytes _ _ _ Hc E) as [Hr Hv]. apply decode_word in E; [|done..].
    destruct (Z.eqb_spec v (Z.of_nat n)) as [->|]; [|done]. simpl.
    destruct (Z.ltb_spec (len r) (Z.of_nat (round_up n 32))); [done|]. intros [= <- <-]. unfold len in *.
    exists (take n r), (take (round_up n 32 - n) (drop n r)). rewrite !length_take, length_drop.
    split_and!; [lia|lia| |done]. rewrite E. f_equal.
    replace (drop (round_up n 32) r) with (drop (round_up n 32 - n) (drop n r)) by (rewrite drop_drop; f_equal; lia).
    by rewrite !take_drop.
  - intros (f & p & Hf & Hp & E & ->). apply decode_word in E; [|done|lia]. rewrite E. simpl.
    rewrite Z.eqb_refl. simpl. unfold len. rewrite !length_app, (proj2 (Z.ltb_ge _ _)) by lia.
    rewrite take_app_length' by done. rewrite app_assoc, drop_app_length' by (rewrite length_app; lia). done.
Qed.
Lemma req_bind_inr {A B} (m : reqres A) (k : A → reqres B) b :
  req_bind m k = inr b ↔ ∃ a, m = inr a ∧ k a = inr b.
Proof. destruct m; simpl; naive_solver. Qed.
(** Steps through the cursor, from a call that returned. *)
Ltac consume H :=
  lazymatch type of H with
  | req_bind _ _ = inr _ => apply req_bind_inr in H as (? & ?Hstep & H)
  end.
Lemma bytes_ok_app_r l1 l2 : bytes_ok (l1 ++ l2) → bytes_ok l2.
Proof. intros [_ H]%list.Forall_app. done. Qed.
Lemma field_step (n : nat) s c (k : list Z * list Z → reqres (list Z)) out : bytes_ok c → Z.of_nat n < 2 ^ 256 →
  req_bind (append_deposit_event_field n (s, c)) k = inr out →
  ∃ f p c', length f = n ∧ length p = (round_up n 32 - n)%nat ∧ c = word (Z.of_nat n) ++ f ++ p ++ c' ∧
    bytes_ok c' ∧ k (s ++ f, c') = inr out.
Proof.
  intros Hc Hn ([s' c'] & Hf & Hk)%req_bind_inr. apply field_spec in Hf as (f & p & ? & ? & -> & ->); [|done..].
  exists f, p, c'. split_and!; try done. by do 3 apply bytes_ok_app_r in Hc.
Qed.
Lemma append_request_sound deposits c out : bytes_ok c →
  append_deposit_request deposits c = inr out → ∃ d, deposit_log c d ∧ out = deposits ++ deposit_bytes d.
Proof.
  intros Hc. unfold append_deposit_request, consume_deposit_event_head.
  destruct (Z.eqb_spec (len c) 576) as [Hlen|]; [|done]. simpl negb. cbv iota. intros H.
  consume H. repeat consume Hstep.
  repeat match goal with
  | Hs : check_offset _ ?c0 = inr ?c1, Hb : bytes_ok ?c0 |- _ =>
      apply check_offset_spec in Hs; [|done|lia]; subst c0;
      assert (bytes_ok c1) by (eapply bytes_ok_app_r; eassumption)
  end.
  apply field_step in H as (pk & p1 & c1 & Hpk & Hp1 & -> & Hc1 & H); [|done|lia].
  apply field_step in H as (cr & p2 & c2 & Hcr & Hp2 & -> & Hc2 & H); [|done|lia].
  apply field_step in H as (am & p3 & c3 & Ham & Hp3 & -> & Hc3 & H); [|done|lia].
  apply field_step in H as (sg & p4 & c4 & Hsg & Hp4 & -> & Hc4 & H); [|done|lia].
  apply field_step in H as (ix & p5 & c5 & Hix & Hp5 & -> & Hc5 & H); [|done|lia].
  injection H as <-. destruct p2; [|done]. destruct p4; [|done].
  assert (c5 = []) as ->.
  { unfold len in Hlen. rewrite !length_app, !word_length, Hpk, Hp1, Hcr, Ham, Hp3, Hsg, Hix, Hp5 in Hlen.
    apply length_zero_iff_nil. change (round_up 48 32 - 48)%nat with 16%nat in Hlen.
    change (round_up 8 32 - 8)%nat with 24%nat in Hlen. simpl length in Hlen. lia. }
  exists (mkDeposit pk cr am sg ix). split; [|unfold deposit_bytes; simpl; by rewrite <- !app_assoc].
  split; [done|]. exists p1, p3, p5. split_and!; [done..|]. unfold deposit_layout. simpl. by rewrite app_nil_r.
Qed.
Lemma offset_step e r (k : list Z → reqres (list Z)) : bytes_ok (word e ++ r) → 0 <= e < 2 ^ 256 →
  req_bind (check_offset e (word e ++ r)) k = k r ∧ bytes_ok r.
Proof.
  intros Hb He. split; [|by eapply bytes_ok_app_r].
  assert (E : check_offset e (word e ++ r) = inr r) by (by apply check_offset_spec). by rewrite E.
Qed.
Lemma field_read (n : nat) s f p r (k : list Z * list Z → reqres (list Z)) :
  bytes_ok (word (Z.of_nat n) ++ f ++ p ++ r) → Z.of_nat n < 2 ^ 256 → length f = n →
  length p = (round_up n 32 - n)%nat →
  req_bind (append_deposit_event_field n (s, word (Z.of_nat n) ++ f ++ p ++ r)) k = k (s ++ f, r) ∧ bytes_ok r.
Proof.
  intros Hb Hn Hf Hp. split; [|by do 3 apply bytes_ok_app_r in Hb].
  assert (E : append_deposit_event_field n (s, word (Z.of_nat n) ++ f ++ p ++ r) = inr (s ++ f, r)).
  { apply field_spec; [done..|]. by exists f, p. }
  by rewrite E.
Qed.
Lemma append_request_complete deposits c d : bytes_ok c → deposit_log c d →
  append_deposit_request deposits c = inr (deposits ++ deposit_bytes d).
Proof.
  intros Hc ((Hpk & Hcr & Ham & Hsg & Hix) & p1 & p2 & p3 & H1 & H2 & H3 & E). unfold append_deposit_request.
  assert (Hlen : len c = 576).
  { rewrite E. unfold deposit_layout, len. rewrite !length_app, !word_length. lia. }
  rewrite Hlen. simpl negb. cbv iota. clear Hlen.
  assert (E' : c = word 160 ++ word 256 ++ word 320 ++ word 384 ++ word 512 ++
    word (Z.of_nat 48) ++ dep_pubkey d ++ p1 ++ word (Z.of_nat 32) ++ dep_credentials d ++ [] ++
    word (Z.of_nat 8) ++ dep_amount d ++ p2 ++ word (Z.of_nat 96) ++ dep_signature d ++ [] ++
    word (Z.of_nat 8) ++ dep_index d ++ p3 ++ []).
  { rewrite E. unfold deposit_layout. rewrite !app_nil_r. done. }
  clear E. subst c. unfold consume_deposit_event_head.
  assert (Hassoc : ∀ (m : reqres (list Z)) (f g : list Z → reqres (list Z)),
    req_bind (req_bind m f) g = req_bind m (λ x, req_bind (f x) g)) by (by intros []).
  rewrite !Hassoc.
  do 4 (edestruct offset_step as [-> Hc']; [exact Hc|lia|]; clear Hc; rename Hc' into Hc; rewrite ?Hassoc).
  edestruct offset_step as [-> Hc']; [exact Hc|lia|]. clear Hc. rename Hc' into Hc.
  do 5 (edestruct field_read as [-> Hc']; [exact Hc|lia|done|done|]; clear Hc; rename Hc' into Hc).
  unfold deposit_bytes. simpl. by rewrite <- !app_assoc.
Qed.
Definition deposit_logs (receipts : list Receipt) : list Log :=
  filter (λ log, is_deposit log = true) (concat (rct_logs <$> receipts)).
Lemma deposits_of_logs_spec logs deposits out : Forall (λ log, bytes_ok (log_data log)) logs →
  deposits_of_logs deposits logs = inr out ↔
  ∃ ds, Forall2 (λ log d, deposit_log (log_data log) d) (filter (λ log, is_deposit log = true) logs) ds ∧
    out = deposits ++ concat (deposit_bytes <$> ds).
Proof.
  intros Hb. revert deposits. induction Hb as [|log logs Hl _ IH]; intros deposits; cbn [deposits_of_logs].
  { split; [intros [= <-]; exists []; by rewrite app_nil_r|intros (ds & Hds%Forall2_nil_inv_l & ->)].
    subst ds. by rewrite app_nil_r. }
  rewrite filter_cons. destruct (is_deposit log) eqn:Ed; simpl negb; cbv iota.
  - rewrite decide_True by done. rewrite req_bind_inr. split.
    + intros (deposits' & Ha & Hr). apply append_request_sound in Ha as (d & Hd & ->); [|done].
      apply IH in Hr as (ds & Hds & ->). exists (d :: ds). split; [by constructor|]. simpl. by rewrite <- app_assoc.
    + intros (ds & Hds & ->). inversion Hds as [|? d ? ds' Hd Hds']; subst.
      exists (deposits ++ deposit_bytes d). split; [by apply append_request_complete|].
      apply IH. exists ds'. split; [done|]. simpl. by rewrite <- app_assoc.
  - rewrite decide_False by congruence. apply IH.
Qed.
Lemma deposits_of_receipts_logs receipts : ∀ deposits,
  deposits_of_receipts deposits receipts = deposits_of_logs deposits (concat (rct_logs <$> receipts)).
Proof.
  assert (Happ : ∀ l1 l2 deposits, deposits_of_logs deposits (l1 ++ l2) =
    req_bind (deposits_of_logs deposits l1) (λ deposits, deposits_of_logs deposits l2)).
  { induction l1 as [|x l1 IH]; intros l2 deposits; [done|]. cbn [app deposits_of_logs].
    destruct (negb (is_deposit x)); [apply IH|]. destruct (append_deposit_request deposits (log_data x)); [done|]. apply IH. }
  induction receipts as [|r receipts IH]; intros deposits; [done|]. cbn [deposits_of_receipts fmap list_fmap concat].
  rewrite Happ. destruct (deposits_of_logs deposits (rct_logs r)); [done|]. apply IH.
Qed.
(** What the deposit contract emits. *)
Definition encode_deposit (d : Deposit) : list Z :=
  encode_final (add_bytes (dep_index d) (add_bytes (dep_signature d) (add_bytes (dep_amount d)
    (add_bytes (dep_credentials d) (add_bytes (dep_pubkey d) encoder))))).
Lemma encode_deposit_log d : sizes_ok d → deposit_log (encode_deposit d) d.
Proof.
  intros Hs. split; [done|]. destruct d as [pk cr am sg ix]. destruct Hs as (H1 & H2 & H3 & H4 & H5). simpl in *.
  exists (repeat 0 16), (repeat 0 24), (repeat 0 24). split_and!; try (by rewrite repeat_length).
  unfold encode_deposit, add_bytes, add_dynamic, abi_encode_bytes, len.
  cbn [encoder head_ tail_ unresolved_offsets_ app dep_pubkey dep_credentials dep_amount dep_signature dep_index].
  rewrite !length_app, !repeat_length, !abi_encode_length, H1, H2, H3, H4, H5 by lia.
  unfold encode_final. cbn [head_ tail_ unresolved_offsets_]. unfold deposit_layout. simpl dep_pubkey. simpl dep_credentials.
  simpl dep_amount. simpl dep_signature. simpl dep_index.
  assert (Hhead : ∀ x y : list Z, x = word 160 ++ word 256 ++ word 320 ++ word 384 ++ word 512 → x ++ y =
    word 160 ++ word 256 ++ word 320 ++ word 384 ++ word 512 ++ y) by (intros x y ->; by rewrite <- !app_assoc).
  rewrite Hhead by (vm_compute; reflexivity). do 5 f_equal.
  change (round_up 48 32 - 48)%nat with 16%nat. change (round_up 32 32 - 32)%nat with 0%nat.
  change (round_up 8 32 - 8)%nat with 24%nat. change (round_up 96 32 - 96)%nat with 0%nat.
  assert (Hw : ∀ v, abi_encode_uint 32 v = word v) by done. rewrite !Hw. cbn [repeat]. rewrite !app_nil_r, <- !app_assoc. done.
Qed.

(** C27: the deposits of a block.  extract_deposit_requests succeeds exactly
    if the data of every log of the deposit contract's event is laid out as
    the event's five byte strings (48, 32, 8, 96 and 8 bytes, at the offsets
    of the standard encoding), and returns their concatenation in the order
    of the logs; in particular it reads back what the ABI encoder writes. *)
Theorem deposit_requests receipts :
  Forall (λ log, bytes_ok (log_data log)) (concat (rct_logs <$> receipts)) →
  (∀ out, extract_deposit_requests receipts = inr out ↔
     ∃ ds, Forall2 (λ log d, deposit_log (log_data log) d) (deposit_logs receipts) ds ∧
       out = concat (deposit_bytes <$> ds)) ∧
  (∀ ds, Forall sizes_ok ds → log_data <$> deposit_logs receipts = encode_deposit <$> ds →
     extract_deposit_requests receipts = inr (concat (deposit_bytes <$> ds))).
Proof.
  intros Hb. unfold extract_deposit_requests. rewrite deposits_of_receipts_logs.
  split; [intros out; by apply deposits_of_logs_spec|]. intros ds Hs E.
  apply deposits_of_logs_spec; [done|]. exists ds. split; [|done]. fold (deposit_logs receipts).
  revert ds Hs E. generalize (deposit_logs receipts). induction l as [|log l IH]; intros [|d ds] Hs E; try done.
  simpl in E. injection E as E1 E2. inversion Hs; subst. constructor; [rewrite E1; by apply encode_deposit_log|].
  by apply IH.
Qed.
Definition demo_deposit : Deposit :=
  mkDeposit (repeat 1 48) (repeat 2 32) (repeat 3 8) (repeat 4 96) (repeat 5 8).
Definition demo_receipt : Receipt :=
  mkReceipt empty_bloom 1 21000 legacy
    [mkLog [] [] 7; mkLog (encode_deposit demo_deposit) [DEPOSIT_EVENT_SIGNATURE_HASH] DEPOSIT_CONTRACT_ADDRESS].
Lemma deposit_requests_witness :
  extract_deposit_requests [demo_receipt] = inr (concat (deposit_bytes <$> [demo_deposit])).
Proof.
  apply (deposit_requests [demo_receipt]).
  - vm_compute. repeat constructor; done.
  - repeat constructor.
  - vm_compute. reflexivity.
Defined.
