(* ===== verification/ExecuteBlock.v ===== *)
(** * Execution of a block

    execute_block.cpp, execute_block_header.cpp and block_reward.cpp under
    src/category/execution/ethereum, with
    src/category/execution/monad/execute_system_transaction.cpp and
    dispatch_transaction.cpp.  The prologue and the epilogue of a block are
    programs over the methods of [State] that are merged at once.  The
    transactions run concurrently: each makes a first attempt while the
    others read and merge, waits for the one before it, and is then merged or
    run again.  A transaction of either kind is a [Job]; BlockSequential.v has
    the interleaving. *)
From S2P Require Import Prelude Traits Account VersionStack AccountState BlockState State Methods Fixtures Frames Merge Speculation.
From S2P Require Import Words CheckedMath Rlp Transaction Receipt RlpTransaction ReserveBalance ValidateTransaction Precompiles Host ExecuteMessage.
From S2P Require Import Staking StakingCalls ExecuteTransaction ValidateBlock Requests.

(** ** Rewards and withdrawals *)
Definition GWEI : Z := 1000000000.
Definition process_withdrawal (withdrawals : option (list Withdrawal)) : prog () :=
  match withdrawals with
  | Some ws => pfor ws (λ w, do_ (m_add_to_balance (wd_recipient w) (u256 (wd_amount w * GWEI))))
  | None => Ret ()
  end.

Definition block_reward (t : Traits) : Z := if evm_rev t <? MONAD_ETH_PARIS then 2000000000000000000 else 0.
Definition additional_ommer_reward (t : Traits) : Z := Z.shiftr (block_reward t) 5.
Definition calculate_block_reward (reward ommer_reward : Z) (ommers_size : Z) : prog Z :=
  passert ((ommers_size =? 0) || (ommer_reward <=? (2 ^ 256 - 1 - reward) / ommers_size));;
  Ret (u256 (reward + u256 (ommer_reward * ommers_size))).
Definition calculate_ommer_reward (reward header_number ommer_number : Z) : Z :=
  let subtrahend := u256 (u64 (header_number - ommer_number) * reward) / 8 in
  u256 (reward - subtrahend).
Definition apply_block_reward (t : Traits) (block : Block) : prog () :=
  miner_reward ← calculate_block_reward (block_reward t) (additional_ommer_reward t) (size (blk_ommers block));
  (if negb (miner_reward =? 0) then do_ (m_add_to_balance (beneficiary (blk_header block)) miner_reward)
   else Ret ());;
  pfor (blk_ommers block) (λ ommer,
    let ommer_reward :=
      calculate_ommer_reward (block_reward t) (hdr_number (blk_header block)) (hdr_number ommer) in
    if negb (ommer_reward =? 0) then do_ (m_add_to_balance (beneficiary ommer) ommer_reward) else Ret ()).

(** ** The prologue *)
Definition BEACON_ROOTS_ADDRESS : Z := 0x000F3df6D732807Ef1319fB7B8bB8522d0Beac02.
Definition HISTORY_BUFFER_LENGTH : Z := 8191.
Definition set_beacon_root (header : BlockHeader) : prog () :=
  exists_ ← do_ (m_account_exists BEACON_ROOTS_ADDRESS);
  if (exists_ : bool) then
    let timestamp := hdr_timestamp header in
    let k1 := timestamp mod HISTORY_BUFFER_LENGTH in
    let k2 := timestamp mod HISTORY_BUFFER_LENGTH + HISTORY_BUFFER_LENGTH in
    _ ← do_ (m_set_storage BEACON_ROOTS_ADDRESS k1 timestamp);
    root ← plift (ovalue (parent_beacon_block_root header));
    _ ← do_ (m_set_storage BEACON_ROOTS_ADDRESS k2 root);
    Ret ()
  else Ret ().
Definition block_header_program (t : Traits) (header : BlockHeader) : prog () :=
  deploy_block_hash_history_contract t;;
  set_block_hash_history t header;;
  (if evm_rev t >=? MONAD_ETH_CANCUN then set_beacon_root header else Ret ());;
  match t with MonadTraits _ => execute_block_prelude t | EvmTraits _ => Ret () end.

(** ** The epilogue *)
Section epilogue.
Context (sha256 keccak256 : list Z → Z).
Context (precompile_execute : Z → list Z → evmc_status_code * list Z).
Context (StakingContract : MonadContract).
Context (vm_execute vm_execute_bytecode : evmc_message → list Z → vm_tree).
Context (bottom : prog Result) (system_host : HostContext).
Abbreviation t := (host_traits system_host).
Definition block_epilogue_program (block : Block) (receipts : list Receipt) : prog (option BlockError) :=
  (if evm_rev t >=? MONAD_ETH_SHANGHAI then process_withdrawal (blk_withdrawals block) else Ret ());;
  e ←
    (if eip_7685_active t then
       passert_throw (has (requests_hash (blk_header block)))
         "block header must have requests hash when EIP-7685 is active";;
       r ← process_requests sha256 keccak256 precompile_execute StakingContract vm_execute
             vm_execute_bytecode system_host bottom receipts;
       match r with
       | inl e => Ret (Some e)
       | inr computed =>
           Ret (if negb (bool_decide (Some computed = requests_hash (blk_header block)))
                then Some InvalidRequestsHash else None)
       end
     else Ret None);
  match e with
  | Some e => Ret (Some e)
  | None =>
      apply_block_reward t block;;
      (if mip_11_active t then distribute_priority_fees else Ret ());;
      Ret None
  end.
End epilogue.
(** The host of the system calls of EIP-7002 and EIP-7251. *)
Definition empty_tx : Transaction :=
  mkTransaction (mkSignatureAndChain (mkSignature 0 0 0) None) 0 0 0 0 None legacy [] [] 0 0 [] [].
Definition make_system_host (t : Traits) (header : BlockHeader) (ctx : ChainContext)
    (buffer : Z → outcome Z) (chain_id : Z) : HostContext :=
  mkHostContext t empty_tx (base_fee_per_gas header) 0 ctx false buffer chain_id.

(** ** System transactions *)
(** What is wrong with a transaction, of either kind. *)
Inductive DispatchError :=
| UserError (e : ExecutionError)
| SystemStaticError (e : SystemTransactionError)
| SystemStaticTxError (e : TransactionError)
| SystemError (e : SystemFailure).
Definition with_gas_limit (g : Z) (tx : Transaction) : Transaction :=
  mkTransaction (tx_sc tx) (tx_nonce tx) (max_fee_per_gas tx) g (tx_value tx) (tx_to tx) (tx_type tx)
    (tx_data tx) (access_list tx) (max_priority_fee_per_gas tx) (max_fee_per_blob_gas tx)
    (blob_versioned_hashes tx) (authorization_list tx).

Section block.
Context {VC : Type} `{VarcodeCache VC}.
Context (db_ : Db) (secondary_db_ : option Db).
#[local] Instance block_access_block : BlockAccess (BlockState VC) := block_access db_ secondary_db_.
Context (sha256 keccak256 : list Z → Z).
Context (precompile_execute : Z → list Z → evmc_status_code * list Z).
Context (StakingContract : MonadContract).
Context (vm_execute vm_execute_bytecode : evmc_message → list Z → vm_tree).
Context (bottom : prog Result).

(** A state program on a new state whose effects are merged at once, as in
    execute_block_header and at the end of execute_block; with [Some e] the
    block is invalid and nothing is merged. *)
Definition merge_at_once {E} (inc : Incarnation) (m : M (State * BlockState VC) (option E))
    : M (BlockState VC) (option E) := λ bs,
  match m (make_state inc false, bs) with
  | Ok (Some e, (_, bs')) => Ok (Some e, bs')
  | Ok (None, (st, bs')) =>
      match can_merge (st, bs') with
      | Ok (b, (st', bs'')) =>
          (massert_throw b "block state cannot be merged";; merge st';; mret None) bs''
      | Abort => Abort
      | Throw s => Throw s
      end
  | Abort => Abort
  | Throw s => Throw s
  end.
Definition execute_block_header (t : Traits) (header : BlockHeader) : M (BlockState VC) (option BlockError) :=
  merge_at_once (make_incarnation (hdr_number header) 0)
    (exec keccak256 (block_header_program t header);; mret None).
Definition execute_block_epilogue (system_host : HostContext) (block : Block) (receipts : list Receipt)
    : M (BlockState VC) (option BlockError) :=
  merge_at_once (make_incarnation (hdr_number (blk_header block)) LAST_TX)
    (e ← exec keccak256 (block_epilogue_program sha256 keccak256 precompile_execute StakingContract
           vm_execute vm_execute_bytecode bottom system_host block receipts);
     match e with
     | Some e => mret (Some e)
     | None => destruct_touched_dead;; mret None
     end).

(** ** A transaction of either kind

    [operator()] of ExecuteTransaction and of ExecuteSystemTransaction have
    one form: checks that need no state, a program that is run on a new
    state, and a final step. *)
Record Job := mkJob {
  job_R : Type;
  job_S : Type;
  job_incarnation : Incarnation;
  job_sender : Z;
  job_nonce : Z;
  (** the static checks *)
  job_static : outcome (option DispatchError);
  (** what is run concurrently *)
  job_program : prog job_R;
  (** an error to return, or what the final step is about *)
  job_check : job_R → DispatchError + job_S;
  (** the assertion on the second [can_merge] *)
  job_assert : ∀ {W}, bool → M W ();
  job_final : ∀ {B} `{BlockAccess B}, job_S → M (State * B) Receipt
}.
Definition job_finish (j : Job) (r : job_R j) (st : State) : M (BlockState VC) (DispatchError + Receipt) :=
  match job_check j r with
  | inl e => mret (inl e)
  | inr s => λ bs,
      match job_final j s (st, bs) with
      | Ok (receipt, (st', bs')) => (merge st';; mret (inr receipt)) bs'
      | Abort => Abort
      | Throw s => Throw s
      end
  end.
Definition job_retry (j : Job) : M (BlockState VC) (DispatchError + Receipt) := λ bs,
  match exec keccak256 (job_program j) (make_state (job_incarnation j) false, bs) with
  | Ok (r, (st, bs')) =>
      match can_merge (st, bs') with
      | Ok (b, (st', bs'')) => (job_assert j b;; job_finish j r st') bs''
      | Abort => Abort
      | Throw s => Throw s
      end
  | Abort => Abort
  | Throw s => Throw s
  end.
Definition job_run (j : Job) (first : job_R j * State) : M (BlockState VC) (DispatchError + Receipt) := λ bs,
  match job_static j with
  | Ok (Some e) => Ok (inl e, bs)
  | Ok None =>
      match can_merge (first.2, bs) with
      | Ok (true, (st, bs')) => job_finish j first.1 st bs'
      | Ok (false, (_, bs')) => job_retry j bs'
      | Abort => Abort
      | Throw s => Throw s
      end
  | Abort => Abort
  | Throw s => Throw s
  end.

Definition omap_error {E F} (f : E → F) (m : outcome (option E)) : outcome (option F) :=
  match m with Ok e => Ok (f <$> e) | Abort => Abort | Throw s => Throw s end.

(** ExecuteTransaction *)
Definition user_job (tc : TransactionContext) : Job := {|
  job_R := ValidationError + Result;
  job_S := Result;
  job_incarnation := tx_incarnation tc;
  job_sender := tc_sender tc;
  job_nonce := tx_nonce (tc_tx tc);
  job_static := omap_error (UserError ∘ StaticError)
    (static_validate_transaction (host_traits (tc_host tc)) (tc_tx tc) (base_fee_per_gas (tc_header tc))
       (excess_blob_gas (tc_header tc)) (host_chain_id (tc_host tc)) (tc_blob_schedule tc));
  job_program := execute_impl2 keccak256 precompile_execute StakingContract vm_execute vm_execute_bytecode
    bottom tc;
  job_check := λ r, match r with inl e => inl (UserError (StateError e)) | inr r => inr r end;
  job_assert := λ W b, massert_throw b "block state cannot be merged";
  job_final := λ B access r, execute_final keccak256 tc r
|}.

(** ExecuteSystemTransaction *)
Definition system_execute_final {B} `{BlockAccess B} (tx : Transaction) : M (State * B) Receipt :=
  ls ← logs;
  mret (fold_left (add_log keccak256) ls (mkReceipt empty_bloom 1 0 (tx_type tx) [])).
Definition system_static (tc : TransactionContext) : outcome (option DispatchError) :=
  match static_validate_system_transaction (host_traits (tc_host tc)) (tc_tx tc) (tc_sender tc) with
  | Some e => Ok (Some (SystemStaticError e))
  | None =>
      omap_error SystemStaticTxError
        (static_validate_transaction (host_traits (tc_host tc)) (with_gas_limit 2000000 (tc_tx tc)) None None
           (host_chain_id (tc_host tc)) (tc_blob_schedule tc))
  end.
Definition system_job (tc : TransactionContext) : Job := {|
  job_R := option SystemFailure;
  job_S := ();
  job_incarnation := tx_incarnation tc;
  job_sender := tc_sender tc;
  job_nonce := tx_nonce (tc_tx tc);
  job_static := system_static tc;
  job_program := execute_system (host_traits (tc_host tc)) (tc_tx tc) (tc_sender tc);
  job_check := λ r, match r with Some e => inl (SystemError e) | None => inr () end;
  job_assert := λ W, massert;
  job_final := λ B access _, system_execute_final (tc_tx tc)
|}.

(** dispatch_transaction, of Monad and of Ethereum *)
Definition dispatch_transaction (tc : TransactionContext) : Job :=
  if monad_rev_from (host_traits (tc_host tc)) MONAD_FOUR && (tc_sender tc =? SYSTEM_SENDER)
  then system_job tc else user_job tc.

(** ** All transactions of a block *)
(** The receipts, or the first error; then the gas of each receipt becomes
    the gas used up to it. *)
Fixpoint collect_receipts (results : list (DispatchError + Receipt)) : DispatchError + list Receipt :=
  match results with
  | [] => inr []
  | inl e :: _ => inl e
  | inr r :: results =>
      match collect_receipts results with inl e => inl e | inr rs => inr (r :: rs) end
  end.
Definition set_gas_used (g : Z) (r : Receipt) : Receipt :=
  mkReceipt (bloom r) (rct_status r) g (rct_type r) (rct_logs r).
Fixpoint accumulate_gas (cumulative_gas_used : Z) (receipts : list Receipt) : list Receipt :=
  match receipts with
  | [] => []
  | r :: receipts =>
      let g := u64 (cumulative_gas_used + rct_gas_used r) in
      set_gas_used g r :: accumulate_gas g receipts
  end.
Definition block_receipts (results : list (DispatchError + Receipt)) : DispatchError + list Receipt :=
  match collect_receipts results with inl e => inl e | inr rs => inr (accumulate_gas 0 rs) end.

(** One after the other, each alone on the block state. *)
Fixpoint execute_sequentially (jobs : list Job) : M (BlockState VC) (list (DispatchError + Receipt)) :=
  match jobs with
  | [] => mret []
  | j :: jobs =>
      r ← (λ bs, match job_static j with
                 | Ok (Some e) => Ok (inl e, bs)
                 | Ok None => job_retry j bs
                 | Abort => Abort
                 | Throw s => Throw s
                 end);
      rs ← execute_sequentially jobs;
      mret (r :: rs)
  end.
End block.

(** ** The two kinds of transactions *)
Section kinds.
Context {VC : Type} `{VarcodeCache VC}.
Context (db_ : Db) (secondary_db_ : option Db) (keccak256 : list Z → Z).
Context (precompile_execute : Z → list Z → evmc_status_code * list Z).
Context (staking : MonadContract).
Context (vm_execute vm_execute_bytecode : evmc_message → list Z → vm_tree).
Context (bottom : prog Result) (tc : TransactionContext).
Definition user_error (r : ExecutionError + Receipt) : DispatchError + Receipt :=
  match r with inl e => inl (UserError e) | inr x => inr x end.
Definition omap_result {A C W} (f : A → C) (m : outcome (A * W)) : outcome (C * W) :=
  match m with Ok (a, w) => Ok (f a, w) | Abort => Abort | Throw s => Throw s end.
Abbreviation ujob :=
  (user_job keccak256 precompile_execute staking vm_execute vm_execute_bytecode bottom tc).
Lemma omap_merge (st : State) (r : Receipt) bs :
  (merge (VC := VC) st;; mret (inr r)) bs = omap_result user_error ((merge st;; mret (inr r)) bs).
Proof.
  destruct (merge st bs) as [[[] bs2]| |s] eqn:E.
  - by rewrite !(bind_Ok_eq _ _ _ _ _ E).
  - by rewrite !(bind_Abort _ _ _ E).
  - by rewrite !(bind_Throw _ _ _ _ E).
Qed.
Lemma user_job_finish r st bs :
  job_finish db_ secondary_db_ ujob r st bs = omap_result user_error (finish keccak256 tc db_ secondary_db_ r st bs).
Proof.
  destruct r as [e|r]; [done|]. unfold job_finish, finish. cbn [job_check job_final user_job].
  change (block_access_block db_ secondary_db_) with (block_access_tx db_ secondary_db_ (VC := VC)).
  destruct (execute_final _ _ _ _) as [[receipt [st' bs']]| |]; [apply omap_merge|done..].
Qed.
Lemma user_job_retry bs :
  job_retry db_ secondary_db_ keccak256 ujob bs =
  omap_result user_error
    (retry keccak256 precompile_execute staking vm_execute vm_execute_bytecode bottom tc db_ secondary_db_ bs).
Proof.
  unfold job_retry, retry. cbn [job_program job_incarnation user_job].
  change (block_access_block db_ secondary_db_) with (block_access_tx db_ secondary_db_ (VC := VC)).
  destruct (exec _ _ _) as [[r [st bs']]| |]; [|done..].
  destruct (can_merge (st, bs')) as [[[] [st' bs2]]| |]; [exact (user_job_finish r st' bs2)|done..].
Qed.
(** The job of a user's transaction is [execute_transaction]. *)
Lemma user_job_run first bs :
  job_run db_ secondary_db_ keccak256 ujob first bs =
  omap_result user_error
    (execute_transaction keccak256 precompile_execute staking vm_execute vm_execute_bytecode bottom tc
       db_ secondary_db_ first bs).
Proof.
  destruct first as [r1 st1]. unfold job_run, execute_transaction. cbn [job_static user_job fst snd].
  destruct (static_validate_transaction _ _ _ _ _ _) as [[e|]| |]; [done| |done..]. cbn [omap_error fmap option_fmap option_map].
  destruct (can_merge (st1, bs)) as [[[] [st' bs2]]| |]; [apply user_job_finish|apply user_job_retry|done..].
Qed.
End kinds.

(** A program that looks at the sender first, or stops. *)
Lemma dispatch_starts keccak256 precompile_execute staking vm vm_bytecode bottom tc :
  starts_with_sender (tc_sender tc)
    (job_program (dispatch_transaction keccak256 precompile_execute staking vm vm_bytecode bottom tc)).
Proof.
  unfold dispatch_transaction. case_match; [|apply execute_impl2_starts].
  unfold system_job, job_program, execute_system, validate_system_transaction. by left.
Qed.
