(* ===== verification/BlockSequential.v ===== *)
(** * A block executed concurrently is a block executed sequentially

    The transactions of a block make their first attempts concurrently; each
    is then merged, or run again and merged, when its turn has come.  The
    result is the list of receipts, and a block state with the same reads,
    that executing the transactions one after the other gives.  Speculation.v
    compares one attempt with its replay on the block state it is merged
    into; here the replay is on the block state of the sequential execution,
    which has loaded less ([shadows]), and the final step and the merge are
    replayed as well. *)
From S2P Require Import Prelude Traits Account VersionStack AccountState BlockState State Methods Fixtures Frames Merge Speculation.
From S2P Require Import Words CheckedMath Rlp Transaction Receipt RlpTransaction ReserveBalance ValidateTransaction Precompiles Host ExecuteMessage.
From S2P Require Import Staking StakingCalls StakingSolvency ExecuteTransaction ValidateBlock Requests ExecuteBlock.

(** ** What a computation reads *)

(** The originals after a computation: the ones before, and accounts that
    were answered by the events [es]. *)
Definition reads_accounts (st st' : State) (es : list event) : Prop :=
  ∀ b os', original_ st' !! b = Some os' →
    (∃ os, original_ st !! b = Some os ∧ os_account os' = os_account os ∧ os_storage os' = os_storage os) ∨
    (EvAccount b (os_account os') ∈ es ∧ os_storage os' = ∅).
(** A computation that reads accounts and code, but no storage. *)
Definition plain_read (e : event) : Prop :=
  match e with EvAccount _ _ | EvCode _ _ => True | _ => False end.
Definition Traced {A} (m : M (State * list event) A) : Prop :=
  ∀ st o a st' o', m (st, o) = Ok (a, (st', o')) →
    ∃ es, o = es ++ o' ∧ Forall plain_read es ∧ reads_accounts st st' es.

Lemma reads_accounts_refl st st' : original_ st' = original_ st → reads_accounts st st' [].
Proof. intros E b os'. rewrite E. left. eauto. Qed.
Lemma Traced_bind {A C} (m : M (State * list event) A) (k : A → M (State * list event) C) :
  Traced m → (∀ x, Traced (k x)) → Traced (m ≫= k).
Proof.
  intros Hm Hk st o c st'' o'' E. apply bind_Ok in E as (a & [st' o'] & E1 & E2).
  destruct (Hm _ _ _ _ _ E1) as (es1 & -> & Hp1 & H1). destruct (Hk _ _ _ _ _ _ E2) as (es2 & -> & Hp2 & H2).
  exists (es1 ++ es2). split; [by rewrite app_assoc|]. split; [by apply Forall_app_2|]. intros b os'' Hb.
  destruct (H2 _ _ Hb) as [(os' & Hos' & E3 & E4)|[Hin Hs]]; [|right; split; [set_solver|done]].
  destruct (H1 _ _ Hos') as [(os & Hos & E5 & E6)|[Hin Hs]].
  - left. exists os. split; [done|]. split; congruence.
  - right. rewrite E3, E4. split; [set_solver|done].
Qed.
(** Computations that leave the originals and the record alone. *)
Lemma Traced_same {A} (m : M (State * list event) A) :
  (∀ st o a st' o', m (st, o) = Ok (a, (st', o')) → o' = o ∧ original_ st' = original_ st) → Traced m.
Proof.
  intros Hm st o a st' o' E. destruct (Hm _ _ _ _ _ E) as [-> Ho]. exists []. split; [done|].
  split; [constructor|]. by apply reads_accounts_refl.
Qed.
Lemma Traced_ret {A} (x : A) : Traced (mret x).
Proof. apply Traced_same. intros. sinv. by simplify_eq. Qed.
Lemma Traced_massert b : Traced (massert b).
Proof. apply Traced_same. intros. sinv. by simplify_eq. Qed.
Lemma Traced_massert_throw b s : Traced (massert_throw b s).
Proof. apply Traced_same. intros. sinv. by simplify_eq. Qed.
Lemma Traced_mvalue {A} (x : option A) : Traced (mvalue x).
Proof. apply Traced_same. intros. sinv. by simplify_eq. Qed.
Lemma Traced_lift_outcome {A} (x : outcome A) : Traced (lift_outcome x).
Proof. apply Traced_same. intros. sinv. by simplify_eq. Qed.
Lemma Traced_sgets {A} (f : State → A) : Traced (sgets f).
Proof. apply Traced_same. intros. sinv. by simplify_eq. Qed.
Lemma Traced_smodify f : (∀ st, original_ (f st) = original_ st) → Traced (smodify f).
Proof. intros Hf. apply Traced_same. intros. sinv. by simplify_eq. Qed.
Lemma Traced_write_original a f : (∀ os, os_state (f os) = os_state os) → Traced (write_original a f).
Proof.
  intros Hf st o x st' o' E. unfold write_original in E. sinv. simplify_eq. exists []. split; [done|].
  split; [constructor|]. intros b os' Hb. simpl in Hb. left. destruct (decide (a = b)) as [<-|].
  - rewrite lookup_alter_eq in Hb. destruct (original_ st !! a) as [os|]; [|done]. injection Hb as <-.
    exists os. by rewrite !Hf.
  - rewrite lookup_alter_ne in Hb by done. eauto.
Qed.
Lemma Traced_original_account_state a : Traced (original_account_state a).
Proof.
  intros st o os st' o' E. unfold original_account_state in E. rewrite run_sgets in E. simpl in E.
  destruct (original_ st !! a) as [os0|] eqn:Hos.
  - sinv. simplify_eq. exists []. split; [done|]. split; [constructor|]. by apply reads_accounts_refl.
  - apply bind_Ok in E as (x & [st1 o1] & E1 & E). apply lift_record_account in E1 as [-> ->].
    sinv. simplify_eq. exists [EvAccount a x]. split; [done|]. split; [by repeat constructor|]. intros b os'. simpl.
    rewrite lookup_insert_Some. intros [[<- <-]|[_ Hb]]; [right; split; [set_solver|done]|left; eauto].
Qed.
Lemma Traced_read_code h : Traced (lift_block (ba_read_code h)).
Proof.
  intros st o c st' o' E. apply lift_record_code in E as [-> ->]. exists [EvCode h c]. split; [done|].
  split; [by repeat constructor|]. intros b os' Hb. left. eauto.
Qed.
Create HintDb traced discriminated.
#[local] Hint Resolve Traced_ret Traced_massert Traced_massert_throw Traced_mvalue Traced_lift_outcome Traced_sgets
  Traced_original_account_state Traced_read_code : traced.
Ltac traced_step :=
  match goal with
  | |- Traced (_ ≫= _) => apply Traced_bind; [|intros ?]
  | |- Traced (write_original _ _) => apply Traced_write_original; intros ?; reflexivity
  | |- Traced (smodify _) => apply Traced_smodify; intros ?; reflexivity
  | |- Traced (if ?b then _ else _) => destruct b
  | |- Traced (match ?o with _ => _ end) => destruct o
  | |- Traced (let _ := _ in _) => cbv zeta
  | |- Traced _ => solve [auto with traced nocore]
  end.
Ltac traced := repeat traced_step.
Lemma Traced_current_account_state a : Traced (current_account_state a).
Proof. unfold current_account_state. traced. Qed.
Lemma Traced_recent_account_state a : Traced (recent_account_state a).
Proof. unfold recent_account_state. traced. Qed.
#[local] Hint Resolve Traced_current_account_state Traced_recent_account_state : traced.
Lemma Traced_update_violation_status a : Traced (update_violation_status a).
Proof.
  unfold update_violation_status, init_selfdestruct_exempted, subject_account, pretx_reserve,
    compare_with_threshold, exempt, set_threshold, failed_erase, failed_insert, modify_rb, get_original_balance,
    get_balance, is_destructed, is_current_incarnation, get_code_hash, recent_account, rb_is_delegated, state_read_code.
  traced.
Qed.
#[local] Hint Resolve Traced_update_violation_status : traced.
Lemma Traced_add_to_balance a d : Traced (add_to_balance a d).
Proof. unfold add_to_balance, on_credit, write_account, write_current. traced. Qed.
Lemma Traced_subtract_from_balance a d : Traced (subtract_from_balance a d).
Proof. unfold subtract_from_balance, on_debit, write_account, write_current. traced. Qed.

(** Programs that only move balances, as the final step of a transaction. *)
Definition moves_balance {X} (x : action X) : Prop :=
  match x with
  | Method (m_add_to_balance _ _) | Method (m_subtract_from_balance _ _) => True
  | _ => False
  end.
Fixpoint transfers_only {A} (p : prog A) : Prop :=
  match p with
  | Ret _ => True
  | Act x k => moves_balance x ∧ ∀ y, transfers_only (k y)
  | Stop _ => True
  end.
Lemma transfers_only_bind {A C} (p : prog A) (k : A → prog C) :
  transfers_only p → (∀ a, transfers_only (k a)) → transfers_only (p ≫= k).
Proof.
  intros Hp Hk. induction p as [a|X x f IH|o]; [apply Hk| |done].
  destruct Hp as [Hx Hf]. split; [done|]. intros y. apply IH, Hf.
Qed.
Lemma transfers_only_final tc r : transfers_only (execute_final_program tc r).
Proof.
  unfold execute_final_program, passert, plift, collect_priority_fee.
  repeat first [apply transfers_only_bind; [|intros ?] | case_match | done | by split].
Qed.
Lemma Traced_transfers keccak256 {A} (p : prog A) : transfers_only p → Traced (exec keccak256 p).
Proof.
  intros Hp. induction p as [a|X x f IH|o]; simpl.
  - apply Traced_ret.
  - destruct Hp as [Hx Hf]. apply Traced_bind; [|auto].
    destruct x as [X op| | |]; [|done..]. destruct op; try done;
      [apply Traced_add_to_balance|apply Traced_subtract_from_balance].
  - destruct o as [[]| |s]; by intros st o a st' o' E.
Qed.

(** ** Computations on the state alone

    The last steps of a transaction, which remove accounts and read the logs
    but ask nothing of the block state. *)
(** The accounts of [st'] are those of [st], but for removed ones. *)
Definition only_removes (st st' : State) : Prop :=
  original_ st' = original_ st ∧
  ∀ a stack' v x', current_ st' !! a = Some stack' → (v, x') ∈ stack' →
    ∃ stack x, current_ st !! a = Some stack ∧ (v, x) ∈ stack ∧ (account_ x' = account_ x ∨ account_ x' = None).
#[global] Instance only_removes_preorder : PreOrder only_removes.
Proof.
  split; [by split; eauto 10|]. intros s1 s2 s3 [E1 H1] [E2 H2]. split; [congruence|].
  intros a stack v x Hs Hx. destruct (H2 _ _ _ _ Hs Hx) as (stack2 & x2 & Hs2 & Hx2 & Ha2).
  destruct (H1 _ _ _ _ Hs2 Hx2) as (stack1 & x1 & Hs1 & Hx1 & Ha1). exists stack1, x1.
  split; [done|]. split; [done|]. destruct Ha2 as [->| ->]; auto.
Qed.
Definition Local {A W1 W2} (m1 : M (State * W1) A) (m2 : M (State * W2) A) : Prop :=
  ∀ st o a st' o', m1 (st, o) = Ok (a, (st', o')) →
    o' = o ∧ only_removes st st' ∧ ∀ Bc, m2 (st, Bc) = Ok (a, (st', Bc)).
Section local.
Context {W1 W2 : Type}.
Implicit Types (A C : Type).
Lemma Local_bind {A C} (m1 : M (State * W1) A) (m2 : M (State * W2) A) (k1 : A → M (State * W1) C) k2 :
  Local m1 m2 → (∀ x, Local (k1 x) (k2 x)) → Local (m1 ≫= k1) (m2 ≫= k2).
Proof.
  intros Hm Hk st o c st'' o'' E. apply bind_Ok in E as (a & [st' o'] & E1 & E2).
  destruct (Hm _ _ _ _ _ E1) as (-> & H1 & Hm2). destruct (Hk _ _ _ _ _ _ E2) as (-> & H2 & Hk2).
  split; [done|]. split; [by etrans|]. intros Bc. by rewrite (bind_Ok_eq _ _ _ _ _ (Hm2 Bc)).
Qed.
Lemma Local_ret {A} (x : A) : Local (W1 := W1) (W2 := W2) (mret x) (mret x).
Proof. intros st o a st' o' E. sinv. by simplify_eq. Qed.
Lemma Local_massert b : Local (W1 := W1) (W2 := W2) (massert b) (massert b).
Proof. intros st o a st' o' E. sinv. simplify_eq. split; [done|]. split; [done|]. by intros. Qed.
Lemma Local_mvalue {A} (x : option A) : Local (W1 := W1) (W2 := W2) (mvalue x) (mvalue x).
Proof. intros st o a st' o' E. sinv. by simplify_eq. Qed.
Lemma Local_lift_outcome {A} (x : outcome A) : Local (W1 := W1) (W2 := W2) (lift_outcome x) (lift_outcome x).
Proof. intros st o a st' o' E. sinv. simplify_eq. split; [done|]. split; [done|]. intros Bc. by apply lift_outcome_Ok. Qed.
Lemma Local_sgets {A} (f : State → A) : Local (W1 := W1) (W2 := W2) (sgets f) (sgets f).
Proof. intros st o a st' o' E. sinv. simplify_eq. split; [done|]. split; [done|]. intros Bc. by apply sgets_Ok. Qed.
Lemma Local_mfor {X} (l : list X) f1 f2 :
  (∀ x, Local (W1 := W1) (W2 := W2) (f1 x) (f2 x)) → Local (mfor l f1) (mfor l f2).
Proof. intros Hf. induction l as [|x l IH]; [apply Local_ret|]. simpl. by apply Local_bind. Qed.
End local.
Section finals.
Context {B1 B2 : Type} `{BlockAccess B1} `{BlockAccess B2}.
(** The last step of one account: removed, or left as it is. *)
Lemma Local_finalize a (f1 : AccountState → M (State * B1) (option Account))
    (f2 : AccountState → M (State * B2) (option Account)) :
  (∀ s st o r st' o', f1 s (st, o) = Ok (r, (st', o')) →
     st' = st ∧ o' = o ∧ (r = None ∨ r = account_ s) ∧ ∀ Bc, f2 s (st, Bc) = Ok (r, (st, Bc))) →
  Local (finalize_entry a f1) (finalize_entry a f2).
Proof.
  intros Hf st o u st' o' E. unfold finalize_entry in *. rewrite run_bind_bind, run_sgets in E. simpl in E.
  destruct (current_ st !! a) as [stack|] eqn:Hs; [|done].
  apply bind_Ok in E as (stack' & w & E1 & E). sinv. simplify_eq.
  repeat match goal with x : State * B1 |- _ => destruct x end. simpl in *.
  match goal with HE : f1 ?s _ = Ok (?r, _) |- _ =>
    destruct (Hf _ _ _ _ _ _ HE) as (-> & -> & Hr & Hf2); rename s into x0; rename r into acc end.
  match goal with HE : write_account _ _ _ = Ok _ |- _ => unfold write_account, write_current in HE end.
  match goal with H1 : vs_version _ = Ok ?v, H2 : (vs_size _ =? 1) = true, H3 : (?v =? 0) = true, H4 : vs_recent _ = Ok _ |- _ =>
    rename H1 into Hver; rename H2 into Hsize; rename H3 into Hv; rename H4 into Hrec end.
  sinv. simplify_eq. simpl. split; [done|]. split.
  - split; [done|]. intros b stk v x. simpl. destruct (decide (a = b)) as [<-|].
    + rewrite lookup_alter_eq, Hs. simpl. destruct stack' as [|[v0 y] [|z r]];
        [done| |apply Z.eqb_eq in Hsize; unfold vs_size in Hsize; simpl in Hsize; lia]. simpl in *.
      injection Hrec as ->. intros [= <-] [= -> ->]%list_elem_of_singleton.
      exists [(v0, x0)], x0. split; [done|]. split; [set_solver|]. simpl. destruct Hr as [->| ->]; auto.
    + rewrite lookup_alter_ne by done. intros Hb Hx. exists stk, x. auto.
  - intros Bc. rewrite (bind_Ok_eq _ _ (st, Bc) stack' (st, Bc)).
    2: { rewrite run_sgets. simpl. by rewrite Hs. }
    rewrite (bind_Ok_eq _ _ (st, Bc) () (st, Bc)) by (by apply massert_Ok).
    rewrite (bind_Ok_eq _ _ (st, Bc) _ (st, Bc)) by (by apply lift_outcome_Ok).
    rewrite (bind_Ok_eq _ _ (st, Bc) () (st, Bc)) by (by apply massert_Ok).
    rewrite (bind_Ok_eq _ _ (st, Bc) _ (st, Bc)) by (by apply lift_outcome_Ok).
    rewrite (bind_Ok_eq _ _ _ _ _ (Hf2 Bc)). unfold write_account, write_current. by apply smodify_Ok.
Qed.
Lemma Local_destruct_suicides t : Local (destruct_suicides (B := B1) t) (destruct_suicides (B := B2) t).
Proof.
  unfold destruct_suicides.
  repeat (apply Local_bind; [first [apply Local_sgets|apply Local_massert]|intros ?]).
  apply Local_mfor. intros a. apply Local_finalize. intros s st o r st' o' E.
  destruct (destructed_ s); [|by sinv; simplify_eq; auto 10].
  destruct (evm_rev t <? MONAD_ETH_CANCUN); [by sinv; simplify_eq; auto 10|].
  destruct (account_ s) as [acc|] eqn:Ea; [|done]. simpl in E. sinv. simplify_eq.
  split_and!; [done|done|case_decide; auto|]. by intros Bc.
Qed.
Lemma Local_destruct_touched_dead : Local (destruct_touched_dead (B := B1)) (destruct_touched_dead (B := B2)).
Proof.
  unfold destruct_touched_dead.
  repeat (apply Local_bind; [first [apply Local_sgets|apply Local_massert]|intros ?]).
  apply Local_mfor. intros a. apply Local_finalize. intros s st o r st' o' E. sinv. simplify_eq.
  split_and!; [done|done|repeat case_match; auto|done].
Qed.
Lemma Local_logs : Local (logs (B := B1)) (logs (B := B2)).
Proof. unfold logs. apply Local_bind; [apply Local_sgets|intros ?; apply Local_lift_outcome]. Qed.
End finals.

(** ** Block states of the two executions *)
Section sequential.
Context {VC : Type} `{VarcodeCacheLaws VC}.
Context (db_ : Db) (secondary_db_ : option Db) (keccak256 : Code → Z) (codeof : Z → Code).
Hypothesis Hcodeof : ∀ c, codeof (keccak256 c) = c.
Hypothesis Hsecondary : ∀ db2 a i k, secondary_db_ = Some db2 →
  db_read_storage db2 a i k = db_read_storage db_ a i k.
#[local] Instance sequential_access : BlockAccess (BlockState VC) := block_access db_ secondary_db_.
Implicit Types (C S : BlockState VC).
Abbreviation answer_ := (answer db_ secondary_db_ keccak256).
Abbreviation answered_ := (answered db_ secondary_db_ keccak256 codeof).
Abbreviation ok := (block_ok db_ codeof).
Abbreviation Rel2_ := (Rel2 db_ codeof).

(** What reading does to a block state. *)
Record extends C C' : Prop := {
  ex_view : same_view db_ C C';
  ex_codes : bs_code C' = bs_code C;
  ex_account a d : bs_state C !! a = Some d →
    ∃ d', bs_state C' !! a = Some d' ∧ sd_account d' = sd_account d ∧ sd_storage d ⊆ sd_storage d'
}.
#[global] Instance extends_preorder : PreOrder extends.
Proof.
  split.
  - intros C. split; [done|done|]. eauto.
  - intros C1 C2 C3 [V1 K1 A1] [V2 K2 A2]. split; [by etrans|congruence|]. intros a d Hd.
    destruct (A1 _ _ Hd) as (d2 & Hd2 & E2 & S2). destruct (A2 _ _ Hd2) as (d3 & Hd3 & E3 & S3).
    exists d3. split; [done|]. split; [congruence|]. by etrans.
Qed.
Lemma extends_set_vm C vm : extends C (bs_set_vm vm C).
Proof. split; [done|done|]. eauto. Qed.
Lemma read_account_extends a C x C' : read_account db_ a C = Ok (x, C') →
  extends C C' ∧ ∃ d, bs_state C' !! a = Some d ∧ (sd_account d).2 = x.
Proof.
  intros Hr. destruct (read_account_spec db_ a C) as (C2 & Hr2 & Hv & [d Hd]). rewrite Hr in Hr2.
  injection Hr2 as -> <-. unfold read_account in Hr.
  split; [split; [done| |]|].
  - destruct (bs_state C !! a); injection Hr as _ <-; done.
  - intros b d1 Hb. exists d1. split; [|done].
    destruct (bs_state C !! a) as [d0|] eqn:E; injection Hr as _ <-; [done|]. simpl.
    rewrite lookup_insert_ne; [done|]. congruence.
  - exists d. split; [done|]. rewrite (proj1 Hv a). unfold account_view. by rewrite Hd.
Qed.
Lemma answer_extends own B C e C' : ok own C → answer_ B C e C' → extends C C'.
Proof.
  intros Hok Ha. destruct Ha as [C C' a x Hr|C C' a i k v Hr|C C' h c Hr Hs|C C' c x Hr].
  - by apply read_account_extends in Hr as [? _].
  - destruct (read_storage_inv _ _ _ _ _ _ _ _ Hr) as (d & Hd & _ & Hcase).
    destruct (read_storage_spec db_ secondary_db_ a i k C) as (C2 & Hr2 & Hv); [eauto|intros; by apply Hsecondary|].
    rewrite Hr in Hr2. injection Hr2 as _ <-. split; [done| |].
    + destruct Hcase as [[-> _]|(acc & _ & _ & ->)]; done.
    + intros b db Hb. destruct Hcase as [[-> _]|(acc & Hacc & Hi & ->)]; [eauto|]. simpl.
      destruct (decide (a = b)) as [<-|]; [|rewrite lookup_insert_ne by done; eauto].
      rewrite lookup_insert_eq. assert (db = d) as -> by congruence. eexists. split; [done|]. split; [done|]. simpl.
      destruct (sd_storage d !! k) as [[f y]|] eqn:Ek; [|by apply insert_subseteq].
      unfold read_storage in Hr. rewrite Hd in Hr. unfold storage_in_deltas in Hr. rewrite Hacc, Hi in Hr.
      rewrite decide_True, Ek in Hr by done. injection Hr as _ E.
      apply (f_equal (λ b, sd_storage <$> bs_state b !! a)) in E. simpl in E. rewrite Hd, lookup_insert_eq in E.
      simpl in E. injection E as E. by rewrite <- E.
  - destruct (read_code_inv _ _ _ _ _ _ (bo_code _ _ _ _ Hok) Hr) as (_ & vm' & -> & _). apply extends_set_vm.
  - destruct (insert_code_inv _ _ _ _ _ _ _ (bo_code _ _ _ _ Hok) (Hcodeof c) Hr) as (_ & vm' & -> & _).
    apply extends_set_vm.
Qed.

(** A read of another transaction, and the reads of one transaction with
    those of others between them. *)
Definition load C C' : Prop := ∃ B e, answer_ B C e C'.
Inductive served : BlockState VC → list event → BlockState VC → Prop :=
| sv_nil C : served C [] C
| sv_load C C1 o C2 : load C C1 → served C1 o C2 → served C o C2
| sv_step C e C1 o C2 : answer_ C C e C1 → served C1 o C2 → served C (e :: o) C2.

Lemma extends_keeps B C C' : extends C C' → keeps B C C'.
Proof.
  intros [_ _ Ha]. split.
  - intros a [d Hd]. destruct (Ha _ _ Hd) as (d' & ? & _). eauto.
  - intros a i _ (d & acc & Hd & Hacc & Hi). destruct (Ha _ _ Hd) as (d' & Hd' & E & _).
    exists d', acc. by rewrite E.
  - intros a i d d' _ _ Hd Hd'. destruct (Ha _ _ Hd) as (d1 & Hd1 & _ & Hs). simplify_eq.
    by apply subseteq_dom.
Qed.
Lemma load_spec own C C' : ok own C → load C C' → ok own C' ∧ extends C C'.
Proof.
  intros Hok (B & e & Ha). split; [|by eapply answer_extends].
  destruct Ha as [C C' a x Hr|C C' a i k v Hr|C C' h c Hr Hs|C C' c x Hr].
  - by eapply block_ok_read_account.
  - by eapply block_ok_read_storage.
  - destruct (read_code_inv _ _ _ _ _ _ (bo_code _ _ _ _ Hok) Hr) as (_ & vm' & -> & ?). by apply block_ok_set_vm.
  - destruct (insert_code_inv _ _ _ _ _ _ _ (bo_code _ _ _ _ Hok) (Hcodeof c) Hr) as (_ & vm' & -> & ? & _).
    by apply block_ok_set_vm.
Qed.
Lemma loads_spec own C C' : rtc load C C' → ok own C → ok own C' ∧ extends C C'.
Proof.
  induction 1 as [C|C C1 C2 Hl _ IH]; intros Hok; [done|].
  destruct (load_spec own C C1 Hok Hl) as [Hok1 Hx1]. destruct (IH Hok1) as [Hok2 Hx2]. split; [done|]. by etrans.
Qed.
Lemma answer_rebase B B' C e C' : bs_code B' = bs_code B → answer_ B C e C' → answer_ B' C e C'.
Proof.
  intros E Ha. destruct Ha as [| |C C' h c Hr Hs|]; try by constructor. constructor; [done|].
  unfold stored in *. by rewrite E.
Qed.
Lemma served_spec own C o C2 : served C o C2 → ok own C →
  ok own C2 ∧ extends C C2 ∧ answered_ own C2 C o.
Proof.
  induction 1 as [C|C C1 o C2 Hl _ IH|C e C1 o C2 Ha _ IH]; intros Hok.
  - split; [done|]. split; [done|]. by constructor.
  - destruct (load_spec own C C1 Hok Hl) as [Hok1 Hx1]. destruct (IH Hok1) as (Hok2 & Hx2 & Ha2).
    split; [done|]. split; [by etrans|]. apply (ans_env _ _ _ _ _ _ _ C1); [by apply extends_keeps|done..].
  - destruct (load_spec own C C1 Hok) as [Hok1 Hx1]; [by exists C, e|].
    destruct (IH Hok1) as (Hok2 & Hx2 & Ha2). split; [done|]. split; [by etrans|].
    apply (ans_step _ _ _ _ _ _ _ C1); [|done]. eapply answer_rebase; [|done].
    by rewrite (ex_codes _ _ Hx2), (ex_codes _ _ Hx1).
Qed.
(** The accounts that were answered are those of the block state reached. *)
Lemma served_accounts own C o C2 a x : served C o C2 → ok own C → EvAccount a x ∈ o →
  ∃ d, bs_state C2 !! a = Some d ∧ (sd_account d).2 = x.
Proof.
  induction 1 as [C|C C1 o C2 Hl Hs IH|C e C1 o C2 Ha Hs IH]; intros Hok Hin.
  - by apply elem_of_nil in Hin.
  - destruct (load_spec own C C1 Hok Hl) as [Hok1 _]. auto.
  - destruct (load_spec own C C1 Hok) as [Hok1 _]; [by exists C, e|].
    apply elem_of_cons in Hin as [<-|Hin]; [|auto]. inversion Ha as [? ? ? ? Hr| | |]; subst.
    apply read_account_extends in Hr as (_ & d & Hd & <-).
    destruct (served_spec own _ _ _ Hs Hok1) as (_ & Hx & _).
    destruct (ex_account _ _ Hx _ _ Hd) as (d' & Hd' & E & _). exists d'. by rewrite E.
Qed.

(** [S] shows what [C] shows and has loaded no slot with a value that [C]
    has not loaded: the block state of the sequential execution beside the
    shared one. *)
Definition idle : State := make_state (make_incarnation 0 0) false.
Definition shadows C S : Prop := Rel2_ C idle S.
Lemma shadows_slots C S a d k fv : shadows C S →
  bs_state S !! a = Some d → sd_storage d !! k = Some fv → fv.2 ≠ 0 →
  ∃ dC, bs_state C !! a = Some dC ∧ is_Some (sd_storage dC !! k).
Proof.
  intros Hr Hd Hk Hnz. destruct (r2_slots _ _ _ _ _ Hr _ _ _ _ Hd Hk Hnz) as [?|(os & Hos & _)]; [done|].
  discriminate Hos.
Qed.
Lemma shadows_intro C S :
  same_view db_ C S → code_ok db_ codeof S → bs_code S = bs_code C →
  (∀ a d k fv, bs_state S !! a = Some d → sd_storage d !! k = Some fv → fv.2 ≠ 0 →
     ∃ dC, bs_state C !! a = Some dC ∧ is_Some (sd_storage dC !! k)) →
  (∀ a d, bs_state S !! a = Some d → (sd_account d).2 = None → sd_storage d = ∅) →
  (∀ a d, bs_state S !! a = Some d → (sd_account d).1 = db_read_account db_ a) →
  shadows C S.
Proof. intros ? ? ? Hs ? ?. split; try done. intros a d k fv ? ? ?. left. by eapply Hs. Qed.
Lemma shadows_refl own C : ok own C → shadows C C.
Proof. intros [Hc _ Hrm Hor]. apply shadows_intro; try done. eauto. Qed.
Lemma shadows_extend C C' S : extends C C' → shadows C S → shadows C' S.
Proof.
  intros Hx Hr. apply shadows_intro; try apply Hr.
  - etrans; [symmetry; apply Hx|apply Hr].
  - rewrite (ex_codes _ _ Hx). apply Hr.
  - intros a d k fv Hd Hk Hnz. destruct (shadows_slots _ _ _ _ _ _ Hr Hd Hk Hnz) as (dC & HdC & [v Hv]).
    destruct (ex_account _ _ Hx _ _ HdC) as (d' & Hd' & _ & Hsub). exists d'. split; [done|].
    exists v. by eapply lookup_weaken.
Qed.
Lemma shadows_ok own C S : ok own C → shadows C S → ok own S.
Proof.
  intros Hok Hr. split; try apply Hr. intros a acc. rewrite <- (proj1 (r2_view _ _ _ _ _ Hr)).
  apply (bo_own _ _ _ _ Hok).
Qed.
(** A transaction that agrees with the sequential block state. *)
Lemma shadows_Rel2 C st S : shadows C S → agrees st S → Rel2_ C st S.
Proof.
  intros Hr Ha. split; [done|apply Hr..| |apply Hr|apply Hr]. intros a d k fv Hd Hk Hnz. left.
  by eapply shadows_slots.
Qed.
(** The slots a transaction read with a value are loaded where it agrees. *)
Lemma Rel2_shadows C st S : Rel2_ C st S → agrees st C → shadows C S.
Proof.
  intros Hr Ha. apply shadows_intro; try apply Hr. intros a d k fv Hd Hk Hnz.
  destruct (r2_slots _ _ _ _ _ Hr _ _ _ _ Hd Hk Hnz) as [?|(os & Hos & [v Hv])]; [done|].
  destruct (Ha _ _ Hos) as (dC & HdC & E & Hheld). exists dC. split; [done|].
  destruct (r2_agrees _ _ _ _ _ Hr _ _ Hos) as (d' & Hd' & _ & Hheld'). simplify_eq.
  specialize (Hheld _ _ Hv). specialize (Hheld' _ _ Hv). unfold held_slot in *. rewrite Hk in Hheld'. simpl in Hheld'.
  destruct (sd_storage dC !! k); [by eexists|]. simpl in Hheld. congruence.
Qed.
Lemma shadows_trans C S T : shadows C S → shadows S T → shadows C T.
Proof.
  intros H1 H2. apply shadows_intro; try apply H2.
  - etrans; [apply H1|apply H2].
  - rewrite (r2_codes _ _ _ _ _ H2). apply H1.
  - intros a d k fv Hd Hk Hnz. destruct (shadows_slots _ _ _ _ _ _ H2 Hd Hk Hnz) as (dS & HdS & [fS HfS]).
    eapply shadows_slots; [exact H1|done..|]. destruct ((sd_account d).2) as [acc|] eqn:Ea.
    2: { rewrite (r2_removed _ _ _ _ _ H2 _ _ Hd Ea), lookup_empty in Hk. done. }
    destruct (same_slot _ _ _ _ _ _ _ _ _ (r2_view _ _ _ _ _ H2) HdS Hd Ea Hk) as [_ Hval].
    by rewrite (Hval _ HfS).
Qed.
Lemma shadows_read C S a x S' : shadows C S → read_account db_ a S = Ok (x, S') → shadows C S'.
Proof.
  intros Hr Hread. pose proof (read_account_inv _ _ _ _ _ Hread) as Hinv.
  destruct (read_account_extends _ _ _ _ Hread) as [Hx _].
  assert (Hcase : ∀ b d, bs_state S' !! b = Some d →
    bs_state S !! b = Some d ∨ (sd_account d).1 = db_read_account db_ b ∧ sd_storage d = ∅).
  { intros b d Hd. destruct (Hinv _ _ Hd) as [?|[<- ->]]; auto. }
  apply shadows_intro.
  - etrans; [apply Hr|apply Hx].
  - unfold read_account in Hread. destruct (bs_state S !! a); injection Hread as _ <-; apply Hr.
  - rewrite (ex_codes _ _ Hx). apply Hr.
  - intros b d k fv Hd Hk. destruct (Hcase _ _ Hd) as [Hd0|[_ E]]; [by eapply shadows_slots|].
    by rewrite E, lookup_empty in Hk.
  - intros b d Hd Hn. destruct (Hcase _ _ Hd) as [Hd0|[_ E]]; [by eapply r2_removed|done].
  - intros b d Hd. destruct (Hcase _ _ Hd) as [Hd0|[E _]]; [by eapply r2_origin|done].
Qed.
(** Reads of accounts and code are answered alike by the sequential block
    state, which keeps its deltas. *)
Lemma served_shadow own C o C2 S : served C o C2 → ok own C → Forall plain_read o → shadows C S →
  ∃ S2, served S o S2 ∧ shadows C2 S2 ∧ ∀ a d, bs_state S !! a = Some d → bs_state S2 !! a = Some d.
Proof.
  intros Hs. revert S. induction Hs as [C|C C1 o C2 Hl _ IH|C e C1 o C2 Ha _ IH]; intros S Hok Hp Hr.
  - exists S. split; [constructor|]. auto.
  - destruct (load_spec own C C1 Hok Hl) as [Hok1 Hx1]. apply IH; [done..|]. by eapply shadows_extend.
  - destruct (load_spec own C C1 Hok) as [Hok1 Hx1]; [by exists C, e|]. apply Forall_cons_1 in Hp as [He Hp].
    assert (∃ S1, answer_ S S e S1 ∧ shadows C1 S1 ∧ ∀ a d, bs_state S !! a = Some d → bs_state S1 !! a = Some d)
      as (S1 & Ha1 & Hr1 & Hkeep).
    { inversion Ha as [? ? a x Hread| |? ? h c Hread Hst|]; subst; [|done| |done].
      - destruct (read_account_spec db_ a S) as (S1 & Hread1 & _ & _). exists S1.
        destruct (read_account_keeps db_ C a C x C1 Hread) as (_ & -> & _).
        rewrite (proj1 (r2_view _ _ _ _ _ Hr)). split; [by constructor|]. split.
        + apply (shadows_read _ S a (account_view db_ S a)); [|done]. by eapply shadows_extend.
        + intros b d Hb. unfold read_account in Hread1.
          destruct (bs_state S !! a) as [d0|] eqn:E; injection Hread1 as _ <-; [done|]. simpl.
          rewrite lookup_insert_ne; [done|]. congruence.
      - assert (stored db_ S h = Some c) as HsS by (unfold stored in *; by rewrite (r2_codes _ _ _ _ _ Hr)).
        destruct (read_code_stored _ _ _ _ _ (r2_code _ _ _ _ _ Hr) HsS) as (vm' & Hread1 & Hc').
        exists (bs_set_vm vm' S). split; [by constructor|]. split; [|done].
        apply Rel2_set_vm; [|done]. by eapply shadows_extend. }
    destruct (IH S1 Hok1 Hp Hr1) as (S2 & Hs2 & Hr2 & Hkeep2). exists S2. split; [by apply (sv_step _ _ S1)|]. auto.
Qed.

(** ** Merging into both *)
Lemma merge_loop_inv l C C' : mfor l merge_entry C = Ok ((), C') →
  ∀ a stack, (a, stack) ∈ l → is_Some (bs_state C !! a).
Proof.
  revert C. induction l as [|[b stk] l IH]; intros C E a stack Hin; [by apply elem_of_nil in Hin|].
  simpl in E. apply bind_Ok in E as ([] & C1 & E1 & E). unfold merge_entry in E1. simpl in E1.
  destruct (vs_recent stk) as [x| |]; [|done..]. destruct (bs_state C !! b) as [d|] eqn:Hd; [|done].
  injection E1 as <-. apply elem_of_cons in Hin as [[= -> ->]|Hin]; [eauto|].
  specialize (IH _ E _ _ Hin). simpl in IH. destruct (decide (b = a)) as [<-|]; [eauto|].
  by rewrite lookup_insert_ne in IH.
Qed.
Lemma merge_inv st C C' : merge st C = Ok ((), C') →
  mergeable st C ∧ bs_vm C' = bs_vm C ∧ (∀ a, bs_state C' !! a = merged_delta st C a) ∧
  bs_code C' = foldl (emplace_code (code_ st)) (bs_code C) (merge_code_hashes (current_ st)).
Proof.
  intros E. assert (mergeable st C) as Hm.
  { unfold merge in E. sinv. intros a stack Hs. apply elem_of_map_to_list in Hs. split.
    - match goal with HE : forallb _ _ = true |- _ => rewrite forallb_forall in HE;
        specialize (HE (a, stack) (proj1 (list_elem_of_In _ _) Hs)); simpl in HE end.
      destruct stack as [|[v x] [|]]; try done. simpl in *. rewrite Z.eqb_eq in *. subst. eauto.
    - match goal with HE : mfor _ _ _ = Ok _ |- _ => by apply (merge_loop_inv _ _ _ HE _ stack Hs) end. }
  split; [done|]. destruct (merge_spec _ _ Hm) as (C2 & E2 & Hvm & Hst & _). rewrite E in E2. injection E2 as <-.
  split; [done|]. split; [done|]. clear -E Hm. unfold merge in E. sinv.
  match goal with HE : mfor _ _ ?w = Ok _ |- _ =>
    destruct (merge_loop (map_to_list (current_ st)) w) as (C2 & HE2 & Hc & _) end.
  { apply NoDup_fst_map_to_list. }
  { intros a stack Ha%elem_of_map_to_list. destruct (Hm _ _ Ha) as [[x ->] ?]. done. }
  match goal with HE : mfor _ _ ?w = Ok _ |- _ => rewrite HE in HE2; injection HE2 as <-; by rewrite Hc end.
Qed.
Lemma merged_cases st C C' : mergeable st C → (∀ a, bs_state C' !! a = merged_delta st C a) → ∀ a,
  (current_ st !! a = None ∧ bs_state C' !! a = bs_state C !! a) ∨
  ∃ x d, current_ st !! a = Some [(0, x)] ∧ bs_state C !! a = Some d ∧ bs_state C' !! a = Some (merge_delta x d).
Proof.
  intros Hm Hst a. rewrite Hst. unfold merged_delta. destruct (current_ st !! a) as [stack|] eqn:Hs; [|by left].
  right. destruct (Hm _ _ Hs) as [[x ->] [d Hd]]. exists x, d. by rewrite Hd.
Qed.

(** The accounts a finished transaction leaves: removed, or created by it,
    or the incarnation that was there. *)
Definition left_ok (own : Incarnation) (st : State) : Prop :=
  ∀ a stack v x, current_ st !! a = Some stack → (v, x) ∈ stack →
    ∃ os, original_ st !! a = Some os ∧ (account_ x = None ∨ acc_ok own (os_account os) (account_ x)).
(** An account created by the transaction has no slot with a value. *)
Definition created_clean (own : Incarnation) (st : State) C : Prop :=
  ∀ a v x acc d k, current_ st !! a = Some [(v, x)] → account_ x = Some acc → incarnation acc = own →
    bs_state C !! a = Some d → held_slot (sd_storage d) k = 0.

Definition delta_view (a : Z) (d : StateDelta) (i : Incarnation) (k : Z) : Z :=
  match storage_in_deltas d i k with
  | inl v => v
  | inr ask => if ask then db_read_storage db_ a i k else 0
  end.
Lemma storage_view_delta C a d i k : bs_state C !! a = Some d → storage_view db_ C a i k = delta_view a d i k.
Proof. intros Hd. unfold storage_view. by rewrite Hd. Qed.
Lemma merged_view_alike own st C S a x dC dS :
  ok own C → (∀ acc, db_read_account db_ a = Some acc → incarnation acc ≠ own) →
  shadows C S → created_clean own st C → current_ st !! a = Some [(0, x)] →
  bs_state C !! a = Some dC → bs_state S !! a = Some dS →
  account_ x = None ∨ acc_ok own (sd_account dS).2 (account_ x) →
  ∀ i k, delta_view a (merge_delta x dC) i k = delta_view a (merge_delta x dS) i k.
Proof.
  intros Hok Hdb Hr Hclean Hx HdC HdS Hacc i k.
  pose proof (bo_origin _ _ _ _ Hok _ _ HdC) as OC. pose proof (r2_origin _ _ _ _ _ Hr _ _ HdS) as OS.
  unfold delta_view, storage_in_deltas. simpl. destruct (account_ x) as [acc|] eqn:Ex; [|done].
  destruct (decide (i = incarnation acc)) as [->|]; [|done].
  pose proof (merge_delta_storage x dC acc k Ex) as EC. pose proof (merge_delta_storage x dS acc k Ex) as ES.
  unfold merge_delta in EC, ES. simpl in EC, ES. rewrite Ex in EC, ES. rewrite EC, ES, OC, OS. clear EC ES.
  destruct (storage_ x !! k) as [v|]; [done|].
  destruct Hacc as [?|Hacc]; [done|]. simpl in Hacc.
  pose proof (proj1 (r2_view _ _ _ _ _ Hr) a) as Ev. unfold account_view in Ev. rewrite HdC, HdS in Ev.
  destruct (decide (incarnation acc = own)) as [Eo|Eo].
  - assert (match db_read_account db_ a with Some orig => bool_decide (incarnation acc = incarnation orig) | None => false end = false) as Hask.
    { destruct (db_read_account db_ a) as [orig|] eqn:Edb; [|done]. apply bool_decide_eq_false.
      intros E. apply (Hdb _ eq_refl). congruence. }
    rewrite Hask. pose proof (Hclean _ _ _ _ _ k Hx Ex Eo HdC) as Hz. unfold held_slot in Hz.
    assert (∀ fv, sd_storage dS !! k = Some fv → fv.2 = 0) as HzS.
    { intros fv Hfv. destruct (decide (fv.2 = 0)) as [|Hnz]; [done|].
      destruct (shadows_slots _ _ _ _ _ _ Hr HdS Hfv Hnz) as (dC' & HdC' & [fc Hfc]). simplify_eq.
      destruct ((sd_account dS).2) as [acc0|] eqn:Ea.
      2: { rewrite (r2_removed _ _ _ _ _ Hr _ _ HdS Ea), lookup_empty in Hfv. done. }
      destruct (same_slot _ _ _ _ _ _ _ _ _ (r2_view _ _ _ _ _ Hr) HdC HdS Ea Hfv) as [_ Hval].
      rewrite Hfc in Hz. rewrite <- (Hval _ Hfc). done. }
    destruct (sd_storage dC !! k) as [[f v]|], (sd_storage dS !! k) as [[f' v']|]; simpl in *;
      try pose proof (HzS _ eq_refl); simpl in *; congruence.
  - destruct Hacc as [?|Hacc]; [done|]. destruct ((sd_account dS).2) as [acc0|] eqn:Ea.
    + pose proof (proj2 (r2_view _ _ _ _ _ Hr) a (incarnation acc) k) as E.
      rewrite (storage_view_delta _ _ _ _ _ HdC), (storage_view_delta _ _ _ _ _ HdS) in E.
      unfold delta_view, storage_in_deltas in E. rewrite Ev, Ea, OC, OS in E.
      rewrite !decide_True in E by done. exact E.
    + rewrite (r2_removed _ _ _ _ _ Hr _ _ HdS Ea), (bo_removed _ _ _ _ Hok _ _ HdC Ev). done.
Qed.
Lemma merge_shadows own C S st C' :
  ok own C → (∀ a acc, db_read_account db_ a = Some acc → incarnation acc ≠ own) →
  shadows C S → agrees st S → left_ok own st → created_clean own st C →
  merge st C = Ok ((), C') → code_ok db_ codeof C' →
  ∃ S', merge st S = Ok ((), S') ∧ shadows C' S'.
Proof.
  intros Hok Hdb Hr Ha Hleft Hclean HmC Hcode. destruct (merge_inv _ _ _ HmC) as (MC & _ & StC & CodeC).
  assert (mergeable st S) as MS.
  { intros a stack Hs. destruct (MC _ _ Hs) as [[x ->] _]. split; [eauto|].
    destruct (Hleft _ _ 0 x Hs ltac:(left)) as (os & Hos & _). destruct (Ha _ _ Hos) as (d & Hd & _). eauto. }
  destruct (merge_spec _ _ MS) as (S' & HmS & _). exists S'. split; [done|].
  destruct (merge_inv _ _ _ HmS) as (_ & VmS & StS & CodeS).
  pose proof (merged_cases _ _ _ MC StC) as CC. pose proof (merged_cases _ _ _ MS StS) as CS.
  assert (bs_code S' = bs_code C') as Ecode by (rewrite CodeC, CodeS; by rewrite (r2_codes _ _ _ _ _ Hr)).
  apply shadows_intro.
  - split.
    + intros a. destruct (CC a) as [[Hn EC]|(x & dC & Hx & HdC & EC)], (CS a) as [[? ES]|(x' & dS & Hx' & HdS & ES)];
        try congruence; unfold account_view; rewrite EC, ES; [apply (r2_view _ _ _ _ _ Hr)|]. simpl. congruence.
    + intros a i k. destruct (CC a) as [[Hn EC]|(x & dC & Hx & HdC & EC)], (CS a) as [[? ES]|(x' & dS & Hx' & HdS & ES)];
        try congruence; [unfold storage_view; rewrite EC, ES; apply (r2_view _ _ _ _ _ Hr)|].
      rewrite (storage_view_delta _ _ _ _ _ EC), (storage_view_delta _ _ _ _ _ ES).
      assert (x' = x) as -> by congruence. eapply merged_view_alike; eauto.
      destruct (Hleft _ _ 0 x Hx ltac:(left)) as (os & Hos & Hacc).
      destruct (Ha _ _ Hos) as (d & Hd & E & _). assert (d = dS) as -> by congruence. by rewrite <- E.
  - destruct (r2_code _ _ _ _ _ Hr) as [Hvm _]. destruct Hcode as [_ Hst]. split; [by rewrite VmS|].
    unfold stored in *. by rewrite Ecode.
  - done.
  - intros a d k fv Hd Hk Hnz. destruct (CS a) as [[Hn ES]|(x & dS & Hx & HdS & ES)].
    + rewrite ES in Hd. destruct (CC a) as [[_ EC]|(x & dC & Hx & _)]; [|congruence]. rewrite EC.
      by eapply shadows_slots.
    + destruct (CC a) as [[? _]|(x' & dC & Hx' & HdC & EC)]; [congruence|].
      assert (x' = x) as -> by congruence. assert (d = merge_delta x dS) as -> by congruence.
      exists (merge_delta x dC). split; [done|]. destruct (account_ x) as [acc|] eqn:Ex.
      2: { simpl in Hk. by rewrite Ex, lookup_empty in Hk. }
      rewrite (merge_delta_storage x dS acc k Ex) in Hk. rewrite (merge_delta_storage x dC acc k Ex).
      destruct (storage_ x !! k); [eauto|]. destruct (shadows_slots _ _ _ _ _ _ Hr HdS Hk Hnz) as (d' & ? & ?).
      by simplify_eq.
  - intros a d Hd Hnone. destruct (CS a) as [[_ ES]|(x & dS & Hx & _ & ES)].
    + rewrite ES in Hd. by eapply r2_removed.
    + assert (d = merge_delta x dS) as -> by congruence. simpl in *. by rewrite Hnone.
  - intros a d Hd. destruct (CS a) as [[_ ES]|(x & dS & _ & HdS & ES)].
    + rewrite ES in Hd. by eapply r2_origin.
    + assert (d = merge_delta x dS) as -> by congruence. simpl. by eapply r2_origin.
Qed.

(** ** The final step in both *)
(** Balances are moved, then accounts are removed and the logs are read. *)
Definition final_step {A} (m1 : M (State * list event) A) (m2 : M (State * BlockState VC) A) : Prop :=
  ∃ Y (p : prog Y) k1 k2, transfers_only p ∧ m1 = (exec keccak256 p ≫= k1) ∧ m2 = (exec keccak256 p ≫= k2) ∧
    ∀ y, Local (k1 y) (k2 y).
Lemma inc_ok_left own st st' : inc_ok own st → only_removes st st' → left_ok own st'.
Proof.
  intros [_ Hs] [Eo Hrm] a stack' v x' Hst Hx. destruct (Hrm _ _ _ _ Hst Hx) as (stack & x & Hst0 & Hx0 & E).
  destruct (Hs _ _ _ _ Hst0 Hx0) as (os & Hos & Hacc). exists os. rewrite Eo. split; [done|].
  destruct E as [->| ->]; auto.
Qed.
Lemma agrees_reads own st st' o S S2 :
  agrees st S → (∀ a d, bs_state S !! a = Some d → bs_state S2 !! a = Some d) →
  served S o S2 → ok own S → reads_accounts st st' o → agrees st' S2.
Proof.
  intros Ha Hkeep Hs Hok Hr a os' Hos'. destruct (Hr _ _ Hos') as [(os & Hos & E1 & E2)|[Hin Hempty]].
  - destruct (Ha _ _ Hos) as (d & Hd & E & Hst). exists d. rewrite E1, E2. auto.
  - destruct (served_accounts own _ _ _ _ _ Hs Hok Hin) as (d & Hd & E). exists d. split; [done|]. split; [done|].
    intros k v. by rewrite Hempty, lookup_empty.
Qed.
Lemma final_replays {A} own C o C1 S st (m1 : M (State * list event) A) m2 r st' :
  final_step m1 m2 → served C o C1 → ok own C → shadows C S → inc_ok own st → agrees st S →
  m1 (st, o) = Ok (r, (st', [])) →
  ∃ S', m2 (st, S) = Ok (r, (st', S')) ∧ shadows C1 S' ∧ agrees st' S' ∧ left_ok own st'.
Proof.
  intros (Y & p & k1 & k2 & Hp & -> & -> & Hk) Hs Hok Hr Hinc Ha E.
  apply bind_Ok in E as (y & [st1 o1] & E1 & E2).
  destruct (Hk _ _ _ _ _ _ E2) as (<- & Hrm & Hk2).
  destruct (Traced_transfers keccak256 p Hp _ _ _ _ _ E1) as (es & Eo & Hplain & Hreads).
  rewrite app_nil_r in Eo. subst es.
  destruct (served_shadow own C o C1 S Hs Hok Hplain Hr) as (S2 & Hs2 & Hr2 & Hkeep).
  destruct (served_spec own _ _ _ Hs Hok) as (Hok1 & _ & _).
  pose proof (shadows_ok own C S Hok Hr) as HokS. pose proof (shadows_ok own C1 S2 Hok1 Hr2) as HokS2.
  destruct (served_spec own _ _ _ Hs2 HokS) as (_ & HxS & HansS).
  assert (Rel1 db_ secondary_db_ keccak256 codeof own S2 st o) as Hrel1.
  { split; [done|]. exists S. split; [done|]. split; [done|]. intros a os Hos.
    destruct (Ha _ _ Hos) as (d & Hd & Ed & _). split; [eauto|]. intros acc Eacc _. exists d, acc.
    split; [done|]. by rewrite <- Ed. }
  destruct (Rep_exec db_ secondary_db_ keccak256 codeof own S2 Hcodeof Hsecondary HokS2 p _ _ _ _ _
    (Forall_nil _) Hrel1 E1) as (_ & [Hinc1 _] & _ & Hrep).
  pose proof (agrees_reads own st st1 o S S2 Ha Hkeep Hs2 HokS Hreads) as Ha1.
  destruct (Hrep Ha1 S) as (S' & Em2 & Hr').
  { apply shadows_Rel2; [|done]. apply (shadows_extend S); [done|]. by eapply shadows_refl. }
  exists S'. rewrite (bind_Ok_eq _ _ _ _ _ Em2). split; [apply Hk2|]. split.
  - eapply shadows_trans; [exact Hr2|]. by eapply Rel2_shadows.
  - split; [|by eapply inc_ok_left]. destruct Hrm as [Eo _]. unfold agrees. rewrite Eo. apply Hr'.
Qed.

(** ** The turns of the transactions *)
(** [if (result.has_error()) return ...; execute_final; merge], with the
    reads of others in between. *)
Inductive job_finishes (j : Job) (r : job_R j) (st : State)
  : BlockState VC → DispatchError + Receipt → BlockState VC → Prop :=
| jf_error C e : job_check j r = inl e → job_finishes j r st C (inl e) C
| jf_merge C s o C1 receipt st' C2 :
    job_check j r = inr s →
    served C o C1 → job_final j s (st, o) = Ok (receipt, (st', [])) →
    created_clean (job_incarnation j) st' C1 → merge st' C1 = Ok ((), C2) → code_ok db_ codeof C2 →
    job_finishes j r st C (inr receipt) C2.
(** The turn of a transaction whose first attempt ended in [first]. *)
Inductive job_turn (j : Job) (first : job_R j * State)
  : BlockState VC → DispatchError + Receipt → BlockState VC → Prop :=
| jt_static C e : job_static j = Ok (Some e) → job_turn j first C (inl e) C
| jt_accept C res C' :
    job_static j = Ok None → can_merge (first.2, C) = Ok (true, (first.2, C)) →
    job_finishes j first.1 first.2 C res C' → job_turn j first C res C'
| jt_retry C o C1 r st res C' :
    job_static j = Ok None → can_merge (first.2, C) = Ok (false, (first.2, C)) →
    served C o C1 →
    exec keccak256 (job_program j) (make_state (job_incarnation j) false, o) = Ok (r, (st, [])) →
    can_merge (st, C1) = Ok (true, (st, C1)) →
    job_finishes j r st C1 res C' → job_turn j first C res C'.
(** A first attempt, made while the block state became [C]. *)
Definition attempted (j : Job) C (first : job_R j * State) : Prop :=
  ∃ bs0 o0 st1 o1,
    ok (job_incarnation j) bs0 ∧ answered_ (job_incarnation j) C bs0 o0 ∧
    (∀ o, o0 = EvAccount (job_sender j) None :: o → ¬ lives C (job_sender j) (make_incarnation 0 0)) ∧
    set_original_nonce (job_sender j) (job_nonce j) (make_state (job_incarnation j) false, o0) =
      Ok ((), (st1, o1)) ∧
    exec keccak256 (job_program j) (st1, o1) = Ok (first.1, (first.2, [])).
(** The turns of all transactions, one after the other. *)
Inductive block_runs : list Job → BlockState VC → list (DispatchError + Receipt) → BlockState VC → Prop :=
| br_nil C : block_runs [] C [] C
| br_cons j jobs first C C1 res C2 rs C3 :
    ok (job_incarnation j) C → rtc load C C1 →
    (job_static j = Ok None → attempted j C1 first) → job_turn j first C1 res C2 →
    block_runs jobs C2 rs C3 → block_runs (j :: jobs) C (res :: rs) C3.

(** What the theorem needs of a transaction. *)
Record job_ok (j : Job) : Prop := {
  jo_starts : starts_with_sender (job_sender j) (job_program j);
  jo_final s : final_step (job_final j s) (job_final j s);
  jo_assert W (w : W) : job_assert j true w = Ok ((), w);
  jo_own a acc : db_read_account db_ a = Some acc → incarnation acc ≠ job_incarnation j
}.
Lemma finish_shadows j r st C res C' S :
  job_ok j → ok (job_incarnation j) C → shadows C S → inc_ok (job_incarnation j) st → agrees st S →
  job_finishes j r st C res C' →
  ∃ S', job_finish db_ secondary_db_ j r st S = Ok (res, S') ∧ shadows C' S'.
Proof.
  intros Hj Hok Hr Hinc Ha Hf. unfold job_finish.
  destruct Hf as [C e Hc|C s o C1 receipt st' C2 Hc Hs Hf Hclean Hm Hcode]; rewrite Hc; [by exists S|].
  destruct (final_replays (job_incarnation j) C o C1 S st _ _ receipt st' (jo_final _ Hj s) Hs Hok Hr Hinc Ha Hf)
    as (S1 & Hf1 & Hr1 & Ha1 & Hleft).
  destruct (served_spec _ _ _ _ Hs Hok) as (Hok1 & _ & _).
  destruct (merge_shadows _ C1 S1 st' C2 Hok1 (jo_own _ Hj) Hr1 Ha1 Hleft Hclean Hm Hcode) as (S2 & Hm2 & Hr2).
  exists S2. split; [|done]. unfold sequential_access in Hf1. unfold block_access_block. rewrite Hf1.
  by rewrite (bind_Ok_eq _ _ _ _ _ Hm2).
Qed.
Lemma can_merge_agrees st S : relaxed_validation_ st = false → agrees st S → can_merge (st, S) = Ok (true, (st, S)).
Proof.
  intros Hrel Ha. destruct (can_merge_exact (st, S)) as (b & Hm & Hiff); [done| |].
  - intros a [os Hos]. destruct (Ha _ _ Hos) as (d & Hd & _). simpl. by rewrite Hd.
  - rewrite Hm. by rewrite (proj2 Hiff).
Qed.
Lemma agrees_can_merge st S : relaxed_validation_ st = false →
  (∀ a, is_Some (original_ st !! a) → is_Some (bs_state S !! a)) →
  can_merge (st, S) = Ok (true, (st, S)) → agrees st S.
Proof.
  intros Hrel Hl Hm. destruct (can_merge_exact (st, S)) as (b & Hm' & Hiff); [done..|].
  rewrite Hm in Hm'. injection Hm' as <-. by apply Hiff.
Qed.
(** The end of a run on the sequential block state. *)
Lemma retry_finishes j r st C res C' S S1 :
  job_ok j → ok (job_incarnation j) C → inc_ok (job_incarnation j) st → agrees st C → Rel2_ C st S1 →
  exec keccak256 (job_program j) (make_state (job_incarnation j) false, S) = Ok (r, (st, S1)) →
  job_finishes j r st C res C' →
  ∃ S', job_retry db_ secondary_db_ keccak256 j S = Ok (res, S') ∧ shadows C' S'.
Proof.
  intros Hj Hok Hinc HaC Hr E Hf. pose proof (r2_agrees _ _ _ _ _ Hr) as Ha.
  destruct (finish_shadows j r st C res C' S1 Hj Hok (Rel2_shadows _ _ _ Hr HaC) Hinc Ha Hf) as (S' & HS' & Hr').
  exists S'. split; [|done]. unfold job_retry. unfold sequential_access in E. unfold block_access_block. rewrite E.
  rewrite (can_merge_agrees _ _ (proj2 (io_own _ _ Hinc)) Ha).
  by rewrite (bind_Ok_eq _ _ _ _ _ (jo_assert _ Hj _ _)).
Qed.
Lemma Rel1_loaded own B st : ok own B → Rel1 db_ secondary_db_ keccak256 codeof own B st [] →
  ∀ a, is_Some (original_ st !! a) → is_Some (bs_state B !! a).
Proof.
  intros HB [_ (bs & Hok & Hans & Hseen)] a [os Hos].
  apply (ke_loaded _ _ _ (answered_keeps _ _ _ _ _ _ Hcodeof Hsecondary HB _ _ Hok Hans)).
  by destruct (Hseen _ _ Hos).
Qed.
Definition run_alone (j : Job) : M (BlockState VC) (DispatchError + Receipt) := λ bs,
  match job_static j with
  | Ok (Some e) => Ok (inl e, bs)
  | Ok None => job_retry db_ secondary_db_ keccak256 j bs
  | Abort => Abort
  | Throw s => Throw s
  end.
Lemma turn_shadows j first C res C' S :
  job_ok j → ok (job_incarnation j) C → (job_static j = Ok None → attempted j C first) →
  shadows C S → job_turn j first C res C' →
  ∃ S', run_alone j S = Ok (res, S') ∧ shadows C' S'.
Proof.
  intros Hj Hok Hfirst Hr Ht. unfold run_alone.
  assert (Rel2_ C (make_state (job_incarnation j) false) S) as Hr0 by (by apply shadows_Rel2).
  destruct Ht as [C e Hst|C res C' Hst Hm Hf|C o C1 r st res C' Hst Hm Hs Hrun Hm1 Hf]; rewrite Hst; [by exists S| |].
  - destruct (Hfirst Hst) as (bs0 & o0 & st1 & o1 & Hok0 & Hans & Hdef & Hpre & Hrun).
    destruct (jo_starts _ Hj) as [Hlooks|[x E]]; [|rewrite E in Hrun; by apply exec_Stop in Hrun].
    destruct (attempt_replays db_ secondary_db_ keccak256 codeof (job_incarnation j) C Hcodeof Hsecondary Hok
      _ _ _ _ _ _ _ _ _ Hlooks Hok0 Hans Hdef Hpre Hrun) as (Hinc & b & Hb & Hrep).
    rewrite Hm in Hb. injection Hb as <-. destruct (Hrep eq_refl) as [Ha Hreplay].
    destruct (Hreplay S Hr0) as (S1 & Hrun1 & Hr1).
    exact (retry_finishes j _ _ C res C' S S1 Hj Hok Hinc Ha Hr1 Hrun1 Hf).
  - destruct (served_spec _ _ _ _ Hs Hok) as (Hok1 & Hx & Hans).
    assert (Rel1 db_ secondary_db_ keccak256 codeof (job_incarnation j) C1
      (make_state (job_incarnation j) false) o) as Hrel1.
    { split; [by split|]. by exists C. }
    destruct (Rep_exec db_ secondary_db_ keccak256 codeof _ C1 Hcodeof Hsecondary Hok1 _ _ _ _ _ _
      (Forall_nil _) Hrel1 Hrun) as (_ & Hrel' & _ & Hrep).
    assert (agrees st C1) as Ha.
    { apply agrees_can_merge; [apply (io_own _ _ (proj1 Hrel'))|exact (Rel1_loaded _ _ _ Hok1 Hrel')|done]. }
    destruct (Hrep Ha S) as (S1 & Hrun1 & Hr1).
    { apply shadows_Rel2; [by eapply shadows_extend|done]. }
    exact (retry_finishes j r st C1 res C' S S1 Hj Hok1 (proj1 Hrel') Ha Hr1 Hrun1 Hf).
Qed.
Lemma block_shadows jobs C rs C' S : Forall job_ok jobs → block_runs jobs C rs C' → shadows C S →
  ∃ S', execute_sequentially db_ secondary_db_ keccak256 jobs S = Ok (rs, S') ∧ shadows C' S'.
Proof.
  intros Hjobs Hb. revert S.
  induction Hb as [C|j jobs first C C1 res C2 rs C3 Hok Hl Hfirst Ht _ IH]; intros S Hr; [by exists S|].
  inversion Hjobs as [|? ? Hj Hjs]; subst. destruct (loads_spec _ _ _ Hl Hok) as [Hok1 Hx].
  destruct (turn_shadows j first C1 res C2 S Hj Hok1 Hfirst (shadows_extend _ _ _ Hx Hr) Ht) as (S1 & E1 & Hr1).
  destruct (IH Hjs S1 Hr1) as (S2 & E2 & Hr2). exists S2. split; [|done]. simpl.
  change (λ bs, match job_static j with Ok (Some e) => _ | _ => _ end) with (run_alone j).
  rewrite (bind_Ok_eq _ _ _ _ _ E1). by rewrite (bind_Ok_eq _ _ _ _ _ E2).
Qed.

(** Dispatched transactions. *)
Context (precompile_execute : Z → list Z → evmc_status_code * list Z).
Context (staking : MonadContract).
Context (vm_execute vm_execute_bytecode : evmc_message → list Z → vm_tree).
Context (bottom : prog Result).
Abbreviation dispatch :=
  (dispatch_transaction keccak256 precompile_execute staking vm_execute vm_execute_bytecode bottom).
Lemma dispatch_final tc s : final_step (job_final (dispatch tc) s) (job_final (dispatch tc) s).
Proof.
  unfold dispatch_transaction in *. destruct (_ && _).
  - exists unit, (Ret tt), (λ _, system_execute_final keccak256 (tc_tx tc)), (λ _, system_execute_final keccak256 (tc_tx tc)).
    split; [done|]. split; [done|]. split; [done|]. intros _. unfold system_execute_final.
    apply Local_bind; [apply Local_logs|intros ?; apply Local_ret].
  - eexists _, (execute_final_program tc s), _, _. split; [apply transfers_only_final|].
    split; [reflexivity|]. split; [reflexivity|]. intros y.
    repeat (apply Local_bind; [first [apply Local_destruct_suicides|apply Local_destruct_touched_dead|apply Local_logs]|intros ?]).
    apply Local_ret.
Qed.
Lemma dispatch_fields tc :
  job_sender (dispatch tc) = tc_sender tc ∧ job_incarnation (dispatch tc) = tx_incarnation tc.
Proof. unfold dispatch_transaction. by destruct (_ && _). Qed.

(** C1: a block executed concurrently is a block executed sequentially.
    The transactions of a block make their first attempts against the shared
    block state while others read and merge, and each has its turn in the
    order of the block: it is rejected, or its attempt is accepted, or it is
    run again, and it is finished and merged, with reads of others between
    all of its own.  Running the transactions alone, one after the other,
    from a block state with the same reads gives the same receipts and
    errors, and a block state with the same accounts, storage and code. *)
Theorem block_sequential tcs C rs C' S :
  (∀ tc a acc, tc ∈ tcs → db_read_account db_ a = Some acc → incarnation acc ≠ tx_incarnation tc) →
  block_runs (dispatch <$> tcs) C rs C' → shadows C S →
  ∃ S', execute_sequentially db_ secondary_db_ keccak256 (dispatch <$> tcs) S = Ok (rs, S') ∧ shadows C' S'.
Proof.
  intros Hdb. apply block_shadows. apply Forall_fmap, Forall_forall. intros tc Htc%list_elem_of_In. split.
  - rewrite (proj1 (dispatch_fields tc)). apply dispatch_starts.
  - apply dispatch_final.
  - intros W w. unfold dispatch_transaction. by destruct (_ && _).
  - intros a acc. rewrite (proj2 (dispatch_fields tc)). by apply Hdb.
Qed.
End sequential.

(** ** A concrete block *)
Section concrete.
#[local] Instance run_access : BlockAccess (BlockState ()) := block_access pay_db None.
Definition pay_job : Job :=
  dispatch_transaction pay_hash (λ _ _, (EVMC_SUCCESS, [])) pay_staking pay_vm pay_vm (Stop Abort) pay_context.
Definition pay_final : outcome (Receipt * (State * list event)) :=
  execute_final pay_hash pay_context (mkResult EVMC_SUCCESS 9000 0 [] 0) (pst2, []).
Definition pst3 : State := match pay_final with Ok (_, (st, _)) => st | _ => pst2 end.
Definition pay_receipt : Receipt :=
  match pay_final with Ok (r, _) => r | _ => mkReceipt empty_bloom 0 0 eip1559 [] end.
Definition pb6 : BlockState () := match merge pst3 pb5 with Ok (_, bs) => bs | _ => pb5 end.

Lemma pst3_clean : created_clean (tx_incarnation pay_context) pst3 pb5.
Proof.
  intros a v x acc d k Hx Hacc Hi _. exfalso.
  assert (forallb (λ kv, match kv.2 with
    | [(_, x)] => match account_ x with Some acc => negb (bool_decide (incarnation acc = tx_incarnation pay_context)) | None => true end
    | _ => true end) (map_to_list (current_ pst3)) = true) as Hall by run_concrete.
  rewrite forallb_forall in Hall. apply elem_of_map_to_list, list_elem_of_In in Hx. apply Hall in Hx. simpl in Hx.
  by rewrite Hacc, bool_decide_eq_true_2 in Hx.
Qed.
Lemma pb6_code : code_ok pay_db pay_codeof pb6.
Proof.
  destruct (bo_code _ _ _ _ pb5_ok) as [_ Hst]. split; [done|]. intros h c Hc. apply Hst. unfold stored in *.
  assert (bs_code pb6 = bs_code pb5) as E by run_concrete. by rewrite E in Hc.
Qed.
Lemma pay_loads : rtc (load pay_db None pay_hash) pb2 pb5.
Proof.
  apply (rtc_l _ _ pb3); [eexists pb2, (EvAccount carol (sd_account carol_delta).2); constructor; run_concrete|].
  apply (rtc_l _ _ pb4); [eexists pb2, (EvAccount bob (db_read_account pay_db bob)); constructor; run_concrete|].
  apply rtc_once. eexists pb2, (EvStorage bob bob_inc 5 77). constructor; run_concrete.
Qed.
(** Another transaction created the beneficiary's account; the payment was
    attempted before and after, and its turn has come. *)
Lemma pay_runs : block_runs pay_db None pay_hash pay_codeof [pay_job] pb2 [inr pay_receipt] pb6.
Proof.
  eapply (br_cons _ _ _ _ pay_job [] (pay_result, pst2) pb2 pb5); [apply pb2_ok|apply pay_loads| | |constructor].
  - intros _. exists pb0, pay_record, pst1, (tail pay_record). split; [apply pb0_ok|]. split; [apply pay_answered|].
    split; [by intros o|]. split; run_concrete.
  - apply jt_accept; [run_concrete|run_concrete|].
    eapply (jf_merge _ _ _ _ pay_job _ _ pb5 (mkResult EVMC_SUCCESS 9000 0 [] 0) []); [done|constructor| | | |].
    + run_concrete.
    + apply pst3_clean.
    + run_concrete.
    + apply pb6_code.
Qed.
Lemma block_sequential_witness :
  block_runs pay_db None pay_hash pay_codeof [pay_job] pb2 [inr pay_receipt] pb6 ∧
  ∃ S', execute_sequentially pay_db None pay_hash [pay_job] pb2 = Ok ([inr pay_receipt], S') ∧
    shadows pay_db pay_codeof pb6 S'.
Proof.
  split; [apply pay_runs|].
  apply (block_sequential pay_db None pay_hash pay_codeof pay_codeof_hash ltac:(done) (λ _ _, (EVMC_SUCCESS, []))
    pay_staking pay_vm pay_vm (Stop Abort) [pay_context] pb2 [inr pay_receipt] pb6 pb2).
  - intros tc a acc ->%list_elem_of_singleton. unfold pay_db. simpl. do 2 (case_match; [by intros [= <-]|]). done.
  - apply pay_runs.
  - apply (shadows_refl pay_db pay_codeof (tx_incarnation pay_context)), pb2_ok.
Defined.
End concrete.
