(* ===== verification/Opcodes.v ===== *)
(** * Opcodes and code

    The opcode table of src/category/vm/evm/opcodes.hpp, and [Intercode]
    (src/category/vm/interpreter/intercode.{hpp,cpp}): the code of a contract
    padded for the interpreter, and the places a jump may go to. *)
From S2P Require Import Prelude Traits Account.

(** ** The opcode table *)
Record OpCodeInfo := mkOpCodeInfo {
  op_name : string;
  num_args : Z;
  min_stack : Z;
  stack_increase : Z;
  dynamic_gas : bool;
  min_gas : Z;
  op_index : Z
}.
Definition unknown_opcode_info : OpCodeInfo := mkOpCodeInfo "UNKNOWN" 0 0 0 false 0 0.
Definition eip_4399_name (t : Traits) : string := if eip_4399_active t then "PREVRANDAO" else "DIFFICULTY".
Definition when (available : bool) (info : OpCodeInfo) : OpCodeInfo :=
  if available then info else unknown_opcode_info.
Definition make_opcode_table (t : Traits) : list OpCodeInfo :=
  [
   mkOpCodeInfo "STOP" 0 0 0 false 0 0;
   mkOpCodeInfo "ADD" 0 2 1 false 3 0;
   mkOpCodeInfo "MUL" 0 2 1 false 5 0;
   mkOpCodeInfo "SUB" 0 2 1 false 3 0;
   mkOpCodeInfo "DIV" 0 2 1 false 5 0;
   mkOpCodeInfo "SDIV" 0 2 1 false 5 0;
   mkOpCodeInfo "MOD" 0 2 1 false 5 0;
   mkOpCodeInfo "SMOD" 0 2 1 false 5 0;
   mkOpCodeInfo "ADDMOD" 0 3 1 false 8 0;
   mkOpCodeInfo "MULMOD" 0 3 1 false 8 0;
   mkOpCodeInfo "EXP" 0 2 1 true 10 0;
   mkOpCodeInfo "SIGNEXTEND" 0 2 1 false 5 0;
   unknown_opcode_info; unknown_opcode_info; unknown_opcode_info; unknown_opcode_info;
   mkOpCodeInfo "LT" 0 2 1 false 3 0;
   mkOpCodeInfo "GT" 0 2 1 false 3 0;
   mkOpCodeInfo "SLT" 0 2 1 false 3 0;
   mkOpCodeInfo "SGT" 0 2 1 false 3 0;
   mkOpCodeInfo "EQ" 0 2 1 false 3 0;
   mkOpCodeInfo "ISZERO" 0 1 1 false 3 0;
   mkOpCodeInfo "AND" 0 2 1 false 3 0;
   mkOpCodeInfo "OR" 0 2 1 false 3 0;
   mkOpCodeInfo "XOR" 0 2 1 false 3 0;
   mkOpCodeInfo "NOT" 0 1 1 false 3 0;
   mkOpCodeInfo "BYTE" 0 2 1 false 3 0;
   mkOpCodeInfo "SHL" 0 2 1 false 3 0;
   mkOpCodeInfo "SHR" 0 2 1 false 3 0;
   mkOpCodeInfo "SAR" 0 2 1 false 3 0;
   when (eip_7939_active t) (mkOpCodeInfo "CLZ" 0 1 1 false 5 0);
   unknown_opcode_info;
   mkOpCodeInfo "SHA3" 0 2 1 true 30 0;
   unknown_opcode_info; unknown_opcode_info; unknown_opcode_info; unknown_opcode_info; unknown_opcode_info;
   unknown_opcode_info; unknown_opcode_info; unknown_opcode_info; unknown_opcode_info; unknown_opcode_info;
   unknown_opcode_info; unknown_opcode_info; unknown_opcode_info; unknown_opcode_info; unknown_opcode_info;
   mkOpCodeInfo "ADDRESS" 0 0 1 false 2 0;
   mkOpCodeInfo "BALANCE" 0 1 1 true 100 0;
   mkOpCodeInfo "ORIGIN" 0 0 1 false 2 0;
   mkOpCodeInfo "CALLER" 0 0 1 false 2 0;
   mkOpCodeInfo "CALLVALUE" 0 0 1 false 2 0;
   mkOpCodeInfo "CALLDATALOAD" 0 1 1 false 3 0;
   mkOpCodeInfo "CALLDATASIZE" 0 0 1 false 2 0;
   mkOpCodeInfo "CALLDATACOPY" 0 3 0 true 3 0;
   mkOpCodeInfo "CODESIZE" 0 0 1 false 2 0;
   mkOpCodeInfo "CODECOPY" 0 3 0 true 3 0;
   mkOpCodeInfo "GASPRICE" 0 0 1 false 2 0;
   mkOpCodeInfo "EXTCODESIZE" 0 1 1 true 100 0;
   mkOpCodeInfo "EXTCODECOPY" 0 4 0 true 100 0;
   mkOpCodeInfo "RETURNDATASIZE" 0 0 1 false 2 0;
   mkOpCodeInfo "RETURNDATACOPY" 0 3 0 true 3 0;
   mkOpCodeInfo "EXTCODEHASH" 0 1 1 true 100 0;
   mkOpCodeInfo "BLOCKHASH" 0 1 1 false 20 0;
   mkOpCodeInfo "COINBASE" 0 0 1 false 2 0;
   mkOpCodeInfo "TIMESTAMP" 0 0 1 false 2 0;
   mkOpCodeInfo "NUMBER" 0 0 1 false 2 0;
   mkOpCodeInfo (eip_4399_name t) 0 0 1 false 2 0;
   mkOpCodeInfo "GASLIMIT" 0 0 1 false 2 0;
   mkOpCodeInfo "CHAINID" 0 0 1 false 2 0;
   mkOpCodeInfo "SELFBALANCE" 0 0 1 false 5 0;
   when (eip_3198_active t) (mkOpCodeInfo "BASEFEE" 0 0 1 false 2 0);
   when (has_blob_opcodes t) (mkOpCodeInfo "BLOBHASH" 0 1 1 false 3 0);
   when (has_blob_opcodes t) (mkOpCodeInfo "BLOBBASEFEE" 0 0 1 false 2 0);
   unknown_opcode_info; unknown_opcode_info; unknown_opcode_info; unknown_opcode_info; unknown_opcode_info;
   mkOpCodeInfo "POP" 0 1 0 false 2 0;
   mkOpCodeInfo "MLOAD" 0 1 1 true 3 0;
   mkOpCodeInfo "MSTORE" 0 2 0 true 3 0;
   mkOpCodeInfo "MSTORE8" 0 2 0 true 3 0;
   mkOpCodeInfo "SLOAD" 0 1 1 true 100 0;
   mkOpCodeInfo "SSTORE" 0 2 0 true (base_sstore_cost t) 0;
   mkOpCodeInfo "JUMP" 0 1 0 false 8 0;
   mkOpCodeInfo "JUMPI" 0 2 0 false 10 0;
   mkOpCodeInfo "PC" 0 0 1 false 2 0;
   mkOpCodeInfo "MSIZE" 0 0 1 false 2 0;
   mkOpCodeInfo "GAS" 0 0 1 false 2 0;
   mkOpCodeInfo "JUMPDEST" 0 0 0 false 1 0;
   when (eip_1153_active t) (mkOpCodeInfo "TLOAD" 0 1 1 false 100 0);
   when (eip_1153_active t) (mkOpCodeInfo "TSTORE" 0 2 0 false 100 0);
   when (eip_5656_active t) (mkOpCodeInfo "MCOPY" 0 3 0 true 3 0);
   when (eip_3855_active t) (mkOpCodeInfo "PUSH0" 0 0 1 false 2 0);
   mkOpCodeInfo "PUSH1" 1 0 1 false 3 1;
   mkOpCodeInfo "PUSH2" 2 0 1 false 3 2;
   mkOpCodeInfo "PUSH3" 3 0 1 false 3 3;
   mkOpCodeInfo "PUSH4" 4 0 1 false 3 4;
   mkOpCodeInfo "PUSH5" 5 0 1 false 3 5;
   mkOpCodeInfo "PUSH6" 6 0 1 false 3 6;
   mkOpCodeInfo "PUSH7" 7 0 1 false 3 7;
   mkOpCodeInfo "PUSH8" 8 0 1 false 3 8;
   mkOpCodeInfo "PUSH9" 9 0 1 false 3 9;
   mkOpCodeInfo "PUSH10" 10 0 1 false 3 10;
   mkOpCodeInfo "PUSH11" 11 0 1 false 3 11;
   mkOpCodeInfo "PUSH12" 12 0 1 false 3 12;
   mkOpCodeInfo "PUSH13" 13 0 1 false 3 13;
   mkOpCodeInfo "PUSH14" 14 0 1 false 3 14;
   mkOpCodeInfo "PUSH15" 15 0 1 false 3 15;
   mkOpCodeInfo "PUSH16" 16 0 1 false 3 16;
   mkOpCodeInfo "PUSH17" 17 0 1 false 3 17;
   mkOpCodeInfo "PUSH18" 18 0 1 false 3 18;
   mkOpCodeInfo "PUSH19" 19 0 1 false 3 19;
   mkOpCodeInfo "PUSH20" 20 0 1 false 3 20;
   mkOpCodeInfo "PUSH21" 21 0 1 false 3 21;
   mkOpCodeInfo "PUSH22" 22 0 1 false 3 22;
   mkOpCodeInfo "PUSH23" 23 0 1 false 3 23;
   mkOpCodeInfo "PUSH24" 24 0 1 false 3 24;
   mkOpCodeInfo "PUSH25" 25 0 1 false 3 25;
   mkOpCodeInfo "PUSH26" 26 0 1 false 3 26;
   mkOpCodeInfo "PUSH27" 27 0 1 false 3 27;
   mkOpCodeInfo "PUSH28" 28 0 1 false 3 28;
   mkOpCodeInfo "PUSH29" 29 0 1 false 3 29;
   mkOpCodeInfo "PUSH30" 30 0 1 false 3 30;
   mkOpCodeInfo "PUSH31" 31 0 1 false 3 31;
   mkOpCodeInfo "PUSH32" 32 0 1 false 3 32;
   mkOpCodeInfo "DUP1" 0 1 2 false 3 1;
   mkOpCodeInfo "DUP2" 0 2 3 false 3 2;
   mkOpCodeInfo "DUP3" 0 3 4 false 3 3;
   mkOpCodeInfo "DUP4" 0 4 5 false 3 4;
   mkOpCodeInfo "DUP5" 0 5 6 false 3 5;
   mkOpCodeInfo "DUP6" 0 6 7 false 3 6;
   mkOpCodeInfo "DUP7" 0 7 8 false 3 7;
   mkOpCodeInfo "DUP8" 0 8 9 false 3 8;
   mkOpCodeInfo "DUP9" 0 9 10 false 3 9;
   mkOpCodeInfo "DUP10" 0 10 11 false 3 10;
   mkOpCodeInfo "DUP11" 0 11 12 false 3 11;
   mkOpCodeInfo "DUP12" 0 12 13 false 3 12;
   mkOpCodeInfo "DUP13" 0 13 14 false 3 13;
   mkOpCodeInfo "DUP14" 0 14 15 false 3 14;
   mkOpCodeInfo "DUP15" 0 15 16 false 3 15;
   mkOpCodeInfo "DUP16" 0 16 17 false 3 16;
   mkOpCodeInfo "SWAP1" 0 2 2 false 3 1;
   mkOpCodeInfo "SWAP2" 0 3 3 false 3 2;
   mkOpCodeInfo "SWAP3" 0 4 4 false 3 3;
   mkOpCodeInfo "SWAP4" 0 5 5 false 3 4;
   mkOpCodeInfo "SWAP5" 0 6 6 false 3 5;
   mkOpCodeInfo "SWAP6" 0 7 7 false 3 6;
   mkOpCodeInfo "SWAP7" 0 8 8 false 3 7;
   mkOpCodeInfo "SWAP8" 0 9 9 false 3 8;
   mkOpCodeInfo "SWAP9" 0 10 10 false 3 9;
   mkOpCodeInfo "SWAP10" 0 11 11 false 3 10;
   mkOpCodeInfo "SWAP11" 0 12 12 false 3 11;
   mkOpCodeInfo "SWAP12" 0 13 13 false 3 12;
   mkOpCodeInfo "SWAP13" 0 14 14 false 3 13;
   mkOpCodeInfo "SWAP14" 0 15 15 false 3 14;
   mkOpCodeInfo "SWAP15" 0 16 16 false 3 15;
   mkOpCodeInfo "SWAP16" 0 17 17 false 3 16;
   mkOpCodeInfo "LOG0" 0 2 0 true 375 0;
   mkOpCodeInfo "LOG1" 0 3 0 true 750 1;
   mkOpCodeInfo "LOG2" 0 4 0 true 1125 2;
   mkOpCodeInfo "LOG3" 0 5 0 true 1500 3;
   mkOpCodeInfo "LOG4" 0 6 0 true 1875 4;
   unknown_opcode_info; unknown_opcode_info; unknown_opcode_info; unknown_opcode_info; unknown_opcode_info;
   unknown_opcode_info; unknown_opcode_info; unknown_opcode_info; unknown_opcode_info; unknown_opcode_info;
   unknown_opcode_info;
   unknown_opcode_info; unknown_opcode_info; unknown_opcode_info; unknown_opcode_info; unknown_opcode_info;
   unknown_opcode_info; unknown_opcode_info; unknown_opcode_info; unknown_opcode_info; unknown_opcode_info;
   unknown_opcode_info; unknown_opcode_info; unknown_opcode_info; unknown_opcode_info; unknown_opcode_info;
   unknown_opcode_info;
   unknown_opcode_info; unknown_opcode_info; unknown_opcode_info; unknown_opcode_info; unknown_opcode_info;
   unknown_opcode_info; unknown_opcode_info; unknown_opcode_info; unknown_opcode_info; unknown_opcode_info;
   unknown_opcode_info; unknown_opcode_info; unknown_opcode_info; unknown_opcode_info; unknown_opcode_info;
   unknown_opcode_info;
   unknown_opcode_info; unknown_opcode_info; unknown_opcode_info; unknown_opcode_info; unknown_opcode_info;
   unknown_opcode_info; unknown_opcode_info; unknown_opcode_info; unknown_opcode_info; unknown_opcode_info;
   unknown_opcode_info; unknown_opcode_info; unknown_opcode_info; unknown_opcode_info; unknown_opcode_info;
   unknown_opcode_info;
   unknown_opcode_info; unknown_opcode_info; unknown_opcode_info; unknown_opcode_info; unknown_opcode_info;
   unknown_opcode_info; unknown_opcode_info; unknown_opcode_info; unknown_opcode_info; unknown_opcode_info;
   unknown_opcode_info; unknown_opcode_info; unknown_opcode_info; unknown_opcode_info; unknown_opcode_info;
   unknown_opcode_info;
   mkOpCodeInfo "CREATE" 0 3 1 true 32000 0;
   mkOpCodeInfo "CALL" 0 7 1 true 100 0;
   mkOpCodeInfo "CALLCODE" 0 7 1 true 100 0;
   mkOpCodeInfo "RETURN" 0 2 0 true 0 0;
   mkOpCodeInfo "DELEGATECALL" 0 6 1 true 100 0;
   mkOpCodeInfo "CREATE2" 0 4 1 true 32000 0;
   unknown_opcode_info; unknown_opcode_info; unknown_opcode_info; unknown_opcode_info;
   mkOpCodeInfo "STATICCALL" 0 6 1 true 100 0;
   unknown_opcode_info; unknown_opcode_info;
   mkOpCodeInfo "REVERT" 0 2 0 true 0 0;
   unknown_opcode_info;
   mkOpCodeInfo "SELFDESTRUCT" 0 1 0 true 5000 0
  ].
Definition opcode_table (t : Traits) (op : Z) : OpCodeInfo :=
  default unknown_opcode_info (make_opcode_table t !! Z.to_nat op).
(** [operator==] of two entries leaves [dynamic_gas] and [index] out. *)
Definition same_info (a b : OpCodeInfo) : bool :=
  String.eqb (op_name a) (op_name b) && (num_args a =? num_args b) && (min_stack a =? min_stack b)
  && (stack_increase a =? stack_increase b) && (min_gas a =? min_gas b).
Definition is_unknown_opcode_info (t : Traits) (op : Z) : bool := same_info (opcode_table t op) unknown_opcode_info.

Definition JUMPDEST : Z := 0x5b.
Definition PUSH0 : Z := 0x5f.
Definition PUSH32 : Z := 0x7f.
Definition is_push_opcode (op : Z) : bool := (op >=? PUSH0) && (op <=? PUSH32).
Definition get_push_opcode_index (op : Z) : Z := op - PUSH0.

(** ** Intercode *)
Definition start_padding_size : nat := 30.
Definition end_padding_size : nat := 33.
Definition code_size_max : Z := 2 ^ 20 - 1.
(** The iterations of [for (i = 0; i < code.size(); ++i)]; [fuel] is the
    number of them that are left at most. *)
Fixpoint find_jumpdests_loop (fuel : nat) (code : list Z) (i : nat) (jumpdests : list bool) : list bool :=
  match fuel, code !! i with
  | S fuel, Some op =>
      let jumpdests := if op =? JUMPDEST then <[i := true]> jumpdests else jumpdests in
      let i := if is_push_opcode op then (i + Z.to_nat (get_push_opcode_index op))%nat else i in
      find_jumpdests_loop fuel code (S i) jumpdests
  | _, _ => jumpdests
  end.
Definition find_jumpdests (code : list Z) : list bool :=
  find_jumpdests_loop (length code) code 0 (replicate (length code) false).
Record Intercode := mkIntercode {
  (** the buffer, whose first [start_padding_size] bytes lie before [code()] *)
  padded_code : list Z;
  code_size : Z;
  jumpdest_map : list bool
}.
Definition pad (code : list Z) : outcome (list Z) :=
  if Z.of_nat (length code) <=? code_size_max
  then Ok (replicate start_padding_size 0 ++ code ++ replicate end_padding_size 0)
  else Throw "Code size exceeds maximum representable value".
Definition make_intercode (code : list Z) : outcome Intercode :=
  match pad code with
  | Ok p => Ok (mkIntercode p (Z.of_nat (length code)) (find_jumpdests code))
  | Abort => Abort
  | Throw s => Throw s
  end.
(** [code()[i]] *)
Definition code_at (ic : Intercode) (i : Z) : option Z :=
  if (- Z.of_nat start_padding_size <=? i) then padded_code ic !! Z.to_nat (Z.of_nat start_padding_size + i) else None.
Definition is_jumpdest (ic : Intercode) (pc : Z) : bool :=
  (pc <? code_size ic) && default false (jumpdest_map ic !! Z.to_nat pc).

(** *** What the places of a jump are *)
(** The position after an instruction and its arguments. *)
Definition advance (i : nat) (op : Z) : nat := S (i + if is_push_opcode op then Z.to_nat (get_push_opcode_index op) else 0).
(** The position of an instruction: after the ones before it with their
    arguments. *)
Inductive boundary (code : list Z) : nat → Prop :=
| boundary_start : boundary code 0
| boundary_next i op : boundary code i → code !! i = Some op →
    boundary code (advance i op).

Lemma loop_other fuel code i m j : (j < i)%nat → find_jumpdests_loop fuel code i m !! j = m !! j.
Proof.
  revert i m. induction fuel as [|fuel IH]; intros i m Hj; [done|]. simpl. destruct (code !! i) as [op|]; [|done].
  rewrite IH by (destruct (is_push_opcode op); lia). case_match; [|done]. by rewrite list_lookup_insert_ne by lia.
Qed.
Lemma loop_step fuel code i m op : code !! i = Some op →
  find_jumpdests_loop (S fuel) code i m =
  find_jumpdests_loop fuel code (advance i op) (if op =? JUMPDEST then <[i := true]> m else m).
Proof.
  intros Hop. simpl. rewrite Hop. unfold advance. destruct (is_push_opcode op); [done|]. by rewrite Nat.add_0_r.
Qed.
(** Positions reached from [i] on. *)
Inductive reaches (code : list Z) (i : nat) : nat → Prop :=
| reaches_refl : reaches code i i
| reaches_next j op : reaches code (advance i op) j → code !! i = Some op → reaches code i j.
Lemma reaches_ge code i j : reaches code i j → (i ≤ j)%nat.
Proof. induction 1 as [|i j op _ IH _]; [done|]. unfold advance in IH. lia. Qed.
Lemma loop_spec fuel code i m j : length m = length code → (length code ≤ fuel + i)%nat →
  (∀ k, (i ≤ k)%nat → m !! k ≠ Some true) →
  find_jumpdests_loop fuel code i m !! j = Some true ↔
  m !! j = Some true ∨ (reaches code i j ∧ code !! j = Some JUMPDEST).
Proof.
  revert i m. induction fuel as [|fuel IH]; intros i m Hlen Hfuel Hm.
  - simpl. split; [auto|]. intros [?|[Hr Hj]]; [done|]. apply reaches_ge in Hr. apply lookup_lt_Some in Hj. lia.
  - destruct (code !! i) as [op|] eqn:Hop.
    2: { simpl. rewrite Hop. split; [auto|]. intros [?|[Hr Hj]]; [done|]. apply reaches_ge in Hr.
         apply lookup_lt_Some in Hj. apply lookup_ge_None in Hop. lia. }
    pose proof (lookup_lt_Some _ _ _ Hop) as Hi. rewrite (loop_step _ _ _ _ _ Hop).
    rewrite IH; [|case_match; [by rewrite length_insert|done]|unfold advance; lia|].
    2: { intros k Hk. unfold advance in Hk. destruct (op =? JUMPDEST); [rewrite list_lookup_insert_ne by lia|]; apply Hm; lia. }
    assert (reaches code i j ↔ i = j ∨ reaches code (advance i op) j) as Hsplit.
    { split; [|intros [<-|?]; [constructor|by eapply reaches_next]].
      intros Hr. inversion Hr as [|? op' Hr' Hop']; subst; [by left|]. right. congruence. }
    rewrite Hsplit. destruct (decide (i = j)) as [<-|Hne].
    + destruct (Z.eqb_spec op JUMPDEST) as [->|Hnj].
      * rewrite list_lookup_insert_eq by lia. split; [intros _; right; auto|auto].
      * split; [|intros [?|[_ E]]; [auto|congruence]]. intros [?|[Hr E]]; [auto|congruence].
    + destruct (op =? JUMPDEST); [rewrite list_lookup_insert_ne by done|]; intuition.
Qed.
Lemma reaches_boundary code i j : reaches code i j → boundary code i → boundary code j.
Proof.
  induction 1 as [|i j op _ IH Hop]; intros Hb; [done|]. apply IH. by eapply boundary_next.
Qed.
Lemma reaches_trans code i j k : reaches code i j → reaches code j k → reaches code i k.
Proof. induction 1 as [|i j op _ IH Hop]; intros Hr; [done|]. eapply reaches_next; [by apply IH|done]. Qed.
Lemma boundary_reaches code j : boundary code j ↔ reaches code 0 j.
Proof.
  split; [|intros Hr; eapply reaches_boundary; [done|constructor]].
  induction 1 as [|i op _ IH Hop]; [constructor|]. eapply reaches_trans; [done|].
  eapply reaches_next; [constructor|done].
Qed.
Lemma find_jumpdests_spec code j :
  find_jumpdests code !! j = Some true ↔ boundary code j ∧ code !! j = Some JUMPDEST.
Proof.
  unfold find_jumpdests. rewrite loop_spec; [|by rewrite length_replicate|lia|].
  - rewrite boundary_reaches. split; [|auto]. intros [E|?]; [|done]. by apply lookup_replicate in E as [? _].
  - intros k _ E. by apply lookup_replicate in E as [? _].
Qed.
Lemma length_jumpdests_loop fuel code i m : length (find_jumpdests_loop fuel code i m) = length m.
Proof.
  revert i m. induction fuel as [|fuel IH]; intros i m; [done|]. simpl. case_match; [|done]. rewrite IH.
  case_match; [by rewrite length_insert|done].
Qed.

Lemma is_jumpdest_spec code ic pc : make_intercode code = Ok ic → 0 <= pc →
  is_jumpdest ic pc = true ↔ boundary code (Z.to_nat pc) ∧ code !! Z.to_nat pc = Some JUMPDEST.
Proof.
  unfold make_intercode, pad. destruct (_ <=? _); [|done]. intros [= <-] Hpc. unfold is_jumpdest. simpl.
  rewrite <- find_jumpdests_spec. rewrite andb_true_iff, Z.ltb_lt.
  destruct (find_jumpdests code !! Z.to_nat pc) as [[]|] eqn:E; simpl; split; try done; try by intros [].
  intros _. split; [|done]. apply lookup_lt_Some in E. unfold find_jumpdests in E.
  rewrite length_jumpdests_loop, length_replicate in E. lia.
Qed.
Lemma make_intercode_Ok code ic : make_intercode code = Ok ic →
  padded_code ic = replicate start_padding_size 0 ++ code ++ replicate end_padding_size 0 ∧
  code_size ic = Z.of_nat (length code).
Proof. unfold make_intercode, pad. destruct (_ <=? _); [|done]. by intros [= <-]. Qed.
(** Every access from 30 bytes before the code to 33 after it is in range,
    and reads zeros outside the code. *)
Lemma code_at_spec code ic i : make_intercode code = Ok ic →
  - 30 <= i < Z.of_nat (length code) + 33 →
  code_at ic i = Some (if i <? 0 then 0 else default 0 (code !! Z.to_nat i)).
Proof.
  intros [Hp _]%make_intercode_Ok Hi. unfold code_at. rewrite Hp.
  assert (Z.of_nat start_padding_size = 30) as -> by done.
  rewrite (proj2 (Z.leb_le (- (30)) i)) by lia.
  destruct (Z.ltb_spec i 0).
  - rewrite lookup_app_l by (rewrite length_replicate; unfold start_padding_size; lia). apply lookup_replicate.
    unfold start_padding_size. lia.
  - rewrite lookup_app_r by (rewrite length_replicate; unfold start_padding_size; lia).
    rewrite length_replicate. unfold start_padding_size.
    replace (Z.to_nat (30 + i) - 30)%nat with (Z.to_nat i) by lia.
    destruct (code !! Z.to_nat i) as [b|] eqn:Eb; cbn [default from_option id].
    + by rewrite lookup_app_l by (by eapply lookup_lt_Some).
    + apply lookup_ge_None in Eb. rewrite lookup_app_r by done. apply lookup_replicate. unfold end_padding_size. lia.
Qed.
