(* ===== verification/Runtime.v ===== *)
(** * The runtime of the virtual machine

    src/category/vm/runtime: the context of a call frame (types.hpp,
    context.cpp) and the operations of the instructions that touch memory,
    gas or the host: math.hpp, data.cpp, data.hpp, memory.hpp, keccak.hpp,
    environment.cpp, storage.cpp, storage.hpp, storage_costs.hpp, log.cpp,
    call.cpp, create.cpp and selfdestruct.cpp.

    A frame owns [memory.size] bytes of the memory of the transaction;
    [memory] is their contents, and a byte that was not written is zero.  The
    buffer behind it belongs to all frames of a transaction, and a nested
    frame may have replaced it by a larger one: the capacity a frame finds is
    an input, [env_capacity].  Copying and clearing the buffer is not part of
    this model, and an allocation succeeds.
    An operation is a computation [rt] on the context that sends requests to
    the host, starts nested messages, and may leave the frame with a status
    code. *)
From S2P Require Import Prelude Traits Account VersionStack AccountState BlockState State Methods Words CheckedMath Transaction Rlp ReserveBalance Precompiles Host ExecuteMessage ExecuteTransaction Opcodes.

Inductive StatusCode := Success | Revert | Error | OutOfGas.

(** [evmc_tx_context] *)
Record evmc_tx_context := mkTxContext {
  tx_gas_price : Z;
  tx_origin : Z;
  block_coinbase : Z;
  block_number : Z;
  block_timestamp : Z;
  block_gas_limit : Z;
  block_prev_randao : Z;
  tc_chain_id : Z;
  block_base_fee : Z;
  blob_base_fee : Z;
  blob_hashes : list Z
}.
(** get_tx_context (tx_context.cpp) *)
Definition get_tx_context (t : Traits) (tx : Transaction) (sender : Z) (hdr : BlockHeader) (chain_id : Z)
    (schedule : BlobSchedule) : outcome evmc_tx_context :=
  match gas_price t tx (default 0 (base_fee_per_gas hdr)),
        get_base_fee_per_blob_gas (default 0 (excess_blob_gas hdr)) schedule with
  | Ok price, Ok blob_fee =>
      Ok (mkTxContext price sender (beneficiary hdr) (to_i64 (hdr_number hdr)) (to_i64 (hdr_timestamp hdr))
            (to_i64 (hdr_gas_limit hdr))
            (if negb (difficulty hdr =? 0) then difficulty hdr else prev_randao hdr)
            chain_id (default 0 (base_fee_per_gas hdr)) blob_fee (blob_versioned_hashes tx))
  | Throw s, _ | _, Throw s => Throw s
  | _, _ => Abort
  end.

(** The parts of [Environment] that do not change. *)
Record Environment := mkEnvironment {
  evmc_flags : Z;
  env_depth : Z;
  env_recipient : Z;
  env_sender : Z;
  env_value : Z;
  env_create2_salt : Z;
  env_input_data : list Z;
  env_code : list Z;
  tx_context : evmc_tx_context;
  (** the distance of [memory.data] from [memory.data_handle] *)
  parent_memory : Z;
  (** [memory.capacity], when so much gas remains *)
  env_capacity : Z → Z
}.
(** The sizes are kept in 32 bits. *)
Definition input_data_size (e : Environment) : Z := u32 (size (env_input_data e)).
Definition env_code_size (e : Environment) : Z := u32 (size (env_code e)).
Definition is_static (e : Environment) : bool := negb (Z.land (evmc_flags e) EVMC_STATIC =? 0).

Record Context := mkContext {
  gas_remaining : Z;
  ctx_gas_refund : Z;
  return_data : list Z;
  (** [memory.data], [memory.size] bytes of it *)
  memory : list Z;
  memory_cost : Z;
  result_offset : Z;
  result_size : Z
}.
Definition set_gas (g : Z) (c : Context) : Context :=
  mkContext g (ctx_gas_refund c) (return_data c) (memory c) (memory_cost c) (result_offset c) (result_size c).
Definition set_refund (g : Z) (c : Context) : Context :=
  mkContext (gas_remaining c) g (return_data c) (memory c) (memory_cost c) (result_offset c) (result_size c).
Definition set_return_data (d : list Z) (c : Context) : Context :=
  mkContext (gas_remaining c) (ctx_gas_refund c) d (memory c) (memory_cost c) (result_offset c) (result_size c).
Definition set_memory (m : list Z) (cost : Z) (c : Context) : Context :=
  mkContext (gas_remaining c) (ctx_gas_refund c) (return_data c) m cost (result_offset c) (result_size c).
Definition set_result (offset sz : Z) (c : Context) : Context :=
  mkContext (gas_remaining c) (ctx_gas_refund c) (return_data c) (memory c) (memory_cost c) offset sz.

(** ** Computations of a frame *)
Inductive tree (A : Type) :=
| TRet (a : A)
| THost {X} (op : host_op X) (k : X → tree A)
| TCall (msg : evmc_message) (k : option Result → tree A)
| TStop (o : outcome Empty_set).
#[global] Arguments TRet {A} a.
#[global] Arguments THost {A X} op k.
#[global] Arguments TCall {A} msg k.
#[global] Arguments TStop {A} o.
Fixpoint tbind {A C} (m : tree A) (f : A → tree C) : tree C :=
  match m with
  | TRet a => f a
  | THost op k => THost op (λ x, tbind (k x) f)
  | TCall msg k => TCall msg (λ r, tbind (k r) f)
  | TStop o => TStop o
  end.
Fixpoint to_vm (m : tree Result) : vm_tree :=
  match m with
  | TRet r => VmRet r
  | THost op k => VmHost op (λ x, to_vm (k x))
  | TCall msg k => VmCall msg (λ r, to_vm (k r))
  | TStop o => VmStop o
  end.

(** [exit] leaves the frame. *)
Inductive ended (A : Type) :=
| Next (a : A) (c : Context)
| Exited (s : StatusCode) (c : Context).
#[global] Arguments Next {A} a c.
#[global] Arguments Exited {A} s c.
Definition rt (A : Type) : Type := Context → tree (ended A).
Definition rret {A} (a : A) : rt A := λ c, TRet (Next a c).
Definition rbind {A C} (m : rt A) (f : A → rt C) : rt C := λ c,
  tbind (m c) (λ e, match e with Next a c' => f a c' | Exited s c' => TRet (Exited s c') end).
#[global] Instance rt_ret : MRet rt := @rret.
#[global] Instance rt_bind : MBind rt := λ A C f m, rbind m f.
Definition exit {A} (s : StatusCode) : rt A := λ c, TRet (Exited s c).
Definition gets {A} (f : Context → A) : rt A := λ c, TRet (Next (f c) c).
Definition modify (f : Context → Context) : rt () := λ c, TRet (Next () (f c)).
Definition ask {X} (op : host_op X) : rt X := λ c, THost op (λ x, TRet (Next x c)).
Definition call_host (msg : evmc_message) : rt (option Result) := λ c, TCall msg (λ r, TRet (Next r c)).
(** [MONAD_ASSERT], and what an access outside of an array would be *)
Definition fails {A} : rt A := λ _, TStop Abort.
Definition rassert (b : bool) : rt () := if b then mret () else fails.

(** ** Gas and memory *)
Definition deduct_gas (g : Z) : rt () :=
  modify (λ c, set_gas (gas_remaining c - g) c);;
  r ← gets gas_remaining;
  if r <? 0 then exit OutOfGas else mret ().
Definition is_bounded_by_bits (n x : Z) : bool := (0 <=? x) && (x <? 2 ^ n).
Definition clamp_cast (n x : Z) : Z := if is_bounded_by_bits n x then x else 2 ^ n - 1.
Definition address_from_uint256 (x : Z) : Z := x mod 2 ^ 160.
Definition offset_bits : Z := 28.
Definition get_memory_offset (offset : Z) : rt Z :=
  if is_bounded_by_bits offset_bits offset then mret offset else exit OutOfGas.

(** [shr_ceil<5>] *)
Definition word_count (sz : Z) : Z := Z.shiftr (sz + 31) 5.
Definition memory_cost_from_word_count (t : Traits) (words : Z) : Z :=
  if mip_3_active t then Z.shiftr words 1 else words * words / 512 + 3 * words.
Definition memory_limit : Z := 0x800000.
Definition memory_size (c : Context) : Z := size (memory c).
Section frame.
Context (t : Traits) (e : Environment) (keccak256 : list Z → Z).

Definition parent_total_size : rt Z :=
  rassert (0 <=? parent_memory e);;
  rassert (Z.land (parent_memory e) 31 =? 0);;
  rassert (parent_memory e <=? 2 ^ 30 - 1);; mret (parent_memory e).
Definition is_memory_size_in_bound (mem_size : Z) : rt bool :=
  if mip_3_active t then p ← parent_total_size; mret (mem_size + p <=? memory_limit) else mret true.
(** The new buffer, twice as large as what is needed, is only seen in the
    capacity; the assertions come before it. *)
Definition increase_capacity (old_size new_size : Z) : rt () :=
  rassert (Z.land new_size 31 =? 0);;
  rassert (old_size <? new_size);;
  parent ← parent_total_size;
  let new_total_size := parent + new_size in
  rassert (Z.land new_total_size 31 =? 0);;
  let new_total_capacity := Z.shiftl new_total_size 1 in
  rassert (Z.land new_total_capacity 31 =? 0).
Definition expand_memory (min_size : Z) : rt () :=
  sz ← gets memory_size;
  if sz <? min_size then
    let words := word_count min_size in
    let new_cost := memory_cost_from_word_count t words in
    let new_size := Z.shiftl words 5 in
    ok ← is_memory_size_in_bound new_size;
    (if negb ok then exit OutOfGas else mret ());;
    cost ← gets memory_cost;
    rassert (new_cost >=? cost);;
    deduct_gas (new_cost - cost);;
    modify (λ c, set_memory (memory c ++ replicate (Z.to_nat (new_size - sz)) 0) new_cost c);;
    g ← gets gas_remaining;
    if env_capacity e g <? new_size then increase_capacity sz new_size else mret ()
  else mret ().
(** [n] bytes from [memory.data + offset] *)
Definition read_memory (offset n : Z) : rt (list Z) :=
  m ← gets memory;
  rassert ((0 <=? offset) && (0 <=? n) && (offset + n <=? size m));;
  mret (take (Z.to_nat n) (drop (Z.to_nat offset) m)).
Definition splice (m : list Z) (offset : Z) (bytes : list Z) : list Z :=
  take (Z.to_nat offset) m ++ bytes ++ drop (Z.to_nat offset + length bytes) m.
Definition write_memory (offset : Z) (bytes : list Z) : rt () :=
  c ← gets id;
  rassert ((0 <=? offset) && (offset + size bytes <=? memory_size c));;
  modify (set_memory (splice (memory c) offset bytes) (memory_cost c)).

(** ** math.hpp *)
Definition signed (x : Z) : Z := if x <? 2 ^ 255 then x else x - 2 ^ 256.
Definition rt_udiv (a b : Z) : Z := if b =? 0 then 0 else a / b.
Definition rt_sdiv (a b : Z) : Z := if b =? 0 then 0 else u256 (Z.quot (signed a) (signed b)).
Definition rt_umod (a b : Z) : Z := if b =? 0 then 0 else a mod b.
Definition rt_smod (a b : Z) : Z := if b =? 0 then 0 else u256 (Z.rem (signed a) (signed b)).
Definition rt_addmod (a b n : Z) : Z := if n =? 0 then 0 else (a + b) mod n.
Definition rt_mulmod (a b n : Z) : Z := if n =? 0 then 0 else (a * b) mod n.
(** [count_significant_bytes], [bit_width], [countl_zero] *)
Definition bits (x : Z) : Z := if x =? 0 then 0 else Z.log2 x + 1.
Definition significant_bytes (x : Z) : Z := (bits x + 7) / 8.
(** The power modulo 2^256 by squaring, over the bits of the exponent. *)
Fixpoint pow256 (base : Z) (exponent : positive) : Z :=
  match exponent with
  | xH => u256 base
  | xO p => pow256 (u256 (base * base)) p
  | xI p => u256 (base * pow256 (u256 (base * base)) p)
  end.
Definition exp256 (base exponent : Z) : Z := match exponent with Zpos p => pow256 base p | _ => 1 end.
Definition rt_exp (a exponent : Z) : rt Z :=
  deduct_gas (significant_bytes exponent * 50);; mret (exp256 a exponent).

(** ** keccak.hpp and memory.hpp *)
Definition words_cost (sz price : Z) : Z := word_count sz * price.
Definition rt_sha3 (offset_word size_word : Z) : rt Z :=
  sz ← get_memory_offset size_word;
  offset ←
    (if sz >? 0 then
       offset ← get_memory_offset offset_word;
       expand_memory (offset + sz);;
       deduct_gas (words_cost sz 6);;
       mret offset
     else mret 0);
  bytes ← read_memory offset sz;
  mret (keccak256 bytes).
Definition rt_mload (offset_word : Z) : rt Z :=
  offset ← get_memory_offset offset_word;
  expand_memory (offset + 32);;
  bytes ← read_memory offset 32;
  mret (be_val bytes).
Definition rt_mstore (offset_word value : Z) : rt () :=
  offset ← get_memory_offset offset_word;
  expand_memory (offset + 32);;
  write_memory offset (be_bytes 32 value).
Definition rt_mstore8 (offset_word value : Z) : rt () :=
  offset ← get_memory_offset offset_word;
  expand_memory (offset + 1);;
  write_memory offset [value mod 256].
Definition rt_mcopy (dst_word src_word size_word : Z) : rt () :=
  sz ← get_memory_offset size_word;
  if sz >? 0 then
    src ← get_memory_offset src_word;
    dst ← get_memory_offset dst_word;
    expand_memory (Z.max dst src + sz);;
    deduct_gas (words_cost sz 3);;
    bytes ← read_memory src sz;
    write_memory dst bytes
  else mret ().

(** ** data.hpp and data.cpp *)
Definition zeros (n : Z) : list Z := replicate (Z.to_nat n) 0.
Definition rt_calldataload (i : Z) : Z :=
  if negb (is_bounded_by_bits 32 i) then 0
  else if input_data_size e - i <=? 0 then 0
  else be_val (take 32 (take (Z.to_nat (input_data_size e - i)) (drop (Z.to_nat i) (env_input_data e)) ++ zeros 32)).
Definition access_cost (a : Z) : rt () :=
  status ← ask (h_access_account a);
  match status with MONAD_ACCESS_COLD => deduct_gas (cold_account_cost t) | MONAD_ACCESS_WARM => mret () end.
Definition rt_balance (address : Z) : rt Z :=
  let a := address_from_uint256 address in
  access_cost a;; ask (h_get_balance a).
Definition copy_impl (dest_offset_word offset_word size_word : Z) (source : list Z) (len : Z) : rt () :=
  sz ← get_memory_offset size_word;
  if sz =? 0 then mret () else
  dest_offset ← get_memory_offset dest_offset_word;
  expand_memory (dest_offset + sz);;
  deduct_gas (words_cost sz 3);;
  let start := if is_bounded_by_bits 32 offset_word then Z.min offset_word len else len in
  let copy_size := Z.min sz (len - start) in
  write_memory dest_offset (take (Z.to_nat copy_size) (drop (Z.to_nat start) source) ++ zeros (sz - copy_size)).
Definition rt_calldatacopy (dest_offset offset sz : Z) : rt () :=
  copy_impl dest_offset offset sz (env_input_data e) (input_data_size e).
Definition rt_codecopy (dest_offset offset sz : Z) : rt () :=
  copy_impl dest_offset offset sz (env_code e) (env_code_size e).
Definition rt_extcodecopy (address dest_offset_word offset_word size_word : Z) : rt () :=
  sz ← get_memory_offset size_word;
  dest_offset ←
    (if sz >? 0 then
       dest_offset ← get_memory_offset dest_offset_word;
       expand_memory (dest_offset + sz);;
       deduct_gas (words_cost sz 3);;
       mret dest_offset
     else mret 0);
  let a := address_from_uint256 address in
  access_cost a;;
  if sz >? 0 then
    code ← ask (h_copy_code a (clamp_cast 32 offset_word) sz);
    let copied := take (Z.to_nat sz) code in
    write_memory dest_offset (copied ++ zeros (sz - size copied))
  else mret ().
Definition rt_returndatacopy (dest_offset_word offset_word size_word : Z) : rt () :=
  sz ← get_memory_offset size_word;
  let offset := clamp_cast 32 offset_word in
  data ← gets return_data;
  (if (offset + sz >=? 2 ^ 32) || (offset + sz >? size data) then exit OutOfGas else mret ());;
  if sz >? 0 then
    dest_offset ← get_memory_offset dest_offset_word;
    expand_memory (dest_offset + sz);;
    deduct_gas (words_cost sz 3);;
    write_memory dest_offset (take (Z.to_nat sz) (drop (Z.to_nat offset) data))
  else mret ().
Definition rt_extcodehash (address : Z) : rt Z :=
  let a := address_from_uint256 address in
  access_cost a;; ask (h_get_code_hash a).
Definition rt_extcodesize (address : Z) : rt Z :=
  let a := address_from_uint256 address in
  access_cost a;; ask (h_get_code_size a).

(** ** environment.cpp *)
Definition rt_blockhash (number : Z) : rt Z :=
  if negb (is_bounded_by_bits 63 number) then mret 0
  else
    let first_allowed_block := Z.max (block_number (tx_context e) - 256) 0 in
    if (number >=? first_allowed_block) && (number <? block_number (tx_context e))
    then ask (h_get_block_hash number) else mret 0.
Definition rt_selfbalance : rt Z := ask (h_get_balance (env_recipient e)).
Definition rt_blobhash (index : Z) : Z :=
  let hashes := blob_hashes (tx_context e) in
  if index <? size hashes then default 0 (hashes !! Z.to_nat index) else 0.

(** ** log.cpp *)
Definition log_impl (offset_word size_word : Z) (topics : list Z) : rt () :=
  if is_static e then exit Error else
  sz ← get_memory_offset size_word;
  offset ←
    (if sz >? 0 then
       offset ← get_memory_offset offset_word;
       expand_memory (offset + sz);;
       deduct_gas (sz * 8);;
       mret offset
     else mret 0);
  data ← read_memory offset sz;
  ask (h_emit_log (env_recipient e) data topics).

(** ** storage.cpp, storage.hpp and storage_costs.hpp *)
Record StoreCost := mkStoreCost { gas_cost : Z; store_refund : Z }.
Definition berlin_costs (st : monad_storage_status) : StoreCost :=
  match st with
  | MONAD_STORAGE_ASSIGNED => mkStoreCost 100 0
  | MONAD_STORAGE_ADDED => mkStoreCost 20000 0
  | MONAD_STORAGE_DELETED => mkStoreCost 2900 15000
  | MONAD_STORAGE_MODIFIED => mkStoreCost 2900 0
  | MONAD_STORAGE_DELETED_ADDED => mkStoreCost 100 (-15000)
  | MONAD_STORAGE_MODIFIED_DELETED => mkStoreCost 100 15000
  | MONAD_STORAGE_DELETED_RESTORED => mkStoreCost 100 (-12200)
  | MONAD_STORAGE_ADDED_DELETED => mkStoreCost 100 19900
  | MONAD_STORAGE_MODIFIED_RESTORED => mkStoreCost 100 2800
  end.
(** the table of every later revision *)
Definition london_costs (st : monad_storage_status) : StoreCost :=
  match st with
  | MONAD_STORAGE_ASSIGNED => mkStoreCost 100 0
  | MONAD_STORAGE_ADDED => mkStoreCost 20000 0
  | MONAD_STORAGE_DELETED => mkStoreCost 2900 4800
  | MONAD_STORAGE_MODIFIED => mkStoreCost 2900 0
  | MONAD_STORAGE_DELETED_ADDED => mkStoreCost 100 (-4800)
  | MONAD_STORAGE_MODIFIED_DELETED => mkStoreCost 100 4800
  | MONAD_STORAGE_DELETED_RESTORED => mkStoreCost 100 (-2000)
  | MONAD_STORAGE_ADDED_DELETED => mkStoreCost 100 19900
  | MONAD_STORAGE_MODIFIED_RESTORED => mkStoreCost 100 2800
  end.
Definition store_cost (st : monad_storage_status) : StoreCost :=
  if evm_rev t >=? MONAD_ETH_LONDON then london_costs st else berlin_costs st.
Definition minimum_store_gas : Z := 100.
Definition rt_sload (key : Z) : rt Z :=
  status ← ask (h_access_storage (env_recipient e) key);
  (match status with MONAD_ACCESS_COLD => deduct_gas (cold_storage_cost t) | MONAD_ACCESS_WARM => mret () end);;
  ask (h_get_storage (env_recipient e) key).
Definition rt_sstore (key value remaining_block_base_gas : Z) : rt () :=
  if is_static e then exit Error else
  g ← gets gas_remaining;
  if g + remaining_block_base_gas + minimum_store_gas <=? 2300 then exit OutOfGas else
  status ← ask (h_access_storage (env_recipient e) key);
  if mip_8_active t then
    (match status with MONAD_ACCESS_COLD => deduct_gas (cold_storage_cost t) | MONAD_ACCESS_WARM => mret () end);;
    st ← ask (h_set_storage (env_recipient e) key value);
    page ← ask (h_update_page (env_recipient e) key st);
    deduct_gas (base_sstore_cost t + (if first_page_write page then page_write_cost else 0)
                + (if grew_state page then page_growth_cost else 0) - minimum_store_gas)
  else
    (match status with
     | MONAD_ACCESS_COLD => deduct_gas (cold_storage_cost t + minimum_store_gas)
     | MONAD_ACCESS_WARM => mret ()
     end);;
    st ← ask (h_set_storage (env_recipient e) key value);
    let cost := store_cost st in
    modify (λ c, set_refund (ctx_gas_refund c + store_refund cost) c);;
    deduct_gas (gas_cost cost - minimum_store_gas).
Definition rt_tload (key : Z) : rt Z := ask (h_get_transient_storage (env_recipient e) key).
Definition rt_tstore (key value : Z) : rt () :=
  if is_static e then exit Error else ask (h_set_transient_storage (env_recipient e) key value).

(** ** call.cpp

    A nested message also ends with [None], the answer of [run_vm] at the
    depth that is checked here before. *)
(** resolve_delegation (delegation.cpp) *)
Definition rt_resolve_delegation (a : Z) : rt (option Z) :=
  code ← ask (h_copy_code a 0 (delegation_indicator_size + 1));
  mret (if code_is_delegated code then Some (be_val (take 20 (drop 3 code))) else None).
Definition message_flags (env_flags : Z) (static_call delegation_indicator : bool) : Z :=
  let env_flags := if static_call then EVMC_STATIC else env_flags in
  if delegation_indicator then Z.lor env_flags EVMC_DELEGATED else Z.ldiff env_flags EVMC_DELEGATED.
Definition charge (g : Z) : rt () := modify (λ c, set_gas (gas_remaining c - g) c).
Definition call_impl (gas_word address : Z) (has_value : bool) (value args_offset_word args_size_word
    ret_offset_word ret_size_word : Z) (call_kind : evmc_call_kind) (static_call : bool)
    (remaining_block_base_gas : Z) : rt Z :=
  modify (set_return_data []);;
  args_size ← get_memory_offset args_size_word;
  args_offset ← (if args_size >? 0 then get_memory_offset args_offset_word else mret 0);
  ret_size ← get_memory_offset ret_size_word;
  ret_offset ← (if ret_size >? 0 then get_memory_offset ret_offset_word else mret 0);
  expand_memory (Z.max (args_offset + args_size) (ret_offset + ret_size));;
  let dest_address := address_from_uint256 address in
  access_cost dest_address;;
  code_address ←
    (if evm_rev t >=? MONAD_ETH_PRAGUE then
       delegate ← rt_resolve_delegation dest_address;
       match delegate with
       | Some a =>
           status ← ask (h_access_account a);
           charge ((match status with MONAD_ACCESS_COLD => cold_account_cost t | MONAD_ACCESS_WARM => 0 end) + 100);;
           mret a
       | None => mret dest_address
       end
     else mret dest_address);
  let recipient :=
    if bool_decide (call_kind = EVMC_CALL) || static_call then dest_address else env_recipient e in
  let sender := if bool_decide (call_kind = EVMC_DELEGATECALL) then env_sender e else env_recipient e in
  (if has_value then charge 9000 else mret ());;
  (if bool_decide (call_kind = EVMC_CALL) then
     (if has_value && is_static e then
        g ← gets gas_remaining;
        exit (if g + remaining_block_base_gas <? 0 then OutOfGas else Error)
      else mret ());;
     if has_value then
       exists_ ← ask (h_account_exists dest_address);
       if negb exists_ then charge 25000 else mret ()
     else mret ()
   else mret ());;
  g ← gets gas_remaining;
  let gas_left_here := g + remaining_block_base_gas in
  if gas_left_here <? 0 then exit OutOfGas else
  let gas := Z.min (clamp_cast 63 gas_word) (gas_left_here - gas_left_here / 64) in
  let gas := if has_value then gas + 2300 else gas in
  (if has_value then charge (-2300) else mret ());;
  if env_depth e >=? MAX_DEPTH then mret 0 else
  input ← read_memory args_offset args_size;
  sz ← gets memory_size;
  r ← call_host (mkMessage call_kind
        (message_flags (evmc_flags e) static_call (negb (dest_address =? code_address))) (env_depth e + 1) gas
        recipient sender input value (env_create2_salt e) code_address (parent_memory e + sz));
  match r with
  | None => mret 0
  | Some result =>
      modify (set_return_data (output_data result));;
      deduct_gas (gas - gas_left result);;
      modify (λ c, set_refund (ctx_gas_refund c + gas_refund result) c);;
      write_memory ret_offset (take (Z.to_nat (Z.min ret_size (size (output_data result)))) (output_data result));;
      mret (if succeeded result then 1 else 0)
  end.

(** ** create.cpp *)
Definition create_code_word_cost (rev : Z) : Z := if rev >=? MONAD_ETH_SHANGHAI then 2 else 0.
Definition create2_code_word_cost (rev : Z) : Z := if rev >=? MONAD_ETH_SHANGHAI then 8 else 6.
Definition create_impl (value offset_word size_word salt_word : Z) (kind : evmc_call_kind)
    (remaining_block_base_gas : Z) : rt Z :=
  if is_static e then exit Error else
  (if (evm_rev t >=? MONAD_ETH_PRAGUE) && negb (can_create_inside_delegated t) then
     delegate ← rt_resolve_delegation (env_recipient e);
     match delegate with Some _ => exit Error | None => mret () end
   else mret ());;
  modify (set_return_data []);;
  sz ← get_memory_offset size_word;
  offset ←
    (if sz >? 0 then
       offset ← get_memory_offset offset_word;
       expand_memory (offset + sz);;
       mret offset
     else mret 0);
  (if (evm_rev t >=? MONAD_ETH_SHANGHAI) && (sz >? max_initcode_size t) then exit OutOfGas else mret ());;
  deduct_gas (words_cost sz (if bool_decide (kind = EVMC_CREATE2) then create2_code_word_cost (evm_rev t)
                             else create_code_word_cost (evm_rev t)));;
  if env_depth e >=? MAX_DEPTH then mret 0 else
  g ← gets gas_remaining;
  let gas := g + remaining_block_base_gas in
  let gas := gas - gas / 64 in
  input ← read_memory offset sz;
  msize ← gets memory_size;
  r ← call_host (mkMessage kind 0 (env_depth e + 1) gas 0 (env_recipient e) input value salt_word 0
        (parent_memory e + msize));
  match r with
  | None => mret 0
  | Some result =>
      modify (set_return_data (output_data result));;
      deduct_gas (gas - gas_left result);;
      modify (λ c, set_refund (ctx_gas_refund c + gas_refund result) c);;
      mret (if succeeded result then create_address result else 0)
  end.

(** ** selfdestruct.cpp *)
Definition rt_selfdestruct {A} (address : Z) : rt A :=
  if is_static e then exit Error else
  let a := address_from_uint256 address in
  status ← ask (h_access_account a);
  (match status with MONAD_ACCESS_COLD => deduct_gas (cold_account_cost t + 100) | MONAD_ACCESS_WARM => mret () end);;
  balance ← ask (h_get_balance (env_recipient e));
  (if negb (balance =? 0) then
     exists_ ← ask (h_account_exists a);
     if negb exists_ then deduct_gas 25000 else mret ()
   else mret ());;
  result ← ask (h_selfdestruct (env_recipient e) a);
  (if (evm_rev t <? MONAD_ETH_LONDON) && result then modify (λ c, set_refund (ctx_gas_refund c + 24000) c)
   else mret ());;
  exit Success.

(** ** Results (context.cpp) *)
(** [copy_result_data]; on success with the gas that is left. *)
Definition copy_result_data (c : Context) : outcome (evmc_status_code + list Z * Z) :=
  if gas_remaining c <? 0 then Ok (inl EVMC_OUT_OF_GAS)
  else if negb (is_bounded_by_bits offset_bits (result_size c)) then Ok (inl EVMC_OUT_OF_GAS)
  else if result_size c =? 0 then Ok (inr ([], gas_remaining c))
  else if negb (is_bounded_by_bits offset_bits (result_offset c)) then Ok (inl EVMC_OUT_OF_GAS)
  else
    let memory_end := result_offset c + result_size c in
    if memory_end <=? memory_size c
    then Ok (inr (take (Z.to_nat (result_size c)) (drop (Z.to_nat (result_offset c)) (memory c)), gas_remaining c))
    else if mip_3_active t && negb ((0 <=? parent_memory e) && (Z.land (parent_memory e) 31 =? 0) && (parent_memory e <=? 2 ^ 30 - 1)) then Abort
    else if mip_3_active t && negb (memory_end + parent_memory e <=? memory_limit) then Ok (inl EVMC_OUT_OF_GAS)
    else
      let cost := memory_cost_from_word_count t (word_count memory_end) in
      let gas := gas_remaining c - (cost - memory_cost c) in
      if gas <? 0 then Ok (inl EVMC_OUT_OF_GAS)
      else if result_offset c <? memory_size c
      then Ok (inr (drop (Z.to_nat (result_offset c)) (memory c) ++ zeros (memory_end - memory_size c), gas))
      else Ok (inr (zeros (result_size c), gas)).
Definition copy_to_evmc_result (s : StatusCode) (c : Context) : outcome Result :=
  match s with
  | Error => Ok (failure EVMC_FAILURE)
  | OutOfGas => Ok (failure EVMC_OUT_OF_GAS)
  | Success | Revert =>
      match copy_result_data c with
      | Ok (inl ec) => Ok (failure ec)
      | Ok (inr (output, gas)) =>
          Ok (match s with
              | Success => mkResult EVMC_SUCCESS gas (ctx_gas_refund c) output 0
              | _ => mkResult EVMC_REVERT gas 0 output 0
              end)
      | Abort => Abort
      | Throw m => Throw m
      end
  end.
End frame.
(** Context::from *)
Definition context_from (msg : evmc_message) : Context := mkContext (gas msg) 0 [] [] 0 0 0.
Definition environment_from (msg : evmc_message) (code : list Z) (ctx : evmc_tx_context) (capacity : Z → Z)
    : Environment :=
  mkEnvironment (flags msg) (depth msg) (recipient msg) (msg_sender msg) (value msg) (create2_salt msg)
    (input_data msg) code ctx (memory_offset msg) capacity.
