(* ===== verification/Interpreter.v ===== *)
(** * The interpreter

    src/category/vm/interpreter: the instructions and their table
    (instruction_table.hpp), the requirements checked before each of them
    (stack.hpp), the two ways of reading the operand of a push (push.hpp),
    the loop (execute.cpp) and the functions of src/category/vm/vm.cpp that
    run it on a message.

    [stack_top - stack_bottom] words form the stack, the first of the list
    being the one at [stack_top], in a buffer of 1024 words (allocator.hpp); a
    write above it is [fails].  An instruction of the source ends in a
    tail call of the next one; here it returns the frame the next one starts
    with.  The gas kept in a register by the source and written back to the
    context around calls is the [gas_remaining] of the context. *)
From S2P Require Import Prelude Traits Account VersionStack AccountState BlockState State Methods Words Uint256 Uint256Text CheckedMath Transaction Rlp ReserveBalance Precompiles Host ExecuteMessage Opcodes Runtime.

Record Frame := mkFrame { stack : list Z; instr_ptr : Z }.
Definition InstrEval : Type := Frame → rt Frame.

(** ** stack.hpp *)
Definition stack_limit : Z := 1024.
Definition delta (t : Traits) (op : Z) : Z := stack_increase (opcode_table t op) - min_stack (opcode_table t op).
Definition check_requirements (t : Traits) (op : Z) (stack : list Z) : rt () :=
  let info := opcode_table t op in
  (if min_gas info >? 0 then deduct_gas (min_gas info) else mret ());;
  if (min_stack info =? 0) && (stack_increase info =? 0) then mret () else
  let stack_size := size stack in
  rassert (stack_size <=? stack_limit);;
  (if (min_stack info >? 0) && (stack_size <? min_stack info) then exit Error else mret ());;
  if (stack_increase info >? 0) && (stack_limit - delta t op <? stack_limit) && (stack_size >? stack_limit - delta t op)
  then exit Error else mret ().

(** [*(stack_top + 1) = x] *)
Definition push_top (x : Z) (stack : list Z) : rt (list Z) :=
  rassert (size stack <? stack_limit);; mret (x :: stack).

(** ** push.hpp *)
(** [n] bytes from [code() + i] *)
Definition read_code (ic : Intercode) (i : Z) (n : nat) : option (list Z) :=
  mapM (λ k, code_at ic (i + Z.of_nat k)) (seq 0 n).
(** [bswap(unaligned_load(ptr))] of the eight bytes at [ptr] *)
Definition read_unaligned (bytes : list Z) : Z := byteswap64 (le_val bytes).
(** The [n] bytes after the opcode as a number, in words. *)
Definition generic_push (n : nat) (bytes : list Z) : uint256_t :=
  let whole_words := (n / 8)%nat in
  let leading_part := (n mod 8)%nat in
  let leading_word :=
    if bool_decide (leading_part = 0%nat) then 0
    else byteswap64 (le_val (replicate (8 - leading_part) 0 ++ take leading_part bytes)) in
  let word k := read_unaligned (take 8 (drop (leading_part + 8 * k) bytes)) in
  match whole_words with
  | 0%nat => U256 leading_word 0 0 0
  | 1%nat => U256 (word 0%nat) leading_word 0 0
  | 2%nat => U256 (word 1%nat) (word 0%nat) leading_word 0
  | 3%nat => U256 (word 2%nat) (word 1%nat) (word 0%nat) leading_word
  | _ => U256 (word 3%nat) (word 2%nat) (word 1%nat) (word 0%nat)
  end.
(** A vector of 32 bytes: the permutation of its quadwords with the selector
    27, which reverses them, and the shuffle of the bytes of either half by
    the low four bits of the mask's, 0 where the sign bit of the mask is set. *)
Definition permute4x64_27 (y : list Z) : list Z :=
  take 8 (drop 24 y) ++ take 8 (drop 16 y) ++ take 8 (drop 8 y) ++ take 8 y.
Definition shuffle_epi8 (y mask : list Z) : list Z :=
  imap (λ i m, if Z.testbit m 7 then 0
               else default 0 (y !! (i / 16 * 16 + Z.to_nat (Z.land m 15))%nat)) mask.
Definition avx2_mask (n : nat) : list Z :=
  let whole_words := (n / 8)%nat in
  let leading_part := Z.of_nat (n mod 8) in
  let m := u64 (Z.lnot (Z.shiftr (2 ^ 63 - 1) (63 - leading_part * 8))) in
  let part (k : nat) :=
    if (whole_words =? k)%nat then m else if (whole_words <? k)%nat then 2 ^ 64 - 1 else 0 in
  le_bytes 8 (Z.lor 0x0001020304050607 (part 0%nat)) ++ le_bytes 8 (Z.lor 0x08090a0b0c0d0e0f (part 1%nat)) ++
  le_bytes 8 (Z.lor 0x0001020304050607 (part 2%nat)) ++ le_bytes 8 (Z.lor 0x08090a0b0c0d0e0f (part 3%nat)).
(** [y]: the 32 bytes of which the last [n] follow the opcode. *)
Definition avx2_push (n : nat) (y : list Z) : Z := le_val (shuffle_epi8 (permute4x64_27 y) (avx2_mask n)).

Section instructions.
Context (t : Traits) (e : Environment) (keccak256 : list Z → Z).
(** whether the build has AVX2 *)
Context (avx2 : bool) (ic : Intercode).

(** [MONAD_VM_NEXT] *)
Definition next (fr : Frame) (stack : list Z) : rt Frame := mret (mkFrame stack (instr_ptr fr + 1)).
Definition checked (op : Z) (body : list Z → rt (list Z)) : InstrEval := λ fr,
  check_requirements t op (stack fr);;
  s ← body (stack fr);
  next fr s.
(** The operand forms: [top_two], [*stack_top] and [push]. *)
Definition top_two (f : Z → Z → Z) : list Z → rt (list Z) := λ s,
  match s with a :: b :: s => mret (f a b :: s) | _ => fails end.
Definition top_one (f : Z → Z) : list Z → rt (list Z) := λ s,
  match s with a :: s => mret (f a :: s) | _ => fails end.
Definition push_word (x : Z) : list Z → rt (list Z) := push_top x.
(** call_runtime (call_runtime.hpp): the arguments are the [n] words from the
    top down, and the result takes the place of the last of them, or the place
    above the stack. *)
Definition call_runtime (n : nat) (f : list Z → rt (list Z)) : list Z → rt (list Z) := λ s,
  if (length s <? n)%nat then fails else
  r ← f (take n s);
  rassert (size (r ++ drop n s) <=? stack_limit);;
  mret (r ++ drop n s).
Definition result (m : rt Z) : rt (list Z) := r ← m; mret [r].
Definition no_result (m : rt ()) : rt (list Z) := m;; mret [].
Definition runtime0 (m : rt Z) := call_runtime 0 (λ _, result m).
Definition runtime1 (f : Z → rt Z) :=
  call_runtime 1 (λ l, match l with [a] => result (f a) | _ => fails end).
Definition runtime2 (f : Z → Z → rt Z) :=
  call_runtime 2 (λ l, match l with [a; b] => result (f a b) | _ => fails end).
Definition runtime3 (f : Z → Z → Z → rt Z) :=
  call_runtime 3 (λ l, match l with [a; b; c] => result (f a b c) | _ => fails end).
Definition procedure1 (f : Z → rt ()) :=
  call_runtime 1 (λ l, match l with [a] => no_result (f a) | _ => fails end).
Definition procedure2 (f : Z → Z → rt ()) :=
  call_runtime 2 (λ l, match l with [a; b] => no_result (f a b) | _ => fails end).
Definition procedure3 (f : Z → Z → Z → rt ()) :=
  call_runtime 3 (λ l, match l with [a; b; c] => no_result (f a b c) | _ => fails end).

(** ** Arithmetic and comparison (uint256.hpp on the words of the stack) *)
Definition flag (b : bool) : Z := if b then 1 else 0.
Definition word_add (a b : Z) : Z := u256 (a + b).
Definition word_mul (a b : Z) : Z := u256 (a * b).
Definition word_sub (a b : Z) : Z := u256 (a - b).
Definition word_lt (a b : Z) : Z := flag (a <? b).
Definition word_gt (a b : Z) : Z := flag (b <? a).
Definition word_slt (a b : Z) : Z := flag (signed a <? signed b).
Definition word_sgt (a b : Z) : Z := flag (signed b <? signed a).
Definition word_eq (a b : Z) : Z := flag (a =? b).
Definition word_iszero (a : Z) : Z := flag (a =? 0).
Definition word_not (a : Z) : Z := 2 ^ 256 - 1 - a.
Definition word_clz (a : Z) : Z := 256 - bits a.
Definition add := checked 0x01 (top_two word_add).
Definition mul := checked 0x02 (runtime2 (λ a b, mret (word_mul a b))).
Definition sub := checked 0x03 (top_two word_sub).
Definition udiv := checked 0x04 (runtime2 (λ a b, mret (rt_udiv a b))).
Definition sdiv := checked 0x05 (runtime2 (λ a b, mret (rt_sdiv a b))).
Definition umod := checked 0x06 (runtime2 (λ a b, mret (rt_umod a b))).
Definition smod := checked 0x07 (runtime2 (λ a b, mret (rt_smod a b))).
Definition addmod := checked 0x08 (runtime3 (λ a b n, mret (rt_addmod a b n))).
Definition mulmod := checked 0x09 (runtime3 (λ a b n, mret (rt_mulmod a b n))).
Definition exp := checked 0x0a (runtime2 rt_exp).
Definition word_signextend (b x : Z) : Z := if b <? 31 then u256 (sign_extend (8 * (b + 1)) x) else x.
Definition signextend := checked 0x0b (top_two word_signextend).
Definition lt := checked 0x10 (top_two word_lt).
Definition gt := checked 0x11 (top_two word_gt).
Definition slt := checked 0x12 (top_two word_slt).
Definition sgt := checked 0x13 (top_two word_sgt).
Definition eq := checked 0x14 (top_two word_eq).
Definition iszero := checked 0x15 (top_one word_iszero).
Definition and_ := checked 0x16 (top_two Z.land).
Definition or_ := checked 0x17 (top_two Z.lor).
Definition xor_ := checked 0x18 (top_two Z.lxor).
Definition not_ := checked 0x19 (top_one word_not).
Definition word_byte (i x : Z) : Z := if i <? 32 then (x / 2 ^ (8 * (31 - i))) mod 256 else 0.
Definition byte := checked 0x1a (top_two word_byte).
(** A shift by 256 or more leaves nothing, or the sign. *)
Definition word_shl (s x : Z) : Z := if s <? 256 then u256 (x * 2 ^ s) else 0.
Definition word_shr (s x : Z) : Z := if s <? 256 then x / 2 ^ s else 0.
Definition word_sar (s x : Z) : Z := u256 (signed x / 2 ^ Z.min s 256).
Definition shl := checked 0x1b (top_two word_shl).
Definition shr := checked 0x1c (top_two word_shr).
Definition sar := checked 0x1d (top_two word_sar).
Definition clz := checked 0x1e (top_one word_clz).

(** ** Data *)
Definition sha3 := checked 0x20 (runtime2 (rt_sha3 t e keccak256)).
Definition address := checked 0x30 (push_word (env_recipient e)).
Definition balance := checked 0x31 (runtime1 (rt_balance t)).
Definition origin := checked 0x32 (push_word (tx_origin (tx_context e))).
Definition caller := checked 0x33 (push_word (env_sender e)).
Definition callvalue := checked 0x34 (push_word (env_value e)).
Definition calldataload := checked 0x35 (runtime1 (λ i, mret (rt_calldataload e i))).
Definition calldatasize := checked 0x36 (push_word (input_data_size e)).
Definition calldatacopy := checked 0x37 (procedure3 (rt_calldatacopy t e)).
Definition codesize := checked 0x38 (push_word (env_code_size e)).
Definition codecopy := checked 0x39 (procedure3 (rt_codecopy t e)).
Definition gasprice := checked 0x3a (push_word (tx_gas_price (tx_context e))).
Definition extcodesize := checked 0x3b (runtime1 (rt_extcodesize t)).
Definition extcodecopy := checked 0x3c (call_runtime 4 (λ l,
  match l with [a; b; c; d] => no_result (rt_extcodecopy t e a b c d) | _ => fails end)).
Definition returndatasize := checked 0x3d (λ s, d ← gets return_data; push_word (size d) s).
Definition returndatacopy := checked 0x3e (procedure3 (rt_returndatacopy t e)).
Definition extcodehash := checked 0x3f (runtime1 (rt_extcodehash t)).
Definition blockhash := checked 0x40 (runtime1 (rt_blockhash e)).
Definition coinbase := checked 0x41 (push_word (block_coinbase (tx_context e))).
(** [int64_t] values are pushed as unsigned words of 64 bits. *)
Definition timestamp := checked 0x42 (push_word (u64 (block_timestamp (tx_context e)))).
Definition number := checked 0x43 (push_word (u64 (block_number (tx_context e)))).
Definition prevrandao := checked 0x44 (push_word (block_prev_randao (tx_context e))).
Definition gaslimit := checked 0x45 (push_word (u64 (block_gas_limit (tx_context e)))).
Definition chainid := checked 0x46 (push_word (tc_chain_id (tx_context e))).
Definition selfbalance := checked 0x47 (runtime0 (rt_selfbalance e)).
Definition basefee := checked 0x48 (push_word (block_base_fee (tx_context e))).
Definition blobhash := checked 0x49 (runtime1 (λ i, mret (rt_blobhash e i))).
Definition blobbasefee := checked 0x4a (push_word (blob_base_fee (tx_context e))).

(** ** Memory and storage *)
Definition mload := checked 0x51 (runtime1 (rt_mload t e)).
Definition mstore := checked 0x52 (procedure2 (rt_mstore t e)).
Definition mstore8 := checked 0x53 (procedure2 (rt_mstore8 t e)).
Definition mcopy := checked 0x5e (procedure3 (rt_mcopy t e)).
Definition sload := checked 0x54 (runtime1 (rt_sload t e)).
Definition sstore := checked 0x55 (procedure2 (λ k v, rt_sstore t e k v 0)).
Definition tload := checked 0x5c (runtime1 (rt_tload e)).
Definition tstore := checked 0x5d (procedure2 (rt_tstore e)).

(** ** Stack *)
Definition pc : InstrEval := λ fr, checked 0x58 (push_word (instr_ptr fr)) fr.
Definition msize := checked 0x59 (λ s, n ← gets memory_size; push_word n s).
Definition gas := checked 0x5a (λ s, g ← gets gas_remaining; push_word (u64 g) s).
Definition pop := checked 0x50 (λ s, match s with _ :: s => mret s | _ => fails end).
(** The word that [push<n>] reads after [instr_ptr]; [push<0>] reads none. *)
Definition push_operand (n : nat) (ptr : Z) : option Z :=
  match n with
  | O => Some 0
  | _ =>
      if avx2 then
        y ← read_code ic (if bool_decide (n = 32%nat) then ptr + 1 else ptr - (31 - Z.of_nat n)) 32;
        Some (avx2_push n y)
      else
        bytes ← read_code ic (ptr + 1) n;
        Some (to_Z (generic_push n bytes))
  end.
Definition push (n : nat) : InstrEval := λ fr,
  check_requirements t (PUSH0 + Z.of_nat n) (stack fr);;
  match push_operand n (instr_ptr fr) with
  | Some x => s ← push_top x (stack fr); mret (mkFrame s (instr_ptr fr + (Z.of_nat n + 1)))
  | None => fails
  end.
Definition dup (n : nat) := checked (0x80 + (Z.of_nat n - 1)) (λ s,
  match s !! (n - 1)%nat with Some x => push_top x s | None => fails end).
Definition swap (n : nat) := checked (0x90 + (Z.of_nat n - 1)) (λ s,
  match s !! 0%nat, s !! n with Some x, Some y => mret (<[n := x]> (<[0%nat := y]> s)) | _, _ => fails end).

(** ** Control flow *)
Definition jump_impl (target : Z) : rt Z :=
  if target >? 2 ^ 64 - 1 then exit Error
  else
    let jd := u64 target in
    if negb (is_jumpdest ic jd) then exit Error else mret jd.
Definition jump : InstrEval := λ fr,
  check_requirements t 0x56 (stack fr);;
  match stack fr with
  | target :: s => new_ip ← jump_impl target; mret (mkFrame s new_ip)
  | _ => fails
  end.
Definition jumpi : InstrEval := λ fr,
  check_requirements t 0x57 (stack fr);;
  match stack fr with
  | target :: cond :: s =>
      if negb (cond =? 0) then new_ip ← jump_impl target; mret (mkFrame s new_ip)
      else mret (mkFrame s (instr_ptr fr + 1))
  | _ => fails
  end.
Definition jumpdest := checked 0x5b (λ s, mret s).

(** ** Logs, calls and creations *)
Definition log (n : nat) := checked (0xa0 + Z.of_nat n) (call_runtime (2 + n) (λ l,
  match l with offset :: sz :: topics => no_result (log_impl t e offset sz topics) | _ => fails end)).
Definition create := checked 0xf0 (runtime3 (λ v o s, create_impl t e v o s 0 EVMC_CREATE 0)).
Definition create2 := checked 0xf5 (call_runtime 4 (λ l,
  match l with [v; o; s; salt] => result (create_impl t e v o s salt EVMC_CREATE2 0) | _ => fails end)).
Definition call := checked 0xf1 (call_runtime 7 (λ l,
  match l with
  | [g; a; v; ao; asz; ro; rs] => result (call_impl t e g a (negb (v =? 0)) v ao asz ro rs EVMC_CALL false 0)
  | _ => fails
  end)).
Definition callcode := checked 0xf2 (call_runtime 7 (λ l,
  match l with
  | [g; a; v; ao; asz; ro; rs] => result (call_impl t e g a (negb (v =? 0)) v ao asz ro rs EVMC_CALLCODE false 0)
  | _ => fails
  end)).
Definition delegatecall := checked 0xf4 (call_runtime 6 (λ l,
  match l with
  | [g; a; ao; asz; ro; rs] => result (call_impl t e g a false (env_value e) ao asz ro rs EVMC_DELEGATECALL false 0)
  | _ => fails
  end)).
Definition staticcall := checked 0xfa (call_runtime 6 (λ l,
  match l with
  | [g; a; ao; asz; ro; rs] => result (call_impl t e g a false 0 ao asz ro rs EVMC_CALL true 0)
  | _ => fails
  end)).

(** ** The end of a frame *)
Definition return_impl (code : StatusCode) : list Z → rt (list Z) := λ s,
  match s with
  | offset :: sz :: _ => modify (set_result offset sz);; exit code
  | _ => fails
  end.
Definition return_ := checked 0xf3 (return_impl Success).
Definition revert := checked 0xfd (return_impl Revert).
Definition selfdestruct := checked 0xff (procedure1 (rt_selfdestruct t e)).
Definition stop : InstrEval := λ _, exit Success.
Definition invalid : InstrEval := λ _, exit Error.

Definition avail (op : Z) (impl : InstrEval) : InstrEval :=
  if negb (is_unknown_opcode_info t op) then impl else invalid.
Definition instruction_table : list InstrEval :=
  [stop; add; mul; sub; udiv; sdiv; umod; smod; addmod; mulmod; exp; signextend] ++ replicate 4 invalid ++
  [lt; gt; slt; sgt; eq; iszero; and_; or_; xor_; not_; byte; shl; shr; sar; avail 0x1e clz; invalid] ++
  [sha3] ++ replicate 15 invalid ++
  [address; balance; origin; caller; callvalue; calldataload; calldatasize; calldatacopy; codesize; codecopy;
   gasprice; extcodesize; extcodecopy; returndatasize; returndatacopy; extcodehash] ++
  [blockhash; coinbase; timestamp; number; prevrandao; gaslimit; chainid; selfbalance; avail 0x48 basefee;
   avail 0x49 blobhash; avail 0x4a blobbasefee] ++ replicate 5 invalid ++
  [pop; mload; mstore; mstore8; sload; sstore; jump; jumpi; pc; msize; gas; jumpdest; avail 0x5c tload;
   avail 0x5d tstore; avail 0x5e mcopy; avail 0x5f (push 0)] ++
  map push (seq 1 32) ++ map dup (seq 1 16) ++ map swap (seq 1 16) ++
  map log (seq 0 5) ++ replicate 11 invalid ++ replicate 64 invalid ++
  [create; call; callcode; return_; delegatecall; create2] ++ replicate 4 invalid ++
  [staticcall] ++ replicate 2 invalid ++ [revert; invalid; selfdestruct].

(** ** The loop *)
(** [core_loop] and the tail calls between instructions.  Every instruction
    that continues takes gas, so one more step than the gas is enough. *)
Fixpoint core_loop (fuel : nat) (fr : Frame) : rt Empty_set :=
  match fuel with
  | O => fails
  | S fuel =>
      match code_at ic (instr_ptr fr) with
      | Some op =>
          match instruction_table !! Z.to_nat op with
          | Some eval => fr' ← eval fr; core_loop fuel fr'
          | None => fails
          end
      | None => fails
      end
  end.
Definition execute (c : Context) : tree (StatusCode * Context) :=
  tbind (core_loop (S (Z.to_nat (gas_remaining c))) (mkFrame [] 0) c) (λ r,
    match r with Next a _ => match a with end | Exited s c => TRet (s, c) end).
End instructions.

(** ** vm.cpp *)
Definition lift_outcome {A} (o : outcome A) : tree A :=
  match o with Ok a => TRet a | Abort => TStop Abort | Throw s => TStop (Throw s) end.
Section vm_execute.
Context (t : Traits) (keccak256 : list Z → Z) (avx2 : bool) (ctx : evmc_tx_context).
(** the capacity a frame finds, for the message it was started with *)
Context (capacity : evmc_message → Z → Z).
Definition execute_intercode_raw (e : Environment) (c : Context) (ic : Intercode) : tree Result :=
  tbind (execute t e keccak256 avx2 ic c) (λ r, lift_outcome (copy_to_evmc_result t e r.1 r.2)).
Definition execute_bytecode_raw (e : Environment) (c : Context) (code : list Z) : tree Result :=
  tbind (lift_outcome (make_intercode code)) (execute_intercode_raw e c).
(** [VM::execute] with the interpreter and [VM::execute_bytecode]; the code
    of an account has been made into an [Intercode] before. *)
Definition vm_execute_bytecode (msg : evmc_message) (code : list Z) : vm_tree :=
  to_vm (execute_bytecode_raw (environment_from msg code ctx (capacity msg)) (context_from msg) code).
End vm_execute.
