(* ===== verification/PushFacts.v ===== *)
(** * The operand of a push

    Both ways of reading the bytes behind a push (push.hpp), from words and
    with the vector instructions of AVX2, read the number they form, most
    significant byte first, with zeros behind the end of the code. *)
From S2P Require Import Prelude Traits Account VersionStack AccountState BlockState State Methods Words Uint256 Uint256Text CheckedMath Transaction Rlp RlpFacts ReserveBalance Precompiles Host ExecuteMessage Opcodes Runtime Interpreter.

Lemma be_val_le l : be_val l = le_val (rev l).
Proof.
  induction l as [|b l IH]; [done|]. rewrite be_val_cons, IH. cbn [rev]. rewrite le_val_app, length_rev.
  cbn [le_val]. unfold len. lia.
Qed.
Lemma be_val_cat l k : be_val (l ++ k) = be_val l * 256 ^ Z.of_nat (length k) + be_val k.
Proof. rewrite !be_val_le, rev_app_distr, le_val_app, length_rev. lia. Qed.
Lemma le_val_zeros n : le_val (replicate n 0) = 0.
Proof. induction n as [|n IH]; [done|]. cbn [replicate le_val]. lia. Qed.
Lemma be_val_leading_zeros n l : be_val (replicate n 0 ++ l) = be_val l.
Proof. rewrite !be_val_le, rev_app_distr, le_val_app. rewrite le_val_rev_zeros. lia. Qed.
(** ** AVX2 *)
Lemma avx2_shuffle n y : (1 <= n <= 32)%nat → length y = 32%nat →
  shuffle_epi8 (permute4x64_27 y) (avx2_mask n) = rev (drop (32 - n) y) ++ replicate (32 - n) 0.
Proof.
  intros Hn Hy. do 32 (destruct y as [|? y]; [done|]). destruct y; [|done]. clear Hy.
  destruct n as [|n]; [lia|]. do 32 (destruct n as [|n]; [vm_compute; reflexivity|]). lia.
Qed.
Lemma avx2_push_spec n y : (1 <= n <= 32)%nat → length y = 32%nat → avx2_push n y = be_val (drop (32 - n) y).
Proof.
  intros Hn Hy. unfold avx2_push. rewrite avx2_shuffle by done. rewrite le_val_app, le_val_zeros, be_val_le. lia.
Qed.
(** ** Words *)
Lemma read_unaligned_spec l : Forall byte_ok l → length l = 8%nat → read_unaligned l = be_val l.
Proof. intros Hl H8. rewrite be_val_le. by apply byteswap64_val. Qed.
Lemma leading_word_spec k l : Forall byte_ok l → length l = k → (k < 8)%nat →
  (if bool_decide (k = 0%nat) then 0 else byteswap64 (le_val (replicate (8 - k) 0 ++ l))) = be_val l.
Proof.
  intros Hl Hk H8. case_bool_decide as E.
  - destruct l; [done|]. simpl in Hk. lia.
  - rewrite <- (be_val_leading_zeros (8 - k) l). apply read_unaligned_spec.
    + apply Forall_app. split; [|done]. apply Forall_replicate. unfold byte_ok. lia.
    + rewrite length_app, length_replicate. lia.
Qed.
(** A number from its leading bytes and the words behind them. *)
Lemma be_val_split k (l : list Z) : (k <= length l)%nat →
  be_val l = be_val (take k l) * 256 ^ Z.of_nat (length l - k) + be_val (drop k l).
Proof. intros. rewrite <- (take_drop k l) at 1. rewrite be_val_cat, length_drop. done. Qed.
Lemma generic_push_spec n bytes : (n <= 32)%nat → length bytes = n → Forall byte_ok bytes →
  to_Z (generic_push n bytes) = be_val bytes.
Proof.
  intros Hn Hlen Hb. unfold generic_push.
  pose proof (Nat.div_mod n 8 ltac:(lia)) as Hdm. pose proof (Nat.mod_upper_bound n 8 ltac:(lia)) as Hr.
  set (r := (n mod 8)%nat) in *. set (q := (n / 8)%nat) in *. clearbody q r.
  rewrite (leading_word_spec r (take r bytes)); [|by apply Forall_take|rewrite length_take; lia|done].
  assert (Hw : ∀ k, (k < q)%nat → read_unaligned (take 8 (drop (r + 8 * k) bytes)) = be_val (take 8 (drop (r + 8 * k) bytes))).
  { intros k Hk. apply read_unaligned_spec; [by apply Forall_take, Forall_drop|]. rewrite length_take, length_drop. lia. }
  assert (Hstep : ∀ k, (k < q)%nat → be_val (drop (r + 8 * k) bytes) =
     be_val (take 8 (drop (r + 8 * k) bytes)) * 256 ^ Z.of_nat (8 * (q - k - 1)) + be_val (drop (r + 8 * (k + 1)) bytes)).
  { intros k Hk. rewrite (be_val_split 8) by (rewrite length_drop; lia). rewrite drop_drop, length_drop.
    by replace (length bytes - (r + 8 * k) - 8)%nat with (8 * (q - k - 1))%nat by lia;
       replace (r + 8 * k + 8)%nat with (r + 8 * (k + 1))%nat by lia. }
  assert (Hend : be_val (drop (r + 8 * q) bytes) = 0) by by rewrite drop_ge by lia.
  rewrite (be_val_split r bytes) by lia. replace (length bytes - r)%nat with (8 * q)%nat by lia.
  assert (Hr4 : q = 4%nat → be_val (take r bytes) = 0) by (intros ->; by replace r with 0%nat by lia).
  pose proof (Hstep 0%nat) as S0. replace (r + 8 * 0)%nat with r in S0 by lia.
  pose proof (Hstep 1%nat) as S1. pose proof (Hstep 2%nat) as S2. pose proof (Hstep 3%nat) as S3. clear Hstep.
  destruct q as [|[|[|[|[|]]]]]; [..|lia]; rewrite to_Z_eq; cbn [w0 w1 w2 w3]; rewrite ?Hw by lia;
    rewrite ?Nat.mul_0_r, ?Nat.add_0_r in *; cbn [Nat.mul Nat.add Nat.sub] in *; rewrite B_val; lia.
Qed.

(** ** Reading the code *)
Definition code_byte (code : list Z) (i : Z) : Z := if i <? 0 then 0 else default 0 (code !! Z.to_nat i).
Definition code_bytes (code : list Z) (i : Z) (n : nat) : list Z :=
  map (λ k, code_byte code (i + Z.of_nat k)) (seq 0 n).
(** The [n] bytes behind the instruction at [ptr], zeros behind the end. *)
Definition operand_bytes (code : list Z) (ptr : Z) (n : nat) : list Z :=
  take n (drop (Z.to_nat (ptr + 1)) code ++ replicate n 0).
Lemma mapM_map {A B} (f : A → option B) (g : A → B) l : (∀ x, x ∈ l → f x = Some (g x)) → mapM f l = Some (map g l).
Proof.
  induction l as [|x l IH]; intros H; [done|]. cbn [mapM map]. rewrite (H x) by apply list_elem_of_here.
  rewrite IH; [done|]. intros y Hy. apply H. by apply list_elem_of_further.
Qed.
Lemma read_code_spec code ic i n : make_intercode code = Ok ic →
  -30 <= i → i + Z.of_nat n <= size code + 33 → read_code ic i n = Some (code_bytes code i n).
Proof.
  intros Hic Hi Hn. apply mapM_map. intros k Hk%elem_of_seq. apply (code_at_spec code); [done|]. unfold size in Hn. lia.
Qed.
Lemma length_code_bytes code i n : length (code_bytes code i n) = n.
Proof. unfold code_bytes. by rewrite length_map, length_seq. Qed.
Lemma lookup_code_bytes code i n k : (k < n)%nat → code_bytes code i n !! k = Some (code_byte code (i + Z.of_nat k)).
Proof. intros Hk. unfold code_bytes. by rewrite list_lookup_fmap, lookup_seq_lt. Qed.
Lemma operand_bytes_eq code ptr n : 0 <= ptr → code_bytes code (ptr + 1) n = operand_bytes code ptr n.
Proof.
  intros Hp. unfold operand_bytes. apply list_eq_same_length with n; [|by rewrite length_code_bytes|].
  - rewrite length_take, length_app, length_replicate. lia.
  - intros k x y Hk. rewrite lookup_code_bytes, lookup_take_lt by done. intros [= <-]. unfold code_byte.
    destruct (Z.ltb_spec (ptr + 1 + Z.of_nat k) 0); [lia|].
    replace (Z.to_nat (ptr + 1 + Z.of_nat k)) with (Z.to_nat (ptr + 1) + k)%nat by lia. rewrite <- lookup_drop.
    destruct (drop _ code !! k) as [b|] eqn:E.
    + rewrite lookup_app_l by (by eapply lookup_lt_Some). rewrite E. by intros [= ->].
    + apply lookup_ge_None in E. rewrite lookup_app_r by done. rewrite lookup_replicate. by intros [-> _].
Qed.
Lemma drop_code_bytes code i n m : (m <= n)%nat →
  drop (n - m) (code_bytes code i n) = code_bytes code (i + Z.of_nat (n - m)) m.
Proof.
  intros Hm. apply list_eq_same_length with m; [by rewrite length_code_bytes|rewrite length_drop, length_code_bytes; lia|].
  intros k x y Hk. rewrite lookup_drop, !lookup_code_bytes by lia. intros [= <-] [= <-]. f_equal. lia.
Qed.
Lemma code_bytes_ok code i n : Forall byte_ok code → Forall byte_ok (code_bytes code i n).
Proof.
  intros Hc. apply Forall_map, Forall_forall. intros k _. unfold code_byte. assert (byte_ok 0) by (unfold byte_ok; lia).
  case_match; [done|]. destruct (code !! _) eqn:E; [|done]. by eapply Forall_lookup_1.
Qed.
Lemma push_operand_some avx2 code ic n ptr : make_intercode code = Ok ic → (n <= 32)%nat → 0 <= ptr < size code →
  is_Some (push_operand avx2 ic n ptr).
Proof.
  intros Hic Hn Hp. destruct n as [|n]; [by eexists|]. unfold push_operand. destruct avx2.
  - rewrite (read_code_spec code) by (try done; case_bool_decide; lia). by eexists.
  - rewrite (read_code_spec code) by (try done; lia). by eexists.
Qed.
Lemma push_operand_spec avx2 code ic n ptr : make_intercode code = Ok ic → Forall byte_ok code →
  (n <= 32)%nat → 0 <= ptr < size code → push_operand avx2 ic n ptr = Some (be_val (operand_bytes code ptr n)).
Proof.
  intros Hic Hok Hn Hp. rewrite <- operand_bytes_eq by lia. destruct n as [|n]; [done|]. unfold push_operand.
  destruct avx2; rewrite (read_code_spec code) by (try done; try case_bool_decide; lia); cbn [mbind option_bind].
  - rewrite avx2_push_spec by (try apply length_code_bytes; lia). rewrite drop_code_bytes by lia. do 3 f_equal.
    case_bool_decide; lia.
  - rewrite generic_push_spec; [done|lia|apply length_code_bytes|by apply code_bytes_ok].
Qed.

(** C30: the operand of [PUSHn] is the number formed by the [n] bytes behind
    the opcode, the most significant one first and zeros where the code has
    ended.  Both the routine made of words and the one with AVX2 instructions
    read it, and neither leaves the padded code. *)
Theorem push_operand_correct (avx2 : bool) (code : list Z) (ic : Intercode) (n : nat) (ptr : Z) :
  make_intercode code = Ok ic → Forall byte_ok code → (n <= 32)%nat → 0 <= ptr < size code →
  push_operand avx2 ic n ptr = Some (be_val (operand_bytes code ptr n)).
Proof. apply push_operand_spec. Qed.
Definition push_code : list Z := [0x00; 0x63; 1; 2].
Lemma push_operand_correct_witness :
  ∃ ic, make_intercode push_code = Ok ic ∧ push_operand true ic 4 1 = Some 0x01020000 ∧
        push_operand false ic 4 1 = Some 0x01020000.
Proof.
  exists (mkIntercode (replicate 30 0 ++ push_code ++ replicate 33 0) 4 [false; false; false; false]).
  assert (H : make_intercode push_code = Ok (mkIntercode (replicate 30 0 ++ push_code ++ replicate 33 0) 4 [false; false; false; false]))
    by reflexivity.
  assert (Hok : Forall byte_ok push_code) by (repeat constructor; unfold byte_ok; lia).
  split; [done|]. rewrite !(push_operand_correct _ push_code) by (done || unfold size; simpl; lia). done.
Defined.
