(* ===== verification/InterpreterFacts.v ===== *)
(** * The interpreter, its gas and its bounds

    What a frame keeps true while it runs: the gas is never negative and
    never grows, the memory is a whole number of words and has been paid for,
    the stack has at most 1024 words, and every access to the code, the stack
    and the memory is in range.  The proofs are by the weakest preconditions
    of the computations of a frame, which range over every answer of the host
    and every result of a nested message. *)
From S2P Require Import Prelude Traits Account VersionStack AccountState BlockState State Methods Words Uint256 Uint256Text CheckedMath Transaction Rlp RlpFacts ReserveBalance Precompiles Host ExecuteMessage ExecuteMessageFacts Opcodes Runtime Interpreter.

(** ** The memory of the frames of a transaction *)
(** The gas limit up to which parent_total_size cannot fail (types.hpp). *)
Definition transaction_gas_bound : Z := 2 * 10 ^ 9.
Definition sum_of (f : Z → Z) (l : list Z) : Z := foldr (λ w s, f w + s) 0 l.
(** Before a frame at [depth], started with [gas], there are [offset] bytes:
    the regions of the frames around it, each of which has been paid for out
    of the gas of the transaction; with MIP-3 they are within the limit. *)
Definition memory_paid (t : Traits) (depth gas offset : Z) : Prop :=
  (∃ regions, Z.of_nat (length regions) = depth ∧ Forall (λ w, 0 <= w) regions ∧ offset = 32 * sum_of id regions ∧
    sum_of (memory_cost_from_word_count t) regions + gas <= transaction_gas_bound) ∧
  (mip_3_active t = true → offset <= memory_limit).
Record message_safe (t : Traits) (msg : evmc_message) : Prop := {
  ms_gas : 0 <= Precompiles.gas msg;
  ms_depth : 0 <= depth msg <= MAX_DEPTH;
  ms_memory : memory_paid t (depth msg) (Precompiles.gas msg) (memory_offset msg)
}.

Lemma sum_of_snoc f l w : sum_of f (l ++ [w]) = sum_of f l + f w.
Proof. induction l as [|v l IH]; cbn; [lia|]. fold (sum_of f (l ++ [w])) (sum_of f l). lia. Qed.
(** A region of [w] words costs at least 131 [w] - 2^21: what is paid for
    1024 regions of 2^30 bytes in all is more than the bound. *)
Lemma region_cost t w : mip_3_active t = false → 131 * w - 2 ^ 21 <= memory_cost_from_word_count t w.
Proof.
  intros E. unfold memory_cost_from_word_count. rewrite E. assert (128 * w - 2 ^ 21 <= w * w / 512); [|lia].
  apply Z.div_le_lower_bound; [lia|]. pose proof (Z.square_nonneg (w - 32768)). lia.
Qed.
Lemma regions_cost t l : mip_3_active t = false →
  131 * sum_of id l - 2 ^ 21 * Z.of_nat (length l) <= sum_of (memory_cost_from_word_count t) l.
Proof.
  intros E. induction l as [|w l IH]; [done|]. cbn [sum_of foldr length]. fold (sum_of id l) (sum_of (memory_cost_from_word_count t) l).
  pose proof (region_cost t w E). unfold id at 1. lia.
Qed.
Lemma sum_of_nonneg l : Forall (λ w, 0 <= w) l → 0 <= sum_of id l.
Proof. induction 1 as [|w l Hw Hl IH]; [done|]. cbn [sum_of foldr]. fold (sum_of id l). unfold id at 1. lia. Qed.
Definition parent_ok (offset : Z) : Prop := 0 <= offset <= 2 ^ 30 - 1 ∧ Z.land offset 31 = 0.
Lemma land_31 k : Z.land (32 * k) 31 = 0.
Proof. change 31 with (Z.ones 5). rewrite Z.land_ones by lia. change (2 ^ 5) with 32. rewrite Z.mul_comm. apply Z.mod_mul. lia. Qed.
Lemma memory_paid_parent t depth gas offset : memory_paid t depth gas offset → 0 <= depth <= MAX_DEPTH → 0 <= gas → parent_ok offset.
Proof.
  intros [(l & Hl & Hw & -> & Hc) Hlim] Hd Hg. pose proof (sum_of_nonneg l Hw). split; [|apply land_31]. split; [lia|].
  destruct (mip_3_active t) eqn:E; [specialize (Hlim eq_refl); unfold memory_limit in Hlim; lia|].
  pose proof (regions_cost t l E). unfold transaction_gas_bound, MAX_DEPTH in *. lia.
Qed.

Section facts.
Context (t : Traits) (e : Environment) (keccak256 : list Z → Z).
(** [strict]: whether stopping on a failed assertion or an access out of
    range is excluded. *)
Context (strict : Prop).
(** The gas the frame was started with. *)
Context (G : Z).

(** ** Weakest preconditions *)
Definition message_ok (msg : evmc_message) : Prop :=
  0 <= Precompiles.gas msg ∧ (strict → message_safe t msg).
Fixpoint twp {A} (Q : A → Prop) (m : tree A) : Prop :=
  match m with
  | TRet a => Q a
  | THost op k => ∀ x, twp Q (k x)
  | TCall msg k => message_ok msg ∧ twp Q (k None) ∧
      ∀ r, message_result_ok (Precompiles.gas msg) r → twp Q (k (Some r))
  | TStop _ => ¬ strict
  end.
Lemma twp_bind {A C} (Q : C → Prop) (m : tree A) (f : A → tree C) :
  twp (λ a, twp Q (f a)) m → twp Q (tbind m f).
Proof. induction m as [a|X op k IH|msg k IH|o]; simpl; [done|auto|intros (? & ? & ?); auto|done]. Qed.
Lemma twp_mono {A} (P Q : A → Prop) (m : tree A) : (∀ a, P a → Q a) → twp P m → twp Q m.
Proof. intros HPQ. induction m as [a|X op k IH|msg k IH|o]; simpl; [auto|auto|intros (? & ? & ?); auto|done]. Qed.

(** The memory has been paid for, and lies within the bound of MIP-3, behind
    that of the frames around. *)
Definition mem_ok (c : Context) : Prop :=
  ∃ words, 0 <= words ∧ memory_size c = 32 * words ∧ memory_cost c = memory_cost_from_word_count t words ∧
    (strict → parent_ok (parent_memory e) ∧ (mip_3_active t = true → parent_memory e + 32 * words <= memory_limit)).
(** At most [g] gas is left or has been paid for the memory, which has [n]
    bytes or more. *)
Definition at_ (g n : Z) (c : Context) : Prop :=
  mem_ok c ∧ (0 <= gas_remaining c ∧ gas_remaining c + memory_cost c <= g) ∧ n <= memory_size c.
(** What is true of the context when a frame is left. *)
Definition left_ok (s : StatusCode) (c : Context) : Prop :=
  match s with Success | Revert => mem_ok c ∧ gas_remaining c <= G | Error | OutOfGas => True end.
Definition wp {A} (m : rt A) (Q : A → Context → Prop) (c : Context) : Prop :=
  twp (λ r, match r with Next a c' => Q a c' | Exited s c' => left_ok s c' end) (m c).

Lemma rt_wp_bind {A C} (m : rt A) (f : A → rt C) Q c : wp m (λ a, wp (f a) Q) c → wp (m ≫= f) Q c.
Proof. intros H. apply twp_bind. eapply twp_mono; [|exact H]. by intros [a c'|s c']. Qed.
Lemma rt_wp_mono {A} (m : rt A) (P Q : A → Context → Prop) c : (∀ a c', P a c' → Q a c') → wp m P c → wp m Q c.
Proof. intros H. apply twp_mono. intros [a c'|s c']; auto. Qed.
Lemma rt_wp_ret {A} (a : A) (Q : A → Context → Prop) c : Q a c → wp (mret a) Q c.
Proof. done. Qed.
Lemma wp_gets {A} (f : Context → A) Q c : Q (f c) c → wp (gets f) Q c.
Proof. done. Qed.
Lemma wp_modify f (Q : () → Context → Prop) c : Q () (f c) → wp (modify f) Q c.
Proof. done. Qed.
Lemma wp_ask {X} (op : host_op X) (Q : X → Context → Prop) c : (∀ x, Q x c) → wp (ask op) Q c.
Proof. done. Qed.
Lemma wp_call_host msg (Q : option Result → Context → Prop) c : message_ok msg → Q None c →
  (∀ r, message_result_ok (Precompiles.gas msg) r → Q (Some r) c) → wp (call_host msg) Q c.
Proof. done. Qed.
Lemma wp_exit {A} s (Q : A → Context → Prop) c : left_ok s c → wp (exit s) Q c.
Proof. done. Qed.
Lemma wp_fails {A} (Q : A → Context → Prop) c : ¬ strict → wp fails Q c.
Proof. done. Qed.
Lemma wp_rassert b (Q : () → Context → Prop) c : (strict → b = true) → Q () c → wp (rassert b) Q c.
Proof. intros Hb HQ. destruct b; [done|]. intros Hs. by specialize (Hb Hs). Qed.

(** ** Gas and memory *)
Lemma wp_deduct_gas x g n c (Q : () → Context → Prop) : 0 <= x → at_ g n c →
  (at_ g n (set_gas (gas_remaining c - x) c) → Q () (set_gas (gas_remaining c - x) c)) → wp (deduct_gas x) Q c.
Proof.
  intros Hx (Hm & Hg & Hn) HQ. apply rt_wp_bind, wp_modify, rt_wp_bind, wp_gets. cbn [set_gas gas_remaining].
  destruct (Z.ltb_spec (gas_remaining c - x) 0); [by apply wp_exit|]. apply rt_wp_ret, HQ.
  split; [done|]. cbn [set_gas gas_remaining memory_cost]. split; [lia|done].
Qed.
Lemma wp_get_memory_offset o c (Q : Z → Context → Prop) :
  (0 <= o < 2 ^ 28 → Q o c) → wp (get_memory_offset o) Q c.
Proof.
  intros HQ. unfold get_memory_offset, is_bounded_by_bits, offset_bits.
  destruct (Z.leb_spec 0 o), (Z.ltb_spec o (2 ^ 28)); try by apply wp_exit. apply rt_wp_ret, HQ. lia.
Qed.
Lemma word_count_spec m : 0 <= m → m <= 32 * word_count m < m + 32.
Proof. intros Hm. unfold word_count. rewrite Z.shiftr_div_pow2 by lia. change (2 ^ 5) with 32.
  pose proof (Z.div_mod (m + 31) 32 ltac:(lia)). pose proof (Z.mod_pos_bound (m + 31) 32 ltac:(lia)). lia. Qed.
Lemma cost_mono w w' : 0 <= w <= w' → memory_cost_from_word_count t w <= memory_cost_from_word_count t w'.
Proof.
  intros Hw. unfold memory_cost_from_word_count. destruct (mip_3_active t).
  - rewrite !Z.shiftr_div_pow2 by lia. apply Z.div_le_mono; lia.
  - pose proof (Z.div_le_mono (w * w) (w' * w') 512 ltac:(lia) ltac:(nia)). lia.
Qed.
Lemma size_app (l k : list Z) : size (l ++ k) = size l + size k.
Proof. unfold size. rewrite length_app. lia. Qed.
Lemma size_replicate n (x : Z) : 0 <= n → size (replicate (Z.to_nat n) x) = n.
Proof. unfold size. rewrite length_replicate. lia. Qed.
Lemma mem_cost_nonneg c : mem_ok c → 0 <= memory_cost c.
Proof.
  intros (w & Hw & _ & -> & _). replace 0 with (memory_cost_from_word_count t 0) at 1; [by apply cost_mono|].
  unfold memory_cost_from_word_count. by destruct (mip_3_active t).
Qed.
Lemma wp_parent_total_size c (Q : Z → Context → Prop) : mem_ok c → Q (parent_memory e) c → wp (parent_total_size e) Q c.
Proof.
  intros (w0 & _ & _ & _ & Hp) HQ. unfold parent_total_size. repeat apply rt_wp_bind, wp_rassert;
    try (intros [[Hb Ha] _]%Hp; lia). by apply rt_wp_ret.
Qed.
Lemma wp_increase_capacity w old c (Q : () → Context → Prop) : mem_ok c → old < 32 * w → Q () c → wp (increase_capacity e old (32 * w)) Q c.
Proof.
  intros Hm Ho HQ. unfold increase_capacity. apply rt_wp_bind, wp_rassert; [intros _; by rewrite land_31|].
  apply rt_wp_bind, wp_rassert; [intros _; lia|]. apply rt_wp_bind, wp_parent_total_size; [done|].
  assert (Hal : strict → ∃ k, parent_memory e + 32 * w = 32 * k).
  { destruct Hm as (w0 & _ & _ & _ & Hp). intros [[_ Ha] _]%Hp. change 31 with (Z.ones 5) in Ha. rewrite Z.land_ones in Ha by lia.
    exists (parent_memory e / 32 + w). pose proof (Z.div_mod (parent_memory e) 32). change (2 ^ 5) with 32 in Ha. lia. }
  apply rt_wp_bind, wp_rassert; [intros [k ->]%Hal; by rewrite land_31|]. apply wp_rassert; [|done].
  intros [k ->]%Hal. rewrite Z.shiftl_mul_pow2 by lia. replace (32 * k * 2 ^ 1) with (32 * (2 * k)) by lia. by rewrite land_31.
Qed.
Lemma wp_in_bound w c (Q : bool → Context → Prop) :
  mem_ok c → (∀ b, (b = true → mip_3_active t = true → parent_memory e + w <= memory_limit) → Q b c) →
  wp (is_memory_size_in_bound t e w) Q c.
Proof.
  intros Hm HQ. unfold is_memory_size_in_bound. destruct (mip_3_active t) eqn:Em.
  - apply rt_wp_bind, wp_parent_total_size; [done|]. apply rt_wp_ret, HQ. intros H _. apply Z.leb_le in H. lia.
  - by apply rt_wp_ret, HQ.
Qed.
Lemma wp_expand_memory m g n c (Q : () → Context → Prop) : 0 <= m → at_ g n c →
  (∀ c', at_ g (Z.max n m) c' → Q () c') → wp (expand_memory t e m) Q c.
Proof.
  intros Hm Hat HQ. pose proof Hat as (Hmem & Hg & Hn). unfold expand_memory. apply rt_wp_bind, wp_gets.
  destruct (Z.ltb_spec (memory_size c) m) as [Hlt|Hge]; [|by apply rt_wp_ret, HQ; repeat split; try done; lia].
  pose proof (word_count_spec m Hm) as Hwc. destruct Hmem as (w & Hw & Hsz & Hcost & Hlim).
  apply rt_wp_bind, wp_in_bound; [by exists w|]. intros b Hb. apply rt_wp_bind.
  destruct b; [|by apply wp_exit]. apply rt_wp_ret, rt_wp_bind, wp_gets, rt_wp_bind, wp_rassert.
  { intros _. rewrite Hcost, Z.geb_leb. apply Z.leb_le, cost_mono. lia. }
  apply rt_wp_bind. rewrite Hcost. eapply wp_deduct_gas; [|exact Hat|].
  { pose proof (cost_mono w (word_count m)). lia. }
  intros (_ & Hg' & _). apply rt_wp_bind, wp_modify. rewrite Z.shiftl_mul_pow2 by lia. change (2 ^ 5) with 32.
  assert (Hs : size (memory c ++ replicate (Z.to_nat (word_count m * 32 - memory_size c)) 0) = 32 * word_count m).
  { rewrite size_app, size_replicate by lia. unfold memory_size. lia. }
  set (c' := set_memory _ _ _). assert (Hat' : at_ g (Z.max n m) c').
  { unfold c', at_, mem_ok, memory_size in *. cbn [set_memory set_gas memory memory_cost gas_remaining] in *. rewrite Hs.
    split; [|split; [rewrite Hcost in *; lia|lia]]. exists (word_count m). split_and!; [lia|done|done|].
    intros Hst. split; [by apply Hlim|]. intros H3. specialize (Hb eq_refl H3). rewrite Z.shiftl_mul_pow2 in Hb by lia. lia. }
  apply rt_wp_bind, wp_gets. destruct (_ <? _); [|by apply rt_wp_ret, HQ].
  replace (word_count m * 32) with (32 * word_count m) by lia. apply wp_increase_capacity; [apply Hat'|lia|by apply HQ].
Qed.
Lemma size_drop (l : list Z) o : 0 <= o <= size l → size (drop (Z.to_nat o) l) = size l - o.
Proof. unfold size. rewrite length_drop. lia. Qed.
Lemma size_take (l : list Z) o : 0 <= o <= size l → size (take (Z.to_nat o) l) = o.
Proof. unfold size. rewrite length_take. lia. Qed.
Lemma wp_read_memory o k g n c (Q : list Z → Context → Prop) : at_ g n c → 0 <= o → 0 <= k → o + k <= n →
  (∀ l, size l = k → Q l c) → wp (read_memory o k) Q c.
Proof.
  intros (Hmem & Hg & Hn) Ho Hk Hok HQ. unfold memory_size in Hn. apply rt_wp_bind, wp_gets, rt_wp_bind, wp_rassert.
  { intros _. rewrite !andb_true_iff, !Z.leb_le. lia. }
  apply rt_wp_ret, HQ. rewrite size_take; [done|]. rewrite size_drop; lia.
Qed.
Lemma wp_write_memory o b g n c (Q : () → Context → Prop) : at_ g n c → 0 <= o → o + size b <= n →
  (∀ c', at_ g n c' → Q () c') → wp (write_memory o b) Q c.
Proof.
  intros (Hmem & Hg & Hn) Ho Hok HQ. apply rt_wp_bind, wp_gets, rt_wp_bind, wp_rassert.
  { intros _. unfold id. rewrite andb_true_iff, !Z.leb_le. lia. }
  apply wp_modify, HQ. assert (Hs : size (splice (memory c) o b) = memory_size c).
  { unfold splice, memory_size in *. unfold size in *. rewrite !length_app, length_take, length_drop. lia. }
  unfold at_, mem_ok, memory_size in *. cbn [set_memory memory memory_cost gas_remaining id]. by rewrite Hs.
Qed.

(** ** The operations of the runtime *)
(** An operation keeps the invariant and does not add gas. *)
Definition op_ok {A} (m : rt A) : Prop := ∀ g c (Q : A → Context → Prop),
  g <= G → at_ g 0 c → (∀ a c', at_ g 0 c' → Q a c') → wp m Q c.
Lemma at_weaken g n n' c : at_ g n c → n' <= n → at_ g n' c.
Proof. intros (? & ? & ?) ?. repeat split; try done; lia. Qed.
Lemma size_ge_0 (l : list Z) : 0 <= size l.
Proof. unfold size. lia. Qed.
Lemma words_cost_nonneg sz p : 0 <= sz → 0 <= p → 0 <= words_cost sz p.
Proof. intros. unfold words_cost. pose proof (word_count_spec sz). nia. Qed.
Lemma cold_costs : 0 <= cold_account_cost t ∧ 0 <= cold_storage_cost t.
Proof. unfold cold_account_cost, cold_storage_cost. split; case_match; lia. Qed.
Lemma significant_bytes_nonneg x : 0 <= significant_bytes x.
Proof.
  unfold significant_bytes, bits. case_match; [done|]. pose proof (Z.log2_nonneg x). apply Z.div_pos; lia.
Qed.
Lemma store_cost_min st : 100 <= gas_cost (store_cost t st).
Proof. unfold store_cost. case_match; destruct st; simpl; lia. Qed.
Lemma wp_access_cost a g n c (Q : () → Context → Prop) : at_ g n c → (∀ c', at_ g n c' → Q () c') →
  wp (access_cost t a) Q c.
Proof.
  intros Hat HQ. apply rt_wp_bind, wp_ask. intros [|]; [|by apply rt_wp_ret, HQ].
  eapply wp_deduct_gas; [apply cold_costs|done|]. intros H. by apply HQ.
Qed.
Lemma at_left_ok g n s c : at_ g n c → g <= G → left_ok s c.
Proof. intros (Hm & ? & ?) ?. pose proof (mem_cost_nonneg c Hm). destruct s; try done; split; try done; lia. Qed.
(** As [at_], when more has been charged than there may be. *)
Definition loose (g n : Z) (c : Context) : Prop := mem_ok c ∧ gas_remaining c + memory_cost c <= g ∧ n <= memory_size c.
Lemma wp_charge x g n c (Q : () → Context → Prop) : loose g n c →
  (∀ c', loose (g - x) n c' → Q () c') → wp (charge x) Q c.
Proof.
  intros (? & ? & ?) HQ. apply wp_modify, HQ. split; [done|]. cbn [set_gas gas_remaining memory_cost]. split; [lia|done].
Qed.
Lemma loose_at g n c : loose g n c → 0 <= gas_remaining c → at_ g n c.
Proof. intros (? & ? & ?) ?. repeat split; try done; lia. Qed.
Lemma at_loose g n c : at_ g n c → loose g n c.
Proof. intros (? & ? & ?). repeat split; try done; lia. Qed.
Lemma loose_mono g g' n c : loose g n c → g <= g' → loose g' n c.
Proof. intros (? & ? & ?) ?. repeat split; try done; lia. Qed.
Lemma at_mono g g' n c : at_ g n c → g <= g' → at_ g' n c.
Proof. intros (? & ? & ?) ?. repeat split; try done; lia. Qed.
Lemma wp_deduct x g n c (Q : () → Context → Prop) : 0 <= x → at_ g n c →
  (∀ c', at_ g n c' → Q () c') → wp (deduct_gas x) Q c.
Proof. intros Hx Hat HQ. eapply wp_deduct_gas; [done|done|]. apply HQ. Qed.
(** A nested frame starts behind the memory of this one, which has been paid
    for, with gas this one still has. *)
Context (Hpaid : strict → memory_paid t (env_depth e) G (parent_memory e)).
Lemma nested_paid g n c gas : g <= G → at_ g n c → strict → gas <= gas_remaining c →
  memory_paid t (env_depth e + 1) gas (parent_memory e + memory_size c).
Proof using Hpaid.
  intros HG ((w & Hw & Hs & Hc & Hlim) & Hg & _) Hst Hgas. destruct (Hpaid Hst) as [(l & Hl & Hls & Hp & Hcost) _]. split.
  - exists (l ++ [w]). rewrite length_app, !sum_of_snoc, Hp, <- Hc. change (id w) with w. cbn [length]. split_and!; [lia| |lia|lia].
    apply Forall_app. split; [done|]. by constructor.
  - rewrite Hs. by apply Hlim.
Qed.
Lemma wp_nested msg g n c (Q : option Result → Context → Prop) : g <= G → at_ g n c → 0 <= Precompiles.gas msg <= gas_remaining c →
  memory_offset msg = parent_memory e + memory_size c → depth msg = env_depth e + 1 → (env_depth e >=? MAX_DEPTH) = false → Q None c →
  (∀ r, message_result_ok (Precompiles.gas msg) r → Q (Some r) c) → wp (call_host msg) Q c.
Proof using Hpaid.
  intros HG Hat Hg Ho Hd Hmax. apply wp_call_host. split; [lia|]. intros Hst. split; [lia| |].
  - destruct (Hpaid Hst) as [(l & Hl & _) _]. lia.
  - rewrite Ho, Hd. apply (nested_paid g n); [done|done|done|lia].
Qed.
End facts.

(** One step of a computation: the memory assertion at hand moves along. *)
Ltac rt_cost :=
  first [lia | apply words_cost_nonneg; lia | match goal with |- context [significant_bytes ?x] => pose proof (significant_bytes_nonneg x) end; lia
        | match goal with |- context [store_cost ?t ?st] => pose proof (store_cost_min t st) end;
          unfold minimum_store_gas; lia
        | match goal with |- context [?t] => is_var t; pose proof (cold_costs t) end; unfold minimum_store_gas; lia
        | unfold minimum_store_gas, base_sstore_cost, page_write_cost, page_growth_cost; repeat case_match; lia].
Ltac rt_step :=
  lazymatch goal with
  | |- wp _ _ _ _ (mbind _ _) _ _ => apply rt_wp_bind
  | |- wp _ _ _ _ (mret _) _ _ => apply rt_wp_ret
  | |- wp _ _ _ _ (exit OutOfGas) _ _ => by apply wp_exit
  | |- wp _ _ _ _ (exit Error) _ _ => by apply wp_exit
  | H : at_ _ _ _ _ _ _ |- wp _ _ _ _ (exit Success) _ _ => apply wp_exit; eapply at_left_ok; [exact H|lia]
  | |- wp _ _ _ _ (gets _) _ _ => apply wp_gets
  | |- wp _ _ _ _ (ask _) _ _ => apply wp_ask; intros ?
  | |- wp _ _ _ _ (if ?b then _ else _) _ _ => destruct b eqn:?
  | |- wp _ _ _ _ (match ?b with MONAD_ACCESS_COLD => _ | MONAD_ACCESS_WARM => _ end) _ _ => destruct b
  | |- wp _ _ _ _ (get_memory_offset _) _ _ => apply wp_get_memory_offset; intros ?
  | H : at_ _ _ _ _ _ _ |- wp _ _ _ _ (deduct_gas _) _ _ =>
      eapply wp_deduct; [try rt_cost|exact H|clear H; intros ? H]
  | H : at_ _ _ _ _ _ _ |- wp _ _ _ _ (access_cost _ _) _ _ =>
      eapply wp_access_cost; [exact H|clear H; intros ? H]
  | H : at_ _ _ _ _ _ _ |- wp _ _ _ _ (expand_memory _ _ _) _ _ =>
      eapply wp_expand_memory; [try lia|exact H|clear H; intros ? H]
  | H : at_ _ _ _ _ _ _ |- wp _ _ _ _ (read_memory _ _) _ _ =>
      eapply wp_read_memory; [exact H|try lia..|intros ? ?]
  | H : at_ ?t ?e ?s ?g ?n ?c |- wp _ _ _ _ (modify ?f) _ _ =>
      let H' := fresh in assert (H' : at_ t e s g n (f c)) by exact H; apply wp_modify; clear H; rename H' into H
  end.
Section operations.
Context (t : Traits) (e : Environment) (keccak256 : list Z → Z) (strict : Prop) (G : Z).
Context (Hpaid : strict → memory_paid t (env_depth e) G (parent_memory e)).
#[local] Abbreviation op_ok := (op_ok t e strict G).

(** The steps of an operation up to its end, where the invariant is at hand. *)
Ltac rt_done HQ := first [eapply HQ, at_weaken; [eassumption|lia] | idtac].
Ltac rt_op HQ := repeat rt_step; rt_done HQ.
Ltac rt_write HQ := eapply wp_write_memory; [eassumption|lia| |intros ? ?; rt_op HQ].
Lemma size_zeros n : 0 <= n → size (zeros n) = n.
Proof. apply size_replicate. Qed.
Lemma size_be_bytes n v : size (be_bytes n v) = Z.of_nat n.
Proof. unfold size. by rewrite be_bytes_length. Qed.

Lemma rt_exp_ok a x : op_ok (rt_exp a x).
Proof. intros g c Q HG Hat HQ. unfold rt_exp. rt_op HQ. Qed.
Lemma rt_sha3_ok o s : op_ok (rt_sha3 t e keccak256 o s).
Proof. intros g c Q HG Hat HQ. unfold rt_sha3. rt_op HQ. Qed.
Lemma rt_mload_ok o : op_ok (rt_mload t e o).
Proof. intros g c Q HG Hat HQ. unfold rt_mload. rt_op HQ. Qed.
Lemma rt_mstore_ok o v : op_ok (rt_mstore t e o v).
Proof.
  intros g c Q HG Hat HQ. unfold rt_mstore. rt_op HQ. rt_write HQ. rewrite size_be_bytes. lia.
Qed.
Lemma rt_mstore8_ok o v : op_ok (rt_mstore8 t e o v).
Proof. intros g c Q HG Hat HQ. unfold rt_mstore8. rt_op HQ. rt_write HQ. unfold size. simpl. lia. Qed.
Lemma rt_mcopy_ok d s n : op_ok (rt_mcopy t e d s n).
Proof. intros g c Q HG Hat HQ. unfold rt_mcopy. rt_op HQ. rt_write HQ. lia. Qed.
Lemma rt_balance_ok a : op_ok (rt_balance t a).
Proof. intros g c Q HG Hat HQ. unfold rt_balance. rt_op HQ. Qed.
Lemma rt_extcodehash_ok a : op_ok (rt_extcodehash t a).
Proof. intros g c Q HG Hat HQ. unfold rt_extcodehash. rt_op HQ. Qed.
Lemma rt_extcodesize_ok a : op_ok (rt_extcodesize t a).
Proof. intros g c Q HG Hat HQ. unfold rt_extcodesize. rt_op HQ. Qed.
(** What [copy_impl] writes fills the destination exactly. *)
Lemma size_copied (source : list Z) len start sz : 0 <= start <= len → 0 <= sz → len <= size source →
  size (take (Z.to_nat (Z.min sz (len - start))) (drop (Z.to_nat start) source)
        ++ zeros (sz - Z.min sz (len - start))) = sz.
Proof. intros. rewrite size_app, size_zeros, size_take by (rewrite ?size_drop; lia). lia. Qed.
Lemma copy_impl_ok d o s source len : 0 <= len <= size source → op_ok (copy_impl t e d o s source len).
Proof.
  intros Hlen g c Q HG Hat HQ. unfold copy_impl. rt_op HQ. rt_write HQ. rewrite size_copied; [lia| |lia|lia].
  unfold is_bounded_by_bits. case_match; lia.
Qed.
Lemma u32_size (l : list Z) : 0 <= u32 (size l) <= size l.
Proof.
  pose proof (size_ge_0 l). unfold u32. split; [apply Z.mod_pos_bound; lia|apply Z.mod_le; lia].
Qed.
Lemma rt_calldatacopy_ok d o s : op_ok (rt_calldatacopy t e d o s).
Proof. apply copy_impl_ok, u32_size. Qed.
Lemma rt_codecopy_ok d o s : op_ok (rt_codecopy t e d o s).
Proof. apply copy_impl_ok, u32_size. Qed.
Lemma rt_returndatacopy_ok d o s : op_ok (rt_returndatacopy t e d o s).
Proof.
  intros g c Q HG Hat HQ. unfold rt_returndatacopy. rt_op HQ. rt_write HQ.
  pose proof (size_ge_0 (return_data c)). unfold clamp_cast, is_bounded_by_bits in *.
  rewrite size_take by (rewrite ?size_drop; case_match; lia). lia.
Qed.
Lemma rt_extcodecopy_ok a d o s : op_ok (rt_extcodecopy t e a d o s).
Proof.
  intros g c Q HG Hat HQ. unfold rt_extcodecopy. rt_op HQ; try lia. rt_write HQ.
  match goal with |- context [take ?k ?l] => assert (Hk : size (take k l) <= s) end.
  { unfold size. rewrite length_take. lia. }
  rewrite size_app, size_zeros by lia. lia.
Qed.
Lemma rt_blockhash_ok n : op_ok (rt_blockhash e n).
Proof. intros g c Q HG Hat HQ. unfold rt_blockhash. rt_op HQ. Qed.
Lemma rt_selfbalance_ok : op_ok (rt_selfbalance e).
Proof. intros g c Q HG Hat HQ. unfold rt_selfbalance. rt_op HQ. Qed.
Lemma log_impl_ok o s topics : op_ok (log_impl t e o s topics).
Proof. intros g c Q HG Hat HQ. unfold log_impl. rt_op HQ. Qed.
Lemma rt_sload_ok k : op_ok (rt_sload t e k).
Proof. intros g c Q HG Hat HQ. unfold rt_sload. rt_op HQ. Qed.
Lemma rt_sstore_ok k v r : op_ok (rt_sstore t e k v r).
Proof. intros g c Q HG Hat HQ. unfold rt_sstore. rt_op HQ. Qed.
Lemma rt_tload_ok k : op_ok (rt_tload e k).
Proof. intros g c Q HG Hat HQ. unfold rt_tload. rt_op HQ. Qed.
Lemma rt_tstore_ok k v : op_ok (rt_tstore e k v).
Proof. intros g c Q HG Hat HQ. unfold rt_tstore. rt_op HQ. Qed.
Lemma rt_selfdestruct_ok {A} a : op_ok (rt_selfdestruct t e (A:=A) a).
Proof. intros g c Q HG Hat HQ. unfold rt_selfdestruct. rt_op HQ. Qed.

(** *** Nested messages *)
Lemma wp_resolve_delegation a c (Q : option Z → Context → Prop) :
  (∀ r, Q r c) → wp t e strict G (rt_resolve_delegation a) Q c.
Proof. intros HQ. apply rt_wp_bind, wp_ask. intros code. apply rt_wp_ret, HQ. Qed.
Lemma all_but_64th g : 0 <= g → 0 <= g - g / 64 <= g.
Proof. intros. pose proof (Z.div_pos g 64). pose proof (Z.div_le_upper_bound g 64 g). lia. Qed.
Lemma create_impl_ok v o s salt k : op_ok (create_impl t e v o s salt k 0).
Proof.
  intros g c Q HG Hat HQ. unfold create_impl. destruct (is_static e); [by apply wp_exit|].
  apply rt_wp_bind. match goal with |- wp _ _ _ _ ?m ?R _ => apply (rt_wp_mono t e strict G m (λ _ c', c' = c)) end; cycle 1.
  { case_match; [|done]. apply rt_wp_bind, wp_resolve_delegation. intros [|]; [by apply wp_exit|done]. }
  intros _ ? ->.
  repeat rt_step; rt_done HQ;
    try (apply words_cost_nonneg; [lia|unfold create_code_word_cost, create2_code_word_cost; repeat case_match; lia]).
  all: pose proof Hat as (_ & Hg & _); 
    match goal with |- wp _ _ _ _ _ _ ?c => pose proof (all_but_64th (gas_remaining c + 0) ltac:(lia)) as Hgas end.
  all: eapply (wp_nested t e strict G Hpaid); [exact HG|exact Hat|cbn [Precompiles.gas]; lia|done|done|done|rt_op HQ|].
  all: intros r [Hr _]; cbn [Precompiles.gas] in Hr; rt_op HQ.
Qed.
Lemma clamp_cast_nonneg n x : 0 <= n → 0 <= clamp_cast n x.
Proof.
  intros Hn. unfold clamp_cast, is_bounded_by_bits. pose proof (Z.pow_pos_nonneg 2 n ltac:(lia) Hn). case_match; lia.
Qed.
Lemma wp_keep {A} (m : rt A) (P Q : A → Context → Prop) c :
  wp t e strict G m P c → (∀ a c', P a c' → Q a c') → wp t e strict G m Q c.
Proof. intros H HQ. by eapply rt_wp_mono. Qed.
(** The parts of [call_impl] that only charge gas. *)
Lemma wp_optional_offset (b : bool) o c :
  wp t e strict G (if b then get_memory_offset o else mret 0) (λ o c', 0 <= o < 2 ^ 28 ∧ c' = c) c.
Proof. destruct b; repeat rt_step; split; done || lia. Qed.
Lemma wp_code_address dest g n c : at_ t e strict g n c →
  wp t e strict G
    (if evm_rev t >=? MONAD_ETH_PRAGUE then
       delegate ← rt_resolve_delegation dest;
       match delegate with
       | Some a =>
           status ← ask (h_access_account a);
           charge ((match status with MONAD_ACCESS_COLD => cold_account_cost t | MONAD_ACCESS_WARM => 0 end) + 100);;
           mret a
       | None => mret dest
       end
     else mret dest) (λ _, loose t e strict g n) c.
Proof.
  intros Hat%at_loose. destruct (_ >=? _); [|done]. apply rt_wp_bind, wp_resolve_delegation. intros [a|]; [|done].
  apply rt_wp_bind, wp_ask. intros status. apply rt_wp_bind. eapply wp_charge; [done|]. intros c' Hl. apply rt_wp_ret.
  eapply loose_mono; [done|]. pose proof (cold_costs t). destruct status; lia.
Qed.
Lemma wp_call_value (hv : bool) dest rb g n c : loose t e strict g n c →
  wp t e strict G
    ((if hv && is_static e then
        g ← gets gas_remaining;
        exit (if g + rb <? 0 then OutOfGas else Error)
      else mret ());;
     if hv then
       exists_ ← ask (h_account_exists dest);
       if negb exists_ then charge 25000 else mret ()
     else mret ()) (λ _, loose t e strict g n) c.
Proof.
  intros Hl. apply rt_wp_bind. destruct hv; simpl; [|done]. destruct (is_static e).
  { apply rt_wp_bind, wp_gets. by case_match; apply wp_exit. }
  apply rt_wp_ret, rt_wp_bind, wp_ask. intros [|]; simpl; [done|]. eapply wp_charge; [done|]. intros c' Hl'.
  eapply loose_mono; [done|lia].
Qed.
Lemma call_impl_ok gw a hv v ao asz ro rs k st : op_ok (call_impl t e gw a hv v ao asz ro rs k st 0).
Proof.
  intros g c Q HG Hat HQ. unfold call_impl.
  apply rt_wp_bind. rt_step. apply rt_wp_bind, wp_get_memory_offset. intros Hasz. apply rt_wp_bind.
  eapply wp_keep; [apply wp_optional_offset|]. intros args_offset ? [Hao ->].
  apply rt_wp_bind, wp_get_memory_offset. intros Hrs. apply rt_wp_bind.
  eapply wp_keep; [apply wp_optional_offset|]. intros ret_offset ? [Hro ->]. do 4 rt_step.
  apply rt_wp_bind. eapply wp_keep; [by apply wp_code_address|]. intros code_address c1 Hl.
  set (n := 0 `max` _) in Hl. set (g1 := if hv then g - 9000 else g).
  apply rt_wp_bind. apply (wp_keep _ (λ _, loose t e strict g1 n)).
  { unfold g1. destruct hv; [|done]. eapply wp_charge; [exact Hl|done]. }
  clear Hl. intros _ c2 Hl. apply rt_wp_bind. apply (wp_keep _ (λ _, loose t e strict g1 n)).
  { destruct (bool_decide _); [by apply wp_call_value|done]. }
  clear Hl. intros _ c3 Hl. apply rt_wp_bind, wp_gets. destruct (Z.ltb_spec (gas_remaining c3 + 0) 0) as [|Hpos]; [by apply wp_exit|].
  pose proof (all_but_64th _ Hpos) as H64. pose proof (clamp_cast_nonneg 63 gw ltac:(lia)) as Hcl.
  set (sent := Z.min _ _). assert (Hsent : 0 <= sent) by lia.
  apply rt_wp_bind. apply (wp_keep _ (λ _ c', at_ t e strict g n c' ∧ (if hv then sent + 2300 else sent) <= gas_remaining c')).
  { unfold g1 in Hl. destruct hv; [|apply rt_wp_ret; split; [apply loose_at; [done|lia]|lia]].
    apply wp_modify. cbn [set_gas gas_remaining]. split; [apply loose_at; [|cbn [set_gas gas_remaining]; lia]|lia].
    destruct Hl as (? & ? & ?). split; [done|]. cbn [set_gas gas_remaining memory_cost]. split; [lia|done]. }
  intros _ c4 [Hat' Hle]. destruct (env_depth e >=? MAX_DEPTH) eqn:Hmax; [rt_op HQ|]. apply rt_wp_bind.
  eapply wp_read_memory; [exact Hat'|lia|lia|lia|]. intros input Hin. apply rt_wp_bind, wp_gets, rt_wp_bind.
  eapply (wp_nested t e strict G Hpaid); [exact HG|exact Hat'|cbn [Precompiles.gas]; destruct hv; lia|done|done|done|by rt_op HQ|].
  intros r [Hr _]. cbn [Precompiles.gas] in Hr. clear Hat. repeat rt_step. eapply wp_write_memory; [eassumption|lia| |].
  - assert (size (take (Z.to_nat (Z.min rs (size (output_data r)))) (output_data r)) <= rs); [|lia].
    pose proof (size_ge_0 (output_data r)). rewrite size_take; lia.
  - intros c6 H6. rt_op HQ.
Qed.
End operations.
