(* ===== verification/InterpreterSafety.v ===== *)
(** * The interpreter does not go wrong

    Every instruction keeps the invariant of a frame and takes gas, so that
    the loop ends, and everything it reads is in range.  Hence the
    interpreter accounts for gas as [message_gas] asks of a virtual machine. *)
From S2P Require Import Prelude Traits Account VersionStack AccountState BlockState State Methods Words Uint256 Uint256Text CheckedMath Transaction Rlp RlpFacts ReserveBalance Precompiles Host ExecuteMessage ExecuteMessageFacts Opcodes Runtime Interpreter PushFacts InterpreterFacts.

Section safety.
Context (t : Traits) (e : Environment) (keccak256 : list Z → Z) (strict : Prop) (G : Z) (avx2 : bool) (ic : Intercode).
Context (Hpaid : strict → memory_paid t (env_depth e) G (parent_memory e)).
#[local] Abbreviation wp := (wp t e strict G).
#[local] Abbreviation at_ := (at_ t e strict).
#[local] Abbreviation op_ok := (op_ok t e strict G).

(** ** Bodies of instructions *)
(** A body takes [pops] words off the stack and puts [pushes] on it, where
    there is room for them. *)
Definition body_ok (pops pushes : Z) (body : list Z → rt (list Z)) : Prop :=
  ∀ s g c (Q : list Z → Context → Prop), g <= G → at_ g 0 c → pops <= size s → size s - pops + pushes <= stack_limit →
    (∀ s' c', at_ g 0 c' → size s' = size s - pops + pushes → Q s' c') → wp (body s) Q c.
Lemma size_cons (x : Z) l : size (x :: l) = 1 + size l.
Proof. unfold size. simpl. lia. Qed.
Lemma top_two_ok f : body_ok 2 1 (top_two f).
Proof.
  intros [|a [|b s]] g c Q HG Hat Hs Hroom HQ; rewrite ?size_cons in *; try (unfold size in Hs; simpl in Hs; lia).
  apply rt_wp_ret, HQ; [done|]. rewrite !size_cons. lia.
Qed.
Lemma top_one_ok f : body_ok 1 1 (top_one f).
Proof.
  intros [|a s] g c Q HG Hat Hs Hroom HQ; rewrite ?size_cons in *; try (unfold size in Hs; simpl in Hs; lia).
  apply rt_wp_ret, HQ; [done|]. rewrite !size_cons. lia.
Qed.
Lemma wp_push_top x s c (Q : list Z → Context → Prop) : size s < stack_limit → Q (x :: s) c → wp (push_top x s) Q c.
Proof. intros Hs HQ. apply rt_wp_bind, wp_rassert; [intros _; lia|]. by apply rt_wp_ret. Qed.
Lemma push_word_ok x : body_ok 0 1 (push_word x).
Proof. intros s g c Q HG Hat Hs Hroom HQ. apply wp_push_top; [lia|]. apply HQ; [done|]. rewrite size_cons. lia. Qed.
Definition results_ok (n : Z) (m : rt (list Z)) : Prop := ∀ g c (Q : list Z → Context → Prop),
  g <= G → at_ g 0 c → (∀ l c', at_ g 0 c' → size l = n → Q l c') → wp m Q c.
Lemma result_ok m : op_ok m → results_ok 1 (result m).
Proof. intros Hm g c Q HG Hat HQ. apply rt_wp_bind. eapply Hm; [done|done|]. intros a c' H. by apply rt_wp_ret, HQ. Qed.
Lemma no_result_ok m : op_ok m → results_ok 0 (no_result m).
Proof. intros Hm g c Q HG Hat HQ. apply rt_wp_bind. eapply Hm; [done|done|]. intros a c' H. by apply rt_wp_ret, HQ. Qed.
Lemma pure_ok {A} (a : A) : op_ok (mret a).
Proof. intros g c Q HG Hat HQ. by apply rt_wp_ret, HQ. Qed.
Lemma call_runtime_ok n k f : (∀ l, length l = n → results_ok k (f l)) → body_ok (Z.of_nat n) k (call_runtime n f).
Proof.
  intros Hf s g c Q HG Hat Hs Hroom HQ. unfold call_runtime, size in *.
  destruct (Nat.ltb_spec (length s) n); [lia|]. apply rt_wp_bind.
  eapply (Hf (take n s)); [rewrite length_take; lia|done|done|]. intros l c' H' Hl. unfold size in Hl.
  apply rt_wp_bind, wp_rassert; [intros _; unfold size; rewrite length_app, length_drop; apply Z.leb_le; lia|].
  apply rt_wp_ret, HQ; [done|]. rewrite length_app, length_drop. lia.
Qed.
Lemma runtime0_ok m : op_ok m → body_ok 0 1 (runtime0 m).
Proof. intros H. apply (call_runtime_ok 0). intros l _. by apply result_ok. Qed.
Lemma runtime1_ok f : (∀ a, op_ok (f a)) → body_ok 1 1 (runtime1 f).
Proof. intros H. apply (call_runtime_ok 1). intros [|a [|]] ?; try done. by apply result_ok. Qed.
Lemma runtime2_ok f : (∀ a b, op_ok (f a b)) → body_ok 2 1 (runtime2 f).
Proof. intros H. apply (call_runtime_ok 2). intros [|a [|b [|]]] ?; try done. by apply result_ok. Qed.
Lemma runtime3_ok f : (∀ a b c, op_ok (f a b c)) → body_ok 3 1 (runtime3 f).
Proof. intros H. apply (call_runtime_ok 3). intros [|a [|b [|c [|]]]] ?; try done. by apply result_ok. Qed.
Lemma procedure1_ok f : (∀ a, op_ok (f a)) → body_ok 1 0 (procedure1 f).
Proof. intros H. apply (call_runtime_ok 1). intros [|a [|]] ?; try done. by apply no_result_ok. Qed.
Lemma procedure2_ok f : (∀ a b, op_ok (f a b)) → body_ok 2 0 (procedure2 f).
Proof. intros H. apply (call_runtime_ok 2). intros [|a [|b [|]]] ?; try done. by apply no_result_ok. Qed.
Lemma procedure3_ok f : (∀ a b c, op_ok (f a b c)) → body_ok 3 0 (procedure3 f).
Proof. intros H. apply (call_runtime_ok 3). intros [|a [|b [|c [|]]]] ?; try done. by apply no_result_ok. Qed.
Lemma pop_ok : body_ok 1 0 (λ s, match s with _ :: s => mret s | _ => fails end).
Proof.
  intros [|a s] g c Q HG Hat Hs Hroom HQ; [unfold size in Hs; simpl in Hs; lia|]. apply rt_wp_ret, HQ; [done|].
  rewrite size_cons. lia.
Qed.
Lemma dup_body_ok n : (1 <= n)%nat → body_ok (Z.of_nat n) (Z.of_nat n + 1)
  (λ s, match s !! (n - 1)%nat with Some x => push_top x s | None => fails end).
Proof.
  intros Hn s g c Q HG Hat Hs Hroom HQ. destruct (lookup_lt_is_Some_2 s (n - 1)) as [x ->]; [unfold size in Hs; lia|].
  apply wp_push_top; [lia|]. apply HQ; [done|]. rewrite size_cons. lia.
Qed.
Lemma swap_body_ok n : body_ok (Z.of_nat n + 1) (Z.of_nat n + 1)
  (λ s, match s !! 0%nat, s !! n with Some x, Some y => mret (<[n := x]> (<[0%nat := y]> s)) | _, _ => fails end).
Proof.
  intros s g c Q HG Hat Hs Hroom HQ. unfold size in Hs.
  destruct (lookup_lt_is_Some_2 s 0) as [x ->]; [lia|]. destruct (lookup_lt_is_Some_2 s n) as [y ->]; [lia|].
  apply rt_wp_ret, HQ; [done|]. unfold size. rewrite !length_insert. lia.
Qed.

(** ** Instructions *)
Definition ptr_ok (ptr : Z) : Prop := 0 <= ptr <= code_size ic + 32.
(** An instruction that continues has taken gas, and leaves at most 1024
    words and a pointer into the padded code. *)
Definition instr_ok (eval : InstrEval) : Prop := ∀ fr g c (Q : Frame → Context → Prop),
  g <= G → at_ g 0 c → size (stack fr) <= stack_limit → 0 <= instr_ptr fr < code_size ic →
  (∀ fr' c', at_ (g - 1) 0 c' → size (stack fr') <= stack_limit → ptr_ok (instr_ptr fr') → Q fr' c') →
  wp (eval fr) Q c.
Lemma wp_check_gas op s x g c (Q : () → Context → Prop) : at_ g 0 c → size s <= stack_limit →
  0 <= x <= min_gas (opcode_table t op) → 0 <= min_stack (opcode_table t op) →
  (∀ c', at_ (g - x) 0 c' → min_stack (opcode_table t op) <= size s → size s + delta t op <= stack_limit → Q () c') →
  wp (check_requirements t op s) Q c.
Proof.
  intros Hat Hs Hx Hms HQ. unfold check_requirements. pose proof (size_ge_0 s). apply rt_wp_bind.
  apply (wp_keep _ _ _ _ _ (λ _, at_ (g - x) 0)).
  { destruct (Z.gtb_spec (min_gas (opcode_table t op)) 0).
    - eapply wp_deduct_gas; [lia|exact Hat|]. destruct Hat as (_ & Hg0 & _). intros (Hm & Hg & Hsz). split; [done|].
      cbn [set_gas gas_remaining memory_cost] in *. split; [lia|done].
    - apply rt_wp_ret. by replace (g - x) with g by lia. }
  intros _ c1 H1. destruct (_ && _) eqn:E1; [apply rt_wp_ret, HQ; [done|lia|unfold delta; lia]|].
  apply rt_wp_bind, wp_rassert; [intros _; lia|]. apply rt_wp_bind.
  destruct ((_ >? 0) && _) eqn:E2; [by apply wp_exit|]. apply rt_wp_ret.
  destruct ((stack_increase _ >? 0) && _ && _) eqn:E3; [by apply wp_exit|].
  unfold delta in *. apply rt_wp_ret, HQ; [done|lia|lia].
Qed.
Lemma wp_check_requirements op s g c (Q : () → Context → Prop) : at_ g 0 c → size s <= stack_limit →
  0 < min_gas (opcode_table t op) → 0 <= min_stack (opcode_table t op) →
  (∀ c', at_ (g - 1) 0 c' → min_stack (opcode_table t op) <= size s → size s + delta t op <= stack_limit → Q () c') →
  wp (check_requirements t op s) Q c.
Proof. intros Hat Hs Hgas Hms HQ. eapply (wp_check_gas op s 1); [done|done|lia|done|done]. Qed.
(** The entry of the table: what is taken off and put on the stack, and that
    gas is asked for. *)
Definition entry (op pops pushes : Z) : bool :=
  (min_stack (opcode_table t op) =? pops) && (stack_increase (opcode_table t op) =? pushes)
  && (0 <? min_gas (opcode_table t op)).
Lemma entry_spec op pops pushes : entry op pops pushes = true →
  min_stack (opcode_table t op) = pops ∧ stack_increase (opcode_table t op) = pushes ∧ 0 < min_gas (opcode_table t op).
Proof. unfold entry. lia. Qed.
Lemma checked_ok op pops pushes body : entry op pops pushes = true → 0 <= pops →
  body_ok pops pushes body → instr_ok (checked t op body).
Proof.
  intros (E1 & E2 & Hgas)%entry_spec Hp Hb fr g c Q HG Hat Hs Hptr HQ. apply rt_wp_bind.
  eapply wp_check_requirements; [done|done|done|lia|].
  intros c' Hat' Hms Hd. unfold delta in Hd. rewrite E1, E2 in *. apply rt_wp_bind. eapply Hb; [|done|lia|lia|]; [lia|].
  intros s' c1 H1 Hs'. apply rt_wp_ret, HQ; [done|simpl; lia|]. unfold ptr_ok. simpl. lia.
Qed.
Lemma stop_ok : instr_ok stop.
Proof. intros fr g c Q HG Hat _ _ _. apply wp_exit. by eapply at_left_ok. Qed.
Lemma invalid_ok : instr_ok invalid.
Proof. intros fr g c Q _ _ _ _ _. by apply wp_exit. Qed.
Lemma avail_ok op cond info impl : opcode_table t op = when cond info →
  (opcode_table t op = info → instr_ok impl) → instr_ok (avail t op impl).
Proof.
  intros E Himpl. unfold avail, is_unknown_opcode_info. rewrite E in *. destruct cond; cbn [when].
  - case_match; [by apply Himpl|apply invalid_ok].
  - apply invalid_ok.
Qed.
Lemma wp_jump_impl target c (Q : Z → Context → Prop) :
  (∀ ptr, ptr_ok ptr → Q ptr c) → wp (jump_impl ic target) Q c.
Proof.
  intros HQ. unfold jump_impl. case_match; [by apply wp_exit|]. cbn zeta. destruct (is_jumpdest ic _) eqn:E; [|by apply wp_exit].
  apply rt_wp_ret, HQ. unfold is_jumpdest in E. apply andb_true_iff in E as [E%Z.ltb_lt _].
  pose proof (word_ok_u64 target) as [? ?]. unfold ptr_ok. lia.
Qed.
(** [RETURN] and [REVERT] ask for no gas, and do not continue. *)
Lemma returns_ok op code : min_stack (opcode_table t op) = 2 → min_gas (opcode_table t op) = 0 →
  instr_ok (checked t op (return_impl code)).
Proof.
  intros E1 E2 [s ptr] g c Q HG Hat Hs Hptr HQ. apply rt_wp_bind. eapply (wp_check_gas op s 0); [done|done|lia|lia|].
  intros c' Hat' Hms _. rewrite E1 in Hms. cbn [stack]. destruct s as [|a [|b s]]; [done|done|].
  apply rt_wp_bind, rt_wp_bind, wp_modify, wp_exit. eapply at_left_ok; [exact Hat'|lia].
Qed.
Lemma jump_ok : instr_ok (jump t ic).
Proof.
  intros [s ptr] g c Q HG Hat Hs Hptr HQ. apply rt_wp_bind. eapply wp_check_requirements; [done|done|done|done|].
  intros c' Hat' Hms _. cbn [stack] in *. destruct s as [|target s]; [done|]. apply rt_wp_bind, wp_jump_impl. intros p Hp.
  apply rt_wp_ret, HQ; [done| |done]. rewrite size_cons in Hs. simpl. lia.
Qed.
Lemma jumpi_ok : instr_ok (jumpi t ic).
Proof.
  intros [s ptr] g c Q HG Hat Hs Hptr HQ. apply rt_wp_bind. eapply wp_check_requirements; [done|done|done|done|].
  intros c' Hat' Hms _. cbn [stack] in *. destruct s as [|target [|cond s]]; [done|done|]. rewrite !size_cons in Hs.
  destruct (negb _).
  - apply rt_wp_bind, wp_jump_impl. intros p Hp. apply rt_wp_ret, HQ; [done|simpl; lia|done].
  - apply rt_wp_ret, HQ; [done|simpl; lia|]. unfold ptr_ok. simpl in *. lia.
Qed.

Context (code : list Z) (Hic : make_intercode code = Ok ic).
Lemma code_size_eq : code_size ic = size code.
Proof. by apply make_intercode_Ok in Hic as [_ ?]. Qed.
Lemma push_instr_ok n : (n <= 32)%nat → entry (PUSH0 + Z.of_nat n) 0 1 = true → instr_ok (push t avx2 ic n).
Proof.
  intros Hn (E1 & E2 & Hgas)%entry_spec [s ptr] g c Q HG Hat Hs Hptr HQ. apply rt_wp_bind. cbn [stack instr_ptr] in *.
  eapply wp_check_requirements; [done|done|done|lia|]. intros c' Hat' _ Hd. unfold delta in Hd. rewrite E1, E2 in Hd.
  destruct (push_operand_some avx2 code ic n ptr Hic Hn) as [x Hx]; [by rewrite <- code_size_eq|].
  rewrite Hx. apply rt_wp_bind, wp_push_top; [lia|]. apply rt_wp_ret, HQ; [done|cbn [stack]; rewrite size_cons; lia|]. unfold ptr_ok. cbn [instr_ptr]. lia.
Qed.
Lemma dup_ok n : (1 <= n)%nat → entry (0x80 + (Z.of_nat n - 1)) (Z.of_nat n) (Z.of_nat n + 1) = true → instr_ok (dup t n).
Proof. intros. eapply checked_ok; [done|lia|by apply dup_body_ok]. Qed.
Lemma swap_ok n : entry (0x90 + (Z.of_nat n - 1)) (Z.of_nat n + 1) (Z.of_nat n + 1) = true → instr_ok (swap t n).
Proof. intros. eapply checked_ok; [done|lia|by apply swap_body_ok]. Qed.
Lemma log_ok n : entry (0xa0 + Z.of_nat n) (Z.of_nat (2 + n)) 0 = true → instr_ok (log t e n).
Proof.
  intros. eapply checked_ok; [done|lia|]. apply call_runtime_ok. intros [|o [|s l]] Hl; try done.
  apply no_result_ok, log_impl_ok.
Qed.

(** ** The table *)
#[local] Hint Resolve pure_ok rt_exp_ok rt_sha3_ok rt_mload_ok rt_mstore_ok rt_mstore8_ok rt_mcopy_ok rt_balance_ok
  rt_extcodehash_ok rt_extcodesize_ok rt_calldatacopy_ok rt_codecopy_ok rt_returndatacopy_ok rt_extcodecopy_ok
  rt_blockhash_ok rt_selfbalance_ok rt_sload_ok rt_sstore_ok rt_tload_ok rt_tstore_ok rt_selfdestruct_ok
  create_impl_ok call_impl_ok : runtime.
(** The entry is computed, or is the one given when the revision has the
    instruction. *)
Ltac entry_is pops pushes lem := apply (checked_ok _ pops pushes);
  [first [vm_compute; reflexivity|unfold entry; match goal with H : opcode_table t _ = _ |- _ => rewrite H end; reflexivity]
  |done|apply lem].
(** An instruction by the form of its body. *)
Ltac instruction :=
  lazymatch goal with |- instr_ok ?i =>
    let i' := eval red in i in change (instr_ok i');
    lazymatch i' with
    | checked _ _ (top_two _) => entry_is 2 1 top_two_ok
    | checked _ _ (top_one _) => entry_is 1 1 top_one_ok
    | checked _ _ (push_word _) => entry_is 0 1 push_word_ok
    | checked _ _ (runtime0 _) => entry_is 0 1 runtime0_ok; auto with runtime
    | checked _ _ (runtime1 _) => entry_is 1 1 runtime1_ok; intros; cbv beta; auto with runtime
    | checked _ _ (runtime2 _) => entry_is 2 1 runtime2_ok; intros; cbv beta; auto with runtime
    | checked _ _ (runtime3 _) => entry_is 3 1 runtime3_ok; intros; cbv beta; auto with runtime
    | checked _ _ (procedure1 _) => entry_is 1 0 procedure1_ok; intros; cbv beta; auto with runtime
    | checked _ _ (procedure2 _) => entry_is 2 0 procedure2_ok; intros; cbv beta; auto with runtime
    | checked _ _ (procedure3 _) => entry_is 3 0 procedure3_ok; intros; cbv beta; auto with runtime
    end
  end.
Ltac available info := eapply (avail_ok _ _ info); [reflexivity|intros ?].
Lemma arithmetic_ok : Forall instr_ok
  [stop; add t; mul t; sub t; udiv t; sdiv t; umod t; smod t; addmod t; mulmod t; exp t; signextend t].
Proof. repeat apply Forall_cons_2; [apply stop_ok|instruction..|apply Forall_nil_2]. Qed.
Lemma clz_ok : instr_ok (avail t 0x1e (clz t)).
Proof. available (mkOpCodeInfo "CLZ" 0 1 1 false 5 0). instruction. Qed.
Lemma comparison_ok : Forall instr_ok
  [lt t; gt t; slt t; sgt t; eq t; iszero t; and_ t; or_ t; xor_ t; not_ t; byte t; shl t; shr t; sar t;
   avail t 0x1e (clz t); invalid].
Proof. repeat apply Forall_cons_2; [..|apply clz_ok|apply invalid_ok|apply Forall_nil_2]; instruction. Qed.
Lemma sha3_ok : Forall instr_ok [sha3 t e keccak256].
Proof. repeat apply Forall_cons_2; [instruction|apply Forall_nil_2]. Qed.
Lemma extcodecopy_ok : instr_ok (extcodecopy t e).
Proof.
  entry_is 4 0 (call_runtime_ok 4). intros [|a [|b [|c [|d [|]]]]] ?; try done. apply no_result_ok. auto with runtime.
Qed.
Lemma push_state_ok f : body_ok 0 1 (λ s, x ← gets f; push_word x s).
Proof. intros s g c Q HG Hat Hs Hroom HQ. apply rt_wp_bind, wp_gets. by eapply push_word_ok. Qed.
Lemma returndatasize_ok : instr_ok (returndatasize t).
Proof.
  apply (checked_ok _ 0 1); [vm_compute; reflexivity|done|]. intros s g c Q HG Hat Hs Hroom HQ. apply rt_wp_bind, wp_gets.
  by eapply push_word_ok.
Qed.
Lemma data_ok : Forall instr_ok
  [address t e; balance t; origin t e; caller t e; callvalue t e; calldataload t e; calldatasize t e;
   calldatacopy t e; codesize t e; codecopy t e; gasprice t e; extcodesize t; extcodecopy t e; returndatasize t;
   returndatacopy t e; extcodehash t].
Proof.
  repeat apply Forall_cons_2; [..|apply Forall_nil_2].
  13: apply extcodecopy_ok.
  13: apply returndatasize_ok.
  all: instruction.
Qed.
Lemma basefee_ok : instr_ok (avail t 0x48 (basefee t e)).
Proof. available (mkOpCodeInfo "BASEFEE" 0 0 1 false 2 0). instruction. Qed.
Lemma blobhash_ok : instr_ok (avail t 0x49 (blobhash t e)).
Proof. available (mkOpCodeInfo "BLOBHASH" 0 1 1 false 3 0). instruction. Qed.
Lemma blobbasefee_ok : instr_ok (avail t 0x4a (blobbasefee t e)).
Proof. available (mkOpCodeInfo "BLOBBASEFEE" 0 0 1 false 2 0). instruction. Qed.
Lemma block_ok : Forall instr_ok
  [blockhash t e; coinbase t e; timestamp t e; number t e; prevrandao t e; gaslimit t e; chainid t e; selfbalance t e;
   avail t 0x48 (basefee t e); avail t 0x49 (blobhash t e); avail t 0x4a (blobbasefee t e)].
Proof.
  repeat apply Forall_cons_2; [..|apply Forall_nil_2].
  9: apply basefee_ok.
  9: apply blobhash_ok.
  9: apply blobbasefee_ok.
  all: instruction.
Qed.
Lemma pc_ok : instr_ok (pc t).
Proof.
  intros fr. assert (H : instr_ok (checked t 0x58 (push_word (instr_ptr fr)))) by entry_is 0 1 push_word_ok.
  exact (H fr).
Qed.
Lemma tload_ok : instr_ok (avail t 0x5c (tload t e)).
Proof. available (mkOpCodeInfo "TLOAD" 0 1 1 false 100 0). instruction. Qed.
Lemma tstore_ok : instr_ok (avail t 0x5d (tstore t e)).
Proof. available (mkOpCodeInfo "TSTORE" 0 2 0 false 100 0). instruction. Qed.
Lemma mcopy_ok : instr_ok (avail t 0x5e (mcopy t e)).
Proof. available (mkOpCodeInfo "MCOPY" 0 3 0 true 3 0). instruction. Qed.
Lemma push0_ok : instr_ok (avail t 0x5f (push t avx2 ic 0)).
Proof.
  available (mkOpCodeInfo "PUSH0" 0 0 1 false 2 0). apply push_instr_ok; [lia|]. unfold entry. change (PUSH0 + Z.of_nat 0) with 0x5f.
  by rewrite H.
Qed.
Lemma memory_ok : Forall instr_ok
  [pop t; mload t e; mstore t e; mstore8 t e; sload t e; sstore t e; jump t ic; jumpi t ic; pc t; msize t; gas t;
   jumpdest t; avail t 0x5c (tload t e); avail t 0x5d (tstore t e); avail t 0x5e (mcopy t e);
   avail t 0x5f (push t avx2 ic 0)].
Proof.
  repeat apply Forall_cons_2; [..|apply Forall_nil_2].
  1: entry_is 1 0 pop_ok.
  6: apply jump_ok.
  6: apply jumpi_ok.
  6: apply pc_ok.
  6: entry_is 0 1 (push_state_ok memory_size).
  6: { apply (checked_ok _ 0 1); [vm_compute; reflexivity|done|]. intros s g c Q HG Hat Hs Hroom HQ. apply rt_wp_bind, wp_gets.
       by eapply push_word_ok. }
  6: { apply (checked_ok _ 0 0); [vm_compute; reflexivity|done|]. intros s g c Q HG Hat Hs Hroom HQ. apply rt_wp_ret, HQ; [done|lia]. }
  6: apply tload_ok.
  6: apply tstore_ok.
  6: apply mcopy_ok.
  6: apply push0_ok.
  all: instruction.
Qed.
(** A family of instructions, its entries computed at once. *)
Lemma family_ok (impl : nat → InstrEval) (check : nat → bool) k m : forallb check (seq k m) = true →
  (∀ n, (k <= n < k + m)%nat → check n = true → instr_ok (impl n)) → Forall instr_ok (map impl (seq k m)).
Proof.
  intros Hc H. apply Forall_map, list.Forall_forall. intros n Hn%elem_of_seq. apply H; [done|].
  rewrite forallb_forall in Hc. apply Hc, in_seq. lia.
Qed.
Lemma pushes_ok : Forall instr_ok (map (push t avx2 ic) (seq 1 32)).
Proof. eapply family_ok; [|intros n Hn; apply push_instr_ok; lia]. vm_compute. reflexivity. Qed.
Lemma dups_ok : Forall instr_ok (map (dup t) (seq 1 16)).
Proof. eapply family_ok; [|intros n Hn; apply dup_ok; lia]. vm_compute. reflexivity. Qed.
Lemma swaps_ok : Forall instr_ok (map (swap t) (seq 1 16)).
Proof. eapply family_ok; [|intros n Hn; apply swap_ok]. vm_compute. reflexivity. Qed.
Lemma logs_ok : Forall instr_ok (map (log t e) (seq 0 5)).
Proof. eapply family_ok; [|intros n Hn; apply log_ok]. vm_compute. reflexivity. Qed.
Ltac nested k := entry_is (Z.of_nat k) 1 (call_runtime_ok k); intros l Hl;
  repeat (destruct l as [|? l]; try done); apply result_ok; auto with runtime.
Lemma calls_ok : Forall instr_ok [create t e; call t e; callcode t e; return_ t; delegatecall t e; create2 t e].
Proof.
  repeat apply Forall_cons_2; [..|apply Forall_nil_2].
  - instruction.
  - nested 7%nat.
  - nested 7%nat.
  - apply (returns_ok 0xf3 Success); vm_compute; reflexivity.
  - nested 6%nat.
  - nested 4%nat.
Qed.
Lemma staticcall_ok : Forall instr_ok [staticcall t e].
Proof. apply Forall_cons_2; [|apply Forall_nil_2]. nested 6%nat. Qed.
Lemma ends_ok : Forall instr_ok [revert t; invalid; selfdestruct t e].
Proof.
  repeat apply Forall_cons_2; [|apply invalid_ok|instruction|apply Forall_nil_2].
  apply (returns_ok 0xfd Revert); vm_compute; reflexivity.
Qed.
Lemma invalids_ok n : Forall instr_ok (replicate n invalid).
Proof. apply Forall_replicate, invalid_ok. Qed.
(** Every instruction of the table keeps the invariant of the frame. *)
Lemma table_ok : Forall instr_ok (instruction_table t e keccak256 avx2 ic).
Proof.
  unfold instruction_table. rewrite !Forall_app.
  split_and!; first [apply invalids_ok|exact arithmetic_ok|exact comparison_ok|exact sha3_ok|exact data_ok|exact block_ok
    |exact memory_ok|exact pushes_ok|exact dups_ok|exact swaps_ok|exact logs_ok|exact calls_ok|exact staticcall_ok|exact ends_ok].
Qed.

(** ** The loop *)
Context (Hcode : strict → Forall byte_ok code).
Lemma table_lookup op : strict → byte_ok op → is_Some (instruction_table t e keccak256 avx2 ic !! Z.to_nat op).
Proof.
  intros _ [? ?]. apply lookup_lt_is_Some_2. change (length (instruction_table t e keccak256 avx2 ic)) with 256%nat. lia.
Qed.
Lemma core_loop_ok fuel fr g c (Q : Empty_set → Context → Prop) : g < Z.of_nat fuel → g <= G → at_ g 0 c →
  size (stack fr) <= stack_limit → ptr_ok (instr_ptr fr) → wp (core_loop t e keccak256 avx2 ic fuel fr) Q c.
Proof.
  revert fr g c. induction fuel as [|fuel IH]; intros fr g c Hf HG Hat Hs Hp; cbn [core_loop].
  { destruct Hat as (Hm & ? & _). pose proof (mem_cost_nonneg t e strict c Hm). lia. }
  pose proof Hp as Hptr. unfold ptr_ok in Hptr. rewrite code_size_eq in Hptr.
  rewrite (code_at_spec code) by (try done; unfold size in Hptr; lia). destruct (Z.ltb_spec (instr_ptr fr) 0); [lia|].
  destruct (code !! Z.to_nat (instr_ptr fr)) as [op|] eqn:Eop; cbn [default from_option id].
  - destruct (instruction_table _ _ _ _ _ !! Z.to_nat op) as [eval|] eqn:Ev.
    + apply rt_wp_bind. eapply (Forall_lookup_1 _ _ _ _ table_ok Ev); [done|done|done| |].
      * apply lookup_lt_Some in Eop. rewrite code_size_eq. unfold size. lia.
      * intros fr' c' Hat' Hs' Hp'. eapply (IH _ (g - 1)); [lia|lia|done|done|done].
    + apply wp_fails. intros Hst. destruct (table_lookup op Hst) as [ev Hev]; [by eapply Forall_lookup_1; [apply Hcode|]|].
      assert (None = Some ev) by exact (eq_trans (eq_sym Ev) Hev). done.
  - apply rt_wp_bind, wp_exit. by eapply at_left_ok.
Qed.

(** ** Results *)
(** The output of a frame: paid for, and read in range. *)
Lemma copy_result_data_ok c : mem_ok t e strict c →
  match copy_result_data t e c with
  | Ok (inl ec) => ec = EVMC_OUT_OF_GAS
  | Ok (inr (output, g)) => size output = result_size c ∧ 0 <= g <= gas_remaining c
  | _ => ¬ strict
  end.
Proof.
  intros (w & Hw & Hsz & Hcost & Hlim). unfold copy_result_data, is_bounded_by_bits, offset_bits.
  pose proof (cost_mono t w) as Hmono.
  repeat first [done | match goal with |- context [if ?b then _ else _] => destruct b eqn:? end].
  all: try (intros Hst; destruct (mip_3_active t); [|done]; destruct (Hlim Hst) as [[? ?] Hlim']; specialize (Hlim' eq_refl); unfold memory_limit in *; lia).
  - unfold size. simpl. lia.
  - split; [|lia]. unfold memory_size in *. rewrite size_take by (rewrite ?size_drop; lia). done.
  - pose proof (word_count_spec (result_offset c + result_size c) ltac:(lia)). specialize (Hmono (word_count (result_offset c + result_size c)) ltac:(lia)).
    unfold memory_size in *. rewrite size_app, size_drop, size_zeros by lia. lia.
  - pose proof (word_count_spec (result_offset c + result_size c) ltac:(lia)). specialize (Hmono (word_count (result_offset c + result_size c)) ltac:(lia)).
    rewrite size_zeros by lia. lia.
Qed.
Lemma copy_result_ok s c : 0 <= G → left_ok t e strict G s c →
  twp t strict (vm_result_ok G) (lift_outcome (copy_to_evmc_result t e s c)).
Proof.
  intros HG Hl. assert (Hfail : ∀ ec, keeps_gas ec = false → vm_result_ok G (failure ec)).
  { intros ec Hec. repeat split; simpl; lia || done. }
  destruct s; cbn [copy_to_evmc_result left_ok lift_outcome] in *; [| |by apply Hfail..].
  all: destruct Hl as [Hm Hg]; pose proof (copy_result_data_ok c Hm) as H.
  all: destruct (copy_result_data t e c) as [[ec|[output g]]| |]; cbn [lift_outcome twp]; [|..|done|done].
  all: first [subst ec; by apply Hfail|destruct H as [_ ?]; repeat split; simpl; try lia; done].
Qed.
End safety.
