(* ===== verification/InterpreterTheorems.v ===== *)
(** * What the interpreter guarantees

    The theorems on the interpreter: it never goes wrong, it is a virtual
    machine in the sense of the theorems on messages, a jump only reaches the
    instructions of the code, and its arithmetic is that of uint256.hpp. *)
From S2P Require Import Prelude Traits Account VersionStack AccountState BlockState State Fixtures Methods Words Uint256 Uint256Text CheckedMath Transaction Rlp RlpFacts ReserveBalance Precompiles Host ExecuteMessage ExecuteMessageFacts Opcodes Runtime Interpreter PushFacts InterpreterFacts InterpreterSafety.

(** ** Safety *)
(** A run that only returns, and only returns a result [vm_result_ok]: no
    answer of the host and no result a message can have leads to a failed
    assertion or to an access out of range, and the messages it starts are
    safe to run in turn. *)
Inductive vm_safe (t : Traits) (g : Z) : vm_tree → Prop :=
| vm_safe_ret r : vm_result_ok g r → vm_safe t g (VmRet r)
| vm_safe_host {X} (op : host_op X) k : (∀ x, vm_safe t g (k x)) → vm_safe t g (VmHost op k)
| vm_safe_call msg k : message_safe t msg →
    vm_safe t g (k None) → (∀ r, message_result_ok (Precompiles.gas msg) r → vm_safe t g (k (Some r))) →
    vm_safe t g (VmCall msg k).
Lemma twp_vm_safe t g m : twp t True (vm_result_ok g) m → vm_safe t g (to_vm m).
Proof.
  induction m as [r|X op k IH|msg k IH|o]; cbn [twp to_vm]; [by constructor| | |done].
  - intros H. constructor. auto.
  - intros ([_ Hm] & H1 & H2). constructor; auto.
Qed.
Lemma twp_vm_ok t g m : twp t False (vm_result_ok g) m → vm_ok g (to_vm m).
Proof.
  induction m as [r|X op k IH|msg k IH|o]; cbn [twp to_vm]; [by constructor| | |by constructor].
  - intros H. constructor. auto.
  - intros ([Hg _] & H1 & H2). constructor; auto.
Qed.
Section execution.
Context (t : Traits) (keccak256 : list Z → Z) (avx2 : bool) (ctx : evmc_tx_context) (capacity : evmc_message → Z → Z).
Lemma execute_ok strict msg e c code ic : 0 <= Precompiles.gas msg → make_intercode code = Ok ic →
  c = context_from msg → e = environment_from msg code ctx (capacity msg) → (strict → Forall byte_ok code) →
  (strict → message_safe t msg) →
  twp t strict (vm_result_ok (Precompiles.gas msg)) (execute_intercode_raw t keccak256 avx2 e c ic).
Proof.
  intros Hg Hic -> -> Hcode Hmem. set (e := environment_from _ _ _ _). apply twp_bind. unfold execute. apply twp_bind.
  assert (Hat : at_ t e strict (Precompiles.gas msg) 0 (context_from msg)).
  { split; [|split; [cbn; lia|apply size_ge_0]]. exists 0. split_and!; [done|done| |].
    - unfold memory_cost_from_word_count. by destruct (mip_3_active t).
    - intros [H1 H2 H3]%Hmem. split; [by apply (memory_paid_parent _ _ _ _ H3)|]. cbn. rewrite Z.add_0_r. apply H3. }
  eapply twp_mono; [|eapply (core_loop_ok t e keccak256 strict (Precompiles.gas msg) avx2 ic (λ H, ms_memory _ _ (Hmem H)) code Hic Hcode _ _ (Precompiles.gas msg) _ (λ _ _, True));
    [|done|exact Hat|done|]].
  - intros [[] ?|s c] Hl. by apply copy_result_ok.
  - cbn [context_from gas_remaining]. lia.
  - unfold ptr_ok. rewrite (code_size_eq ic code Hic). cbn [instr_ptr]. pose proof (size_ge_0 code). lia.
Qed.
Lemma vm_execute_twp strict msg code : 0 <= Precompiles.gas msg → (strict → Forall byte_ok code) →
  (strict → size code <= code_size_max) → (strict → message_safe t msg) →
  twp t strict (vm_result_ok (Precompiles.gas msg))
    (execute_bytecode_raw t keccak256 avx2 (environment_from msg code ctx (capacity msg)) (context_from msg) code).
Proof.
  intros Hg Hcode Hsize Hmem. apply twp_bind. unfold make_intercode, pad.
  destruct (Z.leb_spec (Z.of_nat (length code)) code_size_max) as [Hle|Hgt]; cbn [lift_outcome twp].
  - eapply execute_ok; try done. unfold make_intercode, pad. by rewrite (proj2 (Z.leb_le _ _) Hle).
  - intros Hst. specialize (Hsize Hst). unfold size in Hsize. lia.
Qed.
Lemma vm_execute_safe msg code : Forall byte_ok code → size code <= code_size_max → message_safe t msg →
  vm_safe t (Precompiles.gas msg) (vm_execute_bytecode t keccak256 avx2 ctx capacity msg code).
Proof. intros ? ? Hm. apply twp_vm_safe, vm_execute_twp; auto. apply Hm. Qed.
Lemma vm_execute_ok msg code : 0 <= Precompiles.gas msg →
  vm_ok (Precompiles.gas msg) (vm_execute_bytecode t keccak256 avx2 ctx capacity msg code).
Proof. intros. eapply twp_vm_ok, (vm_execute_twp False); auto; done. Qed.
End execution.

(** PUSH1 5, PUSH1 3, ADD, PUSH1 0, MSTORE, PUSH1 32, PUSH1 0, RETURN *)
Definition sum_code : list Z := [0x60; 5; 0x60; 3; 0x01; 0x60; 0; 0x52; 0x60; 32; 0x60; 0; 0xf3].
Definition sum_ctx : evmc_tx_context := mkTxContext 0 0 0 0 0 0 0 0 0 0 [].
Definition sum_msg : evmc_message := mkMessage EVMC_CALL 0 0 100 bob alice [] 0 0 bob 0.
Lemma sum_code_ok : Forall byte_ok sum_code.
Proof. repeat constructor; unfold byte_ok; lia. Qed.

(** C9: the interpreter never goes wrong, in a transaction of at most two
    billion gas.  For every code, every capacity of the memory, and whatever
    the host answers, the loop ends within as many steps as there is gas; no
    instruction reads or writes outside of the padded code, the 1024 words of
    the stack or the memory it has paid for, and no assertion on the stack,
    the memory, its cost or its growth fails.  The result has at most the gas
    of the message, all of it used up on a failure, and no refund unless it
    succeeds.  Nested messages may have any result with at most their gas and
    no refund unless they succeed, which every message has
    ([interpreted_message_gas]); they are given gas the frame still has and
    start behind memory that has been paid for, within the bound of MIP-3 and
    at most 1024 deep, so that the same holds of their frames. *)
Theorem interpreter_safe (t : Traits) (keccak256 : list Z → Z) (avx2 : bool) (ctx : evmc_tx_context)
    (capacity : evmc_message → Z → Z) (msg : evmc_message) (code : list Z) :
  Forall byte_ok code → size code <= code_size_max → message_safe t msg →
  vm_safe t (Precompiles.gas msg) (vm_execute_bytecode t keccak256 avx2 ctx capacity msg code).
Proof. apply vm_execute_safe. Qed.
(** The message of a transaction is safe. *)
Lemma first_message_safe t msg : 0 <= Precompiles.gas msg <= transaction_gas_bound → depth msg = 0 → memory_offset msg = 0 → message_safe t msg.
Proof.
  intros Hg Hd Ho. split; [lia|unfold MAX_DEPTH; lia|]. rewrite Hd, Ho. split; [|unfold memory_limit; lia].
  exists []. split_and!; [done|done|done|cbn; lia].
Qed.
Lemma interpreter_safe_witness :
  vm_safe (EvmTraits MONAD_ETH_CANCUN) 100
    (VmRet (mkResult EVMC_SUCCESS 76 0 (replicate 31 0 ++ [8]) 0)).
Proof.
  exact (interpreter_safe (EvmTraits MONAD_ETH_CANCUN) (λ _, 0) true sum_ctx (λ _ _, 0) sum_msg sum_code sum_code_ok
    ltac:(vm_compute; discriminate)
    (first_message_safe (EvmTraits MONAD_ETH_CANCUN) sum_msg ltac:(split; vm_compute; discriminate) eq_refl eq_refl)).
Defined.

(** ** Messages *)
(** C10: with the interpreter as the virtual machine of every frame, no
    message at any depth returns more gas than it was given, nor a refund
    unless it succeeds: what [message_gas] assumes of the virtual machine
    holds of the interpreter. *)
Theorem interpreted_message_gas {B} {HB : BlockAccess B} (keccak256 : list Z → Z)
    (precompile_execute : Z → list Z → evmc_status_code * list Z) (StakingContract : MonadContract)
    (t : Traits) (avx2 : bool) (ctx : evmc_tx_context) (capacity : evmc_message → Z → Z) (host : HostContext) (bottom : prog Result) (n : nat)
    (msg : evmc_message) (w w' : State * B) (r : Result) :
  contract_ok StakingContract → 0 <= Precompiles.gas msg → 0 <= depth msg <= MAX_DEPTH →
  MAX_DEPTH - depth msg <= Z.of_nat n →
  let vm := vm_execute_bytecode t keccak256 avx2 ctx capacity in
  exec keccak256 (execute_message keccak256 precompile_execute StakingContract vm vm host
    (run_vm host (call_message keccak256 precompile_execute StakingContract vm vm host bottom n)) msg) w = Ok (r, w') →
  0 <= gas_left r <= Precompiles.gas msg ∧ (status_code r ≠ EVMC_SUCCESS → gas_refund r = 0).
Proof. intros HC Hg Hd Hn vm. apply message_gas_bound; try done; intros; by apply vm_execute_ok. Qed.
Definition push_exec : prog Result :=
  let vm := vm_execute_bytecode (EvmTraits MONAD_ETH_CANCUN) test_hash true sum_ctx (λ _ _, 4096) in
  execute_message test_hash (λ _ _, (EVMC_SUCCESS, [])) demo_staking vm vm demo_host
    (run_vm demo_host (call_message test_hash (λ _ _, (EVMC_SUCCESS, [])) demo_staking vm vm demo_host (Stop Abort) 1024))
    demo_msg.
Definition push_result : Result := mkResult EVMC_SUCCESS 17 0 [] 0.
Lemma interpreted_message_gas_witness :
  0 <= gas_left push_result <= 20 ∧ (status_code push_result ≠ EVMC_SUCCESS → gas_refund push_result = 0).
Proof.
  apply (interpreted_message_gas (B:=BlockState ()) test_hash (λ _ _, (EVMC_SUCCESS, [])) demo_staking
    (EvmTraits MONAD_ETH_CANCUN) true sum_ctx (λ _ _, 4096) demo_host (Stop Abort) 1024 demo_msg (test_state, test_block)
    (ran (exec test_hash push_exec) (test_state, test_block)) push_result demo_staking_ok
    ltac:(done) ltac:(done) ltac:(done)).
  run_concrete.
Defined.

(** ** Jumps *)
(** C11: a jump continues exactly at the [JUMPDEST] instructions of the code,
    at bytes that an execution from the start reaches as opcodes and not as
    operands of a push; every other target, however large, ends the frame
    with an error. *)
Theorem jump_targets (code : list Z) (ic : Intercode) (target : Z) (c : Context) :
  make_intercode code = Ok ic → 0 <= target →
  (jump_impl ic target c = TRet (Next target c) ∧
     boundary code (Z.to_nat target) ∧ code !! Z.to_nat target = Some JUMPDEST) ∨
  (jump_impl ic target c = TRet (Exited Error c) ∧
     ¬ (boundary code (Z.to_nat target) ∧ code !! Z.to_nat target = Some JUMPDEST)).
Proof.
  intros Hic Ht. assert (Hlen : size code <= code_size_max).
  { unfold make_intercode, pad in Hic. destruct (Z.leb_spec (Z.of_nat (length code)) code_size_max); [done|discriminate]. }
  rewrite <- (is_jumpdest_spec code ic target Hic Ht). unfold jump_impl. destruct (Z.gtb_spec target (2 ^ 64 - 1)).
  - right. split; [done|]. rewrite (is_jumpdest_spec code ic target Hic Ht). intros [_ H1%lookup_lt_Some].
    unfold size, code_size_max in Hlen. lia.
  - cbn zeta. unfold u64. rewrite Z.mod_small by lia. destruct (is_jumpdest ic target); [left|right]; done.
Qed.
(** PUSH2 0x5b00, JUMPDEST: only the byte at 3 is an instruction. *)
Definition jump_code : list Z := [0x61; 0x5b; 0x00; 0x5b].
Lemma jump_targets_witness :
  ∃ ic c, make_intercode jump_code = Ok ic ∧ jump_impl ic 3 c = TRet (Next 3 c) ∧
    jump_impl ic 1 c = TRet (Exited Error c) ∧ boundary jump_code 3.
Proof.
  destruct (make_intercode jump_code) as [ic| |] eqn:E; [|discriminate..]. exists ic, (context_from sum_msg).
  split; [done|]. pose proof (jump_targets jump_code ic 3 (context_from sum_msg) E ltac:(done)) as H3.
  pose proof (jump_targets jump_code ic 1 (context_from sum_msg) E ltac:(done)) as H1.
  injection E as <-. destruct H3 as [(E3 & Hb & _)|[E3 _]]; [|discriminate]. destruct H1 as [[E1 _]|[E1 _]]; [discriminate|].
  done.
Defined.

(** ** Memory *)
(** The byte of the memory at [i]; what was never written is zero. *)
Definition mem_byte (c : Context) (i : Z) : Z := default 0 (memory c !! Z.to_nat i).
Lemma lookup_splice (m bytes : list Z) (o : Z) i : 0 <= o → o + size bytes <= size m →
  splice m o bytes !! i =
  if decide (Z.to_nat o <= i < Z.to_nat o + length bytes)%nat then bytes !! (i - Z.to_nat o)%nat else m !! i.
Proof.
  intros Ho Hlen. unfold splice, size in *. assert (length (take (Z.to_nat o) m) = Z.to_nat o) as Ht by (rewrite length_take; lia).
  case_decide.
  - rewrite lookup_app_r by lia. rewrite Ht. by rewrite lookup_app_l by lia.
  - destruct (decide (i < Z.to_nat o)%nat).
    + rewrite lookup_app_l by lia. by rewrite lookup_take_lt by lia.
    + rewrite lookup_app_r by lia. rewrite Ht, lookup_app_r by lia. rewrite lookup_drop. f_equal. lia.
Qed.
Lemma rbind_Next {A C} (m : rt A) (f : A → rt C) c a c' : (m ≫= f) c = TRet (Next a c') →
  ∃ b c1, m c = TRet (Next b c1) ∧ f b c1 = TRet (Next a c').
Proof.
  unfold mbind, rt_bind, rbind. destruct (m c) as [[b c1|s c1]|X op k|msg k|o]; cbn [tbind]; intros H; try discriminate. eauto.
Qed.
Lemma deduct_gas_Next x c c' : deduct_gas x c = TRet (Next () c') → memory c' = memory c ∧ memory_cost c' = memory_cost c.
Proof.
  unfold deduct_gas. intros (b & c1 & H1 & H2)%rbind_Next. injection H1 as _ <-. apply rbind_Next in H2 as (r & c2 & H2 & H3).
  injection H2 as _ <-. destruct (_ <? _); [discriminate|]. by injection H3 as <-.
Qed.
Lemma rassert_Next b c u c' : rassert b c = TRet (Next u c') → c' = c.
Proof. destruct b; [by intros [= _ <-]|discriminate]. Qed.
Lemma parent_total_size_Next e c p c' : parent_total_size e c = TRet (Next p c') → c' = c.
Proof.
  unfold parent_total_size. intros H. do 3 (apply rbind_Next in H as ([] & ? & ->%rassert_Next & H)). by injection H as _ <-.
Qed.
Lemma increase_capacity_Next e old new c u c' : increase_capacity e old new c = TRet (Next u c') → c' = c.
Proof.
  unfold increase_capacity. intros H. do 2 (apply rbind_Next in H as ([] & ? & ->%rassert_Next & H)).
  apply rbind_Next in H as (p & ? & ->%parent_total_size_Next & H). apply rbind_Next in H as ([] & ? & ->%rassert_Next & H).
  by apply rassert_Next in H.
Qed.
(** [expand_memory] that continues: enough memory, the bytes as before. *)
Lemma expand_memory_Next t e m c c' : 0 <= m → expand_memory t e m c = TRet (Next () c') →
  m <= memory_size c' ∧ (∀ i, mem_byte c' i = mem_byte c i) ∧ (m <= memory_size c → c' = c).
Proof.
  intros Hm. unfold expand_memory. intros (sz & c1 & H1 & H2)%rbind_Next. injection H1 as <- <-.
  destruct (Z.ltb_spec (memory_size c) m) as [Hlt|Hge]; [|by injection H2 as <-].
  apply rbind_Next in H2 as (ok & c1 & H1 & H2). assert (c1 = c) as ->.
  { unfold is_memory_size_in_bound in H1. destruct (mip_3_active t); [|by injection H1].
    apply rbind_Next in H1 as (p & c2 & ->%parent_total_size_Next & H3). by injection H3 as _ <-. }
  apply rbind_Next in H2 as ([] & c1 & H3 & H2). destruct ok; [|discriminate]. injection H3 as <-.
  apply rbind_Next in H2 as (cost & c1 & H3 & H2). injection H3 as <- <-.
  apply rbind_Next in H2 as ([] & c1 & H3 & H2). destruct (_ >=? _); [|discriminate]. injection H3 as <-.
  apply rbind_Next in H2 as ([] & c1 & H3 & H2). apply deduct_gas_Next in H3 as [Hmem _].
  apply rbind_Next in H2 as ([] & c2 & H3 & H2). injection H3 as <-. apply rbind_Next in H2 as (gas & c2 & H3 & H2). injection H3 as _ <-.
  assert (c' = set_memory (memory c1 ++ replicate (Z.to_nat (Z.shiftl (word_count m) 5 - memory_size c)) 0) (memory_cost_from_word_count t (word_count m)) c1) as ->
    by (destruct (_ <? _); [by apply increase_capacity_Next in H2|by injection H2 as <-]). clear H2.
  pose proof (word_count_spec m Hm). unfold mem_byte, memory_size in *. cbn [set_memory memory]. rewrite Hmem.
  rewrite Z.shiftl_mul_pow2 by lia. change (2 ^ 5) with 32. split_and!; [| |lia].
  - rewrite size_app, size_replicate by lia. lia.
  - intros i. destruct (decide (Z.to_nat i < length (memory c))%nat).
    + by rewrite lookup_app_l.
    + rewrite lookup_app_r, (lookup_ge_None_2 (memory c)) by lia. destruct (replicate _ _ !! _) eqn:E; [|done].
      by apply lookup_replicate in E as [-> _].
Qed.
Lemma write_memory_Next o bytes c c' : write_memory o bytes c = TRet (Next () c') →
  0 <= o ∧ o + size bytes <= memory_size c ∧ memory c' = splice (memory c) o bytes.
Proof.
  intros (b & c1 & H1 & H2)%rbind_Next. injection H1 as <- <-. apply rbind_Next in H2 as ([] & c1 & H1 & H2).
  unfold rassert, id in H1. destruct (_ && _) eqn:E; [|discriminate]. injection H1 as <-. injection H2 as <-.
  split_and!; [lia|lia|done].
Qed.
Lemma get_memory_offset_Next x c o c' : get_memory_offset x c = TRet (Next o c') → o = x ∧ c' = c ∧ 0 <= x < 2 ^ 28.
Proof.
  unfold get_memory_offset, is_bounded_by_bits, offset_bits. destruct (_ && _) eqn:E; [|discriminate].
  intros [= <- <-]. split_and!; try done; lia.
Qed.

(** Reading what is there needs no expansion. *)
Lemma mload_run t e offset c : 0 <= offset < 2 ^ 28 → offset + 32 <= memory_size c →
  rt_mload t e offset c = TRet (Next (be_val (take 32 (drop (Z.to_nat offset) (memory c)))) c).
Proof.
  intros Ho Hsz. unfold rt_mload, mbind, rt_bind, rbind, get_memory_offset, is_bounded_by_bits, offset_bits.
  rewrite (proj2 (Z.leb_le 0 offset)), (proj2 (Z.ltb_lt offset (2 ^ 28))) by lia. cbn [andb tbind mret rt_ret rret].
  unfold expand_memory, mbind, rt_bind, rbind, gets. cbn [tbind]. destruct (Z.ltb_spec (memory_size c) (offset + 32)); [lia|].
  cbn [tbind mret rt_ret rret]. unfold read_memory, rassert, mbind, rt_bind, rbind, gets. cbn [tbind].
  unfold memory_size in Hsz. rewrite (proj2 (Z.leb_le 0 offset)), (proj2 (Z.leb_le (offset + 32) _)) by lia. done.
Qed.
Lemma splice_read m o bytes : 0 <= o → o + size bytes <= size m →
  take (length bytes) (drop (Z.to_nat o) (splice m o bytes)) = bytes.
Proof.
  intros Ho Hlen. unfold splice, size in *. rewrite drop_app_length' by (rewrite length_take; lia). by rewrite take_app_length.
Qed.
(** a word stored in memory is read back.  After an [MSTORE] that
    continues, [MLOAD] at the same offset returns the word without charging
    any more gas for memory, and every other byte reads as before. *)
Theorem mstore_mload (t : Traits) (e : Environment) (offset v : Z) (c c' : Context) :
  0 <= v < 2 ^ 256 → rt_mstore t e offset v c = TRet (Next () c') →
  rt_mload t e offset c' = TRet (Next v c') ∧
  ∀ i, 0 <= i → i < offset ∨ offset + 32 <= i → mem_byte c' i = mem_byte c i.
Proof.
  intros Hv (o & c1 & H1 & H2)%rbind_Next. apply get_memory_offset_Next in H1 as (-> & -> & Ho).
  apply rbind_Next in H2 as ([] & c1 & H1 & H2). apply expand_memory_Next in H1 as (Hsz & Hb & _); [|lia].
  apply write_memory_Next in H2 as (_ & Hend & Hmem). rewrite size_be_bytes in Hend. cbn in Hend.
  assert (Hsz' : memory_size c' = memory_size c1).
  { unfold memory_size in *. rewrite Hmem. unfold splice, size in *. rewrite !length_app, length_take, length_drop, be_bytes_length. lia. }
  split.
  - rewrite mload_run by lia. do 2 f_equal. rewrite Hmem.
    pose proof (splice_read (memory c1) offset (be_bytes 32 v)) as Hr. rewrite size_be_bytes, be_bytes_length in Hr.
    rewrite Hr by (unfold memory_size in Hend; lia). rewrite be_val_be_bytes. apply Z.mod_small. done.
  - intros i Hi Hout. rewrite <- Hb. unfold mem_byte. rewrite Hmem, lookup_splice; [|lia|rewrite size_be_bytes; exact Hend].
    rewrite be_bytes_length. rewrite decide_False by lia. done.
Qed.
Definition stored : Context := set_memory (replicate 31 0 ++ [8]) 3 (set_gas 87 (context_from (with_depth 0 sum_msg))).
Lemma mstore_mload_witness :
  let t := EvmTraits MONAD_ETH_CANCUN in
  let e := environment_from sum_msg sum_code sum_ctx (λ _, 4096) in
  let c := set_gas 90 (context_from sum_msg) in
  ∃ c', rt_mstore t e 0 8 c = TRet (Next () c') ∧ rt_mload t e 0 c' = TRet (Next 8 c') ∧ gas_remaining c' = 87.
Proof.
  intros t e c. eexists. assert (E : rt_mstore t e 0 8 c = TRet (Next () stored)) by (vm_compute; reflexivity).
  split; [exact E|]. destruct (mstore_mload t e 0 8 c stored ltac:(done) E) as [H _]. split; [exact H|reflexivity].
Defined.
