(* ===== verification/RuntimeAsm.v ===== *)
(** * The assembly of the runtime

    src/category/vm/runtime/math.S and context.S, instruction by instruction:
    the multiplication the interpreter and the compiled code call, its
    192-bit variant, and the growth of the memory of a frame.  A register is
    rebound where the assembly writes it; the carry flag is the second
    component of an addition. *)
From S2P Require Import Prelude Traits Account VersionStack AccountState BlockState State Methods Words Uint256 CheckedMath Transaction Rlp ReserveBalance Precompiles Host ExecuteMessage ExecuteTransaction Opcodes Runtime Interpreter InterpreterFacts.

(** ** Instructions on words of 64 bits *)
Definition add64 (a b : Z) : Z * Z := (u64 (a + b), (a + b) / 2 ^ 64).
Definition adc64 (a b carry : Z) : Z * Z := (u64 (a + b + carry), (a + b + carry) / 2 ^ 64).
Definition imul64 (a b : Z) : Z := u64 (a * b).
(** the high and the low word of the product with [rdx] *)
Definition mulx64 (rdx b : Z) : Z * Z := (rdx * b / 2 ^ 64, u64 (rdx * b)).

(** ** monad_vm_runtime_mul: [rsi] and [rdx] point to the factors *)
Definition monad_vm_runtime_mul (rsi rdx_ : uint256_t) : uint256_t :=
  let r8 := w0 rdx_ in
  let r9 := w1 rdx_ in
  let r10 := w2 rdx_ in
  let rax := w0 rsi in
  let r13 := rax in
  let r13 := imul64 r13 (w3 rdx_) in
  let rdx := r8 in
  let '(r11, rcx) := mulx64 rdx rax in
  let rdx := r9 in
  let '(r12, rdx) := mulx64 rdx rax in
  let '(r11, cf) := add64 r11 rdx in
  let rdx := r10 in
  let '(rax, rdx) := mulx64 rdx rax in
  let '(r12, cf) := adc64 r12 rdx cf in
  let '(r13, _) := adc64 r13 rax cf in
  let rdi0 := rcx in
  let rax := w1 rsi in
  let r10 := imul64 r10 rax in
  let rdx := r8 in
  let '(rcx, rdx) := mulx64 rdx rax in
  let '(r12, cf) := add64 r12 rcx in
  let '(r13, _) := adc64 r13 r10 cf in
  let '(r11, cf) := add64 r11 rdx in
  let rdx := r9 in
  let '(rax, rdx) := mulx64 rdx rax in
  let '(r12, cf) := adc64 r12 rdx cf in
  let '(r13, _) := adc64 r13 rax cf in
  let rax := w2 rsi in
  let r9 := imul64 r9 rax in
  let rdx := r8 in
  let '(rax, rdx) := mulx64 rdx rax in
  let '(r13, _) := add64 r13 rax in
  let '(r12, cf) := add64 r12 rdx in
  let '(r13, _) := adc64 r13 r9 cf in
  let r8 := imul64 r8 (w3 rsi) in
  let '(r13, _) := add64 r13 r8 in
  U256 rdi0 r11 r12 r13.
(** ** monad_vm_runtime_mul_192: the three low words *)
Definition monad_vm_runtime_mul_192 (rsi rdx_ : uint256_t) : Z * Z * Z :=
  let r8 := w0 rdx_ in
  let r9 := w1 rdx_ in
  let r10 := w2 rdx_ in
  let rax := w0 rsi in
  let rdx := r8 in
  let '(r11, rcx) := mulx64 rdx rax in
  let rdi0 := rcx in
  let rdx := r9 in
  let '(rcx, rdx) := mulx64 rdx rax in
  let '(r11, cf) := add64 r11 rdx in
  let rdx := r10 in
  let '(rax, rdx) := mulx64 rdx rax in
  let '(rcx, _) := adc64 rcx rdx cf in
  let rax := w1 rsi in
  let rdx := r8 in
  let '(r10, rdx) := mulx64 rdx rax in
  let '(rcx, _) := add64 rcx r10 in
  let '(r11, cf) := add64 r11 rdx in
  let rdx := r9 in
  let '(rax, rdx) := mulx64 rdx rax in
  let '(rcx, _) := adc64 rcx rdx cf in
  let rax := w2 rsi in
  let rdx := r8 in
  let rdx := imul64 rdx rax in
  let '(rcx, _) := add64 rcx rdx in
  (rdi0, r11, rcx).

(** *** Correctness *)
Lemma u64_split z : u64 z + 2 ^ 64 * (z / 2 ^ 64) = z.
Proof. unfold u64. pose proof (Z.div_mod z (2 ^ 64) ltac:(lia)). lia. Qed.
(** The columns of the schoolbook product, with the carries between them:
    [hij] and [lij] are the words of the product of [ai] and [bj], [cn] the
    carries, and [kn] what is lost beyond the fourth column. *)
Lemma mul_columns a0 a1 a2 a3 b0 b1 b2 b3 h00 l00 h01 l01 h02 l02 h10 l10 h11 l11 h20 l20
    c1 c2 c4 c6 c7 c10 k1 k2 k3 k4 k5 k6 k7 k8 k9 k10 p03 p12 p21 p30
    r11 r11' r12 r12' r12'' r12f r13 r13' r13'' r13a r13b r13f :
  let M := 2 ^ 64 in
  p03 + M * k1 = a0 * b3 → l00 + M * h00 = b0 * a0 → l01 + M * h01 = b1 * a0 → r11 + M * c1 = h00 + l01 →
  l02 + M * h02 = b2 * a0 → r12 + M * c2 = h01 + l02 + c1 → r13 + M * k2 = p03 + h02 + c2 →
  p12 + M * k3 = b2 * a1 → l10 + M * h10 = b0 * a1 → r12' + M * c4 = r12 + h10 → r13' + M * k4 = r13 + p12 + c4 →
  r11' + M * c6 = r11 + l10 → l11 + M * h11 = b1 * a1 → r12'' + M * c7 = r12' + l11 + c6 →
  r13'' + M * k5 = r13' + h11 + c7 → p21 + M * k6 = b1 * a2 → l20 + M * h20 = b0 * a2 →
  r13a + M * k7 = r13'' + h20 → r12f + M * c10 = r12'' + l20 → r13b + M * k8 = r13a + p21 + c10 →
  p30 + M * k9 = b0 * a3 → r13f + M * k10 = r13b + p30 →
  l00 + M * (r11' + M * (r12f + M * r13f)) =
    (a0 + M * (a1 + M * (a2 + M * a3))) * (b0 + M * (b1 + M * (b2 + M * b3))) +
    2 ^ 256 * - (k1 + k2 + k3 + k4 + k5 + k6 + k7 + k8 + k9 + k10 + a1 * b3 + a2 * b2 + a3 * b1
                 + M * (a2 * b3 + a3 * b2) + M * M * (a3 * b3)).
Proof. intros M. unfold M. lia. Qed.
Lemma mul_words x y : u256_ok x → u256_ok y →
  let r := monad_vm_runtime_mul x y in
  u256_ok r ∧ to_Z r = (to_Z x * to_Z y) mod 2 ^ 256.
Proof.
  intros Hx Hy r. assert (Hr : u256_ok r).
  { apply u256_ok_eq. unfold r, monad_vm_runtime_mul. cbn. auto using word_ok_u64. }
  split; [done|]. destruct x as [a0 a1 a2 a3], y as [b0 b1 b2 b3]. eapply to_Z_mod; [exact Hr|]. rewrite !to_Z_eq. unfold r.
  unfold monad_vm_runtime_mul, mulx64, imul64, add64, adc64. cbn [w0 w1 w2 w3]. rewrite B_val.
  eapply mul_columns; apply u64_split.
Qed.
(** The same for the three columns of the 192-bit variant. *)
Lemma mul_192_columns a0 a1 a2 a3 b0 b1 b2 b3 h00 l00 h01 l01 h02 l02 h10 l10 h11 l11 c1 c6 k1 k2 k3 k4 k5 p20
    r11 r11' rcx rcx' rcx'' rcxf :
  let M := 2 ^ 64 in
  l00 + M * h00 = b0 * a0 → l01 + M * h01 = b1 * a0 → r11 + M * c1 = h00 + l01 → l02 + M * h02 = b2 * a0 →
  rcx + M * k1 = h01 + l02 + c1 → l10 + M * h10 = b0 * a1 → rcx' + M * k2 = rcx + h10 → r11' + M * c6 = r11 + l10 →
  l11 + M * h11 = b1 * a1 → rcx'' + M * k3 = rcx' + l11 + c6 → p20 + M * k4 = b0 * a2 → rcxf + M * k5 = rcx'' + p20 →
  l00 + M * (r11' + M * rcxf) =
    (a0 + M * (a1 + M * (a2 + M * a3))) * (b0 + M * (b1 + M * (b2 + M * b3))) +
    2 ^ 192 * - (k1 + k2 + k3 + k4 + k5 + h02 + h11 + a0 * b3 + a1 * b2 + a2 * b1 + a3 * b0
                 + M * (a1 * b3 + a2 * b2 + a3 * b1) + M * M * (a2 * b3 + a3 * b2) + M * M * M * (a3 * b3)).
Proof. intros M. unfold M. lia. Qed.
Lemma mul_192_words x y r0 r1 r2 : monad_vm_runtime_mul_192 x y = (r0, r1, r2) →
  word_ok r0 ∧ word_ok r1 ∧ word_ok r2 ∧
  r0 + 2 ^ 64 * (r1 + 2 ^ 64 * r2) = (to_Z x * to_Z y) mod 2 ^ 192.
Proof.
  destruct x as [a0 a1 a2 a3], y as [b0 b1 b2 b3].
  unfold monad_vm_runtime_mul_192, mulx64, imul64, add64, adc64. cbn [w0 w1 w2 w3]. intros [= <- <- <-].
  split_and!; [apply word_ok_u64..|]. rewrite !to_Z_eq. cbn [w0 w1 w2 w3]. rewrite B_val.
  match goal with |- ?l = _ => assert (0 <= l < 2 ^ 192) end.
  { repeat match goal with |- context [u64 ?z] => pose proof (word_ok_u64 z) as ?; generalize dependent (u64 z); intros end.
    unfold word_ok in *. rewrite B_val in *. lia. }
  eapply (Z.mod_unique_pos _ _ (- _)); [done|].
  match goal with |- ?xy = _ * ?q + ?l => enough (l = xy + 2 ^ 192 * - q) by lia end.
  rewrite Z.opp_involutive. eapply mul_192_columns; apply u64_split.
Qed.

(** ** context.S: the memory of a frame grows *)
(** what [sub m, r] leaves in memory, read as [int64_t] *)
Definition sub_i64 (a b : Z) : Z := to_i64 (u64 (a - b)).
Definition grown (size cost gas : Z) (c : Context) : Context :=
  set_memory (memory c ++ replicate (Z.to_nat (size - memory_size c)) 0) cost (set_gas gas c).
(** [jb .increase_capacity]: the call of [monad_vm_runtime_increase_capacity]
    with the registers around it saved *)
Definition capacity_tail (e : Environment) (esi edx : Z) : rt () := λ c,
  if env_capacity e (gas_remaining c) <? edx then increase_capacity e esi edx c else TRet (Next () c).
Definition monad_vm_runtime_increase_memory_raw_v1 (e : Environment) (edi : Z) : rt () := λ c,
  let edi := u32 (edi + 0x1f) in
  let edi := Z.shiftr edi 5 in
  let edx := edi in
  let edx := u32 (Z.shiftl edx 5) in
  let rsi := u64 (edi + edi * 2) in
  let rdi := imul64 edi edi in
  let rdi := Z.shiftr rdi 9 in
  let rsi := u64 (rsi + rdi) in
  let rcx := u64 (rsi - memory_cost c) in
  let gas := sub_i64 (gas_remaining c) rcx in
  if gas <? 0 then TRet (Exited OutOfGas (set_gas gas c))
  else capacity_tail e (memory_size c) edx (grown edx rsi gas c).
Definition monad_vm_runtime_increase_memory_raw_mip3 (e : Environment) (edi : Z) : rt () := λ c,
  let edi := u32 (edi + 0x1f) in
  let edi := Z.shiftr edi 5 in
  let edx := edi in
  let edx := u32 (Z.shiftl edx 5) in
  let rsi := parent_memory e in
  let esi := u32 (u32 rsi + edx) in
  if esi >? 8 * 1024 * 1024 then TRet (Exited OutOfGas c) else
  let rdi := Z.shiftr edi 1 in
  let rcx := u64 (rdi - memory_cost c) in
  let gas := sub_i64 (gas_remaining c) rcx in
  if gas <? 0 then TRet (Exited OutOfGas (set_gas gas c))
  else capacity_tail e (memory_size c) edx (grown edx rdi gas c).
Definition increase_memory_raw (t : Traits) (e : Environment) (min_size : Z) : rt () :=
  if mip_3_active t then monad_vm_runtime_increase_memory_raw_mip3 e min_size
  else monad_vm_runtime_increase_memory_raw_v1 e min_size.
(** *** It is [expand_memory] *)
Lemma sub_i64_spec a x y : 0 <= a < 2 ^ 63 → 0 <= y <= x → x < 2 ^ 62 → sub_i64 a (u64 (x - y)) = a - (x - y).
Proof.
  intros Ha Hy Hx. assert (u64 (x - y) = x - y) as -> by (unfold u64; apply Z.mod_small; lia).
  unfold sub_i64, to_i64, u64.
  destruct (Z.le_gt_cases (x - y) a).
  - rewrite Z.mod_small by lia. rewrite Z.geb_leb. destruct (Z.leb_spec (2 ^ 63) (a - (x - y))); lia.
  - rewrite <- (Z.mod_add _ 1), Z.mod_small by lia. rewrite Z.geb_leb.
    destruct (Z.leb_spec (2 ^ 63) (a - (x - y) + 1 * 2 ^ 64)); lia.
Qed.
(** The run of [expand_memory] that has to grow the memory. *)
Lemma parent_total_size_run e c : parent_ok (parent_memory e) → parent_total_size e c = TRet (Next (parent_memory e) c).
Proof.
  intros [Hp Ha]. unfold parent_total_size, rassert, mbind, rt_bind, rbind. rewrite Ha.
  by rewrite (proj2 (Z.leb_le 0 _)), (proj2 (Z.leb_le _ (2 ^ 30 - 1))) by lia.
Qed.
Lemma expand_memory_grows t e m c : memory_size c < m → parent_ok (parent_memory e) →
  memory_cost c <= memory_cost_from_word_count t (word_count m) →
  expand_memory t e m c = (
    let new_size := Z.shiftl (word_count m) 5 in
    let new_cost := memory_cost_from_word_count t (word_count m) in
    let gas := gas_remaining c - (new_cost - memory_cost c) in
    if mip_3_active t && negb (new_size + parent_memory e <=? memory_limit) then TRet (Exited OutOfGas c)
    else if gas <? 0 then TRet (Exited OutOfGas (set_gas gas c))
    else capacity_tail e (memory_size c) new_size (grown new_size new_cost gas c)).
Proof.
  intros Hlt Hp Hcost. unfold expand_memory, mbind, rt_bind, rbind, gets. cbn [tbind].
  rewrite (proj2 (Z.ltb_lt _ _) Hlt). cbn zeta. set (rest := λ en : ended bool, _).
  assert (E : tbind (is_memory_size_in_bound t e (Z.shiftl (word_count m) 5) c) rest =
    rest (Next (negb (mip_3_active t && negb (Z.shiftl (word_count m) 5 + parent_memory e <=? memory_limit))) c)).
  { unfold is_memory_size_in_bound. destruct (mip_3_active t); [|done]. unfold mbind, rt_bind, rbind.
    rewrite parent_total_size_run by done. cbn [tbind andb]. by rewrite negb_involutive. }
  rewrite E. unfold rest. clear E rest. destruct (_ && _); cbn [negb tbind mret rt_ret rret exit]; [done|].
  unfold rassert. rewrite (proj2 (Z.geb_le _ _) Hcost). cbn [tbind mret rt_ret rret]. unfold deduct_gas, mbind, rt_bind, rbind, modify, gets.
  cbn [tbind set_gas gas_remaining]. destruct (_ <? 0); [done|]. unfold capacity_tail, grown. cbn [tbind mret rt_ret rret set_memory set_gas gas_remaining memory].
  by destruct (env_capacity _ _ <? _).
Qed.
(** The word count of a growing memory, in 32-bit registers. *)
Lemma grow_registers m : 0 <= m < 2 ^ 29 → Z.shiftr (u32 (m + 0x1f)) 5 = word_count m ∧
  0 <= word_count m <= 2 ^ 24 ∧ u32 (Z.shiftl (word_count m) 5) = Z.shiftl (word_count m) 5.
Proof.
  intros Hm. pose proof (word_count_spec m ltac:(lia)). unfold u32. rewrite Z.mod_small by lia.
  change (Z.shiftr (m + 0x1f) 5) with (word_count m). rewrite Z.shiftl_mul_pow2 by lia. change (2 ^ 5) with 32.
  split_and!; [done|lia|lia|]. apply Z.mod_small. lia.
Qed.
Lemma v1_cost w : 0 <= w <= 2 ^ 24 →
  u64 (u64 (w + w * 2) + Z.shiftr (imul64 w w) 9) = w * w / 512 + 3 * w ∧ 0 <= w * w / 512 + 3 * w < 2 ^ 62.
Proof.
  intros Hw. unfold imul64, u64. rewrite Z.shiftr_div_pow2 by lia. change (2 ^ 9) with 512.
  assert (0 <= w * w <= 2 ^ 48) by nia. rewrite !(Z.mod_small (w * w)), (Z.mod_small (w + w * 2)) by lia.
  pose proof (Z.div_pos (w * w) 512). pose proof (Z.div_le_upper_bound (w * w) 512 (2 ^ 39) ltac:(lia)).
  rewrite Z.mod_small by lia. lia.
Qed.
Lemma increase_memory_expands t e m c : mem_ok t e True c → 0 <= gas_remaining c < 2 ^ 63 →
  memory_size c < m < 2 ^ 29 → increase_memory_raw t e m c = expand_memory t e m c.
Proof.
  intros (w & Hw & Hsz & Hc & Hpar) Hg Hm. destruct (Hpar I) as [[Hp Ha] _]. pose proof (size_ge_0 (memory c)) as Hs0. unfold memory_size in Hm.
  destruct (grow_registers m ltac:(lia)) as (E1 & Hwc & E2). pose proof (word_count_spec m ltac:(lia)).
  pose proof (cost_mono t w (word_count m) ltac:(unfold memory_size in Hsz; lia)) as Hmono.
  rewrite expand_memory_grows; [|unfold memory_size; lia|done|by rewrite Hc].
  assert (0 <= memory_cost c) as H0.
  { rewrite Hc. replace 0 with (memory_cost_from_word_count t 0) at 1; [apply cost_mono; lia|].
    unfold memory_cost_from_word_count. by destruct (mip_3_active t). }
  rewrite <- Hc in Hmono. unfold increase_memory_raw.
  unfold memory_cost_from_word_count in *. destruct (mip_3_active t); cbn [andb].
  - unfold monad_vm_runtime_increase_memory_raw_mip3. rewrite E1, E2.
    assert (u32 (u32 (parent_memory e) + Z.shiftl (word_count m) 5) = parent_memory e + Z.shiftl (word_count m) 5) as ->.
    { rewrite Z.shiftl_mul_pow2 by lia. unfold u32. rewrite (Z.mod_small (parent_memory e)) by lia. apply Z.mod_small. lia. }
    rewrite sub_i64_spec; [|done|lia|].
    2: { rewrite Z.shiftr_div_pow2 by lia. apply Z.div_lt_upper_bound; lia. }
    rewrite Z.gtb_ltb, (Z.add_comm (parent_memory e)), Z.leb_antisym, negb_involutive. done.
  - unfold monad_vm_runtime_increase_memory_raw_v1. rewrite E1, E2. destruct (v1_cost (word_count m) Hwc) as [-> Hb].
    rewrite sub_i64_spec; [done|done|lia|lia].
Qed.

(** C29: the assembly of the runtime computes what the C++ it stands for
    computes: the product of two words modulo 2^256 in four words and modulo
    2^192 in three, and, when the memory of a frame has to grow, the same
    charge, the same bound, the same growth of the capacity and the same
    context as [expand_memory]. *)
Theorem assembly_correct (x y : uint256_t) (t : Traits) (e : Environment) (min_size : Z) (c : Context) :
  u256_ok x → u256_ok y →
  mem_ok t e True c → 0 <= gas_remaining c < 2 ^ 63 →
  memory_size c < min_size < 2 ^ 29 →
  (u256_ok (monad_vm_runtime_mul x y) ∧ to_Z (monad_vm_runtime_mul x y) = (to_Z x * to_Z y) mod 2 ^ 256) ∧
  (let '(r0, r1, r2) := monad_vm_runtime_mul_192 x y in
   r0 + 2 ^ 64 * (r1 + 2 ^ 64 * r2) = (to_Z x * to_Z y) mod 2 ^ 192) ∧
  increase_memory_raw t e min_size c = expand_memory t e min_size c.
Proof.
  intros Hx Hy Hm Hg Hmin. split; [by apply mul_words|]. split.
  { destruct (monad_vm_runtime_mul_192 x y) as [[r0 r1] r2] eqn:E. by apply mul_192_words in E as (_ & _ & _ & ?). }
  by apply increase_memory_expands.
Qed.

Definition grow_msg : evmc_message := mkMessage EVMC_CALL 0 0 100 7 8 [] 0 0 7 0.
Definition grow_env : Environment := environment_from grow_msg [] (mkTxContext 0 0 0 0 0 0 0 0 0 0 []) (λ _, 0).
Definition all_ones : uint256_t := U256 (2 ^ 64 - 1) (2 ^ 64 - 1) (2 ^ 64 - 1) (2 ^ 64 - 1).
(** The square of -1 is 1, and the first word of a memory costs 3 gas. *)
Lemma assembly_correct_witness :
  let t := EvmTraits MONAD_ETH_CANCUN in
  to_Z (monad_vm_runtime_mul all_ones all_ones) = 1 ∧
  expand_memory t grow_env 20 (context_from grow_msg) = TRet (Next () (grown 32 3 97 (context_from grow_msg))).
Proof.
  intros t.
  assert (Hok : u256_ok all_ones) by (repeat constructor; done).
  assert (Hm : mem_ok t grow_env True (context_from grow_msg)).
  { exists 0. by split_and!. }
  pose proof (assembly_correct all_ones all_ones t grow_env 20 (context_from grow_msg) Hok Hok Hm) as H.
  destruct H as ([_ H1] & _ & H3); [vm_compute; done..|].
  split; [rewrite H1; vm_compute; reflexivity|]. rewrite <- H3. vm_compute. reflexivity.
Defined.
