(* ===== verification/InterpreterWords.v ===== *)
(** * The arithmetic of the interpreter

    The stack of the interpreter model holds numbers; the source computes on
    [uint256_t], four words of 64 bits.  Here are math.hpp and the operands of
    the instructions as they compute on words, and the theorem that they
    compute the numbers of the model. *)
From S2P Require Import Prelude Traits Account VersionStack AccountState BlockState State Methods Words WordMul WordDiv Uint256 Uint256Text Uint256Theorems CheckedMath Transaction Rlp ReserveBalance Precompiles Host ExecuteMessage Opcodes Runtime Interpreter RuntimeAsm.

Section words.
Context {O : WordOps}.
Definition zero : uint256_t := of_u64 0.
(** [b = a < b] and the like convert a [bool] to a word. *)
Definition of_bool (b : bool) : uint256_t := of_u64 (flag b).

(** ** math.hpp *)
(** mul is the assembly of math.S. *)
Definition math_mul (a b : uint256_t) : outcome uint256_t := Ok (monad_vm_runtime_mul a b).
Definition math_udiv (a b : uint256_t) : outcome uint256_t :=
  if operator_eq b zero then Ok zero else operator_div a b.
Definition math_sdiv (a b : uint256_t) : outcome uint256_t :=
  if operator_eq b zero then Ok zero else qr ← sdivrem a b; mret qr.1.
Definition math_umod (a b : uint256_t) : outcome uint256_t :=
  if operator_eq b zero then Ok zero else operator_mod a b.
Definition math_smod (a b : uint256_t) : outcome uint256_t :=
  if operator_eq b zero then Ok zero else qr ← sdivrem a b; mret qr.2.
Definition math_addmod (a b n : uint256_t) : outcome uint256_t :=
  if operator_eq n zero then Ok zero else Uint256.addmod a b n.
Definition math_mulmod (a b n : uint256_t) : outcome uint256_t :=
  if operator_eq n zero then Ok zero else Uint256.mulmod a b n.
(** with the gas charged for the exponent *)
Definition math_exp (a exponent : uint256_t) : outcome (Z * uint256_t) :=
  exponent_byte_size ← count_significant_bytes exponent;
  r ← Uint256.exp a exponent;
  mret (exponent_byte_size * 50, r).

(** ** What it is to compute a number *)
Definition computes (o : outcome uint256_t) (z : Z) : Prop := ∃ r, o = Ok r ∧ u256_ok r ∧ to_Z r = z.
Context {L : WordOpsLaws O}.
Lemma zero_spec : u256_ok zero ∧ to_Z zero = 0.
Proof. split; [apply u256_ok_of_u64|]. apply to_Z_of_u64. rewrite B_val. lia. Qed.
Lemma computes_zero : computes (Ok zero) 0.
Proof. destruct zero_spec. by exists zero. Qed.
Lemma eq_zero y : u256_ok y → operator_eq y zero = (to_Z y =? 0).
Proof.
  intros Hy. destruct zero_spec as [H0 E0]. apply Bool.eq_iff_eq_true. rewrite operator_eq_spec, Z.eqb_eq.
  split; [by intros ->|]. intros E. apply to_Z_inj; [done|done|]. by rewrite E0.
Qed.
Lemma computes_bool b : computes (Ok (of_bool b)) (flag b).
Proof.
  eexists. split_and!; [done|apply u256_ok_of_u64|]. apply to_Z_of_u64. rewrite B_val. destruct b; simpl; lia.
Qed.
(** Division by zero is zero, and otherwise the operation. *)
Lemma computes_guard y (o : outcome uint256_t) z : u256_ok y → (to_Z y ≠ 0 → computes o z) →
  computes (if operator_eq y zero then Ok zero else o) (if to_Z y =? 0 then 0 else z).
Proof. intros Hy H. rewrite eq_zero by done. destruct (Z.eqb_spec (to_Z y) 0); [apply computes_zero|auto]. Qed.
(** *** Bitwise operations, a word at a time *)
Lemma testbit_split a b n i : 0 <= n → 0 <= a < 2 ^ n → 0 <= i →
  Z.testbit (a + 2 ^ n * b) i = if i <? n then Z.testbit a i else Z.testbit b (i - n).
Proof.
  intros Hn Ha Hi. rewrite Z.mul_comm, Z.add_comm, <- lor_add, Z.lor_spec, <- Z.shiftl_mul_pow2 by done.
  rewrite Z.shiftl_spec by done. destruct (Z.ltb_spec i n) as [Hlt|Hge].
  - by rewrite (Z.testbit_neg_r b) by lia.
  - assert (Z.testbit a i = false) as ->; [|by rewrite orb_false_r].
    apply Z.testbit_false; [done|]. pose proof (Z.pow_le_mono_r 2 n i). rewrite Z.div_small; [done|lia].
Qed.
(** A bitwise operation that keeps zero acts on the words separately. *)
Section bitwise.
Context (op : Z → Z → Z) (f : bool → bool → bool).
Context (Hop : ∀ a b i, 0 <= i → Z.testbit (op a b) i = f (Z.testbit a i) (Z.testbit b i)) (Hf : f false false = false).
Context (Hnonneg : ∀ a b, 0 <= a → 0 <= b → 0 <= op a b).
Lemma bitwise_word a b : word_ok a → word_ok b → word_ok (op a b).
Proof.
  unfold word_ok. rewrite B_val. intros Ha Hb. split; [apply Hnonneg; lia|].
  destruct (decide (op a b = 0)) as [->|]; [lia|]. apply Z.log2_lt_pow2; [specialize (Hnonneg a b); lia|].
  apply Z.nle_gt. intros Hlog. pose proof (Z.bit_log2 (op a b) ltac:(specialize (Hnonneg a b); lia)) as Hbit.
  rewrite Hop in Hbit by (apply Z.log2_nonneg).
  assert (Hz : ∀ c, 0 <= c < 2 ^ 64 → Z.testbit c (Z.log2 (op a b)) = false).
  { intros c Hc. apply Z.testbit_false; [apply Z.log2_nonneg|].
    pose proof (Z.pow_le_mono_r 2 64 (Z.log2 (op a b))). by rewrite Z.div_small by lia. }
  rewrite !Hz, Hf in Hbit by done. done.
Qed.
Lemma bitwise_split a b c d : word_ok a → word_ok c → op (a + B * b) (c + B * d) = op a c + B * op b d.
Proof.
  intros Ha Hc. pose proof (bitwise_word a c Ha Hc) as Hac. unfold word_ok in *. rewrite B_val in *.
  apply Z.bits_inj'. intros i Hi. rewrite Hop, !testbit_split by lia. destruct (Z.ltb_spec i 64); by rewrite Hop by lia.
Qed.
Lemma bitwise_spec x y : u256_ok x → u256_ok y → computes (Ok (bitwise op x y)) (op (to_Z x) (to_Z y)).
Proof.
  rewrite !u256_ok_eq. intros (? & ? & ? & ?) (? & ? & ? & ?). eexists. split; [done|]. unfold bitwise. rewrite u256_ok_eq.
  cbn [w0 w1 w2 w3]. split; [auto using bitwise_word|]. rewrite !to_Z_eq, !bitwise_split by done. done.
Qed.
End bitwise.
Lemma not_spec x : u256_ok x → computes (Ok (operator_not x)) (word_not (to_Z x)).
Proof.
  rewrite u256_ok_eq. intros (H0 & H1 & H2 & H3). eexists. split; [done|]. unfold operator_not.
  assert (Hl : ∀ w, word_ok w → u64 (Z.lnot w) = B - 1 - w).
  { intros w Hw. rewrite u64_B. unfold Z.lnot, word_ok in *. replace (Z.pred (- w)) with (B - 1 - w + (-1) * B) by lia.
    rewrite Z.mod_add by lia. apply Z.mod_small. lia. }
  rewrite !Hl by done. rewrite u256_ok_eq. cbn [w0 w1 w2 w3]. unfold word_ok in *. split; [lia|].
  rewrite !to_Z_eq. cbn [w0 w1 w2 w3]. unfold word_not. rewrite B_val in *. lia.
Qed.
Lemma signed_to x : signed (to_Z x) = to_signed x.
Proof. done. Qed.
(** *** The power by squaring *)
Lemma pow256_spec p : ∀ b, pow256 b p = b ^ Zpos p mod 2 ^ 256.
Proof.
  induction p as [p IH|p IH|]; intros b; cbn [pow256]; unfold u256.
  - rewrite IH, pow_mod_base by lia. rewrite Zmult_mod_idemp_r. f_equal. rewrite <- Z.pow_2_r, <- Z.pow_mul_r by lia.
    replace (Zpos p~1) with (1 + 2 * Zpos p) by lia. rewrite Z.pow_add_r, Z.pow_1_r by lia. done.
  - rewrite IH, pow_mod_base by lia. f_equal. rewrite <- Z.pow_2_r, <- Z.pow_mul_r by lia. f_equal.
  - by rewrite Z.pow_1_r.
Qed.
Lemma exp256_spec b e : 0 <= e → exp256 b e = b ^ e mod 2 ^ 256.
Proof. intros He. destruct e; [done|apply pow256_spec|lia]. Qed.
(** *** Shifts by any amount *)
Lemma word_shl_spec s x : 0 <= s → word_shl s x = (x * 2 ^ s) mod 2 ^ 256.
Proof.
  intros Hs. unfold word_shl. destruct (Z.ltb_spec s 256); [done|].
  replace s with (s - 256 + 256) by lia. rewrite Z.pow_add_r, Z.mul_assoc by lia. by rewrite Z.mod_mul.
Qed.
Lemma div_large x s : - 2 ^ 256 <= x < 2 ^ 256 → 256 <= s → x / 2 ^ s = if x <? 0 then -1 else 0.
Proof.
  intros Hx Hs. pose proof (Z.pow_le_mono_r 2 256 s). destruct (Z.ltb_spec x 0); [|apply Z.div_small; lia].
  symmetry. apply (Z.div_unique_pos _ _ _ (x + 2 ^ s)); lia.
Qed.
Lemma word_shr_spec s x : 0 <= s → 0 <= x < 2 ^ 256 → word_shr s x = (x / 2 ^ s) mod 2 ^ 256.
Proof.
  intros Hs Hx. unfold word_shr. pose proof (pow2_pos s Hs). destruct (Z.ltb_spec s 256).
  - symmetry. apply Z.mod_small. split; [apply Z.div_pos; lia|]. apply Z.div_lt_upper_bound; nia.
  - rewrite div_large by lia. destruct (Z.ltb_spec x 0); [lia|done].
Qed.
Lemma word_sar_spec s x : 0 <= s → - 2 ^ 255 <= signed x < 2 ^ 255 → word_sar s x = (signed x / 2 ^ s) mod 2 ^ 256.
Proof.
  intros Hs Hx. unfold word_sar, u256. f_equal. destruct (Z.min_spec s 256) as [[_ ->]|[? ->]]; [done|].
  by rewrite !div_large by lia.
Qed.
(** *** Division *)
Lemma udiv_spec x y : u256_ok x → u256_ok y → computes (math_udiv x y) (rt_udiv (to_Z x) (to_Z y)).
Proof.
  intros Hx Hy. apply computes_guard; [done|]. intros H0.
  destruct (udivrem256_spec x y Hx Hy H0) as (q & r & E & Hq & Hr & Eq & Er). unfold operator_div. rewrite E. by exists q.
Qed.
Lemma umod_spec x y : u256_ok x → u256_ok y → computes (math_umod x y) (rt_umod (to_Z x) (to_Z y)).
Proof.
  intros Hx Hy. apply computes_guard; [done|]. intros H0.
  destruct (udivrem256_spec x y Hx Hy H0) as (q & r & E & Hq & Hr & Eq & Er). unfold operator_mod. rewrite E. by exists r.
Qed.
Lemma sdiv_spec x y : u256_ok x → u256_ok y → computes (math_sdiv x y) (rt_sdiv (to_Z x) (to_Z y)).
Proof.
  intros Hx Hy. apply computes_guard; [done|]. intros H0.
  destruct (sdivrem_spec x y Hx Hy H0) as (q & r & E & Hq & Hr & Eq & Er). rewrite E. by exists q.
Qed.
Lemma smod_spec x y : u256_ok x → u256_ok y → computes (math_smod x y) (rt_smod (to_Z x) (to_Z y)).
Proof.
  intros Hx Hy. apply computes_guard; [done|]. intros H0.
  destruct (sdivrem_spec x y Hx Hy H0) as (q & r & E & Hq & Hr & Eq & Er). rewrite E. by exists r.
Qed.
Lemma eq_to_Z x y : u256_ok x → u256_ok y → operator_eq x y = (to_Z x =? to_Z y).
Proof.
  intros Hx Hy. apply Bool.eq_iff_eq_true. rewrite operator_eq_spec, Z.eqb_eq. split; [by intros ->|by apply to_Z_inj].
Qed.
Lemma bit_operations_spec x y : u256_ok x → u256_ok y →
  computes (Ok (operator_and x y)) (Z.land (to_Z x) (to_Z y)) ∧ computes (Ok (operator_or x y)) (Z.lor (to_Z x) (to_Z y)) ∧
  computes (Ok (operator_xor x y)) (Z.lxor (to_Z x) (to_Z y)) ∧ computes (Ok (operator_not x)) (word_not (to_Z x)) ∧
  computes (Ok (operator_shl y x)) (word_shl (to_Z x) (to_Z y)) ∧
  computes (Ok (operator_shr y x)) (word_shr (to_Z x) (to_Z y)) ∧
  computes (Ok (Uint256.sar x y)) (word_sar (to_Z x) (to_Z y)) ∧
  computes (Ok (of_u64 (countl_zero x))) (word_clz (to_Z x)).
Proof.
  intros Hx Hy. pose proof (to_Z_bound x Hx). pose proof (to_Z_bound y Hy). split_and!.
  - apply (bitwise_spec _ andb); try done; [intros; apply Z.land_spec|]. intros. apply Z.land_nonneg. auto.
  - apply (bitwise_spec _ orb); try done; [intros; apply Z.lor_spec|]. intros. by apply Z.lor_nonneg.
  - apply (bitwise_spec _ xorb); try done; [intros; apply Z.lxor_spec|]. intros. apply Z.lxor_nonneg. lia.
  - by apply not_spec.
  - eexists. split; [done|]. rewrite word_shl_spec by lia. by apply operator_shl_spec.
  - eexists. split; [done|]. rewrite word_shr_spec by lia. by apply (shift_right_spec Logical).
  - eexists. split; [done|]. pose proof (to_signed_bound y Hy). rewrite word_sar_spec by (try lia; by rewrite signed_to).
    by apply (shift_right_spec Arithmetic).
  - pose proof (bit_width_spec x Hx) as Hw. unfold bit_width in Hw. eexists. split_and!; [done|apply u256_ok_of_u64|].
    assert (0 <= width (to_Z x) <= 256).
    { unfold width. destruct (Z.eqb_spec (to_Z x) 0); [lia|]. pose proof (Z.log2_nonneg (to_Z x)).
      pose proof (Z.log2_lt_pow2 (to_Z x) 256 ltac:(lia)). lia. }
    rewrite to_Z_of_u64 by (rewrite B_val; lia). unfold word_clz. change (bits (to_Z x)) with (width (to_Z x)). lia.
Qed.
End words.

(** C12: the arithmetic of the instructions is that of uint256.hpp.  On words
    that stand for the operands, every routine the instructions call returns
    (no division by zero reaches it) words that stand for the number the
    model of the instruction puts on the stack; the exponentiation charges for
    the bytes of its exponent. *)
Theorem instruction_arithmetic {O : WordOps} {L : WordOpsLaws O} (x y m : uint256_t) :
  u256_ok x → u256_ok y → u256_ok m →
  let a := to_Z x in let b := to_Z y in let n := to_Z m in
  (computes (Ok (operator_add x y)) (word_add a b) ∧ computes (math_mul x y) (word_mul a b) ∧
   computes (Ok (operator_sub x y)) (word_sub a b) ∧ computes (math_udiv x y) (rt_udiv a b) ∧
   computes (math_sdiv x y) (rt_sdiv a b) ∧ computes (math_umod x y) (rt_umod a b) ∧
   computes (math_smod x y) (rt_smod a b) ∧ computes (math_addmod x y m) (rt_addmod a b n) ∧
   computes (math_mulmod x y m) (rt_mulmod a b n)) ∧
  (∃ r, math_exp x y = Ok (significant_bytes b * 50, r) ∧ computes (Ok r) (exp256 a b)) ∧
  (computes (Uint256Text.signextend x y) (word_signextend a b) ∧ computes (Uint256Text.byte x y) (word_byte a b) ∧
   computes (Ok (of_bool (operator_lt x y))) (word_lt a b) ∧ computes (Ok (of_bool (operator_gt x y))) (word_gt a b) ∧
   computes (Ok (of_bool (Uint256.slt x y))) (word_slt a b) ∧ computes (Ok (of_bool (Uint256.slt y x))) (word_sgt a b) ∧
   computes (Ok (of_bool (operator_eq x y))) (word_eq a b) ∧
   computes (Ok (of_bool (negb (operator_bool x)))) (word_iszero a)) ∧
  computes (Ok (operator_and x y)) (Z.land a b) ∧ computes (Ok (operator_or x y)) (Z.lor a b) ∧
  computes (Ok (operator_xor x y)) (Z.lxor a b) ∧ computes (Ok (operator_not x)) (word_not a) ∧
  computes (Ok (operator_shl y x)) (word_shl a b) ∧ computes (Ok (operator_shr y x)) (word_shr a b) ∧
  computes (Ok (Uint256.sar x y)) (word_sar a b) ∧ computes (Ok (of_u64 (countl_zero x))) (word_clz a).
Proof.
  intros Hx Hy Hm a b n. subst a b n. pose proof (to_Z_bound x Hx). pose proof (to_Z_bound y Hy).
  split; [|split; [|split]].
  - unfold word_add, word_sub, word_mul. split_and!.
    + eexists. split; [done|]. by apply operator_add_spec.
    + eexists. split; [done|]. by apply mul_words.
    + eexists. split; [done|]. by apply operator_sub_spec.
    + by apply udiv_spec.
    + by apply sdiv_spec.
    + by apply umod_spec.
    + by apply smod_spec.
    + apply computes_guard; [done|]. intros Hn0. by apply addmod_spec.
    + apply computes_guard; [done|]. intros Hn0. by apply mulmod_spec.
  - unfold math_exp. rewrite count_significant_bytes_spec by done. cbn [mbind outcome_bind].
    destruct (exp_spec x y Hx Hy) as (r & Er & Hr & Vr). rewrite Er. exists r. split; [done|]. exists r.
    by rewrite exp256_spec by lia.
  - unfold word_lt, word_gt, word_slt, word_sgt, word_eq, word_iszero. rewrite !signed_to.
    split_and!.
    + by apply signextend_spec.
    + by apply byte_spec.
    + rewrite operator_lt_spec by done. apply computes_bool.
    + unfold operator_gt. rewrite operator_lt_spec by done. apply computes_bool.
    + rewrite slt_spec by done. apply computes_bool.
    + rewrite slt_spec by done. apply computes_bool.
    + rewrite eq_to_Z by done. apply computes_bool.
    + rewrite operator_bool_spec, negb_involutive by done. apply computes_bool.
  - by apply bit_operations_spec.
Qed.

Lemma instruction_arithmetic_witness :
  computes (math_sdiv (O := portable_ops) ex_neg ex_b) (rt_sdiv (to_Z ex_neg) (to_Z ex_b)) ∧
  computes (math_umod (O := portable_ops) ex_neg ex_b) (rt_umod (to_Z ex_neg) (to_Z ex_b)).
Proof.
  destruct (instruction_arithmetic (L := portable_laws) ex_neg ex_b ex_a ex_neg_ok ex_b_ok ex_a_ok) as ((_ & _ & _ & _ & H1 & H2 & _) & _).
  split; [exact H1|exact H2].
Defined.
