(* ===== verification/OffsetTrie.v ===== *)
(** * The witness trie

    src/category/execution/ethereum/db/offset_trie: a Merkle Patricia trie in
    a read-only blob of nodes (a witness, with digests in place of what it
    leaves out) and an overlay of rewritten and new nodes.  A node keeps its
    id when it is rewritten, so that nothing above it changes; the hashes of
    nodes are cached and dropped along the paths that are written.  With it
    the paths of mpt/nibbles_view.hpp and core/nibble.h, the compact encoding
    of mpt/merkle/compact_encode.hpp and the encoders of core/rlp/encode.hpp.

    A pointer to a node is the list of the bytes from there to the end of its
    region; a read outside of it is [Abort].  A [NibblesView] is the list of
    its nibbles.  A buffer that is filled from its end is the list of the
    bytes written so far. *)
From S2P Require Import Prelude Account Uint256Text Rlp.

(** ** Nibbles *)
Definition get_nibble (d : list Z) (n : nat) : option Z :=
  r ← d !! (n / 2)%nat;
  Some (if Nat.even n then Z.shiftr r 4 else Z.land r 0xF).
(** [d] is as long as the callers have made it. *)
Definition set_nibble (d : list Z) (n : nat) (v : Z) : list Z :=
  let r := d !!! (n / 2)%nat in
  <[(n / 2)%nat := if Nat.even n then Z.lor (Z.land r 0xF) (Z.shiftl v 4 mod 256)
                   else Z.lor (Z.land r 0xF0) (Z.land v 0xF)]> d.
(** [NibblesView{0, n, d}] *)
Definition nibbles_of (n : nat) (d : list Z) : option (list Z) := mapM (get_nibble d) (seq 0 n).
(** [set(first + i, path.get(i))] for every [i] *)
Definition set_nibbles (d : list Z) (first : nat) (path : list Z) : list Z :=
  fold_left (λ d i, set_nibble d (first + i) (path !!! i)) (seq 0 (length path)) d.
Definition MAX_PATH_NIBBLES : Z := 64.
Definition nibble_max : Z := 255.

Section trie.
Context {W : Type}.
(** [path.substr(pos)], [path.substr(0, count)] and [path.get(i)] *)
Definition substr (path : list Z) (pos : nat) : M W (list Z) :=
  massert (Z.of_nat pos <=? len path);; mret (drop pos path).
Definition prefix (path : list Z) (count : nat) : M W (list Z) :=
  massert (Z.of_nat count <=? len path);; mret (take count path).
Definition nibble (path : list Z) (i : nat) : M W Z := mvalue (path !! i).
Definition concat_nibbles (a b : list Z) : M W (list Z) :=
  massert (len a + len b <=? nibble_max);; mret (a ++ b).
(** [append_path]: the number of nibbles, and two nibbles to a byte *)
Definition append_path (path : list Z) : M W (list Z) :=
  massert (len path <=? MAX_PATH_NIBBLES);;
  mret (len path :: set_nibbles (replicate ((length path + 1) / 2) 0) 0 path).
(** [compact_encode_raw], into [res], whose contents are overwritten *)
Definition compact_encode_raw (res : list Z) (nibbles : list Z) (terminating : bool) : M W (list Z) :=
  massert (negb (len nibbles =? 0) || terminating);;
  let res := <[0%nat := if terminating then 0x20 else 0x00]> res in
  if Nat.even (length nibbles) then mret (set_nibbles res 2 nibbles)
  else
    n0 ← nibble nibbles 0;
    mret (set_nibbles (<[0%nat := Z.lor (res !!! 0%nat) (Z.lor 0x10 n0)]> res) 2 (drop 1 nibbles)).
End trie.
Fixpoint common_prefix_length (a b : list Z) : nat :=
  match a, b with
  | x :: a, y :: b => if x =? y then S (common_prefix_length a b) else 0
  | _, _ => 0
  end.

(** ** The nodes *)
Definition BRANCH : Z := 0.
Definition EXT : Z := 1.
Definition LEAF_ACCT : Z := 2.
Definition LEAF_STORAGE : Z := 3.
Definition DIGEST : Z := 0xa0.
Definition EMPTY : Z := 77.
Definition HEADER_LEN : Z := 8.
Definition MAX_NODE_RLP : Z := 700.
Definition HASH_RLP_LEN : nat := 33.
Definition MAX_NONCE_BALANCE_RLP_LEN : Z := 42.
Definition NULL_ID : Z := 0.
Definition OVERLAY_BASE : Z := 2 ^ 31.
Definition NULL_ROOT : Z := 0x56e81f171bcc55a6ff8345e692c0f86e5b48e01b996cadc001622fb5e363b421.
Definition is_overlay_id (id : Z) : bool := id >=? OVERLAY_BASE.

Definition slice (p : list Z) (off n : nat) : option (list Z) :=
  if (off + n <=? length p)%nat then Some (take n (drop off p)) else None.
Definition read_node_id (p : list Z) (off : nat) : option Z := le_val <$> slice p off 4.
Definition path_byte_length (n : nat) : nat := ((n + 1) / 2)%nat.
(** [path_view]: a count and the nibbles after it *)
Definition path_view (p : list Z) (off : nat) : option (list Z) :=
  n ← p !! off;
  d ← slice p (S off) (path_byte_length (Z.to_nat n));
  nibbles_of (Z.to_nat n) d.

(** A node with the fields its view gives access to. *)
Inductive node :=
| BranchView (children : list Z)
| ExtView (child : Z) (path : list Z)
| AccountLeafView (storage : Z) (code_hash_rlp nonce_balance : list Z) (path : list Z)
| StorageLeafView (value : Z) (path : list Z)
| DigestView (hash : Z)
| NullView.
Definition node_path (nd : node) : list Z :=
  match nd with ExtView _ p | AccountLeafView _ _ _ p | StorageLeafView _ p => p | _ => [] end.

(** Where the path of an account leaf starts. *)
Definition account_path_offset (p : list Z) : option nat :=
  n ← p !! (1 + 4 + HASH_RLP_LEN)%nat; Some (1 + 4 + HASH_RLP_LEN + 1 + Z.to_nat n)%nat.
(** [match]: the view of a node by its tag *)
Definition view (p : list Z) : option node :=
  tag ← p !! 0%nat;
  if tag =? BRANCH then
    children ← mapM (λ i, read_node_id p (1 + 4 * i)) (seq 0 16);
    Some (BranchView children)
  else if tag =? EXT then
    child ← read_node_id p 1;
    path ← path_view p 5;
    Some (ExtView child path)
  else if tag =? LEAF_ACCT then
    storage ← read_node_id p 1;
    code_hash ← slice p 5 HASH_RLP_LEN;
    n ← p !! (1 + 4 + HASH_RLP_LEN)%nat;
    nonce_balance ← slice p (1 + 4 + HASH_RLP_LEN + 1) (Z.to_nat n);
    off ← account_path_offset p;
    path ← path_view p off;
    Some (AccountLeafView storage code_hash nonce_balance path)
  else if tag =? LEAF_STORAGE then
    value ← slice p 1 32;
    path ← path_view p 33;
    Some (StorageLeafView (be_val value) path)
  else if tag =? DIGEST then
    h ← slice p 1 32;
    Some (DigestView (be_val h))
  else if tag =? EMPTY then Some NullView
  else None.

(** [checked_end]: the offset one past the node, in a region that ends with
    [p] *)
Definition checked_end (p : list Z) : option nat :=
  let fits (off : nat) : option nat := if (off <=? length p)%nat then Some off else None in
  let path_end (off : nat) : option nat :=
    n ← p !! off;
    if n <=? MAX_PATH_NIBBLES then fits (off + 1 + path_byte_length (Z.to_nat n))%nat else None in
  let rlp_end (off : nat) : option nat := n ← p !! off; fits (off + 1 + Z.to_nat n)%nat in
  tag ← p !! 0%nat;
  if tag =? BRANCH then fits (1 + 16 * 4)%nat
  else if tag =? EXT then path_end (1 + 4)%nat
  else if tag =? LEAF_ACCT then off ← rlp_end (1 + 4 + HASH_RLP_LEN)%nat; path_end off
  else if tag =? LEAF_STORAGE then path_end (1 + 32)%nat
  else if tag =? DIGEST then fits (1 + 32)%nat
  else None.

(** ** OffsetTrie *)
Record OffsetTrie := mkOffsetTrie {
  blob_ : list Z;
  overlay_ : gmap Z (list Z);
  hashes_ : gmap Z Z;
  next_id_ : Z;
  root : Z
}.
Definition set_overlay (m : gmap Z (list Z)) (T : OffsetTrie) : OffsetTrie :=
  mkOffsetTrie (blob_ T) m (hashes_ T) (next_id_ T) (root T).
Definition set_hashes (m : gmap Z Z) (T : OffsetTrie) : OffsetTrie :=
  mkOffsetTrie (blob_ T) (overlay_ T) m (next_id_ T) (root T).
Definition set_next_id (n : Z) (T : OffsetTrie) : OffsetTrie :=
  mkOffsetTrie (blob_ T) (overlay_ T) (hashes_ T) n (root T).
Definition set_root (r : Z) (T : OffsetTrie) : OffsetTrie :=
  mkOffsetTrie (blob_ T) (overlay_ T) (hashes_ T) (next_id_ T) r.
Abbreviation trieM := (M OffsetTrie).

Definition in_blob (T : OffsetTrie) (id : Z) : bool := (HEADER_LEN <=? id) && (id <? len (blob_ T)).
Definition get_original (id : Z) : trieM (list Z) :=
  T ← mget;
  massert ((id =? NULL_ID) || in_blob T id);;
  mret (drop (Z.to_nat id) (blob_ T)).
Definition get_current (id : Z) : trieM (list Z) :=
  T ← mget;
  match overlay_ T !! id with
  | Some node => mret node
  | None => if is_overlay_id id then mret (blob_ T) else get_original id
  end.
Definition match_ (p : list Z) : trieM node := mvalue (view p).

(** [find_original]; [fuel] bounds the nodes visited *)
Fixpoint find_original (fuel : nat) (id : Z) (key : list Z) : trieM node :=
  match fuel with
  | O => mabort
  | S fuel =>
      if id =? NULL_ID then mret NullView
      else
        p ← get_original id;
        nd ← match_ p;
        match nd with
        | BranchView children =>
            match key with
            | [] => mret NullView
            | n :: key => child ← mvalue (children !! Z.to_nat n); find_original fuel child key
            end
        | ExtView child path =>
            if bool_decide (take (length path) key = path)
            then find_original fuel child (drop (length path) key) else mret NullView
        | AccountLeafView _ _ _ path | StorageLeafView _ path =>
            mret (if bool_decide (path = key) then nd else NullView)
        | DigestView _ | NullView => mabort
        end
  end.

(** *** Writing nodes *)
Definition to_node_id_wire_t (v : Z) : trieM Z := massert (v =? u32 v);; mret (u32 v).
Definition append_node_id (v : Z) : trieM (list Z) := wire ← to_node_id_wire_t v; mret (le_bytes 4 wire).
Definition append_branch (children : list Z) : list Z := BRANCH :: concat (le_bytes 4 <$> children).
Definition append_ext (path : list Z) (child : Z) : trieM (list Z) :=
  c ← append_node_id child; p ← append_path path; mret (EXT :: c ++ p).
Definition append_storage (path : list Z) (value : Z) : trieM (list Z) :=
  p ← append_path path; mret (LEAF_STORAGE :: be_bytes 32 value ++ p).
Definition append_acct (storage : Z) (acct : Account) (path : list Z) : trieM (list Z) :=
  s ← append_node_id storage;
  let nonce_balance := encode_unsigned 8 (nonce acct) ++ encode_unsigned 32 (balance acct) in
  massert ((len nonce_balance >=? 2) && (len nonce_balance <=? MAX_NONCE_BALANCE_RLP_LEN));;
  p ← append_path path;
  mret (LEAF_ACCT :: s ++ encode_bytes32 (code_hash acct) ++ len nonce_balance :: nonce_balance ++ p).
Definition append_digest (hash : Z) : list Z := DIGEST :: be_bytes 32 hash.

Definition fresh_id : trieM Z :=
  T ← mget;
  mmodify (set_next_id (u64 (next_id_ T + 1)));; mret (next_id_ T).
Definition forget_hash (id : Z) : trieM () := mmodify (λ T, set_hashes (delete id (hashes_ T)) T).
Definition put_node (id : Z) (node : list Z) : trieM Z :=
  if id =? NULL_ID then
    fresh ← fresh_id;
    mmodify (λ T, set_overlay (<[fresh := node]> (overlay_ T)) T);; mret fresh
  else
    forget_hash id;;
    mmodify (λ T, set_overlay (<[id := node]> (overlay_ T)) T);; mret id.
Definition put_branch (id : Z) (children : list Z) : trieM Z := put_node id (append_branch children).
Definition put_ext (id : Z) (path : list Z) (child : Z) : trieM Z := append_ext path child ≫= put_node id.
Definition put_storage (id : Z) (path : list Z) (value : Z) : trieM Z := append_storage path value ≫= put_node id.
Definition put_acct (id : Z) (path : list Z) (acct : Account) (storage : Z) : trieM Z :=
  append_acct storage acct path ≫= put_node id.
(** [acc]: the bytes of the leaf, of which all up to the path are copied *)
Definition clone_acct (id : Z) (acc new_path : list Z) : trieM Z :=
  off ← mvalue (account_path_offset acc);
  p ← append_path new_path;
  put_node id (take off acc ++ p).

(** *** Inserting: the leaf for a key and the path it has to spell, with a
    place made for it *)
Definition no_children : list Z := replicate 16 NULL_ID.
(** the branch (under an extension for [cp] shared nibbles) at [id] that [child]
    and a new leaf hang from, at the nibbles after the shared ones *)
Definition diverge (id : Z) (cp : nat) (path key : list Z) (child : Z) : trieM (Z * list Z) :=
  w ← to_node_id_wire_t child;
  pn ← nibble path cp;
  let children := <[Z.to_nat pn := w]> no_children in
  leaf ← fresh_id;
  wl ← to_node_id_wire_t leaf;
  kn ← nibble key cp;
  let children := <[Z.to_nat kn := wl]> children in
  (if (0 <? cp)%nat then
     branch ← put_branch NULL_ID children;
     p ← prefix key cp;
     put_ext id p branch
   else put_branch id children);;
  rest ← substr key (S cp);
  mret (leaf, rest).
Definition split_leaf (id : Z) (path key : list Z) (reput_old : list Z → trieM Z) : trieM (Z * list Z) :=
  if bool_decide (path = key) then mret (id, key)
  else
    let cp := common_prefix_length path key in
    massert ((cp <? length path)%nat && (cp <? length key)%nat);;
    np ← substr path (S cp);
    child ← reput_old np;
    diverge id cp path key child.
Fixpoint upsert_node (fuel : nat) (id : Z) (key : list Z) : trieM (Z * list Z) :=
  match fuel with
  | O => mabort
  | S fuel =>
      forget_hash id;;
      p ← get_current id;
      nd ← match_ p;
      match nd with
      | NullView => leaf ← fresh_id; mret (leaf, key)
      | StorageLeafView v path => split_leaf id path key (λ np, put_storage NULL_ID np v)
      | AccountLeafView _ _ _ path => split_leaf id path key (λ np, clone_acct NULL_ID p np)
      | ExtView child path =>
          let cp := common_prefix_length path key in
          if (cp =? length path)%nat then key ← substr key cp; upsert_node fuel child key
          else
            child ← (if (cp + 1 <? length path)%nat
                     then np ← substr path (S cp); put_ext NULL_ID np child else mret child);
            diverge id cp path key child
      | BranchView children =>
          massert (negb (len key =? 0));;
          nib ← nibble key 0;
          child ← mvalue (children !! Z.to_nat nib);
          key ← substr key 1;
          r ← upsert_node fuel child key;
          (if child =? NULL_ID then
             w ← to_node_id_wire_t r.1;
             put_branch id (<[Z.to_nat nib := w]> children);; mret ()
           else mret ());;
          mret r
      | DigestView _ => mabort
      end
  end.

(** *** Erasing *)
Inductive EraseResult := Erased | Unmodified | Modified.
(** [child]: the bytes of the node *)
Definition fold_ext_node_path_maybe (ext_parent : Z) (prefix child : list Z) : trieM () :=
  massert (negb (ext_parent =? NULL_ID));;
  nd ← match_ child;
  match nd with
  | BranchView _ => mret ()
  | ExtView c path => p ← concat_nibbles prefix path; put_ext ext_parent p c;; mret ()
  | StorageLeafView v path => p ← concat_nibbles prefix path; put_storage ext_parent p v;; mret ()
  | AccountLeafView _ _ _ path => p ← concat_nibbles prefix path; clone_acct ext_parent child p;; mret ()
  | DigestView _ | NullView => mabort
  end.
(** The loop over the children: how many there are, up to two, and the last
    one seen. *)
Fixpoint count_children (i : nat) (children : list Z) (count single : nat) : nat * nat :=
  match children with
  | c :: children =>
      if (count <? 2)%nat then
        if c =? NULL_ID then count_children (S i) children count single
        else count_children (S i) children (S count) i
      else (count, single)
  | [] => (count, single)
  end.
Fixpoint erase_node (fuel : nat) (id : Z) (key : list Z) : trieM EraseResult :=
  match fuel with
  | O => mabort
  | S fuel =>
      p ← get_current id;
      nd ← match_ p;
      match nd with
      | NullView => mret Unmodified
      | StorageLeafView _ path | AccountLeafView _ _ _ path =>
          mret (if bool_decide (path = key) then Erased else Unmodified)
      | ExtView child_id path =>
          massert (negb (child_id =? NULL_ID));;
          let cp := common_prefix_length path key in
          if (cp <? length path)%nat then mret Unmodified
          else
            key ← substr key cp;
            r ← erase_node fuel child_id key;
            match r with
            | Erased => mret Erased
            | Unmodified => mret Unmodified
            | Modified =>
                forget_hash id;;
                child ← get_current child_id;
                nd ← match_ child;
                match nd with
                | NullView => mabort
                | _ => fold_ext_node_path_maybe id path child;; mret Modified
                end
            end
      | BranchView children =>
          massert (negb (len key =? 0));;
          branch ← nibble key 0;
          child ← mvalue (children !! Z.to_nat branch);
          if child =? NULL_ID then mret Unmodified
          else
            key ← substr key 1;
            r ← erase_node fuel child key;
            match r with
            | Unmodified => mret Unmodified
            | _ =>
                forget_hash id;;
                let children := match r with Erased => <[Z.to_nat branch := NULL_ID]> children | _ => children end in
                let '(count, single) := count_children 0 children 0 0 in
                if (count =? 0)%nat then mret Erased
                else if (count =? 1)%nat then
                  let child_path := [Z.of_nat single] in
                  single_child ← mvalue (children !! single);
                  child ← get_current single_child;
                  nd ← match_ child;
                  match nd with
                  | NullView => mabort
                  | BranchView _ => put_ext id child_path single_child;; mret Modified
                  | _ => fold_ext_node_path_maybe id child_path child;; mret Modified
                  end
                else put_branch id children;; mret Modified
            end
      | DigestView _ => mabort
      end
  end.

(** ** core/rlp/encode.hpp *)
Definition length_length (n : Z) : nat :=
  let lz_bits := 64 - (if n =? 0 then 0 else Z.log2 n + 1) in
  Z.to_nat (8 - lz_bits / 8).
Definition string_length (s : list Z) : Z :=
  if (len s =? 1) && (default 0 (head s) <=? 0x7f) then 1
  else if len s <=? 55 then 1 + len s
  else 1 + Z.of_nat (length_length (len s)) + len s.
Definition encode_string (s : list Z) : list Z :=
  if (len s =? 1) && (default 0 (head s) <=? 0x7f) then s
  else if len s <=? 55 then (0x80 + len s) :: s
  else (0xb7 + Z.of_nat (length_length (len s))) :: be_bytes (length_length (len s)) (len s) ++ s.
Definition encode_list_prefix_compact (payload_size : Z) : list Z :=
  if payload_size <=? 55 then [0xc0 + payload_size]
  else (0xf7 + Z.of_nat (length_length payload_size)) :: be_bytes (length_length payload_size) payload_size.

(** ** Hashing *)
Section hashing.
Context (keccak256 : list Z → Z).
(** [dest.last(n)] and [dest.shrink(n)]: bytes in front of those written *)
Definition prepend (bytes dest : list Z) : trieM (list Z) :=
  massert (len bytes + len dest <=? MAX_NODE_RLP);; mret (bytes ++ dest).
Definition encode_hash (hash dest : list Z) : trieM (list Z) := prepend hash dest.
Definition hash_rlp (h : Z) : list Z := 0xa0 :: be_bytes 32 h.
Definition encode_path (dest path : list Z) (terminating : bool) : trieM (list Z) :=
  let path_len := (length path / 2 + 1)%nat in
  res ← compact_encode_raw (replicate path_len 0) path terminating;
  d ← prepend res dest;
  if (1 <? path_len)%nat then prepend [0x80 + Z.of_nat path_len] d else mret d.
Definition wrap (s : list Z) : trieM (list Z) := prepend (encode_list_prefix_compact (len s)) s.
Definition nonce_balance_rlp (nonce_balance : list Z) : trieM (list Z) :=
  massert ((len nonce_balance >=? 2) && (len nonce_balance <=? MAX_NONCE_BALANCE_RLP_LEN));; mret nonce_balance.
Definition digest_at (w : Z) : trieM bool :=
  if negb (w =? 0) && (w <? OVERLAY_BASE) then
    p ← get_original w; mret (bool_decide (p !! 0%nat = Some DIGEST))
  else mret false.
(** [while (lo > 0 && consecutive && digest_at) --lo;] from [lo] = [length children],
    with [next] the child at [lo]: the children left of the run and the first child of the run *)
Fixpoint digest_run (rev_children : list Z) (next : Z) (n : nat) : trieM (list Z * Z * nat) :=
  match rev_children with
  | c :: rest =>
      if c + 33 =? next then
        d ← digest_at c;
        if (d : bool) then digest_run rest c (S n) else mret (rev_children, next, n)
      else mret (rev_children, next, n)
  | [] => mret ([], next, n)
  end.

Definition cache_hash (id h : Z) : trieM () :=
  mmodify (λ T, match hashes_ T !! id with
                | Some _ => T (* emplace keeps what is there *)
                | None => set_hashes (<[id := h]> (hashes_ T)) T
                end).

Section node.
(** [child_ref] and [hash] of the nodes below *)
Context (child_ref : Z → list Z → trieM (list Z)) (hash : Z → trieM Z).
(** the loop over the children of a branch, from the last to the first *)
Fixpoint encode_children (fuel : nat) (rev_children dest : list Z) : trieM (list Z) :=
  match fuel, rev_children with
  | S fuel, c :: rest =>
      d ← digest_at c;
      if (d : bool) then
        '(rest, lo, n) ← digest_run rest c 1;
        T ← mget;
        digests ← mvalue (slice (blob_ T) (Z.to_nat lo) (n * HASH_RLP_LEN));
        dest ← prepend digests dest;
        encode_children fuel rest dest
      else dest ← child_ref c dest; encode_children fuel rest dest
  | _, _ => mret dest
  end.
Definition encode_node (nd : node) : trieM (list Z) :=
  match nd with
  | BranchView children =>
      dest ← prepend [0x80] [];
      dest ← encode_children 16 (rev children) dest;
      wrap dest
  | ExtView child path =>
      dest ← child_ref child [];
      dest ← encode_path dest path false;
      wrap dest
  | AccountLeafView storage code_hash_rlp nonce_balance path =>
      dest ← encode_hash code_hash_rlp [];
      h ← hash storage;
      dest ← encode_hash (hash_rlp h) dest;
      nb ← nonce_balance_rlp nonce_balance;
      dest ← prepend nb dest;
      dest ← wrap dest;
      let account_len := len dest in
      massert ((account_len >? 55) && (account_len <=? 0xff));;
      dest ← prepend [account_len] dest;
      dest ← prepend [0xb8] dest;
      dest ← encode_path dest path true;
      wrap dest
  | StorageLeafView v path =>
      let val := zeroless_view (be_bytes 32 v) in
      let val_len := string_length val in
      dest ← prepend (encode_string val) [];
      dest ← (if negb ((len val =? 1) && (default 0 (head val) <=? 0x7f))
              then prepend [0x80 + val_len] dest else mret dest);
      dest ← encode_path dest path true;
      wrap dest
  | DigestView _ | NullView => mabort
  end.
End node.

(** [priming]: the pass of the constructor, which reads the blob only *)
Definition read_node (priming : bool) (id : Z) : trieM (list Z) :=
  if priming then get_original id else get_current id.
(** [child_ref] with [child_ref_compute], and [hash], of which [encode_rlp]
    is [encode_node]; [hash] reads the current nodes in either pass *)
Fixpoint child_ref (fuel : nat) (priming : bool) (id : Z) (dest : list Z) : trieM (list Z) :=
  match fuel with
  | O => mabort
  | S fuel =>
      if id =? NULL_ID then prepend [0x80] dest
      else
        p ← read_node priming id;
        nd ← match_ p;
        match nd with
        | NullView => mabort
        | DigestView h => encode_hash (hash_rlp h) dest
        | _ =>
            T ← mget;
            match hashes_ T !! id with
            | Some h => encode_hash (hash_rlp h) dest
            | None =>
                rlp ← encode_node (child_ref fuel priming) (hash fuel) nd;
                if len rlp <? 32 then prepend rlp dest
                else if priming then mabort
                else
                  let h := keccak256 rlp in
                  cache_hash id h;;
                  prepend (encode_string (be_bytes 32 h)) dest
            end
        end
  end
with hash (fuel : nat) (id : Z) : trieM Z :=
  match fuel with
  | O => mabort
  | S fuel =>
      p ← get_current id;
      nd ← match_ p;
      match nd with
      | NullView => mret NULL_ROOT
      | DigestView h => mret h
      | _ =>
          T ← mget;
          match hashes_ T !! id with
          | Some h => mret h
          | None =>
              rlp ← encode_node (child_ref fuel false) (hash fuel) nd;
              massert (len rlp >=? 32);;
              let h := keccak256 rlp in
              cache_hash id h;; mret h
          end
      end
  end.
Definition encode_rlp (fuel : nat) (priming : bool) (nd : node) : trieM (list Z) :=
  encode_node (child_ref fuel priming) (hash fuel) nd.
(** Two tries of 64 nibbles, one below the other. *)
Definition trie_fuel : nat := 132.
Definition state_root : trieM Z := T ← mget; hash trie_fuel (root T).

(** ** The constructor *)
Definition read_root (blob : list Z) : option Z :=
  if (HEADER_LEN <=? len blob) && bool_decide (take 4 blob = [77; 90; 87; 1]) && (len blob <? OVERLAY_BASE) then
    r ← read_node_id blob 4;
    if (r =? NULL_ID) || ((HEADER_LEN <=? r) && (r <? len blob)) then Some r else None
  else None.
(** [is_valid_offset]: the bits of [node_offsets] are the set of the offsets
    of nodes no parent has claimed *)
Definition is_valid_offset (size : Z) (c : Z) (node_offsets : gset Z) : trieM (gset Z) :=
  if c =? NULL_ID then mret node_offsets
  else massert ((c <? size) && bool_decide (c ∈ node_offsets));; mret (node_offsets ∖ {[c]}).
Fixpoint claim (size : Z) (cs : list Z) (node_offsets : gset Z) : trieM (gset Z) :=
  match cs with
  | [] => mret node_offsets
  | c :: cs => o ← is_valid_offset size c node_offsets; claim size cs o
  end.
Definition node_children (nd : node) : list Z :=
  match nd with
  | BranchView children => children
  | ExtView child _ => [child]
  | AccountLeafView storage _ _ _ => [storage]
  | _ => []
  end.
(** the loop over the nodes of the blob; [fuel] bounds their number *)
Fixpoint prime (fuel : nat) (node_offset : Z) (node_offsets : gset Z) : trieM (gset Z) :=
  match fuel with
  | O => mabort
  | S fuel' =>
      T ← mget;
      let p := drop (Z.to_nat node_offset) (blob_ T) in
      match p with
      | [] => mret node_offsets
      | _ =>
          end_ ← mvalue (checked_end p);
          nd ← match_ p;
          node_offsets ← claim (len (blob_ T)) (node_children nd) node_offsets;
          (match nd with
           | NullView | DigestView _ => mret ()
           | _ =>
               rlp ← encode_rlp fuel true nd;
               if len rlp >=? 32 then cache_hash node_offset (keccak256 rlp) else mret ()
           end);;
          prime fuel' (node_offset + Z.of_nat end_) (node_offsets ∪ {[node_offset]})
      end
  end.
Definition make_OffsetTrie (blob : list Z) : outcome OffsetTrie :=
  match read_root blob with
  | None => Abort
  | Some r =>
      match (massert (negb (bool_decide (blob !! 8%nat = Some EMPTY)));;
             o ← prime (S (length blob)) HEADER_LEN ∅;
             o ← is_valid_offset (len blob) r o;
             massert (bool_decide (o = ∅))) (mkOffsetTrie blob ∅ ∅ OVERLAY_BASE r) with
      | Ok (_, T) => Ok T
      | Abort => Abort
      | Throw e => Throw e
      end
  end.
End hashing.
