(* ===== verification/OffsetTrieNodes.v ===== *)
(** * The layout of the nodes of the witness trie

    What the writers of OffsetTrie put into a node is what its view reads
    back: nibbles, paths, ids and the fields of each kind of node. *)
From S2P Require Import Prelude Account Uint256Text Rlp RlpFacts OffsetTrie.

Definition nibble_ok (n : Z) : Prop := 0 <= n < 16.
Abbreviation path_ok := (Forall nibble_ok).

(** ** Nibbles *)
Lemma path_ok_snoc path v : path_ok (path ++ [v]) → path_ok path ∧ nibble_ok v.
Proof. intros [Hp Hv]%Forall_app. split; [done|]. by inversion Hv. Qed.
(** The nibbles of the byte that [set_nibble] writes, by computation. *)
Definition nibbles_written (r v : Z) : bool :=
  let high := Z.lor (Z.land r 0xF) (Z.shiftl v 4 mod 256) in
  let low := Z.lor (Z.land r 0xF0) (Z.land v 0xF) in
  (Z.shiftr high 4 =? v) && (Z.land high 0xF =? Z.land r 0xF) && (high <? 256) && (0 <=? high) &&
  (Z.land low 0xF =? v) && (Z.shiftr low 4 =? Z.shiftr r 4) && (low <? 256) && (0 <=? low).
Lemma nibbles_written_ok r v : byte_ok r → nibble_ok v → nibbles_written r v = true.
Proof.
  intros Hr Hv. unfold byte_ok, nibble_ok in *.
  assert (H : forallb (λ r, forallb (λ v, nibbles_written (Z.of_nat r) (Z.of_nat v)) (seq 0 16)) (seq 0 256) = true) by (vm_compute; done).
  rewrite forallb_forall in H. specialize (H (Z.to_nat r)). rewrite forallb_forall in H.
  rewrite <- (Z2Nat.id r), <- (Z2Nat.id v) by lia. apply H; apply in_seq; lia.
Qed.
Lemma set_nibble_ok d n v : Forall byte_ok d → nibble_ok v → Forall byte_ok (set_nibble d n v).
Proof.
  intros Hd Hv. unfold set_nibble. destruct (decide (n / 2 < length d)%nat) as [Hn|Hn].
  2: { rewrite list_insert_ge by lia. done. }
  apply Forall_insert; [done|]. destruct (lookup_lt_is_Some_2 d (n / 2) Hn) as [r Hr].
  rewrite (list_lookup_total_correct _ _ _ Hr). pose proof (Forall_lookup_1 _ _ _ _ Hd Hr) as Hb.
  pose proof (nibbles_written_ok r v Hb Hv) as Hw. unfold nibbles_written in Hw. rewrite !andb_true_iff in Hw.
  unfold byte_ok. destruct (Nat.even n); lia.
Qed.
Lemma length_set_nibble d n v : length (set_nibble d n v) = length d.
Proof. apply length_insert. Qed.
Lemma get_set_nibble d n v m : (n / 2 < length d)%nat → nibble_ok v → Forall byte_ok d →
  get_nibble (set_nibble d n v) m = if decide (m = n) then Some v else get_nibble d m.
Proof.
  intros Hn Hv Hd. unfold get_nibble, set_nibble. destruct (lookup_lt_is_Some_2 d (n / 2) Hn) as [r Hr].
  rewrite (list_lookup_total_correct _ _ _ Hr). pose proof (Forall_lookup_1 _ _ _ _ Hd Hr) as Hb.
  destruct (decide (m / 2 = n / 2)%nat) as [E|E].
  2: { rewrite list_lookup_insert_ne by done. rewrite decide_False; [done|]. intros ->. done. }
  rewrite E, list_lookup_insert_eq by done. rewrite Hr. cbn [mbind option_bind].
  pose proof (nibbles_written_ok r v Hb Hv) as Hw. unfold nibbles_written in Hw. rewrite !andb_true_iff, !Z.eqb_eq in Hw.
  destruct Hw as [[[[[[[W1 W2] _] _] W3] W4] _] _].
  pose proof (Nat.div_mod_eq m 2). pose proof (Nat.div_mod_eq n 2).
  pose proof (Nat.mod_upper_bound m 2 ltac:(lia)). pose proof (Nat.mod_upper_bound n 2 ltac:(lia)).
  destruct (Nat.even n) eqn:En, (Nat.even m) eqn:Em.
  all: try (apply Nat.even_spec in En as [kn En]); try (apply Nat.even_spec in Em as [km Em]).
  all: try (rewrite <- Nat.negb_odd, negb_false_iff in En; apply Nat.odd_spec in En as [kn En]).
  all: try (rewrite <- Nat.negb_odd, negb_false_iff in Em; apply Nat.odd_spec in Em as [km Em]).
  all: destruct (decide (m = n)) as [Emn|Emn]; try lia; f_equal; lia.
Qed.
Lemma set_nibbles_snoc d first path v :
  set_nibbles d first (path ++ [v]) = set_nibble (set_nibbles d first path) (first + length path) v.
Proof.
  unfold set_nibbles. rewrite length_app. cbn [length]. rewrite seq_app, fold_left_app. cbn [seq fold_left].
  rewrite Nat.add_0_l, list_lookup_total_middle by done. f_equal.
  assert (H : ∀ l d, (∀ i, i ∈ l → (i < length path)%nat) →
    fold_left (λ d i, set_nibble d (first + i) ((path ++ [v]) !!! i)) l d =
    fold_left (λ d i, set_nibble d (first + i) (path !!! i)) l d).
  { induction l as [|i l IH]; intros d' Hl; [done|]. cbn [fold_left]. rewrite IH by (intros; apply Hl; by right).
    rewrite lookup_total_app_l; [done|]. apply Hl. by left. }
  apply H. intros i [_ Hi]%elem_of_seq. lia.
Qed.
Lemma length_set_nibbles d first path : length (set_nibbles d first path) = length d.
Proof.
  induction path as [|v path IH] using rev_ind; [done|]. by rewrite set_nibbles_snoc, length_set_nibble.
Qed.
Lemma set_nibbles_ok d first path : Forall byte_ok d → path_ok path → Forall byte_ok (set_nibbles d first path).
Proof.
  intros Hd. induction path as [|v path IH] using rev_ind; [done|]. intros [Hp Hv]%path_ok_snoc.
  rewrite set_nibbles_snoc. apply set_nibble_ok; auto.
Qed.
Lemma get_set_nibbles d first path m : ((first + length path + 1) / 2 <= length d)%nat → path_ok path → Forall byte_ok d →
  get_nibble (set_nibbles d first path) m =
    if decide (first <= m < first + length path)%nat then path !! (m - first)%nat else get_nibble d m.
Proof.
  intros Hl Hp Hd. revert Hl Hp. induction path as [|v path IH] using rev_ind; intros Hl Hp.
  - rewrite decide_False by (cbn; lia). done.
  - rewrite length_app in *. cbn [length] in *. apply path_ok_snoc in Hp as [Hp Hv].
    assert (Hhalf : ((first + length path) / 2 < (first + (length path + 1) + 1) / 2)%nat).
    { replace (first + (length path + 1) + 1)%nat with (first + length path + 1 * 2)%nat by lia. rewrite Nat.div_add; lia. }
    rewrite set_nibbles_snoc, get_set_nibble; [|rewrite length_set_nibbles; lia|done|by apply set_nibbles_ok].
    rewrite IH; [|etrans; [|exact Hl]; apply Nat.Div0.div_le_mono; lia|done].
    destruct (decide (m = first + length path)%nat) as [->|Hm].
    + rewrite decide_True by lia. rewrite lookup_app_r by lia. replace (first + length path - first - length path)%nat with 0%nat by lia. done.
    + destruct (decide (first <= m < first + length path)%nat).
      * rewrite decide_True by lia. rewrite lookup_app_l by lia. done.
      * rewrite decide_False by lia. done.
Qed.
Lemma nibbles_of_Some n d path : nibbles_of n d = Some path ↔ length path = n ∧ ∀ i, (i < n)%nat → get_nibble d i = path !! i.
Proof.
  unfold nibbles_of. rewrite mapM_Some. split.
  - intros H. pose proof (Forall2_length H) as Hl. rewrite length_seq in Hl. split; [done|]. intros i Hi.
    destruct (lookup_lt_is_Some_2 path i ltac:(lia)) as [x Hx]. rewrite Hx.
    by apply (Forall2_lookup_lr _ _ _ i i x H); [apply lookup_seq; lia|].
  - intros [Hl H]. apply Forall2_same_length_lookup_2; [rewrite length_seq; lia|]. intros i j x [-> Hi]%lookup_seq Hx.
    cbn in *. by rewrite H.
Qed.
(** Two nibbles to a byte, and back. *)
Lemma packed_nibbles path : path_ok path →
  nibbles_of (length path) (set_nibbles (replicate ((length path + 1) / 2) 0) 0 path) = Some path.
Proof.
  intros Hp. apply nibbles_of_Some. split; [done|]. intros i Hi.
  rewrite get_set_nibbles; [|rewrite length_replicate; cbn; lia|done|].
  - rewrite decide_True by lia. f_equal. lia.
  - apply Forall_replicate. unfold byte_ok. lia.
Qed.

(** ** Bytes *)
Lemma le_bytes_length n w : length (le_bytes n w) = n.
Proof. revert w. induction n as [|n IH]; intros w; cbn [le_bytes length]; [done|]. by rewrite IH. Qed.
Lemma le_val_le_bytes n w : 0 <= w < 256 ^ Z.of_nat n → le_val (le_bytes n w) = w.
Proof.
  revert w. induction n as [|n IH]; intros w Hw; cbn [le_bytes le_val]; [simpl in Hw; lia|].
  rewrite Nat2Z.inj_succ, Z.pow_succ_r in Hw by lia. rewrite IH.
  - pose proof (Z.div_mod w 256). lia.
  - split; [apply Z.div_pos; lia|]. apply Z.div_lt_upper_bound; lia.
Qed.
Lemma slice_app a b c n : length b = n → slice (a ++ b ++ c) (length a) n = Some b.
Proof.
  intros <-. unfold slice. rewrite !length_app. destruct (Nat.leb_spec (length a + length b) (length a + (length b + length c))); [|lia].
  by rewrite drop_app_length, take_app_length.
Qed.
Lemma slice_Some p off n b : slice p off n = Some b → length b = n ∧ p = take off p ++ b ++ drop (off + n) p ∧ (off + n <= length p)%nat.
Proof.
  unfold slice. destruct (Nat.leb_spec (off + n) (length p)); [|done]. intros [= <-]. rewrite length_take, length_drop.
  split_and!; [lia| |done]. rewrite <- drop_drop. by rewrite take_drop, take_drop.
Qed.
(** What is read from the front of a region does not depend on its end. *)
Lemma slice_take p q off n m : (off + n <= m)%nat → (m <= length p)%nat → slice (take m p ++ q) off n = slice p off n.
Proof.
  intros Hm Hl. unfold slice. rewrite length_app, length_take.
  destruct (Nat.leb_spec (off + n) (m `min` length p + length q)); [|lia].
  destruct (Nat.leb_spec (off + n) (length p)); [|lia]. f_equal.
  rewrite drop_app_le by (rewrite length_take; lia). rewrite take_app_le by (rewrite length_drop, length_take; lia).
  by rewrite skipn_firstn_comm, take_take, Nat.min_l by lia.
Qed.
Lemma lookup_take_app {A} (p q : list A) i m : (i < m)%nat → (m <= length p)%nat → (take m p ++ q) !! i = p !! i.
Proof. intros Hi Hm. rewrite lookup_app_l by (rewrite length_take; lia). by apply lookup_take_lt. Qed.

(** ** Paths and ids *)
Definition path_bytes (path : list Z) : list Z := len path :: set_nibbles (replicate ((length path + 1) / 2) 0) 0 path.
Lemma append_path_run {W} path (w : W) : len path <= MAX_PATH_NIBBLES → append_path path w = Ok (path_bytes path, w).
Proof. intros H. unfold append_path. rewrite (proj2 (Z.leb_le _ _) H). by autorewrite with run. Qed.
Lemma path_view_bytes a path : path_ok path → path_view (a ++ path_bytes path) (length a) = Some path.
Proof.
  intros Hp. unfold path_view, path_bytes. rewrite list_lookup_middle by done. cbn [mbind option_bind].
  unfold len. rewrite Nat2Z.id. rewrite (cons_middle (Z.of_nat (length path))), app_assoc.
  pose proof (slice_app (a ++ [Z.of_nat (length path)]) (set_nibbles (replicate ((length path + 1) / 2) 0) 0 path) []) as Hs.
  rewrite app_nil_r, length_app in Hs. cbn [length] in Hs. replace (length a + 1)%nat with (S (length a)) in Hs by lia.
  rewrite (Hs (path_byte_length (length path))).
  2: { by rewrite length_set_nibbles, length_replicate. }
  cbn [mbind option_bind]. by apply packed_nibbles.
Qed.
Lemma path_view_ok p off path : Forall byte_ok p → path_view p off = Some path → path_ok path.
Proof.
  intros Hp. unfold path_view. destruct (p !! off) as [n|]; [|done]. cbn [mbind option_bind].
  destruct (slice p (S off) _) as [d|] eqn:Ed; [|done]. cbn [mbind option_bind]. intros [Hl H]%nibbles_of_Some.
  apply slice_Some in Ed as (_ & E & _). rewrite E in Hp. apply Forall_app in Hp as [_ [Hd _]%Forall_app].
  apply Forall_lookup. intros i v Hv. pose proof (lookup_lt_Some _ _ _ Hv) as Hi. rewrite <- H in Hv by lia. unfold get_nibble in Hv.
  destruct (d !! (i / 2)%nat) as [r|] eqn:Er; [|done]. cbn [mbind option_bind] in Hv. injection Hv as <-.
  pose proof (Forall_lookup_1 _ _ _ _ Hd Er) as Hr. unfold byte_ok, nibble_ok in *. destruct (Nat.even i).
  - rewrite Z.shiftr_div_pow2 by lia. change (2 ^ 4) with 16. split; [apply Z.div_pos; lia|apply Z.div_lt_upper_bound; lia].
  - change 0xF with (Z.ones 4). rewrite Z.land_ones by lia. apply Z.mod_pos_bound. lia.
Qed.
Definition wire_ok (id : Z) : Prop := 0 <= id < 2 ^ 32.
Lemma read_node_id_bytes a b id : wire_ok id → read_node_id (a ++ le_bytes 4 id ++ b) (length a) = Some id.
Proof.
  intros Hid. unfold read_node_id. rewrite slice_app by apply le_bytes_length. cbn [fmap option_fmap option_map].
  rewrite le_val_le_bytes; [done|]. unfold wire_ok in Hid. change (256 ^ Z.of_nat 4) with (2 ^ 32). lia.
Qed.

(** ** Nodes *)
Lemma concat_le_bytes l : length (concat (le_bytes 4 <$> l)) = (4 * length l)%nat.
Proof. induction l as [|c l IH]; [done|]. cbn [fmap list_fmap concat length]. rewrite length_app, IH, le_bytes_length. lia. Qed.
Lemma view_branch children : length children = 16%nat → Forall wire_ok children →
  view (append_branch children) = Some (BranchView children).
Proof.
  intros Hl Hc. unfold view, append_branch. cbn [lookup list_lookup mbind option_bind]. rewrite Z.eqb_refl.
  assert (E : mapM (λ i, read_node_id (BRANCH :: concat (le_bytes 4 <$> children)) (1 + 4 * i)) (seq 0 16) = Some children).
  { apply mapM_Some. apply Forall2_same_length_lookup_2; [by rewrite length_seq|]. intros i j c [-> Hi]%lookup_seq Hci. cbn [Nat.add] in *.
    pose proof (Forall_lookup_1 _ _ _ _ Hc Hci) as Hok. rewrite <- (take_drop_middle _ _ _ Hci), fmap_app, fmap_cons, concat_app. cbn [concat].
    rewrite (app_comm_cons (concat _) _ BRANCH).
    pose proof (read_node_id_bytes (BRANCH :: concat (le_bytes 4 <$> take i children)) (concat (le_bytes 4 <$> drop (S i) children)) c Hok) as H.
    cbn [length] in H. rewrite concat_le_bytes, length_take, Nat.min_l in H by lia. exact H. }
  rewrite E. done.
Qed.
Definition ext_bytes (path : list Z) (child : Z) : list Z := EXT :: le_bytes 4 child ++ path_bytes path.
Lemma view_ext path child : path_ok path → wire_ok child → view (ext_bytes path child) = Some (ExtView child path).
Proof.
  intros Hp Hc. unfold view, ext_bytes. cbn [lookup list_lookup mbind option_bind]. change (EXT =? BRANCH) with false.
  rewrite Z.eqb_refl. cbn [negb].
  pose proof (read_node_id_bytes [EXT] (path_bytes path) child Hc) as E1. cbn [app length] in E1. rewrite E1.
  pose proof (path_view_bytes (EXT :: le_bytes 4 child) path Hp) as E2. cbn [length app] in E2. rewrite le_bytes_length in E2.
  cbn [mbind option_bind]. rewrite E2. done.
Qed.
Definition storage_bytes (path : list Z) (v : Z) : list Z := LEAF_STORAGE :: be_bytes 32 v ++ path_bytes path.
Lemma view_storage path v : path_ok path → 0 <= v < 2 ^ 256 → view (storage_bytes path v) = Some (StorageLeafView v path).
Proof.
  intros Hp Hv. unfold view, storage_bytes. cbn [lookup list_lookup mbind option_bind].
  change (LEAF_STORAGE =? BRANCH) with false. change (LEAF_STORAGE =? EXT) with false. change (LEAF_STORAGE =? LEAF_ACCT) with false.
  rewrite Z.eqb_refl.
  pose proof (slice_app [LEAF_STORAGE] (be_bytes 32 v) (path_bytes path) 32 (be_bytes_length 32 v)) as E1. cbn [app length] in E1. rewrite E1.
  pose proof (path_view_bytes (LEAF_STORAGE :: be_bytes 32 v) path Hp) as E2. cbn [length app] in E2. rewrite be_bytes_length in E2.
  cbn [mbind option_bind]. rewrite E2. cbn [mbind option_bind]. rewrite be_val_be_bytes, Z.mod_small; [done|]. exact Hv.
Qed.
Definition acct_bytes (storage : Z) (code_hash_rlp nonce_balance path : list Z) : list Z :=
  LEAF_ACCT :: le_bytes 4 storage ++ code_hash_rlp ++ len nonce_balance :: nonce_balance ++ path_bytes path.
Lemma view_acct storage ch nb path : path_ok path → wire_ok storage → length ch = HASH_RLP_LEN →
  view (acct_bytes storage ch nb path) = Some (AccountLeafView storage ch nb path).
Proof.
  intros Hp Hs Hch. unfold view, acct_bytes. cbn [lookup list_lookup mbind option_bind].
  change (LEAF_ACCT =? BRANCH) with false. change (LEAF_ACCT =? EXT) with false. rewrite Z.eqb_refl.
  set (rest := len nb :: nb ++ path_bytes path). set (pre := LEAF_ACCT :: le_bytes 4 storage ++ ch).
  assert (Epre : LEAF_ACCT :: le_bytes 4 storage ++ ch ++ rest = pre ++ rest) by (unfold pre; rewrite <- app_comm_cons, <- app_assoc; done).
  assert (Lpre : length pre = (1 + 4 + HASH_RLP_LEN)%nat) by (unfold pre; cbn [length]; rewrite length_app, le_bytes_length, Hch; done).
  pose proof (read_node_id_bytes [LEAF_ACCT] (ch ++ rest) storage Hs) as E1. cbn [app length] in E1. rewrite E1.
  pose proof (slice_app (LEAF_ACCT :: le_bytes 4 storage) ch rest HASH_RLP_LEN Hch) as E2. cbn [length app] in E2. rewrite le_bytes_length in E2.
  cbn [mbind option_bind]. rewrite E2. cbn [mbind option_bind]. rewrite Epre. unfold account_path_offset. rewrite <- Lpre.
  assert (En : (pre ++ rest) !! length pre = Some (len nb)) by (unfold rest; by rewrite list_lookup_middle).
  rewrite En. cbn [mbind option_bind]. unfold len. rewrite Nat2Z.id. unfold rest.
  pose proof (slice_app (pre ++ [len nb]) nb (path_bytes path) (length nb) eq_refl) as E3. rewrite length_app in E3. cbn [length] in E3.
  rewrite <- app_assoc in E3. cbn [app] in E3. rewrite E3. cbn [mbind option_bind].
  pose proof (path_view_bytes (pre ++ len nb :: nb) path Hp) as E4. rewrite length_app in E4. cbn [length] in E4.
  rewrite <- app_assoc in E4. cbn [app] in E4. replace (length pre + S (length nb))%nat with (length pre + 1 + length nb)%nat in E4 by lia.
  rewrite E4. done.
Qed.
(** A copied account leaf differs in its path only. *)
Lemma view_clone p storage ch nb path path' : path_ok path' → view p = Some (AccountLeafView storage ch nb path) →
  ∃ off, account_path_offset p = Some off ∧ view (take off p ++ path_bytes path') = Some (AccountLeafView storage ch nb path').
Proof.
  intros Hp' Hv. unfold view in Hv. destruct (p !! 0%nat) as [tag|] eqn:Et; [|done]. cbn [mbind option_bind] in Hv.
  destruct (tag =? BRANCH) eqn:T0; [by destruct (mapM _ _)|]. destruct (tag =? EXT) eqn:T1.
  { destruct (read_node_id p 1); [|done]. cbn [mbind option_bind] in Hv. by destruct (path_view p 5). }
  destruct (tag =? LEAF_ACCT) eqn:T2.
  2: { destruct (tag =? LEAF_STORAGE). { destruct (slice p 1 32); [|done]. cbn [mbind option_bind] in Hv. by destruct (path_view p 33). }
       destruct (tag =? DIGEST). { by destruct (slice p 1 32). } by destruct (tag =? EMPTY). }
  unfold read_node_id in Hv. destruct (slice p 1 4) as [s|] eqn:E1; [|done]. cbn [fmap option_fmap option_map mbind option_bind] in Hv.
  destruct (slice p 5 HASH_RLP_LEN) as [h|] eqn:E2; [|done]. cbn [mbind option_bind] in Hv.
  destruct (p !! (1 + 4 + HASH_RLP_LEN)%nat) as [n|] eqn:E3; [|done]. cbn [mbind option_bind] in Hv.
  destruct (slice p (1 + 4 + HASH_RLP_LEN + 1) (Z.to_nat n)) as [b|] eqn:E4; [|done]. cbn [mbind option_bind] in Hv.
  unfold account_path_offset in Hv |- *. rewrite E3 in Hv |- *. cbn [mbind option_bind] in Hv |- *.
  set (off := (1 + 4 + HASH_RLP_LEN + 1 + Z.to_nat n)%nat) in *. destruct (path_view p off) as [pv|]; [|done]. cbn [mbind option_bind] in Hv.
  injection Hv as <- <- <- <-. exists off. split; [done|]. apply slice_Some in E4 as Hb. destruct Hb as (_ & _ & Hoff).
  unfold view. rewrite (lookup_take_app p _ 0) by lia. rewrite Et. cbn [mbind option_bind]. rewrite T0, T1, T2. unfold read_node_id.
  rewrite !slice_take by (unfold HASH_RLP_LEN in *; lia). rewrite E1. cbn [fmap option_fmap option_map mbind option_bind]. rewrite E2.
  cbn [mbind option_bind]. rewrite lookup_take_app by (unfold HASH_RLP_LEN in *; lia). rewrite E3. cbn [mbind option_bind].
  rewrite slice_take by (unfold HASH_RLP_LEN in *; lia). rewrite E4. cbn [mbind option_bind]. unfold account_path_offset.
  rewrite lookup_take_app by (unfold HASH_RLP_LEN in *; lia). rewrite E3. cbn [mbind option_bind]. fold off.
  pose proof (path_view_bytes (take off p) path' Hp') as E5. rewrite length_take, Nat.min_l in E5 by lia. rewrite E5. done.
Qed.
