(* ===== verification/OffsetTrieTree.v ===== *)
(** * Merkle Patricia trees, and the stores that hold them

    The trees the witness trie stands for: what a key finds in them, when
    they have the canonical shape, their encoding and root hash (the
    definitions of Ethereum, on trees and without buffers or caches), and
    when an [OffsetTrie] holds such a tree: every node of it is in the
    overlay or the blob, and a cached hash is the hash of its node. *)
From S2P Require Import Prelude Account Uint256Text Rlp RlpFacts OffsetTrie OffsetTrieNodes.

(** ** Trees *)
(** A tree whose nodes carry their ids; account leaves hold the tree of the
    storage. *)
Inductive tree :=
| Empty
| SLeaf (id : Z) (path : list Z) (v : Z)
| ALeaf (id : Z) (path : list Z) (code_hash_rlp nonce_balance : list Z) (storage : tree)
| Ext (id : Z) (path : list Z) (c : tree)
| Branch (id : Z) (cs : list tree)
| Digest (id : Z) (h : Z).
Section tree_induction.
Context (P : tree → Prop) (HE : P Empty) (HS : ∀ id p v, P (SLeaf id p v))
  (HA : ∀ id p ch nb st, P st → P (ALeaf id p ch nb st)) (HX : ∀ id p c, P c → P (Ext id p c))
  (HB : ∀ id cs, Forall P cs → P (Branch id cs)) (HD : ∀ id h, P (Digest id h)).
Fixpoint tree_rect' (t : tree) : P t :=
  match t with
  | Empty => HE
  | SLeaf id p v => HS id p v
  | ALeaf id p ch nb st => HA id p ch nb st (tree_rect' st)
  | Ext id p c => HX id p c (tree_rect' c)
  | Branch id cs => HB id cs ((fix go l : Forall P l := match l with [] => Forall_nil_2 P | c :: l => Forall_cons_2 P c l (tree_rect' c) (go l) end) cs)
  | Digest id h => HD id h
  end.
End tree_induction.

Definition tid (t : tree) : Z :=
  match t with
  | Empty => NULL_ID
  | SLeaf id _ _ | ALeaf id _ _ _ _ | Ext id _ _ | Branch id _ | Digest id _ => id
  end.
Definition node_of (t : tree) : node :=
  match t with
  | Empty => NullView
  | SLeaf _ p v => StorageLeafView v p
  | ALeaf _ p ch nb st => AccountLeafView (tid st) ch nb p
  | Ext _ p c => ExtView (tid c) p
  | Branch _ cs => BranchView (tid <$> cs)
  | Digest _ h => DigestView h
  end.
(** The nodes of a tree, those of the storage of its accounts included. *)
Fixpoint nodes (t : tree) : list tree :=
  match t with
  | Empty => []
  | SLeaf _ _ _ | Digest _ _ => [t]
  | ALeaf _ _ _ _ st => t :: nodes st
  | Ext _ _ c => t :: nodes c
  | Branch _ cs => t :: concat (map nodes cs)
  end.
Definition ids (t : tree) : list Z := tid <$> nodes t.
Definition is_digest (t : tree) : bool := match t with Digest _ _ => true | _ => false end.
Definition complete (t : tree) : Prop := Forall (λ s, is_digest s = false) (nodes t).

(** What a leaf holds, and what a key finds. *)
Inductive content := CStorage (v : Z) | CAccount (code_hash_rlp nonce_balance : list Z) (storage : tree).
Definition mk_leaf (id : Z) (path : list Z) (l : content) : tree :=
  match l with CStorage v => SLeaf id path v | CAccount ch nb st => ALeaf id path ch nb st end.
(** [Unknown]: the rest of the key leads below a digest. *)
Inductive answer := Unknown (h : Z) (rest : list Z) | Absent | Found (l : content).
Definition known (a : answer) : bool := match a with Unknown _ _ => false | _ => true end.
Fixpoint find (t : tree) (key : list Z) : answer :=
  match t with
  | Empty => Absent
  | SLeaf _ p v => if decide (p = key) then Found (CStorage v) else Absent
  | ALeaf _ p ch nb st => if decide (p = key) then Found (CAccount ch nb st) else Absent
  | Ext _ p c => if decide (take (length p) key = p) then find c (drop (length p) key) else Absent
  | Branch _ cs =>
      match key with
      | [] => Absent
      | n :: key => nth (Z.to_nat n) (map (λ c, find c) cs) (λ _, Absent) key
      end
  | Digest _ h => Unknown h key
  end.

(** ** Canonical shape, for keys of [n] nibbles *)
(** The digests that stand for branches: below an extension there is a
    branch, also where only its digest is known. *)
Class Branches := stands_for_branch : Z → bool.
Definition is_branch (t : tree) : bool := match t with Branch _ _ => true | _ => false end.
Definition is_empty (t : tree) : bool := match t with Empty => true | _ => false end.
Definition occupied (cs : list tree) : nat := length (filter (λ c, is_empty c = false) cs).
Definition branching {HB : Branches} (t : tree) : bool :=
  match t with Branch _ _ => true | Digest _ h => stands_for_branch h | _ => false end.
(** [acct]: a trie of accounts, or of storage *)
Inductive wf {HB : Branches} : bool → nat → tree → Prop :=
| wf_Empty acct n : wf acct n Empty
| wf_SLeaf n id p v : length p = n → path_ok p → 0 <= v < 2 ^ 256 → wf false n (SLeaf id p v)
| wf_ALeaf n id p ch nb st : length p = n → path_ok p →
    length ch = HASH_RLP_LEN → 2 <= len nb <= MAX_NONCE_BALANCE_RLP_LEN → wf false 64 st → wf true n (ALeaf id p ch nb st)
| wf_Ext acct n id p c : (0 < length p)%nat → path_ok p → branching c = true →
    wf acct n c → wf acct (length p + n) (Ext id p c)
| wf_Branch acct n id cs : length cs = 16%nat → (2 <= occupied cs)%nat → Forall (wf acct n) cs → wf acct (S n) (Branch id cs)
| wf_Digest acct n id h : 0 <= h < 2 ^ 256 → wf acct n (Digest id h).
Definition content_wf {HB : Branches} (acct : bool) (l : content) : Prop :=
  match l with
  | CStorage v => acct = false ∧ 0 <= v < 2 ^ 256
  | CAccount ch nb st => acct = true ∧ length ch = HASH_RLP_LEN ∧ 2 <= len nb <= MAX_NONCE_BALANCE_RLP_LEN ∧ wf false 64 st
  end.
Lemma wf_leaf {HB : Branches} acct n id p l : wf acct n (mk_leaf id p l) ↔ length p = n ∧ path_ok p ∧ content_wf acct l.
Proof.
  destruct l as [v|ch nb st]; cbn [mk_leaf content_wf]; split.
  - inversion 1; subst. done.
  - intros (<- & Hp & -> & Hv). by constructor.
  - inversion 1; subst. done.
  - intros (<- & Hp & -> & Hch & Hnb & Hst). by constructor.
Qed.

(** ** The encoding of Ethereum *)
Fixpoint pairs (l : list Z) : list Z :=
  match l with a :: b :: l => (16 * a + b) :: pairs l | _ => [] end.
(** the compact encoding of a path: a flag for leaves, a flag for odd paths *)
Definition compact (path : list Z) (leaf : bool) : list Z :=
  let flag := if leaf then 0x20 else 0 in
  if Nat.even (length path) then flag :: pairs path
  else (flag + 0x10 + hd 0 path) :: pairs (tl path).
Section merkle.
Context (keccak256 : list Z → Z).
Definition short (rlp : list Z) : list Z := if len rlp <? 32 then rlp else hash_rlp (keccak256 rlp).
Definition storage_value (v : Z) : list Z := encode_string2 (zeroless_view (be_bytes 32 v)).
Definition account_value (ch nb : list Z) (storage_root : Z) : list Z := encode_list2 [nb; hash_rlp storage_root; ch].
Fixpoint rlp (t : tree) : list Z :=
  let ref (c : tree) := match c with Empty => [0x80] | Digest _ h => hash_rlp h | _ => short (rlp c) end in
  match t with
  | Empty => [0x80]
  | SLeaf _ p v => encode_list2 [encode_string2 (compact p true); encode_string2 (storage_value v)]
  | ALeaf _ p ch nb st =>
      let r := match st with Empty => NULL_ROOT | Digest _ h => h | _ => keccak256 (rlp st) end in
      encode_list2 [encode_string2 (compact p true); encode_string2 (account_value ch nb r)]
  | Ext _ p c => encode_list2 [encode_string2 (compact p false); ref c]
  | Branch _ cs => encode_list2 (map ref cs ++ [[0x80]])
  | Digest _ h => hash_rlp h
  end.
Definition ref (c : tree) : list Z := match c with Empty => [0x80] | Digest _ h => hash_rlp h | _ => short (rlp c) end.
Definition root_hash (t : tree) : Z := match t with Empty => NULL_ROOT | Digest _ h => h | _ => keccak256 (rlp t) end.

(** ** What a store holds *)
Definition cur_bytes (T : OffsetTrie) (id : Z) : option (list Z) :=
  match overlay_ T !! id with
  | Some b => Some b
  | None => if is_overlay_id id then Some (blob_ T)
            else if (id =? NULL_ID) || in_blob T id then Some (drop (Z.to_nat id) (blob_ T)) else None
  end.
Definition cur (T : OffsetTrie) (id : Z) : option node := cur_bytes T id ≫= view.
Record store_ok (T : OffsetTrie) : Prop := {
  so_magic : blob_ T !! 0%nat = Some EMPTY;
  so_null : overlay_ T !! NULL_ID = None;
  so_blob : len (blob_ T) < OVERLAY_BASE;
  so_next : OVERLAY_BASE <= next_id_ T;
  so_overlay : ∀ id b, overlay_ T !! id = Some b → id < next_id_ T;
  so_hashes : ∀ id h, hashes_ T !! id = Some h → id < next_id_ T
}.
(** A node of the blob is a digest in the blob exactly if it is one now. *)
Definition original_ok (T : OffsetTrie) (s : tree) : Prop :=
  if tid s <? OVERLAY_BASE then in_blob T (tid s) = true ∧
    match s with
    | Digest _ h => slice (blob_ T) (Z.to_nat (tid s)) HASH_RLP_LEN = Some (hash_rlp h)
    | _ => blob_ T !! Z.to_nat (tid s) ≠ Some DIGEST
    end
  else is_digest s = false.
Record at_node (T : OffsetTrie) (s : tree) : Prop := {
  an_id : 0 < tid s < next_id_ T;
  an_wire : tid s < 2 ^ 32;
  an_cur : cur T (tid s) = Some (node_of s);
  an_original : original_ok T s;
  an_hash : ∀ h, hashes_ T !! tid s = Some h → h = root_hash s ∧ 32 <= len (rlp s)
}.
Definition rep (T : OffsetTrie) (t : tree) : Prop := Forall (at_node T) (nodes t).
End merkle.
