(* ===== verification/OffsetTrieStore.v ===== *)
(** * Writing to the store of the witness trie

    What the writers do to the nodes a store holds: they change one node, or
    add one under a fresh id, and a tree that none of the changed nodes
    belongs to is still held. *)
From S2P Require Import Prelude Account Uint256Text Rlp RlpFacts OffsetTrie OffsetTrieNodes OffsetTrieTree.

(** ** Stores that agree *)
(** [T'] has what [T] has at the ids in [S], up to forgotten hashes. *)
Record agree (T T' : OffsetTrie) (S : Z → Prop) : Prop := {
  ag_blob : blob_ T' = blob_ T;
  ag_next : next_id_ T <= next_id_ T';
  ag_cur : ∀ id, S id → cur T' id = cur T id;
  ag_hash : ∀ id, S id → hashes_ T' !! id = hashes_ T !! id ∨ hashes_ T' !! id = None
}.
Lemma agree_refl T S : agree T T S.
Proof. split; [done|lia|done|by left]. Qed.
Lemma agree_mono T T' (S S' : Z → Prop) : agree T T' S → (∀ id, S' id → S id) → agree T T' S'.
Proof. intros [] H. split; [done|done|auto|auto]. Qed.
Lemma agree_trans T1 T2 T3 S : agree T1 T2 S → agree T2 T3 S → agree T1 T3 S.
Proof.
  intros [B1 N1 C1 H1] [B2 N2 C2 H2]. split.
  - congruence.
  - lia.
  - intros id Hid. rewrite C2, C1; done.
  - intros id Hid. destruct (H2 id Hid) as [->| ->]; auto.
Qed.

(** [T'] comes from [T] by writing at ids in [X] and at fresh ones. *)
Definition evolves (T T' : OffsetTrie) (X : list Z) : Prop :=
  store_ok T' ∧ agree T T' (λ id, id < next_id_ T ∧ id ∉ X).
Lemma evolves_refl T X : store_ok T → evolves T T X.
Proof. split; [done|apply agree_refl]. Qed.
Lemma evolves_trans T1 T2 T3 X Y : evolves T1 T2 X → evolves T2 T3 Y → (∀ id, id ∈ Y → id ∈ X ∨ next_id_ T1 <= id) → evolves T1 T3 X.
Proof.
  intros [_ A1] [O2 A2] HY. split; [done|]. apply (agree_trans _ T2); [done|].
  apply (agree_mono _ _ _ _ A2). intros id [Hid HX]. pose proof (ag_next _ _ _ A1). split; [lia|].
  intros [?|?]%HY; [done|lia].
Qed.
Lemma evolves_mono T T' X Y : evolves T T' X → (∀ id, id ∈ X → id ∈ Y) → evolves T T' Y.
Proof. intros [O A] H. split; [done|]. apply (agree_mono _ _ _ _ A). intros id [? ?]. split; [done|auto]. Qed.

(** ** The writers *)
Definition put (id : Z) (b : list Z) (T : OffsetTrie) : OffsetTrie :=
  set_overlay (<[id := b]> (overlay_ T)) (set_hashes (delete id (hashes_ T)) T).
Definition alloc (b : list Z) (T : OffsetTrie) : OffsetTrie :=
  set_overlay (<[next_id_ T := b]> (overlay_ T)) (set_next_id (next_id_ T + 1) T).
Definition bump (T : OffsetTrie) : OffsetTrie := set_next_id (next_id_ T + 1) T.
Definition forget (id : Z) (T : OffsetTrie) : OffsetTrie := set_hashes (delete id (hashes_ T)) T.
Lemma put_node_old id b T : id ≠ NULL_ID → put_node id b T = Ok (id, put id b T).
Proof. intros H. unfold put_node. rewrite (proj2 (Z.eqb_neq _ _) H). done. Qed.
Lemma fresh_id_run T : store_ok T → next_id_ T < 2 ^ 32 → fresh_id T = Ok (next_id_ T, bump T).
Proof.
  intros H Hn. pose proof (so_next _ H) as Hb. unfold OVERLAY_BASE in Hb. unfold fresh_id, bump.
  change ((mget ≫= _) T) with (Ok (next_id_ T, set_next_id (u64 (next_id_ T + 1)) T)). unfold u64. by rewrite Z.mod_small by lia.
Qed.
Lemma put_node_new b T : store_ok T → next_id_ T < 2 ^ 32 → put_node NULL_ID b T = Ok (next_id_ T, alloc b T).
Proof. intros H Hn. unfold put_node. cbn [Z.eqb NULL_ID]. rewrite (bind_Ok_eq _ _ _ _ _ (fresh_id_run T H Hn)). done. Qed.
Lemma forget_run id T : forget_hash id T = Ok ((), forget id T).
Proof. done. Qed.
Lemma get_current_run id T b : cur_bytes T id = Some b → get_current id T = Ok (b, T).
Proof.
  unfold cur_bytes, get_current, get_original. change ((mget ≫= ?k) T) with (k T T). cbn beta.
  destruct (overlay_ T !! id); [by intros [= ->]|]. destruct (is_overlay_id id); [by intros [= ->]|].
  change ((mget ≫= ?k) T) with (k T T). cbn beta. destruct (_ || _); [|done]. intros [= <-]. done.
Qed.
(** reading a node: its bytes and its view *)
Lemma read_node_run id T nd : cur T id = Some nd → ∃ b, cur_bytes T id = Some b ∧ get_current id T = Ok (b, T) ∧ match_ b T = Ok (nd, T).
Proof.
  unfold cur. destruct (cur_bytes T id) as [b|] eqn:E; [|done]. cbn [mbind option_bind]. intros Hv. exists b.
  split; [done|]. split; [by apply get_current_run|]. unfold match_. rewrite Hv. done.
Qed.

(** ** What they change *)
Lemma cur_put id b T j : cur (put id b T) j = if decide (j = id) then view b else cur T j.
Proof.
  unfold cur, cur_bytes, put, in_blob. cbn [overlay_ set_overlay set_hashes blob_]. destruct (decide (j = id)) as [->|Hne].
  - by rewrite lookup_insert_eq.
  - by rewrite lookup_insert_ne.
Qed.
Lemma cur_alloc b T j : cur (alloc b T) j = if decide (j = next_id_ T) then view b else cur T j.
Proof.
  unfold cur, cur_bytes, alloc, in_blob. cbn [overlay_ set_overlay set_next_id blob_]. destruct (decide (j = next_id_ T)) as [->|Hne].
  - by rewrite lookup_insert_eq.
  - by rewrite lookup_insert_ne.
Qed.
Lemma put_evolves id b T : store_ok T → id ≠ NULL_ID → id < next_id_ T → evolves T (put id b T) [id].
Proof.
  intros [M0 N0 B0 X0 O0 H0] Hid Hn. split.
  - split; cbn [put set_overlay set_hashes blob_ overlay_ hashes_ next_id_]; [done| |done|done| |].
    + by rewrite lookup_insert_ne.
    + intros j c. rewrite lookup_insert_Some. intros [[<- _]|[_ Hc]]; [done|eauto].
    + intros j h. rewrite lookup_delete_Some. intros [_ Hh]. eauto.
  - split; [done|cbn; lia| |].
    + intros j [_ Hj]. rewrite cur_put, decide_False by set_solver. done.
    + intros j [_ Hj]. left. cbn. apply lookup_delete_ne. set_solver.
Qed.
Lemma alloc_evolves b T : store_ok T → evolves T (alloc b T) [].
Proof.
  intros [M0 N0 B0 X0 O0 H0]. split.
  - split; cbn [alloc set_overlay set_next_id blob_ overlay_ hashes_ next_id_]; unfold OVERLAY_BASE, NULL_ID in *; [done| |done|lia| |].
    + rewrite lookup_insert_ne; [done|]. lia.
    + intros j c. rewrite lookup_insert_Some. intros [[<- _]|[_ Hc%O0]]; lia.
    + intros j h Hh%H0. lia.
  - split; [done|cbn; lia| |by left]. intros j [Hj _]. rewrite cur_alloc, decide_False by lia. done.
Qed.
Lemma bump_evolves T : store_ok T → evolves T (bump T) [].
Proof.
  intros [M0 N0 B0 X0 O0 H0]. split.
  - split; cbn [bump set_next_id blob_ overlay_ hashes_ next_id_]; [done|done|done|lia| |].
    + intros j c Hc%O0. lia.
    + intros j h Hh%H0. lia.
  - split; [done|cbn; lia|done|by left].
Qed.
Lemma forget_evolves id T : store_ok T → evolves T (forget id T) [id].
Proof.
  intros [M0 N0 B0 X0 O0 H0]. split.
  - split; cbn [forget set_hashes blob_ overlay_ hashes_ next_id_]; [done..|]. intros j h. rewrite lookup_delete_Some. intros [_ Hh]. eauto.
  - split; [done|cbn; lia|done|]. intros j [_ Hj]. left. cbn. apply lookup_delete_ne. set_solver.
Qed.
(** An id nothing is stored under reads as the empty node. *)
Lemma cur_fresh T id : store_ok T → next_id_ T <= id → cur T id = Some NullView.
Proof.
  intros H Hid. pose proof (so_next _ H). unfold cur, cur_bytes. destruct (overlay_ T !! id) eqn:E; [apply (so_overlay _ H) in E; lia|].
  unfold is_overlay_id. rewrite (proj2 (Z.geb_le _ _)) by lia. cbn [mbind option_bind]. unfold view.
  rewrite (so_magic _ H). done.
Qed.
Lemma cur_null T : store_ok T → cur T NULL_ID = Some NullView.
Proof.
  intros H. unfold cur. assert (cur_bytes T NULL_ID = Some (blob_ T)) as ->.
  { unfold cur_bytes. by rewrite (so_null _ H). }
  cbn [mbind option_bind]. unfold view. by rewrite (so_magic _ H).
Qed.
Lemma hash_fresh T id : store_ok T → next_id_ T <= id → hashes_ T !! id = None.
Proof. intros H Hid. destruct (hashes_ T !! id) eqn:E; [|done]. apply (so_hashes _ H) in E. lia. Qed.

(** ** What is still held *)
Section store.
Context (keccak256 : list Z → Z).
Abbreviation at_node := (at_node keccak256).
Abbreviation rep := (rep keccak256).
Lemma at_node_agree T T' s : agree T T' (λ id, id = tid s) → at_node T s → at_node T' s.
Proof.
  intros [B N C H] [I W U O Hh]. split.
  - lia.
  - done.
  - by rewrite C.
  - unfold original_ok, in_blob in *. by rewrite B.
  - intros h Hs. destruct (H (tid s) eq_refl) as [E|E]; rewrite E in Hs; [auto|done].
Qed.
Lemma rep_agree T T' t : agree T T' (λ id, id ∈ ids t) → rep T t → rep T' t.
Proof.
  intros Ha Ht. apply list.Forall_forall. intros s Hs. eapply list.Forall_forall in Ht; [|exact Hs].
  apply (at_node_agree T); [|done]. apply (agree_mono _ _ _ _ Ha).
  intros id ->. unfold ids. apply list_elem_of_fmap; eauto.
Qed.
Lemma rep_evolves T T' X t : evolves T T' X → (∀ id, id ∈ ids t → id ∉ X) → rep T t → rep T' t.
Proof.
  intros [_ A] HX Ht. apply (rep_agree T); [|done]. apply (agree_mono _ _ _ _ A). intros id Hid. split; [|auto].
  unfold ids in Hid. apply list_elem_of_fmap in Hid as (s & -> & Hs). apply (an_id keccak256). by eapply list.Forall_forall in Ht.
Qed.
Lemma rep_ids T t id : rep T t → id ∈ ids t → 0 < id < next_id_ T ∧ id < 2 ^ 32.
Proof.
  intros Ht (s & -> & Hs)%list_elem_of_fmap. eapply list.Forall_forall in Ht; [|exact Hs]. destruct Ht. done.
Qed.
End store.
