(* ===== verification/OffsetTrieUpsert.v ===== *)
(** * Inserting into the witness trie

    [upsert_node] on a store that holds a canonical tree makes a place for a
    key: whatever is then stored at the leaf it returns, the store holds a
    canonical tree in which the key finds that, every other key finds what it
    found, and no cached hash is stale. *)
From S2P Require Import Prelude Account Uint256Text Rlp RlpFacts OffsetTrie OffsetTrieNodes OffsetTrieTree OffsetTrieStore.

(** ** Prefixes *)
Lemma cpl_spec p k : let cp := common_prefix_length p k in
  (cp <= length p)%nat ∧ (cp <= length k)%nat ∧ take cp p = take cp k ∧
  ((cp < length p)%nat → (cp < length k)%nat → p !! cp ≠ k !! cp).
Proof.
  revert k. induction p as [|x p IH]; intros [|y k]; cbn [common_prefix_length]; [by split_and!; simpl; auto with lia..|].
  destruct (Z.eqb_spec x y) as [->|Hne].
  - destruct (IH k) as (H1 & H2 & H3 & H4). cbn zeta in *. cbn [length take lookup list_lookup]. split_and!; [lia|lia|by rewrite H3|].
    intros ??. apply H4; lia.
  - cbn [length take lookup list_lookup]. split_and!; [lia|lia|done|]. intros _ _ [=]. done.
Qed.
Lemma cpl_full p k : (common_prefix_length p k = length p)%nat ↔ take (length p) k = p.
Proof.
  destruct (cpl_spec p k) as (H1 & H2 & H3 & H4). cbn zeta in *. split.
  - intros E. rewrite E in H3. by rewrite firstn_all in H3.
  - intros E. destruct (decide (common_prefix_length p k = length p)) as [|Hne]; [done|].
    assert (Hl : length (take (length p) k) = length p) by congruence. rewrite length_take in Hl.
    exfalso. apply H4; [lia|lia|]. rewrite <- (lookup_take_lt k (length p)) by lia. by rewrite E.
Qed.

(** ** Trees *)
Lemma find_branch id cs n key : find (Branch id cs) (n :: key) = match cs !! Z.to_nat n with Some c => find c key | None => Absent end.
Proof.
  cbn [find]. revert cs. generalize (Z.to_nat n). induction n0 as [|m IH]; intros [|c cs]; cbn [map nth lookup list_lookup]; done.
Qed.
Lemma find_ext id p c key : find (Ext id p c) key = if decide (take (length p) key = p) then find c (drop (length p) key) else Absent.
Proof. done. Qed.
Lemma find_leaf id p l key : find (mk_leaf id p l) key = if decide (p = key) then Found l else Absent.
Proof. by destruct l. Qed.
Lemma tid_leaf id p l : tid (mk_leaf id p l) = id.
Proof. by destruct l. Qed.
Lemma tid_in t : is_empty t = false → tid t ∈ ids t.
Proof. by destruct t; [|left..]. Qed.
Lemma branch_not_empty {HB : Branches} t : branching t = true → is_empty t = false.
Proof. by destruct t. Qed.
Lemma branch_branching {HB : Branches} t : is_branch t = true → branching t = true.
Proof. by destruct t. Qed.
Definition ids_list (cs : list tree) : list Z := concat (map ids cs).
Lemma ids_branch id cs : ids (Branch id cs) = id :: ids_list cs.
Proof.
  unfold ids, ids_list. cbn [nodes fmap list_fmap tid]. f_equal. induction cs as [|c cs IH]; [done|].
  cbn [map concat]. rewrite fmap_app, IH. done.
Qed.
Lemma ids_ext id p c : ids (Ext id p c) = id :: ids c.
Proof. done. Qed.
Lemma ids_list_cons c cs : ids_list (c :: cs) = ids c ++ ids_list cs.
Proof. done. Qed.
Lemma ids_list_pick cs i c : cs !! i = Some c → ids_list cs ≡ₚ ids c ++ ids_list (<[i := Empty]> cs).
Proof.
  revert i. induction cs as [|d cs IH]; intros [|i] H; [done..| |].
  - injection H as ->. done.
  - cbn [lookup list_lookup] in H. cbn [insert list_insert]. rewrite !ids_list_cons, (IH i H). apply Permutation_app_swap_app.
Qed.
Lemma ids_list_insert cs i c : (i < length cs)%nat → ids_list (<[i := c]> cs) ≡ₚ ids c ++ ids_list (<[i := Empty]> cs).
Proof.
  intros Hi. rewrite (ids_list_pick (<[i := c]> cs) i c) by (by apply list_lookup_insert_eq). by rewrite list_insert_insert_eq.
Qed.
Lemma occupied_cons c cs : occupied (c :: cs) = ((if is_empty c then 0 else 1) + occupied cs)%nat.
Proof. unfold occupied. rewrite filter_cons. destruct (is_empty c); [rewrite decide_False by done|rewrite decide_True by done]; done. Qed.
Lemma occupied_insert cs i c d : cs !! i = Some d →
  (occupied (<[i := c]> cs) + (if is_empty d then 0 else 1) = occupied cs + (if is_empty c then 0 else 1))%nat.
Proof.
  revert i. induction cs as [|e cs IH]; intros [|i] H; [done..| |].
  - injection H as ->. cbn [insert list_insert]. rewrite !occupied_cons. lia.
  - cbn [lookup list_lookup] in H. change (<[S i := c]> (e :: cs)) with (e :: <[i := c]> cs). rewrite !occupied_cons. specialize (IH i H). lia.
Qed.
Lemma occupied_none n : occupied (replicate n Empty) = 0%nat.
Proof. induction n; [done|]. cbn [replicate]. by rewrite occupied_cons. Qed.
Lemma ids_list_none n : ids_list (replicate n Empty) = [].
Proof. induction n; [done|]. cbn [replicate]. by rewrite ids_list_cons. Qed.

(** Two subtrees under a branch, below [cp] shared nibbles. *)
Definition fork_children (pn kn : Z) (c l : tree) : list tree := <[Z.to_nat kn := l]> (<[Z.to_nat pn := c]> (replicate 16 Empty)).
Definition fork (id b : Z) (cp : nat) (key : list Z) (pn kn : Z) (c l : tree) : tree :=
  if (0 <? cp)%nat then Ext id (take cp key) (Branch b (fork_children pn kn c l)) else Branch id (fork_children pn kn c l).
Section fork.
Context {HB : Branches} (pn kn : Z) (Hpn : nibble_ok pn) (Hkn : nibble_ok kn) (Hne : pn ≠ kn).
Lemma fork_lookup c l n : nibble_ok n →
  fork_children pn kn c l !! Z.to_nat n = Some (if decide (n = kn) then l else if decide (n = pn) then c else Empty).
Proof.
  intros Hn. unfold nibble_ok, fork_children in *. destruct (decide (n = kn)) as [->|H1].
  - by rewrite list_lookup_insert_eq by (rewrite length_insert, length_replicate; lia).
  - rewrite list_lookup_insert_ne by lia. destruct (decide (n = pn)) as [->|H2].
    + by rewrite list_lookup_insert_eq by (rewrite length_replicate; lia).
    + rewrite list_lookup_insert_ne by lia. apply lookup_replicate_2. lia.
Qed.
Lemma fork_occupied c l : is_empty c = false → is_empty l = false → occupied (fork_children pn kn c l) = 2%nat.
Proof.
  intros Hc Hl. unfold fork_children, nibble_ok in *.
  pose proof (occupied_insert (<[Z.to_nat pn := c]> (replicate 16 Empty)) (Z.to_nat kn) l Empty) as H1.
  pose proof (occupied_insert (replicate 16 Empty) (Z.to_nat pn) c Empty) as H2.
  rewrite list_lookup_insert_ne in H1 by lia. rewrite !lookup_replicate_2 in H1, H2 by lia. rewrite occupied_none in H2.
  rewrite Hc in H2. rewrite Hl in H1. cbn [is_empty] in *. specialize (H1 eq_refl). specialize (H2 eq_refl). lia.
Qed.
Lemma fork_ids c l : ids_list (fork_children pn kn c l) ≡ₚ ids l ++ ids c.
Proof.
  unfold fork_children, nibble_ok in *. rewrite ids_list_insert by (rewrite length_insert, length_replicate; lia). f_equiv.
  rewrite list_insert_insert_ne by lia. rewrite ids_list_insert by (rewrite length_insert, length_replicate; lia).
  rewrite (list_insert_id _ (Z.to_nat kn) Empty) by (apply lookup_replicate_2; lia).
  rewrite (list_insert_id _ (Z.to_nat pn) Empty) by (apply lookup_replicate_2; lia).
  by rewrite ids_list_none, app_nil_r.
Qed.
Lemma fork_find id b cp key c l k : (cp < length k)%nat → path_ok k → (cp <= length key)%nat →
  find (fork id b cp key pn kn c l) k =
    if decide (take cp k = take cp key) then
      match k !! cp with
      | Some n => if decide (n = kn) then find l (drop (S cp) k) else if decide (n = pn) then find c (drop (S cp) k) else Absent
      | None => Absent
      end
    else Absent.
Proof.
  intros Hk Hok Hkey.
  assert (H : ∀ i k, path_ok k → find (Branch i (fork_children pn kn c l)) k =
    match k !! 0%nat with
    | Some n => if decide (n = kn) then find l (drop 1 k) else if decide (n = pn) then find c (drop 1 k) else Absent
    | None => Absent
    end).
  { intros i [|n k'] Hk'; [done|]. rewrite find_branch. inversion Hk'; subst. rewrite fork_lookup by done. cbn [lookup list_lookup drop skipn].
    by repeat case_decide. }
  unfold fork. destruct (Nat.ltb_spec 0 cp) as [Hcp|Hcp].
  - rewrite find_ext, length_take, Nat.min_l by lia. destruct (decide (take cp k = take cp key)); [|done].
    rewrite H by (by apply Forall_drop). rewrite lookup_drop, drop_drop. replace (cp + 0)%nat with cp by lia. replace (cp + 1)%nat with (S cp) by lia. done.
  - assert (cp = 0)%nat as -> by lia. cbn [take]. rewrite decide_True by done. by rewrite H.
Qed.
Lemma fork_wf acct m id b cp key c l : (cp <= length key)%nat → path_ok key → wf acct m c → wf acct m l →
  is_empty c = false → is_empty l = false → wf acct (cp + S m) (fork id b cp key pn kn c l).
Proof.
  intros Hcp Hkey Hc Hl Ec El.
  assert (Hb : ∀ i, wf acct (S m) (Branch i (fork_children pn kn c l))).
  { intros i. constructor.
    - unfold fork_children. by rewrite !length_insert, length_replicate.
    - by rewrite fork_occupied.
    - unfold fork_children. apply Forall_insert; [|done]. apply Forall_insert; [|done]. apply Forall_replicate. constructor. }
  unfold fork. destruct (Nat.ltb_spec 0 cp) as [H0|H0].
  - replace cp with (length (take cp key)) at 1 by (rewrite length_take; lia). constructor; [rewrite length_take; lia|by apply Forall_take|done|done].
  - assert (cp = 0)%nat as -> by lia. apply Hb.
Qed.
Lemma fork_tid id b cp key c l : tid (fork id b cp key pn kn c l) = id.
Proof. unfold fork. by destruct (0 <? cp)%nat. Qed.
Lemma fork_ids_all id b cp key c l :
  ids (fork id b cp key pn kn c l) ≡ₚ (if (0 <? cp)%nat then [id; b] else [id]) ++ ids l ++ ids c.
Proof.
  unfold fork. destruct (0 <? cp)%nat; [rewrite ids_ext, ids_branch|rewrite ids_branch]; cbn [app]; by rewrite fork_ids.
Qed.
Lemma fork_children_tid c l : tid <$> fork_children pn kn c l = <[Z.to_nat kn := tid l]> (<[Z.to_nat pn := tid c]> no_children).
Proof. unfold fork_children. by rewrite !list_fmap_insert, fmap_replicate. Qed.
End fork.

Lemma wire_run v (w : OffsetTrie) : wire_ok v → to_node_id_wire_t v w = Ok (v, w).
Proof. intros Hv. unfold to_node_id_wire_t, u32, wire_ok in *. rewrite Z.mod_small by lia. by rewrite Z.eqb_refl. Qed.
Lemma append_ext_run p c (w : OffsetTrie) : len p <= MAX_PATH_NIBBLES → wire_ok c → append_ext p c w = Ok (ext_bytes p c, w).
Proof.
  intros Hp Hc. unfold append_ext, append_node_id. rewrite run_bind_bind. rewrite (bind_Ok_eq _ _ _ _ _ (wire_run c w Hc)).
  autorewrite with run. rewrite (bind_Ok_eq _ _ _ _ _ (append_path_run p w Hp)). by autorewrite with run.
Qed.

(** ** Where two keys part *)
Section diverge.
Context (T : OffsetTrie) (id : Z) (cp : nat) (path key : list Z) (child pn kn : Z).
Context (HT : store_ok T) (Hid : 0 < id < next_id_ T) (Hnext : next_id_ T + 2 <= 2 ^ 32) (Hchild : wire_ok child)
  (Hpn : path !! cp = Some pn) (Hkn : key !! cp = Some kn) (Hpn_ok : nibble_ok pn) (Hkey : path_ok key) (Hlen : len key <= MAX_PATH_NIBBLES).
Let leaf := next_id_ T.
Let children := <[Z.to_nat kn := leaf]> (<[Z.to_nat pn := child]> no_children).
Lemma children_ok : length children = 16%nat ∧ Forall wire_ok children.
Proof using All.
  unfold children, no_children. split; [by rewrite !length_insert, length_replicate|].
  pose proof (so_next _ HT) as H. unfold OVERLAY_BASE in H.
  apply Forall_insert; [apply Forall_insert; [|done]|]; [apply Forall_replicate|]; unfold wire_ok, leaf, NULL_ID in *; lia.
Qed.
Definition parted : OffsetTrie :=
  if (0 <? cp)%nat then put id (ext_bytes (take cp key) (leaf + 1)) (alloc (append_branch children) (bump T))
  else put id (append_branch children) (bump T).
Lemma diverge_run : diverge id cp path key child T = Ok ((leaf, drop (S cp) key), parted).
Proof using All.
  pose proof (so_next _ HT) as Hb. unfold OVERLAY_BASE in Hb. pose proof (lookup_lt_Some _ _ _ Hkn) as Hcp.
  unfold diverge. rewrite (bind_Ok_eq _ _ _ _ _ (wire_run child T Hchild)). unfold nibble. rewrite Hpn. autorewrite with run.
  rewrite (bind_Ok_eq _ _ _ _ _ (fresh_id_run T HT ltac:(lia))). cbn zeta. fold leaf.
  rewrite (bind_Ok_eq _ _ _ _ _ (wire_run leaf (bump T) ltac:(unfold wire_ok, leaf; lia))). rewrite Hkn. autorewrite with run. fold children.
  assert (Hsub : (rest ← substr key (S cp); mret (leaf, rest)) parted = Ok ((leaf, drop (S cp) key), parted)).
  { unfold substr. rewrite (proj2 (Z.leb_le _ _)) by (unfold len; lia). by autorewrite with run. }
  destruct (bump_evolves T HT) as [HT1 _]. unfold parted in *. destruct (Nat.ltb_spec 0 cp).
  - rewrite !run_bind_bind. unfold put_branch. rewrite (bind_Ok_eq _ _ _ _ _ (put_node_new _ _ HT1 ltac:(cbn; lia))).
    change (next_id_ (bump T)) with (leaf + 1). unfold prefix.
    rewrite (proj2 (Z.leb_le (Z.of_nat cp) (len key))) by (unfold len; lia). autorewrite with run. unfold put_ext. rewrite run_bind_bind.
    rewrite (bind_Ok_eq _ _ _ _ _ (append_ext_run (take cp key) (leaf + 1) _ ltac:(unfold len in *; rewrite length_take; lia) ltac:(unfold wire_ok, leaf; lia))).
    rewrite (bind_Ok_eq _ _ _ _ _ (put_node_old id _ _ ltac:(unfold NULL_ID; lia))). exact Hsub.
  - unfold put_branch. rewrite (bind_Ok_eq _ _ _ _ _ (put_node_old id _ _ ltac:(unfold NULL_ID; lia))). exact Hsub.
Qed.
Lemma parted_next : next_id_ parted = leaf + (if (0 <? cp)%nat then 2 else 1).
Proof using All. unfold parted, leaf. destruct (0 <? cp)%nat; cbn [put alloc bump set_overlay set_hashes set_next_id next_id_]; lia. Qed.
Lemma parted_evolves : evolves T parted [id].
Proof using All.
  pose proof (bump_evolves T HT) as E1. unfold parted. destruct (0 <? cp)%nat.
  - pose proof (alloc_evolves (append_branch children) _ (proj1 E1)) as E2.
    pose proof (put_evolves id (ext_bytes (take cp key) (leaf + 1)) _ (proj1 E2) ltac:(unfold NULL_ID; lia) ltac:(cbn; lia)) as E3.
    eapply evolves_trans; [|exact E3|set_solver]. apply (evolves_mono _ _ []); [|set_solver]. eapply evolves_trans; [exact E1|exact E2|set_solver].
  - pose proof (put_evolves id (append_branch children) _ (proj1 E1) ltac:(unfold NULL_ID; lia) ltac:(cbn; lia)) as E3.
    eapply evolves_trans; [|exact E3|set_solver]. apply (evolves_mono _ _ []); [done|set_solver].
Qed.
Lemma parted_leaf : cur parted leaf = Some NullView ∧ hashes_ parted !! leaf = None.
Proof using All.
  assert (Hh : hashes_ T !! leaf = None) by (apply hash_fresh; unfold leaf; [done|lia]).
  assert (Hc : cur (bump T) leaf = Some NullView) by (apply (cur_fresh T); unfold leaf; [done|lia]).
  unfold parted. destruct (0 <? cp)%nat; rewrite !cur_put, ?cur_alloc; rewrite decide_False by (unfold leaf; lia).
  - rewrite decide_False by (cbn; unfold leaf; lia). split; [done|]. cbn. by rewrite lookup_delete_ne by (unfold leaf; lia).
  - split; [done|]. cbn. by rewrite lookup_delete_ne by (unfold leaf; lia).
Qed.
Lemma parted_top : hashes_ parted !! id = None ∧
  if (0 <? cp)%nat then cur parted id = Some (ExtView (leaf + 1) (take cp key)) ∧ cur parted (leaf + 1) = Some (BranchView children) ∧
    hashes_ parted !! (leaf + 1) = None
  else cur parted id = Some (BranchView children).
Proof using All.
  pose proof (so_next _ HT) as Hb. unfold OVERLAY_BASE in Hb. destruct children_ok as [Hl Hw].
  unfold parted. destruct (0 <? cp)%nat; (split; [cbn; apply lookup_delete_eq|]); rewrite !cur_put, decide_True by done.
  - rewrite view_ext; [|by apply Forall_take|unfold wire_ok, leaf; lia]. split_and!; [done| |].
    + rewrite cur_alloc. rewrite decide_False by (unfold leaf; lia). rewrite decide_True by done. by apply view_branch.
    + cbn. rewrite lookup_delete_ne by (unfold leaf; lia). apply hash_fresh; unfold leaf; [done|lia].
  - by apply view_branch.
Qed.
End diverge.

Section upsert.
Context {HB : Branches} (keccak256 : list Z → Z).
Abbreviation at_node := (at_node keccak256).
Abbreviation rep := (rep keccak256).

(** ** Nodes that were written *)
Lemma rep_branch T id cs : rep T (Branch id cs) ↔ at_node T (Branch id cs) ∧ Forall (rep T) cs.
Proof.
  unfold OffsetTrieTree.rep. cbn [nodes]. rewrite list.Forall_cons. f_equiv. induction cs as [|c cs IH]; cbn [map concat]; [by split; constructor|].
  by rewrite Forall_app, list.Forall_cons, IH.
Qed.
Lemma rep_ext T id p c : rep T (Ext id p c) ↔ at_node T (Ext id p c) ∧ rep T c.
Proof. unfold OffsetTrieTree.rep. cbn [nodes]. by rewrite list.Forall_cons. Qed.
Definition rep_content (T : OffsetTrie) (l : content) : Prop := match l with CStorage _ => True | CAccount _ _ st => rep T st end.
Definition content_ids (l : content) : list Z := match l with CStorage _ => [] | CAccount _ _ st => ids st end.
Lemma rep_leaf T id p l : rep T (mk_leaf id p l) ↔ at_node T (mk_leaf id p l) ∧ rep_content T l.
Proof.
  unfold OffsetTrieTree.rep. destruct l; cbn [mk_leaf nodes rep_content]; rewrite list.Forall_cons; [|reflexivity].
  split; intros [? _]; by split; [|constructor].
Qed.
Lemma ids_leaf id p l : ids (mk_leaf id p l) = id :: content_ids l.
Proof. by destruct l. Qed.
Lemma at_node_rewrite T T' t s : at_node T t → is_digest t = false → is_digest s = false → tid s = tid t →
  blob_ T' = blob_ T → next_id_ T <= next_id_ T' → cur T' (tid t) = Some (node_of s) → hashes_ T' !! tid t = None → at_node T' s.
Proof.
  intros [I W _ O _] Ht Hs E B N C H. split; rewrite ?E; [lia|done|done| |by rewrite H].
  unfold original_ok in *. rewrite E. unfold in_blob in *. rewrite B. destruct (tid t <? OVERLAY_BASE); [|done].
  destruct O as [O1 O2]. split; [done|]. by destruct t, s.
Qed.
Lemma at_node_new T s : OVERLAY_BASE <= tid s < next_id_ T → tid s < 2 ^ 32 → is_digest s = false →
  cur T (tid s) = Some (node_of s) → hashes_ T !! tid s = None → at_node T s.
Proof.
  intros Hid W D C H. unfold OVERLAY_BASE in Hid. split; [lia|done|done| |by rewrite H]. unfold original_ok, OVERLAY_BASE.
  by rewrite (proj2 (Z.ltb_ge _ _)) by lia.
Qed.

(** ** The place made for a leaf *)
Record hole (T T' : OffsetTrie) (acct : bool) (n : nat) (t : tree) (key p : list Z) (leaf : Z)
    (X : list Z) (plug : content → tree) : Prop := {
  ho_path : path_ok p ∧ (length p <= n)%nat;
  ho_leaf : 0 < leaf < next_id_ T' ∧ leaf < 2 ^ 32;
  (** the key is new, or the leaf is the one it had *)
  ho_old : (find t key = Absent ∧ next_id_ T <= leaf ∧ OVERLAY_BASE <= leaf ∧ cur T' leaf = Some NullView ∧ hashes_ T' !! leaf = None) ∨
    (∃ l, find t key = Found l ∧ rep T' (mk_leaf leaf p l) ∧ ids (mk_leaf leaf p l) ++ X ≡ₚ ids t ∧
       is_digest (mk_leaf leaf p l) = false ∧ content_wf acct l);
  ho_ids : ∀ l, ids (plug l) ≡ₚ ids (mk_leaf leaf p l) ++ X;
  ho_X : ∀ id, id ∈ X → (id ∈ ids t ∨ next_id_ T <= id < next_id_ T') ∧ id ≠ leaf;
  ho_nodup : NoDup X;
  ho_find : ∀ l k, length k = n → path_ok k → find (plug l) k = if decide (k = key) then Found l else find t k;
  ho_wf : ∀ l, content_wf acct l → wf acct n (plug l);
  ho_tid : ∀ l, tid (plug l) = if is_empty t then leaf else tid t;
  ho_branch : ∀ l, is_branch t = true → is_branch (plug l) = true;
  ho_plug : ∀ l, is_empty (plug l) = false ∧ is_digest (plug l) = false;
  ho_rep : ∀ T2 l, agree T' T2 (λ id, id ∈ X) → rep T2 (mk_leaf leaf p l) → rep T2 (plug l)
}.

Lemma parted_rep T id cp (path key : list Z) pn kn T2 t c l : store_ok T → 0 < id < next_id_ T → next_id_ T + 2 <= 2 ^ 32 →
  path !! cp = Some pn → key !! cp = Some kn → nibble_ok pn → path_ok key → len key <= MAX_PATH_NIBBLES → wire_ok (tid c) →
  let leaf := next_id_ T in let parted := parted T id cp key (tid c) pn kn in
  at_node T t → is_digest t = false → tid t = id → tid l = leaf →
  agree parted T2 (λ i, i ∈ (if (0 <? cp)%nat then [id; leaf + 1] else [id]) ++ ids c) → rep parted c → rep T2 l →
  rep T2 (fork id (leaf + 1) cp key pn kn c l).
Proof.
  intros HT Hid Hnext Hpn Hkn Hpn_ok Hkey Hlen Hwc leaf parted Ht Hd Et El A Hc Hl.
  pose proof (parted_top T id cp path key (tid c) pn kn HT Hid Hnext Hwc Hpn Hkn Hpn_ok Hkey Hlen) as [Hh Htop].
  pose proof (parted_next T id cp path key (tid c) pn kn HT Hid Hnext Hwc Hpn Hkn Hpn_ok Hkey Hlen) as Hn.
  pose proof (parted_evolves T id cp path key (tid c) pn kn HT Hid Hnext Hwc Hpn Hkn Hpn_ok Hkey Hlen) as [Hok Hev].
  fold leaf in Hn, Htop. fold parted in Hh, Hn, Htop, Hok, Hev. set (children := <[Z.to_nat kn := leaf]> (<[Z.to_nat pn := tid c]> no_children)) in *. pose proof (so_next _ HT) as Hb. pose proof (ag_next _ _ _ A) as Hn2.
  assert (Hkids : Forall (rep T2) (fork_children pn kn c l)).
  { unfold fork_children. apply Forall_insert; [|done]. apply Forall_insert; [by apply Forall_replicate; constructor|].
    apply (rep_agree keccak256 parted); [|done]. apply (agree_mono _ _ _ _ A). intros i Hi. apply elem_of_app. by right. }
  assert (Hcs : tid <$> fork_children pn kn c l = children) by (by rewrite fork_children_tid, El).
  assert (Hblob : blob_ T2 = blob_ T) by (rewrite (ag_blob _ _ _ A), (ag_blob _ _ _ Hev); done).
  assert (Hgone : ∀ i, i ∈ (if (0 <? cp)%nat then [id; leaf + 1] else [id]) ++ ids c → hashes_ parted !! i = None → hashes_ T2 !! i = None).
  { intros i Hi E. destruct (ag_hash _ _ _ A i Hi) as [->| ->]; done. }
  unfold fork. destruct (0 <? cp)%nat eqn:Ecp.
  - destruct Htop as (C1 & C2 & H2). apply rep_ext. split.
    + apply (at_node_rewrite T T2 t); rewrite ?Et; try done; [lia| |apply Hgone; [set_solver|done]].
      rewrite (ag_cur _ _ _ A) by set_solver. done.
    + apply rep_branch. split; [|done]. apply at_node_new; cbn [tid]; [unfold leaf in *; lia|unfold leaf; lia|done| |].
      * rewrite (ag_cur _ _ _ A) by set_solver. cbn [node_of]. by rewrite Hcs.
      * apply Hgone; [set_solver|done].
  - apply rep_branch. split; [|done]. apply (at_node_rewrite T T2 t); rewrite ?Et; try done; [lia| |apply Hgone; [set_solver|done]].
    rewrite (ag_cur _ _ _ A) by set_solver. cbn [node_of]. by rewrite Hcs.
Qed.

(** The place for a key that parts from the keys of [t], all of which pass
    through [c]. *)
Lemma fork_hole T0 T t c acct m (path key : list Z) cp pn kn : store_ok T → next_id_ T0 <= next_id_ T → next_id_ T + 2 <= 2 ^ 32 →
  at_node T t → is_digest t = false → is_empty t = false → is_branch t = false → rep T c → wf acct m c → is_empty c = false →
  NoDup (tid t :: ids c) → (∀ i, i ∈ ids c → i ∈ ids t ∨ next_id_ T0 <= i) → tid t ∈ ids t →
  path !! cp = Some pn → key !! cp = Some kn → pn ≠ kn → nibble_ok pn → path_ok key → len key <= MAX_PATH_NIBBLES →
  length key = (cp + S m)%nat → take cp path = take cp key →
  (∀ k, length k = length key → path_ok k →
     find t k = if decide (take cp k = take cp path ∧ k !! cp = Some pn) then find c (drop (S cp) k) else Absent) →
  let leaf := next_id_ T in let rest := drop (S cp) key in
  let b := if (0 <? cp)%nat then [tid t; leaf + 1] else [tid t] in
  hole T0 (parted T (tid t) cp key (tid c) pn kn) acct (cp + S m) t key rest leaf (b ++ ids c)
    (λ l, fork (tid t) (leaf + 1) cp key pn kn c (mk_leaf leaf rest l)).
Proof.
  intros HT HN Hnext Ht Hd Hemp Hbr Hc Hwf Ec Hnd Hids Hself Hpn Hkn Hne Hpo Hkey Hlen Hkl Htake Hfind leaf rest b.
  pose proof (an_id _ _ _ Ht) as Hid.
  assert (Hwc : wire_ok (tid c)).
  { pose proof (tid_in c ltac:(done)) as Hi. apply (rep_ids keccak256 T) in Hi; [|done]. unfold wire_ok. lia. }
  assert (Hko : nibble_ok kn) by (eapply Forall_lookup_1; [exact Hkey|done]).
  pose proof (lookup_lt_Some _ _ _ Hkn) as Hcp. pose proof (so_next _ HT) as Hb. pose proof Hb as Hb'. unfold OVERLAY_BASE in Hb'.
  pose proof (parted_next T (tid t) cp path key (tid c) pn kn HT Hid Hnext Hwc Hpn Hkn Hpo Hkey Hlen) as Hn. fold leaf in Hn.
  pose proof (parted_leaf T (tid t) cp path key (tid c) pn kn HT Hid Hnext Hwc Hpn Hkn Hpo Hkey Hlen) as [Hlc Hlh].
  pose proof (parted_evolves T (tid t) cp path key (tid c) pn kn HT Hid Hnext Hwc Hpn Hkn Hpo Hkey Hlen) as Hev.
  set (T' := parted T (tid t) cp key (tid c) pn kn) in *.
  assert (Hrest : length rest = m) by (unfold rest; rewrite length_drop; lia).
  assert (Hrok : path_ok rest) by (by apply Forall_drop).
  assert (Hleafne : ∀ i, i ∈ b ++ ids c → i ≠ leaf).
  { intros i Hi. unfold leaf, b in *. apply elem_of_app in Hi as [Hi|Hi].
    - assert (i = tid t ∨ i = next_id_ T + 1) by (destruct (0 <? cp)%nat; set_solver). lia.
    - apply (rep_ids keccak256 T) in Hi; [lia|done]. }
  split.
  - split; [done|lia].
  - unfold leaf in *. destruct (0 <? cp)%nat; lia.
  - left. split_and!; [|unfold leaf; lia|unfold leaf; lia|done|done]. rewrite Hfind by done. rewrite decide_False; [done|]. rewrite Hkn. intros [_ [=]]. done.
  - intros l. rewrite fork_ids_all by done. fold leaf b. rewrite Permutation_app_swap_app. done.
  - intros i Hi. split; [|by apply Hleafne]. apply elem_of_app in Hi as [Hi|Hi].
    + assert (i = tid t ∨ (i = next_id_ T + 1 ∧ (0 <? cp)%nat = true)) as [->|[-> E]] by (unfold b, leaf in *; destruct (0 <? cp)%nat; set_solver);
        [by left|right]. rewrite E in Hn. unfold leaf in *. lia.
    + destruct (Hids i Hi) as [?|?]; [by left|right]. apply (rep_ids keccak256 T) in Hi; [|done]. unfold leaf in *. destruct (0 <? cp)%nat; lia.
  - unfold b. destruct (0 <? cp)%nat; cbn [app]; [|done]. apply list.NoDup_cons in Hnd as [H1 H2]. apply list.NoDup_cons. split.
    + intros [E|Hi]%elem_of_cons; [unfold leaf in *; lia|done].
    + apply list.NoDup_cons. split; [|done]. intros Hi. apply (rep_ids keccak256 T) in Hi; [unfold leaf in *; lia|done].
  - intros l k Hk Hok. rewrite fork_find; [|done..|lia|done|lia]. rewrite Hfind by (try done; lia). rewrite Htake.
    destruct (decide (take cp k = take cp key)) as [E|E].
    2: { rewrite decide_False by (intros ->; done). by rewrite decide_False by tauto. }
    destruct (lookup_lt_is_Some_2 k cp ltac:(lia)) as [n Hn']. rewrite Hn'.
    assert (Hsplit : k = key ↔ n = kn ∧ drop (S cp) k = rest).
    { split; [intros ->; split; [congruence|done]|]. intros [-> Er]. rewrite <- (take_drop_middle k cp kn Hn'), <- (take_drop_middle key cp kn Hkn).
      fold rest. by rewrite E, Er. }
    destruct (decide (n = kn)) as [->|Hnk].
    + rewrite find_leaf. destruct (decide (rest = drop (S cp) k)) as [Er|Er].
      * rewrite decide_True by (by apply Hsplit). done.
      * rewrite decide_False by (intros [_ ?]%Hsplit; congruence). rewrite decide_False; [done|]. intros [_ [=]]. congruence.
    + rewrite (decide_False (P := k = key)) by (intros [? _]%Hsplit; done). destruct (decide (n = pn)) as [->|Hnp].
      * by rewrite decide_True.
      * rewrite decide_False; [done|]. intros [_ [=]]. done.
  - intros l Hl. apply fork_wf; try done; [lia| |by destruct l]. by apply wf_leaf.
  - intros l. by rewrite fork_tid, Hemp.
  - intros l Hb2. congruence.
  - intros l. unfold fork. by destruct (0 <? cp)%nat.
  - intros T2 l A Hl. apply (parted_rep T (tid t) cp path key pn kn T2 t c); try done; [by rewrite tid_leaf|].
    apply (rep_evolves _ T _ [tid t]); [done| |done]. intros i Hi ->%list_elem_of_singleton. by apply list.NoDup_cons in Hnd as [? _].
Qed.

Definition upsert_spec (fuel : nat) (acct : bool) (n : nat) (t : tree) (key : list Z) (T : OffsetTrie) : Prop :=
  ∃ leaf p T' X plug, upsert_node fuel (tid t) key T = Ok ((leaf, p), T') ∧ evolves T T' (NULL_ID :: ids t) ∧
    next_id_ T' <= next_id_ T + 3 ∧ hole T T' acct n t key p leaf X plug.
(** The first steps: the hash of the node is forgotten, and it is read. *)
Lemma upsert_enter t T : at_node T t → store_ok T → is_digest t = false → let T1 := forget (tid t) T in
  at_node T1 t ∧ evolves T T1 (NULL_ID :: ids t) ∧ hashes_ T1 !! tid t = None ∧
  ∃ b, get_current (tid t) T1 = Ok (b, T1) ∧ match_ b T1 = Ok (node_of t, T1) ∧ view b = Some (node_of t).
Proof.
  intros Ht HT Hd T1. assert (A : at_node T1 t).
  { apply (at_node_rewrite T T1 t); try done; [apply (an_cur _ _ _ Ht)|apply lookup_delete_eq]. }
  split; [done|]. split.
  { apply (evolves_mono _ _ [tid t]); [by apply forget_evolves|]. intros i ->%list_elem_of_singleton.
    pose proof (an_id _ _ _ Ht) as Hi. destruct t; [cbn in Hi; unfold NULL_ID in Hi; lia|right; left..]. }
  split; [apply lookup_delete_eq|]. destruct (read_node_run _ _ _ (an_cur _ _ _ A)) as (b & E1 & E2 & E3). exists b.
  split_and!; [done|done|]. pose proof (an_cur _ _ _ A) as C. unfold cur in C. by rewrite E1 in C.
Qed.
Lemma substr_run {W} path pos (w : W) : (pos <= length path)%nat → substr path pos w = Ok (drop pos path, w).
Proof. intros H. unfold substr. rewrite (proj2 (Z.leb_le _ _)) by (unfold len; lia). by autorewrite with run. Qed.
Lemma upsert_empty fuel acct n key T : store_ok T → next_id_ T + 3 <= 2 ^ 32 → length key = n → path_ok key →
  upsert_spec (S fuel) acct n Empty key T.
Proof.
  intros HT Hnext Hk Hok. pose proof (forget_evolves NULL_ID T HT) as Ev. set (T1 := forget NULL_ID T) in *. destruct Ev as [HT1 A1].
  pose proof (so_next _ HT) as Hb. unfold OVERLAY_BASE in Hb. change (next_id_ T) with (next_id_ T1) in *.
  pose proof (bump_evolves T1 HT1) as E2. exists (next_id_ T1), key, (bump T1), [], (mk_leaf (next_id_ T1) key).
  destruct (read_node_run _ _ _ (cur_null _ HT1)) as (b & _ & R1 & R2). split_and!.
  - cbn [upsert_node]. rewrite (bind_Ok_eq _ _ _ _ _ (forget_run NULL_ID T)). fold T1.
    rewrite (bind_Ok_eq _ _ _ _ _ R1), (bind_Ok_eq _ _ _ _ _ R2). rewrite (bind_Ok_eq _ _ _ _ _ (fresh_id_run T1 HT1 ltac:(lia))). done.
  - eapply evolves_trans; [|exact E2|set_solver]. by apply (evolves_mono _ _ [NULL_ID]); [|set_solver].
  - cbn. lia.
  - split.
    + split; [done|lia].
    + cbn. change (next_id_ T) with (next_id_ T1). lia.
    + left. split_and!; [done|done|unfold OVERLAY_BASE; lia|by apply (cur_fresh T1)|by apply (hash_fresh T1)].
    + intros l. by rewrite app_nil_r.
    + set_solver.
    + constructor.
    + intros l k _ _. rewrite find_leaf. by repeat case_decide; subst.
    + intros l Hl. by apply wf_leaf.
    + intros l. by rewrite tid_leaf.
    + done.
    + intros l. by destruct l.
    + done.
Qed.
(** A leaf: the same key, or one that parts from it; [reput] copies the leaf
    under another path. *)
Lemma upsert_leaf acct n id path l0 key T T1 reput bytes : let t := mk_leaf id path l0 in
  store_ok T → evolves T T1 (NULL_ID :: ids t) → next_id_ T1 = next_id_ T → at_node T1 t → rep_content T1 l0 → NoDup (ids t) → wf acct n t →
  hashes_ T1 !! id = None → next_id_ T + 3 <= 2 ^ 32 → length key = n → path_ok key → Z.of_nat n <= MAX_PATH_NIBBLES →
  (∀ np, path_ok np → len np <= MAX_PATH_NIBBLES → reput np T1 = Ok (next_id_ T1, alloc (bytes np) T1) ∧ view (bytes np) = Some (node_of (mk_leaf (next_id_ T1) np l0))) →
  ∃ leaf p T' X plug, split_leaf id path key reput T1 = Ok ((leaf, p), T') ∧ evolves T T' (NULL_ID :: ids t) ∧
    next_id_ T' <= next_id_ T + 3 ∧ hole T T' acct n t key p leaf X plug.
Proof.
  intros t HT Ev1 N1 Ht Hl0 Hnd Hwf Hh Hnext Hk Hok Hn Hreput. destruct Ev1 as [HT1 A1]. apply wf_leaf in Hwf as (Hpl & Hpo & Hcw).
  assert (Hd : is_digest t = false) by (by destruct l0). assert (Et : tid t = id) by apply tid_leaf.
  pose proof (so_next _ HT1) as Hb. unfold split_leaf. destruct (bool_decide (path = key)) eqn:E.
  { apply bool_decide_eq_true in E as ->. exists id, key, T1, [], (mk_leaf id key). split; [done|]. split; [by split|]. split; [lia|].
    pose proof (an_id _ _ _ Ht). pose proof (an_wire _ _ _ Ht). rewrite Et in *. split.
    - split; [done|lia].
    - done.
    - right. exists l0. unfold t. rewrite find_leaf, decide_True, app_nil_r by done. split_and!; [done| |done|done|done]. by apply rep_leaf.
    - intros l. by rewrite app_nil_r.
    - set_solver.
    - constructor.
    - intros l k _ _. unfold t. rewrite !find_leaf. repeat case_decide; congruence.
    - intros l Hl. by apply wf_leaf.
    - intros l. unfold t. rewrite !tid_leaf. by destruct l0.
    - unfold t. by destruct l0.
    - intros l. by destruct l.
    - done. }
  apply bool_decide_eq_false in E. destruct (cpl_spec path key) as (C1 & C2 & C3 & C4). set (cp := common_prefix_length path key) in *. cbn zeta in *.
  assert (Hcp : (cp < length path)%nat).
  { destruct (decide (cp = length path)) as [Ec|]; [|lia]. exfalso. apply E. rewrite Ec in C3. rewrite firstn_all in C3.
    rewrite C3, Hpl, <- Hk. by rewrite firstn_all. }
  rewrite (proj2 (Nat.ltb_lt cp (length path))), (proj2 (Nat.ltb_lt cp (length key))) by lia. cbn [andb]. rewrite run_massert.
  rewrite (bind_Ok_eq _ _ _ _ _ (substr_run path (S cp) T1 ltac:(lia))).
  destruct (Hreput (drop (S cp) path)) as [R1 R2]; [by apply Forall_drop|unfold len; rewrite length_drop; lia|].
  rewrite (bind_Ok_eq _ _ _ _ _ R1). set (T2 := alloc (bytes (drop (S cp) path)) T1) in *.
  pose proof (alloc_evolves (bytes (drop (S cp) path)) T1 HT1) as Ev2. fold T2 in Ev2.
  destruct (lookup_lt_is_Some_2 path cp Hcp) as [pn Hpn]. destruct (lookup_lt_is_Some_2 key cp ltac:(lia)) as [kn Hkn].
  set (c := mk_leaf (next_id_ T1) (drop (S cp) path) l0). assert (Ec : tid c = next_id_ T1) by apply tid_leaf.
  unfold OVERLAY_BASE in Hb. pose proof (an_id _ _ _ Ht) as Hid. rewrite Et in Hid.
  assert (Hpo' : nibble_ok pn) by (eapply Forall_lookup_1; [exact Hpo|done]).
  assert (Hc : rep T2 c).
  { apply rep_leaf. split.
    - apply at_node_new; rewrite ?tid_leaf; [unfold OVERLAY_BASE; cbn; lia|lia|by destruct l0| |].
      + unfold T2. by rewrite cur_alloc, decide_True.
      + cbn. by apply hash_fresh.
    - destruct l0 as [|ch nb st]; [done|]. apply (rep_evolves _ T1 _ []); [done|set_solver|done]. }
  assert (Ht2 : at_node T2 t).
  { apply (at_node_agree _ T1); [|done]. apply (agree_mono _ _ _ _ (proj2 Ev2)). intros i ->. split; [rewrite Et; lia|set_solver]. }
  pose proof (diverge_run T2 id cp path key (tid c) pn kn (proj1 Ev2) ltac:(cbn; lia) ltac:(cbn; lia) ltac:(unfold wire_ok; lia) Hpn Hkn Hpo' Hok ltac:(unfold len; lia)) as D.
  pose proof (parted_next T2 id cp path key (tid c) pn kn (proj1 Ev2) ltac:(cbn; lia) ltac:(cbn; lia) ltac:(unfold wire_ok; lia) Hpn Hkn Hpo' Hok ltac:(unfold len; lia)) as Np.
  pose proof (parted_evolves T2 id cp path key (tid c) pn kn (proj1 Ev2) ltac:(cbn; lia) ltac:(cbn; lia) ltac:(unfold wire_ok; lia) Hpn Hkn Hpo' Hok ltac:(unfold len; lia)) as Ep.
  rewrite <- Ec. do 5 eexists. split; [exact D|]. split; [|split; [rewrite Np; change (next_id_ T2) with (next_id_ T1 + 1); destruct (0 <? cp)%nat; lia|]].
  - eapply evolves_trans; [|exact Ep|]; [|unfold t; rewrite ids_leaf; set_solver].
    eapply evolves_trans; [split; [exact HT1|exact A1]|exact Ev2|set_solver].
  - rewrite <- Et. replace n with (cp + S (n - S cp))%nat at 1 by lia. apply (fork_hole T T2 t c acct (n - S cp) path key cp pn kn); try done; try (by destruct l0).
    + exact (proj1 Ev2).
    + cbn. lia.
    + cbn. lia.
    + apply wf_leaf. split_and!; [rewrite length_drop; lia|by apply Forall_drop|done].
    + unfold c. rewrite ids_leaf. unfold t in Hnd. rewrite ids_leaf in Hnd. rewrite Et. apply list.NoDup_cons in Hnd as [Hnd1 Hnd2].
      apply list.NoDup_cons. split; [intros [?|?]%elem_of_cons; [lia|done]|]. apply list.NoDup_cons. split; [|done].
      intros Hi. destruct l0 as [|ch nb st]; [by apply not_elem_of_nil in Hi|]. apply (rep_ids keccak256 T1) in Hi; [lia|done].
    + intros i. unfold c, t. rewrite !ids_leaf. intros [->|Hi]%elem_of_cons; [right; lia|left; by right].
    + unfold t. rewrite tid_leaf, ids_leaf. by left.
    + intros ->. apply C4; [lia|lia|congruence].
    + unfold len. lia.
    + lia.
    + intros k Hkl Hkok. unfold t, c. rewrite !find_leaf.
      destruct (decide (path = k)) as [<-|Hne]; [by rewrite !decide_True|]. case_decide as Hx; [|done]. rewrite decide_False; [done|].
      intros Hd2. apply Hne. rewrite <- (take_drop_middle path cp pn Hpn). destruct Hx as [Hx1 Hx2]. rewrite <- (take_drop_middle k cp pn Hx2), Hx1. by rewrite Hd2.
Qed.
(** An extension whose path the key leaves. *)
Lemma prefix_split (path k : list Z) cp pn : path !! cp = Some pn →
  take (length path) k = path ↔ take cp k = take cp path ∧ k !! cp = Some pn ∧ take (length (drop (S cp) path)) (drop (S cp) k) = drop (S cp) path.
Proof.
  intros Hpn. pose proof (lookup_lt_Some _ _ _ Hpn) as Hl. split.
  - intros E. assert (k = path ++ drop (length path) k) as -> by (rewrite <- E at 1; by rewrite take_drop).
    rewrite take_app_le, lookup_app_l, drop_app_le by lia. split_and!; [done|done|apply take_app_length].
  - intros (E1 & E2 & E3). rewrite <- (take_drop_middle path cp pn Hpn) at 2. rewrite <- E1, <- E3.
    rewrite <- (take_drop_middle k cp pn E2) at 1. rewrite length_drop.
    pose proof (lookup_lt_Some _ _ _ E2).
    rewrite take_app_ge by (rewrite length_take; lia). rewrite length_take, Nat.min_l by lia.
    replace (length path - cp)%nat with (S (length path - S cp)) by lia. done.
Qed.
Section part.
Context (acct : bool) (n0 : nat) (path : list Z) (c0 : tree) (T1 : OffsetTrie).
Context (HT1 : store_ok T1) (Hn1 : next_id_ T1 < 2 ^ 32) (Hc0 : rep T1 c0) (Hw0 : wf acct n0 c0) (Hbr : branching c0 = true)
  (Hpo : path_ok path) (Hpl : len path <= MAX_PATH_NIBBLES).
(** what is left of the extension below the nibble [cp] of its path *)
Definition part_tree (cp : nat) : tree := if (cp + 1 <? length path)%nat then Ext (next_id_ T1) (drop (S cp) path) c0 else c0.
Definition part_store (cp : nat) : OffsetTrie :=
  if (cp + 1 <? length path)%nat then alloc (ext_bytes (drop (S cp) path) (tid c0)) T1 else T1.
Lemma part_wire : wire_ok (tid c0).
Proof using Hbr Hc0.
  pose proof (tid_in c0 (branch_not_empty c0 Hbr)) as Hi. apply (rep_ids keccak256 T1) in Hi; [|done]. unfold wire_ok. lia.
Qed.
Lemma part_run cp : (cp < length path)%nat →
  (if (cp + 1 <? length path)%nat then np ← substr path (S cp); put_ext NULL_ID np (tid c0) else mret (tid c0)) T1 = Ok (tid (part_tree cp), part_store cp).
Proof using All.
  intros Hcp. unfold part_tree, part_store. destruct (Nat.ltb_spec (cp + 1) (length path)); [|done].
  rewrite (bind_Ok_eq _ _ _ _ _ (substr_run path (S cp) T1 ltac:(lia))). unfold put_ext.
  rewrite (bind_Ok_eq _ _ _ _ _ (append_ext_run (drop (S cp) path) (tid c0) T1 ltac:(unfold len in *; rewrite length_drop; lia) part_wire)).
  by rewrite put_node_new.
Qed.
Lemma part_evolves cp : evolves T1 (part_store cp) [] ∧ next_id_ T1 <= next_id_ (part_store cp) <= next_id_ T1 + 1.
Proof using HT1.
  unfold part_store. destruct (_ <? _)%nat; [split; [by apply alloc_evolves|cbn; lia]|split; [by apply evolves_refl|lia]].
Qed.
Lemma part_rep cp : rep (part_store cp) (part_tree cp).
Proof using All.
  pose proof (so_next _ HT1) as Hb. destruct (part_evolves cp) as [Ev _].
  assert (Hr : rep (part_store cp) c0) by (apply (rep_evolves _ T1 _ []); [done|set_solver|done]).
  unfold part_store, part_tree in *. destruct (_ <? _)%nat; [|done]. apply rep_ext. split; [|done].
  apply at_node_new; cbn [tid]; [cbn; lia|done|done| |cbn; by apply hash_fresh].
  rewrite cur_alloc, decide_True by done. apply view_ext; [by apply Forall_drop|apply part_wire].
Qed.
Lemma part_wf cp : (cp < length path)%nat → wf acct (length path - S cp + n0) (part_tree cp) ∧ is_empty (part_tree cp) = false.
Proof using Hbr Hpo Hw0.
  intros Hcp. unfold part_tree. destruct (Nat.ltb_spec (cp + 1) (length path)).
  - split; [|done]. rewrite <- length_drop. constructor; [rewrite length_drop; lia|by apply Forall_drop|done|done].
  - replace (length path - S cp + n0)%nat with n0 by lia. split; [done|by apply branch_not_empty].
Qed.
Lemma part_find id cp pn k : path !! cp = Some pn → find (Ext id path c0) k =
  if decide (take cp k = take cp path ∧ k !! cp = Some pn) then find (part_tree cp) (drop (S cp) k) else Absent.
Proof using.
  intros Hpn. pose proof (lookup_lt_Some _ _ _ Hpn). rewrite find_ext. pose proof (prefix_split path k cp pn Hpn) as Hs. unfold part_tree.
  destruct (Nat.ltb_spec (cp + 1) (length path)).
  - rewrite find_ext. destruct (decide (take (length path) k = path)) as [E|E].
    + apply Hs in E as (E1 & E2 & E3). rewrite !decide_True by done. f_equal. rewrite length_drop, drop_drop. f_equal. lia.
    + destruct (decide (_ ∧ _)) as [[E1 E2]|]; [|done]. rewrite decide_False; [done|]. intros E3. by apply E, Hs.
  - assert (E0 : drop (S cp) path = []) by (apply skipn_all2; lia). rewrite E0 in Hs. cbn [length take] in Hs.
    replace (length path) with (S cp) in * by lia. destruct (decide (take (S cp) k = path)) as [E|E].
    + apply Hs in E as (E1 & E2 & _). by rewrite decide_True.
    + rewrite decide_False; [done|]. intros [E1 E2]. by apply E, Hs.
Qed.
End part.
Lemma upsert_part acct n0 id path c0 key T T1 : let t := Ext id path c0 in let cp := common_prefix_length path key in
  store_ok T → evolves T T1 (NULL_ID :: ids t) → next_id_ T1 = next_id_ T → at_node T1 t → rep T1 c0 → NoDup (ids t) →
  wf acct n0 c0 → branching c0 = true → path_ok path →
  next_id_ T + 3 <= 2 ^ 32 → length key = (length path + n0)%nat → path_ok key → len key <= MAX_PATH_NIBBLES → cp ≠ length path →
  ∃ leaf p T' X plug,
    (child ← (if (cp + 1 <? length path)%nat then np ← substr path (S cp); put_ext NULL_ID np (tid c0) else mret (tid c0));
     diverge id cp path key child) T1 = Ok ((leaf, p), T') ∧
    evolves T T' (NULL_ID :: ids t) ∧ next_id_ T' <= next_id_ T + 3 ∧ hole T T' acct (length path + n0) t key p leaf X plug.
Proof.
  intros t cp HT [HT1 A1] N1 Ht Hc0 Hnd Hw0 Hbr Hpo Hnext Hk Hok Hn Hne.
  destruct (cpl_spec path key) as (C1 & C2 & C3 & C4). fold cp in C1, C2, C3, C4. cbn zeta in *.
  assert (Hcp : (cp < length path)%nat) by lia. pose proof (so_next _ HT1) as Hb. unfold OVERLAY_BASE in Hb.
  pose proof (an_id _ _ _ Ht) as Hid. cbn [tid t] in Hid. unfold t in *. assert (Hpl : len path <= MAX_PATH_NIBBLES) by (unfold len in *; lia).
  rewrite (bind_Ok_eq _ _ _ _ _ (part_run acct n0 path c0 T1 HT1 ltac:(lia) Hc0 Hw0 Hbr Hpo Hpl cp Hcp)).
  destruct (part_evolves path c0 T1 HT1 cp) as [Ev2 Hn2].
  pose proof (part_rep acct n0 path c0 T1 HT1 ltac:(lia) Hc0 Hw0 Hbr Hpo Hpl cp) as Hc.
  destruct (part_wf acct n0 path c0 T1 Hw0 Hbr Hpo cp Hcp) as [Hw2 He2].
  pose proof (λ pn k, part_find path c0 T1 id cp pn k) as Hf.
  set (T2 := part_store path c0 T1 cp) in *. set (c := part_tree path c0 T1 cp) in *.
  destruct (lookup_lt_is_Some_2 path cp Hcp) as [pn Hpn]. destruct (lookup_lt_is_Some_2 key cp ltac:(lia)) as [kn Hkn].
  assert (Hpo' : nibble_ok pn) by (eapply Forall_lookup_1; [exact Hpo|done]).
  assert (Hwc : wire_ok (tid c)).
  { pose proof (tid_in c ltac:(done)) as Hi. apply (rep_ids keccak256 T2) in Hi; [|done]. unfold wire_ok. lia. }
  pose proof (diverge_run T2 id cp path key (tid c) pn kn (proj1 Ev2) ltac:(lia) ltac:(lia) Hwc Hpn Hkn Hpo' Hok Hn) as D.
  pose proof (parted_next T2 id cp path key (tid c) pn kn (proj1 Ev2) ltac:(lia) ltac:(lia) Hwc Hpn Hkn Hpo' Hok Hn) as Np.
  pose proof (parted_evolves T2 id cp path key (tid c) pn kn (proj1 Ev2) ltac:(lia) ltac:(lia) Hwc Hpn Hkn Hpo' Hok Hn) as Ep.
  do 5 eexists. split; [exact D|]. split; [|split; [rewrite Np; destruct (0 <? cp)%nat; lia|]].
  - eapply evolves_trans; [|exact Ep|]; [|rewrite ids_ext; set_solver]. eapply evolves_trans; [split; [exact HT1|exact A1]|exact Ev2|set_solver].
  - replace (length path + n0)%nat with (cp + S (length path - S cp + n0))%nat by lia.
    apply (fork_hole T T2 (Ext id path c0) c acct (length path - S cp + n0) path key cp pn kn); try done; try lia.
    + exact (proj1 Ev2).
    + apply (at_node_agree _ T1); [|done]. apply (agree_mono _ _ _ _ (proj2 Ev2)). intros i ->. split; [cbn [tid]; lia|set_solver].
    + rewrite ids_ext in Hnd. cbn [tid]. unfold c, part_tree. destruct (Nat.ltb_spec (cp + 1) (length path)) as [Hlt|Hlt]; [|exact Hnd]. rewrite ids_ext.
      apply list.NoDup_cons in Hnd as [Hnd1 Hnd2]. apply list.NoDup_cons. split; [intros [?|?]%elem_of_cons; [lia|done]|].
      apply list.NoDup_cons. split; [|done]. intros Hi. apply (rep_ids keccak256 T1) in Hi; [lia|done].
    + intros i. unfold c, part_tree. rewrite (ids_ext id). destruct (Nat.ltb_spec (cp + 1) (length path)); [rewrite ids_ext; intros [->|Hi]%elem_of_cons; [right; lia|left; by right]|].
      intros Hi. left. by right.
    + left.
    + intros ->. apply C4; [lia|lia|congruence].
    + intros k _ _. by apply Hf.
Qed.
(** ** Going down *)
Lemma digest_unknown t key : known (find t key) = true → is_digest t = false.
Proof. by destruct t. Qed.
Lemma hole_ext acct n0 id path c0 key T T1 T' p leaf X plug : let t := Ext id path c0 in
  store_ok T → evolves T T1 (NULL_ID :: ids t) → next_id_ T1 = next_id_ T → at_node T1 t → hashes_ T1 !! id = None → NoDup (ids t) →
  wf acct n0 c0 → is_branch c0 = true → path_ok path → (0 < length path)%nat → take (length path) key = path →
  evolves T1 T' (NULL_ID :: ids c0) → hole T1 T' acct n0 c0 (drop (length path) key) p leaf X plug →
  hole T T' acct (length path + n0) t key p leaf (id :: X) (λ l, Ext id path (plug l)).
Proof.
  intros t HT _ N1 Ht Hh Hnd Hw0 Hbr Hpo Hp0 Htake [HT' A'] H. destruct H as [[H1 H1'] H2 H3 H4 H5 H6 H7 H8 H9 H10 H11 H12].
  pose proof (an_id _ _ _ Ht) as Hid. cbn [t tid] in Hid. unfold t in *. rewrite ids_ext in *. apply list.NoDup_cons in Hnd as [Hnd1 Hnd2].
  assert (He : is_empty c0 = false) by (by destruct c0). rewrite He in H9.
  assert (Hidn : id ∉ NULL_ID :: ids c0) by (intros [?|?]%elem_of_cons; [unfold NULL_ID in *; lia|done]).
  assert (Hcur : cur T' id = Some (ExtView (tid c0) path)) by (rewrite (ag_cur _ _ _ A') by (split; [lia|done]); apply (an_cur _ _ _ Ht)).
  assert (Hhash : hashes_ T' !! id = None).
  { destruct (ag_hash _ _ _ A' id) as [->| ->]; [split; [lia|done]|done|done]. }
  assert (HidX : id ∉ X) by (intros [[?|?] _]%H5; [done|lia]).
  assert (Hfk : find (Ext id path c0) key = find c0 (drop (length path) key)) by (rewrite find_ext; by rewrite decide_True).
  assert (Hleaf : leaf ≠ id).
  { intros ->. destruct H3 as [(_ & ? & _)|(l & _ & _ & Hp & _)]; [lia|]. apply Hnd1. rewrite <- Hp, ids_leaf. by left. }
  split.
  - split; [done|lia].
  - done.
  - rewrite Hfk. rewrite <- N1. destruct H3 as [(? & ? & ? & ? & ?)|(l & ? & ? & Hp & ? & ?)]; [by left|right]. exists l. split_and!; try done.
    rewrite ids_ext, <- Hp. symmetry. apply Permutation_middle.
  - intros l. rewrite ids_ext, H4. apply Permutation_middle.
  - intros i. rewrite ids_ext, <- N1. intros [->|Hi]%elem_of_cons; [split; [left; by left|done]|].
    destruct (H5 i Hi) as [[?|?] ?]; [split; [left; by right|done]|split; [by right|done]].
  - by apply list.NoDup_cons.
  - intros l k Hk Hok. rewrite !find_ext. destruct (decide (take (length path) k = path)) as [E|E].
    + rewrite H7 by (try (by apply Forall_drop); rewrite length_drop; lia).
      destruct (decide (k = key)) as [->|Hne]; [by rewrite decide_True|]. rewrite decide_False; [done|]. intros Ed. apply Hne.
      rewrite <- (take_drop (length path) k), <- (take_drop (length path) key). by rewrite E, Htake, Ed.
    + rewrite decide_False; [done|]. intros ->. done.
  - intros l Hl. constructor; [done|done|by apply branch_branching, H10|auto].
  - done.
  - done.
  - done.
  - intros T2 l A Hl. apply rep_ext. pose proof (ag_next _ _ _ A') as Hn'. pose proof (ag_next _ _ _ A) as Hn2. split.
    + apply (at_node_rewrite T1 T2 (Ext id path c0)); try done; cbn [tid node_of].
      * rewrite (ag_blob _ _ _ A), (ag_blob _ _ _ A'). done.
      * lia.
      * rewrite (ag_cur _ _ _ A) by left. by rewrite H9.
      * destruct (ag_hash _ _ _ A id) as [->| ->]; [left|done|done].
    + apply H12; [|done]. apply (agree_mono _ _ _ _ A). intros i Hi. by right.
Qed.
Lemma reps_agree T T2 cs : agree T T2 (λ i, i ∈ ids_list cs) → Forall (rep T) cs → Forall (rep T2) cs.
Proof.
  induction cs as [|c cs IH]; intros A H; [done|]. apply list.Forall_cons in H as [H1 H2]. apply list.Forall_cons. split.
  - apply (rep_agree _ T); [|done]. apply (agree_mono _ _ _ _ A). intros i Hi. rewrite ids_list_cons. apply elem_of_app. by left.
  - apply IH; [|done]. apply (agree_mono _ _ _ _ A). intros i Hi. rewrite ids_list_cons. apply elem_of_app. by right.
Qed.
Lemma insert_over {A} (l : list A) i x y : <[i := x]> l = <[i := x]> (<[i := y]> l).
Proof. by rewrite list_insert_insert_eq. Qed.
Lemma hole_branch acct n0 id cs nib c key T T1 T' T3 p leaf X plug : let t := Branch id cs in
  store_ok T → next_id_ T1 = next_id_ T → at_node T1 t → NoDup (ids t) → wf acct (S n0) t → nibble_ok nib → cs !! Z.to_nat nib = Some c →
  Forall (rep T1) cs → evolves T1 T' (NULL_ID :: ids c) → hole T1 T' acct n0 c key p leaf X plug →
  evolves T' T3 [id] → next_id_ T3 = next_id_ T' → hashes_ T3 !! id = None →
  cur T3 id = Some (BranchView (<[Z.to_nat nib := if is_empty c then leaf else tid c]> (tid <$> cs))) →
  hole T T3 acct (S n0) t (nib :: key) p leaf (id :: X ++ ids_list (<[Z.to_nat nib := Empty]> cs)) (λ l, Branch id (<[Z.to_nat nib := plug l]> cs)).
Proof.
  intros t HT N1 Ht Hnd Hwf Hnib Hc Hcs [HT' A'] H [HT3 A3] N3 Hh3 Hc3. destruct H as [[H1 H1'] H2 H3 H4 H5 H6 H7 H8 H9 H10 H11 H12].
  unfold t in *. pose proof (an_id _ _ _ Ht) as Hid. cbn [tid] in Hid. pose proof (ag_next _ _ _ A') as Hn'.
  rewrite ids_branch in Hnd. apply list.NoDup_cons in Hnd as [Hnd1 Hnd2]. rewrite (ids_list_pick cs _ c Hc) in Hnd1, Hnd2.
  set (others := <[Z.to_nat nib := Empty]> cs) in *. apply list.NoDup_app in Hnd2 as (Hnd2 & Hdis & Hnd3).
  assert (Hid1 : id ∉ ids c) by (intros ?; apply Hnd1, elem_of_app; by left).
  assert (Hid2 : id ∉ ids_list others) by (intros ?; apply Hnd1, elem_of_app; by right).
  assert (Hlt : ∀ i, i ∈ ids_list cs → 0 < i < next_id_ T1).
  { intros i Hi. unfold ids_list in Hi. apply list_elem_of_In, in_concat in Hi as (l & Hl & Hi). apply in_map_iff in Hl as (d & <- & Hd).
    apply list_elem_of_In in Hi, Hd. eapply list.Forall_forall in Hcs; [|exact Hd]. by apply (rep_ids keccak256 T1) in Hi as [? _]. }
  assert (Hoth : ∀ i, i ∈ ids_list others → i ∈ ids_list cs) by (intros i Hi; rewrite (ids_list_pick cs _ c Hc); apply elem_of_app; by right).
  assert (HidX : id ∉ X) by (intros [[?|?] _]%H5; [done|lia]).
  assert (HXo : ∀ i, i ∈ X → i ∉ ids_list others).
  { intros i Hi Ho. destruct (H5 i Hi) as [[?|?] _]; [by apply (Hdis i)|]. apply Hoth, Hlt in Ho. lia. }
  assert (Hleaf : leaf ≠ id ∧ leaf ∉ ids_list others).
  { destruct H3 as [(_ & ? & _)|(l & _ & _ & Hp & _)].
    - split; [lia|]. intros Ho%Hoth%Hlt. lia.
    - assert (leaf ∈ ids c) by (rewrite <- Hp, ids_leaf; by left). split; [by intros ->|]. by apply Hdis. }
  inversion Hwf as [| | | |? ? ? ? Hl16 Hocc Hwfs|]; subst.
  assert (Hn16 : (Z.to_nat nib < length cs)%nat) by (unfold nibble_ok in Hnib; lia).
  assert (Hrest : Forall (rep T3) others).
  { apply (reps_agree T1); [|by apply Forall_insert; [|constructor]]. apply (agree_trans _ T').
    - apply (agree_mono _ _ _ _ A'). intros i Hi. pose proof (Hlt i (Hoth i Hi)). split; [lia|].
      intros [->|Hin]%elem_of_cons; [unfold NULL_ID in *; lia|]. by apply (Hdis i).
    - apply (agree_mono _ _ _ _ A3). intros i Hi. pose proof (Hlt i (Hoth i Hi)). split; [lia|]. intros ->%list_elem_of_singleton. done. }
  split.
  - split; [done|lia].
  - by rewrite N3.
  - rewrite find_branch, Hc, <- N1. destruct H3 as [(? & ? & ? & ? & ?)|(l & ? & Hr & Hp & ? & ?)]; [left|right].
    + split_and!; try done.
      * rewrite (ag_cur _ _ _ A3); [done|]. split; [lia|]. intros ->%list_elem_of_singleton. lia.
      * destruct (ag_hash _ _ _ A3 leaf) as [->| ->]; [|done|done]. split; [lia|]. intros ->%list_elem_of_singleton. lia.
    + exists l. split_and!; try done.
      * apply (rep_evolves _ T' _ [id]); [done| |done]. intros i Hi ->%list_elem_of_singleton. apply Hid1. rewrite <- Hp. apply elem_of_app. by left.
      * rewrite ids_branch, (ids_list_pick cs _ c Hc), <- Hp. fold others. rewrite <- Permutation_middle. by rewrite app_assoc.
  - intros l. rewrite ids_branch, ids_list_insert by done. fold others. rewrite H4. rewrite <- Permutation_middle. by rewrite app_assoc.
  - intros i. rewrite ids_branch, <- N1, N3. intros [->|[Hi|Hi]%elem_of_app]%elem_of_cons.
    + split; [left; by left|]. intros ->. by destruct Hleaf.
    + destruct (H5 i Hi) as [[Hin|?] ?]; [|split; [by right|done]]. split; [|done]. left. right. rewrite (ids_list_pick cs _ c Hc). apply elem_of_app. by left.
    + split; [left; right; auto|]. intros ->. by apply Hleaf.
  - apply list.NoDup_cons. split; [by intros [?|?]%elem_of_app|]. apply list.NoDup_app. done.
  - intros l [|n k] Hk Hok; [done|]. rewrite !find_branch. inversion Hok as [|? ? Hn Hok']; subst. destruct (decide (n = nib)) as [->|Hne].
    + rewrite list_lookup_insert_eq by done. rewrite Hc, H7 by (try done; cbn in Hk; lia).
      destruct (decide (k = key)) as [->|Hne]; [by rewrite decide_True|]. rewrite decide_False; [done|]. by intros [=].
    + rewrite list_lookup_insert_ne by (unfold nibble_ok in *; lia). rewrite decide_False; [done|]. by intros [=].
  - intros l Hl. constructor.
    + by rewrite length_insert.
    + pose proof (occupied_insert cs (Z.to_nat nib) (plug l) c Hc) as Ho. destruct (H11 l) as [E _]. rewrite E in Ho. destruct (is_empty c); lia.
    + apply Forall_insert; [done|auto].
  - done.
  - done.
  - done.
  - intros T2 l A Hl. apply rep_branch. pose proof (ag_next _ _ _ A) as Hn2. split.
    + apply (at_node_rewrite T1 T2 (Branch id cs)); try done; cbn [tid node_of].
      * rewrite (ag_blob _ _ _ A), (ag_blob _ _ _ A3), (ag_blob _ _ _ A'). done.
      * lia.
      * rewrite (ag_cur _ _ _ A) by left. rewrite Hc3, list_fmap_insert, H9. done.
      * destruct (ag_hash _ _ _ A id) as [->| ->]; [left|done|done].
    + rewrite (insert_over cs _ _ Empty). fold others. apply Forall_insert.
      * apply (reps_agree T3); [|done]. apply (agree_mono _ _ _ _ A). intros i Hi. right. apply elem_of_app. by right.
      * apply H12; [|done]. apply (agree_trans _ T3); [|apply (agree_mono _ _ _ _ A); intros i Hi; right; apply elem_of_app; by left].
        apply (agree_mono _ _ _ _ A3). intros i Hi. destruct (H5 i Hi) as [[Hin|?] ?].
        -- split; [|by intros ->%list_elem_of_singleton]. eapply list.Forall_forall in Hcs; [|by apply list_elem_of_lookup_2 in Hc].
           apply (rep_ids keccak256 T1) in Hin; [lia|done].
        -- split; [lia|by intros ->%list_elem_of_singleton].
Qed.
(** ** Every tree *)
(** What is to be shown of a tree, whatever the fuel and the store. *)
Definition upsert_holds (t : tree) : Prop := ∀ fuel acct n key T, store_ok T → rep T t → NoDup (ids t) → wf acct n t → length key = n → path_ok key →
  Z.of_nat n <= MAX_PATH_NIBBLES → (n < fuel)%nat → known (find t key) = true → next_id_ T + 3 <= 2 ^ 32 → upsert_spec fuel acct n t key T.
Ltac upsert_start := intros [|fuel] acct n key T HT Hrep Hnd Hwf Hk Hok Hn Hfuel Hfind Hnext; [lia|].
Lemma upsert_sleaf id path v : upsert_holds (SLeaf id path v).
Proof.
  upsert_start.
  inversion Hrep as [|? ? Ht _]; subst. destruct (upsert_enter _ _ Ht HT eq_refl) as (A1 & E1 & H1 & b & R1 & R2 & _).
  set (T1 := forget _ T) in *. unfold upsert_spec. cbn [upsert_node]. rewrite (bind_Ok_eq _ _ _ _ _ (forget_run (tid (SLeaf id path v)) T)). fold T1.
  rewrite (bind_Ok_eq _ _ _ _ _ R1), (bind_Ok_eq _ _ _ _ _ R2). cbn [node_of]. assert (Hv : 0 <= v < 2 ^ 256) by (by inversion Hwf).
  apply (upsert_leaf acct (length key) id path (CStorage v) key T T1 _ (λ np, storage_bytes np v)); try done.
  intros np Hnp Hl. split; [|by apply view_storage]. unfold put_storage, append_storage. rewrite run_bind_bind.
  rewrite (bind_Ok_eq _ _ _ _ _ (append_path_run np T1 Hl)). autorewrite with run. apply put_node_new; [exact (proj1 E1)|cbn; lia].
Qed.
Lemma upsert_aleaf id path ch nb st : upsert_holds (ALeaf id path ch nb st).
Proof.
  upsert_start.
  inversion Hrep as [|? ? Ht Hst]; subst. destruct (upsert_enter _ _ Ht HT eq_refl) as (A1 & E1 & H1 & b & R1 & R2 & Hv).
  set (T1 := forget _ T) in *. unfold upsert_spec. cbn [upsert_node]. rewrite (bind_Ok_eq _ _ _ _ _ (forget_run (tid (ALeaf id path ch nb st)) T)). fold T1.
  rewrite (bind_Ok_eq _ _ _ _ _ R1), (bind_Ok_eq _ _ _ _ _ R2). cbn [node_of] in *.
  apply (upsert_leaf acct (length key) id path (CAccount ch nb st) key T T1 _ (λ np, take (default 0%nat (account_path_offset b)) b ++ path_bytes np)); try done.
  + apply (rep_agree _ T); [|done]. apply (agree_mono _ _ _ _ (proj2 (forget_evolves id T HT))). intros i Hi. split.
    * apply (rep_ids keccak256 T) in Hi; [lia|done].
    * intros ->%list_elem_of_singleton. by apply list.NoDup_cons in Hnd as [? _].
  + intros np Hnp Hl. destruct (view_clone _ _ _ _ _ _ Hnp Hv) as (off & Eo & V). rewrite Eo. cbn [default from_option]. split; [|done].
    unfold clone_acct. rewrite Eo, run_mvalue. rewrite (bind_Ok_eq _ _ _ _ _ (append_path_run np T1 Hl)). apply put_node_new; [exact (proj1 E1)|cbn; lia].
Qed.
Lemma upsert_ext id path c0 : upsert_holds c0 → upsert_holds (Ext id path c0).
Proof.
  intros IH. upsert_start.
  apply rep_ext in Hrep as [Ht Hc0]. destruct (upsert_enter _ _ Ht HT eq_refl) as (A1 & E1 & H1 & b & R1 & R2 & _).
  set (T1 := forget _ T) in *. unfold upsert_spec. cbn [upsert_node]. rewrite (bind_Ok_eq _ _ _ _ _ (forget_run (tid (Ext id path c0)) T)). fold T1.
  rewrite (bind_Ok_eq _ _ _ _ _ R1), (bind_Ok_eq _ _ _ _ _ R2). cbn [node_of].
  inversion Hwf as [| | |? n0 ? ? ? Hp0 Hpo Hbr Hw0| |]; subst.
  assert (Hc1 : rep T1 c0).
  { apply (rep_agree _ T); [|done]. apply (agree_mono _ _ _ _ (proj2 (forget_evolves id T HT))). intros i Hi. split.
    - apply (rep_ids keccak256 T) in Hi; [lia|done].
    - intros ->%list_elem_of_singleton. by apply list.NoDup_cons in Hnd as [? _]. }
  set (cp := common_prefix_length path key) in *. destruct (Nat.eqb_spec cp (length path)) as [Ecp|Ecp].
  2: { apply (upsert_part acct n0 id path c0 key T T1); try done. }
  pose proof (proj1 (cpl_full path key) Ecp) as Htake. rewrite Ecp. rewrite find_ext, decide_True in Hfind by done.
  rewrite (bind_Ok_eq _ _ _ _ _ (substr_run key (length path) T1 ltac:(lia))).
  destruct (IH fuel acct n0 (drop (length path) key) T1) as (leaf & p & T' & X & plug & R & Ev & Nx & Ho); try done.
  { exact (proj1 E1). } { by apply list.NoDup_cons in Hnd as [_ ?]. } { rewrite length_drop. lia. } { by apply Forall_drop. } { lia. } { lia. }
  exists leaf, p, T', (id :: X), (λ l, Ext id path (plug l)). split; [done|]. split; [|split; [cbn in Nx; lia|]].
  + eapply evolves_trans; [exact E1|exact Ev|]. rewrite ids_ext. set_solver.
  + pose proof (digest_unknown _ _ Hfind) as Hd. assert (is_branch c0 = true) as Hbr' by (by destruct c0). apply (hole_ext acct n0 id path c0 key T T1 T'); done.
Qed.
Lemma upsert_branch id cs : Forall upsert_holds cs → upsert_holds (Branch id cs).
Proof.
  intros IH. upsert_start.
  apply rep_branch in Hrep as [Ht Hcs]. destruct (upsert_enter _ _ Ht HT eq_refl) as (A1 & E1 & H1 & b & R1 & R2 & _).
  set (T1 := forget _ T) in *. unfold upsert_spec. cbn [upsert_node]. rewrite (bind_Ok_eq _ _ _ _ _ (forget_run (tid (Branch id cs)) T)). fold T1.
  rewrite (bind_Ok_eq _ _ _ _ _ R1), (bind_Ok_eq _ _ _ _ _ R2). cbn [node_of]. pose proof Hwf as Hwf'. inversion Hwf as [| | | |? n0 ? ? Hl16 Hocc Hwfs|]; subst.
  destruct key as [|nib key]; [done|]. inversion Hok as [|? ? Hnib Hok']; subst. assert (n0 = length key) as -> by (cbn [length] in *; lia).
  rewrite (proj2 (Z.eqb_neq (len (nib :: key)) 0)) by (unfold len; cbn; lia). cbn [negb]. rewrite run_massert. unfold nibble. cbn [lookup list_lookup]. rewrite run_mvalue.
  destruct (lookup_lt_is_Some_2 cs (Z.to_nat nib)) as [c Hc]; [unfold nibble_ok in Hnib; lia|].
  rewrite list_lookup_fmap, Hc. cbn [fmap option_fmap option_map]. rewrite run_mvalue.
  rewrite (bind_Ok_eq _ _ _ _ _ (substr_run (nib :: key) 1 T1 ltac:(cbn; lia))). cbn [drop skipn].
  rewrite find_branch, Hc in Hfind. pose proof Hnd as Hnd'. rewrite ids_branch in Hnd'. apply list.NoDup_cons in Hnd' as [Hnd1 Hnd2].
  assert (Hcs1 : Forall (rep T1) cs).
  { apply (reps_agree T); [|done]. apply (agree_mono _ _ _ _ (proj2 (forget_evolves id T HT))). intros i Hi. split.
    - unfold ids_list in Hi. apply list_elem_of_In, in_concat in Hi as (l & Hl & Hi). apply in_map_iff in Hl as (d & <- & Hd).
      apply list_elem_of_In in Hi, Hd. eapply list.Forall_forall in Hcs; [|exact Hd]. apply (rep_ids keccak256 T) in Hi; [lia|done].
    - intros ->%list_elem_of_singleton. done. }
  pose proof (Forall_lookup_1 _ _ _ _ IH Hc) as IHc. pose proof (Forall_lookup_1 _ _ _ _ Hcs1 Hc) as Hrc. pose proof (Forall_lookup_1 _ _ _ _ Hwfs Hc) as Hwc.
  rewrite (ids_list_pick cs _ c Hc) in Hnd2. pose proof Hnd2 as Hnd2'. apply list.NoDup_app in Hnd2' as (Hndc & _ & _).
  destruct (IHc fuel acct (length key) key T1) as (leaf & p & T' & X & plug & R & Ev & Nx & Ho); try done.
  { exact (proj1 E1). } { cbn [length] in Hn. lia. } { cbn [length] in Hfuel. lia. }
  rewrite (bind_Ok_eq _ _ _ _ _ R). cbn [fst]. pose proof (ho_leaf _ _ _ _ _ _ _ _ _ _ Ho) as Hleaf.
  pose proof (an_id _ _ _ A1) as Hid. cbn [tid] in Hid. pose proof (ag_next _ _ _ (proj2 Ev)) as Hnn.
  assert (Hsub : ∀ i, i ∈ NULL_ID :: ids c → i ∈ NULL_ID :: ids (Branch id cs)).
  { intros i [->|Hi]%elem_of_cons; [by left|]. right. rewrite ids_branch, (ids_list_pick cs _ c Hc). right. apply elem_of_app. by left. }
  assert (Hidc : id ∉ NULL_ID :: ids c).
  { intros [?|Hi]%elem_of_cons; [unfold NULL_ID in *; lia|]. apply Hnd1. rewrite (ids_list_pick cs _ c Hc). apply elem_of_app. by left. }
  assert (Hzero : (tid c =? NULL_ID) = is_empty c).
  { destruct (is_empty c) eqn:Ee; [by destruct c|]. apply Z.eqb_neq. pose proof (tid_in c Ee) as Hi. apply (rep_ids keccak256 T1) in Hi; [|done]. unfold NULL_ID. lia. }
  rewrite Hzero. destruct (is_empty c) eqn:Ee.
  + rewrite run_bind_bind. rewrite (bind_Ok_eq _ _ _ _ _ (wire_run leaf T' ltac:(unfold wire_ok; lia))). unfold put_branch. rewrite run_bind_bind.
    rewrite (bind_Ok_eq _ _ _ _ _ (put_node_old id _ T' ltac:(unfold NULL_ID; lia))). autorewrite with run.
    set (bytes := append_branch _). pose proof (put_evolves id bytes T' (proj1 Ev) ltac:(unfold NULL_ID; lia) ltac:(lia)) as Ep.
    exists leaf, p, (put id bytes T'), (id :: X ++ ids_list (<[Z.to_nat nib := Empty]> cs)), (λ l, Branch id (<[Z.to_nat nib := plug l]> cs)).
    split; [done|]. split; [|split; [cbn in Nx |- *; lia|]].
    * eapply evolves_trans; [|exact Ep|rewrite ids_branch; set_solver]. eapply evolves_trans; [exact E1|exact Ev|]. intros i Hi. left. by apply Hsub.
    * apply (hole_branch acct (length key) id cs nib c key T T1 T' (put id bytes T')); try done; [apply lookup_delete_eq|].
      rewrite cur_put, decide_True, Ee by done. unfold bytes. apply view_branch; [by rewrite length_insert, length_fmap|].
      apply Forall_insert; [|unfold wire_ok; lia]. apply Forall_fmap. apply list.Forall_forall. intros d Hd. cbn.
      eapply list.Forall_forall in Hcs1; [|exact Hd]. destruct (is_empty d) eqn:Ed; [destruct d; try done; unfold wire_ok, NULL_ID; cbn; lia|].
      pose proof (tid_in d Ed) as Hi. apply (rep_ids keccak256 T1) in Hi; [unfold wire_ok; lia|done].
  + autorewrite with run.
    exists leaf, p, T', (id :: X ++ ids_list (<[Z.to_nat nib := Empty]> cs)), (λ l, Branch id (<[Z.to_nat nib := plug l]> cs)).
    split; [done|]. split; [|split; [cbn in Nx |- *; lia|]].
    * eapply evolves_trans; [exact E1|exact Ev|]. intros i Hi. left. by apply Hsub.
    * apply (hole_branch acct (length key) id cs nib c key T T1 T' T'); try done.
      -- apply evolves_refl. exact (proj1 Ev).
      -- destruct (ag_hash _ _ _ (proj2 Ev) id) as [->| ->]; [split; [lia|done]|done|done].
      -- rewrite (ag_cur _ _ _ (proj2 Ev)) by (split; [lia|done]). pose proof (an_cur _ _ _ A1) as Ec. cbn [tid node_of] in Ec. rewrite Ec, Ee. do 2 f_equal.
         symmetry. apply list_insert_id. by rewrite list_lookup_fmap, Hc.
Qed.
Lemma upsert_ok t : upsert_holds t.
Proof.
  induction t using tree_rect'; [|apply upsert_sleaf|apply upsert_aleaf|by apply upsert_ext|by apply upsert_branch|].
  - upsert_start. by apply upsert_empty.
  - upsert_start. done.
Qed.
End upsert.
