(* ===== verification/OffsetTrieErase.v ===== *)
(** * Erasing from the witness trie

    [erase_node] on a store that holds a canonical tree: the key finds
    nothing afterwards, every other key what it found, the tree is canonical
    again (a branch left with one child is folded into it) and no cached hash
    is stale; it stops only where the witness leaves out a node it needs. *)
From S2P Require Import Prelude Account Uint256Text Rlp RlpFacts OffsetTrie OffsetTrieNodes OffsetTrieTree OffsetTrieStore OffsetTrieUpsert.

(** ** Counting children *)
Definition null_empty (c : tree) : Prop := tid c = NULL_ID ↔ is_empty c = true.
Lemma count_two i cs s : count_children i cs 2 s = (2%nat, s).
Proof. by destruct cs. Qed.
Lemma count_one cs : Forall null_empty cs → ∀ i s,
  (occupied cs = 0%nat → count_children i (tid <$> cs) 1 s = (1%nat, s)) ∧ ((0 < occupied cs)%nat → (count_children i (tid <$> cs) 1 s).1 = 2%nat).
Proof.
  induction 1 as [|c cs Hc Hcs IH]; intros i s; [split; [done|cbn; lia]|]. rewrite occupied_cons. cbn [fmap list_fmap count_children Nat.ltb Nat.leb].
  unfold null_empty in Hc. destruct (is_empty c) eqn:E.
  - rewrite (proj2 Hc eq_refl). cbn [Z.eqb NULL_ID]. apply IH.
  - rewrite (proj2 (Z.eqb_neq _ _)) by (intros ?%Hc; done). rewrite count_two. split; [lia|done].
Qed.
Lemma count_zero cs : Forall null_empty cs → ∀ i,
  (occupied cs = 1%nat → ∃ j d, count_children i (tid <$> cs) 0 0 = (1%nat, (i + j)%nat) ∧ cs !! j = Some d ∧ is_empty d = false ∧ occupied (<[j := Empty]> cs) = 0%nat) ∧
  ((2 <= occupied cs)%nat → (count_children i (tid <$> cs) 0 0).1 = 2%nat).
Proof.
  induction 1 as [|c cs Hc Hcs IH]; intros i; [split; cbn; lia|]. rewrite occupied_cons. cbn [fmap list_fmap count_children Nat.ltb Nat.leb].
  unfold null_empty in Hc. destruct (is_empty c) eqn:E.
  - rewrite (proj2 Hc eq_refl). cbn [Z.eqb NULL_ID]. destruct (IH (S i)) as [IH1 IH2]. split; [|exact IH2].
    intros H1. destruct (IH1 H1) as (j & d & E1 & E2 & E3 & E4). exists (S j), d. rewrite Nat.add_succ_r. split_and!; [done|done|done|].
    change (<[S j := Empty]> (c :: cs)) with (c :: <[j := Empty]> cs). by rewrite occupied_cons, E, E4.
  - rewrite (proj2 (Z.eqb_neq _ _)) by (intros ?%Hc; done). destruct (count_one cs Hcs (S i) i) as [H1 H2]. split.
    + intros Ho. exists 0%nat, c. rewrite Nat.add_0_r. split_and!; [apply H1; lia|done|done|]. cbn [insert list_insert]. rewrite occupied_cons. cbn [is_empty]. lia.
    + intros Ho. apply H2. lia.
Qed.
Lemma occupied_zero cs i d : occupied cs = 0%nat → cs !! i = Some d → d = Empty.
Proof.
  revert i. induction cs as [|c cs IH]; intros [|i] H Hd; [done..| |]; rewrite occupied_cons in H.
  - injection Hd as ->. by destruct d.
  - apply (IH i); [lia|done].
Qed.

(** ** Folding a prefix into a node *)
Definition folded (id : Z) (pre : list Z) (d : tree) : tree :=
  match d with
  | SLeaf _ p v => SLeaf id (pre ++ p) v
  | ALeaf _ p ch nb st => ALeaf id (pre ++ p) ch nb st
  | Ext _ p c => Ext id (pre ++ p) c
  | d => d
  end.
Definition foldable (d : tree) : bool := match d with SLeaf _ _ _ | ALeaf _ _ _ _ _ | Ext _ _ _ => true | _ => false end.
Definition kids (d : tree) : list Z := tl (ids d).
Lemma ids_kids d : is_empty d = false → ids d = tid d :: kids d.
Proof. by destruct d. Qed.
Lemma ids_folded id pre d : foldable d = true → ids (folded id pre d) = id :: kids d.
Proof. by destruct d. Qed.
Lemma app_decide (pre p k : list Z) : pre ++ p = k ↔ take (length pre) k = pre ∧ p = drop (length pre) k.
Proof.
  split.
  - intros <-. by rewrite take_app_length, drop_app_length.
  - intros [E ->]. rewrite <- E at 1. apply take_drop.
Qed.
Lemma find_folded id pre d k : foldable d = true →
  find (folded id pre d) k = if decide (take (length pre) k = pre) then find d (drop (length pre) k) else Absent.
Proof.
  destruct d as [|i p v|i p ch nb st|i p c| |]; try done; intros _; cbn [folded].
  1,2: cbn [find]; destruct (decide (take (length pre) k = pre)) as [E|E];
    [destruct (decide (p = drop (length pre) k)) as [E2|E2]; [by rewrite decide_True by (by apply app_decide)|by rewrite decide_False by (intros [_ ?]%app_decide; done)]
    |by rewrite decide_False by (intros [? _]%app_decide; done)].
  rewrite !find_ext. rewrite length_app.
  destruct (decide (take (length pre) k = pre)) as [E|E].
  - destruct (decide (take (length p) (drop (length pre) k) = p)) as [E2|E2].
    + rewrite decide_True; [by rewrite drop_drop|]. rewrite <- E at 2. rewrite <- E2 at 2. by rewrite take_take_drop.
    + rewrite decide_False; [done|]. intros E3. apply E2. rewrite <- (take_drop (length pre) (take _ k)) in E3.
      rewrite take_take, Nat.min_l in E3 by lia. rewrite E in E3. apply app_inv_head in E3. rewrite skipn_firstn_comm in E3.
      replace (length pre + length p - length pre)%nat with (length p) in E3 by lia. done.
  - rewrite decide_False; [done|]. intros E3. apply E. rewrite <- (take_app_length pre p) at 2. rewrite <- E3. by rewrite take_take, Nat.min_l by lia.
Qed.
Lemma wf_folded {HB : Branches} acct m id pre d : foldable d = true → path_ok pre → wf acct m d → wf acct (length pre + m) (folded id pre d).
Proof.
  intros Hf Hp. inversion 1 as [|? ? ? ? Hl|? ? ? ? ? ? Hl|? ? ? ? ? Hl| |]; subst; try done; cbn [folded].
  - constructor; [by rewrite length_app|by apply Forall_app_2|done].
  - constructor; [by rewrite length_app|by apply Forall_app_2|done..].
  - rewrite Nat.add_assoc, <- length_app. constructor; [rewrite length_app; lia|by apply Forall_app_2|done|done].
Qed.

Section erase.
Context {HB : Branches} (keccak256 : list Z → Z).
Abbreviation at_node := (at_node keccak256).
Abbreviation rep := (rep keccak256).

Lemma fold_run T acct m id pre d b : id ≠ NULL_ID → foldable d = true → rep T d → wf acct m d → path_ok pre →
  Z.of_nat (length pre + m) <= MAX_PATH_NIBBLES → view b = Some (node_of d) →
  ∃ b', fold_ext_node_path_maybe id pre b T = Ok ((), put id b' T) ∧ view b' = Some (node_of (folded id pre d)).
Proof.
  intros Hid Hf Hd Hwf Hp Hm Hv. unfold fold_ext_node_path_maybe, match_. rewrite (proj2 (Z.eqb_neq _ _) Hid), Hv. cbn [negb]. autorewrite with run.
  pose proof (wf_folded acct m id pre d Hf Hp Hwf) as Hwf2. unfold MAX_PATH_NIBBLES in Hm.
  assert (Hcat : ∀ p : list Z, len (pre ++ p) <= 64 → concat_nibbles pre p T = Ok (pre ++ p, T)).
  { intros p Hl. unfold concat_nibbles, nibble_max. rewrite (proj2 (Z.leb_le _ _)) by (unfold len in *; rewrite length_app in Hl; lia). by autorewrite with run. }
  destruct d as [|i p v|i p ch nb st|i p c| |]; try done; cbn [node_of folded] in *.
  - assert (Hl : len (pre ++ p) <= MAX_PATH_NIBBLES) by (inversion Hwf2; subst; unfold len, MAX_PATH_NIBBLES; lia).
    rewrite (bind_Ok_eq _ _ _ _ _ (Hcat p Hl)). exists (storage_bytes (pre ++ p) v). split.
    + unfold put_storage, append_storage. rewrite !run_bind_bind. rewrite (bind_Ok_eq _ _ _ _ _ (append_path_run (pre ++ p) T Hl)).
      autorewrite with run. by rewrite (bind_Ok_eq _ _ _ _ _ (put_node_old id _ T Hid)).
    + inversion Hwf2; subst. by apply view_storage.
  - assert (Hl : len (pre ++ p) <= MAX_PATH_NIBBLES) by (inversion Hwf2; subst; unfold len, MAX_PATH_NIBBLES; lia).
    rewrite (bind_Ok_eq _ _ _ _ _ (Hcat p Hl)). assert (Hok : path_ok (pre ++ p)) by (by inversion Hwf2).
    destruct (view_clone _ _ _ _ _ _ Hok Hv) as (off & Eo & V). exists (take off b ++ path_bytes (pre ++ p)). split; [|done].
    unfold clone_acct. rewrite Eo. autorewrite with run. rewrite (bind_Ok_eq _ _ _ _ _ (append_path_run (pre ++ p) T Hl)).
    by rewrite (bind_Ok_eq _ _ _ _ _ (put_node_old id _ T Hid)).
  - assert (Hl : len (pre ++ p) <= MAX_PATH_NIBBLES) by (inversion Hwf; subst; unfold len, MAX_PATH_NIBBLES; rewrite length_app; lia).
    rewrite (bind_Ok_eq _ _ _ _ _ (Hcat p Hl)). assert (Hok : path_ok (pre ++ p)) by (by inversion Hwf2).
    assert (Hwc : wire_ok (tid c)).
    { apply rep_ext in Hd as [_ Hc]. inversion Hwf as [| | |? ? ? ? ? ? ? Hbr| |]; subst. apply (part_wire keccak256 c T Hc Hbr). }
    exists (ext_bytes (pre ++ p) (tid c)). split; [|by apply view_ext]. unfold put_ext. rewrite run_bind_bind.
    rewrite (bind_Ok_eq _ _ _ _ _ (append_ext_run (pre ++ p) (tid c) T Hl Hwc)). by rewrite (bind_Ok_eq _ _ _ _ _ (put_node_old id _ T Hid)).
Qed.
(** The node at [id] gives way to a folded one. *)
Lemma folded_rep T t pre d b : store_ok T → at_node T t → is_digest t = false → foldable d = true → rep T d → tid t ∉ ids d →
  view b = Some (node_of (folded (tid t) pre d)) → rep (put (tid t) b T) (folded (tid t) pre d).
Proof.
  intros HT Ht Hdg Hf Hd Hn Hv. pose proof (an_id _ _ _ Ht) as Hid.
  assert (Hnodes : nodes (folded (tid t) pre d) = folded (tid t) pre d :: tl (nodes d)) by (by destruct d). unfold OffsetTrieTree.rep. rewrite Hnodes.
  apply list.Forall_cons. split.
  - apply (at_node_rewrite _ T _ t); try done; try (by destruct d); [|apply lookup_delete_eq]. by rewrite cur_put, decide_True.
  - assert (Hk : Forall (at_node T) (tl (nodes d))) by (unfold OffsetTrieTree.rep in Hd; destruct (nodes d); [done|by inversion Hd]).
    apply list.Forall_forall. intros s Hs. eapply list.Forall_forall in Hk; [|exact Hs]. apply (at_node_agree _ T); [|done].
    pose proof (put_evolves (tid t) b T HT ltac:(unfold NULL_ID; lia) ltac:(lia)) as [_ A]. apply (agree_mono _ _ _ _ A).
    intros i ->. split; [apply (an_id _ _ _ Hk)|]. intros E%list_elem_of_singleton. apply Hn. rewrite <- E. unfold ids. apply list_elem_of_fmap_2.
    destruct (nodes d); [by apply not_elem_of_nil in Hs|by right].
Qed.

(** ** What an erasure has done *)
Definition erased (acct : bool) (n : nat) (t : tree) (key : list Z) (T T' : OffsetTrie) (t' : tree) : Prop :=
  evolves T T' (ids t) ∧ next_id_ T' = next_id_ T ∧ tid t' = tid t ∧ rep T' t' ∧ wf acct n t' ∧ is_empty t' = false ∧ is_digest t' = false ∧
  NoDup (ids t') ∧ (∀ i, i ∈ ids t' → i ∈ ids t) ∧ (∃ l, find t key = Found l) ∧
  (∀ k, length k = n → path_ok k → find t' k = if decide (k = key) then Absent else find t k).
Definition erase_spec (fuel : nat) (acct : bool) (n : nat) (t : tree) (key : list Z) (T : OffsetTrie) : Prop :=
  (erase_node fuel (tid t) key T = Abort ∧ ¬ complete t) ∨
  (erase_node fuel (tid t) key T = Ok (Unmodified, T) ∧ find t key = Absent) ∨
  (erase_node fuel (tid t) key T = Ok (Erased, T) ∧ ∃ l, t = mk_leaf (tid t) key l) ∨
  (∃ T' t', erase_node fuel (tid t) key T = Ok (Modified, T') ∧ erased acct n t key T T' t').
Definition erase_holds (t : tree) : Prop := ∀ fuel acct n key T, store_ok T → rep T t → NoDup (ids t) → wf acct n t → length key = n →
  path_ok key → Z.of_nat n <= MAX_PATH_NIBBLES → (n < fuel)%nat → erase_spec fuel acct n t key T.
Ltac erase_start := intros [|fuel] acct n key T HT Hrep Hnd Hwf Hk Hok Hn Hfuel; [lia|].
Lemma erase_enter t T : at_node T t → ∃ b, get_current (tid t) T = Ok (b, T) ∧ match_ b T = Ok (node_of t, T) ∧ view b = Some (node_of t).
Proof.
  intros A. destruct (read_node_run _ _ _ (an_cur _ _ _ A)) as (b & E1 & E2 & E3). exists b.
  split_and!; [done|done|]. pose proof (an_cur _ _ _ A) as C. unfold cur in C. by rewrite E1 in C.
Qed.
Lemma erase_empty : erase_holds Empty.
Proof.
  erase_start. right. left. split; [|done]. destruct (read_node_run _ _ _ (cur_null _ HT)) as (b & _ & R1 & R2). cbn [erase_node].
  change (tid Empty) with NULL_ID. by rewrite (bind_Ok_eq _ _ _ _ _ R1), (bind_Ok_eq _ _ _ _ _ R2).
Qed.
Lemma erase_digest id h : erase_holds (Digest id h).
Proof.
  erase_start. left. inversion Hrep as [|? ? Ht _]; subst. destruct (erase_enter _ _ Ht) as (b & R1 & R2 & _). cbn [erase_node]. split.
  - by rewrite (bind_Ok_eq _ _ _ _ _ R1), (bind_Ok_eq _ _ _ _ _ R2).
  - intros C. inversion C as [|? ? E _]. by cbn in E.
Qed.
Lemma erase_leaf id p l : erase_holds (mk_leaf id p l).
Proof.
  erase_start. apply rep_leaf in Hrep as [Ht _]. destruct (erase_enter _ _ Ht) as (b & R1 & R2 & _). unfold erase_spec. cbn [erase_node].
  rewrite (bind_Ok_eq _ _ _ _ _ R1), (bind_Ok_eq _ _ _ _ _ R2). rewrite find_leaf, tid_leaf. right.
  destruct (decide (p = key)) as [->|Hne]; [right; left|left].
  - split; [|by exists l]. destruct l; cbn [mk_leaf node_of]; by rewrite bool_decide_eq_true_2.
  - split; [|done]. destruct l; cbn [mk_leaf node_of]; by rewrite bool_decide_eq_false_2.
Qed.

(** A node on the path, after a change below it and with its hash forgotten. *)
Lemma above T T1 t X : store_ok T → at_node T t → is_digest t = false → evolves T T1 X → next_id_ T1 = next_id_ T → tid t ∉ X →
  (∀ i, i ∈ X → i ∈ ids t) → let T2 := forget (tid t) T1 in
  at_node T2 t ∧ hashes_ T2 !! tid t = None ∧ evolves T T2 (ids t) ∧ next_id_ T2 = next_id_ T ∧ evolves T1 T2 [tid t].
Proof.
  intros HT Ht Hd [HT1 A1] N1 Hn HX T2. pose proof (forget_evolves (tid t) T1 HT1) as E2. fold T2 in E2. pose proof (an_id _ _ _ Ht) as Hid.
  assert (Hin : tid t ∈ ids t) by (apply tid_in; destruct t; [cbn in Hid; unfold NULL_ID in Hid; lia|done..]). split_and!.
  - apply (at_node_rewrite _ T T2 t); try done; [apply (ag_blob _ _ _ A1)|apply (ag_next _ _ _ A1)| |apply lookup_delete_eq].
    change (cur T2 (tid t)) with (cur T1 (tid t)). rewrite (ag_cur _ _ _ A1) by (split; [lia|done]). apply (an_cur _ _ _ Ht).
  - apply lookup_delete_eq.
  - eapply evolves_trans; [|exact E2|]; [by apply (evolves_mono _ _ X)|]. intros i ->%list_elem_of_singleton. by left.
  - done.
  - done.
Qed.
Lemma complete_ext id p c : complete (Ext id p c) → complete c.
Proof. inversion 1; subst. done. Qed.
Lemma node_kind t : is_empty t = false → is_digest t = false → is_branch t = false → foldable t = true.
Proof. by destruct t. Qed.
(** the surviving child of an extension, folded into it if it has become a leaf or an extension *)
Lemma erase_ext_modified acct n0 id path c0 key T T1 t1 : let t := Ext id path c0 in
  store_ok T → at_node T t → NoDup (ids t) → path_ok path → (0 < length path)%nat → Z.of_nat (length path + n0) <= MAX_PATH_NIBBLES →
  take (length path) key = path → length key = (length path + n0)%nat →
  erased acct n0 c0 (drop (length path) key) T T1 t1 →
  ∃ T' t',
    (forget_hash id;; child ← get_current (tid c0); nd ← match_ child;
     match nd with NullView => mabort | _ => fold_ext_node_path_maybe id path child;; mret Modified end) T1 = Ok (Modified, T') ∧
    erased acct (length path + n0) t key T T' t'.
Proof.
  intros t HT Ht Hnd Hpo Hp0 Hn Htake Hkl (Ev & N1 & Etid & Hr & Hw & He & Hd & Hnd1 & Hsub & [l Hl] & Hf). unfold t in *.
  rewrite ids_ext in Hnd. apply list.NoDup_cons in Hnd as [Hnd0 _]. pose proof (an_id _ _ _ Ht) as Hid. cbn [tid] in Hid.
  destruct (above T T1 (Ext id path c0) (ids c0) HT Ht eq_refl Ev N1 Hnd0) as (A2 & H2 & Ev2 & N2 & Ev12); [intros i Hi; rewrite ids_ext; by right|].
  cbn [tid] in *. set (T2 := forget id T1) in *. assert (Hid1 : id ∉ ids t1) by (intros ?%Hsub; done).
  assert (Hr2 : rep T2 t1) by (apply (rep_evolves _ T1 _ [id]); [done| |done]; intros i Hi ->%list_elem_of_singleton; done).
  assert (At1 : at_node T2 t1) by (destruct t1; [done|by inversion Hr2..]).
  destruct (erase_enter _ _ At1) as (b & R1 & R2 & V). rewrite Etid in R1.
  rewrite (bind_Ok_eq _ _ _ _ _ (forget_run id T1)). fold T2. rewrite (bind_Ok_eq _ _ _ _ _ R1), (bind_Ok_eq _ _ _ _ _ R2).
  assert (Hfk : find (Ext id path c0) key = Found l) by (rewrite find_ext, decide_True by done; done).
  assert (Hfind : ∀ t' k, (find t' k = if decide (take (length path) k = path) then find t1 (drop (length path) k) else Absent) → length k = (length path + n0)%nat → path_ok k →
    find t' k = if decide (k = key) then Absent else find (Ext id path c0) k).
  { intros t' k -> Hk Hok. rewrite find_ext. destruct (decide (take (length path) k = path)) as [E|E].
    - rewrite Hf by (try (by apply Forall_drop); rewrite length_drop; lia). destruct (decide (k = key)) as [->|Hne]; [by rewrite decide_True|].
      rewrite decide_False; [done|]. intros Ed. apply Hne. rewrite <- (take_drop (length path) k), <- (take_drop (length path) key). by rewrite E, Htake, Ed.
    - by destruct (decide (k = key)). }
  assert (Hsub' : ∀ i, i ∈ ids t1 → i ∈ ids (Ext id path c0)) by (intros i Hi; rewrite ids_ext; right; auto).
  destruct (is_branch t1) eqn:Eb.
  - exists T2, (Ext id path t1). split; [by destruct t1; try done; cbn [node_of]; unfold fold_ext_node_path_maybe, match_; rewrite V, (proj2 (Z.eqb_neq id NULL_ID)) by (unfold NULL_ID; lia)|].
    split_and!; try done.
    + apply rep_ext. split; [|done]. apply (at_node_rewrite _ T2 T2 (Ext id path c0)); try done. rewrite (an_cur _ _ _ A2). cbn [node_of]. by rewrite Etid.
    + constructor; [done|done|by apply branch_branching|done].
    + rewrite ids_ext. by apply list.NoDup_cons.
    + intros i. rewrite !ids_ext. intros [->|Hi]%elem_of_cons; [by left|right; auto].
    + by exists l.
    + intros k Hk Hok. apply Hfind; [apply find_ext|done|done].
  - pose proof (node_kind t1 He Hd Eb) as Hfo.
    destruct (fold_run T2 acct n0 id path t1 b ltac:(unfold NULL_ID; lia) Hfo Hr2 Hw Hpo Hn V) as (b' & Rf & Vf).
    exists (put id b' T2), (folded id path t1). split.
    { destruct t1; try done; cbn [node_of]; by rewrite (bind_Ok_eq _ _ _ _ _ Rf). }
    pose proof (put_evolves id b' T2 (proj1 Ev2) ltac:(unfold NULL_ID; lia) ltac:(lia)) as Ep. split_and!; try done.
    + eapply evolves_trans; [exact Ev2|exact Ep|]. rewrite ids_ext. set_solver.
    + by destruct t1.
    + apply (folded_rep T2 (Ext id path c0)); try done. exact (proj1 Ev2).
    + by apply wf_folded.
    + by destruct t1.
    + by destruct t1.
    + rewrite ids_folded by done. rewrite ids_kids in Hnd1, Hid1 by done. apply list.NoDup_cons in Hnd1 as [_ ?]. apply list.NoDup_cons. split; [|done].
      intros ?. apply Hid1. by right.
    + intros i. rewrite ids_folded by done. intros [->|Hi]%elem_of_cons; [rewrite ids_ext; by left|]. apply Hsub'. rewrite ids_kids by done. by right.
    + by exists l.
    + intros k Hk Hok. apply Hfind; [by apply find_folded|done|done].
Qed.
Lemma erase_ext id path c0 : erase_holds c0 → erase_holds (Ext id path c0).
Proof.
  intros IH. erase_start. apply rep_ext in Hrep as [Ht Hc0]. destruct (erase_enter _ _ Ht) as (b & R1 & R2 & _). unfold erase_spec. cbn [erase_node].
  rewrite (bind_Ok_eq _ _ _ _ _ R1), (bind_Ok_eq _ _ _ _ _ R2). cbn [node_of]. inversion Hwf as [| | |? n0 ? ? ? Hp0 Hpo Hbr Hw0| |]; subst.
  assert (Hc0id : tid c0 ≠ NULL_ID).
  { pose proof (tid_in c0 (branch_not_empty c0 Hbr)) as Hi. apply (rep_ids keccak256 T) in Hi; [unfold NULL_ID; lia|done]. }
  rewrite (proj2 (Z.eqb_neq _ _) Hc0id). cbn [negb]. rewrite run_massert. destruct (cpl_spec path key) as (C1 & _ & _ & _). pose proof (cpl_full path key) as C2.
  set (cp := common_prefix_length path key) in *. destruct (Nat.ltb_spec cp (length path)) as [Hlt|Hge].
  { right. left. split; [done|]. rewrite find_ext, decide_False; [done|]. intros ?%C2. lia. }
  assert (Ecp : cp = length path) by lia. pose proof (proj1 C2 Ecp) as Htake. rewrite Ecp. clear Ecp.
  rewrite (bind_Ok_eq _ _ _ _ _ (substr_run key (length path) T ltac:(lia))).
  assert (Hndc : NoDup (ids c0)) by (by apply list.NoDup_cons in Hnd as [_ ?]).
  destruct (IH fuel acct n0 (drop (length path) key) T) as [[R C]|[[R F]|[[R [l El]]|(T1 & t1 & R & Her)]]]; try done.
  { rewrite length_drop. lia. } { by apply Forall_drop. } { lia. } { lia. }
  - left. split; [|by intros ?%complete_ext]. by rewrite (bind_Abort _ _ _ R).
  - right. left. split; [by rewrite (bind_Ok_eq _ _ _ _ _ R)|]. rewrite find_ext, decide_True by done. done.
  - rewrite El in Hbr. by destruct l.
  - right. right. right. rewrite (bind_Ok_eq _ _ _ _ _ R).
    apply (erase_ext_modified acct n0 id path c0 key T T1 t1); try done. lia.
Qed.

(** ** Branches *)
Lemma kids_ids cs d : d ∈ cs → ∀ i, i ∈ ids d → i ∈ ids_list cs.
Proof.
  intros Hd i Hi. apply list_elem_of_lookup in Hd as [j Hj]. rewrite (ids_list_pick cs j d Hj). apply elem_of_app. by left.
Qed.
Lemma null_empty_rep T' d : rep T' d → null_empty d.
Proof.
  intros Hd. unfold null_empty. destruct (is_empty d) eqn:E; [by destruct d|]. split; [|done]. intros E0. pose proof (tid_in d E) as Hi.
  apply (rep_ids keccak256 T') in Hi; [|done]. unfold NULL_ID in *. lia.
Qed.
Section branch.
Context (acct : bool) (n0 : nat) (id : Z) (cs : list tree) (nib : Z) (key : list Z) (c : tree) (T : OffsetTrie).
Context (HT : store_ok T) (Ht : at_node T (Branch id cs)) (Hcs : Forall (rep T) cs) (Hnd : NoDup (ids (Branch id cs)))
  (Hl16 : length cs = 16%nat) (Hocc : (2 <= occupied cs)%nat) (Hwfs : Forall (wf acct n0) cs)
  (Hnib : nibble_ok nib) (Hc : cs !! Z.to_nat nib = Some c) (Hkl : length key = n0) (Hok : path_ok key) (Hn : Z.of_nat (S n0) <= MAX_PATH_NIBBLES).
(** the branch with [c'] in place of [c], in a store that has it *)
Let cs' (c' : tree) := <[Z.to_nat nib := c']> cs.
Lemma branch_ids c' : (∀ i, i ∈ ids c' → i ∈ ids c) → NoDup (ids c') →
  NoDup (ids (Branch id (cs' c'))) ∧ (∀ i, i ∈ ids (Branch id (cs' c')) → i ∈ ids (Branch id cs)).
Proof using All.
  intros Hsub Hndc. rewrite !ids_branch in *. apply list.NoDup_cons in Hnd as [H1 H2].
  assert (Hj : (Z.to_nat nib < length cs)%nat) by (unfold nibble_ok in Hnib; lia).
  pose proof (ids_list_pick cs _ c Hc) as Ep. pose proof (ids_list_insert cs _ c' Hj) as Ei. fold (cs' c') in Ei.
  rewrite Ep in H1, H2. apply list.NoDup_app in H2 as (_ & H3 & H4).
  assert (Hin : ∀ i, i ∈ ids_list (cs' c') → i ∈ ids_list cs).
  { intros i. rewrite Ei, Ep. rewrite !elem_of_app. intros [?|?]; [left; auto|by right]. }
  split.
  - apply list.NoDup_cons. split; [|rewrite Ei; apply list.NoDup_app; split_and!; [done| |done]; intros i Hi; apply H3; auto].
    intros Hi. apply H1. rewrite <- Ep. auto.
  - intros i [->|Hi]%elem_of_cons; [by left|right; auto].
Qed.
Lemma branch_find c' k : length k = S n0 → path_ok k → (∃ l, find c key = Found l) →
  (∀ k, length k = n0 → path_ok k → find c' k = if decide (k = key) then Absent else find c k) →
  find (Branch id (cs' c')) k = if decide (k = nib :: key) then Absent else find (Branch id cs) k.
Proof using All.
  intros Hk Hko _ Hf. destruct k as [|x k]; [done|]. rewrite !find_branch. inversion Hko as [|? ? Hx Hko']; subst.
  assert (Hj : (Z.to_nat nib < length cs)%nat) by (unfold nibble_ok in Hnib; lia). unfold cs'. destruct (decide (x = nib)) as [->|Hne].
  - rewrite list_lookup_insert_eq, Hc by done. rewrite Hf by (try done; cbn in Hk; lia).
    destruct (decide (k = key)) as [->|Hne]; [by rewrite decide_True|]. rewrite decide_False; [done|]. by intros [=].
  - rewrite list_lookup_insert_ne by (unfold nibble_ok in *; lia). rewrite decide_False; [done|]. by intros [=].
Qed.
(** Two or more children are left. *)
Lemma branch_stays T1 c' : evolves T T1 (ids c) → next_id_ T1 = next_id_ T → rep T1 c' → wf acct n0 c' → (∀ i, i ∈ ids c' → i ∈ ids c) → NoDup (ids c') →
  (2 <= occupied (cs' c'))%nat → (∃ l, find c key = Found l) →
  (∀ k, length k = n0 → path_ok k → find c' k = if decide (k = key) then Absent else find c k) →
  let T' := put id (append_branch (tid <$> cs' c')) (forget id T1) in
  erased acct (S n0) (Branch id cs) (nib :: key) T T' (Branch id (cs' c')).
Proof using All.
  intros Ev N1 Hr Hw Hsub Hndc Ho Hfound Hf T'. pose proof Hnd as Hnd'. rewrite ids_branch in Hnd'. apply list.NoDup_cons in Hnd' as [Hid0 Hnd0].
  assert (Hcin : c ∈ cs) by (by apply list_elem_of_lookup_2 in Hc). pose proof (an_id _ _ _ Ht) as Hid. cbn [tid] in Hid.
  assert (Hidc : id ∉ ids c) by (intros ?; apply Hid0; by apply (kids_ids cs c)).
  destruct (above T T1 (Branch id cs) (ids c) HT Ht eq_refl Ev N1 Hidc) as (A2 & H2 & Ev2 & N2 & Ev12).
  { intros i Hi. rewrite ids_branch. right. by apply (kids_ids cs c). }
  cbn [tid] in *. set (T2 := forget id T1) in *. destruct (branch_ids c' Hsub Hndc) as [Hnd1 Hsub1].
  pose proof (put_evolves id (append_branch (tid <$> cs' c')) T2 (proj1 Ev2) ltac:(unfold NULL_ID; lia) ltac:(lia)) as Ep. fold T' in Ep.
  assert (Hkids : Forall (rep T') (cs' c')).
  { unfold cs'. rewrite (insert_over cs _ _ Empty). apply Forall_insert.
    - apply (reps_agree keccak256 T); [|by apply Forall_insert; [|constructor]]. rewrite (ids_list_pick cs _ c Hc) in Hnd0, Hid0.
      apply list.NoDup_app in Hnd0 as (_ & Hdis & _). apply (agree_trans _ T1); [|apply (agree_trans _ T2)].
      + apply (agree_mono _ _ _ _ (proj2 Ev)). intros i Hi. split; [|intros ?; by apply (Hdis i)].
        assert (Hin : i ∈ ids (Branch id cs)) by (rewrite ids_branch, (ids_list_pick cs _ c Hc); right; apply elem_of_app; by right).
        apply (rep_ids keccak256 T) in Hin; [lia|]. by apply rep_branch.
      + apply (agree_mono _ _ _ _ (proj2 Ev12)). intros i Hi. split; [|intros ->%list_elem_of_singleton; apply Hid0, elem_of_app; by right].
        assert (Hin : i ∈ ids (Branch id cs)) by (rewrite ids_branch, (ids_list_pick cs _ c Hc); right; apply elem_of_app; by right).
        apply (rep_ids keccak256 T) in Hin; [lia|]. by apply rep_branch.
      + apply (agree_mono _ _ _ _ (proj2 Ep)). intros i Hi. split; [|intros ->%list_elem_of_singleton; apply Hid0, elem_of_app; by right].
        assert (Hin : i ∈ ids (Branch id cs)) by (rewrite ids_branch, (ids_list_pick cs _ c Hc); right; apply elem_of_app; by right).
        apply (rep_ids keccak256 T) in Hin; [lia|]. by apply rep_branch.
    - apply (rep_evolves _ T2 _ [id]); [done|intros i Hi ->%list_elem_of_singleton; by apply Hidc, Hsub|].
      apply (rep_evolves _ T1 _ [id]); [done|intros i Hi ->%list_elem_of_singleton; by apply Hidc, Hsub|done]. }
  split_and!; try done.
  - eapply evolves_trans; [exact Ev2|exact Ep|]. rewrite ids_branch. set_solver.
  - apply rep_branch. split; [|done]. apply (at_node_rewrite _ T2 T' (Branch id cs)); try done; [|apply lookup_delete_eq].
    unfold T'. rewrite cur_put, decide_True by done. cbn [node_of]. apply view_branch; [unfold cs'; by rewrite length_fmap, length_insert|].
    apply Forall_fmap, list.Forall_forall. intros d Hd. eapply list.Forall_forall in Hkids; [|exact Hd]. cbn. destruct (is_empty d) eqn:Ed.
    + by destruct d.
    + pose proof (tid_in d Ed) as Hi. apply (rep_ids keccak256 T') in Hi; [unfold wire_ok; lia|done].
  - constructor; [unfold cs'; by rewrite length_insert|done|]. apply Forall_insert; [done|done].
  - rewrite find_branch, Hc. done.
  - intros k Hk Hko. by apply branch_find.
Qed.
(** One child is left. *)
Section collapse.
Context (l : content) (Hleaf : c = mk_leaf (tid c) key l) (j : nat) (d : tree) (Hj : cs' Empty !! j = Some d) (Hd : is_empty d = false)
  (Hdg : is_digest d = false) (Hsole : occupied (<[j := Empty]> (cs' Empty)) = 0%nat).
Definition lifted : tree := if is_branch d then Ext id [Z.of_nat j] d else folded id [Z.of_nat j] d.
Lemma sole_child : j ≠ Z.to_nat nib ∧ cs !! j = Some d ∧ (j < 16)%nat.
Proof using All.
  assert (Hlt : (Z.to_nat nib < length cs)%nat) by (unfold nibble_ok in Hnib; lia).
  assert (Hne : j ≠ Z.to_nat nib).
  { intros ->. unfold cs' in Hj. rewrite list_lookup_insert_eq in Hj by done. injection Hj as <-. done. }
  unfold cs' in Hj. rewrite list_lookup_insert_ne in Hj by done. split_and!; [done|done|]. apply lookup_lt_Some in Hj. lia.
Qed.
Lemma lifted_find k : length k = S n0 → path_ok k → find lifted k = if decide (k = nib :: key) then Absent else find (Branch id cs) k.
Proof using All.
  intros Hk Hko. destruct sole_child as (Hne & Hcj & Hj16). rewrite <- (branch_find Empty); try done.
  2: { exists l. rewrite Hleaf, find_leaf. by rewrite decide_True. }
  2: { intros k' _ _. rewrite Hleaf, find_leaf. cbn [find]. destruct (decide (k' = key)) as [->|]; [done|]. rewrite decide_False; [done|]. congruence. }
  destruct k as [|x k]; [done|]. inversion Hko as [|? ? Hx Hko']; subst. rewrite find_branch.
  assert (Hl : find lifted (x :: k) = if decide (x = Z.of_nat j) then find d k else Absent).
  { unfold lifted. destruct (is_branch d) eqn:Eb; [rewrite find_ext|rewrite find_folded].
    1,2: change (take (length [Z.of_nat j]) (x :: k)) with [x]; change (drop (length [Z.of_nat j]) (x :: k)) with k; repeat case_decide; congruence.
    by apply node_kind. }
  rewrite Hl. destruct (decide (x = Z.of_nat j)) as [->|Hx'].
  - rewrite Nat2Z.id, Hj. done.
  - destruct (cs' Empty !! Z.to_nat x) as [e|] eqn:Ee; [|done]. assert (e = Empty) as ->; [|done].
    apply (occupied_zero _ (Z.to_nat x) e Hsole). rewrite list_lookup_insert_ne; [done|]. unfold nibble_ok in Hx. lia.
Qed.
Lemma branch_collapses : let T2 := forget id T in ∃ T',
  (single_child ← mvalue ((tid <$> cs' Empty) !! j); child ← get_current single_child; nd ← match_ child;
   match nd with
   | NullView => mabort
   | BranchView _ => put_ext id [Z.of_nat j] single_child;; mret Modified
   | _ => fold_ext_node_path_maybe id [Z.of_nat j] child;; mret Modified
   end) T2 = Ok (Modified, T') ∧ erased acct (S n0) (Branch id cs) (nib :: key) T T' lifted.
Proof using All.
  intros T2. destruct sole_child as (Hne & Hcj & Hj16). pose proof (an_id _ _ _ Ht) as Hid. cbn [tid] in Hid.
  destruct (above T T (Branch id cs) [] HT Ht eq_refl (evolves_refl T [] HT) eq_refl) as (A2 & H2 & Ev2 & N2 & Ev12); [set_solver..|]. cbn [tid] in *. fold T2 in A2, H2, Ev2, N2, Ev12.
  pose proof Hnd as Hnd'. rewrite ids_branch in Hnd'. apply list.NoDup_cons in Hnd' as [Hid0 Hnd0].
  assert (Hdin : d ∈ cs) by (by apply list_elem_of_lookup_2 in Hcj). assert (Hidd : id ∉ ids d) by (intros ?; apply Hid0; by apply (kids_ids cs d)).
  assert (Hrd : rep T2 d).
  { apply (rep_evolves _ T _ [id]); [done|by intros i Hi ->%list_elem_of_singleton|]. by apply (Forall_lookup_1 _ _ _ _ Hcs Hcj). }
  pose proof (Forall_lookup_1 _ _ _ _ Hwfs Hcj) as Hwd. assert (Hpre : path_ok [Z.of_nat j]) by (constructor; [unfold nibble_ok; lia|done]).
  assert (At : at_node T2 d) by (destruct d; [done|by inversion Hrd..]). destruct (erase_enter _ _ At) as (b & R1 & R2 & V).
  rewrite list_lookup_fmap, Hj. cbn [fmap option_fmap option_map]. rewrite run_mvalue, (bind_Ok_eq _ _ _ _ _ R1), (bind_Ok_eq _ _ _ _ _ R2).
  assert (Hfound : ∃ l0, find (Branch id cs) (nib :: key) = Found l0) by (exists l; rewrite find_branch, Hc, Hleaf, find_leaf; by rewrite decide_True).
  assert (Hndd : NoDup (ids d)) by (rewrite (ids_list_pick cs j d Hcj) in Hnd0; by apply list.NoDup_app in Hnd0 as (? & _ & _)).
  assert (Hsub : ∀ i, i ∈ ids d → i ∈ ids (Branch id cs)) by (intros i Hi; rewrite ids_branch; right; by apply (kids_ids cs d)).
  pose proof lifted_find as Hfind. unfold lifted in *. destruct (is_branch d) eqn:Eb.
  - assert (Hwire : wire_ok (tid d)) by (apply (part_wire keccak256 d T2 Hrd); by apply branch_branching).
    set (bytes := ext_bytes [Z.of_nat j] (tid d)). exists (put id bytes T2). split.
    { destruct d; try done. cbn [node_of]. unfold put_ext. rewrite run_bind_bind. rewrite (bind_Ok_eq _ _ _ _ _ (append_ext_run [Z.of_nat j] _ T2 ltac:(done) Hwire)).
      by rewrite (bind_Ok_eq _ _ _ _ _ (put_node_old id _ T2 ltac:(unfold NULL_ID; lia))). }
    pose proof (put_evolves id bytes T2 (proj1 Ev2) ltac:(unfold NULL_ID; lia) ltac:(lia)) as Ep. split_and!; try done.
    + eapply evolves_trans; [exact Ev2|exact Ep|]. rewrite ids_branch. set_solver.
    + apply rep_ext. split.
      * apply (at_node_rewrite _ T2 _ (Branch id cs)); try done; [|apply lookup_delete_eq]. rewrite cur_put, decide_True by done. by apply view_ext.
      * apply (rep_evolves _ T2 _ [id]); [done|by intros i Hi ->%list_elem_of_singleton|done].
    + apply (wf_Ext acct n0 id [Z.of_nat j] d); [cbn; lia|done|by apply branch_branching|done].
    + rewrite ids_ext. by apply list.NoDup_cons.
    + intros i [->|Hi]%elem_of_cons; [rewrite ids_branch; by left|auto].
  - pose proof (node_kind d Hd Hdg Eb) as Hfo.
    destruct (fold_run T2 acct n0 id [Z.of_nat j] d b ltac:(unfold NULL_ID; lia) Hfo Hrd Hwd Hpre Hn V) as (b' & Rf & Vf).
    exists (put id b' T2). split. { destruct d; try done; cbn [node_of]; by rewrite (bind_Ok_eq _ _ _ _ _ Rf). }
    pose proof (put_evolves id b' T2 (proj1 Ev2) ltac:(unfold NULL_ID; lia) ltac:(lia)) as Ep. split_and!; try done.
    + eapply evolves_trans; [exact Ev2|exact Ep|]. rewrite ids_branch. set_solver.
    + by destruct d.
    + apply (folded_rep T2 (Branch id cs)); try done. exact (proj1 Ev2).
    + apply (wf_folded acct n0 id [Z.of_nat j] d); done.
    + by destruct d.
    + by destruct d.
    + rewrite ids_folded by done. rewrite ids_kids in Hndd, Hidd by done. apply list.NoDup_cons in Hndd as [_ ?]. apply list.NoDup_cons. split; [|done].
      intros ?. apply Hidd. by right.
    + intros i. rewrite ids_folded by done. intros [->|Hi]%elem_of_cons; [rewrite ids_branch; by left|]. apply Hsub. rewrite ids_kids by done. by right.
Qed.
End collapse.
End branch.
Lemma complete_branch id cs c : complete (Branch id cs) → c ∈ cs → complete c.
Proof.
  intros H Hc. apply list_elem_of_lookup in Hc as [j Hj]. unfold complete in *. inversion H as [|? ? _ H']; subst. apply list.Forall_forall. intros s Hs.
  rewrite list.Forall_forall in H'. apply H'. apply list_elem_of_In, in_concat. exists (nodes c). split; [|by apply list_elem_of_In].
  apply in_map, list_elem_of_In. by apply list_elem_of_lookup_2 in Hj.
Qed.
(** A branch whose child at [nib] was a leaf and is gone. *)
Lemma erase_branch_erased acct n0 id cs nib key c T l : store_ok T → at_node T (Branch id cs) → Forall (rep T) cs → NoDup (ids (Branch id cs)) →
  length cs = 16%nat → (2 <= occupied cs)%nat → Forall (wf acct n0) cs → nibble_ok nib → cs !! Z.to_nat nib = Some c → length key = n0 → path_ok key →
  Z.of_nat (S n0) <= MAX_PATH_NIBBLES → c = mk_leaf (tid c) key l →
  let children := <[Z.to_nat nib := NULL_ID]> (tid <$> cs) in
  let run := (forget_hash id;;
    let '(count, single) := count_children 0 children 0 0 in
    if (count =? 0)%nat then mret Erased
    else if (count =? 1)%nat then
      single_child ← mvalue (children !! single);
      child ← get_current single_child;
      nd ← match_ child;
      match nd with
      | NullView => mabort
      | BranchView _ => put_ext id [Z.of_nat single] single_child;; mret Modified
      | _ => fold_ext_node_path_maybe id [Z.of_nat single] child;; mret Modified
      end
    else put_branch id children;; mret Modified) T in
  (run = Abort ∧ ¬ complete (Branch id cs)) ∨ ∃ T' t', run = Ok (Modified, T') ∧ erased acct (S n0) (Branch id cs) (nib :: key) T T' t'.
Proof.
  intros HT Ht Hcs Hnd Hl16 Hocc Hwfs Hnib Hc Hkl Hok Hn Hleaf children run. pose proof (an_id _ _ _ Ht) as Hid. cbn [tid] in Hid.
  set (cs0 := <[Z.to_nat nib := Empty]> cs). assert (Ech : children = tid <$> cs0) by (unfold children, cs0; by rewrite list_fmap_insert).
  assert (Hce : is_empty c = false) by (rewrite Hleaf; by destruct l).
  pose proof (occupied_insert cs _ Empty c Hc) as Ho. fold cs0 in Ho. rewrite Hce in Ho. cbn [is_empty] in Ho.
  assert (Hne : Forall null_empty cs0).
  { apply Forall_insert; [|done]. eapply list.Forall_impl; [exact Hcs|]. intros d Hd. by apply (null_empty_rep T). }
  destruct (count_zero cs0 Hne 0) as [C1 C2]. unfold run. rewrite (bind_Ok_eq _ _ _ _ _ (forget_run id T)). rewrite Ech.
  destruct (decide (occupied cs0 = 1%nat)) as [E1|E1].
  - destruct (C1 E1) as (j & d & Ec & Hj & Hd & Hsole). rewrite Ec. cbn [Nat.eqb Nat.add]. destruct (is_digest d) eqn:Edg.
    + left. assert (Hdin : d ∈ cs).
      { unfold cs0 in Hj. apply list_lookup_insert_Some in Hj as [(_ & <- & _)|[_ Hj]]; [done|]. by apply list_elem_of_lookup_2 in Hj. }
      split.
      * rewrite list_lookup_fmap, Hj. cbn [fmap option_fmap option_map]. rewrite run_mvalue.
        eapply list.Forall_forall in Hcs; [|exact Hdin]. destruct d; try done. inversion Hcs as [|? ? Hdn _]; subst. pose proof (an_id _ _ _ Hdn) as Hdid. cbn [tid] in Hdid.
        assert (C : cur (forget id T) id0 = Some (DigestView h)) by (apply (an_cur _ _ _ Hdn)). destruct (read_node_run _ _ _ C) as (b & Eb & R1 & R2).
        cbn [tid]. rewrite (bind_Ok_eq _ _ _ _ _ R1), (bind_Ok_eq _ _ _ _ _ R2). unfold fold_ext_node_path_maybe.
        rewrite (proj2 (Z.eqb_neq id NULL_ID)) by (unfold NULL_ID; lia). cbn [negb]. rewrite run_bind_bind, run_massert, run_bind_bind.
        rewrite (bind_Ok_eq _ _ _ _ _ R2). by apply bind_Abort.
      * intros Hcom. pose proof (complete_branch id cs d Hcom Hdin) as Hdc. destruct d; try done. inversion Hdc as [|? ? E _]. by cbn in E.
    + right. destruct (branch_collapses acct n0 id cs nib key c T HT Ht Hcs Hnd Hl16 Hocc Hwfs Hnib Hc Hkl Hok Hn l Hleaf j d Hj Hd Edg Hsole) as (T' & R & Her).
      exists T'. eexists. split; [exact R|exact Her].
  - right. assert (Ho2 : (2 <= occupied cs0)%nat) by lia. pose proof (C2 Ho2) as Ec. destruct (count_children 0 (tid <$> cs0) 0 0) as [cnt sgl]. cbn [fst] in Ec. subst cnt.
    cbn [Nat.eqb]. unfold put_branch. rewrite (bind_Ok_eq _ _ _ _ _ (put_node_old id _ (forget id T) ltac:(unfold NULL_ID; lia))).
    do 2 eexists. split; [apply run_ret|].
    apply (branch_stays acct n0 id cs nib key c T HT Ht Hcs Hnd Hl16 Hocc Hwfs Hnib Hc Hkl Hok Hn T Empty); try done.
    + by apply evolves_refl.
    + constructor.
    + constructor.
    + intros i Hi. by apply not_elem_of_nil in Hi.
    + constructor.
    + exists l. rewrite Hleaf, find_leaf. by rewrite decide_True.
    + intros k _ _. rewrite Hleaf, find_leaf. cbn [find]. destruct (decide (k = key)) as [->|]; [done|]. rewrite decide_False; [done|]. congruence.
Qed.
Lemma erase_branch id cs : Forall erase_holds cs → erase_holds (Branch id cs).
Proof.
  intros IH. erase_start. apply rep_branch in Hrep as [Ht Hcs]. destruct (erase_enter _ _ Ht) as (b & R1 & R2 & _). unfold erase_spec. cbn [erase_node].
  rewrite (bind_Ok_eq _ _ _ _ _ R1), (bind_Ok_eq _ _ _ _ _ R2). cbn [node_of]. inversion Hwf as [| | | |? n0 ? ? Hl16 Hocc Hwfs|]; subst.
  destruct key as [|nib key]; [done|]. inversion Hok as [|? ? Hnib Hok']; subst. assert (n0 = length key) as -> by (cbn [length] in *; lia).
  rewrite (proj2 (Z.eqb_neq (len (nib :: key)) 0)) by (unfold len; cbn; lia). cbn [negb]. rewrite run_massert. unfold nibble. cbn [lookup list_lookup]. rewrite run_mvalue.
  destruct (lookup_lt_is_Some_2 cs (Z.to_nat nib)) as [c Hc]; [unfold nibble_ok in Hnib; lia|].
  rewrite list_lookup_fmap, Hc. cbn [fmap option_fmap option_map]. rewrite run_mvalue. rewrite find_branch, Hc.
  pose proof (Forall_lookup_1 _ _ _ _ IH Hc) as IHc. pose proof (Forall_lookup_1 _ _ _ _ Hcs Hc) as Hrc. pose proof (Forall_lookup_1 _ _ _ _ Hwfs Hc) as Hwc.
  assert (Hcin : c ∈ cs) by (by apply list_elem_of_lookup_2 in Hc). pose proof (null_empty_rep T c Hrc) as Hnull. unfold null_empty in Hnull.
  destruct (is_empty c) eqn:Ee.
  { right. left. rewrite (proj2 Hnull eq_refl). split; [done|]. by destruct c. }
  rewrite (proj2 (Z.eqb_neq _ _)) by (intros ?%Hnull; done). rewrite (bind_Ok_eq _ _ _ _ _ (substr_run (nib :: key) 1 T ltac:(cbn; lia))). cbn [drop skipn].
  assert (Hndc : NoDup (ids c)).
  { rewrite ids_branch in Hnd. apply list.NoDup_cons in Hnd as [_ Hnd]. rewrite (ids_list_pick cs _ c Hc) in Hnd. by apply list.NoDup_app in Hnd as (? & _ & _). }
  destruct (IHc fuel acct (length key) key T) as [[R C]|[[R F]|[[R [l El]]|(T1 & t1 & R & Her)]]]; try done.
  { cbn [length] in Hn. lia. } { cbn [length] in Hfuel. lia. }
  - left. split; [|intros ?; apply C; by apply (complete_branch id cs)]. by rewrite (bind_Abort _ _ _ R).
  - right. left. by rewrite (bind_Ok_eq _ _ _ _ _ R).
  - rewrite (bind_Ok_eq _ _ _ _ _ R). destruct (erase_branch_erased acct (length key) id cs nib key c T l) as [H|H]; try done; [by left|by do 3 right].
  - right. right. right. rewrite (bind_Ok_eq _ _ _ _ _ R). destruct Her as (Ev & N1 & Et & Hr1 & Hw1 & He1 & Hd1 & Hn1 & Hs1 & Hf1 & Hk1).
    pose proof (an_id _ _ _ Ht) as Hid. cbn [tid] in Hid. rewrite (bind_Ok_eq _ _ _ _ _ (forget_run id T1)).
    assert (Ech : tid <$> cs = tid <$> <[Z.to_nat nib := t1]> cs).
    { rewrite list_fmap_insert, Et. symmetry. apply list_insert_id. by rewrite list_lookup_fmap, Hc. }
    pose proof (occupied_insert cs _ t1 c Hc) as Ho. rewrite Ee, He1 in Ho. rewrite Ech.
    assert (Hne : Forall null_empty (<[Z.to_nat nib := t1]> cs)).
    { apply Forall_insert; [eapply list.Forall_impl; [exact Hcs|]; intros d Hd; by apply (null_empty_rep T)|by apply (null_empty_rep T1)]. }
    destruct (count_zero _ Hne 0) as [_ C2]. specialize (C2 ltac:(lia)). destruct (count_children 0 _ 0 0) as [cnt sgl]. cbn [fst] in C2. subst cnt. cbn [Nat.eqb].
    unfold put_branch. rewrite (bind_Ok_eq _ _ _ _ _ (put_node_old id _ (forget id T1) ltac:(unfold NULL_ID; lia))). do 2 eexists. split; [apply run_ret|].
    apply (branch_stays acct (length key) id cs nib key c T HT Ht Hcs Hnd Hl16 Hocc Hwfs Hnib Hc eq_refl Hok' Hn T1 t1); try done. lia.
Qed.
Lemma erase_ok t : erase_holds t.
Proof.
  induction t using tree_rect'; [apply erase_empty|apply (erase_leaf id p (CStorage v))|apply (erase_leaf id p (CAccount ch nb t))
    |by apply erase_ext|by apply erase_branch|apply erase_digest].
Qed.
End erase.
