(* ===== verification/OffsetTrieEncode.v ===== *)
(** * The encodings of the witness trie

    The encoders of the witness trie, which fill a buffer from its end, write
    the encoding of Ethereum: compact paths, the prefixes of strings and lists,
    and the values of leaves; and how long the encodings of nodes are. *)
From S2P Require Import Prelude Account Uint256Text Rlp RlpFacts OffsetTrie OffsetTrieNodes OffsetTrieTree OffsetTrieStore OffsetTrieUpsert.

(** ** Compact paths *)
Lemma get_nibble_cons2 b d i : get_nibble (b :: d) (S (S i)) = get_nibble d i.
Proof.
  unfold get_nibble. replace (S (S i) / 2)%nat with (S (i / 2))%nat; [done|].
  replace (S (S i)) with (i + 1 * 2)%nat by lia. rewrite Nat.div_add; lia.
Qed.
Lemma byte_nibbles r s : byte_ok r → byte_ok s → Z.shiftr r 4 = Z.shiftr s 4 → Z.land r 0xF = Z.land s 0xF → r = s.
Proof.
  intros _ _ H1 H2. rewrite !Z.shiftr_div_pow2 in H1 by lia. change 0xF with (Z.ones 4) in H2. rewrite !Z.land_ones in H2 by lia.
  rewrite (Z.div_mod r (2 ^ 4)), (Z.div_mod s (2 ^ 4)) by lia. by rewrite H1, H2.
Qed.
Lemma nibbles_ext a b : Forall byte_ok a → Forall byte_ok b → length a = length b →
  (∀ i, (i < 2 * length a)%nat → get_nibble a i = get_nibble b i) → a = b.
Proof.
  revert b. induction a as [|x a IH]; intros [|y b] Ha Hb Hl H; [done..|]. inversion Ha; inversion Hb; subst. cbn [length] in *. f_equal.
  - pose proof (H 0%nat ltac:(lia)) as H0. pose proof (H 1%nat ltac:(lia)) as H1. cbn in H0, H1. injection H0 as H0. injection H1 as H1. by apply byte_nibbles.
  - apply IH; [done..|lia|]. intros i Hi. rewrite <- (get_nibble_cons2 x a), <- (get_nibble_cons2 y b). apply H. lia.
Qed.
Lemma pairs_spec l : ∀ n, length l = (2 * n)%nat → path_ok l →
  length (pairs l) = n ∧ Forall byte_ok (pairs l) ∧ ∀ i, (i < 2 * n)%nat → get_nibble (pairs l) i = l !! i.
Proof.
  intros n. revert l. induction n as [|n IH]; intros l Hl Hok; [destruct l; [by split_and!; [|constructor|lia]|done]|].
  destruct l as [|a [|b l]]; [done|cbn in Hl; lia|]. inversion Hok as [|? ? Ha Hok1]; subst. inversion Hok1 as [|? ? Hb Hok2]; subst. cbn [pairs length] in *.
  destruct (IH l ltac:(lia) Hok2) as (H1 & H2 & H3). unfold nibble_ok in *.
  assert (Hbyte : byte_ok (16 * a + b)) by (unfold byte_ok; lia). split_and!; [lia|by constructor|].
  intros [|[|i]] Hi.
  - cbn. rewrite Z.shiftr_div_pow2 by lia. change (2 ^ 4) with 16. rewrite Z.add_comm, Z.mul_comm, Z.div_add, Z.div_small by lia. done.
  - cbn. change 15 with (Z.ones 4). rewrite Z.land_ones by lia. change (2 ^ 4) with 16. rewrite Z.add_comm, Z.mul_comm, Z.mod_add, Z.mod_small by lia. done.
  - rewrite get_nibble_cons2. cbn [lookup list_lookup]. apply H3. lia.
Qed.
(** the nibbles behind the first byte *)
Lemma set_nibbles_pairs b r path n : byte_ok b → Forall byte_ok r → length r = n → length path = (2 * n)%nat → path_ok path →
  set_nibbles (b :: r) 2 path = b :: pairs path.
Proof.
  intros Hb Hr Hl Hp Hok. destruct (pairs_spec path n Hp Hok) as (P1 & P2 & P3).
  assert (Hbr : Forall byte_ok (b :: r)) by (by constructor). apply nibbles_ext; [by apply set_nibbles_ok|by constructor| |].
  - rewrite length_set_nibbles. cbn [length]. lia.
  - rewrite length_set_nibbles. intros i Hi. cbn [length] in Hi. rewrite get_set_nibbles; [|cbn [length]|done|done].
    2: { rewrite Hp. replace (2 + 2 * n + 1)%nat with (1 + (S n) * 2)%nat by lia. rewrite Nat.div_add by lia. cbn. lia. }
    destruct i as [|[|i]]; [by rewrite decide_False by lia|by rewrite decide_False by lia|]. rewrite decide_True by lia.
    rewrite get_nibble_cons2, P3 by lia. f_equal. lia.
Qed.
Lemma even_odd n : (Nat.even n = true ∧ ∃ k, n = (2 * k)%nat ∧ (n / 2 = k)%nat) ∨ (Nat.even n = false ∧ ∃ k, n = (2 * k + 1)%nat ∧ (n / 2 = k)%nat).
Proof.
  destruct (Nat.even n) eqn:E; [left|right]; (split; [done|]).
  - apply Nat.even_spec in E as [k ->]. exists k. split; [done|]. rewrite Nat.mul_comm, Nat.div_mul; lia.
  - rewrite <- Nat.negb_odd, negb_false_iff in E. apply Nat.odd_spec in E as [k ->]. exists k. split; [done|]. symmetry. apply Nat.div_unique with 1%nat; lia.
Qed.
Lemma compact_encode_run {W} path leaf (w : W) r : path_ok path → (path ≠ [] ∨ leaf = true) → Forall byte_ok r → length r = (length path / 2 + 1)%nat →
  compact_encode_raw r path leaf w = Ok (OffsetTrieTree.compact path leaf, w).
Proof.
  intros Hok Hne Hr Hl. unfold compact_encode_raw, OffsetTrieTree.compact. destruct r as [|r0 r]; [cbn in Hl; lia|]. inversion Hr as [|? ? _ Hr']; subst. cbn [length] in Hl.
  assert (negb (len path =? 0) || leaf = true) as ->.
  { destruct Hne as [Hne| ->]; [|apply orb_true_r]. destruct path; [done|]. unfold len. cbn [length]. by rewrite (proj2 (Z.eqb_neq _ _)) by lia. }
  rewrite run_massert. cbn [insert list_insert]. destruct (even_odd (length path)) as [(-> & k & E & Ek)|(-> & k & E & Ek)]; rewrite Ek in Hl.
  - rewrite (set_nibbles_pairs _ r path k); [done|destruct leaf; unfold byte_ok; lia|done|lia|done|done].
  - destruct path as [|n0 path]; [cbn in E; lia|]. unfold nibble. cbn [lookup list_lookup length] in *.
    rewrite run_mvalue. inversion Hok as [|? ? Hn0 Hok']; subst. unfold nibble_ok in Hn0.
    cbn [list_lookup_total lookup_total hd tl drop skipn].
    assert (Hb : Z.lor (if leaf then 32 else 0) (Z.lor 16 n0) = (if leaf then 32 else 0) + 16 + n0).
    { assert (n0 = 0 ∨ n0 = 1 ∨ n0 = 2 ∨ n0 = 3 ∨ n0 = 4 ∨ n0 = 5 ∨ n0 = 6 ∨ n0 = 7 ∨ n0 = 8 ∨ n0 = 9 ∨ n0 = 10 ∨ n0 = 11 ∨ n0 = 12 ∨ n0 = 13 ∨ n0 = 14 ∨ n0 = 15) as Hc by lia.
      repeat (destruct Hc as [->|Hc]; [by destruct leaf|]). by subst; destruct leaf. }
    change (((if leaf then 32 else 0) :: r) !!! 0%nat) with (if leaf then 32 else 0). rewrite Hb, drop_0.
    rewrite (set_nibbles_pairs _ r path (S (length path) / 2)); [done|destruct leaf; unfold byte_ok; lia|done|lia|lia|done].
Qed.
Lemma compact_spec path leaf : path_ok path → len (OffsetTrieTree.compact path leaf) = Z.of_nat (length path / 2 + 1) ∧ default 0 (head (OffsetTrieTree.compact path leaf)) <= 0x3f.
Proof.
  intros Hok. unfold OffsetTrieTree.compact. destruct (even_odd (length path)) as [(-> & k & E & Ek)|(-> & k & E & Ek)]; rewrite Ek.
  - destruct (pairs_spec path k E Hok) as (E' & _). rewrite len_cons. unfold len. rewrite E'. split; [lia|destruct leaf; cbn; lia].
  - destruct path as [|n0 path]; [cbn in E; lia|]. apply list.Forall_cons in Hok as [Hn Hok']. cbn [length hd tl] in *.
    destruct (pairs_spec path k ltac:(lia) Hok') as (E' & _). rewrite len_cons. unfold len. rewrite E'. unfold nibble_ok in Hn. split; [lia|destruct leaf; cbn; lia].
Qed.

(** ** The encoders *)
Lemma prepend_run bytes dest T : len bytes + len dest <= MAX_NODE_RLP → prepend bytes dest T = Ok (bytes ++ dest, T).
Proof. intros H. unfold prepend. rewrite (proj2 (Z.leb_le _ _) H). done. Qed.
(** An RLP string of up to 55 bytes. *)
Lemma encode_string2_short s : len s <= 55 → encode_string2 s = if (len s =? 1) && (default 0 (head s) <=? 0x7f) then s else (0x80 + len s) :: s.
Proof.
  intros H. pose proof (len_nonneg s). unfold encode_string2, u32. rewrite Z.mod_small by lia. rewrite (proj2 (Z.ltb_ge 55 (len s))) || rewrite Z.gtb_ltb, (proj2 (Z.ltb_ge 55 (len s))) by lia. done.
Qed.
Lemma encode_string_is s : len s <= 55 → encode_string s = encode_string2 s.
Proof. intros H. rewrite encode_string2_short by done. unfold encode_string. by rewrite (proj2 (Z.leb_le (len s) 55)) by lia. Qed.
(** the prefix of a list, for every size that fits *)
Definition prefixes_agree (n : nat) : bool :=
  forallb (λ i, bool_decide (encode_list_prefix_compact (Z.of_nat i) =
    (if Z.of_nat i >? 55 then (0xf7 + len (to_big_compact 8 (Z.of_nat i))) :: to_big_compact 8 (Z.of_nat i) else [0xc0 + Z.of_nat i]))) (seq 0 n).
Lemma prefix_run s : len s <= MAX_NODE_RLP → encode_list_prefix_compact (len s) ++ s = encode_list2 [s] ∧ len (encode_list2 [s]) <= len s + 3 ∧ len s < len (encode_list2 [s]).
Proof.
  intros H. assert (Hall : prefixes_agree 701 = true) by (vm_compute; reflexivity).
  unfold prefixes_agree in Hall. rewrite forallb_forall in Hall. specialize (Hall (length s)).
  rewrite in_seq, bool_decide_eq_true in Hall. fold (len s) in Hall. unfold MAX_NODE_RLP in H.
  rewrite Hall by (unfold len in H; lia). unfold encode_list2. cbn [concat]. rewrite app_nil_r. pose proof (len_nonneg s).
  destruct (len s >? 55) eqn:E.
  - split; [done|]. rewrite len_cons, len_app. rewrite Z.gtb_ltb in E. apply Z.ltb_lt in E.
    pose proof (len_nonneg (to_big_compact 8 (len s))).
    assert (len (to_big_compact 8 (len s)) <= 2); [|lia].
    rewrite (to_big_compact_widen 2) by (cbn; lia). pose proof (to_big_compact_length 2 (len s)). lia.
  - split; [done|]. rewrite len_cons. lia.
Qed.
Lemma wrap_run s T : len s + 3 <= MAX_NODE_RLP → wrap s T = Ok (encode_list2 [s], T).
Proof.
  intros H. pose proof (prefix_run s ltac:(lia)) as (E1 & E2 & _). unfold wrap. rewrite prepend_run, E1; [done|]. rewrite <- len_app, E1. lia.
Qed.
Lemma zeros_ok n : Forall byte_ok (replicate n 0).
Proof. induction n; constructor; [unfold byte_ok; lia|done]. Qed.
Lemma encode_path_run dest path leaf T : path_ok path → (path ≠ [] ∨ leaf = true) → len path <= MAX_PATH_NIBBLES → len dest + 34 <= MAX_NODE_RLP →
  encode_path dest path leaf T = Ok (encode_string2 (OffsetTrieTree.compact path leaf) ++ dest, T) ∧
  len (encode_string2 (OffsetTrieTree.compact path leaf)) <= 34 ∧ Z.of_nat (length path / 2 + 1) <= len (encode_string2 (OffsetTrieTree.compact path leaf)).
Proof.
  intros Hok Hne Hl Hd. destruct (compact_spec path leaf Hok) as [C1 C2]. unfold MAX_PATH_NIBBLES in *. unfold len in Hl.
  assert (Hlp : (length path / 2 <= 32)%nat) by (apply (Nat.Div0.div_le_mono _ 64 2); lia).
  unfold encode_path. rewrite (bind_Ok_eq _ _ _ _ _ (compact_encode_run path leaf T _ Hok Hne (zeros_ok _) (length_replicate _ _))).
  rewrite (bind_Ok_eq _ _ _ _ _ (prepend_run (OffsetTrieTree.compact path leaf) dest T ltac:(lia))). rewrite encode_string2_short by lia.
  destruct (Nat.ltb_spec 1 (length path / 2 + 1)) as [Hlt|Hge].
  - rewrite (proj2 (Z.eqb_neq (len _) 1)) by lia. cbn [andb]. rewrite len_cons. split; [|lia]. rewrite prepend_run; [by rewrite C1|]. rewrite len_app. unfold len at 1. cbn [length]. lia.
  - rewrite (proj2 (Z.eqb_eq (len _) 1)) by lia. rewrite (proj2 (Z.leb_le _ 127)) by lia. cbn [andb]. split; [done|]. lia.
Qed.
Lemma hash_rlp_len h : len (hash_rlp h) = 33.
Proof. unfold hash_rlp, len. cbn [length]. by rewrite be_bytes_length. Qed.
Lemma encode_hash_is h : encode_string (be_bytes 32 h) = hash_rlp h.
Proof. unfold encode_string, len. rewrite be_bytes_length. done. Qed.

(** ** The values of leaves *)
Lemma zeroless_32 v : len (zeroless_view (be_bytes 32 v)) <= 32.
Proof. etrans; [apply zeroless_length|]. unfold len. by rewrite be_bytes_length. Qed.
Lemma storage_value_run v T : let val := zeroless_view (be_bytes 32 v) in
  (dest ← prepend (encode_string val) [];
   if negb ((len val =? 1) && (default 0 (head val) <=? 0x7f)) then prepend [0x80 + string_length val] dest else mret dest) T =
    Ok (encode_string2 (storage_value v), T).
Proof.
  intros val. pose proof (zeroless_32 v : len val <= 32) as Hv. pose proof (len_nonneg val). unfold storage_value. fold val.
  rewrite encode_string_is by lia. rewrite (encode_string2_short val) by lia. unfold string_length.
  destruct ((len val =? 1) && (default 0 (list.head val) <=? 127)) eqn:E; cbn [negb].
  - rewrite (bind_Ok_eq _ _ _ _ _ (prepend_run val [] T ltac:(unfold MAX_NODE_RLP; change (len []) with 0; lia))). rewrite app_nil_r.
    rewrite encode_string2_short, E by lia. done.
  - rewrite (bind_Ok_eq _ _ _ _ _ (prepend_run ((0x80 + len val) :: val) [] T ltac:(rewrite len_cons; unfold MAX_NODE_RLP; change (len []) with 0; lia))). rewrite app_nil_r.
    rewrite (proj2 (Z.leb_le (len val) 55)) by lia. rewrite prepend_run by (rewrite !len_cons; unfold MAX_NODE_RLP; change (len []) with 0; lia).
    rewrite encode_string2_short by (rewrite len_cons; lia). rewrite len_cons. cbn [head default app].
    unfold id. rewrite (proj2 (Z.leb_gt (128 + len val) 127)) by lia. by rewrite andb_false_r.
Qed.
Lemma storage_value_len v : 1 <= len (encode_string2 (storage_value v)) <= 34.
Proof.
  pose proof (zeroless_32 v) as Hv. pose proof (encode_string2_nonempty (storage_value v)). unfold storage_value in *. set (val := zeroless_view _) in *.
  assert (len (encode_string2 val) <= 33) as H1 by (rewrite encode_string2_short by lia; destruct (_ && _); rewrite ?len_cons; lia).
  split; [lia|]. rewrite encode_string2_short by lia. destruct (_ && _); rewrite ?len_cons; lia.
Qed.
Lemma account_run ch nb r T : length ch = HASH_RLP_LEN → 2 <= len nb <= MAX_NONCE_BALANCE_RLP_LEN →
  let account := encode_list2 [nb ++ hash_rlp r ++ ch] in
  wrap (nb ++ hash_rlp r ++ ch) T = Ok (account, T) ∧ 55 < len account <= 0xff ∧ account = account_value ch nb r ∧
  encode_string2 (account_value ch nb r) = 0xb8 :: len account :: account ∧ len account <= 111.
Proof.
  intros Hch Hnb account. unfold MAX_NONCE_BALANCE_RLP_LEN, HASH_RLP_LEN in *.
  assert (Hl : len (nb ++ hash_rlp r ++ ch) = len nb + 66) by (rewrite !len_app, hash_rlp_len; unfold len in *; lia).
  pose proof (prefix_run (nb ++ hash_rlp r ++ ch) ltac:(unfold MAX_NODE_RLP; lia)) as (_ & P2 & P3). fold account in P2, P3.
  assert (account = account_value ch nb r) as Ea by (unfold account_value; rewrite encode_list2_concat; cbn [concat]; by rewrite app_nil_r).
  split_and!; [apply wrap_run; unfold MAX_NODE_RLP; lia|lia|lia|done| |lia].
  rewrite <- Ea. unfold encode_string2, u32. rewrite (Z.mod_small (len account)) by lia. rewrite (proj2 (Z.eqb_neq (len account) 1)) by lia. cbn [andb].
  rewrite (proj2 (Z.gtb_lt _ _)) by lia. assert (to_big_compact 4 (len account) = [len account]) as ->; [|done].
  change (len account) with (be_val [len account]) at 1. apply to_big_compact_unique; [|unfold RlpFacts.compact; lia|unfold len; cbn; lia].
  constructor; [unfold byte_ok; lia|constructor].
Qed.

(** ** How long encodings are *)
Section lengths.
Context {HB : Branches} (keccak256 : list Z → Z).
Abbreviation rlp := (rlp keccak256).
Abbreviation ref := (ref keccak256).
Abbreviation root_hash := (root_hash keccak256).
Lemma rlp_ext id p c : rlp (Ext id p c) = encode_list2 [encode_string2 (OffsetTrieTree.compact p false) ++ ref c].
Proof. change (rlp (Ext id p c)) with (encode_list2 [encode_string2 (OffsetTrieTree.compact p false); ref c]). rewrite encode_list2_concat. cbn [concat]. by rewrite app_nil_r. Qed.
Lemma rlp_branch id cs : rlp (Branch id cs) = encode_list2 [concat (map ref cs) ++ [0x80]].
Proof. change (rlp (Branch id cs)) with (encode_list2 (map ref cs ++ [[0x80]])). by rewrite encode_list2_concat, concat_app. Qed.
Lemma rlp_sleaf id p v : rlp (SLeaf id p v) = encode_list2 [encode_string2 (OffsetTrieTree.compact p true) ++ encode_string2 (storage_value v)].
Proof. cbn [OffsetTrieTree.rlp]. rewrite encode_list2_concat. cbn [concat]. by rewrite app_nil_r. Qed.
Lemma rlp_aleaf id p ch nb st : rlp (ALeaf id p ch nb st) =
  encode_list2 [encode_string2 (OffsetTrieTree.compact p true) ++ encode_string2 (account_value ch nb (root_hash st))].
Proof.
  change (rlp (ALeaf id p ch nb st)) with (encode_list2 [encode_string2 (OffsetTrieTree.compact p true); encode_string2 (account_value ch nb (root_hash st))]).
  rewrite encode_list2_concat. cbn [concat]. by rewrite app_nil_r.
Qed.
Lemma ref_node t : is_empty t = false → is_digest t = false → ref t = short keccak256 (rlp t) ∧ root_hash t = keccak256 (rlp t).
Proof. by destruct t. Qed.
Lemma encode_list2_one_nonempty s : 0 < len (encode_list2 [s]).
Proof. pose proof (len_nonneg s). unfold encode_list2. cbn [concat]. rewrite app_nil_r. destruct (_ >? _); rewrite len_cons, ?len_app; [pose proof (len_nonneg (to_big_compact 8 (len s))); lia|lia]. Qed.
Lemma ref_len t : 1 <= len (ref t) <= 33.
Proof.
  destruct (is_empty t) eqn:E; [by destruct t|]. destruct (is_digest t) eqn:D; [destruct t; try done; cbn [OffsetTrieTree.ref]; rewrite hash_rlp_len; lia|].
  rewrite (proj1 (ref_node t E D)). unfold short. destruct (Z.ltb_spec (len (rlp t)) 32) as [H|H]; [|rewrite hash_rlp_len; lia].
  assert (0 < len (rlp t)); [|lia]. destruct t; try done; rewrite ?rlp_ext, ?rlp_branch, ?rlp_sleaf, ?rlp_aleaf; apply encode_list2_one_nonempty.
Qed.
Lemma refs_len cs : Z.of_nat (length cs) <= len (concat (map ref cs)) <= 33 * Z.of_nat (length cs).
Proof. induction cs as [|c cs IH]; [done|]. cbn [map concat length]. rewrite len_app. pose proof (ref_len c). lia. Qed.
(** A node whose keys are [n] nibbles long spells them somewhere below it, or
    its encoding is long enough for a hash. *)
Definition long_enough (n : nat) (l : list Z) : Prop := Z.of_nat (n / 2) + 3 <= len l ∨ 32 <= len l.
Lemma ref_long n t : is_empty t = false → (is_digest t = false → long_enough n (rlp t)) → long_enough n (ref t).
Proof.
  intros E H. destruct (is_digest t) eqn:D; [destruct t; try done; right; cbn [OffsetTrieTree.ref]; rewrite hash_rlp_len; lia|].
  rewrite (proj1 (ref_node t E D)). unfold short. destruct (Z.ltb_spec (len (rlp t)) 32); [by apply H|right; rewrite hash_rlp_len; lia].
Qed.
Lemma refs_long n cs : (0 < occupied cs)%nat → Forall (λ t, is_empty t = false → long_enough n (ref t)) cs →
  long_enough n (concat (map ref cs)).
Proof.
  intros Ho H. induction H as [|c cs Hc H IH]; [cbn in Ho; lia|]. rewrite occupied_cons in Ho. cbn [map concat]. unfold long_enough in *. rewrite len_app.
  pose proof (ref_len c). pose proof (refs_len cs). destruct (is_empty c); [specialize (IH ltac:(lia)); lia|specialize (Hc eq_refl); lia].
Qed.
Lemma list_longer s : len s <= MAX_NODE_RLP → len s + 1 <= len (encode_list2 [s]).
Proof. intros H. pose proof (prefix_run s H). lia. Qed.
Lemma half_sum a b : (0 < a)%nat → ((a + b) / 2 <= a / 2 + b / 2 + 1)%nat.
Proof. intros _. pose proof (Nat.div_mod_eq a 2). pose proof (Nat.div_mod_eq b 2). pose proof (Nat.div_mod_eq (a + b) 2). pose proof (Nat.mod_upper_bound a 2). pose proof (Nat.mod_upper_bound b 2). lia. Qed.
Lemma rlp_long t : ∀ acct n, wf acct n t → Z.of_nat n <= MAX_PATH_NIBBLES → is_empty t = false → is_digest t = false → long_enough n (rlp t).
Proof.
  induction t as [|id p v|id p ch nb st _|id p c IH|id cs IH|id h] using tree_rect'; intros acct n Hwf Hn E D; try done.
  - inversion Hwf; subst. rewrite rlp_sleaf. pose proof (storage_value_len v). destruct (encode_path_run [] p true (mkOffsetTrie [] ∅ ∅ 0 0)) as (_ & P1 & P2); try done; [by right|].
    pose proof (list_longer (encode_string2 (OffsetTrieTree.compact p true) ++ encode_string2 (storage_value v))) as L. rewrite len_app in L.
    left. unfold MAX_NODE_RLP in L. lia.
  - inversion Hwf; subst. rewrite rlp_aleaf. destruct (account_run ch nb (root_hash st) (mkOffsetTrie [] ∅ ∅ 0 0)) as (_ & A1 & _ & A2 & A3); try done.
    destruct (encode_path_run [] p true (mkOffsetTrie [] ∅ ∅ 0 0)) as (_ & P1 & P2); try done; [by right|].
    pose proof (list_longer (encode_string2 (OffsetTrieTree.compact p true) ++ encode_string2 (account_value ch nb (root_hash st)))) as L. rewrite A2, len_app, !len_cons in L.
    right. rewrite A2. unfold MAX_NODE_RLP in L. lia.
  - inversion Hwf as [| | |? n0 ? ? ? Hp0 Hpo Hbr Hw0| |]; subst. rewrite rlp_ext. unfold MAX_PATH_NIBBLES in Hn.
    destruct (encode_path_run [] p false (mkOffsetTrie [] ∅ ∅ 0 0)) as (_ & P1 & P2); try done; [left; intros ->; cbn in Hp0; lia|unfold len, MAX_PATH_NIBBLES; lia|].
    pose proof (ref_long n0 c (branch_not_empty _ Hbr) ltac:(intros; by apply (IH acct n0 Hw0 ltac:(unfold MAX_PATH_NIBBLES; lia) (branch_not_empty _ Hbr)))) as R. pose proof (ref_len c).
    pose proof (list_longer (encode_string2 (OffsetTrieTree.compact p false) ++ ref c)) as L. rewrite len_app in L. unfold MAX_NODE_RLP in L.
    pose proof (half_sum (length p) n0 Hp0). unfold long_enough in *. lia.
  - inversion Hwf as [| | | |? n0 ? ? Hl Ho Hwfs|]; subst. rewrite rlp_branch.
    assert (R : long_enough n0 (concat (map ref cs))).
    { apply refs_long; [lia|]. apply list.Forall_forall. intros c Hc Ec. apply ref_long; [done|]. intros Dc.
      eapply list.Forall_forall in IH; [|exact Hc]. eapply list.Forall_forall in Hwfs; [|exact Hc]. apply (IH acct); [done|lia|done|done]. }
    pose proof (refs_len cs). pose proof (list_longer (concat (map ref cs) ++ [0x80])) as L. rewrite len_app in L. unfold MAX_NODE_RLP in L. change (len [128]) with 1 in L.
    pose proof (half_sum 1 n0 ltac:(lia)) as Hs. change (1 + n0)%nat with (S n0) in Hs. change (1 / 2)%nat with 0%nat in Hs. unfold long_enough in *. lia.
Qed.
Lemma root_long acct t : wf acct 64 t → is_empty t = false → is_digest t = false → 32 <= len (rlp t).
Proof. intros Hwf E D. destruct (rlp_long t acct 64 Hwf ltac:(done) E D) as [H|H]; [change (64 / 2)%nat with 32%nat in H; lia|done]. Qed.
End lengths.
