(* ===== verification/OffsetTrieHash.v ===== *)
(** * The hashes of the witness trie

    [hash] and [state_root] on a store that holds a canonical tree return the
    Merkle root of the tree, and what they cache are hashes of nodes of the
    tree: the digests copied in runs and the cached hashes do not change what
    is computed. *)
From S2P Require Import Prelude Account Uint256Text Rlp RlpFacts OffsetTrie OffsetTrieNodes OffsetTrieTree OffsetTrieStore OffsetTrieUpsert OffsetTrieErase OffsetTrieEncode.

(** ** Stores with more hashes *)
(** [T'] is [T] with other cached hashes at ids in [X]. *)
Definition hashed (T T' : OffsetTrie) (X : list Z) : Prop := evolves T T' X ∧ ∃ m, T' = set_hashes m T.
Lemma hashed_refl T X : store_ok T → hashed T T X.
Proof. intros H. split; [by apply evolves_refl|]. exists (hashes_ T). by destruct T. Qed.
Lemma hashed_mono T T' X Y : hashed T T' X → (∀ id, id ∈ X → id ∈ Y) → hashed T T' Y.
Proof. intros [E M] H. split; [|done]. by apply (evolves_mono _ _ X). Qed.
Lemma hashed_trans T1 T2 T3 X Y : hashed T1 T2 X → hashed T2 T3 Y → hashed T1 T3 (X ++ Y).
Proof.
  intros [E1 [m ->]] [E2 [m' ->]]. split; [|by exists m']. eapply evolves_trans; [apply (evolves_mono _ _ X); [done|]|exact E2|]; set_solver.
Qed.
Lemma slice_glue p a n m x y : slice p a n = Some x → slice p (a + n) m = Some y → slice p a (n + m) = Some (x ++ y).
Proof.
  unfold slice. destruct (Nat.leb_spec (a + n) (length p)); [|done]. destruct (Nat.leb_spec (a + n + m) (length p)); [|done].
  intros [= <-] [= <-]. rewrite (proj2 (Nat.leb_le _ _)) by lia. f_equal. rewrite <- (take_drop n (take (n + m) (drop a p))) at 1. f_equal.
  - rewrite take_take. f_equal. lia.
  - rewrite skipn_firstn_comm, drop_drop. f_equal. lia.
Qed.

Lemma slice_head p a n x l : slice p a n = Some (x :: l) → p !! a = Some x.
Proof.
  unfold slice. destruct (Nat.leb_spec (a + n) (length p)); [|done]. intros [= H1]. destruct n; [done|].
  rewrite <- (Nat.add_0_r a), <- lookup_drop. destruct (drop a p); [done|]. cbn in *. congruence.
Qed.

Section hashing.
Context {HB : Branches} (keccak256 : list Z → Z).
Abbreviation at_node := (at_node keccak256).
Abbreviation rep := (rep keccak256).
Abbreviation ref := (ref keccak256).
Abbreviation rlp := (rlp keccak256).
Abbreviation root_hash := (root_hash keccak256).
Abbreviation child_ref := (child_ref keccak256).
Abbreviation hash := (hash keccak256).

Lemma rep_node T t : rep T t → is_empty t = false → at_node T t.
Proof. intros H E. destruct t; [done|by inversion H..]. Qed.
Lemma rep_apart T T' X c : hashed T T' X → (∀ id, id ∈ ids c → id ∉ X) → rep T c → rep T' c.
Proof. intros [E _]. by apply rep_evolves. Qed.
Lemma hashed_at T T' X s : hashed T T' X → at_node T s → tid s ∉ X → at_node T' s.
Proof.
  intros [[_ A] _] Hs Hn. apply (at_node_agree _ T); [|done]. apply (agree_mono _ _ _ _ A). intros i ->. split; [|done]. by apply (an_id _ _ _ Hs).
Qed.

(** ** Runs of digests *)
Lemma digest_at_run T d : rep T d → digest_at (tid d) T = Ok (is_digest d, T).
Proof.
  intros Hr. unfold digest_at. destruct (is_empty d) eqn:E; [by destruct d|]. pose proof (rep_node _ _ Hr E) as A. pose proof (an_id _ _ _ A) as Hid.
  rewrite (proj2 (Z.eqb_neq (tid d) 0)) by lia. cbn [negb andb]. pose proof (an_original _ _ _ A) as Ho. unfold original_ok in Ho.
  destruct (tid d <? OVERLAY_BASE); [|by rewrite Ho]. destruct Ho as [Hb Ho]. unfold get_original. change ((mget ≫= ?k) T) with (k T T).
  rewrite run_bind_bind. change ((mget ≫= ?k) T) with (k T T). cbn beta. rewrite Hb, orb_true_r, run_bind_bind, run_massert. autorewrite with run. do 2 f_equal.
  rewrite lookup_drop, Nat.add_0_r. destruct d; cbn [is_digest]; try (apply bool_decide_eq_false_2, Ho).
  apply bool_decide_eq_true_2. by eapply slice_head.
Qed.
(** The digests left of a run that belong to it, and what the run copies. *)
Lemma digest_run_run T cs : Forall (rep T) cs → ∀ next n X, slice (blob_ T) (Z.to_nat next) (n * HASH_RLP_LEN) = Some X →
  ∃ cs1 ds lo, cs = cs1 ++ ds ∧ digest_run (rev (tid <$> cs)) next n T = Ok ((rev (tid <$> cs1), lo, n + length ds)%nat, T) ∧
    slice (blob_ T) (Z.to_nat lo) ((n + length ds) * HASH_RLP_LEN) = Some (concat (map ref ds) ++ X).
Proof.
  induction cs as [|c cs IH] using rev_ind; intros Hr next n X HX.
  - exists [], [], next. by rewrite Nat.add_0_r.
  - apply Forall_app in Hr as [Hr Hc]. inversion Hc as [|? ? Hc' _]; subst. rewrite fmap_app, rev_app_distr. cbn [fmap list_fmap rev app digest_run].
    destruct (Z.eqb_spec (tid c + 33) next) as [E|E].
    2: { exists (cs ++ [c]), [], next. rewrite app_nil_r, Nat.add_0_r, fmap_app, rev_app_distr. done. }
    rewrite (bind_Ok_eq _ _ _ _ _ (digest_at_run T c Hc')). destruct (is_digest c) eqn:D.
    2: { exists (cs ++ [c]), [], next. rewrite app_nil_r, Nat.add_0_r, fmap_app, rev_app_distr. done. }
    assert (A : at_node T c) by (apply rep_node; [done|by destruct c]). pose proof (an_original _ _ _ A) as Ho. pose proof (an_id _ _ _ A) as Hid. unfold original_ok in Ho.
    destruct (tid c <? OVERLAY_BASE); [|congruence]. destruct Ho as [_ Ho]. destruct c; try done. cbn [tid] in *.
    destruct (IH Hr id (S n) (hash_rlp h ++ X)) as (cs1 & ds & lo & -> & R & S1).
    { cbn [Nat.mul]. apply slice_glue; [done|]. replace (Z.to_nat id + HASH_RLP_LEN)%nat with (Z.to_nat next) by (unfold HASH_RLP_LEN; lia). done. }
    exists cs1, (ds ++ [Digest id h]), lo. rewrite <- app_assoc. split; [done|]. rewrite length_app, (map_app ref), concat_app. cbn [length map concat OffsetTrieTree.ref].
    rewrite app_nil_r, <- app_assoc. replace (n + (length ds + 1))%nat with (S n + length ds)%nat by lia. done.
Qed.

(** ** The children of a branch *)
(** What [child_ref] does for one child. *)
Definition ref_spec (cr : Z → list Z → M OffsetTrie (list Z)) (c : tree) : Prop := ∀ T dest, store_ok T → rep T c → len dest + 33 <= MAX_NODE_RLP →
  ∃ T', cr (tid c) dest T = Ok (ref c ++ dest, T') ∧ hashed T T' (ids c) ∧ rep T' c.
Lemma ids_list_app cs ds : ids_list (cs ++ ds) = ids_list cs ++ ids_list ds.
Proof. unfold ids_list. by rewrite map_app, concat_app. Qed.
Lemma reps_apart T T' X cs : hashed T T' X → (∀ id, id ∈ ids_list cs → id ∉ X) → Forall (rep T) cs → Forall (rep T') cs.
Proof.
  intros H HX Hcs. induction Hcs as [|c cs Hc Hcs IH]; [done|]. rewrite ids_list_cons in HX. constructor; [|apply IH; set_solver].
  apply (rep_apart T _ X); [done| |done]. set_solver.
Qed.
Lemma encode_children_run cr fuel : ∀ cs T dest, (length cs <= fuel)%nat → store_ok T → Forall (rep T) cs → NoDup (ids_list cs) → Forall (ref_spec cr) cs →
  len dest + 33 * Z.of_nat (length cs) <= MAX_NODE_RLP →
  ∃ T', encode_children cr fuel (rev (tid <$> cs)) dest T = Ok (concat (map ref cs) ++ dest, T') ∧ hashed T T' (ids_list cs) ∧ Forall (rep T') cs.
Proof.
  induction fuel as [|fuel IH]; intros cs T dest Hl HT Hr Hnd Hs Hd.
  { destruct cs; [|cbn in Hl; lia]. exists T. split; [done|]. split; [by apply hashed_refl|done]. }
  destruct cs as [|c cs _] using rev_ind; [exists T; split; [done|split; [by apply hashed_refl|done]]|].
  rewrite fmap_app, rev_app_distr. cbn [fmap list_fmap rev app encode_children]. apply Forall_app in Hr as [Hr Hc]. apply Forall_app in Hs as [Hs Hsc].
  apply list.Forall_cons in Hc as [Hc _]. apply list.Forall_cons in Hsc as [Hsc _]. rewrite length_app in Hl, Hd. cbn [length] in Hl, Hd.
  rewrite (bind_Ok_eq _ _ _ _ _ (digest_at_run T c Hc)). rewrite ids_list_app in Hnd |- *. assert (ids_list [c] = ids c) as Ec by apply app_nil_r. rewrite Ec in Hnd |- *.
  apply list.NoDup_app in Hnd as (Hnd1 & Hnd2 & _). destruct (is_digest c) eqn:D.
  - destruct c; try done. cbn [tid].
    assert (A : at_node T (Digest id h)) by (by apply rep_node). pose proof (an_original _ _ _ A) as Ho. unfold original_ok in Ho.
    destruct (tid (Digest id h) <? OVERLAY_BASE); [|done]. destruct Ho as [_ Ho]. cbn [tid] in Ho.
    destruct (digest_run_run T cs Hr id 1 (hash_rlp h)) as (cs1 & ds & lo & -> & R & S1); [done|].
    rewrite (bind_Ok_eq _ _ _ _ _ R). cbn [fst snd]. change ((mget ≫= ?k) T) with (k T T). cbn beta. rewrite S1, run_mvalue. rewrite length_app in Hl, Hd.
    pose proof (refs_len keccak256 ds). rewrite (bind_Ok_eq _ _ _ _ _ (prepend_run (concat (map ref ds) ++ hash_rlp h) dest T ltac:(rewrite len_app, hash_rlp_len; lia))).
    apply Forall_app in Hr as [Hr1 Hr2]. apply Forall_app in Hs as [Hs1 _]. rewrite ids_list_app in Hnd1, Hnd2. apply list.NoDup_app in Hnd1 as (Hnd1 & Hnd3 & _).
    destruct (IH cs1 T ((concat (map ref ds) ++ hash_rlp h) ++ dest)) as (T' & E & Hh & Hr'); try done; [lia|rewrite !len_app, hash_rlp_len; lia|].
    exists T'. split; [|split].
    + rewrite E, !map_app, !concat_app. cbn [map concat OffsetTrieTree.ref]. by rewrite app_nil_r, <- !app_assoc.
    + apply (hashed_mono _ _ _ _ Hh). rewrite ids_list_app. set_solver.
    + rewrite !Forall_app. split; [split; [done|]|].
      * apply (reps_apart T _ (ids_list cs1)); [done|set_solver|done].
      * constructor; [|done]. apply (rep_apart T _ (ids_list cs1)); [done|set_solver|done].
  - destruct (Hsc T dest HT Hc ltac:(lia)) as (T1 & E1 & H1 & R1). rewrite (bind_Ok_eq _ _ _ _ _ E1). pose proof (ref_len keccak256 c).
    destruct (IH cs T1 (ref c ++ dest)) as (T' & E & Hh & Hr'); try done; [lia|exact (proj1 (proj1 H1))| |rewrite len_app; lia|].
    { apply (reps_apart T _ (ids c)); [done|set_solver|done]. }
    exists T'. split; [|split].
    + rewrite E, map_app, concat_app. cbn [map concat]. by rewrite app_nil_r, <- app_assoc.
    + eapply hashed_mono; [by eapply hashed_trans|]. set_solver.
    + apply Forall_app. split; [done|]. constructor; [|done]. apply (rep_apart T1 _ (ids_list cs)); [done|set_solver|done].
Qed.

(** ** One node *)
Definition root_spec (hs : Z → M OffsetTrie Z) (c : tree) : Prop := ∀ T, store_ok T → rep T c →
  ∃ T', hs (tid c) T = Ok (root_hash c, T') ∧ hashed T T' (ids c) ∧ rep T' c.
Definition encode_spec (fuel : nat) (t : tree) : Prop := ∀ T, store_ok T → rep T t →
  ∃ T', encode_node (child_ref fuel false) (hash fuel) (node_of t) T = Ok (rlp t, T') ∧ hashed T T' (kids t) ∧ rep T' t.
Definition node_case {A} (nd : node) (e : A) (d : Z → A) (o : A) : A :=
  match nd with NullView => e | DigestView h => d h | _ => o end.
Lemma child_ref_S fuel id dest : child_ref (S fuel) false id dest =
  if id =? NULL_ID then prepend [0x80] dest
  else p ← get_current id; nd ← match_ p;
    node_case nd mabort (λ h, encode_hash (hash_rlp h) dest)
      (T ← mget;
       match hashes_ T !! id with
       | Some h => encode_hash (hash_rlp h) dest
       | None => rlp ← encode_node (child_ref fuel false) (hash fuel) nd;
           if len rlp <? 32 then prepend rlp dest
           else cache_hash id (keccak256 rlp);; prepend (encode_string (be_bytes 32 (keccak256 rlp))) dest
       end).
Proof. done. Qed.
Lemma hash_S fuel id : hash (S fuel) id =
  (p ← get_current id; nd ← match_ p;
   node_case nd (mret NULL_ROOT) mret
     (T ← mget;
      match hashes_ T !! id with
      | Some h => mret h
      | None => rlp ← encode_node (child_ref fuel false) (hash fuel) nd;
          massert (len rlp >=? 32);; cache_hash id (keccak256 rlp);; mret (keccak256 rlp)
      end)).
Proof. done. Qed.
Lemma node_case_of {A} t (e : A) d o : is_empty t = false → is_digest t = false → node_case (node_of t) e d o = o.
Proof. by destruct t. Qed.

(** the hash of a node goes into the cache *)
Lemma cache_run T t : store_ok T → rep T t → NoDup (ids t) → is_empty t = false → is_digest t = false → 32 <= len (rlp t) → hashes_ T !! tid t = None →
  let T' := set_hashes (<[tid t := keccak256 (rlp t)]> (hashes_ T)) T in
  cache_hash (tid t) (keccak256 (rlp t)) T = Ok ((), T') ∧ hashed T T' [tid t] ∧ rep T' t.
Proof.
  intros HT Hr Hnd E D Hl Hn T'. pose proof (rep_node _ _ Hr E) as A. pose proof (an_id _ _ _ A) as Hid.
  assert (Hh : hashed T T' [tid t]).
  { split; [|by eexists]. destruct HT as [M0 N0 B0 X0 O0 H0]. split.
    - split; cbn [T' set_hashes blob_ overlay_ hashes_ next_id_]; [done..|]. intros j h. rewrite lookup_insert_Some. intros [[<- _]|[_ ?]]; [lia|eauto].
    - split; [done|cbn; lia|done|]. intros j [_ Hj]. left. cbn. apply lookup_insert_ne. set_solver. }
  split; [|split; [done|]].
  - unfold cache_hash. change (mmodify ?f T) with (Ok ((), f T)). cbn beta. by rewrite Hn.
  - assert (nodes t = t :: tl (nodes t)) as En by (by destruct t). rewrite ids_kids in Hnd by done. apply list.NoDup_cons in Hnd as [Hk _].
    unfold OffsetTrieTree.rep in *. rewrite En in Hr |- *. apply list.Forall_cons in Hr as [_ Hr]. constructor.
    + destruct A as [A1 A2 A3 A4 A5]. split; [done|done|done|done|]. intros h. cbn. rewrite lookup_insert_eq. intros [= <-]. split; [|done].
      by rewrite (proj2 (ref_node keccak256 t E D)).
    + apply list.Forall_forall. intros s Hs. eapply list.Forall_forall in Hr; [|exact Hs]. apply (hashed_at T _ [tid t]); [done|done|].
      intros Hin%list_elem_of_singleton. apply Hk. unfold kids, ids. rewrite En. cbn [fmap list_fmap tl]. rewrite <- Hin. by apply list_elem_of_fmap_2.
Qed.
Section one_node.
Context (t : tree) (fuel : nat) (Hnd : NoDup (ids t)) (E : is_empty t = false) (D : is_digest t = false) (Henc : encode_spec fuel t).
(** a cached hash is the one of the node *)
Lemma cached_ref T h : rep T t → hashes_ T !! tid t = Some h → hash_rlp h = ref t ∧ h = root_hash t.
Proof.
  intros Hr Hh. destruct (an_hash _ _ _ (rep_node _ _ Hr E) h Hh) as [-> Hl]. split; [|done].
  destruct (ref_node keccak256 t E D) as [-> ->]. unfold short. by rewrite (proj2 (Z.ltb_ge _ _)) by lia.
Qed.
(** encoding the node leaves its own hash uncached *)
Lemma encode_run T : store_ok T → rep T t → hashes_ T !! tid t = None →
  ∃ T', encode_node (child_ref fuel false) (hash fuel) (node_of t) T = Ok (rlp t, T') ∧ hashed T T' (ids t) ∧ rep T' t ∧ hashes_ T' !! tid t = None.
Proof.
  intros HT Hr Hn. destruct (Henc T HT Hr) as (T' & R & Hh & Hr'). pose proof (an_id _ _ _ (rep_node _ _ Hr E)) as Hid. rewrite ids_kids in Hnd |- * by done. apply list.NoDup_cons in Hnd as [Hk _].
  exists T'. split_and!; [done| |done|].
  - apply (hashed_mono _ _ _ _ Hh). set_solver.
  - destruct (ag_hash _ _ _ (proj2 (proj1 Hh)) (tid t)) as [->| ->]; [split; [lia|done]|done|done].
Qed.
Lemma encode_ref : ref_spec (child_ref (S fuel) false) t.
Proof.
  intros T dest HT Hr Hd. pose proof (rep_node _ _ Hr E) as A. pose proof (an_id _ _ _ A) as Hid. rewrite child_ref_S.
  rewrite (proj2 (Z.eqb_neq (tid t) NULL_ID)) by (unfold NULL_ID; lia).
  destruct (erase_enter _ _ _ A) as (b & R1 & R2 & _). rewrite (bind_Ok_eq _ _ _ _ _ R1), (bind_Ok_eq _ _ _ _ _ R2), node_case_of by done.
  change ((mget ≫= ?k) T) with (k T T). cbn beta. destruct (hashes_ T !! tid t) as [h|] eqn:Hh.
  - destruct (cached_ref T h Hr Hh) as [Ec _]. exists T. split; [|split; [by apply hashed_refl|done]]. rewrite Ec. apply prepend_run. pose proof (ref_len keccak256 t). lia.
  - destruct (encode_run T HT Hr Hh) as (T' & R & H1 & Hr' & Hn'). rewrite (bind_Ok_eq _ _ _ _ _ R). pose proof (ref_len keccak256 t) as Hlen.
    destruct (ref_node keccak256 t E D) as [Eref Eroot]. unfold short in Eref. destruct (Z.ltb_spec (len (rlp t)) 32) as [Hs|Hs].
    + exists T'. split; [|done]. rewrite Eref in Hlen |- *. apply prepend_run. lia.
    + destruct (cache_run T' t) as (R' & H2 & Hr2); try done; [exact (proj1 (proj1 H1))|]. rewrite (bind_Ok_eq _ _ _ _ _ R').
      eexists. split; [|split; [|exact Hr2]].
      * rewrite encode_hash_is, Eref. apply prepend_run. rewrite hash_rlp_len. lia.
      * eapply hashed_mono; [by eapply hashed_trans|]. pose proof (tid_in t E). set_solver.
Qed.
Lemma encode_root : 32 <= len (rlp t) → root_spec (hash (S fuel)) t.
Proof.
  intros Hl T HT Hr. pose proof (rep_node _ _ Hr E) as A. rewrite hash_S.
  destruct (erase_enter _ _ _ A) as (b & R1 & R2 & _). rewrite (bind_Ok_eq _ _ _ _ _ R1), (bind_Ok_eq _ _ _ _ _ R2), node_case_of by done.
  change ((mget ≫= ?k) T) with (k T T). cbn beta. destruct (hashes_ T !! tid t) as [h|] eqn:Hh.
  - destruct (cached_ref T h Hr Hh) as [_ ->]. exists T. split; [done|split; [by apply hashed_refl|done]].
  - destruct (encode_run T HT Hr Hh) as (T' & R & H1 & Hr' & Hn'). rewrite (bind_Ok_eq _ _ _ _ _ R). rewrite (proj2 (Z.geb_le _ _)), run_massert by lia.
    destruct (cache_run T' t) as (R' & H2 & Hr2); try done; [exact (proj1 (proj1 H1))|]. rewrite (bind_Ok_eq _ _ _ _ _ R').
    eexists. split; [|split; [|exact Hr2]].
    + by rewrite (proj2 (ref_node keccak256 t E D)).
    + eapply hashed_mono; [by eapply hashed_trans|]. pose proof (tid_in t E). set_solver.
Qed.
End one_node.

(** ** Every tree *)
Lemma encode_sleaf id p v acct n fuel : wf acct n (SLeaf id p v) → Z.of_nat n <= MAX_PATH_NIBBLES → encode_spec fuel (SLeaf id p v).
Proof.
  intros Hwf Hn T HT Hr. inversion Hwf; subst. cbn [node_of encode_node]. rewrite <- run_bind_bind.
  rewrite (bind_Ok_eq _ _ _ _ _ (storage_value_run v T)). pose proof (storage_value_len v).
  destruct (encode_path_run (encode_string2 (storage_value v)) p true T) as (P0 & P1 & P2); try done; [by right|unfold MAX_NODE_RLP; lia|].
  rewrite (bind_Ok_eq _ _ _ _ _ P0), wrap_run by (rewrite len_app; unfold MAX_NODE_RLP; lia). exists T. rewrite rlp_sleaf.
  split; [done|]. split; [by apply hashed_refl|done].
Qed.
Lemma encode_aleaf id p ch nb st acct n fuel : wf acct n (ALeaf id p ch nb st) → Z.of_nat n <= MAX_PATH_NIBBLES → NoDup (ids (ALeaf id p ch nb st)) →
  root_spec (hash fuel) st → encode_spec fuel (ALeaf id p ch nb st).
Proof.
  intros Hwf Hn Hnd Hst T HT Hr. inversion Hwf as [| |? ? ? ? ? ? Hp Hok Hch Hnb Hwst| | |]; subst. cbn [node_of encode_node].
  apply list.NoDup_cons in Hnd as [Hnd _]. apply list.Forall_cons in Hr as [A Hr].
  pose proof (Hch : length ch = 33%nat) as Hch'. unfold encode_hash.
  rewrite (bind_Ok_eq _ _ _ _ _ (prepend_run ch [] T ltac:(unfold MAX_NODE_RLP, len; cbn [length]; lia))). rewrite app_nil_r.
  destruct (Hst T HT Hr) as (T' & R & Hh & Hr'). rewrite (bind_Ok_eq _ _ _ _ _ R). set (r := root_hash st).
  pose proof Hnb as Hnb'. unfold MAX_NONCE_BALANCE_RLP_LEN in Hnb'.
  rewrite (bind_Ok_eq _ _ _ _ _ (prepend_run (hash_rlp r) ch T' ltac:(rewrite hash_rlp_len; unfold MAX_NODE_RLP, len; lia))).
  unfold nonce_balance_rlp. rewrite run_bind_bind. rewrite (proj2 (Z.geb_le (len nb) 2)), (proj2 (Z.leb_le (len nb) _)) by lia. cbn [andb]. rewrite run_massert. autorewrite with run.
  rewrite (bind_Ok_eq _ _ _ _ _ (prepend_run nb (hash_rlp r ++ ch) T' ltac:(rewrite len_app, hash_rlp_len; unfold MAX_NODE_RLP, len in *; lia))).
  destruct (account_run ch nb r T' Hch Hnb) as (A0 & A1 & A2 & A3 & A4). rewrite (bind_Ok_eq _ _ _ _ _ A0). rewrite A2 in *.
  set (account := account_value ch nb r) in *. rewrite (proj2 (Z.gtb_lt _ 55)), (proj2 (Z.leb_le _ 255)) by lia. cbn [andb]. rewrite run_massert.
  rewrite (bind_Ok_eq _ _ _ _ _ (prepend_run [len account] account T' ltac:(change (len [len account]) with 1; unfold MAX_NODE_RLP; lia))).
  rewrite (bind_Ok_eq _ _ _ _ _ (prepend_run [0xb8] ([len account] ++ account) T' ltac:(rewrite len_app; change (len [len account]) with 1; change (len [184]) with 1; unfold MAX_NODE_RLP; lia))).
  change ([184] ++ [len account] ++ account) with (184 :: len account :: account). rewrite <- A3.
  assert (La : len (encode_string2 account) <= 113) by (rewrite A3, !len_cons; lia).
  destruct (encode_path_run (encode_string2 account) p true T') as (P0 & P1 & P2); try done; [by right|unfold MAX_NODE_RLP; lia|].
  rewrite (bind_Ok_eq _ _ _ _ _ P0), wrap_run by (rewrite len_app; unfold MAX_NODE_RLP; lia). exists T'. rewrite rlp_aleaf.
  split; [done|]. split; [done|]. constructor; [by apply (hashed_at T _ (ids st))|done].
Qed.
Lemma encode_ext id p c acct n fuel : wf acct n (Ext id p c) → Z.of_nat n <= MAX_PATH_NIBBLES → NoDup (ids (Ext id p c)) →
  ref_spec (child_ref fuel false) c → encode_spec fuel (Ext id p c).
Proof.
  intros Hwf Hn Hnd Hc T HT Hr. inversion Hwf as [| | |? n0 ? ? ? Hp0 Hpo Hbr Hw0| |]; subst. cbn [node_of encode_node].
  apply list.NoDup_cons in Hnd as [Hnd _]. apply rep_ext in Hr as [A Hr].
  destruct (Hc T [] HT Hr ltac:(done)) as (T' & R & Hh & Hr'). rewrite (bind_Ok_eq _ _ _ _ _ R), app_nil_r. pose proof (ref_len keccak256 c). unfold MAX_PATH_NIBBLES in Hn.
  destruct (encode_path_run (ref c) p false T') as (P0 & P1 & P2); try done; [left; intros ->; cbn in Hp0; lia|unfold len, MAX_PATH_NIBBLES; lia|unfold MAX_NODE_RLP; lia|].
  rewrite (bind_Ok_eq _ _ _ _ _ P0), wrap_run by (rewrite len_app; unfold MAX_NODE_RLP; lia). exists T'. rewrite rlp_ext.
  split; [done|]. split; [done|]. apply rep_ext. split; [by apply (hashed_at T _ (ids c))|done].
Qed.
Lemma encode_branch id cs acct n fuel : wf acct n (Branch id cs) → NoDup (ids (Branch id cs)) →
  Forall (ref_spec (child_ref fuel false)) cs → encode_spec fuel (Branch id cs).
Proof.
  intros Hwf Hnd Hc T HT Hr. inversion Hwf as [| | | |? n0 ? ? Hl Ho Hwfs|]; subst. cbn [node_of encode_node].
  rewrite ids_branch in Hnd. apply list.NoDup_cons in Hnd as [Hnd Hnd']. apply rep_branch in Hr as [A Hr].
  rewrite (bind_Ok_eq _ _ _ _ _ (prepend_run [0x80] [] T ltac:(done))).
  destruct (encode_children_run (child_ref fuel false) 16 cs T [0x80]) as (T' & R & Hh & Hr'); try done; [lia|rewrite Hl; done|].
  rewrite (bind_Ok_eq _ _ _ _ _ R). pose proof (refs_len keccak256 cs). rewrite wrap_run by (rewrite len_app; change (len [128]) with 1; unfold MAX_NODE_RLP; lia).
  exists T'. rewrite rlp_branch. split; [done|]. unfold kids. rewrite ids_branch. cbn [tl]. split; [done|]. apply rep_branch. split; [by apply (hashed_at T _ (ids_list cs))|done].
Qed.
(** [fuel] is enough for keys of [n] nibbles, and the storage below accounts *)
Definition enough (acct : bool) (n fuel : nat) : Prop := (n + (if acct then 65 else 0) < fuel)%nat.
Definition rooted (t : tree) : Prop := is_empty t = true ∨ is_digest t = true ∨ 32 <= len (rlp t).
Lemma rooted_64 acct t : wf acct 64 t → rooted t.
Proof.
  intros H. unfold rooted. destruct (is_empty t) eqn:E; [by left|]. destruct (is_digest t) eqn:D; [right; by left|]. right. right. by apply (root_long keccak256 acct).
Qed.
Lemma node_hash_ok t fuel : NoDup (ids t) → is_empty t = false → is_digest t = false → encode_spec fuel t →
  ref_spec (child_ref (S fuel) false) t ∧ (rooted t → root_spec (hash (S fuel)) t).
Proof. intros Hnd E D H. split; [by apply encode_ref|]. intros [?|[?|?]]; [congruence|congruence|by apply encode_root]. Qed.
Lemma hash_ok t : ∀ acct n fuel, wf acct n t → Z.of_nat n <= MAX_PATH_NIBBLES → NoDup (ids t) → enough acct n fuel →
  ref_spec (child_ref fuel false) t ∧ (rooted t → root_spec (hash fuel) t).
Proof.
  induction t as [|id p v|id p ch nb st IH|id p c IH|id cs IH|id h] using tree_rect'; intros acct n [|fuel] Hwf Hn Hnd Hf; try (unfold enough in Hf; lia).
  - split; [intros T dest HT Hr Hd|intros _ T HT Hr]; exists T; (split; [|split; [by apply hashed_refl|done]]).
    + rewrite child_ref_S. apply (prepend_run [0x80] dest T). change (len [0x80]) with 1. lia.
    + rewrite hash_S. destruct (read_node_run _ _ _ (cur_null _ HT)) as (b & _ & R1 & R2). change (tid Empty) with NULL_ID.
      by rewrite (bind_Ok_eq _ _ _ _ _ R1), (bind_Ok_eq _ _ _ _ _ R2).
  - apply node_hash_ok; try done. by apply (encode_sleaf _ _ _ acct n).
  - apply node_hash_ok; try done. apply (encode_aleaf _ _ _ _ _ acct n); try done. inversion Hwf; subst. unfold enough in Hf.
    apply (IH false 64%nat); [done|done|by apply list.NoDup_cons in Hnd as [_ ?]|unfold enough; lia|by apply (rooted_64 false)].
  - apply node_hash_ok; try done. apply (encode_ext _ _ _ acct n); try done. inversion Hwf as [| | |? n0 ? ? ? Hp0 Hpo Hbr Hw0| |]; subst. unfold enough in Hf.
    apply (IH acct n0); [done|lia|by apply list.NoDup_cons in Hnd as [_ ?]|unfold enough; lia].
  - apply node_hash_ok; try done. apply (encode_branch _ _ acct n); try done. inversion Hwf as [| | | |? n0 ? ? Hl Ho Hwfs|]; subst. unfold enough in Hf.
    apply list.Forall_forall. intros c Hc. eapply list.Forall_forall in IH; [|exact Hc]. eapply list.Forall_forall in Hwfs; [|exact Hc].
    apply (IH acct n0); [done|lia| |unfold enough; lia]. rewrite ids_branch in Hnd. apply list.NoDup_cons in Hnd as [_ Hnd].
    apply list_elem_of_lookup in Hc as [i Hi]. rewrite (ids_list_pick cs i c Hi) in Hnd. by apply list.NoDup_app in Hnd as [? _].
  - split; [intros T dest HT Hr Hd|intros _ T HT Hr]; exists T; (split; [|split; [by apply hashed_refl|done]]); pose proof (rep_node _ _ Hr eq_refl) as A;
      destruct (erase_enter _ _ _ A) as (b & R1 & R2 & _); pose proof (an_id _ _ _ A) as Hid.
    + rewrite child_ref_S. rewrite (proj2 (Z.eqb_neq _ NULL_ID)) by (unfold NULL_ID; lia). rewrite (bind_Ok_eq _ _ _ _ _ R1), (bind_Ok_eq _ _ _ _ _ R2).
      apply (prepend_run (hash_rlp h) dest T). rewrite hash_rlp_len. lia.
    + rewrite hash_S. by rewrite (bind_Ok_eq _ _ _ _ _ R1), (bind_Ok_eq _ _ _ _ _ R2).
Qed.
End hashing.
