(* ===== verification/OffsetTrieCanonical.v ===== *)
(** * One shape for each content

    The canonical shape of a complete tree, and with it its encoding and its
    root hash, is determined by what its keys find. *)
From S2P Require Import Prelude Account Uint256Text Rlp RlpFacts OffsetTrie OffsetTrieNodes OffsetTrieTree OffsetTrieStore OffsetTrieUpsert OffsetTrieErase OffsetTrieEncode.

Definition key_ok (n : nat) (k : list Z) : Prop := length k = n ∧ path_ok k.
Lemma key_cons n a k : key_ok (S n) (a :: k) ↔ nibble_ok a ∧ key_ok n k.
Proof. unfold key_ok. rewrite list.Forall_cons. cbn [length]. split; [intros [? [? ?]]|intros [? [? ?]]]; split_and!; try done; lia. Qed.
Lemma key_app n p k : path_ok p → key_ok n k → key_ok (length p + n) (p ++ k).
Proof. intros Hp [<- Hk]. split; [apply length_app|]. by apply Forall_app. Qed.
Definition present (n : nat) (t : tree) (k : list Z) : Prop := key_ok n k ∧ ∃ l, find t k = Found l.

(** ** The keys of a tree *)
Lemma occupied_some cs : (1 <= occupied cs)%nat → ∃ i c, cs !! i = Some c ∧ is_empty c = false.
Proof.
  induction cs as [|c cs IH]; [cbn; lia|]. rewrite occupied_cons. destruct (is_empty c) eqn:E; [|by exists 0%nat, c].
  intros H. destruct (IH ltac:(lia)) as (i & d & Hd). by exists (S i), d.
Qed.
Lemma occupied_two cs : (2 <= occupied cs)%nat → ∃ i j c d, i ≠ j ∧ cs !! i = Some c ∧ cs !! j = Some d ∧ is_empty c = false ∧ is_empty d = false.
Proof.
  induction cs as [|c cs IH]; [cbn; lia|]. rewrite occupied_cons. destruct (is_empty c) eqn:E; intros H.
  - destruct (IH ltac:(lia)) as (i & j & a & b & ? & ? & ? & ? & ?). exists (S i), (S j), a, b. split_and!; try done. lia.
  - destruct (occupied_some cs ltac:(lia)) as (j & d & Hd & Ed). by exists 0%nat, (S j), c, d.
Qed.
Lemma present_ext n id p c k : path_ok p → present n c k → present (length p + n) (Ext id p c) (p ++ k).
Proof.
  intros Hp [Hk [l Hl]]. split; [by apply key_app|]. exists l. rewrite find_ext, take_app_length, decide_True by done. by rewrite drop_app_length.
Qed.
Lemma present_branch n id cs i c k : length cs = 16%nat → cs !! i = Some c → present n c k → present (S n) (Branch id cs) (Z.of_nat i :: k).
Proof.
  intros H16 Hc [Hk [l Hl]]. apply lookup_lt_Some in Hc as Hi. split; [apply key_cons; split; [unfold nibble_ok; lia|done]|].
  exists l. by rewrite find_branch, Nat2Z.id, Hc.
Qed.
Lemma present_some {HB : Branches} t : ∀ acct n, wf acct n t → complete t → is_empty t = false → ∃ k, present n t k.
Proof.
  induction t as [|id p v|id p ch nb st IH|id p c IH|id cs IH|id h] using tree_rect'; intros acct n Hwf Hc He; try done.
  - inversion Hwf; subst. exists p. split; [done|]. exists (CStorage v). cbn. by rewrite decide_True.
  - inversion Hwf; subst. exists p. split; [done|]. exists (CAccount ch nb st). cbn. by rewrite decide_True.
  - inversion Hwf as [| | |? n0 ? ? ? Hp0 Hpo Hbr Hw0| |]; subst. destruct (IH acct n0 Hw0 (complete_ext _ _ _ Hc) (branch_not_empty _ Hbr)) as [k Hk].
    exists (p ++ k). by apply present_ext.
  - inversion Hwf as [| | | |? n0 ? ? Hl Ho Hwfs|]; subst. destruct (occupied_some cs ltac:(lia)) as (i & c & Hi & Ec). pose proof (list_elem_of_lookup_2 _ _ _ Hi) as Hin.
    eapply list.Forall_forall in IH; [|exact Hin]. destruct (IH acct n0 (Forall_lookup_1 _ _ _ _ Hwfs Hi) (complete_branch _ _ _ Hc Hin) Ec) as [k Hk].
    exists (Z.of_nat i :: k). by eapply present_branch.
  - by inversion Hc.
Qed.
(** keys that part at [m] nibbles, and the nibbles all keys share *)
Definition spread (n : nat) (t : tree) (m : nat) : Prop := ∃ k k', present n t k ∧ present n t k' ∧ k !! m ≠ k' !! m.
Definition shares (n : nat) (t : tree) (p : list Z) : Prop := ∀ k, present n t k → take (length p) k = p.
Lemma branch_spread {HB : Branches} acct n id cs : wf acct n (Branch id cs) → complete (Branch id cs) → spread n (Branch id cs) 0.
Proof.
  intros Hwf Hc. inversion Hwf as [| | | |? n0 ? ? Hl Ho Hwfs|]; subst. destruct (occupied_two cs Ho) as (i & j & c & d & Hne & Hi & Hj & Ec & Ed).
  destruct (present_some c acct n0 (Forall_lookup_1 _ _ _ _ Hwfs Hi) (complete_branch _ _ _ Hc (list_elem_of_lookup_2 _ _ _ Hi)) Ec) as [k Hk].
  destruct (present_some d acct n0 (Forall_lookup_1 _ _ _ _ Hwfs Hj) (complete_branch _ _ _ Hc (list_elem_of_lookup_2 _ _ _ Hj)) Ed) as [k' Hk'].
  exists (Z.of_nat i :: k), (Z.of_nat j :: k'). split_and!; [by eapply present_branch|by eapply present_branch|]. cbn. intros [= ?]. lia.
Qed.
Lemma ext_spread {HB : Branches} acct n id p c : wf acct n (Ext id p c) → complete (Ext id p c) → spread n (Ext id p c) (length p) ∧ shares n (Ext id p c) p.
Proof.
  intros Hwf Hc. inversion Hwf as [| | |? n0 ? ? ? Hp0 Hpo Hbr Hw0| |]; subst. split.
  - destruct c; try done; [|by apply complete_ext in Hc; inversion Hc]. destruct (branch_spread acct n0 id0 cs Hw0 (complete_ext _ _ _ Hc)) as (k & k' & Hk & Hk' & Hne).
    exists (p ++ k), (p ++ k'). split_and!; [by apply present_ext|by apply present_ext|]. by rewrite !lookup_app_r, Nat.sub_diag by lia.
  - intros k [_ [l Hl]]. rewrite find_ext in Hl. by destruct (decide _).
Qed.
Lemma shares_spread n t p m : shares n t p → spread n t m → (length p <= m)%nat.
Proof.
  intros Hs (k & k' & Hk & Hk' & Hne). destruct (Nat.lt_ge_cases m (length p)) as [H|H]; [|done]. destruct Hne.
  by rewrite <- (lookup_take_lt k (length p)), <- (lookup_take_lt k' (length p)), (Hs k Hk), (Hs k' Hk') by lia.
Qed.
Lemma leaf_present n id p l k : present n (mk_leaf id p l) k → k = p.
Proof. intros [_ [l' Hl]]. rewrite find_leaf in Hl. by destruct (decide _). Qed.
Lemma leaf_spread n id p l m : ¬ spread n (mk_leaf id p l) m.
Proof. intros (k & k' & Hk%leaf_present & Hk'%leaf_present & Hne). congruence. Qed.

(** ** Trees with the same content *)
Section canonical.
Context {HB : Branches} (keccak256 : list Z → Z).
Abbreviation rlp := (rlp keccak256).
Abbreviation ref := (ref keccak256).
Abbreviation root_hash := (root_hash keccak256).
Definition same_content (l l' : content) : Prop :=
  match l, l' with
  | CStorage v, CStorage v' => v = v'
  | CAccount ch nb st, CAccount ch' nb' st' => ch = ch' ∧ nb = nb' ∧ root_hash st = root_hash st'
  | _, _ => False
  end.
Definition same_answer (a a' : answer) : Prop :=
  match a, a' with Found l, Found l' => same_content l l' | Absent, Absent => True | _, _ => False end.
Definition same (n : nat) (t t' : tree) : Prop := ∀ k, key_ok n k → same_answer (find t k) (find t' k).
Lemma same_sym n t t' : same n t t' → same n t' t.
Proof.
  intros H k Hk. specialize (H k Hk). destruct (find t k) as [| |[]], (find t' k) as [| |[]]; try done. cbn in *. by destruct H as (-> & -> & ->).
Qed.
Lemma same_present n t t' k : same n t t' → present n t k → present n t' k.
Proof. intros H [Hk [l Hl]]. split; [done|]. specialize (H k Hk). rewrite Hl in H. destruct (find t' k); try done. by eexists. Qed.
Lemma same_spread n t t' m : same n t t' → spread n t m → spread n t' m.
Proof. intros H (k & k' & H1 & H2 & Hne). exists k, k'. split_and!; [by eapply same_present|by eapply same_present|done]. Qed.
Lemma same_shares n t t' p : same n t t' → shares n t p → shares n t' p.
Proof. intros H Hs k Hk. apply Hs. by eapply same_present; [apply same_sym|]. Qed.
Lemma same_child n id id' cs cs' i c c' : length cs = 16%nat → same (S n) (Branch id cs) (Branch id' cs') → cs !! i = Some c → cs' !! i = Some c' → same n c c'.
Proof.
  intros Hl H Hc Hc' k Hk. apply lookup_lt_Some in Hc as Hi. specialize (H (Z.of_nat i :: k)). rewrite !find_branch, Nat2Z.id, Hc, Hc' in H.
  apply H, key_cons. split; [unfold nibble_ok; lia|done].
Qed.
Lemma same_ext n id id' p c c' : path_ok p → same (length p + n) (Ext id p c) (Ext id' p c') → same n c c'.
Proof. intros Hp H k Hk. specialize (H (p ++ k) (key_app _ _ _ Hp Hk)). by rewrite !find_ext, take_app_length, !decide_True, drop_app_length in H. Qed.
Lemma refs_same t t' : complete t → complete t' → is_empty t = is_empty t' ∧ rlp t = rlp t' → ref t = ref t' ∧ root_hash t = root_hash t'.
Proof.
  intros Hc Hc' [E H]. destruct (is_empty t) eqn:Et; [by destruct t, t'|]. assert (D : is_digest t = false) by (by destruct t; try done; inversion Hc).
  assert (D' : is_digest t' = false) by (by destruct t'; try done; inversion Hc').
  destruct (ref_node keccak256 t Et D) as [-> ->]. destruct (ref_node keccak256 t' (eq_sym E) D') as [-> ->]. by rewrite H.
Qed.
(** a tree that is not empty is a leaf, an extension or a branch *)
Inductive shape : tree → Prop :=
| shape_leaf id p l : shape (mk_leaf id p l)
| shape_ext id p c : shape (Ext id p c)
| shape_branch id cs : shape (Branch id cs).
Lemma shape_of t : complete t → is_empty t = false → shape t.
Proof.
  intros Hc He. destruct t; try done; [apply (shape_leaf id path (CStorage v))|apply (shape_leaf id path (CAccount code_hash_rlp nonce_balance t))|constructor|constructor|by inversion Hc].
Qed.
Lemma same_empty acct n t t' : wf acct n t → wf acct n t' → complete t → complete t' → same n t t' → is_empty t = is_empty t'.
Proof.
  intros Hw Hw' Hc Hc' H. destruct (is_empty t) eqn:E, (is_empty t') eqn:E'; try done.
  - destruct (present_some t' acct n Hw' Hc' E') as [k Hk]. eapply same_present in Hk; [|by apply same_sym]. destruct t; try done. by destruct Hk as [_ [l Hl]].
  - destruct (present_some t acct n Hw Hc E) as [k Hk]. eapply same_present in Hk; [|done]. destruct t'; try done. by destruct Hk as [_ [l Hl]].
Qed.
Lemma leaf_same acct n id p l t' : wf acct n (mk_leaf id p l) → wf acct n t' → complete t' → is_empty t' = false → same n (mk_leaf id p l) t' → rlp (mk_leaf id p l) = rlp t'.
Proof.
  intros Hw Hw' Hc' He' H. destruct (shape_of t' Hc' He') as [id' p' l'|id' p' c'|id' cs'].
  - apply wf_leaf in Hw as (Hl & Hok & _). assert (Hp : present n (mk_leaf id p l) p) by (split; [done|exists l; by rewrite find_leaf, decide_True]).
    pose proof (leaf_present _ _ _ _ _ (same_present _ _ _ _ H Hp)) as <-. specialize (H p (proj1 Hp)). rewrite !find_leaf, !decide_True in H by done.
    destruct l, l'; try done; cbn [mk_leaf same_answer same_content] in *.
    + subst. by rewrite !rlp_sleaf.
    + destruct H as (-> & -> & H). by rewrite !rlp_aleaf, H.
  - destruct (ext_spread _ _ _ _ _ Hw' Hc') as [S1 _]. eapply same_spread in S1; [|by apply same_sym]. by apply leaf_spread in S1.
  - pose proof (branch_spread _ _ _ _ Hw' Hc') as S1. eapply same_spread in S1; [|by apply same_sym]. by apply leaf_spread in S1.
Qed.
Lemma ext_branch acct n id p c id' cs' : wf acct n (Ext id p c) → wf acct n (Branch id' cs') → complete (Ext id p c) → complete (Branch id' cs') → ¬ same n (Ext id p c) (Branch id' cs').
Proof.
  intros Hw Hw' Hc Hc' H. destruct (ext_spread _ _ _ _ _ Hw Hc) as [_ S1]. pose proof (branch_spread _ _ _ _ Hw' Hc') as S2.
  pose proof (shares_spread _ _ _ _ (same_shares _ _ _ _ H S1) S2). inversion Hw; lia.
Qed.
Lemma ext_paths acct n id p c id' p' c' : wf acct n (Ext id p c) → wf acct n (Ext id' p' c') → complete (Ext id p c) → complete (Ext id' p' c') →
  same n (Ext id p c) (Ext id' p' c') → p = p'.
Proof.
  intros Hw Hw' Hc Hc' H. destruct (ext_spread _ _ _ _ _ Hw Hc) as [S1 S2]. destruct (ext_spread _ _ _ _ _ Hw' Hc') as [S3 S4].
  pose proof (shares_spread _ _ _ _ (same_shares _ _ _ _ H S2) S3) as L1. pose proof (shares_spread _ _ _ _ (same_shares _ _ _ _ (same_sym _ _ _ H) S4) S1) as L2.
  destruct S1 as (k & _ & Hk & _). rewrite <- (S2 k Hk), <- (S4 k (same_present _ _ _ _ H Hk)). f_equal. lia.
Qed.
Lemma canonical t : ∀ acct n t', wf acct n t → wf acct n t' → complete t → complete t' → same n t t' → is_empty t = is_empty t' ∧ rlp t = rlp t'.
Proof.
  induction t as [|id p v|id p ch nb st _|id p c IH|id cs IH|id h] using tree_rect'; intros acct n t' Hw Hw' Hc Hc' H;
    pose proof (same_empty _ _ _ _ Hw Hw' Hc Hc' H) as E; (split; [done|]).
  - by destruct t'.
  - by apply (leaf_same acct n id p (CStorage v) t' Hw Hw' Hc' (eq_sym E)).
  - by apply (leaf_same acct n id p (CAccount ch nb st) t' Hw Hw' Hc' (eq_sym E)).
  - destruct (shape_of t' Hc' (eq_sym E)) as [id' p' l'|id' p' c'|id' cs'].
    + symmetry. apply (leaf_same acct n id' p' l'); try done. by apply same_sym.
    + pose proof (ext_paths _ _ _ _ _ _ _ _ Hw Hw' Hc Hc' H) as <-. inversion Hw as [| | |? n0 ? ? ? Hp0 Hpo Hbr Hw0| |]; subst.
      inversion Hw' as [| | |? n1 ? ? ? ? ? Hbr1 Hw1 Hn| |]; subst. assert (n1 = n0) as -> by lia.
      rewrite !rlp_ext. do 3 f_equal. apply refs_same; [exact (complete_ext _ _ _ Hc)|exact (complete_ext _ _ _ Hc')|]. apply (IH acct n0); try done; [exact (complete_ext _ _ _ Hc)|exact (complete_ext _ _ _ Hc')|].
      by eapply same_ext.
    + by eapply ext_branch in H.
  - destruct (shape_of t' Hc' (eq_sym E)) as [id' p' l'|id' p' c'|id' cs'].
    + symmetry. apply (leaf_same acct n id' p' l'); try done. by apply same_sym.
    + apply same_sym in H. by eapply ext_branch in H.
    + inversion Hw as [| | | |? n0 ? ? Hl Ho Hwfs|]; subst. inversion Hw' as [| | | |? n1 ? ? Hl' Ho' Hwfs' Hn|]; subst. rewrite !rlp_branch. do 4 f_equal.
      apply list_eq. intros i. rewrite !list_lookup_fmap || rewrite <- !list_fmap_is_map. destruct (cs !! i) as [c|] eqn:Ei.
      * destruct (lookup_lt_is_Some_2 cs' i) as [c' Ei']; [apply lookup_lt_Some in Ei; lia|]. rewrite Ei'. cbn. f_equal.
        pose proof (list_elem_of_lookup_2 _ _ _ Ei) as Hi. pose proof (list_elem_of_lookup_2 _ _ _ Ei') as Hi'. eapply list.Forall_forall in IH; [|exact Hi].
        apply refs_same; [exact (complete_branch _ _ _ Hc Hi)|exact (complete_branch _ _ _ Hc' Hi')|].
        apply (IH acct n0); [by apply (Forall_lookup_1 _ _ _ _ Hwfs Ei)|by apply (Forall_lookup_1 _ _ _ _ Hwfs' Ei')|exact (complete_branch _ _ _ Hc Hi)|exact (complete_branch _ _ _ Hc' Hi')|].
        by apply (same_child n0 id id' cs cs' i).
      * apply lookup_ge_None in Ei. rewrite (proj2 (lookup_ge_None cs' i)) by lia. done.
  - by inversion Hc.
Qed.
(** Trees with the same content have the same root. *)
Lemma same_root acct n t t' : wf acct n t → wf acct n t' → complete t → complete t' → same n t t' → root_hash t = root_hash t'.
Proof. intros Hw Hw' Hc Hc' H. apply refs_same; [done..|]. by apply (canonical t acct n). Qed.
End canonical.
