(* ===== verification/OffsetTrieRoot.v ===== *)
(** * What inserting and erasing leave alone

    The operations on nodes do not set the root of the trie. *)
From S2P Require Import Prelude Account Uint256Text Rlp OffsetTrie.

Definition keeps_root {A} (m : M OffsetTrie A) : Prop := ∀ T a T', m T = Ok (a, T') → root T' = root T.
Create HintDb keeps discriminated.
Section combinators.
Context {A B : Type}.
Lemma keeps_bind (m : M OffsetTrie A) (k : A → M OffsetTrie B) : keeps_root m → (∀ a, keeps_root (k a)) → keeps_root (m ≫= k).
Proof. intros Hm Hk T b T' (a & T1 & E1 & E2)%bind_Ok. rewrite (Hk a _ _ _ E2). by eapply Hm. Qed.
Lemma keeps_ret (a : A) : keeps_root (mret a).
Proof. intros T b T' [_ ->]%ret_Ok. done. Qed.
Lemma keeps_value (o : option A) : keeps_root (mvalue o).
Proof. intros T b T' [_ ->]%mvalue_Ok. done. Qed.
Lemma keeps_abort : keeps_root (mabort : M OffsetTrie A).
Proof. intros T b T' E. discriminate E. Qed.
End combinators.
Lemma keeps_assert b : keeps_root (massert b).
Proof. intros T a T' [_ ->]%massert_Ok. done. Qed.
Lemma keeps_get : keeps_root mget.
Proof. intros T a T' [= _ <-]. done. Qed.
Lemma keeps_modify f : (∀ T, root (f T) = root T) → keeps_root (mmodify f).
Proof. intros H T a T' [= _ <-]. done. Qed.
#[export] Hint Resolve keeps_bind keeps_ret keeps_value keeps_abort keeps_assert keeps_get : keeps.
#[export] Hint Extern 2 (keeps_root (mmodify _)) => apply keeps_modify; done : keeps.
#[export] Hint Extern 3 (keeps_root (match ?x with _ => _ end)) => destruct x : keeps.
Ltac keeps := repeat (intros; first [apply keeps_bind | apply keeps_ret | apply keeps_value | apply keeps_abort | apply keeps_assert | apply keeps_get
  | solve [apply keeps_modify; done] | solve [auto with keeps]
  | match goal with |- keeps_root (match ?x with _ => _ end) => destruct x end]).

Lemma keeps_get_current id : keeps_root (get_current id).
Proof. unfold get_current, get_original. keeps. Qed.
Lemma keeps_match p : keeps_root (match_ p).
Proof. unfold match_. keeps. Qed.
Lemma keeps_put_node id b : keeps_root (put_node id b).
Proof. unfold put_node, fresh_id, forget_hash. keeps. Qed.
Lemma keeps_fresh_id : keeps_root fresh_id.
Proof. unfold fresh_id. keeps. Qed.
Lemma keeps_wire v : keeps_root (to_node_id_wire_t v).
Proof. unfold to_node_id_wire_t. keeps. Qed.
#[export] Hint Resolve keeps_get_current keeps_match keeps_put_node keeps_fresh_id keeps_wire : keeps.
Lemma keeps_put_branch id cs : keeps_root (put_branch id cs).
Proof. apply keeps_put_node. Qed.
Lemma keeps_put_ext id p c : keeps_root (put_ext id p c).
Proof. unfold put_ext, append_ext, append_node_id, append_path. keeps. Qed.
Lemma keeps_put_storage id p v : keeps_root (put_storage id p v).
Proof. unfold put_storage, append_storage, append_path. keeps. Qed.
Lemma keeps_put_acct id p a s : keeps_root (put_acct id p a s).
Proof. unfold put_acct, append_acct, append_node_id, append_path. keeps. Qed.
Lemma keeps_clone_acct id a p : keeps_root (clone_acct id a p).
Proof. unfold clone_acct, append_path. keeps. Qed.
Lemma keeps_nibble l i : keeps_root (nibble l i).
Proof. unfold nibble. keeps. Qed.
Lemma keeps_substr l i : keeps_root (substr l i).
Proof. unfold substr. keeps. Qed.
#[export] Hint Resolve keeps_put_branch keeps_put_ext keeps_put_storage keeps_put_acct keeps_clone_acct keeps_nibble keeps_substr : keeps.
Lemma keeps_diverge id cp p k c : keeps_root (diverge id cp p k c).
Proof. unfold diverge, prefix. keeps. Qed.
#[export] Hint Resolve keeps_diverge : keeps.
Lemma keeps_split_leaf id p k f : (∀ np, keeps_root (f np)) → keeps_root (split_leaf id p k f).
Proof. intros Hf. unfold split_leaf. keeps; apply Hf. Qed.
Lemma keeps_upsert fuel : ∀ id key, keeps_root (upsert_node fuel id key).
Proof.
  induction fuel as [|fuel IH]; intros id key; [apply keeps_abort|]. cbn [upsert_node]. unfold forget_hash.
  keeps; first [by apply IH | apply keeps_split_leaf; keeps].
Qed.
Lemma keeps_fold_ext id p c : keeps_root (fold_ext_node_path_maybe id p c).
Proof. unfold fold_ext_node_path_maybe, concat_nibbles. keeps. Qed.
#[export] Hint Resolve keeps_fold_ext : keeps.
Lemma keeps_erase fuel : ∀ id key, keeps_root (erase_node fuel id key).
Proof.
  induction fuel as [|fuel IH]; intros id key; [apply keeps_abort|]. cbn [erase_node]. unfold forget_hash. keeps; by apply IH.
Qed.
