(* ===== verification/OffsetTrieMap.v ===== *)
(** * The witness trie as a map

    Inserting and erasing, with the leaf written or dropped: the operations
    the database composes.  A key that leads below a digest stops the program;
    a tree without digests is never the reason to stop. *)
From S2P Require Import Prelude Account Uint256Text Rlp RlpFacts OffsetTrie OffsetTrieNodes OffsetTrieTree OffsetTrieStore OffsetTrieUpsert OffsetTrieErase OffsetTrieEncode OffsetTrieHash OffsetTrieCanonical OffsetTrieRoot.

(** ** Complete trees *)
(** Every key of a complete tree is known. *)
Definition complete_at (a : answer) : Prop :=
  match a with Unknown _ _ => False | Found (CAccount _ _ st) => complete st | _ => True end.
Lemma complete_cons t : complete t ↔ is_digest t = false ∧
  match t with ALeaf _ _ _ _ st => complete st | Ext _ _ c => complete c | Branch _ cs => Forall complete cs | _ => True end.
Proof.
  unfold complete. destruct t as [|id p v|id p ch nb st|id p c|id cs|id h]; cbn [nodes is_digest]; rewrite ?list.Forall_cons; try by (split; [intros [? _]|intros [? _]]; repeat constructor).
  - split; [done|by constructor].
  - done.
  - done.
  - apply (and_iff_compat_l (false = false)). induction cs as [|c cs IH]; cbn [map concat]; [by split; constructor|]. by rewrite Forall_app, list.Forall_cons, IH.
Qed.
Lemma complete_find t : complete t → ∀ k, complete_at (find t k).
Proof.
  induction t as [|id p v|id p ch nb st IH|id p c IH|id cs IH|id h] using tree_rect'; intros Hc k; apply complete_cons in Hc as [Hd Hc]; try done.
  - cbn. by destruct (decide _).
  - cbn. by destruct (decide _).
  - rewrite find_ext. destruct (decide _); [by apply IH|done].
  - destruct k as [|a k]; [done|]. rewrite find_branch. destruct (cs !! Z.to_nat a) as [c|] eqn:Ei; [|done].
    pose proof (Forall_lookup_1 _ _ _ _ IH Ei) as IHc. apply IHc. by apply (Forall_lookup_1 _ _ _ _ Hc Ei).
Qed.
Lemma find_complete {HB : Branches} t : ∀ acct n, wf acct n t → (∀ k, key_ok n k → complete_at (find t k)) → complete t.
Proof.
  induction t as [|id p v|id p ch nb st IH|id p c IH|id cs IH|id h] using tree_rect'; intros acct n Hwf H; apply complete_cons; cbn [is_digest]; try done.
  - inversion Hwf; subst. split; [done|]. specialize (H p). cbn in H. rewrite decide_True in H by done. by apply H.
  - inversion Hwf as [| | |? n0 ? ? ? Hp0 Hpo Hbr Hw0| |]; subst. split; [done|]. apply (IH acct n0 Hw0). intros k Hk.
    specialize (H (p ++ k) (key_app _ _ _ Hpo Hk)). by rewrite find_ext, take_app_length, decide_True, drop_app_length in H.
  - inversion Hwf as [| | | |? n0 ? ? Hl Ho Hwfs|]; subst. split; [done|]. apply list.Forall_forall. intros c [i Hi]%list_elem_of_lookup.
    pose proof (Forall_lookup_1 _ _ _ _ IH Hi) as IHc. apply (IHc acct n0 (Forall_lookup_1 _ _ _ _ Hwfs Hi)). intros k Hk. apply lookup_lt_Some in Hi as Hlt.
    specialize (H (Z.of_nat i :: k)). rewrite find_branch, Nat2Z.id, Hi in H. apply H, key_cons. split; [unfold nibble_ok; lia|done].
  - exfalso. apply (H (replicate n 0)). split; [apply length_replicate|]. by apply Forall_replicate; unfold nibble_ok.
Qed.

(** ** A key below a digest *)
Section map.
Context {HB : Branches} (keccak256 : list Z → Z).
Abbreviation at_node := (at_node keccak256).
Abbreviation rep := (rep keccak256).
Lemma rep_forget T id t : store_ok T → rep T t → id ∉ ids t → rep (forget id T) t.
Proof. intros HT Hr Hn. apply (rep_evolves _ T _ [id]); [by apply forget_evolves| |done]. set_solver. Qed.
Lemma upsert_unknown t : ∀ fuel acct n key T, store_ok T → rep T t → NoDup (ids t) → wf acct n t → length key = n → path_ok key → (n < fuel)%nat →
  known (find t key) = false → upsert_node fuel (tid t) key T = Abort.
Proof.
  induction t as [|id p v|id p ch nb st _|id p c IH|id cs IH|id h] using tree_rect'; intros [|fuel] acct n key T HT Hr Hnd Hwf Hk Hok Hf Hu; try lia; try done.
  - cbn in Hu. by destruct (decide _).
  - cbn in Hu. by destruct (decide _).
  - apply rep_ext in Hr as [A Hr]. inversion Hwf as [| | |? n0 ? ? ? Hp0 Hpo Hbr Hw0| |]; subst. rewrite ids_ext in Hnd. apply list.NoDup_cons in Hnd as [Hn Hnd].
    destruct (upsert_enter _ _ _ A HT eq_refl) as (A1 & [E1 _] & _ & b & R1 & R2 & _). cbn [upsert_node]. rewrite (bind_Ok_eq _ _ _ _ _ (forget_run (tid (Ext id p c)) T)).
    rewrite (bind_Ok_eq _ _ _ _ _ R1), (bind_Ok_eq _ _ _ _ _ R2). cbn [node_of]. rewrite find_ext in Hu. destruct (decide _) as [Ht|]; [|done].
    rewrite (proj2 (cpl_full p key) Ht), Nat.eqb_refl. rewrite (bind_Ok_eq _ _ _ _ _ (substr_run key (length p) _ ltac:(lia))).
    apply (IH fuel acct n0); try done; [by apply rep_forget|rewrite length_drop; lia|by apply Forall_drop|lia].
  - apply rep_branch in Hr as [A Hr]. inversion Hwf as [| | | |? n0 ? ? Hl Ho Hwfs|]; subst. rewrite ids_branch in Hnd. apply list.NoDup_cons in Hnd as [Hn Hnd].
    destruct (upsert_enter _ _ _ A HT eq_refl) as (A1 & [E1 _] & _ & b & R1 & R2 & _). cbn [upsert_node]. rewrite (bind_Ok_eq _ _ _ _ _ (forget_run (tid (Branch id cs)) T)).
    rewrite (bind_Ok_eq _ _ _ _ _ R1), (bind_Ok_eq _ _ _ _ _ R2). cbn [node_of]. destruct key as [|nib key]; [done|]. rewrite find_branch in Hu.
    destruct (cs !! Z.to_nat nib) as [c|] eqn:Ei; [|done]. apply list.Forall_cons in Hok as [Hnib Hok].
    rewrite (proj2 (Z.eqb_neq (len (nib :: key)) 0)) by (unfold len; cbn; lia). cbn [negb]. rewrite run_massert. unfold nibble. cbn [lookup list_lookup]. rewrite run_mvalue.
    rewrite list_lookup_fmap, Ei. cbn [fmap option_fmap option_map]. rewrite run_mvalue.
    rewrite (bind_Ok_eq _ _ _ _ _ (substr_run (nib :: key) 1 _ ltac:(cbn; lia))). cbn [drop skipn].
    rewrite (ids_list_pick cs _ c Ei) in Hn, Hnd. apply list.NoDup_app in Hnd as [Hnd _].
    pose proof (Forall_lookup_1 _ _ _ _ IH Ei fuel acct n0 key (forget id T)) as IHc. apply bind_Abort, IHc; try done.
    + apply rep_forget; [done|by apply (Forall_lookup_1 _ _ _ _ Hr Ei)|]. intros ?. apply Hn, elem_of_app. by left.
    + by apply (Forall_lookup_1 _ _ _ _ Hwfs Ei).
    + cbn [length] in *. lia.
    + cbn [length] in *. lia.
  - apply list.Forall_cons in Hr as [A _]. assert (C : cur (forget id T) id = Some (DigestView h)) by exact (an_cur _ _ _ A).
    destruct (read_node_run _ _ _ C) as (b & _ & R1 & R2). cbn [upsert_node tid]. rewrite (bind_Ok_eq _ _ _ _ _ (forget_run id T)).
    by rewrite (bind_Ok_eq _ _ _ _ _ R1), (bind_Ok_eq _ _ _ _ _ R2).
Qed.

(** ** A store that holds a tree *)
Record held (T : OffsetTrie) (acct : bool) (t : tree) : Prop := {
  he_store : store_ok T;
  he_rep : rep T t;
  he_nodup : NoDup (ids t);
  he_wf : wf acct 64 t
}.
Lemma held_ids T acct t i : held T acct t → i ∈ ids t → 0 < i < next_id_ T ∧ i < 2 ^ 32.
Proof. intros H. apply (rep_ids keccak256), H. Qed.
Lemma held_empty T acct : store_ok T → held T acct Empty.
Proof. intros H. split; [done|constructor|apply NoDup_nil_2|constructor]. Qed.
(** a tree whose nodes are not written to *)
Lemma held_evolves T T' X acct t : held T acct t → evolves T T' X → (∀ i, i ∈ ids t → i ∉ X) → held T' acct t.
Proof. intros [H1 H2 H3 H4] E HX. split; [apply E|by apply (rep_evolves _ T _ X)|done|done]. Qed.
Lemma held_null T acct t : held T acct t → (tid t =? NULL_ID) = is_empty t.
Proof.
  intros H. destruct (is_empty t) eqn:E; [by destruct t|]. apply Z.eqb_neq. pose proof (held_ids T acct t _ H (tid_in t E)). unfold NULL_ID. lia.
Qed.

(** *** The leaf is written *)
Section filled.
Context (T T' : OffsetTrie) (acct : bool) (t : tree) (key p : list Z) (leaf : Z) (X : list Z) (plug : content → tree).
Context (HT : held T acct t) (Ev : evolves T T' (NULL_ID :: ids t)) (Ho : hole keccak256 T T' acct 64 t key p leaf X plug).
Lemma hole_X i : i ∈ X → i < next_id_ T' ∧ i ≠ leaf ∧ i ≠ NULL_ID.
Proof using Ev HT Ho.
  intros Hi. destruct (ho_X _ _ _ _ _ _ _ _ _ _ _ Ho i Hi) as [[Ht|Hn] Hl]; pose proof (ag_next _ _ _ (proj2 Ev)).
  - pose proof (held_ids _ _ _ _ HT Ht). unfold NULL_ID. lia.
  - pose proof (so_next _ (he_store _ _ _ HT)). unfold OVERLAY_BASE, NULL_ID in *. lia.
Qed.
(** [T2]: what else was written before the leaf *)
Lemma fill_hole l T2 bytes : store_ok T2 → agree T' T2 (λ i, i ∈ X) → rep_content keccak256 T2 l → content_wf acct l → NoDup (content_ids l) →
  (∀ i, i ∈ content_ids l → i ∉ X ∧ i ≠ leaf) → view bytes = Some (node_of (mk_leaf leaf p l)) →
  let T3 := put leaf bytes T2 in
  put_node leaf bytes T2 = Ok (leaf, T3) ∧ evolves T2 T3 [leaf] ∧ held T3 acct (plug l).
Proof using Ev HT Ho.
  intros HT2 Hag Hrc Hcw Hnd Hdis Hv T3. destruct (ho_leaf _ _ _ _ _ _ _ _ _ _ _ Ho) as [Hl Hw]. pose proof (ag_next _ _ _ Hag) as Hn2.
  assert (Hne : leaf ≠ NULL_ID) by (unfold NULL_ID; lia). pose proof (put_evolves leaf bytes T2 HT2 Hne ltac:(lia)) as Ep.
  split; [by apply put_node_old|]. split; [done|]. assert (A : at_node T3 (mk_leaf leaf p l)).
  { assert (C : cur T3 leaf = Some (node_of (mk_leaf leaf p l))) by (unfold T3; rewrite cur_put, decide_True by done; done).
    destruct (ho_old _ _ _ _ _ _ _ _ _ _ _ Ho) as [(_ & _ & Hb & _)|(l0 & _ & Hr0 & _)].
    - apply at_node_new; rewrite ?tid_leaf; [unfold T3; cbn; lia|done|by destruct l|done|apply lookup_delete_eq].
    - apply rep_leaf in Hr0 as [A0 _]. apply (at_node_rewrite keccak256 T' T3 (mk_leaf leaf p l0)); rewrite ?tid_leaf; try done; [by destruct l0|by destruct l|exact (ag_blob _ _ _ Hag)|apply lookup_delete_eq]. }
  split.
  - apply Ep.
  - apply (ho_rep _ _ _ _ _ _ _ _ _ _ _ Ho).
    + apply (agree_trans _ T2); [done|]. apply (agree_mono _ _ _ _ (proj2 Ep)). intros i Hi. destruct (hole_X i Hi) as (? & ? & _). split; [lia|set_solver].
    + apply rep_leaf. split; [done|]. destruct l as [v|ch nb st]; [done|]. cbn [rep_content content_ids] in *. apply (rep_evolves _ T2 _ [leaf]); [done| |done].
      intros i Hi ->%list_elem_of_singleton. by apply Hdis in Hi as [_ ?].
  - rewrite (ho_ids _ _ _ _ _ _ _ _ _ _ _ Ho), ids_leaf. cbn [app]. apply list.NoDup_cons. split.
    + intros [Hi|Hi]%elem_of_app; [by apply Hdis in Hi as [_ ?]|by apply hole_X in Hi as (_ & ? & _)].
    + apply list.NoDup_app. split_and!; [done|by intros i Hi; apply Hdis|by apply (ho_nodup _ _ _ _ _ _ _ _ _ _ _ Ho)].
  - by apply (ho_wf _ _ _ _ _ _ _ _ _ _ _ Ho).
Qed.
End filled.

(** *** Inserting *)
Lemma upsert_held T acct t key : held T acct t → key_ok 64 key → next_id_ T + 3 <= 2 ^ 32 →
  (upsert_node trie_fuel (tid t) key T = Abort ∧ known (find t key) = false) ∨
  (known (find t key) = true ∧ upsert_spec keccak256 trie_fuel acct 64 t key T).
Proof.
  intros [H1 H2 H3 H4] [Hk Hok] Hn. destruct (known (find t key)) eqn:E; [right|left].
  - split; [done|]. apply upsert_ok; try done. unfold trie_fuel. lia.
  - split; [|done]. apply (upsert_unknown t trie_fuel acct 64%nat); try done. unfold trie_fuel. lia.
Qed.
(** What an update of a tree does, apart from its content. *)
Record updated (T T' : OffsetTrie) (acct : bool) (t t' : tree) (m : Z) : Prop := {
  up_held : held T' acct t';
  up_evolves : evolves T T' (NULL_ID :: ids t);
  up_next : next_id_ T' <= next_id_ T + m;
  up_root : root T' = root T;
  up_ids : ∀ i, i ∈ ids t' → i ∈ ids t ∨ next_id_ T <= i
}.
Lemma updated_refl T acct t : held T acct t → updated T T acct t t 0.
Proof. intros H. split; [done|apply evolves_refl, H|lia|done|by left]. Qed.
Lemma updated_trans T T1 T2 acct t t1 t2 m m' : updated T T1 acct t t1 m → updated T1 T2 acct t1 t2 m' → updated T T2 acct t t2 (m + m').
Proof.
  intros [A1 A2 A3 A4 A5] [B1 B2 B3 B4 B5]. pose proof (ag_next _ _ _ (proj2 A2)). split; [done| |lia|congruence|].
  - eapply evolves_trans; [exact A2|exact B2|]. intros i [->|Hi]%elem_of_cons; [left; by left|]. apply A5 in Hi as [?|?]; [left; by right|by right].
  - intros i [Hi|Hi]%B5; [|right; lia]. by apply A5.
Qed.
Lemma updated_mono T T' acct t t' m m' : updated T T' acct t t' m → m <= m' → updated T T' acct t t' m'.
Proof. intros [] H. split; try done. lia. Qed.
Lemma storage_upsert T t key v : held T false t → key_ok 64 key → next_id_ T + 3 <= 2 ^ 32 → 0 <= v < 2 ^ 256 →
  (upsert_node trie_fuel (tid t) key T = Abort ∧ known (find t key) = false) ∨
  ∃ leaf p T1 T2 t', upsert_node trie_fuel (tid t) key T = Ok ((leaf, p), T1) ∧ put_storage leaf p v T1 = Ok (leaf, T2) ∧
    tid t' = (if tid t =? NULL_ID then leaf else tid t) ∧ updated T T2 false t t' 3 ∧
    ∀ k, key_ok 64 k → find t' k = if decide (k = key) then Found (CStorage v) else find t k.
Proof.
  intros HT Hk Hn Hv. destruct (upsert_held T false t key HT Hk Hn) as [?|[_ (leaf & p & T1 & X & plug & R & Ev & Nx & Ho)]]; [by left|right].
  destruct (ho_path _ _ _ _ _ _ _ _ _ _ _ Ho) as [Hp Hl].
  destruct (fill_hole T T1 false t key p leaf X plug HT Ev Ho (CStorage v) T1 (storage_bytes p v)) as (R2 & Ep & Hh); try done.
  - apply Ev.
  - apply agree_refl.
  - apply NoDup_nil_2.
  - intros i Hi. by apply not_elem_of_nil in Hi.
  - by apply view_storage.
  - set (T2 := put leaf (storage_bytes p v) T1) in *. assert (R3 : put_storage leaf p v T1 = Ok (leaf, T2)).
    { unfold put_storage, append_storage. rewrite run_bind_bind, (bind_Ok_eq _ _ _ _ _ (append_path_run p T1 ltac:(unfold len, MAX_PATH_NIBBLES; lia))). by autorewrite with run. }
    exists leaf, p, T1, T2, (plug (CStorage v)). split_and!; [done|done| | |].
    + by rewrite (ho_tid _ _ _ _ _ _ _ _ _ _ _ Ho), (held_null _ _ _ HT).
    + destruct (ho_leaf _ _ _ _ _ _ _ _ _ _ _ Ho) as [Hlf _].
      assert (Hold : leaf ∈ ids t ∨ next_id_ T <= leaf).
      { destruct (ho_old _ _ _ _ _ _ _ _ _ _ _ Ho) as [(_ & ? & _)|(l0 & _ & _ & Hids & _)]; [by right|left]. rewrite <- Hids, ids_leaf. by left. }
      split; [done| |cbn; lia| |].
      * eapply evolves_trans; [exact Ev|exact Ep|]. intros i ->%list_elem_of_singleton. destruct Hold; [left; by right|by right].
      * rewrite (keeps_put_storage _ _ _ _ _ _ R3). by apply (keeps_upsert _ _ _ _ _ _ R).
      * intros i. rewrite (ho_ids _ _ _ _ _ _ _ _ _ _ _ Ho). cbn. intros [->|Hi]%elem_of_cons; [done|].
        destruct (ho_X _ _ _ _ _ _ _ _ _ _ _ Ho i Hi) as [[?|[? _]] _]; [by left|by right].
    + intros k [Hk1 Hk2]. by apply (ho_find _ _ _ _ _ _ _ _ _ _ _ Ho).
Qed.
(** *** Erasing *)
Lemma erase_held T acct t key : held T acct t → key_ok 64 key →
  (erase_node trie_fuel (tid t) key T = Abort ∧ ¬ complete t) ∨
  ∃ r T' t', erase_node trie_fuel (tid t) key T = Ok (r, T') ∧ tid t' = match r with Erased => NULL_ID | _ => tid t end ∧ updated T T' acct t t' 0 ∧
    ∀ k, key_ok 64 k → find t' k = if decide (k = key) then Absent else find t k.
Proof.
  intros HT [Hk Hok]. destruct (erase_ok keccak256 t trie_fuel acct 64%nat key T) as [?|[[R Hf]|[[R [l El]]|(T' & t' & R & Ev & Nx & Ht & Hr & Hwf & _ & _ & Hnd & Hids & _ & Hfind)]]];
    try apply HT; try done; [unfold trie_fuel; lia|by left|right..].
  - exists Unmodified, T, t. split_and!; [done|done|by apply updated_refl|]. intros k Hk'. by destruct (decide (k = key)) as [->|].
  - exists Erased, T, Empty. split_and!; [done|done| |].
    + split; [apply held_empty, HT|apply evolves_refl, HT|lia|done|]. intros i Hi. by apply not_elem_of_nil in Hi.
    + intros k Hk'. rewrite El, find_leaf. destruct (decide (k = key)) as [->|]; [done|]. by rewrite decide_False.
  - exists Modified, T', t'. split_and!; [done|done| |].
    + split; [by split; [apply Ev|..]| |lia|by apply (keeps_erase _ _ _ _ _ _ R)|intros i Hi; left; by apply Hids].
      apply (evolves_mono _ _ _ _ Ev). intros i Hi. by right.
    + intros k [? ?]. by apply Hfind.
Qed.
End map.
