(* ===== verification/PartialTrieDb.v ===== *)
(** * The database of a witness

    src/category/execution/ethereum/db/partial_trie_db: the [Db] of stateless
    execution, over a witness trie.  Reads go to the trie of the pre-state;
    [commit] applies the deltas of a block to it.

    [keccak256] is a parameter.  The deltas come as the lists their maps
    iterate over: in what order is up to the map.  The callback that completes
    the header may use the database. *)
From S2P Require Import Prelude Account Uint256Text BlockState Transaction Rlp OffsetTrie.

(** ** AccountLeafView::account *)
(** [MONAD_ASSERT(x.has_value())] *)
Definition decoded {A} (r : result A) : option A := match r with inr a => Some a | inl _ => None end.
Definition leaf_account (code_hash_rlp nonce_balance_rlp : list Z) : option Account :=
  '(hash, _) ← decoded (decode_bytes32 code_hash_rlp);
  if (len nonce_balance_rlp >=? 2) && (len nonce_balance_rlp <=? MAX_NONCE_BALANCE_RLP_LEN) then
    '(nonce, rest) ← decoded (decode_unsigned 8 nonce_balance_rlp);
    '(balance, rest) ← decoded (decode_unsigned 32 rest);
    match rest with
    | [] => Some (mkAccount balance hash nonce (mkIncarnation 0 0))
    | _ => None
    end
  else None.

(** ** The state *)
(** A delta of an account with its storage, in the order of iteration. *)
Record Delta := mkDelta {
  d_account : option Account * option Account;
  d_storage : list (Z * (Z * Z))
}.
Abbreviation StateDeltas := (list (Z * Delta)).
Definition is_changed_slot (d : Z * Z) : bool := negb (d.1 =? d.2).
Definition is_changed (d : Delta) : bool :=
  negb (bool_decide ((d_account d).1 = (d_account d).2)) || existsb (λ kv, is_changed_slot kv.2) (d_storage d).

Record PartialTrieDb := mkPartialTrieDb {
  trie_ : OffsetTrie;
  codes_ : gmap Z Code;
  block_number_ : Z;
  last_committed_header_ : BlockHeader
}.
Abbreviation dbM := (M PartialTrieDb).
Definition set_trie (T : OffsetTrie) (db : PartialTrieDb) : PartialTrieDb :=
  mkPartialTrieDb T (codes_ db) (block_number_ db) (last_committed_header_ db).
(** An operation of the trie. *)
Definition on_trie {A} (m : M OffsetTrie A) : dbM A := λ db,
  match m (trie_ db) with
  | Ok (a, T) => Ok (a, set_trie T db)
  | Abort => Abort
  | Throw e => Throw e
  end.

Section db.
Context (keccak256 : list Z → Z).
(** [NibblesView{keccak256(x.bytes)}] *)
Definition hashed_key (bytes : list Z) : option (list Z) := nibbles_of 64 (be_bytes 32 (keccak256 bytes)).
Definition account_key (address : Z) : option (list Z) := hashed_key (be_bytes 20 address).
Definition slot_key (slot : Z) : option (list Z) := hashed_key (be_bytes 32 slot).

(** ** Reads *)
Definition trie_read_account (addr : Z) : M OffsetTrie (option Account) :=
  key ← mvalue (account_key addr);
  T ← mget;
  nd ← find_original trie_fuel (root T) key;
  match nd with
  | NullView => mret None
  | AccountLeafView _ ch nb _ => a ← mvalue (leaf_account ch nb); mret (Some a)
  | _ => mabort
  end.
Definition trie_read_storage (addr slot : Z) : M OffsetTrie Z :=
  akey ← mvalue (account_key addr);
  T ← mget;
  nd ← find_original trie_fuel (root T) akey;
  sroot ← (match nd with
           | NullView => mret NULL_ID
           | AccountLeafView storage _ _ _ => mret storage
           | _ => mabort
           end);
  if sroot =? NULL_ID then mret 0
  else
    skey ← mvalue (slot_key slot);
    nd ← find_original trie_fuel sroot skey;
    match nd with
    | NullView => mret 0
    | StorageLeafView v _ => mret v
    | _ => mabort
    end.
Definition pt_read_account (addr : Z) : dbM (option Account) := on_trie (trie_read_account addr).
Definition pt_read_storage (addr : Z) (_ : Incarnation) (slot : Z) : dbM Z := on_trie (trie_read_storage addr slot).
Definition pt_read_code (code_hash : Z) : dbM Code := db ← mget; mret (default [] (codes_ db !! code_hash)).
Definition pt_state_root : dbM Z := on_trie (OffsetTrie.state_root keccak256).
Definition pt_receipts_root : dbM Z := mgets (λ db, receipts_root (last_committed_header_ db)).
Definition pt_transactions_root : dbM Z := mgets (λ db, transactions_root (last_committed_header_ db)).
Definition pt_withdrawals_root : dbM (option Z) := mgets (λ db, withdrawals_root (last_committed_header_ db)).
Definition pt_read_eth_header : dbM BlockHeader := mgets last_committed_header_.
Definition get_block_number : dbM Z := mgets block_number_.
Definition set_block_number (n : Z) (db : PartialTrieDb) : PartialTrieDb :=
  mkPartialTrieDb (trie_ db) (codes_ db) n (last_committed_header_ db).
Definition set_block_and_prefix (block_number : Z) : dbM () := mmodify (set_block_number block_number).
Definition set_last_header (h : BlockHeader) (db : PartialTrieDb) : PartialTrieDb :=
  mkPartialTrieDb (trie_ db) (codes_ db) (block_number_ db) h.

(** ** commit *)
(** The slots that get a value, with the root of the storage. *)
Fixpoint upsert_slots (storage : Z) (l : list (Z * (Z * Z))) : M OffsetTrie Z :=
  match l with
  | [] => mret storage
  | (slot, sdelta) :: l =>
      if is_changed_slot sdelta && negb (sdelta.2 =? 0) then
        key ← mvalue (slot_key slot);
        '(sleaf, sleaf_path) ← upsert_node trie_fuel storage key;
        put_storage sleaf sleaf_path sdelta.2;;
        upsert_slots (if storage =? NULL_ID then sleaf else storage) l
      else upsert_slots storage l
  end.
(** The slots that are cleared. *)
Fixpoint erase_slots (storage : Z) (l : list (Z * (Z * Z))) : M OffsetTrie Z :=
  match l with
  | [] => mret storage
  | (slot, sdelta) :: l =>
      if is_changed_slot sdelta && (sdelta.2 =? 0) then
        key ← mvalue (slot_key slot);
        r ← erase_node trie_fuel storage key;
        erase_slots (match r with Erased => NULL_ID | _ => storage end) l
      else erase_slots storage l
  end.
Definition commit_account (addr : Z) (delta : Delta) : M OffsetTrie () :=
  match (d_account delta).2 with
  | None => mret ()
  | Some new_account =>
      if negb (is_changed delta) then mret ()
      else
        key ← mvalue (account_key addr);
        T ← mget;
        '(leaf, leaf_path) ← upsert_node trie_fuel (root T) key;
        (if root T =? NULL_ID then mmodify (set_root leaf) else mret ());;
        p ← get_current leaf;
        nd ← match_ p;
        storage ← (match nd with
                   | NullView => mret NULL_ID
                   | AccountLeafView storage _ _ _ => mret storage
                   | _ => mabort
                   end);
        let storage :=
          match (d_account delta).1 with
          | Some old => if negb (incarnation_eqb (incarnation old) (incarnation new_account)) then NULL_ID else storage
          | None => storage
          end in
        storage ← upsert_slots storage (d_storage delta);
        storage ← erase_slots storage (d_storage delta);
        put_acct leaf leaf_path new_account storage;; mret ()
  end.
Definition delete_account (addr : Z) (delta : Delta) : M OffsetTrie () :=
  match d_account delta with
  | (Some _, None) =>
      key ← mvalue (account_key addr);
      T ← mget;
      r ← erase_node trie_fuel (root T) key;
      match r with Erased => mmodify (set_root NULL_ID) | _ => mret () end
  | _ => mret ()
  end.
Definition commit_deltas (deltas : StateDeltas) : M OffsetTrie () :=
  mfor deltas (λ '(addr, delta), commit_account addr delta);;
  mfor deltas (λ '(addr, delta), delete_account addr delta).
Definition commit (header : BlockHeader) (deltas : StateDeltas) (populate_header_fn : option (BlockHeader → dbM BlockHeader)) : dbM () :=
  mmodify (set_block_number (hdr_number header));;
  on_trie (commit_deltas deltas);;
  mmodify (set_last_header header);;
  populate ← mvalue populate_header_fn;
  h ← populate header;
  mmodify (set_last_header h).
End db.
