(* ===== verification/PartialTrieDbFacts.v ===== *)
(** * Committing a block to the witness trie

    The passes of [commit] over the deltas of a block, each related to what
    the keys find before and after it. *)
From S2P Require Import Prelude Account Uint256Text BlockState Transaction Rlp RlpFacts OffsetTrie OffsetTrieNodes OffsetTrieTree OffsetTrieStore OffsetTrieUpsert OffsetTrieErase OffsetTrieEncode OffsetTrieHash OffsetTrieCanonical OffsetTrieRoot OffsetTrieMap PartialTrieDb.

(** ** Keys *)
Lemma nibbles_of_ok n d : Forall byte_ok d → (n <= 2 * length d)%nat → ∃ k, nibbles_of n d = Some k ∧ key_ok n k.
Proof.
  intros Hd Hn. destruct (nibbles_of n d) as [k|] eqn:E.
  - exists k. split; [done|]. pose proof E as [Hl H]%nibbles_of_Some. split; [done|].
    apply Forall_lookup. intros i v Hv. pose proof (lookup_lt_Some _ _ _ Hv) as Hi. rewrite <- H in Hv by lia. unfold get_nibble in Hv.
    destruct (d !! (i / 2)%nat) as [r|] eqn:Er; [|done]. cbn [mbind option_bind] in Hv. injection Hv as <-.
    pose proof (Forall_lookup_1 _ _ _ _ Hd Er) as Hr. unfold byte_ok, nibble_ok in *. destruct (Nat.even i).
    + rewrite Z.shiftr_div_pow2 by lia. change (2 ^ 4) with 16. split; [apply Z.div_pos; lia|apply Z.div_lt_upper_bound; lia].
    + change 0xF with (Z.ones 4). rewrite Z.land_ones by lia. apply Z.mod_pos_bound. lia.
  - exfalso. unfold nibbles_of in E. apply mapM_None, Exists_exists in E as (i & [_ Hi]%in_seq & Hnone). unfold get_nibble in Hnone.
    destruct (lookup_lt_is_Some_2 d (i / 2)) as [r Hr]; [apply Nat.Div0.div_lt_upper_bound; lia|]. by rewrite Hr in Hnone.
Qed.

Lemma run_mget {W B} (k : W → M W B) w : (mget ≫= k) w = k w w.
Proof. by rewrite (bind_Ok_eq _ _ _ w w eq_refl). Qed.

Section facts.
Context {HB : Branches} (keccak256 : list Z → Z).
Abbreviation held := (held keccak256).
Abbreviation updated := (updated keccak256).
Abbreviation slot_key := (slot_key keccak256).
Abbreviation account_key := (account_key keccak256).
Lemma hashed_key_ok bytes : ∃ k, hashed_key keccak256 bytes = Some k ∧ key_ok 64 k.
Proof. apply nibbles_of_ok; [apply be_bytes_ok|by rewrite be_bytes_length]. Qed.

(** ** Storage *)
(** what a slot has after it was written *)
Definition slot_value (v : Z) : answer := if v =? 0 then Absent else Found (CStorage v).
(** the entry of the deltas for a key, among those a pass takes *)
Fixpoint written (takes : Z → bool) (l : list (Z * (Z * Z))) (j : list Z) : option Z :=
  match l with
  | [] => None
  | (slot, d) :: l =>
      if is_changed_slot d && takes d.2 && bool_decide (slot_key slot = Some j) then Some d.2 else written takes l j
  end.
Definition slots_after (takes : Z → bool) (l : list (Z * (Z * Z))) (f : list Z → answer) (j : list Z) : answer :=
  match written takes l j with Some v => slot_value v | None => f j end.
Definition distinct_slots (l : list (Z * (Z * Z))) : Prop := NoDup (slot_key <$> l.*1).
Definition values_ok (l : list (Z * (Z * Z))) : Prop := Forall (λ e : Z * (Z * Z), 0 <= e.2.2 < 2 ^ 256) l.
Lemma distinct_cons slot d l : distinct_slots ((slot, d) :: l) ↔ slot_key slot ∉ slot_key <$> l.*1 ∧ distinct_slots l.
Proof. unfold distinct_slots. cbn [fmap list_fmap fst]. apply list.NoDup_cons. Qed.
Lemma written_none takes l j : Some j ∉ slot_key <$> l.*1 → written takes l j = None.
Proof.
  induction l as [|[slot d] l IH]; [done|]. cbn. intros [Hne Hn]%not_elem_of_cons. rewrite bool_decide_eq_false_2 by congruence. rewrite andb_false_r. by apply IH.
Qed.
Lemma slots_after_none takes l f j : Some j ∉ slot_key <$> l.*1 → slots_after takes l f j = f j.
Proof. intros H. unfold slots_after. by rewrite written_none. Qed.
(** the two passes together take every entry *)
Lemma slots_after_both l f j : distinct_slots l →
  slots_after (λ v, v =? 0) l (slots_after (λ v, negb (v =? 0)) l f) j = slots_after (λ _, true) l f j.
Proof.
  intros H. unfold slots_after. assert (E : match written (λ v, v =? 0) l j with Some v => Some v | None => written (λ v, negb (v =? 0)) l j end = written (λ _, true) l j).
  { induction l as [|[slot d] l IH]; [done|]. apply distinct_cons in H as [Hn H]. specialize (IH H). cbn [written].
    destruct (is_changed_slot d); [|done]. cbn [andb]. destruct (bool_decide (slot_key slot = Some j)) eqn:Ek; [|by rewrite !andb_false_r].
    apply bool_decide_eq_true in Ek. rewrite Ek in Hn. rewrite !andb_true_r. destruct (d.2 =? 0); cbn [negb]; [done|]. by rewrite written_none. }
  rewrite <- E. destruct (written (λ v, v =? 0) l j); [done|]. by destruct (written _ l j).
Qed.
(** one entry, then the others *)
Lemma slots_after_cons takes slot d l f g j key : distinct_slots ((slot, d) :: l) → slot_key slot = Some key → is_changed_slot d && takes d.2 = true →
  (∀ k, key_ok 64 k → g k = if decide (k = key) then slot_value d.2 else f k) → key_ok 64 j →
  slots_after takes l g j = slots_after takes ((slot, d) :: l) f j.
Proof.
  intros H Hk Ht Hg Hj. apply distinct_cons in H as [Hn _]. unfold slots_after. cbn [written]. rewrite Ht. cbn [andb]. rewrite Hk in *.
  destruct (decide (j = key)) as [->|Hne].
  - rewrite bool_decide_eq_true_2, written_none by done. by rewrite Hg, decide_True.
  - rewrite bool_decide_eq_false_2 by congruence. destruct (written takes l j); [done|]. by rewrite Hg, decide_False.
Qed.
Lemma slots_after_skip takes slot d l f j : is_changed_slot d && takes d.2 = false → slots_after takes ((slot, d) :: l) f j = slots_after takes l f j.
Proof. intros H. unfold slots_after. cbn [written]. by rewrite H. Qed.
(** updates of a complete tree leave a complete tree *)
Lemma complete_updated T acct t t' key a : held T acct t' → complete t → complete_at a →
  (∀ k, key_ok 64 k → find t' k = if decide (k = key) then a else find t k) → complete t'.
Proof.
  intros Hh Hc Ha H. apply (find_complete t' acct 64%nat); [apply Hh|]. intros k Hk. rewrite H by done. destruct (decide _); [done|by apply complete_find].
Qed.
Lemma upsert_slots_ok l : ∀ T st, held T false st → distinct_slots l → values_ok l → next_id_ T + 3 * Z.of_nat (length l) <= 2 ^ 32 →
  (upsert_slots keccak256 (tid st) l T = Abort ∧ ¬ complete st) ∨
  ∃ T' st', upsert_slots keccak256 (tid st) l T = Ok (tid st', T') ∧ updated T T' false st st' (3 * Z.of_nat (length l)) ∧
    ∀ j, key_ok 64 j → find st' j = slots_after (λ v, negb (v =? 0)) l (find st) j.
Proof.
  induction l as [|[slot d] l IH]; intros T st HT Hd Hv Hn.
  { right. exists T, st. split; [done|]. split; [by apply updated_refl|done]. }
  pose proof Hd as Hd'. apply distinct_cons in Hd' as [_ Hd']. apply list.Forall_cons in Hv as [Hv0 Hv]. cbn [length] in Hn. cbn [upsert_slots].
  destruct (is_changed_slot d && negb (d.2 =? 0)) eqn:E.
  2: { destruct (IH T st HT Hd' Hv ltac:(lia)) as [?|(T' & st' & R & U & F)]; [by left|right]. exists T', st'. split; [done|].
       split; [apply (updated_mono _ _ _ _ _ _ _ _ U); cbn [length]; lia|]. intros j Hj. by rewrite slots_after_skip, F. }
  destruct (hashed_key_ok (be_bytes 32 slot)) as (key & Ek & Hk). unfold PartialTrieDb.slot_key. rewrite Ek, run_mvalue.
  destruct (storage_upsert keccak256 T st key d.2 HT Hk ltac:(lia) Hv0) as [[R Hu]|(leaf & p & T1 & T2 & st1 & R1 & R2 & Ht & U & F)].
  { left. split; [by apply bind_Abort|]. intros Hc. pose proof (complete_find st Hc key) as C. by destruct (find st key). }
  rewrite (bind_Ok_eq _ _ _ _ _ R1). cbn [fst snd]. rewrite (bind_Ok_eq _ _ _ _ _ R2), <- Ht. pose proof (up_held _ _ _ _ _ _ _ U) as H1.
  assert (Hval : slot_value d.2 = Found (CStorage d.2)).
  { unfold slot_value. apply andb_prop in E as [_ E]. by destruct (d.2 =? 0). }
  destruct (IH T2 st1 H1 Hd' Hv) as [[R Hc]|(T' & st' & R & U' & F')].
  - pose proof (up_next _ _ _ _ _ _ _ U). lia.
  - left. split; [done|]. intros Hc'. apply Hc. eapply (complete_updated T2 false st st1 key); [done|done| |exact F]. done.
  - right. exists T', st'. split; [done|]. split; [apply (updated_mono _ _ _ _ _ _ (3 + 3 * Z.of_nat (length l))); [by eapply updated_trans|cbn [length]; lia]|].
    intros j Hj. rewrite F' by done. apply (slots_after_cons _ slot d l (find st) (find st1) j key); try done. by rewrite Hval.
Qed.
Lemma erase_slots_ok l : ∀ T st, held T false st → distinct_slots l →
  (erase_slots keccak256 (tid st) l T = Abort ∧ ¬ complete st) ∨
  ∃ T' st', erase_slots keccak256 (tid st) l T = Ok (tid st', T') ∧ updated T T' false st st' 0 ∧
    ∀ j, key_ok 64 j → find st' j = slots_after (λ v, v =? 0) l (find st) j.
Proof.
  induction l as [|[slot d] l IH]; intros T st HT Hd.
  { right. exists T, st. split; [done|]. split; [by apply updated_refl|done]. }
  pose proof Hd as Hd'. apply distinct_cons in Hd' as [_ Hd']. cbn [erase_slots].
  destruct (is_changed_slot d && (d.2 =? 0)) eqn:E.
  2: { destruct (IH T st HT Hd') as [?|(T' & st' & R & U & F)]; [by left|right]. exists T', st'. split; [done|].
       split; [done|]. intros j Hj. by rewrite slots_after_skip, F. }
  destruct (hashed_key_ok (be_bytes 32 slot)) as (key & Ek & Hk). unfold PartialTrieDb.slot_key. rewrite Ek, run_mvalue.
  destruct (erase_held keccak256 T false st key HT Hk) as [[R Hu]|(r & T1 & st1 & R1 & Ht & U & F)]; [left; split; [by apply bind_Abort|done]|].
  rewrite (bind_Ok_eq _ _ _ _ _ R1), <- Ht. pose proof (up_held _ _ _ _ _ _ _ U) as H1.
  assert (Hval : slot_value d.2 = Absent).
  { unfold slot_value. apply andb_prop in E as [_ E]. by rewrite E. }
  destruct (IH T1 st1 H1 Hd') as [[R Hc]|(T' & st' & R & U' & F')].
  - left. split; [done|]. intros Hc'. apply Hc. eapply (complete_updated T1 false st st1 key); [done|done| |exact F]. done.
  - right. exists T', st'. split; [done|]. split; [apply (updated_trans _ _ _ _ _ _ _ _ _ _ U U')|].
    intros j Hj. rewrite F' by done. apply (slots_after_cons _ slot d l (find st) (find st1) j key); try done. by rewrite Hval.
Qed.

(** ** Accounts *)
Definition nonce_balance (a : Account) : list Z := encode_unsigned 8 (nonce a) ++ encode_unsigned 32 (balance a).
Definition account_ok (a : Account) : Prop := uint_ok 8 (nonce a) ∧ uint_ok 32 (balance a) ∧ uint_ok 32 (code_hash a).
Definition account_content (a : Account) (st : tree) : content := CAccount (encode_bytes32 (code_hash a)) (nonce_balance a) st.
Lemma unsigned_len w n : (w <= 32)%nat → 1 <= len (encode_unsigned w n) <= Z.of_nat w + 1.
Proof.
  intros Hw. unfold encode_unsigned. pose proof (encode_string2_nonempty (to_big_compact w n)). pose proof (to_big_compact_length w n).
  split; [lia|]. rewrite encode_string2_short by lia. destruct (_ && _); rewrite ?len_cons; lia.
Qed.
Lemma nonce_balance_len a : 2 <= len (nonce_balance a) <= MAX_NONCE_BALANCE_RLP_LEN.
Proof.
  unfold nonce_balance, MAX_NONCE_BALANCE_RLP_LEN. rewrite len_app. pose proof (unsigned_len 8 (nonce a) ltac:(lia)). pose proof (unsigned_len 32 (balance a) ltac:(lia)). lia.
Qed.
Lemma bytes32_len h : length (encode_bytes32 h) = HASH_RLP_LEN.
Proof.
  assert (len (be_bytes 32 h) = 32) as E by (unfold len; by rewrite be_bytes_length). unfold encode_bytes32. rewrite encode_string2_short by lia. rewrite E. cbn [Z.eqb Pos.eqb andb length].
  by rewrite be_bytes_length.
Qed.
Lemma put_acct_run leaf p a storage T : path_ok p → (length p <= 64)%nat → wire_ok storage →
  put_acct leaf p a storage T = put_node leaf (acct_bytes storage (encode_bytes32 (code_hash a)) (nonce_balance a) p) T ∧
  view (acct_bytes storage (encode_bytes32 (code_hash a)) (nonce_balance a) p) = Some (AccountLeafView storage (encode_bytes32 (code_hash a)) (nonce_balance a) p).
Proof.
  intros Hp Hl Hw. split; [|apply view_acct; [done|done|apply bytes32_len]]. unfold put_acct, append_acct, append_node_id. rewrite !run_bind_bind.
  rewrite (bind_Ok_eq _ _ _ _ _ (wire_run storage T Hw)). autorewrite with run. fold (nonce_balance a). pose proof (nonce_balance_len a) as Hn.
  rewrite (proj2 (Z.geb_le (len (nonce_balance a)) 2)), (proj2 (Z.leb_le (len (nonce_balance a)) MAX_NONCE_BALANCE_RLP_LEN)) by lia. cbn [andb]. rewrite run_massert, run_bind_bind.
  rewrite (bind_Ok_eq _ _ _ _ _ (append_path_run p T ltac:(unfold len, MAX_PATH_NIBBLES; lia))). by autorewrite with run.
Qed.

(** what an account has when its storage is kept *)
Definition wiped (delta : Delta) : bool :=
  match d_account delta with (Some old, Some new) => negb (incarnation_eqb (incarnation old) (incarnation new)) | _ => false end.
Definition storage_before (delta : Delta) (old : answer) : tree :=
  match old with Found (CAccount _ _ st) => if wiped delta then Empty else st | _ => Empty end.
(** the account and its storage after the deltas of it *)
Definition account_after (delta : Delta) (new : Account) (old a : answer) : Prop :=
  known old = true ∧ ∃ st, a = Found (account_content new st) ∧ wf false 64 st ∧ (complete (storage_before delta old) → complete st) ∧
    ∀ j, key_ok 64 j → find st j = slots_after (λ _, true) (d_storage delta) (find (storage_before delta old)) j.
Lemma slots_complete l f j : complete_at (f j) → complete_at (slots_after (λ _, true) l f j).
Proof. intros H. unfold slots_after. destruct (written _ l j) as [v|]; [|done]. unfold slot_value. by destruct (v =? 0). Qed.

Definition delta_ok (delta : Delta) : Prop :=
  distinct_slots (d_storage delta) ∧ values_ok (d_storage delta) ∧ match (d_account delta).2 with Some a => account_ok a | None => True end.
Definition delta_cost (delta : Delta) : Z := 3 + 3 * Z.of_nat (length (d_storage delta)).
Record rooted_held (T : OffsetTrie) (t : tree) : Prop := { rh_held : held T true t; rh_root : root T = tid t }.
Lemma evolves_set_root T r : store_ok T → evolves T (set_root r T) [].
Proof. intros [H1 H2 H3 H4 H5 H6]. split; [by split|]. split; [done|cbn; lia|done|by left]. Qed.

(** *** The work between the leaf found and the leaf written *)
Section one_account.
Context (T T1 : OffsetTrie) (t : tree) (key p : list Z) (leaf : Z) (X : list Z) (plug : content → tree) (delta : Delta) (new : Account).
Context (HT : held T true t) (Ev : evolves T T1 (NULL_ID :: ids t)) (Ho : hole keccak256 T T1 true 64 t key p leaf X plug).
Context (Hnew : (d_account delta).2 = Some new) (Hdelta : delta_ok delta).
Let st0 : tree := storage_before delta (find t key).
Lemma old_storage : ∃ st, (cur T1 leaf = Some NullView ∧ st = Empty ∨ ∃ ch nb, cur T1 leaf = Some (AccountLeafView (tid st) ch nb p)) ∧
  st0 = (if wiped delta then Empty else st) ∧ (complete t → complete st) ∧ held T1 false st ∧ ∀ i, i ∈ ids st → i ∉ X ∧ i ≠ leaf.
Proof using HT Ev Ho.
  destruct (ho_old _ _ _ _ _ _ _ _ _ _ _ Ho) as [(Hf & _ & _ & Hc & _)|(l & Hf & Hr & Hids & _ & Hcw)]; unfold st0; rewrite Hf.
  - exists Empty. split_and!; [by left; split|by destruct (wiped delta)|by constructor|apply held_empty, Ev|]. intros i Hi. by apply not_elem_of_nil in Hi.
  - destruct l as [v|ch nb st]; [by destruct Hcw|]. destruct Hcw as (_ & Hch & Hnb & Hwf). exists st. apply rep_leaf in Hr as [A Hr].
    pose proof (he_nodup _ _ _ _ HT) as Hnd. rewrite <- Hids, ids_leaf in Hnd. cbn [app] in Hnd. apply list.NoDup_cons in Hnd as [Hn Hnd]. apply list.NoDup_app in Hnd as (Hn1 & Hn2 & _).
    split_and!.
    + right. exists ch, nb. exact (an_cur _ _ _ A).
    + done.
    + intros Hc. pose proof (complete_find t Hc key) as C. by rewrite Hf in C.
    + by split; [apply Ev|..].
    + intros i Hi. split; [by apply Hn2|]. intros ->. apply Hn, elem_of_app. by left.
Qed.
Lemma account_work T2 : evolves T1 T2 [] → next_id_ T2 = next_id_ T1 → blob_ T2 = blob_ T1 → next_id_ T2 + 3 * Z.of_nat (length (d_storage delta)) <= 2 ^ 32 →
  held T2 false st0 → (∀ i, i ∈ ids st0 → i ∉ X ∧ i ≠ leaf) →
  let work := (storage ← upsert_slots keccak256 (tid st0) (d_storage delta);
               storage ← erase_slots keccak256 storage (d_storage delta); put_acct leaf p new storage;; mret ()) in
  (work T2 = Abort ∧ ¬ complete st0) ∨
  ∃ T3 st, work T2 = Ok ((), T3) ∧ held T3 true (plug (account_content new st)) ∧ root T3 = root T2 ∧
    next_id_ T3 <= next_id_ T2 + 3 * Z.of_nat (length (d_storage delta)) ∧
    account_after delta new (find t key) (Found (account_content new st)).
Proof using HT Ev Ho Hnew Hdelta.
  intros E12 N2 B2 Hn Hst Hdis work. destruct Hdelta as (Hd & Hv & Hacc). rewrite Hnew in Hacc.
  destruct (upsert_slots_ok (d_storage delta) T2 st0 Hst Hd Hv Hn) as [[R Hc]|(T3 & st1 & R1 & U1 & F1)]; [left; split; [by apply bind_Abort|done]|].
  unfold work. rewrite (bind_Ok_eq _ _ _ _ _ R1). pose proof (up_held _ _ _ _ _ _ _ U1) as H1.
  assert (Hcomp : complete st0 → complete st1).
  { intros Hc. apply (find_complete st1 false 64%nat); [apply H1|]. intros j Hj. rewrite F1 by done. pose proof (complete_find st0 Hc j) as C.
    unfold slots_after. destruct (written _ _ j) as [v|]; [|done]. unfold slot_value. by destruct (v =? 0). }
  destruct (erase_slots_ok (d_storage delta) T3 st1 H1 Hd) as [[R Hc]|(T4 & st2 & R2 & U2 & F2)]; [left; split; [by apply bind_Abort|auto]|].
  rewrite (bind_Ok_eq _ _ _ _ _ R2). pose proof (updated_trans _ _ _ _ _ _ _ _ _ _ U1 U2) as U. pose proof (up_held _ _ _ _ _ _ _ U) as H2. right.
  destruct (ho_path _ _ _ _ _ _ _ _ _ _ _ Ho) as [Hp Hl]. destruct (ho_leaf _ _ _ _ _ _ _ _ _ _ _ Ho) as [Hlf _].
  assert (Hw : wire_ok (tid st2)).
  { destruct (is_empty st2) eqn:E; [by destruct st2|]. pose proof (held_ids _ _ _ _ _ H2 (tid_in st2 E)). unfold wire_ok. lia. }
  destruct (put_acct_run leaf p new (tid st2) T4 Hp Hl Hw) as [R3 V].
  destruct (fill_hole keccak256 T T1 true t key p leaf X plug HT Ev Ho (account_content new st2) T4
    (acct_bytes (tid st2) (encode_bytes32 (code_hash new)) (nonce_balance new) p) (he_store _ _ _ _ H2)) as (R4 & Ep & Hh).
  - apply (agree_trans _ T2); [apply (agree_mono _ _ _ _ (proj2 E12))|apply (agree_mono _ _ _ _ (proj2 (up_evolves _ _ _ _ _ _ _ U)))]; intros i Hi;
      destruct (hole_X _ _ _ _ _ _ _ _ _ _ HT Ev Ho i Hi) as (? & ? & ?).
    + split; [done|apply not_elem_of_nil].
    + split; [lia|]. intros [?|Hin]%elem_of_cons; [done|]. by apply Hdis in Hin as [? _].
  - apply H2.
  - split_and!; [done|apply bytes32_len|apply nonce_balance_len|apply nonce_balance_len|apply H2].
  - apply H2.
  - cbn [account_content content_ids]. intros i [Hi|Hi]%(up_ids _ _ _ _ _ _ _ U); [by apply Hdis|]. split; [|lia]. intros Hx.
    destruct (hole_X _ _ _ _ _ _ _ _ _ _ HT Ev Ho i Hx) as (? & _). lia.
  - exact V.
  - rewrite <- R3 in R4. rewrite (bind_Ok_eq _ _ _ _ _ R4).
    eexists _, st2. split; [apply run_ret|]. split; [done|]. split; [rewrite (keeps_put_acct _ _ _ _ _ _ _ R4); apply (up_root _ _ _ _ _ _ _ U)|].
    split; [cbn; pose proof (up_next _ _ _ _ _ _ _ U); lia|].
    split; [destruct (ho_old _ _ _ _ _ _ _ _ _ _ _ Ho) as [(-> & _)|(l0 & -> & _)]; done|]. exists st2. split; [done|]. split; [apply H2|]. fold st0.
    assert (F : ∀ j, key_ok 64 j → find st2 j = slots_after (λ _, true) (d_storage delta) (find st0) j).
    { intros j Hj. rewrite F2, <- slots_after_both by done. unfold slots_after at 1 2. destruct (written _ _ j); [done|by apply F1]. }
    split; [|done]. intros Hc. apply (find_complete st2 false 64%nat); [apply H2|]. intros j Hj. rewrite F by done. apply slots_complete. by apply complete_find.
Qed.
End one_account.

(** ** One account *)
(** the account a delta writes, and whether it deletes the account *)
Definition writes (delta : Delta) : option Account :=
  match (d_account delta).2 with Some new => if is_changed delta then Some new else None | None => None end.
Definition deletes (delta : Delta) : bool := match d_account delta with (Some _, None) => true | _ => false end.
Definition write_after (delta : Delta) (old a : answer) : Prop :=
  match writes delta with Some new => account_after delta new old a | None => a = old end.
Definition delete_after (delta : Delta) (old a : answer) : Prop := a = if deletes delta then Absent else old.
(** what holds of the key of [addr], the other keys being left alone *)
Definition step (R : Delta → answer → answer → Prop) (addr : Z) (delta : Delta) (t t' : tree) : Prop :=
  ∀ k, key_ok 64 k → if decide (account_key addr = Some k) then R delta (find t k) (find t' k) else find t' k = find t k.
Lemma storage_complete delta old : complete_at old → complete (storage_before delta old).
Proof. intros H. unfold storage_before. destruct old as [| |[v|ch nb st]]; try by constructor. by destruct (wiped delta); [constructor|]. Qed.
Lemma write_complete delta old a : write_after delta old a → complete_at old → complete_at a.
Proof.
  unfold write_after. destruct (writes delta); [|by intros ->]. intros (_ & st & -> & _ & Hc & _) H. cbn. by apply Hc, storage_complete.
Qed.
Lemma delete_complete delta old a : delete_after delta old a → complete_at old → complete_at a.
Proof. intros ->. by destruct (deletes delta). Qed.
Lemma step_complete (R : Delta → answer → answer → Prop) addr delta T t t' : rooted_held T t' → step R addr delta t t' → complete t →
  (∀ old a, R delta old a → complete_at old → complete_at a) → complete t'.
Proof.
  intros [Hh _] H Hc HR. apply (find_complete t' true 64%nat); [apply Hh|]. intros k Hk. specialize (H k Hk). pose proof (complete_find t Hc k) as C.
  destruct (decide _); [by apply (HR (find t k))|by rewrite H].
Qed.
Lemma cur_read T id nd : cur T id = Some nd → ∃ b, get_current id T = Ok (b, T) ∧ match_ b T = Ok (nd, T).
Proof. intros H. destruct (read_node_run _ _ _ H) as (b & _ & R1 & R2). by exists b. Qed.
Definition step_ok (R : Delta → answer → answer → Prop) (m : Z → Delta → M OffsetTrie ()) (cost : Delta → Z) : Prop :=
  ∀ addr delta T t, rooted_held T t → delta_ok delta → next_id_ T + cost delta <= 2 ^ 32 →
  (m addr delta T = Abort ∧ ¬ complete t) ∨
  ∃ T' t', m addr delta T = Ok ((), T') ∧ rooted_held T' t' ∧ next_id_ T' <= next_id_ T + cost delta ∧ step R addr delta t t'.
Lemma step_none (R : Delta → answer → answer → Prop) addr delta t : (∀ a, R delta a a) → step R addr delta t t.
Proof. intros H k _. by destruct (decide _). Qed.
Lemma commit_account_ok : step_ok write_after (commit_account keccak256) delta_cost.
Proof.
  intros addr delta T t [HT Hroot] Hd Hn. unfold commit_account. pose proof Hd as (_ & Hv & _). unfold delta_cost in *.
  assert (Hskip : writes delta = None → step write_after addr delta t t) by (intros E; apply step_none; intros a; unfold write_after; by rewrite E).
  assert (Hdone : rooted_held T t) by done. unfold writes in Hskip. destruct ((d_account delta).2) as [new|] eqn:Enew; [|right; exists T, t; split; [apply run_ret|]; split_and!; [done|lia|by apply Hskip]].
  destruct (is_changed delta) eqn:Ech; cbn [negb]; [|right; exists T, t; split; [apply run_ret|]; split_and!; [done|lia|by apply Hskip]].
  destruct (hashed_key_ok (be_bytes 20 addr)) as (key & Ek & Hk). unfold PartialTrieDb.account_key. rewrite Ek, run_mvalue. rewrite run_mget, Hroot.
  destruct (upsert_held keccak256 T true t key HT Hk ltac:(lia)) as [[R Hu]|[_ (leaf & p & T1 & X & plug & R & Ev & Nx & Ho)]].
  { left. split; [by apply bind_Abort|]. intros Hc. pose proof (complete_find t Hc key) as C. by destruct (find t key). }
  rewrite (bind_Ok_eq _ _ _ _ _ R). cbn [fst snd]. rewrite (held_null _ _ _ _ HT).
  set (T2 := if is_empty t then set_root leaf T1 else T1). pose proof (proj1 Ev) as HT1.
  assert (E12 : evolves T1 T2 [] ∧ next_id_ T2 = next_id_ T1 ∧ blob_ T2 = blob_ T1 ∧ ∀ i, cur T2 i = cur T1 i).
  { unfold T2. destruct (is_empty t); [split_and!; [by apply evolves_set_root|done..]|split_and!; [by apply evolves_refl|done..]]. }
  destruct E12 as (E12 & N12 & B12 & C12). destruct (old_storage T T1 t key p leaf X plug delta HT Ev Ho) as (st & Hcur & Est & Hcst & Hst & Hdis).
  assert (R2 : (if is_empty t then mmodify (set_root leaf) else mret ()) T1 = Ok ((), T2)) by (unfold T2; destruct (is_empty t); [done|apply run_ret]).
  rewrite (bind_Ok_eq _ _ _ _ _ R2). set (st0 := storage_before delta (find t key)) in *.
  assert (H0 : held T2 false st0 ∧ (∀ i, i ∈ ids st0 → i ∉ X ∧ i ≠ leaf) ∧ (complete t → complete st0)).
  { rewrite Est. destruct (wiped delta).
    - split_and!; [apply held_empty, E12|intros i Hi; by apply not_elem_of_nil in Hi|by constructor].
    - split_and!; [apply (held_evolves _ T1 T2 [] false st); [done|done|intros i _; apply not_elem_of_nil]|done|done]. }
  destruct H0 as (H0 & Hdis0 & Hc0). destruct (account_work T T1 t key p leaf X plug delta new HT Ev Ho Enew Hd T2 E12 N12 B12 ltac:(lia) H0 Hdis0) as [[W Hc]|(T3 & st' & W & Hh & Hr3 & N3 & Ha)].
  all: fold st0 in W.
  all: assert (Hrun : ∃ nd b, get_current leaf T2 = Ok (b, T2) ∧ match_ b T2 = Ok (nd, T2) ∧
    (match nd with NullView => mret NULL_ID | AccountLeafView storage _ _ _ => mret storage | _ => mabort end : M OffsetTrie Z) T2 = Ok (tid st, T2))
    by (destruct Hcur as [[Hcur ->]|(ch & nb & Hcur)]; rewrite <- C12 in Hcur; destruct (cur_read _ _ _ Hcur) as (b & G1 & G2); eexists _, b; (split; [done|split; [done|apply run_ret]])).
  all: destruct Hrun as (nd & b & G1 & G2 & G3); rewrite (bind_Ok_eq _ _ _ _ _ G1), (bind_Ok_eq _ _ _ _ _ G2), (bind_Ok_eq _ _ _ _ _ G3).
  all: assert (Es : match (d_account delta).1 with
     | Some old => if negb (incarnation_eqb (incarnation old) (incarnation new)) then NULL_ID else tid st | None => tid st end = tid st0)
    by (rewrite Est; unfold wiped; destruct (d_account delta) as [[o|] n']; cbn in Enew |- *; rewrite ?Enew; [by destruct (negb _)|done]).
  all: cbn zeta; rewrite Es, W.
  - left. split; [done|]. auto.
  - right. exists T3, (plug (account_content new st')). split; [done|]. split_and!; [|lia|].
    + split; [done|]. rewrite Hr3, (ho_tid _ _ _ _ _ _ _ _ _ _ _ Ho). unfold T2. pose proof (keeps_upsert _ _ _ _ _ _ R) as Hkr. destruct (is_empty t); [done|congruence].
    + intros k [Hk1 Hk2]. rewrite (ho_find _ _ _ _ _ _ _ _ _ _ _ Ho) by done. unfold PartialTrieDb.account_key. rewrite Ek. unfold write_after, writes. rewrite Enew, Ech.
      destruct (decide (k = key)) as [->|Hne]; [by rewrite decide_True|]. by rewrite decide_False by congruence.
Qed.
Lemma delete_account_ok : step_ok delete_after (delete_account keccak256) (λ _, 0).
Proof.
  intros addr delta T t [HT Hroot] _ Hn. unfold delete_account.
  assert (Hskip : deletes delta = false → step delete_after addr delta t t) by (intros E; apply step_none; intros a; unfold delete_after; by rewrite E).
  unfold deletes in Hskip. destruct (d_account delta) as [[old|] [new|]] eqn:Eacc.
  1, 3, 4: right; exists T, t; split; [apply run_ret|]; split_and!; [done|lia|by apply Hskip].
  destruct (hashed_key_ok (be_bytes 20 addr)) as (key & Ek & Hk). unfold PartialTrieDb.account_key. rewrite Ek, run_mvalue. rewrite run_mget, Hroot.
  destruct (erase_held keccak256 T true t key HT Hk) as [[R Hu]|(r & T1 & t1 & R1 & Ht & U & F)]; [left; split; [by apply bind_Abort|done]|right].
  rewrite (bind_Ok_eq _ _ _ _ _ R1). pose proof (up_held _ _ _ _ _ _ _ U) as H1. pose proof (up_next _ _ _ _ _ _ _ U). pose proof (up_root _ _ _ _ _ _ _ U) as Hr1.
  assert (Hstep : step delete_after addr delta t t1).
  { intros k Hk'. rewrite F by done. unfold PartialTrieDb.account_key. rewrite Ek. unfold delete_after, deletes. rewrite Eacc.
    destruct (decide (k = key)) as [->|Hne]; [by rewrite decide_True|]. by rewrite decide_False by congruence. }
  destruct r.
  - exists (set_root NULL_ID T1), t1. split; [done|]. split_and!; [|cbn; lia|done]. split; [|by rewrite Ht].
    apply (held_evolves _ T1 _ [] true t1 H1); [apply evolves_set_root, H1|]. intros i _. apply not_elem_of_nil.
  - exists T1, t1. split; [apply run_ret|]. split_and!; [|lia|done]. split; [done|congruence].
  - exists T1, t1. split; [apply run_ret|]. split_and!; [|lia|done]. split; [done|congruence].
Qed.

(** ** All accounts *)
Fixpoint delta_at (deltas : StateDeltas) (k : list Z) : option Delta :=
  match deltas with
  | [] => None
  | (addr, delta) :: deltas => if decide (account_key addr = Some k) then Some delta else delta_at deltas k
  end.
Definition post (R : Delta → answer → answer → Prop) (deltas : StateDeltas) (t t' : tree) : Prop :=
  ∀ k, key_ok 64 k → match delta_at deltas k with Some delta => R delta (find t k) (find t' k) | None => find t' k = find t k end.
Definition distinct_accounts (deltas : StateDeltas) : Prop := NoDup (account_key <$> deltas.*1).
Fixpoint total (cost : Delta → Z) (deltas : StateDeltas) : Z :=
  match deltas with [] => 0 | (_, delta) :: deltas => cost delta + total cost deltas end.
Lemma distinct_accounts_cons addr d l : distinct_accounts ((addr, d) :: l) ↔ account_key addr ∉ account_key <$> l.*1 ∧ distinct_accounts l.
Proof. unfold distinct_accounts. cbn [fmap list_fmap fst]. apply list.NoDup_cons. Qed.
Lemma delta_at_none deltas k : Some k ∉ account_key <$> deltas.*1 → delta_at deltas k = None.
Proof.
  induction deltas as [|[addr d] l IH]; [done|]. cbn [fmap list_fmap fst delta_at]. intros [Hne Hn]%not_elem_of_cons. rewrite decide_False by congruence. by apply IH.
Qed.
Lemma total_nonneg cost deltas : (∀ d, 0 <= cost d) → 0 <= total cost deltas.
Proof. intros H. induction deltas as [|[addr d] l IH]; cbn; [done|]. specialize (H d). lia. Qed.
Lemma pass_ok R m cost : step_ok R m cost → (∀ d, 0 <= cost d) → (∀ d old a, R d old a → complete_at old → complete_at a) →
  ∀ deltas T t, rooted_held T t → distinct_accounts deltas → Forall (λ e : Z * Delta, delta_ok e.2) deltas → next_id_ T + total cost deltas <= 2 ^ 32 →
  (mfor deltas (λ '(addr, delta), m addr delta) T = Abort ∧ ¬ complete t) ∨
  ∃ T' t', mfor deltas (λ '(addr, delta), m addr delta) T = Ok ((), T') ∧ rooted_held T' t' ∧ next_id_ T' <= next_id_ T + total cost deltas ∧ post R deltas t t' ∧
    (complete t → complete t').
Proof.
  intros Hstep Hcost HR deltas. induction deltas as [|[addr d] l IH]; intros T t HT Hd Hok Hn.
  { right. exists T, t. split; [apply run_ret|]. split_and!; [done|cbn; lia|by intros k|done]. }
  apply distinct_accounts_cons in Hd as [Hnin Hd]. apply list.Forall_cons in Hok as [Hok0 Hok]. cbn [total] in Hn |- *. pose proof (total_nonneg cost l Hcost). cbn [mfor].
  destruct (Hstep addr d T t HT Hok0 ltac:(lia)) as [[R1 Hc]|(T1 & t1 & R1 & H1 & N1 & S1)]; [left; split; [by apply bind_Abort|done]|].
  rewrite (bind_Ok_eq _ _ _ _ _ R1). assert (Hc1 : complete t → complete t1) by (intros Hc; eapply step_complete; [exact H1|exact S1|done|apply HR]).
  destruct (IH T1 t1 H1 Hd Hok ltac:(lia)) as [[R2 Hc]|(T2 & t2 & R2 & H2 & N2 & P2 & C2)]; [left; split; [done|auto]|right].
  exists T2, t2. split; [done|]. split_and!; [done|lia| |auto]. intros k Hk. specialize (S1 k Hk). specialize (P2 k Hk). cbn [delta_at].
  destruct (decide (account_key addr = Some k)) as [E|E].
  - rewrite E in Hnin. rewrite delta_at_none in P2 by done. by rewrite P2.
  - by rewrite <- S1.
Qed.
(** both passes *)
Definition commit_after (delta : Delta) (old a : answer) : Prop :=
  match writes delta with
  | Some new => account_after delta new old a
  | None => a = if deletes delta then Absent else old
  end.
Definition deltas_ok (deltas : StateDeltas) : Prop := distinct_accounts deltas ∧ Forall (λ e : Z * Delta, delta_ok e.2) deltas.
Lemma commit_deltas_ok deltas T t : rooted_held T t → deltas_ok deltas → next_id_ T + total delta_cost deltas <= 2 ^ 32 →
  (commit_deltas keccak256 deltas T = Abort ∧ ¬ complete t) ∨
  ∃ T' t', commit_deltas keccak256 deltas T = Ok ((), T') ∧ rooted_held T' t' ∧ next_id_ T' <= next_id_ T + total delta_cost deltas ∧
    post commit_after deltas t t' ∧ (complete t → complete t').
Proof.
  intros HT [Hd Hok] Hn. unfold commit_deltas. assert (Hcost : ∀ d, 0 <= delta_cost d) by (intros d; unfold delta_cost; lia).
  destruct (pass_ok write_after _ delta_cost commit_account_ok Hcost write_complete deltas T t HT Hd Hok Hn) as [[R1 Hc]|(T1 & t1 & R1 & H1 & N1 & P1 & C1)];
    [left; split; [by apply bind_Abort|done]|]. rewrite (bind_Ok_eq _ _ _ _ _ R1).
  assert (Hz : total (λ _, 0) deltas = 0) by (clear; induction deltas as [|[a d] l IH]; cbn; [done|lia]). 
  destruct (pass_ok delete_after _ (λ _, 0) delete_account_ok ltac:(done) delete_complete deltas T1 t1 H1 Hd Hok ltac:(lia)) as [[R2 Hc]|(T2 & t2 & R2 & H2 & N2 & P2 & C2)];
    [left; split; [done|auto]|right].
  exists T2, t2. split; [done|]. split_and!; [done|lia| |auto]. intros k Hk. specialize (P1 k Hk). specialize (P2 k Hk). destruct (delta_at deltas k) as [d|]; [|congruence].
  unfold write_after, delete_after, commit_after in *. rewrite P2. unfold deletes, writes in *. destruct (d_account d) as [[o|] [n|]]; cbn in *; try done.
Qed.
End facts.
