(* ===== verification/OffsetTrieWitness.v ===== *)
(** * Witnesses and the trees they stand for

    A witness has digests in place of subtrees.  Where every digest is the
    root hash of the subtree it replaces, the witness and the tree it stands
    for have the same root hash and answer alike, and that remains so when a
    block is committed to both. *)
From S2P Require Import Prelude Account Uint256Text BlockState Transaction Rlp RlpFacts OffsetTrie OffsetTrieNodes OffsetTrieTree OffsetTrieStore OffsetTrieUpsert OffsetTrieErase OffsetTrieEncode OffsetTrieHash OffsetTrieCanonical OffsetTrieRoot OffsetTrieMap PartialTrieDb PartialTrieDbFacts.

(** ** Contents of trees *)
Lemma find_wf {HB : Branches} t : ∀ acct n k l, wf acct n t → find t k = Found l → content_wf acct l.
Proof.
  induction t as [|id p v|id p ch nb st IH|id p c IH|id cs IH|id h] using tree_rect'; intros acct n k l Hwf Hf; try done.
  - cbn in Hf. destruct (decide _); [|done]. injection Hf as <-. by inversion Hwf.
  - cbn in Hf. destruct (decide _); [|done]. injection Hf as <-. by inversion Hwf.
  - rewrite find_ext in Hf. destruct (decide _); [|done]. inversion Hwf; subst. by eapply IH.
  - destruct k as [|a k]; [done|]. rewrite find_branch in Hf. destruct (cs !! Z.to_nat a) as [c|] eqn:Ei; [|done]. inversion Hwf as [| | | |? n0 ? ? Hl Ho Hwfs|]; subst.
    pose proof (Forall_lookup_1 _ _ _ _ IH Ei) as IHc. by apply (IHc acct n0 k); [apply (Forall_lookup_1 _ _ _ _ Hwfs Ei)|].
Qed.
(** The same accounts, with the same slots. *)
Definition alike_answer (a a' : answer) : Prop :=
  match a, a' with
  | Absent, Absent => True
  | Found (CStorage v), Found (CStorage v') => v = v'
  | Found (CAccount ch nb st), Found (CAccount ch' nb' st') => ch = ch' ∧ nb = nb' ∧ ∀ j, key_ok 64 j → find st j = find st' j
  | _, _ => False
  end.
Definition alike (t t' : tree) : Prop := ∀ k, key_ok 64 k → alike_answer (find t k) (find t' k).
Lemma alike_root {HB : Branches} keccak256 t t' : wf true 64 t → wf true 64 t' → complete t → complete t' → alike t t' →
  root_hash keccak256 t = root_hash keccak256 t'.
Proof.
  intros Hw Hw' Hc Hc' H. apply (same_root keccak256 true 64); try done. intros k Hk. specialize (H k Hk).
  pose proof (complete_find t Hc k) as C. pose proof (complete_find t' Hc' k) as C'. destruct (find t k) as [| |[v|ch nb st]] eqn:E, (find t' k) as [| |[v'|ch' nb' st']] eqn:E'; try done.
  destruct H as (-> & -> & H). split_and!; [done|done|]. pose proof (find_wf t true 64 k _ Hw E) as (_ & _ & _ & Ws). pose proof (find_wf t' true 64 k _ Hw' E') as (_ & _ & _ & Ws').
  apply (same_root keccak256 false 64); try done. intros j Hj. rewrite <- H by done. pose proof (complete_find st C j) as Cj.
  destruct (find st j) as [| |l] eqn:Ej; try done. pose proof (find_wf st false 64 j _ Ws Ej) as Hl. destruct l; [done|by destruct Hl].
Qed.

(** ** Deltas in another order *)
Definition same_delta (d d' : Delta) : Prop := d_account d = d_account d' ∧ d_storage d ≡ₚ d_storage d'.
Definition same_deltas (deltas deltas' : StateDeltas) : Prop :=
  ∃ l, deltas ≡ₚ l ∧ Forall2 (λ e e' : Z * Delta, e.1 = e'.1 ∧ same_delta e.2 e'.2) l deltas'.
Section order.
Context (keccak256 : list Z → Z).
Abbreviation written := (written keccak256).
Abbreviation delta_at := (delta_at keccak256).
Lemma written_perm takes l l' j : l ≡ₚ l' → distinct_slots keccak256 l → written takes l j = written takes l' j.
Proof.
  induction 1 as [|[slot d] l l' H IH|[s1 d1] [s2 d2] l|l1 l2 l3 H1 IH1 H2 IH2]; intros Hd; [done| | |].
  - apply distinct_cons in Hd as [_ Hd]. cbn [PartialTrieDbFacts.written]. by rewrite IH.
  - apply distinct_cons in Hd as [Hn _]. cbn [fmap list_fmap fst] in Hn. apply not_elem_of_cons in Hn as [Hn _]. cbn [PartialTrieDbFacts.written].
    destruct (is_changed_slot d1 && takes d1.2), (is_changed_slot d2 && takes d2.2); cbn [andb]; try done.
    destruct (bool_decide_reflect (slot_key keccak256 s1 = Some j)), (bool_decide_reflect (slot_key keccak256 s2 = Some j)); try done. congruence.
  - rewrite IH1 by done. apply IH2. unfold distinct_slots in *. by rewrite <- H1.
Qed.
Lemma is_changed_perm d d' : same_delta d d' → is_changed d = is_changed d'.
Proof.
  intros [E H]. unfold is_changed. rewrite E. f_equal. induction H; cbn; [done|by f_equal|by rewrite !orb_assoc, (orb_comm (is_changed_slot _))|congruence].
Qed.
Lemma delta_at_perm l l' k : l ≡ₚ l' → distinct_accounts keccak256 l → delta_at l k = delta_at l' k.
Proof.
  induction 1 as [|[a d] l l' H IH|[a1 d1] [a2 d2] l|l1 l2 l3 H1 IH1 H2 IH2]; intros Hd; [done| | |].
  - apply distinct_accounts_cons in Hd as [_ Hd]. cbn [PartialTrieDbFacts.delta_at]. by rewrite IH.
  - apply distinct_accounts_cons in Hd as [Hn _]. cbn [fmap list_fmap fst] in Hn. apply not_elem_of_cons in Hn as [Hn _]. cbn [PartialTrieDbFacts.delta_at].
    destruct (decide (account_key keccak256 a1 = Some k)), (decide (account_key keccak256 a2 = Some k)); try done. congruence.
  - rewrite IH1 by done. apply IH2. unfold distinct_accounts in *. by rewrite <- H1.
Qed.
Lemma delta_at_same l l' k : same_deltas l l' → distinct_accounts keccak256 l →
  match delta_at l k, delta_at l' k with Some d, Some d' => same_delta d d' | None, None => True | _, _ => False end.
Proof.
  intros (l1 & H1 & H2) Hd. rewrite (delta_at_perm l l1 k H1 Hd). clear H1 Hd. induction H2 as [|[a d] [a' d'] l1 l' [E1 E2] H2 IH]; [done|].
  cbn [fst snd] in *. subst. cbn [PartialTrieDbFacts.delta_at]. by destruct (decide _).
Qed.
Lemma delta_at_ok l k d : Forall (λ e : Z * Delta, delta_ok keccak256 e.2) l → delta_at l k = Some d → delta_ok keccak256 d.
Proof.
  induction 1 as [|[a d0] l H Hl IH]; [done|]. cbn [PartialTrieDbFacts.delta_at]. destruct (decide _); [by intros [= <-]|done].
Qed.
End order.

(** ** Expanding a witness *)
Section witness.
(** the subtree a digest stands for *)
Context (keccak256 : list Z → Z) (D : Z → tree).
Abbreviation root_hash := (root_hash keccak256).
Abbreviation rlp := (rlp keccak256).
Abbreviation ref := (ref keccak256).
#[local] Instance digest_branches : Branches := λ h, is_branch (D h).
Fixpoint expand (t : tree) : tree :=
  match t with
  | ALeaf id p ch nb st => ALeaf id p ch nb (expand st)
  | Ext id p c => Ext id p (expand c)
  | Branch id cs => Branch id (map expand cs)
  | Digest _ h => D h
  | t => t
  end.
Record backs (acct : bool) (n : nat) (h : Z) : Prop := {
  ba_wf : wf acct n (D h);
  ba_complete : complete (D h);
  ba_hash : root_hash (D h) = h;
  ba_long : 32 <= len (rlp (D h))
}.
Definition slot_backed (a : answer) : Prop := match a with Unknown h rest => backs false (length rest) h | _ => True end.
Definition backed_at (acct : bool) (a : answer) : Prop :=
  match a with
  | Unknown h rest => backs acct (length rest) h
  | Found (CAccount _ _ st) => ∀ j, key_ok 64 j → slot_backed (find st j)
  | _ => True
  end.
Definition backed (acct : bool) (n : nat) (t : tree) : Prop := ∀ k, key_ok n k → backed_at acct (find t k).
Definition resolve (a : answer) : answer :=
  match a with
  | Unknown h rest => find (D h) rest
  | Found (CAccount ch nb st) => Found (CAccount ch nb (expand st))
  | a => a
  end.
Lemma find_expand t : ∀ k, find (expand t) k = resolve (find t k).
Proof.
  induction t as [|id p v|id p ch nb st IH|id p c IH|id cs IH|id h] using tree_rect'; intros k; cbn [expand]; try done.
  - cbn. by destruct (decide _).
  - cbn. by destruct (decide _).
  - rewrite !find_ext. by destruct (decide _).
  - destruct k as [|a k]; [done|]. rewrite !find_branch, <- list_fmap_is_map || rewrite !find_branch. rewrite list_lookup_fmap.
    destruct (cs !! Z.to_nat a) as [c|] eqn:Ei; [|done]. cbn. by apply (Forall_lookup_1 _ _ _ _ IH Ei).
Qed.
Lemma backs_node acct n h : backs acct n h → is_empty (D h) = false ∧ is_digest (D h) = false ∧ ref (D h) = hash_rlp h.
Proof.
  intros [_ Hc Hh Hl]. assert (E : is_empty (D h) = false) by (destruct (D h); try done; cbn in Hl; lia).
  assert (Dg : is_digest (D h) = false) by (by apply complete_cons in Hc as [? _]). split_and!; [done|done|].
  destruct (ref_node keccak256 (D h) E Dg) as [-> Hr]. unfold short. rewrite (proj2 (Z.ltb_ge _ _)) by lia. by rewrite <- Hr, Hh.
Qed.
Lemma some_key n : key_ok n (replicate n 0).
Proof. split; [apply length_replicate|]. apply Forall_replicate. by unfold nibble_ok. Qed.
Lemma backed_slots st : (∀ j, key_ok 64 j → slot_backed (find st j)) → wf false 64 st → backed false 64 st.
Proof.
  intros H Hw j Hj. specialize (H j Hj). destruct (find st j) as [| |[v|ch nb s]] eqn:E; try done. by destruct (find_wf st false 64 j _ Hw E).
Qed.
(** What an expanded witness is. *)
Record expanded (acct : bool) (n : nat) (t t' : tree) : Prop := {
  ex_wf : wf acct n t';
  ex_complete : complete t';
  ex_ref : ref t' = ref t;
  ex_root : root_hash t' = root_hash t;
  ex_empty : is_empty t' = is_empty t
}.
Lemma expanded_node acct n t t' : wf acct n t' → complete t' → is_empty t = false → is_digest t = false → is_empty t' = false → rlp t' = rlp t → expanded acct n t t'.
Proof.
  intros Hw Hc E Dg E' Hr. assert (D' : is_digest t' = false) by (by apply complete_cons in Hc as [? _]).
  destruct (ref_node keccak256 t E Dg) as [R1 R2]. destruct (ref_node keccak256 t' E' D') as [R3 R4].
  split; [done|done|by rewrite R3, R1, Hr|by rewrite R4, R2, Hr|congruence].
Qed.
Lemma occupied_expand cs : Forall (λ c, is_empty (expand c) = is_empty c) cs → occupied (map expand cs) = occupied cs.
Proof. induction 1 as [|c cs Hc H IH]; [done|]. cbn [map]. by rewrite !occupied_cons, Hc, IH. Qed.
Lemma expand_ok t : ∀ acct n, wf acct n t → backed acct n t → expanded acct n t (expand t).
Proof.
  induction t as [|id p v|id p ch nb st IH|id p c IH|id cs IH|id h] using tree_rect'; intros acct n Hwf Hb; cbn [expand].
  - split; [constructor|constructor|done|done|done].
  - apply expanded_node; try done. by apply complete_cons.
  - inversion Hwf as [| |? ? ? ? ? ? Hl Hok Hch Hnb Hst| | |]; subst. pose proof (Hb p (conj eq_refl Hok)) as Hs. cbn in Hs. rewrite decide_True in Hs by done.
    destruct (IH false 64%nat Hst (backed_slots st Hs Hst)) as [E1 E2 E3 E4 E5]. apply expanded_node; try done; [by constructor|by apply complete_cons|]. by rewrite !rlp_aleaf, E4.
  - inversion Hwf as [| | |? n0 ? ? ? Hp0 Hpo Hbr Hw0| |]; subst. assert (Hb0 : backed acct n0 c).
    { intros k Hk. specialize (Hb (p ++ k) (key_app _ _ _ Hpo Hk)). by rewrite find_ext, take_app_length, decide_True, drop_app_length in Hb. }
    destruct (IH acct n0 Hw0 Hb0) as [E1 E2 E3 E4 E5]. apply expanded_node; try done; [|by apply complete_cons|by rewrite !rlp_ext, E3].
    constructor; [done|done| |done]. destruct c; try done. cbn [branching expand] in *. by apply branch_branching.
  - inversion Hwf as [| | | |? n0 ? ? Hl Ho Hwfs|]; subst. assert (Hall : Forall (λ c, expanded acct n0 c (expand c)) cs).
    { apply list.Forall_forall. intros c [i Hi]%list_elem_of_lookup. apply lookup_lt_Some in Hi as Hlt. apply (Forall_lookup_1 _ _ _ _ IH Hi); [by apply (Forall_lookup_1 _ _ _ _ Hwfs Hi)|].
      intros k Hk. specialize (Hb (Z.of_nat i :: k)). rewrite find_branch, Nat2Z.id, Hi in Hb. apply Hb, key_cons. split; [unfold nibble_ok; lia|done]. }
    apply expanded_node; try done.
    + constructor; [by rewrite length_map|rewrite occupied_expand; [done|]|apply Forall_map].
      * apply (list.Forall_impl _ _ _ Hall). by intros c [].
      * apply (list.Forall_impl _ _ _ Hall). by intros c [].
    + apply complete_cons. split; [done|]. apply Forall_map. apply (list.Forall_impl _ _ _ Hall). by intros c [].
    + rewrite !rlp_branch, map_map. do 4 f_equal. apply map_ext_in. intros c Hc%list_elem_of_In. eapply list.Forall_forall in Hall; [|exact Hc]. by destruct Hall.
  - pose proof (Hb _ (some_key n)) as Hh. cbn [find backed_at] in Hh. rewrite length_replicate in Hh. destruct (backs_node acct n h Hh) as (E1 & E2 & E3). destruct Hh. by split.
Qed.

(** ** A block committed to a witness *)
Lemma storage_before_alike d d' a a' j : same_delta d d' → known a = true → alike_answer (resolve a) a' → key_ok 64 j →
  find (expand (storage_before d a)) j = find (storage_before d' a') j.
Proof.
  intros [E _] Hk H Hj. assert (Ew : wiped d = wiped d') by (unfold wiped; by rewrite E). unfold storage_before.
  destruct a as [| |[v|ch nb st]], a' as [| |[v'|ch' nb' st']]; try done. rewrite Ew. destruct (wiped d'); [done|]. destruct H as (_ & _ & H). by apply H.
Qed.
Lemma commit_alike d d' a a' b b' : same_delta d d' → delta_ok keccak256 d → alike_answer (resolve a) a' → backed_at true a →
  commit_after keccak256 d a b → commit_after keccak256 d' a' b' → alike_answer (resolve b) b' ∧ backed_at true b.
Proof.
  intros Hd (Hdist & _) Ha Hb H H'. pose proof (is_changed_perm d d' Hd) as Ec. destruct Hd as [E1 E2]. unfold commit_after, writes, deletes in *. rewrite <- E1, <- Ec in H'.
  destruct ((d_account d).2) as [new|] eqn:En; [destruct (is_changed d)|].
  - destruct H as (Hk & st & -> & _ & _ & F). destruct H' as (_ & st' & -> & _ & _ & F'). split.
    + split_and!; [done|done|]. intros j Hj. rewrite find_expand, F, F' by done. unfold slots_after. rewrite (written_perm keccak256 _ _ _ j E2 Hdist).
      destruct (written keccak256 _ (d_storage d') j) as [v|]; [unfold slot_value; by destruct (v =? 0)|]. rewrite <- find_expand. by apply (storage_before_alike d d' a a').
    + cbn. intros j Hj. rewrite F by done. unfold slots_after. destruct (written keccak256 _ _ j) as [v|]; [unfold slot_value; by destruct (v =? 0)|].
      unfold storage_before. destruct a as [| |[v|ch nb s]]; try done. destruct (wiped d); [done|by apply Hb].
  - subst. by destruct (d_account d) as [[o|] [n|]].
  - subst. by destruct (d_account d) as [[o|] [n|]].
Qed.
Lemma post_alike deltas deltas' t1 t2 t1' t2' : deltas_ok keccak256 deltas → same_deltas deltas deltas' → alike (expand t1) t2 → backed true 64 t1 →
  post keccak256 (commit_after keccak256) deltas t1 t1' → post keccak256 (commit_after keccak256) deltas' t2 t2' →
  alike (expand t1') t2' ∧ backed true 64 t1'.
Proof.
  intros [Hd Hok] Hs Ha Hb P1 P2. assert (H : ∀ k, key_ok 64 k → alike_answer (resolve (find t1' k)) (find t2' k) ∧ backed_at true (find t1' k)).
  { intros k Hk. specialize (Ha k Hk). specialize (Hb k Hk). specialize (P1 k Hk). specialize (P2 k Hk). rewrite find_expand in Ha.
    pose proof (delta_at_same keccak256 deltas deltas' k Hs Hd) as Hat. destruct (delta_at keccak256 deltas k) as [d|] eqn:E, (delta_at keccak256 deltas' k) as [d'|]; try done.
    - pose proof (delta_at_ok keccak256 deltas k d Hok E) as Hdok. by apply (commit_alike d d' (find t1 k) (find t2 k)).
    - by rewrite P1, P2. }
  split; intros k Hk; [rewrite find_expand|]; by apply H.
Qed.
End witness.
