(* ===== verification/OffsetTrieReads.v ===== *)
(** * Reading the pre-state of a witness

    [find_original] walks the blob, which no operation changes: reads answer
    from the tree the blob holds. *)
From S2P Require Import Prelude Account Uint256Text BlockState Transaction Rlp RlpFacts OffsetTrie OffsetTrieNodes OffsetTrieTree OffsetTrieStore OffsetTrieUpsert OffsetTrieErase OffsetTrieEncode OffsetTrieHash OffsetTrieCanonical OffsetTrieRoot OffsetTrieMap PartialTrieDb PartialTrieDbFacts OffsetTrieWitness.

(** A node that is in the blob. *)
Definition in_blob_node (T : OffsetTrie) (s : tree) : Prop :=
  in_blob T (tid s) = true ∧ view (drop (Z.to_nat (tid s)) (blob_ T)) = Some (node_of s).
Definition original (T : OffsetTrie) (t : tree) : Prop := Forall (in_blob_node T) (nodes t).
Lemma read_original T s : in_blob_node T s → tid s ≠ NULL_ID ∧ ∃ b, get_original (tid s) T = Ok (b, T) ∧ match_ b T = Ok (node_of s, T).
Proof.
  intros [Hb Hv]. split.
  - intros E. rewrite E in Hb. done.
  - eexists. split; [|unfold match_; rewrite Hv; done]. unfold get_original. rewrite run_mget, Hb, orb_true_r. done.
Qed.
(** What the walk returns: the leaf that was found, or the null node. *)
Definition found_original (T : OffsetTrie) (a : answer) (r : outcome (node * OffsetTrie)) : Prop :=
  match a with
  | Unknown _ _ => r = Abort
  | Absent => r = Ok (NullView, T)
  | Found (CStorage v) => ∃ p, r = Ok (StorageLeafView v p, T)
  | Found (CAccount ch nb st) => ∃ p, r = Ok (AccountLeafView (tid st) ch nb p, T) ∧ original T st
  end.
Section reads.
Context {HB : Branches}.
Lemma find_original_ok t : ∀ fuel acct n key T, original T t → wf acct n t → length key = n → path_ok key → (n < fuel)%nat →
  found_original T (find t key) (find_original fuel (tid t) key T).
Proof.
  induction t as [|id p v|id p ch nb st IH|id p c IH|id cs IH|id h] using tree_rect'; intros [|fuel] acct n key T Ho Hwf Hk Hok Hf; try lia; cbn [find_original].
  all: try (apply list.Forall_cons in Ho as [H0 Ho]; destruct (read_original _ _ H0) as (Hnz & b & R1 & R2); rewrite (proj2 (Z.eqb_neq _ _) Hnz), (bind_Ok_eq _ _ _ _ _ R1), (bind_Ok_eq _ _ _ _ _ R2); cbn [node_of]).
  - apply run_ret.
  - cbn [find]. destruct (decide (p = key)) as [->|Hne]; [rewrite bool_decide_eq_true_2 by done|rewrite bool_decide_eq_false_2 by done]; [|apply run_ret]. exists key. apply run_ret.
  - cbn [find]. destruct (decide (p = key)) as [->|Hne]; [rewrite bool_decide_eq_true_2 by done|rewrite bool_decide_eq_false_2 by done]; [|apply run_ret]. exists key. split; [apply run_ret|done].
  - rewrite find_ext. inversion Hwf as [| | |? n0 ? ? ? Hp0 Hpo Hbr Hw0| |]; subst. destruct (decide _) as [E|E]; [rewrite bool_decide_eq_true_2 by done|rewrite bool_decide_eq_false_2 by done]; [|apply run_ret].
    apply (IH fuel acct n0); [done|done|rewrite length_drop; lia|by apply Forall_drop|lia].
  - inversion Hwf as [| | | |? n0 ? ? Hl Hoc Hwfs|]; subst. destruct key as [|nib key]; [done|]. apply list.Forall_cons in Hok as [Hnib Hok]. rewrite find_branch.
    destruct (lookup_lt_is_Some_2 cs (Z.to_nat nib)) as [c Hc]; [unfold nibble_ok in Hnib; lia|]. rewrite list_lookup_fmap, Hc. cbn [fmap option_fmap option_map]. rewrite run_mvalue.
    cbn [length] in *. apply (Forall_lookup_1 _ _ _ _ IH Hc fuel acct n0); [|by apply (Forall_lookup_1 _ _ _ _ Hwfs Hc)|lia|done|lia].
    clear -Ho Hc. revert cs Ho Hc. induction (Z.to_nat nib) as [|i IHi]; intros [|d cs] Ho Hc; try done; cbn in Ho; apply Forall_app in Ho as [H1 H2]; [by injection Hc as <-|by apply (IHi cs)].
  - done.
Qed.
Lemma find_original_root t key T : original T t → wf true 64 t → key_ok 64 key → found_original T (find t key) (find_original trie_fuel (tid t) key T).
Proof. intros H1 H2 [H3 H4]. apply (find_original_ok t trie_fuel true 64); try done. unfold trie_fuel. lia. Qed.
Lemma Ok_inj {A} (x y : A) : Ok x = Ok y → x = y.
Proof. by intros [= ]. Qed.
(** decoding an account gives back what was encoded, without an incarnation *)
Lemma leaf_account_content a : account_ok a → leaf_account (encode_bytes32 (code_hash a)) (nonce_balance a) = Some (mkAccount (balance a) (code_hash a) (nonce a) (mkIncarnation 0 0)).
Proof.
  intros (Hn & Hb & Hh). unfold leaf_account. pose proof (codec_complete (Codec := bytes32_codec) (code_hash a) [] Hh) as E1. rewrite app_nil_r in E1. unfold lift in E1. apply Ok_inj in E1. rewrite E1.
  cbn [decoded mbind option_bind]. pose proof (nonce_balance_len a) as Hl. rewrite (proj2 (Z.geb_le _ _)), (proj2 (Z.leb_le (len (nonce_balance a)) _)) by lia. cbn [andb].
  pose proof (codec_complete (Codec := uint64_codec) (nonce a) (encode_unsigned 32 (balance a)) Hn) as E2. unfold lift in E2. apply Ok_inj in E2. unfold nonce_balance. rewrite E2.
  cbn [decoded mbind option_bind]. pose proof (codec_complete (Codec := uint256_codec) (balance a) [] Hb) as E3. unfold lift in E3. rewrite app_nil_r in E3. apply Ok_inj in E3. by rewrite E3.
Qed.
End reads.
