(* ===== verification/OffsetTriePriming.v ===== *)
(** * The constructor of the witness trie

    The constructor walks the nodes of the blob and caches the hashes of
    those that are referenced by hash, from what it has cached so far; the
    offsets not yet claimed by a parent are the roots of a forest.  When the
    constructor returns, the forest has become one tree, and where that is
    canonical, what is cached are the hashes of its nodes: the store holds the
    tree. *)
From S2P Require Import Prelude Account Uint256Text BlockState Transaction Rlp RlpFacts OffsetTrie OffsetTrieNodes OffsetTrieTree OffsetTrieStore OffsetTrieUpsert OffsetTrieErase OffsetTrieEncode OffsetTrieHash OffsetTrieCanonical OffsetTrieRoot OffsetTrieMap PartialTrieDb PartialTrieDbFacts OffsetTrieWitness OffsetTrieReads.

(** ** Subtrees *)
Lemma nodes_self t : is_empty t = false → t ∈ nodes t.
Proof. destruct t; [done|left..]. Qed.
Lemma nodes_trans t : ∀ s u, s ∈ nodes t → u ∈ nodes s → u ∈ nodes t.
Proof.
  induction t as [|id p v|id p ch nb st IH|id p c IH|id cs IH|id h] using tree_rect'; intros s u Hs Hu; cbn [nodes] in Hs.
  - by apply not_elem_of_nil in Hs.
  - apply list_elem_of_singleton in Hs as ->. done.
  - apply elem_of_cons in Hs as [->|Hs]; [done|]. cbn [nodes]. right. by apply (IH s).
  - apply elem_of_cons in Hs as [->|Hs]; [done|]. cbn [nodes]. right. by apply (IH s).
  - apply elem_of_cons in Hs as [->|Hs]; [done|]. cbn [nodes]. right.
    apply list_elem_of_In, in_concat in Hs as (l & Hl & Hs). apply in_map_iff in Hl as (c & <- & Hc). apply list_elem_of_In in Hs. apply list_elem_of_In.
    apply in_concat. exists (nodes c). split; [by apply in_map|]. apply list_elem_of_In. apply list_elem_of_In in Hc. eapply list.Forall_forall in IH; [|exact Hc]. by apply (IH s).
  - apply list_elem_of_singleton in Hs as ->. done.
Qed.
Lemma nodes_nonempty t s : s ∈ nodes t → is_empty s = false.
Proof.
  revert s. induction t as [|id p v|id p ch nb st IH|id p c IH|id cs IH|id h] using tree_rect'; intros s Hs; cbn [nodes] in Hs.
  - by apply not_elem_of_nil in Hs.
  - by apply list_elem_of_singleton in Hs as ->.
  - apply elem_of_cons in Hs as [->|Hs]; [done|by apply IH].
  - apply elem_of_cons in Hs as [->|Hs]; [done|by apply IH].
  - apply elem_of_cons in Hs as [->|Hs]; [done|]. apply list_elem_of_In, in_concat in Hs as (l & Hl & Hs). apply in_map_iff in Hl as (c & <- & Hc).
    apply list_elem_of_In in Hs. apply list_elem_of_In in Hc. eapply list.Forall_forall in IH; [|exact Hc]. by apply IH.
  - by apply list_elem_of_singleton in Hs as ->.
Qed.
Lemma nodes_wf {HB : Branches} t : ∀ acct n s, wf acct n t → (n <= 64)%nat → s ∈ nodes t → ∃ acct' n', wf acct' n' s ∧ (n' <= 64)%nat.
Proof.
  induction t as [|id p v|id p ch nb st IH|id p c IH|id cs IH|id h] using tree_rect'; intros acct n s Hwf Hn Hs; cbn [nodes] in Hs.
  - by apply not_elem_of_nil in Hs.
  - apply list_elem_of_singleton in Hs as ->. eauto.
  - apply elem_of_cons in Hs as [->|Hs]; [eauto|]. inversion Hwf; subst. by apply (IH false 64%nat).
  - apply elem_of_cons in Hs as [->|Hs]; [eauto|]. inversion Hwf as [| | |? n0 ? ? ? Hp0 Hpo Hbr Hw0| |]; subst. apply (IH acct n0); [done|lia|done].
  - apply elem_of_cons in Hs as [->|Hs]; [eauto|]. inversion Hwf as [| | | |? n0 ? ? Hl Ho Hwfs|]; subst.
    apply list_elem_of_In, in_concat in Hs as (l & Hll & Hs). apply in_map_iff in Hll as (c & <- & Hc). apply list_elem_of_In in Hs. apply list_elem_of_In in Hc.
    eapply list.Forall_forall in IH; [|exact Hc]. eapply list.Forall_forall in Hwfs; [|exact Hc]. apply (IH acct n0); [done|lia|done].
  - apply list_elem_of_singleton in Hs as ->. eauto.
Qed.

(** ** Sound encoders *)
Lemma prepend_Ok bytes dest T d T' : prepend bytes dest T = Ok (d, T') → d = bytes ++ dest ∧ T' = T ∧ len bytes + len dest <= MAX_NODE_RLP.
Proof. unfold prepend. intros H. minv. apply Z.leb_le in H. done. Qed.
Lemma wrap_Ok s T d T' : wrap s T = Ok (d, T') → d = encode_list2 [s] ∧ T' = T.
Proof.
  intros (-> & -> & H)%prepend_Ok. split; [|done]. apply prefix_run. pose proof (len_nonneg (encode_list_prefix_compact (len s))). lia.
Qed.
Lemma encode_path_Ok dest path leaf T d T' : path_ok path → (path ≠ [] ∨ leaf = true) → len path <= MAX_PATH_NIBBLES → encode_path dest path leaf T = Ok (d, T') →
  d = encode_string2 (OffsetTrieTree.compact path leaf) ++ dest ∧ T' = T.
Proof.
  intros Hok Hne Hl H. assert (Hd : len dest + 34 <= MAX_NODE_RLP ∨ MAX_NODE_RLP < len dest + 34) by lia. destruct Hd as [Hd|Hd].
  - destruct (encode_path_run dest path leaf T Hok Hne Hl Hd) as [E _]. rewrite E in H. by injection H as <- <-.
  - revert H. unfold encode_path. rewrite (bind_Ok_eq _ _ _ _ _ (compact_encode_run path leaf T _ Hok Hne (zeros_ok _) (length_replicate _ _))).
    intros (d1 & T1 & (-> & -> & _)%prepend_Ok & H)%bind_Ok. destruct (compact_spec path leaf Hok) as [C1 C2]. unfold MAX_PATH_NIBBLES, len in Hl.
    assert (Hlp : (length path / 2 <= 32)%nat) by (apply (Nat.Div0.div_le_mono _ 64 2); lia). rewrite encode_string2_short by lia.
    destruct (Nat.ltb_spec 1 (length path / 2 + 1)) as [Hlt|Hge].
    + apply prepend_Ok in H as (-> & -> & _). rewrite (proj2 (Z.eqb_neq (len _) 1)) by lia. cbn [andb]. by rewrite C1.
    + apply ret_Ok in H as [-> ->]. rewrite (proj2 (Z.eqb_eq (len _) 1)) by lia. rewrite (proj2 (Z.leb_le _ 127)) by lia. done.
Qed.
Lemma encode_path_state dest path leaf T d T' : encode_path dest path leaf T = Ok (d, T') → T' = T.
Proof. unfold encode_path, compact_encode_raw, prepend, nibble. intros H. destruct (Nat.even _), (1 <? _)%nat; minv; done. Qed.
Lemma claim_state size cs : ∀ o T o' T', claim size cs o T = Ok (o', T') → T' = T.
Proof.
  induction cs as [|c cs IH]; intros o T o' T' E; cbn [claim] in E; [by apply ret_Ok in E as [_ ->]|].
  apply bind_Ok in E as (o1 & T1 & E1 & E). apply IH in E as ->. unfold is_valid_offset in E1. destruct (c =? NULL_ID); minv; done.
Qed.

Section priming.
Context {HB : Branches} (keccak256 : list Z → Z) (t : tree) (Hwf : wf true 64 t).
Abbreviation rep := (rep keccak256).
Abbreviation ref := (ref keccak256).
Abbreviation rlp := (rlp keccak256).
Abbreviation root_hash := (root_hash keccak256).
Abbreviation child_ref := (child_ref keccak256).
Abbreviation hash := (hash keccak256).

(** The invariant of the walk: the tree is held, in the blob as well. *)
Record inv (T : OffsetTrie) : Prop := { in_store : store_ok T; in_rep : rep T t; in_original : original T t }.
(** The cache is all that changes. *)
Definition grown (T T' : OffsetTrie) : Prop := inv T' ∧ ∃ m, T' = set_hashes m T.
Lemma grown_refl T : inv T → grown T T.
Proof. intros H. split; [done|]. exists (hashes_ T). by destruct T. Qed.
Lemma grown_trans T1 T2 T3 : grown T1 T2 → grown T2 T3 → grown T1 T3.
Proof. intros [_ [m ->]] [H [m' ->]]. split; [done|]. by exists m'. Qed.
(** a subtree, or an empty place *)
Definition sub (s : tree) : Prop := s ∈ nodes t ∨ s = Empty.
Definition ref_sound (cr : Z → list Z → M OffsetTrie (list Z)) : Prop := ∀ id dest T d T', inv T → cr id dest T = Ok (d, T') →
  grown T T' ∧ ∀ s, sub s → tid s = id → d = ref s ++ dest.
Definition root_sound (hs : Z → M OffsetTrie Z) : Prop := ∀ id T h T', inv T → hs id T = Ok (h, T') →
  grown T T' ∧ ∀ s, sub s → tid s = id → h = root_hash s.
Definition encode_sound (enc : node → M OffsetTrie (list Z)) : Prop := ∀ nd T r T', inv T → enc nd T = Ok (r, T') →
  grown T T' ∧ ∀ s, s ∈ nodes t → node_of s = nd → r = rlp s.
Lemma sub_rep T s : inv T → sub s → rep T s.
Proof.
  intros H [Hs| ->]; [|constructor]. apply list.Forall_forall. intros u Hu. pose proof (in_rep _ H) as Hr. eapply list.Forall_forall in Hr; [exact Hr|]. by apply (nodes_trans t s).
Qed.
Lemma sub_at T s : inv T → s ∈ nodes t → at_node keccak256 T s.
Proof. intros H Hs. pose proof (in_rep _ H) as Hr. by eapply list.Forall_forall in Hr. Qed.
Lemma sub_zero T s : inv T → sub s → tid s = NULL_ID → s = Empty.
Proof. intros H [Hs|?] E; [|done]. pose proof (an_id _ _ _ (sub_at T s H Hs)). unfold NULL_ID in E. lia. Qed.
Lemma sub_child s c : s ∈ nodes t → (∀ u, u ∈ nodes c → u ∈ nodes s) → sub c.
Proof.
  intros Hs Hc. destruct (is_empty c) eqn:E; [right; by destruct c|left]. apply (nodes_trans t s); [done|]. by apply Hc, nodes_self.
Qed.
Lemma sub_wf s : s ∈ nodes t → ∃ acct n, wf acct n s ∧ (n <= 64)%nat.
Proof using Hwf. intros Hs. by apply (nodes_wf t true 64). Qed.
(** what may be cached *)
Lemma cache_sound T id h u T' : inv T → id < next_id_ T → (∀ s, s ∈ nodes t → tid s = id → h = root_hash s ∧ 32 <= len (rlp s)) →
  cache_hash id h T = Ok (u, T') → grown T T'.
Proof.
  intros HI Hid Hh E. unfold cache_hash in E. injection E as <- <-. destruct (hashes_ T !! id) as [h0|] eqn:En; [by apply grown_refl|]. split; [|by eexists].
  destruct HI as [[M0 N0 B0 X0 O0 H0] Hr Ho]. split; [| |done].
  - split; try done. cbn. intros j k. rewrite lookup_insert_Some. intros [[<- _]|[_ ?]]; [done|eauto].
  - apply list.Forall_forall. intros s Hs. eapply list.Forall_forall in Hr; [|exact Hs]. destruct Hr as [A1 A2 A3 A4 A5]. split; [done..|]. intros k. cbn.
    rewrite lookup_insert_Some. intros [[E1 <-]|[_ ?]]; [by apply Hh|by apply A5].
Qed.

(** *** The children of a branch *)
Lemma children_sound cr : ref_sound cr → ∀ fuel cs T dest d T', (length cs <= fuel)%nat → inv T → Forall sub cs →
  encode_children cr fuel (rev (tid <$> cs)) dest T = Ok (d, T') → grown T T' ∧ d = concat (map ref cs) ++ dest.
Proof.
  intros Hcr fuel. induction fuel as [|fuel IH]; intros cs T dest d T' Hl HI Hs E.
  { destruct cs; [|cbn in Hl; lia]. apply ret_Ok in E as [-> ->]. split; [by apply grown_refl|done]. }
  destruct cs as [|c cs _] using rev_ind; [apply ret_Ok in E as [-> ->]; split; [by apply grown_refl|done]|].
  rewrite fmap_app, rev_app_distr in E. cbn [fmap list_fmap rev app encode_children] in E. apply Forall_app in Hs as [Hs Hc]. apply list.Forall_cons in Hc as [Hc _].
  rewrite length_app in Hl. cbn [length] in Hl. pose proof (sub_rep T c HI Hc) as Hrc. rewrite (bind_Ok_eq _ _ _ _ _ (digest_at_run keccak256 T c Hrc)) in E.
  assert (Hrs : Forall (rep T) cs) by (apply (list.Forall_impl _ _ _ Hs); intros x Hx; by apply sub_rep). destruct (is_digest c) eqn:Dc.
  - destruct c; try done. cbn [tid] in *. destruct Hc as [Hc|]; [|done]. pose proof (an_original _ _ _ (sub_at T _ HI Hc)) as Ho. unfold original_ok in Ho.
    destruct (tid (Digest id h) <? OVERLAY_BASE); [|done]. destruct Ho as [_ Ho]. cbn [tid] in Ho.
    destruct (digest_run_run keccak256 T cs Hrs id 1 (hash_rlp h)) as (cs1 & ds & lo & -> & R & S1); [done|].
    rewrite (bind_Ok_eq _ _ _ _ _ R) in E. cbn [fst snd] in E. rewrite run_mget, S1, run_mvalue in E. apply bind_Ok in E as (d1 & T1 & (-> & -> & _)%prepend_Ok & E).
    apply Forall_app in Hs as [Hs1 _]. rewrite length_app in Hl. destruct (IH cs1 T _ d T' ltac:(lia) HI Hs1 E) as [HG ->]. split; [done|].
    rewrite !map_app, !concat_app. cbn [map concat OffsetTrieTree.ref]. by rewrite app_nil_r, <- !app_assoc.
  - apply bind_Ok in E as (d1 & T1 & E1 & E). destruct (Hcr _ _ _ _ _ HI E1) as [G1 D1]. rewrite (D1 c Hc eq_refl) in E.
    destruct (IH cs T1 _ d T' ltac:(lia) (proj1 G1) Hs E) as [HG ->]. split; [by eapply grown_trans|].
    rewrite map_app, concat_app. cbn [map concat]. by rewrite app_nil_r, <- app_assoc.
Qed.
(** the invariant alone, whatever the children are *)
Lemma children_grown cr : ref_sound cr → ∀ fuel l T dest d T', inv T → encode_children cr fuel l dest T = Ok (d, T') → grown T T'.
Proof.
  intros Hcr fuel. induction fuel as [|fuel IH]; intros l T dest d T' HI E; [apply ret_Ok in E as [_ ->]; by apply grown_refl|].
  destruct l as [|c l]; [apply ret_Ok in E as [_ ->]; by apply grown_refl|]. cbn [encode_children] in E. apply bind_Ok in E as (b & T0 & E0 & E).
  assert (Hrun : ∀ l' next n r T1 T2, digest_run l' next n T1 = Ok (r, T2) → T2 = T1).
  { clear. induction l' as [|c l' IH]; intros next n r T1 T2 E; cbn [digest_run] in E; [by apply ret_Ok in E as [_ ->]|]. destruct (_ =? _); [|by apply ret_Ok in E as [_ ->]].
    apply bind_Ok in E as (b & T0 & E0 & E). assert (T0 = T1) as -> by (unfold digest_at, get_original in E0; destruct (_ && _); minv; done). destruct b; [by eapply IH|by apply ret_Ok in E as [_ ->]]. }
  assert (T0 = T) as -> by (unfold digest_at, get_original in E0; destruct (_ && _); minv; done). destruct b.
  - apply bind_Ok in E as ([[rest lo] n] & T1 & E1 & E). apply Hrun in E1 as ->. rewrite run_mget in E. apply bind_Ok in E as (ds & T1 & [_ ->]%mvalue_Ok & E).
    apply bind_Ok in E as (d1 & T1 & (_ & -> & _)%prepend_Ok & E). by eapply IH.
  - apply bind_Ok in E as (d1 & T1 & E1 & E). destruct (Hcr _ _ _ _ _ HI E1) as [G1 _]. eapply grown_trans; [done|]. by eapply IH; [apply G1|].
Qed.

(** *** One node *)
Lemma sub_children s : s ∈ nodes t → ∀ cs, nodes s = s :: concat (map nodes cs) → Forall sub cs.
Proof.
  intros Hs cs E. apply list.Forall_forall. intros c Hc. apply (sub_child s); [done|]. intros u Hu. rewrite E. right.
  apply list_elem_of_In, in_concat. exists (nodes c). split; [by apply in_map, list_elem_of_In|by apply list_elem_of_In].
Qed.
Lemma encode_is_sound cr hs : ref_sound cr → root_sound hs → encode_sound (encode_node cr hs).
Proof using Hwf.
  intros Hcr Hhs nd T r T' HI E. destruct nd as [children|child path|storage ch nb path|v path|h|]; cbn [encode_node] in E; try done.
  - apply bind_Ok in E as (d0 & T0 & (-> & -> & _)%prepend_Ok & E). apply bind_Ok in E as (d1 & T1 & E1 & (-> & ->)%wrap_Ok). rewrite app_nil_r in E1.
    split; [by eapply children_grown|]. intros s Hs Ens. destruct s as [| | | |id cs|]; try done. injection Ens as <-. destruct (sub_wf _ Hs) as (acct & n & Hw & _).
    inversion Hw as [| | | |? n0 ? ? Hl Ho Hwfs|]; subst. destruct (children_sound cr Hcr 16 cs T [0x80] d1 T1 ltac:(lia) HI (sub_children _ Hs cs eq_refl) E1) as [_ ->].
    by rewrite rlp_branch.
  - apply bind_Ok in E as (d0 & T0 & E0 & E). destruct (Hcr _ _ _ _ _ HI E0) as [G0 D0]. apply bind_Ok in E as (d1 & T1 & E1 & (-> & ->)%wrap_Ok).
    pose proof (encode_path_state _ _ _ _ _ _ E1) as ->.
    split; [done|]. intros s Hs Ens. destruct s as [| | |id p c| |]; try done. injection Ens as <- <-. destruct (sub_wf _ Hs) as (acct & n & Hw & Hn).
    inversion Hw as [| | |? n0 ? ? ? Hp0 Hpo Hbr Hw0| |]; subst. pose proof (D0 c (sub_child _ c Hs ltac:(intros u Hu; by right)) eq_refl) as ->. rewrite app_nil_r in E1.
    apply encode_path_Ok in E1 as [-> _]; [by rewrite rlp_ext|done|left; intros ->; cbn in Hp0; lia|unfold len, MAX_PATH_NIBBLES; lia].
  - apply bind_Ok in E as (d0 & T0 & (-> & -> & _)%prepend_Ok & E). apply bind_Ok in E as (h & T0 & E0 & E). destruct (Hhs _ _ _ _ HI E0) as [G0 D0].
    apply bind_Ok in E as (d1 & T1 & (-> & -> & _)%prepend_Ok & E). apply bind_Ok in E as (nb' & T1 & Enb & E).
    assert (nb' = nb ∧ T1 = T0) as [-> ->] by (unfold nonce_balance_rlp in Enb; minv; done). apply bind_Ok in E as (d2 & T1 & (-> & -> & _)%prepend_Ok & E).
    apply bind_Ok in E as (d3 & T1 & (-> & ->)%wrap_Ok & E). apply bind_Ok in E as ([] & T1 & [_ ->]%massert_Ok & E).
    apply bind_Ok in E as (d4 & T1 & (-> & -> & _)%prepend_Ok & E). apply bind_Ok in E as (d5 & T1 & (-> & -> & _)%prepend_Ok & E). apply bind_Ok in E as (d6 & T1 & E1 & (-> & ->)%wrap_Ok).
    pose proof (encode_path_state _ _ _ _ _ _ E1) as ->.
    split; [done|]. intros s Hs Ens. destruct s as [| |id p ch' nb' st| | |]; try done. injection Ens as <- <- <- <-. destruct (sub_wf _ Hs) as (acct & n & Hw & Hn).
    inversion Hw as [| |? ? ? ? ? ? Hp Hok Hch Hnb Hwst| | |]; subst. pose proof (D0 st (sub_child _ st Hs ltac:(intros u Hu; by right)) eq_refl) as ->. rewrite app_nil_r in E1.
    destruct (account_run ch' nb' (root_hash st) T0 Hch Hnb) as (_ & _ & A2 & A3 & _). rewrite A2 in *. cbn [app] in E1. rewrite <- A3 in E1.
    apply encode_path_Ok in E1 as [-> _]; [by rewrite rlp_aleaf|done|by right|unfold len, MAX_PATH_NIBBLES; lia].
  - rewrite <- run_bind_bind, (bind_Ok_eq _ _ _ _ _ (storage_value_run v T)) in E. apply bind_Ok in E as (d1 & T1 & E1 & (-> & ->)%wrap_Ok).
    pose proof (encode_path_state _ _ _ _ _ _ E1) as ->.
    split; [by apply grown_refl|]. intros s Hs Ens. destruct s as [|id p v'| | | |]; try done. injection Ens as <- <-. destruct (sub_wf _ Hs) as (acct & n & Hw & Hn). inversion Hw; subst.
    apply encode_path_Ok in E1 as [-> _]; [by rewrite rlp_sleaf|done|by right|unfold len, MAX_PATH_NIBBLES; lia].
Qed.

(** *** References and hashes *)
(** a node that is read, in either pass, is the one of the tree *)
Lemma read_sound priming id T p T1 nd : inv T → read_node priming id T = Ok (p, T1) → view p = Some nd →
  T1 = T ∧ (nd = NullView ∨ id < next_id_ T) ∧ ∀ s, sub s → tid s = id → node_of s = nd.
Proof.
  intros HI E V. pose proof (in_store _ HI) as HT. assert (Vm : view (blob_ T) = Some NullView) by (unfold view; by rewrite (so_magic _ HT)).
  assert (Ho : ∀ q T2, get_original id T = Ok (q, T2) → T2 = T ∧ q = drop (Z.to_nat id) (blob_ T) ∧ id < next_id_ T).
  { intros q T2 H. unfold get_original in H. minv. split_and!; [done|done|]. pose proof (so_blob _ HT). pose proof (so_next _ HT).
    match goal with H : _ || _ = true |- _ => apply orb_true_iff in H as [H%Z.eqb_eq|H] end; [unfold NULL_ID, OVERLAY_BASE in *; lia|].
    unfold in_blob in *. match goal with H : _ && _ = true |- _ => apply andb_true_iff in H as [_ H%Z.ltb_lt] end. lia. }
  destruct priming; cbn [read_node] in E.
  - apply Ho in E as (-> & -> & Hid). split; [done|]. split; [by right|]. intros s [Hs| ->] Es.
    + pose proof (in_original _ HI) as H. eapply list.Forall_forall in H; [|exact Hs]. destruct H as [_ H]. rewrite Es in H. congruence.
    + subst id. change (view (blob_ T) = Some nd) in V. cbn [node_of]. congruence.
  - assert (Hs : T1 = T ∧ cur_bytes T id = Some p ∧ (nd = NullView ∨ id < next_id_ T)).
    { unfold get_current in E. rewrite run_mget in E. unfold cur_bytes. destruct (overlay_ T !! id) as [b|] eqn:Eo; [minv; split_and!; [done|done|right; by eapply so_overlay]|].
      destruct (is_overlay_id id); [minv; split_and!; [done|done|left; congruence]|]. pose proof (Ho _ _ E) as (-> & -> & Hid). split_and!; [done| |by right].
      unfold get_original in E. rewrite run_mget in E. apply bind_Ok in E as ([] & T2 & [Hb _]%massert_Ok & _). by rewrite Hb. }
    destruct Hs as (-> & Ec & Hid). split; [done|]. split; [done|]. intros s [Hs| ->] Es.
    + pose proof (an_cur _ _ _ (sub_at T s HI Hs)) as H. unfold cur in H. rewrite Es, Ec in H. cbn in H. congruence.
    + subst id. pose proof (cur_null _ HT) as H. unfold cur in H. change (tid Empty) with NULL_ID in Ec. rewrite Ec in H. cbn [node_of mbind option_bind] in *. congruence.
Qed.
Lemma child_ref_step fuel priming id dest : child_ref (S fuel) priming id dest =
  if id =? NULL_ID then prepend [0x80] dest
  else p ← read_node priming id; nd ← match_ p;
    node_case nd mabort (λ h, encode_hash (hash_rlp h) dest)
      (T ← mget;
       match hashes_ T !! id with
       | Some h => encode_hash (hash_rlp h) dest
       | None => rlp ← encode_node (child_ref fuel priming) (hash fuel) nd;
           if len rlp <? 32 then prepend rlp dest
           else if priming then mabort
           else cache_hash id (keccak256 rlp);; prepend (encode_string (be_bytes 32 (keccak256 rlp))) dest
       end).
Proof. done. Qed.
(** a subtree that is neither empty nor a digest *)
Lemma plain_node s nd : node_of s = nd → (∀ A (e o : A) d, node_case nd e d o = o) → is_empty s = false ∧ is_digest s = false.
Proof.
  intros <- H. destruct s; cbn [node_of] in H; try done; [specialize (H bool true false (λ _, true))|specialize (H bool true false (λ _, true))]; done.
Qed.
Lemma node_cases nd : nd = NullView ∨ (∃ h, nd = DigestView h) ∨ ∀ A (e o : A) d, node_case nd e d o = o.
Proof. destruct nd; eauto. Qed.
Lemma grown_next T T' : grown T T' → next_id_ T' = next_id_ T.
Proof. by intros [_ [m ->]]. Qed.
Lemma node_sound fuel id nd T : inv T → nd ≠ NullView → nd = NullView ∨ id < next_id_ T → (∀ s, sub s → tid s = id → node_of s = nd) → (∀ A (e o : A) d, node_case nd e d o = o) →
  (∀ h, hashes_ T !! id = Some h → ∀ s, sub s → tid s = id → hash_rlp h = ref s ∧ h = root_hash s) ∧
  (∀ priming r T', encode_sound (encode_node (child_ref fuel priming) (hash fuel)) → encode_node (child_ref fuel priming) (hash fuel) nd T = Ok (r, T') →
     grown T T' ∧ (∀ s, sub s → tid s = id → r = rlp s ∧ ref s = short keccak256 r ∧ root_hash s = keccak256 r) ∧
     (32 <= len r → ∀ u T2, cache_hash id (keccak256 r) T' = Ok (u, T2) → grown T T2)).
Proof.
  intros HI Hnn Hid Hno Hpl. assert (Hsub : ∀ s, sub s → tid s = id → s ∈ nodes t ∧ is_empty s = false ∧ is_digest s = false).
  { intros s Hs Es. pose proof (Hno s Hs Es) as En. destruct (plain_node s nd En Hpl) as [E D]. split; [|done]. destruct Hs as [?| ->]; [done|]. done. }
  split.
  - intros h Hh s Hs Es. destruct (Hsub s Hs Es) as (Hin & E & D). subst id. apply (cached_ref keccak256 s E D T h); [by apply sub_rep|done].
  - intros priming r T' Henc R. destruct (Henc nd T r T' HI R) as [G Hr]. assert (Hrs : ∀ s, sub s → tid s = id → r = rlp s ∧ ref s = short keccak256 r ∧ root_hash s = keccak256 r).
    { intros s Hs Es. destruct (Hsub s Hs Es) as (Hin & E & D). pose proof (Hr s Hin (Hno s Hs Es)) as ->. split; [done|]. by apply ref_node. }
    split_and!; [done|done|]. intros Hl u T2 C. eapply grown_trans; [done|]. apply (cache_sound T' id (keccak256 r) u T2); [apply G| |  |done].
    + rewrite (grown_next T T' G). by destruct Hid.
    + intros s Hs Es. destruct (Hrs s (or_introl Hs) Es) as (-> & _ & ->). done.
Qed.
Lemma hash_sound fuel : (∀ priming, ref_sound (child_ref fuel priming)) ∧ root_sound (hash fuel).
Proof using Hwf.
  induction fuel as [|fuel [IHr IHh]]; [by split; intros ?; try intros ?; intros|].
  assert (Henc : ∀ priming, encode_sound (encode_node (child_ref fuel priming) (hash fuel))) by (intros priming; by apply encode_is_sound).
  split.
  - intros priming id dest T d T' HI E. rewrite child_ref_step in E. destruct (Z.eqb_spec id NULL_ID) as [->|Hz].
    { apply prepend_Ok in E as (-> & -> & _). split; [by apply grown_refl|]. intros s Hs Es. by rewrite (sub_zero T s HI Hs Es). }
    apply bind_Ok in E as (p & T0 & E0 & E). apply bind_Ok in E as (nd & T1 & [V ->]%mvalue_Ok & E). destruct (read_sound _ _ _ _ _ _ HI E0 V) as (-> & Hid & Hno).
    destruct (node_cases nd) as [->|[[h ->]|Hpl]]; [done| |].
    { apply prepend_Ok in E as (-> & -> & _). split; [by apply grown_refl|]. intros s Hs Es. pose proof (Hno s Hs Es). destruct s; try done. cbn in *. congruence. }
    rewrite Hpl, run_mget in E. assert (Hnn : nd ≠ NullView) by (intros ->; by specialize (Hpl bool true false (λ _, true))).
    destruct (node_sound fuel id nd T HI Hnn Hid Hno Hpl) as [Hc He]. destruct (hashes_ T !! id) as [h|].
    { apply prepend_Ok in E as (-> & -> & _). split; [by apply grown_refl|]. intros s Hs Es. by destruct (Hc h eq_refl s Hs Es) as [-> _]. }
    apply bind_Ok in E as (r & T1 & E1 & E). destruct (He priming r T1 (Henc priming) E1) as (G & Hr & Hca). destruct (Z.ltb_spec (len r) 32) as [Hl|Hl].
    { apply prepend_Ok in E as (-> & -> & _). split; [done|]. intros s Hs Es. destruct (Hr s Hs Es) as (_ & -> & _). unfold short. by rewrite (proj2 (Z.ltb_lt _ _) Hl). }
    destruct priming; [done|]. apply bind_Ok in E as (u & T2 & C & E). apply prepend_Ok in E as (-> & -> & _). split; [by eapply Hca|].
    intros s Hs Es. destruct (Hr s Hs Es) as (_ & -> & _). unfold short. by rewrite (proj2 (Z.ltb_ge _ _) Hl), encode_hash_is.
  - intros id T h T' HI E. rewrite hash_S in E. apply bind_Ok in E as (p & T0 & E0 & E). apply bind_Ok in E as (nd & T1 & [V ->]%mvalue_Ok & E).
    destruct (read_sound false _ _ _ _ _ HI E0 V) as (-> & Hid & Hno). destruct (node_cases nd) as [->|[[h' ->]|Hpl]].
    { apply ret_Ok in E as [-> ->]. split; [by apply grown_refl|]. intros s Hs Es. pose proof (Hno s Hs Es). by destruct s. }
    { apply ret_Ok in E as [-> ->]. split; [by apply grown_refl|]. intros s Hs Es. pose proof (Hno s Hs Es). destruct s; try done. cbn in *. congruence. }
    rewrite Hpl, run_mget in E. assert (Hnn : nd ≠ NullView) by (intros ->; by specialize (Hpl bool true false (λ _, true))).
    destruct (node_sound fuel id nd T HI Hnn Hid Hno Hpl) as [Hc He]. destruct (hashes_ T !! id) as [h'|].
    { apply ret_Ok in E as [-> ->]. split; [by apply grown_refl|]. intros s Hs Es. by destruct (Hc h' eq_refl s Hs Es) as [_ ->]. }
    apply bind_Ok in E as (r & T1 & E1 & E). destruct (He false r T1 (Henc false) E1) as (G & Hr & Hca). apply bind_Ok in E as ([] & T2 & [Hl ->]%massert_Ok & E).
    apply Z.geb_le in Hl. apply bind_Ok in E as (u & T2 & C & E). apply ret_Ok in E as [-> ->]. split; [by eapply Hca|].
    intros s Hs Es. by destruct (Hr s Hs Es) as (_ & _ & ->).
Qed.

(** *** The walk *)
Definition prime_node (fuel : nat) (off : Z) (nd : node) : trieM () :=
  match nd with
  | NullView | DigestView _ => mret ()
  | _ => rlp ← encode_rlp keccak256 fuel true nd; if len rlp >=? 32 then cache_hash off (keccak256 rlp) else mret ()
  end.
Lemma prime_step fuel off o T b p : drop (Z.to_nat off) (blob_ T) = b :: p → prime keccak256 (S fuel) off o T =
  (end_ ← mvalue (checked_end (drop (Z.to_nat off) (blob_ T)));
   nd ← match_ (drop (Z.to_nat off) (blob_ T));
   o ← claim (len (blob_ T)) (node_children nd) o;
   prime_node (S fuel) off nd;; prime keccak256 fuel (off + Z.of_nat end_) (o ∪ {[off]})) T.
Proof. intros E. cbn [prime]. rewrite run_mget, E. done. Qed.
Lemma prime_node_plain fuel off nd : (∀ A (e o : A) d, node_case nd e d o = o) →
  prime_node fuel off nd = (r ← encode_rlp keccak256 fuel true nd; if len r >=? 32 then cache_hash off (keccak256 r) else mret ()).
Proof. intros Hpl. destruct nd; try done; by specialize (Hpl bool true false (λ _, true)). Qed.
Lemma prime_node_sound fuel off nd T u T' : inv T → off < len (blob_ T) → view (drop (Z.to_nat off) (blob_ T)) = Some nd → prime_node fuel off nd T = Ok (u, T') → grown T T'.
Proof using Hwf.
  intros HI Hoff V E. destruct (node_cases nd) as [->|[[h ->]|Hpl]]; [apply ret_Ok in E as [_ ->]; by apply grown_refl..|]. rewrite prime_node_plain in E by done.
  apply bind_Ok in E as (r & T1 & R & C). destruct (hash_sound fuel) as [Hr Hh]. destruct (encode_is_sound _ _ (Hr true) Hh nd T r T1 HI R) as [G Hrlp].
  destruct (len r >=? 32) eqn:Hl; [|apply ret_Ok in C as [_ ->]; exact G]. apply Z.geb_le in Hl.
  eapply grown_trans; [exact G|]. apply (cache_sound T1 off (keccak256 r) u T'); [apply G| | |exact C].
  - rewrite (grown_next T T1 G). pose proof (so_blob _ (in_store _ HI)). pose proof (so_next _ (in_store _ HI)). lia.
  - intros s Hs Es. pose proof (in_original _ HI) as Ho. eapply list.Forall_forall in Ho; [|exact Hs]. destruct Ho as [_ Ho]. rewrite Es, V in Ho. injection Ho as ->.
    destruct (plain_node s _ eq_refl Hpl) as [Ee Dg]. rewrite (Hrlp s Hs eq_refl) in *. by rewrite (proj2 (ref_node keccak256 s Ee Dg)).
Qed.
Lemma inside off (T : OffsetTrie) b p : drop (Z.to_nat off) (blob_ T) = b :: p → off < len (blob_ T).
Proof. intros E. apply (f_equal length) in E. rewrite length_drop in E. cbn [length] in E. unfold len. lia. Qed.
Lemma prime_sound fuel : ∀ off o T o' T', inv T → prime keccak256 fuel off o T = Ok (o', T') → grown T T'.
Proof using Hwf.
  induction fuel as [|fuel IH]; intros off o T o' T' HI E; [done|]. destruct (drop (Z.to_nat off) (blob_ T)) as [|b p] eqn:Ep.
  { cbn [prime] in E. rewrite run_mget, Ep in E. apply ret_Ok in E as [_ ->]. by apply grown_refl. }
  rewrite (prime_step _ _ _ _ _ _ Ep) in E. apply bind_Ok in E as (n & T0 & [_ ->]%mvalue_Ok & E). apply bind_Ok in E as (nd & T0 & [V ->]%mvalue_Ok & E).
  apply bind_Ok in E as (o1 & T0 & ->%claim_state & E). apply bind_Ok in E as (u & T1 & E1 & E).
  pose proof (prime_node_sound _ _ _ _ _ _ HI (inside _ _ _ _ Ep) V E1) as G. eapply grown_trans; [exact G|]. eapply IH; [apply G|exact E].
Qed.
End priming.

(** ** The tree in the blob *)
(** [node_offsets] are the roots of trees the nodes so far make up. *)
Record forest (T : OffsetTrie) (o : gset Z) (F : list tree) : Prop := {
  fo_original : Forall (original T) F;
  fo_nonempty : Forall (λ s, is_empty s = false) F;
  fo_nodup : NoDup (ids_list F);
  fo_roots : o = list_to_set (tid <$> F)
}.
Lemma ids_list_perm F F' : F ≡ₚ F' → ids_list F ≡ₚ ids_list F'.
Proof.
  induction 1 as [|s F F' H IH|s s' F|F1 F2 F3 H1 IH1 H2 IH2]; [done|by rewrite !ids_list_cons, IH| |by rewrite IH1].
  rewrite !ids_list_cons, !app_assoc. by rewrite (Permutation_app_comm (ids s)).
Qed.
Lemma forest_perm T o F F' : F ≡ₚ F' → forest T o F → forest T o F'.
Proof.
  intros H [H1 H2 H3 H4]. split; [by rewrite <- H|by rewrite <- H| |].
  - by rewrite <- (ids_list_perm _ _ H).
  - rewrite H4. apply list_to_set_perm_L. by rewrite H.
Qed.
Lemma forest_pick T o F c : forest T o F → c ∈ o → ∃ s F', F ≡ₚ s :: F' ∧ tid s = c ∧ original T s ∧ ids_list F ≡ₚ ids s ++ ids_list F' ∧ forest T (o ∖ {[c]}) F'.
Proof.
  intros HF Hc. rewrite (fo_roots _ _ _ HF) in Hc. apply elem_of_list_to_set, list_elem_of_fmap in Hc as (s & -> & Hs). apply elem_of_Permutation in Hs as [F' HP].
  pose proof (forest_perm _ _ _ _ HP HF) as [H1 H2 H3 H4]. apply list.Forall_cons in H1 as [H0 H1]. apply list.Forall_cons in H2 as [He H2]. rewrite ids_list_cons in H3.
  apply list.NoDup_app in H3 as (_ & Hdis & H3). exists s, F'. split_and!; [done|done|done| |].
  - by rewrite (ids_list_perm _ _ HP).
  - split; [done|done|done|]. rewrite H4. cbn [fmap list_fmap list_to_set foldr]. assert (Hn : tid s ∉ tid <$> F').
    { intros (s' & E & Hs')%list_elem_of_fmap. apply (Hdis (tid s)); [by apply tid_in|]. unfold ids_list. apply list_elem_of_In, in_concat. exists (ids s').
      split; [by apply in_map, list_elem_of_In|]. apply list_elem_of_In. rewrite E. apply tid_in. by eapply list.Forall_forall in H2. }
    set_solver.
Qed.
Lemma claim_forest T size cs : ∀ o F o' T', claim size cs o T = Ok (o', T') → forest T o F →
  ∃ ts F', tid <$> ts = cs ∧ Forall (original T) ts ∧ ids_list F ≡ₚ ids_list ts ++ ids_list F' ∧ forest T o' F'.
Proof.
  induction cs as [|c cs IH]; intros o F o' T' E HF; cbn [claim] in E.
  - apply ret_Ok in E as [-> _]. by exists [], F.
  - apply bind_Ok in E as (o1 & T1 & E1 & E). unfold is_valid_offset in E1. destruct (Z.eqb_spec c NULL_ID) as [->|Hc].
    + apply ret_Ok in E1 as [-> ->]. destruct (IH o F o' T' E HF) as (ts & F' & <- & Ho & HP & HF'). exists (Empty :: ts), F'. split_and!; [done|constructor; [constructor|done]|done|done].
    + apply bind_Ok in E1 as ([] & T2 & [Hin ->]%massert_Ok & E1). apply ret_Ok in E1 as [-> ->]. apply andb_true_iff in Hin as [_ Hin%bool_decide_eq_true].
      destruct (forest_pick T o F c HF Hin) as (s & F1 & _ & Ht & Hs & HP & HF1). destruct (IH _ F1 o' T' E HF1) as (ts & F' & <- & Ho & HP' & HF').
      exists (s :: ts), F'. split_and!; [by rewrite <- Ht|by constructor| |done]. rewrite HP, HP', ids_list_cons. by rewrite app_assoc.
Qed.

(** a node over the trees of its children *)
Definition grow (id : Z) (nd : node) (ts : list tree) : tree :=
  match nd, ts with
  | BranchView _, ts => Branch id ts
  | ExtView _ p, [c] => Ext id p c
  | AccountLeafView _ ch nb p, [st] => ALeaf id p ch nb st
  | StorageLeafView v p, _ => SLeaf id p v
  | DigestView h, _ => Digest id h
  | _, _ => Empty
  end.
Lemma grow_spec id nd ts : nd ≠ NullView → tid <$> ts = node_children nd →
  let s := grow id nd ts in is_empty s = false ∧ tid s = id ∧ node_of s = nd ∧ nodes s = s :: concat (map nodes ts).
Proof.
  intros Hn E s. subst s. destruct nd as [children|child path|storage ch nb path|v path|h|]; cbn [node_children] in E; try done.
  - by rewrite <- E.
  - destruct ts as [|c [|]]; try done. injection E as <-. cbn. by rewrite app_nil_r.
  - destruct ts as [|c [|]]; try done. injection E as <-. cbn. by rewrite app_nil_r.
  - by destruct ts.
  - by destruct ts.
Qed.
Lemma view_null p : view p = Some NullView → p !! 0%nat = Some EMPTY.
Proof.
  unfold view. destruct (p !! 0%nat) as [tag|]; [|done]. cbn [mbind option_bind]. destruct (tag =? BRANCH); [by intros (? & _ & H)%bind_Some|].
  destruct (tag =? EXT); [intros H; by repeat apply bind_Some in H as (? & _ & H)|]. destruct (tag =? LEAF_ACCT); [intros H; by repeat apply bind_Some in H as (? & _ & H)|].
  destruct (tag =? LEAF_STORAGE); [intros H; by repeat apply bind_Some in H as (? & _ & H)|]. destruct (tag =? DIGEST); [by intros (? & _ & H)%bind_Some|].
  by destruct (Z.eqb_spec tag EMPTY) as [->|].
Qed.
Lemma checked_end_spec p n : checked_end p = Some n → (0 < n)%nat ∧ view p ≠ Some NullView.
Proof.
  intros H. split; [|intros V%view_null; unfold checked_end in H; by rewrite V in H]. revert H.
  unfold checked_end. destruct (p !! 0%nat) as [tag|]; [|done]. cbn [mbind option_bind]. destruct (tag =? BRANCH); [destruct (_ <=? _)%nat; intros [= <-]; lia|].
  destruct (tag =? EXT); [intros (k & _ & H)%bind_Some; repeat case_match; simplify_eq; lia|].
  destruct (tag =? LEAF_ACCT); [intros (off & _ & H)%bind_Some; apply bind_Some in H as (k & _ & H); repeat case_match; simplify_eq; lia|].
  destruct (tag =? LEAF_STORAGE); [intros (k & _ & H)%bind_Some; repeat case_match; simplify_eq; lia|].
  destruct (tag =? DIGEST); [destruct (_ <=? _)%nat; intros [= <-]; lia|done].
Qed.

(** *** The walk builds a tree *)
(** the trie before the walk of its constructor *)
Definition unprimed (blob : list Z) (r : Z) : OffsetTrie := mkOffsetTrie blob ∅ ∅ OVERLAY_BASE r.
Lemma forest_grow T o F off nd ts F' : Forall (original T) ts → ids_list F ≡ₚ ids_list ts ++ ids_list F' → Forall (λ i, i < off) (ids_list F) → NoDup (ids_list F) →
  forest T o F' → HEADER_LEN <= off < len (blob_ T) → view (drop (Z.to_nat off) (blob_ T)) = Some nd → nd ≠ NullView → tid <$> ts = node_children nd →
  forest T (o ∪ {[off]}) (grow off nd ts :: F') ∧ ids_list (grow off nd ts :: F') ≡ₚ off :: ids_list F.
Proof.
  intros Hts HP Hlt Hnd [H1 H2 H3 H4] Hoff V Hn Ec. destruct (grow_spec off nd ts Hn Ec) as (Ee & Et & En & Es). set (s := grow off nd ts) in *.
  assert (Ei : ids s = off :: ids_list ts).
  { unfold ids, ids_list. rewrite Es. cbn [fmap list_fmap]. rewrite Et. f_equal. clear. induction ts as [|c ts IH]; [done|]. cbn [map concat]. by rewrite fmap_app, IH. }
  assert (HL : ids_list (s :: F') ≡ₚ off :: ids_list F) by (rewrite ids_list_cons, Ei, HP; done). split; [|done]. split.
  - constructor; [|done]. unfold original. rewrite Es. constructor.
    + split; rewrite Et; [|by rewrite En]. unfold in_blob. rewrite (proj2 (Z.leb_le _ _)), (proj2 (Z.ltb_lt _ _)) by lia. done.
    + apply list.Forall_forall. intros u Hu. apply list_elem_of_In, in_concat in Hu as (l & Hl & Hu). apply in_map_iff in Hl as (c & <- & Hc).
      apply list_elem_of_In in Hc, Hu. eapply list.Forall_forall in Hts; [|exact Hc]. by eapply list.Forall_forall in Hts.
  - by constructor.
  - rewrite HL. constructor; [|done]. intros Hin. eapply list.Forall_forall in Hlt; [|exact Hin]. cbn in Hlt. lia.
  - rewrite H4. cbn [fmap list_fmap list_to_set foldr]. rewrite Et. set_solver.
Qed.
Lemma read_root_spec blob r : read_root blob = Some r → store_ok (unprimed blob r).
Proof.
  unfold read_root. destruct (_ && _) eqn:E; [|done]. intros _. apply andb_true_iff in E as [E Hl%Z.ltb_lt]. apply andb_true_iff in E as [_ E%bool_decide_eq_true].
  split; cbn; [|done|done|done|done|done]. destruct blob; [done|]. injection E as -> _. done.
Qed.
Lemma view_digest p h : view p = Some (DigestView h) → p !! 0%nat = Some DIGEST ∧ ∃ l, slice p 1 32 = Some l ∧ be_val l = h.
Proof.
  unfold view. destruct (p !! 0%nat) as [tag|]; [|done]. cbn [mbind option_bind]. destruct (tag =? BRANCH); [by intros (? & _ & H)%bind_Some|].
  destruct (tag =? EXT); [intros H; by repeat apply bind_Some in H as (? & _ & H)|]. destruct (tag =? LEAF_ACCT); [intros H; by repeat apply bind_Some in H as (? & _ & H)|].
  destruct (tag =? LEAF_STORAGE); [intros H; by repeat apply bind_Some in H as (? & _ & H)|]. destruct (Z.eqb_spec tag DIGEST) as [->|]; [|by destruct (tag =? EMPTY)].
  intros (l & Hl & [= <-])%bind_Some. split; [done|]. by exists l.
Qed.
Lemma digest_view p nd : view p = Some nd → p !! 0%nat = Some DIGEST → ∃ h, nd = DigestView h.
Proof. unfold view. intros V E. rewrite E in V. change ((l ← slice p 1 32; Some (DigestView (be_val l))) = Some nd) in V. apply bind_Some in V as (l & _ & [= <-]). by eexists. Qed.
Lemma slice_drop p i j n : slice (drop i p) j n = slice p (i + j) n ∨ (length p < i)%nat.
Proof.
  destruct (Nat.ltb_spec (length p) i) as [|H]; [by right|left]. unfold slice. rewrite length_drop, drop_drop.
  destruct (Nat.leb_spec (j + n) (length p - i)), (Nat.leb_spec (i + j + n) (length p)); first [done|lia].
Qed.
(** a node of the blob, before the walk *)
Lemma unprimed_node keccak256 blob r s : bytes_ok blob → store_ok (unprimed blob r) → in_blob_node (unprimed blob r) s → at_node keccak256 (unprimed blob r) s.
Proof.
  intros Hb HT [Hin V]. pose proof Hin as Hr. unfold in_blob in Hr. apply andb_true_iff in Hr as [H1%Z.leb_le H2%Z.ltb_lt]. pose proof (so_blob _ HT) as H3.
  change (blob_ (unprimed blob r)) with blob in *. unfold HEADER_LEN, OVERLAY_BASE in *.
  split; [cbn; unfold OVERLAY_BASE; lia|lia| | |done].
  - unfold cur, cur_bytes, is_overlay_id, OVERLAY_BASE. cbn [unprimed overlay_]. rewrite lookup_empty, Z.geb_leb, (proj2 (Z.leb_gt _ _)) by lia. by rewrite Hin, orb_true_r.
  - unfold original_ok, OVERLAY_BASE. rewrite (proj2 (Z.ltb_lt _ _)) by lia. split; [done|]. change (blob_ (unprimed blob r)) with blob.
    assert (E0 : drop (Z.to_nat (tid s)) blob !! 0%nat = blob !! Z.to_nat (tid s)) by (by rewrite lookup_drop, Nat.add_0_r). destruct (is_digest s) eqn:D.
    + destruct s; try done. cbn [node_of tid] in *. apply view_digest in V as (Ht & l & Hl & <-). rewrite E0 in Ht.
      destruct (slice_drop blob (Z.to_nat id) 1 32) as [Es|?]; [|unfold len in *; lia]. rewrite Es in Hl. change HASH_RLP_LEN with (1 + 32)%nat.
      assert (S1 : slice blob (Z.to_nat id) 1 = Some [DIGEST]).
      { unfold slice. rewrite (proj2 (Nat.leb_le _ _)) by (unfold len in *; lia). by rewrite (drop_S _ _ _ Ht). }
      rewrite (slice_glue _ _ _ _ _ _ S1 Hl). destruct (slice_Some _ _ _ _ Hl) as (Hll & El & _). unfold hash_rlp. cbn [app]. do 2 f_equal. rewrite <- Hll at 1. symmetry. apply be_bytes_be_val.
      rewrite El in Hb. by apply Forall_app in Hb as [_ [? _]%Forall_app].
    + destruct s; try done; intros Ht; rewrite <- E0 in Ht; by destruct (digest_view _ _ V Ht).
Qed.
Section constructor.
Context (keccak256 : list Z → Z).
#[local] Instance no_branches : Branches := λ _, false.
Lemma prime_forest fuel : ∀ off o F T o' T', HEADER_LEN <= off → store_ok T → Forall (λ i, i < off) (ids_list F) → forest T o F →
  prime keccak256 fuel off o T = Ok (o', T') → ∃ F', forest T o' F'.
Proof.
  induction fuel as [|fuel IH]; intros off o F T o' T' Hoff HT Hlt HF E; [done|]. destruct (drop (Z.to_nat off) (blob_ T)) as [|b p] eqn:Ep.
  { cbn [prime] in E. rewrite run_mget, Ep in E. apply ret_Ok in E as [-> _]. by exists F. }
  rewrite (prime_step _ _ _ _ _ _ _ Ep) in E. apply bind_Ok in E as (n & T0 & [Hn ->]%mvalue_Ok & E). apply bind_Ok in E as (nd & T0 & [V ->]%mvalue_Ok & E).
  apply bind_Ok in E as (o1 & T0 & Hcl & E). pose proof (claim_state _ _ _ _ _ _ Hcl) as ->. destruct (claim_forest _ _ _ _ _ _ _ Hcl HF) as (ts & F1 & Ec & Hts & HP & HF1).
  apply bind_Ok in E as (u & T1 & E1 & E). destruct (checked_end_spec _ _ Hn) as [Hpos Hnull]. pose proof (inside _ _ _ _ Ep) as Hin.
  assert (HI : inv keccak256 Empty T) by (split; [done|constructor|constructor]).
  destruct (prime_node_sound keccak256 Empty (wf_Empty _ _) _ _ _ _ _ _ HI Hin V E1) as [HI' [m ->]].
  destruct (forest_grow T o1 F off nd ts F1 Hts HP Hlt (fo_nodup _ _ _ HF) HF1 (conj Hoff Hin) V ltac:(congruence) Ec) as [HF2 HL].
  assert (Hlt' : Forall (λ i, i < off + Z.of_nat n) (ids_list (grow off nd ts :: F1))).
  { rewrite HL. constructor; [lia|]. apply (list.Forall_impl _ _ _ Hlt). intros i Hi. cbn beta in *. lia. }
  destruct (IH (off + Z.of_nat n) _ (grow off nd ts :: F1) _ _ _ ltac:(lia) (in_store _ _ _ HI') Hlt' ltac:(by destruct HF2; split) E) as [F' [G1 G2 G3 G4]].
  by exists F'.
Qed.
Lemma constructor_ok blob T : bytes_ok blob → make_OffsetTrie keccak256 blob = Ok T →
  ∃ t m, T = set_hashes m (unprimed blob (tid t)) ∧ original T t ∧ NoDup (ids t) ∧ ∀ HB : Branches, wf true 64 t → rooted_held keccak256 T t.
Proof.
  intros Hb E. unfold make_OffsetTrie in E. destruct (read_root blob) as [r|] eqn:Er; [|done]. pose proof (read_root_spec blob r Er) as HT.
  fold (unprimed blob r) in E. destruct ((massert _ ≫= _) (unprimed blob r)) as [[u T1]| |] eqn:R; [|done|done]. injection E as ->.
  apply bind_Ok in R as ([] & T0 & [_ ->]%massert_Ok & R). apply bind_Ok in R as (o & T1 & P & R). apply bind_Ok in R as (o' & T2 & C & R). apply massert_Ok in R as [He%bool_decide_eq_true ->].
  assert (HF0 : forest (unprimed blob r) ∅ []) by (split; [done..|apply NoDup_nil_2|done]).
  destruct (prime_forest _ _ _ [] _ _ _ (Z.le_refl _) HT (Forall_nil_2 _) HF0 P) as [F HF].
  assert (HI : inv keccak256 Empty (unprimed blob r)) by (split; [done|constructor|constructor]).
  destruct (prime_sound keccak256 Empty (wf_Empty _ _) _ _ _ _ _ _ HI P) as [_ [m ->]].
  assert (C' : claim (len blob) [r] o (set_hashes m (unprimed blob r)) = Ok (o', T2)) by (cbn [claim]; by rewrite (bind_Ok_eq _ _ _ _ _ C)).
  pose proof (claim_state _ _ _ _ _ _ C') as ->. destruct (claim_forest _ _ _ _ F _ _ C' ltac:(by destruct HF; split)) as (ts & F' & Et & Ho & HP & _).
  destruct ts as [|t [|]]; try done. injection Et as <-. apply list.Forall_cons in Ho as [Ho _]. exists t, m. assert (Hnd : NoDup (ids t)).
  { pose proof (fo_nodup _ _ _ HF) as H. rewrite HP, ids_list_cons, <- app_assoc in H. by apply list.NoDup_app in H as [? _]. }
  split_and!; [done|done|done|]. intros HB Hwf. split; [|done].
  assert (HI' : inv keccak256 t (unprimed blob (tid t))).
  { split; [done| |done]. apply (list.Forall_impl _ _ _ Ho). intros s Hs. by apply unprimed_node. }
  destruct (prime_sound keccak256 t Hwf _ _ _ _ _ _ HI' P) as [[S1 S2 _] _]. by split.
Qed.
End constructor.
