(* ===== verification/OffsetTrieExamples.v ===== *)
(** * A witness and the tree it stands for

    Two blobs: a branch over two digests, and the same branch over the two
    account leaves.  The constructor accepts both. *)
From S2P Require Import Prelude Account Uint256Text BlockState Transaction Rlp RlpFacts OffsetTrie OffsetTrieNodes OffsetTrieTree OffsetTrieStore OffsetTrieUpsert OffsetTrieErase OffsetTrieEncode OffsetTrieHash OffsetTrieCanonical OffsetTrieRoot OffsetTrieMap PartialTrieDb PartialTrieDbFacts OffsetTrieWitness OffsetTrieReads.

(** a function in the place of keccak256 *)
Definition toy_digest : Z := 0x2222222222222222222222222222222222222222222222222222222222222222.
Definition toy (_ : list Z) : Z := toy_digest.
Definition alice : Account := mkAccount 5 NULL_HASH 1 (mkIncarnation 0 0).
Definition toy_leaf (id : Z) : tree := ALeaf id (replicate 63 0) (encode_bytes32 NULL_HASH) (nonce_balance alice) Empty.
Definition toy_D (_ : Z) : tree := toy_leaf 0.

Definition header_bytes (r : Z) : list Z := [77; 90; 87; 1] ++ le_bytes 4 r.
Definition witness_blob : list Z :=
  header_bytes 74 ++ append_digest toy_digest ++ append_digest toy_digest ++ append_branch ([8; 41] ++ replicate 14 0).
Definition leaf_bytes : list Z := acct_bytes 0 (encode_bytes32 NULL_HASH) (nonce_balance alice) (replicate 63 0).
Definition full_blob : list Z :=
  header_bytes 156 ++ leaf_bytes ++ leaf_bytes ++ append_branch ([8; 82] ++ replicate 14 0).
Definition witness_trie : OffsetTrie := mkOffsetTrie witness_blob ∅ {[74 := toy_digest]} OVERLAY_BASE 74.
Definition full_trie : OffsetTrie := mkOffsetTrie full_blob ∅ {[8 := toy_digest; 82 := toy_digest; 156 := toy_digest]} OVERLAY_BASE 156.
Definition witness_tree : tree := Branch 74 ([Digest 8 toy_digest; Digest 41 toy_digest] ++ replicate 14 Empty).
Definition full_tree : tree := Branch 156 ([toy_leaf 8; toy_leaf 82] ++ replicate 14 Empty).
Lemma witness_trie_made : make_OffsetTrie toy witness_blob = Ok witness_trie.
Proof. vm_compute. reflexivity. Qed.
Lemma full_trie_made : make_OffsetTrie toy full_blob = Ok full_trie.
Proof. vm_compute. reflexivity. Qed.

#[local] Instance toy_branches : Branches := digest_branches toy_D.
Ltac concrete := vm_compute; first [reflexivity | split; congruence | discriminate | lia].
Lemma lookup_cases {A} (m : gmap Z A) (P : Z → A → Prop) : map_Forall P m → ∀ i a, m !! i = Some a → P i a.
Proof. done. Qed.
Lemma concrete_store T : blob_ T !! 0%nat = Some EMPTY → overlay_ T = ∅ → len (blob_ T) < OVERLAY_BASE → OVERLAY_BASE <= next_id_ T →
  map_Forall (λ id _, id < next_id_ T) (hashes_ T) → store_ok T.
Proof. intros H1 H2 H3 H4 H5. split; try done; rewrite H2; by intros. Qed.
Lemma concrete_node T s : 0 < tid s < next_id_ T → tid s < 2 ^ 32 → cur T (tid s) = Some (node_of s) → original_ok T s →
  (match hashes_ T !! tid s with Some h => h = root_hash toy s ∧ 32 <= len (rlp toy s) | None => True end) → at_node toy T s.
Proof. intros H1 H2 H3 H4 H5. split; [done..|]. intros h Hh. by rewrite Hh in H5. Qed.
Ltac concrete_node := apply concrete_node; [split; concrete|concrete|concrete|vm_compute; (split; [reflexivity|first [reflexivity|discriminate]])|vm_compute; first [exact I|split; [reflexivity|congruence]]].
Lemma toy_leaf_wf id : wf true 63 (toy_leaf id).
Proof. constructor; [done|by apply Forall_replicate; unfold nibble_ok|apply bytes32_len|apply nonce_balance_len|constructor]. Qed.
Lemma toy_branch_wf id c d : wf true 63 c → wf true 63 d → is_empty c = false → is_empty d = false → wf true 64 (Branch id ([c; d] ++ replicate 14 Empty)).
Proof.
  intros Hc Hd Ec Ed. constructor; [done| |].
  - cbn [app]. rewrite !occupied_cons, Ec, Ed. lia.
  - cbn [app]. constructor; [done|]. constructor; [done|]. apply Forall_replicate. constructor.
Qed.
Lemma witness_held : rooted_held toy witness_trie witness_tree.
Proof.
  split; [|done]. split.
  - apply concrete_store; [done|done|concrete|concrete|]. apply map_Forall_singleton. concrete.
  - repeat (constructor; [concrete_node|]). constructor.
  - apply (bool_decide_unpack _). vm_compute. exact I.
  - apply toy_branch_wf; [by constructor|by constructor|done|done].
Qed.
Lemma full_held : rooted_held toy full_trie full_tree.
Proof.
  split; [|done]. split.
  - apply concrete_store; [done|done|concrete|concrete|]. repeat (apply map_Forall_insert_2; [concrete|]). apply map_Forall_empty.
  - repeat (constructor; [concrete_node|]). constructor.
  - apply (bool_decide_unpack _). vm_compute. exact I.
  - apply toy_branch_wf; [apply toy_leaf_wf|apply toy_leaf_wf|done|done].
Qed.
Lemma full_complete : complete full_tree.
Proof. repeat (constructor; [done|]). constructor. Qed.
(** a key of a branch with two children *)
Lemma two_children id c d k : key_ok 64 k → ∃ a k', k = a :: k' ∧ key_ok 63 k' ∧
  find (Branch id ([c; d] ++ replicate 14 Empty)) k = if a =? 0 then find c k' else if a =? 1 then find d k' else Absent.
Proof.
  intros [Hl Hok]. destruct k as [|a k]; [done|]. apply list.Forall_cons in Hok as [Ha Hok]. exists a, k. split_and!; [done|split; [cbn in Hl; lia|done]|].
  rewrite find_branch. cbn [app]. unfold nibble_ok in Ha. destruct (Z.eqb_spec a 0) as [->|H0]; [done|]. destruct (Z.eqb_spec a 1) as [->|H1]; [done|].
  destruct (Z.to_nat a) as [|[|i]] eqn:Ei; [lia|lia|]. cbn [lookup list_lookup]. destruct (replicate 14 Empty !! i) as [e|] eqn:Ee; [|done]. by apply lookup_replicate in Ee as [-> _].
Qed.
Lemma toy_backs : backs toy toy_D true 63 toy_digest.
Proof. split; [apply toy_leaf_wf|repeat (constructor; [done|]); constructor|done|concrete]. Qed.
Lemma witness_backed : backed toy toy_D true 64 witness_tree.
Proof.
  intros k Hk. destruct (two_children 74 (Digest 8 toy_digest) (Digest 41 toy_digest) k Hk) as (a & k' & -> & [Hl _] & F). unfold witness_tree. rewrite F.
  destruct (a =? 0); [|destruct (a =? 1); [|done]]; cbn [find backed_at]; rewrite Hl; apply toy_backs.
Qed.
Lemma witness_full : alike (expand toy_D witness_tree) full_tree.
Proof.
  intros k Hk. change (expand toy_D witness_tree) with (Branch 74 ([toy_leaf 0; toy_leaf 0] ++ replicate 14 Empty)).
  destruct (two_children 74 (toy_leaf 0) (toy_leaf 0) k Hk) as (a & k' & -> & _ & F). destruct (two_children 156 (toy_leaf 8) (toy_leaf 82) (a :: k') Hk) as (a' & k'' & [= <- <-] & _ & F').
  unfold full_tree. rewrite F, F'. unfold toy_leaf. cbn [find]. destruct (a =? 0), (a =? 1), (decide (replicate 63 0 = k')); done.
Qed.
Lemma full_original : original full_trie full_tree.
Proof. repeat (constructor; [split; vm_compute; reflexivity|]). constructor. Qed.

(** a block: a new account with a slot *)
Definition bob : Account := mkAccount 7 NULL_HASH 0 (mkIncarnation 0 0).
Definition toy_header : BlockHeader := mkBlockHeader [] 0 0 0 0 0 0 0 9 100000 0 0 [] [] 0 (Some 1) None None None None None None.
Definition block_deltas : list (Z * Delta) := [(5, mkDelta (None, Some bob) [(1, (0, 9))])].
Lemma block_deltas_ok : deltas_ok toy block_deltas.
Proof.
  split; [apply NoDup_singleton|]. constructor; [|constructor]. split_and!; [apply NoDup_singleton|constructor; [cbn; lia|constructor]|]. cbn. unfold account_ok, uint_ok. cbn. vm_compute. split_and!; congruence.
Qed.
Lemma toy_key a : nibble_ok a → key_ok 64 (replicate 64 a).
Proof. intros H. split; [done|]. by apply Forall_replicate. Qed.
Lemma same_deltas_refl deltas : same_deltas deltas deltas.
Proof. exists deltas. split; [done|]. induction deltas as [|[a d] l IH]; constructor; [by split; [|split]|done]. Qed.
Definition committed : OffsetTrie := match commit_deltas toy block_deltas witness_trie with Ok (_, T) => T | _ => witness_trie end.
Lemma witness_commits : commit_deltas toy block_deltas witness_trie = Ok ((), committed).
Proof. vm_compute. reflexivity. Qed.
