(* ===== verification/OffsetTrieTheorems.v ===== *)
(** * What the witness trie and its database promise

    The trie as a map, its root hash, the reads of the pre-state, and what
    committing a block to a witness computes. *)
From S2P Require Import Prelude Account Uint256Text BlockState Transaction Rlp RlpFacts OffsetTrie OffsetTrieNodes OffsetTrieTree OffsetTrieStore OffsetTrieUpsert OffsetTrieErase OffsetTrieEncode OffsetTrieHash OffsetTrieCanonical OffsetTrieRoot OffsetTrieMap PartialTrieDb PartialTrieDbFacts OffsetTrieWitness OffsetTrieReads OffsetTriePriming OffsetTrieExamples.

(** ** The root *)
Lemma state_root_ok {HB : Branches} keccak256 T t : rooted_held keccak256 T t →
  ∃ T', state_root keccak256 T = Ok (root_hash keccak256 t, T') ∧ rooted_held keccak256 T' t ∧ hashed T T' (ids t).
Proof.
  intros [[H1 H2 H3 H4] Hr]. destruct (hash_ok keccak256 t true 64 trie_fuel H4 ltac:(done) H3 ltac:(unfold enough, trie_fuel; lia)) as [_ H].
  destruct (H (rooted_64 keccak256 true t H4) T H1 H2) as (T' & R & Hh & Hr'). exists T'. split; [unfold state_root; by rewrite run_mget, Hr|]. split; [|done].
  destruct Hh as [Ev [m ->]]. split; [by split; [apply Ev|..]|done].
Qed.
(** [commit] around the passes over the deltas. *)
Lemma commit_run keccak256 header deltas populate db T' : commit_deltas keccak256 deltas (trie_ db) = Ok ((), T') →
  commit keccak256 header deltas (Some populate) db =
    (h ← populate header; mmodify (set_last_header h)) (mkPartialTrieDb T' (codes_ db) (hdr_number header) header).
Proof.
  intros R. unfold commit. rewrite run_mmodify. assert (E : on_trie (commit_deltas keccak256 deltas) (set_block_number (hdr_number header) db) = Ok ((), set_trie T' (set_block_number (hdr_number header) db))).
  { unfold on_trie. cbn [trie_ set_block_number]. by rewrite R. }
  by rewrite (bind_Ok_eq _ _ _ _ _ E), run_mmodify, run_mvalue.
Qed.
Lemma commit_abort keccak256 header deltas populate db : commit_deltas keccak256 deltas (trie_ db) = Abort → commit keccak256 header deltas populate db = Abort.
Proof.
  intros R. unfold commit. rewrite run_mmodify. apply bind_Abort. unfold on_trie. cbn [trie_ set_block_number]. by rewrite R.
Qed.

(** ** The promises *)
Section promises.
Context {HB : Branches} (keccak256 : list Z → Z).
Abbreviation held := (held keccak256).
Abbreviation rooted_held := (rooted_held keccak256).

(** [upsert_node] followed by [put_storage] is insertion into a map: on a
    store that holds a canonical storage tree, with room for three more node
    ids, the two calls succeed exactly if the key does not lead below a
    digest (otherwise the process stops); afterwards the store holds a
    canonical tree in which the key finds the new value and every other key
    finds what it found before, whether the leaf was there, split from a
    leaf, hung from a split extension or added to a branch; the root keeps
    its id unless the tree was empty, and every cached hash that is left is
    the hash of its node. *)
Theorem trie_insert T t key v : held T false t → key_ok 64 key → next_id_ T + 3 <= 2 ^ 32 → 0 <= v < 2 ^ 256 →
  (upsert_node trie_fuel (tid t) key T = Abort ∧ known (find t key) = false) ∨
  ∃ leaf p T1 T2 t', upsert_node trie_fuel (tid t) key T = Ok ((leaf, p), T1) ∧ put_storage leaf p v T1 = Ok (leaf, T2) ∧
    tid t' = (if tid t =? NULL_ID then leaf else tid t) ∧ held T2 false t' ∧
    ∀ k, key_ok 64 k → find t' k = if decide (k = key) then Found (CStorage v) else find t k.
Proof.
  intros HT Hk Hn Hv. destruct (storage_upsert keccak256 T t key v HT Hk Hn Hv) as [?|(leaf & p & T1 & T2 & t' & R1 & R2 & Ht & U & F)]; [by left|right].
  exists leaf, p, T1, T2, t'. split_and!; [done|done|done|exact (up_held _ _ _ _ _ _ _ U)|done].
Qed.

(** C17: [erase_node] is deletion from a map: on a store that holds a
    canonical tree, it stops the process only if the tree has a digest;
    otherwise the key finds nothing afterwards and every other key finds what
    it found before.  The tree is canonical again: a branch left with one
    child has become an extension or been folded with the leaf or extension
    below it, and the result [Erased] says the tree is now empty. *)
Theorem trie_erase T acct t key : held T acct t → key_ok 64 key →
  (erase_node trie_fuel (tid t) key T = Abort ∧ ¬ complete t) ∨
  ∃ r T' t', erase_node trie_fuel (tid t) key T = Ok (r, T') ∧ tid t' = match r with Erased => NULL_ID | _ => tid t end ∧ held T' acct t' ∧
    ∀ k, key_ok 64 k → find t' k = if decide (k = key) then Absent else find t k.
Proof.
  intros HT Hk. destruct (erase_held keccak256 T acct t key HT Hk) as [?|(r & T' & t' & R & Ht & U & F)]; [by left|right].
  exists r, T', t'. split_and!; [done|done|exact (up_held _ _ _ _ _ _ _ U)|done].
Qed.

(** C15: [state_root] returns the Merkle root of the tree the store holds, as
    Ethereum defines it: the buffers filled from the end, the runs of digests
    copied from the blob and the cached hashes compute the RLP of every node,
    nodes below 32 bytes are inlined and others are hashed.  It always
    returns, and the hashes it adds to the cache are those of nodes of the
    tree, so that the store still holds the tree. *)
Theorem trie_state_root T t : rooted_held T t →
  ∃ T', state_root keccak256 T = Ok (root_hash keccak256 t, T') ∧ rooted_held T' t ∧ ∃ m, T' = set_hashes m T.
Proof. intros H. destruct (state_root_ok keccak256 T t H) as (T' & R & H' & _ & Hm). eauto. Qed.

(** C16: The state root is a function of the state: two stores, with whatever
    history of insertions and erasures, that hold complete canonical trees
    with the same accounts and the same slots return the same root. *)
Theorem state_root_content T1 T2 t1 t2 : rooted_held T1 t1 → rooted_held T2 t2 → complete t1 → complete t2 → alike t1 t2 →
  ∃ r T1' T2', state_root keccak256 T1 = Ok (r, T1') ∧ state_root keccak256 T2 = Ok (r, T2').
Proof.
  intros H1 H2 C1 C2 Ha. destruct (state_root_ok keccak256 T1 t1 H1) as (T1' & R1 & _). destruct (state_root_ok keccak256 T2 t2 H2) as (T2' & R2 & _).
  exists (root_hash keccak256 t1), T1', T2'. split; [done|]. rewrite (alike_root keccak256 t1 t2); [done|apply H1|apply H2|done..].
Qed.

(** C14: [commit] applies the deltas of a block: with distinct keys, values in
    range and enough node ids, it stops the process only if the tree has a
    digest; otherwise the trie holds a canonical tree in which every account
    a changed delta gives is stored with its nonce, balance and code hash,
    every changed slot of it has its new value (or none, if that is zero) and
    its other slots the old ones (or none, if the incarnation changed), the
    deleted accounts find nothing, and every other key finds what it found
    before; the header callback then runs on that database. *)
Theorem commit_correct db t header deltas populate : rooted_held (trie_ db) t → deltas_ok keccak256 deltas → next_id_ (trie_ db) + total delta_cost deltas <= 2 ^ 32 →
  (commit keccak256 header deltas (Some populate) db = Abort ∧ ¬ complete t) ∨
  ∃ T' t', commit keccak256 header deltas (Some populate) db =
      (h ← populate header; mmodify (set_last_header h)) (mkPartialTrieDb T' (codes_ db) (hdr_number header) header) ∧
    rooted_held T' t' ∧ post keccak256 (commit_after keccak256) deltas t t' ∧ (complete t → complete t').
Proof.
  intros H Hd Hn. destruct (commit_deltas_ok keccak256 deltas (trie_ db) t H Hd Hn) as [[R Hc]|(T' & t' & R & H' & _ & P & C)].
  - left. split; [by apply commit_abort|done].
  - right. exists T', t'. split; [by apply commit_run|done].
Qed.

(** C18: A blob the constructor accepts holds one tree: whatever bytes it is
    given, if the constructor returns, the nodes below the root make up a
    tree in which no node occurs twice (every offset is claimed by one parent
    only, and a node is claimed after it has been read), the trie consists of
    the blob, the root of its header, an empty overlay and the hashes cached
    by the walk; and if the tree has the canonical shape, which the
    constructor does not check, those hashes are the hashes of its nodes, so
    that the other promises hold of the trie. *)
Theorem constructor_holds blob T : bytes_ok blob → make_OffsetTrie keccak256 blob = Ok T →
  ∃ t m, T = set_hashes m (unprimed blob (tid t)) ∧ original T t ∧ NoDup (ids t) ∧ ∀ HB : Branches, wf true 64 t → PartialTrieDbFacts.rooted_held keccak256 T t.
Proof. apply constructor_ok. Qed.

(** C19: Reads answer from the pre-state: where the blob holds a canonical
    tree, [read_account] finds nothing for an address whose key is absent and
    otherwise the account that was encoded there, without an incarnation;
    [read_storage] returns the value of the slot, and zero where the account
    or the slot is absent. *)
Theorem witness_reads T t addr slot akey skey : original T t → root T = tid t → wf true 64 t →
  account_key keccak256 addr = Some akey → slot_key keccak256 slot = Some skey →
  (find t akey = Absent → trie_read_account keccak256 addr T = Ok (None, T) ∧ trie_read_storage keccak256 addr slot T = Ok (0, T)) ∧
  (∀ a st, account_ok a → find t akey = Found (account_content a st) →
     trie_read_account keccak256 addr T = Ok (Some (mkAccount (balance a) (code_hash a) (nonce a) (mkIncarnation 0 0)), T) ∧
     (find st skey = Absent → trie_read_storage keccak256 addr slot T = Ok (0, T)) ∧
     (∀ v, find st skey = Found (CStorage v) → trie_read_storage keccak256 addr slot T = Ok (v, T))).
Proof.
  intros Ho Hr Hwf Ha Hs. destruct (hashed_key_ok keccak256 (be_bytes 20 addr)) as (k & E & Hk). unfold account_key in Ha. rewrite Ha in E. injection E as <-.
  destruct (hashed_key_ok keccak256 (be_bytes 32 slot)) as (k & E & Hk'). unfold slot_key in Hs. rewrite Hs in E. injection E as <-.
  pose proof (find_original_root t akey T Ho Hwf Hk) as F. unfold trie_read_account, trie_read_storage, account_key, slot_key. rewrite Ha, Hs, !run_mvalue, !run_mget, Hr. split.
  - intros E. rewrite E in F. cbn [found_original] in F. rewrite !(bind_Ok_eq _ _ _ _ _ F). by rewrite run_bind_ret.
  - intros a st Hok E. pose proof (find_wf t true 64 akey _ Hwf E) as (_ & _ & _ & Hst). rewrite E in F. destruct F as (p & F & Hos). rewrite !(bind_Ok_eq _ _ _ _ _ F), leaf_account_content, run_mvalue by done.
    split; [apply run_ret|]. rewrite run_bind_ret. destruct Hk' as [Hk1 Hk2].
    pose proof (find_original_ok st trie_fuel false 64 skey T Hos Hst Hk1 Hk2 ltac:(unfold trie_fuel; lia)) as Fs.
    assert (Hz : (tid st =? NULL_ID) = is_empty st).
    { destruct (is_empty st) eqn:Ee; [by destruct st|]. apply Z.eqb_neq. assert (H0 : in_blob_node T st) by (destruct st; [done|by inversion Hos..]). by destruct (read_original _ _ H0). }
    rewrite Hz. split.
    + intros Es. rewrite Es in Fs. destruct (is_empty st); [apply run_ret|]. by rewrite run_mvalue, (bind_Ok_eq _ _ _ _ _ Fs).
    + intros v Es. rewrite Es in Fs. destruct Fs as [p' Fs]. destruct (is_empty st) eqn:Ee; [by destruct st|]. by rewrite run_mvalue, (bind_Ok_eq _ _ _ _ _ Fs).
Qed.
End promises.

(** C13: Stateless execution computes the state root of the full state.  Let a
    witness hold a tree whose digests are the root hashes of the subtrees
    they stand for, and a second store the complete tree with the same
    accounts and slots.  If committing the deltas of a block to the witness
    does not stop the process, committing them to the full store does not
    either, in whatever order the maps of the deltas are iterated, and both
    stores then return the same state root. *)
Theorem stateless_root keccak256 D T1 T2 t1 t2 deltas deltas' T1' : let B := digest_branches D in
  rooted_held keccak256 T1 t1 → backed keccak256 D true 64 t1 →
  rooted_held keccak256 T2 t2 → complete t2 → alike (expand D t1) t2 →
  deltas_ok keccak256 deltas → deltas_ok keccak256 deltas' → same_deltas deltas deltas' →
  next_id_ T1 + total delta_cost deltas <= 2 ^ 32 → next_id_ T2 + total delta_cost deltas' <= 2 ^ 32 →
  commit_deltas keccak256 deltas T1 = Ok ((), T1') →
  ∃ T2' r S1 S2, commit_deltas keccak256 deltas' T2 = Ok ((), T2') ∧ state_root keccak256 T1' = Ok (r, S1) ∧ state_root keccak256 T2' = Ok (r, S2).
Proof.
  intros B H1 Hb H2 Hc Ha Hd Hd' Hs N1 N2 R. destruct (commit_deltas_ok keccak256 deltas T1 t1 H1 Hd N1) as [[? _]|(S1 & t1' & R1 & H1' & _ & P1 & _)]; [congruence|].
  rewrite R in R1. injection R1 as <-. destruct (commit_deltas_ok keccak256 deltas' T2 t2 H2 Hd' N2) as [[_ ?]|(T2' & t2' & R2 & H2' & _ & P2 & C2)]; [done|].
  destruct (post_alike keccak256 D deltas deltas' t1 t2 t1' t2' Hd Hs Ha Hb P1 P2) as [Ha' Hb'].
  destruct (state_root_ok keccak256 T1' t1' H1') as (S1 & E1 & _). destruct (state_root_ok keccak256 T2' t2' H2') as (S2 & E2 & _).
  exists T2', (root_hash keccak256 t1'), S1, S2. split_and!; [done|done|]. rewrite E2. do 2 f_equal.
  destruct (expand_ok keccak256 D t1' true 64 (he_wf _ _ _ _ (rh_held _ _ _ H1')) Hb') as [W C _ Er _]. rewrite <- Er. symmetry.
  apply alike_root; [done|apply H2'|done|auto|done].
Qed.

(** ** At concrete stores *)
#[local] Existing Instance toy_branches.
Lemma trie_insert_witness : ∃ leaf p T1 T2 t', upsert_node trie_fuel 0 (replicate 64 3) full_trie = Ok ((leaf, p), T1) ∧ put_storage leaf p 9 T1 = Ok (leaf, T2) ∧
  held toy T2 false t' ∧ find t' (replicate 64 3) = Found (CStorage 9).
Proof.
  destruct (trie_insert toy full_trie Empty (replicate 64 3) 9) as [[_ H]|(leaf & p & T1 & T2 & t' & R1 & R2 & _ & H & F)].
  - apply held_empty. apply full_held.
  - apply toy_key. done.
  - vm_compute. congruence.
  - lia.
  - done.
  - exists leaf, p, T1, T2, t'. split; [exact R1|]. split; [exact R2|]. split; [exact H|]. rewrite F; [rewrite decide_True by reflexivity; reflexivity|apply toy_key; split; [lia|lia]].
Defined.
Lemma trie_erase_witness : ∃ r T' t', erase_node trie_fuel 156 (replicate 64 0) full_trie = Ok (r, T') ∧ held toy T' true t' ∧ find t' (replicate 64 0) = Absent.
Proof.
  destruct (trie_erase toy full_trie true full_tree (replicate 64 0)) as [[_ H]|(r & T' & t' & R & _ & H & F)].
  - apply full_held.
  - apply toy_key. done.
  - destruct (H full_complete).
  - exists r, T', t'. split; [exact R|]. split; [exact H|]. rewrite F; [rewrite decide_True by reflexivity; reflexivity|apply toy_key; split; [lia|lia]].
Defined.
Lemma trie_state_root_witness : ∃ T', state_root toy witness_trie = Ok (toy_digest, T').
Proof. destruct (trie_state_root toy witness_trie witness_tree witness_held) as (T' & R & _). exists T'. exact R. Defined.
Lemma state_root_content_witness : ∃ r T1' T2', state_root toy full_trie = Ok (r, T1') ∧ state_root toy full_trie = Ok (r, T2').
Proof.
  apply (state_root_content toy full_trie full_trie full_tree full_tree full_held full_held full_complete full_complete).
  intros k Hk. pose proof (complete_find full_tree full_complete k) as C. by destruct (find full_tree k) as [| |[]].
Defined.
Lemma commit_correct_witness : let header := toy_header in let db := mkPartialTrieDb full_trie ∅ 0 header in
  ∃ T' t', commit toy header block_deltas (Some mret) db = (h ← mret header; mmodify (set_last_header h)) (mkPartialTrieDb T' ∅ (hdr_number header) header) ∧ rooted_held toy T' t'.
Proof.
  intros header db. destruct (commit_correct toy db full_tree header block_deltas mret full_held block_deltas_ok) as [[_ H]|(T' & t' & R & H & _)].
  - vm_compute. congruence.
  - destruct (H full_complete).
  - exists T', t'. split; [exact R|exact H].
Defined.
Lemma constructor_holds_witness : ∃ t, original full_trie t ∧ NoDup (ids t) ∧ root full_trie = tid t.
Proof.
  destruct (constructor_holds toy full_blob full_trie) as (t & m & E & Ho & Hn & _).
  - apply (bool_decide_unpack _). vm_compute. exact I.
  - exact full_trie_made.
  - exists t. split; [exact Ho|]. split; [exact Hn|]. rewrite E. reflexivity.
Defined.
Lemma witness_reads_witness : trie_read_account toy 5 full_trie = Ok (None, full_trie) ∧ trie_read_storage toy 5 1 full_trie = Ok (0, full_trie).
Proof.
  apply (witness_reads toy full_trie full_tree 5 1 (replicate 64 2) (replicate 64 2)); [exact full_original|reflexivity|apply full_held|vm_compute; reflexivity|vm_compute; reflexivity|reflexivity].
Defined.
Lemma stateless_root_witness : ∃ T2' r S1 S2, commit_deltas toy block_deltas full_trie = Ok ((), T2') ∧ state_root toy committed = Ok (r, S1) ∧ state_root toy T2' = Ok (r, S2).
Proof.
  apply (stateless_root toy toy_D witness_trie full_trie witness_tree full_tree block_deltas block_deltas committed witness_held witness_backed full_held full_complete witness_full
    block_deltas_ok block_deltas_ok (same_deltas_refl _)); [vm_compute; congruence|vm_compute; congruence|exact witness_commits].
Defined.
